(* ===== verification/_CoqProject ===== *)
-Q . S2P
Prelude.v
Num.v
FunkSet.v
FunkSlice.v
FunkMaps.v
FunkMaper.v
KvStore.v
Base64.v
StreamMessage.v
Aggregator.v
ProducerDaemon.v
Consumer.v
Cache.v
KvInMemory.v
KvRemote.v
Exec.v
ExecContext.v
Kernel.v
KernelSafety.v
KernelFactory.v
Dynamo.v
DdbLock.v
Limit.v
KinesisShards.v
KinesisCheckpoint.v
KinesisReader.v
KinesisWriter.v
Conc.v
CircuitBreaker.v
Scheduler.v
HttpConnections.v
SqlQuery.v
ClockFake.v
Texts.v
MapX.v
DdbBatch.v
MapMerge.v
Cfg.v
CfgLaws.v
CfgSettings.v
CfgPost.v
ModelId.v
ModelIdLaws.v
MdlSub.v
MdlSubLaws.v
Dbx.v
DbxLaws.v
KafkaConsumer.v
Sampling.v
Log.v
Sqs.v
SqsLaws.v
TaskRunner.v
Metric.v
Reslife.v
Currency.v
Autoscale.v
Cli.v
