(* ===== verification/Prelude.v ===== *)
(** * Verification of the gosoline application framework

    gosoline (https://github.com/justtrackio/gosoline) is a framework for Go services.  An
    application is a kernel that runs modules; the modules consume streams, produce to
    streams, read and write key-value stores, and share work with other instances of
    the same application through tables in DynamoDB.  This library models the parts of
    pkg/ that hold the framework's own logic as Rocq definitions, one file per
    component, and proves what makes them correct.

    ** Parts of the program and their files

    - The kernel (pkg/kernel).  [KernelFactory]: blueprint.go, factory.go,
      module.go, module_options.go, health_check.go: from factories to the stages of a kernel, with every error
      path.  [Kernel]: kernel.go, stage.go, stages.go as a transition system
      whose steps are what a goroutine does between two points at which it can wait.
      [KernelSafety]: its invariants and theorems.
    - Messages (pkg/stream, pkg/encoding/base64).  [StreamMessage]: message builders,
      encoding with compression and base64, chunks; [Base64]: the standard encoding.
      [Aggregator]: producer_daemon_aggregator.go and the partitioned and forwarding
      aggregators.  [ProducerDaemon]: producer_daemon.go, the batcher, the output
      channel: Write, the aggregation, the flushes, Close.  [Consumer]: consumer.go,
      consumer_batch.go, consumer_base.go: what happens to one received message.
      [Sqs] and [SqsLaws]: the output and the input on SQS, the output on SNS, the retry
      handlers, with queue.go of pkg/cloud/aws/sqs and topic.go of pkg/cloud/aws/sns.
    - Kinesis (pkg/cloud/aws/kinesis).  [KinesisShards]: kinsumer.go: which shards may
      be read and which client reads them.  [KinesisCheckpoint]:
      metadata_repository.go and checkpoint.go: registration, ownership and positions
      in a table that all clients share.  [KinesisReader]: shard_reader.go: the loop
      that reads a shard.  [KinesisWriter]: record_writer.go.
    - DynamoDB (pkg/ddb) and what is built on its conditional writes.  [Dynamo]: the
      writes of repository.go; [DdbBatch]: its queries, scans and batches; [DdbLock]:
      pkg/conc/ddb, distributed locks and leader election; [Limit]: pkg/limit, rate
      limits on DynamoDB and redis.
    - Configuration (pkg/cfg, pkg/mapx, pkg/mdl).  [Texts]: strings and templates with
      placeholders; [MapX]: key_split.go, mapnode.go, map.go: nested maps and paths into
      them; [MapMerge]: Merge of map.go; [Cfg]: config.go, sanitizer.go, environment.go,
      options.go, postprocessor.go; [CfgLaws]: reading values and texts; [CfgSettings]:
      settings over settings; [CfgPost]: the post processors; [ModelId] and
      [ModelIdLaws]: model_id.go and parse.go of pkg/mdl.
    - Key-value stores and caches.  [KvStore]: the interface, the chain of stores and
      the empty store of pkg/kvstore; [KvInMemory]: in_memory.go, batch.go, uniq.go;
      [KvRemote]: redis.go and ddb.go; [Cache]: pkg/cache.
    - Models that services share (pkg/mdlsub).  [MdlSub]: the publisher, the subscriber's
      core, its callback and the outputs for databases, DynamoDB, key-value stores and
      several of them; [MdlSubLaws]: their theorems.
    - SQL statements.  [Dbx] and [DbxLaws]: the query builders of pkg/dbx.
    - Kafka.  [KafkaConsumer]: consumer.go, partition_manager.go and partition_consumer.go
      of pkg/kafka/consumer.
    - Logging, metrics and sampling.  [Metric]: the channel, the writer and the daemon of
      pkg/metric; [Sampling]: pkg/smpl; [Log]: context.go, logger.go,
      fingers_crossed.go, logger_sampling.go, logger_message_encode_handler.go of pkg/log.
    - Resources and rates.  [Reslife]: the life cycle manager of pkg/reslife; [Currency]:
      service.go and updater.go of pkg/currency.
    - Scaling.  [Autoscale]: the module of pkg/stream that sets the tasks of a kinsumer to
      its shards, and the metrics per runner of pkg/metric/calculator.
    - Command lines (pkg/cli).  [Cli]: arguments and flags, the command they select, its
      settings, and the help.
    - Building blocks.  [Exec]: pkg/exec, retries; [ExecContext]: context.go of pkg/exec;
      [ClockFake]: the fake clock and the health check timer of pkg/clock; [Conc]: the key lock and the lazy
      values of pkg/conc; [Scheduler]: pkg/conc/scheduler; [TaskRunner]: the
      task runner, the poisoned lock and the signal of pkg/conc; [CircuitBreaker]:
      pkg/http/circuit_breaker.go; [HttpConnections]: the limits on connections and
      requests of pkg/httpserver; [SqlQuery]: pkg/httpserver/sql, the filters of list
      requests and the SQL text they become; [FunkSet], [FunkSlice], [FunkMaps], [FunkMaper]:
      pkg/funk; [Num]: machine numbers; this file: what all of them share.

    ** How they interact

    The models call each other where the code does: the aggregators and the daemon
    encode with [StreamMessage]; [KvInMemory] and [KvStore] chunk and deduplicate with
    [FunkSlice]; the writer chunks with it; the locks, the limiter and the metadata
    repository write through [Dynamo]; the reader releases the checkpoints of
    [KinesisCheckpoint], and the distribution of shards in [KinesisShards] is proved
    for the client indices that [KinesisCheckpoint] hands out
    ([registered_clients_share_shards]).  The configuration reads and writes its
    settings through [MapX] and [MapMerge], and the model ids read the configuration
    through its interface, which the samples of [ModelIdLaws] fill with [Cfg].  A subscriber
    ([MdlSub]) finds its transformer by the texts of model ids ([ModelId]), looks at the
    errors of its output as [Exec] does, and persists through the interface of [KvStore].
    Interfaces of the program are classes: the key-value store and its laws
    ([KvStore]), the metadata repository ([KinesisShards]), a table and its laws
    ([Dynamo]), a redis counter ([Limit]), a tracker of elapsed time ([Exec]), the
    environment ([Cfg]), the configuration ([ModelId]); the theorems of a client are
    proved from the laws, the instances discharge them.

    ** How the code is translated

    A Go function is a function on the state it changes; a method is one on the record
    of its receiver.  An error is a value: [result] where the function returns a value
    only without error, an [option] of an error where it returns only that, and a
    panic is an [Err] of type [panic].  A nil pointer is [None].  An integer is a [Z]
    with its width written out where it can matter ([int64] in [Num]).  A map is a
    [gmap]; a loop over a map takes the order of the visit as an argument
    ([map_order]) and the theorems hold for every order.  Time is a [Z] in nanoseconds
    that the caller passes in.  What is not under src/ (AWS, redis, gzip, MD5,
    encoding/json, ccache, cenkalti/backoff) is a parameter with named laws, and every
    theorem with such a law has a witness in which it holds.  A component whose
    goroutines share state is a transition system, and the theorems about it are by
    induction on its steps: [Kernel], [KinesisCheckpoint], [DdbLock], [Conc],
    [CircuitBreaker], [Scheduler], [HttpConnections], [ExecContext],
    [KafkaConsumer], [TaskRunner], [Metric].  Where a request can get lost, its fate
    ([network] in [Dynamo]) is an argument.

    ** What the theorems show

    - Kernel: stages boot in ascending and stop in descending order of their index, a
      module's error or a forced exit decides the exit code, a kernel whose modules
      are done stops; [failed_boot_blocks] shows the one start from which it hangs.
      [build_correct] characterises the factory on all of its paths.
    - Streams: as long as the output takes the batches, no message is lost or duplicated on
      its way through aggregator, batcher and output channel ([daemon_delivers_all], [aggregator_conserves_messages]), the
      limits hold, decoding inverts encoding, every message is acknowledged or put
      into the retry queue as the acknowledgement mode says.
      What is written to a queue reaches it once and in order ([sqs_Write_correct]), it
      arrives as it was ([sqs_message_arrives]) and is deleted only if it was
      acknowledged ([AckBatch_correct]); a topic gets what is published
      ([PublishBatch_correct]).
    - Kinesis: a shard has one owner at a time and its position survives a handover;
      registered clients share the shards; all shards get consumed, parents first; a
      reader skips no record; the writer stores every record once.
    - Locks and limits: no two owners of a distributed lock and no two leaders, for clocks
      that differ, tables that are read late and items that DynamoDB deletes late
      ([lock_mutual_exclusion], [at_most_one_leader]; [early_deletion_breaks_exclusion] and
      [lease_margin_needed] show what their assumptions are for); the redis limiter counts
      windows.
    - Stores: the chain refines a single store; caches agree with it after writes; the
      stores on redis and DynamoDB refine a map for every sequence of calls
      ([redis_refines_map], [ddb_refines_map]).
    - Models: what is published is what a subscriber reads; a core serves every
      subscriber's model in every version; a subscriber's store mirrors the models that
      were published ([subscriber_mirrors_model]), and every message is acknowledged or
      fails with a reason ([Consume_correct]).
    - Time: the fake clock is a clock of deadlines ([fake_clock_refines_deadlines]); a
      stoppable context is canceled only for its reasons and stop returns ([stop_returns]).
    - Batches and pages of DynamoDB: a query returns every row once, in order, whatever
      the pages are, and a scan too; a batch write performs every request or returns an error.
    - Configuration: what is set at a path is read there; a merge of maps is the deep
      merge of their trees; later settings go over earlier ones and the environment over
      all of them, leaf by leaf ([settings_precedence]); the text of a key is its
      template with the texts of the placeholders, and it is there with fuel for the
      depth of the placeholders ([GetString_templates]); post processors run by their
      priority; the text of a model id and its parser invert each other.
    - SQL: the text and the arguments of a filter are a condition of SQL's three truth
      values that is true for exactly the rows the filter holds for in two-valued logic
      ([buildFilter_meaning]); no text of a request reaches the query.
      A statement of dbx is the text of its clauses with each argument at its
      placeholder, in every format ([select_binds_arguments]).
    - Kafka: a partition's records are handled by one goroutine and only while the client
      owns the partition, or the group took it away without waiting ([partitions_exclusively_owned]), they are committed after they
      were handled, and Stop returns; [failed_commit_blocks_Run] shows how Run can hang.
    - Logging: what is logged in a scope is held back, and written in order when there is
      an error ([fingers_crossed_correct]); fields travel with messages
      ([fields_travel]); what is written as a metric reaches the writers once
      ([metrics_reach_writers]); the first sampling strategy that applies decides, once.
    - Resources: no resource is created twice ([created_at_most_once]), and the first that
      fails stops the start of the application ([middleware_stops]).
    - Scaling: a round of the leader that ends well leaves as many tasks as there are open
      shards ([autoscaleKinsumer_correct]).
    - Command lines: the arguments that are accepted are those of a grammar, and mean what it
      says ([NewInputWithArgs_grammar]); a command is selected by a route through the
      groups, with its flags ([NewBlueprint_correct]).
    - Rates: a day has the rate of the first provider with one for it, or of the last day
      before it in the update ([EnsureHistoricalExchangeRates_correct]); a conversion divides
      by one rate and multiplies with the other ([ToCurrencyAtDate_correct]).
    - Concurrency: every task that the task runner accepts is started, and Run returns
      ([accepted_tasks_run]; [shutdown_deadlock] shows the exception); mutual exclusion, reference counts and progress of the key lock; no
      job of the scheduler is lost and each is answered; trials of an open circuit
      are a retry delay apart; no more connections are open than allowed; retries end
      within their bounds.

    Modelling showed divergences between code and intent; each is stated as a theorem
    of the code as it is, such as [stale_acquire_loses_progress],
    [ddb_window_not_renewed], [PutRecords_never_gives_up],
    [canceled_scheduler_leaves_jobs] and [acceptor_wakeups].

    ** Fuel

    Loops that need not end take fuel and return [None] without enough of it.  The
    pages of ListShards: their number is enough ([refreshShards_correct]).  The loop of
    startConsumers: one more than the shards.  The retries of the record writer: 500
    when each request makes progress, and no fuel otherwise.  The reader runs for as
    long as its shard is open, so its fuel is the number of rounds that are observed
    and its theorem holds for all of them.  The executor's loop belongs to
    cenkalti/backoff and is a parameter that takes fuel; [Execute_terminates] bounds it.
    The pages of a query: one per row and one more; a batch read: one per key; a chunk
    of a batch write: one round more than 25 requests and a backoff that ends can take
    ([rounds_for]).  A merge: the depth of the source.  getString: one
    round more than the rank of the key; [cyclic_placeholder] shows that no fuel is
    enough for a value that leads back to its own key.

    ** Not modelled

    The handlers and formatters of logging, the writers of metrics, tracing; files and flags of the configuration and its structs,
    which need reflection; the adapters of streams to
    redis, Kafka and files, the producer of Kafka, the clock of the machine, what runs a command of pkg/cli, the HTTP server and its
    middlewares, gorm and sqlx,
    the mapping of structs by reflection, fixtures and test support.  In the modelled
    packages: codecs other than base64, the kernel's middlewares and shutdown
    handlers, ChunkIntoBuckets of funk (float64). *)
From Stdlib Require Export ssreflect ZArith Lia.
From stdpp Require Export base gmap sets list strings fin_maps sorting.

#[global] Open Scope general_if_scope.

(** ** Fallible operations *)

Declare Scope go_scope.
Delimit Scope go_scope with go.

(** The pair [(value, error)] of a Go function that returns a value only when
    its error is nil. *)
Inductive result (E A : Type) : Type :=
| Ok (a : A)
| Err (e : E).
Arguments Ok {E A} _.
Arguments Err {E A} _.

#[export] Instance result_eq_dec {E A} `{EqDecision E, EqDecision A} :
  EqDecision (result E A).
Proof. solve_decision. Defined.

Definition res_bind {E A B} (r : result E A) (f : A → result E B) : result E B :=
  match r with
  | Ok a => f a
  | Err e => Err e
  end.

Notation "'let!' x ':=' c 'in' k" := (res_bind c (λ x, k))
  (at level 10, x pattern, c at level 100, k at level 200) : go_scope.

Open Scope go_scope.

(** An error: [errors.New] or [fmt.Errorf], without and with a wrapped error.
    The formatted arguments of a message are left out. *)
Inductive go_error : Type :=
| EMsg (msg : string)
| EWrap (msg : string) (err : go_error).

#[export] Instance go_error_eq_dec : EqDecision go_error.
Proof. solve_decision. Defined.

(** The run-time panics the model distinguishes. *)
Inductive panic : Type :=
| IndexOutOfRange
| NilMapWrite
| NegativeCounter
| DivisionByZero
| CloseOfClosedChannel
| NilDereference.

#[export] Instance panic_eq_dec : EqDecision panic.
Proof. solve_decision. Defined.

(** [l[i] = x] on a slice: panics when [i] is out of range. *)
Definition slice_set {A} (l : list A) (i : Z) (x : A) : result panic (list A) :=
  if decide (0 ≤ i < Z.of_nat (length l))%Z then Ok (<[Z.to_nat i := x]> l)
  else Err IndexOutOfRange.

(** [l[i]] on a slice: panics when [i] is out of range. *)
Definition slice_get {A} (l : list A) (i : Z) : result panic A :=
  if decide (0 ≤ i)%Z then
    match l !! Z.to_nat i with
    | Some x => Ok x
    | None => Err IndexOutOfRange
    end
  else Err IndexOutOfRange.

Section SliceAccess.
Context {A : Type}.
Implicit Types (l k : list A).

Lemma slice_set_app l k i x y :
  i = Z.of_nat (length l) → slice_set (l ++ y :: k) i x = Ok ((l ++ [x]) ++ k).
Proof.
  intros ->. unfold slice_set. rewrite decide_True.
  - rewrite length_app /=. lia.
  - rewrite Nat2Z.id insert_app_r_alt // Nat.sub_diag. by rewrite -app_assoc.
Qed.

Lemma slice_get_Some l i x :
  (0 ≤ i)%Z → l !! Z.to_nat i = Some x → slice_get l i = Ok x.
Proof. intros Hi Hx. unfold slice_get. by rewrite decide_True // Hx. Qed.

Lemma slice_set_Ok l i x :
  (0 ≤ i < Z.of_nat (length l))%Z → slice_set l i x = Ok (<[Z.to_nat i := x]> l).
Proof. intros Hi. unfold slice_set. by rewrite decide_True. Qed.
End SliceAccess.

(** Appending to an accumulator in a loop. *)
Lemma fold_push {A B} (p : A → bool) (f : A → B) (l : list A) (acc : list B) :
  fold_left (λ acc x, if p x then acc ++ [f x] else acc) l acc =
  acc ++ (f <$> List.filter p l).
Proof.
  revert acc. induction l as [|x l IH]; intros acc; simpl; [by rewrite app_nil_r|].
  rewrite IH. destruct (p x); simpl; [by rewrite -app_assoc | done].
Qed.

Lemma fold_push_all {A B} (f : A → B) (l : list A) (acc : list B) :
  fold_left (λ acc x, acc ++ [f x]) l acc = acc ++ (f <$> l).
Proof.
  revert acc. induction l as [|x l IH]; intros acc; simpl; [by rewrite app_nil_r|].
  by rewrite IH -app_assoc.
Qed.

Lemma fold_app_join {A} (l : list (list A)) (acc : list A) :
  fold_left (λ acc x, acc ++ x) l acc = acc ++ mjoin l.
Proof.
  revert acc. induction l as [|x l IH]; intros acc; simpl; [by rewrite app_nil_r|].
  by rewrite IH -app_assoc.
Qed.

(** A Go type's zero value. *)
Class Zero (A : Type) := zero : A.

#[export] Instance zero_Z : Zero Z := 0%Z.
#[export] Instance zero_bool : Zero bool := false.
#[export] Instance zero_nat : Zero nat := 0.
#[export] Instance zero_string : Zero string := ""%string.
#[export] Instance zero_option {A} : Zero (option A) := None.

#[export] Instance zero_gmap {K A} `{Countable K} : Zero (gmap K A) := (∅ : gmap K A).

(** The [ok] of [_, ok := m[k]]. *)
Definition map_has {K A} `{Countable K} (m : gmap K A) (k : K) : bool :=
  match m !! k with
  | Some _ => true
  | None => false
  end.

Lemma map_has_spec {K A} `{Countable K} (m : gmap K A) k :
  map_has m k = bool_decide (is_Some (m !! k)).
Proof. unfold map_has. by destruct (m !! k). Qed.

(** ** Iterating over a map

    [for k, v := range m] visits every entry of [m] once, in an order the Go
    specification leaves open.  A [map_order] is one such choice, and every
    loop over a map takes one as an argument. *)
Record map_order (K V : Type) `{Countable K} := {
  enum : gmap K V → list (K * V);
  enum_perm : ∀ m, enum m ≡ₚ map_to_list m
}.
Arguments enum {K V _ _} _ _.
Arguments enum_perm {K V _ _} _ _.

#[program] Definition canonical_order {K V} `{Countable K} : map_order K V :=
  {| enum := map_to_list |}.
Next Obligation. done. Defined.

(** The order that visits the entries back to front. *)
#[program] Definition reverse_order {K V} `{Countable K} : map_order K V :=
  {| enum := λ m, reverse (map_to_list m) |}.
Next Obligation. intros; simpl. by rewrite reverse_Permutation. Defined.

Section MapOrder.
Context {K V : Type} `{Countable K}.
Implicit Types (o : map_order K V) (m : gmap K V).

Lemma elem_of_enum o m k v : (k, v) ∈ enum o m ↔ m !! k = Some v.
Proof. by rewrite (enum_perm o m) elem_of_map_to_list. Qed.

Lemma enum_nodup_keys o m : NoDup (enum o m).*1.
Proof. rewrite (enum_perm o m). apply NoDup_fst_map_to_list. Qed.

Lemma enum_nodup o m : NoDup (enum o m).
Proof. rewrite (enum_perm o m). apply NoDup_map_to_list. Qed.

Lemma elem_of_enum_keys o m k : k ∈ (enum o m).*1 ↔ is_Some (m !! k).
Proof.
  rewrite list_elem_of_fmap. split.
  - intros [[k' v] [-> Hin]]. apply elem_of_enum in Hin. by exists v.
  - intros [v Hv]. exists (k, v). split; [done | by apply elem_of_enum].
Qed.

Lemma length_enum o m : length (enum o m) = size m.
Proof. rewrite (Permutation_length (enum_perm o m)). apply length_map_to_list. Qed.

Lemma enum_empty o : enum o ∅ = [].
Proof.
  apply Permutation_nil_r. rewrite (enum_perm o ∅) map_to_list_empty. done.
Qed.
End MapOrder.

(** ** Folding insertions over an enumeration *)
Section FoldInsert.
Context {K V W : Type} `{Countable K}.

(** [for k, v := range l { if p(k, v) { out[f(k, v)] = g(k, v) } }]. *)
Definition insert_where (p : K → V → bool) (g : K → V → W)
    (l : list (K * V)) (out : gmap K W) : gmap K W :=
  fold_left (λ out kv, if p kv.1 kv.2 then <[kv.1 := g kv.1 kv.2]> out else out) l out.

Lemma insert_where_other p g l out k :
  k ∉ l.*1 → insert_where p g l out !! k = out !! k.
Proof.
  unfold insert_where. revert out.
  induction l as [|[k' v] l IH]; intros out Hk; [done|]; csimpl in *.
  apply not_elem_of_cons in Hk as [Hne Hk]. rewrite IH //.
  destruct (p k' v); [by rewrite lookup_insert_ne | done].
Qed.

Lemma insert_where_lookup p g l out k v :
  NoDup l.*1 → (k, v) ∈ l →
  insert_where p g l out !! k = if p k v then Some (g k v) else out !! k.
Proof.
  unfold insert_where. revert out.
  induction l as [|[k' v'] l IH]; intros out Hnd Hin; [by apply not_elem_of_nil in Hin|].
  csimpl in *. apply NoDup_cons in Hnd as [Hni Hnd].
  apply elem_of_cons in Hin as [Heq|Hin].
  - simplify_eq. pose proof (insert_where_other p g l
      (if p k' v' then <[k' := g k' v']> out else out) k' Hni) as Hrest.
    unfold insert_where in Hrest. rewrite Hrest.
    destruct (p k' v'); [by rewrite lookup_insert_eq | done].
  - rewrite IH //. destruct (p k v); [done|].
    assert (k ≠ k') as Hne.
    { intros ->. apply Hni, list_elem_of_fmap. by exists (k', v). }
    destruct (p k' v'); [by rewrite lookup_insert_ne | done].
Qed.

Lemma insert_where_enum p g (o : map_order K V) (m : gmap K V) out k :
  insert_where p g (enum o m) out !! k =
  match m !! k with
  | Some v => if p k v then Some (g k v) else out !! k
  | None => out !! k
  end.
Proof.
  destruct (m !! k) as [v|] eqn:Hm.
  - apply insert_where_lookup; [apply enum_nodup_keys | by apply elem_of_enum].
  - apply insert_where_other. rewrite elem_of_enum_keys Hm. by intros [].
Qed.
End FoldInsert.

(** ** Consecutive chunks

    The reference for every routine that cuts a slice into pieces: chunk [j]
    holds the elements [j * size] to [(j + 1) * size - 1]. *)
Definition chunk_count (len size : nat) : nat :=
  len / size + (if decide (len mod size = 0) then 0 else 1).

Definition chunks {A} (size : nat) (l : list A) : list (list A) :=
  (λ j, take size (drop (j * size) l)) <$> seq 0 (chunk_count (length l) size).

Section Chunks.
Context {A : Type}.
Implicit Types (l : list A) (size : nat).

Lemma chunk_count_bounds len size :
  0 < size → len ≤ chunk_count len size * size < len + size.
Proof.
  intros Hs. unfold chunk_count.
  pose proof (Nat.div_mod_eq len size). pose proof (Nat.mod_upper_bound len size).
  case_decide; nia.
Qed.

Lemma concat_chunks_upto size l n :
  mjoin ((λ j, take size (drop (j * size) l)) <$> seq 0 n) = take (n * size) l.
Proof.
  induction n as [|n IH]; [done|].
  rewrite seq_S fmap_app join_app IH /= app_nil_r.
  rewrite take_take_drop. f_equal. lia.
Qed.

Lemma concat_chunks size l : 0 < size → mjoin (chunks size l) = l.
Proof.
  intros Hs. unfold chunks. rewrite concat_chunks_upto take_ge //.
  by destruct (chunk_count_bounds (length l) size Hs).
Qed.

Lemma chunks_lookup size l j c :
  chunks size l !! j = Some c →
  c = take size (drop (j * size) l) ∧ j < chunk_count (length l) size.
Proof.
  unfold chunks. rewrite list_lookup_fmap. intros Hj.
  destruct (seq _ _ !! j) as [i|] eqn:Hi; [|done]. simplify_eq/=.
  apply lookup_seq in Hi as [-> Hlt]. done.
Qed.

Lemma chunks_bounds size l j c :
  0 < size → chunks size l !! j = Some c → 0 < length c ≤ size.
Proof.
  intros Hs [-> Hj]%chunks_lookup. rewrite length_take length_drop.
  pose proof (chunk_count_bounds (length l) size Hs). nia.
Qed.

(** Every chunk but the last one is full. *)
Lemma chunks_full size l j c :
  0 < size → chunks size l !! j = Some c → S j < length (chunks size l) →
  length c = size.
Proof.
  unfold chunks at 2. rewrite length_fmap length_seq.
  intros Hs [-> _]%chunks_lookup Hj. rewrite length_take length_drop.
  pose proof (chunk_count_bounds (length l) size Hs). nia.
Qed.
End Chunks.

Lemma chunks_fmap {A B} (f : A → B) size (l : list A) :
  chunks size (f <$> l : list B) = fmap (M := list) f <$> chunks size l.
Proof.
  unfold chunks. rewrite length_fmap -list_fmap_compose. apply list_fmap_ext.
  intros _ j _. simpl. by rewrite fmap_take fmap_drop.
Qed.

#[export] Instance filter_Proper {A} (p : A → bool) :
  Proper ((≡ₚ) ==> (≡ₚ)) (List.filter p).
Proof.
  induction 1 as [|x l k _ IH|x y l|l1 l2 l3 _ IH1 _ IH2]; simpl; [done| | |by etrans].
  - destruct (p x); [by apply Permutation_cons | done].
  - destruct (p x), (p y); [constructor | done..].
Qed.

(** An invariant of the steps holds wherever they lead. *)
Lemma rtc_invariant {A} (R : relation A) (P : A → Prop) x y :
  (∀ x y, P x → R x y → P y) → P x → rtc R x y → P y.
Proof. intros HP Hx Hrtc. induction Hrtc; eauto. Qed.

(** A schedule of a system whose steps are computed. *)
Fixpoint run_all {L A} (next : L → A → option A) (schedule : list L) (x : A) : option A :=
  match schedule with
  | [] => Some x
  | l :: schedule => x ← next l x; run_all next schedule x
  end.

Lemma run_all_steps {L A} (next : L → A → option A) (R : relation A) schedule x y :
  (∀ l x y, next l x = Some y → R x y) → run_all next schedule x = Some y → rtc R x y.
Proof.
  intros HR. revert x. induction schedule as [|l schedule IH]; intros x; simpl; [by intros [= ->]|].
  destruct (next l x) as [x1|] eqn:Hn; [|done]. intros Hr. eapply rtc_l; [by eapply HR | by apply IH].
Qed.

(** ** Strings *)

Lemma string_length_app (s t : string) :
  String.length (String.append s t) = String.length s + String.length t.
Proof. induction s as [|c s IH]; [done|]. simpl. by rewrite IH. Qed.

Lemma string_app_assoc (s t u : string) :
  String.append s (String.append t u) = String.append (String.append s t) u.
Proof. induction s as [|c s IH]; [done|]. exact (f_equal (String c) IH). Qed.

Lemma string_app_nil_r (s : string) : String.append s EmptyString = s.
Proof. induction s as [|c s IH]; [done|]. exact (f_equal (String c) IH). Qed.

(** ** Automation *)
Create HintDb go discriminated.
#[export] Hint Resolve elem_of_enum enum_nodup_keys enum_nodup length_enum : go.
Create Rewrite HintDb go_rw.
#[export] Hint Rewrite @insert_where_enum @enum_empty : go_rw.

(** Splits the matches and ifs of a goal, keeping the equations. *)
Ltac split_match :=
  repeat (first [case_match | case_decide | case_bool_decide]; simplify_eq/=).

(** Decides the outermost test of a goal whose outcome is known. *)
Ltac decide_true := erewrite decide_True by (done || tauto).
Ltac decide_false := erewrite decide_False by (done || tauto).
