(* ===== verification/Num.v ===== *)
(** * Machine numbers

    Positive [float32] values as the code uses them (ratios of lengths), and the
    wrap-around of the fixed-width integers. *)
From S2P Require Import Prelude.
Local Open Scope Z_scope.

(** ** float32

    [F32 m e] is the value [m * 2^e], with [0 ≤ m ≤ 2^24]. *)
Record f32 := F32 { f32_m : Z; f32_e : Z }.

#[export] Instance f32_eq_dec : EqDecision f32.
Proof. solve_decision. Defined.

(** The quotient [num / den], rounded to the nearest value with 24 significant
    bits, ties to even.  Exponents are not bounded: the ratios of two positive
    [int]s are far away from the range's ends. *)
Definition f32_round (num den : Z) : f32 :=
  if num =? 0 then F32 0 0
  else
    let e0 := Z.log2 num - Z.log2 den - 23 in
    let e := if num * 2 ^ Z.max 0 (- e0) <? 2 ^ 23 * (den * 2 ^ Z.max 0 e0) then e0 - 1 else e0 in
    let n := num * 2 ^ Z.max 0 (- e) in
    let d := den * 2 ^ Z.max 0 e in
    let q := n / d in
    let r := n mod d in
    F32 (if 2 * r <? d then q else if d <? 2 * r then q + 1 else if Z.even q then q else q + 1) e.

(** [float32(n)] *)
Definition f32_of_int (n : Z) : f32 := f32_round n 1.

Definition f32_mul (x y : f32) : f32 :=
  let e := f32_e x + f32_e y in
  f32_round (f32_m x * f32_m y * 2 ^ Z.max 0 e) (2 ^ Z.max 0 (- e)).

Definition f32_div (x y : f32) : f32 :=
  let e := f32_e x - f32_e y in
  f32_round (f32_m x * 2 ^ Z.max 0 e) (f32_m y * 2 ^ Z.max 0 (- e)).

(** [int(x)], rounding towards zero *)
Definition f32_to_int (x : f32) : Z :=
  if 0 <=? f32_e x then f32_m x * 2 ^ f32_e x else f32_m x / 2 ^ (- f32_e x).

Definition f32_one : f32 := F32 (2 ^ 23) (-23).

Example f32_one_third : f32_round 1 3 = F32 11184811 (-25).
Proof. reflexivity. Qed.

Example f32_tie_even : f32_to_int (f32_of_int 16777217) = 16777216.
Proof. reflexivity. Qed.

(** A quotient that has 24 significant bits is not rounded. *)
Lemma f32_round_exact n j :
  0 < n < 2 ^ 24 -> 0 <= j ->
  f32_round (n * 2 ^ j) (2 ^ j) = F32 (n * 2 ^ (23 - Z.log2 n)) (Z.log2 n - 23).
Proof.
  intros Hn Hj. pose proof (Z.log2_spec n ltac:(lia)) as [Hlo Hhi].
  pose proof (Z.log2_nonneg n). assert (Z.log2 n < 24) by (apply Z.log2_lt_pow2; lia).
  assert (0 < 2 ^ j) by (apply Z.pow_pos_nonneg; lia).
  unfold f32_round. destruct (Z.eqb_spec (n * 2 ^ j) 0); [nia|].
  set (l := Z.log2 n) in *.
  replace (Z.log2 (n * 2 ^ j) - Z.log2 (2 ^ j) - 23) with (l - 23).
  2:{ rewrite Z.log2_mul_pow2 ?Z.log2_pow2; [lia..|]. fold l. lia. }
  cbv zeta.
  replace (Z.max 0 (l - 23)) with 0 by lia. replace (Z.max 0 (- (l - 23))) with (23 - l) by lia.
  rewrite Z.pow_0_r Z.mul_1_r.
  assert (2 ^ 23 = 2 ^ l * 2 ^ (23 - l)) as Hp by (rewrite -Z.pow_add_r; [lia..|f_equal; lia]).
  assert (0 < 2 ^ (23 - l)) by (apply Z.pow_pos_nonneg; lia).
  destruct (Z.ltb_spec (n * 2 ^ j * 2 ^ (23 - l)) (2 ^ 23 * 2 ^ j)) as [Hc|Hc].
  { exfalso. rewrite Hp in Hc.
    assert (2 ^ l * (2 ^ j * 2 ^ (23 - l)) <= n * (2 ^ j * 2 ^ (23 - l))) by (apply Z.mul_le_mono_nonneg_r; nia).
    lia. }
  replace (Z.max 0 (l - 23)) with 0 by lia. replace (Z.max 0 (- (l - 23))) with (23 - l) by lia.
  rewrite Z.pow_0_r Z.mul_1_r.
  replace (n * 2 ^ j * 2 ^ (23 - l)) with (n * 2 ^ (23 - l) * 2 ^ j) by ring.
  rewrite Z.div_mul; [lia|]. rewrite Z.mod_mul; [lia|].
  destruct (Z.ltb_spec (2 * 0) (2 ^ j)); [done|lia].
Qed.

Lemma f32_of_int_exact n :
  0 < n < 2 ^ 24 -> f32_of_int n = F32 (n * 2 ^ (23 - Z.log2 n)) (Z.log2 n - 23).
Proof. intros Hn. pose proof (f32_round_exact n 0 Hn) as Hr. rewrite Z.mul_1_r in Hr. by apply Hr. Qed.

(** A number of at most 24 bits survives the way through float32 and a factor
    of one. *)
Lemma f32_mul_one n : 0 <= n < 2 ^ 24 -> f32_to_int (f32_mul (f32_of_int n) f32_one) = n.
Proof.
  intros Hn. destruct (Z.eq_dec n 0) as [->|Hne]; [done|].
  rewrite f32_of_int_exact; [lia|]. unfold f32_mul, f32_one. cbn [f32_m f32_e].
  pose proof (Z.log2_spec n ltac:(lia)) as [Hlo Hhi].
  pose proof (Z.log2_nonneg n). assert (Z.log2 n < 24) by (apply Z.log2_lt_pow2; lia).
  set (l := Z.log2 n) in *.
  replace (Z.max 0 (l - 23 + -23)) with 0 by lia. replace (Z.max 0 (- (l - 23 + -23))) with (46 - l) by lia.
  rewrite Z.pow_0_r Z.mul_1_r.
  replace (n * 2 ^ (23 - l) * 2 ^ 23) with (n * 2 ^ (46 - l)).
  2:{ rewrite -Z.mul_assoc -Z.pow_add_r; [lia..|]. do 2 f_equal. lia. }
  rewrite f32_round_exact; [lia..|]. unfold f32_to_int. cbn [f32_m f32_e]. fold l.
  destruct (Z.leb_spec 0 (l - 23)).
  - assert (l = 23) as -> by lia. simpl. lia.
  - replace (- (l - 23)) with (23 - l) by lia. apply Z.div_mul.
    pose proof (Z.pow_pos_nonneg 2 (23 - l)). lia.
Qed.

(** The ratio of two equal lengths is one. *)
Lemma f32_div_self x : 0 < f32_m x -> f32_div x x = f32_one.
Proof.
  intros Hx. unfold f32_div. rewrite Z.sub_diag. change (- 0) with 0. change (Z.max 0 0) with 0.
  rewrite Z.pow_0_r Z.mul_1_r. set (n := f32_m x) in *.
  unfold f32_round. destruct (Z.eqb_spec n 0); [lia|]. rewrite Z.sub_diag.
  change (0 - 23) with (-23). cbv zeta.
  change (Z.max 0 (- -23)) with 23. change (Z.max 0 (-23)) with 0. rewrite Z.pow_0_r Z.mul_1_r.
  destruct (Z.ltb_spec (n * 2 ^ 23) (2 ^ 23 * n)); [lia|].
  change (Z.max 0 (- -23)) with 23. change (Z.max 0 (-23)) with 0. rewrite Z.pow_0_r Z.mul_1_r.
  rewrite (Z.mul_comm n) Z.div_mul; [lia|]. rewrite Z.mod_mul; [lia|].
  destruct (Z.ltb_spec (2 * 0) n); [done|lia].
Qed.

(** A positive number stays positive. *)
Lemma f32_of_int_pos n : 0 < n -> 0 < f32_m (f32_of_int n).
Proof.
  intros Hn. unfold f32_of_int, f32_round. destruct (Z.eqb_spec n 0); [lia|].
  pose proof (Z.log2_spec n Hn) as [Hlo _]. pose proof (Z.log2_nonneg n).
  change (Z.log2 1) with 0. set (e0 := Z.log2 n - 0 - 23). cbv zeta.
  set (e := if n * 2 ^ Z.max 0 (- e0) <? _ then e0 - 1 else e0).
  assert (e <= Z.log2 n) as He by (subst e; destruct (_ <? _); lia). clearbody e.
  assert (1 <= n * 2 ^ Z.max 0 (- e) / (1 * 2 ^ Z.max 0 e)) as Hq.
  { assert (0 < 2 ^ Z.max 0 (- e)) by (apply Z.pow_pos_nonneg; lia).
    assert (0 < 2 ^ Z.max 0 e) by (apply Z.pow_pos_nonneg; lia).
    apply Z.div_le_lower_bound; [lia|].
    assert (2 ^ Z.max 0 e <= 2 ^ Z.log2 n) by (apply Z.pow_le_mono_r; lia). nia. }
  simpl f32_m. destruct (_ <? _); [lia|]. destruct (_ <? _); [lia|]. destruct (Z.even _); lia.
Qed.

(** ** int64 *)

(** The value of an [int64] computation whose exact result is [z]. *)
Definition int64 (z : Z) : Z := (z + 2 ^ 63) mod 2 ^ 64 - 2 ^ 63.

Lemma int64_id z : - 2 ^ 63 <= z < 2 ^ 63 -> int64 z = z.
Proof. intros H. unfold int64. rewrite Z.mod_small; lia. Qed.

Lemma int64_range z : - 2 ^ 63 <= int64 z < 2 ^ 63.
Proof. unfold int64. pose proof (Z.mod_pos_bound (z + 2 ^ 63) (2 ^ 64)). lia. Qed.
