(* ===== verification/FunkSet.v ===== *)
(** * pkg/funk/set.go: sets as maps without values

    A Go [Set[T]] is a [map[T]struct{}]; here a [gmap T unit].  The mutating
    methods return their boolean together with the updated set. *)
From S2P Require Import Prelude.

Abbreviation go_set T := (gmap T unit).

Section Set_.
Context {T : Type} `{Countable T}.
Implicit Types (s : go_set T) (o : map_order T unit).

(** [pkg/funk/set.go:24-36] Set.Add *)
Definition Add (items : list T) (s : go_set T) : bool * go_set T :=
  fold_left (λ '(result, s) item,
    match s !! item with
    | Some _ => (result, s)
    | None => (true, <[item := tt]> s)
    end) items (false, s).

(** [pkg/funk/set.go:17-19] Set.Set *)
Definition Set_Set (item : T) (s : go_set T) : go_set T := <[item := tt]> s.

(** [pkg/funk/set.go:7-12] NewSet *)
Definition NewSet (items : list T) : go_set T := (Add items ∅).2.

(** [pkg/funk/set.go:41-50] Set.AddAll *)
Definition AddAll o (items : go_set T) (s : go_set T) : bool * go_set T :=
  fold_left (λ '(result, s) kv,
    let '(added, s') := Add [kv.1] s in
    (if added then true else result, s')) (enum o items) (false, s).

(** [pkg/funk/set.go:55-67] Set.Remove *)
Definition Remove (items : list T) (s : go_set T) : bool * go_set T :=
  fold_left (λ '(result, s) item,
    match s !! item with
    | None => (result, s)
    | Some _ => (true, delete item s)
    end) items (false, s).

(** [pkg/funk/set.go:72-84] Set.RemoveAll *)
Definition RemoveAll o (items : go_set T) (s : go_set T) : bool * go_set T :=
  fold_left (λ '(result, s) kv,
    match s !! kv.1 with
    | None => (result, s)
    | Some _ => (true, delete kv.1 s)
    end) (enum o items) (false, s).

(** [pkg/funk/set.go:87-91] Set.Contains *)
Definition Contains (s : go_set T) (item : T) : bool :=
  match s !! item with
  | Some _ => true
  | None => false
  end.

(** [pkg/funk/set.go:94-102] Set.ContainsAll *)
Definition ContainsAll o (s other : go_set T) : bool :=
  (fix go (l : list (T * unit)) :=
    match l with
    | [] => true
    | kv :: l' => if negb (Contains s kv.1) then false else go l'
    end) (enum o other).

(** [pkg/funk/set.go:105-107] Set.Len *)
Definition Len (s : go_set T) : nat := size s.

(** [pkg/funk/set.go:110-112] Set.Empty *)
Definition Empty (s : go_set T) : bool := Len s =? 0.

(** [pkg/funk/set.go:116-123] SetToSlice *)
Definition SetToSlice o (s : go_set T) : list T :=
  fold_left (λ out kv, out ++ [kv.1]) (enum o s) [].

(** [pkg/funk/set.go:126-128] Set.ToSlice *)
Definition ToSlice o (s : go_set T) : list T := SetToSlice o s.

(** ** Lemmas *)

Lemma Contains_spec s x : Contains s x = bool_decide (x ∈ dom s).
Proof.
  unfold Contains. destruct (s !! x) as [[]|] eqn:Hx.
  - rewrite bool_decide_true //. apply elem_of_dom. by eexists.
  - rewrite bool_decide_false //. by apply not_elem_of_dom.
Qed.

Lemma Add_acc items s b :
  fold_left (λ '(result, s) item,
    match s !! item with
    | Some _ => (result, s)
    | None => (true, <[item := tt]> s)
    end) items (b, s) = (b || (Add items s).1, (Add items s).2).
Proof.
  unfold Add. revert b s. induction items as [|x items IH]; intros b s; simpl.
  { by rewrite orb_false_r. }
  destruct (s !! x) eqn:Hx; [apply IH|].
  by rewrite IH /= orb_true_r.
Qed.

Lemma Add_cons x items s :
  Add (x :: items) s =
  match s !! x with
  | Some _ => Add items s
  | None => (true, (Add items (<[x := tt]> s)).2)
  end.
Proof.
  unfold Add at 1. simpl. destruct (s !! x); rewrite Add_acc //=.
  by destruct (Add items s).
Qed.

Lemma Add_dom items s : dom (Add items s).2 = dom s ∪ list_to_set items.
Proof.
  revert s. induction items as [|x items IH]; intros s; [set_solver|].
  rewrite Add_cons. destruct (s !! x) eqn:Hx; simpl.
  - rewrite IH. apply elem_of_dom_2 in Hx. set_solver.
  - rewrite IH dom_insert_L. set_solver.
Qed.

Lemma Add_flag items s :
  (Add items s).1 = true ↔ ∃ x, x ∈ items ∧ x ∉ dom s.
Proof.
  revert s. induction items as [|x items IH]; intros s; simpl; [set_solver|].
  rewrite Add_cons. destruct (s !! x) eqn:Hx; simpl.
  - rewrite IH. apply elem_of_dom_2 in Hx. set_solver.
  - apply not_elem_of_dom in Hx. set_solver.
Qed.

Lemma NewSet_dom items : dom (NewSet items) = list_to_set items.
Proof. unfold NewSet. rewrite Add_dom. set_solver. Qed.

Lemma NewSet_lookup items x : is_Some (NewSet items !! x) ↔ x ∈ items.
Proof. rewrite -elem_of_dom NewSet_dom. set_solver. Qed.

Lemma Contains_NewSet items x : Contains (NewSet items) x = bool_decide (x ∈ items).
Proof. rewrite Contains_spec NewSet_dom. apply bool_decide_ext. set_solver. Qed.

(** [AddAll] is [Add] applied to the elements in the order of the loop. *)
Lemma AddAll_Add o items s : AddAll o items s = Add (enum o items).*1 s.
Proof.
  unfold AddAll, Add. generalize (false, s). clear s.
  induction (enum o items) as [|[x []] l IH]; intros acc; [done|]; csimpl.
  rewrite IH. f_equal. destruct acc as [b s]. unfold Add. simpl.
  by destruct (s !! x).
Qed.

Lemma Remove_acc items s b :
  fold_left (λ '(result, s) item,
    match s !! item with
    | None => (result, s)
    | Some _ => (true, delete item s)
    end) items (b, s) = (b || (Remove items s).1, (Remove items s).2).
Proof.
  unfold Remove. revert b s. induction items as [|x items IH]; intros b s; simpl.
  { by rewrite orb_false_r. }
  destruct (s !! x) eqn:Hx; [|apply IH]. by rewrite IH /= orb_true_r.
Qed.

Lemma Remove_cons x items s :
  Remove (x :: items) s =
  match s !! x with
  | None => Remove items s
  | Some _ => (true, (Remove items (delete x s)).2)
  end.
Proof.
  unfold Remove at 1. simpl. destruct (s !! x); rewrite Remove_acc //=.
  by destruct (Remove items s).
Qed.

Lemma Remove_dom items s : dom (Remove items s).2 = dom s ∖ list_to_set items.
Proof.
  revert s. induction items as [|x items IH]; intros s; [set_solver|].
  rewrite Remove_cons. destruct (s !! x) eqn:Hx; simpl.
  - rewrite IH dom_delete_L. set_solver.
  - apply not_elem_of_dom in Hx. rewrite IH. set_solver.
Qed.

Lemma Remove_flag items s :
  (Remove items s).1 = true ↔ ∃ x, x ∈ items ∧ x ∈ dom s.
Proof.
  revert s. induction items as [|x items IH]; intros s; simpl; [set_solver|].
  rewrite Remove_cons. destruct (s !! x) eqn:Hx; simpl.
  - apply elem_of_dom_2 in Hx. set_solver.
  - apply not_elem_of_dom in Hx. rewrite IH. set_solver.
Qed.

Lemma RemoveAll_Remove o items s : RemoveAll o items s = Remove (enum o items).*1 s.
Proof.
  unfold RemoveAll, Remove. generalize (false, s). clear s.
  induction (enum o items) as [|[x []] l IH]; intros [b s]; [done|]; csimpl.
  destruct (s !! x); apply IH.
Qed.

Lemma enum_keys_dom o s : list_to_set (enum o s).*1 = dom s.
Proof.
  apply set_eq. intros x. rewrite elem_of_list_to_set elem_of_enum_keys elem_of_dom //.
Qed.

Lemma SetToSlice_enum o s : SetToSlice o s = (enum o s).*1.
Proof. apply (fold_push_all fst _ []). Qed.

Lemma ContainsAll_spec o s other :
  ContainsAll o s other = true ↔ dom other ⊆ dom s.
Proof.
  rewrite -(enum_keys_dom o other). unfold ContainsAll.
  induction (enum o other) as [|[x []] l IH]; csimpl; [set_solver|].
  rewrite Contains_spec. case_bool_decide; simpl; [rewrite IH|]; set_solver.
Qed.
End Set_.

(** ** Properties *)

(** The mutating operations of Set compute union and difference, whatever
    the iteration order, and report a change exactly when there was one. *)
Theorem set_operations_spec `{Countable T} (o : map_order T unit) (items : list T) (other s : go_set T) :
  (dom (Add items s).2 = dom s ∪ list_to_set items ∧
   ((Add items s).1 = true ↔ ∃ x, x ∈ items ∧ x ∉ dom s)) ∧
  (dom (AddAll o other s).2 = dom s ∪ dom other ∧
   ((AddAll o other s).1 = true ↔ ∃ x, x ∈ dom other ∧ x ∉ dom s)) ∧
  (dom (Remove items s).2 = dom s ∖ list_to_set items ∧
   ((Remove items s).1 = true ↔ ∃ x, x ∈ items ∧ x ∈ dom s)) ∧
  (dom (RemoveAll o other s).2 = dom s ∖ dom other ∧
   ((RemoveAll o other s).1 = true ↔ ∃ x, x ∈ dom other ∧ x ∈ dom s)) ∧
  (ContainsAll o s other = true ↔ dom other ⊆ dom s) ∧
  list_to_set (SetToSlice o s) = dom s ∧ NoDup (SetToSlice o s).
Proof.
  assert (∀ x, x ∈ (enum o other).*1 ↔ x ∈ dom other) as Hin.
  { intros x. by rewrite elem_of_enum_keys elem_of_dom. }
  rewrite AddAll_Add RemoveAll_Remove !Add_dom !Remove_dom !Add_flag !Remove_flag
    !SetToSlice_enum !enum_keys_dom ContainsAll_spec.
  setoid_rewrite Hin. split_and!; try done. apply enum_nodup_keys.
Qed.
