(* ===== verification/FunkSlice.v ===== *)
(** * pkg/funk/slice.go: slices

    A slice is a [list]; where the code distinguishes the nil slice from an
    empty one the result is an [option], [None] being nil.  An index out of
    range is the panic [Err IndexOutOfRange], so that a theorem concluding
    [Ok] also says that the code does not panic. *)
From S2P Require Import Prelude.
From S2P Require Import FunkSet.

(** ** Searching and predicates *)
Section Predicates.
Context {T : Type}.
Implicit Types (sl : list T) (pred : T → bool).

(** [pkg/funk/slice.go:194-202] FindFirstFunc *)
Fixpoint FindFirstFunc `{Zero T} (sl : list T) (pred : T → bool) : T * bool :=
  match sl with
  | [] => (zero, false)
  | item :: sl' => if pred item then (item, true) else FindFirstFunc sl' pred
  end.

(** [pkg/funk/slice.go:183-191] FindFirst *)
Fixpoint FindFirst `{Zero T, EqDecision T} (sl : list T) (el : T) : T * bool :=
  match sl with
  | [] => (zero, false)
  | item :: sl' => if decide (item = el) then (item, true) else FindFirst sl' el
  end.

(** [pkg/funk/slice.go:129-133] ContainsFunc *)
Definition ContainsFunc `{Zero T} (sl : list T) (pred : T → bool) : bool :=
  let '(_, ok) := FindFirstFunc sl pred in ok.

(** [pkg/funk/slice.go:407-411] equal *)
Definition equal (deepEqual : T → T → bool) (expected : T) : T → bool :=
  λ actualValue, deepEqual actualValue expected.

(** [pkg/funk/slice.go:111-115] Contains *)
Definition Contains `{Zero T} (deepEqual : T → T → bool) (in_ : list T) (elem : T) : bool :=
  ContainsFunc in_ (equal deepEqual elem).

(** [pkg/funk/slice.go:118-126] ContainsAll *)
Fixpoint ContainsAll `{Zero T} (deepEqual : T → T → bool) (in_ elements : list T) : bool :=
  match elements with
  | [] => true
  | elem :: elements' =>
      if negb (Contains deepEqual in_ elem) then false
      else ContainsAll deepEqual in_ elements'
  end.

(** [pkg/funk/slice.go:224-234] Index *)
Definition Index (deepEqual : T → T → bool) (sl : list T) (e : T) : Z :=
  (fix go (i : Z) (l : list T) : Z :=
    match l with
    | [] => (-1)%Z
    | v :: l' => if equal deepEqual e v then i else go (i + 1)%Z l'
    end) 0%Z sl.

(** [pkg/funk/slice.go:414-418] Any *)
Definition Any `{Zero T} (inp : list T) (pred : T → bool) : bool :=
  let '(_, ok) := FindFirstFunc inp pred in ok.

(** [pkg/funk/slice.go:421-423] None *)
Definition None_ `{Zero T} (inp : list T) (pred : T → bool) : bool := negb (Any inp pred).

(** [pkg/funk/slice.go:426-428] All *)
Definition All `{Zero T} (inp : list T) (pred : T → bool) : bool :=
  None_ inp (λ i, negb (pred i)).

(** [pkg/funk/slice.go:431-433] Empty *)
Definition Empty (inp : list T) : bool := length inp =? 0.

(** [pkg/funk/slice.go:436-438] NotEmpty *)
Definition NotEmpty (inp : list T) : bool := 0 <? length inp.

(** [pkg/funk/slice.go:441-449] NilIfEmpty *)
Definition NilIfEmpty (inp : list T) : option (list T) :=
  if Empty inp then None else Some inp.

(** [pkg/funk/slice.go:205-211] First *)
Definition First `{Zero T} (sl : list T) : T * bool :=
  match sl with
  | x :: _ => (x, true)
  | [] => (zero, false)
  end.

(** [pkg/funk/slice.go:267-275] Last *)
Definition Last `{Zero T} (sl : list T) : result panic T :=
  if length sl =? 0 then Ok zero else slice_get sl (Z.of_nat (length sl) - 1).

(** [pkg/funk/slice.go:347-353] Tail *)
Definition Tail (sl : list T) : list T :=
  if length sl <? 2 then sl else drop 1 sl.
End Predicates.

(** ** Building slices *)
Section Building.
Context {T : Type}.

(** [pkg/funk/slice.go:278-285] Map *)
Definition Map {T2} `{Zero T2} (sl : list T) (op : T → T2) : result panic (list T2) :=
  (fix go (idx : Z) (l : list T) (result : list T2) :=
    match l with
    | [] => Ok result
    | item :: l' => let! result := slice_set result idx (op item) in go (idx + 1)%Z l' result
    end) 0%Z sl (replicate (length sl) zero).

(** [pkg/funk/slice.go:30-32] BoxSlice: a pointer is an optional value. *)
Definition BoxSlice (sl : list T) : result panic (list (option T)) := Map sl Some.

(** [pkg/funk/slice.go:288-296] Reduce *)
Definition Reduce {T2} (sl : list T) (op : T2 → T → nat → T2) (init : T2) : T2 :=
  (fix go (idx : nat) (l : list T) (result : T2) :=
    match l with
    | [] => result
    | item :: l' => go (S idx) l' (op result item idx)
    end) 0 sl init.

(** [pkg/funk/slice.go:14-27] CastSlice: [cast] is the type assertion to T, the
    error is the index of the first element it fails on. *)
Definition CastSlice {A} (cast : A → option T) `{Zero T} (sl : list A) :
    result panic (result nat (list T)) :=
  (fix go (i : nat) (l : list A) (result : list T) :=
    match l with
    | [] => Ok (Ok result)
    | x :: l' =>
        match cast x with
        | None => Ok (Err i)
        | Some el => let! result := slice_set result (Z.of_nat i) el in go (S i) l' result
        end
    end) 0 sl (replicate (length sl) zero).

(** [pkg/funk/slice.go:86] the statement [result[i/size] = append(result[i/size], x)] *)
Definition append_at (result : list (list T)) (i : nat) (x : T) : Prelude.result panic (list (list T)) :=
  let! bucket := slice_get result (Z.of_nat i) in
  slice_set result (Z.of_nat i) (bucket ++ [x]).

(** [pkg/funk/slice.go:85-87] the filling loop of Chunk *)
Fixpoint chunk_fill (size i : nat) (sl : list T) (result : list (list T)) :
    Prelude.result panic (list (list T)) :=
  match sl with
  | [] => Ok result
  | x :: sl' =>
      let! result := append_at result (i / size) x in
      chunk_fill size (S i) sl' result
  end.

(** [pkg/funk/slice.go:65-90] Chunk *)
Definition Chunk (sl : list T) (size : Z) : result panic (option (list (list T))) :=
  if decide (size ≤ 0)%Z then Ok None
  else if length sl =? 0 then Ok (Some [])
  else
    let size := Z.to_nat size in
    let chunkCount := length sl / size in
    let result := replicate chunkCount [] in
    let result := if decide (length sl mod size ≠ 0) then result ++ [[]] else result in
    let! result := chunk_fill size 0 sl result in
    Ok (Some result).

(** [pkg/funk/slice.go:100-108] Concat *)
Definition Concat (sl : list (list T)) : list T := fold_left (λ final s, final ++ s) sl [].

(** [pkg/funk/slice.go:214-221] Flatten *)
Definition Flatten (sl : list (list T)) : list T := fold_left (λ result items, result ++ items) sl [].

(** [pkg/funk/slice.go:317-333] Repeat *)
Definition Repeat `{Zero T} (el : T) (times : Z) : result panic (option (list T)) :=
  if (times <? 0)%Z then Ok None
  else if (times =? 0)%Z then Ok (Some [])
  else
    (fix go (n : nat) (i : Z) (result : list T) :=
      match n with
      | 0 => Ok (Some result)
      | S n' => let! result := slice_set result i el in go n' (i + 1)%Z result
      end) (Z.to_nat times) 0%Z (replicate (Z.to_nat times) zero).

(** [pkg/funk/slice.go:338-340] the loop of Reverse; [fuel] bounds its rounds *)
Fixpoint reverse_loop (fuel : nat) (i j : Z) (sl out : list T) : result panic (list T) :=
  match fuel with
  | 0 => Ok out
  | S fuel' =>
      if decide (i < Z.of_nat (length sl) ∧ 0 ≤ j)%Z then
        let! x := slice_get sl j in
        let! out := slice_set out i x in
        reverse_loop fuel' (i + 1) (j - 1) sl out
      else Ok out
  end.

(** [pkg/funk/slice.go:336-343] Reverse *)
Definition Reverse `{Zero T} (sl : list T) : result panic (list T) :=
  reverse_loop (S (length sl)) 0 (Z.of_nat (length sl) - 1) sl (replicate (length sl) zero).

(** [pkg/funk/slice.go:167-180] Filter, its closure threading a state [A]. *)
Definition filter_state {A} (pred : A → T → bool * A) (sl : list T) (a : A) : list T * A :=
  if length sl =? 0 then ([], a)
  else fold_left (λ '(result, a) item,
    let '(keep, a) := pred a item in
    (if keep then result ++ [item] else result, a)) sl ([], a).

(** [pkg/funk/slice.go:167-180] Filter *)
Definition Filter (sl : list T) (pred : T → bool) : list T :=
  (filter_state (λ _ x, (pred x, tt)) sl tt).1.
End Building.

(** [pkg/funk/slice.go:35-37] UnboxSlice *)
Definition UnboxSlice {T} `{Zero T} (sl : list (option T)) : result panic (list T) :=
  Map sl (default zero).

(** ** Grouping and removing duplicates *)
Section Grouping.
Context {T : Type}.

(** [pkg/funk/slice.go:40-49] Partition *)
Definition Partition `{Countable E} (sl : list T) (keyer : T → E) : gmap E (list T) :=
  fold_left (λ result item,
    let key := keyer item in
    <[key := default [] (result !! key) ++ [item]]> result) sl ∅.

(** [pkg/funk/slice.go:52-61] PartitionMap *)
Definition PartitionMap `{Countable K} {V} (inp : list T) (keyer : T → K * V) : gmap K (list V) :=
  fold_left (λ out item,
    let '(key, val) := keyer item in
    <[key := default [] (out !! key) ++ [val]]> out) inp ∅.

(** [pkg/funk/slice.go:299-308] SliceToMap *)
Definition SliceToMap `{Countable K} {V} (sl : list T) (keyer : T → K * V) : gmap K V :=
  fold_left (λ out item, let '(k, v) := keyer item in <[k := v]> out) sl ∅.

(** [pkg/funk/slice.go:311-313] SliceToSet *)
Definition SliceToSet `{Countable T} (sl : list T) : go_set T := NewSet sl.

(** [pkg/funk/slice.go:356-370] Uniq *)
Definition Uniq `{Countable T} (sl : list T) : list T :=
  (fold_left (λ '(set, res) e,
    if FunkSet.Contains set e then (set, res)
    else ((Add [e] set).2, res ++ [e])) sl (∅, [])).2.

(** [pkg/funk/slice.go:373-389] UniqFunc *)
Definition UniqFunc `{Countable K} (sl : list T) (fn : T → K) : list T :=
  (fold_left (λ '(keys, uniq) item,
    let key := fn item in
    if FunkSet.Contains keys key then (keys, uniq)
    else ((Add [key] keys).2, uniq ++ [item])) sl (∅, [])).2.

(** [pkg/funk/slice.go:392-405] UniqByType: [TypeOf] gives the dynamic type. *)
Definition UniqByType `{Countable ty} (TypeOf : T → ty) (sl : list T) : list T :=
  (filter_state (λ (types : gmap ty bool) a,
    let t := TypeOf a in
    if default false (types !! t) then (false, types)
    else (true, <[t := true]> types)) sl ∅).1.

(** [pkg/funk/slice.go:137-156] Difference *)
Definition Difference `{Countable T} (left right : list T) : list T * list T :=
  let set1 := SliceToSet left in
  let set2 := SliceToSet right in
  (fold_left (λ inLeft item,
     if negb (FunkSet.Contains set2 item) then inLeft ++ [item] else inLeft) left [],
   fold_left (λ inRight item,
     if negb (FunkSet.Contains set1 item) then inRight ++ [item] else inRight) right []).
End Grouping.

(** ** Lemmas *)

Section SearchLemmas.
Context {T : Type}.
Implicit Types (sl : list T) (pred : T → bool).

Lemma FindFirstFunc_find `{Zero T} sl pred :
  FindFirstFunc sl pred =
  match list_find (λ x, pred x = true) sl with
  | Some (_, x) => (x, true)
  | None => (zero, false)
  end.
Proof.
  induction sl as [|x sl IH]; [done|]. simpl.
  destruct (pred x) eqn:Hx; case_decide; try congruence.
  rewrite IH. by destruct (list_find _ sl) as [[]|].
Qed.

Lemma FindFirstFunc_ok `{Zero T} sl pred :
  (FindFirstFunc sl pred).2 = existsb pred sl.
Proof. induction sl as [|x sl IH]; simpl; [done|]. by destruct (pred x). Qed.

Lemma Any_existsb `{Zero T} sl pred : Any sl pred = existsb pred sl.
Proof. rewrite -FindFirstFunc_ok. unfold Any. by destruct (FindFirstFunc sl pred). Qed.

Lemma ContainsFunc_existsb `{Zero T} sl pred : ContainsFunc sl pred = existsb pred sl.
Proof. apply Any_existsb. Qed.

Lemma All_forallb `{Zero T} sl pred : All sl pred = forallb pred sl.
Proof.
  unfold All, None_. rewrite Any_existsb.
  induction sl as [|x sl IH]; simpl; [done|]. by rewrite -IH negb_orb negb_involutive.
Qed.

Lemma Filter_filter sl pred : Filter sl pred = List.filter pred sl.
Proof.
  unfold Filter, filter_state. destruct sl as [|x0 sl0] eqn:Hsl; [done|].
  rewrite -Hsl. rewrite {1}Hsl. simpl (length _ =? 0). cbv iota. clear Hsl.
  assert (∀ l acc, (fold_left (λ '(result, a) item,
    let '(keep, a) := (pred item, tt) in
    (if (keep : bool) then result ++ [item] else result, a)) l (acc, tt)).1
    = acc ++ List.filter pred l) as ->; [|done].
  intros l. induction l as [|x l IH]; intros acc; simpl; [by rewrite app_nil_r|].
  rewrite IH. destruct (pred x); [by rewrite -app_assoc | done].
Qed.
End SearchLemmas.

Section BuildingLemmas.
Context {T : Type}.
Implicit Types (sl : list T).

Lemma Map_fmap {T2} `{Zero T2} sl (op : T → T2) : Map sl op = Ok (op <$> sl).
Proof.
  unfold Map.
  assert (∀ l (acc : list T2) i, i = Z.of_nat (length acc) →
    (fix go (idx : Z) (l : list T) (result : list T2) :=
      match l with
      | [] => Ok result
      | item :: l' => let! result := slice_set result idx (op item) in go (idx + 1)%Z l' result
      end) i l (acc ++ replicate (length l) zero) = Ok (acc ++ (op <$> l))) as Hgo.
  { induction l as [|x l IH]; intros acc i Hi; simpl; [done|].
    rewrite slice_set_app //=. rewrite IH; [|by rewrite -app_assoc].
    rewrite length_app /=. lia. }
  by apply (Hgo sl [] 0%Z).
Qed.

Lemma Repeat_replicate `{Zero T} (el : T) times :
  Repeat el times =
  Ok (if decide (times < 0)%Z then None else Some (replicate (Z.to_nat times) el)).
Proof.
  unfold Repeat. destruct (Z.ltb_spec times 0); [by rewrite decide_True|].
  rewrite decide_False; [lia|]. destruct (Z.eqb_spec times 0) as [->|Hne]; [done|].
  assert (∀ n (acc : list T) i, i = Z.of_nat (length acc) →
    (fix go (n : nat) (i : Z) (result : list T) :=
      match n with
      | 0 => Ok (Some result)
      | S n' => let! result := slice_set result i el in go n' (i + 1)%Z result
      end) n i (acc ++ replicate n zero) = Ok (E := panic) (Some (acc ++ replicate n el))) as Hgo.
  { induction n as [|n IH]; intros acc i Hi; simpl; [done|].
    rewrite slice_set_app //=. rewrite IH; [|by rewrite -app_assoc].
    rewrite length_app /=. lia. }
  by apply (Hgo _ [] 0%Z).
Qed.

(** After [i] rounds the first [i] elements are written, back to front. *)
Lemma reverse_loop_spec sl fuel i (acc rest : list T) :
  length acc = i → i + length rest = length sl → length rest < fuel →
  acc = take i (reverse sl) →
  reverse_loop fuel (Z.of_nat i) (Z.of_nat (length sl) - 1 - Z.of_nat i) sl (acc ++ rest)
  = Ok (reverse sl).
Proof.
  revert i acc rest. induction fuel as [|fuel IH]; intros i acc rest Hacc Hlen Hfuel Heq; [lia|].
  simpl. destruct rest as [|y rest]; simpl in *.
  - rewrite decide_False; [lia|]. f_equal.
    rewrite app_nil_r Heq take_ge //. rewrite length_reverse. lia.
  - rewrite decide_True; [lia|].
    destruct (lookup_lt_is_Some_2 (reverse sl) i) as [x Hx]; [rewrite length_reverse; lia|].
    pose proof Hx as Hx'. apply reverse_lookup_Some in Hx' as [Hx' _].
    rewrite (slice_get_Some _ _ x); [lia| |].
    { rewrite -Hx'. f_equal. lia. }
    simpl. rewrite slice_set_app; [by rewrite Hacc|]. simpl.
    replace (Z.of_nat i + 1)%Z with (Z.of_nat (S i)) by lia.
    replace (Z.of_nat (length sl) - 1 - Z.of_nat i - 1)%Z
      with (Z.of_nat (length sl) - 1 - Z.of_nat (S i))%Z by lia.
    apply IH; [rewrite length_app /=; lia | lia | lia |].
    by rewrite (take_S_r _ _ _ Hx) -Heq.
Qed.

Lemma Reverse_reverse `{Zero T} sl : Reverse sl = Ok (reverse sl).
Proof.
  unfold Reverse.
  pose proof (reverse_loop_spec sl (S (length sl)) 0 [] (replicate (length sl) zero)) as Hr.
  rewrite Z.sub_0_r in Hr. apply Hr; [done| |rewrite length_replicate; lia|done].
  by rewrite length_replicate.
Qed.

Lemma Concat_join (sl : list (list T)) : Concat sl = mjoin sl.
Proof. apply (fold_app_join sl []). Qed.

Lemma Flatten_join (sl : list (list T)) : Flatten sl = mjoin sl.
Proof. apply (fold_app_join sl []). Qed.

(** *** Chunk *)

(** The buckets once the first [i] elements of [sl] are distributed. *)
Definition filled (size n i : nat) sl : list (list T) :=
  (λ j, take size (drop (j * size) (take i sl))) <$> seq 0 n.

Lemma filled_0 size n sl : filled size n 0 sl = replicate n [].
Proof.
  unfold filled. rewrite take_0. generalize 0.
  induction n as [|n IH]; intros m; [done|]. csimpl. by rewrite IH drop_nil take_nil.
Qed.

Lemma filled_step size n i sl x :
  0 < size → i / size < n → sl !! i = Some x →
  append_at (filled size n i sl) (i / size) x = Ok (filled size n (S i) sl).
Proof.
  intros Hs Hi Hx. unfold append_at.
  pose proof (Nat.div_mod_eq i size) as Hdm. pose proof (Nat.mod_upper_bound i size).
  pose proof (lookup_lt_Some _ _ _ Hx) as Hlen.
  assert (filled size n i sl !! (i / size) =
    Some (take size (drop (i / size * size) (take i sl)))) as Hb.
  { unfold filled. rewrite list_lookup_fmap lookup_seq_lt //. }
  rewrite (slice_get_Some _ _ (take size (drop (i / size * size) (take i sl)))); [lia| |].
  { by rewrite Nat2Z.id. }
  simpl. rewrite slice_set_Ok.
  { unfold filled. rewrite length_fmap length_seq. lia. }
  f_equal. rewrite Nat2Z.id. apply list_eq. intros j.
  unfold filled. destruct (decide (j < n)) as [Hj|Hj].
  2:{ rewrite !lookup_ge_None_2 // ?length_insert ?length_fmap ?length_seq; lia. }
  rewrite [in RHS]list_lookup_fmap lookup_seq_lt //=.
  rewrite (take_S_r _ _ _ Hx).
  destruct (decide (j = i / size)) as [->|Hne].
  - rewrite list_lookup_insert_eq; [rewrite length_fmap length_seq; lia|]. f_equal.
    rewrite drop_app_le; [rewrite length_take; nia|].
    rewrite (take_ge (drop _ _)); [rewrite length_drop length_take; nia|].
    symmetry. apply take_ge. rewrite length_app length_drop length_take /=. nia.
  - rewrite list_lookup_insert_ne // list_lookup_fmap lookup_seq_lt //=. f_equal.
    destruct (decide (j < i / size)).
    + rewrite drop_app_le; [rewrite length_take; nia|].
      rewrite take_app_le //. rewrite length_drop length_take. nia.
    + rewrite !drop_ge //; rewrite ?length_app length_take /=; nia.
Qed.

Lemma chunk_fill_spec size n sl rest i :
  0 < size → chunk_count (length sl) size ≤ n → drop i sl = rest →
  i ≤ length sl →
  chunk_fill size i rest (filled size n i sl) = Ok (filled size n (length sl) sl).
Proof.
  intros Hs Hn. revert i. induction rest as [|x rest IH]; intros i Hd Hi; simpl.
  - assert (length sl ≤ i) by (apply (f_equal length) in Hd; rewrite length_drop /= in Hd; lia).
    by replace i with (length sl) by lia.
  - assert (sl !! i = Some x) as Hx by (rewrite -(Nat.add_0_r i) -lookup_drop Hd //).
    pose proof (lookup_lt_Some _ _ _ Hx).
    rewrite (filled_step size n i sl x) //=.
    { apply Nat.Div0.div_lt_upper_bound.
      pose proof (chunk_count_bounds (length sl) size Hs). nia. }
    apply IH; [|lia]. rewrite -(Nat.add_1_r i) -drop_drop Hd //.
Qed.

Lemma Chunk_chunks sl size :
  Chunk sl size =
  Ok (if decide (size ≤ 0)%Z then None else Some (chunks (Z.to_nat size) sl)).
Proof.
  unfold Chunk. case_decide as Hsz; [done|].
  destruct (Nat.eqb_spec (length sl) 0) as [Hl|Hl].
  { apply nil_length_inv in Hl as ->. unfold chunks, chunk_count. simpl.
    rewrite Nat.Div0.div_0_l Nat.Div0.mod_0_l. done. }
  set (n := Z.to_nat size). assert (0 < n) as Hn by lia.
  assert ((if decide (length sl mod n ≠ 0) then replicate (length sl / n) [] ++ [[]]
    else replicate (length sl / n) []) = filled n (chunk_count (length sl) n) 0 sl) as ->.
  { rewrite filled_0. unfold chunk_count.
    do 2 case_decide; try lia; [|by rewrite Nat.add_0_r].
    by rewrite replicate_add. }
  rewrite (chunk_fill_spec n _ sl sl 0) //=; [lia|].
  unfold filled, chunks. by rewrite firstn_all.
Qed.
End BuildingLemmas.

Section GroupingLemmas.
Context {T : Type}.
Implicit Types (sl : list T).

Lemma Partition_acc `{Countable E} (keyer : T → E) sl (m : gmap E (list T)) k :
  fold_left (λ result item,
    let key := keyer item in
    <[key := default [] (result !! key) ++ [item]]> result) sl m !! k =
  match List.filter (λ x, bool_decide (keyer x = k)) sl with
  | [] => m !! k
  | f => Some (default [] (m !! k) ++ f)
  end.
Proof.
  revert m. induction sl as [|x sl IH]; intros m; simpl; [done|].
  rewrite IH. case_bool_decide as Hk.
  - subst k. rewrite lookup_insert_eq /=.
    destruct (List.filter _ sl); [done|]. by rewrite -app_assoc.
  - by rewrite lookup_insert_ne.
Qed.

Lemma PartitionMap_Partition `{Countable K} {V} (keyer : T → K * V) sl :
  PartitionMap sl keyer =
  fmap (M := gmap K) (map (λ x, (keyer x).2)) (Partition sl (λ x, (keyer x).1)).
Proof.
  unfold PartitionMap, Partition.
  assert (∀ (m : gmap K (list T)) (m' : gmap K (list V)),
    m' = fmap (M := gmap K) (map (λ x, (keyer x).2)) m →
    fold_left (λ out item, let '(key, val) := keyer item in
      <[key := default [] (out !! key) ++ [val]]> out) sl m' =
    fmap (M := gmap K) (map (λ x, (keyer x).2)) (fold_left (λ result item,
      let key := (keyer item).1 in
      <[key := default [] (result !! key) ++ [item]]> result) sl m)) as Hgen.
  { induction sl as [|x sl IH]; intros m m' ->; [done|]. simpl. apply IH.
    destruct (keyer x) as [k v] eqn:Hx. simpl. rewrite fmap_insert lookup_fmap.
    destruct (m !! k); simpl; by rewrite ?map_app /= Hx. }
  apply Hgen. by rewrite fmap_empty.
Qed.

Lemma SliceToMap_lookup `{Countable K} {V} (keyer : T → K * V) sl k :
  SliceToMap sl keyer !! k =
  (λ x, (keyer x).2) <$> last (List.filter (λ x, bool_decide ((keyer x).1 = k)) sl).
Proof.
  unfold SliceToMap.
  assert (∀ m : gmap K V, fold_left (λ out item, let '(k, v) := keyer item in <[k := v]> out) sl m !! k
    = match last (List.filter (λ x, bool_decide ((keyer x).1 = k)) sl) with
      | Some x => Some (keyer x).2 | None => m !! k end) as ->.
  { induction sl as [|x sl IH]; intros m; simpl; [done|]. rewrite IH.
    destruct (keyer x) as [k' v] eqn:Hx. simpl. case_bool_decide as Hk.
    - subst. rewrite lookup_insert_eq last_cons.
      destruct (last _); [done|]. by rewrite Hx.
    - by rewrite lookup_insert_ne. }
  by destruct (last _).
Qed.

(** The positions UniqFunc keeps: those whose key did not occur before. *)
Fixpoint first_occurrences `{EqDecision K} (fn : T → K) (seen : list K) (l : list T) : list T :=
  match l with
  | [] => []
  | x :: l' =>
      if bool_decide (fn x ∈ seen) then first_occurrences fn seen l'
      else x :: first_occurrences fn (fn x :: seen) l'
  end.

Lemma UniqFunc_first_occurrences `{Countable K} sl (fn : T → K) :
  UniqFunc sl fn = first_occurrences fn [] sl.
Proof.
  unfold UniqFunc.
  assert (∀ (seen : list K) (keys : go_set K) acc, (∀ k, k ∈ dom keys ↔ k ∈ seen) →
    (fold_left (λ '(keys, uniq) item, let key := fn item in
      if FunkSet.Contains keys key then (keys, uniq)
      else ((Add [key] keys).2, uniq ++ [item])) sl (keys, acc)).2
    = acc ++ first_occurrences fn seen sl) as Hgen; [|by apply (Hgen [] ∅ []); set_solver].
  induction sl as [|x sl IH]; intros seen keys acc Hseen.
  { by rewrite app_nil_r. }
  cbn [fold_left first_occurrences]. cbv zeta.
  rewrite Contains_spec (bool_decide_ext _ _ (Hseen (fn x))). case_bool_decide as Hin.
  - by apply IH.
  - rewrite (IH (fn x :: seen)).
    { intros k. rewrite Add_dom. set_solver. }
    by rewrite -app_assoc.
Qed.

Lemma Uniq_UniqFunc `{Countable T} sl : Uniq sl = UniqFunc sl id.
Proof. done. Qed.

Lemma elem_of_first_occurrences `{EqDecision K} (fn : T → K) seen sl x :
  x ∈ first_occurrences fn seen sl ↔
  ∃ i, sl !! i = Some x ∧ fn x ∉ seen ∧ fn x ∉ (fn <$> take i sl).
Proof.
  revert seen. induction sl as [|y sl IH]; intros seen; cbn [first_occurrences].
  { split; [by intros ?%elem_of_nil|]. intros (i & Hi & _). by destruct i. }
  assert ((∃ i, (y :: sl) !! i = Some x ∧ fn x ∉ seen ∧ fn x ∉ (fn <$> take i (y :: sl))) ↔
    (y = x ∧ fn x ∉ seen) ∨
    (∃ i, sl !! i = Some x ∧ fn x ∉ fn y :: seen ∧ fn x ∉ (fn <$> take i sl))) as ->.
  { split.
    - intros ([|i] & Hi & Hs & Ht); simplify_eq/=; [by left|right].
      apply not_elem_of_cons in Ht as [Hne Ht]. exists i.
      by rewrite not_elem_of_cons.
    - intros [[-> Hs]|(i & Hi & Hs & Ht)]; [exists 0; split_and!; [done|done|by apply not_elem_of_nil]|].
      apply not_elem_of_cons in Hs as [Hne Hs]. exists (S i). split_and!; [done|done|].
      csimpl. by apply not_elem_of_cons. }
  case_bool_decide as Hin.
  - rewrite IH. split.
    + intros (i & Hi & Hs & Ht). right. exists i. split_and!; [done| |done].
      apply not_elem_of_cons. split; [by intros Heq; rewrite -Heq in Hin|done].
    + intros [[-> ?]|(i & Hi & Hs & Ht)]; [done|]. apply not_elem_of_cons in Hs as [_ Hs]. eauto.
  - rewrite elem_of_cons IH. naive_solver.
Qed.

Lemma first_occurrences_keys_nodup `{EqDecision K} (fn : T → K) seen sl :
  NoDup (fn <$> first_occurrences fn seen sl).
Proof.
  revert seen. induction sl as [|x sl IH]; intros seen; cbn [first_occurrences].
  { apply NoDup_nil_2. }
  case_bool_decide as Hin; [apply IH|]. csimpl. apply NoDup_cons. split; [|apply IH].
  intros (y & Hy & Hin')%list_elem_of_fmap.
  apply elem_of_first_occurrences in Hin' as (_ & _ & Hni & _).
  rewrite -Hy in Hni. apply Hni. by left.
Qed.

Lemma first_occurrences_sublist `{EqDecision K} (fn : T → K) seen sl :
  first_occurrences fn seen sl `sublist_of` sl.
Proof.
  revert seen. induction sl as [|x sl IH]; intros seen; cbn [first_occurrences]; [done|].
  case_bool_decide; [by apply sublist_cons | by apply sublist_skip].
Qed.

(** Every key of the input keeps a representative. *)
Lemma first_occurrences_complete `{EqDecision K} (fn : T → K) seen sl x :
  x ∈ sl → fn x ∉ seen → fn x ∈ (fn <$> first_occurrences fn seen sl).
Proof.
  revert seen. induction sl as [|y sl IH]; intros seen Hx Hs; cbn [first_occurrences].
  { by apply not_elem_of_nil in Hx. }
  destruct (decide (fn x = fn y)) as [Heq|Hne].
  - rewrite Heq in Hs. rewrite bool_decide_false // fmap_cons Heq. by left.
  - apply elem_of_cons in Hx as [->|Hx]; [done|].
    case_bool_decide; [by apply IH|]. rewrite fmap_cons elem_of_cons. right.
    apply IH; [done|]. by apply not_elem_of_cons.
Qed.

Lemma Difference_filter `{Countable T} (left right : list T) :
  Difference left right =
  (List.filter (λ x, bool_decide (x ∉ right)) left,
   List.filter (λ x, bool_decide (x ∉ left)) right).
Proof.
  unfold Difference. rewrite !(fold_push _ id) !list_fmap_id. simpl.
  assert (∀ l k : list T, List.filter (λ x, negb (FunkSet.Contains (SliceToSet k) x)) l =
    List.filter (λ x, bool_decide (x ∉ k)) l) as Hf; [|by rewrite !Hf].
  intros l k. apply filter_ext. intros x. unfold SliceToSet. rewrite Contains_NewSet.
  by rewrite bool_decide_not.
Qed.
End GroupingLemmas.

(** ** Properties *)

(** Chunk never indexes out of range; for a positive size it cuts the slice
    into consecutive non-empty chunks of at most [size] elements, all but the
    last one full, and for any other size it returns nil. *)
Theorem Chunk_correct {T} (sl : list T) (size : Z) :
  ((size ≤ 0)%Z → Chunk sl size = Ok None) ∧
  ((0 < size)%Z → ∃ cs, Chunk sl size = Ok (Some cs) ∧ mjoin cs = sl ∧
    (∀ j c, cs !! j = Some c → (0 < Z.of_nat (length c) ≤ size)%Z) ∧
    (∀ j c, cs !! j = Some c → S j < length cs → Z.of_nat (length c) = size)).
Proof.
  rewrite Chunk_chunks. split; intros Hs; [by rewrite decide_True|].
  rewrite decide_False; [lia|]. eexists. split; [done|].
  assert (0 < Z.to_nat size) as Hn by lia. split; [by apply concat_chunks|]. split.
  - intros j c Hc. pose proof (chunks_bounds _ _ _ _ Hn Hc). lia.
  - intros j c Hc Hj. pose proof (chunks_full _ _ _ _ Hn Hc Hj). lia.
Qed.

Lemma Chunk_correct_witness :
  Chunk [1; 2; 3; 4; 5] 2 = Ok (Some [[1; 2]; [3; 4]; [5]]) ∧
  ∃ cs, Chunk [1; 2; 3; 4; 5] 2 = Ok (Some cs) ∧ mjoin cs = [1; 2; 3; 4; 5].
Proof.
  split; [reflexivity|].
  destruct (Chunk_correct [1; 2; 3; 4; 5] 2) as [_ H].
  destruct (H ltac:(lia)) as (cs & Hc & Hj & _). by exists cs.
Defined.

(** Uniq and UniqFunc keep exactly the elements whose key did not occur
    earlier, in their order, and one of every key. *)
Theorem UniqFunc_correct {T} `{Countable K} (sl : list T) (fn : T → K) :
  UniqFunc sl fn `sublist_of` sl ∧
  NoDup (fn <$> UniqFunc sl fn) ∧
  (∀ x, x ∈ UniqFunc sl fn ↔ ∃ i, sl !! i = Some x ∧ fn x ∉ (fn <$> take i sl)) ∧
  (∀ x, x ∈ sl → fn x ∈ (fn <$> UniqFunc sl fn)).
Proof.
  rewrite UniqFunc_first_occurrences. split_and!.
  - apply first_occurrences_sublist.
  - apply first_occurrences_keys_nodup.
  - intros x. rewrite elem_of_first_occurrences.
    split; intros (i & Hi & ?); exists i; [naive_solver|].
    split_and!; [done|apply not_elem_of_nil|done].
  - intros x Hx. apply first_occurrences_complete; [done|apply not_elem_of_nil].
Qed.

Lemma UniqFunc_correct_witness :
  UniqFunc [3; 1; 3; 2; 1] id = [3; 1; 2] ∧ 3 ∈ (id <$> UniqFunc [3; 1; 3; 2; 1] id).
Proof.
  split; [reflexivity|].
  destruct (UniqFunc_correct [3; 1; 3; 2; 1] id) as (_ & _ & _ & H). apply (H 3). left.
Defined.

(** Reverse, Map, Repeat and Concat never index out of range and compute
    the list functions of the same name. *)
Theorem slice_builders_correct {T T2} `{Zero T, Zero T2} (sl : list T) (sls : list (list T))
    (op : T → T2) (el : T) (times : Z) :
  Reverse sl = Ok (reverse sl) ∧
  Map sl op = Ok (op <$> sl) ∧
  Repeat el times =
    Ok (if decide (times < 0)%Z then None else Some (replicate (Z.to_nat times) el)) ∧
  Concat sls = mjoin sls ∧ Flatten sls = mjoin sls.
Proof.
  split_and!; [apply Reverse_reverse | apply Map_fmap | apply Repeat_replicate
    | apply Concat_join | apply Flatten_join].
Qed.

(** Partition groups the elements by key, each group in the order of the
    slice, and PartitionMap is Partition followed by the value function. *)
Theorem Partition_correct {T} `{Countable K} {V} (sl : list T) (keyer : T → K)
    (pair_keyer : T → K * V) (k : K) :
  Partition sl keyer !! k =
    match List.filter (λ x, bool_decide (keyer x = k)) sl with
    | [] => None
    | group => Some group
    end ∧
  PartitionMap sl pair_keyer =
    fmap (M := gmap K) (map (λ x, (pair_keyer x).2)) (Partition sl (λ x, (pair_keyer x).1)).
Proof.
  split; [|apply PartitionMap_Partition].
  pose proof (Partition_acc keyer sl ∅ k) as Hacc. rewrite lookup_empty in Hacc.
  etrans; [exact Hacc|]. by destruct (List.filter _ sl).
Qed.

(** Difference returns, in order and with their duplicates, the elements of
    each slice that the other one does not contain. *)
Theorem Difference_correct `{Countable T} (left right : list T) :
  Difference left right =
  (List.filter (λ x, bool_decide (x ∉ right)) left,
   List.filter (λ x, bool_decide (x ∉ left)) right).
Proof. apply Difference_filter. Qed.
