(* ===== verification/FunkMaps.v ===== *)
(** * pkg/funk/maps.go, pkg/funk/map.go: maps, keyed slices and the Maper

    Every loop over a map takes the order in which it visits the entries. *)
From S2P Require Import Prelude.
From S2P Require Import FunkSet.
From S2P Require Import FunkSlice.

Section Maps.
Context {K : Type} `{Countable K} {V : Type}.
Implicit Types (o : map_order K V) (m : gmap K V).

(** [pkg/funk/maps.go:13-27] MergeMaps *)
Definition MergeMaps o (ms : list (gmap K V)) : gmap K V :=
  fold_left (λ out item,
    fold_left (λ out kv, <[kv.1 := kv.2]> out) (enum o item) out) ms ∅.

(** [pkg/funk/maps.go:31-49] MergeMapsWith *)
Definition MergeMapsWith o (combine : V → V → V) (ms : list (gmap K V)) : gmap K V :=
  fold_left (λ out item,
    fold_left (λ out kv,
      match out !! kv.1 with
      | Some existing => <[kv.1 := combine existing kv.2]> out
      | None => <[kv.1 := kv.2]> out
      end) (enum o item) out) ms ∅.

(** [pkg/funk/maps.go:53-67] IntersectMaps *)
Definition IntersectMaps o (m1 m2 : gmap K V) (ms : list (gmap K V)) : gmap K V :=
  fold_left (λ result kv,
    if map_has m2 kv.1 && All ms (λ m3, map_has m3 kv.1)
    then <[kv.1 := kv.2]> result else result) (enum o m1) ∅.

(** [pkg/funk/maps.go:70-87] IntersectMapsWith: [m3[k]] is the zero value for
    an absent key. *)
Definition IntersectMapsWith `{Zero V} o (combine : V → V → V)
    (m1 m2 : gmap K V) (ms : list (gmap K V)) : gmap K V :=
  fold_left (λ result kv,
    let '(k, v1) := kv in
    match m2 !! k with
    | Some v2 =>
        if All ms (λ m3, map_has m3 k) then
          fold_left (λ result m3,
            <[k := combine (default zero (result !! k)) (default zero (m3 !! k))]> result)
            ms (<[k := combine v1 v2]> result)
        else result
    | None => result
    end) (enum o m1) ∅.

(** [pkg/funk/maps.go:111-119] Keys *)
Definition Keys o m : list K := fold_left (λ keys kv, keys ++ [kv.1]) (enum o m) [].

(** [pkg/funk/maps.go:122-130] Values *)
Definition Values o m : list V := fold_left (λ values kv, values ++ [kv.2]) (enum o m) [].

(** [pkg/funk/maps.go:133-143] MapFilter *)
Definition MapFilter o m (f : K → V → bool) : gmap K V :=
  fold_left (λ out kv, if f kv.1 kv.2 then <[kv.1 := kv.2]> out else out) (enum o m) ∅.

(** [pkg/funk/maps.go:147-155] MapKeys *)
Definition MapKeys `{Countable K2} o m (f : K → K2) : gmap K2 V :=
  fold_left (λ r kv, <[f kv.1 := kv.2]> r) (enum o m) ∅.

(** [pkg/funk/maps.go:160-173] MapKeysWith *)
Definition MapKeysWith `{Countable K2} o m (f : K → K2) (combine : V → V → V) : gmap K2 V :=
  fold_left (λ r kv,
    let newKey := f kv.1 in
    match r !! newKey with
    | Some existing => <[newKey := combine existing kv.2]> r
    | None => <[newKey := kv.2]> r
    end) (enum o m) ∅.

(** [pkg/funk/maps.go:176-184] MapValues *)
Definition MapValues {V2} o m (f : V → V2) : gmap K V2 :=
  fold_left (λ r kv, <[kv.1 := f kv.2]> r) (enum o m) ∅.

(** [pkg/funk/maps.go:187-195] PopulateMap *)
Definition PopulateMap (value : V) (keys : list K) : gmap K V :=
  fold_left (λ result key, <[key := value]> result) keys ∅.

(** [pkg/funk/maps.go:198-206] PopulateMapWith *)
Definition PopulateMapWith (generator : K → V) (keys : list K) : gmap K V :=
  fold_left (λ result key, <[key := generator key]> result) keys ∅.
End Maps.

(** [pkg/funk/maps.go:92-108] DifferenceMaps *)
Definition DifferenceMaps `{Countable K} {V1 V2} (o1 : map_order K V1) (o2 : map_order K V2)
    (left : gmap K V1) (right : gmap K V2) : gmap K V1 * gmap K V2 :=
  (fold_left (λ inLeft kv,
     if negb (map_has right kv.1) then <[kv.1 := kv.2]> inLeft else inLeft)
     (enum o1 left) ∅,
   fold_left (λ inRight kv,
     if negb (map_has left kv.1) then <[kv.1 := kv.2]> inRight else inRight)
     (enum o2 right) ∅).

(** [pkg/funk/maps.go:209-219] RangeSorted: the pairs the iterator yields to a
    consumer that never stops it; [le] orders the keys. *)
Definition RangeSorted `{Countable K} {V} (le : K → K → Prop) `{!RelDecision le}
    (o : map_order K V) (m : gmap K V) : list (K * V) :=
  let keys := merge_sort le (enum o m).*1 in
  omap (λ k, (λ v, (k, v)) <$> m !! k) keys.

(** ** Keyed slices *)
Section KeyedSlices.
Context {T : Type} (GetKey : T → string).

(** [pkg/funk/slice.go:256-264] KeyedToMap *)
Definition KeyedToMap (sl : list T) : gmap string T :=
  fold_left (λ out item, <[GetKey item := item]> out) sl ∅.

(** [pkg/funk/slice.go:251-253] IntersectKeyed *)
Definition IntersectKeyed (o1 o2 : map_order string T) (s1 s2 : list T) : list T :=
  Values o2 (IntersectMaps o1 (KeyedToMap s1) (KeyedToMap s2) []).
End KeyedSlices.

(** [pkg/funk/slice.go:160-164] DifferenceKeyed *)
Definition DifferenceKeyed {T1 T2} (GetKey1 : T1 → string) (GetKey2 : T2 → string)
    (o1 : map_order string T1) (o2 : map_order string T2) (left : list T1) (right : list T2) :
    list T1 * list T2 :=
  let '(inLeftS, inRightS) :=
    DifferenceMaps o1 o2 (KeyedToMap GetKey1 left) (KeyedToMap GetKey2 right) in
  (Values o1 inLeftS, Values o2 inRightS).

(** [pkg/funk/slice.go:237-248] Intersect *)
Definition Intersect `{Countable T} (o : map_order T unit) (sl1 sl2 : list T) : list T :=
  let set2 := SliceToSet sl2 in
  let result := fold_left (λ result item,
    if FunkSet.Contains set2 item then (Add [item] result).2 else result) sl1 ∅ in
  Keys o result.

(** ** Lemmas *)
Section MapLemmas.
Context {K : Type} `{Countable K} {V : Type}.
Implicit Types (o : map_order K V) (m : gmap K V).

Lemma Keys_enum o m : Keys o m = (enum o m).*1.
Proof. apply (fold_push_all fst _ []). Qed.

Lemma Values_enum o m : Values o m = (enum o m).*2.
Proof. apply (fold_push_all snd _ []). Qed.

Lemma MergeMaps_lookup o ms k :
  MergeMaps o ms !! k = fold_left (λ acc m, match m !! k with Some v => Some v | None => acc end) ms None.
Proof.
  unfold MergeMaps. rewrite -(lookup_empty (M := gmap K) k).
  generalize (∅ : gmap K V) as out.
  induction ms as [|m ms IH]; intros out; simpl; [done|].
  rewrite IH. f_equal.
  pose proof (insert_where_enum (λ _ _, true) (λ _ v, v) o m out k) as Hk.
  unfold insert_where in Hk. by rewrite Hk.
Qed.

(** One entry of a merge with [combine]. *)
Definition merge_entry (combine : V → V → V) (acc x : option V) : option V :=
  match acc, x with
  | Some a, Some v => Some (combine a v)
  | None, _ => x
  | Some a, None => Some a
  end.

Lemma combine_fold_lookup {K2} `{Countable K2} (f : K → K2) (combine : V → V → V) l (out : gmap K2 V) k :
  fold_left (λ out (kv : K * V),
    match out !! f kv.1 with
    | Some existing => <[f kv.1 := combine existing kv.2]> out
    | None => <[f kv.1 := kv.2]> out
    end) l out !! k =
  fold_left (λ acc kv, merge_entry combine acc (Some kv.2))
    (List.filter (λ kv, bool_decide (f kv.1 = k)) l) (out !! k).
Proof.
  revert out. induction l as [|[k' v] l IH]; intros out; simpl; [done|].
  rewrite IH. case_bool_decide as Hk; simpl.
  - subst k. f_equal. by destruct (out !! f k'); rewrite lookup_insert_eq.
  - f_equal. by destruct (out !! f k'); rewrite lookup_insert_ne.
Qed.

Lemma filter_key o m k :
  List.filter (λ kv, bool_decide (kv.1 = k)) (enum o m) =
  match m !! k with Some v => [(k, v)] | None => [] end.
Proof.
  pose proof (enum_nodup_keys o m) as Hnd.
  assert (∀ v, m !! k = Some v ↔ (k, v) ∈ enum o m) as Hin.
  { intros v. by rewrite elem_of_enum. }
  revert Hnd Hin. generalize (m !! k). induction (enum o m) as [|[k' v'] l IH]; intros x Hnd Hin.
  { simpl. destruct x as [v|]; [|done]. exfalso. by eapply not_elem_of_nil, (proj1 (Hin v)). }
  csimpl in *. apply NoDup_cons in Hnd as [Hni Hnd]. case_bool_decide as Hk.
  - subst k'. assert (x = Some v') as Hx by (apply Hin; left). subst x.
    rewrite (IH None) //. intros v. split; [done|]. intros Hv. exfalso.
    apply Hni, list_elem_of_fmap. by exists (k, v).
  - apply IH; [done|]. intros v. rewrite Hin elem_of_cons. naive_solver.
Qed.

Lemma MergeMapsWith_lookup o combine ms k :
  MergeMapsWith o combine ms !! k =
  fold_left (λ acc m, merge_entry combine acc (m !! k)) ms None.
Proof.
  unfold MergeMapsWith. rewrite -(lookup_empty (M := gmap K) k).
  generalize (∅ : gmap K V) as out.
  induction ms as [|m ms IH]; intros out; simpl; [done|].
  rewrite IH (combine_fold_lookup id) filter_key. f_equal.
  by destruct (m !! k), (out !! k).
Qed.

Lemma IntersectMaps_lookup o m1 m2 ms k :
  IntersectMaps o m1 m2 ms !! k =
  if bool_decide (Forall (λ m, is_Some (m !! k)) (m2 :: ms)) then m1 !! k else None.
Proof.
  unfold IntersectMaps.
  pose proof (insert_where_enum
    (λ k _, map_has m2 k && All ms (λ m3, map_has m3 k)) (λ _ v, v) o m1 ∅ k) as Hk.
  unfold insert_where in Hk. rewrite Hk lookup_empty All_forallb map_has_spec. clear Hk.
  destruct (m1 !! k) as [v|]; [|by case_bool_decide].
  replace (forallb _ ms) with (bool_decide (Forall (λ m, is_Some (m !! k)) ms)).
  - rewrite -bool_decide_and. by rewrite (bool_decide_ext _ _ (Forall_cons _ _ _)).
  - symmetry. apply eq_bool_prop_intro. rewrite bool_decide_spec forallb_True.
    apply Forall_iff. intros m. by rewrite map_has_spec bool_decide_spec.
Qed.

Lemma DifferenceMaps_lookup {V2} o (o2 : map_order K V2) m (m2 : gmap K V2) k :
  (DifferenceMaps o o2 m m2).1 !! k = (if m2 !! k is Some _ then None else m !! k) ∧
  (DifferenceMaps o o2 m m2).2 !! k = (if m !! k is Some _ then None else m2 !! k).
Proof.
  unfold DifferenceMaps; simpl. split.
  - pose proof (insert_where_enum (λ k _, negb (map_has m2 k)) (λ _ v, v) o m ∅ k) as Hk.
    unfold insert_where in Hk. rewrite Hk. unfold map_has.
    by destruct (m !! k), (m2 !! k).
  - pose proof (insert_where_enum (λ k _, negb (map_has m k)) (λ _ v, v) o2 m2 ∅ k) as Hk.
    unfold insert_where in Hk. rewrite Hk. unfold map_has.
    by destruct (m !! k), (m2 !! k).
Qed.

Lemma MapFilter_lookup o m f k :
  MapFilter o m f !! k = (m !! k ≫= λ v, if f k v then Some v else None).
Proof.
  pose proof (insert_where_enum f (λ _ v, v) o m ∅ k) as Hk.
  unfold insert_where in Hk. unfold MapFilter. rewrite Hk. by destruct (m !! k).
Qed.

Lemma MapValues_fmap {V2} o m (f : V → V2) : MapValues o m f = f <$> m.
Proof.
  apply map_eq. intros k. rewrite lookup_fmap.
  pose proof (insert_where_enum (λ _ _, true) (λ _ v, f v) o m ∅ k) as Hk.
  unfold insert_where in Hk. unfold MapValues. rewrite Hk. by destruct (m !! k).
Qed.

Lemma PopulateMapWith_lookup (g : K → V) keys k :
  PopulateMapWith g keys !! k = if bool_decide (k ∈ keys) then Some (g k) else None.
Proof.
  unfold PopulateMapWith. rewrite -(lookup_empty (M := gmap K) k).
  generalize (∅ : gmap K V) as out.
  induction keys as [|k' keys IH]; intros out; simpl; [done|]. rewrite IH.
  destruct (decide (k = k')) as [->|Hne].
  - rewrite lookup_insert_eq (bool_decide_true (k' ∈ k' :: keys)); [by left|].
    by case_bool_decide.
  - rewrite lookup_insert_ne //. repeat case_bool_decide; set_solver.
Qed.

Lemma RangeSorted_perm le `{!RelDecision le} o m : RangeSorted le o m ≡ₚ map_to_list m.
Proof.
  unfold RangeSorted. rewrite merge_sort_Permutation -(enum_perm o m).
  assert (∀ kv, kv ∈ enum o m → (λ v, (kv.1, v)) <$> m !! kv.1 = Some kv) as Hin.
  { intros [k v] Hkv. apply elem_of_enum in Hkv. by rewrite /= Hkv. }
  induction (enum o m) as [|kv l IH]; [done|]. csimpl.
  rewrite Hin; [by left|]. simpl. f_equiv. apply IH.
  intros kv' Hkv'. apply Hin. by right.
Qed.
End MapLemmas.

(** ** Properties *)

(** The map combinators do not depend on the iteration order: a merge holds
    the last value of a key, or all of them combined from left to right, an
    intersection the first map's value of the keys present everywhere, and a
    difference the entries whose key the other map lacks. *)
Theorem map_combinators_lookup `{Countable K} {V V2} (o : map_order K V) (o2 : map_order K V2)
    (combine : V → V → V) (m1 m2 : gmap K V) (ms : list (gmap K V)) (r : gmap K V2) (k : K) :
  MergeMaps o ms !! k =
    fold_left (λ acc m, match m !! k with Some v => Some v | None => acc end) ms None ∧
  MergeMapsWith o combine ms !! k =
    fold_left (λ acc m, merge_entry combine acc (m !! k)) ms None ∧
  IntersectMaps o m1 m2 ms !! k =
    (if bool_decide (Forall (λ m, is_Some (m !! k)) (m2 :: ms)) then m1 !! k else None) ∧
  (DifferenceMaps o o2 m1 r).1 !! k = (if map_has r k then None else m1 !! k) ∧
  (DifferenceMaps o o2 m1 r).2 !! k = (if map_has m1 k then None else r !! k).
Proof.
  destruct (DifferenceMaps_lookup o o2 m1 r k) as [Hl Hr].
  split_and!; [apply MergeMaps_lookup | apply MergeMapsWith_lookup
    | apply IntersectMaps_lookup | rewrite Hl | rewrite Hr]; unfold map_has.
  - by destruct (r !! k).
  - by destruct (m1 !! k).
Qed.
