(* ===== verification/FunkMaper.v ===== *)
(** * pkg/funk/map.go: the mutable Maper

    A [*maper] is its map; the methods that mutate it return the new map.  The
    other Mapers a method receives are Mapers of the same implementation, and a
    loop over a KeySet takes an order of its elements. *)
From S2P Require Import Prelude.
From S2P Require Import FunkSet.
From S2P Require Import FunkSlice.
From S2P Require Import FunkMaps.

Section Maper.
Context {K : Type} `{Countable K} {V : Type}.
Implicit Types (o : map_order K V) (u : map_order K unit) (m : gmap K V).

(** [pkg/funk/map.go:55-59] NewMaper *)
Definition NewMaper : gmap K V := ∅.

(** [pkg/funk/map.go:72-74] maper.Size *)
Definition Size m : nat := size m.

(** [pkg/funk/map.go:76-78] maper.IsEmpty *)
Definition IsEmpty m : bool := size m =? 0.

(** [pkg/funk/map.go:80-84] maper.ContainsKey *)
Definition ContainsKey m (key : K) : bool := map_has m key.

(** [pkg/funk/map.go:86-94] maper.ContainsValue *)
Definition ContainsValue (deepEqual : V → V → bool) o m (value : V) : bool :=
  (fix go (l : list (K * V)) : bool :=
    match l with
    | [] => false
    | kv :: l' => if deepEqual kv.2 value then true else go l'
    end) (enum o m).

(** [pkg/funk/map.go:96-100] maper.Get *)
Definition Get `{Zero V} m (key : K) : V * bool := (default zero (m !! key), map_has m key).

(** [pkg/funk/map.go:102-107] maper.Put *)
Definition Put `{Zero V} m (key : K) (value : V) : (V * bool) * gmap K V :=
  ((default zero (m !! key), map_has m key), <[key := value]> m).

(** [pkg/funk/map.go:202-209] maper.KeySet *)
Definition KeySet o m : go_set K :=
  fold_left (λ keys kv, <[kv.1 := tt]> keys) (enum o m) ∅.

(** [pkg/funk/map.go:109-114] maper.PutAll *)
Definition PutAll `{Zero V} o u m (other : gmap K V) : gmap K V :=
  fold_left (λ m k, let '(value, _) := Get other k.1 in <[k.1 := value]> m)
    (enum u (KeySet o other)) m.

(** [pkg/funk/map.go:116-124] maper.Merge *)
Definition Merge `{Zero V} o u m (other : list (gmap K V)) : gmap K V :=
  fold_left (λ merged item, PutAll o u merged item) other (PutAll o u NewMaper m).

(** [pkg/funk/map.go:126-143] maper.MergeWith *)
Definition MergeWith `{Zero V} o u m (combine : V → V → V) (other : list (gmap K V)) : gmap K V :=
  fold_left (λ merged item,
    fold_left (λ merged k,
      let '(value, _) := Get item k.1 in
      let '(existing, ok) := Get merged k.1 in
      if ok then (Put merged k.1 (combine existing value)).2
      else (Put merged k.1 value).2)
      (enum u (KeySet o item)) merged) other (PutAll o u NewMaper m).

(** [pkg/funk/map.go:145-157] maper.Intersect *)
Definition Intersect `{Zero V} o u m (other : list (gmap K V)) : gmap K V :=
  fold_left (λ intersection k,
    if All other (λ item, ContainsKey item k.1)
    then (Put intersection k.1 (Get m k.1).1).2 else intersection)
    (enum u (KeySet o m)) NewMaper.

(** [pkg/funk/map.go:159-171] maper.IntersectWith *)
Definition IntersectWith `{Zero V} o u m (combine : V → V → V) (other : list (gmap K V)) : gmap K V :=
  let intersection := Intersect o u m other in
  fold_left (λ intersection k,
    let value := fold_left (λ value item, combine value (Get item k.1).1) other
      (Get intersection k.1).1 in
    (Put intersection k.1 value).2)
    (enum u (KeySet o intersection)) intersection.

(** [pkg/funk/map.go:173-189] maper.Difference *)
Definition Difference `{Zero V} o u m (other : gmap K V) : gmap K V * gmap K V :=
  (fold_left (λ inThis k,
     if negb (ContainsKey other k.1) then (Put inThis k.1 (Get m k.1).1).2 else inThis)
     (enum u (KeySet o m)) NewMaper,
   fold_left (λ inOther k,
     if negb (ContainsKey m k.1) then (Put inOther k.1 (Get other k.1).1).2 else inOther)
     (enum u (KeySet o other)) NewMaper).

(** [pkg/funk/map.go:191-196] maper.Remove *)
Definition Remove `{Zero V} m (key : K) : (V * bool) * gmap K V :=
  ((default zero (m !! key), map_has m key), delete key m).

(** [pkg/funk/map.go:198-200] maper.Clear *)
Definition Clear m : gmap K V := ∅.

(** [pkg/funk/map.go:211-213] maper.Keys *)
Definition Keys o u m : list K := ToSlice u (KeySet o m).

(** [pkg/funk/map.go:215-222] maper.Values *)
Definition Values o m : list V := fold_left (λ values kv, values ++ [kv.2]) (enum o m) [].

(** [pkg/funk/map.go:224-237] maper.Range: the entries yielded to a consumer
    that stops after [stop] says so. *)
Definition Range o m (stop : K → V → bool) : list (K * V) :=
  (fix go (l : list (K * V)) : list (K * V) :=
    match l with
    | [] => []
    | kv :: l' => if stop kv.1 kv.2 then [kv] else kv :: go l'
    end) (enum o m).

(** [pkg/funk/map.go:239-248] maper.Filter *)
Definition Filter `{Zero V} o m (filter : K → V → bool) : gmap K V :=
  fold_left (λ filtered kv,
    if filter kv.1 kv.2 then (Put filtered kv.1 kv.2).2 else filtered) (enum o m) NewMaper.
End Maper.

(** ** Lemmas *)
Section MaperLemmas.
Context {K : Type} `{Countable K} {V : Type} `{Zero V}.
Implicit Types (o : map_order K V) (u : map_order K unit) (m : gmap K V).

Lemma KeySet_lookup o m k : KeySet o m !! k = (λ _, tt) <$> m !! k.
Proof.
  pose proof (insert_where_enum (λ _ _, true) (λ _ _, tt) o m ∅ k) as Hk.
  unfold insert_where in Hk. unfold KeySet. rewrite Hk. by destruct (m !! k).
Qed.

(** A loop over a KeySet that stores a value computed from the key. *)
Lemma keyset_loop o u m (p : K → bool) (g : K → V) (out : gmap K V) k :
  fold_left (λ out (kv : K * unit), if p kv.1 then <[kv.1 := g kv.1]> out else out)
    (enum u (KeySet o m)) out !! k =
  if map_has m k && p k then Some (g k) else out !! k.
Proof.
  pose proof (insert_where_enum (λ k _, p k) (λ k _, g k) u (KeySet o m) out k) as Hk.
  unfold insert_where in Hk. rewrite Hk KeySet_lookup. unfold map_has.
  by destruct (m !! k).
Qed.

Lemma PutAll_lookup o u m other k :
  PutAll o u m other !! k = match other !! k with Some v => Some v | None => m !! k end.
Proof.
  pose proof (keyset_loop o u other (λ _, true) (λ k, (Get other k).1) m k) as Hk.
  unfold PutAll. simpl in *. rewrite Hk /map_has. by destruct (other !! k).
Qed.

Lemma Merge_MergeMaps o u m other : Merge o u m other = MergeMaps o (m :: other).
Proof.
  apply map_eq. intros k. rewrite MergeMaps_lookup. simpl. unfold Merge.
  assert (match m !! k with Some v => Some v | None => None end
    = PutAll o u NewMaper m !! k) as -> by (rewrite PutAll_lookup; by destruct (m !! k)).
  generalize (PutAll o u NewMaper m) as merged.
  induction other as [|m' other IH]; intros merged; simpl; [done|].
  by rewrite IH PutAll_lookup.
Qed.

Lemma Intersect_lookup o u m other k :
  Intersect o u m other !! k =
  if bool_decide (Forall (λ m, is_Some (m !! k)) other) then m !! k else None.
Proof.
  pose proof (keyset_loop o u m (λ k, All other (λ item, ContainsKey item k))
    (λ k, (Get m k).1) NewMaper k) as Hk.
  unfold Intersect. simpl in *. rewrite Hk All_forallb.
  replace (forallb _ other) with (bool_decide (Forall (λ m, is_Some (m !! k)) other)).
  - unfold map_has, NewMaper. rewrite lookup_empty.
    destruct (m !! k); simpl; by case_bool_decide.
  - symmetry. apply eq_bool_prop_intro. rewrite bool_decide_spec forallb_True.
    apply Forall_iff. intros m'. unfold ContainsKey. by rewrite map_has_spec bool_decide_spec.
Qed.

Lemma Difference_DifferenceMaps o u m other :
  Difference o u m other = DifferenceMaps o o m other.
Proof.
  rewrite (surjective_pairing (DifferenceMaps o o m other)).
  unfold Difference. f_equal; apply (map_eq (M := gmap K)); intros k.
  - pose proof (keyset_loop o u m (λ k, negb (ContainsKey other k)) (λ k, (Get m k).1) NewMaper k) as Hk.
    etrans; [exact Hk|]. destruct (DifferenceMaps_lookup o o m other k) as [-> _].
    rewrite /ContainsKey /map_has /Get /NewMaper lookup_empty.
    by destruct (m !! k), (other !! k).
  - pose proof (keyset_loop o u other (λ k, negb (ContainsKey m k)) (λ k, (Get other k).1) NewMaper k) as Hk.
    etrans; [exact Hk|]. destruct (DifferenceMaps_lookup o o m other k) as [_ ->].
    rewrite /ContainsKey /map_has /Get /NewMaper lookup_empty.
    by destruct (m !! k), (other !! k).
Qed.
End MaperLemmas.

(** ** Properties *)

(** The Maper's methods agree with the functions on maps: Merge is MergeMaps,
    Difference is DifferenceMaps, and Intersect keeps this Maper's values of the
    keys every other Maper has; Put and Remove return what Get would have. *)
Theorem Maper_agrees `{Countable K} {V} `{Zero V} (o : map_order K V) (u : map_order K unit)
    (m other : gmap K V) (others : list (gmap K V)) (k : K) (v : V) :
  Merge o u m others = MergeMaps o (m :: others) ∧
  Difference o u m other = DifferenceMaps o o m other ∧
  (∀ m2, Intersect o u m (m2 :: others) = IntersectMaps o m m2 others) ∧
  (Put m k v).1 = Get m k ∧ Get (Put m k v).2 k = (v, true) ∧
  (Remove m k).1 = Get m k ∧ Get (Remove m k).2 k = (zero, false).
Proof.
  split_and!.
  - apply Merge_MergeMaps.
  - apply Difference_DifferenceMaps.
  - intros m2. apply map_eq. intros k'. by rewrite Intersect_lookup IntersectMaps_lookup.
  - done.
  - by rewrite /Get /map_has /= lookup_insert_eq.
  - done.
  - by rewrite /Get /map_has /= lookup_delete_eq.
Qed.
