(* ===== verification/KvStore.v ===== *)
(** * pkg/kvstore: the key-value store interface, the chain of stores, the
    empty store

    A store is a value of a state type with an instance of [KvStore]; every
    method returns the store's new state with what the Go method returns.  A
    method's out parameters ([value *T], [values any]) are threaded through.
    Warnings written to the logger are not modelled. *)
From S2P Require Import Prelude.

(** ** Keys, errors and result maps *)

Section Keys.
(** [O]: the dynamic values other than strings that are used as keys. *)
Context (O : Type).

(** A key of type [any]. *)
Inductive any_key : Type :=
| KString (s : string)
| KOther (x : O).

(** The errors of the package: the leaf errors, and [fmt.Errorf] with [%w]. *)
Inductive error : Type :=
| ErrCastKey
| ErrKeyType
| ErrStore (msg : string)
| ErrWrap (msg : string) (err : error).

(** The dynamic types a result map's key can have. *)
Inductive ktype : Type :=
| TString
| TInterface
| TOther (n : nat).
End Keys.
Arguments KString {O} _.
Arguments KOther {O} _.

#[export] Instance any_key_eq_dec {O} `{EqDecision O} : EqDecision (any_key O).
Proof. solve_decision. Defined.
#[export] Instance error_eq_dec : EqDecision error.
Proof. solve_decision. Defined.
#[export] Instance ktype_eq_dec : EqDecision ktype.
Proof. solve_decision. Defined.
#[export] Instance any_key_countable {O} `{Countable O} : Countable (any_key O).
Proof.
  apply (inj_countable' (λ k, match k with KString s => inl s | KOther x => inr x end)
    (λ x, match x with inl s => KString s | inr x => KOther x end)).
  by intros [].
Defined.

(** [pkg/refl/map.go:67-73] refl.Map: a result map and the type of its keys *)
Record rmap (O T : Type) `{Countable O} := RMap {
  rm_keyType : ktype;
  rm_entries : gmap (any_key O) T;
}.
Arguments RMap {O T _ _} _ _.
Arguments rm_keyType {O T _ _} _.
Arguments rm_entries {O T _ _} _.

(** ** The interface *)

(** [pkg/kvstore/kvstore.go:43-63] KvStore *)
Class KvStore (O T : Type) `{Countable O} (St : Type) := {
  kv_contains : any_key O → St → St * (bool * option error);
  kv_get : any_key O → T → St → St * (T * bool * option error);
  kv_getBatch : list (any_key O) → rmap O T → St → St * (rmap O T * list (any_key O) * option error);
  kv_put : any_key O → T → St → St * option error;
  kv_putBatch : gmap (any_key O) T → St → St * option error;
  kv_delete : any_key O → St → St * option error;
  kv_deleteBatch : list (any_key O) → St → St * option error;
}.

(** ** The empty store *)
Section Empty.
Context {O T : Type} `{Countable O}.

(** [pkg/kvstore/empty.go:10-10] emptyKvStore *)
Inductive emptyKvStore : Type := EmptyKvStore.

(** [pkg/kvstore/empty.go:20-49] the methods of emptyKvStore *)
#[export] Instance empty_KvStore : KvStore O T emptyKvStore := {|
  kv_contains := λ _ s, (s, (false, None));
  kv_get := λ _ value s, (s, (value, false, None));
  kv_getBatch := λ keys values s, (s, (values, keys, None));
  kv_put := λ _ _ s, (s, None);
  kv_putBatch := λ _ s, (s, None);
  kv_delete := λ _ s, (s, None);
  kv_deleteBatch := λ _ s, (s, None);
|}.
End Empty.

(** ** The chain *)
Section Chain.
Context {O T : Type} `{Countable O} `{Zero T}.
Context {St M : Type} `{!KvStore O T St, !KvStore O T M}.
Context (ord : map_order (any_key O) T).
Implicit Types (key : any_key O) (value : T).

(** [pkg/kvstore/chain.go:19-26] chainKvStore *)
Record chainKvStore := Chain {
  chain : list St;
  missingCache : M;
}.

(** [pkg/kvstore/chain.go:55-63] NewChainKvStoreWithInterfaces *)
Definition NewChainKvStoreWithInterfaces (missingCache : M) : chainKvStore :=
  {| chain := []; missingCache := missingCache |}.

(** [pkg/kvstore/chain.go:76-78] chainKvStore.AddStore *)
Definition AddStore (store : St) (s : chainKvStore) : chainKvStore :=
  {| chain := chain s ++ [store]; missingCache := missingCache s |}.

(** [pkg/kvstore/chain.go:65-74] chainKvStore.Add: [factory] is the element
    factory applied to the settings. *)
Definition Add (factory : result error St) (s : chainKvStore) : result error chainKvStore :=
  match factory with
  | Err err => Err (ErrWrap "can not create store" err)
  | Ok store => Ok (AddStore store s)
  end.

(** How the loop of Get ends. *)
Inductive get_outcome : Type :=
| GetFailed (err : error)
| GetFound (index : nat)
| GetMissing.

(** [pkg/kvstore/chain.go:98-115] the loop of Get over [chain[i:]] *)
Fixpoint get_loop (i : nat) (key : any_key O) (value : T) (stores : list St) :
    list St * T * get_outcome :=
  match stores with
  | [] => ([], value, GetMissing)
  | element :: rest =>
      let '(element, (value, exists_, err)) := kv_get key value element in
      match err, rest with
      | Some err, [] =>
          ([element], value, GetFailed (ErrWrap "could not get from kvstore" err))
      | _, _ =>
          if (exists_ : bool) then (element :: rest, value, GetFound i)
          else
            let '(rest, value, out) := get_loop (S i) key value rest in
            (element :: rest, value, out)
      end
  end.

(** [pkg/kvstore/chain.go:127-132] writing the value to chain[n-1] .. chain[0] *)
Fixpoint propagate (n : nat) (key : any_key O) (value : T) (stores : list St) : list St :=
  match n with
  | 0 => stores
  | S i => propagate i key value (alter (λ st, (kv_put key value st).1) i stores)
  end.

(** [pkg/kvstore/chain.go:84-135] chainKvStore.Get *)
Definition Get (key : any_key O) (value : T) (s : chainKvStore) :
    chainKvStore * (T * bool * option error) :=
  let '(mc, (exists_, _)) := kv_contains key (missingCache s) in
  if (exists_ : bool) then (Chain (chain s) mc, (value, false, None))
  else
    match get_loop 0 key value (chain s) with
    | (stores, value, GetFailed err) => (Chain stores mc, (value, false, Some err))
    | (stores, value, GetMissing) =>
        (Chain stores (kv_put key zero mc).1, (value, false, None))
    | (stores, value, GetFound i) =>
        (Chain (propagate i key value stores) mc, (value, true, None))
    end.

(** [pkg/kvstore/chain.go:80-82] chainKvStore.Contains *)
Definition Contains (key : any_key O) (s : chainKvStore) : chainKvStore * (bool * option error) :=
  let '(s, (_, found, err)) := Get key zero s in (s, (found, err)).

(** [pkg/kvstore/chain.go:171-184] chainKvStore.getKeysFromMissingCache: the
    cached-missing keys are the string keys of the map the cache filled. *)
Definition getKeysFromMissingCache (todo : list (any_key O)) (mc : M) :
    M * (list (any_key O) * list (any_key O)) :=
  let '(mc, (cachedMissingMap, remainingTodo, _)) :=
    kv_getBatch todo (RMap TString ∅) mc in
  let cachedMissing := fold_left (λ acc kv, acc ++ [kv.1])
    (enum ord (rm_entries cachedMissingMap)) [] in
  (mc, (remainingTodo, cachedMissing)).

(** [pkg/kvstore/chain.go:186-214] chainKvStore.getFromChain: the loop over
    [chain[i:]]; the result holds the stores, the values, the refill map, the
    remaining keys and foundInIndex. *)
Fixpoint getFromChain (i : nat) (remainingTodo : list (any_key O)) (values : rmap O T)
    (refill : gmap nat (list (any_key O))) (stores : list St) :
    list St * rmap O T * result error (list (any_key O) * gmap nat (list (any_key O)) * nat) :=
  match stores with
  | [] => ([], values, Ok (remainingTodo, refill, i))
  | element :: rest =>
      let '(element, (values, missing, err)) := kv_getBatch remainingTodo values element in
      match err, rest with
      | Some err, [] =>
          ([element], values, Err (ErrWrap "could not get batch from kvstore" err))
      | _, _ =>
          let missing := match err with Some _ => remainingTodo | None => missing end in
          let refill := <[i := missing]> refill in
          if length missing =? 0 then (element :: rest, values, Ok (missing, refill, i))
          else
            let '(rest, values, out) := getFromChain (S i) missing values refill rest in
            (element :: rest, values, out)
      end
  end.

(** [pkg/kvstore/chain.go:228-234] the values of the keys a store misses *)
Definition missing_in_element (mii : gmap (any_key O) T) (keys : list (any_key O)) : gmap (any_key O) T :=
  fold_left (λ acc key,
    match mii !! key with Some val => <[key := val]> acc | None => acc end) keys ∅.

(** [pkg/kvstore/chain.go:216-247] chainKvStore.propagateToLowerCacheLevels *)
Fixpoint propagateToLowerCacheLevels (mii : gmap (any_key O) T)
    (refill : gmap nat (list (any_key O))) (foundInIndex : nat) (stores : list St) : list St :=
  match foundInIndex with
  | 0 => stores
  | S i =>
      let keys := default [] (refill !! i) in
      let stores :=
        if length keys =? 0 then stores
        else
          let missingInElement := missing_in_element mii keys in
          if size missingInElement =? 0 then stores
          else alter (λ st, (kv_putBatch missingInElement st).1) i stores in
      propagateToLowerCacheLevels mii refill i stores
  end.

(** [pkg/kvstore/chain.go:249-262] chainKvStore.storeMissingKeys *)
Definition storeMissingKeys (todo : list (any_key O)) (mc : M) : M :=
  if 0 <? length todo then
    let missingValues := fold_left (λ acc key, <[key := zero]> acc) todo ∅ in
    (kv_putBatch missingValues mc).1
  else mc.

(** [pkg/kvstore/chain.go:137-169] chainKvStore.GetBatch *)
Definition GetBatch (todo : list (any_key O)) (values : rmap O T) (s : chainKvStore) :
    chainKvStore * (rmap O T * list (any_key O) * option error) :=
  let '(mc, (todo, cachedMissing)) := getKeysFromMissingCache todo (missingCache s) in
  if length todo =? 0 then (Chain (chain s) mc, (values, cachedMissing, None))
  else
    match getFromChain 0 todo values ∅ (chain s) with
    | (stores, values, Err err) => (Chain stores mc, (values, [], Some err))
    | (stores, values, Ok (todo, refill, foundInIndex)) =>
        let stores := propagateToLowerCacheLevels (rm_entries values) refill foundInIndex stores in
        (Chain stores (storeMissingKeys todo mc), (values, todo ++ cachedMissing, None))
    end.

(** [pkg/kvstore/chain.go:267-277] the loop of Put *)
Fixpoint put_loop (key : any_key O) (value : T) (stores : list St) : list St * option error :=
  match stores with
  | [] => ([], None)
  | element :: rest =>
      let '(element, err) := kv_put key value element in
      match err, rest with
      | Some err, [] => ([element], Some (ErrWrap "could not put to kvstore" err))
      | _, _ => let '(rest, err) := put_loop key value rest in (element :: rest, err)
      end
  end.

(** [pkg/kvstore/chain.go:264-287] chainKvStore.Put *)
Definition Put (key : any_key O) (value : T) (s : chainKvStore) : chainKvStore * option error :=
  match put_loop key value (chain s) with
  | (stores, Some err) => (Chain stores (missingCache s), Some err)
  | (stores, None) => (Chain stores (kv_delete key (missingCache s)).1, None)
  end.

(** [pkg/kvstore/chain.go:297-307] the loop of PutBatch *)
Fixpoint putBatch_loop (mii : gmap (any_key O) T) (stores : list St) : list St * option error :=
  match stores with
  | [] => ([], None)
  | element :: rest =>
      let '(element, err) := kv_putBatch mii element in
      match err, rest with
      | Some err, [] => ([element], Some (ErrWrap "could not put batch to kvstore" err))
      | _, _ => let '(rest, err) := putBatch_loop mii rest in (element :: rest, err)
      end
  end.

(** [pkg/kvstore/chain.go:289-316] chainKvStore.PutBatch *)
Definition PutBatch (mii : gmap (any_key O) T) (s : chainKvStore) : chainKvStore * option error :=
  match putBatch_loop mii (chain s) with
  | (stores, Some err) => (Chain stores (missingCache s), Some err)
  | (stores, None) =>
      (Chain stores (fold_left (λ mc kv, (kv_delete kv.1 mc).1) (enum ord mii) (missingCache s)), None)
  end.

(** [pkg/kvstore/chain.go:318-330] chainKvStore.Delete, on [chain[i:]] *)
Fixpoint delete_loop (key : any_key O) (stores : list St) : list St * option error :=
  match stores with
  | [] => ([], None)
  | store :: rest =>
      let '(store, err) := kv_delete key store in
      match err with
      | Some err => (store :: rest, Some (ErrWrap "could not delete from kvstore" err))
      | None => let '(rest, err) := delete_loop key rest in (store :: rest, err)
      end
  end.

(** [pkg/kvstore/chain.go:318-330] chainKvStore.Delete *)
Definition Delete (key : any_key O) (s : chainKvStore) : chainKvStore * option error :=
  let '(stores, err) := delete_loop key (chain s) in (Chain stores (missingCache s), err).

(** [pkg/kvstore/chain.go:333-341] the loop of DeleteBatch *)
Fixpoint deleteBatch_loop (keys : list (any_key O)) (stores : list St) : list St * option error :=
  match stores with
  | [] => ([], None)
  | store :: rest =>
      let '(store, err) := kv_deleteBatch keys store in
      match err with
      | Some err => (store :: rest, Some (ErrWrap "could not batch delete from kvstore" err))
      | None => let '(rest, err) := deleteBatch_loop keys rest in (store :: rest, err)
      end
  end.

(** [pkg/kvstore/chain.go:332-344] chainKvStore.DeleteBatch *)
Definition DeleteBatch (keys : list (any_key O)) (s : chainKvStore) : chainKvStore * option error :=
  let '(stores, err) := deleteBatch_loop keys (chain s) in (Chain stores (missingCache s), err).

(** [pkg/kvstore/chain.go:13-17] a chain is itself a KvStore *)
#[local] Instance chain_KvStore : KvStore O T chainKvStore := {|
  kv_contains := Contains;
  kv_get := Get;
  kv_getBatch := GetBatch;
  kv_put := Put;
  kv_putBatch := PutBatch;
  kv_delete := Delete;
  kv_deleteBatch := DeleteBatch;
|}.
End Chain.
Arguments chainKvStore : clear implicits.
Arguments Chain {St M} _ _.

(** ** What a store promises

    [kv_view] is the map a store holds, by the string a key is cast to
    ([ToStringE], the cast package's function).  A store may lose entries at any
    time (a cache) unless it is [kv_durable].  A store that decodes what it finds into
    the caller's variable promises the value only for a variable that is [kv_fresh]:
    encoding/json leaves alone what a text does not mention. *)
Section Laws.
Context {O T : Type} `{Countable O} (ToStringE : any_key O → result error string).

(** [pkg/kvstore/kvstore.go:83-91] CastKeyToString *)
Definition CastKeyToString (key : any_key O) : result error string :=
  match ToStringE key with
  | Ok str => Ok str
  | Err err => Err (ErrWrap "unknown type for kvstore key" err)
  end.

Definition lookup_key (m : gmap string T) (key : any_key O) : option T :=
  match CastKeyToString key with
  | Ok str => m !! str
  | Err _ => None
  end.

Definition insert_key (key : any_key O) (value : T) (m : gmap string T) : gmap string T :=
  match CastKeyToString key with
  | Ok str => <[str := value]> m
  | Err _ => m
  end.

Definition delete_key (key : any_key O) (m : gmap string T) : gmap string T :=
  match CastKeyToString key with
  | Ok str => delete str m
  | Err _ => m
  end.

(** The map of string keys a batch is given as. *)
Definition keyed (m : gmap string T) : gmap (any_key O) T := kmap KString m.

Class KvStoreLaws (St : Type) `{!KvStore O T St} := {
  kv_view : St → gmap string T;
  kv_durable : St → Prop;
  kv_fresh : T → Prop;
  kv_contains_law key s s' b err :
    kv_contains key s = (s', (b, err)) → kv_view s' ⊆ kv_view s;
  kv_get_law key value s s' v found err :
    kv_get key value s = (s', (v, found, err)) →
    kv_view s' ⊆ kv_view s ∧
    (kv_durable s → kv_durable s' ∧ kv_view s' = kv_view s) ∧
    (found = true → err = None ∧ (kv_fresh value → lookup_key (kv_view s) key = Some v)) ∧
    (found = false → err = None → v = value ∧ lookup_key (kv_view s') key = None);
  kv_put_law key value s s' err :
    kv_put key value s = (s', err) →
    (∀ k x, kv_view s' !! k = Some x →
      kv_view s !! k = Some x ∨ (CastKeyToString key = Ok k ∧ x = value)) ∧
    (err = None → kv_view s' ⊆ insert_key key value (kv_view s)) ∧
    (kv_durable s → kv_durable s' ∧
      match err with
      | Some _ => kv_view s' = kv_view s ∨ kv_view s' = insert_key key value (kv_view s)
      | None => kv_view s' = insert_key key value (kv_view s)
      end);
  kv_delete_law key s s' err :
    kv_delete key s = (s', err) →
    kv_view s' ⊆ kv_view s ∧
    (err = None → kv_view s' ⊆ delete_key key (kv_view s)) ∧
    (kv_durable s → kv_durable s' ∧ delete_key key (kv_view s) ⊆ kv_view s');
  kv_getBatch_law ks vm s s' values missing err :
    kv_getBatch (KString <$> ks) (RMap TString (keyed vm)) s = (s', (values, missing, err)) →
    kv_view s' ⊆ kv_view s ∧
    (kv_durable s → kv_durable s' ∧ kv_view s' = kv_view s) ∧
    ∃ vm' ms, values = RMap TString (keyed vm') ∧ missing = KString <$> ms ∧
      (∀ k, vm' !! k = vm !! k ∨ (k ∈ ks ∧ is_Some (vm' !! k) ∧ vm' !! k = kv_view s !! k)) ∧
      (∀ k, k ∈ ms → k ∈ ks) ∧
      (err = None → ∀ k, k ∈ ks → if decide (k ∈ ms) then kv_view s' !! k = None
        else is_Some (vm' !! k) ∧ vm' !! k = kv_view s !! k) ∧
      (err ≠ None → ∀ k, k ∈ ks → k ∈ ms);
  kv_putBatch_law m s s' err :
    kv_putBatch (keyed m) s = (s', err) →
    (∀ k x, kv_view s' !! k = Some x → kv_view s !! k = Some x ∨ m !! k = Some x) ∧
    (err = None → kv_view s' ⊆ m ∪ kv_view s) ∧
    (kv_durable s → err = None → kv_durable s' ∧ kv_view s' = m ∪ kv_view s);
}.

(** A store whose Contains holds only for keys that it can read, which a chain needs of
    its cache of missing keys. *)
Class KvMembership (St : Type) `{!KvStore O T St, !KvStoreLaws St} : Prop :=
  kv_member_law key (s s' : St) err :
    kv_contains key s = (s', (true, err)) → is_Some (lookup_key (kv_view s) key).

(** What Contains and DeleteBatch of a durable store do. *)
Class KvDurableLaws (St : Type) `{!KvStore O T St, !KvStoreLaws St} : Prop := {
  kv_contains_durable key s s' b err :
    kv_durable s → kv_contains key s = (s', (b, err)) →
    kv_durable s' ∧ kv_view s' = kv_view s ∧ (err = None → b = bool_decide (is_Some (lookup_key (kv_view s) key)));
  kv_deleteBatch_durable ks s s' err :
    kv_durable s → kv_deleteBatch (KString <$> ks) s = (s', err) →
    kv_durable s' ∧ kv_view s' ⊆ kv_view s ∧ (∀ k, k ∉ ks → kv_view s' !! k = kv_view s !! k) ∧
    (err = None → ∀ k, k ∈ ks → kv_view s' !! k = None)
}.

(** What a delete that failed can leave behind. *)
Lemma between_delete key (m m' : gmap string T) :
  m' ⊆ m → delete_key key m ⊆ m' → m' = m ∨ m' = delete_key key m.
Proof.
  intros Hsub Hdel. unfold delete_key in *. destruct (CastKeyToString key) as [k|]; [|left; by apply (anti_symm (⊆))].
  destruct (m' !! k) as [v|] eqn:Hv; [left|right]; apply (anti_symm (⊆)); try done; apply map_subseteq_spec; intros j x Hx.
  - destruct (decide (k = j)) as [<-|Hne]; [pose proof (lookup_weaken _ _ _ _ Hv Hsub); congruence|].
    eapply lookup_weaken; [|exact Hdel]. by rewrite lookup_delete_ne.
  - rewrite lookup_delete_Some. split; [intros <-; congruence|]. by eapply lookup_weaken.
Qed.
End Laws.

Section Coherence.
Context {O T : Type} `{Countable O} `{Zero T} (ToStringE : any_key O → result error string).
Context {St M : Type} `{!KvStore O T St, !KvStore O T M}.
Context `{!KvStoreLaws ToStringE St, !KvStoreLaws ToStringE M}.
Context (ord : map_order (any_key O) T).
Abbreviation view := (kv_view (T := T) ToStringE).
Abbreviation durable := (kv_durable (T := T) ToStringE).
Abbreviation fresh := (kv_fresh (T := T) (St := St) ToStringE).
Implicit Types (key : any_key O) (value : T) (s : chainKvStore St M) (B : gmap string T).

(** Every cache holds part of what the last store holds. *)
Definition caches_within B (caches : list St) : Prop := Forall (λ c, view c ⊆ B) caches.

(** The coherence invariant of a chain over a durable last store holding [B]:
    no cache contradicts it, and no key it holds is cached as missing. *)
Definition coherent (s : chainKvStore St M) (B : gmap string T) : Prop :=
  ∃ caches b, chain s = caches ++ [b] ∧ durable b ∧ view b = B ∧
    caches_within B caches ∧ dom (view (missingCache s)) ## dom B.

Lemma lookup_key_weaken (m m' : gmap string T) key v :
  m ⊆ m' → lookup_key ToStringE m key = Some v → lookup_key ToStringE m' key = Some v.
Proof.
  unfold lookup_key. destruct (CastKeyToString ToStringE key); [|done].
  intros Hsub Hv. by eapply lookup_weaken.
Qed.

(** A store whose failing reads leave a fresh variable fresh. *)
Definition fails_clean key (c : St) : Prop :=
  ∀ value c' v err, fresh value → kv_get key value c = (c', (v, false, Some err)) → fresh v.

(** An element that is not the last one never fails the loop. *)
Lemma get_loop_cons i key value (c : St) rest :
  rest ≠ [] →
  get_loop i key value (c :: rest) =
  let '(c, (value, found, err)) := kv_get key value c in
  if (found : bool) then (c :: rest, value, GetFound i)
  else let '(rest, value, out) := get_loop (S i) key value rest in (c :: rest, value, out).
Proof.
  intros Hne. simpl. destruct (kv_get key value c) as [c' [[v found] err]].
  by destruct err, rest.
Qed.

Lemma get_loop_spec B i key value caches b stores v out :
  fresh value → Forall (fails_clean key) caches → caches_within B caches → durable b → view b = B →
  get_loop i key value (caches ++ [b]) = (stores, v, out) →
  ∃ caches' b', stores = caches' ++ [b'] ∧ length caches' = length caches ∧
    caches_within B caches' ∧ durable b' ∧ view b' = B ∧
    match out with
    | GetFailed _ => True
    | GetFound j => i ≤ j ≤ i + length caches ∧ lookup_key ToStringE B key = Some v
    | GetMissing => lookup_key ToStringE B key = None
    end.
Proof.
  unfold caches_within.
  revert i value stores v out. induction caches as [|c caches IH]; intros i value stores v out Hfr Hcl Hc Hd Hb.
  - simpl. destruct (kv_get key value b) as [b' [[v' found] err]] eqn:Hg.
    apply (kv_get_law ToStringE) in Hg as (_ & Hdur & Hf & Hn). destruct (Hdur Hd) as [Hd' Hb'].
    rewrite Hb in Hf Hb'. rewrite Hb' in Hn.
    destruct err, found; intros [= <- <- <-]; exists [], b'; naive_solver lia.
  - apply Forall_cons in Hc as [Hc Hcs]. apply Forall_cons in Hcl as [Hcl Hcls]. specialize (Hcl value).
    rewrite -app_comm_cons get_loop_cons; [by destruct caches|].
    destruct (kv_get key value c) as [c' [[v' found] err]] eqn:Hg.
    specialize (Hcl c' v').
    pose proof Hg as (Hsub & _ & Hf & Hn)%(kv_get_law ToStringE).
    assert (view c' ⊆ B) by (by etrans). destruct found.
    + destruct (Hf eq_refl) as [-> Hv]. specialize (Hv Hfr). intros [= <- <- <-].
      exists (c' :: caches), b. split_and!; try done; [by apply Forall_cons|simpl; lia|].
      by eapply (lookup_key_weaken (view c)).
    + destruct (get_loop _ key v' (caches ++ [b])) as [[rest v''] out'] eqn:Hrec.
      intros [= <- <- <-].
      assert (Hfr' : fresh v') by (destruct err as [e|]; [by eapply Hcl|by destruct (Hn eq_refl eq_refl) as [-> _]]).
      apply IH in Hrec as (caches' & b' & -> & Hlen & Hc' & Hd' & Hb' & Hout); [|done..].
      exists (c' :: caches'), b'. split_and!; try done; [simpl; lia|by apply Forall_cons|].
      destruct out'; naive_solver lia.
Qed.

(** Writing the last store's value to a cache keeps it within the last store. *)
Lemma put_within B key v (c : St) :
  view c ⊆ B → lookup_key ToStringE B key = Some v → view (kv_put key v c).1 ⊆ B.
Proof.
  intros Hc Hv. destruct (kv_put key v c) as [c' err] eqn:Hp.
  apply (kv_put_law ToStringE) in Hp as (Hsub & _). apply map_subseteq_spec. intros k x Hx.
  apply Hsub in Hx as [Hx|[Hk ->]]; [by eapply lookup_weaken|].
  by rewrite /lookup_key Hk in Hv.
Qed.

Lemma propagate_spec B n key v caches b :
  n ≤ length caches → lookup_key ToStringE B key = Some v → caches_within B caches →
  ∃ caches', propagate n key v (caches ++ [b]) = caches' ++ [b] ∧ caches_within B caches'.
Proof.
  unfold caches_within. revert caches.
  induction n as [|i IH]; intros caches Hn Hv Hc; simpl; [by exists caches|].
  assert (alter (λ st, (kv_put key v st).1) i (caches ++ [b]) =
    alter (λ st, (kv_put key v st).1) i caches ++ [b]) as -> by (apply alter_app_l; lia).
  apply IH; [rewrite length_alter; lia|done|].
  apply Forall_alter; [done|]. intros c Hi Hcsub.
  by apply put_within.
Qed.

Lemma dom_insert_key_disjoint B key (v : T) (m m' : gmap string T) :
  m' ⊆ insert_key ToStringE key v m → lookup_key ToStringE B key = None →
  dom m ## dom B → dom m' ## dom B.
Proof.
  unfold insert_key, lookup_key. intros Hsub Hn Hd k Hk HkB.
  apply subseteq_dom in Hsub. apply Hsub in Hk.
  destruct (CastKeyToString ToStringE key) as [str|].
  - rewrite dom_insert_L elem_of_union elem_of_singleton in Hk.
    destruct Hk as [->|Hk]; [by apply not_elem_of_dom in Hn | by apply (Hd k)].
  - by apply (Hd k).
Qed.

(** *** Put *)

Lemma insert_key_mono key v (m m' : gmap string T) :
  m ⊆ m' → insert_key ToStringE key v m ⊆ insert_key ToStringE key v m'.
Proof.
  unfold insert_key. destruct (CastKeyToString ToStringE key); [|done]. apply insert_mono.
Qed.

Lemma delete_key_subseteq key (m : gmap string T) : delete_key ToStringE key m ⊆ m.
Proof.
  unfold delete_key. destruct (CastKeyToString ToStringE key); [|done]. apply delete_subseteq.
Qed.

Lemma delete_key_mono key (m m' : gmap string T) :
  m ⊆ m' → delete_key ToStringE key m ⊆ delete_key ToStringE key m'.
Proof.
  unfold delete_key. destruct (CastKeyToString ToStringE key); [|done]. apply delete_mono.
Qed.

Lemma put_loop_cons key value (c : St) rest :
  rest ≠ [] →
  put_loop key value (c :: rest) =
  let '(rest', err) := put_loop key value rest in ((kv_put key value c).1 :: rest', err).
Proof.
  intros Hne. simpl. destruct (kv_put key value c) as [c' err]. by destruct err, rest.
Qed.

Lemma put_loop_spec B key value caches b stores err :
  caches_within B caches → durable b → view b = B →
  put_loop key value (caches ++ [b]) = (stores, err) →
  ∃ caches' b', stores = caches' ++ [b'] ∧ durable b' ∧
    match err with
    | Some _ => view b' = B ∨ view b' = insert_key ToStringE key value B
    | None => view b' = insert_key ToStringE key value B
    end ∧
    (Forall (λ c, (kv_put key value c).2 = None) caches →
     caches_within (insert_key ToStringE key value B) caches').
Proof.
  unfold caches_within. revert stores err.
  induction caches as [|c caches IH]; intros stores err Hc Hd Hb.
  - simpl. destruct (kv_put key value b) as [b' err'] eqn:Hp.
    apply (kv_put_law ToStringE) in Hp as (_ & _ & Hdur).
    destruct (Hdur Hd) as [Hd' Hb']. rewrite Hb in Hb'.
    destruct err'; intros [= <- <-]; by exists [], b'.
  - apply Forall_cons in Hc as [Hc Hcs].
    rewrite -app_comm_cons put_loop_cons; [by destruct caches|].
    destruct (kv_put key value c) as [c' errc] eqn:Hp.
    pose proof (kv_put_law ToStringE _ _ _ _ _ Hp) as (_ & Hok & _).
    destruct (put_loop key value (caches ++ [b])) as [rest err'] eqn:Hrec.
    intros [= <- <-].
    destruct (IH _ _ Hcs Hd Hb eq_refl) as (caches' & b' & -> & Hd' & Hb' & Hall).
    exists (c' :: caches'), b'. split_and!; [done..|].
    intros [Hce Hces]%Forall_cons. rewrite Hp /= in Hce. apply Forall_cons. split; [|by apply Hall].
    etrans; [by apply Hok|]. by apply insert_key_mono.
Qed.

Lemma missing_after_delete B key value (mc : M) :
  (kv_delete key mc).2 = None → dom (view mc) ## dom B →
  dom (view (kv_delete key mc).1) ## dom (insert_key ToStringE key value B).
Proof.
  destruct (kv_delete key mc) as [mc' err] eqn:Hdel. simpl. intros -> Hdisj.
  apply (kv_delete_law ToStringE) in Hdel as (_ & Hok & _).
  specialize (Hok eq_refl). apply subseteq_dom in Hok. revert Hok.
  unfold delete_key, insert_key. destruct (CastKeyToString ToStringE key); set_solver.
Qed.

Lemma Put_run s B key value s' err :
  coherent s B → Put key value s = (s', err) →
  ∃ caches' b' B', chain s' = caches' ++ [b'] ∧ durable b' ∧ view b' = B' ∧
    (B' = B ∨ B' = insert_key ToStringE key value B) ∧
    (err = None → B' = insert_key ToStringE key value B) ∧
    (err = None → Forall (λ c, (kv_put key value c).2 = None) (chain s) →
     (kv_delete key (missingCache s)).2 = None → coherent s' B').
Proof.
  intros (caches & b & Hch & Hd & Hb & Hc & Hm). unfold Put. rewrite Hch.
  destruct (put_loop key value (caches ++ [b])) as [stores err'] eqn:Hp.
  apply (put_loop_spec B) in Hp as (caches' & b' & -> & Hd' & Hb' & Hall); [|done..].
  destruct err' as [e|]; intros [= <- <-]; exists caches', b', (view b');
    split_and!; try done; [naive_solver|].
  intros _ [Hputs _]%Forall_app Hdel. exists caches', b'. rewrite Hb'. split_and!; [done..| |].
  - by apply Hall.
  - by apply missing_after_delete.
Qed.

(** *** Delete *)

Lemma delete_loop_spec B key caches b stores err :
  caches_within B caches → durable b → view b = B →
  delete_loop key (caches ++ [b]) = (stores, err) →
  ∃ caches' b', stores = caches' ++ [b'] ∧ durable b' ∧
    (err = None → view b' = delete_key ToStringE key B) ∧
    ((view b' = B ∧ caches_within B caches') ∨
     (delete_key ToStringE key B ⊆ view b' ∧ view b' ⊆ B ∧
      caches_within (delete_key ToStringE key B) caches')).
Proof.
  unfold caches_within. revert stores err.
  induction caches as [|c caches IH]; intros stores err Hc Hd Hb; simpl.
  - destruct (kv_delete key b) as [b' err'] eqn:Hp.
    apply (kv_delete_law ToStringE) in Hp as (Hsub & Hok & Hdur).
    destruct (Hdur Hd) as [Hd' Hge]. rewrite Hb in Hsub Hge Hok.
    destruct err'; intros [= <- <-]; exists [], b'; split_and!; try done; try by right.
    intros _. by apply (anti_symm (⊆)); [apply Hok|].
  - apply Forall_cons in Hc as [Hc Hcs].
    destruct (kv_delete key c) as [c' errc] eqn:Hp.
    apply (kv_delete_law ToStringE) in Hp as (Hsub & Hok & _).
    assert (view c' ⊆ B) by (by etrans). destruct errc as [e|].
    + intros [= <- <-]. exists (c' :: caches), b. split_and!; try done.
      left. split; [done|]. by apply Forall_cons.
    + specialize (Hok eq_refl).
      destruct (delete_loop key (caches ++ [b])) as [rest err'] eqn:Hrec.
      intros [= <- <-].
      destruct (IH _ _ Hcs Hd Hb eq_refl) as (caches' & b' & -> & Hd' & Hn & Hcase).
      exists (c' :: caches'), b'. split_and!; try done.
      destruct Hcase as [[Hb' Hall]|(Hge & Hle & Hall)]; [left|right].
      * split; [done|]. by apply Forall_cons.
      * split_and!; [done..|]. apply Forall_cons. split; [|done].
        etrans; [exact Hok|]. by apply delete_key_mono.
Qed.

Lemma Delete_run s B key s' err :
  coherent s B → Delete key s = (s', err) →
  ∃ B', coherent s' B' ∧ delete_key ToStringE key B ⊆ B' ∧ B' ⊆ B ∧
    (err = None → B' = delete_key ToStringE key B).
Proof.
  intros (caches & b & Hch & Hd & Hb & Hc & Hm). unfold Delete. rewrite Hch.
  destruct (delete_loop key (caches ++ [b])) as [stores err'] eqn:Hp.
  apply (delete_loop_spec B) in Hp as (caches' & b' & -> & Hd' & Hn & Hcase); [|done..].
  intros [= <- <-]. exists (view b').
  assert (delete_key ToStringE key B ⊆ view b' ∧ view b' ⊆ B ∧ caches_within (view b') caches')
    as (Hge & Hle & Hw).
  { destruct Hcase as [[-> Hall]|(Hge & Hle & Hall)].
    - split_and!; [apply delete_key_subseteq|done..].
    - split_and!; [done..|]. eapply Forall_impl; [exact Hall|]. intros c. simpl. intros. by etrans. }
  split_and!; try done. exists caches', b'. split_and!; try done.
  simpl. apply subseteq_dom in Hle. set_solver.
Qed.

(** *** Get *)

Lemma Get_run `{!KvMembership ToStringE M} s B key value s' v found err :
  fresh value → Forall (fails_clean key) (chain s) → coherent s B → Get key value s = (s', (v, found, err)) →
  coherent s' B ∧
  (found = true → err = None ∧ lookup_key ToStringE B key = Some v) ∧
  (found = false → err = None → lookup_key ToStringE B key = None).
Proof.
  intros Hfr Hcl (caches & b & Hch & Hd & Hb & Hc & Hm). unfold Get. rewrite Hch in Hcl |- *. apply Forall_app in Hcl as [Hcl _].
  destruct (kv_contains key (missingCache s)) as [mc [ex errc]] eqn:Hcon.
  assert (ex = true → is_Some (lookup_key ToStringE (view (missingCache s)) key)) as Hex.
  { intros ->. by eapply (kv_member_law ToStringE). }
  apply (kv_contains_law ToStringE) in Hcon as Hmc.
  assert (dom (view mc) ## dom B) as Hmd by (apply subseteq_dom in Hmc; set_solver).
  destruct ex.
  { intros [= <- <- <- <-]. split_and!; [|done|].
    - exists caches, b. by split_and!.
    - intros _ _. specialize (Hex eq_refl). unfold lookup_key in *.
      destruct (CastKeyToString ToStringE key) as [str|]; [|done].
      apply not_elem_of_dom. apply elem_of_dom in Hex. set_solver. }
  destruct (get_loop 0 key value (caches ++ [b])) as [[stores v'] out] eqn:Hl.
  apply (get_loop_spec B) in Hl as (caches' & b' & -> & Hlen & Hc' & Hd' & Hb' & Hout); [|done..].
  destruct out as [e|j|]; intros [= <- <- <- <-].
  - split_and!; [|done..]. exists caches', b'. by split_and!.
  - destruct Hout as [Hj Hv]. split_and!; [|done..].
    destruct (propagate_spec B j key v' caches' b') as (caches'' & -> & Hc''); [lia|done|done|].
    exists caches'', b'. by split_and!.
  - split_and!; [|done..]. exists caches', b'. split_and!; try done. simpl.
    destruct (kv_put key zero mc) as [mc' errp] eqn:Hp.
    apply (kv_put_law ToStringE) in Hp as (Hsub & _). simpl.
    intros k Hk HkB. apply elem_of_dom in Hk as [x Hx].
    apply Hsub in Hx as [Hx|[Hk ->]].
    + apply elem_of_dom_2 in Hx. by apply (Hmd k).
    + unfold lookup_key in Hout. rewrite Hk in Hout. apply elem_of_dom in HkB as [? HkB]. congruence.
Qed.

(** *** GetBatch, for string keys *)

#[export] Instance KString_inj : Inj (=) (=) (@KString O).
Proof. by intros ?? [= ->]. Qed.

Lemma keyed_lookup (m : gmap string T) k : keyed m !! (KString k : any_key O) = m !! k.
Proof. unfold keyed. by rewrite lookup_kmap. Qed.

Lemma keyed_insert (m : gmap string T) k v :
  <[KString k := v]> (keyed m) = (keyed (<[k := v]> m) : gmap (any_key O) T).
Proof. unfold keyed. by rewrite kmap_insert. Qed.

Lemma keyed_empty : keyed ∅ = (∅ : gmap (any_key O) T).
Proof. unfold keyed. by rewrite kmap_empty. Qed.

Lemma elem_of_KString k (ks : list string) : (KString k : any_key O) ∈ (KString <$> ks) ↔ k ∈ ks.
Proof. by rewrite list_elem_of_fmap_inj. Qed.

Lemma KString_list (l : list (any_key O)) :
  (∀ key, key ∈ l → ∃ k, key = KString k) → ∃ ks, l = KString <$> ks.
Proof.
  induction l as [|key l IH]; intros Hl; [by exists []|].
  destruct (Hl key) as [k ->]; [by left|]. destruct IH as [ks ->].
  { intros key' Hk. apply Hl. by right. }
  by exists (k :: ks).
Qed.

(** The entries of [vm] for [ks]. *)
Definition select (vm : gmap string T) (ks : list string) : gmap string T :=
  fold_left (λ acc k, match vm !! k with Some v => <[k := v]> acc | None => acc end) ks ∅.

Lemma missing_in_element_select (vm : gmap string T) ks :
  missing_in_element (keyed vm) (KString <$> ks : list (any_key O)) = keyed (select vm ks).
Proof.
  unfold missing_in_element, select. rewrite -keyed_empty.
  generalize (∅ : gmap string T) as acc.
  induction ks as [|k ks IH]; intros acc; [done|]. csimpl.
  rewrite keyed_lookup. destruct (vm !! k); [|apply IH]. by rewrite keyed_insert IH.
Qed.

Lemma select_lookup (vm : gmap string T) ks k :
  select vm ks !! k = if bool_decide (k ∈ ks) then vm !! k else None.
Proof.
  unfold select.
  assert (∀ acc : gmap string T, (∀ v, acc !! k = Some v → vm !! k = Some v) →
    fold_left (λ acc k, match vm !! k with Some v => <[k := v]> acc | None => acc end) ks acc !! k
    = if bool_decide (k ∈ ks) then vm !! k else acc !! k) as ->; [|done..].
  induction ks as [|k' ks IH]; intros acc Hacc; simpl; [done|].
  destruct (decide (k = k')) as [->|Hne].
  - rewrite (bool_decide_true (k' ∈ k' :: ks)); [by left|].
    destruct (vm !! k') as [v|] eqn:Hv; rewrite IH; try done.
    + intros v'. rewrite lookup_insert_eq. by intros [= <-].
    + rewrite lookup_insert_eq. by case_bool_decide.
    + case_bool_decide; [done|]. destruct (acc !! k') eqn:Ha; [by specialize (Hacc _ eq_refl)|done].
  - rewrite (bool_decide_ext (k ∈ k' :: ks) (k ∈ ks)); [set_solver|].
    destruct (vm !! k') as [v|]; rewrite IH //; rewrite lookup_insert_ne //.
Qed.

(** What the stores visited so far put into the caller's map. *)
Definition filled_from B (ks : list string) (vm vm' : gmap string T) : Prop :=
  ∀ k, vm' !! k = vm !! k ∨ (k ∈ ks ∧ is_Some (vm' !! k) ∧ vm' !! k = B !! k).

(** The keys of [ks] that are no longer looked for are filled. *)
Definition settled B (ks ms : list string) (vm' : gmap string T) : Prop :=
  ∀ k, k ∈ ks → k ∉ ms → is_Some (vm' !! k) ∧ vm' !! k = B !! k.

Lemma filled_from_trans B ks ks' vm vm' vm'' :
  (∀ k, k ∈ ks' → k ∈ ks) →
  filled_from B ks vm vm' → filled_from B ks' vm' vm'' → filled_from B ks vm vm''.
Proof.
  intros Hks H1 H2 k. destruct (H2 k) as [Heq|(Hin & Hs & HB)]; [|by eauto].
  destruct (H1 k) as [Heq1|(Hin & Hs & HB)]; rewrite Heq; eauto.
Qed.

Lemma lookup_is_Some_weaken (m B : gmap string T) k :
  m ⊆ B → is_Some (m !! k) → m !! k = B !! k.
Proof. intros Hsub [x Hx]. rewrite Hx. symmetry. by eapply lookup_weaken. Qed.

(** One store visited by getFromChain, when it holds part of [B]. *)
Lemma getBatch_step B ks ms vm vm' (c c' : St) values missing err :
  view c ⊆ B → (∀ k, k ∈ ms → k ∈ ks) →
  filled_from B ks vm vm' → settled B ks ms vm' →
  kv_getBatch (KString <$> ms) (RMap TString (keyed vm')) c = (c', (values, missing, err)) →
  view c' ⊆ B ∧
  ∃ vm'' ms', values = RMap TString (keyed vm'') ∧
    match err with Some _ => KString <$> ms | None => missing end = KString <$> ms' ∧
    (∀ k, k ∈ ms' → k ∈ ms) ∧ filled_from B ks vm vm'' ∧ settled B ks ms' vm'' ∧
    (durable c → view c = B → durable c' ∧ view c' = B ∧
      (err = None → ∀ k, k ∈ ms' → B !! k = None)).
Proof.
  intros Hc Hms Hf Hset Hg.
  apply (kv_getBatch_law ToStringE) in Hg
    as (Hsub & Hdur & vm'' & ms0 & -> & -> & Hfill & Hin & Hok & Hfail).
  split; [by etrans|].
  assert (filled_from B ms vm' vm'') as Hf2.
  { intros k. destruct (Hfill k) as [?|(Hk & Hs & Heq)]; [by left|right].
    split_and!; [done|done|]. rewrite Heq in Hs |- *. by apply lookup_is_Some_weaken. }
  assert (∀ k, is_Some (vm' !! k) ∧ vm' !! k = B !! k → is_Some (vm'' !! k) ∧ vm'' !! k = B !! k)
    as Hkeep.
  { intros k [Hs Heq]. destruct (Hf2 k) as [Hk|(_ & ? & ?)]; [by rewrite Hk|done]. }
  pose proof (filled_from_trans _ _ _ _ _ _ Hms Hf Hf2) as Hf'.
  destruct err as [e|].
  - exists vm'', ms. split_and!; try done.
    + intros k Hk Hnm. by apply Hkeep, Hset.
    + intros Hd HB. destruct (Hdur Hd) as [Hd' ->]. by split_and!.
  - exists vm'', ms0. split_and!; try done.
    + intros k Hk Hnm. destruct (decide (k ∈ ms)) as [Hkm|Hkm]; [|by apply Hkeep, Hset].
      specialize (Hok eq_refl k Hkm). rewrite decide_False // in Hok.
      destruct Hok as [Hs Heq]. split; [done|].
      rewrite Heq in Hs |- *. by apply lookup_is_Some_weaken.
    + intros Hd HB. destruct (Hdur Hd) as [Hd' Hv]. rewrite Hv. split_and!; [done..|].
      intros _ k Hk. specialize (Hok eq_refl k (Hin _ Hk)).
      by rewrite decide_True // Hv HB in Hok.
Qed.

Lemma getFromChain_cons i todo values refill (c : St) rest :
  rest ≠ [] →
  getFromChain i todo values refill (c :: rest) =
  let '(c, (values, missing, err)) := kv_getBatch todo values c in
  let missing := match err with Some _ => todo | None => missing end in
  let refill := <[i := missing]> refill in
  if length missing =? 0 then (c :: rest, values, Ok (missing, refill, i))
  else
    let '(rest, values, out) := getFromChain (S i) missing values refill rest in
    (c :: rest, values, out).
Proof.
  intros Hne. simpl. destruct (kv_getBatch todo values c) as [c' [[v m] err]].
  by destruct err, rest.
Qed.

(** The refill map holds, for every store visited, string keys among [ks]. *)
Definition refill_within (ks : list string) (refill : gmap nat (list (any_key O))) : Prop :=
  ∀ j keys, refill !! j = Some keys → ∃ rs, keys = KString <$> rs ∧ ∀ k, k ∈ rs → k ∈ ks.

Lemma refill_within_insert ks rs refill i :
  refill_within ks refill → (∀ k, k ∈ rs → k ∈ ks) →
  refill_within ks (<[i := KString <$> rs]> refill).
Proof.
  intros Hr Hin j keys [[<- <-]|[Hne Hj]]%lookup_insert_Some; [by exists rs|by eapply Hr].
Qed.

Lemma getFromChain_spec B ks i ms vm vm' refill caches b stores values out :
  caches_within B caches → durable b → view b = B →
  (∀ k, k ∈ ms → k ∈ ks) → filled_from B ks vm vm' → settled B ks ms vm' →
  refill_within ks refill →
  getFromChain i (KString <$> ms) (RMap TString (keyed vm')) refill (caches ++ [b])
    = (stores, values, out) →
  ∃ caches' b', stores = caches' ++ [b'] ∧ length caches' = length caches ∧
    caches_within B caches' ∧ durable b' ∧ view b' = B ∧
    match out with
    | Err _ => True
    | Ok (todo, refill', n) =>
        ∃ vm'' ms', values = RMap TString (keyed vm'') ∧ todo = KString <$> ms' ∧
          (∀ k, k ∈ ms' → k ∈ ks) ∧ filled_from B ks vm vm'' ∧ settled B ks ms' vm'' ∧
          (∀ k, k ∈ ms' → B !! k = None) ∧ refill_within ks refill' ∧
          n ≤ S (i + length caches) ∧
          (n = S (i + length caches) → refill' !! (i + length caches) = Some (KString <$> ms'))
    end.
Proof.
  unfold caches_within. revert i ms vm' refill stores values out.
  induction caches as [|c caches IH]; intros i ms vm' refill stores values out Hc Hd Hb Hms Hf Hset Hr.
  - simpl. destruct (kv_getBatch _ _ b) as [b' [[vs missing] err]] eqn:Hg.
    assert (view b ⊆ B) as HbB by by rewrite Hb.
    apply (getBatch_step B ks ms vm) in Hg
      as (_ & vm'' & ms' & -> & Hmis & Hin & Hf' & Hset' & Hdur); [|done..].
    destruct (Hdur Hd Hb) as (Hd' & Hb' & Hnone).
    destruct err as [e|]; [intros [= <- <- <-]; exists [], b'; by split_and!|].
    rewrite Hmis.
    assert (refill_within ks (<[i := KString <$> ms']> refill)) as Hr'.
    { apply refill_within_insert; [done|]. intros. by apply Hms, Hin. }
    destruct (length _ =? 0) eqn:Hlen; intros [= <- <- <-]; exists [], b'; split_and!; try done;
      exists vm'', ms'; split_and!; try done; try (by intros; apply Hms, Hin); try by apply Hnone.
    all: simpl; try lia; intros; rewrite Nat.add_0_r lookup_insert_eq //.
  - apply Forall_cons in Hc as [Hc Hcs].
    rewrite -app_comm_cons getFromChain_cons; [by destruct caches|].
    destruct (kv_getBatch _ _ c) as [c' [[vs missing] err]] eqn:Hg.
    apply (getBatch_step B ks ms vm) in Hg
      as (Hc' & vm'' & ms' & -> & Hmis & Hin & Hf' & Hset' & _); [|done..].
    cbv zeta. rewrite Hmis.
    assert (∀ k, k ∈ ms' → k ∈ ks) as Hms' by (intros; by apply Hms, Hin).
    pose proof (refill_within_insert _ _ _ i Hr Hms') as Hr'.
    destruct (Nat.eqb_spec (length (KString <$> ms' : list (any_key O))) 0) as [Hlen|Hlen].
    + intros [= <- <- <-]. exists (c' :: caches), b. split_and!; try done; [by apply Forall_cons|].
      exists vm'', ms'. rewrite length_fmap in Hlen. apply nil_length_inv in Hlen as ->.
      split_and!; try done; [by intros k ?%elem_of_nil|simpl; lia..].
    + destruct (getFromChain (S i) _ _ _ _) as [[rest vs'] out'] eqn:Hrec.
      intros [= <- <- <-].
      apply IH in Hrec as (caches' & b' & -> & Hl & Hc'' & Hd' & Hb' & Hout); [|done..].
      exists (c' :: caches'), b'. split_and!; try done; [simpl; lia|by apply Forall_cons|].
      destruct out' as [[[todo refill'] n]|]; [|done].
      destruct Hout as (vmf & msf & ? & ? & ? & ? & ? & ? & ? & ? & Hlast).
      exists vmf, msf. split_and!; try done; [simpl; lia|].
      simpl. rewrite -!Nat.add_succ_comm. by rewrite Nat.add_succ_comm -Nat.add_succ_comm.
Qed.

Lemma putBatch_within B (m : gmap string T) (c : St) :
  view c ⊆ B → m ⊆ B → view (kv_putBatch (keyed m) c).1 ⊆ B.
Proof.
  intros Hc Hm. destruct (kv_putBatch (keyed m) c) as [c' err] eqn:Hp.
  apply (kv_putBatch_law ToStringE) in Hp as (Hsub & _).
  apply map_subseteq_spec. intros k x Hx. simpl in Hx.
  apply Hsub in Hx as [Hx|Hx]; by eapply lookup_weaken.
Qed.

(** The entries refilled into a cache are the last store's. *)
Lemma select_within B ks vm vm' rs :
  filled_from B ks vm vm' → (∀ k, k ∈ ks → vm !! k = None) → (∀ k, k ∈ rs → k ∈ ks) →
  select vm' rs ⊆ B.
Proof.
  intros Hf Hnone Hrs. apply map_subseteq_spec. intros k x Hx.
  rewrite select_lookup in Hx. case_bool_decide as Hk; [|done].
  destruct (Hf k) as [Heq|(_ & _ & Heq)]; [|by rewrite -Heq].
  rewrite Heq Hnone in Hx; [by apply Hrs|done].
Qed.

Lemma propagateToLowerCacheLevels_spec B ks vm vm' refill n caches b :
  filled_from B ks vm vm' → (∀ k, k ∈ ks → vm !! k = None) → refill_within ks refill →
  caches_within B caches → n ≤ S (length caches) →
  (n = S (length caches) → ∃ ms, refill !! length caches = Some (KString <$> ms) ∧
     ∀ k, k ∈ ms → k ∈ ks ∧ B !! k = None) →
  ∃ caches', propagateToLowerCacheLevels (keyed vm') refill n (caches ++ [b]) = caches' ++ [b] ∧
    caches_within B caches'.
Proof.
  intros Hf Hnone Hr. unfold caches_within. revert caches.
  induction n as [|i IH]; intros caches Hc Hn Hlast; simpl; [by exists caches|].
  destruct (refill !! i) as [keys|] eqn:Hi; simpl; [|by apply IH; [|lia|lia]].
  destruct (Hr _ _ Hi) as (rs & -> & Hrs).
  destruct (_ =? 0); [by apply IH; [|lia|lia]|].
  rewrite missing_in_element_select.
  destruct (size _ =? 0) eqn:Hsize; [by apply IH; [|lia|lia]|].
  destruct (decide (i < length caches)) as [Hlt|Hge].
  - rewrite alter_app_l //. apply IH; [|rewrite length_alter; lia|rewrite length_alter; lia].
    apply Forall_alter; [done|]. intros c _ Hcsub.
    apply putBatch_within; [done|by eapply select_within].
  - assert (i = length caches) as -> by lia. exfalso.
    destruct Hlast as (ms & Hms & Hin); [lia|].
    rewrite Hms in Hi. injection Hi as Heq. apply (inj (fmap KString)) in Heq as <-.
    apply Nat.eqb_neq in Hsize. apply Hsize.
    assert (select vm' ms = ∅) as ->; [|by rewrite /keyed kmap_empty map_size_empty].
    apply map_empty. intros k. rewrite select_lookup. case_bool_decide as Hk; [|done].
    destruct (Hin _ Hk) as [Hks HB].
    destruct (Hf k) as [Heq|(_ & _ & Heq)]; [by rewrite Heq Hnone|by rewrite Heq].
Qed.

Lemma storeMissingKeys_disjoint B ms (mc : M) :
  (∀ k, k ∈ ms → B !! k = None) → dom (view mc) ## dom B →
  dom (view (storeMissingKeys (KString <$> ms : list (any_key O)) mc)) ## dom B.
Proof.
  intros Hms Hd. unfold storeMissingKeys. destruct (0 <? _); [|done].
  assert (∀ acc : gmap string T,
    fold_left (λ acc key, <[key := zero]> acc) (KString <$> ms) (keyed acc : gmap (any_key O) T) =
    keyed (fold_left (λ acc k, <[k := zero]> acc) ms acc)) as Hk.
  { induction ms as [|k ms IH]; intros acc; [done|]. csimpl. rewrite keyed_insert IH //.
    intros. apply Hms. by right. }
  rewrite -keyed_empty Hk. destruct (kv_putBatch _ mc) as [mc' err] eqn:Hp. simpl.
  apply (kv_putBatch_law ToStringE) in Hp as (Hsub & _).
  intros k [x Hx]%elem_of_dom HB. apply Hsub in Hx as [Hx|Hx].
  - apply elem_of_dom_2 in Hx. by apply (Hd k).
  - apply not_elem_of_dom in HB; [done|]. apply Hms.
    assert (∀ acc : gmap string T, fold_left (λ acc k, <[k := zero]> acc) ms acc !! k = Some x →
      k ∈ ms ∨ acc !! k = Some x) as Hin.
    { clear Hms Hk Hx Hsub mc'. induction ms as [|k' ms IH]; intros acc; simpl; [by right|].
      intros [Hk|[[<- _]|[_ Ha]]%lookup_insert_Some]%IH; [left; by right|left; by left|by right]. }
    destruct (Hin _ Hx) as [?|Hx']; [done|]. by rewrite lookup_empty in Hx'.
Qed.

Lemma cached_missing_spec B ks (mc mc' : M) todo cachedMissing :
  dom (view mc) ## dom B →
  getKeysFromMissingCache ord (KString <$> ks) mc = (mc', (todo, cachedMissing)) →
  dom (view mc') ## dom B ∧
  ∃ ms cs, todo = KString <$> ms ∧ cachedMissing = KString <$> cs ∧
    (∀ k, k ∈ ms → k ∈ ks) ∧ (∀ k, k ∈ cs → k ∈ ks ∧ B !! k = None) ∧
    (∀ k, k ∈ ks → k ∈ ms ∨ k ∈ cs).
Proof.
  intros Hd. unfold getKeysFromMissingCache. rewrite -keyed_empty.
  destruct (kv_getBatch _ _ mc) as [mc1 [[vs todo1] err]] eqn:Hg.
  apply (kv_getBatch_law ToStringE) in Hg
    as (Hsub & _ & vm' & ms & -> & -> & Hfill & Hin & Hok & Hfail).
  intros [= <- <- <-]. split; [apply subseteq_dom in Hsub; set_solver|]. simpl.
  assert (∀ k, is_Some (vm' !! k) → k ∈ ks ∧ B !! k = None) as Hvm.
  { intros k Hs. destruct (Hfill k) as [Hk|(Hk & _ & Hv)].
    - rewrite Hk lookup_empty in Hs. by destruct Hs.
    - split; [done|]. rewrite Hv in Hs. apply elem_of_dom in Hs. apply not_elem_of_dom. set_solver. }
  rewrite (fold_push_all fst) /=.
  assert (∀ key, key ∈ (enum ord (keyed vm')).*1 ↔ ∃ k, key = KString k ∧ is_Some (vm' !! k)) as Hkeys.
  { intros key. rewrite elem_of_enum_keys. unfold keyed. split.
    - intros [x Hx]. apply lookup_kmap_Some in Hx as (k & -> & Hk); [|apply _]. by exists k.
    - intros (k & -> & Hk). by rewrite lookup_kmap. }
  destruct (KString_list (enum ord (keyed vm')).*1) as [cs Hcs].
  { intros key (k & -> & _)%Hkeys. by exists k. }
  assert (∀ k, k ∈ cs ↔ is_Some (vm' !! k)) as Hcs'.
  { intros k. rewrite -elem_of_KString -Hcs Hkeys. naive_solver. }
  exists ms, cs. split_and!; try done.
  - intros k Hk. by apply Hvm, Hcs'.
  - intros k Hk. destruct (decide (k ∈ ms)) as [?|Hn]; [by left|right]. apply Hcs'.
    destruct err as [e|]; [by destruct Hn; apply Hfail|].
    specialize (Hok eq_refl k Hk). rewrite decide_False // in Hok. by destruct Hok.
Qed.

Lemma GetBatch_run s B ks vm s' values missing err :
  coherent s B → (∀ k, k ∈ ks → vm !! k = None) →
  GetBatch ord (KString <$> ks) (RMap TString (keyed vm)) s = (s', (values, missing, err)) →
  coherent s' B ∧
  (err = None → ∃ vm' ms, values = RMap TString (keyed vm') ∧ missing = KString <$> ms ∧
    (∀ k, k ∈ ks → vm' !! k = B !! k) ∧ (∀ k, k ∉ ks → vm' !! k = vm !! k) ∧
    (∀ k, k ∈ ms ↔ k ∈ ks ∧ B !! k = None)).
Proof.
  intros (caches & b & Hch & Hd & Hb & Hc & Hm) Hnone. unfold GetBatch. rewrite Hch.
  destruct (getKeysFromMissingCache _ _ _) as [mc [todo cached]] eqn:Hmc.
  apply (cached_missing_spec B) in Hmc as (Hmd & ms & cs & -> & -> & Hms & Hcs & Hcover); [|done].
  rewrite length_fmap.
  destruct (Nat.eqb_spec (length ms) 0) as [Hlen|_].
  { apply nil_length_inv in Hlen as ->. intros [= <- <- <- <-]. split.
    { exists caches, b. by split_and!. }
    intros _. exists vm, cs.
    assert (∀ k, k ∈ ks → B !! k = None) as HB.
    { intros k Hk. destruct (Hcover k Hk) as [?%elem_of_nil|Hk']; [done|by apply Hcs]. }
    split_and!; try done.
    - intros k Hk. by rewrite Hnone // HB.
    - intros k. split; [by apply Hcs|]. intros [Hk _].
      by destruct (Hcover k Hk) as [?%elem_of_nil|]. }
  destruct (getFromChain _ _ _ _ _) as [[stores vs] out] eqn:Hg.
  apply (getFromChain_spec B ms 0 ms vm vm ∅) in Hg
    as (caches' & b' & -> & Hl & Hc' & Hd' & Hb' & Hout);
    [|done..|by left|by intros k ? []|by intros j keys; rewrite lookup_empty].
  destruct out as [[[todo refill] n]|e].
  2:{ intros [= <- <- <- <-]. split; [|done]. exists caches', b'. by split_and!. }
  destruct Hout as (vm' & ms' & -> & -> & Hms' & Hf & Hset & Hmiss & Hr & Hn & Hlast).
  simpl in Hlast, Hn. rewrite -Hl in Hlast Hn.
  intros [= <- <- <- <-].
  destruct (propagateToLowerCacheLevels_spec B ms vm vm' refill n caches' b')
    as (caches'' & Hprop & Hc''); try done.
  { intros k Hk. by apply Hnone, Hms. }
  { intros Heq. exists ms'. split; [by apply Hlast|]. intros k Hk. by split; [apply Hms'|apply Hmiss]. }
  simpl. rewrite Hprop. split.
  { exists caches'', b'. split_and!; try done. simpl. by apply storeMissingKeys_disjoint. }
  intros _. exists vm', (ms' ++ cs). split_and!; try done.
  - by rewrite fmap_app.
  - intros k Hk. destruct (decide (k ∈ ms)) as [Hkm|Hkm].
    + destruct (decide (k ∈ ms')) as [Hk'|Hk']; [|by apply Hset].
      destruct (Hf k) as [Heq|(_ & _ & Heq)]; [|done]. by rewrite Heq Hnone // Hmiss.
    + destruct (Hcover k Hk) as [?|Hkc]; [done|]. destruct (Hcs k Hkc) as [_ HB].
      destruct (Hf k) as [Heq|(? & _)]; [|done]. by rewrite Heq Hnone // HB.
  - intros k Hk. destruct (Hf k) as [?|(Hkm & _)]; [done|]. by destruct Hk; apply Hms.
  - intros k. rewrite elem_of_app. split.
    + intros [Hk|Hk]; [|by apply Hcs]. split; [by apply Hms, Hms'|by apply Hmiss].
    + intros [Hk HB]. destruct (Hcover k Hk) as [Hkm|]; [left|by right].
      destruct (decide (k ∈ ms')) as [|Hk']; [done|].
      destruct (Hset k Hkm Hk') as [[x Hx] Heq]. congruence.
Qed.

(** *** PutBatch *)

Lemma putBatch_loop_cons mii (c : St) rest :
  rest ≠ [] →
  putBatch_loop mii (c :: rest) =
  let '(rest', err) := putBatch_loop mii rest in ((kv_putBatch mii c).1 :: rest', err).
Proof.
  intros Hne. simpl. destruct (kv_putBatch mii c) as [c' err]. by destruct err, rest.
Qed.

Lemma putBatch_loop_spec B m caches b stores :
  caches_within B caches → durable b → view b = B →
  putBatch_loop (keyed m) (caches ++ [b]) = (stores, None) →
  ∃ caches' b', stores = caches' ++ [b'] ∧ durable b' ∧ view b' = m ∪ B ∧
    (Forall (λ c, (kv_putBatch (keyed m) c).2 = None) caches → caches_within (m ∪ B) caches').
Proof.
  unfold caches_within. revert stores.
  induction caches as [|c caches IH]; intros stores Hc Hd Hb.
  - simpl. destruct (kv_putBatch (keyed m) b) as [b' err'] eqn:Hp.
    apply (kv_putBatch_law ToStringE) in Hp as (_ & _ & Hdur).
    destruct err'; intros [= <-]. destruct (Hdur Hd eq_refl) as [Hd' Hb']. rewrite Hb in Hb'.
    by exists [], b'.
  - apply Forall_cons in Hc as [Hc Hcs].
    rewrite -app_comm_cons putBatch_loop_cons; [by destruct caches|].
    destruct (kv_putBatch (keyed m) c) as [c' errc] eqn:Hp.
    pose proof (kv_putBatch_law ToStringE _ _ _ _ Hp) as (_ & Hok & _).
    destruct (putBatch_loop (keyed m) (caches ++ [b])) as [rest err'] eqn:Hrec.
    intros [= <- ->].
    destruct (IH _ Hcs Hd Hb eq_refl) as (caches' & b' & -> & Hd' & Hb' & Hall).
    exists (c' :: caches'), b'. split_and!; [done..|].
    intros [Hce Hces]%Forall_cons. rewrite Hp /= in Hce. apply Forall_cons. split; [|by apply Hall].
    etrans; [by apply Hok|]. by apply map_union_mono_l.
Qed.

Lemma delete_all_missing B m (mc : M) :
  (∀ k, CastKeyToString ToStringE (KString k) = Ok k) →
  (∀ key (mc : M), (kv_delete key mc).2 = None) → dom (view mc) ## dom B →
  dom (view (fold_left (λ mc kv, (kv_delete kv.1 mc).1) (enum ord (keyed m)) mc)) ## dom (m ∪ B).
Proof.
  intros Hcast Hdel Hd.
  assert (∀ l (mc : M),
    view (fold_left (λ mc kv, (kv_delete kv.1 mc).1) l mc) ⊆ view mc ∧
    ∀ k (x : T), (KString k, x) ∈ l →
      k ∉ dom (view (fold_left (λ mc kv, (kv_delete kv.1 mc).1) l mc))) as Hl.
  { clear mc Hd. induction l as [|[key x] l IH]; intros mc; simpl.
    { split; [done|]. by intros k x ?%elem_of_nil. }
    destruct (kv_delete key mc) as [mc' err] eqn:Hp.
    pose proof (Hdel key mc) as Hnone. rewrite Hp /= in Hnone. subst err.
    apply (kv_delete_law ToStringE) in Hp as (Hsub & Hok & _). specialize (Hok eq_refl).
    destruct (IH mc') as [Hle Hout]. simpl. split; [by etrans|].
    intros k y [[= <- <-]|Hin]%elem_of_cons; [|by eapply Hout].
    apply subseteq_dom in Hle, Hok. rewrite /delete_key Hcast dom_delete_L in Hok. set_solver. }
  destruct (Hl (enum ord (keyed m)) mc) as [Hle Hout]. intros k Hk.
  rewrite dom_union_L elem_of_union. intros [[x Hx]%elem_of_dom|HB].
  - eapply Hout; [|exact Hk]. apply elem_of_enum. by rewrite keyed_lookup.
  - apply subseteq_dom in Hle. set_solver.
Qed.

Lemma PutBatch_run s B m s' :
  (∀ k, CastKeyToString ToStringE (KString k) = Ok k) →
  coherent s B → PutBatch ord (keyed m) s = (s', None) →
  (∃ caches' b', chain s' = caches' ++ [b'] ∧ durable b' ∧ view b' = m ∪ B) ∧
  (Forall (λ c, (kv_putBatch (keyed m) c).2 = None) (chain s) →
   (∀ key (mc : M), (kv_delete key mc).2 = None) → coherent s' (m ∪ B)).
Proof.
  intros Hcast (caches & b & Hch & Hd & Hb & Hc & Hm). unfold PutBatch. rewrite Hch.
  destruct (putBatch_loop (keyed m) (caches ++ [b])) as [stores [e|]] eqn:Hp; [done|].
  apply (putBatch_loop_spec B) in Hp as (caches' & b' & -> & Hd' & Hb' & Hall); [|done..].
  intros [= <-]. split; [by exists caches', b'|].
  intros [Hputs _]%Forall_app Hdel. exists caches', b'. split_and!; try done; [by apply Hall|].
  by apply delete_all_missing.
Qed.
End Coherence.

(** ** A reference store

    A durable map whose operations fail as long as [ms_down] is set.  It obeys
    the laws, so that the chain theorems can be used on concrete chains. *)
Section Reference.
Context {O T : Type} `{Countable O}.

(** The cast package on the keys of the model: strings are themselves. *)
Definition cast_string (key : any_key O) : result error string :=
  match key with
  | KString s => Ok s
  | KOther _ => Err ErrCastKey
  end.

Record mapStore := MapStore { ms_entries : gmap string T; ms_down : bool }.

Definition ms_err (s : mapStore) (key : any_key O) : option error :=
  if ms_down s then Some (ErrStore "down")
  else match cast_string key with Ok _ => None | Err e => Some e end.

Definition ms_found (m : gmap string T) (keys : list (any_key O)) : gmap (any_key O) T :=
  fold_left (λ acc key, match lookup_key cast_string m key with
    | Some v => <[key := v]> acc | None => acc end) keys ∅.

#[export] Instance mapStore_KvStore : KvStore O T mapStore := {|
  kv_contains := λ key s, (s, match ms_err s key with
    | Some e => (false, Some e)
    | None => (bool_decide (is_Some (lookup_key cast_string (ms_entries s) key)), None) end);
  kv_get := λ key v s, (s, match ms_err s key with
    | Some e => (v, false, Some e)
    | None => match lookup_key cast_string (ms_entries s) key with
              | Some x => (x, true, None) | None => (v, false, None) end end);
  kv_getBatch := λ keys values s, (s,
    if ms_down s then (values, keys, Some (ErrStore "down"))
    else (RMap (rm_keyType values) (ms_found (ms_entries s) keys ∪ rm_entries values),
          List.filter (λ key, bool_decide (lookup_key cast_string (ms_entries s) key = None)) keys, None));
  kv_put := λ key v s, match ms_err s key with
    | Some e => (s, Some e)
    | None => (MapStore (insert_key cast_string key v (ms_entries s)) (ms_down s), None) end;
  kv_putBatch := λ m s,
    if ms_down s then (s, Some (ErrStore "down"))
    else (MapStore (map_fold (λ key v acc, insert_key cast_string key v acc) (ms_entries s) m) (ms_down s), None);
  kv_delete := λ key s, match ms_err s key with
    | Some e => (s, Some e)
    | None => (MapStore (delete_key cast_string key (ms_entries s)) (ms_down s), None) end;
  kv_deleteBatch := λ keys s,
    if ms_down s then (s, Some (ErrStore "down"))
    else (MapStore (fold_left (λ acc key, delete_key cast_string key acc) keys (ms_entries s)) (ms_down s), None);
|}.
End Reference.
Arguments mapStore : clear implicits.
Arguments MapStore {T} _ _.

Section ReferenceLaws.
Context {O T : Type} `{Countable O}.

Lemma ms_found_keyed (m : gmap string T) ks :
  ms_found m (KString <$> ks : list (any_key O)) = keyed (select m ks).
Proof.
  unfold ms_found, select. rewrite -keyed_empty. generalize (∅ : gmap string T) as acc.
  induction ks as [|k ks IH]; intros acc; [done|]. csimpl. unfold lookup_key. simpl.
  destruct (m !! k); [|apply IH]. by rewrite keyed_insert IH.
Qed.

Lemma keyed_union (m m' : gmap string T) :
  keyed m ∪ keyed m' = (keyed (m ∪ m') : gmap (any_key O) T).
Proof. unfold keyed. by rewrite kmap_union. Qed.

Lemma filter_missing_keyed (m : gmap string T) ks :
  List.filter (λ key, bool_decide (lookup_key cast_string m key = None)) (KString <$> ks : list (any_key O))
  = KString <$> List.filter (λ k, bool_decide (m !! k = None)) ks.
Proof.
  induction ks as [|k ks IH]; [done|]. csimpl. unfold lookup_key at 1. simpl.
  rewrite IH. by destruct (bool_decide (m !! k = None)).
Qed.

Lemma putBatch_keyed (m B : gmap string T) :
  map_fold (λ key v acc, insert_key cast_string key v acc) B (keyed m : gmap (any_key O) T) = m ∪ B.
Proof.
  induction m as [|k v m Hk IH] using map_ind.
  { by rewrite keyed_empty map_fold_empty (left_id_L _ _). }
  rewrite -keyed_insert map_fold_insert_L.
  - intros j1 j2 z1 z2 y Hne H1 H2. unfold insert_key.
    destruct j1 as [s1|], j2 as [s2|]; simpl; try done. apply insert_insert_ne. congruence.
  - by rewrite keyed_lookup.
  - by rewrite IH /insert_key /= insert_union_l.
Qed.

#[export] Program Instance mapStore_laws : KvStoreLaws (O := O) cast_string (mapStore T) := {|
  kv_view := ms_entries;
  kv_durable := λ _, True;
  kv_fresh := λ _, True;
|}.
Next Obligation.
  intros key [m d] s' b err; cbn. unfold ms_err; cbn. by destruct d, key; cbn; intros [= <- <- <-].
Qed.
Next Obligation.
  intros key value [m d] s' v found err; cbn. unfold ms_err, lookup_key; cbn.
  destruct d, key as [k|]; cbn; [..|destruct (m !! k) eqn:Hk|]; intros [= <- <- <- <-]; done.
Qed.
Next Obligation.
  intros key value [m d] s' err; cbn. unfold ms_err, insert_key; cbn.
  destruct d, key as [k|]; cbn; intros [= <- <-]; cbn;
    (split_and!; [naive_solver|done|intros _; split; [done|by try left]]) || idtac.
  split_and!; [|done|done]. intros k' x. rewrite lookup_insert_Some. naive_solver.
Qed.
Next Obligation.
  intros key [m d] s' err; cbn. unfold ms_err, delete_key; cbn.
  destruct d, key as [k|]; cbn; intros [= <- <-]; cbn; split_and!; intros; split_and?; try done;
    apply delete_subseteq.
Qed.
Next Obligation.
  intros ks vm [m d] s' values missing err; cbn. destruct d; intros [= <- <- <- <-]; cbn.
  - split; [done|]. split; [done|]. exists vm, ks. split_and!; try done. by left.
  - split; [done|]. split; [done|]. rewrite ms_found_keyed keyed_union filter_missing_keyed.
    eexists _, _. split_and!; [done|done|..|done].
    + intros k. destruct (select m ks !! k) as [x|] eqn:Hs.
      * right. rewrite (lookup_union_Some_l _ _ _ _ Hs). rewrite select_lookup in Hs.
        case_bool_decide; [|done]. by split_and!.
      * left. by rewrite lookup_union_r.
    + intros k. rewrite !list_elem_of_In filter_In. naive_solver.
    + intros _ k Hk. case_decide as Hin; rewrite list_elem_of_In filter_In -list_elem_of_In bool_decide_eq_true in Hin.
      * naive_solver.
      * destruct (m !! k) as [x|] eqn:Hm; [|naive_solver].
        rewrite (lookup_union_Some_l _ _ k x) //. by rewrite select_lookup bool_decide_true.
Qed.
Next Obligation.
  intros m [m0 d] s' err; cbn. destruct d; intros [= <- <-]; cbn.
  - split_and!; [by left|done|done].
  - rewrite putBatch_keyed. split_and!; [|done|done].
    intros k x. rewrite lookup_union_Some_raw. naive_solver.
Qed.
End ReferenceLaws.

(** The empty store holds nothing and promises nothing more. *)
#[export] Program Instance empty_laws {O T} `{Countable O} (cast : any_key O → result error string) :
  KvStoreLaws (T := T) cast emptyKvStore := {|
  kv_view := λ _, ∅;
  kv_durable := λ _, False;
  kv_fresh := λ _, True;
|}.
Next Obligation. by intros; simplify_eq/=. Qed.
Next Obligation.
  intros; simplify_eq/=. split_and!; try done. intros _ _. split; [done|]. unfold lookup_key.
  by destruct (CastKeyToString cast key).
Qed.
Next Obligation. intros; simplify_eq/=. split_and!; [by left|intros _; apply map_empty_subseteq|done]. Qed.
Next Obligation. intros; simplify_eq/=. split_and!; [done|intros _; apply map_empty_subseteq|done]. Qed.
Next Obligation.
  intros; simplify_eq/=. split_and!; try done. exists vm, ks.
  split_and!; try done; [by left|]. intros _ k Hk. by rewrite decide_True.
Qed.
Next Obligation.
  intros; simplify_eq/=. split_and!; [by left|intros _; apply map_empty_subseteq|done].
Qed.

#[export] Instance empty_membership {O T} `{Countable O} (cast : any_key O → result error string) :
  KvMembership (T := T) cast emptyKvStore.
Proof. by intros ? ? ? ?. Qed.

#[export] Instance mapStore_membership {O T} `{Countable O} : KvMembership (O := O) cast_string (mapStore T).
Proof.
  intros key [m d] s' err; cbn. unfold ms_err, lookup_key; cbn.
  destruct d; [done|]. destruct key; [|done]. cbn. intros [= _ Hb _]. by apply bool_decide_eq_true in Hb.
Qed.

(** ** Properties *)
Section Properties.
Context {O T : Type} `{Countable O} `{Zero T} (ToStringE : any_key O → result error string).
Context {St M : Type} `{!KvStore O T St, !KvStore O T M}.
Context `{!KvStoreLaws ToStringE St, !KvStoreLaws ToStringE M}.
Context (ord : map_order (any_key O) T).
Implicit Types (s : chainKvStore St M) (B : gmap string T).

(** On a coherent chain Get into a fresh variable returns what the last store holds, or
    fails, whichever caches fail or lose entries, and keeps the chain coherent; a cache
    that fails must leave the variable fresh, since the next store decodes into it. *)
Theorem chain_Get_correct `{!KvMembership ToStringE M} s B key value s' v found err :
  kv_fresh (St := St) ToStringE value → Forall (fails_clean ToStringE key) (chain s) → coherent ToStringE s B → Get key value s = (s', (v, found, err)) →
  coherent ToStringE s' B ∧
  (err = None → if found then lookup_key ToStringE B key = Some v
                else lookup_key ToStringE B key = None) ∧
  (err ≠ None → found = false).
Proof.
  intros Hfr Hcl Hs Hg. destruct (Get_run _ _ _ _ _ _ _ _ _ Hfr Hcl Hs Hg) as (Hc & Hf & Hn).
  split_and!; [done| |]; destruct found; naive_solver.
Qed.

(** Put reaches the last store exactly when it returns no error or a failing
    last store stored the value all the same, and it keeps the chain coherent
    if no cache refused the value and the missing cache dropped the key. *)
Theorem chain_Put_correct s B key value s' err :
  coherent ToStringE s B → Put key value s = (s', err) →
  ∃ caches b, chain s' = caches ++ [b] ∧
    (kv_view ToStringE b = B ∨ kv_view ToStringE b = insert_key ToStringE key value B) ∧
    (err = None → kv_view ToStringE b = insert_key ToStringE key value B) ∧
    (err = None → Forall (λ c, (kv_put key value c).2 = None) (chain s) →
     (kv_delete key (missingCache s)).2 = None →
     coherent ToStringE s' (insert_key ToStringE key value B)).
Proof.
  intros Hs Hp. destruct (Put_run _ _ _ _ _ _ _ Hs Hp)
    as (caches & b & B' & Hch & _ & <- & Hor & Hok & Hco).
  exists caches, b. split_and!; try done. intros He Hputs Hdel. rewrite -Hok //. by apply Hco.
Qed.

(** Delete never leaves a value in a cache that the last store does not
    hold, even when it fails half way, and removes the key when it succeeds. *)
Theorem chain_Delete_correct s B key s' err :
  coherent ToStringE s B → Delete key s = (s', err) →
  ∃ B', coherent ToStringE s' B' ∧ delete_key ToStringE key B ⊆ B' ∧ B' ⊆ B ∧
    (err = None → B' = delete_key ToStringE key B).
Proof. apply Delete_run. Qed.

(** GetBatch of string keys that the caller's map does not hold yet fills
    in exactly the last store's values, reports exactly the keys it lacks, and
    keeps the chain coherent while refilling the caches. *)
Theorem chain_GetBatch_correct s B ks vm s' values missing err :
  coherent ToStringE s B → (∀ k, k ∈ ks → vm !! k = None) →
  GetBatch ord (KString <$> ks) (RMap TString (keyed vm)) s = (s', (values, missing, err)) →
  coherent ToStringE s' B ∧
  (err = None → ∃ vm' ms, values = RMap TString (keyed vm') ∧ missing = KString <$> ms ∧
    (∀ k, k ∈ ks → vm' !! k = B !! k) ∧ (∀ k, k ∉ ks → vm' !! k = vm !! k) ∧
    (∀ k, k ∈ ms ↔ k ∈ ks ∧ B !! k = None)).
Proof. apply GetBatch_run. Qed.

(** A PutBatch that returns no error has stored every entry in the last
    store, and kept the chain coherent if no cache refused the batch. *)
Theorem chain_PutBatch_correct s B m s' :
  (∀ k, CastKeyToString ToStringE (KString k) = Ok k) →
  coherent ToStringE s B → PutBatch ord (keyed m) s = (s', None) →
  (∃ caches b, chain s' = caches ++ [b] ∧ kv_view ToStringE b = m ∪ B) ∧
  (Forall (λ c, (kv_putBatch (keyed m) c).2 = None) (chain s) →
   (∀ key (mc : M), (kv_delete key mc).2 = None) → coherent ToStringE s' (m ∪ B)).
Proof.
  intros Hcast Hs Hp. destruct (PutBatch_run _ _ _ _ _ _ Hcast Hs Hp) as [(caches & b & Hb) Hco].
  split; [|done]. exists caches, b. by destruct Hb as (? & _ & ?).
Qed.
End Properties.

(** A chain of a cache and a durable store, for the witnesses. *)
Definition sample_chain : chainKvStore (mapStore Z) (emptyKvStore) :=
  Chain [MapStore {["a" := 1%Z]} false; MapStore {["a" := 1%Z; "b" := 2%Z]} false] EmptyKvStore.

Lemma sample_coherent :
  coherent (O := unit) cast_string sample_chain {["a" := 1%Z; "b" := 2%Z]}.
Proof.
  exists [MapStore {["a" := 1%Z]} false], (MapStore {["a" := 1%Z; "b" := 2%Z]} false).
  split_and!; [done|done|done| |].
  - apply Forall_singleton. simpl. apply insert_mono, map_empty_subseteq.
  - simpl. rewrite dom_empty_L. set_solver.
Qed.

Lemma chain_Get_correct_witness :
  (Get (KString "b" : any_key unit) 0%Z sample_chain).2 = (2%Z, true, None) ∧
  coherent (O := unit) cast_string (Get (KString "b" : any_key unit) 0%Z sample_chain).1
    {["a" := 1%Z; "b" := 2%Z]}.
Proof.
  split; [by vm_compute|].
  destruct (Get (KString "b" : any_key unit) 0%Z sample_chain) as [s' [[v found] err]] eqn:Hg.
  assert (Hclean : Forall (fails_clean (O := unit) (St := mapStore Z) cast_string (KString "b")) (chain sample_chain)) by by repeat constructor.
  pose proof (chain_Get_correct (O := unit) (St := mapStore Z) (M := emptyKvStore) (T := Z) cast_string sample_chain {["a" := 1%Z; "b" := 2%Z]} (KString "b") 0%Z s' v found err) as Hok.
  by destruct (Hok I Hclean sample_coherent Hg).
Defined.

Lemma chain_Put_correct_witness :
  (Put (KString "b" : any_key unit) 7%Z sample_chain).2 = None ∧
  ∃ caches b, chain (Put (KString "b" : any_key unit) 7%Z sample_chain).1 = caches ++ [b].
Proof.
  split; [by vm_compute|].
  destruct (Put (KString "b" : any_key unit) 7%Z sample_chain) as [s' err] eqn:Hp.
  destruct (chain_Put_correct cast_string _ _ _ _ _ _ sample_coherent Hp) as (caches & b & Hch & _).
  by exists caches, b.
Defined.

Lemma chain_Delete_correct_witness :
  (Delete (T := Z) (KString "a" : any_key unit) sample_chain).2 = None ∧
  ∃ B', coherent (O := unit) cast_string (Delete (T := Z) (KString "a" : any_key unit) sample_chain).1 B'.
Proof.
  split; [by vm_compute|].
  destruct (Delete (T := Z) (KString "a" : any_key unit) sample_chain) as [s' err] eqn:Hp.
  destruct (chain_Delete_correct cast_string _ _ _ _ _ sample_coherent Hp) as (B' & HB & _).
  by exists B'.
Defined.

Lemma chain_GetBatch_correct_witness :
  coherent (O := unit) cast_string
    (GetBatch canonical_order (KString <$> ["a"; "b"; "c"] : list (any_key unit)) (RMap TString (keyed ∅)) sample_chain).1
    {["a" := 1%Z; "b" := 2%Z]}.
Proof.
  destruct (GetBatch canonical_order (KString <$> ["a"; "b"; "c"] : list (any_key unit))
    (RMap TString (keyed ∅)) sample_chain) as [s' [[values missing] err]] eqn:Hg.
  by destruct (chain_GetBatch_correct cast_string canonical_order _ _ _ _ _ _ _ _
    sample_coherent (λ k _, lookup_empty k) Hg).
Defined.

Lemma chain_PutBatch_correct_witness :
  ∃ s', PutBatch canonical_order (keyed {["c" := 3%Z]} : gmap (any_key unit) Z) sample_chain = (s', None) ∧
    coherent (O := unit) cast_string s' ({["c" := 3%Z]} ∪ {["a" := 1%Z; "b" := 2%Z]}).
Proof.
  eexists. split; [reflexivity|].
  apply (chain_PutBatch_correct (O := unit) cast_string canonical_order
    sample_chain _ {["c" := 3%Z]} _ (λ k, eq_refl) sample_coherent eq_refl).
  - repeat constructor.
  - done.
Defined.

(** A Put that fails in the last store returns the error but leaves the
    value in the caches, where Get then finds it; and a Put that a cache
    refused returns no error, while the cache keeps serving the old value. *)
Theorem chain_Put_not_atomic (m B : gmap string Z) (k : string) (old v : Z) :
  (let '(s', err) := Put (KString k : any_key unit) v
     (Chain [MapStore m false; MapStore B true] EmptyKvStore) in
   err ≠ None ∧
   chain s' !! 1 = Some (MapStore B true) ∧
   (Get (KString k : any_key unit) 0%Z s').2 = (v, true, None)) ∧
  (let '(s', err) := Put (KString k : any_key unit) v
     (Chain [MapStore (<[k := old]> m) true; MapStore B false] EmptyKvStore) in
   err = None ∧
   chain s' !! 1 = Some (MapStore (<[k := v]> B) false) ∧
   (Get (KString k : any_key unit) 0%Z
     (Chain [MapStore (<[k := old]> m) false; MapStore (<[k := v]> B) false] EmptyKvStore)).2
   = (old, true, None) ∧
   chain s' !! 0 = Some (MapStore (<[k := old]> m) true)).
Proof.
  split.
  - split_and!; [done|done|]. unfold Get; simpl. unfold lookup_key, insert_key; simpl.
    by rewrite lookup_insert_eq.
  - split_and!; [done|done| |done]. unfold Get; simpl. unfold lookup_key; simpl.
    by rewrite lookup_insert_eq.
Qed.
