(* ===== verification/Base64.v ===== *)
(** * pkg/encoding/base64

    The standard encoding of Go's encoding/base64 ([StdEncoding]: padding, not
    strict), and the package's wrappers around it.  Byte strings are [string]. *)
From Stdlib Require Import Ascii.
From S2P Require Import Prelude.

(** ** StdEncoding *)

Definition alphabet : string := "ABCDEFGHIJKLMNOPQRSTUVWXYZabcdefghijklmnopqrstuvwxyz0123456789+/".

Definition b64_char (n : N) : ascii := default "000"%char (String.get (N.to_nat n) alphabet).

Fixpoint index_of (c : ascii) (s : string) (i : N) : option N :=
  match s with
  | EmptyString => None
  | String c' s' => if decide (c = c') then Some i else index_of c s' (i + 1)%N
  end.

Definition b64_value (c : ascii) : option N := index_of c alphabet 0.

Definition pad : ascii := "="%char.

(** [StdEncoding.EncodeToString] *)
Fixpoint std_encode (s : string) : string :=
  match s with
  | EmptyString => EmptyString
  | String a s' =>
      let a := N_of_ascii a in
      match s' with
      | EmptyString =>
          String (b64_char (a / 4)) (String (b64_char (a mod 4 * 16)) (String pad (String pad EmptyString)))
      | String b s'' =>
          let b := N_of_ascii b in
          match s'' with
          | EmptyString =>
              String (b64_char (a / 4)) (String (b64_char (a mod 4 * 16 + b / 16))
                (String (b64_char (b mod 16 * 4)) (String pad EmptyString)))
          | String c s''' =>
              let c := N_of_ascii c in
              String (b64_char (a / 4)) (String (b64_char (a mod 4 * 16 + b / 16))
                (String (b64_char (b mod 16 * 4 + c / 64)) (String (b64_char (c mod 64))
                  (std_encode s'''))))
          end
      end
  end%N.

Fixpoint std_decode_groups (s : string) : option string :=
  match s with
  | EmptyString => Some EmptyString
  | String a (String b (String c (String d s'))) =>
      match b64_value a, b64_value b with
      | Some x, Some y =>
          if decide (c = pad) then
            if decide (d = pad ∧ s' = EmptyString) then
              Some (String (ascii_of_N (x * 4 + y / 16)) EmptyString)
            else None
          else
            match b64_value c with
            | Some z =>
                if decide (d = pad) then
                  if decide (s' = EmptyString) then
                    Some (String (ascii_of_N (x * 4 + y / 16))
                      (String (ascii_of_N (y mod 16 * 16 + z / 4)) EmptyString))
                  else None
                else
                  match b64_value d, std_decode_groups s' with
                  | Some w, Some r =>
                      Some (String (ascii_of_N (x * 4 + y / 16))
                        (String (ascii_of_N (y mod 16 * 16 + z / 4))
                          (String (ascii_of_N (z mod 4 * 64 + w)) r)))
                  | _, _ => None
                  end
            | None => None
            end
      | _, _ => None
      end
  | _ => None
  end%N.

Fixpoint drop_newlines (s : string) : string :=
  match s with
  | EmptyString => EmptyString
  | String c s' =>
      if decide (c = "010"%char ∨ c = "013"%char) then drop_newlines s' else String c (drop_newlines s')
  end.

(** [StdEncoding.DecodeString]: new lines in the input are skipped; the bytes
    decoded before an error are not modelled. *)
Definition std_decode (s : string) : result go_error string :=
  match std_decode_groups (drop_newlines s) with
  | Some r => Ok r
  | None => Err (EMsg "illegal base64 data")
  end.

(** [StdEncoding.EncodedLen] *)
Definition EncodedLen (n : nat) : nat := (n + 2) / 3 * 4.

(** ** The package *)

(** [pkg/encoding/base64/base64.go:5-10] Encode *)
Definition Encode (src : string) : string := std_encode src.

(** [pkg/encoding/base64/base64.go:12-14] EncodeToString *)
Definition EncodeToString (v : string) : string := std_encode v.

(** [pkg/encoding/base64/base64.go:16-21] Decode *)
Definition Decode (src : string) : result go_error string := std_decode src.

(** [pkg/encoding/base64/base64.go:23-25] DecodeString *)
Definition DecodeString (v : string) : result go_error string := std_decode v.

Example Encode_vectors :
  Encode <$> [""; "a"; "Hi"; "Foo"; "test"] = [""; "YQ=="; "SGk="; "Rm9v"; "dGVzdA=="].
Proof. reflexivity. Qed.

Example Decode_newline : Decode (String "Y" (String "010" "Q==")) = Ok "a".
Proof. reflexivity. Qed.

(** ** Lemmas *)

#[local] Ltac Zify.zify_post_hook ::= Z.to_euclidean_division_equations.

(** Three bytes at a time. *)
Lemma string_ind3 (P : string → Prop) :
  P EmptyString → (∀ a, P (String a EmptyString)) → (∀ a b, P (String a (String b EmptyString))) →
  (∀ a b c s, P s → P (String a (String b (String c s)))) → ∀ s, P s.
Proof.
  intros H0 H1 H2 H3. fix IH 1. intros [|a [|b [|c s]]]; [done|done|done|]. by apply H3.
Qed.

Lemma below_64 (P : N → Prop) :
  (∀ i, i < 64 → P (N.of_nat i)) → ∀ n, (n < 64)%N → P n.
Proof. intros HP n Hn. rewrite -(N2Nat.id n). apply HP. lia. Qed.

Definition b64_char_ok (n : N) : bool :=
  bool_decide (b64_value (b64_char n) = Some n ∧ b64_char n ≠ pad ∧
    b64_char n ≠ "010"%char ∧ b64_char n ≠ "013"%char).

Lemma b64_char_spec n : (n < 64)%N →
  b64_value (b64_char n) = Some n ∧ b64_char n ≠ pad ∧ b64_char n ≠ "010"%char ∧ b64_char n ≠ "013"%char.
Proof.
  revert n. apply (below_64 (λ n, _)). intros i Hi.
  apply (bool_decide_eq_true (_ ∧ _)).
  assert (forallb (λ i, b64_char_ok (N.of_nat i)) (seq 0 64) = true) as Hall by (by vm_compute).
  rewrite forallb_forall in Hall. apply Hall, in_seq. lia.
Qed.

Lemma ascii_of_N_eq n a : n = N_of_ascii a → ascii_of_N n = a.
Proof. intros ->. apply ascii_N_embedding. Qed.

Lemma N_of_ascii_bound a : (N_of_ascii a < 256)%N.
Proof. apply N_ascii_bounded. Qed.

Ltac b64_bounds :=
  repeat match goal with
  | a : ascii |- _ =>
      lazymatch goal with
      | _ : (N_of_ascii a < 256)%N |- _ => fail
      | _ => pose proof (N_of_ascii_bound a)
      end
  end.

(** Every character the encoder writes is kept by [drop_newlines]. *)
Lemma drop_newlines_encode s : drop_newlines (std_encode s) = std_encode s.
Proof.
  induction s as [|a|a b|a b c s IH] using string_ind3; [done|..]; cbn [std_encode drop_newlines];
    b64_bounds; rewrite !decide_False ?IH //; intros [Hc|Hc]; revert Hc; try done;
    apply b64_char_spec; lia.
Qed.

Lemma std_decode_groups_encode s : std_decode_groups (std_encode s) = Some s.
Proof.
  induction s as [|a|a b|a b c s IH] using string_ind3; [done|..]; cbn [std_encode std_decode_groups];
    b64_bounds.
  - destruct (b64_char_spec (N_of_ascii a / 4)) as [-> _]; [lia|].
    destruct (b64_char_spec (N_of_ascii a mod 4 * 16)) as [-> _]; [lia|].
    do 2 decide_true. do 2 f_equal.
    apply ascii_of_N_eq. lia.
  - destruct (b64_char_spec (N_of_ascii a / 4)) as [-> _]; [lia|].
    destruct (b64_char_spec (N_of_ascii a mod 4 * 16 + N_of_ascii b / 16)) as [-> _]; [lia|].
    destruct (b64_char_spec (N_of_ascii b mod 16 * 4)) as (-> & Hne & _); [lia|].
    decide_false. do 2 decide_true.
    f_equal. f_equal; [|f_equal];
      apply ascii_of_N_eq; lia.
  - destruct (b64_char_spec (N_of_ascii a / 4)) as [-> _]; [lia|].
    destruct (b64_char_spec (N_of_ascii a mod 4 * 16 + N_of_ascii b / 16)) as [-> _]; [lia|].
    destruct (b64_char_spec (N_of_ascii b mod 16 * 4 + N_of_ascii c / 64)) as (-> & Hne & _); [lia|].
    destruct (b64_char_spec (N_of_ascii c mod 64)) as (-> & Hne' & _); [lia|].
    rewrite IH. do 2 decide_false.
    f_equal. f_equal; [|f_equal; [|f_equal]]; apply ascii_of_N_eq; lia.
Qed.

Lemma length_encode s : String.length (Encode s) = EncodedLen (String.length s).
Proof.
  unfold Encode, EncodedLen.
  induction s as [|a|a b|a b c s IH] using string_ind3; [done..|].
  cbn [std_encode String.length]. rewrite IH.
  replace (S (S (S (String.length s))) + 2) with (String.length s + 2 + 1 * 3) by lia.
  rewrite Nat.div_add //. lia.
Qed.

Lemma Decode_Encode s : Decode (Encode s) = Ok s.
Proof. unfold Decode, std_decode. by rewrite drop_newlines_encode std_decode_groups_encode. Qed.
