(* ===== verification/StreamMessage.v ===== *)
(** * pkg/stream: messages, their builders, encoding and chunking

    A message body is encoded by a body encoder, compressed and base64 encoded,
    and what was done is kept in the message's attributes.  The compressors and
    [encoding/json] are parameters. *)
From Stdlib Require Import Ascii.
From S2P Require Import Prelude.
From S2P Require Import Base64.

(** ** Messages *)

(** [pkg/stream/message.go:16-20] Message; [metaData], which only the inputs use,
    is left out. *)
Record Message := {
  Attributes : gmap string string;
  Body : string;
}.

#[export] Instance Message_eq_dec : EqDecision Message.
Proof. solve_decision. Defined.

(** [pkg/stream/producer_daemon_batcher.go:24-27] rawJsonMessage *)
Record rawJsonMessage := {
  raw_attributes : gmap string string;
  raw_body : string;
}.

#[export] Instance rawJsonMessage_eq_dec : EqDecision rawJsonMessage.
Proof. solve_decision. Defined.

(** The implementations of WritableMessage; [WOther] stands for those outside of
    the package, by what their MarshalToBytes returns. *)
Inductive WritableMessage :=
| WMessage (m : Message)
| WRawJson (r : rawJsonMessage)
| WOther (bytes : result go_error string).

(** [for k, v := range from { to[k] = v }] *)
Definition copy_attributes (from to : gmap string string) : gmap string string := from ∪ to.

Section Encoding.
Local Open Scope string_scope.

Definition AttributeEncoding := "encoding".
Definition AttributeCompression := "compression".
Definition AttributeAggregate := "goso.aggregate".
Definition AttributeAggregateCount := "goso.aggregate.count".

(** [pkg/stream/encoding.go:9-13] the constants of EncodingType *)
Definition EncodingAvro := "application/avro".
Definition EncodingJson := "application/json".
Definition EncodingProtobuf := "application/x-protobuf".

(** [pkg/stream/compression.go:15-21] the constants of CompressionType *)
Definition CompressionNone := "none".
Definition CompressionGZip := "application/gzip".
Definition CompressionSnappy := "application/snappy".
Definition CompressionLZ4 := "application/lz4".
Definition CompressionZstd := "application/zstd".
End Encoding.

(** [pkg/stream/message_builder.go:14-22] GetEncodingAttribute *)
Definition GetEncodingAttribute (attributes : gmap string string) : option string :=
  attributes !! AttributeEncoding.

(** [pkg/stream/message_builder.go:26-34] GetCompressionAttribute *)
Definition GetCompressionAttribute (attributes : gmap string string) : option string :=
  attributes !! AttributeCompression.

(** [pkg/stream/message_builder.go:36-49] NewMessage *)
Definition NewMessage (body : string) (attributes : list (gmap string string)) : Message :=
  {| Attributes := fold_left (λ acc attrs, copy_attributes attrs acc) attributes ∅;
     Body := body |}.

Definition with_attribute (k v : string) (m : Message) : Message :=
  {| Attributes := <[k := v]> (Attributes m); Body := Body m |}.

(** [pkg/stream/message_builder.go:51-56] NewJsonMessage *)
Definition NewJsonMessage (body : string) (attributes : list (gmap string string)) : Message :=
  with_attribute AttributeEncoding EncodingJson (NewMessage body attributes).

(** [pkg/stream/message_builder.go:69-74] NewProtobufMessage *)
Definition NewProtobufMessage (body : string) (attributes : list (gmap string string)) : Message :=
  with_attribute AttributeEncoding EncodingProtobuf (NewMessage body attributes).

(** [pkg/stream/message_builder.go:58-67] MarshalJsonMessage: [encoded] is the
    result of the JSON encoder on the body. *)
Definition MarshalJsonMessage (encoded : result go_error string) (attributes : list (gmap string string)) :
    result go_error Message :=
  match encoded with
  | Err err => Err (EWrap "can not marshal body to json" err)
  | Ok data => Ok (NewJsonMessage data attributes)
  end.

(** [pkg/stream/message_builder.go:76-85] MarshalProtobufMessage *)
Definition MarshalProtobufMessage (encoded : result go_error string) (attributes : list (gmap string string)) :
    result go_error Message :=
  match encoded with
  | Err err => Err (EWrap "can not marshal body to protobuf" err)
  | Ok data => Ok (NewProtobufMessage data attributes)
  end.

(** [pkg/stream/producer_daemon.go:550-556] BuildAggregateMessage *)
Definition BuildAggregateMessage (aggregateBody : string) (attributes : list (gmap string string)) : Message :=
  NewMessage aggregateBody (attributes ++ [ {[AttributeAggregate := "true"%string]} ]).

(** ** Encoding and decoding *)
Section MessageEncoder.
(** [D]: the values of type [any] that are encoded; [Cx]: contexts. *)
Context {D Cx : Type}.

(** [pkg/stream/encoding.go:27-30] MessageBodyEncoder *)
Record MessageBodyEncoder := {
  be_Encode : D → result go_error string;
  be_Decode : string → result go_error D;
}.

(** [pkg/stream/encoding.go:32-35] messageBodyEncoders: the registry *)
Definition body_encoders := gmap string MessageBodyEncoder.
Context (defaultMessageBodyEncoding : string).

(** [pkg/stream/encoding.go:37-39] AddMessageBodyEncoder *)
Definition AddMessageBodyEncoder (encoding : string) (encoder : MessageBodyEncoder)
    (messageBodyEncoders : body_encoders) : body_encoders :=
  <[encoding := encoder]> messageBodyEncoders.

(** [pkg/stream/encoding.go:41-58] EncodeMessage *)
Definition EncodeMessage (messageBodyEncoders : body_encoders) (encoding : string) (data : D) :
    result go_error string :=
  if decide (encoding = "") then Err (EMsg "no encoding provided to encode message")
  else
    match messageBodyEncoders !! encoding with
    | None => Err (EMsg "there is no message body encoder available for encoding")
    | Some encoder =>
        match be_Encode encoder data with
        | Err err => Err (EWrap "can not encode message body with encoding" err)
        | Ok body => Ok body
        end
    end.

(** [pkg/stream/encoding.go:60-73] DecodeMessage *)
Definition DecodeMessage (messageBodyEncoders : body_encoders) (encoding data : string) : result go_error D :=
  match messageBodyEncoders !! encoding with
  | None => Err (EMsg "there is no message body decoder available for encoding")
  | Some encoder =>
      match be_Decode encoder data with
      | Err err => Err (EWrap "can not decode message body with encoding" err)
      | Ok out => Ok out
      end
  end.

(** [pkg/stream/compression.go:29-32] MessageBodyCompressor *)
Record MessageBodyCompressor := {
  mc_Compress : string → result go_error string;
  mc_Decompress : string → result go_error string;
}.

(** [pkg/stream/compression.go:72-80] the noopCompressor *)
Definition noopCompressor : MessageBodyCompressor := {|
  mc_Compress := λ body, Ok body;
  mc_Decompress := λ body, Ok body;
|}.

(** The gzip, snappy, LZ4 and Zstandard compressors. *)
Context (gZipCompressor snappyCompressor lz4Compressor zstdCompressor : MessageBodyCompressor).

(** [pkg/stream/compression.go:34-40] messageBodyCompressors *)
Definition messageBodyCompressors : gmap string MessageBodyCompressor :=
  <[CompressionNone := noopCompressor]> (<[CompressionGZip := gZipCompressor]>
    (<[CompressionSnappy := snappyCompressor]> (<[CompressionLZ4 := lz4Compressor]>
      (<[CompressionZstd := zstdCompressor]> ∅)))).

(** [pkg/stream/compression.go:42-55] CompressMessage *)
Definition CompressMessage (compression body : string) : result go_error string :=
  match messageBodyCompressors !! compression with
  | None => Err (EMsg "there is no compressor for compression")
  | Some compressor =>
      match mc_Compress compressor body with
      | Err err => Err (EWrap "failed to compress message body" err)
      | Ok compressed => Ok compressed
      end
  end.

(** [pkg/stream/compression.go:57-70] DecompressMessage *)
Definition DecompressMessage (compression body : string) : result go_error string :=
  match messageBodyCompressors !! compression with
  | None => Err (EMsg "there is no decompressor for compression")
  | Some compressor =>
      match mc_Decompress compressor body with
      | Err err => Err (EWrap "failed to decompress message body" err)
      | Ok decompressed => Ok decompressed
      end
  end.

(** [pkg/stream/message_encoding.go:11-14] EncodeHandler *)
Record EncodeHandler := {
  eh_Encode : Cx → D → gmap string string → result go_error (Cx * gmap string string);
  eh_Decode : Cx → D → gmap string string → Cx * gmap string string * option go_error;
}.

(** [pkg/stream/message_encoding.go:22-27] MessageEncoderSettings *)
Record MessageEncoderSettings := {
  set_Encoding : string;
  set_Compression : string;
  set_EncodeHandlers : list EncodeHandler;
  set_ExternalEncoder : option MessageBodyEncoder;
}.

(** [pkg/stream/message_encoding.go:35-40] messageEncoder *)
Record messageEncoder := {
  encoding : string;
  compression : string;
  encodeHandlers : list EncodeHandler;
  externalEncoder : option MessageBodyEncoder;
}.

(** [pkg/stream/message_encoding.go:42-61] NewMessageEncoder *)
Definition NewMessageEncoder (defaultEncodeHandlers : list EncodeHandler) (config : MessageEncoderSettings) :
    messageEncoder :=
  {| encoding := if decide (set_Encoding config = "") then defaultMessageBodyEncoding else set_Encoding config;
     compression := if decide (set_Compression config = "") then CompressionNone else set_Compression config;
     encodeHandlers := if decide (length (set_EncodeHandlers config) = 0) then defaultEncodeHandlers
                       else set_EncodeHandlers config;
     externalEncoder := set_ExternalEncoder config |}.

Context (messageBodyEncoders : body_encoders) (ord : map_order string string).
Implicit Types (e : messageEncoder) (attributes : gmap string string).

(** [pkg/stream/message_encoding.go:94-112] messageEncoder.encodeBody *)
Definition encodeBody e attributes (data : D) : result go_error (gmap string string * string) :=
  match externalEncoder e with
  | Some enc =>
      match be_Encode enc data with
      | Err err => Err (EWrap "external encoding failed" err)
      | Ok body => Ok (attributes, body)
      end
  | None =>
      match EncodeMessage messageBodyEncoders (encoding e) data with
      | Err err => Err err
      | Ok body => Ok (<[AttributeEncoding := encoding e]> attributes, body)
      end
  end.

(** [pkg/stream/message_encoding.go:114-128] messageEncoder.compressBody *)
Definition compressBody e attributes (body : string) : result go_error (gmap string string * string) :=
  if decide (compression e = CompressionNone) then Ok (attributes, body)
  else
    match CompressMessage (compression e) body with
    | Err err => Err err
    | Ok compressed =>
        let compressedBase64 := Base64.Encode compressed in
        Ok (<[AttributeCompression := compression e]> attributes, compressedBase64)
    end.

(** [pkg/stream/message_encoding.go:132-138] merging one attribute set *)
Fixpoint mergeSet attributes (set : list (string * string)) : result go_error (gmap string string) :=
  match set with
  | [] => Ok attributes
  | (k, v) :: set' =>
      if map_has attributes k then Err (EMsg "duplicate attribute on message")
      else mergeSet (<[k := v]> attributes) set'
  end.

(** [pkg/stream/message_encoding.go:130-142] messageEncoder.mergeAttributes *)
Fixpoint mergeAttributes attributes (attributeSets : list (gmap string string)) :
    result go_error (gmap string string) :=
  match attributeSets with
  | [] => Ok attributes
  | set :: sets =>
      match mergeSet attributes (enum ord set) with
      | Err err => Err err
      | Ok attributes => mergeAttributes attributes sets
      end
  end.

(** [pkg/stream/message_encoding.go:80-84] the handlers of Encode *)
Fixpoint encode_handlers (handlers : list EncodeHandler) (ctx : Cx) (data : D) attributes :
    result go_error (gmap string string) :=
  match handlers with
  | [] => Ok attributes
  | handler :: handlers' =>
      match eh_Encode handler ctx data attributes with
      | Err err => Err (EWrap "can not apply encoding handler on message" err)
      | Ok (ctx, attributes) => encode_handlers handlers' ctx data attributes
      end
  end.

(** [pkg/stream/message_encoding.go:63-92] messageEncoder.Encode *)
Definition Encode e (ctx : Cx) (data : D) (attributeSets : list (gmap string string)) :
    result go_error Message :=
  match encodeBody e ∅ data with
  | Err err => Err (EWrap "could not encode message body" err)
  | Ok (attributes, body) =>
      match compressBody e attributes body with
      | Err err => Err (EWrap "could not compress message body" err)
      | Ok (attributes, body) =>
          match mergeAttributes attributes attributeSets with
          | Err err => Err err
          | Ok attributes =>
              match encode_handlers (encodeHandlers e) ctx data attributes with
              | Err err => Err err
              | Ok attributes => Ok {| Attributes := attributes; Body := body |}
              end
          end
      end
  end.

(** [pkg/stream/message_encoding.go:168-181] messageEncoder.decompressBody *)
Definition decompressBody e attributes (body : string) : result go_error string :=
  match GetCompressionAttribute attributes with
  | None => Ok body
  | Some compression =>
      match Base64.Decode body with
      | Err err => Err (EWrap "can not base64 decode the body" err)
      | Ok base64Decoded => DecompressMessage compression base64Decoded
      end
  end.

(** [pkg/stream/message_encoding.go:183-195] messageEncoder.decodeBody *)
Definition decodeBody e attributes (body : string) : result go_error D :=
  match externalEncoder e with
  | Some enc =>
      match be_Decode enc body with
      | Err err => Err (EWrap "external decoding failed" err)
      | Ok out => Ok out
      end
  | None =>
      let encoding := default (encoding e) (GetEncodingAttribute attributes) in
      DecodeMessage messageBodyEncoders encoding body
  end.

(** [pkg/stream/message_encoding.go:159-163] the handlers of Decode *)
Fixpoint decode_handlers (handlers : list EncodeHandler) (ctx : Cx) (out : D) attributes :
    Cx * gmap string string * option go_error :=
  match handlers with
  | [] => (ctx, attributes, None)
  | handler :: handlers' =>
      match eh_Decode handler ctx out attributes with
      | (ctx, attributes, Some err) => (ctx, attributes, Some (EWrap "can not apply encoding handler on message" err))
      | (ctx, attributes, None) => decode_handlers handlers' ctx out attributes
      end
  end.

(** [pkg/stream/message_encoding.go:144-166] messageEncoder.Decode: the value
    written to [out], if any, and what the method returns. *)
Definition Decode e (ctx : Cx) (msg : Message) :
    option D * (Cx * gmap string string * option go_error) :=
  let attributes := Attributes msg in
  match decompressBody e attributes (Body msg) with
  | Err err => (None, (ctx, attributes, Some err))
  | Ok body =>
      match decodeBody e attributes body with
      | Err err => (None, (ctx, attributes, Some (EWrap "can not decode message body" err)))
      | Ok out => (Some out, decode_handlers (encodeHandlers e) ctx out attributes)
      end
  end.
End MessageEncoder.
Arguments MessageBodyEncoder : clear implicits.
Arguments EncodeHandler : clear implicits.
Arguments messageEncoder : clear implicits.
Arguments MessageEncoderSettings : clear implicits.
Arguments body_encoders : clear implicits.

(** ** Model messages *)

(** [pkg/stream/message_model.go:8-13] ModelMsg *)
Record ModelMsg := {
  CrudType : string;
  Version : Z;
  ModelId : string;
  mm_Body : string;
}.

(** [strconv.Atoi]: an optional sign and decimal digits, within an int64. *)
Fixpoint atoi_digits (s : string) (acc : Z) : option Z :=
  match s with
  | EmptyString => Some acc
  | String c s' =>
      let d := (Z.of_N (Ascii.N_of_ascii c) - 48)%Z in
      if decide (0 ≤ d ≤ 9)%Z then atoi_digits s' (acc * 10 + d)%Z else None
  end.

Definition Atoi (s : string) : result go_error Z :=
  let '(sign, digits) :=
    match s with
    | String "-"%char s' => ((-1)%Z, s')
    | String "+"%char s' => (1%Z, s')
    | _ => (1%Z, s)
    end in
  if decide (digits = "") then Err (EMsg "invalid syntax")
  else
    match atoi_digits digits 0 with
    | None => Err (EMsg "invalid syntax")
    | Some n =>
        let n := (sign * n)%Z in
        if decide (- 2 ^ 63 ≤ n < 2 ^ 63)%Z then Ok n else Err (EMsg "value out of range")
    end.

(** [pkg/stream/message_model.go:15-47] CreateModelMsg *)
Definition CreateModelMsg (raw : Message) : result go_error ModelMsg :=
  match Attributes raw !! "type"%string with
  | None => Err (EMsg "type is not a string")
  | Some crudType =>
      match Attributes raw !! "version"%string with
      | None => Err (EMsg "the message has no attribute named 'version'")
      | Some v =>
          match Atoi v with
          | Err err => Err (EWrap "version can not be parsed to an int" err)
          | Ok version =>
              match Attributes raw !! "modelId"%string with
              | None => Err (EMsg "the message has no attribute named 'modelId'")
              | Some modelId =>
                  Ok {| CrudType := crudType; Version := version; ModelId := modelId; mm_Body := Body raw |}
              end
          end
      end
  end.

(** ** Chunks of marshalled messages *)
Section Chunking.
(** [encoding/json]'s Marshal on a message. *)
Context (json_Marshal : Message → result go_error string).

(** [pkg/stream/message.go:26-28] the MarshalToBytes of the writable messages *)
Definition MarshalToBytes (msg : WritableMessage) : result go_error string :=
  match msg with
  | WMessage m => json_Marshal m
  | WRawJson r => Ok (raw_body r)
  | WOther bytes => bytes
  end.

(** [pkg/stream/chunking.go:24-37] the loop of BuildChunks: the chunks, the index
    of the current one and the number of errors *)
Fixpoint buildChunks_go (batch : list WritableMessage) (size : nat) (chunks : list (list string)) (j : nat)
    (errors : nat) : result panic (list (list string) * nat) :=
  match batch with
  | [] => Ok (chunks, errors)
  | msg :: batch' =>
      match MarshalToBytes msg with
      | Err _ => buildChunks_go batch' size chunks j (S errors)
      | Ok bytes =>
          match chunks !! j with
          | None => Err IndexOutOfRange
          | Some c =>
              let chunk := c ++ [bytes] in
              buildChunks_go batch' size (<[j := chunk]> chunks)
                (if length chunk =? size then S j else j) errors
          end
      end
  end.

(** [pkg/stream/chunking.go:13-45] BuildChunks, with the number of chunks as the
    exact quotient rounded up *)
Definition BuildChunks (batch : list WritableMessage) (size : nat) :
    result panic (list (list string) * option go_error) :=
  let numOfChunks := chunk_count (length batch) size in
  match buildChunks_go batch size (replicate numOfChunks []) 0 0 with
  | Err p => Err p
  | Ok (chunks, errors) =>
      Ok (chunks, if 0 <? errors then Some (EMsg "there were errors on chunking and marshalling the messages") else None)
  end.
End Chunking.

(** ** Lemmas *)
Section ChunkLemmas.
Context (json_Marshal : Message → result go_error string).

(** What the messages that can be marshalled are marshalled to. *)
Definition marshalled (batch : list WritableMessage) : list string :=
  omap (λ msg, match MarshalToBytes json_Marshal msg with Ok b => Some b | Err _ => None end) batch.

Definition chunk_table {A} (n size : nat) (l : list A) : list (list A) :=
  (λ i, take size (drop (i * size) l)) <$> seq 0 n.

Lemma chunk_table_lookup {A} n size (l : list A) i :
  i < n → chunk_table n size l !! i = Some (take size (drop (i * size) l)).
Proof. intros Hi. unfold chunk_table. rewrite list_lookup_fmap lookup_seq_lt //. Qed.

Lemma chunk_table_snoc {A} n size (l : list A) x c :
  0 < size → length l < n * size → chunk_table n size l !! (length l / size) = Some c →
  <[length l / size := c ++ [x]]> (chunk_table n size l) = chunk_table n size (l ++ [x]).
Proof.
  intros Hs Hn Hc. pose proof (Nat.div_mod_eq (length l) size) as Hdm.
  pose proof (Nat.mod_upper_bound (length l) size ltac:(lia)) as Hm.
  set (j := length l / size) in *.
  assert (j < n) as Hj by nia. rewrite chunk_table_lookup // in Hc. injection Hc as <-.
  apply list_eq. intros i. destruct (decide (i < n)) as [Hi|Hi].
  2:{ rewrite !lookup_ge_None_2 //; unfold chunk_table; rewrite ?length_insert length_fmap length_seq; lia. }
  rewrite (chunk_table_lookup n size (l ++ [x])) //. destruct (decide (i = j)) as [->|Hne].
  - rewrite list_lookup_insert_eq; [unfold chunk_table; rewrite length_fmap length_seq; lia|].
    rewrite drop_app_le; [nia|]. rewrite !take_ge //; rewrite ?length_app length_drop /=; nia.
  - rewrite list_lookup_insert_ne // chunk_table_lookup //. f_equal.
    destruct (decide (i < j)).
    + rewrite drop_app_le; [nia|]. rewrite take_app_le //. rewrite length_drop. nia.
    + rewrite !drop_ge // ?length_app /=; nia.
Qed.

Lemma buildChunks_go_spec size n batch l errs :
  0 < size → length l + length batch ≤ n * size →
  ∃ k, buildChunks_go json_Marshal batch size (chunk_table n size l) (length l / size) errs =
    Ok (chunk_table n size (l ++ marshalled batch), errs + k) ∧
    k + length (marshalled batch) = length batch.
Proof.
  intros Hs. revert l errs. induction batch as [|msg batch IH]; intros l errs Hn.
  { exists 0. rewrite app_nil_r Nat.add_0_r. done. }
  simpl in Hn. cbn [buildChunks_go]. unfold marshalled. cbn [omap list_omap].
  destruct (MarshalToBytes json_Marshal msg) as [b|e].
  - assert (length l / size < n) as Hj by (apply Nat.Div0.div_lt_upper_bound; lia).
    rewrite chunk_table_lookup //. erewrite chunk_table_snoc; [|done|lia|by apply chunk_table_lookup].
    assert ((if length (take size (drop (length l / size * size) l) ++ [b]) =? size
      then S (length l / size) else length l / size) = length (l ++ [b]) / size) as ->.
    { rewrite !length_app length_take length_drop /=.
      pose proof (Nat.div_mod_eq (length l) size) as Hdm.
      pose proof (Nat.mod_upper_bound (length l) size ltac:(lia)) as Hm.
      destruct (Nat.eqb_spec (min size (length l - length l / size * size) + 1) size).
      - apply (Nat.div_unique _ _ _ 0); nia.
      - apply (Nat.div_unique _ _ _ (length l mod size + 1)); nia. }
    destruct (IH (l ++ [b]) errs) as (k & -> & Hk); [rewrite length_app /=; lia|].
    exists k. rewrite -app_assoc. split; [done|]. simpl. unfold marshalled in Hk. lia.
  - destruct (IH l (S errs)) as (k & -> & Hk); [lia|].
    exists (S k). split; [by rewrite -Nat.add_succ_comm|]. unfold marshalled in Hk. simpl. lia.
Qed.
End ChunkLemmas.

(** ** Merging attributes *)
Section MergeLemmas.
Context (ord : map_order string string).
Implicit Types (a r : gmap string string).

(** [r] holds [a] and all of the sets, and nothing else. *)
Definition merged a (l : list (string * string)) r : Prop :=
  a ⊆ r ∧ (∀ k v, (k, v) ∈ l → r !! k = Some v) ∧
  (∀ k v, r !! k = Some v → a !! k = Some v ∨ (k, v) ∈ l).

Lemma mergeSet_spec a l r : mergeSet a l = Ok r → merged a l r.
Proof.
  revert a. induction l as [|[k v] l IH]; intros a; simpl.
  { intros [= <-]. split_and!; [done|by intros ? ? ?%elem_of_nil|by left]. }
  rewrite map_has_spec. case_bool_decide as Hk; [done|]. apply eq_None_not_Some in Hk.
  intros (Hsub & Hl & Hr)%IH. split_and!.
  - etrans; [by apply insert_subseteq|exact Hsub].
  - intros k' v' [Heq|Hin]%elem_of_cons; [|by apply Hl]. simplify_eq.
    eapply lookup_weaken; [apply lookup_insert_eq|exact Hsub].
  - intros k' v' [Hx|Hx]%Hr; [|right; by right].
    apply lookup_insert_Some in Hx as [[<- <-]|[_ Hx]]; [right; by left|by left].
Qed.

Lemma merged_app a l1 l2 r1 r2 : merged a l1 r1 → merged r1 l2 r2 → merged a (l1 ++ l2) r2.
Proof.
  intros (Hs1 & Hl1 & Hr1) (Hs2 & Hl2 & Hr2). split_and!; [by etrans|..].
  - intros k v [Hin|Hin]%elem_of_app; [|by apply Hl2]. eapply lookup_weaken; [by apply Hl1|done].
  - intros k v [Hx|Hin]%Hr2; [|right; apply elem_of_app; by right].
    destruct (Hr1 _ _ Hx); [by left|right; apply elem_of_app; by left].
Qed.

Lemma mergeAttributes_spec a sets r :
  mergeAttributes ord a sets = Ok r → merged a (mjoin (enum ord <$> sets)) r.
Proof.
  revert a. induction sets as [|set sets IH]; intros a; simpl.
  { intros [= <-]. split_and!; [done|by intros ? ? ?%elem_of_nil|by left]. }
  destruct (mergeSet a (enum ord set)) as [r1|] eqn:Hm; [|done].
  intros Hr%IH. by eapply merged_app; [apply mergeSet_spec|].
Qed.

Lemma elem_of_enums sets k v :
  (k, v) ∈ mjoin (enum ord <$> sets) ↔ ∃ set, set ∈ sets ∧ set !! k = Some v.
Proof.
  rewrite list_elem_of_join. split.
  - intros (l & Hin & (set & -> & Hset)%list_elem_of_fmap). exists set. by apply elem_of_enum in Hin.
  - intros (set & Hset & Hk). exists (enum ord set). split; [by apply elem_of_enum|].
    apply list_elem_of_fmap. by exists set.
Qed.
End MergeLemmas.

(** ** Properties *)

(** BuildChunks never indexes out of range and puts every message that can
    be marshalled into the chunks, in order: chunk [i] holds the marshalled
    messages [i * size] and up; an error is returned exactly when a message
    could not be marshalled. *)
Theorem BuildChunks_correct json_Marshal batch size :
  0 < size →
  ∃ chunks err, BuildChunks json_Marshal batch size = Ok (chunks, err) ∧
    mjoin chunks = marshalled json_Marshal batch ∧
    length chunks = chunk_count (length batch) size ∧
    (∀ i c, chunks !! i = Some c → c = take size (drop (i * size) (marshalled json_Marshal batch))) ∧
    (err = None ↔ length (marshalled json_Marshal batch) = length batch).
Proof.
  intros Hs. set (n := chunk_count (length batch) size).
  pose proof (chunk_count_bounds (length batch) size Hs) as Hn.
  destruct (buildChunks_go_spec json_Marshal size n batch [] 0 Hs) as (k & Hgo & Hk); [simpl; lia|].
  replace (chunk_table n size []) with (replicate n (@nil string)) in Hgo.
  2:{ apply list_eq. intros i. destruct (decide (i < n)).
      - by rewrite chunk_table_lookup // lookup_replicate_2 // drop_nil take_nil.
      - rewrite !lookup_ge_None_2 //; unfold chunk_table; rewrite ?length_replicate ?length_fmap ?length_seq; lia. }
  rewrite Nat.Div0.div_0_l in Hgo. unfold BuildChunks. fold n. rewrite Hgo. simpl.
  eexists _, _. split; [done|]. split_and!.
  - unfold chunk_table. rewrite concat_chunks_upto take_ge //. subst n. simpl in Hk. lia.
  - unfold chunk_table. by rewrite length_fmap length_seq.
  - intros i c Hi. unfold chunk_table in Hi. rewrite list_lookup_fmap in Hi.
    destruct (seq 0 n !! i) eqn:Hi'; [|done]. apply lookup_seq in Hi' as [-> _]. by simplify_eq/=.
  - destruct (Nat.ltb_spec 0 k); simpl; split; try done; lia.
Qed.

Lemma BuildChunks_correct_witness :
  BuildChunks (λ m, Ok (Body m)) [WMessage {| Attributes := ∅; Body := "a" |}; WOther (Err (EMsg "x"));
    WOther (Ok "b"); WOther (Ok "c")] 2 =
  Ok ([["a"; "b"]; ["c"]], Some (EMsg "there were errors on chunking and marshalling the messages")) ∧
  ∃ chunks err, BuildChunks (λ m, Ok (Body m)) [WOther (Ok "b")] 2 = Ok (chunks, err) ∧ mjoin chunks = ["b"%string].
Proof.
  split; [by vm_compute|].
  destruct (BuildChunks_correct (λ m, Ok (Body m)) [WOther (Ok "b"%string)] 2 ltac:(lia)) as (chunks & err & H & Hj & _).
  by exists chunks, err.
Defined.

Section MessageEncoderProperties.
Context {D Cx : Type} (encoders : body_encoders D) (gz sn lz zs : MessageBodyCompressor) (ord : map_order string string).
Implicit Types (e : messageEncoder D Cx).

Lemma encode_handlers_keep handlers ctx (d : D) a a' k :
  (∀ (h : EncodeHandler D Cx) c d a c' a', h ∈ handlers → eh_Encode h c d a = Ok (c', a') → a' !! k = a !! k) →
  encode_handlers handlers ctx d a = Ok a' → a' !! k = a !! k.
Proof.
  revert ctx a. induction handlers as [|h hs IH]; intros ctx a Hk; simpl; [by intros [= <-]|].
  destruct (eh_Encode h ctx d a) as [[c1 a1]|] eqn:Hh; [|done].
  intros Ha%IH; [|intros; by eapply Hk; [right|]]. rewrite Ha. by eapply Hk; [left|].
Qed.

Lemma encodeBody_spec e (d : D) a1 body :
  (∀ enc d b, externalEncoder e = Some enc ∨ encoders !! encoding e = Some enc →
    be_Encode enc d = Ok b → be_Decode enc b = Ok d) →
  encodeBody encoders e ∅ d = Ok (a1, body) →
  a1 !! AttributeCompression = None ∧
  ∀ a, (∀ x, a1 !! AttributeEncoding = Some x → a !! AttributeEncoding = Some x) →
    decodeBody encoders e a body = Ok d.
Proof.
  intros Henc. unfold encodeBody, decodeBody. destruct (externalEncoder e) as [enc|] eqn:He.
  - destruct (be_Encode enc d) as [b|] eqn:Hb; [|done]. intros [= <- <-]. split; [done|].
    intros a _. rewrite (Henc enc d) //. by left.
  - unfold EncodeMessage, DecodeMessage. case_decide; [done|].
    destruct (encoders !! encoding e) as [enc|] eqn:Hl; [|done].
    destruct (be_Encode enc d) as [b|] eqn:Hb; [|done]. intros [= <- <-]. split; [done|].
    intros a Ha. unfold GetEncodingAttribute. rewrite (Ha (encoding e)).
    { by rewrite lookup_insert_eq. }
    simpl. rewrite Hl (Henc enc d) //. by right.
Qed.

Lemma compressBody_spec e a1 b a2 b2 :
  (∀ c b b', messageBodyCompressors gz sn lz zs !! compression e = Some c →
    mc_Compress c b = Ok b' → mc_Decompress c b' = Ok b) →
  a1 !! AttributeCompression = None →
  compressBody gz sn lz zs e a1 b = Ok (a2, b2) →
  a1 !! AttributeEncoding = a2 !! AttributeEncoding ∧
  a2 !! AttributeCompression = (if decide (compression e = CompressionNone) then None else Some (compression e)) ∧
  ∀ a, a !! AttributeCompression = a2 !! AttributeCompression → decompressBody gz sn lz zs e a b2 = Ok b.
Proof.
  intros Hcomp H1. unfold compressBody, decompressBody, GetCompressionAttribute.
  destruct (decide (compression e = CompressionNone)) as [Hn|Hn].
  - intros [= <- <-]. split_and!; [done|done|]. intros a ->. by rewrite H1.
  - unfold CompressMessage, DecompressMessage.
    destruct (messageBodyCompressors gz sn lz zs !! compression e) as [c|] eqn:Hc; [|done].
    destruct (mc_Compress c b) as [b'|] eqn:Hb; [|done]. intros [= <- <-]. rewrite lookup_insert_eq.
    split_and!; [by rewrite lookup_insert_ne|done|].
    intros a' ->. rewrite Decode_Encode Hc. by erewrite Hcomp.
Qed.

(** What a handler's Encode leaves of an attribute: its value, or its absence. *)
Definition keeps_attribute (k : string) (h : EncodeHandler D Cx) : Prop :=
  ∀ c d a c' a', eh_Encode h c d a = Ok (c', a') → a' !! k = a !! k.

(** C32: what Encode wrote, Decode of the same encoder reads back: the data, and
    every attribute of the sets the caller passed that the handlers do not change,
    before the handlers decode; provided that the body encoder and the compressor are
    inverse to their decoders, that the handlers leave the two reserved attributes
    alone, and that no set smuggles a compression attribute into an uncompressed
    message. *)
Theorem Decode_Encode_message e ctx (data : D) sets msg :
  (∀ enc d b, externalEncoder e = Some enc ∨ encoders !! encoding e = Some enc →
    be_Encode enc d = Ok b → be_Decode enc b = Ok d) →
  (∀ c b b', messageBodyCompressors gz sn lz zs !! compression e = Some c →
    mc_Compress c b = Ok b' → mc_Decompress c b' = Ok b) →
  (∀ h, h ∈ encodeHandlers e → keeps_attribute AttributeEncoding h ∧ keeps_attribute AttributeCompression h) →
  (compression e = CompressionNone → ∀ set, set ∈ sets → set !! AttributeCompression = None) →
  Encode gz sn lz zs encoders ord e ctx data sets = Ok msg →
  Decode gz sn lz zs encoders e ctx msg =
    (Some data, decode_handlers (encodeHandlers e) ctx data (Attributes msg)) ∧
  (∀ set k v, set ∈ sets → set !! k = Some v → (∀ h, h ∈ encodeHandlers e → keeps_attribute k h) →
     Attributes msg !! k = Some v).
Proof.
  intros Henc Hcomp Hkeep Hsets. unfold Encode, Decode.
  destruct (encodeBody encoders e ∅ data) as [[a1 b1]|] eqn:H1; [|done].
  apply encodeBody_spec in H1 as [Hc1 Hdec]; [|done].
  destruct (compressBody gz sn lz zs e a1 b1) as [[a2 b2]|] eqn:H2; [|done].
  apply compressBody_spec in H2 as (He2 & Hc2 & Hdecomp); [|done..].
  destruct (mergeAttributes ord a2 sets) as [a3|] eqn:H3; [|done].
  apply mergeAttributes_spec in H3 as (Hsub & Hin & Honly).
  destruct (encode_handlers (encodeHandlers e) ctx data a3) as [a4|] eqn:H4; [|done].
  intros [= <-]. cbn [Attributes Body].
  assert (a4 !! AttributeEncoding = a3 !! AttributeEncoding) as Hk1.
  { eapply encode_handlers_keep; [|done]. intros h c d a c' a' [Hh _]%Hkeep. apply Hh. }
  assert (a4 !! AttributeCompression = a3 !! AttributeCompression) as Hk2.
  { eapply encode_handlers_keep; [|done]. intros h c d a c' a' [_ Hh]%Hkeep. apply Hh. }
  rewrite Hdecomp.
  { rewrite Hk2. destruct (a3 !! AttributeCompression) as [x|] eqn:Hx.
    - apply Honly in Hx as [Hx|(set & Hset & Hx)%elem_of_enums]; [done|]. case_decide as Hn.
      + by rewrite (Hsets Hn set Hset) in Hx.
      + rewrite Hc2. eapply lookup_weaken in Hc2; [|exact Hsub]. rewrite -Hc2.
        symmetry. apply Hin, elem_of_enums. by exists set.
    - symmetry. exact (lookup_weaken_None _ _ _ Hx Hsub). }
  rewrite Hdec.
  { intros x Hx. rewrite Hk1. eapply lookup_weaken; [|exact Hsub]. by rewrite -He2. }
  split; [done|]. intros set k v Hset Hv Hh. rewrite (encode_handlers_keep (encodeHandlers e) ctx data a3 a4 k) //.
  - intros h c d a c' a' Hi. by apply Hh.
  - apply Hin, elem_of_enums. by exists set.
Qed.
End MessageEncoderProperties.

(** An encoder of numbers by unary strings, for the witness. *)
Fixpoint unary (n : nat) : string :=
  match n with 0 => EmptyString | S n => String "1" (unary n) end.

Definition unary_encoder : MessageBodyEncoder nat :=
  {| be_Encode := λ n, Ok (unary n); be_Decode := λ s, Ok (String.length s) |}.

Lemma unary_roundtrip n : String.length (unary n) = n.
Proof. induction n as [|n IH]; [done|]. simpl. by rewrite IH. Qed.

(** A handler that marks the messages. *)
Definition marking_handler : EncodeHandler nat unit :=
  {| eh_Encode := λ c d a, Ok (c, <["marked"%string := "yes"%string]> a); eh_Decode := λ c d a, (c, delete "marked"%string a, None) |}.

Definition unary_message_encoder : messageEncoder nat unit :=
  {| encoding := "unary"; compression := CompressionGZip; encodeHandlers := [marking_handler]; externalEncoder := None |}.

Lemma Decode_Encode_message_witness :
  ∃ msg,
    Encode noopCompressor noopCompressor noopCompressor noopCompressor {["unary"%string := unary_encoder]}
      canonical_order unary_message_encoder tt 3 [ {["k"%string := "v"%string]} ] = Ok msg ∧
    Body msg = Base64.Encode "111" ∧
    Decode noopCompressor noopCompressor noopCompressor noopCompressor {["unary"%string := unary_encoder]}
      unary_message_encoder tt msg = (Some 3, (tt, delete "marked"%string (Attributes msg), None)) ∧
    Attributes msg !! "k"%string = Some "v"%string.
Proof.
  eexists. split; [vm_compute; reflexivity|]. split; [vm_compute; reflexivity|].
  assert (∀ k, k ≠ "marked"%string → keeps_attribute k marking_handler) as Hkeeps.
  { intros k Hk c d a c' a' [= _ <-]. by rewrite lookup_insert_ne. }
  match goal with |- Decode _ _ _ _ _ _ _ ?msg = _ ∧ _ =>
    destruct (Decode_Encode_message {["unary"%string := unary_encoder]} noopCompressor noopCompressor noopCompressor
      noopCompressor canonical_order unary_message_encoder tt 3 [ {["k"%string := "v"%string]} ] msg) as [Hd Ha] end.
  - intros enc d b [?|Henc]; [done|]. vm_compute in Henc. simplify_eq.
    intros [= <-]. exact (f_equal Ok (unary_roundtrip d)).
  - intros c b b' Hc. vm_compute in Hc. simplify_eq. by intros [= <-].
  - intros h ->%list_elem_of_singleton. split; by apply Hkeeps.
  - done.
  - vm_compute. reflexivity.
  - split; [exact Hd|]. apply (Ha {["k"%string := "v"%string]}); [by left | reflexivity|].
    intros h ->%list_elem_of_singleton. by apply Hkeeps.
Defined.
