(* ===== verification/Aggregator.v ===== *)
(** * pkg/stream: the aggregators of the producer daemon

    An aggregator packs messages into the JSON array of an aggregate message.
    [encoding/json]'s Marshal and the gzip writer are parameters; the sizes are
    unbounded integers, the compression ratio is a [float32]. *)
From Stdlib Require Import Ascii.
From stdpp Require Import pretty.
From S2P Require Import Prelude.
From S2P Require Import Num.
From S2P Require Import Base64.
From S2P Require Import StreamMessage.

(** [pkg/stream/producer_daemon.go:30-84] ProducerDaemonSettings; intervals in
    nanoseconds *)
Record ProducerDaemonSettings := {
  Enabled : bool;
  Interval : Z;
  BufferSize : Z;
  RunnerCount : Z;
  BatchSize : Z;
  BatchMaxSize : Z;
  AggregationSize : Z;
  AggregationMaxSize : Z;
  PartitionBucketCount : Z;
  MessageAttributes : gmap string string;
}.

(** [pkg/stream/producer_daemon_aggregator.go:39-43] AggregateFlush *)
Record AggregateFlush := {
  af_Attributes : gmap string string;
  af_Body : string;
  MessageCount : Z;
}.

(** [pkg/stream/producer_daemon_aggregator.go:46-49] ProducerDaemonAggregator *)
Class ProducerDaemonAggregator (A : Type) := {
  ag_Write : Message → A → A * result go_error (list AggregateFlush);
  ag_Flush : A → A * result go_error (list AggregateFlush);
}.

(** The standard library's gzip writer: what a call appends to the underlying
    buffer.  [Reset] on a buffer is a new writer. *)
Class GzipWriter (W : Type) := {
  gz_new : W;
  gz_write : string → W → W * string * option go_error;
  gz_close : W → W * string * option go_error;
}.

Definition slen (s : string) : Z := Z.of_nat (String.length s).

(** ** The aggregator *)
Section Aggregator.
Context {W : Type} `{!GzipWriter W}.
Context (json_Marshal : Message → result go_error string).

(** The dynamic value of the aggregator's [writer]. *)
Inductive writer_value :=
| NilWriter
| NopCloser
| Gzip (w : W).

(** [pkg/stream/producer_daemon_aggregator.go:25-37] producerDaemonAggregator *)
Record producerDaemonAggregator := {
  maxMessages : Z;
  maxBytes : Z;
  compression : string;
  attributes : gmap string string;
  encodeBase64 : bool;
  buffer : option string;
  writer : writer_value;
  messageCount : Z;
  uncompressedBytes : Z;
  expectedCompressionRatio : f32;
}.
Implicit Types (a : producerDaemonAggregator).

Definition with_io (buf : option string) (w : writer_value) a : producerDaemonAggregator :=
  {| maxMessages := maxMessages a; maxBytes := maxBytes a; compression := compression a;
     attributes := attributes a; encodeBase64 := encodeBase64 a; buffer := buf; writer := w;
     messageCount := messageCount a; uncompressedBytes := uncompressedBytes a;
     expectedCompressionRatio := expectedCompressionRatio a |}.

Definition with_counts (count bytes : Z) a : producerDaemonAggregator :=
  {| maxMessages := maxMessages a; maxBytes := maxBytes a; compression := compression a;
     attributes := attributes a; encodeBase64 := encodeBase64 a; buffer := buffer a; writer := writer a;
     messageCount := count; uncompressedBytes := bytes;
     expectedCompressionRatio := expectedCompressionRatio a |}.

Definition with_ratio (ratio : f32) a : producerDaemonAggregator :=
  {| maxMessages := maxMessages a; maxBytes := maxBytes a; compression := compression a;
     attributes := attributes a; encodeBase64 := encodeBase64 a; buffer := buffer a; writer := writer a;
     messageCount := messageCount a; uncompressedBytes := uncompressedBytes a;
     expectedCompressionRatio := ratio |}.

Definition contents a : string := default "" (buffer a).

(** [a.writer.Write(p)]; a nil writer does not occur. *)
Definition writer_Write (p : string) a : producerDaemonAggregator * option go_error :=
  match writer a with
  | Gzip w =>
      let '(w, out, err) := gz_write p w in
      (with_io (Some (String.append (contents a) out)) (Gzip w) a, err)
  | w => (with_io (Some (String.append (contents a) p)) w a, None)
  end.

(** [a.writer.Close()] *)
Definition writer_Close a : producerDaemonAggregator * option go_error :=
  match writer a with
  | Gzip w =>
      let '(w, out, err) := gz_close w in
      (with_io (Some (String.append (contents a) out)) (Gzip w) a, err)
  | _ => (a, None)
  end.

(** [pkg/stream/producer_daemon_aggregator.go:157-194] producerDaemonAggregator.reset *)
Definition reset a : producerDaemonAggregator * option go_error :=
  let a := with_counts 0 0 a in
  let '(a, err) :=
    match buffer a with
    | None =>
        let a := with_io (Some "") (writer a) a in
        if decide (compression a = CompressionGZip) then (with_io (buffer a) (Gzip gz_new) a, None)
        else if decide (compression a = CompressionNone) then (with_io (buffer a) NopCloser a, None)
        else (a, Some (EMsg "unhandled compression type"))
    | Some _ =>
        let a := with_io (Some "") (writer a) a in
        if decide (compression a = CompressionGZip) then (with_io (buffer a) (Gzip gz_new) a, None)
        else if decide (compression a = CompressionNone) then (a, None)
        else (a, Some (EMsg "unhandled compression type"))
    end in
  match err with
  | Some err => (a, Some err)
  | None =>
      let '(a, err) := writer_Write "[" a in
      (with_counts (messageCount a) (uncompressedBytes a + 1) a, err)
  end.

Definition gzipMaxExpectedBuffer : Z := 8192.

(** [pkg/stream/producer_daemon_aggregator.go:51-94] NewProducerDaemonAggregator *)
Definition NewProducerDaemonAggregator (settings : ProducerDaemonSettings) (compression : string)
    (attributeSets : list (gmap string string)) : result go_error producerDaemonAggregator :=
  let attributes := fold_left (λ acc attrs, copy_attributes attrs acc) attributeSets
    {[AttributeEncoding := EncodingJson]} in
  let maxBytes := AggregationMaxSize settings in
  let new attributes maxBytes encodeBase64 :=
    {| maxMessages := AggregationSize settings; maxBytes := maxBytes; compression := compression;
       attributes := attributes; encodeBase64 := encodeBase64; buffer := None; writer := NilWriter;
       messageCount := 0; uncompressedBytes := 0; expectedCompressionRatio := f32_one |} in
  let a :=
    if decide (compression = CompressionGZip) then
      Ok (new (<[AttributeCompression := CompressionGZip]> attributes)
        (if (gzipMaxExpectedBuffer <? maxBytes)%Z then (maxBytes - gzipMaxExpectedBuffer)%Z else maxBytes) true)
    else if decide (compression = CompressionNone) then Ok (new attributes maxBytes false)
    else Err (EMsg "unhandled compression type") in
  match a with
  | Err err => Err err
  | Ok a =>
      match reset a with
      | (_, Some err) => Err (EWrap "failed to reset aggregate to initial state" err)
      | (a, None) => Ok a
      end
  end.

(** [pkg/stream/producer_daemon_aggregator.go:126-134] producerDaemonAggregator.getCurrentSize *)
Definition getCurrentSize (newMessageSize : Z) a : Z :=
  let currentSize := (slen (contents a) + newMessageSize + 1)%Z in
  if encodeBase64 a then Z.quot (currentSize * 4) 3 else currentSize.

(** [pkg/stream/producer_daemon_aggregator.go:136-155] producerDaemonAggregator.write *)
Definition write (encodedMessage : string) a : producerDaemonAggregator * option go_error :=
  let '(a, err) :=
    if (0 <? messageCount a)%Z then
      match writer_Write "," a with
      | (a, Some err) => (a, Some (EWrap "failed to write separator to buffer" err))
      | (a, None) => (with_counts (messageCount a) (uncompressedBytes a + 1) a, None)
      end
    else (a, None) in
  match err with
  | Some err => (a, Some err)
  | None =>
      match writer_Write encodedMessage a with
      | (a, Some err) => (a, Some (EWrap "failed to write message to buffer" err))
      | (a, None) =>
          (with_counts (messageCount a + 1) (uncompressedBytes a + slen encodedMessage) a, None)
      end
  end.

(** [pkg/stream/producer_daemon_aggregator.go:210-254] producerDaemonAggregator.Flush *)
Definition Flush a : producerDaemonAggregator * result go_error (list AggregateFlush) :=
  match writer_Write "]" a with
  | (a, Some err) => (a, Err err)
  | (a, None) =>
      let a := with_counts (messageCount a) (uncompressedBytes a + 1) a in
      match writer_Close a with
      | (a, Some err) => (a, Err (EWrap "failed to close writer during flush" err))
      | (a, None) =>
          let count := messageCount a in
          let body := if encodeBase64 a then Base64.EncodeToString (contents a) else contents a in
          let a :=
            if (0 <? count)%Z then
              with_ratio (f32_div (f32_of_int (slen body)) (f32_of_int (uncompressedBytes a))) a
            else a in
          match reset a with
          | (a, Some err) => (a, Err err)
          | (a, None) =>
              let attrs := copy_attributes (attributes a) {[AttributeAggregateCount := pretty count]} in
              (a, Ok [{| af_Attributes := attrs; af_Body := body; MessageCount := count |}])
          end
      end
  end.

(** [pkg/stream/producer_daemon_aggregator.go:96-124] producerDaemonAggregator.Write *)
Definition Write (msg : Message) a : producerDaemonAggregator * result go_error (list AggregateFlush) :=
  match json_Marshal msg with
  | Err err => (a, Err (EWrap "failed to encode message for aggregate" err))
  | Ok encodedMessage =>
      let expectedMessageSize :=
        f32_to_int (f32_mul (f32_of_int (slen encodedMessage)) (expectedCompressionRatio a)) in
      let '(a, flushes) :=
        if (0 <? messageCount a)%Z && negb (maxBytes a =? 0)%Z
           && (maxBytes a <=? getCurrentSize expectedMessageSize a)%Z
        then Flush a else (a, Ok []) in
      match flushes with
      | Err err => (a, Err err)
      | Ok flushes =>
          match write encodedMessage a with
          | (a, Some err) => (a, Err err)
          | (a, None) =>
              if (maxMessages a <=? messageCount a)%Z
                 || (negb (maxBytes a =? 0)%Z && (maxBytes a <=? getCurrentSize 0 a)%Z)
              then
                match Flush a with
                | (a, Err err) => (a, Err err)
                | (a, Ok flush) => (a, Ok (flushes ++ flush))
                end
              else (a, Ok flushes)
          end
      end
  end.

#[export] Instance producerDaemonAggregator_Aggregator : ProducerDaemonAggregator producerDaemonAggregator :=
  {| ag_Write := Write; ag_Flush := Flush |}.
End Aggregator.
Arguments producerDaemonAggregator : clear implicits.
Arguments writer_value : clear implicits.

(** ** The aggregator that forwards messages *)

(** [pkg/stream/producer_daemon_noop_aggregator.go:8-8] producerDaemonNoopAggregator *)
Inductive producerDaemonNoopAggregator := NewProducerDaemonNoopAggregator.

(** [pkg/stream/producer_daemon_noop_aggregator.go:14-30] its Write and Flush *)
#[export] Instance noop_Aggregator : ProducerDaemonAggregator producerDaemonNoopAggregator := {|
  ag_Write := λ msg a,
    (a, Ok [{| af_Attributes := Attributes msg; af_Body := Body msg; MessageCount := 1 |}]);
  ag_Flush := λ a, (a, Ok []);
|}.

(** ** The partitioned aggregator *)
Section Partitioned.
Local Open Scope Z_scope.
Context {A R : Type} `{!ProducerDaemonAggregator A}.
(** MD5 of a string, as a big-endian number; the state of the random numbers. *)
Context (md5Sum : string → Z) (Intn : Z → R → R * Z).

Definition AttributeKinesisPartitionKey : string := "gosoline.kinesis.partitionKey".
Definition AttributeKinesisExplicitHashKey : string := "gosoline.kinesis.explicitHashKey".

(** [big.Int.SetString(s, 10)]: an optional sign and decimal digits. *)
Definition big_SetString (s : string) : option Z :=
  let '(sign, digits) :=
    match s with
    | String "-"%char s' => (-1, s')
    | String "+"%char s' => (1, s')
    | _ => (1, s)
    end in
  if decide (digits = ""%string) then None
  else match atoi_digits digits 0 with Some n => Some (sign * n) | None => None end.

(** [pkg/stream/producer_daemon_partitioned_aggregator.go:18-23] producerDaemonPartitionedAggregator *)
Record producerDaemonPartitionedAggregator := {
  rand : R;
  buckets : list A;
  bucketCount : Z;
}.

(** [pkg/stream/producer_daemon_partitioned_aggregator.go:42-54] the explicit
    hash key of a bucket *)
Definition explicitHashKeyInt (bucketCount bucket : Z) : Z :=
  let incrementStep := (2 ^ 128 - 1) / bucketCount in
  let incrementStepHalf := incrementStep / 2 in
  bucket * incrementStep + incrementStepHalf.

(** [pkg/stream/producer_daemon_partitioned_aggregator.go:50-66] the loop that
    creates the aggregators of the buckets *)
Fixpoint createBuckets (createAggregator : gmap string string → result go_error A)
    (bucketCount : Z) (bucket n : nat) : result go_error (list A) :=
  match n with
  | O => Ok []
  | S n' =>
      match createAggregator
          {[AttributeKinesisExplicitHashKey := pretty (explicitHashKeyInt bucketCount (Z.of_nat bucket))]} with
      | Err err => Err (EWrap "failed to create aggregator for bucket" err)
      | Ok aggregator =>
          match createBuckets createAggregator bucketCount (S bucket) n' with
          | Err err => Err err
          | Ok rest => Ok (aggregator :: rest)
          end
      end
  end.

(** [pkg/stream/producer_daemon_partitioned_aggregator.go:38-74] NewProducerDaemonPartitionedAggregatorWithInterfaces *)
Definition NewProducerDaemonPartitionedAggregatorWithInterfaces (rand : R) (aggregators : nat)
    (createAggregator : gmap string string → result go_error A) :
    result panic (result go_error producerDaemonPartitionedAggregator) :=
  let bucketCount := Z.of_nat aggregators in
  if decide (bucketCount = 0) then Err DivisionByZero
  else
    Ok match createBuckets createAggregator bucketCount 0 aggregators with
       | Err err => Err err
       | Ok buckets => Ok {| rand := rand; buckets := buckets; bucketCount := bucketCount |}
       end.

(** [pkg/stream/producer_daemon_partitioned_aggregator.go:105-121] getExplicitHashKeyForMessage *)
Definition getExplicitHashKeyForMessage (msg : Message) : result go_error (option Z) :=
  match Attributes msg !! AttributeKinesisExplicitHashKey with
  | Some explicitHashKeyString =>
      match big_SetString explicitHashKeyString with
      | None => Err (EMsg "invalid explicit hash key")
      | Some explicitHashKey => Ok (Some explicitHashKey)
      end
  | None =>
      match Attributes msg !! AttributeKinesisPartitionKey with
      | Some partitionKey => Ok (Some (md5Sum partitionKey))
      | None => Ok None
      end
  end.

(** [pkg/stream/producer_daemon_partitioned_aggregator.go:77-86] the bucket of a
    message; an invalid key is logged and replaced by a random one *)
Definition bucketIndex (msg : Message) (a : producerDaemonPartitionedAggregator) : R * Z :=
  let explicitHashKey :=
    match getExplicitHashKeyForMessage msg with Ok k => k | Err _ => None end in
  match explicitHashKey with
  | Some k => (rand a, k mod bucketCount a)
  | None => Intn (Z.of_nat (length (buckets a))) (rand a)
  end.

(** [pkg/stream/producer_daemon_partitioned_aggregator.go:76-89] producerDaemonPartitionedAggregator.Write *)
Definition partitioned_Write (msg : Message) (a : producerDaemonPartitionedAggregator) :
    result panic (producerDaemonPartitionedAggregator * result go_error (list AggregateFlush)) :=
  let '(r, i) := bucketIndex msg a in
  match slice_get (buckets a) i with
  | Err p => Err p
  | Ok aggregator =>
      let '(aggregator, out) := ag_Write msg aggregator in
      Ok ({| rand := r; buckets := <[Z.to_nat i := aggregator]> (buckets a); bucketCount := bucketCount a |}, out)
  end.

(** [pkg/stream/producer_daemon_partitioned_aggregator.go:94-100] the loop of Flush *)
Fixpoint flushBuckets (bs : list A) (acc : list AggregateFlush) :
    list A * result go_error (list AggregateFlush) :=
  match bs with
  | [] => ([], Ok acc)
  | b :: rest =>
      match ag_Flush b with
      | (b, Err err) => (b :: rest, Err (EWrap "failed to flush bucket" err))
      | (b, Ok flush) =>
          let '(rest, out) := flushBuckets rest (acc ++ flush) in (b :: rest, out)
      end
  end.

(** [pkg/stream/producer_daemon_partitioned_aggregator.go:91-103] producerDaemonPartitionedAggregator.Flush *)
Definition partitioned_Flush (a : producerDaemonPartitionedAggregator) :
    producerDaemonPartitionedAggregator * result go_error (list AggregateFlush) :=
  let '(bs, out) := flushBuckets (buckets a) [] in
  ({| rand := rand a; buckets := bs; bucketCount := bucketCount a |}, out).
End Partitioned.
Arguments producerDaemonPartitionedAggregator : clear implicits.

(** ** What an aggregator promises

    [ag_inv a ms]: [a] is in a good state and holds the messages [ms];
    [ag_holds f ms]: the flush [f] is the aggregate of [ms]. *)
Class AggregatorLaws (A : Type) `{!ProducerDaemonAggregator A} := {
  ag_inv : A → list Message → Prop;
  ag_holds : AggregateFlush → list Message → Prop;
  ag_count_law f ms : ag_holds f ms → MessageCount f = Z.of_nat (length ms);
  ag_write_law m a a' ms fs :
    ag_inv a ms → ag_Write m a = (a', Ok fs) →
    ∃ mss ms', Forall2 ag_holds fs mss ∧ ag_inv a' ms' ∧ mjoin mss ++ ms' = ms ++ [m];
  ag_flush_law a a' ms fs :
    ag_inv a ms → ag_Flush a = (a', Ok fs) →
    ∃ mss, Forall2 ag_holds fs mss ∧ ag_inv a' [] ∧ mjoin mss = ms;
}.

(** Documented behaviour of gzip: what was written can be read back after Close.
    [gz_inv w p z]: the writer [w] was given [p] and has emitted [z] so far. *)
Class GzipLaws (W : Type) `{!GzipWriter W} := {
  gunzip : string → option string;
  gz_inv : W → string → string → Prop;
  gz_new_law : gz_inv gz_new "" "";
  gz_write_law w p z s w' out :
    gz_inv w p z → gz_write s w = (w', out, None) → gz_inv w' (String.append p s) (String.append z out);
  gz_close_law w p z w' out :
    gz_inv w p z → gz_close w = (w', out, None) → gunzip (String.append z out) = Some p;
}.

Section AggregatorLemmas.
Context {W : Type} `{!GzipWriter W} `{!GzipLaws W}.
Context (json_Marshal : Message → result go_error string).
Abbreviation agg := (producerDaemonAggregator W).
Implicit Types (a : agg) (ms : list Message) (encs : list string).

(** The elements of a JSON array, separated by commas. *)
Definition json_elements encs : string := String.concat "," encs.

Definition encodes ms encs : Prop := Forall2 (λ m e, json_Marshal m = Ok e) ms encs.

(** What has been written for the encoded messages. *)
Definition opened encs : string := String.append "[" (json_elements encs).

(** The text of an aggregate, as a consumer finds it through its attributes. *)
Definition aggregate_text (f : AggregateFlush) : option string :=
  match af_Attributes f !! AttributeCompression with
  | Some _ => match Base64.Decode (af_Body f) with Ok z => gunzip z | Err _ => None end
  | None => Some (af_Body f)
  end.

Definition aggregate_holds (f : AggregateFlush) ms : Prop :=
  MessageCount f = Z.of_nat (length ms) ∧
  af_Attributes f !! AttributeEncoding = Some EncodingJson ∧
  ∃ encs, encodes ms encs ∧ aggregate_text f = Some (String.append (opened encs) "]").

(** The static part of the invariant: the fields that never change. *)
Definition agg_config a : Prop :=
  attributes a !! AttributeEncoding = Some EncodingJson ∧
  ((compression a = CompressionNone ∧ encodeBase64 a = false ∧ attributes a !! AttributeCompression = None) ∨
   (compression a = CompressionGZip ∧ encodeBase64 a = true ∧
    attributes a !! AttributeCompression = Some CompressionGZip)).

(** The writer was given [plain]. *)
Definition agg_written a (plain : string) : Prop :=
  ∃ buf, buffer a = Some buf ∧
    match writer a with
    | NopCloser => encodeBase64 a = false ∧ buf = plain
    | Gzip w => encodeBase64 a = true ∧ gz_inv w plain buf
    | NilWriter => False
    end.

Definition agg_inv a ms : Prop :=
  agg_config a ∧ messageCount a = Z.of_nat (length ms) ∧
  ∃ encs, encodes ms encs ∧ agg_written a (opened encs) ∧
    uncompressedBytes a = slen (opened encs).

Definition same_config a a' : Prop :=
  compression a' = compression a ∧ attributes a' = attributes a ∧ encodeBase64 a' = encodeBase64 a ∧
  maxBytes a' = maxBytes a ∧ maxMessages a' = maxMessages a.

Lemma slen_app s t : slen (String.append s t) = (slen s + slen t)%Z.
Proof. unfold slen. rewrite string_length_app. lia. Qed.

Lemma json_elements_snoc encs e :
  json_elements (encs ++ [e]) =
  match encs with [] => e | _ => String.append (String.append (json_elements encs) ",") e end.
Proof.
  unfold json_elements. destruct encs as [|e0 encs]; [done|].
  revert e0. induction encs as [|e1 encs IH]; intros e0; [by rewrite /= string_app_assoc|].
  change (String.append e0 (String.append "," (String.concat "," ((e1 :: encs) ++ [e]))) =
    String.append (String.append (String.append e0 (String.append "," (String.concat "," (e1 :: encs)))) ",") e).
  by rewrite IH !string_app_assoc.
Qed.

Lemma agg_config_same a a' : same_config a a' → agg_config a → agg_config a'.
Proof. unfold agg_config. intros (-> & -> & -> & _). tauto. Qed.

(** A successful write extends what was written and changes nothing else. *)
Lemma writer_Write_spec p a a' plain :
  agg_written a plain → writer_Write p a = (a', None) →
  agg_written a' (String.append plain p) ∧ same_config a a' ∧
  messageCount a' = messageCount a ∧ uncompressedBytes a' = uncompressedBytes a ∧
  expectedCompressionRatio a' = expectedCompressionRatio a.
Proof.
  intros (buf & Hb & Hw). unfold writer_Write, contents. rewrite Hb. simpl.
  destruct (writer a) as [| |w] eqn:Ha; [done| |].
  - destruct Hw as [He ->]. intros [= <-]. split_and!; try done.
    exists (String.append plain p). by split.
  - destruct (gz_write p w) as [[w' out] err] eqn:Hg. destruct Hw as [He Hi].
    intros [= <- ->]. split_and!; try done.
    exists (String.append buf out). split; [done|]. split; [done|]. by eapply gz_write_law.
Qed.

Definition writer_ready a : Prop :=
  match writer a with
  | NopCloser => encodeBase64 a = false
  | Gzip _ => encodeBase64 a = true
  | NilWriter => buffer a = None
  end.

Lemma agg_written_ready a plain : agg_written a plain → writer_ready a.
Proof. unfold writer_ready. intros (buf & _ & Hw). by destruct (writer a); destruct Hw. Qed.

Lemma reset_spec a a' :
  agg_config a → writer_ready a → reset a = (a', None) →
  agg_inv a' [] ∧ same_config a a' ∧ expectedCompressionRatio a' = expectedCompressionRatio a.
Proof.
  intros Hcfg Hready. unfold reset.
  set (r := match buffer (with_counts 0 0 a) with None => _ | Some _ => _ end).
  assert (∃ a1, r = (a1, None) ∧ agg_written a1 "" ∧ same_config a a1 ∧ messageCount a1 = 0%Z ∧
    uncompressedBytes a1 = 0%Z ∧ expectedCompressionRatio a1 = expectedCompressionRatio a)
    as (a1 & -> & Hw & Hsame & Hm & Hu & Hr).
  { subst r. simpl. destruct Hcfg as [_ [(Hc & He & _)|(Hc & He & _)]]; rewrite Hc; simpl;
      destruct (buffer a) as [b|] eqn:Hb; eexists; (split; [reflexivity|]); (split; [|done]);
      exists ""; (split; [done|]); simpl; try (split; [done|]); try done; try apply gz_new_law.
    unfold writer_ready in Hready. destruct (writer a); simpl; congruence || by split. }
  destruct (writer_Write "[" a1) as [a2 err] eqn:Hw1. intros [= <- ->].
  apply (writer_Write_spec _ _ _ "") in Hw1 as (Hw2 & Hsame2 & Hm2 & Hu2 & Hr2); [|done].
  assert (same_config a a2) as Hsame'.
  { destruct Hsame as (? & ? & ? & ? & ?), Hsame2 as (? & ? & ? & ? & ?). by split_and!; etrans. }
  split_and!; [split_and!|done|by rewrite /= Hr2].
  - by eapply agg_config_same.
  - simpl. by rewrite Hm2 Hm.
  - exists []. split; [constructor|]. split; [done|]. simpl. by rewrite Hu2 Hu.
Qed.

Lemma same_config_trans a1 a2 a3 : same_config a1 a2 → same_config a2 a3 → same_config a1 a3.
Proof. intros (? & ? & ? & ? & ?) (? & ? & ? & ? & ?). by split_and!; etrans. Qed.

Lemma opened_snoc encs e :
  opened (encs ++ [e]) =
  match encs with
  | [] => String.append (opened encs) e
  | _ => String.append (String.append (opened encs) ",") e
  end.
Proof.
  unfold opened. rewrite json_elements_snoc. destruct encs; [done|]. by rewrite !string_app_assoc.
Qed.

(** Writing an encoded message appends it to the array. *)
Lemma write_spec m e a a' ms :
  agg_inv a ms → json_Marshal m = Ok e → write e a = (a', None) →
  agg_inv a' (ms ++ [m]) ∧ same_config a a' ∧ expectedCompressionRatio a' = expectedCompressionRatio a.
Proof.
  intros (Hcfg & Hm & encs & Henc & Hw & Hu) He. unfold write.
  set (sep := if (0 <? messageCount a)%Z then _ else _).
  assert (∀ a1, sep = (a1, None) → ∃ plain, agg_written a1 plain ∧ opened (encs ++ [e]) = String.append plain e ∧
    uncompressedBytes a1 = slen plain ∧ same_config a a1 ∧ messageCount a1 = messageCount a ∧
    expectedCompressionRatio a1 = expectedCompressionRatio a) as Hsep.
  { subst sep. intros a1. rewrite Hm. pose proof (Forall2_length _ _ _ Henc) as Hlen.
    destruct (Z.ltb_spec 0 (Z.of_nat (length ms))) as [Hpos|Hpos].
    - destruct (writer_Write "," a) as [a0 [err|]] eqn:Hw0; [done|]. intros [= <-].
      apply (writer_Write_spec _ _ _ _ Hw) in Hw0 as (Hw0 & Hs0 & Hm0 & Hu0 & Hr0).
      exists (String.append (opened encs) ","). split_and!; try done.
      + rewrite opened_snoc. destruct encs; [simpl in Hlen; lia|done].
      + cbn [uncompressedBytes with_counts]. by rewrite slen_app Hu0 Hu.
      + simpl. by rewrite Hm0.
    - intros [= <-]. exists (opened encs). split_and!; try done.
      rewrite opened_snoc. destruct encs; [done|simpl in Hlen; lia]. }
  clearbody sep. destruct sep as [a1 [err|]]; [done|].
  destruct (Hsep a1 eq_refl) as (plain & Hw1 & Ho & Hu1 & Hs1 & Hm1 & Hr1).
  destruct (writer_Write e a1) as [a2 [err|]] eqn:Hw2; [done|]. intros [= <-].
  apply (writer_Write_spec _ _ _ _ Hw1) in Hw2 as (Hw2 & Hs2 & Hm2 & Hu2 & Hr2).
  assert (same_config a a2) as Hs by (by eapply same_config_trans).
  split_and!; [split_and!| |].
  - by eapply agg_config_same.
  - simpl. rewrite Hm2 Hm1 Hm length_app /=. lia.
  - exists (encs ++ [e]). split; [by apply Forall2_app; [|constructor]|]. rewrite Ho.
    split; [done|]. cbn [uncompressedBytes with_counts]. by rewrite slen_app Hu2 Hu1.
  - done.
  - simpl. by rewrite Hr2.
Qed.

Lemma writer_Close_spec a a' plain :
  agg_written a plain → writer_Close a = (a', None) →
  same_config a a' ∧ messageCount a' = messageCount a ∧ uncompressedBytes a' = uncompressedBytes a ∧
  expectedCompressionRatio a' = expectedCompressionRatio a ∧ writer_ready a' ∧
  (if encodeBase64 a then gunzip (contents a') = Some plain else contents a' = plain).
Proof.
  intros (buf & Hb & Hw). unfold writer_Close, writer_ready, contents.
  destruct (writer a) as [| |w] eqn:Ha; [done| |].
  - destruct Hw as [He ->]. intros [= <-]. rewrite Ha He Hb. by split_and!.
  - destruct (gz_close w) as [[w' out] err] eqn:Hg. destruct Hw as [He Hi].
    intros [= <- ->]. rewrite Hb He. split_and!; try done. by eapply gz_close_law.
Qed.

(** Flushing empties the aggregator and returns the aggregate of what it held. *)
Lemma Flush_spec a a' ms fs :
  agg_inv a ms → Flush a = (a', Ok fs) →
  ∃ f encs, fs = [f] ∧ aggregate_holds f ms ∧ agg_inv a' [] ∧ same_config a a' ∧
    encodes ms encs ∧ (encodeBase64 a = false → af_Body f = String.append (opened encs) "]") ∧
    (encodeBase64 a = false → expectedCompressionRatio a = f32_one → expectedCompressionRatio a' = f32_one).
Proof.
  intros (Hcfg & Hm & encs & Henc & Hw & Hu). unfold Flush.
  destruct (writer_Write "]" a) as [a1 [err|]] eqn:Hw1; [done|].
  apply (writer_Write_spec _ _ _ _ Hw) in Hw1 as (Hw1 & Hs1 & Hm1 & Hu1 & Hr1).
  set (plain := String.append (opened encs) "]") in *.
  set (a1' := with_counts (messageCount a1) (uncompressedBytes a1 + 1) a1).
  assert (agg_written a1' plain) as Hw1' by done.
  assert (uncompressedBytes a1' = slen plain) as Hu1'.
  { subst a1' plain. cbn [uncompressedBytes with_counts]. by rewrite slen_app Hu1 Hu. }
  assert (same_config a a1') as Hs1' by done.
  assert (messageCount a1' = Z.of_nat (length ms)) as Hm1' by (by rewrite /= Hm1 Hm).
  assert (expectedCompressionRatio a1' = expectedCompressionRatio a) as Hr1' by done.
  clearbody a1'. clear a1 Hw1 Hs1 Hm1 Hu1 Hr1.
  destruct (writer_Close a1') as [a2 [err|]] eqn:Hw2; [done|].
  apply (writer_Close_spec _ _ _ Hw1') in Hw2 as (Hs2 & Hm2 & Hu2 & Hr2 & Hready & Hcont).
  assert (same_config a a2) as Hs by (by eapply same_config_trans).
  assert (encodeBase64 a2 = encodeBase64 a) as He by (by destruct Hs as (? & ? & ? & _)).
  assert (encodeBase64 a1' = encodeBase64 a) as He1 by (by destruct Hs1' as (? & ? & ? & _)).
  rewrite He1 in Hcont.
  set (body := if encodeBase64 a2 then _ else _). set (a3 := if (0 <? messageCount a2)%Z then _ else _).
  assert (same_config a a3 ∧ writer_ready a3 ∧
    (encodeBase64 a = false → expectedCompressionRatio a = f32_one → expectedCompressionRatio a3 = f32_one))
    as (Hs3 & Hready3 & Hr3).
  { subst a3. destruct (0 <? messageCount a2)%Z; split_and!; try done; intros Hf Hone.
    - simpl. subst body. rewrite He Hf. rewrite Hf in Hcont. rewrite Hcont Hu2 Hu1'.
      apply f32_div_self, f32_of_int_pos. unfold plain, opened, slen. simpl. lia.
    - by rewrite Hr2 Hr1'. }
  clearbody a3. destruct (reset a3) as [a4 [err|]] eqn:Hreset; [done|].
  apply reset_spec in Hreset as (Hinv & Hs4 & Hr4); [|by eapply agg_config_same|done].
  assert (attributes a4 = attributes a) as Hat.
  { destruct Hs3 as (_ & Hx & _), Hs4 as (_ & Hy & _). by rewrite Hy Hx. }
  intros [= <- <-]. eexists _, encs. split; [reflexivity|]. split_and!; try done.
  - unfold aggregate_holds, aggregate_text. cbn [MessageCount af_Attributes af_Body].
    rewrite Hat. unfold copy_attributes. destruct Hcfg as [Henccfg Hcomp].
    split_and!; [by rewrite Hm2|by apply lookup_union_Some_l|].
    exists encs. split; [done|]. destruct Hcomp as [(_ & Hf & Hnone)|(_ & Hf & Hsome)].
    + rewrite lookup_union_r // lookup_singleton_ne //. subst body. rewrite He Hf.
      rewrite Hf in Hcont. by rewrite Hcont.
    + rewrite (lookup_union_Some_l _ _ _ _ Hsome). subst body. rewrite He Hf.
      rewrite Hf in Hcont. change (EncodeToString (contents a2)) with (Base64.Encode (contents a2)).
      by rewrite Decode_Encode.
  - by eapply same_config_trans.
  - intros Hf. simpl. subst body. rewrite He Hf. rewrite Hf in Hcont. done.
  - intros Hf Hone. by rewrite Hr4 Hr3.
Qed.

(** The state between two calls: below the limits. *)
Definition agg_bounded a : Prop :=
  (1 ≤ maxMessages a → messageCount a < maxMessages a)%Z ∧
  (0 < messageCount a → maxBytes a ≠ 0 → getCurrentSize 0 a < maxBytes a)%Z.

(** The two decisions of Write. *)
Definition flush_before e a : bool :=
  (0 <? messageCount a)%Z && negb (maxBytes a =? 0)%Z
  && (maxBytes a <=? getCurrentSize (f32_to_int (f32_mul (f32_of_int (slen e)) (expectedCompressionRatio a))) a)%Z.

Definition flush_after a : bool :=
  (maxMessages a <=? messageCount a)%Z || (negb (maxBytes a =? 0)%Z && (maxBytes a <=? getCurrentSize 0 a)%Z).

(** A successful Write flushes what is there if the message would not fit, writes
    the message, and flushes again if a limit is reached. *)
Lemma Write_inv m a a' ms fs :
  agg_inv a ms → Write json_Marshal m a = (a', Ok fs) →
  ∃ e a1 ms1 fs1 a2 fs2,
    json_Marshal m = Ok e ∧ fs = fs1 ++ fs2 ∧
    (if flush_before e a then Flush a = (a1, Ok fs1) ∧ ms1 = [] else a1 = a ∧ fs1 = [] ∧ ms1 = ms) ∧
    agg_inv a1 ms1 ∧ same_config a a1 ∧
    agg_inv a2 (ms1 ++ [m]) ∧ same_config a1 a2 ∧ write e a1 = (a2, None) ∧
    (if flush_after a2 then Flush a2 = (a', Ok fs2) else a' = a2 ∧ fs2 = []).
Proof.
  intros Hinv. unfold Write. destruct (json_Marshal m) as [e|] eqn:He; [|done].
  fold (flush_before e a). set (first := if flush_before e a then _ else _).
  assert (∀ a1 fs1, first = (a1, Ok fs1) → ∃ ms1,
    (if flush_before e a then Flush a = (a1, Ok fs1) ∧ ms1 = [] else a1 = a ∧ fs1 = [] ∧ ms1 = ms) ∧
    agg_inv a1 ms1 ∧ same_config a a1) as Hfirst.
  { subst first. intros a1 fs1. destruct (flush_before e a).
    - intros Hf. exists []. destruct (Flush_spec _ _ _ _ Hinv Hf) as (f & encs & _ & _ & ? & ? & _). done.
    - intros [= <- <-]. by exists ms. }
  clearbody first. destruct first as [a1 [fs1|]]; [|done].
  destruct (Hfirst a1 fs1 eq_refl) as (ms1 & Hf1 & Hinv1 & Hs1).
  destruct (write e a1) as [a2 [err|]] eqn:Hw; [done|].
  destruct (write_spec _ _ _ _ _ Hinv1 He Hw) as (Hinv2 & Hs2 & _).
  fold (flush_after a2). intros Hout.
  assert (∃ fs2, fs = fs1 ++ fs2 ∧ if flush_after a2 then Flush a2 = (a', Ok fs2) else a' = a2 ∧ fs2 = [])
    as (fs2 & -> & Hf2).
  { destruct (flush_after a2).
    - destruct (Flush a2) as [a3 [fl|]]; [|done]. simplify_eq. by exists fl.
    - simplify_eq. exists []. by rewrite app_nil_r. }
  by exists e, a1, ms1, fs1, a2, fs2.
Qed.

Lemma Write_spec m a a' ms fs :
  agg_inv a ms → Write json_Marshal m a = (a', Ok fs) →
  ∃ mss ms', Forall2 aggregate_holds fs mss ∧ agg_inv a' ms' ∧ mjoin mss ++ ms' = ms ++ [m].
Proof.
  intros Hinv Hw. destruct (Write_inv _ _ _ _ _ Hinv Hw)
    as (e & a1 & ms1 & fs1 & a2 & fs2 & _ & -> & H1 & _ & _ & Hinv2 & _ & _ & H2).
  assert (∃ mss1, Forall2 aggregate_holds fs1 mss1 ∧ mjoin mss1 ++ ms1 = ms) as (mss1 & Hh1 & Hj1).
  { destruct (flush_before e a).
    - destruct H1 as [Hf ->]. destruct (Flush_spec _ _ _ _ Hinv Hf) as (f & encs & -> & Hh & _).
      exists [ms]. split; [by apply Forall2_cons|]. by rewrite /= !app_nil_r.
    - destruct H1 as (_ & -> & ->). exists []. by split; [constructor|]. }
  destruct (flush_after a2).
  - destruct (Flush_spec _ _ _ _ Hinv2 H2) as (f & encs & -> & Hh & Hinv' & _).
    exists (mss1 ++ [ms1 ++ [m]]), []. split_and!; [|done|].
    + apply Forall2_app; [done|]. by apply Forall2_cons.
    + rewrite join_app /= !app_nil_r app_assoc. by rewrite Hj1.
  - destruct H2 as [-> ->]. exists mss1, (ms1 ++ [m]). rewrite app_nil_r. split_and!; [done|done|].
    by rewrite app_assoc Hj1.
Qed.

Lemma Flush_ratio a a' ms fs :
  agg_inv a ms → Flush a = (a', Ok fs) → encodeBase64 a = false →
  expectedCompressionRatio a = f32_one → expectedCompressionRatio a' = f32_one.
Proof. intros Hi Hf. by destruct (Flush_spec _ _ _ _ Hi Hf) as (_ & _ & _ & _ & _ & _ & _ & _ & ?). Qed.

(** The body of a flush without compression, and its message count. *)
Lemma Flush_body a a' ms fs f :
  agg_inv a ms → Flush a = (a', Ok fs) → f ∈ fs →
  MessageCount f = messageCount a ∧ (encodeBase64 a = false → slen (af_Body f) = (slen (contents a) + 1)%Z).
Proof.
  intros Hi Hf. destruct (Flush_spec _ _ _ _ Hi Hf) as (g & encs & -> & Hh & _ & _ & Henc & Hb & _).
  intros ->%list_elem_of_singleton. destruct Hi as (_ & Hm & encs' & Henc' & (buf & Hbuf & Hw) & _).
  assert (encs' = encs) as ->.
  { clear -Henc Henc'. revert encs Henc. induction Henc' as [|m x ms l Hx _ IH]; intros encs Henc.
    - by inversion Henc.
    - inversion Henc as [|? y ? l' Hy Hl]. subst. rewrite Hx in Hy. simplify_eq. f_equal. by apply IH. }
  split; [by destruct Hh as [-> _]|]. intros He. rewrite Hb // slen_app. unfold contents. rewrite Hbuf.
  destruct (writer a); [done| |]; destruct Hw as [He' Hw]; [by subst|congruence].
Qed.

Lemma write_contents e a a' ms :
  agg_inv a ms → encodeBase64 a = false → write e a = (a', None) →
  slen (contents a') = (slen (contents a) + (if (0 <? messageCount a)%Z then 1 else 0) + slen e)%Z ∧
  messageCount a' = (messageCount a + 1)%Z.
Proof.
  intros (_ & _ & encs & _ & (buf & Hb & Hw) & _) He. unfold write, writer_Write.
  destruct (writer a) as [| |w] eqn:Ha; [done| |destruct Hw; congruence].
  destruct (0 <? messageCount a)%Z; simpl; rewrite ?Ha; intros [= <-]; unfold contents; simpl;
    rewrite Hb /= !slen_app; split; [change (slen ",") with 1%Z| | |]; lia.
Qed.

Lemma bounded_after a : flush_after a = false → agg_bounded a.
Proof.
  unfold flush_after, agg_bounded. intros [Hm Hb]%orb_false_iff. split; [lia|].
  intros _ Hne. apply andb_false_iff in Hb as [Hb|Hb]; [|lia].
  apply negb_false_iff, Z.eqb_eq in Hb. done.
Qed.

Lemma bounded_empty a : agg_inv a [] → agg_bounded a.
Proof. intros (_ & Hm & _). unfold agg_bounded. rewrite Hm /=. split; lia. Qed.

(** What the limits mean for the flushes of one call. *)
Definition within_limits a (f : AggregateFlush) : Prop :=
  (1 ≤ maxMessages a → MessageCount f ≤ maxMessages a)%Z ∧
  (encodeBase64 a = false → 0 < maxBytes a → 1 < MessageCount f → slen (af_Body f) ≤ maxBytes a)%Z.

Lemma within_limits_same a a' f : same_config a a' → within_limits a f → within_limits a' f.
Proof. unfold within_limits. intros (_ & _ & -> & -> & ->). done. Qed.

Lemma Flush_limits a a' ms fs :
  agg_inv a ms → agg_bounded a → Flush a = (a', Ok fs) → Forall (within_limits a) fs.
Proof.
  intros Hi [Hm Hb] Hf. apply Forall_forall. intros f Hin.
  destruct (Flush_body _ _ _ _ _ Hi Hf Hin) as [Hcount Hbody]. unfold within_limits. rewrite Hcount.
  split; [lia|]. intros He Hpos Hone. rewrite Hbody //.
  unfold getCurrentSize in Hb. rewrite He in Hb. lia.
Qed.

(** Without compression the expected size of a message below 2^24 bytes is its
    size, and no aggregate of several messages exceeds the limit. *)
Lemma Write_limits m a a' ms fs :
  agg_inv a ms → agg_bounded a → Write json_Marshal m a = (a', Ok fs) →
  (encodeBase64 a = false → expectedCompressionRatio a = f32_one) →
  (encodeBase64 a = false → ∀ e, json_Marshal m = Ok e → slen e < 2 ^ 24)%Z →
  agg_bounded a' ∧ same_config a a' ∧ Forall (within_limits a) fs ∧
  (encodeBase64 a = false → expectedCompressionRatio a' = f32_one).
Proof.
  intros Hinv Hbound Hw Hone Hsmall. destruct (Write_inv _ _ _ _ _ Hinv Hw)
    as (e & a1 & ms1 & fs1 & a2 & fs2 & He & -> & H1 & Hinv1 & Hs1 & Hinv2 & Hs2 & Hwr & H2).
  assert (same_config a a2) as Hs by (by eapply same_config_trans).
  destruct (write_spec _ _ _ _ _ Hinv1 He Hwr) as (_ & _ & Hr2).
  assert (Forall (within_limits a) fs1) as Hl1.
  { destruct (flush_before e a); [|by destruct H1 as (_ & -> & _)]. by eapply Flush_limits, H1. }
  assert (encodeBase64 a = false → expectedCompressionRatio a2 = f32_one) as Hone2.
  { intros Hf. rewrite Hr2. destruct (flush_before e a); [|destruct H1 as (-> & _); by apply Hone].
    eapply Flush_ratio, Hone; [exact Hinv|apply H1|done..]. }
  destruct (flush_after a2) eqn:Hafter.
  2:{ destruct H2 as [-> ->]. rewrite app_nil_r. split_and!; try done. by apply bounded_after. }
  destruct (Flush_spec _ _ _ _ Hinv2 H2) as (f & _ & -> & _ & Hinv' & Hs' & _).
  split_and!.
  - by apply bounded_empty.
  - by eapply same_config_trans.
  - apply Forall_app. split; [done|]. apply Forall_singleton.
    destruct (Flush_body _ _ _ _ f Hinv2 H2) as [Hcount Hbody]; [by left|].
    destruct Hinv1 as (Hcfg1 & Hm1 & Hrest1). destruct Hinv2 as (_ & Hm2 & _).
    rewrite length_app Nat2Z.inj_add -Hm1 /= in Hm2. split.
    + intros Hmax. rewrite Hcount Hm2. destruct (flush_before e a).
      * destruct H1 as [_ ->]. simpl in Hm1. lia.
      * destruct H1 as (-> & _ & _). destruct Hbound as [Hb _]. lia.
    + intros Hf Hpos Hone1. assert (encodeBase64 a1 = false) as Hf1.
      { destruct Hs1 as (_ & _ & Hx & _). congruence. }
      assert (encodeBase64 a2 = false) as Hf2 by (destruct Hs as (_ & _ & Hx & _); congruence).
      rewrite Hbody //. destruct (write_contents e a1 a2 ms1) as [-> _]; [done..|].
      rewrite Hcount Hm2 in Hone1. destruct (Z.ltb_spec 0 (messageCount a1)); [|lia].
      destruct (flush_before e a) eqn:Hbefore.
      { destruct H1 as [_ ->]. simpl in Hm1. lia. }
      destruct H1 as (-> & _ & _). unfold flush_before in Hbefore.
      rewrite Hone // f32_mul_one in Hbefore; [by split; [unfold slen; lia|apply Hsmall]|].
      unfold getCurrentSize in Hbefore. rewrite Hf in Hbefore.
      apply andb_false_iff in Hbefore as [Hbefore|?]; [|lia].
      apply andb_false_iff in Hbefore as [?|Hb]; [lia|].
      apply negb_false_iff, Z.eqb_eq in Hb. lia.
  - intros Hf. eapply Flush_ratio; [exact Hinv2|exact H2| |by apply Hone2].
    destruct Hs as (_ & _ & Hx & _). congruence.
Qed.

#[export] Program Instance producerDaemonAggregator_laws :
  AggregatorLaws (ProducerDaemonAggregator0 := producerDaemonAggregator_Aggregator json_Marshal) agg := {|
  ag_inv := agg_inv;
  ag_holds := aggregate_holds;
|}.
Next Obligation. intros f ms [Hc _]. done. Qed.
Next Obligation. intros m a a' ms fs Hinv Hw. by eapply Write_spec. Qed.
Next Obligation.
  intros a a' ms fs Hinv Hf. destruct (Flush_spec _ _ _ _ Hinv Hf) as (f & encs & -> & Hh & Hinv' & _).
  exists [ms]. split_and!; [by apply Forall2_cons|done|]. by rewrite /= app_nil_r.
Qed.

(** No attribute set overrides what the aggregator says about its encoding. *)
Definition plain_sets (sets : list (gmap string string)) : Prop :=
  ∀ set, set ∈ sets → set !! AttributeEncoding = None ∧ set !! AttributeCompression = None.

Lemma copy_all_other k sets (a : gmap string string) :
  (∀ set, set ∈ sets → set !! k = None) →
  fold_left (λ acc attrs, copy_attributes attrs acc) sets a !! k = a !! k.
Proof.
  revert a. induction sets as [|set sets IH]; intros a Hsets; [done|]. simpl.
  rewrite IH; [intros; apply Hsets; by right|]. unfold copy_attributes.
  rewrite lookup_union_r //. apply Hsets. by left.
Qed.

Lemma New_spec settings c sets a :
  plain_sets sets → NewProducerDaemonAggregator settings c sets = Ok a →
  agg_inv a [] ∧ expectedCompressionRatio a = f32_one ∧ maxMessages a = AggregationSize settings ∧
  (encodeBase64 a = false ↔ c = CompressionNone) ∧
  (c = CompressionNone → maxBytes a = AggregationMaxSize settings).
Proof.
  intros Hsets. unfold NewProducerDaemonAggregator.
  set (attrs := fold_left _ sets _).
  assert (attrs !! AttributeEncoding = Some EncodingJson) as He.
  { unfold attrs. rewrite copy_all_other; [intros set Hin; by apply Hsets|done]. }
  assert (attrs !! AttributeCompression = None) as Hc.
  { unfold attrs. rewrite copy_all_other; [intros set Hin; by apply Hsets|done]. }
  clearbody attrs. case_decide as Hgz; [|case_decide as Hnone; [|done]]; subst c.
  - destruct (reset _) as [a1 [err|]] eqn:Hr; [done|]. intros [= <-].
    apply reset_spec in Hr as (Hinv & (_ & _ & Hf & _ & Hmax) & Hr1).
    + split_and!; try done; by rewrite Hf.
    + split; [by rewrite lookup_insert_ne|]. right. split_and!; [done|done|by rewrite lookup_insert_eq].
    + done.
  - destruct (reset _) as [a1 [err|]] eqn:Hr; [done|]. intros [= <-].
    apply reset_spec in Hr as (Hinv & (_ & _ & Hf & Hb & Hmax) & Hr1).
    + split_and!; try done; by rewrite Hf.
    + split; [done|]. left. by split_and!.
    + done.
Qed.

(** The runs of an aggregator: the messages written so far and what it flushed. *)
Inductive agg_run (settings : ProducerDaemonSettings) (c : string) (sets : list (gmap string string)) :
    agg → list Message → list AggregateFlush → Prop :=
| run_new a : NewProducerDaemonAggregator settings c sets = Ok a → agg_run settings c sets a [] []
| run_write a a' m ms fs fs' :
    agg_run settings c sets a ms fs → Write json_Marshal m a = (a', Ok fs') →
    agg_run settings c sets a' (ms ++ [m]) (fs ++ fs')
| run_flush a a' ms fs fs' :
    agg_run settings c sets a ms fs → Flush a = (a', Ok fs') → agg_run settings c sets a' ms (fs ++ fs').

Lemma agg_run_inv settings c sets a ms fs :
  plain_sets sets → agg_run settings c sets a ms fs →
  ∃ mss pending, Forall2 aggregate_holds fs mss ∧ agg_inv a pending ∧ mjoin mss ++ pending = ms.
Proof.
  intros Hsets. induction 1 as [a Hnew|a a' m ms fs fs' _ IH Hw|a a' ms fs fs' _ IH Hf].
  - apply New_spec in Hnew as [Hinv _]; [|done]. exists [], []. split_and!; [constructor|done|done].
  - destruct IH as (mss & pending & Hh & Hinv & <-).
    destruct (Write_spec _ _ _ _ _ Hinv Hw) as (mss' & pending' & Hh' & Hinv' & Hj).
    exists (mss ++ mss'), pending'. split_and!; [by apply Forall2_app|done|].
    by rewrite join_app -!app_assoc Hj.
  - destruct IH as (mss & pending & Hh & Hinv & <-).
    destruct (Flush_spec _ _ _ _ Hinv Hf) as (f & encs & -> & Hh' & Hinv' & _).
    exists (mss ++ [pending]), []. split_and!; [|done|].
    + apply Forall2_app; [done|]. by apply Forall2_cons.
    + by rewrite join_app /= !app_nil_r.
Qed.

Lemma agg_run_limits settings c sets a ms fs :
  plain_sets sets →
  (c = CompressionNone → ∀ m e, json_Marshal m = Ok e → slen e < 2 ^ 24)%Z →
  agg_run settings c sets a ms fs →
  ∃ a0, NewProducerDaemonAggregator settings c sets = Ok a0 ∧ same_config a0 a ∧ agg_bounded a ∧
    Forall (within_limits a0) fs ∧ (encodeBase64 a = false → expectedCompressionRatio a = f32_one).
Proof.
  intros Hsets Hsmall. induction 1 as [a Hnew|a a' m ms fs fs' Hrun IH Hw|a a' ms fs fs' Hrun IH Hf].
  - exists a. destruct (New_spec _ _ _ _ Hsets Hnew) as (Hinv & Hr & _).
    split_and!; [done|done|by apply bounded_empty|constructor|done].
  - destruct IH as (a0 & Hnew & Hs & Hb & Hl & Hr). exists a0.
    destruct (agg_run_inv _ _ _ _ _ _ Hsets Hrun) as (_ & pending & _ & Hinv & _).
    destruct (New_spec _ _ _ _ Hsets Hnew) as (_ & _ & _ & Hc & _).
    destruct (Write_limits _ _ _ _ _ Hinv Hb Hw) as (Hb' & Hs' & Hl' & Hr'); [done| |].
    { intros Hf. apply Hsmall. apply Hc. destruct Hs as (_ & _ & Hx & _). congruence. }
    split_and!; [done|by eapply same_config_trans|done| |].
    + apply Forall_app. split; [done|]. eapply Forall_impl; [exact Hl'|]. intros f.
      destruct Hs as (_ & _ & H3 & H4 & H5). unfold within_limits. by rewrite H3 H4 H5.
    + intros Hf. apply Hr'. destruct Hs' as (_ & _ & Hx & _). congruence.
  - destruct IH as (a0 & Hnew & Hs & Hb & Hl & Hr). exists a0.
    destruct (agg_run_inv _ _ _ _ _ _ Hsets Hrun) as (_ & pending & _ & Hinv & _).
    pose proof (Flush_limits _ _ _ _ Hinv Hb Hf) as Hl'.
    destruct (Flush_spec _ _ _ _ Hinv Hf) as (f & encs & _ & _ & Hinv' & Hs' & _ & _ & Hr').
    split_and!; [done|by eapply same_config_trans|by apply bounded_empty| |].
    + apply Forall_app. split; [done|]. eapply Forall_impl; [exact Hl'|]. intros g.
      destruct Hs as (_ & _ & H3 & H4 & H5). unfold within_limits. by rewrite H3 H4 H5.
    + intros He. assert (encodeBase64 a = false) as He'.
      { destruct Hs' as (_ & _ & Hx & _). congruence. }
      apply Hr'; [done|by apply Hr].
Qed.
End AggregatorLemmas.

(** The forwarding aggregator holds nothing back. *)
#[export] Program Instance noop_laws : AggregatorLaws producerDaemonNoopAggregator := {|
  ag_inv := λ _ ms, ms = [];
  ag_holds := λ f ms, ∃ m, ms = [m] ∧ af_Body f = Body m ∧ af_Attributes f = Attributes m ∧ MessageCount f = 1%Z;
|}.
Next Obligation. by intros f ms (m & -> & _ & _ & ->). Qed.
Next Obligation.
  intros m a a' ms fs; simpl. intros -> Heq. simplify_eq. exists [[m]], []. split_and!; [|done|done].
  apply Forall2_cons. split; [by exists m|constructor].
Qed.
Next Obligation. intros a a' ms fs; simpl. intros -> Heq. simplify_eq. exists []. by split_and!; [constructor|..]. Qed.

(** ** The partitioned aggregator *)
Section PartitionedLemmas.
Context {A R : Type} `{!ProducerDaemonAggregator A, !AggregatorLaws A}.
Context (md5Sum : string → Z) (Intn : Z → R → R * Z).
Abbreviation pagg := (producerDaemonPartitionedAggregator A R).

(** The buckets hold the messages [mss]. *)
Definition partitioned_inv (a : pagg) (mss : list (list Message)) : Prop :=
  bucketCount a = Z.of_nat (length (buckets a)) ∧ (0 < bucketCount a)%Z ∧ Forall2 ag_inv (buckets a) mss.

Lemma bucketIndex_range msg (a : pagg) :
  (∀ n r, 0 < n → 0 ≤ (Intn n r).2 < n)%Z →
  bucketCount a = Z.of_nat (length (buckets a)) → (0 < bucketCount a)%Z →
  (0 ≤ (bucketIndex md5Sum Intn msg a).2 < bucketCount a)%Z.
Proof.
  intros Hr Hc Hpos. unfold bucketIndex.
  destruct (match getExplicitHashKeyForMessage md5Sum msg with Ok k => k | Err _ => None end) as [k|]; simpl.
  - by apply Z.mod_pos_bound.
  - rewrite Hc. apply Hr. lia.
Qed.

Lemma flushBuckets_spec bs mss acc bs' fs :
  Forall2 ag_inv bs mss → flushBuckets bs acc = (bs', Ok fs) →
  ∃ fs' flushed, fs = acc ++ fs' ∧ Forall2 ag_holds fs' flushed ∧ mjoin flushed = mjoin mss ∧
    Forall2 ag_inv bs' (replicate (length bs) []) ∧ length bs' = length bs.
Proof.
  intros Hinv. revert acc bs' fs. induction Hinv as [|b ms bs mss Hb Hbs IH]; intros acc bs' fs; simpl.
  { intros [= <- <-]. exists [], []. by rewrite app_nil_r. }
  destruct (ag_Flush b) as [b1 [fl|]] eqn:Hf; [|done].
  apply (ag_flush_law _ _ _ _ Hb) in Hf as (fd & Hh & Hb1 & Hj).
  destruct (flushBuckets bs (acc ++ fl)) as [bs1 [out|]] eqn:Hrest; [|done]. intros [= <- <-].
  apply IH in Hrest as (fs' & flushed & -> & Hh' & Hj' & Hbs' & Hlen).
  exists (fl ++ fs'), (fd ++ flushed). rewrite app_assoc. split_and!; [done|by apply Forall2_app| | |].
  - rewrite join_app Hj Hj'. done.
  - by apply Forall2_cons.
  - simpl. by rewrite Hlen.
Qed.

Lemma createBuckets_lookup (create : gmap string string → result go_error A) count b n bs i :
  createBuckets create count b n = Ok bs → i < n →
  ∃ x, bs !! i = Some x ∧
    create {[AttributeKinesisExplicitHashKey := pretty (explicitHashKeyInt count (Z.of_nat (b + i)))]} = Ok x.
Proof.
  revert b bs i. induction n as [|n IH]; intros b bs i; simpl; [lia|].
  destruct (create _) as [x|] eqn:Hx; [|done].
  destruct (createBuckets create count (S b) n) as [rest|] eqn:Hr; [|done]. intros [= <-] Hi.
  destruct i as [|i]; [exists x; by rewrite Nat.add_0_r|].
  destruct (IH (S b) rest i Hr) as (y & Hy & Hc); [lia|]. exists y. split; [done|].
  by rewrite Nat.add_succ_r.
Qed.

Lemma explicitHashKeyInt_bounds n i :
  (0 < n < 2 ^ 64)%Z → (0 ≤ i < n)%Z →
  let step := ((2 ^ 128 - 1) / n)%Z in
  (0 < step ∧ i * step ≤ explicitHashKeyInt n i < (i + 1) * step ∧ (i + 1) * step < 2 ^ 128)%Z.
Proof.
  intros Hn Hi. cbv zeta. unfold explicitHashKeyInt. set (step := ((2 ^ 128 - 1) / n)%Z).
  assert (0 < step)%Z as Hs.
  { apply Z.div_str_pos. split; [lia|]. assert (2 ^ 64 < 2 ^ 128)%Z by (by apply Z.pow_lt_mono_r). lia. }
  assert (n * step ≤ 2 ^ 128 - 1)%Z as Hle by (apply Z.mul_div_le; lia).
  pose proof (Z.div_pos step 2 ltac:(lia) ltac:(lia)).
  assert (step / 2 < step)%Z by (apply Z.div_lt; lia). nia.
Qed.
End PartitionedLemmas.

(** ** Properties *)
Section Properties.
Context {W : Type} `{!GzipWriter W, !GzipLaws W} (json_Marshal : Message → result go_error string).
Context (settings : ProducerDaemonSettings) (c : string) (sets : list (gmap string string)).

(** C13: however many messages are written and flushed, every message is in
    exactly one aggregate or still in the aggregator, in the order written; an
    aggregate says how many messages it holds, and the text a consumer gets by
    its attributes is the JSON array of the encoded messages. *)
Theorem aggregator_conserves_messages (a : producerDaemonAggregator W) ms fs :
  plain_sets sets → agg_run json_Marshal settings c sets a ms fs →
  ∃ mss pending, mjoin mss ++ pending = ms ∧
    Forall2 (λ f group, MessageCount f = Z.of_nat (length group) ∧
      ∃ encs, Forall2 (λ m e, json_Marshal m = Ok e) group encs ∧
        aggregate_text f = Some (String.append (String.append "[" (String.concat "," encs)) "]")) fs mss ∧
    messageCount a = Z.of_nat (length pending).
Proof.
  intros Hsets Hrun. destruct (agg_run_inv _ _ _ _ _ _ _ Hsets Hrun) as (mss & pending & Hh & Hinv & Hj).
  exists mss, pending. split_and!; [done| |by destruct Hinv as (_ & -> & _)].
  eapply Forall2_impl; [exact Hh|]. intros f group (Hc & _ & encs & He & Ht). split; [done|]. by exists encs.
Qed.

(** C14: no aggregate holds more messages than the aggregation size, and without
    compression no aggregate of several messages is larger than the maximum size,
    as long as the encoded messages are below 2^24 bytes, where float32 is exact. *)
Theorem aggregator_respects_limits (a : producerDaemonAggregator W) ms fs :
  plain_sets sets → (1 ≤ AggregationSize settings)%Z →
  (c = CompressionNone → ∀ m e, json_Marshal m = Ok e → slen e < 2 ^ 24)%Z →
  agg_run json_Marshal settings c sets a ms fs →
  (messageCount a < AggregationSize settings)%Z ∧
  ∀ f, f ∈ fs →
    (MessageCount f ≤ AggregationSize settings)%Z ∧
    (c = CompressionNone → 0 < AggregationMaxSize settings → 1 < MessageCount f →
     slen (af_Body f) ≤ AggregationMaxSize settings)%Z.
Proof.
  intros Hsets Hsize Hsmall Hrun.
  destruct (agg_run_limits _ _ _ _ _ _ _ Hsets Hsmall Hrun) as (a0 & Hnew & Hs & [Hb _] & Hl & _).
  destruct (New_spec json_Marshal _ _ _ _ Hsets Hnew) as (_ & _ & Hmax & Hc & Hbytes).
  destruct Hs as (_ & _ & _ & _ & Hm). rewrite Hm Hmax in Hb. split; [by apply Hb|].
  intros f Hf. rewrite Forall_forall in Hl. destruct (Hl f Hf) as [H1 H2]. rewrite Hmax in H1.
  split; [by apply H1|]. intros Hn Hpos Hone. rewrite -(Hbytes Hn). apply H2; [by apply Hc| |done].
  by rewrite (Hbytes Hn).
Qed.
End Properties.

(** The explicit hash keys of the buckets are distinct, increasing 128 bit
    numbers, one in each of the equal parts the hash key range is cut into. *)
Theorem partition_hash_keys (n i j : Z) :
  (0 < n < 2 ^ 64)%Z → (0 ≤ i < j)%Z → (j < n)%Z →
  (0 ≤ explicitHashKeyInt n i < explicitHashKeyInt n j)%Z ∧ (explicitHashKeyInt n j < 2 ^ 128)%Z ∧
  (explicitHashKeyInt n i / ((2 ^ 128 - 1) / n) = i)%Z.
Proof.
  intros Hn Hij Hj.
  destruct (explicitHashKeyInt_bounds n i Hn) as (Hs & Hi1 & _); [lia|].
  destruct (explicitHashKeyInt_bounds n j Hn) as (_ & Hj1 & Hj2); [lia|].
  set (step := ((2 ^ 128 - 1) / n)%Z) in *. split_and!; [nia|nia|lia|].
  symmetry. apply (Z.div_unique_pos _ _ _ (explicitHashKeyInt n i - i * step)); lia.
Qed.

Section PartitionedProperties.
Context {A R : Type} `{!ProducerDaemonAggregator A, !AggregatorLaws A}.
Context (md5Sum : string → Z) (Intn : Z → R → R * Z).

(** A message goes to exactly one bucket, which its explicit hash key or the
    hash of its partition key determines; Write never indexes out of range,
    changes no other bucket, and loses no message. *)
Theorem partitioned_Write_correct (a : producerDaemonPartitionedAggregator A R) mss msg :
  (∀ n r, 0 < n → 0 ≤ (Intn n r).2 < n)%Z → partitioned_inv a mss →
  ∃ a' out i, partitioned_Write md5Sum Intn msg a = Ok (a', out) ∧
    (∀ k, getExplicitHashKeyForMessage md5Sum msg = Ok (Some k) →
      Z.of_nat i = (k mod Z.of_nat (length (buckets a)))%Z) ∧
    (∀ j, j ≠ i → buckets a' !! j = buckets a !! j) ∧
    (∀ fs, out = Ok fs → ∃ ms pending flushed, mss !! i = Some ms ∧
      partitioned_inv a' (<[i := pending]> mss) ∧ Forall2 ag_holds fs flushed ∧
      mjoin flushed ++ pending = ms ++ [msg]).
Proof.
  intros Hrand (Hcount & Hpos & Hinv). pose proof (bucketIndex_range md5Sum Intn msg a Hrand Hcount Hpos) as Hr.
  destruct (bucketIndex md5Sum Intn msg a) as [r i] eqn:Hi. simpl in Hr.
  destruct (buckets a !! Z.to_nat i) as [b|] eqn:Hb.
  2:{ apply lookup_ge_None in Hb. lia. }
  unfold partitioned_Write. rewrite Hi (slice_get_Some _ _ b) //; [lia|].
  destruct (ag_Write msg b) as [b' out] eqn:Hw.
  eexists _, out, (Z.to_nat i). split; [reflexivity|]. split_and!.
  - intros k Hk. unfold bucketIndex in Hi. rewrite Hk in Hi. simplify_eq. rewrite -Hcount. lia.
  - intros j Hj. simpl. by rewrite list_lookup_insert_ne.
  - intros fs ->. destruct (Forall2_lookup_l _ _ _ _ _ Hinv Hb) as (ms & Hms & Hbinv).
    destruct (ag_write_law _ _ _ _ _ Hbinv Hw) as (flushed & pending & Hh & Hinv' & Hj).
    exists ms, pending, flushed. split_and!; [done| |done|done].
    split_and!; simpl; [by rewrite length_insert|done|by apply Forall2_insert].
Qed.

(** A Flush that succeeds returns every message of every bucket and leaves
    all buckets empty. *)
Theorem partitioned_Flush_correct (a a' : producerDaemonPartitionedAggregator A R) mss fs :
  partitioned_inv a mss → partitioned_Flush a = (a', Ok fs) →
  ∃ flushed, Forall2 ag_holds fs flushed ∧ mjoin flushed = mjoin mss ∧
    partitioned_inv a' (replicate (length (buckets a)) []).
Proof.
  intros (Hcount & Hpos & Hinv). unfold partitioned_Flush.
  destruct (flushBuckets (buckets a) []) as [bs out] eqn:Hf. intros [= <- ->].
  destruct (flushBuckets_spec _ _ _ _ _ Hinv Hf) as (fs' & flushed & -> & Hh & Hj & Hinv' & Hlen).
  exists flushed. split_and!; [done|done|]. split_and!; simpl; [by rewrite Hlen|done|done].
Qed.
End PartitionedProperties.

(** ** Witnesses *)

(** A gzip writer that does not compress. *)
#[export] Instance stored_GzipWriter : GzipWriter unit :=
  {| gz_new := tt; gz_write := λ s w, (w, s, None); gz_close := λ w, (w, ""%string, None) |}.

#[export] Program Instance stored_GzipLaws : GzipLaws unit :=
  {| gunzip := Some; gz_inv := λ _ p z, p = z |}.
Next Obligation. done. Qed.
Next Obligation. intros w p z s w' out; simpl. intros -> Heq. by simplify_eq. Qed.
Next Obligation. intros w p z w' out; simpl. intros -> Heq. simplify_eq. by rewrite string_app_nil_r. Qed.

Definition sample_settings : ProducerDaemonSettings :=
  {| Enabled := true; Interval := 60000000000; BufferSize := 10; RunnerCount := 1; BatchSize := 10;
     BatchMaxSize := 100; AggregationSize := 2; AggregationMaxSize := 30; PartitionBucketCount := 2;
     MessageAttributes := ∅ |}.

Definition sample_message (body : string) : Message := {| Attributes := ∅; Body := body |}.

(** A marshaller of bodies of at most eight characters. *)
Definition sample_marshal (m : Message) : result go_error string := Ok (String.substring 0 8 (Body m)).

Lemma length_substring n s : String.length (String.substring 0 n s) ≤ n.
Proof.
  revert n. induction s as [|c s IH]; intros [|n]; simpl; [lia..|]. specialize (IH n). lia.
Qed.

Lemma sample_marshal_small m e : sample_marshal m = Ok e → (slen e < 2 ^ 24)%Z.
Proof. intros [= <-]. unfold slen. pose proof (length_substring 8 (Body m)). lia. Qed.

Lemma sample_run : ∃ (a : producerDaemonAggregator unit) fs,
  agg_run sample_marshal sample_settings CompressionNone [] a
    [sample_message "1"; sample_message "2"; sample_message "3"] fs ∧ af_Body <$> fs = ["[1,2]"%string].
Proof.
  eexists _, _. split.
  - eapply (run_write _ _ _ _ _ _ _ [sample_message "1"; sample_message "2"]).
    + eapply (run_write _ _ _ _ _ _ _ [sample_message "1"]).
      * eapply (run_write _ _ _ _ _ _ _ []); [by apply run_new|vm_compute; reflexivity].
      * vm_compute; reflexivity.
    + vm_compute; reflexivity.
  - reflexivity.
Qed.

Lemma plain_sets_nil : plain_sets [].
Proof. by intros ? ?%elem_of_nil. Qed.

Lemma aggregator_conserves_messages_witness :
  ∃ (a : producerDaemonAggregator unit) fs mss pending,
    af_Body <$> fs = ["[1,2]"%string] ∧
    mjoin mss ++ pending = [sample_message "1"; sample_message "2"; sample_message "3"] ∧
    messageCount a = Z.of_nat (length pending).
Proof.
  destruct sample_run as (a & fs & Hrun & Hb).
  destruct (aggregator_conserves_messages _ _ _ _ _ _ _ plain_sets_nil Hrun) as (mss & pending & Hj & _ & Hm).
  by exists a, fs, mss, pending.
Defined.

Lemma aggregator_respects_limits_witness :
  ∃ (a : producerDaemonAggregator unit) fs,
    af_Body <$> fs = ["[1,2]"%string] ∧ (messageCount a < 2)%Z.
Proof.
  destruct sample_run as (a & fs & Hrun & Hb). exists a, fs. split; [done|].
  by destruct (aggregator_respects_limits sample_marshal sample_settings CompressionNone [] a _ fs
    plain_sets_nil ltac:(done) (λ _, sample_marshal_small) Hrun).
Defined.

Lemma partition_hash_keys_witness :
  (explicitHashKeyInt 2 0 < explicitHashKeyInt 2 1)%Z ∧ (explicitHashKeyInt 2 1 < 2 ^ 128)%Z.
Proof.
  pose proof (partition_hash_keys 2 0 1 ltac:(lia) ltac:(lia) ltac:(lia)) as H.
  split; [apply H|apply H].
Defined.

Definition sample_partitioned : producerDaemonPartitionedAggregator producerDaemonNoopAggregator unit :=
  {| rand := tt; buckets := [NewProducerDaemonNoopAggregator; NewProducerDaemonNoopAggregator]; bucketCount := 2 |}.

Lemma sample_partitioned_inv : partitioned_inv sample_partitioned [[]; []].
Proof. split_and!; [done|done|]. constructor; [done|]. constructor; [done|constructor]. Qed.

Lemma partitioned_Write_correct_witness :
  ∃ a' out i, partitioned_Write (λ _, 5%Z) (λ n r, (r, 0%Z))
    {| Attributes := {[AttributeKinesisPartitionKey := "k"%string]}; Body := "" |} sample_partitioned = Ok (a', out) ∧
    Z.of_nat i = 1%Z.
Proof.
  destruct (partitioned_Write_correct (λ _, 5%Z) (λ n r, (r, 0%Z)) sample_partitioned [[]; []]
    {| Attributes := {[AttributeKinesisPartitionKey := "k"%string]}; Body := "" |}) as (a' & out & i & Hw & Hi & _).
  - intros n r Hn. simpl. lia.
  - apply sample_partitioned_inv.
  - exists a', out, i. split; [done|]. by rewrite (Hi 5%Z).
Defined.

Lemma partitioned_Flush_correct_witness :
  ∃ flushed : list (list Message), mjoin flushed = [] ∧
    partitioned_inv (partitioned_Flush sample_partitioned).1 (replicate 2 ([] : list Message)).
Proof.
  destruct (partitioned_Flush_correct sample_partitioned _ [[]; []] [] sample_partitioned_inv eq_refl)
    as (flushed & _ & Hj & Hinv). by exists flushed.
Defined.
