(* ===== verification/ProducerDaemon.v ===== *)
(** * pkg/stream: the producer daemon

    Messages pass the aggregator and the batcher into the output channel, which
    the output loops drain.  The daemon's mutex makes Write, the ticker and close
    atomic, so they are functions of the daemon's state; the output loops read
    the channel between them.  A send that has to wait for room in the channel is
    taken to happen when there is room.  Metrics and log entries are left out. *)
From S2P Require Import Prelude.
From S2P Require Import StreamMessage.
From S2P Require Import Aggregator.

(** ** The batcher *)
Section Batcher.
Local Open Scope Z_scope.
Context (json_Marshal : Message → result go_error string).

(** [pkg/stream/producer_daemon_batcher.go:9-16] producerDaemonBatcher *)
Record producerDaemonBatcher := {
  b_maxMessages : Z;
  b_maxBytes : Z;
  messages : list WritableMessage;
  size : Z;
  withJsonEncoding : bool;
}.

(** [pkg/stream/producer_daemon_batcher.go:54-62] NewProducerDaemonBatcher *)
Definition NewProducerDaemonBatcher (settings : ProducerDaemonSettings) : producerDaemonBatcher :=
  {| b_maxMessages := BatchSize settings; b_maxBytes := BatchMaxSize settings;
     messages := []; size := 0; withJsonEncoding := true |}.

(** [pkg/stream/producer_daemon_batcher.go:64-72] NewProducerDaemonBatcherWithoutJsonEncoding *)
Definition NewProducerDaemonBatcherWithoutJsonEncoding (settings : ProducerDaemonSettings) : producerDaemonBatcher :=
  {| b_maxMessages := BatchSize settings; b_maxBytes := BatchMaxSize settings;
     messages := []; size := 0; withJsonEncoding := false |}.

Definition with_messages (ms : list WritableMessage) (sz : Z) (b : producerDaemonBatcher) : producerDaemonBatcher :=
  {| b_maxMessages := b_maxMessages b; b_maxBytes := b_maxBytes b; messages := ms; size := sz;
     withJsonEncoding := withJsonEncoding b |}.

(** [pkg/stream/producer_daemon_batcher.go:108-112] producerDaemonBatcher.needsFlush *)
Definition needsFlush (nextSize : Z) (b : producerDaemonBatcher) : bool :=
  let newSize := size b + nextSize in
  (b_maxMessages b <=? Z.of_nat (length (messages b)))
  || (negb (b_maxBytes b =? 0) && (b_maxBytes b <=? newSize)).

(** [pkg/stream/producer_daemon_batcher.go:114-120] producerDaemonBatcher.Flush *)
Definition batcher_Flush (b : producerDaemonBatcher) : producerDaemonBatcher * list WritableMessage :=
  (with_messages [] 0 b, messages b).

(** [pkg/stream/producer_daemon_batcher.go:74-106] producerDaemonBatcher.Append *)
Definition Append (msg : Message) (b : producerDaemonBatcher) :
    producerDaemonBatcher * result go_error (list WritableMessage) :=
  let body := if withJsonEncoding b then json_Marshal msg else Ok (Body msg) in
  match body with
  | Err err => (b, Err (EWrap "failed to encode message for batch" err))
  | Ok body =>
      let '(b, result) := if needsFlush (slen body - 1) b then batcher_Flush b else (b, []) in
      let b := with_messages
        (messages b ++ [WRawJson {| raw_attributes := Attributes msg; raw_body := body |}])
        (size b + slen body) b in
      if needsFlush 0 b then
        let '(b, flushed) := batcher_Flush b in (b, Ok (result ++ flushed))
      else (b, Ok result)
  end.
End Batcher.

(** ** The output channel *)

(** [pkg/stream/output_channel.go:17-22] outputChannel: the batches in the
    channel, in the order they were sent *)
Record outputChannel := {
  ch : list (list WritableMessage);
  closed : bool;
}.

(** [pkg/stream/output_channel.go:24-29] NewOutputChannel *)
Definition NewOutputChannel : outputChannel := {| ch := []; closed := false |}.

(** [pkg/stream/output_channel.go:31-35] outputChannel.Read: [None] while the
    reader has to wait; the second component is the [ok] of the receive. *)
Definition Read (c : outputChannel) : option (outputChannel * (list WritableMessage * bool)) :=
  match ch c with
  | msg :: rest => Some ({| ch := rest; closed := closed c |}, (msg, true))
  | [] => if closed c then Some (c, ([], false)) else None
  end.

(** [pkg/stream/output_channel.go:37-51] outputChannel.Write *)
Definition channel_Write (msg : list WritableMessage) (c : outputChannel) : outputChannel :=
  if closed c then c else {| ch := ch c ++ [msg]; closed := false |}.

(** [pkg/stream/output_channel.go:53-63] outputChannel.Close *)
Definition Close (c : outputChannel) : outputChannel :=
  if negb (closed c) then {| ch := ch c; closed := true |} else c.

(** [pkg/stream/output_channel.go:65-70] outputChannel.IsClosed *)
Definition IsClosed (c : outputChannel) : bool := closed c.

(** ** The daemon *)
Section Daemon.
Local Open Scope Z_scope.
Context {A : Type} `{!ProducerDaemonAggregator A}.
Context (json_Marshal : Message → result go_error string).

(** [pkg/stream/producer_daemon.go:86-102] producerDaemon; the ticker, once Run
    has created it, by the number of times it was reset *)
Record producerDaemon := {
  aggregator : A;
  batcher : producerDaemonBatcher;
  outCh : outputChannel;
  ticker : option nat;
  settings : ProducerDaemonSettings;
  stopped : Z;
  supportsAggregation : bool;
}.
Implicit Types (d : producerDaemon).

Definition with_aggregator (a : A) d : producerDaemon :=
  {| aggregator := a; batcher := batcher d; outCh := outCh d; ticker := ticker d; settings := settings d;
     stopped := stopped d; supportsAggregation := supportsAggregation d |}.

Definition with_batcher (b : producerDaemonBatcher) d : producerDaemon :=
  {| aggregator := aggregator d; batcher := b; outCh := outCh d; ticker := ticker d; settings := settings d;
     stopped := stopped d; supportsAggregation := supportsAggregation d |}.

Definition with_outCh (c : outputChannel) d : producerDaemon :=
  {| aggregator := aggregator d; batcher := batcher d; outCh := c; ticker := ticker d; settings := settings d;
     stopped := stopped d; supportsAggregation := supportsAggregation d |}.

Definition with_run (t : option nat) (s : Z) d : producerDaemon :=
  {| aggregator := aggregator d; batcher := batcher d; outCh := outCh d; ticker := t; settings := settings d;
     stopped := s; supportsAggregation := supportsAggregation d |}.

(** [pkg/stream/producer_daemon.go:187-210] NewProducerDaemonWithInterfaces *)
Definition NewProducerDaemonWithInterfaces (aggregator : A) (batcher : producerDaemonBatcher)
    (settings : ProducerDaemonSettings) (supportsAggregation : bool) : producerDaemon :=
  {| aggregator := aggregator; batcher := batcher; outCh := NewOutputChannel; ticker := None;
     settings := settings; stopped := 0; supportsAggregation := supportsAggregation |}.

(** [pkg/stream/producer_daemon.go:212-214] producerDaemon.isStopped *)
Definition isStopped d : bool := negb (stopped d =? 0).

(** [pkg/stream/producer_daemon.go:216-225] producerDaemon.restart *)
Definition restart d : producerDaemon :=
  let d := if IsClosed (outCh d) then with_outCh NewOutputChannel d else d in
  with_run (ticker d) 0 d.

(** [pkg/stream/producer_daemon.go:369-372] the message of an aggregate *)
Definition buildMessage d (readyMessage : AggregateFlush) : Message :=
  if negb (supportsAggregation d) then
    NewMessage (af_Body readyMessage) [MessageAttributes (settings d); af_Attributes readyMessage]
  else BuildAggregateMessage (af_Body readyMessage) [MessageAttributes (settings d); af_Attributes readyMessage].

Definition ErrNotAMessage : go_error := EMsg "are you writing to the daemon directly?".

(** [pkg/stream/producer_daemon.go:337-349] the messages themselves *)
Fixpoint streamMessages (batch : list WritableMessage) : result go_error (list Message) :=
  match batch with
  | [] => Ok []
  | WMessage m :: batch' =>
      match streamMessages batch' with
      | Err err => Err err
      | Ok ms => Ok (m :: ms)
      end
  | _ :: _ => Err ErrNotAMessage
  end.

(** [pkg/stream/producer_daemon.go:354-376] the loop of applyAggregation *)
Fixpoint aggregateMessages (batch : list WritableMessage) (result_ : list Message) d :
    producerDaemon * result go_error (list Message) :=
  match batch with
  | [] => (d, Ok result_)
  | WMessage streamMsg :: batch' =>
      match ag_Write streamMsg (aggregator d) with
      | (a, Err err) => (with_aggregator a d, Err err)
      | (a, Ok readyMessages) =>
          let d := with_aggregator a d in
          aggregateMessages batch' (result_ ++ (buildMessage d <$> readyMessages)) d
      end
  | _ :: _ => (d, Err ErrNotAMessage)
  end.

(** [pkg/stream/producer_daemon.go:335-379] producerDaemon.applyAggregation *)
Definition applyAggregation (batch : list WritableMessage) d : producerDaemon * result go_error (list Message) :=
  if AggregationSize (settings d) <=? 1 then (d, streamMessages batch)
  else aggregateMessages batch [] d.

(** [pkg/stream/producer_daemon.go:381-404] producerDaemon.flushAggregate *)
Definition flushAggregate d : producerDaemon * result go_error (list Message) :=
  match ag_Flush (aggregator d) with
  | (a, Err err) => (with_aggregator a d, Err (EWrap "can not marshal aggregates" err))
  | (a, Ok aggregates) =>
      let d := with_aggregator a d in
      (d, Ok (fold_left (λ messages aggregate,
        if MessageCount aggregate =? 0 then messages else messages ++ [buildMessage d aggregate])
        aggregates []))
  end.

(** [pkg/stream/producer_daemon.go:406-414] producerDaemon.flushBatch *)
Definition flushBatch d : producerDaemon :=
  let '(b, readyBatch) := batcher_Flush (batcher d) in
  let d := with_batcher b d in
  if Nat.eqb (length readyBatch) 0 then d else with_outCh (channel_Write readyBatch (outCh d)) d.

(** [pkg/stream/producer_daemon.go:292-308] appending the messages to the batcher
    and sending the full batches; flushAll (422-431) does the same without
    touching the ticker ([reset] is false) *)
Fixpoint appendAll (reset : bool) (msgs : list Message) d : producerDaemon * option go_error :=
  match msgs with
  | [] => (d, None)
  | msg :: msgs' =>
      match Append json_Marshal msg (batcher d) with
      | (b, Err err) => (with_batcher b d, Some (EWrap "can not append message to batch" err))
      | (b, Ok flushedBatch) =>
          let d := with_batcher b d in
          let d :=
            if Nat.ltb 0 (length flushedBatch) then
              let d := if reset then with_run (S <$> ticker d) (stopped d) d else d in
              with_outCh (channel_Write flushedBatch (outCh d)) d
            else d in
          appendAll reset msgs' d
      end
  end.

(** [pkg/stream/producer_daemon.go:276-311] producerDaemon.Write *)
Definition Write (batch : list WritableMessage) d : producerDaemon * option go_error :=
  if negb (stopped d =? 0) then
    (d, Some (EMsg "can't write messages as the producer daemon is not running"))
  else
    match applyAggregation batch d with
    | (d, Err err) => (d, Some (EWrap "can not apply aggregation in producer" err))
    | (d, Ok aggregated) => appendAll true aggregated d
    end.

(** [pkg/stream/producer_daemon.go:272-274] producerDaemon.WriteOne *)
Definition WriteOne (msg : WritableMessage) d : producerDaemon * option go_error := Write [msg] d.

(** [pkg/stream/producer_daemon.go:416-436] producerDaemon.flushAll *)
Definition flushAll d : producerDaemon * option go_error :=
  match flushAggregate d with
  | (d, Err err) => (d, Some (EWrap "can not flush aggregation" err))
  | (d, Ok readyBatches) =>
      match appendAll false readyBatches d with
      | (d, Some err) => (d, Some err)
      | (d, None) => (flushBatch d, None)
      end
  end.

(** [pkg/stream/producer_daemon.go:438-448] producerDaemon.close *)
Definition close d : producerDaemon * option go_error :=
  let '(d, err) := flushAll d in
  (with_outCh (Close (outCh d)) d,
   match err with Some err => Some (EWrap "can not flush all messages" err) | None => None end).

(** [pkg/stream/producer_daemon.go:234-237] the start of Run *)
Definition startTicker d : producerDaemon := with_run (Some O) (stopped d) d.

(** [pkg/stream/producer_daemon.go:232-232] the end of Run *)
Definition stop d : producerDaemon := with_run (ticker d) 1 d.

(** [pkg/stream/producer_daemon.go:323-330] a tick; an error is only logged *)
Definition tick d : producerDaemon := (flushAll d).1.

(** [pkg/stream/producer_daemon.go:455-468] a round of outputLoop: the batch for
    the output, or [None] when the loop ends *)
Definition outputRound d : option (producerDaemon * option (list WritableMessage)) :=
  match Read (outCh d) with
  | None => None
  | Some (c, (_, false)) => Some (with_outCh c d, None)
  | Some (c, (batch, true)) => Some (with_outCh c d, Some batch)
  end.
End Daemon.
Arguments producerDaemon : clear implicits.

(** ** The limits of the output *)

(** [pkg/stream/output.go:30-45] OutputCapabilities *)
Record OutputCapabilities := {
  IsPartitionedOutput : bool;
  ProvidesCompression : bool;
  SupportsAggregation : bool;
  MaxBatchSize : option Z;
  MaxMessageSize : option Z;
  IgnoreProducerDaemonBatchSettings : bool;
}.

(** [pkg/stream/producer_daemon.go:148-150] one limit of NewProducerDaemon *)
Definition applyLimit (limit : option Z) (ignore : bool) (setting : Z) : Z :=
  match limit with
  | Some l => if ignore || (l <? setting)%Z then l else setting
  | None => setting
  end.

(** [pkg/stream/producer_daemon.go:144-154] the settings NewProducerDaemon uses,
    and the compression *)
Definition daemonSettings (c : OutputCapabilities) (compression : string) (s : ProducerDaemonSettings) :
    ProducerDaemonSettings * string :=
  ({| Enabled := Enabled s; Interval := Interval s; BufferSize := BufferSize s; RunnerCount := RunnerCount s;
      BatchSize := applyLimit (MaxBatchSize c) (IgnoreProducerDaemonBatchSettings c) (BatchSize s);
      BatchMaxSize := applyLimit (MaxMessageSize c) (IgnoreProducerDaemonBatchSettings c) (BatchMaxSize s);
      AggregationSize := AggregationSize s; AggregationMaxSize := AggregationMaxSize s;
      PartitionBucketCount := PartitionBucketCount s; MessageAttributes := MessageAttributes s |},
   if ProvidesCompression c then CompressionNone else compression).

(** ** The batcher's limits *)
Section BatcherLemmas.
Local Open Scope Z_scope.
Context (json_Marshal : Message → result go_error string).
Implicit Types (b : producerDaemonBatcher) (w : WritableMessage).

Definition wlen w : Z := match w with WRawJson r => slen (raw_body r) | _ => 0 end.

Definition total (ws : list WritableMessage) : Z := fold_right (λ w acc, wlen w + acc) 0 ws.

Lemma total_app ws ws' : total (ws ++ ws') = total ws + total ws'.
Proof. induction ws as [|w ws IH]; simpl; lia. Qed.

(** What the batcher makes of a message. *)
Definition batched b (msg : Message) w : Prop :=
  ∃ body, w = WRawJson {| raw_attributes := Attributes msg; raw_body := body |} ∧
    if withJsonEncoding b then json_Marshal msg = Ok body else body = Body msg.

Definition same_batcher b b' : Prop :=
  b_maxMessages b' = b_maxMessages b ∧ b_maxBytes b' = b_maxBytes b ∧ withJsonEncoding b' = withJsonEncoding b.

(** Between two calls the batch is below its limits. *)
Definition batcher_inv b : Prop :=
  size b = total (messages b) ∧ Z.of_nat (length (messages b)) < b_maxMessages b ∧
  0 <= b_maxBytes b ∧ (b_maxBytes b ≠ 0 → size b < b_maxBytes b).

(** A successful Append, as its two decisions. *)
Lemma Append_inv msg b b' out :
  Append json_Marshal msg b = (b', Ok out) →
  ∃ w flushed b1, batched b msg w ∧ same_batcher b b' ∧
    (needsFlush (wlen w - 1) b = true ∧ flushed = messages b ∧ b1 = with_messages [w] (wlen w) b ∨
     needsFlush (wlen w - 1) b = false ∧ flushed = [] ∧
       b1 = with_messages (messages b ++ [w]) (size b + wlen w) b) ∧
    (needsFlush 0 b1 = true ∧ messages b' = [] ∧ size b' = 0 ∧ out = flushed ++ messages b1 ∨
     needsFlush 0 b1 = false ∧ b' = b1 ∧ out = flushed).
Proof.
  unfold Append, batched. intros Ha.
  assert (∃ body, (if withJsonEncoding b then json_Marshal msg else Ok (Body msg)) = Ok body ∧
    if withJsonEncoding b then json_Marshal msg = Ok body else body = Body msg) as (body & Hb & Hb').
  { destruct (withJsonEncoding b); [|by eexists]. destruct (json_Marshal msg); [by eexists|done]. }
  rewrite Hb in Ha. set (w := WRawJson _) in Ha. exists w.
  assert (wlen w = slen body) as Hw by done. rewrite -Hw in Ha.
  destruct (needsFlush (wlen w - 1) b) eqn:H1; simpl in Ha; destruct (needsFlush 0 _) eqn:H2;
    simplify_eq/=; eexists _, _; (split; [by exists body|]); (split; [done|]);
    (split; [first [by left|by right]|]); first [by left; rewrite ?app_nil_r|by right].
Qed.

Lemma needsFlush_false next b :
  needsFlush next b = false ↔
  Z.of_nat (length (messages b)) < b_maxMessages b ∧ (b_maxBytes b ≠ 0 → size b + next < b_maxBytes b).
Proof.
  unfold needsFlush. rewrite orb_false_iff andb_false_iff negb_false_iff Z.eqb_eq !Z.leb_gt.
  split; intros [Hl Hb]; (split; [done|]); [lia|]. destruct (Z.eq_dec (b_maxBytes b) 0); [by left|right; by apply Hb].
Qed.

Lemma Append_spec msg b b' out :
  Append json_Marshal msg b = (b', Ok out) →
  ∃ w, batched b msg w ∧ same_batcher b b' ∧ out ++ messages b' = messages b ++ [w].
Proof.
  intros Ha. destruct (Append_inv _ _ _ _ Ha)
    as (w & fl & b1 & Hw & Hs & [(_ & -> & ->)|(_ & -> & ->)] & [(_ & Hn & _ & ->)|(_ & -> & ->)]);
    exists w; rewrite ?Hn ?app_nil_r; by split_and!.
Qed.

(** The invariant and the limits of a call. *)
Lemma Append_limits msg b b' out :
  batcher_inv b → Append json_Marshal msg b = (b', Ok out) →
  batcher_inv b' ∧ ∃ w, batched b msg w ∧ out ++ messages b' = messages b ++ [w] ∧
    Z.of_nat (length out) <= b_maxMessages b ∧
    (b_maxBytes b ≠ 0 → wlen w < b_maxBytes b → total out <= b_maxBytes b).
Proof.
  intros (Hsz & Hlen & Hpos & Hmax) Ha. destruct (Append_inv _ _ _ _ Ha)
    as (w & fl & b1 & Hw & (Hm & Hb & Hj) & H1 & H2).
  assert (0 <= wlen w) as Hw0 by (destruct w; simpl; unfold slen; lia).
  split.
  - destruct H2 as [(_ & Hn & H0 & _)|(H2 & -> & _)].
    + unfold batcher_inv. rewrite Hn H0 Hm Hb. simpl. lia.
    + apply needsFlush_false in H2 as [H2 H3]. unfold batcher_inv.
      destruct H1 as [(_ & _ & ->)|(_ & _ & ->)]; simpl in *; rewrite ?length_app ?total_app /= in H2 |- *; lia.
  - exists w. split; [done|].
    destruct H1 as [(_ & -> & ->)|(H1 & -> & ->)], H2 as [(H2 & Hn & _ & ->)|(H2 & -> & ->)]; simpl;
      rewrite ?Hn ?app_nil_r ?length_app ?total_app /=; (split; [done|]).
    + split; [lia|]. intros Hne Hlt. unfold needsFlush in H2. simpl in H2.
      destruct (Z.eq_dec (total (messages b)) 0); [lia|].
      apply orb_true_iff in H2 as [H2|H2]; [|apply andb_true_iff in H2 as [_ H2]; lia].
      apply Z.leb_le in H2. destruct (messages b) as [|w1 ws]; [done|cbn [length] in Hlen; lia].
    + split; [lia|]. intros. lia.
    + split; [lia|]. intros Hne Hlt. apply needsFlush_false in H1 as [_ H1]. lia.
    + split; [lia|]. intros. simpl. lia.
Qed.
End BatcherLemmas.

(** Append loses no message and keeps their order, leaves a batch below the
    limits, and returns at most BatchSize messages, which together fit the
    maximum size unless the new message alone reaches it. *)
Theorem batcher_Append_correct json_Marshal msg b b' out :
  batcher_inv b → Append json_Marshal msg b = (b', Ok out) →
  batcher_inv b' ∧ ∃ w, batched json_Marshal b msg w ∧ out ++ messages b' = messages b ++ [w] ∧
    (Z.of_nat (length out) ≤ b_maxMessages b)%Z ∧
    (b_maxBytes b ≠ 0 → wlen w < b_maxBytes b → total out ≤ b_maxBytes b)%Z.
Proof. apply Append_limits. Qed.

Definition sample_batcher : producerDaemonBatcher :=
  {| b_maxMessages := 3; b_maxBytes := 10; messages := [WRawJson {| raw_attributes := ∅; raw_body := "12345" |}];
     size := 5; withJsonEncoding := false |}.

Lemma batcher_Append_correct_witness :
  let out := [WRawJson {| raw_attributes := ∅; raw_body := "12345" |}] in
  Append (λ m, Ok (Body m)) {| Attributes := ∅; Body := "abcdef" |} sample_batcher =
    (with_messages [WRawJson {| raw_attributes := ∅; raw_body := "abcdef" |}] 6 sample_batcher, Ok out) ∧
  (total out ≤ 10)%Z.
Proof.
  split; [by vm_compute|].
  destruct (batcher_Append_correct (λ m, Ok (Body m)) {| Attributes := ∅; Body := "abcdef" |} sample_batcher
    (with_messages [WRawJson {| raw_attributes := ∅; raw_body := "abcdef" |}] 6 sample_batcher)
    [WRawJson {| raw_attributes := ∅; raw_body := "12345" |}]) as (_ & w & _ & Hc & _ & Ht).
  - unfold batcher_inv. simpl. by split_and!.
  - by vm_compute.
  - simpl in Hc. simplify_eq. by apply Ht.
Defined.

(** A message of exactly the maximum size is returned together with the
    batch it did not fit into: the result exceeds the maximum size although every
    single message fits. *)
Theorem batcher_exceeds_limit json_Marshal b msg :
  batcher_inv b → (0 < size b)%Z → (1 < b_maxMessages b)%Z → withJsonEncoding b = false →
  slen (Body msg) = b_maxBytes b → b_maxBytes b ≠ 0%Z →
  ∃ b' out, Append json_Marshal msg b = (b', Ok out) ∧ total out = (size b + b_maxBytes b)%Z ∧
    (b_maxBytes b < total out)%Z.
Proof.
  intros (Hsz & Hlen & Hpos & Hmax) Hs Hmany Hj Hbody Hne.
  destruct (Append json_Marshal msg b) as [b' [out|e]] eqn:Ha.
  2:{ unfold Append in Ha. rewrite Hj in Ha. repeat case_match; done. }
  exists b', out. split; [done|]. destruct (Append_inv _ _ _ _ _ Ha)
    as (w & fl & b1 & (body & -> & Hw) & _ & H1 & H2). rewrite Hj in Hw. subst body. simpl in H1, H2.
  assert (total out = (size b + b_maxBytes b)%Z) as ->; [|lia].
  destruct H1 as [(H1 & -> & ->)|(H1 & -> & ->)].
  - destruct H2 as [(H2 & _ & _ & ->)|(H2 & _ & ->)].
    + simpl. rewrite total_app /=. lia.
    + apply needsFlush_false in H2 as [_ H2]. simpl in H2. lia.
  - apply needsFlush_false in H1 as [_ H1]. lia.
Qed.

Lemma batcher_exceeds_limit_witness :
  ∃ b' out, Append (λ m, Ok (Body m)) {| Attributes := ∅; Body := "1234567890" |} sample_batcher = (b', Ok out) ∧
    total out = 15%Z.
Proof.
  destruct (batcher_exceeds_limit (λ m, Ok (Body m)) sample_batcher {| Attributes := ∅; Body := "1234567890" |})
    as (b' & out & Ha & Ht & _); try done.
  by exists b', out.
Defined.

(** ** The daemon *)
Section DaemonLemmas.
Context {A : Type} `{!ProducerDaemonAggregator A, !AggregatorLaws A}.
Context (json_Marshal : Message → result go_error string).
Implicit Types (d : producerDaemon A) (w : WritableMessage) (ms pend : list Message).

(** What never changes while the daemon runs. *)
Definition same_daemon d d' : Prop :=
  settings d' = settings d ∧ supportsAggregation d' = supportsAggregation d ∧
  same_batcher (batcher d) (batcher d').

(** The message [m'] for the batcher carries the messages [ms]. *)
Definition payload d (m' : Message) ms : Prop :=
  if (AggregationSize (settings d) <=? 1)%Z then ms = [m']
  else ∃ f, ag_holds f ms ∧ m' = buildMessage d f.

(** The message [w] of a batch carries the messages [ms]. *)
Definition carries d w ms : Prop := ∃ m', batched json_Marshal (batcher d) m' w ∧ payload d m' ms.

(** What has left the aggregator and not yet the daemon. *)
Definition queued d : list WritableMessage := mjoin (ch (outCh d)) ++ messages (batcher d).

Lemma same_daemon_trans d1 d2 d3 : same_daemon d1 d2 → same_daemon d2 d3 → same_daemon d1 d3.
Proof.
  unfold same_daemon, same_batcher. intros (? & ? & ? & ? & ?) (? & ? & ? & ? & ?). split_and!; congruence.
Qed.

Lemma batched_same b b' m w : same_batcher b b' → batched json_Marshal b m w → batched json_Marshal b' m w.
Proof. unfold batched. intros (_ & _ & ->). done. Qed.

Lemma payload_same d d' m ms : same_daemon d d' → payload d m ms → payload d' m ms.
Proof. unfold payload, buildMessage. intros (-> & -> & _). done. Qed.

Lemma carries_same d d' w ms : same_daemon d d' → carries d w ms → carries d' w ms.
Proof.
  intros Hs (m' & Hb & Hp). exists m'. split; [by eapply batched_same, Hb; destruct Hs as (_ & _ & ?)|].
  by eapply payload_same.
Qed.

Lemma appendAll_spec reset msgs d d' :
  closed (outCh d) = false → appendAll json_Marshal reset msgs d = (d', None) →
  same_daemon d d' ∧ aggregator d' = aggregator d ∧ closed (outCh d') = false ∧
  ∃ ws, Forall2 (batched json_Marshal (batcher d)) msgs ws ∧ queued d' = queued d ++ ws.
Proof.
  revert d. induction msgs as [|msg msgs IH]; intros d Hc; cbn [appendAll].
  { intros [= <-]. split_and!; try done. exists []. by rewrite app_nil_r. }
  destruct (Append json_Marshal msg (batcher d)) as [b [out|]] eqn:Ha; [|done].
  apply Append_spec in Ha as (w & Hw & Hs & Hcons).
  set (d1 := if (0 <? length out)%nat then _ else _).
  assert (same_daemon d d1 ∧ aggregator d1 = aggregator d ∧ closed (outCh d1) = false ∧
    batcher d1 = b ∧ queued d1 = queued d ++ [w]) as (Hs1 & Ha1 & Hc1 & Hb1 & Hq1).
  { subst d1. unfold queued. destruct out as [|w0 out]; simpl.
    - split_and!; try done. by rewrite -app_assoc -Hcons.
    - unfold channel_Write. destruct reset; simpl; rewrite Hc; split_and!; try done;
        simpl; rewrite join_app /= app_nil_r -!app_assoc -Hcons; done. }
  clearbody d1. intros Hrest. destruct (IH d1 Hc1 Hrest) as (Hs2 & Ha2 & Hc2 & ws & Hws & Hq).
  split_and!; [by eapply same_daemon_trans|congruence|done|].
  exists (w :: ws). split.
  - constructor; [done|]. eapply Forall2_impl; [exact Hws|]. intros m' w'. apply batched_same.
    rewrite Hb1. destruct Hs as (? & ? & ?). by split_and!.
  - rewrite Hq Hq1 -app_assoc. done.
Qed.

Lemma streamMessages_spec batch ms : streamMessages (WMessage <$> batch) = Ok ms → ms = batch.
Proof.
  revert ms. induction batch as [|m batch IH]; intros ms; csimpl; [by intros [= <-]|].
  destruct (streamMessages (WMessage <$> batch)) as [ms'|] eqn:Hst; [|done].
  intros [= <-]. f_equal. by apply IH.
Qed.

(** The messages built from flushes carry what the flushes hold. *)
Lemma build_payload d fs mss :
  (AggregationSize (settings d) <=? 1)%Z = false → Forall2 ag_holds fs mss →
  Forall2 (payload d) (buildMessage d <$> fs) mss.
Proof.
  intros Hs. induction 1 as [|f ms fs mss Hf _ IH]; [constructor|]. csimpl. constructor; [|done].
  unfold payload. rewrite Hs. by exists f.
Qed.

Lemma aggregateMessages_spec batch acc d d' out pend :
  (AggregationSize (settings d) <=? 1)%Z = false → ag_inv (aggregator d) pend →
  aggregateMessages (WMessage <$> batch) acc d = (d', Ok out) →
  same_daemon d d' ∧ batcher d' = batcher d ∧ outCh d' = outCh d ∧
  ∃ built mss pend', out = acc ++ built ∧ Forall2 (payload d) built mss ∧ ag_inv (aggregator d') pend' ∧
    mjoin mss ++ pend' = pend ++ batch.
Proof.
  intros Hs. revert acc d pend Hs. induction batch as [|m batch IH]; intros acc d pend Hs Hinv; csimpl.
  { intros [= <- <-]. split_and!; try done. exists [], [], pend. rewrite !app_nil_r. by split_and!; [|constructor|..]. }
  destruct (ag_Write m (aggregator d)) as [a [fs|]] eqn:Hw; [|done].
  destruct (ag_write_law _ _ _ _ _ Hinv Hw) as (mss1 & pend1 & Hh & Hinv1 & Hj1).
  intros Hrest. apply (IH _ _ pend1) in Hrest as (Hs' & Hb & Ho & built & mss & pend' & -> & Hp & Hinv' & Hj); [|done|done].
  split_and!; try done.
  exists ((buildMessage (with_aggregator a d) <$> fs) ++ built), (mss1 ++ mss), pend'.
  rewrite -app_assoc. split_and!; [done| |done|].
  - apply Forall2_app; [|done]. by apply (build_payload d).
  - rewrite join_app -app_assoc Hj app_assoc Hj1 -app_assoc. done.
Qed.

(** Everything the daemon was given and has not delivered. *)
Definition daemon_inv d (mss : list (list Message)) pend : Prop :=
  Forall2 (carries d) (queued d) mss ∧ ag_inv (aggregator d) pend ∧
  ((AggregationSize (settings d) ≤ 1)%Z → pend = []).

Lemma carries_batched d (msgs : list Message) ws mss :
  Forall2 (batched json_Marshal (batcher d)) msgs ws → Forall2 (payload d) msgs mss →
  Forall2 (carries d) ws mss.
Proof.
  intros Hb. revert mss. induction Hb as [|m w msgs ws Hw _ IH]; intros mss Hp; inversion Hp; subst; constructor.
  - by exists m.
  - by apply IH.
Qed.

Lemma Forall2_carries_same d d' ws mss :
  same_daemon d d' → Forall2 (carries d) ws mss → Forall2 (carries d') ws mss.
Proof. intros Hs Hc. eapply Forall2_impl; [exact Hc|]. intros w ms. by apply carries_same. Qed.

(** Handing messages to the batcher keeps the invariant. *)
Lemma append_inv reset msgs groups d d0 d' mss pend :
  same_daemon d0 d → queued d = queued d0 → closed (outCh d) = false →
  Forall2 (carries d0) (queued d0) mss → Forall2 (payload d0) msgs groups → ag_inv (aggregator d) pend →
  ((AggregationSize (settings d0) ≤ 1)%Z → pend = []) →
  appendAll json_Marshal reset msgs d = (d', None) →
  daemon_inv d' (mss ++ groups) pend ∧ same_daemon d0 d' ∧ closed (outCh d') = false.
Proof.
  intros Hs Hq Hc Hcar Hp Hinv Hpend Ha.
  apply appendAll_spec in Ha as (Hs' & Hag & Hc' & ws & Hws & Hq'); [|done].
  assert (same_daemon d0 d') as Hs2 by (by eapply same_daemon_trans).
  split_and!; [|done|done]. split_and!.
  - rewrite Hq' Hq. apply Forall2_app; [by eapply Forall2_carries_same|].
    eapply Forall2_carries_same; [exact Hs'|]. eapply carries_batched; [exact Hws|].
    eapply Forall2_impl; [exact Hp|]. intros m ms. by apply payload_same.
  - by rewrite Hag.
  - by destruct Hs2 as (-> & _).
Qed.

Lemma daemon_Write_inv d d' batch mss pend :
  daemon_inv d mss pend → closed (outCh d) = false →
  Write json_Marshal (WMessage <$> batch) d = (d', None) →
  ∃ mss' pend', daemon_inv d' mss' pend' ∧ same_daemon d d' ∧ closed (outCh d') = false ∧
    mjoin mss' ++ pend' = mjoin mss ++ pend ++ batch ∧ ∃ groups, mss' = mss ++ groups.
Proof.
  intros (Hcar & Hinv & Hpend) Hc. unfold Write. destruct (negb _); [done|].
  unfold applyAggregation. destruct (Z.leb_spec (AggregationSize (settings d)) 1) as [Hle|Hgt].
  - destruct (streamMessages _) as [ms|] eqn:Hst; [|done]. apply streamMessages_spec in Hst as ->.
    intros Ha. rewrite (Hpend Hle) in Hinv. eapply (append_inv _ _ ((λ m, [m]) <$> batch) d d _ mss []) in Ha
      as (Hd & Hs & Hc'); try done.
    + exists (mss ++ ((λ m, [m]) <$> batch)), []. split_and!; try done; [|by eexists].
      rewrite (Hpend Hle) join_app app_nil_r /=. f_equal. clear. induction batch; [done|]. csimpl. by f_equal.
    + clear -Hle. induction batch as [|m batch IH]; [constructor|]. csimpl. constructor; [|done].
      unfold payload. by rewrite (proj2 (Z.leb_le _ _) Hle).
  - destruct (aggregateMessages _ [] d) as [d1 [built|]] eqn:Hag; [|done].
    apply (aggregateMessages_spec _ _ _ _ _ pend) in Hag
      as (Hs1 & Hb1 & Ho1 & built' & groups & pend' & -> & Hp & Hinv1 & Hj); [|by apply Z.leb_gt|done].
    intros Ha. eapply (append_inv _ _ groups d1 d _ mss pend') in Ha as (Hd & Hs & Hc'); try done.
    + exists (mss ++ groups), pend'. split_and!; try done; [|by eexists].
      by rewrite join_app -app_assoc Hj.
    + unfold queued. by rewrite Hb1 Ho1.
    + by rewrite Ho1.
    + lia.
Qed.

(** The messages flushAggregate builds: empty aggregates are left out. *)
Lemma flush_built d fs mss acc :
  (AggregationSize (settings d) <=? 1)%Z = false → Forall2 ag_holds fs mss →
  ∃ built groups, fold_left (λ messages aggregate,
      if (MessageCount aggregate =? 0)%Z then messages else messages ++ [buildMessage d aggregate]) fs acc = acc ++ built ∧
    Forall2 (payload d) built groups ∧ mjoin groups = mjoin mss.
Proof.
  intros Hs Hh. revert acc. induction Hh as [|f ms fs mss Hf _ IH]; intros acc.
  { exists [], []. by rewrite /= app_nil_r. }
  simpl. pose proof (ag_count_law _ _ Hf) as Hcount.
  destruct (Z.eqb_spec (MessageCount f) 0) as [H0|H0].
  - destruct (IH acc) as (built & groups & -> & Hp & Hj). exists built, groups. split_and!; try done.
    assert (ms = []) as -> by (apply length_zero_iff_nil; lia). by rewrite Hj.
  - destruct (IH (acc ++ [buildMessage d f])) as (built & groups & -> & Hp & Hj).
    exists (buildMessage d f :: built), (ms :: groups). rewrite -app_assoc. split_and!; [done| |simpl; by rewrite Hj].
    constructor; [|done]. unfold payload. rewrite Hs. by exists f.
Qed.

(** Without aggregation there is nothing to flush. *)
Lemma flush_nothing d fs mss acc :
  Forall2 ag_holds fs mss → mjoin mss = [] →
  fold_left (λ messages aggregate,
    if (MessageCount aggregate =? 0)%Z then messages else messages ++ [buildMessage d aggregate]) fs acc = acc.
Proof.
  intros Hh. revert acc. induction Hh as [|f ms fs mss Hf _ IH]; intros acc; [done|].
  simpl. intros [-> Hj]%app_eq_nil. rewrite (ag_count_law _ _ Hf) /=. by apply IH.
Qed.

Lemma flushAll_inv d d' mss pend :
  daemon_inv d mss pend → closed (outCh d) = false → flushAll json_Marshal d = (d', None) →
  ∃ groups, daemon_inv d' (mss ++ groups) [] ∧ same_daemon d d' ∧ closed (outCh d') = false ∧
    messages (batcher d') = [] ∧ mjoin groups = pend.
Proof.
  intros (Hcar & Hinv & Hpend) Hc. unfold flushAll, flushAggregate.
  destruct (ag_Flush (aggregator d)) as [a [fs|]] eqn:Hf; [|done].
  destruct (ag_flush_law _ _ _ _ Hinv Hf) as (mss1 & Hh & Hinv1 & Hj).
  set (d1 := with_aggregator a d).
  assert (∃ built groups, fold_left (λ messages aggregate,
      if (MessageCount aggregate =? 0)%Z then messages else messages ++ [buildMessage d1 aggregate]) fs [] = built ∧
      Forall2 (payload d) built groups ∧ mjoin groups = pend) as (built & groups & -> & Hp & Hg).
  { destruct (Z.leb_spec (AggregationSize (settings d)) 1) as [Hle|Hgt].
    - exists [], []. split_and!; [|constructor|by rewrite (Hpend Hle)].
      eapply flush_nothing; [exact Hh|]. by rewrite Hj Hpend.
    - destruct (flush_built d1 fs mss1 []) as (built & groups & Hb & Hp & Hg); [by apply Z.leb_gt|done|].
      exists built, groups. split_and!; [done| |by rewrite Hg].
      eapply Forall2_impl; [exact Hp|]. intros m ms. by apply payload_same. }
  destruct (appendAll json_Marshal false built d1) as [d2 [err|]] eqn:Ha; [done|].
  eapply (append_inv _ _ groups d1 d d2 mss []) in Ha as ((Hcar2 & Hinv2 & _) & Hs2 & Hc2); try done.
  intros [= <-]. exists groups. unfold flushBatch. simpl.
  destruct (messages (batcher d2)) as [|w ws] eqn:Hms; simpl.
  - split_and!; try done. split_and!; try done. unfold queued in *. simpl. by rewrite Hms in Hcar2.
  - split_and!; try done; [|unfold channel_Write; by rewrite Hc2].
    split_and!; try done. unfold queued, channel_Write in *. simpl. rewrite Hc2 /= join_app /= !app_nil_r.
    by rewrite Hms in Hcar2.
Qed.

(** The life of a daemon: what was written to it, and the batches the output
    got.  A Write that is refused, since the daemon has stopped or the batch holds something
    else than messages, changes nothing; a Write and a flush that fail half way can lose
    messages ([Write_error_drops_messages]), and so does a Write between the end of close and
    the end of Run ([write_after_close_drops]): they are not steps of a run. *)
Inductive daemon_run d0 : producerDaemon A → list Message → list (list WritableMessage) → Prop :=
| dr_start : daemon_run d0 d0 [] []
| dr_ticker d ms out : daemon_run d0 d ms out → daemon_run d0 (startTicker d) ms out
| dr_write d d' batch ms out :
    daemon_run d0 d ms out → closed (outCh d) = false → Write json_Marshal (WMessage <$> batch) d = (d', None) →
    daemon_run d0 d' (ms ++ batch) out
| dr_refused d batch err ms out :
    daemon_run d0 d ms out → Write json_Marshal batch d = (d, Some err) → daemon_run d0 d ms out
| dr_stop d ms out : daemon_run d0 d ms out → daemon_run d0 (stop d) ms out
| dr_tick d d' ms out :
    daemon_run d0 d ms out → closed (outCh d) = false → flushAll json_Marshal d = (d', None) →
    daemon_run d0 d' ms out
| dr_output d d' batch ms out :
    daemon_run d0 d ms out → outputRound d = Some (d', Some batch) → daemon_run d0 d' ms (out ++ [batch])
| dr_close d d' ms out :
    daemon_run d0 d ms out → closed (outCh d) = false → close json_Marshal d = (d', None) →
    daemon_run d0 d' ms out.

Lemma outputRound_queued d d' batch :
  outputRound d = Some (d', Some batch) →
  queued d = batch ++ queued d' ∧ same_daemon d d' ∧ aggregator d' = aggregator d ∧
  batcher d' = batcher d ∧ closed (outCh d') = closed (outCh d).
Proof.
  unfold outputRound, Read, queued. destruct (ch (outCh d)) as [|msg rest] eqn:Hch.
  - by destruct (closed (outCh d)).
  - intros [= <- <-]. simpl. by rewrite -app_assoc.
Qed.

Lemma daemon_run_inv d0 d ms out :
  queued d0 = [] → ag_inv (aggregator d0) [] → closed (outCh d0) = false →
  daemon_run d0 d ms out →
  ∃ delivered mss pend, Forall2 (carries d0) (mjoin out) delivered ∧ daemon_inv d mss pend ∧
    same_daemon d0 d ∧ mjoin delivered ++ mjoin mss ++ pend = ms ∧
    (closed (outCh d) = true → messages (batcher d) = [] ∧ pend = []).
Proof.
  intros Hq Hinv0 Hc0. induction 1 as [|d ms out _ IH|d d' batch ms out _ IH Hc Hw|d batch err ms out _ IH Hw|d ms out _ IH|d d' ms out _ IH Hc Hf
    |d d' batch ms out _ IH Ho|d d' ms out _ IH Hc Hcl].
  - exists [], [], []. split_and!; try done; [split_and!; [by rewrite Hq|done|done]|]. by rewrite Hc0.
  - destruct IH as (dl & mss & pend & H1 & H2 & H3 & H4 & H5). by exists dl, mss, pend.
  - destruct IH as (dl & mss & pend & H1 & H2 & H3 & <- & H5).
    destruct (daemon_Write_inv _ _ _ _ _ H2 Hc Hw) as (mss' & pend' & Hi & Hs & Hc' & Hj & _).
    exists dl, mss', pend'. split_and!; try done; [by eapply same_daemon_trans| |by rewrite Hc'].
    by rewrite -!app_assoc Hj.
  - destruct IH as (dl & mss & pend & H1 & H2 & H3 & H4 & H5). by exists dl, mss, pend.
  - destruct IH as (dl & mss & pend & H1 & H2 & H3 & H4 & H5). by exists dl, mss, pend.
  - destruct IH as (dl & mss & pend & H1 & H2 & H3 & <- & H5).
    destruct (flushAll_inv _ _ _ _ H2 Hc Hf) as (groups & Hi & Hs & Hc' & Hm & Hj).
    exists dl, (mss ++ groups), []. split_and!; try done; [by eapply same_daemon_trans|].
    by rewrite join_app Hj app_nil_r.
  - destruct IH as (dl & mss & pend & H1 & (Hcar & Hi & Hp) & H3 & <- & H5).
    destruct (outputRound_queued _ _ _ Ho) as (Hqd & Hs & Ha & Hb & Hcl).
    rewrite Hqd in Hcar. apply Forall2_app_inv_l in Hcar as (g1 & g2 & Hg1 & Hg2 & ->).
    exists (dl ++ g1), g2, pend. split_and!.
    + rewrite join_app /= app_nil_r. apply Forall2_app; [done|].
      eapply Forall2_impl; [exact Hg1|]. intros w m Hc. eapply carries_same; [|exact Hc].
      destruct H3 as (? & ? & ? & ? & ?). by unfold same_daemon, same_batcher.
    + split_and!; [by eapply Forall2_carries_same|by rewrite Ha|]. by destruct Hs as (-> & _).
    + by eapply same_daemon_trans.
    + rewrite !join_app -!app_assoc. done.
    + rewrite Hcl Hb. done.
  - destruct IH as (dl & mss & pend & H1 & H2 & H3 & <- & H5). unfold close in Hcl.
    destruct (flushAll json_Marshal d) as [d1 [err|]] eqn:Hf; simplify_eq.
    destruct (flushAll_inv _ _ _ _ H2 Hc Hf) as (groups & (Hcar & Hi & Hp) & Hs & Hc' & Hm & Hj).
    exists dl, (mss ++ groups), []. split_and!; try done.
    + split_and!; try done. unfold queued, Close in *. simpl. by rewrite Hc'.
    + by eapply same_daemon_trans.
    + by rewrite join_app Hj app_nil_r.
Qed.
End DaemonLemmas.


(** A daemon that forwards single messages, for the witness. *)
Definition sample_daemon : producerDaemon producerDaemonNoopAggregator :=
  NewProducerDaemonWithInterfaces NewProducerDaemonNoopAggregator
    (NewProducerDaemonBatcherWithoutJsonEncoding sample_settings) sample_settings false.

Lemma sample_daemon_run :
  ∃ d, daemon_run sample_marshal sample_daemon d [sample_message "1"; sample_message "2"]
    [[WRawJson {| raw_attributes := ∅; raw_body := "1" |}; WRawJson {| raw_attributes := ∅; raw_body := "2" |}]] ∧
    closed (outCh d) = true ∧ ch (outCh d) = [].
Proof.
  eexists. split; [|split].
  - eapply (dr_output _ _ _ _ _ _ []).
    + eapply dr_close.
      * eapply (dr_write _ _ _ _ [sample_message "1"; sample_message "2"] []); [apply dr_start|done|].
        vm_compute. reflexivity.
      * done.
      * vm_compute. reflexivity.
    + vm_compute. reflexivity.
  - done.
  - done.
Qed.


(** A Write after close, as long as the daemon has not stopped, succeeds and drops its
    messages: the channel is closed already. *)
Example write_after_close_drops :
  let '(d1, err1) := close sample_marshal sample_daemon in
  let '(d2, err2) := Write sample_marshal (replicate 10 (WMessage (sample_message "1"))) d1 in
  err1 = None ∧ err2 = None ∧ ch (outCh d2) = [] ∧ (length (messages (batcher d2)) < 10)%nat.
Proof. vm_compute. split_and!; try done; lia. Qed.

(** A Write that fails half way drops messages an earlier Write accepted: the
    aggregate that was completed before the error is neither kept nor sent. *)
Theorem Write_error_drops_messages :
  let json_Marshal := sample_marshal in
  ∃ a, NewProducerDaemonAggregator (W := unit) sample_settings CompressionNone [] = Ok a ∧
  let d0 := NewProducerDaemonWithInterfaces (A := producerDaemonAggregator unit) a
    (NewProducerDaemonBatcher sample_settings) sample_settings true in
  let '(d1, err1) := Write (ProducerDaemonAggregator0 := producerDaemonAggregator_Aggregator json_Marshal) json_Marshal
    [WMessage (sample_message "1")] d0 in
  let '(d2, err2) := Write (ProducerDaemonAggregator0 := producerDaemonAggregator_Aggregator json_Marshal) json_Marshal
    [WMessage (sample_message "2"); WOther (Ok "3"%string)] d1 in
  err1 = None ∧ messageCount (aggregator d1) = 1%Z ∧ err2 ≠ None ∧
  queued d2 = [] ∧ messageCount (aggregator d2) = 0%Z.
Proof. eexists. split; [vm_compute; reflexivity|]. vm_compute. by split_and!. Qed.
