(* ===== verification/Consumer.v ===== *)
(** * pkg/stream: consumers

    What a consumer does with a message: consume, retry, acknowledge.  The
    callback, the encoder, the inputs and the retry handler run in the state [W]
    of the rest of the program; what the consumer makes them do is recorded as a
    trace of events.  A callback may panic.  Logging, metrics, tracing and the
    grace times after a shutdown are left out. *)
From S2P Require Import Prelude.
From S2P Require Import StreamMessage.

Definition AttributeRetry : string := "goso.retry".
Definition AttributeRetryId : string := "goso.retry.id".
Definition attributeRetrySqs : string := "goso.retry.sqs".
Definition AttributeSqsDelaySeconds : string := "sqsDelaySeconds".

(** [pkg/stream/consumer_settings.go:12-15] the aggregate message modes *)
Inductive AggregateMode := AtLeastOnce | AtMostOnce.

#[export] Instance AggregateMode_eq_dec : EqDecision AggregateMode.
Proof. solve_decision. Defined.

(** [pkg/stream/consumer_settings.go:32-39] IgnoreOnGetModelErrorSettings *)
Record IgnoreOnGetModelErrorSettings := { UnknownModel : bool; UnknownVersion : bool }.

(** [pkg/stream/consumer_settings.go:17-28] ConsumerSettings: the fields that
    decide what happens to a message *)
Record ConsumerSettings := {
  RetryEnabled : bool;
  AggregateMessageMode : AggregateMode;
  IgnoreOnGetModelError : IgnoreOnGetModelErrorSettings;
  ConsumerBatchSize : nat;
}.

(** An error of GetModel; [IsIgnorableWithSettings] where it is an
    IgnorableGetModelError. *)
Record GetModelError := {
  gm_error : go_error;
  IsIgnorableWithSettings : option (IgnoreOnGetModelErrorSettings → bool);
}.

(** How a call of the user's code ends. *)
Inductive outcome (A : Type) := Returned (a : A) | Panicked (err : go_error).
Arguments Returned {A} _.
Arguments Panicked {A} _.

(** What a consumer causes outside. *)
Inductive event :=
| Consumed (msg : Message)
| Retried (msg : Message)
| Acked (input : nat) (msg : Message) (ack : bool)
| AckedBatch (input : nat) (msgs : list Message) (acks : list bool).

(** [pkg/stream/consumer_base.go:70-74] consumerData; inputs are numbered *)
Record consumerData := {
  cd_msg : Message;
  cd_src : string;
  cd_input : nat;
}.

Section Consumer.
Context {W D : Type}.

(** The rest of the program: the callback, the encoder and the context. *)
Record world := {
  ctx_done : W → bool;
  GetModel : gmap string string → W → W * outcome (result GetModelError bool);
  decode : Message → result go_error D;
  decode_aggregate : Message → result go_error (list Message);
  Consume : D → Message → W → W * outcome (bool * option go_error);
  ConsumeBatch : list (D * Message) → W → W * outcome (list bool * option go_error);
  NewV4 : W → W * string;
  retry_Put : Message → W → W * option go_error;
}.

(** [pkg/stream/consumer_base.go:76-100] baseConsumer: the inputs that can
    acknowledge, and whether the consumer's input retries by itself *)
Record baseConsumer := {
  bc_world : world;
  bc_settings : ConsumerSettings;
  hasNativeRetry : bool;
  acknowledgeable : nat → bool;
}.
Implicit Types (c : baseConsumer) (msg : Message) (w : W) (tr : list event).

(** [pkg/stream/consumer_base.go:447-462] baseConsumer.buildRetryMessage *)
Definition buildRetryMessage c msg w : W * (Message * string) :=
  match Attributes msg !! AttributeRetryId with
  | Some retryId => (w, (msg, retryId))
  | None =>
      let '(w, retryId) := NewV4 (bc_world c) w in
      (w, ({| Attributes := copy_attributes
                (<[AttributeRetry := "true"%string]> {[AttributeRetryId := retryId]}) (Attributes msg);
              Body := Body msg |}, retryId))
  end.

(** [pkg/stream/consumer_base.go:419-439] baseConsumer.retry; an error of the
    handler is only logged *)
Definition retry c msg w : W * list event :=
  if negb (RetryEnabled (bc_settings c)) then (w, [])
  else
    let '(w, (retryMsg, retryId)) := buildRetryMessage c msg w in
    let '(w, _) := retry_Put (bc_world c) retryMsg w in (w, [Retried retryMsg]).

(** [pkg/stream/consumer_base.go:403-417] baseConsumer.recover after a panic;
    [msg] is [None] for a nil message *)
Definition recover c (msg : option Message) w : W * list event :=
  match msg with
  | None => (w, [])
  | Some msg => if hasNativeRetry c then (w, []) else retry c msg w
  end.

(** [pkg/stream/consumer_acknowledge.go:25-59] consumerAcknowledge.Acknowledge *)
Definition Acknowledge c (cdata : consumerData) (ack : bool) : list event :=
  if acknowledgeable c (cd_input cdata) then [Acked (cd_input cdata) (cd_msg cdata) ack] else [].

(** [pkg/stream/consumer.go:185-270] Consumer.process: the state, the events and
    whether the message was acknowledged *)
Definition process c msg (nativeRetry : bool) w : W * list event * bool :=
  let wd := bc_world c in
  if ctx_done wd w then
    let '(w, tr) := if negb nativeRetry then retry c msg w else (w, []) in (w, tr, false)
  else
    match GetModel wd (Attributes msg) w with
    | (w, Panicked _) => let '(w, tr) := recover c (Some msg) w in (w, tr, false)
    | (w, Returned (Err err)) =>
        match IsIgnorableWithSettings err with
        | Some ignorable => (w, [], ignorable (IgnoreOnGetModelError (bc_settings c)))
        | None => (w, [], false)
        end
    | (w, Returned (Ok false)) => (w, [], false)
    | (w, Returned (Ok true)) =>
        match decode wd msg with
        | Err _ => (w, [], false)
        | Ok model =>
            match Consume wd model msg w with
            | (w, Panicked _) => let '(w, tr) := recover c (Some msg) w in (w, Consumed msg :: tr, false)
            | (w, Returned (ack, _)) =>
                let '(w, tr) := if negb ack && negb nativeRetry then retry c msg w else (w, []) in
                (w, Consumed msg :: tr, ack)
            end
        end
    end.

(** [pkg/stream/consumer.go:161-173] Consumer.processSingleMessage *)
Definition processSingleMessage c (cdata : consumerData) w : W * list event :=
  let '(w, tr, ack) := process c (cd_msg cdata) (hasNativeRetry c) w in
  (w, tr ++ Acknowledge c cdata ack).

(** [pkg/stream/consumer.go:141-155] the parts of an aggregate *)
Fixpoint processParts c (nativeRetry : bool) (batch : list Message) w : W * list event :=
  match batch with
  | [] => (w, [])
  | m :: batch' =>
      let '(w, tr, _) := process c m nativeRetry w in
      let '(w, tr') := processParts c nativeRetry batch' w in (w, tr ++ tr')
  end.

(** [pkg/stream/consumer.go:125-159] Consumer.processAggregateMessage *)
Definition processAggregateMessage c (cdata : consumerData) w : W * list event :=
  match decode_aggregate (bc_world c) (cd_msg cdata) with
  | Err _ => (w, [])
  | Ok batch =>
      let mode := AggregateMessageMode (bc_settings c) in
      let before := if decide (mode = AtMostOnce) then Acknowledge c cdata true else [] in
      let '(w, tr) := processParts c (bool_decide (mode = AtLeastOnce) && hasNativeRetry c) batch w in
      let after := if decide (mode = AtLeastOnce) then Acknowledge c cdata true else [] in
      (w, before ++ tr ++ after)
  end.

(** [pkg/stream/consumer.go:112-116] a message in Consumer.readData *)
Definition readData c (cdata : consumerData) w : W * list event :=
  if map_has (Attributes (cd_msg cdata)) AttributeAggregate then processAggregateMessage c cdata w
  else processSingleMessage c cdata w.

(** ** Batch consumers *)

(** [pkg/stream/consumer_batch.go:119-136] BatchConsumer.processAggregateMessage:
    the parts have no source *)
Definition batchAggregate c (cdata : consumerData) (batch : list consumerData) : list consumerData :=
  match decode_aggregate (bc_world c) (cd_msg cdata) with
  | Err _ => batch
  | Ok parts => batch ++ ((λ m, {| cd_msg := m; cd_src := ""; cd_input := cd_input cdata |}) <$> parts)
  end.

(** [pkg/stream/consumer_batch.go:103-107] a message in BatchConsumer.readFromInput *)
Definition batchMessage c (cdata : consumerData) (batch : list consumerData) : list consumerData :=
  if map_has (Attributes (cd_msg cdata)) AttributeAggregate then batchAggregate c cdata batch
  else batch ++ [cdata].

(** [pkg/stream/consumer_batch.go:225-276] BatchConsumer.decodeMessages: a
    message without a model or that can not be decoded is left out; a panic of
    the callback ends the batch *)
Fixpoint decodeMessages c (batch : list consumerData) w :
    W * outcome (list (consumerData * D)) :=
  match batch with
  | [] => (w, Returned [])
  | cdata :: batch' =>
      match GetModel (bc_world c) (Attributes (cd_msg cdata)) w with
      | (w, Panicked err) => (w, Panicked err)
      | (w, Returned (Err _)) => decodeMessages c batch' w
      | (w, Returned (Ok _)) =>
          match decode (bc_world c) (cd_msg cdata) with
          | Err _ => decodeMessages c batch' w
          | Ok model =>
              match decodeMessages c batch' w with
              | (w, Returned rest) => (w, Returned ((cdata, model) :: rest))
              | (w, Panicked err) => (w, Panicked err)
              end
          end
      end
  end.

(** [pkg/stream/consumer_batch.go:197-207] as many acks as messages *)
Definition pad_acks (acks : list bool) (n : nat) : list bool :=
  if length acks =? n then acks else take n (acks ++ replicate (n - length acks) false).

(** [pkg/stream/consumer_acknowledge.go:71-88] the groups of AcknowledgeBatch, by
    source: the input, the messages and the acks *)
Definition ack_groups := gmap string (nat * list Message * list bool).

Fixpoint groupAcks c (cdata : list (consumerData * bool)) (groups : ack_groups) : ack_groups :=
  match cdata with
  | [] => groups
  | (data, ack) :: rest =>
      if negb (acknowledgeable c (cd_input data)) then groupAcks c rest groups
      else
        let '(input, msgs, acks) := default (cd_input data, [], []) (groups !! cd_src data) in
        groupAcks c rest (<[cd_src data := (input, msgs ++ [cd_msg data], acks ++ [ack])]> groups)
  end.

(** [pkg/stream/consumer_acknowledge.go:61-106] consumerAcknowledge.AcknowledgeBatch *)
Definition AcknowledgeBatch c (ord : map_order string (nat * list Message * list bool))
    (cdata : list (consumerData * bool)) : list event :=
  (λ g, AckedBatch g.2.1.1 g.2.1.2 g.2.2) <$> enum ord (groupAcks c cdata ∅).

(** [pkg/stream/consumer_batch.go:209-215] retrying what was not acknowledged *)
Fixpoint retryUnacked c (cdata : list (consumerData * bool)) w : W * list event :=
  match cdata with
  | [] => (w, [])
  | (data, ack) :: rest =>
      let '(w, tr) := if negb ack && negb (hasNativeRetry c) then retry c (cd_msg data) w else (w, []) in
      let '(w, tr') := retryUnacked c rest w in (w, tr ++ tr')
  end.

(** [pkg/stream/consumer_batch.go:159-161] retrying a batch on shutdown *)
Fixpoint retryAll c (batch : list consumerData) w : W * list event :=
  match batch with
  | [] => (w, [])
  | cdata :: rest =>
      let '(w, tr) := retry c (cd_msg cdata) w in
      let '(w, tr') := retryAll c rest w in (w, tr ++ tr')
  end.

(** [pkg/stream/consumer_batch.go:152-223] BatchConsumer.consumeBatch *)
Definition consumeBatch c ord (batch : list consumerData) w : W * list event :=
  if ctx_done (bc_world c) w then
    if negb (hasNativeRetry c) then retryAll c batch w else (w, [])
  else if length batch =? 0 then (w, [])
  else
    match decodeMessages c batch w with
    | (w, Panicked _) => recover c None w
    | (w, Returned decoded) =>
        let consumed := (λ p, Consumed (cd_msg p.1)) <$> decoded in
        match ConsumeBatch (bc_world c) ((λ p, (p.2, cd_msg p.1)) <$> decoded) w with
        | (w, Panicked _) => let '(w, tr) := recover c None w in (w, consumed ++ tr)
        | (w, Returned (acks, _)) =>
            let acks := pad_acks acks (length decoded) in
            let acked := zip decoded.*1 acks in
            let '(w, tr) := retryUnacked c acked w in
            (w, consumed ++ tr ++ AcknowledgeBatch c ord acked)
        end
    end.
End Consumer.
Arguments world : clear implicits.
Arguments baseConsumer : clear implicits.

(** ** Retry handlers *)

(** [pkg/stream/retry_sqs.go:99-114] RetryHandlerSqs.Put: the message for the
    output, or [None] when it came from the retry queue *)
Definition RetryHandlerSqs_Put (afterSeconds : string) (msg : Message) : option Message :=
  if map_has (Attributes msg) attributeRetrySqs then None
  else Some {| Attributes := <[AttributeSqsDelaySeconds := afterSeconds]>
                 (<[attributeRetrySqs := "true"%string]> (Attributes msg));
               Body := Body msg |}.

(** [pkg/stream/manual_sqs_retry_handler.go:26-40] manualSqsRetryHandler.Put *)
Definition manualSqsRetryHandler_Put (msg : Message) : option Message :=
  if map_has (Attributes msg) attributeRetrySqs then None
  else Some {| Attributes := <[attributeRetrySqs := "true"%string]> (Attributes msg); Body := Body msg |}.

(** ** Lemmas *)
Section ConsumerLemmas.
Context {W D : Type}.
Implicit Types (c : baseConsumer W D) (msg m : Message) (w : W) (tr : list event) (cdata : consumerData).

(** A retry of [msg]: the message with a retry id. *)
Definition retry_of msg (e : event) : Prop :=
  ∃ m, e = Retried m ∧ Body m = Body msg ∧ is_Some (Attributes m !! AttributeRetryId) ∧
    (∀ k v, k ≠ AttributeRetry → k ≠ AttributeRetryId → Attributes msg !! k = Some v → Attributes m !! k = Some v).

Lemma buildRetryMessage_spec c msg w w' m id :
  buildRetryMessage c msg w = (w', (m, id)) → retry_of msg (Retried m).
Proof.
  unfold buildRetryMessage. destruct (Attributes msg !! AttributeRetryId) as [x|] eqn:Hx.
  - intros [= <- <- <-]. exists msg. by split_and!.
  - destruct (NewV4 (bc_world c) w) as [w1 i]. intros [= <- <- <-]. eexists. split; [done|].
    split; [done|]. unfold copy_attributes. cbn [Attributes]. split.
    + exists i. by apply lookup_union_Some_l.
    + intros k v H1 H2 Hk. rewrite lookup_union_r //.
      by rewrite !lookup_insert_ne.
Qed.

Lemma retry_spec c msg w w' tr :
  retry c msg w = (w', tr) →
  if RetryEnabled (bc_settings c) then ∃ e, tr = [e] ∧ retry_of msg e else tr = [].
Proof.
  unfold retry. destruct (RetryEnabled (bc_settings c)); simpl; [|intros Heq; by simplify_eq].
  destruct (buildRetryMessage c msg w) as [w1 [m id]] eqn:Hb. apply buildRetryMessage_spec in Hb.
  destruct (retry_Put _ _ _) as [w2 err]. intros Heq. simplify_eq. by exists (Retried m).
Qed.

(** What processing one message may leave behind: at most one call of the
    callback and at most one retry, after it; no retry of an acknowledged message
    or where the input retries by itself; and, where it does not, a retry of
    every message that was consumed or that came during a shutdown and was not
    acknowledged. *)
Definition fate c msg (nativeRetry done : bool) tr (ack : bool) : Prop :=
  ∃ consumed retries, tr = consumed ++ retries ∧ (consumed = [] ∨ consumed = [Consumed msg]) ∧
    (retries = [] ∨ ∃ e, retries = [e] ∧ retry_of msg e) ∧
    (ack = true → retries = []) ∧
    (nativeRetry = true → hasNativeRetry c = true → retries = []) ∧
    (RetryEnabled (bc_settings c) = true → nativeRetry = false → hasNativeRetry c = false → ack = false →
      (consumed ≠ [] ∨ done = true) → retries ≠ []).

Lemma fate_skip c msg nativeRetry ack : fate c msg nativeRetry false [] ack.
Proof. exists [], []. split_and!; [done|by left|by left|done|done|]. by intros _ _ _ _ [?|?]. Qed.

Lemma fate_consumed c msg nativeRetry done ack :
  ack = true ∨ nativeRetry = true ∨ hasNativeRetry c = true → fate c msg nativeRetry done [Consumed msg] ack.
Proof. intros Hor. exists [Consumed msg], []. split_and!; [done|by right|by left|done|done|].
  intros _ -> Hn ->. by destruct Hor as [?|[?|?]]; congruence.
Qed.

Lemma fate_retried c msg nativeRetry done consumed w w' tr :
  consumed = [] ∨ consumed = [Consumed msg] → nativeRetry = false ∨ hasNativeRetry c = false →
  retry c msg w = (w', tr) → fate c msg nativeRetry done (consumed ++ tr) false.
Proof.
  intros Hcons Hn Hr%retry_spec. exists consumed, tr. split_and!; [done|done| |done|..].
  - destruct (RetryEnabled _); [by right|by left].
  - intros H1 H2. destruct Hn; congruence.
  - intros Hre _ _ _ _. rewrite Hre in Hr. by destruct Hr as (e & -> & _).
Qed.

Lemma fate_recovered c msg nativeRetry consumed w w' tr :
  consumed = [] ∨ consumed = [Consumed msg] →
  recover c (Some msg) w = (w', tr) → fate c msg nativeRetry false (consumed ++ tr) false.
Proof.
  intros Hcons. unfold recover. destruct (hasNativeRetry c) eqn:Hn.
  - intros [= <- <-]. rewrite app_nil_r. destruct Hcons as [->| ->]; [apply fate_skip|].
    apply fate_consumed. by right; right.
  - intros Hr. eapply fate_retried; [done|by right|done].
Qed.

Lemma process_spec c msg nativeRetry w w' tr ack :
  process c msg nativeRetry w = (w', tr, ack) → fate c msg nativeRetry (ctx_done (bc_world c) w) tr ack.
Proof.
  unfold process. destruct (ctx_done (bc_world c) w).
  { destruct nativeRetry; simpl.
    - intros [= <- <- <-]. exists [], []. by split_and!; [|left|left|..].
    - destruct (retry c msg w) as [w1 tr1] eqn:Hr. intros [= <- <- <-].
      apply (fate_retried c msg false true [] w w1 tr1); [by left|by left|done]. }
  destruct (GetModel (bc_world c) (Attributes msg) w) as [w1 [[[|]|err]|perr]].
  - destruct (decode (bc_world c) msg) as [model|derr]; [|intros [= <- <- <-]; apply fate_skip].
    destruct (Consume (bc_world c) model msg w1) as [w2 [[[|] cerr]|perr]].
    + intros [= <- <- <-]. apply fate_consumed. by left.
    + destruct nativeRetry; simpl; [intros [= <- <- <-]; apply fate_consumed; by right; left|].
      destruct (retry c msg w2) as [w3 tr3] eqn:Hr. intros [= <- <- <-].
      eapply (fate_retried _ _ _ _ [Consumed msg]); [by right|by left|done].
    + destruct (recover c (Some msg) w2) as [w3 tr3] eqn:Hr. intros [= <- <- <-].
      eapply (fate_recovered _ _ _ [Consumed msg]); [by right|done].
  - intros [= <- <- <-]. apply fate_skip.
  - destruct (IsIgnorableWithSettings err); intros Heq; simplify_eq; apply fate_skip.
  - destruct (recover c (Some msg) w1) as [w3 tr3] eqn:Hr. intros [= <- <- <-].
    eapply (fate_recovered _ _ _ []); [by left|done].
Qed.

(** With native retries the parts of an at-least-once aggregate leave only calls
    of the callback behind. *)
Lemma processParts_native c batch w w' tr :
  hasNativeRetry c = true → processParts c true batch w = (w', tr) →
  ∀ e, e ∈ tr → ∃ m, m ∈ batch ∧ e = Consumed m.
Proof.
  intros Hn. revert w w' tr. induction batch as [|m batch IH]; intros w w' tr; simpl.
  { intros [= <- <-] e ?%elem_of_nil. done. }
  destruct (process c m true w) as [[w1 tr1] ack] eqn:Hp.
  destruct (processParts c true batch w1) as [w2 tr2] eqn:Hps. intros [= <- <-] e [He|He]%elem_of_app.
  - apply process_spec in Hp as (consumed & retries & -> & Hc & _ & _ & Hr & _).
    rewrite (Hr eq_refl Hn) app_nil_r in He. exists m. split; [by left|].
    destruct Hc as [->| ->]; [by apply elem_of_nil in He|by apply list_elem_of_singleton in He].
  - destruct (IH _ _ _ Hps e He) as (m' & Hm & ->). exists m'. split; [by right|done].
Qed.

(** Every part of an aggregate has its own fate. *)
Lemma processParts_fate c nativeRetry batch w w' tr :
  processParts c nativeRetry batch w = (w', tr) →
  ∃ trs, tr = mjoin trs ∧
    Forall2 (λ m t, ∃ done ack, fate c m nativeRetry done t ack) batch trs.
Proof.
  revert w w' tr. induction batch as [|m batch IH]; intros w w' tr; simpl.
  { intros [= <- <-]. exists []. by split; [|constructor]. }
  destruct (process c m nativeRetry w) as [[w1 tr1] ack] eqn:Hp. apply process_spec in Hp.
  destruct (processParts c nativeRetry batch w1) as [w2 tr2] eqn:Hps. intros [= <- <-].
  destruct (IH _ _ _ Hps) as (trs & -> & Htrs). exists (tr1 :: trs). split; [done|].
  constructor; [by eexists _, _|done].
Qed.

(** The items of a source, in order. *)
Definition of_source c (src : string) (items : list (consumerData * bool)) : list (consumerData * bool) :=
  List.filter (λ p, acknowledgeable c (cd_input p.1) && bool_decide (cd_src p.1 = src)) items.

Definition group_of (old : option (nat * list Message * list bool)) (items : list (consumerData * bool)) :
    option (nat * list Message * list bool) :=
  match old, items with
  | Some (i, ms, acks), _ => Some (i, ms ++ ((λ p, cd_msg p.1) <$> items), acks ++ items.*2)
  | None, [] => None
  | None, p :: _ => Some (cd_input p.1, (λ p, cd_msg p.1) <$> items, items.*2)
  end.

Lemma groupAcks_spec c items groups src :
  groupAcks c items groups !! src = group_of (groups !! src) (of_source c src items).
Proof.
  revert groups. induction items as [|[d b] items IH]; intros groups; simpl.
  { destruct (groups !! src) as [[[i ms] acks]|]; simpl; by rewrite ?app_nil_r. }
  unfold of_source. simpl. destruct (acknowledgeable c (cd_input d)); simpl; [|apply IH].
  destruct (default (cd_input d, [], []) (groups !! cd_src d)) as [[i ms] acks] eqn:Hdef.
  rewrite IH. unfold of_source. case_bool_decide as Hsrc.
  - subst src. rewrite lookup_insert_eq. simpl.
    destruct (groups !! cd_src d) as [[[i' ms'] acks']|]; simplify_eq/=; [|done].
    by rewrite -!app_assoc.
  - by rewrite lookup_insert_ne.
Qed.
End ConsumerLemmas.

(** ** Properties *)
Section ConsumerProperties.
Context {W D : Type}.
Implicit Types (c : baseConsumer W D) (msg m : Message) (w : W) (cdata : consumerData).

(** C34: a single message is acknowledged exactly once, after everything else;
    it is consumed and retried at most once each; an acknowledged message is not
    retried; with retries enabled on an input without native retries every
    message that was consumed but not acknowledged, because the callback failed
    or panicked, or that arrived during the shutdown, is retried, with its
    body and attributes and a retry id. *)
Theorem processSingleMessage_correct c cdata w w' tr :
  processSingleMessage c cdata w = (w', tr) →
  ∃ ack consumed retries,
    tr = consumed ++ retries ++ Acknowledge c cdata ack ∧
    (consumed = [] ∨ consumed = [Consumed (cd_msg cdata)]) ∧
    (retries = [] ∨ ∃ e, retries = [e] ∧ retry_of (cd_msg cdata) e) ∧
    (ack = true ∨ hasNativeRetry c = true → retries = []) ∧
    (RetryEnabled (bc_settings c) = true → hasNativeRetry c = false → ack = false →
      (consumed ≠ [] ∨ ctx_done (bc_world c) w = true) → retries ≠ []).
Proof.
  unfold processSingleMessage.
  destruct (process c (cd_msg cdata) (hasNativeRetry c) w) as [[w1 tr1] ack] eqn:Hp. intros [= <- <-].
  destruct (process_spec _ _ _ _ _ _ _ Hp) as (consumed & retries & -> & Hc & Hr & Ha & Hn & Hre).
  exists ack, consumed, retries. rewrite -app_assoc. split_and!; [done|done|done| |].
  - intros [?|?]; auto.
  - intros H1 H2 H3 H4. by apply Hre.
Qed.

(** On an input with native retries an aggregate in the mode "at least once"
    is acknowledged as a whole whatever became of its parts: no part is ever
    retried, also not one the callback failed on or panicked on. *)
Theorem atLeastOnce_native_never_retries c cdata batch w w' tr :
  hasNativeRetry c = true → AggregateMessageMode (bc_settings c) = AtLeastOnce →
  decode_aggregate (bc_world c) (cd_msg cdata) = Ok batch →
  processAggregateMessage c cdata w = (w', tr) →
  ∃ parts, tr = parts ++ Acknowledge c cdata true ∧
    ∀ e, e ∈ parts → ∃ m, m ∈ batch ∧ e = Consumed m.
Proof.
  intros Hn Hmode Hdec. unfold processAggregateMessage. rewrite Hdec Hmode /= Hn.
  destruct (processParts c true batch w) as [w1 tr1] eqn:Hp. intros [= <- <-].
  exists tr1. split; [done|]. by eapply processParts_native.
Qed.

(** An aggregate is acknowledged as a whole exactly once: before any of its
    parts in the mode "at most once", after all of them in the mode "at least
    once"; every part is processed in order and meets the fate of a single
    message. *)
Theorem processAggregateMessage_correct c cdata batch w w' tr :
  decode_aggregate (bc_world c) (cd_msg cdata) = Ok batch →
  processAggregateMessage c cdata w = (w', tr) →
  let mode := AggregateMessageMode (bc_settings c) in
  let nativeRetry := bool_decide (mode = AtLeastOnce) && hasNativeRetry c in
  ∃ trs, Forall2 (λ m t, ∃ done ack, fate c m nativeRetry done t ack) batch trs ∧
    tr = match mode with
         | AtMostOnce => Acknowledge c cdata true ++ mjoin trs
         | AtLeastOnce => mjoin trs ++ Acknowledge c cdata true
         end.
Proof.
  intros Hdec. unfold processAggregateMessage. rewrite Hdec. cbv zeta.
  destruct (processParts _ _ batch w) as [w1 tr1] eqn:Hp. intros [= <- <-].
  apply processParts_fate in Hp as (trs & -> & Htrs). exists trs. split; [done|].
  destruct (AggregateMessageMode (bc_settings c)); simpl; by rewrite ?app_nil_r.
Qed.

(** AcknowledgeBatch makes one call per source: with the messages and acks of
    the source's acknowledgeable items, in order and paired as given, on the
    input of the first of them. *)
Theorem AcknowledgeBatch_correct c ord (items : list (consumerData * bool)) e :
  e ∈ AcknowledgeBatch c ord items ↔
  ∃ src d b, head (of_source c src items) = Some (d, b) ∧
    e = AckedBatch (cd_input d) ((λ p, cd_msg p.1) <$> of_source c src items) (of_source c src items).*2.
Proof.
  unfold AcknowledgeBatch. rewrite list_elem_of_fmap. split.
  - intros ([src [[i ms] acks]] & -> & Hin%elem_of_enum). rewrite groupAcks_spec lookup_empty in Hin.
    exists src. destruct (of_source c src items) as [|[d b] l]; simplify_eq/=. by exists d, b.
  - intros (src & d & b & Hhead & ->).
    exists (src, (cd_input d, (λ p, cd_msg p.1) <$> of_source c src items, (of_source c src items).*2)).
    split; [done|]. apply elem_of_enum. rewrite groupAcks_spec lookup_empty.
    destruct (of_source c src items) as [|p l]; simplify_eq/=. done.
Qed.
End ConsumerProperties.

(** A consumer whose callback acknowledges the body "ok" and panics on "boom". *)
Definition sample_world : world nat string := {|
  ctx_done := λ _, false;
  GetModel := λ _ w, (w, Returned (Ok true));
  decode := λ m, Ok (Body m);
  decode_aggregate := λ m, Ok [{| Attributes := ∅; Body := "ok" |}; {| Attributes := ∅; Body := "boom" |}];
  Consume := λ d m w, (S w, if bool_decide (d = "boom"%string) then Panicked (EMsg "boom")
    else Returned (bool_decide (d = "ok"%string), None));
  ConsumeBatch := λ _ w, (w, Returned ([], None));
  NewV4 := λ w, (S w, "id"%string);
  retry_Put := λ _ w, (w, None);
|}.

Definition sample_consumer (native : bool) (mode : AggregateMode) : baseConsumer nat string := {|
  bc_world := sample_world;
  bc_settings := {| RetryEnabled := true; AggregateMessageMode := mode;
    IgnoreOnGetModelError := {| UnknownModel := false; UnknownVersion := false |}; ConsumerBatchSize := 1 |};
  hasNativeRetry := native;
  acknowledgeable := λ _, true;
|}.

Definition sample_data (body : string) : consumerData :=
  {| cd_msg := {| Attributes := ∅; Body := body |}; cd_src := "input"; cd_input := 0 |}.

Lemma processSingleMessage_correct_witness :
  (processSingleMessage (sample_consumer false AtMostOnce) (sample_data "boom") 0).2 =
    [Consumed (cd_msg (sample_data "boom"));
     Retried {| Attributes := <[AttributeRetry := "true"%string]> {[AttributeRetryId := "id"%string]}; Body := "boom" |};
     Acked 0 (cd_msg (sample_data "boom")) false] ∧
  ∃ ack consumed retries, (processSingleMessage (sample_consumer false AtMostOnce) (sample_data "boom") 0).2 =
    consumed ++ retries ++ Acknowledge (sample_consumer false AtMostOnce) (sample_data "boom") ack ∧
    (retries = [] ∨ ∃ e, retries = [e] ∧ retry_of (cd_msg (sample_data "boom")) e).
Proof.
  split; [by vm_compute|].
  destruct (processSingleMessage_correct (sample_consumer false AtMostOnce) (sample_data "boom") 0 _ _ eq_refl)
    as (ack & consumed & retries & Htr & _ & Hr & _).
  by exists ack, consumed, retries.
Defined.

Lemma atLeastOnce_native_never_retries_witness :
  (processAggregateMessage (sample_consumer true AtLeastOnce) (sample_data "x") 0).2 =
    [Consumed {| Attributes := ∅; Body := "ok" |}; Consumed {| Attributes := ∅; Body := "boom" |};
     Acked 0 (cd_msg (sample_data "x")) true] ∧
  ∃ parts, (processAggregateMessage (sample_consumer true AtLeastOnce) (sample_data "x") 0).2 =
    parts ++ Acknowledge (sample_consumer true AtLeastOnce) (sample_data "x") true.
Proof.
  split; [by vm_compute|].
  destruct (atLeastOnce_native_never_retries (sample_consumer true AtLeastOnce) (sample_data "x") _ 0 _ _
    eq_refl eq_refl eq_refl eq_refl) as (parts & Hp & _).
  by exists parts.
Defined.

Lemma processAggregateMessage_correct_witness :
  ∃ trs, (processAggregateMessage (sample_consumer false AtMostOnce) (sample_data "x") 0).2 =
    Acknowledge (sample_consumer false AtMostOnce) (sample_data "x") true ++ mjoin trs.
Proof.
  destruct (processAggregateMessage_correct (sample_consumer false AtMostOnce) (sample_data "x") _ 0 _ _
    eq_refl eq_refl) as (trs & _ & Htr).
  by exists trs.
Defined.

(** Two parts of aggregates from different inputs have the same, empty, source:
    both are acknowledged on the first one's input. *)
Example parts_of_two_inputs :
  AcknowledgeBatch (sample_consumer false AtMostOnce) canonical_order
    [({| cd_msg := {| Attributes := ∅; Body := "a" |}; cd_src := ""; cd_input := 0 |}, true);
     ({| cd_msg := {| Attributes := ∅; Body := "b" |}; cd_src := ""; cd_input := 1 |}, true)] =
  [AckedBatch 0 [{| Attributes := ∅; Body := "a" |}; {| Attributes := ∅; Body := "b" |}] [true; true]].
Proof. reflexivity. Qed.
