(* ===== verification/Cache.v ===== *)
(** * pkg/cache: the typed cache with expiry

    The cache wraps [github.com/karlseguin/ccache], which is a parameter: its
    operations are [CCache], what it documents is [CCacheLaws].  The wall clock
    is read by ccache; [now] is the time of the call in nanoseconds. *)
From S2P Require Import Prelude.

(** The third-party cache: items are kept under a key with an expiry time. *)
Class CCache (T I B : Type) := {
  cc_get : string → B → B * option I;
  cc_set : Z → string → T → Z → B → B;
  cc_delete : string → B → B * bool;
  (** [item.Extend(d)] on the item stored under the key *)
  cc_extend : Z → string → Z → B → B;
  cc_expired : Z → I → bool;
  cc_value : I → T;
}.

(** Documented behaviour: a lookup returns the item of the key, a stored item
    carries its value, and the cache may drop items at any time. *)
Class CCacheLaws (T I B : Type) `{!CCache T I B} := {
  cc_items : B → gmap string I;
  cc_get_law k b : (cc_get k b).2 = cc_items b !! k ∧ cc_items (cc_get k b).1 ⊆ cc_items b;
  cc_set_law now k v ttl b k' i :
    cc_items (cc_set now k v ttl b) !! k' = Some i →
    (k' = k ∧ cc_value i = v) ∨ (k' ≠ k ∧ cc_items b !! k' = Some i);
  cc_extend_law now k d b k' i :
    cc_items (cc_extend now k d b) !! k' = Some i →
    (k' = k ∧ (d < 0 → cc_expired now i = true)%Z ∧
      ∃ i0, cc_items b !! k = Some i0 ∧ cc_value i = cc_value i0) ∨
    (k' ≠ k ∧ cc_items b !! k' = Some i);
  cc_delete_law k b : cc_items (cc_delete k b).1 ⊆ delete k (cc_items b);
}.

Section Cache.
Context {T I B : Type} `{!CCache T I B} `{Zero T}.
Implicit Types (key : string) (value : T).

(** [pkg/cache/ccache.go:60-65] cache; the key lock serialises the callers of
    Mutate and Provide, which the model runs one at a time. *)
Record cache := Cache {
  base : B;
  ttl : Z;
  notFoundTtl : Z;
}.

(** [pkg/cache/ccache.go:77-90] NewWithConfiguration: [base] is the configured
    ccache, the options are functions on the cache. *)
Definition NewWithConfiguration (base : B) (ttl : Z) (options : list (cache → cache)) : cache :=
  fold_left (λ c opt, opt c) options {| base := base; ttl := ttl; notFoundTtl := 0 |}.

(** [pkg/cache/ccache.go:92-96] WithNotFoundTtl *)
Definition WithNotFoundTtl (d : Z) (c : cache) : cache :=
  {| base := base c; ttl := ttl c; notFoundTtl := d |}.

Definition with_base (c : cache) (b : B) : cache :=
  {| base := b; ttl := ttl c; notFoundTtl := notFoundTtl c |}.

(** [pkg/cache/ccache.go:98-100] cache.Delete *)
Definition Delete (key : string) (c : cache) : cache * bool :=
  let '(b, found) := cc_delete key (base c) in (with_base c b, found).

(** [pkg/cache/ccache.go:106-108] cache.SetX *)
Definition SetX (now : Z) (key : string) (value : T) (d : Z) (c : cache) : cache :=
  with_base c (cc_set now key value d (base c)).

(** [pkg/cache/ccache.go:102-104] cache.Set *)
Definition Set_ (now : Z) (key : string) (value : T) (c : cache) : cache :=
  SetX now key value (ttl c) c.

(** [pkg/cache/ccache.go:110-128] cache.Get *)
Definition Get (now : Z) (key : string) (c : cache) : cache * (T * bool) :=
  let '(b, item) := cc_get key (base c) in
  let c := with_base c b in
  match item with
  | None => (c, (zero, false))
  | Some item =>
      if cc_expired now item then (c, (zero, false))
      else (c, (cc_value item, true))
  end.

(** [pkg/cache/ccache.go:130-134] cache.Contains *)
Definition Contains (now : Z) (key : string) (c : cache) : cache * bool :=
  let '(c, (_, ok)) := Get now key c in (c, ok).

(** [pkg/cache/ccache.go:136-147] cache.Expire *)
Definition Expire (now : Z) (key : string) (c : cache) : cache * bool :=
  let '(b, item) := cc_get key (base c) in
  match item with
  | None => (with_base c b, false)
  | Some _ => (with_base c (cc_extend now key (-1000000000) b), true)
  end.

(** [pkg/cache/ccache.go:219-224] storing a value, or a zero value when the
    cache remembers what was not found; [isZero] is reflection's zero test. *)
Definition store (isZero : T → bool) (now : Z) (key : string) (value : T) (d : Z) (c : cache) : cache :=
  if negb (isZero value) then SetX now key value d c
  else if (0 <? notFoundTtl c)%Z then SetX now key value (notFoundTtl c) c
  else c.

(** [pkg/cache/ccache.go:157-177] cache.mutate *)
Definition mutate (isZero : T → bool) (now : Z) (key : string) (f : option T → T) (d : Z) (c : cache) :
    cache * T :=
  let '(c, (tmp, exists_)) := Get now key c in
  let result := if (exists_ : bool) then Some tmp else None in
  let mutated := f result in
  (store isZero now key mutated d c, mutated).

(** [pkg/cache/ccache.go:149-151] cache.Mutate *)
Definition Mutate (isZero : T → bool) (now : Z) (key : string) (f : option T → T) (c : cache) : cache * T :=
  mutate isZero now key f (ttl c) c.

(** [pkg/cache/ccache.go:206-227] provide: the provider runs in the state [W] of
    the rest of the program. *)
Definition provide {W} (isZero : T → bool) (now : Z) (key : string)
    (provider : W → W * (T * bool)) (c : cache) (w : W) : cache * W * (T * bool) :=
  let '(c, (result, ok)) := Get now key c in
  if (ok : bool) then (c, w, (result, true))
  else
    let '(w, (result, ok)) := provider w in
    if negb ok then (c, w, (result, false))
    else (store isZero now key result (ttl c) c, w, (result, true)).

(** [pkg/cache/ccache.go:179-185] cache.Provide *)
Definition Provide {W} (isZero : T → bool) (now : Z) (key : string) (provider : W → W * T)
    (c : cache) (w : W) : cache * W * T :=
  let '(c, w, (result, _)) := provide isZero now key
    (λ w, let '(w, r) := provider w in (w, (r, true))) c w in (c, w, result).

(** [pkg/cache/ccache.go:187-204] cache.ProvideWithError; [err] is the variable
    the closure assigns. *)
Definition ProvideWithError {W E} (isZero : T → bool) (now : Z) (key : string)
    (provider : W → W * (T * option E)) (c : cache) (w : W) : cache * W * (T * option E) :=
  let '(c, (w, err), (result, ok)) := provide (W := W * option E) isZero now key
    (λ '(w, _), let '(w, (r, err)) := provider w in
       ((w, err), (r, match err with None => true | Some _ => false end))) c (w, None) in
  if negb ok then (c, w, (zero, err)) else (c, w, (result, None)).
End Cache.
Arguments cache : clear implicits.

(** ** What the cache holds *)
Section CacheView.
Context {T I B : Type} `{!CCache T I B} `{!CCacheLaws T I B} `{Zero T}.
Implicit Types (c : cache B).

(** The entries a lookup at time [now] finds. *)
Definition live (now : Z) (c : cache B) : gmap string T :=
  omap (λ i, if cc_expired now i then None else Some (cc_value i)) (cc_items (T := T) (I := I) (base c)).

Lemma live_lookup now c k v :
  live now c !! k = Some v ↔
  ∃ i, cc_items (T := T) (base c) !! k = Some i ∧ cc_expired now i = false ∧ cc_value i = v.
Proof.
  unfold live. rewrite lookup_omap. split.
  - destruct (cc_items (base c) !! k) as [i|]; simpl; [|done].
    destruct (cc_expired now i) eqn:He; intros [= <-]. by exists i.
  - intros (i & -> & He & <-). by rewrite /= He.
Qed.

Lemma live_mono now c c' :
  cc_items (T := T) (I := I) (base c') ⊆ cc_items (T := T) (base c) → live now c' ⊆ live now c.
Proof.
  intros Hsub. apply map_subseteq_spec. intros k v (i & Hi & He)%live_lookup.
  apply live_lookup. exists i. split; [by eapply lookup_weaken|done].
Qed.

Lemma Get_live now k c :
  live now (Get now k c).1 ⊆ live now c ∧
  (Get now k c).2 = match live now c !! k with Some v => (v, true) | None => (zero, false) end.
Proof.
  destruct (cc_get_law k (base c)) as [Hr Hsub]. unfold Get.
  destruct (cc_get k (base c)) as [b item]. simpl in *. subst item.
  unfold live at 3. rewrite lookup_omap.
  destruct (cc_items (base c) !! k) as [i|]; simpl; [destruct (cc_expired now i)|];
    split; (done || by apply live_mono).
Qed.

Lemma SetX_live now k v d c k' x :
  live now (SetX now k v d c) !! k' = Some x →
  (k' = k ∧ x = v) ∨ (k' ≠ k ∧ live now c !! k' = Some x).
Proof.
  intros (i & Hi & He & Hv)%live_lookup.
  apply cc_set_law in Hi as [[-> Hx]|[Hne Hi]]; [left; naive_solver|right].
  split; [done|]. apply live_lookup. by exists i.
Qed.

Lemma Expire_live now k c : live now (Expire now k c).1 ⊆ delete k (live now c).
Proof.
  destruct (cc_get_law k (base c)) as [Hr Hsub]. unfold Expire.
  destruct (cc_get k (base c)) as [b item]. simpl in *.
  apply map_subseteq_spec. intros k' v Hv. apply lookup_delete_Some. destruct item as [i|].
  - apply live_lookup in Hv as (i' & Hi & He & Hv). apply cc_extend_law in Hi as [(-> & Hex & _)|[Hne Hi]].
    { rewrite Hex in He; [lia|done]. }
    split; [done|]. apply live_lookup. exists i'. split; [by eapply lookup_weaken|done].
  - assert (live now c !! k' = Some v) as Hv' by (eapply lookup_weaken, live_mono; [exact Hv|done]).
    split; [|done]. intros <-. apply live_lookup in Hv' as (i & Hi & _). congruence.
Qed.

Lemma Contains_live now k c :
  live now (Contains now k c).1 ⊆ live now c ∧
  (Contains now k c).2 = bool_decide (is_Some (live now c !! k)).
Proof.
  destruct (Get_live now k c) as [Hsub Hr]. unfold Contains.
  destruct (Get now k c) as [c' [v ok]]. simpl in *.
  destruct (live now c !! k); simplify_eq; split; try done;
    by rewrite ?bool_decide_true ?bool_decide_false.
Qed.
End CacheView.

(** ** An unbounded cache

    An instance of the interface that never drops an item, for examples. *)
Section MapCache.
Context {T : Type}.

#[export] Instance map_CCache : CCache T (T * Z) (gmap string (T * Z)) := {|
  cc_get := λ k b, (b, b !! k);
  cc_set := λ now k v d b, <[k := (v, now + d)%Z]> b;
  cc_delete := λ k b, (delete k b, map_has b k);
  cc_extend := λ now k d b, alter (λ i, (i.1, now + d)%Z) k b;
  cc_expired := λ now i, (i.2 <? now)%Z;
  cc_value := fst;
|}.

#[export] Program Instance map_CCacheLaws : CCacheLaws T (T * Z) (gmap string (T * Z)) := {|
  cc_items := id;
|}.
Next Obligation. done. Qed.
Next Obligation.
  intros now k v d b k' i; cbn. intros [[<- <-]|[Hne Hi]]%lookup_insert_Some; [by left|by right].
Qed.
Next Obligation.
  intros now k d b k' i; cbn. intros [(<- & i0 & Hi & ->)|[Hne Hi]]%lookup_alter_Some.
  - left. split_and!; [done|intros; apply Z.ltb_lt; simpl; lia|by exists i0].
  - by right.
Qed.
Next Obligation. done. Qed.
End MapCache.

(** ** Properties *)

(** Provide returns a live value without calling the provider, and
    otherwise calls it exactly once and returns its result; it stores a result
    only if the provider succeeded and the result is not a zero value, or zero
    values are remembered. *)
Theorem provide_correct {T I B W} `{!CCache T I B, !CCacheLaws T I B, Zero T}
    (isZero : T → bool) (now : Z) (key : string) (provider : W → W * (T * bool))
    (c c' : cache B) (w w' : W) (r : T) (ok : bool) :
  provide isZero now key provider c w = (c', w', (r, ok)) →
  match live now c !! key with
  | Some v => w' = w ∧ r = v ∧ ok = true ∧ live now c' ⊆ live now c
  | None =>
      provider w = (w', (r, ok)) ∧
      ∀ k x, live now c' !! k = Some x →
        live now c !! k = Some x ∨
        (k = key ∧ x = r ∧ ok = true ∧ (isZero r = false ∨ 0 < notFoundTtl c')%Z)
  end.
Proof.
  intros Hp. destruct (Get_live now key c) as [Hsub Hr]. unfold provide in Hp.
  destruct (Get now key c) as [c1 [v found]]. simpl in *.
  destruct (live now c !! key); simplify_eq; [done|].
  destruct (provider w) as [w1 [r1 ok1]]. destruct ok1; simplify_eq/=.
  2:{ split; [done|]. intros k x Hx. left. by eapply lookup_weaken. }
  split; [done|]. intros k x. unfold store.
  destruct (isZero r) eqn:Hz; simpl; [destruct (0 <? notFoundTtl c1)%Z eqn:Hn|].
  - intros [[-> ->]|[Hne Hx]]%SetX_live; [right|left; by eapply lookup_weaken].
    split_and!; try done. right. by apply Z.ltb_lt.
  - intros Hx. left. by eapply lookup_weaken.
  - intros [[-> ->]|[Hne Hx]]%SetX_live; [right|left; by eapply lookup_weaken].
    split_and!; try done. by left.
Qed.

Lemma provide_correct_witness :
  (provide (Z.eqb 0) 10%Z "k" (λ w : nat, (S w, (7%Z, true)))
    (NewWithConfiguration (∅ : gmap string (Z * Z)) 100 []) 0).2 = (7%Z, true) ∧
  (provide (Z.eqb 0) 10%Z "k" (λ w : nat, (S w, (7%Z, true)))
    (NewWithConfiguration (∅ : gmap string (Z * Z)) 100 []) 0).1.2 = 1.
Proof.
  split; [by vm_compute|].
  destruct (provide (Z.eqb 0) 10%Z "k" (λ w : nat, (S w, (7%Z, true)))
    (NewWithConfiguration (∅ : gmap string (Z * Z)) 100 []) 0) as [[c' w'] [r ok]] eqn:Hp.
  pose proof (provide_correct _ _ _ _ _ _ _ _ _ _ Hp) as H.
  destruct (live 10%Z (NewWithConfiguration (∅ : gmap string (Z * Z)) 100 []) !! "k") eqn:Hl.
  - vm_compute in Hl. discriminate.
  - destruct H as [H _]. by simplify_eq/=.
Defined.

(** An entry that was expired or deleted is not found any more, and a value
    that was set is found under its key or not at all. *)
Theorem cache_writes_correct {T I B} `{!CCache T I B, !CCacheLaws T I B, Zero T}
    (now : Z) (key : string) (v : T) (d : Z) (c : cache B) :
  live now (Expire now key c).1 ⊆ delete key (live now c) ∧
  live now (Delete key c).1 ⊆ delete key (live now c) ∧
  live now (SetX now key v d c) ⊆ <[key := v]> (live now c).
Proof.
  split_and!; [apply Expire_live| |].
  - unfold Delete. pose proof (cc_delete_law key (base c)) as Hd.
    destruct (cc_delete key (base c)) as [b found]. simpl in *.
    apply map_subseteq_spec. intros k x (i & Hi & He)%live_lookup.
    assert (delete key (cc_items (base c)) !! k = Some i) as Hi' by (by eapply lookup_weaken).
    apply lookup_delete_Some in Hi' as [Hne Hi']. apply lookup_delete_Some.
    split; [done|]. apply live_lookup. by exists i.
  - apply map_subseteq_spec. intros k x [[-> ->]|[Hne Hx]]%SetX_live.
    + apply lookup_insert_eq.
    + by rewrite lookup_insert_ne.
Qed.
