(* ===== verification/KvInMemory.v ===== *)
(** * pkg/kvstore: the in-memory store and the batch helpers

    [now] is the time of a call; [mii_order] the order of a loop over a batch. *)
From S2P Require Import Prelude.
From S2P Require Import FunkSlice.
From S2P Require Import KvStore.
From S2P Require Import Cache.

(** ** The helpers of batch.go and uniq.go *)
Section Batch.
Context {O T : Type} `{Countable O}.
Context (ToStringE : any_key O → result error string).

(** [pkg/kvstore/batch.go:13-21] the loop of keyChunks; a round moves [i] on by
    [size], so [fuel] rounds are enough when [size] is positive. *)
Fixpoint keyChunks_loop (fuel i size : nat) (keys : list (any_key O)) (chunks : list (list (any_key O))) :
    list (list (any_key O)) :=
  match fuel with
  | 0 => chunks
  | S fuel' =>
      if i <? length keys then
        let end_ := i + size in
        let end_ := if length keys <? end_ then length keys else end_ in
        keyChunks_loop fuel' (i + size) size keys (chunks ++ [take (end_ - i) (drop i keys)])
      else chunks
  end.

(** [pkg/kvstore/batch.go:10-24] keyChunks *)
Definition keyChunks (keys : list (any_key O)) (size : nat) : list (list (any_key O)) :=
  keyChunks_loop (S (length keys)) 0 size keys [].

(** [pkg/kvstore/uniq.go:7-27] UniqKeys *)
Definition UniqKeys (keys : list (any_key O)) : result error (list (any_key O)) :=
  (fix go (seen : gmap string bool) (uniqKeys l : list (any_key O)) :=
    match l with
    | [] => Ok uniqKeys
    | key :: l' =>
        match CastKeyToString ToStringE key with
        | Err err => Err (ErrWrap "can not build string key" err)
        | Ok keyString =>
            if map_has seen keyString then go seen uniqKeys l'
            else go (<[keyString := true]> seen) (uniqKeys ++ [key]) l'
        end
    end) ∅ [] keys.

(** [pkg/refl/map.go:79-95] refl.Map.Set; [typeOf] is the dynamic type of a key *)
Definition rmap_Set (typeOf : any_key O → ktype) (key : any_key O) (value : T) (m : rmap O T) :
    result error (rmap O T) :=
  if decide (typeOf key ≠ rm_keyType m) then Err ErrKeyType
  else Ok (RMap (rm_keyType m) (<[key := value]> (rm_entries m))).

(** [pkg/kvstore/batch.go:26-26] the type chunkGetter, over a store state [S_] *)
Definition chunkGetter (S_ : Type) : Type :=
  rmap O T → list (any_key O) → S_ → S_ * (rmap O T * result error (list (any_key O))).

(** [pkg/kvstore/batch.go:51-58] the loop over the chunks *)
Fixpoint getChunks {S_} (getChunk : chunkGetter S_) (chunks : list (list (any_key O)))
    (missing : list (any_key O)) (resultMap : rmap O T) (s : S_) :
    S_ * (rmap O T * result error (list (any_key O))) :=
  match chunks with
  | [] => (s, (resultMap, Ok missing))
  | chunk :: chunks' =>
      match getChunk resultMap chunk s with
      | (s, (resultMap, Err err)) => (s, (resultMap, Err (ErrWrap "can not get chunk" err)))
      | (s, (resultMap, Ok miss)) => getChunks getChunk chunks' (missing ++ miss) resultMap s
      end
  end.

(** [pkg/kvstore/batch.go:28-61] getBatch *)
Definition getBatch {S_} (getChunk : chunkGetter S_) (batchSize : Z) (keys : list (any_key O))
    (resultMap : rmap O T) (s : S_) : S_ * (rmap O T * list (any_key O) * option error) :=
  match UniqKeys keys with
  | Err err => (s, (resultMap, [], Some (ErrWrap "can not deduplicate keys" err)))
  | Ok keySlice =>
      let batchSize := if (batchSize <? 1)%Z then 1%Z else batchSize in
      let chunks := keyChunks keySlice (Z.to_nat batchSize) in
      match getChunks getChunk chunks [] resultMap s with
      | (s, (resultMap, Err err)) => (s, (resultMap, keySlice, Some err))
      | (s, (resultMap, Ok missing)) => (s, (resultMap, missing, None))
      end
  end.
End Batch.

(** ** Settings *)

(** [pkg/kvstore/kvstore.go:25-32] InMemorySettings: int64, uint32 and int32 fields *)
Record InMemorySettings := {
  MaxSize : Z;
  Buckets : Z;
  ItemsToPrune : Z;
  DeleteBuffer : Z;
  PromoteBuffer : Z;
  GetsPerPromote : Z;
}.

(** [bits.OnesCount32] and [bits.LeadingZeros32] of the standard library. *)
Definition OnesCount32 (x : Z) : nat :=
  length (List.filter (λ i, Z.testbit x (Z.of_nat i)) (seq 0 32)).
Definition LeadingZeros32 (x : Z) : Z := if (x =? 0)%Z then 32%Z else (31 - Z.log2 x)%Z.

(** [pkg/kvstore/in_memory.go:42-52] the number of buckets *)
Definition normalize_buckets (buckets : Z) : Z :=
  if (buckets =? 0)%Z then 16%Z
  else if negb (OnesCount32 buckets =? 1) then
    let exponent := (32 - LeadingZeros32 buckets)%Z in
    let exponent := if (exponent =? 32)%Z then 31%Z else exponent in
    (Z.shiftl 1 exponent mod 2 ^ 32)%Z
  else buckets.

(** [pkg/kvstore/in_memory.go:38-64] the defaults of NewInMemoryKvStoreWithInterfaces *)
Definition normalize (s : InMemorySettings) : InMemorySettings :=
  let maxSize := if (MaxSize s <=? 0)%Z then 5000%Z else MaxSize s in
  {| MaxSize := maxSize;
     Buckets := normalize_buckets (Buckets s);
     ItemsToPrune := if (ItemsToPrune s =? 0)%Z then (Z.quot maxSize 10 mod 2 ^ 32)%Z else ItemsToPrune s;
     DeleteBuffer := if (DeleteBuffer s =? 0)%Z then 1024%Z else DeleteBuffer s;
     PromoteBuffer := if (PromoteBuffer s =? 0)%Z then 1024%Z else PromoteBuffer s;
     GetsPerPromote := if (GetsPerPromote s <=? 0)%Z then 3%Z else GetsPerPromote s |}.

(** [pkg/kvstore/in_memory.go:81-84] the cache's default time to live *)
Definition cache_ttl (ttl : Z) : Z := if (ttl =? 0)%Z then 3600000000000%Z else ttl.

(** ** The store *)
Section InMemory.
Context {O T I B : Type} `{Countable O} `{!CCache T I B} `{Zero T}.
Context (ToStringE : any_key O → result error string).
Context (typeOf : any_key O → ktype) (now : Z).
Context (mii_order : map_order (any_key O) T).
Implicit Types (key : any_key O) (value : T).

(** [pkg/kvstore/in_memory.go:19-23] InMemoryKvStore *)
Record InMemoryKvStore := InMemory {
  im_cache : cache B;
  im_batchSize : Z;
  im_cacheSize : Z;
}.

Definition with_cache (s : InMemoryKvStore) (c : cache B) : InMemoryKvStore :=
  {| im_cache := c; im_batchSize := im_batchSize s; im_cacheSize := im_cacheSize s |}.

(** [pkg/kvstore/in_memory.go:95-102] InMemoryKvStore.Contains *)
Definition Contains (key : any_key O) (s : InMemoryKvStore) : InMemoryKvStore * (bool * option error) :=
  match CastKeyToString ToStringE key with
  | Err err => (s, (false, Some (ErrWrap "can not build string key" err)))
  | Ok keyStr =>
      let '(c, ok) := Cache.Contains (T := T) now keyStr (im_cache s) in (with_cache s c, (ok, None))
  end.

(** [pkg/kvstore/in_memory.go:104-118] InMemoryKvStore.Get *)
Definition Get (key : any_key O) (value : T) (s : InMemoryKvStore) :
    InMemoryKvStore * (T * bool * option error) :=
  match CastKeyToString ToStringE key with
  | Err err => (s, (value, false, Some (ErrWrap "can not build string key" err)))
  | Ok keyStr =>
      let '(c, (item, ok)) := Cache.Get now keyStr (im_cache s) in
      if negb ok then (with_cache s c, (value, false, None))
      else (with_cache s c, (item, true, None))
  end.

(** [pkg/kvstore/in_memory.go:127-148] the loop of getChunk *)
Fixpoint getChunk_go (missing : list (any_key O)) (resultMap : rmap O T) (keys : list (any_key O))
    (s : InMemoryKvStore) : InMemoryKvStore * (rmap O T * result error (list (any_key O))) :=
  match keys with
  | [] => (s, (resultMap, Ok missing))
  | key :: keys' =>
      match CastKeyToString ToStringE key with
      | Err err => (s, (resultMap, Err (ErrWrap "can not build string key" err)))
      | Ok keyString =>
          match Get key zero s with
          | (s, (_, _, Some err)) =>
              (s, (resultMap, Err (ErrWrap "can not get batch element" err)))
          | (s, (element, ok, None)) =>
              if negb ok then getChunk_go (missing ++ [KString keyString]) resultMap keys' s
              else
                match rmap_Set typeOf (KString keyString) element resultMap with
                | Err err => (s, (resultMap, Err (ErrWrap "can not set new element on result map" err)))
                | Ok resultMap => getChunk_go missing resultMap keys' s
                end
          end
      end
  end.

(** [pkg/kvstore/in_memory.go:124-151] InMemoryKvStore.getChunk *)
Definition getChunk : chunkGetter (O := O) (T := T) InMemoryKvStore := getChunk_go [].

(** [pkg/kvstore/in_memory.go:120-122] InMemoryKvStore.GetBatch *)
Definition GetBatch (keys : list (any_key O)) (values : rmap O T) (s : InMemoryKvStore) :
    InMemoryKvStore * (rmap O T * list (any_key O) * option error) :=
  getBatch ToStringE getChunk (im_batchSize s) keys values s.

(** [pkg/kvstore/in_memory.go:153-164] InMemoryKvStore.Put *)
Definition Put (key : any_key O) (value : T) (s : InMemoryKvStore) : InMemoryKvStore * option error :=
  match CastKeyToString ToStringE key with
  | Err err => (s, Some (ErrWrap "can not build string key" err))
  | Ok keyStr =>
      ({| im_cache := Set_ now keyStr value (im_cache s);
          im_batchSize := im_batchSize s;
          im_cacheSize := (im_cacheSize s + 1)%Z |}, None)
  end.

(** [pkg/kvstore/in_memory.go:172-176] the loop of PutBatch *)
Fixpoint putBatch_go (l : list (any_key O * T)) (s : InMemoryKvStore) : InMemoryKvStore * option error :=
  match l with
  | [] => (s, None)
  | (k, v) :: l' =>
      match Put k v s with
      | (s, Some err) => (s, Some (ErrWrap "can not put value into in_memory store" err))
      | (s, None) => putBatch_go l' s
      end
  end.

(** [pkg/kvstore/in_memory.go:166-179] InMemoryKvStore.PutBatch *)
Definition PutBatch (mii : gmap (any_key O) T) (s : InMemoryKvStore) : InMemoryKvStore * option error :=
  putBatch_go (enum mii_order mii) s.

(** [pkg/kvstore/in_memory.go:181-183] InMemoryKvStore.EstimateSize *)
Definition EstimateSize (s : InMemoryKvStore) : option Z := Some (im_cacheSize s).

(** [pkg/kvstore/in_memory.go:185-194] InMemoryKvStore.Delete *)
Definition Delete (key : any_key O) (s : InMemoryKvStore) : InMemoryKvStore * option error :=
  match CastKeyToString ToStringE key with
  | Err err => (s, Some (ErrWrap "can not build string key" err))
  | Ok keyStr => (with_cache s (Expire (T := T) now keyStr (im_cache s)).1, None)
  end.

(** [pkg/kvstore/in_memory.go:196-209] InMemoryKvStore.DeleteBatch *)
Fixpoint DeleteBatch (keys : list (any_key O)) (s : InMemoryKvStore) : InMemoryKvStore * option error :=
  match keys with
  | [] => (s, None)
  | key :: keys' =>
      match Delete key s with
      | (s, Some err) => (s, Some (ErrWrap "can not remove value from in_memory store" err))
      | (s, None) => DeleteBatch keys' s
      end
  end.
End InMemory.
Arguments InMemoryKvStore : clear implicits.
Arguments InMemory {B} _ _ _.

(** ** Lemmas *)
Section BatchLemmas.
Context {O : Type} `{Countable O}.

Lemma keyChunks_loop_spec (keys : list (any_key O)) size fuel j acc :
  0 < size → length keys < fuel + j * size → length keys ≤ j * size ∨ 0 < fuel →
  acc = (λ i, take size (drop (i * size) keys)) <$> seq 0 j →
  j ≤ chunk_count (length keys) size →
  keyChunks_loop fuel (j * size) size keys acc = chunks size keys.
Proof.
  intros Hs. revert j acc. induction fuel as [|fuel IH]; intros j acc Hf Hj Hacc Hle.
  - simpl. rewrite Hacc. unfold chunks. f_equal. f_equal.
    pose proof (chunk_count_bounds (length keys) size Hs). nia.
  - simpl. destruct (Nat.ltb_spec (j * size) (length keys)) as [Hlt|Hge].
    + replace (j * size + size) with (S j * size) by lia.
      pose proof (chunk_count_bounds (length keys) size Hs).
      apply IH; [lia|destruct fuel; [lia|by right; lia]| |nia].
      rewrite seq_S fmap_app -Hacc /=. f_equal. f_equal.
      destruct (Nat.ltb_spec (length keys) (size + j * size)).
      * rewrite !take_ge //; rewrite length_drop; lia.
      * f_equal. lia.
    + rewrite Hacc. unfold chunks. f_equal. f_equal.
      pose proof (chunk_count_bounds (length keys) size Hs). nia.
Qed.

Lemma keyChunks_chunks (keys : list (any_key O)) size :
  0 < size → keyChunks keys size = chunks size keys.
Proof.
  intros Hs. unfold keyChunks.
  apply (keyChunks_loop_spec keys size (S (length keys)) 0); [done|lia|right; lia|done|lia].
Qed.

Lemma UniqKeys_first_occurrences cast (f : any_key O → string) keys :
  (∀ key, key ∈ keys → CastKeyToString cast key = Ok (f key)) →
  UniqKeys cast keys = Ok (first_occurrences f [] keys).
Proof.
  unfold UniqKeys.
  assert (∀ seen_l (seen : gmap string bool) acc l, (∀ k, is_Some (seen !! k) ↔ k ∈ seen_l) →
    (∀ key, key ∈ l → CastKeyToString cast key = Ok (f key)) →
    (fix go (seen : gmap string bool) (uniqKeys l : list (any_key O)) :=
      match l with
      | [] => Ok uniqKeys
      | key :: l' =>
          match CastKeyToString cast key with
          | Err err => Err (ErrWrap "can not build string key" err)
          | Ok keyString =>
              if map_has seen keyString then go seen uniqKeys l'
              else go (<[keyString := true]> seen) (uniqKeys ++ [key]) l'
          end
      end) seen acc l = Ok (acc ++ first_occurrences f seen_l l)) as Hgo.
  { intros seen_l seen acc l. revert seen_l seen acc.
    induction l as [|key l IH]; intros seen_l seen acc Hseen Hc; [by rewrite app_nil_r|].
    cbn [first_occurrences]. rewrite Hc; [by left|].
    rewrite map_has_spec (bool_decide_ext _ _ (Hseen (f key))).
    case_bool_decide as Hin.
    - apply IH; [done|]. intros. apply Hc. by right.
    - rewrite (IH (f key :: seen_l)).
      + intros k. rewrite lookup_insert_is_Some' Hseen elem_of_cons. naive_solver.
      + intros. apply Hc. by right.
      + by rewrite -app_assoc. }
  intros Hc. rewrite (Hgo []) //. intros k. rewrite lookup_empty. split; [by intros []|by intros ?%elem_of_nil].
Qed.
End BatchLemmas.

(** ** What a chunk getter promises to getBatch *)
Section Contract.
Context {O T S_ : Type} `{Countable O} (ToStringE : any_key O → result error string).
Context (cast_string : ∀ k, ToStringE (KString k) = Ok k).
Context (view : S_ → gmap string T) (stable : S_ → Prop).
Implicit Types (s : S_) (ks ms : list string) (vm : gmap string T) (getChunk : chunkGetter (O := O) (T := T) S_).

Lemma CastKeyToString_string k : CastKeyToString ToStringE (KString k) = Ok k.
Proof using cast_string. unfold CastKeyToString. by rewrite cast_string. Qed.

(** Lookups of the keys [ks], all of them or some: results come from the store, which
    can only lose entries, and does not if it is stable. *)
Definition batch_partial ks s vm s' vm' : Prop :=
  view s' ⊆ view s ∧ (stable s → stable s' ∧ view s' = view s) ∧
  (∀ k, vm' !! k = vm !! k ∨ (k ∈ ks ∧ is_Some (vm' !! k) ∧ vm' !! k = view s !! k)).

Definition batch_ok ks s vm s' vm' ms : Prop :=
  batch_partial ks s vm s' vm' ∧
  (∀ k, k ∈ ms → k ∈ ks) ∧
  (∀ k, k ∈ ks → if decide (k ∈ ms) then view s' !! k = None
    else is_Some (vm' !! k) ∧ vm' !! k = view s !! k).

Lemma batch_ok_nil s vm : batch_ok [] s vm s vm [].
Proof. split_and!; [split_and!; [done|done|by left]|done|by intros k ?%elem_of_nil]. Qed.

Lemma batch_partial_ext ks1 ks2 s s' vm vm' :
  (∀ k, k ∈ ks1 ↔ k ∈ ks2) → batch_partial ks1 s vm s' vm' → batch_partial ks2 s vm s' vm'.
Proof. intros Hks (Hsub & Hst & Hf). split_and!; [done..|]; intros k; rewrite -?Hks; apply Hf. Qed.

Lemma batch_ok_ext ks1 ks2 s s' vm vm' ms :
  (∀ k, k ∈ ks1 ↔ k ∈ ks2) → batch_ok ks1 s vm s' vm' ms → batch_ok ks2 s vm s' vm' ms.
Proof.
  intros Hks (Hp & Hin & Hk). split_and!; [by eapply batch_partial_ext|..]; intros k; rewrite -?Hks; [apply Hin|apply Hk].
Qed.

Lemma batch_partial_app ks1 ks2 s s1 s2 vm vm1 vm2 :
  batch_partial ks1 s vm s1 vm1 → batch_partial ks2 s1 vm1 s2 vm2 → batch_partial (ks1 ++ ks2) s vm s2 vm2.
Proof.
  intros (Hsub1 & Hst1 & Hf1) (Hsub2 & Hst2 & Hf2). split_and!; [by etrans| |].
  - intros [Hs1 Hv1]%Hst1. destruct (Hst2 Hs1) as [Hs2 Hv2]. by rewrite Hv2.
  - intros k. rewrite elem_of_app. destruct (Hf2 k) as [->|(? & [x Hx] & Heq)].
    + destruct (Hf1 k) as [->|(? & ? & ?)]; [by left|right; by auto].
    + right. split_and!; [by right | by eexists|]. rewrite Hx. rewrite Hx in Heq. symmetry. by apply (lookup_weaken (view s1)).
Qed.

Lemma batch_ok_app ks1 ks2 s s1 s2 vm vm1 vm2 ms1 ms2 :
  batch_ok ks1 s vm s1 vm1 ms1 → batch_ok ks2 s1 vm1 s2 vm2 ms2 →
  batch_ok (ks1 ++ ks2) s vm s2 vm2 (ms1 ++ ms2).
Proof.
  intros (Hp1 & Hin1 & Hk1) (Hp2 & Hin2 & Hk2). split_and!; [by eapply batch_partial_app|..].
  - intros k. rewrite !elem_of_app. naive_solver.
  - pose proof Hp1 as (Hsub1 & _ & Hf1). pose proof Hp2 as (Hsub2 & _ & Hf2).
    assert (∀ k, is_Some (vm2 !! k) → vm2 !! k = view s1 !! k → vm2 !! k = view s !! k) as Hup.
    { intros k [x Hx] Heq. rewrite Hx. rewrite Hx in Heq. symmetry. by apply (lookup_weaken (view s1)). }
    intros k Hk. destruct (decide (k ∈ ms1 ++ ms2)) as [Hm|Hm].
    + apply elem_of_app in Hm as [Hm|Hm].
      * specialize (Hk1 k (Hin1 _ Hm)). rewrite decide_True // in Hk1. by eapply lookup_weaken_None.
      * specialize (Hk2 k (Hin2 _ Hm)). by rewrite decide_True // in Hk2.
    + apply not_elem_of_app in Hm as [Hm1 Hm2]. apply elem_of_app in Hk as [Hk|Hk].
      * specialize (Hk1 k Hk). rewrite decide_False // in Hk1. destruct Hk1 as [Hs Hv].
        destruct (Hf2 k) as [Heq|(? & ? & ?)]; [by rewrite Heq|by auto].
      * specialize (Hk2 k Hk). rewrite decide_False // in Hk2. destruct Hk2. by auto.
Qed.

(** The keys of one chunk are found or missing, or the chunk fails half-way, if it can. *)
Definition chunk_contract (fails : Prop) getChunk : Prop := ∀ ks s vm, NoDup ks →
  (∃ s' vm' ms, batch_ok ks s vm s' vm' ms ∧
     getChunk (RMap TString (keyed vm)) (KString <$> ks) s = (s', (RMap TString (keyed vm'), Ok (KString <$> ms)))) ∨
  (fails ∧ ∃ s' vm' err, batch_partial ks s vm s' vm' ∧
     getChunk (RMap TString (keyed vm)) (KString <$> ks) s = (s', (RMap TString (keyed vm'), Err err))).

Lemma getChunks_contract fails getChunk (kss : list (list string)) (acc : list string) s vm :
  chunk_contract fails getChunk → NoDup (mjoin kss) →
  (∃ s' vm' ms, batch_ok (mjoin (M := list) kss) s vm s' vm' ms ∧
    getChunks getChunk (fmap (M := list) (KString (O := O)) <$> kss) (KString <$> acc) (RMap TString (keyed vm)) s =
    (s', (RMap TString (keyed vm'), Ok (KString <$> (acc ++ ms))))) ∨
  (fails ∧ ∃ s' vm' err, batch_partial (mjoin (M := list) kss) s vm s' vm' ∧
    getChunks getChunk (fmap (M := list) (KString (O := O)) <$> kss) (KString <$> acc) (RMap TString (keyed vm)) s =
    (s', (RMap TString (keyed vm'), Err err))).
Proof.
  intros Hc. revert acc s vm. induction kss as [|ks kss IH]; intros acc s vm Hd.
  { left. exists s, vm, []. rewrite app_nil_r. split; [apply batch_ok_nil|done]. }
  change (mjoin (ks :: kss)) with (ks ++ mjoin kss) in Hd |- *. apply NoDup_app in Hd as (Hd1 & _ & Hd2).
  csimpl. destruct (Hc ks s vm Hd1) as [(s1 & vm1 & ms1 & H1 & ->)|(Hfails & s1 & vm1 & err & H1 & ->)].
  - rewrite -fmap_app. destruct (IH (acc ++ ms1) s1 vm1 Hd2) as [(s' & vm' & ms & H2 & ->)|(Hfails & s' & vm' & err & H2 & ->)].
    + left. exists s', vm', (ms1 ++ ms). rewrite app_assoc. split; [|done]. by eapply batch_ok_app.
    + right. split; [done|]. exists s', vm', err. split; [|done]. eapply batch_partial_app; [apply H1|done].
  - right. split; [done|]. exists s1, vm1. eexists. split; [|done]. destruct H1 as (? & ? & Hf). split_and!; [done..|].
    intros k. rewrite elem_of_app. destruct (Hf k) as [->|(? & ? & ?)]; auto.
Qed.

Lemma first_occurrences_fmap (f : any_key O → string) seen ks :
  (∀ k, f (KString k) = k) →
  first_occurrences f seen (KString <$> ks : list (any_key O)) = KString <$> first_occurrences id seen ks.
Proof.
  intros Hf. revert seen. induction ks as [|k ks IH]; intros seen; [done|].
  csimpl. rewrite Hf. case_bool_decide; [apply IH|]. csimpl. by rewrite IH.
Qed.

Lemma elem_of_uniq (ks : list string) k : k ∈ first_occurrences id [] ks ↔ k ∈ ks.
Proof.
  split; intros Hk.
  - eapply elem_of_submseteq; [exact Hk|apply sublist_submseteq, first_occurrences_sublist].
  - rewrite -(list_fmap_id (first_occurrences id [] ks)).
    by apply (first_occurrences_complete id), not_elem_of_nil.
Qed.

(** getBatch of string keys runs the whole batch, or ends with an error and all keys. *)
Lemma getBatch_contract fails getChunk batchSize ks s vm :
  chunk_contract fails getChunk →
  (∃ s' vm' ms, batch_ok ks s vm s' vm' ms ∧
    getBatch ToStringE getChunk batchSize (KString <$> ks) (RMap TString (keyed vm)) s =
    (s', (RMap TString (keyed vm'), KString <$> ms, None))) ∨
  (fails ∧ ∃ s' vm' err, batch_partial ks s vm s' vm' ∧
    getBatch ToStringE getChunk batchSize (KString <$> ks) (RMap TString (keyed vm)) s =
    (s', (RMap TString (keyed vm'), KString <$> first_occurrences id [] ks, Some err))).
Proof using cast_string.
  intros Hc. unfold getBatch.
  set (f := λ key : any_key O, match CastKeyToString ToStringE key with Ok k => k | Err _ => ""%string end).
  rewrite (UniqKeys_first_occurrences _ f).
  { intros key (k & -> & _)%list_elem_of_fmap. unfold f. by rewrite CastKeyToString_string. }
  rewrite first_occurrences_fmap; [intros k; unfold f; by rewrite CastKeyToString_string|].
  set (size := Z.to_nat _). assert (0 < size) as Hs by (subst size; case_match; lia).
  rewrite keyChunks_chunks // chunks_fmap.
  destruct (getChunks_contract fails getChunk (chunks size (first_occurrences id [] ks)) [] s vm Hc)
    as [(s' & vm' & ms & Hok & Hrun)|(Hfails & s' & vm' & err & Hok & Hrun)].
  - rewrite concat_chunks //. rewrite -(list_fmap_id (first_occurrences id [] ks)). apply first_occurrences_keys_nodup.
  - left. change (KString (O := O) <$> []) with (@nil (any_key O)) in Hrun. rewrite Hrun.
    rewrite concat_chunks // in Hok. exists s', vm', ms. split; [|done].
    by eapply batch_ok_ext; [apply elem_of_uniq|].
  - right. change (KString (O := O) <$> []) with (@nil (any_key O)) in Hrun. rewrite Hrun.
    rewrite concat_chunks // in Hok. split; [done|]. exists s', vm', err. split; [|done].
    by eapply batch_partial_ext; [apply elem_of_uniq|].
Qed.

(** So the batch read of a store keeps the law of the interface. *)
Lemma getBatch_law fails getChunk batchSize ks vm s s' values missing err :
  chunk_contract fails getChunk →
  getBatch ToStringE getChunk batchSize (KString <$> ks) (RMap TString (keyed vm)) s = (s', (values, missing, err)) →
  view s' ⊆ view s ∧
  (stable s → stable s' ∧ view s' = view s) ∧
  ∃ vm' ms, values = RMap TString (keyed vm') ∧ missing = KString <$> ms ∧
    (∀ k, vm' !! k = vm !! k ∨ (k ∈ ks ∧ is_Some (vm' !! k) ∧ vm' !! k = view s !! k)) ∧
    (∀ k, k ∈ ms → k ∈ ks) ∧
    (err = None → ∀ k, k ∈ ks → if decide (k ∈ ms) then view s' !! k = None
      else is_Some (vm' !! k) ∧ vm' !! k = view s !! k) ∧
    (err ≠ None → ∀ k, k ∈ ks → k ∈ ms).
Proof using cast_string.
  intros Hc. destruct (getBatch_contract fails getChunk batchSize ks s vm Hc)
    as [(s1 & vm1 & ms & ((Hsub & Hst & Hf) & Hin & Hk) & ->)|(_ & s1 & vm1 & e & (Hsub & Hst & Hf) & ->)]; intros [= <- <- <- <-].
  - split_and!; [done..|]. exists vm1, ms. by split_and!.
  - split_and!; [done..|]. exists vm1, (first_occurrences id [] ks).
    split_and!; try done; intros; by apply elem_of_uniq.
Qed.
End Contract.

(** ** The in-memory store is a store *)
Section InMemoryLaws.
Context {O T I B : Type} `{Countable O} `{!CCache T I B} `{!CCacheLaws T I B} `{Zero T}.
Context (ToStringE : any_key O → result error string).
Context (typeOf : any_key O → ktype) (now : Z).
Context (mii_order : map_order (any_key O) T).
Context (cast_string : ∀ k, ToStringE (KString k) = Ok k).
Context (typeOf_string : ∀ k, typeOf (KString k) = TString).
Implicit Types (s : InMemoryKvStore B) (ks ms : list string) (vm : gmap string T).

Definition im_view (s : InMemoryKvStore B) : gmap string T := live now (im_cache s).

Lemma cast_ok k : CastKeyToString ToStringE (KString k) = Ok k.
Proof. by apply CastKeyToString_string. Qed.

Lemma Get_view key value s s' v found err :
  Get (I := I) ToStringE now key value s = (s', (v, found, err)) →
  im_view s' ⊆ im_view s ∧
  match CastKeyToString ToStringE key with
  | Err _ => found = false ∧ err ≠ None
  | Ok k => err = None ∧
      match im_view s !! k with
      | Some x => found = true ∧ v = x
      | None => found = false ∧ v = value
      end
  end.
Proof.
  unfold Get, im_view. destruct (CastKeyToString ToStringE key) as [k|e]; [|by intros [= <- <- <- <-]].
  destruct (Get_live now k (im_cache s)) as [Hsub Hr].
  destruct (Cache.Get now k (im_cache s)) as [c [item ok]]. simpl in *.
  destruct (live now (im_cache s) !! k); simplify_eq/=; by intros [= <- <- <- <-].
Qed.

Abbreviation im_ok := (batch_ok im_view (λ _, False)).

Lemma getChunk_go_ok acc ks s vm :
  ∃ s' vm' ms, im_ok ks s vm s' vm' ms ∧
    getChunk_go (I := I) ToStringE typeOf now (KString <$> acc) (RMap TString (keyed vm)) (KString <$> ks) s =
    (s', (RMap TString (keyed vm'), Ok (KString <$> (acc ++ ms)))).
Proof.
  revert acc s vm. induction ks as [|k ks IH]; intros acc s vm.
  { exists s, vm, []. rewrite app_nil_r. split; [apply batch_ok_nil|done]. }
  csimpl. rewrite cast_ok.
  destruct (Get ToStringE now (KString k) zero s) as [s1 [[v found] err]] eqn:Hg.
  apply Get_view in Hg as [Hsub Hr]. rewrite cast_ok in Hr.
  destruct Hr as [-> Hr]. destruct (im_view s !! k) as [x|] eqn:Hk.
  - destruct Hr as [-> ->]. unfold rmap_Set at 1. simpl.
    rewrite decide_False; [rewrite typeOf_string; naive_solver|].
    rewrite keyed_insert. destruct (IH acc s1 (<[k := x]> vm)) as (s' & vm' & ms & Hok & ->).
    exists s', vm', ms. split; [|done].
    apply (batch_ok_app im_view (λ _, False) [k] ks s s1 s' vm (<[k:=x]> vm) vm' [] ms); [|done].
    split; [split_and!; [done|done|]|split; [by intros ? ?%elem_of_nil|]].
    + intros k'. destruct (decide (k' = k)) as [->|]; [|left; by rewrite lookup_insert_ne].
      right. rewrite lookup_insert_eq Hk. split_and!; [by left|done|done].
    + intros k' ->%list_elem_of_singleton. case_decide as Hin; [by apply elem_of_nil in Hin|].
      rewrite lookup_insert_eq Hk. done.
  - destruct Hr as [-> ->]. simpl.
    change [KString (O := O) k] with (KString (O := O) <$> [k]). rewrite -fmap_app.
    destruct (IH (acc ++ [k]) s1 vm) as (s' & vm' & ms & Hok & ->).
    exists s', vm', (k :: ms). rewrite -app_assoc. split; [|done].
    apply (batch_ok_app im_view (λ _, False) [k] ks s s1 s' vm vm vm' [k] ms); [|done].
    split; [split_and!; [done|done|by left]|split; [done|]].
    intros k' ->%list_elem_of_singleton. case_decide as Hin.
    + by eapply lookup_weaken_None.
    + destruct Hin. by left.
Qed.

Lemma getChunk_ok ks s vm :
  ∃ s' vm' ms, im_ok ks s vm s' vm' ms ∧
    getChunk (I := I) ToStringE typeOf now (RMap TString (keyed vm)) (KString <$> ks) s =
    (s', (RMap TString (keyed vm'), Ok (KString <$> ms))).
Proof. apply (getChunk_go_ok []). Qed.

Lemma getChunk_contract : chunk_contract im_view (λ _, False) False (getChunk (I := I) ToStringE typeOf now).
Proof. intros ks s vm _. left. apply getChunk_ok. Qed.

(** GetBatch of string keys runs the whole batch. *)
Lemma GetBatch_ok ks s vm :
  ∃ s' vm' ms, im_ok ks s vm s' vm' ms ∧
    GetBatch (I := I) ToStringE typeOf now (KString <$> ks) (RMap TString (keyed vm)) s =
    (s', (RMap TString (keyed vm'), KString <$> ms, None)).
Proof.
  unfold GetBatch. by destruct (getBatch_contract ToStringE cast_string im_view (λ _, False) False
    (getChunk (I := I) ToStringE typeOf now) (im_batchSize s) ks s vm getChunk_contract) as [?|[? _]].
Qed.

Lemma Put_view key value s s' err :
  Put (I := I) ToStringE now key value s = (s', err) →
  match CastKeyToString ToStringE key with
  | Err _ => err ≠ None ∧ s' = s
  | Ok k => err = None ∧ im_view s' ⊆ <[k := value]> (im_view s)
  end.
Proof.
  unfold Put, im_view. destruct (CastKeyToString ToStringE key) as [k|e]; intros [= <- <-]; [|done].
  split; [done|]. simpl. apply map_subseteq_spec. intros k' x [[-> ->]|[Hne Hx]]%SetX_live.
  - by rewrite lookup_insert_eq.
  - by rewrite lookup_insert_ne.
Qed.

Lemma putBatch_go_view (m : gmap string T) l s s' err :
  (∀ key v, (key, v) ∈ l → ∃ k, key = KString k ∧ m !! k = Some v) →
  putBatch_go (I := I) ToStringE now l s = (s', err) →
  err = None ∧ ∀ k x, im_view s' !! k = Some x →
    (m !! k = Some x) ∨ (im_view s !! k = Some x ∧ KString k ∉ l.*1).
Proof.
  revert s. induction l as [|[key v] l IH]; intros s Hl; simpl.
  { intros [= <- <-]. split; [done|]. intros. right. split; [done|apply not_elem_of_nil]. }
  destruct (Hl key v) as (k & -> & Hk); [by left|].
  destruct (Put ToStringE now (KString k) v s) as [s1 err1] eqn:Hp.
  apply Put_view in Hp. rewrite cast_ok in Hp. destruct Hp as [-> Hsub].
  intros [Herr Hv]%IH; [|intros; apply Hl; by right]. split; [done|].
  intros k' x [Hx|[Hx Hni]]%Hv; [by left|].
  eapply lookup_weaken in Hx; [|exact Hsub].
  apply lookup_insert_Some in Hx as [[<- <-]|[Hne Hx]]; [by left|right].
  split; [done|]. csimpl. apply not_elem_of_cons. split; [congruence|done].
Qed.

(** The in-memory store behind the store interface, and its laws. *)
#[local] Instance inMemory_KvStore : KvStore O T (InMemoryKvStore B) := {|
  kv_contains := Contains (I := I) ToStringE now;
  kv_get := Get (I := I) ToStringE now;
  kv_getBatch := GetBatch (I := I) ToStringE typeOf now;
  kv_put := Put (I := I) ToStringE now;
  kv_putBatch := PutBatch (I := I) ToStringE now mii_order;
  kv_delete := Delete (I := I) ToStringE now;
  kv_deleteBatch := DeleteBatch (I := I) ToStringE now;
|}.

#[local] Program Instance inMemory_laws : KvStoreLaws ToStringE (InMemoryKvStore B) := {|
  kv_view := im_view;
  kv_durable := λ _, False;
  kv_fresh := λ _, True;
|}.
Next Obligation.
  intros key s s' b err; cbn. unfold Contains, im_view.
  destruct (CastKeyToString ToStringE key) as [k|]; [|by intros [= <- <- <-]].
  destruct (Contains_live now k (im_cache s)) as [Hsub _].
  destruct (Cache.Contains now k (im_cache s)) as [c ok]. by intros [= <- <- <-].
Qed.
Next Obligation.
  intros key value s s' v found err; cbn. intros [Hsub Hr]%Get_view. unfold lookup_key.
  split; [done|]. split; [done|].
  destruct (CastKeyToString ToStringE key) as [k|]; [|by destruct Hr as [-> ?]].
  destruct Hr as [-> Hr]. destruct (im_view s !! k) as [x|] eqn:Hk; destruct Hr as [-> ->].
  - done.
  - split; [done|]. intros _ _. split; [done|]. by eapply lookup_weaken_None.
Qed.
Next Obligation.
  intros key value s s' err; cbn. intros Hp%Put_view. unfold insert_key.
  destruct (CastKeyToString ToStringE key) as [k|].
  - destruct Hp as [-> Hsub]. split_and!; [|done|done].
    intros k' x Hx. eapply lookup_weaken in Hx; [|exact Hsub].
    apply lookup_insert_Some in Hx. naive_solver.
  - destruct Hp as [? ->]. split_and!; [by left|done|done].
Qed.
Next Obligation.
  intros key s s' err; cbn. unfold Delete, delete_key, im_view.
  destruct (CastKeyToString ToStringE key) as [k|]; intros [= <- <-]; simpl; [|done].
  pose proof (Expire_live now k (im_cache s)) as Hsub.
  split_and!; [|done|done]. etrans; [exact Hsub|apply delete_subseteq].
Qed.
Next Obligation.
  intros ks vm s s' values missing err; cbn.
  destruct (GetBatch_ok ks s vm) as (s1 & vm1 & ms1 & ((Hsub & _ & Hf) & Hin & Hk) & ->).
  intros [= <- <- <- <-]. split; [done|]. split; [done|]. by exists vm1, ms1.
Qed.
Next Obligation.
  intros m s s' err; cbn. unfold PutBatch. intros Hp.
  eapply (putBatch_go_view m) in Hp as [-> Hv].
  2:{ intros key v Hin%elem_of_enum. apply lookup_kmap_Some in Hin as (k & -> & Hk); [by exists k|apply _]. }
  assert (∀ k x, im_view s' !! k = Some x → m !! k = Some x ∨ (im_view s !! k = Some x ∧ m !! k = None)) as Hv'.
  { intros k x [Hx|[Hx Hni]]%Hv; [by left|right]. split; [done|].
    destruct (m !! k) as [y|] eqn:Hm; [|done]. destruct Hni.
    apply elem_of_enum_keys. exists y. by rewrite keyed_lookup. }
  split_and!; [|intros _|done].
  - intros k x [?|[? ?]]%Hv'; auto.
  - apply map_subseteq_spec. intros k x Hx%Hv'. rewrite lookup_union_Some_raw. naive_solver.
Qed.

#[local] Instance inMemory_membership : KvMembership ToStringE (InMemoryKvStore B).
Proof.
  intros key s s' err; cbn. unfold Contains, lookup_key, im_view.
  destruct (CastKeyToString ToStringE key) as [k|]; [|done].
  destruct (Contains_live now k (im_cache s)) as [_ Hb].
  destruct (Cache.Contains now k (im_cache s)) as [c ok]. intros [= _ -> _].
  simpl in Hb. symmetry in Hb. by apply bool_decide_eq_true in Hb.
Qed.
End InMemoryLaws.

(** ** Properties *)

(** A uint32 with one bit set is a power of two. *)
Lemma OnesCount32_one b :
  (0 ≤ b < 2 ^ 32)%Z → OnesCount32 b = 1 → ∃ e, (0 ≤ e ≤ 31)%Z ∧ b = (2 ^ e)%Z.
Proof.
  unfold OnesCount32. intros Hb Hc.
  destruct (List.filter _ _) as [|i [|]] eqn:Hf; try done.
  assert (∀ j, Z.testbit b (Z.of_nat j) = true ↔ j = i) as Hbit.
  { intros j. destruct (decide (j < 32)) as [Hj|Hj].
    - assert (j ∈ [i] ↔ Z.testbit b (Z.of_nat j) = true) as <-; [|apply list_elem_of_singleton].
      rewrite -Hf list_elem_of_In filter_In in_seq.
      split; [by intros [_ ?]|]. intros. split; [lia|done].
    - assert (i < 32).
      { assert (In i [i]) as Hi by (by left). rewrite -Hf filter_In in_seq in Hi. lia. }
      rewrite Z.bits_above_log2; [lia| |split; [done|lia]].
      destruct (Z.eq_dec b 0%Z) as [->|]; [simpl; lia|].
      apply Z.log2_lt_pow2; [lia|]. eapply Z.lt_le_trans; [apply Hb|].
      apply Z.pow_le_mono_r; lia. }
  exists (Z.of_nat i). split.
  - assert (In i [i]) as Hi by (by left). rewrite -Hf filter_In in_seq in Hi. lia.
  - apply Z.bits_inj'. intros n Hn. rewrite Z.pow2_bits_eqb; [lia|].
    rewrite -(Z2Nat.id n) //. destruct (Z.testbit b _) eqn:Ht.
    + apply Hbit in Ht. by rewrite Ht Z.eqb_refl.
    + symmetry. apply Z.eqb_neq. intros He. apply Nat2Z.inj in He. symmetry in He.
      apply Hbit in He. congruence.
Qed.

Lemma LeadingZeros32_exponent b :
  (0 < b < 2 ^ 32)%Z → (32 - LeadingZeros32 b)%Z = (Z.log2 b + 1)%Z ∧ (0 ≤ Z.log2 b ≤ 31)%Z.
Proof.
  intros Hb. unfold LeadingZeros32. destruct (Z.eqb_spec b 0%Z); [lia|].
  pose proof (Z.log2_lt_pow2 b 32). pose proof (Z.log2_nonneg b). lia.
Qed.

(** For every uint32 setting the number of buckets is a power of two below
    2^32; it is kept when it already is one, and is otherwise the next larger
    power of two, or 2^31 where that would not fit. *)
Theorem normalize_buckets_correct (b : Z) :
  (0 ≤ b < 2 ^ 32)%Z →
  ∃ e, (0 ≤ e ≤ 31)%Z ∧ normalize_buckets b = (2 ^ e)%Z ∧
    (OnesCount32 b = 1 → normalize_buckets b = b) ∧
    (OnesCount32 b ≠ 1 → b ≠ 0%Z → (b < 2 ^ e ∧ 2 ^ (e - 1) ≤ b ∨ e = 31 ∧ 2 ^ 31 ≤ b)%Z).
Proof.
  intros Hb. unfold normalize_buckets. destruct (Z.eqb_spec b 0%Z) as [->|Hne].
  { exists 4%Z. by split_and!. }
  destruct (Nat.eqb_spec (OnesCount32 b) 1) as [H1|H1]; simpl negb; cbv iota.
  { destruct (OnesCount32_one b Hb H1) as (e & He & Heq). exists e. split_and!; naive_solver lia. }
  destruct (LeadingZeros32_exponent b) as [-> Hlog]; [lia|].
  destruct (Z.log2_spec b) as [Hlo Hhi]; [lia|].
  cbv zeta. set (e := if (_ =? 32)%Z then 31%Z else _).
  assert ((e = Z.log2 b + 1 ∧ e ≤ 31) ∨ (e = 31 ∧ Z.log2 b = 31))%Z as He.
  { subst e. destruct (Z.eqb_spec (Z.log2 b + 1) 32)%Z; lia. }
  exists e. rewrite Z.shiftl_1_l Z.mod_small.
  { split; [lia|]. apply Z.pow_lt_mono_r; lia. }
  split_and!; [lia|lia|done|done|]. intros _ _. destruct He as [[-> He]|[-> He]].
  - left. split; [by rewrite Z.add_1_r|]. by replace (Z.log2 b + 1 - 1)%Z with (Z.log2 b) by lia.
  - right. by rewrite -He.
Qed.

Lemma normalize_buckets_correct_witness :
  normalize_buckets 5 = 8%Z ∧ ∃ e, (0 ≤ e ≤ 31)%Z ∧ normalize_buckets 5 = (2 ^ e)%Z.
Proof.
  split; [by vm_compute|].
  destruct (normalize_buckets_correct 5) as (e & He & Heq & _); [lia|by exists e].
Defined.

(** A batch is processed as its distinct keys, by the string they are cast
    to, in the order of their first occurrence, cut into chunks of the batch
    size, of which only the last one may be smaller. *)
Theorem getBatch_chunks_correct {O} `{Countable O} (cast : any_key O → result error string)
    (f : any_key O → string) (keys : list (any_key O)) (size : nat) :
  0 < size → (∀ key, key ∈ keys → CastKeyToString cast key = Ok (f key)) →
  ∃ uniq, UniqKeys cast keys = Ok uniq ∧
    uniq `sublist_of` keys ∧ NoDup (f <$> uniq) ∧ (∀ key, key ∈ keys → f key ∈ (f <$> uniq)) ∧
    mjoin (keyChunks uniq size) = uniq ∧
    (∀ j c, keyChunks uniq size !! j = Some c →
      0 < length c ≤ size ∧ (S j < length (keyChunks uniq size) → length c = size)).
Proof.
  intros Hs Hc. exists (first_occurrences f [] keys). rewrite keyChunks_chunks //. split_and!.
  - by apply UniqKeys_first_occurrences.
  - apply first_occurrences_sublist.
  - apply first_occurrences_keys_nodup.
  - intros key Hk. by apply first_occurrences_complete, not_elem_of_nil.
  - by apply concat_chunks.
  - intros j c Hj. split; [by eapply chunks_bounds|by apply chunks_full].
Qed.

Lemma getBatch_chunks_correct_witness :
  UniqKeys (O := unit) cast_string [KString "a"; KString "b"; KString "a"] = Ok [KString "a"; KString "b"] ∧
  ∃ uniq, UniqKeys (O := unit) cast_string [KString "a"; KString "b"; KString "a"] = Ok uniq ∧
    mjoin (keyChunks uniq 1) = uniq.
Proof.
  split; [by vm_compute|].
  destruct (getBatch_chunks_correct (O := unit) cast_string (λ k, match k with KString s => s | _ => "" end)
    [KString "a"; KString "b"; KString "a"] 1) as (uniq & Hu & _ & _ & _ & Hc & _).
  - lia.
  - by intros key [->|[->|[->|[]%elem_of_nil]%elem_of_cons]%elem_of_cons]%elem_of_cons.
  - by exists uniq.
Defined.

Section InMemoryProperties.
Context {O T I B : Type} `{Countable O} `{!CCache T I B, !CCacheLaws T I B} `{Zero T}.
Context (ToStringE : any_key O → result error string) (typeOf : any_key O → ktype) (now : Z).
Implicit Types (s : InMemoryKvStore B) (vm : gmap string T).

(** GetBatch of string keys into a map with string keys never fails: it
    fills in exactly the live entries of the cache, reports the other keys as
    missing, and leaves the rest of the caller's map alone. *)
Theorem inMemory_GetBatch_correct s ks vm :
  (∀ k, ToStringE (KString k) = Ok k) → (∀ k, typeOf (KString k) = TString) →
  ∃ s' vm' ms,
    GetBatch (I := I) ToStringE typeOf now (KString <$> ks) (RMap TString (keyed vm)) s =
      (s', (RMap TString (keyed vm'), KString <$> ms, None)) ∧
    (∀ k, k ∈ ms → k ∈ ks) ∧
    (∀ k, k ∈ ks → k ∉ ms → is_Some (vm' !! k) ∧ vm' !! k = live now (im_cache s) !! k) ∧
    (∀ k, k ∈ ms → live now (im_cache s') !! k = None) ∧
    (∀ k, k ∉ ks → vm' !! k = vm !! k).
Proof.
  intros Hcast Htype. destruct (GetBatch_ok ToStringE typeOf now Hcast Htype ks s vm)
    as (s' & vm' & ms & ((Hsub & _ & Hf) & Hin & Hk) & Hrun).
  exists s', vm', ms. split_and!; [done|done|..].
  - intros k Hks Hms. specialize (Hk k Hks). by rewrite decide_False // in Hk.
  - intros k Hms. specialize (Hk k (Hin k Hms)). by rewrite decide_True // in Hk.
  - intros k Hni. destruct (Hf k) as [|(? & _)]; [done|contradiction].
Qed.

(** A key of another type that is in the cache cannot be fetched in a batch
    into a map with keys of its own type, because the store sets the entry under
    the key's string form; and a missing one is reported as that string instead
    of the key itself. *)
Theorem inMemory_GetBatch_other_keys s (key : any_key O) (k : string) (m : gmap (any_key O) T) :
  CastKeyToString ToStringE key = Ok k → typeOf (KString k) ≠ typeOf key →
  CastKeyToString ToStringE (KString k) = Ok k →
  let '(_, (values, missing, err)) :=
    GetBatch (I := I) ToStringE typeOf now [key] (RMap (typeOf key) m) s in
  values = RMap (typeOf key) m ∧
  match live now (im_cache s) !! k with
  | Some _ => err = Some (ErrWrap "can not get chunk" (ErrWrap "can not set new element on result map" ErrKeyType))
  | None => err = None ∧ missing = [KString k]
  end.
Proof.
  intros Hcast Htype Hk. unfold GetBatch, getBatch, UniqKeys. rewrite Hcast /map_has lookup_empty.
  rewrite keyChunks_chunks; [case_match; lia|]. change ([] ++ [key]) with [key].
  assert (chunks (Z.to_nat (if (im_batchSize s <? 1)%Z then 1%Z else im_batchSize s)) [key] = [[key]]) as ->.
  { set (n := Z.to_nat _). assert (0 < n) as Hn by (subst n; case_match; lia).
    pose proof (concat_chunks n [key] Hn) as Hc.
    destruct n as [|n]; [lia|]. unfold chunks, chunk_count. simpl length.
    destruct n as [|n]; [done|]. rewrite Nat.div_small ?Nat.mod_small //; lia. }
  simpl. unfold getChunk. simpl. rewrite Hcast.
  destruct (Get ToStringE now key zero s) as [s1 [[v found] err]] eqn:Hg.
  apply (Get_view (I := I)) in Hg as [_ Hr]. rewrite Hcast in Hr. destruct Hr as [-> Hr].
  unfold im_view in Hr. destruct (live now (im_cache s) !! k) as [x|]; destruct Hr as [-> ->]; simpl.
  - unfold rmap_Set. simpl. by rewrite decide_True.
  - done.
Qed.
End InMemoryProperties.

(** A store over the unbounded cache that holds one entry, for the witnesses. *)
Definition sample_store : InMemoryKvStore (gmap string (Z * Z)) :=
  InMemory (NewWithConfiguration {["1" := (7, 100)%Z]} 100 []) 10 1.

Definition sample_cast (key : any_key nat) : result error string :=
  match key with KString s => Ok s | KOther _ => Ok "1" end.

Definition sample_type (key : any_key nat) : ktype :=
  match key with KString _ => TString | KOther _ => TOther 0 end.

Lemma inMemory_GetBatch_correct_witness :
  ∃ s' vm' ms,
    GetBatch (I := Z * Z) sample_cast sample_type 10 (KString <$> ["1"; "2"]) (RMap TString (keyed ∅)) sample_store =
      (s', (RMap TString (keyed vm'), KString <$> ms, None)) ∧
    (∀ k, k ∈ ms → k ∈ ["1"; "2"]).
Proof.
  destruct (inMemory_GetBatch_correct (I := Z * Z) sample_cast sample_type 10 sample_store ["1"; "2"] ∅)
    as (s' & vm' & ms & Hrun & Hin & _); [done|done|by exists s', vm', ms].
Defined.

Lemma inMemory_GetBatch_other_keys_witness :
  let '(_, (values, missing, err)) :=
    GetBatch (I := Z * Z) sample_cast sample_type 10 [KOther 1] (RMap (TOther 0) ∅) sample_store in
  values = RMap (TOther 0) ∅ ∧
  err = Some (ErrWrap "can not get chunk" (ErrWrap "can not set new element on result map" ErrKeyType)).
Proof.
  exact (inMemory_GetBatch_other_keys (I := Z * Z) sample_cast sample_type 10 sample_store (KOther 1) "1" ∅
    eq_refl ltac:(done) eq_refl).
Defined.
