(* ===== verification/KvRemote.v ===== *)
(** * pkg/kvstore: the redis store and the DynamoDB store

    Both keep the values as JSON behind the string of their key.  The redis client, the
    DynamoDB repository and encoding/json are parameters with laws; the stores that are
    built on them obey the laws of the interface, so the theorems on chains hold for
    chains of them. *)
From S2P Require Import Prelude FunkSlice KvStore KvInMemory.

(** ** What the stores use *)

(** encoding/json on the values of a store; a value is decoded into a variable. *)
Class Codec (T : Type) := {
  Marshal : T → result error string;
  Unmarshal : string → T → T * option error
}.

Definition decoded {T} `{!Codec T, !Zero T} (b : string) : option T :=
  match Unmarshal b zero with (v, None) => Some v | _ => None end.

(** What was encoded is decoded to the same value by a variable that holds the zero value.
    (Nothing is asked of other variables: encoding/json keeps what a text does not
    mention.) *)
Class CodecLaws (T : Type) `{!Codec T, !Zero T} :=
  Unmarshal_Marshal (v : T) b : Marshal v = Ok b → decoded b = Some v.

Lemma decoded_ok {T} `{!Codec T, !Zero T} b (v : T) : Unmarshal b zero = (v, None) → decoded b = Some v.
Proof. unfold decoded. by intros ->. Qed.

(** A state after a read: entries can get lost, but not from a store that keeps them. *)
Definition reads {R} (entries : R → gmap string string) (durable : R → Prop) (r r' : R) : Prop :=
  entries r' ⊆ entries r ∧ (durable r → durable r' ∧ entries r' = entries r).

(** The commands of a pipeline. *)
Inductive redis_cmd :=
| MSet (pairs : list (string * string))
| Expire (key : string) (ttl : Z).

(** The client of pkg/redis; [None] for the error [redis.Nil]. *)
Class RedisClient (R : Type) := {
  redis_Exists : string → R → R * result error Z;
  redis_Get : string → R → R * result error (option string);
  redis_MGet : list string → R → R * result error (list (option string));
  redis_Set : string → string → Z → R → R * option error;
  redis_Exec : list redis_cmd → R → R * option error;
  redis_Del : list string → R → R * result error Z;
  redis_DBSize : R → R * result error Z
}.

Definition written (pairs : list (string * string)) : gmap string string := list_to_map (reverse pairs).

Class RedisLaws (R : Type) `{!RedisClient R} := {
  redis_entries : R → gmap string string;
  redis_durable : R → Prop;
  redis_Exists_law k r r' res : redis_Exists k r = (r', res) →
    reads redis_entries redis_durable r r' ∧
    ∀ n, res = Ok n → if decide (0 < n)%Z then is_Some (redis_entries r !! k) else redis_entries r' !! k = None;
  redis_Get_law k r r' res : redis_Get k r = (r', res) →
    reads redis_entries redis_durable r r' ∧
    match res with
    | Ok (Some b) => redis_entries r !! k = Some b
    | Ok None => redis_entries r' !! k = None
    | Err _ => True
    end;
  redis_MGet_law ks r r' res : redis_MGet ks r = (r', res) →
    reads redis_entries redis_durable r r' ∧
    ∀ items, res = Ok items →
      Forall2 (λ k item, match item with Some b => redis_entries r !! k = Some b | None => redis_entries r' !! k = None end) ks items;
  redis_Set_law k b ttl r r' err : redis_Set k b ttl r = (r', err) →
    (redis_entries r' ⊆ <[k := b]> (redis_entries r) ∨ err ≠ None ∧ redis_entries r' ⊆ redis_entries r) ∧
    (redis_durable r → ttl = 0%Z → redis_durable r' ∧
       (redis_entries r' = <[k := b]> (redis_entries r) ∨ err ≠ None ∧ redis_entries r' = redis_entries r));
  redis_Exec_law pairs ttls r r' err :
    redis_Exec (MSet pairs :: ((λ kt, Expire kt.1 kt.2) <$> ttls)) r = (r', err) →
    (redis_entries r' ⊆ written pairs ∪ redis_entries r ∨ err ≠ None ∧ redis_entries r' ⊆ redis_entries r) ∧
    (redis_durable r → ttls = [] → err = None → redis_durable r' ∧ redis_entries r' = written pairs ∪ redis_entries r);
  redis_Del_law ks r r' res : redis_Del ks r = (r', res) →
    redis_entries r' ⊆ redis_entries r ∧
    (∀ n, res = Ok n → ∀ k, k ∈ ks → redis_entries r' !! k = None) ∧
    (redis_durable r → redis_durable r' ∧ ∀ k, k ∉ ks → redis_entries r' !! k = redis_entries r !! k)
}.

(** [pkg/kvstore/ddb.go:15-18] DdbItem *)
Record DdbItem := { Key : string; Value : string }.

(** The repository of pkg/ddb for such items. *)
Class Repository (R : Type) := {
  repo_GetItem : string → R → R * result error (option DdbItem);
  repo_BatchGetItems : list string → R → R * result error (list DdbItem);
  repo_PutItem : DdbItem → R → R * option error;
  repo_BatchPutItems : list DdbItem → R → R * option error;
  repo_DeleteItem : string → R → R * option error;
  repo_BatchDeleteItems : list string → R → R * option error
}.

Definition items_map (items : list DdbItem) : gmap string string := list_to_map ((λ it, (Key it, Value it)) <$> items).

Class RepositoryLaws (R : Type) `{!Repository R} := {
  repo_entries : R → gmap string string;
  repo_durable : R → Prop;
  repo_GetItem_law k r r' res : repo_GetItem k r = (r', res) →
    reads repo_entries repo_durable r r' ∧
    match res with
    | Ok (Some it) => repo_entries r !! k = Some (Value it)
    | Ok None => repo_entries r' !! k = None
    | Err _ => True
    end;
  repo_BatchGetItems_law ks r r' res : NoDup ks → repo_BatchGetItems ks r = (r', res) →
    reads repo_entries repo_durable r r' ∧
    ∀ items, res = Ok items →
      (∀ it, it ∈ items → Key it ∈ ks ∧ repo_entries r !! Key it = Some (Value it)) ∧
      (∀ k, k ∈ ks → k ∉ Key <$> items → repo_entries r' !! k = None);
  repo_PutItem_law it r r' err : repo_PutItem it r = (r', err) →
    (repo_entries r' ⊆ <[Key it := Value it]> (repo_entries r) ∨ err ≠ None ∧ repo_entries r' ⊆ repo_entries r) ∧
    (repo_durable r → repo_durable r' ∧
       (repo_entries r' = <[Key it := Value it]> (repo_entries r) ∨ err ≠ None ∧ repo_entries r' = repo_entries r));
  repo_BatchPutItems_law items r r' err : NoDup (Key <$> items) → repo_BatchPutItems items r = (r', err) →
    repo_entries r' ⊆ items_map items ∪ repo_entries r ∨
    err ≠ None ∧ (∀ k b, repo_entries r' !! k = Some b → repo_entries r !! k = Some b ∨ items_map items !! k = Some b);
  repo_BatchPutItems_durable items r r' err : NoDup (Key <$> items) → repo_BatchPutItems items r = (r', err) →
    repo_durable r → err = None → repo_durable r' ∧ repo_entries r' = items_map items ∪ repo_entries r;
  repo_DeleteItem_law k r r' err : repo_DeleteItem k r = (r', err) →
    repo_entries r' ⊆ repo_entries r ∧ (err = None → repo_entries r' !! k = None) ∧
    (repo_durable r → repo_durable r' ∧ ∀ k', k' ≠ k → repo_entries r' !! k' = repo_entries r !! k');
  repo_BatchDeleteItems_law ks r r' err : repo_BatchDeleteItems ks r = (r', err) →
    repo_entries r' ⊆ repo_entries r ∧ (err = None → ∀ k, k ∈ ks → repo_entries r' !! k = None) ∧
    (repo_durable r → repo_durable r' ∧ ∀ k, k ∉ ks → repo_entries r' !! k = repo_entries r !! k)
}.

(** ** The stores *)
Section Stores.
Context {O T : Type} `{Countable O} `{!Codec T} `{!Zero T}.
Context (ToStringE : any_key O → result error string) (typeOf : any_key O → ktype).
Context (mii_order : map_order (any_key O) T).
Implicit Types (key : any_key O) (value : T).

(** Keys cast to strings, up to the first one that cannot be. *)
Fixpoint cast_keys (wrap : error → error) (keys : list (any_key O)) : result error (list string) :=
  match keys with
  | [] => Ok []
  | key :: keys =>
      match CastKeyToString ToStringE key with
      | Err err => Err (wrap err)
      | Ok keyStr => let! keyStrs := cast_keys wrap keys in Ok (keyStr :: keyStrs)
      end
  end.

Section Redis.
Context {R : Type} `{!RedisClient R}.

(** [pkg/kvstore/redis.go:14-17] redisKvStore, with the settings it reads; a negative BatchSize makes
    PutBatch panic *)
Record redisKvStore := { rd_client : R; rd_Ttl : Z; rd_BatchSize : Z }.

Definition rd_with (s : redisKvStore) (r : R) : redisKvStore := {| rd_client := r; rd_Ttl := rd_Ttl s; rd_BatchSize := rd_BatchSize s |}.

(** [pkg/kvstore/redis.go:262-269] redisKvStore.key *)
Definition rd_key (key : any_key O) : result error string :=
  match CastKeyToString ToStringE key with
  | Err err => Err (ErrWrap "can not cast key to string" err)
  | Ok keyStr => Ok keyStr
  end.

(** [pkg/kvstore/redis.go:49-61] redisKvStore.Contains *)
Definition rd_Contains key (s : redisKvStore) : redisKvStore * (bool * option error) :=
  match rd_key key with
  | Err err => (s, (false, Some (ErrWrap "can not get key to check value in redis" err)))
  | Ok keyStr =>
      match redis_Exists keyStr (rd_client s) with
      | (r, Err err) => (rd_with s r, (false, Some (ErrWrap "can not check existence in redis store" err)))
      | (r, Ok count) => (rd_with s r, (bool_decide (0 < count)%Z, None))
      end
  end.

(** [pkg/kvstore/redis.go:63-85] redisKvStore.Get *)
Definition rd_Get key value (s : redisKvStore) : redisKvStore * (T * bool * option error) :=
  match rd_key key with
  | Err err => (s, (value, false, Some (ErrWrap "can not get key to read value from redis" err)))
  | Ok keyStr =>
      match redis_Get keyStr (rd_client s) with
      | (r, Err err) => (rd_with s r, (value, false, Some (ErrWrap "can not get value from redis store" err)))
      | (r, Ok None) => (rd_with s r, (value, false, None))
      | (r, Ok (Some data)) =>
          match Unmarshal data value with
          | (value, Some err) => (rd_with s r, (value, false, Some (ErrWrap "can not unmarshal value from redis store" err)))
          | (value, None) => (rd_with s r, (value, true, None))
          end
      end
  end.

(** [pkg/kvstore/redis.go:114-134] the items of getChunk, one after the other *)
Fixpoint rd_items (keys : list (any_key O)) (items : list (option string)) (missing : list (any_key O)) (resultMap : rmap O T) :
    rmap O T * result error (list (any_key O)) :=
  match keys, items with
  | key :: keys, None :: items => rd_items keys items (missing ++ [key]) resultMap
  | key :: keys, Some item :: items =>
      match Unmarshal item (zero : T) with
      | (_, Some err) => (resultMap, Err (ErrWrap "can not unmarshal item" err))
      | (element, None) =>
          match rmap_Set typeOf key element resultMap with
          | Err err => (resultMap, Err (ErrWrap "can not set new element on result map" err))
          | Ok resultMap => rd_items keys items missing resultMap
          end
      end
  | _, _ => (resultMap, Ok missing)
  end.

(** [pkg/kvstore/redis.go:91-135] redisKvStore.getChunk *)
Definition rd_getChunk : chunkGetter (O := O) (T := T) redisKvStore := λ resultMap keys s,
  match cast_keys (λ err, ErrWrap "can not build string key" (ErrWrap "can not cast key to string" err)) keys with
  | Err err => (s, (resultMap, Err err))
  | Ok keyStrings =>
      match redis_MGet keyStrings (rd_client s) with
      | (r, Err err) => (rd_with s r, (resultMap, Err (ErrWrap "can not get batch from redis" err)))
      | (r, Ok items) =>
          if negb (length items =? length keys)
          then (rd_with s r, (resultMap, Err (ErrStore "count of returned items does not match key count")))
          else (rd_with s r, rd_items keys items [] resultMap)
      end
  end.

(** [pkg/kvstore/redis.go:87-89] redisKvStore.GetBatch *)
Definition rd_GetBatch (keys : list (any_key O)) (result : rmap O T) (s : redisKvStore) :
    redisKvStore * (rmap O T * list (any_key O) * option error) :=
  getBatch ToStringE rd_getChunk (rd_BatchSize s) keys result s.

(** [pkg/kvstore/redis.go:151-161] redisKvStore.marshalKeyValue *)
Definition marshalKeyValue key value : result error (string * string) :=
  match Marshal value with
  | Err err => Err (ErrWrap "can not marshal value" err)
  | Ok bytes =>
      match rd_key key with
      | Err err => Err (ErrWrap "can not get key to write value to redis" err)
      | Ok keyStr => Ok (keyStr, bytes)
      end
  end.

(** [pkg/kvstore/redis.go:137-149] redisKvStore.Put *)
Definition rd_Put key value (s : redisKvStore) : redisKvStore * option error :=
  match marshalKeyValue key value with
  | Err err => (s, Some (ErrWrap "can not get key/value to write to redis" err))
  | Ok (keyStr, bytes) =>
      match redis_Set keyStr bytes (rd_Ttl s) (rd_client s) with
      | (r, Some err) => (rd_with s r, Some (ErrWrap "can not set value in redis store" err))
      | (r, None) => (rd_with s r, None)
      end
  end.

(** [pkg/kvstore/redis.go:190-212] redisKvStore.flushChunk *)
Definition rd_flushChunk (pairs : list (string * string)) (s : redisKvStore) : redisKvStore * option error :=
  match pairs with
  | [] => (s, None)
  | _ =>
      let expires := if (rd_Ttl s =? 0)%Z then [] else (λ kv, (kv.1, rd_Ttl s)) <$> pairs in
      let '(r, err) := redis_Exec (MSet pairs :: ((λ kt, Expire kt.1 kt.2) <$> expires)) (rd_client s) in
      (rd_with s r, err)
  end.

Fixpoint rd_putBatch (l : list (any_key O * T)) (pairs : list (string * string)) (s : redisKvStore) : redisKvStore * option error :=
  match l with
  | [] => rd_flushChunk pairs s
  | (k, v) :: l =>
      match marshalKeyValue k v with
      | Err err => (s, Some (ErrWrap "PutBatch could not marshal key/value" err))
      | Ok kv =>
          let pairs := pairs ++ [kv] in
          if (rd_BatchSize s <=? Z.of_nat (length pairs))%Z then
            match rd_flushChunk pairs s with
            | (s, Some err) => (s, Some (ErrWrap "failed to write batch to redis" err))
            | (s, None) => rd_putBatch l [] s
            end
          else rd_putBatch l pairs s
      end
  end.

(** [pkg/kvstore/redis.go:163-188] redisKvStore.PutBatch *)
Definition rd_PutBatch (mii : gmap (any_key O) T) (s : redisKvStore) : redisKvStore * option error :=
  rd_putBatch (enum mii_order mii) [] s.

(** [pkg/kvstore/redis.go:214-221] redisKvStore.EstimateSize *)
Definition rd_EstimateSize (s : redisKvStore) : redisKvStore * option Z :=
  match redis_DBSize (rd_client s) with
  | (r, Err _) => (rd_with s r, None)
  | (r, Ok size) => (rd_with s r, Some size)
  end.

(** [pkg/kvstore/redis.go:223-235] redisKvStore.Delete *)
Definition rd_Delete key (s : redisKvStore) : redisKvStore * option error :=
  match rd_key key with
  | Err err => (s, Some (ErrWrap "can not get key to delete value from redis" err))
  | Ok keyStr =>
      match redis_Del [keyStr] (rd_client s) with
      | (r, Err err) => (rd_with s r, Some (ErrWrap "can not delete value from redis store" err))
      | (r, Ok _) => (rd_with s r, None)
      end
  end.

(** [pkg/kvstore/redis.go:237-260] redisKvStore.DeleteBatch *)
Definition rd_DeleteBatch (keys : list (any_key O)) (s : redisKvStore) : redisKvStore * option error :=
  match cast_keys (λ err, ErrWrap "can not get key to delete value from redis" (ErrWrap "can not cast key to string" err)) keys with
  | Err err => (s, Some err)
  | Ok redisKeys =>
      match redis_Del redisKeys (rd_client s) with
      | (r, Err err) => (rd_with s r, Some (ErrWrap "can not delete values from redis store" err))
      | (r, Ok _) => (rd_with s r, None)
      end
  end.
End Redis.

Section Ddb.
Context {R : Type} `{!Repository R}.

(** [pkg/kvstore/ddb.go:24-27] ddbKvStore, with the settings it reads *)
Record ddbKvStore := { dd_repository : R; dd_BatchSize : Z }.

Definition dd_with (s : ddbKvStore) (r : R) : ddbKvStore := {| dd_repository := r; dd_BatchSize := dd_BatchSize s |}.

(** [pkg/kvstore/ddb.go:71-85] ddbKvStore.Contains *)
Definition dd_Contains key (s : ddbKvStore) : ddbKvStore * (bool * option error) :=
  match CastKeyToString ToStringE key with
  | Err err => (s, (false, Some (ErrWrap "can not cast key to string" err)))
  | Ok keyStr =>
      match repo_GetItem keyStr (dd_repository s) with
      | (r, Err err) => (dd_with s r, (false, Some (ErrWrap "can not check if ddb store contains the key" err)))
      | (r, Ok item) => (dd_with s r, (bool_decide (is_Some item), None))
      end
  end.

(** [pkg/kvstore/ddb.go:87-112] ddbKvStore.Get *)
Definition dd_Get key value (s : ddbKvStore) : ddbKvStore * (T * bool * option error) :=
  match CastKeyToString ToStringE key with
  | Err err => (s, (value, false, Some (ErrWrap "can not cast key to string" err)))
  | Ok keyStr =>
      match repo_GetItem keyStr (dd_repository s) with
      | (r, Err err) => (dd_with s r, (value, false, Some (ErrWrap "can not get item from ddb store" err)))
      | (r, Ok None) => (dd_with s r, (value, false, None))
      | (r, Ok (Some item)) =>
          match Unmarshal (Value item) value with
          | (value, Some err) => (dd_with s r, (value, false, Some (ErrWrap "can not unmarshal value for item" err)))
          | (value, None) => (dd_with s r, (value, true, None))
          end
      end
  end.

(** [pkg/kvstore/ddb.go:121-132] keyStrings and keyMapToOriginal *)
Definition dd_original (keyStrings : list string) (keys : list (any_key O)) : gmap string (any_key O) :=
  list_to_map (reverse (zip keyStrings keys)).

(** [pkg/kvstore/ddb.go:143-158] the items of getChunk, one after the other; an item that was not asked for
    would be set under a nil key, which the parameter [nil_key] stands for *)
Fixpoint dd_items (nil_key : any_key O) (keyMapToOriginal : gmap string (any_key O)) (items : list DdbItem) (found : gmap string bool)
    (resultMap : rmap O T) : rmap O T * result error (gmap string bool) :=
  match items with
  | [] => (resultMap, Ok found)
  | item :: items =>
      match Unmarshal (Value item) (zero : T) with
      | (_, Some err) => (resultMap, Err (ErrWrap "can not unmarshal item" err))
      | (element, None) =>
          match rmap_Set typeOf (default nil_key (keyMapToOriginal !! Key item)) element resultMap with
          | Err err => (resultMap, Err (ErrWrap "can not set new element on result map" err))
          | Ok resultMap => dd_items nil_key keyMapToOriginal items (<[Key item := true]> found) resultMap
          end
      end
  end.

(** [pkg/kvstore/ddb.go:160-168] the keys that were not found *)
Definition dd_missing (found : gmap string bool) (keyStrings : list string) (keys : list (any_key O)) : list (any_key O) :=
  (List.filter (λ kk, negb (map_has found kk.1)) (zip keyStrings keys)).*2.

(** [pkg/kvstore/ddb.go:118-169] ddbKvStore.getChunk *)
Definition dd_getChunk (nil_key : any_key O) : chunkGetter (O := O) (T := T) ddbKvStore := λ resultMap keys s,
  match cast_keys (ErrWrap "can not cast key to string") keys with
  | Err err => (s, (resultMap, Err err))
  | Ok keyStrings =>
      match repo_BatchGetItems keyStrings (dd_repository s) with
      | (r, Err err) => (dd_with s r, (resultMap, Err (ErrWrap "can not get items from ddb" err)))
      | (r, Ok items) =>
          match dd_items nil_key (dd_original keyStrings keys) items ∅ resultMap with
          | (resultMap, Err err) => (dd_with s r, (resultMap, Err err))
          | (resultMap, Ok found) => (dd_with s r, (resultMap, Ok (dd_missing found keyStrings keys)))
          end
      end
  end.

(** [pkg/kvstore/ddb.go:114-116] ddbKvStore.GetBatch *)
Definition dd_GetBatch (nil_key : any_key O) (keys : list (any_key O)) (result : rmap O T) (s : ddbKvStore) :
    ddbKvStore * (rmap O T * list (any_key O) * option error) :=
  getBatch ToStringE (dd_getChunk nil_key) (dd_BatchSize s) keys result s.

(** [pkg/kvstore/ddb.go:171-193] ddbKvStore.Put *)
Definition dd_Put key value (s : ddbKvStore) : ddbKvStore * option error :=
  match CastKeyToString ToStringE key with
  | Err err => (s, Some (ErrWrap "can not cast key to string" err))
  | Ok keyStr =>
      match Marshal value with
      | Err err => (s, Some (ErrWrap "can not marshal value" err))
      | Ok bytes =>
          match repo_PutItem {| Key := keyStr; Value := bytes |} (dd_repository s) with
          | (r, Some err) => (dd_with s r, Some (ErrWrap "can not put item into ddb store" err))
          | (r, None) => (dd_with s r, None)
          end
      end
  end.

(** [pkg/kvstore/ddb.go:201-212] the loop over the keys of PutBatch: the strings and the last key of each *)
Fixpoint dd_keys (keys : list (any_key O)) (keyStrings : list string) (keyMap : gmap string (any_key O)) :
    result error (list string * gmap string (any_key O)) :=
  match keys with
  | [] => Ok (keyStrings, keyMap)
  | k :: keys =>
      match CastKeyToString ToStringE k with
      | Err err => Err (ErrWrap "can not cast key to string" err)
      | Ok keyStr => dd_keys keys (keyStrings ++ [keyStr]) (<[keyStr := k]> keyMap)
      end
  end.

(** [pkg/kvstore/ddb.go:214-232] the items of PutBatch *)
Fixpoint dd_putItems (mii : gmap (any_key O) T) (keyMap : gmap string (any_key O)) (keyStrings : list string) :
    result error (list DdbItem) :=
  match keyStrings with
  | [] => Ok []
  | keyStr :: keyStrings =>
      match keyMap !! keyStr ≫= λ key, mii !! key with
      | None => Err (ErrStore "no value")
      | Some value =>
          match Marshal value with
          | Err err => Err (ErrWrap "can not marshal value" err)
          | Ok bytes => let! items := dd_putItems mii keyMap keyStrings in Ok ({| Key := keyStr; Value := bytes |} :: items)
          end
      end
  end.

(** [pkg/kvstore/ddb.go:195-240] ddbKvStore.PutBatch *)
Definition dd_PutBatch (mii : gmap (any_key O) T) (s : ddbKvStore) : ddbKvStore * option error :=
  match dd_keys (enum mii_order mii).*1 [] ∅ with
  | Err err => (s, Some err)
  | Ok (keyStrings, keyMap) =>
      match dd_putItems mii keyMap (merge_sort String.le keyStrings) with
      | Err err => (s, Some err)
      | Ok items =>
          match repo_BatchPutItems items (dd_repository s) with
          | (r, Some err) => (dd_with s r, Some (ErrWrap "not able to put values into ddb store" err))
          | (r, None) => (dd_with s r, None)
          end
      end
  end.

(** [pkg/kvstore/ddb.go:242-256] ddbKvStore.Delete *)
Definition dd_Delete key (s : ddbKvStore) : ddbKvStore * option error :=
  match CastKeyToString ToStringE key with
  | Err err => (s, Some (ErrWrap "can not cast key to string" err))
  | Ok keyStr =>
      match repo_DeleteItem keyStr (dd_repository s) with
      | (r, Some err) => (dd_with s r, Some (ErrWrap "can not delete item from ddb store" err))
      | (r, None) => (dd_with s r, None)
      end
  end.

(** [pkg/kvstore/ddb.go:258-283] ddbKvStore.DeleteBatch *)
Definition dd_DeleteBatch (keys : list (any_key O)) (s : ddbKvStore) : ddbKvStore * option error :=
  match cast_keys (ErrWrap "can not cast key to string") keys with
  | Err err => (s, Some err)
  | Ok items =>
      match repo_BatchDeleteItems items (dd_repository s) with
      | (r, Some err) => (dd_with s r, Some (ErrWrap "can not delete values from ddb store" err))
      | (r, None) => (dd_with s r, None)
      end
  end.
End Ddb.
End Stores.

(** ** Decoded entries *)
Section Decode.
Context {T : Type} `{!Codec T} `{!Zero T}.
Implicit Types (m : gmap string string) (k b : string) (v : T).

(** The values a remote store holds: what its entries decode to. *)
Definition decode m : gmap string T := omap decoded m.

Lemma decode_lookup m k : decode m !! k = m !! k ≫= decoded.
Proof. apply lookup_omap. Qed.

Lemma decode_some m k b v : m !! k = Some b → decoded b = Some v → decode m !! k = Some v.
Proof. intros Hk Hb. by rewrite decode_lookup Hk. Qed.

Lemma decode_none m k : m !! k = None → decode m !! k = None.
Proof. intros Hk. by rewrite decode_lookup Hk. Qed.

Lemma decode_subseteq m m' : m ⊆ m' → decode m ⊆ decode m'.
Proof.
  intros Hm. apply map_subseteq_spec. intros k v. rewrite !decode_lookup. destruct (m !! k) as [b|] eqn:Hk; [|done].
  by rewrite (lookup_weaken _ _ _ _ Hk Hm).
Qed.

Lemma decode_insert m k b v : decoded b = Some v → decode (<[k := b]> m) = <[k := v]> (decode m).
Proof.
  intros Hb. apply map_eq. intros j. rewrite decode_lookup. destruct (decide (k = j)) as [<-|Hne].
  - by rewrite !lookup_insert_eq.
  - rewrite !lookup_insert_ne //. by rewrite decode_lookup.
Qed.

(** Entries that were all written by a store. *)
Definition decodable m : Prop := ∀ k b, m !! k = Some b → is_Some (decoded (T := T) b).

Lemma decodable_subseteq m m' : m' ⊆ m → decodable m → decodable m'.
Proof. intros Hm Hd k b Hk. eapply Hd. by eapply lookup_weaken. Qed.

Lemma decodable_insert m k b v : decoded b = Some v → decodable m → decodable (<[k := b]> m).
Proof. intros Hb Hd j c [[_ <-]|[_ Hj]]%lookup_insert_Some; [by eexists|by eapply Hd]. Qed.

Lemma decodable_union m m' : decodable m → decodable m' → decodable (m ∪ m').
Proof. intros H1 H2 k b [Hk|[_ Hk]]%lookup_union_Some_raw; [by eapply H1|by eapply H2]. Qed.

Lemma decode_is_Some m k : decodable m → is_Some (decode m !! k) ↔ is_Some (m !! k).
Proof.
  intros Hd. rewrite decode_lookup. specialize (Hd k). destruct (m !! k) as [b|]; simpl; [|split; by intros [? ?]].
  split; [by eexists|by intros _; apply Hd].
Qed.

(** Entries of a store that keeps them after a deletion of [ks]. *)
Lemma decode_deleted m m' (ks : list string) :
  m' ⊆ m → (∀ k, k ∉ ks → m' !! k = m !! k) →
  decode m' ⊆ decode m ∧ (∀ k, k ∉ ks → decode m' !! k = decode m !! k).
Proof. intros Hs Hk. split; [by apply decode_subseteq|]. intros k Hn. by rewrite !decode_lookup Hk. Qed.

Lemma reads_decode {R} (entries : R → gmap string string) (durable : R → Prop) r r' :
  reads entries durable r r' →
  decode (entries r') ⊆ decode (entries r) ∧ (durable r → durable r' ∧ decode (entries r') = decode (entries r)).
Proof. intros [Hs Hd]. split; [by apply decode_subseteq|]. intros [Hd' He]%Hd. by rewrite He. Qed.

Lemma subseteq_insert_cases (m m' : gmap string T) k v :
  m' ⊆ <[k := v]> m → ∀ j x, m' !! j = Some x → m !! j = Some x ∨ (j = k ∧ x = v).
Proof. intros Hs j x Hx. eapply lookup_weaken in Hx; [|exact Hs]. apply lookup_insert_Some in Hx. naive_solver. Qed.
End Decode.

(** ** The redis store is a store *)
Section RedisStore.
Context {O T R : Type} `{Countable O} `{!Codec T} `{!Zero T} `{!CodecLaws T} `{!RedisClient R} `{!RedisLaws R}.
Context (ToStringE : any_key O → result error string) (typeOf : any_key O → ktype) (mii_order : map_order (any_key O) T).
Context (cast_string : ∀ k, ToStringE (KString k) = Ok k) (typeOf_string : ∀ k, typeOf (KString k) = TString).
Implicit Types (s : redisKvStore (R := R)) (key : any_key O) (v value : T) (ks ms : list string) (vm m : gmap string T).

Definition rd_view s : gmap string T := decode (redis_entries (rd_client s)).
Definition rd_durable s : Prop :=
  redis_durable (rd_client s) ∧ rd_Ttl s = 0%Z ∧ decodable (T := T) (redis_entries (rd_client s)).

Lemma rd_reads s r :
  reads redis_entries redis_durable (rd_client s) r →
  rd_view (rd_with s r) ⊆ rd_view s ∧ (rd_durable s → rd_durable (rd_with s r) ∧ rd_view (rd_with s r) = rd_view s).
Proof.
  intros Hr. pose proof Hr as [Hs Hd]%reads_decode. split; [done|]. intros (Hdur & Ht & Hdec).
  destruct (Hd Hdur) as [Hr' Hv]. destruct Hr as [_ Hr]. destruct (Hr Hdur) as [_ He].
  split; [|done]. split_and!; [done|done|]. cbn [rd_with rd_client]. by rewrite He.
Qed.

Lemma rd_key_cast key k : rd_key ToStringE key = Ok k ↔ CastKeyToString ToStringE key = Ok k.
Proof. unfold rd_key. destruct (CastKeyToString ToStringE key); [done|]. by split. Qed.

Lemma cast_keys_string wrap ks : cast_keys ToStringE wrap (KString <$> ks) = Ok ks.
Proof. induction ks as [|k ks IH]; [done|]. csimpl. rewrite CastKeyToString_string // IH. done. Qed.

Lemma rd_Get_law key value s s' v found err :
  rd_Get ToStringE key value s = (s', (v, found, err)) →
  rd_view s' ⊆ rd_view s ∧ (rd_durable s → rd_durable s' ∧ rd_view s' = rd_view s) ∧
  (found = true → err = None ∧ (value = zero → lookup_key ToStringE (rd_view s) key = Some v)) ∧
  (found = false → err = None → v = value ∧ lookup_key ToStringE (rd_view s') key = None).
Proof.
  unfold rd_Get. destruct (rd_key ToStringE key) as [k|e] eqn:Hk; [|by intros [= <- <- <- <-]].
  apply rd_key_cast in Hk. unfold lookup_key. rewrite Hk. destruct (redis_Get k (rd_client s)) as [r res] eqn:Hg.
  apply redis_Get_law in Hg as [Hr Hres]. destruct (rd_reads s r Hr) as [Hs Hd].
  destruct res as [[b|]|e]; [|intros [= <- <- <- <-]; split_and!; [done..|]; intros _ _; split; [done|by apply decode_none]|by intros [= <- <- <- <-]].
  destruct (Unmarshal b value) as [v1 [e|]] eqn:Hu; intros [= <- <- <- <-]; split_and!; try done.
  intros _. split; [done|]. intros ->. apply decoded_ok in Hu. by eapply decode_some.
Qed.

(** The items of a batch. *)
Lemma rd_items_ok s s' ks items acc vm :
  Forall2 (λ k item, match item with Some b => redis_entries (rd_client s) !! k = Some b | None => redis_entries (rd_client s') !! k = None end) ks items →
  (∃ vm' ms,
    rd_items typeOf (KString <$> ks) items (KString <$> acc) (RMap TString (keyed vm)) = (RMap TString (keyed vm'), Ok (KString <$> (acc ++ ms))) ∧
    (∀ k, vm' !! k = vm !! k ∨ (k ∈ ks ∧ is_Some (vm' !! k) ∧ vm' !! k = rd_view s !! k)) ∧ (∀ k, k ∈ ms → k ∈ ks) ∧
    (∀ k, k ∈ ks → if decide (k ∈ ms) then rd_view s' !! k = None else is_Some (vm' !! k) ∧ vm' !! k = rd_view s !! k)) ∨
  (∃ vm' err,
    rd_items typeOf (KString <$> ks) items (KString <$> acc) (RMap TString (keyed vm)) = (RMap TString (keyed vm'), Err err) ∧
    (∀ k, vm' !! k = vm !! k ∨ (k ∈ ks ∧ is_Some (vm' !! k) ∧ vm' !! k = rd_view s !! k))).
Proof.
  intros Hitems. revert acc vm. induction Hitems as [|k [b|] ks items Hk _ IH]; intros acc vm.
  - left. exists vm, []. rewrite app_nil_r. split_and!; [done|by left|done|by intros k ?%elem_of_nil].
  - csimpl. destruct (Unmarshal b (zero : T)) as [v [e|]] eqn:Hu.
    { right. exists vm. eexists. split; [done|]. by left. }
    apply decoded_ok in Hu. unfold rmap_Set at 1 2. simpl.
    rewrite decide_False; [rewrite typeOf_string; naive_solver|]. rewrite keyed_insert.
    assert (Hv : rd_view s !! k = Some v) by (by eapply decode_some).
    assert (Hstep : ∀ vm', (∀ j, vm' !! j = <[k := v]> vm !! j ∨ (j ∈ ks ∧ is_Some (vm' !! j) ∧ vm' !! j = rd_view s !! j)) →
      (is_Some (vm' !! k) ∧ vm' !! k = rd_view s !! k) ∧
      ∀ j, vm' !! j = vm !! j ∨ (j ∈ k :: ks ∧ is_Some (vm' !! j) ∧ vm' !! j = rd_view s !! j)).
    { intros vm' Hvm. assert (Hkk : is_Some (vm' !! k) ∧ vm' !! k = rd_view s !! k).
      { destruct (Hvm k) as [Heq|(_ & ? & ?)]; [|done]. rewrite lookup_insert_eq in Heq. rewrite Heq Hv. by split; [eexists|]. }
      split; [done|]. intros j. destruct (decide (j = k)) as [->|Hne]; [right; split; [left|done]|].
      destruct (Hvm j) as [Heq|(? & ? & ?)]; [left; by rewrite lookup_insert_ne in Heq | right; split; [by right|done]]. }
    destruct (IH acc (<[k := v]> vm)) as [(vm' & ms & Hrun & Hf & Hin & Hok)|(vm' & err & Hrun & Hf)]; rewrite Hrun; destruct (Hstep vm' Hf) as [Hkk Hall].
    + left. exists vm', ms. split_and!; [done|done|intros j ?%Hin; by right|].
      intros j [->|Hj]%elem_of_cons; [|by apply Hok]. case_decide as Hm; [|done]. specialize (Hok k (Hin k Hm)). by rewrite decide_True in Hok.
    + right. by exists vm', err.
  - csimpl. change [KString (O := O) k] with (KString (O := O) <$> [k]). rewrite -fmap_app.
    destruct (IH (acc ++ [k]) vm) as [(vm' & ms & Hrun & Hf & Hin & Hok)|(vm' & err & Hrun & Hf)]; rewrite Hrun.
    + left. exists vm', (k :: ms). rewrite -app_assoc. split_and!; [done| | |].
      * intros j. destruct (Hf j) as [->|(? & ? & ?)]; [by left|right; split; [by right|done]].
      * intros j [->|Hj]%elem_of_cons; [left | right; by apply Hin].
      * intros j Hj. destruct (decide (j ∈ k :: ms)) as [Hm|Hm].
        -- apply elem_of_cons in Hm as [->|Hm]; [by apply decode_none|]. specialize (Hok j (Hin j Hm)). by rewrite decide_True in Hok.
        -- apply not_elem_of_cons in Hm as [Hne Hm]. apply elem_of_cons in Hj as [->|Hj]; [done|]. specialize (Hok j Hj). by rewrite decide_False in Hok.
    + right. exists vm', err. split; [done|]. intros j. destruct (Hf j) as [->|(? & ? & ?)]; [by left|right; split; [by right|done]].
Qed.

Lemma rd_chunk_contract : chunk_contract rd_view rd_durable True (rd_getChunk ToStringE typeOf).
Proof.
  intros ks s vm _. unfold rd_getChunk. rewrite cast_keys_string. destruct (redis_MGet ks (rd_client s)) as [r res] eqn:Hg.
  apply redis_MGet_law in Hg as [Hr Hres]. destruct (rd_reads s r Hr) as [Hs Hd].
  assert (Hnone : batch_partial rd_view rd_durable ks s vm (rd_with s r) vm) by (split_and!; [done..|by left]).
  destruct res as [items|e]; [|right; split; [done|]; by exists (rd_with s r), vm; eexists]. specialize (Hres items eq_refl).
  rewrite length_fmap -(Forall2_length _ _ _ Hres) Nat.eqb_refl. cbn [negb].
  change (@nil (any_key O)) with (KString (O := O) <$> []).
  destruct (rd_items_ok s (rd_with s r) ks items [] vm Hres) as [(vm' & ms & -> & Hf & Hin & Hok)|(vm' & err & -> & Hf)].
  - left. exists (rd_with s r), vm', ms. by split_and!.
  - right. split; [done|]. exists (rd_with s r), vm', err. by split_and!.
Qed.

(** *** Writes *)
Lemma rd_Put_law key value s s' err :
  rd_Put ToStringE key value s = (s', err) →
  (∀ k x, rd_view s' !! k = Some x → rd_view s !! k = Some x ∨ (CastKeyToString ToStringE key = Ok k ∧ x = value)) ∧
  (err = None → rd_view s' ⊆ insert_key ToStringE key value (rd_view s)) ∧
  (rd_durable s → rd_durable s' ∧
    match err with
    | Some _ => rd_view s' = rd_view s ∨ rd_view s' = insert_key ToStringE key value (rd_view s)
    | None => rd_view s' = insert_key ToStringE key value (rd_view s)
    end).
Proof.
  unfold rd_Put, marshalKeyValue, insert_key. destruct (Marshal value) as [b|e] eqn:Hb; [|intros [= <- <-]; split_and!; by auto].
  destruct (rd_key ToStringE key) as [k|e] eqn:Hk; [|intros [= <- <-]; split_and!; by auto]. apply rd_key_cast in Hk. rewrite Hk.
  apply Unmarshal_Marshal in Hb. destruct (redis_Set k b (rd_Ttl s) (rd_client s)) as [r e] eqn:Hs.
  apply redis_Set_law in Hs as [Hsub Hdur].
  assert (Hview : rd_view (rd_with s r) ⊆ <[k := value]> (rd_view s) ∨ e ≠ None ∧ rd_view (rd_with s r) ⊆ rd_view s).
  { unfold rd_view. simpl. destruct Hsub as [Hsub|[He Hsub]]; [left; rewrite -(decode_insert _ _ b value) //|right; split; [done|]]; by apply decode_subseteq. }
  assert (Hkeep : rd_durable s → rd_durable (rd_with s r) ∧
    (rd_view (rd_with s r) = <[k := value]> (rd_view s) ∨ e ≠ None ∧ rd_view (rd_with s r) = rd_view s)).
  { intros (Hd & Ht & Hdec). destruct (Hdur Hd Ht) as [Hd' Hv]. unfold rd_durable, rd_view. cbn [rd_with rd_client rd_Ttl].
    destruct Hv as [->|[He ->]]; (split; [split_and!; [done|done|]|]);
      [by eapply decodable_insert|left; by apply decode_insert|done|by right]. }
  assert (Hcases : ∀ j x, rd_view (rd_with s r) !! j = Some x → rd_view s !! j = Some x ∨ (Ok (E := error) k = Ok j ∧ x = value)).
  { intros j x Hx. destruct Hview as [Hv|[_ Hv]]; [|left; by eapply lookup_weaken].
    destruct (subseteq_insert_cases _ _ _ _ Hv j x Hx) as [?|[-> ->]]; auto. }
  destruct e; intros [= <- <-]; split_and!; try done.
  - intros [Hd Hv]%Hkeep. split; [done|]. destruct Hv as [->|[_ ->]]; auto.
  - intros _. by destruct Hview as [?|[? _]].
  - intros [Hd Hv]%Hkeep. split; [done|]. by destruct Hv as [->|[? _]].
Qed.

Lemma written_some pairs k b : written pairs !! k = Some b → (k, b) ∈ pairs.
Proof. unfold written. intros Hk%elem_of_list_to_map_2. by rewrite elem_of_reverse in Hk. Qed.

Lemma written_key pairs k : k ∈ pairs.*1 → is_Some (written pairs !! k).
Proof.
  intros Hk. unfold written. destruct (list_to_map _ !! k) eqn:Hn; [by eexists|].
  apply not_elem_of_list_to_map_2 in Hn. destruct Hn. rewrite fmap_reverse elem_of_reverse. done.
Qed.

(** What a batch still has to write: pairs of the values of [m]. *)
Definition pending (m : gmap string T) (pairs : list (string * string)) : Prop :=
  ∀ k b, (k, b) ∈ pairs → ∃ v, m !! k = Some v ∧ decoded b = Some v.

Lemma rd_flush_view m pairs s s' err :
  pending m pairs → rd_flushChunk pairs s = (s', err) →
  (∀ k x, rd_view s' !! k = Some x → (rd_view s !! k = Some x ∧ (err = None → k ∉ pairs.*1)) ∨ m !! k = Some x) ∧
  (rd_durable s → err = None → rd_durable s' ∧ ∀ k, rd_view s' !! k = if decide (k ∈ pairs.*1) then m !! k else rd_view s !! k).
Proof.
  intros Hp. assert (Hw : ∀ k b, written pairs !! k = Some b → ∃ v, m !! k = Some v ∧ decoded b = Some v) by (intros k b Hk%written_some; by apply Hp).
  destruct pairs as [|kv pairs]; [intros [= <- <-]; split|].
  { intros k x Hx. left. split; [done|]. by intros _ ?%elem_of_nil. }
  { intros Hd _. split; [done|]. intros k. case_decide as Hk; [by apply elem_of_nil in Hk|done]. }
  unfold rd_flushChunk. set (ps := kv :: pairs) in *. destruct (redis_Exec _ _) as [r e] eqn:He. intros [= <- <-].
  apply redis_Exec_law in He as [Hsub Hdur]. split.
  - intros k x Hx. unfold rd_view in Hx |- *. simpl in Hx. rewrite decode_lookup in Hx.
    destruct (redis_entries r !! k) as [b|] eqn:Hk; [|done]. simpl in Hx. destruct Hsub as [Hsub|[Hne Hsub]].
    + eapply lookup_weaken in Hk; [|exact Hsub]. apply lookup_union_Some_raw in Hk as [Hk|[Hn Hk]].
      * apply Hw in Hk as (v & Hm & Hb). right. congruence.
      * left. split; [by eapply decode_some|]. intros _ Hin. apply written_key in Hin as [? ?]. congruence.
    + left. split; [|done]. eapply lookup_weaken in Hk; [|exact Hsub]. by eapply decode_some.
  - intros (Hd & Ht & Hdec) ->. rewrite Ht /= in Hdur. destruct (Hdur Hd eq_refl eq_refl) as [Hd' Hv]. split.
    { split_and!; [done|done|]. cbn [rd_with rd_client]. rewrite Hv. apply decodable_union; [|done].
      intros k b (v & _ & Hb)%Hw. by eexists. }
    intros k.
    unfold rd_view. simpl. rewrite Hv !decode_lookup. case_decide as Hin.
    + destruct (written_key ps k Hin) as [b Hb]. rewrite (lookup_union_Some_l _ _ _ _ Hb). destruct (Hw k b Hb) as (v & -> & Hdecb). by simpl.
    + rewrite lookup_union_r //. destruct (written ps !! k) as [b|] eqn:Hb; [|done]. apply written_some in Hb.
      destruct Hin. change (k ∈ ps.*1). apply list_elem_of_fmap. by exists (k, b).
Qed.

Lemma rd_putBatch_view m l pairs s s' err :
  pending m pairs → (∀ key v, (key, v) ∈ l → ∃ k, key = KString k ∧ m !! k = Some v) →
  rd_putBatch ToStringE l pairs s = (s', err) →
  (∀ k x, rd_view s' !! k = Some x → (rd_view s !! k = Some x ∧ (err = None → k ∉ pairs.*1 ∧ KString k ∉ l.*1)) ∨ m !! k = Some x) ∧
  (rd_durable s → err = None → rd_durable s' ∧
     ∀ k, rd_view s' !! k = if decide (k ∈ pairs.*1 ∨ KString k ∈ l.*1) then m !! k else rd_view s !! k).
Proof.
  revert pairs s. induction l as [|[key v] l IH]; intros pairs s Hp Hl; cbn [rd_putBatch].
  - intros Hrun. destruct (rd_flush_view m pairs s s' err Hp Hrun) as [Ha Hb]. split.
    + intros k x [[? Hk]|?]%Ha; [left|by right]. split; [done|]. intros He. split; [by apply Hk|by intros ?%elem_of_nil].
    + intros Hd He. destruct (Hb Hd He) as [Hd' Hv]. split; [done|]. intros k. rewrite Hv.
      destruct (decide (k ∈ pairs.*1)) as [Hk|Hk]; [by rewrite decide_True; [left|]|].
      rewrite decide_False //. by intros [?|?%elem_of_nil].
  - destruct (Hl key v) as (k & -> & Hk); [left|]. unfold marshalKeyValue at 1. destruct (Marshal v) as [b|e] eqn:Hb.
    2:{ intros [= <- <-]. split; [|done]. intros j x Hx. left. by split. }
    assert (Hkey : rd_key ToStringE (KString k) = Ok k) by (apply rd_key_cast; by apply CastKeyToString_string). rewrite Hkey.
    apply Unmarshal_Marshal in Hb. set (ps := pairs ++ [(k, b)]).
    assert (Hps : pending m ps).
    { intros j c [?|[= -> ->]%list_elem_of_singleton]%elem_of_app; [by apply Hp|]. by exists v. }
    assert (Hpk : ∀ j, j ∈ ps.*1 ↔ j ∈ pairs.*1 ∨ j = k) by (intros j; unfold ps; rewrite fmap_app elem_of_app list_elem_of_singleton; done).
    assert (Hl' : ∀ key v, (key, v) ∈ l → ∃ k, key = KString k ∧ m !! k = Some v) by (intros; apply Hl; by right).
    assert (Hlk : ∀ j, (KString j : any_key O) ∈ KString k :: l.*1 ↔ j = k ∨ KString j ∈ l.*1) by (intros j; rewrite elem_of_cons; naive_solver).
    case_match.
    + destruct (rd_flushChunk ps s) as [s1 [e|]] eqn:Hf; destruct (rd_flush_view m ps s s1 _ Hps Hf) as [Ha Hd].
      { intros [= <- <-]. split; [|done]. intros j x [[? _]|?]%Ha; [left|by right]. by split. }
      intros Hrun. destruct (IH [] s1) as [Ha2 Hd2]; [by intros ? ? ?%elem_of_nil|done|done|]. split.
      * intros j x [[Hx Hj]|?]%Ha2; [|by right]. apply Ha in Hx as [[Hx Hj2]|?]; [left|by right]. split; [done|]. intros He.
        destruct (Hj He) as [_ Hjl]. specialize (Hj2 eq_refl). rewrite Hpk in Hj2. csimpl. rewrite Hlk. naive_solver.
      * intros Hdur He. destruct (Hd Hdur eq_refl) as [Hd1 Hv1]. destruct (Hd2 Hd1 He) as [Hd3 Hv2]. split; [done|]. intros j.
        rewrite Hv2 Hv1. csimpl.
        destruct (decide (j ∈ [] ∨ KString j ∈ l.*1)) as [[?%elem_of_nil|Hj]|Hj]; [done|rewrite decide_True // Hlk; by right; right|].
        destruct (decide (j ∈ ps.*1)) as [Hj2|Hj2]; rewrite Hpk in Hj2.
        -- rewrite decide_True // Hlk. naive_solver.
        -- rewrite decide_False // Hlk. naive_solver.
    + intros Hrun. destruct (IH ps s Hps Hl' Hrun) as [Ha Hd]. split.
      * intros j x [[Hx Hj]|?]%Ha; [left|by right]. split; [done|]. intros [Hj1 Hj2]%Hj. rewrite Hpk in Hj1. csimpl. rewrite Hlk. naive_solver.
      * intros Hdur He. destruct (Hd Hdur He) as [Hd1 Hv1]. split; [done|]. intros j. rewrite Hv1. csimpl.
        apply decide_ext. rewrite Hpk Hlk. naive_solver.
Qed.

Lemma rd_Delete_law key s s' err :
  rd_Delete ToStringE key s = (s', err) →
  rd_view s' ⊆ rd_view s ∧ (err = None → rd_view s' ⊆ delete_key ToStringE key (rd_view s)) ∧
  (rd_durable s → rd_durable s' ∧ delete_key ToStringE key (rd_view s) ⊆ rd_view s').
Proof.
  unfold rd_Delete, delete_key. destruct (rd_key ToStringE key) as [k|e] eqn:Hk.
  2:{ intros [= <- <-]. split_and!; [done|done|]. intros Hd. split; [done|]. case_match; [apply delete_subseteq|done]. }
  apply rd_key_cast in Hk. rewrite Hk. destruct (redis_Del [k] (rd_client s)) as [r res] eqn:Hdel.
  apply redis_Del_law in Hdel as (Hsub & Hgone & Hdur).
  assert (Hs : rd_view (rd_with s r) ⊆ rd_view s) by by apply decode_subseteq.
  assert (Hkeep : rd_durable s → rd_durable (rd_with s r) ∧ delete k (rd_view s) ⊆ rd_view (rd_with s r)).
  { intros (Hd & Ht & Hdec). destruct (Hdur Hd) as [Hd' Hv]. split; [split_and!; [done|done|by eapply decodable_subseteq]|].
    apply map_subseteq_spec. intros j x [Hne Hx]%lookup_delete_Some.
    unfold rd_view in Hx |- *. cbn [rd_with rd_client]. rewrite decode_lookup. rewrite decode_lookup in Hx. rewrite (Hv j) //.
    by intros ->%list_elem_of_singleton. }
  destruct res as [n|e]; intros [= <- <-]; split_and!; try done. intros _.
  apply map_subseteq_spec. intros j x Hx. rewrite lookup_delete_Some. split; [|by eapply lookup_weaken].
  intros <-. unfold rd_view in Hx. simpl in Hx. rewrite decode_lookup (Hgone n eq_refl) // in Hx. left.
Qed.

(** The redis store behind the interface. *)
#[local] Instance redis_KvStore : KvStore O T (redisKvStore (R := R)) := {|
  kv_contains := rd_Contains ToStringE;
  kv_get := rd_Get ToStringE;
  kv_getBatch := rd_GetBatch ToStringE typeOf;
  kv_put := rd_Put ToStringE;
  kv_putBatch := rd_PutBatch ToStringE mii_order;
  kv_delete := rd_Delete ToStringE;
  kv_deleteBatch := rd_DeleteBatch ToStringE
|}.

#[local] Program Instance redis_laws : KvStoreLaws ToStringE (redisKvStore (R := R)) := {|
  kv_view := rd_view;
  kv_durable := rd_durable;
  kv_fresh v := v = zero
|}.
Next Obligation.
  intros key s s' b err; cbn. unfold rd_Contains. destruct (rd_key ToStringE key) as [k|e]; [|by intros [= <- <- <-]].
  destruct (redis_Exists k (rd_client s)) as [r res] eqn:He. apply redis_Exists_law in He as [Hr%rd_reads _].
  by destruct res; intros [= <- <- <-]; apply Hr.
Qed.
Next Obligation. intros key value s s' v found err; cbn. apply rd_Get_law. Qed.
Next Obligation. intros key value s s' err; cbn. apply rd_Put_law. Qed.
Next Obligation. intros key s s' err; cbn. apply rd_Delete_law. Qed.
Next Obligation.
  intros ks vm s s' values missing err; cbn. apply (getBatch_law ToStringE cast_string rd_view rd_durable True). apply rd_chunk_contract.
Qed.
Next Obligation.
  intros m s s' err; cbn. unfold rd_PutBatch. intros Hrun.
  apply (rd_putBatch_view m) in Hrun as [Ha Hd]; [|by intros ? ? ?%elem_of_nil|].
  2:{ intros key v Hin%elem_of_enum. apply lookup_kmap_Some in Hin as (k & -> & Hk); [by exists k|apply _]. }
  assert (Hdom : ∀ k, (KString k : any_key O) ∈ (enum mii_order (keyed m)).*1 ↔ is_Some (m !! k)).
  { intros k. by rewrite elem_of_enum_keys keyed_lookup. }
  split_and!.
  - intros k x [[? _]|?]%Ha; auto.
  - intros He. apply map_subseteq_spec. intros k x Hx. rewrite lookup_union_Some_raw. apply Ha in Hx as [[Hx Hk]|Hx]; [right|by left].
    destruct (Hk He) as [_ Hk2]. rewrite Hdom in Hk2. split; [by apply eq_None_not_Some|done].
  - intros Hdur He. destruct (Hd Hdur He) as [Hd' Hv]. split; [done|]. apply map_eq. intros k. rewrite Hv lookup_union.
    destruct (m !! k) as [x|] eqn:Hm.
    + rewrite decide_True; [|by destruct (rd_view s !! k)]. right. apply Hdom. by eexists.
    + rewrite decide_False; [|by destruct (rd_view s !! k)]. intros [?%elem_of_nil|[? ?]%Hdom]; [done|congruence].
Qed.
#[local] Instance redis_durable_laws : KvDurableLaws ToStringE (redisKvStore (R := R)).
Proof.
  split.
  - intros key s s' b err Hd; cbn. unfold rd_Contains, lookup_key. destruct (rd_key ToStringE key) as [k|e] eqn:Hk; [|by intros [= <- <- <-]].
    apply rd_key_cast in Hk. rewrite Hk. destruct (redis_Exists k (rd_client s)) as [r res] eqn:He.
    apply redis_Exists_law in He as [Hr Hex]. destruct (rd_reads s r Hr) as [_ Hv]. destruct (Hv Hd) as [Hd' Hv'].
    destruct res as [n|e]; intros [= <- <- <-]; split_and!; try done. intros _. specialize (Hex n eq_refl).
    destruct Hd as (Hdur & _ & Hdec). destruct Hr as [_ Hr]. destruct (Hr Hdur) as [_ He].
    apply bool_decide_ext. unfold rd_view. rewrite decode_is_Some //. case_decide; [done|]. rewrite -He Hex. split; [done|by intros [? ?]].
  - intros ks s s' err Hd; cbn. unfold rd_DeleteBatch. rewrite cast_keys_string. destruct (redis_Del ks (rd_client s)) as [r res] eqn:Hdel.
    apply redis_Del_law in Hdel as (Hsub & Hgone & Hdur). destruct Hd as (Hd & Ht & Hdec). destruct (Hdur Hd) as [Hd' Hk].
    destruct (decode_deleted (T := T) _ _ ks Hsub Hk) as [Hs Hv].
    assert (Hdone : rd_durable (rd_with s r)) by (split_and!; [done|done|by eapply decodable_subseteq]).
    destruct res as [n|e]; intros [= <- <-]; split_and!; try done.
    intros _ k Hin. apply decode_none. by apply (Hgone n).
Qed.
End RedisStore.

(** ** The DynamoDB store is a store *)
Lemma wrapped_list {A B} (f : A → B) (l : list B) : (∀ x, x ∈ l → ∃ a, x = f a) → ∃ as_, l = f <$> as_.
Proof.
  induction l as [|x l IH]; intros Hl; [by exists []|]. destruct (Hl x) as [a ->]; [left|].
  destruct IH as [as_ ->]; [intros; apply Hl; by right|]. by exists (a :: as_).
Qed.

Section DdbStore.
Context {O T R : Type} `{Countable O} `{!Codec T} `{!Zero T} `{!CodecLaws T} `{!Repository R} `{!RepositoryLaws R}.
Context (ToStringE : any_key O → result error string) (typeOf : any_key O → ktype) (mii_order : map_order (any_key O) T).
Context (nil_key : any_key O).
Context (cast_string : ∀ k, ToStringE (KString k) = Ok k) (typeOf_string : ∀ k, typeOf (KString k) = TString).
Implicit Types (s : ddbKvStore (R := R)) (key : any_key O) (v value : T) (ks ms : list string) (vm m : gmap string T) (items : list DdbItem).

Definition dd_view s : gmap string T := decode (repo_entries (dd_repository s)).
Definition dd_durable s : Prop := repo_durable (dd_repository s) ∧ decodable (T := T) (repo_entries (dd_repository s)).

Lemma dd_reads s r :
  reads repo_entries repo_durable (dd_repository s) r →
  dd_view (dd_with s r) ⊆ dd_view s ∧ (dd_durable s → dd_durable (dd_with s r) ∧ dd_view (dd_with s r) = dd_view s).
Proof.
  intros Hr. pose proof Hr as [Hs Hd]%reads_decode. split; [done|]. intros (Hdur & Hdec).
  destruct (Hd Hdur) as [Hr' Hv]. destruct Hr as [_ Hr]. destruct (Hr Hdur) as [_ He].
  split; [|done]. split; [done|]. cbn [dd_with dd_repository]. by rewrite He.
Qed.

Lemma dd_Get_law key value s s' v found err :
  dd_Get ToStringE key value s = (s', (v, found, err)) →
  dd_view s' ⊆ dd_view s ∧ (dd_durable s → dd_durable s' ∧ dd_view s' = dd_view s) ∧
  (found = true → err = None ∧ (value = zero → lookup_key ToStringE (dd_view s) key = Some v)) ∧
  (found = false → err = None → v = value ∧ lookup_key ToStringE (dd_view s') key = None).
Proof.
  unfold dd_Get, lookup_key. destruct (CastKeyToString ToStringE key) as [k|e]; [|by intros [= <- <- <- <-]].
  destruct (repo_GetItem k (dd_repository s)) as [r res] eqn:Hg.
  apply repo_GetItem_law in Hg as [Hr Hres]. destruct (dd_reads s r Hr) as [Hs Hd].
  destruct res as [[it|]|e]; [|intros [= <- <- <- <-]; split_and!; [done..|]; intros _ _; split; [done|by apply decode_none]|by intros [= <- <- <- <-]].
  destruct (Unmarshal (Value it) value) as [v1 [e|]] eqn:Hu; intros [= <- <- <- <-]; split_and!; try done.
  intros _. split; [done|]. intros ->. apply decoded_ok in Hu. by eapply decode_some.
Qed.

(** *** Batches of items *)
Lemma dd_original_string ks k : k ∈ ks → dd_original ks (KString <$> ks) !! k = Some (KString k : any_key O).
Proof.
  intros Hk. unfold dd_original. destruct (list_to_map _ !! k) as [key|] eqn:Ho.
  - apply elem_of_list_to_map_2 in Ho. rewrite elem_of_reverse in Ho. apply list_elem_of_lookup in Ho as [i Hi].
    apply lookup_zip_with_Some in Hi as (k1 & k2 & [= <- <-] & H1 & H2). rewrite list_lookup_fmap H1 in H2. by injection H2 as <-.
  - apply not_elem_of_list_to_map_2 in Ho. destruct Ho. rewrite fmap_reverse elem_of_reverse fst_zip //. by rewrite length_fmap.
Qed.

Lemma dd_missing_string (found : gmap string bool) ks :
  dd_missing found ks (KString <$> ks) = (KString <$> List.filter (λ k, negb (map_has found k)) ks : list (any_key O)).
Proof.
  unfold dd_missing. induction ks as [|k ks IH]; [done|]. csimpl. by destruct (map_has found k); csimpl; rewrite IH.
Qed.

Lemma dd_items_ok s ks items found vm :
  (∀ it, it ∈ items → Key it ∈ ks ∧ repo_entries (dd_repository s) !! Key it = Some (Value it)) →
  (∃ vm' found',
    dd_items typeOf nil_key (dd_original ks (KString <$> ks)) items found (RMap TString (keyed vm)) = (RMap TString (keyed vm'), Ok found') ∧
    (∀ k, vm' !! k = vm !! k ∨ (k ∈ ks ∧ is_Some (vm' !! k) ∧ vm' !! k = dd_view s !! k)) ∧
    (∀ k, k ∈ Key <$> items → is_Some (vm' !! k) ∧ vm' !! k = dd_view s !! k) ∧
    (∀ k, is_Some (found' !! k) ↔ is_Some (found !! k) ∨ k ∈ Key <$> items)) ∨
  (∃ vm' err,
    dd_items typeOf nil_key (dd_original ks (KString <$> ks)) items found (RMap TString (keyed vm)) = (RMap TString (keyed vm'), Err err) ∧
    (∀ k, vm' !! k = vm !! k ∨ (k ∈ ks ∧ is_Some (vm' !! k) ∧ vm' !! k = dd_view s !! k))).
Proof.
  revert found vm. induction items as [|it items IH]; intros found vm Hit.
  - left. exists vm, found. split_and!; [done|by left|by intros k ?%elem_of_nil|]. intros k. split; [by left|]. by intros [?|?%elem_of_nil].
  - destruct (Hit it) as [Hk Hv]; [left|]. cbn [dd_items]. destruct (Unmarshal (Value it) (zero : T)) as [v [e|]] eqn:Hu.
    { right. exists vm. eexists. split; [done|]. by left. }
    apply decoded_ok in Hu. rewrite dd_original_string //. cbn [default from_option]. unfold rmap_Set at 1 2. simpl.
    rewrite decide_False; [rewrite typeOf_string; naive_solver|]. unfold id. rewrite keyed_insert.
    assert (Hview : dd_view s !! Key it = Some v) by (by eapply decode_some).
    assert (Hstep : ∀ vm', (∀ j, vm' !! j = <[Key it := v]> vm !! j ∨ (j ∈ ks ∧ is_Some (vm' !! j) ∧ vm' !! j = dd_view s !! j)) →
      (is_Some (vm' !! Key it) ∧ vm' !! Key it = dd_view s !! Key it) ∧
      ∀ j, vm' !! j = vm !! j ∨ (j ∈ ks ∧ is_Some (vm' !! j) ∧ vm' !! j = dd_view s !! j)).
    { intros vm' Hvm. assert (Hkk : is_Some (vm' !! Key it) ∧ vm' !! Key it = dd_view s !! Key it).
      { destruct (Hvm (Key it)) as [Heq|(_ & ? & ?)]; [|done]. rewrite lookup_insert_eq in Heq. rewrite Heq Hview. by split; [eexists|]. }
      split; [done|]. intros j. destruct (decide (j = Key it)) as [->|Hne]; [by right|].
      destruct (Hvm j) as [Heq|?]; [left; by rewrite lookup_insert_ne in Heq | by right]. }
    destruct (IH (<[Key it := true]> found) (<[Key it := v]> vm)) as [(vm' & found' & Hrun & Hf & Hin & Hfound)|(vm' & err & Hrun & Hf)];
      [by intros; apply Hit; right| |]; rewrite Hrun; destruct (Hstep vm' Hf) as [Hkk Hall].
    + left. exists vm', found'. split_and!; [done|done| |].
      * intros k [->|Hk2]%elem_of_cons; [done|by apply Hin].
      * intros k. change (is_Some (found' !! k) ↔ is_Some (found !! k) ∨ k ∈ Key it :: (Key <$> items)).
        rewrite Hfound lookup_insert_is_Some elem_of_cons. destruct (decide (Key it = k)); naive_solver.
    + right. by exists vm', err.
Qed.

Lemma dd_chunk_contract : chunk_contract dd_view dd_durable True (dd_getChunk ToStringE typeOf nil_key).
Proof.
  intros ks s vm Hd. unfold dd_getChunk. rewrite cast_keys_string //. destruct (repo_BatchGetItems ks (dd_repository s)) as [r res] eqn:Hg.
  apply repo_BatchGetItems_law in Hg as [Hr Hres]; [|done]. destruct (dd_reads s r Hr) as [Hs Hdur].
  assert (Hnone : batch_partial dd_view dd_durable ks s vm (dd_with s r) vm) by (split_and!; [done..|by left]).
  destruct res as [items|e]; [|right; split; [done|]; by exists (dd_with s r), vm; eexists]. destruct (Hres items eq_refl) as [Hit Hmiss].
  destruct (dd_items_ok s ks items ∅ vm Hit) as [(vm' & found' & -> & Hf & Hin & Hfound)|(vm' & err & -> & Hf)].
  - left. rewrite dd_missing_string. set (ms := List.filter _ ks). exists (dd_with s r), vm', ms.
    assert (Hms : ∀ k, k ∈ ms ↔ k ∈ ks ∧ k ∉ Key <$> items).
    { intros k. unfold ms. rewrite list_elem_of_In filter_In -list_elem_of_In negb_true_iff. unfold map_has.
      pose proof (Hfound k) as Hfk. rewrite lookup_empty in Hfk. destruct (found' !! k); split; intros [? Hb]; split; try done.
      - destruct Hfk as [Hfk _]. destruct Hfk as [[? ?]|?]; [by eexists|done|done].
      - intros Hk. destruct Hfk as [_ Hfk]. destruct Hfk as [? ?]; [by right|done]. }
    split; [|done]. split; [by split_and!|]. split; [by intros k [? _]%Hms|]. intros k Hk. case_decide as Hm.
    + apply Hms in Hm as [_ Hm]. by apply decode_none, Hmiss.
    + apply Hin. destruct (decide (k ∈ Key <$> items)); [done|]. destruct Hm. by apply Hms.
  - right. split; [done|]. exists (dd_with s r), vm', err. by split_and!.
Qed.

(** *** Writes *)
Lemma dd_Put_law key value s s' err :
  dd_Put ToStringE key value s = (s', err) →
  (∀ k x, dd_view s' !! k = Some x → dd_view s !! k = Some x ∨ (CastKeyToString ToStringE key = Ok k ∧ x = value)) ∧
  (err = None → dd_view s' ⊆ insert_key ToStringE key value (dd_view s)) ∧
  (dd_durable s → dd_durable s' ∧
    match err with
    | Some _ => dd_view s' = dd_view s ∨ dd_view s' = insert_key ToStringE key value (dd_view s)
    | None => dd_view s' = insert_key ToStringE key value (dd_view s)
    end).
Proof.
  unfold dd_Put, insert_key. destruct (CastKeyToString ToStringE key) as [k|e] eqn:Hk; [|intros [= <- <-]; split_and!; by auto].
  destruct (Marshal value) as [b|e] eqn:Hb; [|intros [= <- <-]; split_and!; by auto].
  apply Unmarshal_Marshal in Hb. destruct (repo_PutItem _ (dd_repository s)) as [r e] eqn:Hs.
  apply repo_PutItem_law in Hs as [Hsub Hdur]. cbn [Key Value] in Hsub, Hdur.
  assert (Hview : dd_view (dd_with s r) ⊆ <[k := value]> (dd_view s) ∨ e ≠ None ∧ dd_view (dd_with s r) ⊆ dd_view s).
  { unfold dd_view. simpl. destruct Hsub as [Hsub|[He Hsub]]; [left; rewrite -(decode_insert _ _ b value) //|right; split; [done|]]; by apply decode_subseteq. }
  assert (Hkeep : dd_durable s → dd_durable (dd_with s r) ∧
    (dd_view (dd_with s r) = <[k := value]> (dd_view s) ∨ e ≠ None ∧ dd_view (dd_with s r) = dd_view s)).
  { intros (Hd & Hdec). destruct (Hdur Hd) as [Hd' Hv]. unfold dd_durable, dd_view. cbn [dd_with dd_repository].
    destruct Hv as [->|[He ->]]; (split; [split; [done|]|]);
      [by eapply decodable_insert|left; by apply decode_insert|done|by right]. }
  assert (Hcases : ∀ j x, dd_view (dd_with s r) !! j = Some x → dd_view s !! j = Some x ∨ (Ok (E := error) k = Ok j ∧ x = value)).
  { intros j x Hx. destruct Hview as [Hv|[_ Hv]]; [|left; by eapply lookup_weaken].
    destruct (subseteq_insert_cases _ _ _ _ Hv j x Hx) as [?|[-> ->]]; auto. }
  destruct e; intros [= <- <-]; split_and!; try done.
  - intros [Hd Hv]%Hkeep. split; [done|]. destruct Hv as [->|[_ ->]]; auto.
  - intros _. by destruct Hview as [?|[? _]].
  - intros [Hd Hv]%Hkeep. split; [done|]. by destruct Hv as [->|[? _]].
Qed.

Lemma dd_keys_spec ks acc (km : gmap string (any_key O)) :
  ∃ km', dd_keys ToStringE (KString <$> ks) acc km = Ok (acc ++ ks, km') ∧
         ∀ k, km' !! k = if decide (k ∈ ks) then Some (KString k) else km !! k.
Proof.
  revert acc km. induction ks as [|k ks IH]; intros acc km.
  - exists km. rewrite app_nil_r. split; [done|]. intros k. case_decide as Hk; [by apply elem_of_nil in Hk|done].
  - csimpl. rewrite CastKeyToString_string //. destruct (IH (acc ++ [k]) (<[k := KString k]> km)) as (km' & -> & Hkm).
    exists km'. rewrite -app_assoc. split; [done|]. intros j. rewrite Hkm. destruct (decide (j ∈ ks)) as [Hj|Hj].
    + rewrite decide_True //. by right.
    + destruct (decide (k = j)) as [->|Hne]; [rewrite lookup_insert_eq decide_True //; left|].
      rewrite lookup_insert_ne // decide_False //. by intros [?|?]%elem_of_cons.
Qed.

Lemma dd_putItems_spec m (km : gmap string (any_key O)) ks items :
  (∀ k, k ∈ ks → km !! k = Some (KString k)) → dd_putItems (keyed m) km ks = Ok items →
  Key <$> items = ks ∧ ∀ it, it ∈ items → ∃ v, m !! Key it = Some v ∧ decoded (Value it) = Some v.
Proof.
  revert items. induction ks as [|k ks IH]; intros items Hkm; cbn [dd_putItems].
  - intros [= <-]. split; [done|]. by intros it ?%elem_of_nil.
  - rewrite Hkm; [left|]. simpl. rewrite keyed_lookup. destruct (m !! k) as [v|] eqn:Hm; [|done].
    destruct (Marshal v) as [b|e] eqn:Hb; [|done]. destruct (dd_putItems (keyed m) km ks) as [items'|e] eqn:Hi; [|done].
    intros [= <-]. destruct (IH items') as [Hkeys Hall]; [by intros; apply Hkm; right|done|]. csimpl. rewrite Hkeys. split; [done|].
    intros it [->|Hit]%elem_of_cons; [|by apply Hall]. exists v. split; [done|]. by apply Unmarshal_Marshal.
Qed.

(** The keys of a batch of string keys, in the order of the map. *)
Lemma dd_batch_keys m : ∃ ks, (enum mii_order (keyed m)).*1 = KString <$> ks ∧ NoDup ks ∧ ∀ k, k ∈ ks ↔ is_Some (m !! k).
Proof.
  pose proof (λ key, elem_of_enum_keys mii_order (keyed m) key) as Hkeys. pose proof (enum_nodup_keys mii_order (keyed m)) as Hnd.
  set (l := (enum mii_order (keyed m)).*1) in *.
  assert (Hl : ∃ ks, l = KString <$> ks).
  { apply (wrapped_list KString). intros key Hk. apply Hkeys in Hk as [v Hv]. apply lookup_kmap_Some in Hv as (k & -> & _); [by exists k|apply _]. }
  destruct Hl as [ks Hl]. rewrite Hl in Hkeys, Hnd. exists ks. split_and!; [done|by eapply NoDup_fmap_1|].
  intros k. rewrite -(keyed_lookup (O := O) m k) -Hkeys. split; [apply list_elem_of_fmap_2|by intros (? & [= <-] & ?)%list_elem_of_fmap].
Qed.

Lemma items_map_spec m items k :
  (∀ j, j ∈ Key <$> items ↔ is_Some (m !! j)) → (∀ it, it ∈ items → ∃ v, m !! Key it = Some v ∧ decoded (Value it) = Some v) →
  match items_map items !! k with Some b => ∃ v, m !! k = Some v ∧ decoded b = Some v | None => m !! k = None end.
Proof.
  intros Hkeys Hit. unfold items_map. destruct (list_to_map _ !! k) as [b|] eqn:Hk.
  - apply elem_of_list_to_map_2, list_elem_of_fmap in Hk as (it & [= -> ->] & Hin). by apply Hit.
  - apply not_elem_of_list_to_map_2 in Hk. apply eq_None_not_Some. rewrite -Hkeys. intros Hin. apply Hk.
    rewrite -list_fmap_compose. exact Hin.
Qed.

Lemma dd_PutBatch_law m s s' err :
  dd_PutBatch ToStringE mii_order (keyed m) s = (s', err) →
  (∀ k x, dd_view s' !! k = Some x → dd_view s !! k = Some x ∨ m !! k = Some x) ∧
  (err = None → dd_view s' ⊆ m ∪ dd_view s) ∧
  (dd_durable s → err = None → dd_durable s' ∧ dd_view s' = m ∪ dd_view s).
Proof.
  unfold dd_PutBatch. destruct (dd_batch_keys m) as (ks & -> & Hnd & Hks). destruct (dd_keys_spec ks [] ∅) as (km & -> & Hkm). cbn [app].
  destruct (dd_putItems (keyed m) km (merge_sort String.le ks)) as [items|e] eqn:Hi; [|intros [= <- <-]; split_and!; by auto].
  pose proof (merge_sort_Permutation String.le ks) as Hperm.
  apply dd_putItems_spec in Hi as [Hkeys Hit]; [|by intros k Hk; rewrite Hkm Hperm in Hk |- *; rewrite decide_True].
  assert (Hin : ∀ j, j ∈ Key <$> items ↔ is_Some (m !! j)) by (intros j; by rewrite Hkeys Hperm).
  pose proof (λ k, items_map_spec m items k Hin Hit) as Hmap.
  destruct (repo_BatchPutItems items (dd_repository s)) as [r e] eqn:Hp.
  assert (Hndk : NoDup (Key <$> items)) by by rewrite Hkeys Hperm.
  pose proof (repo_BatchPutItems_law _ _ _ _ Hndk Hp) as Hlaw. pose proof (repo_BatchPutItems_durable _ _ _ _ Hndk Hp) as Hdur.
  assert (Hall : decode (items_map items ∪ repo_entries (dd_repository s)) = m ∪ dd_view s).
  { apply map_eq. intros k. rewrite decode_lookup !lookup_union. unfold dd_view. rewrite decode_lookup. specialize (Hmap k).
    destruct (items_map items !! k) as [b|]; [destruct Hmap as (v & -> & Hb)|rewrite Hmap]; destruct (repo_entries _ !! k) as [b'|]; simpl; try done.
    - rewrite Hb. by destruct (decoded b').
    - by destruct (decoded b'). }
  assert (Hs : (dd_view (dd_with s r) ⊆ m ∪ dd_view s) ∨ e ≠ None).
  { destruct Hlaw as [Hl|[? _]]; [left|by right]. unfold dd_view at 1. cbn [dd_with dd_repository]. rewrite -Hall. by apply decode_subseteq. }
  assert (Hk : ∀ k x, dd_view (dd_with s r) !! k = Some x → dd_view s !! k = Some x ∨ m !! k = Some x).
  { intros k x. unfold dd_view. cbn [dd_with dd_repository]. rewrite !decode_lookup. destruct (repo_entries r !! k) as [b|] eqn:Hb; [|done]. simpl.
    intros Hx. assert (Hcase : repo_entries (dd_repository s) !! k = Some b ∨ items_map items !! k = Some b).
    { destruct Hlaw as [Hl|[_ Hl]]; [|by apply Hl]. eapply lookup_weaken in Hb; [|exact Hl]. apply lookup_union_Some_raw in Hb. naive_solver. }
    specialize (Hmap k). destruct Hcase as [->|Heq]; [by left|]. rewrite Heq in Hmap. destruct Hmap as (v & -> & Hv). right. congruence. }
  assert (Hd : dd_durable s → e = None → dd_durable (dd_with s r) ∧ dd_view (dd_with s r) = m ∪ dd_view s).
  { intros [Hds Hdec] He. destruct (Hdur Hds He) as [Hd' Hv]. split; [|by rewrite -Hall -Hv]. split; [done|].
    cbn [dd_with dd_repository]. rewrite Hv. apply decodable_union; [|done]. intros k b Hb. specialize (Hmap k).
    rewrite Hb in Hmap. destruct Hmap as (v & _ & Hb'). by eexists. }
  destruct e; intros [= <- <-]; split_and!; try done. by destruct Hs.
Qed.

Lemma dd_Delete_law key s s' err :
  dd_Delete ToStringE key s = (s', err) →
  dd_view s' ⊆ dd_view s ∧ (err = None → dd_view s' ⊆ delete_key ToStringE key (dd_view s)) ∧
  (dd_durable s → dd_durable s' ∧ delete_key ToStringE key (dd_view s) ⊆ dd_view s').
Proof.
  unfold dd_Delete, delete_key. destruct (CastKeyToString ToStringE key) as [k|e]; [|by intros [= <- <-]].
  destruct (repo_DeleteItem k (dd_repository s)) as [r e] eqn:Hdel.
  apply repo_DeleteItem_law in Hdel as (Hsub & Hgone & Hdur).
  assert (Hs : dd_view (dd_with s r) ⊆ dd_view s) by by apply decode_subseteq.
  assert (Hkeep : dd_durable s → dd_durable (dd_with s r) ∧ delete k (dd_view s) ⊆ dd_view (dd_with s r)).
  { intros [Hd Hdec]. destruct (Hdur Hd) as [Hd' Hv]. split; [split; [done|by eapply decodable_subseteq]|].
    apply map_subseteq_spec. intros j x [Hne Hx]%lookup_delete_Some.
    unfold dd_view in Hx |- *. cbn [dd_with dd_repository]. rewrite decode_lookup. rewrite decode_lookup in Hx. rewrite (Hv j) //. }
  destruct e as [e|]; intros [= <- <-]; split_and!; try done. intros _.
  apply map_subseteq_spec. intros j x Hx. rewrite lookup_delete_Some. split; [|by eapply lookup_weaken].
  intros <-. unfold dd_view in Hx. simpl in Hx. by rewrite decode_lookup (Hgone eq_refl) in Hx.
Qed.

(** The DynamoDB store behind the interface. *)
#[local] Instance ddb_KvStore : KvStore O T (ddbKvStore (R := R)) := {|
  kv_contains := dd_Contains ToStringE;
  kv_get := dd_Get ToStringE;
  kv_getBatch := dd_GetBatch ToStringE typeOf nil_key;
  kv_put := dd_Put ToStringE;
  kv_putBatch := dd_PutBatch ToStringE mii_order;
  kv_delete := dd_Delete ToStringE;
  kv_deleteBatch := dd_DeleteBatch ToStringE
|}.

#[local] Program Instance ddb_laws : KvStoreLaws ToStringE (ddbKvStore (R := R)) := {|
  kv_view := dd_view;
  kv_durable := dd_durable;
  kv_fresh v := v = zero
|}.
Next Obligation.
  intros key s s' b err; cbn. unfold dd_Contains. destruct (CastKeyToString ToStringE key) as [k|e]; [|by intros [= <- <- <-]].
  destruct (repo_GetItem k (dd_repository s)) as [r res] eqn:He. apply repo_GetItem_law in He as [Hr%dd_reads _].
  by destruct res; intros [= <- <- <-]; apply Hr.
Qed.
Next Obligation. intros key value s s' v found err; cbn. apply dd_Get_law. Qed.
Next Obligation. intros key value s s' err; cbn. apply dd_Put_law. Qed.
Next Obligation. intros key s s' err; cbn. apply dd_Delete_law. Qed.
Next Obligation.
  intros ks vm s s' values missing err; cbn. apply (getBatch_law ToStringE cast_string dd_view dd_durable True). apply dd_chunk_contract.
Qed.
Next Obligation. intros m s s' err; cbn. apply dd_PutBatch_law. Qed.
#[local] Instance ddb_durable_laws : KvDurableLaws ToStringE (ddbKvStore (R := R)).
Proof.
  split.
  - intros key s s' b err Hd; cbn. unfold dd_Contains, lookup_key. destruct (CastKeyToString ToStringE key) as [k|e]; [|by intros [= <- <- <-]].
    destruct (repo_GetItem k (dd_repository s)) as [r res] eqn:He. apply repo_GetItem_law in He as [Hr Hres].
    destruct (dd_reads s r Hr) as [_ Hv]. destruct (Hv Hd) as [Hd' Hv'].
    destruct res as [it|e]; intros [= <- <- <-]; split_and!; try done. intros _.
    destruct Hd as [Hdur Hdec]. destruct Hr as [_ Hr]. destruct (Hr Hdur) as [_ He].
    apply bool_decide_ext. unfold dd_view. rewrite decode_is_Some //. destruct it as [it|]; [rewrite Hres|rewrite -He Hres]; split; intros [? ?]; by eauto.
  - intros ks s s' err Hd; cbn. unfold dd_DeleteBatch. rewrite cast_keys_string //. destruct (repo_BatchDeleteItems ks (dd_repository s)) as [r e] eqn:Hdel.
    apply repo_BatchDeleteItems_law in Hdel as (Hsub & Hgone & Hdur). destruct Hd as (Hd & Hdec). destruct (Hdur Hd) as [Hd' Hk].
    destruct (decode_deleted (T := T) _ _ ks Hsub Hk) as [Hs Hv].
    assert (Hdone : dd_durable (dd_with s r)) by (split; [done|by eapply decodable_subseteq]).
    destruct e as [e|]; intros [= <- <-]; split_and!; try done.
    intros _ k Hin. apply decode_none. by apply Hgone.
Qed.
End DdbStore.

(** ** What a store that keeps its values looks like from outside

    The specification is a map from the strings of the keys: each call has the answers
    that the map allows, and a call that fails to write may have written or not.  The
    batches have string keys; the other calls may have any keys. *)
Section Clients.
Context {O T : Type} `{Countable O} `{!Zero T}.
Implicit Types (m : gmap string T) (ks : list string) (key : any_key O).

Inductive kv_call :=
| CallContains (key : any_key O)
| CallGet (key : any_key O)
| CallGetBatch (ks : list string)
| CallPut (key : any_key O) (v : T)
| CallPutBatch (m : gmap string T)
| CallDelete (key : any_key O)
| CallDeleteBatch (ks : list string).

Inductive kv_answer :=
| Contained (b : bool)
| Found (v : T)
| Missing
| FoundBatch (found : gmap (any_key O) T) (missing : list (any_key O))
| Done
| Failed (err : error).

Definition done_or_failed (err : option error) : kv_answer :=
  match err with Some err => Failed err | None => Done end.

(** Get is called with a new variable, GetBatch with a new map. *)
Definition perform {St} `{!KvStore O T St} (call : kv_call) (s : St) : St * kv_answer :=
  match call with
  | CallContains key =>
      match kv_contains key s with
      | (s, (_, Some err)) => (s, Failed err)
      | (s, (b, None)) => (s, Contained b)
      end
  | CallGet key =>
      match kv_get key zero s with
      | (s, (_, _, Some err)) => (s, Failed err)
      | (s, (v, true, None)) => (s, Found v)
      | (s, (_, false, None)) => (s, Missing)
      end
  | CallGetBatch ks =>
      match kv_getBatch (KString <$> ks) (RMap TString ∅) s with
      | (s, (_, _, Some err)) => (s, Failed err)
      | (s, (values, missing, None)) => (s, FoundBatch (rm_entries values) missing)
      end
  | CallPut key v => let '(s, err) := kv_put key v s in (s, done_or_failed err)
  | CallPutBatch m => let '(s, err) := kv_putBatch (keyed m) s in (s, done_or_failed err)
  | CallDelete key => let '(s, err) := kv_delete key s in (s, done_or_failed err)
  | CallDeleteBatch ks => let '(s, err) := kv_deleteBatch (KString <$> ks) s in (s, done_or_failed err)
  end.

Fixpoint perform_all {St} `{!KvStore O T St} (calls : list kv_call) (s : St) : St * list kv_answer :=
  match calls with
  | [] => (s, [])
  | call :: calls =>
      let '(s, answer) := perform call s in
      let '(s, answers) := perform_all calls s in (s, answer :: answers)
  end.

Context (ToStringE : any_key O → result error string) (cast_string : ∀ k, ToStringE (KString k) = Ok k).

(** What a map answers, and the map after the call. *)
Definition allowed (call : kv_call) m (answer : kv_answer) m' : Prop :=
  match call, answer with
  | CallContains key, Contained b => b = bool_decide (is_Some (lookup_key ToStringE m key)) ∧ m' = m
  | CallGet key, Found v => lookup_key ToStringE m key = Some v ∧ m' = m
  | CallGet key, Missing => lookup_key ToStringE m key = None ∧ m' = m
  | CallGetBatch ks, FoundBatch found missing =>
      m' = m ∧ (∀ k, found !! KString k = if decide (k ∈ ks) then m !! k else None) ∧
      (∀ x, found !! KOther x = None) ∧ ∀ key, key ∈ missing ↔ ∃ k, key = KString k ∧ k ∈ ks ∧ m !! k = None
  | CallContains _, Failed _ | CallGet _, Failed _ | CallGetBatch _, Failed _ => m' = m
  | CallPut key v, Done => m' = insert_key ToStringE key v m
  | CallPut key v, Failed _ => m' = m ∨ m' = insert_key ToStringE key v m
  | CallPutBatch b, Done => m' = b ∪ m
  | CallDelete key, Done => m' = delete_key ToStringE key m
  | CallDelete key, Failed _ => m' = m ∨ m' = delete_key ToStringE key m
  | CallDeleteBatch ks, Done => ∀ k, m' !! k = if decide (k ∈ ks) then None else m !! k
  | CallDeleteBatch ks, Failed _ => m' ⊆ m ∧ ∀ k, k ∉ ks → m' !! k = m !! k
  | _, _ => False
  end.

Fixpoint allowed_all (calls : list kv_call) (m : gmap string T) (answers : list kv_answer) (m' : gmap string T) : Prop :=
  match calls, answers with
  | [], [] => m' = m
  | call :: calls, answer :: answers => ∃ m1, allowed call m answer m1 ∧ allowed_all calls m1 answers m'
  | _, _ => False
  end.

(** Every batch that was put was put without an error. *)
Definition batches_done (calls : list kv_call) (answers : list kv_answer) : Prop :=
  Forall (λ ca, match ca with (CallPutBatch _, Failed _) => False | _ => True end) (zip calls answers).

Context {St : Type} `{!KvStore O T St} `{!KvStoreLaws ToStringE St} `{!KvDurableLaws ToStringE St}.
Context (fresh_zero : kv_fresh (St := St) ToStringE zero).

Lemma getBatch_allowed ks (s s' : St) values missing err :
  kv_durable ToStringE s → kv_getBatch (KString <$> ks) (RMap TString ∅) s = (s', (values, missing, err)) →
  kv_durable ToStringE s' ∧ kv_view ToStringE s' = kv_view ToStringE s ∧
  (err = None → allowed (CallGetBatch ks) (kv_view ToStringE s) (FoundBatch (rm_entries values) missing) (kv_view ToStringE s')).
Proof.
  intros Hd. rewrite -(kmap_empty (M2 := gmap (any_key O)) KString (A := T)). fold (keyed (O := O) (T := T) ∅).
  intros (_ & Hdur & vm & ms & -> & -> & Hvm & Hms & Hok & _)%(kv_getBatch_law ToStringE).
  destruct (Hdur Hd) as [Hd1 Hv]. split; [done|]. split; [done|]. intros He. specialize (Hok He). rewrite Hv in Hok.
  cbn [allowed rm_entries]. split_and!; [done| | |].
  - intros k. rewrite keyed_lookup. destruct (decide (k ∈ ks)) as [Hk|Hk].
    + specialize (Hok k Hk). case_decide; [|apply Hok]. destruct (Hvm k) as [->|(_ & _ & ->)]; [|done]. by rewrite lookup_empty Hok.
    + destruct (Hvm k) as [->|(? & _)]; [by rewrite lookup_empty|done].
  - intros x. unfold keyed. apply lookup_kmap_None; [apply _|]. by intros ? ?.
  - intros key. split.
    + intros (k & -> & Hk)%list_elem_of_fmap. exists k. specialize (Hok k (Hms k Hk)). rewrite decide_True in Hok; [done|].
      split_and!; [done|by apply Hms|done].
    + intros (k & -> & Hk & Hn). apply list_elem_of_fmap_2. specialize (Hok k Hk). case_decide; [done|].
      destruct Hok as [[? Hs] He']. congruence.
Qed.

Lemma perform_allowed call (s s' : St) answer :
  kv_durable ToStringE s → perform call s = (s', answer) →
  match call, answer with CallPutBatch _, Failed _ => False | _, _ => True end →
  kv_durable ToStringE s' ∧ allowed call (kv_view ToStringE s) answer (kv_view ToStringE s').
Proof using fresh_zero KvDurableLaws0.
  intros Hd. destruct call as [key|key|ks|key v|b|key|ks]; cbn [perform].
  - destruct (kv_contains key s) as [s1 [b err]] eqn:Hc.
    apply (kv_contains_durable ToStringE) in Hc as (Hd1 & Hv & Hb); [|done].
    destruct err; intros [= <- <-] _; [done|]. cbn [allowed]. auto.
  - destruct (kv_get key zero s) as [s1 [[v found] err]] eqn:Hg.
    apply (kv_get_law ToStringE) in Hg as (_ & Hdur & Hf & Hm). destruct (Hdur Hd) as [Hd1 Hv].
    destruct err as [err|]; [by destruct found; intros [= <- <-]|]. destruct found; intros [= <- <-] _; (split; [done|]); cbn [allowed].
    + destruct Hf as [_ Hf]; [done|]. auto.
    + destruct Hm as [_ Hm]; [done..|]. rewrite Hv in Hm. auto.
  - destruct (kv_getBatch _ _ s) as [s1 [[values missing] err]] eqn:Hg.
    apply getBatch_allowed in Hg as (Hd1 & Hv & Ha); [|done]. destruct err; intros [= <- <-] _; auto.
  - destruct (kv_put key v s) as [s1 err] eqn:Hp. apply (kv_put_law ToStringE) in Hp as (_ & _ & Hdur).
    destruct (Hdur Hd) as [Hd1 Hv]. by destruct err; intros [= <- <-] _.
  - destruct (kv_putBatch (keyed b) s) as [s1 [err|]] eqn:Hp; intros [= <- <-]; [done|]. intros _.
    apply (kv_putBatch_law ToStringE) in Hp as (_ & _ & Hdur). by apply Hdur.
  - destruct (kv_delete key s) as [s1 err] eqn:Hp. apply (kv_delete_law ToStringE) in Hp as (Hsub & Hn & Hdur).
    destruct (Hdur Hd) as [Hd1 Hv]. pose proof (between_delete ToStringE _ _ _ Hsub Hv) as Hor.
    destruct err as [err|]; intros [= <- <-] _; (split; [done|]); [exact Hor|]. cbn [allowed]. by apply (anti_symm (⊆)); [apply Hn|].
  - destruct (kv_deleteBatch _ s) as [s1 err] eqn:Hp.
    apply (kv_deleteBatch_durable ToStringE) in Hp as (Hd1 & Hsub & Hk & Hn); [|done].
    destruct err as [err|]; intros [= <- <-] _; (split; [done|]); cbn [allowed]; [done|].
    intros k. case_decide; [by apply Hn|by apply Hk].
Qed.

Lemma perform_all_allowed calls (s s' : St) answers :
  kv_durable ToStringE s → perform_all calls s = (s', answers) → batches_done calls answers →
  allowed_all calls (kv_view ToStringE s) answers (kv_view ToStringE s').
Proof.
  revert s answers. induction calls as [|call calls IH]; intros s answers Hd; cbn [perform_all].
  - by intros [= <- <-] _.
  - destruct (perform call s) as [s1 answer] eqn:H1. destruct (perform_all calls s1) as [s2 answers2] eqn:H2.
    intros [= <- <-] [Hb1 Hb2]%Forall_cons. apply perform_allowed in H1 as [Hd1 Ha]; [|done|by destruct call].
    eexists. split; [done|]. by apply IH.
Qed.
End Clients.
Arguments kv_call O T : clear implicits.
Arguments kv_answer O T {_ _}.

Section Refinement.
Context {O T R : Type} `{Countable O} `{!Codec T} `{!Zero T} `{!CodecLaws T}.
Context (ToStringE : any_key O → result error string) (typeOf : any_key O → ktype) (mii_order : map_order (any_key O) T).
Context (cast_string : ∀ k, ToStringE (KString k) = Ok k) (typeOf_string : ∀ k, typeOf (KString k) = TString).

(** C35: A redis store without a TTL behaves like a map for every sequence of calls of
    Contains, Get (into a new variable), GetBatch (into a new map), Put, PutBatch, Delete
    and DeleteBatch, whatever the batch size splits them into and whichever calls fail: a read
    answers with what the map holds at the string of the key, a write that fails has
    happened or not, a DeleteBatch that fails has removed some of its keys.  Assumed: redis
    neither evicts nor expires entries, and those it holds at the start were written by
    such a store (they decode); the values are such that encoding/json decodes what it
    encoded into a zero variable; the keys of the batches are strings, the keys of the
    other calls are whatever the cast package takes; and no PutBatch of the sequence fails
    (any part of it could be there). *)
Theorem redis_refines_map `{!RedisClient R} `{!RedisLaws R} calls (s s' : redisKvStore (R := R)) answers :
  redis_durable (rd_client s) → rd_Ttl s = 0%Z → decodable (T := T) (redis_entries (rd_client s)) →
  perform_all (KvStore0 := redis_KvStore ToStringE typeOf mii_order) calls s = (s', answers) → batches_done calls answers →
  allowed_all ToStringE calls (decode (redis_entries (rd_client s))) answers (decode (redis_entries (rd_client s'))).
Proof.
  intros Hd Ht Hdec. by apply (perform_all_allowed ToStringE (KvStoreLaws0 := redis_laws ToStringE typeOf mii_order cast_string typeOf_string)
    (KvDurableLaws0 := redis_durable_laws ToStringE typeOf mii_order cast_string typeOf_string) eq_refl).
Qed.

(** The DynamoDB store behaves like a map for every sequence of calls. *)
Theorem ddb_refines_map `{!Repository R} `{!RepositoryLaws R} (nil_key : any_key O) calls (s s' : ddbKvStore (R := R)) answers :
  repo_durable (dd_repository s) → decodable (T := T) (repo_entries (dd_repository s)) →
  perform_all (KvStore0 := ddb_KvStore ToStringE typeOf mii_order nil_key) calls s = (s', answers) → batches_done calls answers →
  allowed_all ToStringE calls (decode (repo_entries (dd_repository s))) answers (decode (repo_entries (dd_repository s'))).
Proof.
  intros Hd Hdec. by apply (perform_all_allowed ToStringE (KvStoreLaws0 := ddb_laws ToStringE typeOf mii_order nil_key cast_string typeOf_string)
    (KvDurableLaws0 := ddb_durable_laws ToStringE typeOf mii_order nil_key cast_string typeOf_string) eq_refl).
Qed.
End Refinement.

(** ** Samples: values that are encoded behind a mark, a redis and a table that refuse one key *)
Module Samples.

#[local] Instance zero_string : Zero string := "".

#[local] Instance codec : Codec string := {|
  Marshal v := Ok ("'" +:+ v);
  Unmarshal b v := match b with String c v' => if bool_decide (String c "" = "'") then (v', None) else (v, Some (ErrStore "syntax")) | _ => (v, Some (ErrStore "syntax")) end
|}.

#[local] Instance codec_laws : CodecLaws string.
Proof. by intros v b [= <-]. Qed.

Abbreviation entries := (gmap string string).
Abbreviation refused := (ErrStore "down").

Definition put_entry (k b : string) (r : entries) : entries * option error :=
  if bool_decide (k = "down") then (r, Some refused) else (<[k := b]> r, None).

#[local] Instance redis : RedisClient entries := {|
  redis_Exists k r := (r, Ok (if bool_decide (is_Some (r !! k)) then 1%Z else 0%Z));
  redis_Get k r := (r, Ok (r !! k));
  redis_MGet ks r := (r, Ok ((λ k, r !! k) <$> ks));
  redis_Set k b _ r := put_entry k b r;
  redis_Exec cmds r :=
    (foldl (λ r c, match c with MSet pairs => written pairs ∪ r | Expire _ _ => r end) r cmds, None);
  redis_Del ks r := (foldl (λ r k, delete k r) r ks, Ok (Z.of_nat (length ks)));
  redis_DBSize r := (r, Ok (Z.of_nat (size r)))
|}.

Lemma reads_same (r : entries) : reads id (λ _, True) r r.
Proof. done. Qed.

Lemma foldl_delete_lookup ks (r : entries) k :
  foldl (λ r k, delete k r) r ks !! k = if decide (k ∈ ks) then None else r !! k.
Proof.
  revert r. induction ks as [|j ks IH]; intros r; [done|]; simpl.
  - rewrite IH. destruct (decide (k ∈ ks)), (decide (k ∈ j :: ks)) as [Hj|Hj], (decide (j = k)) as [->|Hne];
      rewrite ?lookup_delete_eq ?lookup_delete_ne //; rewrite elem_of_cons in Hj; naive_solver.
Qed.

Lemma put_entry_law k b r r' err :
  put_entry k b r = (r', err) → r' = <[k := b]> r ∨ err ≠ None ∧ r' = r.
Proof. unfold put_entry. case_bool_decide; intros [= <- <-]; [by right|by left]. Qed.

#[local] Program Instance redis_law : RedisLaws entries := {|
  redis_entries := id;
  redis_durable _ := True
|}.
Next Obligation.
  intros k r r' res [= <- <-]. split; [done|]. intros n [= <-]. unfold id. case_bool_decide as Hk; [done|]. simpl. by apply eq_None_not_Some.
Qed.
Next Obligation. intros k r r' res [= <- <-]. split; [done|]. unfold id. by destruct (r !! k). Qed.
Next Obligation.
  intros ks r r' res [= <- <-]. split; [done|]. intros items [= <-]. unfold id.
  induction ks as [|k ks IH]; constructor; [|done]. by destruct (r !! k).
Qed.
Next Obligation.
  intros k b ttl r r' err [->|[He ->]]%put_entry_law; (split; [|by auto]); [by left|by right].
Qed.
Next Obligation.
  intros pairs ttls r r' err. cbn. intros [= <- <-].
  assert (Hf : ∀ r : entries, foldl (λ r c, match c with MSet pairs => written pairs ∪ r | Expire _ _ => r end) r ((λ kt, Expire kt.1 kt.2) <$> ttls) = r).
  { induction ttls as [|t ttls IH]; intros r1; [done|]. csimpl. apply IH. }
  rewrite Hf. split; [by left|done].
Qed.
Next Obligation.
  intros ks r r' res [= <- <-]. unfold id. split_and!.
  - apply map_subseteq_spec. intros k b. rewrite foldl_delete_lookup. by case_decide.
  - intros n _ k Hk. by rewrite foldl_delete_lookup decide_True.
  - intros _. split; [done|]. intros k Hk. by rewrite foldl_delete_lookup decide_False.
Qed.

#[local] Instance table : Repository entries := {|
  repo_GetItem k r := (r, Ok (Build_DdbItem k <$> r !! k));
  repo_BatchGetItems ks r := (r, Ok (omap (λ k, Build_DdbItem k <$> r !! k) ks));
  repo_PutItem it r := put_entry (Key it) (Value it) r;
  repo_BatchPutItems items r := (items_map items ∪ r, None);
  repo_DeleteItem k r := (delete k r, None);
  repo_BatchDeleteItems ks r := (foldl (λ r k, delete k r) r ks, None)
|}.

#[local] Program Instance table_law : RepositoryLaws entries := {|
  repo_entries := id;
  repo_durable _ := True
|}.
Next Obligation. intros k r r' res [= <- <-]. split; [done|]. unfold id. by destruct (r !! k). Qed.
Next Obligation.
  intros ks r r' res _ [= <- <-]. split; [done|]. intros items [= <-]. unfold id. split.
  - intros it (k & Hk & Hit)%list_elem_of_omap. destruct (r !! k) as [b|] eqn:Hb; [|done]. by injection Hit as <-.
  - intros k Hk Hn. apply eq_None_not_Some. intros [b Hb]. apply Hn. apply list_elem_of_fmap. exists (Build_DdbItem k b).
    split; [done|]. apply list_elem_of_omap. exists k. by rewrite Hb.
Qed.
Next Obligation.
  intros it r r' err [->|[He ->]]%put_entry_law; (split; [|by auto]); [by left|by right].
Qed.
Next Obligation. intros items r r' err _ [= <- <-]. by left. Qed.
Next Obligation. intros items r r' err _ [= <- <-]. done. Qed.
Next Obligation.
  intros k r r' err [= <- <-]. unfold id. split_and!; [apply delete_subseteq|intros _; apply lookup_delete_eq|].
  intros _. split; [done|]. intros k' Hne. by rewrite lookup_delete_ne.
Qed.
Next Obligation.
  intros ks r r' err [= <- <-]. unfold id. split_and!.
  - apply map_subseteq_spec. intros k b. rewrite foldl_delete_lookup. by case_decide.
  - intros _ k Hk. by rewrite foldl_delete_lookup decide_True.
  - intros _. split; [done|]. intros k Hk. by rewrite foldl_delete_lookup decide_False.
Qed.

Definition calls : list (kv_call nat string) :=
  [CallPut (KString "a") "1"; CallPutBatch (<["b" := "2"]> (<["c" := "3"]> {["d" := "4"]})); CallDelete (KString "b");
   CallPut (KString "down") "5"; CallGetBatch ["a"; "b"; "c"; "d"]; CallGet (KString "b"); CallGet (KString "d");
   CallContains (KString "a"); CallDeleteBatch ["a"; "e"]; CallContains (KString "a")].

Definition redis_store : redisKvStore := {| rd_client := (∅ : entries); rd_Ttl := 0; rd_BatchSize := 2 |}.
Definition ddb_store : ddbKvStore := {| dd_repository := (∅ : entries); dd_BatchSize := 2 |}.

Abbreviation redis_run := (perform_all (KvStore0 := redis_KvStore sample_cast sample_type canonical_order) calls redis_store).
Abbreviation ddb_run := (perform_all (KvStore0 := ddb_KvStore sample_cast sample_type canonical_order (KOther 0)) calls ddb_store).

Definition is_failed (a : kv_answer nat string) : bool := match a with Failed _ => true | _ => false end.

Example redis_answers : is_failed <$> redis_run.2 = [false; false; false; true; false; false; false; false; false; false].
Proof. vm_compute. reflexivity. Qed.

Example ddb_answers : is_failed <$> ddb_run.2 = [false; false; false; true; false; false; false; false; false; false].
Proof. vm_compute. reflexivity. Qed.

Lemma redis_refines_map_witness :
  batches_done calls redis_run.2 ∧
  allowed_all sample_cast calls (decode (∅ : entries)) redis_run.2 (decode (redis_entries (rd_client redis_run.1))).
Proof.
  assert (Hb : batches_done calls redis_run.2) by (vm_compute; repeat constructor). split; [exact Hb|].
  apply (redis_refines_map (RedisLaws0 := redis_law) sample_cast sample_type canonical_order (λ k, eq_refl) (λ k, eq_refl) calls redis_store _ _ I eq_refl (λ k b Hk, match lookup_empty_Some k b Hk with end));
    [apply surjective_pairing|exact Hb].
Defined.

Lemma ddb_refines_map_witness :
  batches_done calls ddb_run.2 ∧
  allowed_all sample_cast calls (decode (∅ : entries)) ddb_run.2 (decode (repo_entries (dd_repository ddb_run.1))).
Proof.
  assert (Hb : batches_done calls ddb_run.2) by (vm_compute; repeat constructor). split; [exact Hb|].
  apply (ddb_refines_map (RepositoryLaws0 := table_law) sample_cast sample_type canonical_order (λ k, eq_refl) (λ k, eq_refl) (KOther 0) calls ddb_store _ _ I (λ k b Hk, match lookup_empty_Some k b Hk with end));
    [apply surjective_pairing|exact Hb].
Defined.

(** Two keys of one batch that are cast to the same string: both items of the batch get
    the key and one of the two values; DynamoDB refuses such a batch. *)
Lemma PutBatch_equal_strings :
  ∃ keyMap, dd_keys sample_cast [KString "1"; KOther 0] [] ∅ = Ok (["1"; "1"], keyMap) ∧
    dd_putItems (<[KString "1" := "a"]> {[KOther 0 := "b"]}) keyMap ["1"; "1"] =
      Ok [{| Key := "1"; Value := "'b" |}; {| Key := "1"; Value := "'b" |}].
Proof. eexists. split; vm_compute; reflexivity. Qed.
End Samples.
