(* ===== verification/Exec.v ===== *)
(** * pkg/exec: retrying with a backoff

    The executor that retries a function until it succeeds, fails for good or
    runs out of attempts or time, with its two ways to measure the elapsed time,
    the settings it reads and the check for canceled requests.  The loop of
    cenkalti/backoff and its exponential backoff are parameters, the loop with
    the documented equations.  A duration is a [Z] of nanoseconds, the zero time
    is 0.  Logging and the delayed cancel of the context are left out. *)
From S2P Require Import Prelude.

(** ** Measuring the elapsed time *)

(** [pkg/exec/elapsed_time_tracker.go:11-20] ElapsedTimeTracker: each operation
    gets the time it reads from the clock *)
Class ElapsedTimeTracker (T : Type) := {
  Start : Z → T → T;
  OnError : Z → T → T;
  OnSuccess : T → T;
  Elapsed : Z → T → Z;
}.

(** [pkg/exec/elapsed_time_tracker.go:24-27] DefaultElapsedTimeTracker *)
Record DefaultElapsedTimeTracker := { start : Z }.

(** [pkg/exec/elapsed_time_tracker.go:41-55] the operations of DefaultElapsedTimeTracker *)
#[export] Instance DefaultTracker : ElapsedTimeTracker DefaultElapsedTimeTracker := {|
  Start now _ := {| start := now |};
  OnError _ t := t;
  OnSuccess t := t;
  Elapsed now t := (now - start t)%Z;
|}.

(** [pkg/exec/elapsed_time_tracker.go:63-66] ErrorTriggeredElapsedTimeTracker *)
Record ErrorTriggeredElapsedTimeTracker := { errorStart : Z }.

(** [pkg/exec/elapsed_time_tracker.go:80-101] the operations of ErrorTriggeredElapsedTimeTracker *)
#[export] Instance ErrorTriggeredTracker :
    ElapsedTimeTracker ErrorTriggeredElapsedTimeTracker := {|
  Start _ _ := {| errorStart := 0 |};
  OnError now t := if decide (errorStart t = 0%Z) then {| errorStart := now |} else t;
  OnSuccess _ := {| errorStart := 0 |};
  Elapsed now t := if decide (errorStart t = 0%Z) then 0%Z else (now - errorStart t)%Z;
|}.

(** ** Settings *)

(** [pkg/exec/settings.go:10-16] BackoffSettings *)
Record BackoffSettings := {
  CancelDelay : Z;
  InitialInterval : Z;
  MaxAttempts : Z;
  MaxElapsedTime : Z;
  MaxInterval : Z;
}.

Definition Millisecond : Z := 1000000.
Definition Second : Z := 1000 * Millisecond.

(** [pkg/exec/settings.go:63-79] predefined *)
Definition predefined : gmap string BackoffSettings :=
  <["api" := {| CancelDelay := 0; InitialInterval := Millisecond * 100; MaxAttempts := 0;
                MaxElapsedTime := Second * 10; MaxInterval := Second |}]>
  (<["once" := {| CancelDelay := 0; InitialInterval := 0; MaxAttempts := 1;
                  MaxElapsedTime := 0; MaxInterval := 0 |}]>
  {["infinite" := {| CancelDelay := 0; InitialInterval := Millisecond * 50; MaxAttempts := 0;
                     MaxElapsedTime := 0; MaxInterval := Second * 10 |}]})%Z.

(** The configuration: pkg/cfg as a client sees it. *)
Record config := {
  IsSet : string → bool;
  GetString : string → result go_error string;
  UnmarshalKey : string → list string → result go_error BackoffSettings;
}.

Definition backoff_key (path : string) : string := path +:+ ".backoff".
Definition backoff_type_key (path : string) : string := path +:+ ".backoff.type".

(** [pkg/exec/settings.go:22-40] the loop over the paths, last one first *)
Fixpoint backoff_type (c : config) (rev_paths : list string) (typ : string) : result go_error string :=
  match rev_paths with
  | [] => Ok typ
  | path :: rest =>
      if negb (IsSet c (backoff_key path)) then backoff_type c rest typ
      else if negb (IsSet c (backoff_type_key path)) then backoff_type c rest "custom"
      else match GetString c (backoff_type_key path) with
           | Ok typ => backoff_type c rest typ
           | Err err => Err (EWrap "could not get backoff type" err)
           end
  end.

(** [pkg/exec/settings.go:18-61] ReadBackoffSettings *)
Definition ReadBackoffSettings (c : config) (paths : list string) : result go_error BackoffSettings :=
  let paths := paths ++ ["exec"] in
  let! typ := backoff_type c (reverse paths) "default" in
  match predefined !! typ with
  | Some settings => Ok settings
  | None =>
      match UnmarshalKey c (backoff_key (default "" (head paths))) (backoff_key <$> tail paths) with
      | Ok settings => Ok settings
      | Err err => Err (EWrap "failed to unmarshal backoff settings for key" err)
      end
  end.

(** ** Errors *)

(** [pkg/exec/error.go:12-26] the type ErrorType *)
Inductive ErrorType := ErrorTypeUnknown | ErrorTypeOk | ErrorTypePermanent | ErrorTypeRetryable.

#[export] Instance ErrorType_eq_dec : EqDecision ErrorType.
Proof. solve_decision. Defined.

(** What Execute returns: the function's error or one of the two errors of the
    package around it. *)
Inductive exec_error (E : Type) :=
| FunctionError (err : E)
| ErrAttemptsExceeded (attempts durationTook : Z) (err : E)
| ErrMaxElapsedTimeExceeded (attempts durationTook durationMax : Z) (err : E).
Arguments FunctionError {E} _.
Arguments ErrAttemptsExceeded {E} _ _ _.
Arguments ErrMaxElapsedTimeExceeded {E} _ _ _ _.

(** [pkg/exec/err_max_attempts.go:29-31] ErrAttemptsExceeded.Unwrap and
    ErrMaxElapsedTimeExceeded.Unwrap *)
Definition Unwrap {E} (err : exec_error E) : E :=
  match err with
  | FunctionError e | ErrAttemptsExceeded _ _ e | ErrMaxElapsedTimeExceeded _ _ _ e => e
  end.

(** ** The loop of cenkalti/backoff *)

(** What the operation of a retry loop reports: nil, a permanent error or an
    error that may be retried. *)
Inductive op_result (E : Type) := OpDone | OpPermanent (err : E) | OpError (err : E).
Arguments OpDone {E}.
Arguments OpPermanent {E} _.
Arguments OpError {E} _.

(** RetryNotify in a program state [St]: [reset] and [next] are the backoff's
    operations ([None]: Stop), [wait] lets the time pass and tells whether the
    context ended.  [None]: the loop runs for more rounds than the fuel. *)
Definition RetryNotify_type : Type := ∀ (St E : Type) (fuel : nat)
  (reset : St → St) (op : St → St * op_result E) (next : St → St * option Z)
  (notify : E → Z → St → St) (wait : Z → St → St * bool), St → option St.

(** The documented loop: the operation runs at least once and until it is done,
    its error is permanent, the backoff stops or the context ends. *)
Record RetryNotify_laws (RetryNotify : RetryNotify_type) : Prop := {
  RetryNotify_no_fuel : ∀ St E (reset : St → St) op next (notify : E → Z → St → St) wait s,
    RetryNotify St E 0 reset op next notify wait s = None;
  RetryNotify_round : ∀ St E n (reset : St → St) op next (notify : E → Z → St → St) wait s,
    RetryNotify St E (S n) reset op next notify wait s =
    match op (reset s) with
    | (s, OpDone) | (s, OpPermanent _) => Some s
    | (s, OpError err) =>
        match next s with
        | (s, None) => Some s
        | (s, Some d) =>
            match wait d (notify err d s) with
            | (s, true) => Some s
            | (s, false) => RetryNotify St E n id op next notify wait s
            end
        end
    end;
}.

(** ** The executor *)
Section Executor.
Context {W T B A E : Type} `{!ElapsedTimeTracker T}.

(** The rest of the program: the clock, the context, a wait of the retry loop
    and the exponential backoff of the library. *)
Record environment := {
  Now : W → Z;
  ctx_done : W → bool;
  sleep : Z → W → W * bool;
  NewExponentialBackOff : Z → Z → Z → B;
  exp_NextBackOff : B → B * option Z;
  exp_Reset : B → B;
}.

(** [pkg/exec/error.go:28-28] the type ErrorChecker *)
Definition ErrorChecker : Type := option A → E → ErrorType.

(** [pkg/exec/executor.go:22-22] the type Notify *)
Definition Notify : Type := E → Z → W → W.

(** [pkg/exec/executor_backoff.go:12-20] BackoffExecutor *)
Record BackoffExecutor := {
  env : environment;
  settings : BackoffSettings;
  checks : list ErrorChecker;
  notifier : list Notify;
  timeTrackerFactory : T;
}.

(** [pkg/exec/backoff_tracked.go:13-17] TrackedBackOff: its tracker is the
    executor's, a pointer to the same object *)
Record TrackedBackOff := { backOff : B; maxElapsedTime : Z }.

(** [pkg/exec/backoff_tracked.go:22-34] NewTrackedBackOff *)
Definition NewTrackedBackOff (ev : environment) (st : BackoffSettings) : TrackedBackOff :=
  {| backOff := NewExponentialBackOff ev (InitialInterval st) (MaxInterval st) 0;
     maxElapsedTime := MaxElapsedTime st |}.

(** [pkg/exec/backoff_tracked.go:38-45] TrackedBackOff.NextBackOff *)
Definition NextBackOff (ev : environment) (now : Z) (tracker : T) (b : TrackedBackOff) :
    TrackedBackOff * option Z :=
  if decide (0 < maxElapsedTime b ∧ Elapsed now tracker > maxElapsedTime b)%Z then (b, None)
  else
    let '(bo, next) := exp_NextBackOff ev (backOff b) in
    ({| backOff := bo; maxElapsedTime := maxElapsedTime b |}, next).

(** [pkg/exec/backoff_tracked.go:48-50] TrackedBackOff.Reset *)
Definition Reset (ev : environment) (b : TrackedBackOff) : TrackedBackOff :=
  {| backOff := exp_Reset ev (backOff b); maxElapsedTime := maxElapsedTime b |}.

(** [pkg/exec/executor_backoff.go:75-86] the variables the closures of Execute share *)
Record exec_state := {
  es_world : W;
  es_res : option A;
  es_err : option E;
  es_errType : ErrorType;
  es_attempts : Z;
  es_tracker : T;
  es_backoff : TrackedBackOff;
}.

Definition with_world (w : W) (s : exec_state) : exec_state :=
  {| es_world := w; es_res := es_res s; es_err := es_err s; es_errType := es_errType s;
     es_attempts := es_attempts s; es_tracker := es_tracker s; es_backoff := es_backoff s |}.

Definition with_tracker (t : T) (s : exec_state) : exec_state :=
  {| es_world := es_world s; es_res := es_res s; es_err := es_err s; es_errType := es_errType s;
     es_attempts := es_attempts s; es_tracker := t; es_backoff := es_backoff s |}.

Definition with_backoff (b : TrackedBackOff) (s : exec_state) : exec_state :=
  {| es_world := es_world s; es_res := es_res s; es_err := es_err s; es_errType := es_errType s;
     es_attempts := es_attempts s; es_tracker := es_tracker s; es_backoff := b |}.

Implicit Types (e : BackoffExecutor) (s : exec_state) (w : W).

(** The time the executor's clock shows. *)
Definition now_of e s : Z := Now (env e) (es_world s).

(** [pkg/exec/executor_backoff.go:113-132] the checks on a failed attempt *)
Fixpoint run_checks (now : Z) (cs : list ErrorChecker) (err : E) s : exec_state * op_result E :=
  match cs with
  | [] => (s, OpPermanent err)
  | check :: cs' =>
      let s := {| es_world := es_world s; es_res := es_res s; es_err := es_err s;
                  es_errType := check (es_res s) err; es_attempts := es_attempts s;
                  es_tracker := es_tracker s; es_backoff := es_backoff s |} in
      match es_errType s with
      | ErrorTypeOk => (with_tracker (OnSuccess (es_tracker s)) s, OpDone)
      | ErrorTypeRetryable => (with_tracker (OnError now (es_tracker s)) s, OpError err)
      | ErrorTypePermanent => (s, OpPermanent err)
      | ErrorTypeUnknown => run_checks now cs' err s
      end
  end.

(** [pkg/exec/executor_backoff.go:100-133] the operation Execute retries *)
Definition operation e (f : W → W * (option A * option E)) s : exec_state * op_result E :=
  let '(w, (res, err)) := f (es_world s) in
  let s := {| es_world := w; es_res := res; es_err := err; es_errType := es_errType s;
              es_attempts := es_attempts s; es_tracker := es_tracker s; es_backoff := es_backoff s |} in
  match err with
  | None => (with_tracker (OnSuccess (es_tracker s)) s, OpDone)
  | Some err =>
      if decide (0 < MaxAttempts (settings e) ∧ MaxAttempts (settings e) ≤ es_attempts s)%Z
      then (s, OpPermanent err)
      else run_checks (now_of e s) (checks e) err s
  end.

(** [pkg/exec/executor_backoff.go:88-97] the notify function: notify *)
Definition notify e (notifiers : list Notify) (err : E) (dur : Z) s : exec_state :=
  let w := fold_left (λ w (n : Notify), n err dur w) (notifier e ++ notifiers) (es_world s) in
  {| es_world := w; es_res := es_res s; es_err := es_err s; es_errType := es_errType s;
     es_attempts := es_attempts s + 1; es_tracker := es_tracker s; es_backoff := es_backoff s |}.

(** The backoff of the loop: the tracked one, which stops when the context ends. *)
Definition next e s : exec_state * option Z :=
  if ctx_done (env e) (es_world s) then (s, None)
  else
    let '(b, d) := NextBackOff (env e) (now_of e s) (es_tracker s) (es_backoff s) in
    (with_backoff b s, d).

Definition wait e (d : Z) s : exec_state * bool :=
  let '(w, ended) := sleep (env e) d (es_world s) in (with_world w s, ended).

Definition reset e s : exec_state := with_backoff (Reset (env e) (es_backoff s)) s.

(** [pkg/exec/executor_backoff.go:135-167] what Execute returns after the loop *)
Definition conclude e s : W * (option A * option (exec_error E)) :=
  let duration := Elapsed (now_of e s) (es_tracker s) in
  let st := settings e in
  match es_err s with
  | Some err =>
      if decide (es_errType s = ErrorTypeOk) then (es_world s, (es_res s, Some (FunctionError err)))
      else if decide (0 < MaxAttempts st ∧ es_attempts s > MaxAttempts st)%Z
      then (es_world s, (es_res s, Some (ErrAttemptsExceeded (es_attempts s) duration err)))
      else if decide (0 < MaxElapsedTime st ∧ duration > MaxElapsedTime st)%Z
      then (es_world s, (es_res s,
             Some (ErrMaxElapsedTimeExceeded (es_attempts s) duration (MaxElapsedTime st) err)))
      else (es_world s, (es_res s, Some (FunctionError err)))
  | None => (es_world s, (es_res s, None))
  end.

(** [pkg/exec/executor_backoff.go:75-86] the variables at the start of Execute *)
Definition initial e w : exec_state :=
  {| es_world := w; es_res := None; es_err := None; es_errType := ErrorTypeUnknown; es_attempts := 1;
     es_tracker := Start (Now (env e) w) (timeTrackerFactory e);
     es_backoff := NewTrackedBackOff (env e) (settings e) |}.

(** [pkg/exec/executor_backoff.go:65-167] BackoffExecutor.Execute; [None]: more
    rounds than the fuel *)
Definition Execute (RetryNotify : RetryNotify_type) (fuel : nat) e
    (f : W → W * (option A * option E)) (notifiers : list Notify) w :
    option (W * (option A * option (exec_error E))) :=
  conclude e <$> RetryNotify exec_state E fuel (reset e) (operation e f) (next e)
                   (notify e notifiers) (wait e) (initial e w).

(** [pkg/exec/executor.go:39-41] DefaultExecutor.Execute *)
Definition default_Execute (f : W → W * (option A * option E)) (notifiers : list Notify) w :
    W * (option A * option E) := f w.
End Executor.
Arguments environment : clear implicits.
Arguments BackoffExecutor : clear implicits.
Arguments exec_state : clear implicits.

(** ** Rules for the retry loop *)
Section Loop.
Context (RetryNotify : RetryNotify_type) (laws : RetryNotify_laws RetryNotify).
Context {St E : Type} (reset : St → St) (op : St → St * op_result E) (next : St → St * option Z).
Context (notify : E → Z → St → St) (wait : Z → St → St * bool).

(** What a round leads to: the end of the loop in [P] or the next round in [I]. *)
Definition round_ends (s : St) (P I : St → Prop) : Prop :=
  match op s with
  | (s, OpDone) | (s, OpPermanent _) => P s
  | (s, OpError err) =>
      match next s with
      | (s, None) => P s
      | (s, Some d) =>
          match wait d (notify err d s) with
          | (s, true) => P s
          | (s, false) => I s
          end
      end
  end.

Lemma RetryNotify_partial (P I : St → Prop) n s s' :
  (∀ s, I s → round_ends s P I) → I (reset s) →
  RetryNotify St E n reset op next notify wait s = Some s' → P s'.
Proof.
  intros Hround. enough (∀ (r : St → St) s, I (r s) →
    RetryNotify St E n r op next notify wait s = Some s' → P s') as Hall by apply Hall.
  clear reset s. induction n as [|n IH]; intros reset s HI Hr.
  - by rewrite (RetryNotify_no_fuel _ laws) in Hr.
  - rewrite (RetryNotify_round _ laws) in Hr.
    pose proof (Hround _ HI) as H. unfold round_ends in H.
    destruct (op _) as [s1 []]; [by simplify_eq.. |].
    destruct (next s1) as [s2 [d|]]; [|by simplify_eq].
    destruct (wait d _) as [s3 []]; [by simplify_eq|]. by apply (IH id s3).
Qed.

Lemma RetryNotify_total (P I : St → Prop) (μ : St → nat) n s :
  (∀ s, I s → round_ends s P (λ s', I s' ∧ μ s' < μ s)) → I (reset s) → μ (reset s) < n →
  ∃ s', RetryNotify St E n reset op next notify wait s = Some s' ∧ P s'.
Proof.
  intros Hround. enough (∀ (r : St → St) s, I (r s) → μ (r s) < n → ∃ s',
    RetryNotify St E n r op next notify wait s = Some s' ∧ P s') as Hall by apply Hall.
  clear reset s. induction n as [|n IH]; intros reset s HI Hn; [lia|].
  rewrite (RetryNotify_round _ laws).
  pose proof (Hround _ HI) as H. unfold round_ends in H.
  destruct (op _) as [s1 []]; [by eexists.. |].
  destruct (next s1) as [s2 [d|]]; [|by eexists].
  destruct (wait d _) as [s3 []]; [by eexists|]. destruct H as [HI3 Hμ].
  apply (IH id s3); [done | simpl; lia].
Qed.
End Loop.

Section ExecutorProofs.
Context {W T B A E : Type} `{!ElapsedTimeTracker T}.
Context (RetryNotify : RetryNotify_type) (laws : RetryNotify_laws RetryNotify).
Implicit Types (e : BackoffExecutor W T B A E) (s : exec_state W T B A E) (w : W).
Implicit Types (f : W → W * (option A * option E)).

(** The answer of the first check that knows the error. *)
Definition verdict (cs : list (ErrorChecker (A := A) (E := E))) (res : option A) (err : E) : ErrorType :=
  default ErrorTypeUnknown (head (List.filter (λ t, negb (bool_decide (t = ErrorTypeUnknown)))
    ((λ check : ErrorChecker, check res err) <$> cs))).

Lemma verdict_cons check cs res err :
  verdict (check :: cs) res err =
  if decide (check res err = ErrorTypeUnknown) then verdict cs res err else check res err.
Proof. unfold verdict. csimpl. case_decide; case_bool_decide; done. Qed.

Lemma run_checks_spec now cs err s :
  let '(s', r) := run_checks now cs err s in
  es_world s' = es_world s ∧ es_res s' = es_res s ∧ es_err s' = es_err s ∧
  es_attempts s' = es_attempts s ∧ es_backoff s' = es_backoff s ∧
  match verdict cs (es_res s) err with
  | ErrorTypeOk => r = OpDone ∧ es_errType s' = ErrorTypeOk
  | ErrorTypeRetryable =>
      r = OpError err ∧ es_errType s' = ErrorTypeRetryable ∧ es_tracker s' = OnError now (es_tracker s)
  | ErrorTypePermanent => r = OpPermanent err ∧ es_errType s' = ErrorTypePermanent
  | ErrorTypeUnknown =>
      r = OpPermanent err ∧ (es_errType s' = ErrorTypeUnknown ∨ es_errType s' = es_errType s)
  end.
Proof.
  revert s. induction cs as [|check cs IH]; intros s; simpl; [by auto 10|].
  rewrite verdict_cons.
  set (s1 := {| es_world := es_world s |}). specialize (IH s1). simpl in IH.
  destruct (check (es_res s) err) eqn:Hc; [|by case_decide; auto 10..].
  case_decide; [|done]. destruct (run_checks now cs err s1) as [s' r].
  destruct IH as (?&?&?&?&?&Hv). do 5 (split; [done|]).
  destruct (verdict cs (es_res s) err); try done. split; [apply Hv|]. left. destruct Hv as [_ [|]]; done.
Qed.

Lemma operation_spec e f s :
  let '(w1, (res, err)) := f (es_world s) in
  let '(s1, r) := operation e f s in
  (es_world s1, (es_res s1, es_err s1)) = (w1, (res, err)) ∧
  es_attempts s1 = es_attempts s ∧ es_backoff s1 = es_backoff s ∧
  (∀ err', r = OpError err' → err = Some err' ∧ verdict (checks e) res err' = ErrorTypeRetryable ∧
     (0 < MaxAttempts (settings e) → es_attempts s < MaxAttempts (settings e))%Z ∧
     es_tracker s1 = OnError (Now (env e) w1) (es_tracker s)) ∧
  (∀ fe, err = Some fe → (MaxAttempts (settings e) ≤ 0)%Z →
     verdict (checks e) res fe = ErrorTypeOk → es_errType s1 = ErrorTypeOk).
Proof.
  unfold operation. destruct (f (es_world s)) as [w1 [res [err|]]]; simpl; [|by naive_solver].
  case_decide as Hm; simpl; [split_and!; [done..|intros ? [=]|intros; lia]|].
  match goal with |- context [run_checks ?now ?cs err ?s1] =>
    pose proof (run_checks_spec now cs err s1) as H; destruct (run_checks now cs err s1) as [s2 r] end.
  simpl in H. destruct H as (-> & -> & -> & -> & -> & Hv). do 3 (split; [done|]). split.
  - intros err' ->. destruct (verdict (checks e) res err) eqn:Hvd; destruct_and?; simplify_eq.
    split_and!; try done. lia.
  - intros fe [= ->] _ Hvd. rewrite Hvd in Hv. apply Hv.
Qed.

(** What a round leaves behind: either the loop ends right after an attempt, or
    after the notification of a retryable error, or it goes on. *)
Lemma round_cases e f ns s (P I : exec_state W T B A E → Prop) :
  (∀ s1 r, operation e f s = (s1, r) → (∀ err, r ≠ OpError err) → P s1) →
  (∀ s1 s2 err, operation e f s = (s1, OpError err) →
     s2 = with_backoff (es_backoff s2) s1 →
     (ctx_done (env e) (es_world s1) = true ∨ snd (next e s1) = None → P s2) ∧
     (∀ d, snd (next e s1) = Some d →
        let '(s3, ended) := wait e d (notify e ns err d s2) in if ended then P s3 else I s3)) →
  round_ends (operation e f) (next e) (notify e ns) (wait e) s P I.
Proof.
  intros Hend Hgo. unfold round_ends. destruct (operation e f s) as [s1 r] eqn:Hop.
  destruct r as [|err|err]; [by eapply Hend.. |].
  destruct (next e s1) as [s2 od] eqn:Hn.
  assert (s2 = with_backoff (es_backoff s2) s1) as Hs2.
  { unfold next in Hn. destruct (ctx_done _ _); [simplify_eq; by destruct s2|].
    destruct (NextBackOff _ _ _ _) as [b d']. by simplify_eq. }
  destruct (Hgo s1 s2 err eq_refl Hs2) as [Hstop Hw]. rewrite Hn in Hstop Hw.
  destruct od as [d|]; [|by apply Hstop; right].
  specialize (Hw d eq_refl). by destruct (wait e d _) as [s3 []].
Qed.

(** Execute returns the result and the error of its last call of the
    function: no error if that call succeeded, else the call's error as it is or,
    when more than the maximal time has passed, that error inside an
    ErrMaxElapsedTimeExceeded; it never returns an ErrAttemptsExceeded, also when
    the attempts are used up. *)
Theorem Execute_result e f ns n w w' res err :
  Execute RetryNotify n e f ns w = Some (w', (res, err)) →
  ∃ w0 w1 ferr, f w0 = (w1, (res, ferr)) ∧
    match ferr with
    | None => err = None
    | Some fe =>
        err = Some (FunctionError fe) ∨
        (¬ ((MaxAttempts (settings e) ≤ 0)%Z ∧ verdict (checks e) res fe = ErrorTypeOk)) ∧
        (0 < MaxElapsedTime (settings e))%Z ∧
        ∃ attempts took, (MaxElapsedTime (settings e) < took)%Z ∧
          err = Some (ErrMaxElapsedTimeExceeded attempts took (MaxElapsedTime (settings e)) fe)
    end.
Proof.
  unfold Execute. destruct (RetryNotify _ _ _ _ _ _ _ _ _) as [s'|] eqn:Hrun; [|done].
  csimpl. intros [= Hc]. set (m := MaxAttempts (settings e)) in *.
  assert ((∃ w0 w1, f w0 = (w1, (es_res s', es_err s'))) ∧ (0 < m → es_attempts s' ≤ m)%Z ∧
    (∀ fe, es_err s' = Some fe → (m ≤ 0)%Z → verdict (checks e) (es_res s') fe = ErrorTypeOk →
       es_errType s' = ErrorTypeOk)) as ((w0 & w1 & Hf) & Hatt & Hok).
  { pattern s'. eapply (RetryNotify_partial _ laws _ _ _ _ _ _ (λ s, 0 < m → es_attempts s ≤ m)%Z);
      [| |exact Hrun]; [|simpl; lia]. clear s' Hrun Hc. intros s HI. pose proof (operation_spec e f s) as Hop.
    destruct (f (es_world s)) as [w1 [r er]] eqn:Hf.
    apply round_cases; intros s1; [intros o Ho Hne | intros s2 err' Ho Hs2]; rewrite Ho in Hop;
      destruct Hop as (Hfs & Hat & _ & Herr & Hok); simplify_eq.
    - rewrite Hat. naive_solver.
    - destruct (Herr _ eq_refl) as (Her & Hvd & Hlt & _). rewrite -/m in Hlt.
      set (b := es_backoff s2) in *. clearbody b. subst s2. split.
      + intros _. simpl. rewrite Hat. split; [by eexists _, _|]. split; [done|]. apply Hok.
      + intros d _. unfold wait. destruct (sleep _ _ _) as [w3 []]; simpl; rewrite Hat; [|lia].
        split; [by eexists _, _|]. split; [lia|]. apply Hok. }
  unfold conclude in Hc. destruct (es_err s') as [fe|] eqn:Hfe; [|simplify_eq; by eexists _, _, None].
  exists w0, w1, (Some fe).
  case_decide as H1; [|case_decide; [lia|case_decide as H3]]; simplify_eq;
    (split; [done|]); [by left | right | by left].
  split; [naive_solver|]. split; [lia|]. eexists _, _. split; [|done]. lia.
Qed.

Lemma notify_measure {M} (R : M → M → Prop) `{!PreOrder R} (μ : W → M) e ns err d s :
  Forall (λ n : Notify, ∀ err d w, R (μ w) (μ (n err d w))) (notifier e ++ ns) →
  R (μ (es_world s)) (μ (es_world (notify e ns err d s))).
Proof.
  unfold notify. simpl. generalize (es_world s). induction (notifier e ++ ns) as [|x l IH]; intros w.
  - done.
  - intros [Hx Hl]%Forall_cons. etrans; [apply Hx | by apply IH].
Qed.

(** With a maximal number [m] of attempts Execute returns, after at least one
    and at most [m] calls of the function, and after exactly one call when the
    checks never answer "retryable"; [calls] is anything that counts the calls
    and nothing else. *)
Theorem Execute_bounded_attempts e f ns n w (calls : W → Z) :
  (0 < MaxAttempts (settings e))%Z → (Z.to_nat (MaxAttempts (settings e)) ≤ n) →
  (∀ w, calls (fst (f w)) = calls w + 1)%Z →
  (∀ d w, calls (fst (sleep (env e) d w)) = calls w) →
  Forall (λ x : Notify, ∀ err d w, calls w = calls (x err d w)) (notifier e ++ ns) →
  ∃ w' r, Execute RetryNotify n e f ns w = Some (w', r) ∧
    (calls w + 1 ≤ calls w' ≤ calls w + MaxAttempts (settings e))%Z ∧
    ((∀ w w' res err, f w = (w', (res, Some err)) → verdict (checks e) res err ≠ ErrorTypeRetryable) →
     calls w' = calls w + 1)%Z.
Proof.
  intros Hm Hn Hf Hs Hns. set (m := MaxAttempts (settings e)) in *.
  destruct (RetryNotify_total RetryNotify laws (reset e) (operation e f) (next e) (notify e ns) (wait e)
    (λ s, (calls w + 1 ≤ calls (es_world s) ≤ calls w + m)%Z ∧
       ((∀ w w' res err, f w = (w', (res, Some err)) → verdict (checks e) res err ≠ ErrorTypeRetryable) →
        calls (es_world s) = calls w + 1)%Z)
    (λ s, (calls (es_world s) + 1 = calls w + es_attempts s ∧ 1 ≤ es_attempts s ≤ m)%Z ∧
       ((∀ w w' res err, f w = (w', (res, Some err)) → verdict (checks e) res err ≠ ErrorTypeRetryable) →
        es_attempts s = 1)%Z)
    (λ s, Z.to_nat (m - es_attempts s)) n (initial e w)) as (s' & Hrun & HP).
  - intros s [HI Hone]. pose proof (operation_spec e f s) as Hop. specialize (Hf (es_world s)).
    destruct (f (es_world s)) as [w1 [r er]] eqn:Hfs.
    apply round_cases; intros s1; [intros o Ho Hne | intros s2 err' Ho Hs2]; rewrite Ho in Hop;
      destruct Hop as (Heq & Hat & _ & Herr & _); simplify_eq/=;
      [split; [|intros Hno; specialize (Hone Hno)]; lia|].
    destruct (Herr _ eq_refl) as (Her & Hvd & Hlt & _). rewrite -/m in Hlt. specialize (Hlt Hm).
    set (b := es_backoff s2) in *. clearbody b. subst s2. simpl. split;
      [intros _; split; [|intros Hno; specialize (Hone Hno)]; lia|].
    intros d _. unfold wait. specialize (Hs d (es_world (notify e ns err' d (with_backoff b s1)))).
    pose proof (notify_measure eq calls e ns err' d (with_backoff b s1) Hns) as Hnc. simpl in Hnc.
    assert (¬ (∀ w w' res err, f w = (w', (res, Some err)) →
      verdict (checks e) res err ≠ ErrorTypeRetryable)) as Hretry.
    { intros Hno. rewrite Her in Hfs. by eapply Hno. }
    destruct (sleep _ _ _) as [w3 []]; simpl in *; rewrite ?Hat; split_and?; try done; lia.
  - simpl. split; [lia | done].
  - change (Z.to_nat (m - 1) < n). lia.
  - exists (fst (conclude e s')), (snd (conclude e s')). unfold Execute. rewrite Hrun. csimpl.
    replace (fst (conclude e s')) with (es_world s'); [|unfold conclude; by repeat case_match].
    split; [|done]. f_equal. unfold conclude; by repeat case_match.
Qed.
End ExecutorProofs.

(** Without a bound on the attempts, a maximal elapsed time still ends
    Execute: when every wait moves the clock on and nothing turns it back, as
    many rounds as the maximal time has ticks (and two more) are enough, whatever
    the function does. *)
Theorem Execute_terminates {W B A E}
    (RetryNotify : RetryNotify_type) (laws : RetryNotify_laws RetryNotify)
    (e : BackoffExecutor W DefaultElapsedTimeTracker B A E)
    (f : W → W * (option A * option E)) ns n w :
  (0 < MaxElapsedTime (settings e))%Z → Z.to_nat (MaxElapsedTime (settings e)) + 2 < n →
  (∀ w, Now (env e) w ≤ Now (env e) (fst (f w)))%Z →
  (∀ d w, Now (env e) w < Now (env e) (fst (sleep (env e) d w)))%Z →
  Forall (λ x : Notify, ∀ err d w, Now (env e) w ≤ Now (env e) (x err d w))%Z (notifier e ++ ns) →
  ∃ w' r, Execute RetryNotify n e f ns w = Some (w', r).
Proof.
  intros Hm Hn Hf Hs Hns. set (m := MaxElapsedTime (settings e)) in *.
  destruct (RetryNotify_total RetryNotify laws (reset e) (operation e f) (next e) (notify e ns) (wait e)
    (λ _, True)
    (λ s, es_tracker s = {| start := Now (env e) w |} ∧ maxElapsedTime (es_backoff s) = m ∧
       Now (env e) w ≤ Now (env e) (es_world s))%Z
    (λ s, Z.to_nat (m + 2 - (Now (env e) (es_world s) - Now (env e) w))) n (initial e w))
    as (s' & Hrun & _).
  - intros s (Ht & Hb & Hnow). pose proof (operation_spec e f s) as Hop. specialize (Hf (es_world s)).
    destruct (f (es_world s)) as [w1 [r er]] eqn:Hfs. unfold round_ends.
    destruct (operation e f s) as [s1 [|err|err]]; [done..|].
    destruct Hop as (Heq & _ & Hb1 & Herr & _). simplify_eq/=.
    destruct (Herr _ eq_refl) as (_ & _ & _ & Ht1). rewrite Ht /= in Ht1.
    unfold next, NextBackOff. destruct (ctx_done _ _); [done|].
    case_decide as Hel; [done|]. rewrite Ht1 Hb1 Hb /= in Hel. unfold now_of in Hel.
    destruct (exp_NextBackOff _ _) as [b [d|]]; [|done]. simpl.
    set (s2 := with_backoff _ s1). specialize (Hs d (es_world (notify e ns err d s2))).
    pose proof (notify_measure Z.le (Now (env e)) e ns err d s2 Hns) as Hnn. simpl in Hnn.
    unfold wait. destruct (sleep _ _ _) as [w3 []]; [done|]. simpl in *. rewrite Hb1. split_and!; try done; lia.
  - simpl. split_and!; [done..| lia].
  - simpl. rewrite Z.sub_diag. lia.
  - unfold Execute. rewrite Hrun. csimpl. destruct (conclude e s') as [w' r]. by eexists _, _.
Qed.

(** ** A concrete loop and a concrete program *)

(** The rounds after the backoff is reset. *)
Fixpoint sample_rounds {St E} (n : nat) (op : St → St * op_result E) (next : St → St * option Z)
    (notify : E → Z → St → St) (wait : Z → St → St * bool) (s : St) : option St :=
  match n with
  | 0 => None
  | S n =>
      match op s with
      | (s, OpDone) | (s, OpPermanent _) => Some s
      | (s, OpError err) =>
          match next s with
          | (s, None) => Some s
          | (s, Some d) =>
              match wait d (notify err d s) with
              | (s, true) => Some s
              | (s, false) => sample_rounds n op next notify wait s
              end
          end
      end
  end.

Definition sample_RetryNotify : RetryNotify_type :=
  λ St E n reset op next notify wait s, sample_rounds n op next notify wait (reset s).

Lemma sample_RetryNotify_laws : RetryNotify_laws sample_RetryNotify.
Proof. by split. Qed.

(** A world that counts the calls and the ticks of the clock; the function fails
    until its [k]-th call, a wait lasts ten ticks. *)
Definition sample_executor (max elapsed : Z) :
    BackoffExecutor (Z * Z) DefaultElapsedTimeTracker unit unit string := {|
  env := {| Now := snd; ctx_done := λ _, false; sleep := λ _ w, ((w.1, w.2 + 10)%Z, false);
            NewExponentialBackOff := λ _ _ _, (); exp_NextBackOff := λ b, (b, Some 10%Z);
            exp_Reset := id |};
  settings := {| CancelDelay := 0; InitialInterval := 1; MaxAttempts := max;
                 MaxElapsedTime := elapsed; MaxInterval := 1 |};
  checks := [λ _ err, if decide (err = "retry"%string) then ErrorTypeRetryable else ErrorTypeUnknown];
  notifier := [];
  timeTrackerFactory := {| start := 0 |};
|}.

Definition sample_function (k : Z) (w : Z * Z) : (Z * Z) * (option unit * option string) :=
  ((w.1 + 1, w.2 + 1)%Z, (Some (), if decide (w.1 + 1 < k)%Z then Some "retry"%string else None)).

Definition sample_run (max elapsed k : Z) :=
  Execute sample_RetryNotify 30 (sample_executor max elapsed) (sample_function k) [] (0, 1)%Z.

Example sample_succeeds : sample_run 5 0 3 = Some ((3, 24)%Z, (Some (), None)).
Proof. by vm_compute. Qed.

Example sample_attempts : sample_run 5 0 9 = Some ((5, 46)%Z, (Some (), Some (FunctionError "retry"%string))).
Proof. by vm_compute. Qed.

Example sample_elapsed :
  sample_run 0 25 9 = Some ((4, 35)%Z, (Some (), Some (ErrMaxElapsedTimeExceeded 4 34 25 "retry"%string))).
Proof. by vm_compute. Qed.

Lemma Execute_result_witness : ∃ ferr w0 w1, sample_function 9 w0 = (w1, (Some (), ferr)) ∧ ferr = Some "retry"%string.
Proof.
  destruct (Execute_result sample_RetryNotify sample_RetryNotify_laws (sample_executor 5 0)
    (sample_function 9) [] 30 (0, 1)%Z (5, 46)%Z (Some ()) (Some (FunctionError "retry"%string))
    ltac:(vm_compute; reflexivity)) as (w0 & w1 & [fe|] & Hf & H); [|discriminate H].
  exists (Some fe), w0, w1. split; [exact Hf|].
  destruct H as [[= H] | (_ & H & _)]; [by rewrite H | discriminate H].
Defined.

Lemma Execute_bounded_attempts_witness : ∃ w' r,
  sample_run 5 0 9 = Some (w', r) ∧ (1 ≤ w'.1 ≤ 5)%Z.
Proof.
  destruct (Execute_bounded_attempts sample_RetryNotify sample_RetryNotify_laws (sample_executor 5 0)
    (sample_function 9) [] 30 (0, 1)%Z fst) as (w' & r & Hr & Hb & _);
    [done | simpl; lia | done | done | constructor |].
  exists w', r. split; [exact Hr | simpl in Hb; lia].
Defined.

Lemma Execute_terminates_witness : ∃ w' r, sample_run 0 25 100 = Some (w', r).
Proof.
  apply (Execute_terminates sample_RetryNotify sample_RetryNotify_laws (sample_executor 0 25)
    (sample_function 100) [] 30 (0, 1)%Z);
    [done | simpl; lia | intros w; simpl; lia | intros d w; simpl; lia | constructor].
Defined.

(** ** The trackers *)

(** What happens to a tracker in the course of an execution, each with the time
    of the clock. *)
Inductive tracker_event := EvStart | EvError | EvSuccess.

#[export] Instance tracker_event_eq_dec : EqDecision tracker_event.
Proof. solve_decision. Defined.

Definition track_step {T} `{ElapsedTimeTracker T} (t : T) (ev : Z * tracker_event) : T :=
  match ev.2 with
  | EvStart => Start ev.1 t
  | EvError => OnError ev.1 t
  | EvSuccess => OnSuccess t
  end.

Definition track {T} `{ElapsedTimeTracker T} (evs : list (Z * tracker_event)) (t : T) : T :=
  fold_left track_step evs t.

Lemma track_app {T} `{ElapsedTimeTracker T} evs ev evs' (t : T) :
  track (evs ++ ev :: evs') t = track evs' (track_step (track evs t) ev).
Proof. unfold track. by rewrite fold_left_app. Qed.

Lemma track_default evs (t : DefaultElapsedTimeTracker) :
  Forall (λ ev, ev.2 ≠ EvStart) evs → track evs t = t.
Proof.
  intros H. revert t. induction H as [|ev evs Hev Hevs IH]; [done|]; intros t.
  destruct ev as [now []]; csimpl in *; [done | apply IH..].
Qed.

Lemma track_errors evs t0 :
  t0 ≠ 0%Z → Forall (λ ev, ev.2 = EvError) evs →
  track evs {| errorStart := t0 |} = {| errorStart := t0 |}.
Proof.
  intros Ht H. induction H as [|ev evs Hev Hevs IH]; [done|].
  destruct ev as [now []]; csimpl in *; [done | | done].
  unfold track in *. simpl. unfold track_step at 2. simpl. case_decide; [done | apply IH].
Qed.

(** The default tracker measures the time since the last Start, whatever
    errors and successes came after it; the error-triggered tracker measures the
    time since the first error after the last Start or success, and nothing before
    such an error, so that a long wait without an error costs no budget. *)
Theorem trackers_correct evs t0 ev errors now
    (t : DefaultElapsedTimeTracker) (t' : ErrorTriggeredElapsedTimeTracker) :
  Forall (λ ev, ev.1 ≠ 0 ∧ ev.2 = EvError)%Z errors → ev ≠ EvError →
  (∀ others, Forall (λ ev, ev.2 ≠ EvStart) others →
     Elapsed now (track (evs ++ (t0, EvStart) :: others) t) = now - t0)%Z ∧
  Elapsed now (track (evs ++ (t0, ev) :: errors) t') =
    match errors with
    | [] => 0%Z
    | (t1, _) :: _ => (now - t1)%Z
    end.
Proof.
  intros Herr Hev. split.
  - intros others Ho. rewrite track_app (track_default others); done.
  - rewrite track_app. replace (track_step _ (t0, ev)) with {| errorStart := 0 |} by by destruct ev.
    destruct errors as [|[t1 ev1] errors]; [done|].
    apply Forall_cons in Herr as [[Ht1 Hev1] Herr]. simpl in *. subst ev1.
    change (track ((t1, EvError) :: errors) {| errorStart := 0 |})
      with (track errors {| errorStart := t1 |}).
    rewrite (track_errors errors t1 Ht1); [eapply Forall_impl; [exact Herr|]; by intros ? []|].
    simpl. by rewrite decide_False.
Qed.

Lemma trackers_correct_witness :
  (Elapsed 90 (track [(1, EvStart); (50, EvError); (60, EvError)] {| errorStart := 0 |}) = 40)%Z.
Proof.
  apply (trackers_correct [] 1%Z EvStart [(50, EvError); (60, EvError)]%Z 90 {| start := 0 |}
    {| errorStart := 0 |}); [|done]. constructor; [done|]. constructor; [done | constructor].
Defined.

(** ** The settings *)
Section Settings.
Implicit Types (c : config) (paths : list string).

(** The type the first path with backoff settings asks for. *)
Definition configured_type c paths : result go_error string :=
  match head (List.filter (λ p, IsSet c (backoff_key p)) paths) with
  | None => Ok "default"%string
  | Some path =>
      if IsSet c (backoff_type_key path) then GetString c (backoff_type_key path)
      else Ok "custom"%string
  end.

Lemma backoff_type_app c ps qs typ :
  backoff_type c (ps ++ qs) typ = res_bind (backoff_type c ps typ) (backoff_type c qs).
Proof.
  revert typ. induction ps as [|p ps IH]; intros typ; [done|]. simpl.
  repeat case_match; auto.
Qed.

Lemma backoff_type_first c paths :
  Forall (λ p, IsSet c (backoff_type_key p) = true → ∃ t, GetString c (backoff_type_key p) = Ok t) paths →
  backoff_type c (reverse paths) "default" = configured_type c paths.
Proof.
  unfold configured_type. induction 1 as [|p paths Hp Hps IH]; [done|].
  rewrite reverse_cons backoff_type_app IH. simpl.
  destruct (IsSet c (backoff_key p)); simpl.
  - assert (∃ t, configured_type c paths = Ok t) as [t Ht].
    { unfold configured_type. destruct (List.filter _ paths) as [|q l] eqn:Hl; [by eexists|]. simpl.
      assert (In q (q :: l)) as Hq by by left.
      rewrite -Hl filter_In in Hq. destruct Hq as [Hq _]. apply list_elem_of_In in Hq.
      rewrite Forall_forall in Hps. specialize (Hps q Hq).
      destruct (IsSet c (backoff_type_key q)); [by apply Hps | by eexists]. }
    unfold configured_type in Ht. rewrite Ht. simpl.
    destruct (IsSet c (backoff_type_key p)); [|done]. destruct (Hp eq_refl) as [t' ->]. done.
  - destruct (head _) as [q|]; [|done]. by destruct (if IsSet c _ then _ else _).
Qed.

(** ReadBackoffSettings takes the type from the first path (the path "exec"
    comes last) that has backoff settings; a predefined type gives its settings
    without a look at any other value, every other one the settings of the first
    path with the other paths as defaults. *)
Theorem ReadBackoffSettings_correct c path paths typ :
  Forall (λ p, IsSet c (backoff_type_key p) = true → ∃ t, GetString c (backoff_type_key p) = Ok t)
    ((path :: paths) ++ ["exec"%string]) →
  configured_type c ((path :: paths) ++ ["exec"%string]) = Ok typ →
  match predefined !! typ with
  | Some settings => ReadBackoffSettings c (path :: paths) = Ok settings
  | None =>
      typ ∉ ["api"; "once"; "infinite"]%string ∧
      match UnmarshalKey c (backoff_key path) (backoff_key <$> paths ++ ["exec"%string]) with
      | Ok settings => ReadBackoffSettings c (path :: paths) = Ok settings
      | Err err => ∃ msg, ReadBackoffSettings c (path :: paths) = Err (EWrap msg err)
      end
  end.
Proof.
  intros Hget Htyp. unfold ReadBackoffSettings. rewrite (backoff_type_first c _ Hget) Htyp. simpl.
  destruct (predefined !! typ) as [st|] eqn:Hp; [done|]. split.
  - intros Hin. repeat (apply elem_of_cons in Hin as [->|Hin]; [by vm_compute in Hp|]).
    by apply elem_of_nil in Hin.
  - destruct (UnmarshalKey _ _ _) as [st|err]; [done | by eexists].
Qed.

Definition sample_config : config := {|
  IsSet k := bool_decide (k ∈ ["exec.backoff"; "exec.backoff.type"; "db.backoff"]%string);
  GetString _ := Ok "once"%string;
  UnmarshalKey _ _ := Err (EMsg "not modelled");
|}.

Lemma ReadBackoffSettings_correct_witness :
  MaxAttempts <$> (match ReadBackoffSettings sample_config ["kvstore"%string] with
                   | Ok st => Some st | Err _ => None end) = Some 1%Z.
Proof.
  pose proof (ReadBackoffSettings_correct sample_config "kvstore" [] "once") as H.
  assert (predefined !! "once"%string = Some {| CancelDelay := 0; InitialInterval := 0; MaxAttempts := 1;
    MaxElapsedTime := 0; MaxInterval := 0 |}) as Hp by (vm_compute; reflexivity).
  rewrite Hp in H. rewrite H; [|reflexivity | reflexivity].
  constructor; [by eexists|]. constructor; [by eexists | constructor].
Defined.
End Settings.

(** ** Canceled requests *)

(** An error with what it wraps: a value that is compared by identity, an error
    with [Unwrap() error], one with [Unwrap() []error] as [errors.Join] makes it,
    and a multierror.Error of hashicorp. *)
Inductive error :=
| EValue (id : nat)
| EWrapped (msg : string) (err : error)
| EJoined (errs : list error)
| EMulti (errs : list error).

Fixpoint error_size (err : error) : nat :=
  match err with
  | EValue _ => 1
  | EWrapped _ err => S (error_size err)
  | EJoined errs | EMulti errs => S (sum_list_with error_size errs)
  end.

(** [errors.Is] for a target that is a value. *)
Fixpoint errors_Is (target : nat) (err : error) : bool :=
  match err with
  | EValue id => bool_decide (id = target)
  | EWrapped _ err => errors_Is target err
  | EJoined errs | EMulti errs => existsb (errors_Is target) errs
  end.

(** [errors.As] for a target of type multierror.Error. *)
Fixpoint errors_As_multierror (err : error) : option (list error) :=
  match err with
  | EValue _ => None
  | EWrapped _ err => errors_As_multierror err
  | EJoined errs =>
      (fix first (errs : list error) : option (list error) :=
         match errs with
         | [] => None
         | err :: errs =>
             match errors_As_multierror err with
             | Some found => Some found
             | None => first errs
             end
         end) errs
  | EMulti errs => Some errs
  end.

Definition context_Canceled : nat := 0.
Definition context_DeadlineExceeded : nat := 1.
Definition RequestCanceledError : nat := 2.

(** [pkg/exec/error_canceled.go:78-82] isError *)
Definition isError (target : nat) (err : error) : bool := errors_Is target err.

(** [pkg/exec/error_canceled.go:28-32] requestCancelChecks *)
Definition requestCancelChecks : list (error → bool) :=
  [isError context_Canceled; isError context_DeadlineExceeded; isError RequestCanceledError].

(** [pkg/exec/error_canceled.go:34-36] AddRequestCancelCheck *)
Definition AddRequestCancelCheck (check : error → bool) (cs : list (error → bool)) : list (error → bool) :=
  cs ++ [check].

(** [pkg/exec/error_canceled.go:40-76] IsRequestCanceled with a bound on the depth *)
Fixpoint IsRequestCanceled_upto (fuel : nat) (cs : list (error → bool)) (err : error) : bool :=
  match fuel with
  | 0 => false
  | S fuel =>
      let all errs := forallb (IsRequestCanceled_upto fuel cs) errs && (0 <? length errs) in
      match err with
      | EJoined errs => all errs
      | _ =>
          match errors_As_multierror err with
          | Some errs => all errs
          | None => existsb (λ check, check err) cs
          end
      end
  end.

(** [pkg/exec/error_canceled.go:40-76] IsRequestCanceled *)
Definition IsRequestCanceled (cs : list (error → bool)) (err : error) : bool :=
  IsRequestCanceled_upto (error_size err) cs err.

(** [pkg/exec/error_canceled.go:18-24] CheckRequestCanceled *)
Definition CheckRequestCanceled (cs : list (error → bool)) (err : error) : ErrorType :=
  if IsRequestCanceled cs err then ErrorTypePermanent else ErrorTypeUnknown.

(** What the documentation of IsRequestCanceled promises: the error holds at
    least one error and nothing but cancellations. *)
Fixpoint only_canceled (err : error) : bool :=
  match err with
  | EValue id => bool_decide (id ∈ [context_Canceled; context_DeadlineExceeded; RequestCanceledError])
  | EWrapped _ err => only_canceled err
  | EJoined errs | EMulti errs => forallb only_canceled errs && (0 <? length errs)
  end.

(** No joined errors inside a wrapped error. *)
Fixpoint joins_outside (err : error) : bool :=
  match err with
  | EValue _ => true
  | EWrapped _ err => match err with EJoined _ => false | _ => joins_outside err end
  | EJoined errs | EMulti errs => forallb joins_outside errs
  end.

Lemma As_multierror_spec err :
  joins_outside err = true → (∀ errs, err ≠ EJoined errs) →
  match errors_As_multierror err with
  | Some errs =>
      forallb joins_outside errs = true ∧ sum_list_with error_size errs < error_size err ∧
      only_canceled err = forallb only_canceled errs && (0 <? length errs)
  | None => existsb (λ check, check err) requestCancelChecks = only_canceled err
  end.
Proof.
  induction err as [id|msg err IH|errs|errs]; intros Hj Hne; simpl.
  - unfold isError, errors_Is. by repeat case_bool_decide; set_solver.
  - simpl in Hj. assert (∀ errs, err ≠ EJoined errs) as Hn by (by intros errs ->).
    assert (joins_outside err = true) as Hj' by (by destruct err).
    specialize (IH Hj' Hn). destruct (errors_As_multierror err); [|exact IH]. destruct IH as (?&?&?). split_and!; [done | lia | done].
  - by destruct (Hne errs).
  - split_and!; [done | lia | done].
Qed.

Lemma elem_of_sum_size err errs : err ∈ errs → error_size err ≤ sum_list_with error_size errs.
Proof. induction 1; simpl; lia. Qed.

Lemma IsRequestCanceled_upto_enough n err :
  error_size err ≤ n → joins_outside err = true →
  IsRequestCanceled_upto n requestCancelChecks err = only_canceled err.
Proof.
  revert err. induction n as [|n IH]; intros err Hn Hj; [destruct err; simpl in *; lia|].
  assert (∀ errs, sum_list_with error_size errs ≤ n → forallb joins_outside errs = true →
    forallb (IsRequestCanceled_upto n requestCancelChecks) errs = forallb only_canceled errs) as Hall.
  { intros errs Hs Hj'. apply eq_bool_prop_intro. rewrite !forallb_True !Forall_forall.
    rewrite forallb_forall in Hj'. 
    assert (∀ e, e ∈ errs → IsRequestCanceled_upto n requestCancelChecks e = only_canceled e) as He.
    { intros e Hin. apply IH; [by pose proof (elem_of_sum_size e errs Hin); lia|].
      apply Hj'. by apply list_elem_of_In. }
    split; intros H e Hin; specialize (H e Hin); rewrite He // in H |- *. }
  pose proof (As_multierror_spec err Hj) as Has. simpl.
  destruct err as [id|msg err|errs|errs]; [| | by rewrite Hall //; simpl in Hn; lia|];
    specialize (Has ltac:(done)); (case_match; [|done]); destruct Has as (Hj' & Hs & ->);
    rewrite Hall //; lia.
Qed.

(** IsRequestCanceled answers what it documents, that the error holds
    cancellations and nothing else, for every error whose joined errors are not
    inside a wrapped one; but an error that wraps joined errors counts as canceled
    as soon as one of them is, whatever the others are. *)
Theorem IsRequestCanceled_correct :
  (∀ err, joins_outside err = true → IsRequestCanceled requestCancelChecks err = only_canceled err) ∧
  (∀ msg others,
     IsRequestCanceled requestCancelChecks
       (EWrapped msg (EJoined (EValue context_Canceled :: (EValue <$> others)))) = true).
Proof.
  split; [intros err Hj; by apply IsRequestCanceled_upto_enough|].
  intros msg others. unfold IsRequestCanceled. simpl.
  match goal with |- context [match ?m with Some _ => _ | None => _ end] =>
    assert (m = None) as -> by (by induction others) end.
  done.
Qed.

Example IsRequestCanceled_hides_error :
  let err := EWrapped "could not write" (EJoined [EValue context_Canceled; EValue 7]) in
  IsRequestCanceled requestCancelChecks err = true ∧ only_canceled err = false.
Proof. by vm_compute. Qed.

Lemma IsRequestCanceled_correct_witness :
  IsRequestCanceled requestCancelChecks (EJoined [EValue context_Canceled; EValue 7]) = false ∧
  IsRequestCanceled requestCancelChecks
    (EWrapped "could not write" (EJoined [EValue context_Canceled; EValue 7])) = true.
Proof.
  destruct IsRequestCanceled_correct as [Hcorrect Hhides]. split.
  - rewrite Hcorrect; reflexivity.
  - apply (Hhides "could not write" [7]).
Defined.
