(* ===== verification/ExecContext.v ===== *)
(** * pkg/exec/context.go: contexts that are canceled later, or stopped

    WithDelayedCancelContext and WithStoppableDeadlineContext run a goroutine that decides when
    the context is canceled.  The model is a transition system: the steps of the goroutine
    between two points at which it can wait, and the steps of everything else: time
    passes, the parent is canceled, stop is called.  A select with several cases that are ready has
    one step for each of them. *)
From S2P Require Import Prelude Exec.

Open Scope Z_scope.

(** What the goroutine of a context does next. *)
Inductive goroutine :=
| GStart                       (* at the first line of the handler *)
| GArm (waitTime : Z)          (* before the deadline's timer is created *)
| GSelect                      (* at the select of the delayed context *)
| GTimer (due : Z)             (* at a select with a timer *)
| GReturn (shouldClose : bool) (err : option error) (* the handler has returned *)
| GClose                       (* the error is stored, done not yet closed *)
| GDone.                       (* stopWg is done *)

(** The two handlers. *)
Inductive handler := Delayed (delay : Z) | Deadlined (deadline : Z).

(** [pkg/exec/context.go:32-40] stoppableContext, with what it depends on: the time, the parent ([None]: not done, else its Err and
    the time it was canceled at), and its goroutine *)
Record stoppableContext := {
  time : Z;
  parent : option (error * Z);
  pc : goroutine;
  done : bool;
  err : option error;
  stopped : bool
}.

Definition with_pc (g : goroutine) (c : stoppableContext) : stoppableContext :=
  {| time := time c; parent := parent c; pc := g; done := done c; err := err c; stopped := stopped c |}.

(** [pkg/exec/context.go:42-72] newStoppableContext, before its goroutine has run *)
Definition newStoppableContext (now : Z) (parent : option (error * Z)) : stoppableContext :=
  {| time := now; parent := parent; pc := GStart; done := false; err := None; stopped := false |}.

(** [pkg/exec/context.go:112-116] the deadline of WithDelayedCancelContext *)
Definition delayed_deadline (parentDeadline : option Z) (delay : Z) : option Z := (λ d, d + delay) <$> parentDeadline.

(** [pkg/exec/context.go:144-147] the deadline of WithStoppableDeadlineContext *)
Definition stoppable_deadline (parentDeadline : option Z) (deadline : Z) : Z :=
  match parentDeadline with Some p => if bool_decide (p < deadline) then p else deadline | None => deadline end.

(** [pkg/exec/context.go:118-137] the handler of WithDelayedCancelContext, one step of it *)
Inductive delayed_step (delay : Z) (c : stoppableContext) : goroutine → Prop :=
| delayed_start : pc c = GStart → delayed_step delay c GSelect
| delayed_stopped : pc c = GSelect → stopped c = true → delayed_step delay c (GReturn false None)
| delayed_parent e t : pc c = GSelect → parent c = Some (e, t) → delayed_step delay c (GTimer (time c + delay))
| delayed_timer_stopped e t due : pc c = GTimer due → stopped c = true → parent c = Some (e, t) → delayed_step delay c (GReturn true (Some e))
| delayed_timer_fired e t due : pc c = GTimer due → due ≤ time c → parent c = Some (e, t) → delayed_step delay c (GReturn true (Some e)).

(** [pkg/exec/context.go:149-163] the handler of WithStoppableDeadlineContext, one step of it *)
Inductive deadline_step (deadline : Z) (c : stoppableContext) : goroutine → Prop :=
| deadline_start : pc c = GStart → deadline_step deadline c (GArm (deadline - time c))
| deadline_arm w : pc c = GArm w → deadline_step deadline c (GTimer (time c + w))
| deadline_stopped due : pc c = GTimer due → stopped c = true → deadline_step deadline c (GReturn false None)
| deadline_parent e t due : pc c = GTimer due → parent c = Some (e, t) → deadline_step deadline c (GReturn true (Some e))
| deadline_fired due : pc c = GTimer due → due ≤ time c → deadline_step deadline c (GReturn true (Some (EValue context_DeadlineExceeded))).

(** [pkg/exec/context.go:59-69] what the goroutine of newStoppableContext does with the handler's answer *)
Inductive finish_step : stoppableContext → stoppableContext → Prop :=
| finish_store c close e :
    pc c = GReturn close e →
    finish_step c {| time := time c; parent := parent c; pc := if close then GClose else GDone; done := done c;
                     err := match e with Some e => Some e | None => err c end; stopped := stopped c |}
| finish_close c :
    pc c = GClose →
    finish_step c {| time := time c; parent := parent c; pc := GDone; done := true; err := err c; stopped := stopped c |}.

Inductive goroutine_step (h : handler) (c : stoppableContext) : stoppableContext → Prop :=
| step_delayed delay g : h = Delayed delay → delayed_step delay c g → goroutine_step h c (with_pc g c)
| step_deadline d g : h = Deadlined d → deadline_step d c g → goroutine_step h c (with_pc g c)
| step_finish c' : finish_step c c' → goroutine_step h c c'.

Inductive environment_step (c : stoppableContext) : stoppableContext → Prop :=
| env_time t :
    time c ≤ t →
    environment_step c {| time := t; parent := parent c; pc := pc c; done := done c; err := err c; stopped := stopped c |}
| env_parent e :
    parent c = None →
    environment_step c {| time := time c; parent := Some (e, time c); pc := pc c; done := done c; err := err c; stopped := stopped c |}
| env_stop :
    environment_step c {| time := time c; parent := parent c; pc := pc c; done := done c; err := err c; stopped := true |}.

Definition step (h : handler) (c c' : stoppableContext) : Prop := goroutine_step h c c' ∨ environment_step c c'.

(** [pkg/exec/context.go:97-103] stoppableContext.stop: it has closed stopped, and returns when the goroutine is done *)
Definition stop_returned (c : stoppableContext) : bool := stopped c && match pc c with GDone => true | _ => false end.

(** [pkg/exec/context.go:74-80] stoppableContext.Done and Err *)
Definition Done (c : stoppableContext) : bool := done c.
Definition Err_ (c : stoppableContext) : option error := err c.

(** [pkg/exec/context.go:199-206] IsContextDone *)
Definition IsContextDone (c : stoppableContext) : bool * option error := if Done c then (true, Err_ c) else (false, None).

(** ** A context that is canceled by hand *)

(** [pkg/exec/context.go:166-170] manualCancelContext *)
Record manualCancelContext := { m_done : bool; m_err : option error }.

(** [pkg/exec/context.go:182-197] WithManualCancelContext, and its cancel function *)
Definition WithManualCancelContext : manualCancelContext := {| m_done := false; m_err := None |}.
Definition cancel (c : manualCancelContext) : manualCancelContext :=
  if m_done c then c else {| m_done := true; m_err := Some (EValue context_Canceled) |}.

(** ** What holds of every context *)
Section Contexts.
Context (h : handler).
Implicit Types (c : stoppableContext).

(** The grounds for canceling a context with the error [e]. *)
Definition grounds c (e : error) : Prop :=
  match h with
  | Delayed delay => ∃ t, parent c = Some (e, t) ∧ (t + delay ≤ time c ∨ stopped c = true)
  | Deadlined d => (∃ t, parent c = Some (e, t)) ∨ (e = EValue context_DeadlineExceeded ∧ d ≤ time c)
  end.

Definition pc_ok c : Prop :=
  match pc c with
  | GStart => True
  | GArm w => match h with Delayed _ => False | Deadlined d => d ≤ time c + w end
  | GSelect => match h with Delayed _ => True | Deadlined _ => False end
  | GTimer due =>
      match h with
      | Delayed delay => ∃ e t, parent c = Some (e, t) ∧ t + delay ≤ due
      | Deadlined d => d ≤ due
      end
  | GReturn true (Some e) => grounds c e
  | GReturn true None => False
  | GReturn false e => e = None ∧ stopped c = true
  | GClose => ∃ e, err c = Some e ∧ grounds c e
  | GDone => done c = true ∨ stopped c = true
  end.

Definition context_ok c : Prop :=
  pc_ok c ∧ (∀ e t, parent c = Some (e, t) → t ≤ time c) ∧
  (done c = true → pc c = GDone ∧ ∃ e, err c = Some e ∧ grounds c e) ∧
  (∀ e, err c = Some e → pc c = GClose ∨ (pc c = GDone ∧ done c = true)).

Lemma grounds_env c c' e : environment_step c c' → grounds c e → grounds c' e.
Proof.
  intros Hs. unfold grounds. destruct h as [delay|d].
  - intros (t & Hp & Hor). destruct Hs; simpl in *.
    + exists t. split; [done|]. destruct Hor; [left; lia|by right].
    + congruence.
    + exists t. split; [done|by right].
  - destruct Hs; simpl in *; [intros [?|[? ?]]; [by left|right; split; [done|lia]]|intros [[? ?]|?]; [congruence|by right]|done].
Qed.

Lemma environment_ok c c' : context_ok c → environment_step c c' → context_ok c'.
Proof.
  intros (Hpc & Hpar & Hdone & Herr) Hs.
  assert (Hg : ∀ e, grounds c e → grounds c' e) by (intros e; by apply grounds_env).
  assert (Hsame : pc c' = pc c ∧ done c' = done c ∧ err c' = err c ∧ time c ≤ time c' ∧ (stopped c = true → stopped c' = true) ∧
    (∀ e t, parent c = Some (e, t) → parent c' = Some (e, t))).
  { destruct Hs; simpl; split_and!; try done; try lia. intros. congruence. }
  destruct Hsame as (E1 & E2 & E3 & Ht & Hst & Hp). split_and!.
  - unfold pc_ok in *. rewrite E1. destruct (pc c) as [|w| |due|[|] [e|]| |]; try done.
    + destruct h; [done|lia].
    + destruct h; [|done]. destruct Hpc as (e & t & ? & ?). exists e, t. auto.
    + by apply Hg.
    + destruct Hpc as [? ?]. auto.
    + destruct Hpc as [? ?]. auto.
    + rewrite E3. destruct Hpc as (e & ? & ?). exists e. auto.
    + rewrite E2. destruct Hpc; auto.
  - intros e t. destruct Hs; simpl in *; [intros Hpe; specialize (Hpar e t Hpe); lia|intros [= _ <-]; lia|by apply Hpar].
  - rewrite E1 E2 E3. intros Hd. destruct (Hdone Hd) as (? & e & ? & ?). split; [done|]. exists e. auto.
  - intros e. rewrite E1 E2 E3. apply Herr.
Qed.

Lemma goroutine_ok c c' : context_ok c → goroutine_step h c c' → context_ok c'.
Proof.
  intros (Hpc & Hpar & Hdone & Herr) Hs. unfold pc_ok in Hpc.
  assert (Hrun : ∀ g, pc c ≠ GDone → pc c ≠ GClose → pc_ok (with_pc g c) → context_ok (with_pc g c)).
  { intros g Hn1 Hn2 Hg. split_and!; [done|done| |].
    - intros Hd. by destruct (Hdone Hd) as [? _].
    - intros e He. destruct (Herr e He) as [?|[? _]]; done. }
  destruct Hs as [delay g Hh Hstep|d g Hh Hstep|c' Hstep].
  - destruct Hstep as [Hp|Hp Hst|e t Hp Hpe|e t due Hp Hst Hpe|e t due Hp Hle Hpe]; (apply Hrun; [congruence|congruence|]); rewrite Hp in Hpc; unfold pc_ok, grounds; simpl.
    + by rewrite Hh.
    + done.
    + rewrite Hh. exists e, t. split; [done|]. specialize (Hpar e t Hpe). lia.
    + rewrite Hh. exists t. auto.
    + rewrite Hh in Hpc |- *. exists t. split; [done|]. left. destruct Hpc as (e' & t' & Hpe' & Hdue). rewrite Hpe in Hpe'. injection Hpe' as <- <-. lia.
  - destruct Hstep as [Hp|w Hp|due Hp Hst|e t due Hp Hpe|due Hp Hle]; (apply Hrun; [congruence|congruence|]); rewrite Hp in Hpc; unfold pc_ok, grounds; simpl; rewrite ?Hh in Hpc |- *.
    + lia.
    + lia.
    + done.
    + left. by exists t.
    + right. split; [done|lia].
  - destruct Hstep as [c close e Hp|c Hp]; rewrite Hp in Hpc.
    + assert (He : err c = None) by (destruct (err c) as [e'|]; [destruct (Herr e' eq_refl) as [?|[? _]]; congruence|done]).
      assert (Hd : done c = false) by (destruct (done c); [by destruct (Hdone eq_refl); congruence|done]).
      destruct close; [destruct e as [e|]; [|done]|destruct Hpc as [-> Hst]]; split_and!; simpl; try done; try congruence.
      * by exists e.
      * by left.
      * by right.
    + destruct Hpc as (e & He & Hg). split_and!; simpl; try done; [by left|intros _; split; [done|by exists e]|by right].
Qed.

Lemma new_context_ok now p : (∀ e t, p = Some (e, t) → t ≤ now) → context_ok (newStoppableContext now p).
Proof. intros Hp. by split_and!. Qed.

Lemma reachable_ok now p c : (∀ e t, p = Some (e, t) → t ≤ now) → rtc (step h) (newStoppableContext now p) c → context_ok c.
Proof.
  intros Hp. apply rtc_invariant; [|by apply new_context_ok].
  intros c1 c2 Hok [Hs|Hs]; [by eapply goroutine_ok|by eapply environment_ok].
Qed.

(** A context is never canceled without grounds: with the error of the parent, and for the delayed context not before the
    parent was canceled and the delay has passed or stop was called; or, for the
    context with a deadline, after the deadline.  Whoever sees Done closed sees the error. *)
Theorem canceled_with_grounds now p c :
  (∀ e t, p = Some (e, t) → t ≤ now) → rtc (step h) (newStoppableContext now p) c → Done c = true →
  ∃ e, Err_ c = Some e ∧ IsContextDone c = (true, Some e) ∧ grounds c e.
Proof.
  intros Hp Hr Hd. destruct (reachable_ok now p c Hp Hr) as (_ & _ & Hdone & _). destruct (Hdone Hd) as (_ & e & He & Hg).
  exists e. unfold IsContextDone, Err_. by rewrite Hd He.
Qed.

(** How far the goroutine is from its end. *)
Definition remaining c : nat :=
  match pc c with GStart => 6 | GArm _ => 5 | GSelect => 5 | GTimer _ => 4 | GReturn _ _ => 2 | GClose => 1 | GDone => 0 end.

Lemma goroutine_decreases c c' : goroutine_step h c c' → (remaining c' < remaining c)%nat.
Proof.
  intros [delay g _ Hs|d g _ Hs|c1 Hs]; unfold remaining; destruct Hs as [].
  all: try match goal with H : pc _ = _ |- _ => rewrite H end; simpl; try lia.
  match goal with |- context [if ?b then _ else _] => destruct b end; lia.
Qed.

Lemma nsteps_bound n c c' : nsteps (goroutine_step h) n c c' → (n + remaining c' ≤ remaining c)%nat.
Proof. induction 1 as [c|n c c1 c2 Hs _ IH]; [done|]. pose proof (goroutine_decreases c c1 Hs). lia. Qed.

Lemma goroutine_stopped c c' : goroutine_step h c c' → stopped c' = stopped c.
Proof. by intros [delay g _ Hs|d g _ Hs|c1 []]. Qed.

(** While stop waits, the goroutine can take a step, and it is at its end after six steps at most. *)
Lemma stopped_goroutine_runs c : context_ok c → stopped c = true → pc c ≠ GDone → ∃ c', goroutine_step h c c'.
Proof.
  intros (Hpc & _) Hst Hn. unfold pc_ok in Hpc. destruct (pc c) as [|w| |due|close e| |] eqn:Hp; [| | | | | |done].
  - destruct h as [delay|d] eqn:Hh; eexists.
    + eapply step_delayed; [done|by apply delayed_start].
    + eapply step_deadline; [done|by apply deadline_start].
  - destruct h as [delay|d] eqn:Hh; [done|]. eexists. eapply step_deadline; [done|by apply deadline_arm].
  - destruct h as [delay|d] eqn:Hh; [|done]. eexists. eapply step_delayed; [done|by apply delayed_stopped].
  - destruct h as [delay|d] eqn:Hh.
    + destruct Hpc as (e & t & Hpe & _). eexists. eapply step_delayed; [done|by eapply delayed_timer_stopped].
    + eexists. eapply step_deadline; [done|by eapply deadline_stopped].
  - eexists. apply step_finish. by eapply finish_store.
  - eexists. apply step_finish. by eapply finish_close.
Qed.

(** C40: Stop returns, without waiting for the time or the parent: from every state that can be reached in which it was called, steps
    of the goroutine alone lead to its return, no run of these steps is longer than six, and after it nothing changes the
    context any more: it is canceled now or never. *)
Theorem stop_returns now p c :
  (∀ e t, p = Some (e, t) → t ≤ now) → rtc (step h) (newStoppableContext now p) c → stopped c = true →
  (∃ c', rtc (goroutine_step h) c c' ∧ stop_returned c' = true) ∧
  (∀ n c', nsteps (goroutine_step h) n c c' → (n ≤ 6)%nat) ∧
  (stop_returned c = true → ∀ c', rtc (step h) c c' → Done c' = Done c ∧ Err_ c' = Err_ c).
Proof.
  intros Hp Hr Hst. pose proof (reachable_ok now p c Hp Hr) as Hok. split_and!.
  - clear Hr. remember (remaining c) as n eqn:Hn. revert c Hok Hst Hn. induction (lt_wf n) as [n _ IH]; intros c Hok Hst ->.
    destruct (decide (stop_returned c = true)) as [|Hnot]; [by exists c|].
    destruct (stopped_goroutine_runs c Hok Hst) as (c1 & Hs).
    { intros Hpc. apply Hnot. unfold stop_returned. by rewrite Hst Hpc. }
    destruct (IH (remaining c1)) with (c := c1) as (c2 & Hr2 & Hret); [by apply goroutine_decreases|by eapply goroutine_ok|by rewrite (goroutine_stopped _ _ Hs)|done|].
    exists c2. split; [by eapply rtc_l|done].
  - intros n c' Hn%nsteps_bound.
    assert (remaining c ≤ 6)%nat by (unfold remaining; destruct (pc c); lia). lia.
  - intros Hret c' Hr'. unfold stop_returned in Hret. assert (Hpc : pc c = GDone) by (rewrite Hst in Hret; by destruct (pc c)).
    assert (Hinv : pc c' = GDone ∧ Done c' = Done c ∧ Err_ c' = Err_ c); [|tauto].
    refine (rtc_invariant (step h) (λ x, pc x = GDone ∧ Done x = Done c ∧ Err_ x = Err_ c) c c' _ _ Hr'); [|done].
    intros x y (Hx & Hd & He) [Hs|Hs].
    + destruct Hs as [? ? _ Hs|? ? _ Hs|? Hs]; destruct Hs; congruence.
    + destruct Hs; done.
Qed.
End Contexts.

(** The parent was canceled before stop was called, but the context is never canceled: the first select finds both
    channels ready and takes the one of stop. *)
Lemma stop_can_outrun_cancel delay e :
  ∃ c, rtc (step (Delayed delay)) (newStoppableContext 0 None) c ∧
    parent c = Some (e, 0) ∧ stop_returned c = true ∧ Done c = false.
Proof.
  eexists. split.
  - eapply rtc_l; [left; eapply step_delayed; [done|by apply delayed_start]|].
    eapply rtc_l; [right; by apply (env_parent _ e)|]. eapply rtc_l; [right; apply env_stop|].
    eapply rtc_l; [left; eapply step_delayed; [done|by apply delayed_stopped]|].
    eapply rtc_l; [left; apply step_finish; by eapply finish_store|]. apply rtc_refl.
  - done.
Qed.

(** A delayed context of which the parent is canceled at 5 and that is stopped at 7, before the delay of 10 is over. *)
Lemma sample_context_run :
  ∃ c, rtc (step (Delayed 10)) (newStoppableContext 0 None) c ∧ stopped c = true ∧ stop_returned c = true ∧ Done c = true ∧ time c = 7.
Proof.
  eexists. split.
  - eapply rtc_l; [left; eapply step_delayed; [done|by apply delayed_start]|].
    eapply rtc_l; [right; by apply (env_time _ 5)|]. eapply rtc_l; [right; by apply (env_parent _ (EValue context_Canceled))|].
    eapply rtc_l; [left; eapply step_delayed; [done|by eapply delayed_parent]|].
    eapply rtc_l; [right; by apply (env_time _ 7)|]. eapply rtc_l; [right; apply env_stop|].
    eapply rtc_l; [left; eapply step_delayed; [done|by eapply delayed_timer_stopped]|].
    eapply rtc_l; [left; apply step_finish; by eapply finish_store|].
    eapply rtc_l; [left; apply step_finish; by apply finish_close|]. apply rtc_refl.
  - done.
Qed.

Lemma canceled_with_grounds_witness : ∃ c e, Done c = true ∧ Err_ c = Some e ∧ grounds (Delayed 10) c e.
Proof.
  destruct sample_context_run as (c & Hr & _ & _ & Hd & _).
  destruct (canceled_with_grounds (Delayed 10) 0 None c ltac:(done) Hr Hd) as (e & He & _ & Hg). by exists c, e.
Defined.

Lemma stop_returns_witness : ∃ c, stop_returned c = true ∧ ∀ c', rtc (step (Delayed 10)) c c' → Done c' = Done c.
Proof.
  destruct sample_context_run as (c & Hr & Hst & Hret & _).
  destruct (stop_returns (Delayed 10) 0 None c ltac:(done) Hr Hst) as (_ & _ & Hsame). exists c. split; [done|].
  intros c' Hr'. by destruct (Hsame Hret c' Hr').
Defined.
