(* ===== verification/Kernel.v ===== *)
(** * pkg/kernel: running the modules

    The running kernel as a transition system: the main goroutine that boots the
    stages and waits for them, a goroutine per stage that starts its modules, the
    goroutines of the modules, the goroutine that stops the stages, the one that
    kills the kernel, and the signals.  One transition is what a goroutine does
    between two points where it can wait.  Module code, health checks, timeouts
    and signals are the environment; a module that ends its goroutine with
    runtime.Goexit, a panic of the kernel itself, the middlewares and the
    shutdown handlers are left out. *)
From S2P Require Import Prelude.

(** ** Errors of modules *)

(** An error as the kernel sees it: whether it is or wraps ErrKernelStopping and
    whether exec.IsRequestCanceled holds for it. *)
Record kernel_error := { is_stopping : bool; is_canceled : bool; message : string }.

#[export] Instance kernel_error_eq_dec : EqDecision kernel_error.
Proof. solve_decision. Defined.

(** [pkg/kernel/stage.go:17] ErrKernelStopping *)
Definition ErrKernelStopping : kernel_error :=
  {| is_stopping := true; is_canceled := false; message := "stopping kernel" |}.

Definition context_canceled : kernel_error :=
  {| is_stopping := false; is_canceled := true; message := "context canceled" |}.

Definition significant (err : kernel_error) : bool := negb (is_stopping err) && negb (is_canceled err).

(** ** State *)

(** [pkg/kernel/module.go:78-85] moduleConfig *)
Record moduleConfig := { essential : bool; background : bool; mc_stage : Z }.

#[export] Instance moduleConfig_eq_dec : EqDecision moduleConfig.
Proof. solve_decision. Defined.

(** Where a module's goroutine is: not started, in the module's Run, after it
    with the error stored, about to call Stop, about to return to the coffin. *)
Inductive phase := Idle | Running | Exited | Stopping | Returning | Terminated.

#[export] Instance phase_eq_dec : EqDecision phase.
Proof. solve_decision. Defined.

(** [pkg/kernel/module.go:66-75] moduleState *)
Record moduleState := { config : moduleConfig; ms_phase : phase; ms_err : option kernel_error }.

(** A coffin: alive, or dying with the first error it was killed with. *)
Inductive coffin := Alive | Dying (reason : option kernel_error).

(** The goroutine of a stage that starts the modules. *)
Inductive spawner := NotStarted | Spawning | Spawned | SpawnerDone.

#[export] Instance spawner_eq_dec : EqDecision spawner.
Proof. solve_decision. Defined.

(** [pkg/kernel/stage.go:28-41] stage *)
Record stage := {
  poisoned : bool;
  st_spawner : spawner;
  st_running : bool;
  cfn : coffin;
  st_err : option kernel_error;
  terminated : bool;
  modules : gmap string moduleState;
}.

(** The main goroutine: about to run the next stage, waiting for a stage to get
    healthy, up and waiting for the stages to end, waiting for them to be
    stopped, about to leave with the exit code it read, done. *)
Inductive main_pc :=
| Boot (rest : list Z)
| WaitHealthy (i : Z) (rest : list Z)
| Up
| WaitStopped
| Leaving
| Closing (code : Z)
| Done.

(** [pkg/kernel/kernel.go:50-75] kernel: [stop_todo] is what the goroutine of
    Stop has left and whether it has killed the first of it *)
Record kernel := {
  stages : gmap Z stage;
  main : main_pc;
  stopping : bool;
  stop_todo : option (list Z * bool);
  foregroundModules : Z;
  killer_armed : bool;
  forcing : bool;
  exitCode : Z;
  exit_calls : list Z;
}.

Definition ExitCodeOk : Z := 0.
Definition ExitCodeErr : Z := 1.
Definition ExitCodeForced : Z := 12.

(** ** Record updates *)

Definition with_stages (f : gmap Z stage → gmap Z stage) (k : kernel) : kernel :=
  {| stages := f (stages k); main := main k; stopping := stopping k; stop_todo := stop_todo k;
     foregroundModules := foregroundModules k; killer_armed := killer_armed k; forcing := forcing k;
     exitCode := exitCode k; exit_calls := exit_calls k |}.

Definition with_main (pc : main_pc) (k : kernel) : kernel :=
  {| stages := stages k; main := pc; stopping := stopping k; stop_todo := stop_todo k;
     foregroundModules := foregroundModules k; killer_armed := killer_armed k; forcing := forcing k;
     exitCode := exitCode k; exit_calls := exit_calls k |}.

Definition with_stop (todo : list Z * bool) (k : kernel) : kernel :=
  {| stages := stages k; main := main k; stopping := stopping k; stop_todo := Some todo;
     foregroundModules := foregroundModules k; killer_armed := killer_armed k; forcing := forcing k;
     exitCode := exitCode k; exit_calls := exit_calls k |}.

Definition with_module (f : moduleState → moduleState) (n : string) (st : stage) : stage :=
  {| poisoned := poisoned st; st_spawner := st_spawner st; st_running := st_running st; cfn := cfn st;
     st_err := st_err st; terminated := terminated st; modules := alter f n (modules st) |}.

Definition with_spawner (sp : spawner) (running : bool) (st : stage) : stage :=
  {| poisoned := poisoned st; st_spawner := sp; st_running := running; cfn := cfn st;
     st_err := st_err st; terminated := terminated st; modules := modules st |}.

Definition with_cfn (c : coffin) (st : stage) : stage :=
  {| poisoned := poisoned st; st_spawner := st_spawner st; st_running := st_running st; cfn := c;
     st_err := st_err st; terminated := terminated st; modules := modules st |}.

Definition at_phase (p : phase) (ms : moduleState) : moduleState :=
  {| config := config ms; ms_phase := p; ms_err := ms_err ms |}.

Definition alter_stage (f : stage → stage) (i : Z) : kernel → kernel := with_stages (alter f i).

Definition alter_module (f : moduleState → moduleState) (i : Z) (n : string) : kernel → kernel :=
  alter_stage (with_module f n) i.

(** ** Coffins *)

(** [pkg/coffin/coffin.go:237-239] Coffin.Kill: the first error that is not nil
    stays the reason *)
Definition Kill (reason : option kernel_error) (c : coffin) : coffin :=
  match c with
  | Alive => Dying reason
  | Dying None => Dying reason
  | Dying (Some err) => Dying (Some err)
  end.

Definition Dead_module (ms : moduleState) : bool :=
  bool_decide (ms_phase ms = Terminated ∨ ms_phase ms = Idle).

(** [pkg/coffin/coffin.go:245-263] what Coffin.Wait waits for: all goroutines of the stage's coffin have finished *)
Definition all_finished (st : stage) : bool :=
  bool_decide (st_spawner st = SpawnerDone ∧ map_Forall (λ _ ms, Dead_module ms = true) (modules st)).

(** [pkg/coffin/coffin.go:149-214] the end of a goroutine of Coffin.Go or Coffin.Gof: an error
    kills the coffin, and so does the end of the last goroutine *)
Definition goroutine_ends (err : option kernel_error) (st : stage) : stage :=
  if bool_decide (err ≠ None) || all_finished st then with_cfn (Kill err (cfn st)) st else st.

(** ** Operations *)

(** [pkg/kernel/stages.go:33-45] stages.getIndices *)
Definition getIndices (ss : gmap Z stage) : list Z := merge_sort Z.le (map_to_list ss).*1.

Definition foreground (ms : moduleState) : bool := negb (background (config ms)).

(** [pkg/kernel/stages.go:18-31] stages.countForegroundModules *)
Definition countForegroundModules (ss : gmap Z stage) : Z :=
  map_fold (λ _ st n, map_fold (λ _ ms n, if foreground ms then n + 1 else n)%Z n (modules st)) 0%Z ss.

(** [pkg/kernel/kernel.go:260-277] kernel.killIfNotStopped *)
Definition killIfNotStopped (k : kernel) : kernel :=
  {| stages := stages k; main := main k; stopping := stopping k; stop_todo := stop_todo k;
     foregroundModules := foregroundModules k; killer_armed := true; forcing := forcing k;
     exitCode := exitCode k; exit_calls := exit_calls k |}.

(** [pkg/kernel/kernel.go:185-207] kernel.Stop *)
Definition Stop (k : kernel) : kernel :=
  killIfNotStopped
    (if stopping k then k
     else {| stages := stages k; main := main k; stopping := true;
             stop_todo := Some (reverse (getIndices (stages k)), false);
             foregroundModules := foregroundModules k; killer_armed := killer_armed k;
             forcing := forcing k; exitCode := exitCode k; exit_calls := exit_calls k |}).

(** [pkg/kernel/kernel.go:327-335] kernel.setExitCode *)
Definition setExitCode (code : Z) (k : kernel) : kernel :=
  {| stages := stages k; main := main k; stopping := stopping k; stop_todo := stop_todo k;
     foregroundModules := foregroundModules k; killer_armed := killer_armed k; forcing := forcing k;
     exitCode := if decide (exitCode k = ExitCodeForced) then exitCode k else code;
     exit_calls := exit_calls k |}.

(** [pkg/kernel/kernel.go:321-325] kernel.callExitHandler *)
Definition callExitHandler (code : Z) (k : kernel) : kernel :=
  {| stages := stages k; main := main k; stopping := stopping k; stop_todo := stop_todo k;
     foregroundModules := foregroundModules k; killer_armed := killer_armed k; forcing := forcing k;
     exitCode := exitCode k;
     exit_calls := match exit_calls k with [] => [code] | calls => calls end |}.

(** [pkg/kernel/kernel.go:279-293] kernel.forceExit up to the call of the handler *)
Definition forceExit (k : kernel) : kernel :=
  {| stages := stages k; main := main k; stopping := stopping k; stop_todo := stop_todo k;
     foregroundModules := foregroundModules k; killer_armed := killer_armed k; forcing := true;
     exitCode := ExitCodeForced; exit_calls := exit_calls k |}.

(** [pkg/kernel/kernel.go:292-292] the call of the handler in kernel.forceExit *)
Definition forced (k : kernel) : kernel :=
  callExitHandler ExitCodeForced
    {| stages := stages k; main := main k; stopping := stopping k; stop_todo := stop_todo k;
       foregroundModules := foregroundModules k; killer_armed := killer_armed k; forcing := false;
       exitCode := exitCode k; exit_calls := exit_calls k |}.

(** [pkg/kernel/stage.go:69-95] stage.run up to the health checks *)
Definition run_stage (st : stage) : stage :=
  {| poisoned := true; st_spawner := Spawning; st_running := st_running st; cfn := cfn st;
     st_err := st_err st; terminated := terminated st; modules := modules st |}.

(** [pkg/kernel/kernel.go:349-384] kernel.runModule: Run returned [err] or
    panicked with it *)
Definition module_exits (err : option kernel_error) (ms : moduleState) : moduleState :=
  {| config := config ms; ms_phase := Exited; ms_err := err |}.

(** [pkg/kernel/kernel.go:400-419] kernel.essentialModuleExited and
    kernel.foregroundModuleExited, and the Stop for an error in stage.run:
    whether the module's goroutine stops the kernel and the foreground count *)
Definition module_report (ms : moduleState) (count : Z) : bool * Z :=
  let failed := bool_decide (ms_err ms ≠ None) in
  if essential (config ms) then (true, count)
  else if background (config ms) then (failed, count)
  else (failed || (count - 1 =? 0)%Z, (count - 1)%Z).

(** [pkg/kernel/kernel.go:364-384] the deferred end of kernel.runModule, on the
    module [n] of stage [i]. *)
Definition module_reports (i : Z) (n : string) (ms : moduleState) (k : kernel) : kernel :=
  let '(stops, count) := module_report ms (foregroundModules k) in
  alter_module (at_phase (if stops then Stopping else Returning)) i n
    {| stages := stages k; main := main k; stopping := stopping k; stop_todo := stop_todo k;
       foregroundModules := count; killer_armed := killer_armed k; forcing := forcing k;
       exitCode := exitCode k; exit_calls := exit_calls k |}.

(** [pkg/kernel/stage.go:184-216] stage.stopWait: the error of the stage *)
Definition stage_error (o : map_order string moduleState) (st : stage) : option kernel_error :=
  let err := match cfn st with
             | Dying (Some err) => if is_canceled err then st_err st else Some err
             | Dying None | Alive => None
             end in
  if match err with None => true | Some err => is_stopping err end then
    match head (List.filter (λ kv, match ms_err kv.2 with Some e => significant e | None => false end)
                  (enum o (modules st))) with
    | Some (_, ms) => ms_err ms
    | None => err
    end
  else err.

(** [pkg/kernel/stage.go:184-216] stage.stopWait after the coffin has finished *)
Definition stop_concluded (o : map_order string moduleState) (st : stage) : stage :=
  {| poisoned := poisoned st; st_spawner := st_spawner st; st_running := st_running st; cfn := cfn st;
     st_err := stage_error o st; terminated := true; modules := modules st |}.

(** [pkg/kernel/kernel.go:167-177] whether a stage failed *)
Definition hasErr (st : stage) : bool :=
  match st_err st with Some err => negb (is_stopping err) | None => false end.

(** [pkg/kernel/kernel.go:167-177] the exit code of a graceful shutdown *)
Definition conclude (k : kernel) : kernel :=
  if decide (map_Forall (λ _ st, hasErr st = false) (stages k)) then setExitCode ExitCodeOk k else k.

(** [pkg/kernel/kernel.go:421-430] what kernel.signalOnceAllStagesDone waits for *)
Definition allStagesStopped (k : kernel) : Prop := map_Forall (λ _ st, terminated st = true) (stages k).

(** [pkg/kernel/kernel.go:432-443] what kernel.waitAllStagesDone waits for: the
    context of a stage is done when its coffin is dying *)
Definition allStagesDone (k : kernel) : Prop := map_Forall (λ _ st, cfn st ≠ Alive) (stages k).

(** ** Transitions *)

(** [pkg/kernel/kernel.go:108-183] the transitions of the goroutines of a kernel
    that runs, and of its environment *)
Inductive step : kernel → kernel → Prop :=
(* the main goroutine *)
| step_run_stage k i rest st :
    main k = Boot (i :: rest) → stages k !! i = Some st → poisoned st = false →
    step k (with_main (WaitHealthy i rest) (alter_stage run_stage i k))
| step_run_twice k i rest st :
    main k = Boot (i :: rest) → stages k !! i = Some st → poisoned st = true →
    step k (with_main Up (Stop k))
| step_healthy k i rest :
    main k = WaitHealthy i rest → step k (with_main (Boot rest) k)
| step_unhealthy k i rest :
    main k = WaitHealthy i rest → step k (with_main Up (Stop k))
| step_up k : main k = Boot [] → step k (with_main Up k)
| step_all_dying k :
    main k = Up → allStagesDone k →
    step k (with_main WaitStopped (Stop k))
| step_stopped k :
    main k = WaitStopped → allStagesStopped k →
    step k (with_main Leaving (conclude k))
| step_leave k : main k = Leaving → step k (with_main (Closing (exitCode k)) k)
| step_close k code :
    main k = Closing code → step k (with_main Done (callExitHandler code k))
| step_close_failed k code :
    main k = Closing code →
    step k (with_main Done (callExitHandler (exitCode (setExitCode ExitCodeErr k))
                              (setExitCode ExitCodeErr k)))
(* the goroutine that starts a stage's modules *)
| step_spawn k i n st ms :
    stages k !! i = Some st → st_spawner st = Spawning → modules st !! n = Some ms →
    ms_phase ms = Idle → step k (alter_module (at_phase Running) i n k)
| step_spawned k i st :
    stages k !! i = Some st → st_spawner st = Spawning →
    map_Forall (λ _ ms, ms_phase ms ≠ Idle) (modules st) →
    step k (alter_stage (with_spawner Spawned true) i k)
| step_spawner_ends k i st :
    stages k !! i = Some st → st_spawner st = Spawned →
    step k (alter_stage (λ st, goroutine_ends None (with_spawner SpawnerDone (st_running st) st)) i k)
(* the goroutine of a module *)
| step_module_exits k i n st ms err :
    stages k !! i = Some st → modules st !! n = Some ms → ms_phase ms = Running →
    step k (alter_module (module_exits err) i n k)
| step_module_reports k i n st ms :
    stages k !! i = Some st → modules st !! n = Some ms → ms_phase ms = Exited →
    step k (module_reports i n ms k)
| step_module_stops k i n st ms :
    stages k !! i = Some st → modules st !! n = Some ms → ms_phase ms = Stopping →
    step k (alter_module (at_phase Returning) i n (Stop k))
| step_module_ends k i n st ms :
    stages k !! i = Some st → modules st !! n = Some ms → ms_phase ms = Returning →
    step k (alter_stage (λ st, goroutine_ends (ms_err ms) (with_module (at_phase Terminated) n st)) i k)
(* the goroutine of Stop *)
| step_stop_kill k i l st :
    stop_todo k = Some (i :: l, false) → stages k !! i = Some st → st_running st = true →
    step k (with_stop (i :: l, true)
              (alter_stage (λ st, with_cfn (Kill (Some ErrKernelStopping) (cfn st)) st) i k))
| step_stop_wait k o i l st :
    stop_todo k = Some (i :: l, true) → stages k !! i = Some st → all_finished st = true →
    step k (with_stop (l, false) (alter_stage (stop_concluded o) i k))
(* the environment *)
| step_canceled k i st :
    stages k !! i = Some st →
    step k (alter_stage (λ st, with_cfn (Kill (Some context_canceled) (cfn st)) st) i k)
| step_signal k : step k (Stop k)
| step_kill_timeout k :
    killer_armed k = true → ¬ allStagesStopped k →
    step k (forceExit k)
| step_force_signal k : stopping k = true → step k (forceExit k)
| step_forced k : forcing k = true → step k (forced k).

(** A stage and a kernel before they run. *)
Definition fresh_stage (cfgs : gmap string moduleConfig) : stage := {|
  poisoned := false; st_spawner := NotStarted; st_running := false; cfn := Alive; st_err := None;
  terminated := false;
  modules := (λ c, {| config := c; ms_phase := Idle; ms_err := None |}) <$> cfgs;
|}.

(** [pkg/kernel/kernel.go:108-121] the kernel when Run starts *)
Definition start (cfgs : gmap Z (gmap string moduleConfig)) : kernel :=
  let ss := fresh_stage <$> cfgs in
  {| stages := ss; main := Boot (getIndices ss); stopping := false; stop_todo := None;
     foregroundModules := countForegroundModules ss; killer_armed := false; forcing := false;
     exitCode := ExitCodeErr; exit_calls := [] |}.

(** The states a kernel can get into. *)
Definition reachable (cfgs : gmap Z (gmap string moduleConfig)) : kernel → Prop := rtc step (start cfgs).
