(* ===== verification/KernelSafety.v ===== *)
(** * pkg/kernel: what holds of a running kernel

    The invariants of the transition system of Kernel.v by induction on the
    transitions, and from them: the order in which stages boot and shut down, the
    exit code, when the kernel stops, and what a failed boot leads to. *)
From S2P Require Import Prelude.
From S2P Require Import Kernel.

(** ** Sums over a map *)
Section Sum.
Context {K A : Type} `{Countable K}.
Implicit Types (f : A → Z) (m : gmap K A).

Definition msum f m : Z := map_fold (λ _ x n, f x + n)%Z 0%Z m.

Lemma msum_empty f : msum f ∅ = 0%Z.
Proof. apply map_fold_empty. Qed.

Lemma msum_insert f m i x : m !! i = None → msum f (<[i := x]> m) = (f x + msum f m)%Z.
Proof. intros Hi. unfold msum. rewrite map_fold_insert_L //. intros. lia. Qed.

Lemma msum_delete f m i x : m !! i = Some x → msum f m = (f x + msum f (delete i m))%Z.
Proof.
  intros Hi. rewrite -{1}(insert_delete_id m i x) // msum_insert //. apply lookup_delete_eq.
Qed.

Lemma msum_alter f g m i x :
  m !! i = Some x → msum f (alter g i m) = (msum f m - f x + f (g x))%Z.
Proof.
  intros Hi. rewrite (msum_delete f m i x) // (msum_delete f (alter g i m) i (g x)).
  - by rewrite lookup_alter_eq Hi.
  - rewrite delete_alter_eq. lia.
Qed.

Lemma msum_pos f m :
  (∀ x, 0 ≤ f x)%Z → (0 < msum f m)%Z → ∃ i x, m !! i = Some x ∧ (0 < f x)%Z.
Proof.
  intros Hf. induction m as [|i x m Hi IH] using map_ind; [by rewrite msum_empty|].
  rewrite msum_insert //. intros Hs. destruct (decide (0 < f x)%Z) as [Hx|Hx].
  - exists i, x. by rewrite lookup_insert_eq.
  - destruct IH as (j & y & Hj & Hy); [specialize (Hf x); lia|].
    exists j, y. rewrite lookup_insert_ne //. intros ->. congruence.
Qed.

Lemma msum_ext f g m : (∀ i x, m !! i = Some x → f x = g x) → msum f m = msum g m.
Proof.
  induction m as [|i x m Hi IH] using map_ind; [done|]. intros Hfg. rewrite !msum_insert //.
  rewrite IH; [|by rewrite (Hfg i x) // lookup_insert_eq].
  intros j y Hj. apply (Hfg j). rewrite lookup_insert_ne //. intros ->. congruence.
Qed.

End Sum.

Lemma countForegroundModules_msum ss :
  countForegroundModules ss =
  msum (λ st, msum (λ ms, if foreground ms then 1%Z else 0%Z) (modules st)) ss.
Proof.
  unfold countForegroundModules, msum.
  assert (∀ (m : gmap string moduleState) n,
    map_fold (λ _ ms n, if foreground ms then n + 1 else n)%Z n m =
    (map_fold (λ _ ms n, (if foreground ms then 1 else 0) + n)%Z 0%Z m + n)%Z) as Hin.
  { intros m n. induction m as [|i x m Hi IH] using map_ind; [by rewrite !map_fold_empty|].
    rewrite !map_fold_insert_L //; [intros; repeat case_match; lia.. |].
    rewrite IH. case_match; lia. }
  induction ss as [|i st ss Hi IH] using map_ind; [done|].
  rewrite !map_fold_insert_L //; [intros; rewrite ?Hin; lia.. |].
  rewrite Hin IH. lia.
Qed.

(** ** The stages' indices *)

#[export] Instance Zle_total : Total Z.le := Z.le_ge_cases.

Lemma getIndices_perm ss : getIndices ss ≡ₚ (map_to_list ss).*1.
Proof. apply merge_sort_Permutation. Qed.

Lemma elem_of_getIndices ss i : i ∈ getIndices ss ↔ is_Some (ss !! i).
Proof.
  rewrite getIndices_perm list_elem_of_fmap. split.
  - intros [[k st] [-> Hin%elem_of_map_to_list]]. by exists st.
  - intros [st Hst]. exists (i, st). split; [done | by apply elem_of_map_to_list].
Qed.

Lemma getIndices_sorted ss : StronglySorted Z.lt (getIndices ss).
Proof.
  assert (NoDup (getIndices ss)) as Hnd by (rewrite getIndices_perm; apply NoDup_fst_map_to_list).
  assert (StronglySorted Z.le (getIndices ss)) as Hs by (apply StronglySorted_merge_sort; apply _).
  induction Hs as [|i l Hs IH Hi]; [constructor|]. apply NoDup_cons in Hnd as [Hni Hnd].
  constructor; [by apply IH|]. rewrite !Forall_forall in Hi |- *. intros j Hj. specialize (Hi j Hj).
  assert (i ≠ j) by congruence. lia.
Qed.

Lemma getIndices_dom ss ss' : dom ss = dom ss' → getIndices ss = getIndices ss'.
Proof.
  intros Hd. apply (StronglySorted_unique_strong Z.le).
  - intros; lia.
  - apply StronglySorted_merge_sort; apply _.
  - apply StronglySorted_merge_sort; apply _.
  - apply NoDup_Permutation.
    + rewrite getIndices_perm. apply NoDup_fst_map_to_list.
    + rewrite getIndices_perm. apply NoDup_fst_map_to_list.
    + intros i. by rewrite !elem_of_getIndices -!elem_of_dom Hd.
Qed.

Lemma getIndices_alter f i ss : getIndices (alter f i ss) = getIndices ss.
Proof. apply getIndices_dom. by rewrite dom_alter_L. Qed.

(** In the reverse of a sorted list everything larger stands before an element. *)
Lemma reverse_sorted_split idx l1 i l2 j :
  StronglySorted Z.lt idx → reverse idx = l1 ++ i :: l2 → j ∈ idx → (i < j)%Z → j ∈ l1.
Proof.
  intros Hs Hl Hj Hlt. rewrite -elem_of_reverse Hl in Hj.
  apply elem_of_app in Hj as [Hj|Hj]; [done|]. apply elem_of_cons in Hj as [->|Hj]; [lia|]. exfalso.
  apply (f_equal reverse) in Hl. rewrite reverse_involutive reverse_app reverse_cons -app_assoc in Hl.
  rewrite Hl in Hs. apply StronglySorted_app in Hs as (Hx & _ & _).
  specialize (Hx j i). rewrite elem_of_reverse in Hx. specialize (Hx Hj ltac:(by left)). lia.
Qed.

(** ** Well-formed stages *)

Definition has_failed (st : stage) : Prop :=
  ∃ n ms e, modules st !! n = Some ms ∧ ms_err ms = Some e ∧ significant e = true.

Record stage_wf (st : stage) : Prop := {
  wf_poisoned : poisoned st = false ↔ st_spawner st = NotStarted;
  wf_running : st_running st = true ↔ st_spawner st = Spawned ∨ st_spawner st = SpawnerDone;
  wf_idle : st_spawner st = NotStarted → map_Forall (λ _ ms, ms_phase ms = Idle) (modules st);
  wf_spawned : st_running st = true → map_Forall (λ _ ms, ms_phase ms ≠ Idle) (modules st);
  wf_no_err : map_Forall (λ _ ms, ms_phase ms = Idle ∨ ms_phase ms = Running → ms_err ms = None)
                (modules st);
  wf_reason : ∀ e, cfn st = Dying (Some e) → significant e = true → has_failed st;
  wf_terminated : terminated st = true →
    st_spawner st = SpawnerDone ∧ map_Forall (λ _ ms, ms_phase ms = Terminated) (modules st) ∧
    (hasErr st = true ↔ has_failed st);
  wf_st_err : terminated st = false → st_err st = None;
}.

Lemma fresh_stage_wf cfgs : stage_wf (fresh_stage cfgs).
Proof.
  split; simpl; try done; [naive_solver|..];
    intros; intros n ms; rewrite lookup_fmap fmap_Some; naive_solver.
Qed.

Lemma run_stage_wf st : stage_wf st → poisoned st = false → stage_wf (run_stage st).
Proof.
  intros Hwf Hp. pose proof (proj1 (wf_poisoned st Hwf) Hp) as Hs.
  assert (st_running st = false) as Hr.
  { destruct (st_running st) eqn:Hr; [|done]. apply (wf_running st Hwf) in Hr. by destruct Hr; congruence. }
  assert (terminated st = false) as Ht.
  { destruct (terminated st) eqn:Ht; [|done]. apply (wf_terminated st Hwf) in Ht. by destruct Ht; congruence. }
  destruct Hwf. split; simpl; rewrite ?Hr ?Ht; try done; [|by auto].
  split; [done | by intros [|]].
Qed.

Lemma with_cfn_wf c st :
  stage_wf st → (∀ e, c = Dying (Some e) → significant e = true → has_failed st) →
  stage_wf (with_cfn c st).
Proof. intros [] Hc. by split. Qed.

Lemma Kill_reason r c e : Kill r c = Dying (Some e) → c = Dying (Some e) ∨ r = Some e.
Proof. destruct c as [|[e'|]]; simpl; naive_solver. Qed.

Lemma Kill_wf err st :
  stage_wf st → significant err = false → stage_wf (with_cfn (Kill (Some err) (cfn st)) st).
Proof.
  intros Hwf Herr. apply with_cfn_wf; [done|].
  intros e [He|He]%Kill_reason Hs; [by eapply (wf_reason st Hwf) | congruence].
Qed.

Lemma goroutine_ends_wf err st :
  stage_wf st → (∀ e, err = Some e → significant e = true → has_failed st) →
  stage_wf (goroutine_ends err st).
Proof.
  intros Hwf Herr. unfold goroutine_ends. case_match; [|done]. apply with_cfn_wf; [done|].
  intros e [He|He]%Kill_reason Hs; [by eapply (wf_reason st Hwf) | by eapply Herr].
Qed.

Lemma with_spawner_wf sp st :
  stage_wf st → st_spawner st = Spawning ∧ sp = Spawned ∨ st_spawner st = Spawned ∧ sp = SpawnerDone →
  map_Forall (λ _ ms, ms_phase ms ≠ Idle) (modules st) → stage_wf (with_spawner sp true st).
Proof.
  intros [] Hsp Hidle.
  assert (terminated st = false) as Ht.
  { destruct (terminated st); [|done]. destruct (wf_terminated0 eq_refl) as (H & _). intuition congruence. }
  split; simpl; try done; rewrite ?Ht; [| |intuition congruence | done].
  - rewrite wf_poisoned0. intuition congruence.
  - intuition congruence.
Qed.

(** A step of a module's goroutine keeps its error, if it has one, and is not
    one of a module that has ended. *)
Lemma with_module_wf f n st ms :
  stage_wf st → modules st !! n = Some ms → ms_phase ms ≠ Terminated →
  st_spawner st ≠ NotStarted → ms_phase (f ms) ≠ Idle →
  (ms_phase (f ms) = Running → ms_err (f ms) = None) →
  (∀ e, ms_err ms = Some e → ms_err (f ms) = Some e) →
  stage_wf (with_module f n st).
Proof.
  intros Hwf Hms Hp Hsp Hidle Hrun Herr.
  assert (has_failed st → has_failed (with_module f n st)) as Hfail.
  { intros (n' & ms' & e & Hms' & He & Hs). destruct (decide (n' = n)) as [->|Hne].
    - exists n, (f ms), e. simpl. rewrite lookup_alter_eq Hms. simplify_eq. by auto.
    - exists n', ms', e. simpl. by rewrite lookup_alter_ne. }
  assert (terminated st = false) as Ht.
  { destruct (terminated st) eqn:Ht; [|done].
    destruct (wf_terminated st Hwf Ht) as (_ & H & _). by apply H in Hms. }
  destruct Hwf. split; simpl; try done; rewrite ?Ht; try done.
  - intros Hr n' ms' [(-> & ms0 & ? & ->)|[Hne Hl]]%lookup_alter_Some; [by simplify_eq|].
    by eapply (wf_spawned0 Hr).
  - intros n' ms' [(-> & ms0 & ? & ->)|[Hne Hl]]%lookup_alter_Some; [simplify_eq; naive_solver|].
    by eapply wf_no_err0.
  - intros e He Hs. apply Hfail. by eapply wf_reason0.
Qed.

(** ** Invariants by induction on the transitions *)

Lemma map_Forall_alter {K A} `{Countable K} (P : A → Prop) f (m : gmap K A) i x :
  m !! i = Some x → map_Forall (λ _ x, P x) m → P (f x) → map_Forall (λ _ x, P x) (alter f i m).
Proof.
  intros Hi Hm Hf j y [(-> & y' & ? & ->)|[Hne Hl]]%lookup_alter_Some; [by simplify_eq|].
  by apply (Hm j).
Qed.

Lemma stages_Stop k : stages (Stop k) = stages k.
Proof. unfold Stop. by destruct (stopping k). Qed.

Lemma stages_conclude k : stages (conclude k) = stages k.
Proof. unfold conclude. by case_decide. Qed.

Lemma stages_module_reports i n ms k :
  ∃ p, stages (module_reports i n ms k) = alter (with_module (at_phase p) n) i (stages k) ∧
       (p = Stopping ∨ p = Returning).
Proof.
  unfold module_reports. destruct (module_report _ _) as [[] count]; simpl; by eauto.
Qed.

(** An error of a module that has not run yet is nil, one of a module that runs
    is set when it exits: the conditions of [with_module_wf] for each step. *)
Lemma module_step_started st n ms :
  stage_wf st → modules st !! n = Some ms → ms_phase ms ≠ Idle → st_spawner st ≠ NotStarted.
Proof. intros Hwf Hms Hp Hs. by apply (wf_idle st Hwf Hs) in Hms. Qed.

Lemma at_phase_wf p n st ms :
  stage_wf st → modules st !! n = Some ms → ms_phase ms ≠ Terminated → ms_phase ms ≠ Idle →
  p ≠ Idle → p ≠ Running → stage_wf (with_module (at_phase p) n st).
Proof.
  intros Hwf Hms Hp Hi ??. eapply with_module_wf; try done. by eapply module_step_started.
Qed.

Lemma stop_concluded_wf o st :
  stage_wf st → all_finished st = true → st_running st = true → terminated st = false →
  stage_wf (stop_concluded o st).
Proof.
  intros Hwf Hfin Hrun Hterm. unfold all_finished in Hfin. apply bool_decide_eq_true in Hfin as [Hsp Hfin].
  assert (map_Forall (λ _ ms, ms_phase ms = Terminated) (modules st)) as Hall.
  { intros n ms Hms. pose proof (wf_spawned st Hwf Hrun n ms Hms). specialize (Hfin n ms Hms). simpl in *.
    unfold Dead_module in Hfin. apply bool_decide_eq_true in Hfin. by destruct Hfin. }
  assert (hasErr (stop_concluded o st) = true ↔ has_failed st) as Herr.
  { unfold hasErr, stop_concluded, stage_error. simpl.
    set (fl := List.filter _ _). set (err := match cfn st with Alive => _ | _ => _ end).
    assert (has_failed st ↔ fl ≠ []) as Hfl.
    { split.
      - intros (n & ms & e & Hms & He & Hs) Hnil.
        assert (In (n, ms) fl) as Hin; [|by rewrite Hnil in Hin].
        apply filter_In. split; [by apply list_elem_of_In, elem_of_enum | by rewrite /= He].
      - destruct fl as [|[n ms] fl'] eqn:Hf; [done|]. intros _.
        assert (In (n, ms) fl) as Hin by (rewrite Hf; by left).
        apply filter_In in Hin as [Hin He]. apply list_elem_of_In, elem_of_enum in Hin. simpl in He.
        destruct (ms_err ms) as [e|] eqn:Hme; [|done]. by exists n, ms, e. }
    assert (∀ e, err = Some e → is_stopping e = false → has_failed st) as Hr.
    { unfold err. intros e He Hs. destruct (cfn st) as [|[e'|]] eqn:Hc; try done.
      rewrite (wf_st_err st Hwf Hterm) in He. destruct (is_canceled e') eqn:Hcan; [done|]. simplify_eq.
      apply (wf_reason st Hwf e Hc). unfold significant. by rewrite Hs Hcan. }
    rewrite Hfl. destruct fl as [|[n ms] fl'] eqn:Hf; simpl.
    - split; [|done]. intros Ht. exfalso. destruct err as [e|]; [|done].
      destruct (is_stopping e) eqn:Hs; simpl in Ht; rewrite ?Hs in Ht; [done|].
      by destruct (Hfl) as [Hx _]; apply Hx; [eapply Hr|].
    - split; [done|]. intros _.
      assert (In (n, ms) fl) as Hin by (rewrite Hf; by left).
      apply filter_In in Hin as [_ He]. simpl in He.
      destruct (ms_err ms) as [e'|] eqn:Hme; [|done]. unfold significant in He.
      destruct err as [e|]; [destruct (is_stopping e) eqn:Hs|]; simpl; rewrite ?Hs //;
        by destruct (is_stopping e'). }
  destruct Hwf. split; simpl; try done.
Qed.

Lemma fmap_alter_proj {K A B} `{Countable K} (g : A → B) f (m : gmap K A) i x :
  m !! i = Some x → g (f x) = g x → g <$> alter f i m = g <$> m.
Proof.
  intros Hi Hg. apply map_eq. intros j. rewrite !lookup_fmap.
  destruct (decide (j = i)) as [->|Hne]; [rewrite lookup_alter_eq Hi /=; by f_equal | by rewrite lookup_alter_ne].
Qed.

Section Invariants.
Context (cfgs : gmap Z (gmap string moduleConfig)).
Implicit Types (k : kernel) (st : stage).

Lemma reachable_ind (P : kernel → Prop) :
  P (start cfgs) → (∀ k k', reachable cfgs k → P k → step k k' → P k') → ∀ k, reachable cfgs k → P k.
Proof.
  intros Hstart Hstep. assert (∀ k k', rtc step k k' → reachable cfgs k → P k → P k') as Hall.
  { intros k k' Hr. induction Hr as [|k k1 k2 Hs _ IH]; [done|]. intros Hk HP.
    apply IH; [by eapply rtc_r | by eapply Hstep]. }
  intros k Hr. apply (Hall (start cfgs)); [done | apply rtc_refl | done].
Qed.

Definition all_wf k : Prop := map_Forall (λ _ st, stage_wf st) (stages k).

(** How far the goroutine of Stop is: the stages it has left behind are the ones
    that have terminated. *)
Definition stop_inv k : Prop :=
  match stop_todo k with
  | None => stopping k = false ∧ map_Forall (λ _ st, terminated st = false) (stages k)
  | Some (l, b) => stopping k = true ∧ ∃ ended, reverse (getIndices (stages k)) = ended ++ l ∧
      (b = true → l ≠ [] ∧ ∀ i st, head l = Some i → stages k !! i = Some st → st_running st = true) ∧
      ∀ i st, stages k !! i = Some st → (terminated st = true ↔ i ∈ ended)
  end.

Lemma stop_inv_Stop k : stop_inv k → stop_inv (Stop k).
Proof.
  unfold stop_inv, Stop. destruct (stopping k) eqn:Hs; simpl; rewrite ?Hs; [done|].
  destruct (stop_todo k) as [[l b]|]; [by intros []; congruence|]. intros [_ Hterm].
  split; [done|]. exists []. split_and!; [done..|]. intros i st Hi.
  specialize (Hterm i st Hi). simpl in Hterm. rewrite Hterm. split; [done|]. by intros ?%elem_of_nil.
Qed.

(** A step of one stage that neither ends it nor stops it keeps the invariant. *)
Lemma stop_inv_alter f i k st :
  stages k !! i = Some st → terminated (f st) = terminated st →
  (st_running st = true → st_running (f st) = true) →
  stop_inv k → stop_inv (alter_stage f i k).
Proof.
  intros Hi Ht Hr. unfold stop_inv. simpl. rewrite getIndices_alter.
  destruct (stop_todo k) as [[l b]|].
  - intros (Hs & ended & Hl & Hb & He). split; [done|]. exists ended. split_and!; [done| |].
    + intros Hbt. destruct (Hb Hbt) as [Hne Hrun]. split; [done|].
      intros j st' Hj [(-> & y & ? & ->)|[Hne' Hlk]]%lookup_alter_Some; [|by eapply Hrun].
      simplify_eq. apply Hr. by eapply Hrun.
    + intros j st' [(-> & y & ? & ->)|[Hne' Hlk]]%lookup_alter_Some; [|by apply He].
      simplify_eq. rewrite Ht. by apply He.
  - intros [Hs Hall]. split; [done|].
    intros j st' [(-> & y & ? & ->)|[Hne' Hlk]]%lookup_alter_Some; [|by apply (Hall j)].
    simplify_eq. rewrite Ht. by apply (Hall j).
Qed.

(** The invariant does not look at the other fields. *)
Lemma stop_inv_ext k k' :
  stages k' = stages k → stopping k' = stopping k → stop_todo k' = stop_todo k →
  stop_inv k → stop_inv k'.
Proof. unfold stop_inv. by intros -> -> ->. Qed.

(** Both invariants, for an alteration of one stage. *)
Lemma base_alter f i k st :
  stages k !! i = Some st → stage_wf (f st) → terminated (f st) = terminated st →
  (st_running st = true → st_running (f st) = true) →
  all_wf k → stop_inv k → all_wf (alter_stage f i k) ∧ stop_inv (alter_stage f i k).
Proof.
  intros Hi Hwf Ht Hr Hall Hstop. split; [by eapply map_Forall_alter | by eapply stop_inv_alter].
Qed.

Lemma goroutine_ends_terminated err st : terminated (goroutine_ends err st) = terminated st.
Proof. unfold goroutine_ends. by case_match. Qed.

Lemma goroutine_ends_running err st : st_running (goroutine_ends err st) = st_running st.
Proof. unfold goroutine_ends. by case_match. Qed.

Lemma base_start : all_wf (start cfgs) ∧ stop_inv (start cfgs).
Proof.
  unfold all_wf, stop_inv. simpl.
  split; [|split; [done|]]; intros i st; rewrite lookup_fmap fmap_Some; intros (c & _ & ->);
    [apply fresh_stage_wf | done].
Qed.

Lemma stop_kill_base k i l st :
  stop_todo k = Some (i :: l, false) → stages k !! i = Some st → st_running st = true →
  all_wf k → stop_inv k →
  let k' := with_stop (i :: l, true)
    (alter_stage (λ st, with_cfn (Kill (Some ErrKernelStopping) (cfn st)) st) i k) in
  all_wf k' ∧ stop_inv k'.
Proof.
  intros Htodo Hi Hrun Hwf Hstop. split.
  - eapply map_Forall_alter; [exact Hi | exact Hwf|]. apply Kill_wf; [by eapply Hwf | done].
  - unfold stop_inv in Hstop. rewrite Htodo in Hstop.
    destruct Hstop as (Hs & ended & Hl & _ & He). unfold stop_inv. simpl. rewrite getIndices_alter.
    split; [done|]. exists ended. split_and!; [done | |].
    + intros _. split; [done|]. intros j st' [= <-]. rewrite lookup_alter_eq Hi. by intros [= <-].
    + intros j st' [(-> & y & ? & ->)|[Hne' Hlk]]%lookup_alter_Some; simplify_eq/=; by apply He.
Qed.

Lemma stop_wait_base k o i l st :
  stop_todo k = Some (i :: l, true) → stages k !! i = Some st → all_finished st = true →
  all_wf k → stop_inv k →
  let k' := with_stop (l, false) (alter_stage (stop_concluded o) i k) in all_wf k' ∧ stop_inv k'.
Proof.
  intros Htodo Hi Hfin Hwf Hstop. unfold stop_inv in Hstop. rewrite Htodo in Hstop.
  destruct Hstop as (Hs & ended & Hl & Hb & He). destruct (Hb eq_refl) as [_ Hrun].
  assert (i ∉ ended) as Hni.
  { intros Hin. pose proof (getIndices_sorted (stages k)) as Hsorted.
    assert (NoDup (reverse (getIndices (stages k)))) as Hnd.
    { rewrite reverse_Permutation getIndices_perm. apply NoDup_fst_map_to_list. }
    rewrite Hl in Hnd. apply NoDup_app in Hnd as (_ & Hd & _). apply (Hd i Hin). by left. }
  assert (terminated st = false) as Ht.
  { destruct (terminated st) eqn:Ht; [|done]. by apply (He i st Hi) in Ht. }
  split.
  - eapply map_Forall_alter; [exact Hi | exact Hwf|].
    apply stop_concluded_wf; [by eapply Hwf | done | by eapply Hrun | done].
  - unfold stop_inv. simpl. rewrite getIndices_alter. split; [done|]. exists (ended ++ [i]).
    split_and!; [by rewrite Hl -app_assoc | done |].
    intros j st' [(-> & y & ? & ->)|[Hne' Hlk]]%lookup_alter_Some; simpl.
    + split; [|done]. intros _. apply elem_of_app. right. by left.
    + rewrite (He j st' Hlk) elem_of_app list_elem_of_singleton. intuition congruence.
Qed.

Lemma base_ext k k' :
  stages k' = stages k → stopping k' = stopping k → stop_todo k' = stop_todo k →
  all_wf k → stop_inv k → all_wf k' ∧ stop_inv k'.
Proof. intros H1 H2 H3 Hwf Hs. split; [unfold all_wf; by rewrite H1 | by eapply stop_inv_ext]. Qed.

Lemma base_Stop k : all_wf k → stop_inv k → all_wf (Stop k) ∧ stop_inv (Stop k).
Proof. intros Hwf Hs. split; [unfold all_wf; by rewrite stages_Stop | by apply stop_inv_Stop]. Qed.

Lemma base_module p i n st ms k :
  stages k !! i = Some st → modules st !! n = Some ms → ms_phase ms ≠ Terminated → ms_phase ms ≠ Idle →
  p ≠ Idle → p ≠ Running → all_wf k → stop_inv k →
  all_wf (alter_module (at_phase p) i n k) ∧ stop_inv (alter_module (at_phase p) i n k).
Proof.
  intros Hi Hms Ht Hid Hp Hp' Hwf Hs. eapply base_alter; try done.
  eapply at_phase_wf; try done. by eapply Hwf.
Qed.

Lemma step_base k k' : step k k' → all_wf k → stop_inv k → all_wf k' ∧ stop_inv k'.
Proof.
  intros Hstep Hwf Hs. destruct Hstep.
  - (* run stage *) eapply base_ext; [done.. | |]; eapply base_alter; try done;
      (apply run_stage_wf; [by eapply Hwf | done]).
  - eapply base_ext; [done..| |]; by apply base_Stop.
  - by eapply base_ext.
  - eapply base_ext; [done..| |]; by apply base_Stop.
  - by eapply base_ext.
  - eapply base_ext; [done..| |]; by apply base_Stop.
  - eapply base_ext; [simpl; apply stages_conclude | unfold conclude; simpl; by case_decide.. | done | done].
  - by eapply base_ext.
  - by eapply base_ext.
  - by eapply base_ext.
  - (* spawn *) eapply base_alter; try done. assert (stage_wf st) as Hst by by eapply Hwf.
    eapply with_module_wf; try done; [congruence..|].
    intros _. apply (wf_no_err st Hst n ms H1). by left.
  - eapply base_alter; try done. apply with_spawner_wf; [by eapply Hwf | by left | done].
  - assert (stage_wf st) as Hst by by eapply Hwf.
    assert (st_running st = true) as Hrun by (apply (wf_running st Hst); by left).
    eapply base_alter; try done.
    + apply goroutine_ends_wf; [|done]. rewrite Hrun. apply with_spawner_wf; [done | by right |].
      by apply (wf_spawned st Hst).
    + by rewrite goroutine_ends_terminated.
    + by rewrite goroutine_ends_running.
  - assert (stage_wf st) as Hst by by eapply Hwf.
    eapply base_alter; try done. eapply with_module_wf; try done; [congruence | |].
    + eapply module_step_started; try done. congruence.
    + intros e He. rewrite (wf_no_err st Hst n ms) // in He. by right.
  - destruct (stages_module_reports i n ms k) as (p & Hst & Hp).
    assert (all_wf (alter_module (at_phase p) i n k) ∧ stop_inv (alter_module (at_phase p) i n k))
      as [Hwf' Hs'] by (eapply base_module; try done; destruct Hp; congruence).
    eapply base_ext; [| | |exact Hwf' | exact Hs']; [exact Hst| |];
      unfold module_reports; by destruct (module_report _ _) as [[] ?].
  - destruct (base_Stop k Hwf Hs) as [Hwf' Hs'].
    eapply base_module; try done; [by rewrite stages_Stop|congruence..].
  - assert (stage_wf st) as Hst by by eapply Hwf.
    eapply base_alter; try done.
    + apply goroutine_ends_wf; [eapply at_phase_wf; try done; congruence|].
      intros e He Hsig. exists n, (at_phase Terminated ms), e. simpl. by rewrite lookup_alter_eq H0.
    + by rewrite goroutine_ends_terminated.
    + by rewrite goroutine_ends_running.
  - by eapply stop_kill_base.
  - by eapply stop_wait_base.
  - eapply base_alter; try done. apply Kill_wf; [by eapply Hwf | done].
  - by apply base_Stop.
  - by eapply base_ext.
  - by eapply base_ext.
  - by eapply base_ext.
Qed.

Lemma reachable_base k : reachable cfgs k → all_wf k ∧ stop_inv k.
Proof.
  apply (reachable_ind (λ k, all_wf k ∧ stop_inv k)); [apply base_start|].
  intros k1 k2 _ [Hwf Hs] Hstep. by eapply step_base.
Qed.

(** The goroutine of Stop has killed the stage. *)
Definition stop_killed k (i : Z) : Prop :=
  (∃ st, stages k !! i = Some st ∧ terminated st = true) ∨
  (∃ l, stop_todo k = Some (i :: l, true)).

(** C1: stages shut down in the reverse order of their indices: when the kernel
    has killed a stage, every stage with a higher index has terminated, and in a
    terminated stage the goroutines of all modules have ended. *)
Theorem shutdown_order k i j st :
  reachable cfgs k → stop_killed k i → (i < j)%Z → stages k !! j = Some st →
  terminated st = true ∧ map_Forall (λ _ ms, ms_phase ms = Terminated) (modules st).
Proof.
  intros Hr Hkilled Hij Hj. destruct (reachable_base k Hr) as [Hwf Hs].
  assert (terminated st = true) as Ht.
  { unfold stop_inv in Hs. pose proof (getIndices_sorted (stages k)) as Hsorted.
    assert (j ∈ getIndices (stages k)) as Hin by (by apply elem_of_getIndices; eexists).
    destruct Hkilled as [(sti & Hi & Hti)|(l & Htodo)].
    - destruct (stop_todo k) as [[l b]|]; [|destruct Hs as [_ Hall]; by apply Hall in Hi; congruence].
      destruct Hs as (_ & ended & Hl & _ & He). apply (He j st Hj). apply (He i sti Hi) in Hti.
      apply list_elem_of_split in Hti as (l1 & l2 & ->). rewrite -app_assoc /= in Hl.
      apply elem_of_app. left. by eapply reverse_sorted_split.
    - rewrite Htodo in Hs. destruct Hs as (_ & ended & Hl & _ & He). apply (He j st Hj).
      by eapply reverse_sorted_split. }
  split; [done|]. by apply (wf_terminated st (Hwf j st Hj)) in Ht as (_ & ? & _).
Qed.

(** How the main goroutine goes on, apart from running a stage. *)
Definition main_moves (m m' : main_pc) : Prop :=
  m' = m ∨
  match m, m' with
  | WaitHealthy _ rest, Boot rest' => rest' = rest
  | Boot _, Up | WaitHealthy _ _, Up | Up, WaitStopped | WaitStopped, Leaving
  | Leaving, Closing _ | Closing _, Done => True
  | _, _ => False
  end.

Lemma main_Stop k : main (Stop k) = main k.
Proof. unfold Stop. by destruct (stopping k). Qed.

Lemma goroutine_ends_poisoned err st : poisoned (goroutine_ends err st) = poisoned st.
Proof. unfold goroutine_ends. by case_match. Qed.

Lemma module_reports_poisoned i n st ms k :
  stages k !! i = Some st →
  poisoned <$> stages (module_reports i n ms k) = poisoned <$> stages k ∧
  main (module_reports i n ms k) = main k.
Proof.
  intros Hi. unfold module_reports. destruct (module_report _ _) as [[] c]; simpl;
    (split; [by eapply fmap_alter_proj | done]).
Qed.
Lemma step_poisoned k k' : step k k' →
  (∃ i rest st, main k = Boot (i :: rest) ∧ stages k !! i = Some st ∧ poisoned st = false ∧
     k' = with_main (WaitHealthy i rest) (alter_stage run_stage i k)) ∨
  (poisoned <$> stages k' = poisoned <$> stages k ∧ main_moves (main k) (main k')).
Proof.
  intros Hstep. destruct Hstep; [left; by eauto 10|right..].
  all: try (eapply module_reports_poisoned in H; destruct H as [-> ->]; by split; [|left]).
  all: unfold main_moves; simpl; rewrite ?stages_Stop ?main_Stop ?stages_conclude.
  all: repeat match goal with H : main _ = _ |- _ => rewrite H end.
  all: split; [try done | by auto].
  all: eapply fmap_alter_proj; [eassumption|]; by rewrite ?goroutine_ends_poisoned.
Qed.


(** The main goroutine has run the stages of a prefix of the indices. *)
Definition boot_inv k : Prop := ∃ started rest,
  getIndices (stages k) = started ++ rest ∧
  (∀ i st, stages k !! i = Some st → (poisoned st = true ↔ i ∈ started)) ∧
  match main k with
  | Boot l => l = rest
  | WaitHealthy i l => l = rest ∧ last started = Some i
  | _ => True
  end.

Lemma fmap_lookup_eq {A B} (g : A → B) (m m' : gmap Z A) i x :
  g <$> m' = g <$> m → m' !! i = Some x → ∃ y, m !! i = Some y ∧ g y = g x.
Proof.
  intros Heq Hi. assert ((g <$> m') !! i = Some (g x)) as Hg by by rewrite lookup_fmap Hi.
  rewrite Heq lookup_fmap in Hg. destruct (m !! i) as [y|]; [|done]. exists y. split; [done|].
  by injection Hg.
Qed.

Lemma step_boot k k' : step k k' → boot_inv k → boot_inv k'.
Proof.
  intros [(i & rest & st & Hm & Hi & Hp & ->)|[Hpo Hmain]]%step_poisoned (started & rest' & Hidx & Hst & Hpc).
  - rewrite Hm in Hpc. subst rest'. exists (started ++ [i]), rest. simpl. rewrite getIndices_alter.
    split_and!; [by rewrite Hidx -app_assoc | | done | by rewrite last_snoc].
    intros j stj [(-> & y & ? & ->)|[Hne Hj]]%lookup_alter_Some.
    + split; [|done]. intros _. apply elem_of_app. right. by left.
    + rewrite (Hst j stj Hj) elem_of_app list_elem_of_singleton. split; [by left | by intros [?|<-]].
  - exists started, rest'. split_and!.
    + rewrite -Hidx. apply getIndices_dom. by rewrite -(dom_fmap_L poisoned (stages k')) Hpo dom_fmap_L.
    + intros j stj Hj. destruct (fmap_lookup_eq _ _ _ _ _ Hpo Hj) as (y & Hy & <-). by apply Hst.
    + destruct Hmain as [->|Hmove]; [done|].
      destruct (main k), (main k'); try done. destruct Hpc as [-> _]. done.
Qed.

Lemma reachable_boot k : reachable cfgs k → boot_inv k.
Proof.
  apply (reachable_ind boot_inv); [|intros k1 k2 _ Hb Hs; by eapply step_boot].
  exists [], (getIndices (stages (start cfgs))). split_and!; [done| |done]. simpl.
  intros i st. rewrite lookup_fmap fmap_Some. intros (c & _ & ->). simpl.
  split; [done | by intros ?%elem_of_nil].
Qed.

(** C8: stages boot in the order of their indices: as long as a stage with a lower
    index has not been run, or the kernel still waits for it to get healthy, no
    module of a stage with a higher index has been started. *)
Theorem boot_order k i j sti stj n ms :
  reachable cfgs k → (i < j)%Z → stages k !! i = Some sti → stages k !! j = Some stj →
  (poisoned sti = false ∨ ∃ rest, main k = WaitHealthy i rest) →
  modules stj !! n = Some ms → ms_phase ms = Idle.
Proof.
  intros Hr Hij Hi Hj Hwait Hms. destruct (reachable_base k Hr) as [Hwf _].
  destruct (reachable_boot k Hr) as (started & rest & Hidx & Hst & Hpc).
  pose proof (getIndices_sorted (stages k)) as Hsorted. rewrite Hidx in Hsorted.
  enough (j ∉ started) as Hnj.
  { apply (wf_idle stj (Hwf j stj Hj)) in Hms; [done|]. apply (wf_poisoned stj (Hwf j stj Hj)).
    destruct (poisoned stj) eqn:Hp; [|done]. by apply (Hst j stj Hj) in Hp. }
  intros Hjs. apply StronglySorted_app in Hsorted as (Hlt & Hsorted & _). destruct Hwait as [Hp|[l Hm]].
  - assert (i ∈ rest) as Hir.
    { assert (i ∈ getIndices (stages k)) as Hin by (apply elem_of_getIndices; by eexists).
      rewrite Hidx in Hin. apply elem_of_app in Hin as [Hin|Hin]; [|done].
      apply (Hst i sti Hi) in Hin. congruence. }
    specialize (Hlt j i Hjs Hir). lia.
  - rewrite Hm in Hpc. destruct Hpc as [_ Hlast].
    apply last_Some in Hlast as [l' ->]. apply elem_of_app in Hjs as [Hjs|Hjs].
    + apply StronglySorted_app in Hsorted as (Hlt' & _ & _). specialize (Hlt' j i Hjs ltac:(by left)). lia.
    + apply list_elem_of_singleton in Hjs. lia.
Qed.

(** ** The exit code *)

(** A module returned or panicked with an error that is neither the stop of the
    kernel nor a cancellation. *)
Definition failed k : Prop := ∃ i st, stages k !! i = Some st ∧ has_failed st.

Definition code_ok k (code : Z) : Prop :=
  code = ExitCodeForced ∨ (code = ExitCodeOk ∧ ¬ failed k) ∨ (code = ExitCodeErr ∧ failed k).

Definition exit_inv k : Prop :=
  match main k with
  | Leaving => allStagesStopped k ∧ code_ok k (exitCode k)
  | Closing code => allStagesStopped k ∧ code_ok k code ∧ code_ok k (exitCode k)
  | Done => allStagesStopped k
  | _ => exitCode k = ExitCodeForced ∨ exitCode k = ExitCodeErr
  end ∧
  (exit_calls k = [] ∨ exit_calls k = [ExitCodeForced] ∨
   main k = Done ∧ (exit_calls k = [ExitCodeErr] ∨ exit_calls k = [ExitCodeOk] ∧ ¬ failed k)).

Lemma failed_modules k k' : modules <$> stages k' = modules <$> stages k → failed k' → failed k.
Proof.
  intros Heq (i & st & Hi & n & ms & e & Hms & He & Hs).
  destruct (fmap_lookup_eq _ _ _ _ _ Heq Hi) as (st' & Hi' & Heq').
  exists i, st'. split; [done|]. exists n, ms, e. by rewrite Heq'.
Qed.

(** After the last stage has terminated the modules and the stages' ends stay. *)
Lemma step_allStagesStopped k k' :
  all_wf k → stop_inv k → allStagesStopped k → step k k' →
  modules <$> stages k' = modules <$> stages k ∧ terminated <$> stages k' = terminated <$> stages k.
Proof.
  intros Hwf Hs Hall Hstep.
  assert (∀ i st n ms, stages k !! i = Some st → modules st !! n = Some ms → ms_phase ms = Terminated) as Hterm.
  { intros i st n ms Hi Hms. specialize (Hall i st Hi). simpl in Hall.
    by apply (wf_terminated st (Hwf i st Hi)) in Hall as (_ & Hm & _); apply Hm in Hms. }
  destruct Hstep; rewrite /= ?stages_Stop ?stages_conclude; try done;
    try (by match goal with Hi : stages k !! _ = Some _, Hm : modules _ !! _ = Some _ |- _ =>
      pose proof (Hterm _ _ _ _ Hi Hm); congruence end);
    (split; eapply fmap_alter_proj; [eassumption| |eassumption|]; try done).
  - unfold goroutine_ends. by case_match.
  - by rewrite goroutine_ends_terminated.
  - simpl. symmetry. by eapply Hall.
Qed.

Lemma failed_eq k k' : modules <$> stages k' = modules <$> stages k → failed k' ↔ failed k.
Proof. intros Heq. split; apply failed_modules; done. Qed.

Lemma allStagesStopped_eq k k' :
  terminated <$> stages k' = terminated <$> stages k → allStagesStopped k → allStagesStopped k'.
Proof.
  intros Heq Hall i st Hi. destruct (fmap_lookup_eq _ _ _ _ _ Heq Hi) as (y & Hy & <-). by eapply Hall.
Qed.

Lemma conclude_code k :
  all_wf k → allStagesStopped k → exitCode k = ExitCodeForced ∨ exitCode k = ExitCodeErr →
  code_ok k (exitCode (conclude k)).
Proof.
  intros Hwf Hall Hcode. unfold conclude, code_ok.
  assert (failed k ↔ ¬ map_Forall (λ _ st, hasErr st = false) (stages k)) as Hf.
  { split.
    - intros (i & st & Hi & Hst) Hno. specialize (Hno i st Hi). simpl in Hno.
      apply (wf_terminated st (Hwf i st Hi) (Hall i st Hi)) in Hst. congruence.
    - intros Hno.
      assert (∀ (i : Z) (x : stage), Decision ((λ (_ : Z) st, hasErr st = false) i x)) as Hdec
        by (intros i x; cbn; apply _).
      destruct (proj1 (map_not_Forall (K := Z) (M := gmap Z) (λ _ st, hasErr st = false)
        (stages k)) Hno) as (i & st & Hi & He).
      exists i, st. split; [done|]. apply (wf_terminated st (Hwf i st Hi) (Hall i st Hi)).
      by destruct (hasErr st). }
  rewrite Hf. case_decide as Hd; simpl; [case_decide|]; destruct Hcode; auto 10.
Qed.

Lemma exit_inv_stays k k' :
  exit_inv k → main k' = main k →
  (exitCode k' = exitCode k ∨ exitCode k' = ExitCodeForced) →
  (exit_calls k' = exit_calls k ∨ exit_calls k = [] ∧ exit_calls k' = [ExitCodeForced]) →
  (allStagesStopped k → allStagesStopped k' ∧ (failed k' ↔ failed k)) → exit_inv k'.
Proof.
  intros [Hmain Hcalls] Hm Hcode Hex Hterm. unfold exit_inv, code_ok in *. rewrite Hm. split.
  - destruct (main k); try (destruct Hcode as [->| ->]; by auto); try by apply Hterm.
    + destruct Hmain as [Hall Hc]. destruct (Hterm Hall) as [Hall' Hf]. split; [done|]. rewrite Hf.
      destruct Hcode as [->| ->]; by auto.
    + destruct Hmain as (Hall & Hc & Hc'). destruct (Hterm Hall) as [Hall' Hf]. rewrite Hf.
      split_and!; [done..|]. destruct Hcode as [->| ->]; by auto.
  - destruct Hex as [->|[_ ->]]; [|by auto]. destruct Hcalls as [?|[?|[Hd Hcalls]]]; [by auto..|].
    rewrite Hd in Hmain |- *. destruct (Hterm Hmain) as [_ Hf]. rewrite Hf. by auto.
Qed.

(** The main goroutine's own steps. *)
Lemma exit_inv_before_leaving k k' :
  exit_inv k → exitCode k' = exitCode k → exit_calls k' = exit_calls k →
  match main k with Leaving | Closing _ | Done => False | _ => True end →
  match main k' with Leaving | Closing _ | Done => False | _ => True end → exit_inv k'.
Proof.
  intros [Hm Hc] He Hx Hk Hk'. unfold exit_inv. rewrite He Hx. split; [by destruct (main k), (main k')|].
  destruct Hc as [?|[?|[Hd _]]]; [by auto..|]. by rewrite Hd in Hk.
Qed.

Lemma exit_fields_Stop k : exitCode (Stop k) = exitCode k ∧ exit_calls (Stop k) = exit_calls k.
Proof. unfold Stop. by destruct (stopping k). Qed.

Lemma exit_fields_conclude k :
  exit_calls (conclude k) = exit_calls k ∧ (stages (conclude k) = stages k).
Proof. unfold conclude. by case_decide. Qed.

Lemma exit_inv_calls_before k :
  exit_inv k → main k ≠ Done → exit_calls k = [] ∨ exit_calls k = [ExitCodeForced].
Proof. intros [_ [?|[?|[? _]]]] Hd; by auto. Qed.

Lemma exit_inv_close k code k' :
  exit_inv k → main k = Closing code → stages k' = stages k → exit_calls k' = exit_calls k →
  ∀ c, code_ok k c → (c = ExitCodeForced ∨ c = ExitCodeErr ∨ c = ExitCodeOk) →
  exit_inv (with_main Done (callExitHandler c k')).
Proof.
  intros Hinv Hm Hst Hx c Hok Hc.
  pose proof (exit_inv_calls_before k Hinv ltac:(by rewrite Hm)) as Hcalls.
  destruct Hinv as [Hk _]. rewrite Hm in Hk. destruct Hk as (Hall & _).
  unfold exit_inv. simpl. rewrite Hx. split; [unfold allStagesStopped; simpl; by rewrite Hst|].
  destruct Hcalls as [->| ->]; [|by auto].
  destruct Hok as [->|[[-> Hnf]|[-> _]]]; [by auto | | by auto].
  right; right. split; [done|]. right. split; [done|]. unfold failed. simpl. by rewrite Hst.
Qed.

Lemma step_exit k k' : all_wf k → stop_inv k → step k k' → exit_inv k → exit_inv k'.
Proof.
  intros Hwf Hs Hstep Hinv.
  assert (allStagesStopped k → allStagesStopped k' ∧ (failed k' ↔ failed k)) as Hterm.
  { intros Hall. destruct (step_allStagesStopped k k' Hwf Hs Hall Hstep) as [Hm Ht].
    split; [by eapply allStagesStopped_eq | by apply failed_eq]. }
  destruct (exit_fields_Stop k) as [Hcode Hcalls].
  destruct Hstep; try (by apply (exit_inv_stays k); auto); rewrite ?main_Stop;
    try (by apply (exit_inv_before_leaving k); simpl; rewrite ?Hcode ?Hcalls; try done;
         match goal with H : main _ = _ |- _ => by rewrite H end).
  - destruct (exit_fields_conclude k) as [Hx Hst]. unfold exit_inv. simpl.
    pose proof (exit_inv_calls_before k Hinv ltac:(by rewrite H)) as Hb.
    destruct Hinv as [Hk _]. rewrite H in Hk. split; [split|].
    + intros i st. simpl. rewrite Hst. apply H0.
    + unfold code_ok, failed. simpl. rewrite Hst. by apply conclude_code.
    + rewrite Hx. destruct Hb; auto.
  - unfold exit_inv. simpl. pose proof (exit_inv_calls_before k Hinv ltac:(by rewrite H)) as Hb.
    destruct Hinv as [Hk _]. rewrite H in Hk. destruct Hk. split; [done|]. destruct Hb; auto.
  - eapply exit_inv_close; try done; destruct Hinv as [Hk _]; rewrite H in Hk;
      destruct Hk as (_ & Hc & _); [done|]. destruct Hc as [?|[[? _]|[? _]]]; by auto.
  - destruct (decide (exitCode k = ExitCodeForced)) as [He|He].
    + assert (exitCode (setExitCode ExitCodeErr k) = ExitCodeForced) as -> by (simpl; by case_decide).
      eapply (exit_inv_close k code); try done; by left.
    + assert (exitCode (setExitCode ExitCodeErr k) = ExitCodeErr) as Hec by (simpl; by case_decide).
      rewrite Hec. pose proof (exit_inv_calls_before k Hinv ltac:(by rewrite H)) as Hb.
      destruct Hinv as [Hk _]. rewrite H in Hk. destruct Hk as (Hall & _). unfold exit_inv. simpl.
      split; [exact Hall|]. destruct Hb as [->| ->]; auto 10.
  - apply (exit_inv_stays k); auto; unfold module_reports; destruct (module_report _ _) as [[] ?]; simpl; auto.
  - apply (exit_inv_stays k); auto; simpl; rewrite ?main_Stop; auto.
  - apply (exit_inv_stays k); auto; simpl; rewrite ?main_Stop; auto.
  - apply (exit_inv_stays k); auto. simpl. destruct (exit_calls k); auto.
Qed.

Lemma reachable_exit k : reachable cfgs k → exit_inv k.
Proof.
  apply (reachable_ind exit_inv).
  - split; simpl; auto.
  - intros k1 k2 Hr Hinv Hstep. destruct (reachable_base k1 Hr). by eapply step_exit.
Qed.

(** C2: the exit handler is called at most once; a kernel that leaves by itself
    does so after all its stages have terminated and with the code 1 if a module
    failed and 0 if none did (or 12 if the exit was forced meanwhile); and when the
    handler was called with 0, every module has ended and none has failed. *)
Theorem exit_code k :
  reachable cfgs k →
  length (exit_calls k) ≤ 1 ∧
  (∀ code, main k = Closing code → allStagesStopped k ∧ code_ok k code) ∧
  (exit_calls k = [ExitCodeOk] → ∀ i st n ms, stages k !! i = Some st → modules st !! n = Some ms →
     ms_phase ms = Terminated ∧ ∀ e, ms_err ms = Some e → significant e = false).
Proof.
  intros Hr. destruct (reachable_base k Hr) as [Hwf _].
  destruct (reachable_exit k Hr) as [Hm Hc]. split_and!.
  - destruct Hc as [->|[->|[_ [->|[-> _]]]]]; simpl; lia.
  - intros code Hcl. rewrite Hcl in Hm. tauto.
  - intros H0 i st n ms Hi Hms. rewrite H0 in Hc.
    destruct Hc as [?|[?|[Hd [?|[_ Hnf]]]]]; [done..|]. rewrite Hd in Hm. split.
    + specialize (Hm i st Hi). simpl in Hm.
      by apply (wf_terminated st (Hwf i st Hi)) in Hm as (_ & Ht & _); apply Ht in Hms.
    + intros e He. destruct (significant e) eqn:Hs; [|done]. destruct Hnf. exists i, st. split; [done|].
      by exists n, ms, e.
Qed.

(** ** A boot that fails *)

(** The main goroutine is past the boot although the stage [j] was never run. *)
Definition stuck k (j : Z) : Prop :=
  (main k = Up ∨ main k = WaitStopped) ∧ ∃ st, stages k !! j = Some st ∧ poisoned st = false.

Lemma step_stuck k k' j : reachable cfgs k → step k k' → stuck k j → stuck k' j.
Proof.
  intros Hr Hstep [Hm (st & Hj & Hp)].
  destruct (reachable_base k Hr) as [Hwf _]. pose proof (reachable_exit k' (rtc_r _ _ _ Hr Hstep)) as Hx.
  destruct (step_poisoned k k' Hstep) as [(i & rest & sti & Hb & _)|[Hpo Hmove]].
  { rewrite Hb in Hm. by destruct Hm. }
  destruct (fmap_lookup_eq poisoned (stages k') (stages k) j st (eq_sym Hpo) Hj) as (st' & Hj' & Hp').
  rewrite Hp in Hp'. split; [|by exists st'].
  assert (∀ i sti, stages k !! i = Some sti → poisoned sti = false → terminated sti = false) as Hnt.
  { intros i sti Hi Hpi. destruct (terminated sti) eqn:Ht; [|done].
    apply (wf_terminated sti (Hwf i sti Hi)) in Ht as (Hsp & _ & _).
    apply (wf_poisoned sti (Hwf i sti Hi)) in Hpi. congruence. }
  destruct Hmove as [->|Hmove]; [done|]. destruct Hm as [Hm|Hm]; rewrite Hm in Hmove; destruct (main k') eqn:Hm'; try done.
  { by right. }
  destruct (reachable_base k' (rtc_r _ _ _ Hr Hstep)) as [Hwf' _].
  destruct Hx as [Hx _]. rewrite Hm' in Hx. destruct Hx as [Hall _].
  specialize (Hall j st' Hj'). simpl in Hall.
  apply (wf_terminated st' (Hwf' j st' Hj')) in Hall as (Hsp & _ & _).
  apply (wf_poisoned st' (Hwf' j st' Hj')) in Hp'. congruence.
Qed.

(** When a stage does not get healthy in time and another stage was still to
    be run, that stage never terminates and the main goroutine waits for ever: the
    kernel exits by force only, with the code 12. *)
Theorem failed_boot_blocks k i j rest k' :
  reachable cfgs k → main k = WaitHealthy i (j :: rest) → rtc step (with_main Up (Stop k)) k' →
  (main k' = Up ∨ main k' = WaitStopped) ∧
  (∃ st, stages k' !! j = Some st ∧ terminated st = false) ∧
  (exit_calls k' = [] ∨ exit_calls k' = [ExitCodeForced]).
Proof.
  intros Hr Hm Hsteps. set (k0 := with_main Up (Stop k)) in *.
  assert (reachable cfgs k0) as Hr0 by (eapply rtc_r; [exact Hr | by eapply step_unhealthy]).
  assert (stuck k0 j) as Hstuck.
  { split; [by left|]. destruct (reachable_boot k Hr) as (started & l & Hidx & Hst & Hpc).
    rewrite Hm in Hpc. destruct Hpc as [<- _]. unfold k0. simpl. rewrite stages_Stop.
    assert (is_Some (stages k !! j)) as [st Hj].
    { apply elem_of_getIndices. rewrite Hidx. apply elem_of_app. right. by left. }
    exists st. split; [done|]. destruct (poisoned st) eqn:Hp; [|done].
    apply (Hst j st Hj) in Hp. pose proof (getIndices_sorted (stages k)) as Hs. rewrite Hidx in Hs.
    apply StronglySorted_app in Hs as (Hlt & _ & _). specialize (Hlt j j Hp ltac:(by left)). lia. }
  clearbody k0. clear Hr Hm.
  assert (reachable cfgs k' ∧ stuck k' j) as [Hr' Hstuck'].
  { induction Hsteps as [|k1 k2 k3 Hs _ IH]; [done|].
    apply IH; [by eapply rtc_r | by eapply step_stuck]. }
  destruct Hstuck' as [Hm (st & Hj & Hp)]. split; [done|].
  destruct (reachable_base k' Hr') as [Hwf _]. split.
  - exists st. split; [done|]. destruct (terminated st) eqn:Ht; [|done].
    apply (wf_terminated st (Hwf j st Hj)) in Ht as (Hsp & _ & _).
    apply (wf_poisoned st (Hwf j st Hj)) in Hp. congruence.
  - apply exit_inv_calls_before; [by apply reachable_exit|]. by destruct Hm as [->| ->].
Qed.

(** ** When the kernel stops *)

Definition early (ms : moduleState) : bool :=
  match ms_phase ms with Idle | Running | Exited => true | _ => false end.

(** What a module contributes to the count of the foreground modules: an
    essential one is never subtracted. *)
Definition weight (ms : moduleState) : Z :=
  if foreground ms && (essential (config ms) || early ms) then 1%Z else 0%Z.

Definition total (ss : gmap Z stage) : Z := msum (λ st, msum weight (modules st)) ss.

Lemma weight_nonneg ms : (0 ≤ weight ms)%Z.
Proof. unfold weight. case_match; lia. Qed.

Lemma msum_nonneg {A} (f : A → Z) `{Countable K} (m : gmap K A) : (∀ x, 0 ≤ f x)%Z → (0 ≤ msum f m)%Z.
Proof.
  intros Hf. induction m as [|i x m Hi IH] using map_ind; [by rewrite msum_empty|].
  rewrite msum_insert //. specialize (Hf x). lia.
Qed.

Lemma msum_elem {A} (f : A → Z) `{Countable K} (m : gmap K A) i x :
  (∀ x, 0 ≤ f x)%Z → m !! i = Some x → (f x ≤ msum f m)%Z.
Proof. intros Hf Hi. rewrite (msum_delete f m i x) //. pose proof (msum_nonneg f (delete i m) Hf). lia. Qed.

Lemma total_alter_module f n ss i st ms :
  ss !! i = Some st → modules st !! n = Some ms →
  total (alter (with_module f n) i ss) = (total ss - weight ms + weight (f ms))%Z.
Proof.
  intros Hi Hms. unfold total. rewrite (msum_alter _ _ _ _ st) //. simpl.
  rewrite (msum_alter _ _ _ _ ms) //. lia.
Qed.

Lemma total_alter_same f ss i st :
  ss !! i = Some st → modules (f st) = modules st → total (alter f i ss) = total ss.
Proof. intros Hi Hm. unfold total. rewrite (msum_alter _ _ _ _ st) // Hm. lia. Qed.

Lemma goroutine_ends_modules err st : modules (goroutine_ends err st) = modules st.
Proof. unfold goroutine_ends. by case_match. Qed.

Lemma total_alter_ext f g ss i st :
  ss !! i = Some st → modules (f st) = modules (g st) → total (alter f i ss) = total (alter g i ss).
Proof. intros Hi Hm. unfold total. rewrite !(msum_alter _ _ _ _ st) // Hm. done. Qed.

(** A module's goroutine is about to stop the kernel. *)
Definition pending k : Prop :=
  ∃ i st n ms, stages k !! i = Some st ∧ modules st !! n = Some ms ∧ ms_phase ms = Stopping.

(** An essential module or one with an error only ends after a Stop. *)
Definition guarded (ms : moduleState) : Prop :=
  essential (config ms) = true ∨ ms_err ms ≠ None → early ms = true ∨ ms_phase ms = Stopping.

Definition all_guarded k : Prop :=
  ∀ i st n ms, stages k !! i = Some st → modules st !! n = Some ms → guarded ms.

Definition count_inv k : Prop :=
  foregroundModules k = total (stages k) ∧
  (stopping k = true ∨ ((pending k ∨ 0 < foregroundModules k)%Z ∧ all_guarded k)).

(** A step of one module, in terms of the counts. *)
Lemma count_alter_module f k i n st ms c k' :
  stages k !! i = Some st → modules st !! n = Some ms →
  stages k' = alter (with_module f n) i (stages k) → foregroundModules k' = c → stopping k' = stopping k →
  (c = foregroundModules k - weight ms + weight (f ms))%Z →
  (stopping k = false → ms_phase ms ≠ Stopping) →
  (stopping k = false → guarded ms → guarded (f ms) ∧
     (ms_phase (f ms) = Stopping ∨ c = foregroundModules k ∨ (0 < c)%Z)) →
  count_inv k → count_inv k'.
Proof.
  intros Hi Hms Hst Hc Hs Hcount Hnp Hg [Ht Hinv]. unfold count_inv.
  rewrite Hc Hst Hs (total_alter_module f n _ i st ms) // -Ht. split; [done|].
  destruct Hinv as [?|[Hpos Hgd]]; [by left|]. destruct (stopping k) eqn:Hsk; [by left|right].
  specialize (Hnp eq_refl). destruct (Hg eq_refl (Hgd i st n ms Hi Hms)) as [Hgf Hc']. split.
  - assert (pending k → pending k') as Hpend.
    { intros (i' & st' & n' & ms' & Hi' & Hms' & Hph). unfold pending. rewrite Hst.
      destruct (decide (i' = i)) as [->|Hne].
      - simplify_eq. exists i, (with_module f n st), n', ms'. rewrite lookup_alter_eq Hi.
        split_and!; [done| |done]. simpl. rewrite lookup_alter_ne //. intros ->. by simplify_eq.
      - exists i', st', n', ms'. by rewrite lookup_alter_ne. }
    destruct Hc' as [Hph|[->|?]]; [|destruct Hpos; auto|by right].
    left. exists i, (with_module f n st), n, (f ms). rewrite Hst lookup_alter_eq Hi.
    split_and!; [done| |done]. by rewrite /= lookup_alter_eq Hms.
  - intros i' st' n' ms'. rewrite Hst.
    intros [(-> & y & ? & ->)|[Hne Hl]]%lookup_alter_Some; [|by eapply Hgd]. simplify_eq. simpl.
    intros [(-> & z & ? & ->)|[Hne Hl]]%lookup_alter_Some; [by simplify_eq | by eapply Hgd].
Qed.

(** A step that changes no module. *)
Lemma count_same k k' :
  modules <$> stages k' = modules <$> stages k → total (stages k') = total (stages k) →
  foregroundModules k' = foregroundModules k → (stopping k = true → stopping k' = true) →
  count_inv k → count_inv k'.
Proof.
  intros Hm Ht Hf Hs [Hc Hinv]. unfold count_inv. rewrite Hf Ht. split; [done|].
  destruct Hinv as [?|[Hpos Hg]]; [by left; auto|right]. split.
  - destruct Hpos as [(i & st & n & ms & Hi & Hms & Hph)|?]; [left|by right].
    destruct (fmap_lookup_eq modules (stages k') (stages k) i st (eq_sym Hm) Hi) as (st' & Hi' & Heq).
    exists i, st', n, ms. by rewrite Heq.
  - intros i st n ms Hi Hms. destruct (fmap_lookup_eq _ _ _ _ _ Hm Hi) as (st' & Hi' & Heq).
    eapply Hg; [done | by rewrite Heq].
Qed.

Lemma count_Stop k : count_inv k → count_inv (Stop k).
Proof.
  apply count_same; rewrite ?stages_Stop //; unfold Stop; by destruct (stopping k) eqn:Hs; simpl.
Qed.

Lemma stopping_Stop k : stopping (Stop k) = true.
Proof. unfold Stop. by destruct (stopping k) eqn:Hs. Qed.

Lemma count_alter_same f i k st :
  stages k !! i = Some st → modules (f st) = modules st → count_inv k → count_inv (alter_stage f i k).
Proof.
  intros Hi Hm. apply count_same; [by eapply fmap_alter_proj | by eapply total_alter_same | done..].
Qed.

Lemma weight_pos ms : (0 < weight ms)%Z → foreground ms = true ∧ (essential (config ms) = true ∨ early ms = true).
Proof.
  unfold weight. destruct (foreground ms), (essential (config ms)), (early ms); simpl; (lia || auto).
Qed.

Lemma module_reports_count i n st ms k :
  stages k !! i = Some st → modules st !! n = Some ms → ms_phase ms = Exited →
  count_inv k → count_inv (module_reports i n ms k).
Proof.
  intros Hi Hms Hph Hinv.
  assert (weight ms ≤ foregroundModules k)%Z as Hle.
  { rewrite (proj1 Hinv). transitivity (msum weight (modules st)).
    - apply (msum_elem weight _ n); [apply weight_nonneg | done].
    - apply (msum_elem (λ st, msum weight (modules st)) _ i); [|done].
      intros st'. apply msum_nonneg, weight_nonneg. }
  destruct (module_report ms (foregroundModules k)) as [stops c] eqn:Hrep.
  set (p := if stops then Stopping else Returning).
  eapply (count_alter_module (at_phase p) k i n st ms c); try done;
    unfold module_reports; rewrite ?Hrep; try done.
  - unfold module_report, weight, foreground, early in *. simpl. rewrite Hph in Hle |- *. unfold p.
    destruct (essential (config ms)), (background (config ms)); simpl in *; simplify_eq; simpl; try lia.
    destruct (_ || _); lia.
  - congruence.
  - intros _ _. unfold guarded, module_report, weight, foreground, early in *. rewrite Hph /= in Hle. unfold p. clear Hinv. simpl.
    destruct (essential (config ms)) eqn:He, (background (config ms)) eqn:Hb; simplify_eq; simpl in *; auto 10.
    + case_bool_decide; simpl; split; auto; by intros [?|?].
    + case_bool_decide; simpl; [by auto|]. destruct (foregroundModules k - 1 =? 0)%Z eqn:Hz; simpl; [by auto|].
      apply Z.eqb_neq in Hz.
      split; [by intros [?|?]|]. right; right. lia.
Qed.

Lemma count_ext k k' :
  stages k' = stages k → foregroundModules k' = foregroundModules k → stopping k' = stopping k →
  count_inv k → count_inv k'.
Proof. intros Hs Hf Hst. apply count_same; by rewrite ?Hs ?Hf ?Hst. Qed.

(** A step of a module's goroutine between two phases that count the same. *)
Lemma count_phase f k i n st ms :
  stages k !! i = Some st → modules st !! n = Some ms → config (f ms) = config ms →
  (early (f ms) = early ms) → (early ms = false → ms_err (f ms) = ms_err ms) → ms_phase ms ≠ Stopping →
  count_inv k → count_inv (alter_module f i n k).
Proof.
  intros Hi Hms Hc He Herr Hp. eapply (count_alter_module f k i n st ms (foregroundModules k)); try done.
  - unfold weight, foreground. rewrite Hc He. lia.
  - intros _ Hg. split; [|by auto]. unfold guarded in *. rewrite Hc He.
    destruct (early ms) eqn:Hea; [by left|]. rewrite Herr //. intros H. by destruct (Hg H).
Qed.

Lemma step_count k k' : step k k' → count_inv k → count_inv k'.
Proof.
  intros Hstep Hinv. pose proof (count_Stop k Hinv) as HStop.
  destruct Hstep; try done; try (by apply (count_ext k)); try (by apply (count_ext (Stop k))).
  - apply (count_ext (alter_stage run_stage i k)); try done. by eapply count_alter_same.
  - apply (count_ext k); [apply stages_conclude | unfold conclude; by case_decide.. | done].
  - eapply count_phase; try done; unfold early; rewrite ?H2 //.
  - by eapply count_alter_same.
  - eapply count_alter_same; [done| |done]. by rewrite goroutine_ends_modules.
  - eapply count_phase; try done; unfold early; rewrite ?H1 //.
  - by eapply module_reports_count.
  - eapply (count_alter_module (at_phase Returning) (Stop k) i n st ms (foregroundModules (Stop k)));
      try done; [by rewrite stages_Stop| |by rewrite stopping_Stop..].
    unfold weight, foreground, early. rewrite H1 /=. lia.
  - apply (count_same (alter_module (at_phase Terminated) i n k)); try done.
    + simpl. apply map_eq. intros j. rewrite !lookup_fmap.
      destruct (decide (j = i)) as [->|Hne]; [|by rewrite !lookup_alter_ne].
      by rewrite !lookup_alter_eq H /= goroutine_ends_modules.
    + simpl. eapply total_alter_ext; [done|]. by rewrite goroutine_ends_modules.
    + eapply count_phase; try done; unfold early; rewrite ?H1 //.
  - apply (count_ext (alter_stage (λ st, with_cfn (Kill (Some ErrKernelStopping) (cfn st)) st) i k)); try done.
    by eapply count_alter_same.
  - apply (count_ext (alter_stage (stop_concluded o) i k)); try done. by eapply count_alter_same.
  - by eapply count_alter_same.
Qed.

Lemma start_count :
  (∃ i ms n c, cfgs !! i = Some ms ∧ ms !! n = Some c ∧ background c = false) → count_inv (start cfgs).
Proof.
  intros (i & ms & n & c & Hi & Hn & Hc). unfold count_inv, start. simpl.
  assert (∀ j st n ms, (fresh_stage <$> cfgs) !! j = Some st → modules st !! n = Some ms →
    early ms = true) as Hearly.
  { intros j st n' ms'. rewrite lookup_fmap fmap_Some. intros (cs & _ & ->). simpl.
    rewrite lookup_fmap fmap_Some. by intros (? & _ & ->). }
  assert (countForegroundModules (fresh_stage <$> cfgs) = total (fresh_stage <$> cfgs)) as Heq.
  { rewrite countForegroundModules_msum. apply msum_ext. intros j st Hj.
    apply msum_ext. intros n' ms' Hms. unfold weight. rewrite (Hearly j st n' ms') // orb_true_r.
    by destruct (foreground ms'). }
  split; [done|]. right. rewrite Heq. split.
  - right. unfold total. apply Z.lt_le_trans with (msum weight (modules (fresh_stage ms))).
    + apply Z.lt_le_trans with 1%Z; [lia|].
      transitivity (weight {| config := c; ms_phase := Idle; ms_err := None |}).
      * unfold weight, foreground, early. simpl. rewrite Hc /= orb_true_r. done.
      * apply (msum_elem weight _ n); [apply weight_nonneg|]. simpl. by rewrite lookup_fmap Hn.
    + apply (msum_elem (λ st, msum weight (modules st)) _ i);
        [intros; apply msum_nonneg, weight_nonneg | by rewrite lookup_fmap Hi].
  - intros j st n' ms' Hj Hms _. left. by eapply Hearly.
Qed.

(** C3: a kernel with a foreground module stops, or is about to, as soon as no
    foreground module runs any more, as soon as an essential module has ended, and
    as soon as a module has ended with an error; the module's goroutine only ends
    after that. *)
Theorem kernel_stops k :
  (∃ i ms n c, cfgs !! i = Some ms ∧ ms !! n = Some c ∧ background c = false) → reachable cfgs k →
  ((∀ i st n ms, stages k !! i = Some st → modules st !! n = Some ms →
      foreground ms = true → early ms = false) → stopping k = true ∨ pending k) ∧
  (∀ i st n ms, stages k !! i = Some st → modules st !! n = Some ms →
     ms_phase ms = Returning ∨ ms_phase ms = Terminated →
     essential (config ms) = true ∨ ms_err ms ≠ None → stopping k = true).
Proof.
  intros Hfg Hr. assert (count_inv k) as [Hc Hinv].
  { revert k Hr. apply (reachable_ind count_inv); [by apply start_count|].
    intros k1 k2 _ Hk Hs. by eapply step_count. }
  split.
  - intros Hnone. destruct Hinv as [?|[[?|Hpos] Hg]]; [by left | by right |]. rewrite Hc in Hpos.
    apply msum_pos in Hpos as (i & st & Hi & Hst); [|intros; apply msum_nonneg, weight_nonneg].
    apply msum_pos in Hst as (n & ms & Hms & Hw); [|apply weight_nonneg].
    apply weight_pos in Hw as [Hf Hw]. specialize (Hnone i st n ms Hi Hms Hf).
    destruct Hw as [He|He]; [|congruence].
    destruct (Hg i st n ms Hi Hms (or_introl He)) as [?|Hph]; [congruence|]. right. by exists i, st, n, ms.
  - intros i st n ms Hi Hms Hph Hess. destruct Hinv as [?|[_ Hg]]; [done|].
    specialize (Hg i st n ms Hi Hms Hess). unfold early in Hg.
    destruct Hph as [Hph|Hph]; rewrite Hph in Hg; by destruct Hg.
Qed.
End Invariants.

(** ** Running a kernel

    A choice names the goroutine that goes on, or what the environment does;
    [perform] takes the step, so that a list of choices gives a reachable state. *)
Inductive choice :=
| RunStage | Healthy | Unhealthy | IsUp | AllDying | AllStopped | Leave | Close
| Spawn (i : Z) (n : string) | AllSpawned (i : Z) | SpawnerEnds (i : Z)
| ModuleExits (i : Z) (n : string) (err : option kernel_error) | ModuleReports (i : Z) (n : string)
| ModuleStops (i : Z) (n : string) | ModuleEnds (i : Z) (n : string)
| StopKill | StopWait | Signal | ForceSignal | Forced.

Definition lookup_module (k : kernel) (i : Z) (n : string) : option moduleState :=
  st ← stages k !! i; modules st !! n.

Definition perform (c : choice) (k : kernel) : option kernel :=
  match c with
  | RunStage =>
      match main k with
      | Boot (i :: rest) =>
          st ← stages k !! i;
          if poisoned st then None else Some (with_main (WaitHealthy i rest) (alter_stage run_stage i k))
      | _ => None
      end
  | Healthy => match main k with WaitHealthy i rest => Some (with_main (Boot rest) k) | _ => None end
  | Unhealthy => match main k with WaitHealthy i rest => Some (with_main Up (Stop k)) | _ => None end
  | IsUp => match main k with Boot [] => Some (with_main Up k) | _ => None end
  | AllDying =>
      match main k with
      | Up => if bool_decide (map_Forall (λ _ st, match cfn st with Alive => false | _ => true end = true) (stages k))
              then Some (with_main WaitStopped (Stop k)) else None
      | _ => None
      end
  | AllStopped =>
      match main k with
      | WaitStopped => if bool_decide (map_Forall (λ _ st, terminated st = true) (stages k))
                       then Some (with_main Leaving (conclude k)) else None
      | _ => None
      end
  | Leave => match main k with Leaving => Some (with_main (Closing (exitCode k)) k) | _ => None end
  | Close => match main k with Closing code => Some (with_main Done (callExitHandler code k)) | _ => None end
  | Spawn i n =>
      st ← stages k !! i; ms ← modules st !! n;
      if bool_decide (st_spawner st = Spawning ∧ ms_phase ms = Idle)
      then Some (alter_module (at_phase Running) i n k) else None
  | AllSpawned i =>
      st ← stages k !! i;
      if bool_decide (st_spawner st = Spawning ∧ map_Forall (λ _ ms, ms_phase ms ≠ Idle) (modules st))
      then Some (alter_stage (with_spawner Spawned true) i k) else None
  | SpawnerEnds i =>
      st ← stages k !! i;
      if bool_decide (st_spawner st = Spawned)
      then Some (alter_stage (λ st, goroutine_ends None (with_spawner SpawnerDone (st_running st) st)) i k)
      else None
  | ModuleExits i n err =>
      ms ← lookup_module k i n;
      if bool_decide (ms_phase ms = Running) then Some (alter_module (module_exits err) i n k) else None
  | ModuleReports i n =>
      ms ← lookup_module k i n;
      if bool_decide (ms_phase ms = Exited) then Some (module_reports i n ms k) else None
  | ModuleStops i n =>
      ms ← lookup_module k i n;
      if bool_decide (ms_phase ms = Stopping) then Some (alter_module (at_phase Returning) i n (Stop k)) else None
  | ModuleEnds i n =>
      ms ← lookup_module k i n;
      if bool_decide (ms_phase ms = Returning)
      then Some (alter_stage (λ st, goroutine_ends (ms_err ms) (with_module (at_phase Terminated) n st)) i k)
      else None
  | StopKill =>
      match stop_todo k with
      | Some (i :: l, false) =>
          st ← stages k !! i;
          if st_running st
          then Some (with_stop (i :: l, true)
                 (alter_stage (λ st, with_cfn (Kill (Some ErrKernelStopping) (cfn st)) st) i k))
          else None
      | _ => None
      end
  | StopWait =>
      match stop_todo k with
      | Some (i :: l, true) =>
          st ← stages k !! i;
          if all_finished st then Some (with_stop (l, false) (alter_stage (stop_concluded canonical_order) i k))
          else None
      | _ => None
      end
  | Signal => Some (Stop k)
  | ForceSignal => if stopping k then Some (forceExit k) else None
  | Forced => if forcing k then Some (forced k) else None
  end.

Lemma lookup_module_Some k i n ms :
  lookup_module k i n = Some ms → ∃ st, stages k !! i = Some st ∧ modules st !! n = Some ms.
Proof. unfold lookup_module. intros (st & Hi & Hms)%bind_Some. by exists st. Qed.

Lemma perform_step c k k' : perform c k = Some k' → step k k'.
Proof.
  destruct c; simpl; intros Hp;
    repeat (first [apply bind_Some in Hp as (? & ? & Hp) | case_bool_decide | case_match]; simplify_eq);
    destruct_and?; simplify_eq;
    try match goal with H : lookup_module _ _ _ = _ |- _ => apply lookup_module_Some in H as (? & ? & ?) end;
    try (by econstructor).
  apply step_all_dying; [done|]. intros i st Hi.
  match goal with H : map_Forall _ (stages k) |- _ => specialize (H i st Hi) end.
  simpl in *. by destruct (cfn st).
Qed.

Definition run (cs : list choice) (k : kernel) : option kernel :=
  fold_left (λ ok c, ok ≫= perform c) cs (Some k).

Lemma run_reachable cfgs cs k : run cs (start cfgs) = Some k → reachable cfgs k.
Proof.
  unfold run, reachable. generalize (start cfgs). revert k.
  induction cs as [|c cs IH]; intros k k0; simpl; [by intros [= ->]; apply rtc_refl|].
  destruct (perform c k0) as [k1|] eqn:Hc; simpl; intros Hrun.
  - eapply rtc_l; [by eapply perform_step | by apply IH].
  - exfalso. clear IH. by induction cs.
Qed.

(** An application with a background stage and one with a foreground module. *)
Definition sample_cfgs : gmap Z (gmap string moduleConfig) :=
  <[0%Z := {["metrics"%string := {| essential := true; background := true; mc_stage := 0 |}]}]>
  {[2048%Z := {["app"%string := {| essential := false; background := false; mc_stage := 2048 |}]}]}.

Definition sample_boot : list choice :=
  [RunStage; Spawn 0 "metrics"; AllSpawned 0; SpawnerEnds 0; Healthy;
   RunStage; Spawn 2048 "app"; AllSpawned 2048; SpawnerEnds 2048; Healthy; IsUp].

Definition sample_end (err : option kernel_error) : list choice :=
  [ModuleExits 2048 "app" err; ModuleReports 2048 "app"; ModuleStops 2048 "app"; ModuleEnds 2048 "app";
   StopKill; StopWait; StopKill].

Definition sample_leave : list choice :=
  [ModuleExits 0 "metrics" None; ModuleReports 0 "metrics"; ModuleStops 0 "metrics"; ModuleEnds 0 "metrics";
   StopWait; AllDying; AllStopped; Leave; Close].

Definition sample_failure : kernel_error :=
  {| is_stopping := false; is_canceled := false; message := "boom" |}.

Definition sample_state (cs : list choice) : kernel := default (start sample_cfgs) (run cs (start sample_cfgs)).

Lemma sample_reachable cs : reachable sample_cfgs (sample_state cs).
Proof.
  unfold sample_state. destruct (run cs (start sample_cfgs)) as [k|] eqn:Hr; [|apply rtc_refl].
  by eapply run_reachable.
Qed.

Example sample_exit_ok :
  exit_calls (sample_state (sample_boot ++ sample_end None ++ sample_leave)) = [ExitCodeOk].
Proof. by vm_compute. Qed.

Example sample_exit_err :
  exit_calls (sample_state (sample_boot ++ sample_end (Some sample_failure) ++ sample_leave)) = [ExitCodeErr].
Proof. by vm_compute. Qed.

Lemma shutdown_order_witness :
  terminated <$> (stages (sample_state (sample_boot ++ sample_end None)) !! 2048%Z) = Some true.
Proof.
  destruct (stages (sample_state (sample_boot ++ sample_end None)) !! 2048%Z) as [st|] eqn:Hst;
    [|vm_compute in Hst; discriminate Hst].
  apply (f_equal Some), (shutdown_order sample_cfgs _ 0 2048 st
    (sample_reachable (sample_boot ++ sample_end None))); [|lia | exact Hst].
  right. exists []. vm_compute. reflexivity.
Defined.

Lemma boot_order_witness :
  (λ ms, ms_phase ms) <$> lookup_module (sample_state [RunStage; Spawn 0 "metrics"]) 2048 "app" = Some Idle.
Proof.
  destruct (lookup_module (sample_state [RunStage; Spawn 0 "metrics"]) 2048 "app") as [ms|] eqn:Hms;
    [|vm_compute in Hms; discriminate Hms].
  apply lookup_module_Some in Hms as (stj & Hj & Hms).
  destruct (stages (sample_state [RunStage; Spawn 0 "metrics"]) !! 0%Z) as [sti|] eqn:Hi;
    [|vm_compute in Hi; discriminate Hi].
  apply (f_equal Some), (boot_order sample_cfgs _ 0 2048 sti stj "app" ms
    (sample_reachable [RunStage; Spawn 0 "metrics"])); try done.
  right. exists [2048%Z]. vm_compute. reflexivity.
Defined.

Lemma exit_code_witness :
  (λ ms, ms_phase ms) <$> lookup_module (sample_state (sample_boot ++ sample_end None ++ sample_leave)) 2048 "app" =
  Some Terminated.
Proof.
  destruct (lookup_module (sample_state (sample_boot ++ sample_end None ++ sample_leave)) 2048 "app")
    as [ms|] eqn:Hms; [|vm_compute in Hms; discriminate Hms].
  apply lookup_module_Some in Hms as (stj & Hj & Hms).
  destruct (exit_code sample_cfgs _ (sample_reachable (sample_boot ++ sample_end None ++ sample_leave)))
    as (_ & _ & Hok).
  apply (f_equal Some), (Hok sample_exit_ok 2048%Z stj "app"%string ms Hj Hms).
Defined.

Lemma failed_boot_blocks_witness :
  exit_calls (sample_state [RunStage; Unhealthy; ForceSignal; Forced]) = [] ∨
  exit_calls (sample_state [RunStage; Unhealthy; ForceSignal; Forced]) = [ExitCodeForced].
Proof.
  eapply (failed_boot_blocks sample_cfgs (sample_state [RunStage]) 0 2048 []);
    [apply sample_reachable | vm_compute; reflexivity|].
  eapply rtc_l; [apply (perform_step ForceSignal); vm_compute; reflexivity|].
  eapply rtc_l; [apply (perform_step Forced); vm_compute; reflexivity | apply rtc_refl].
Defined.

Lemma kernel_stops_witness :
  stopping (sample_state (sample_boot ++ sample_end None ++
    [ModuleExits 0 "metrics" None; ModuleReports 0 "metrics"; ModuleStops 0 "metrics"])) = true.
Proof.
  set (cs := sample_boot ++ sample_end None ++ _).
  destruct (kernel_stops sample_cfgs (sample_state cs)) as [_ Hess];
    [by exists 2048%Z, {["app"%string := {| essential := false; background := false; mc_stage := 2048 |}]},
       "app"%string, {| essential := false; background := false; mc_stage := 2048 |}
    | apply sample_reachable |].
  destruct (lookup_module (sample_state cs) 0 "metrics") as [ms|] eqn:Hms; [|vm_compute in Hms; discriminate Hms].
  assert (ms_phase ms = Returning ∧ essential (config ms) = true) as [Hph He].
  { vm_compute in Hms. injection Hms as <-. by split. }
  apply lookup_module_Some in Hms as (st & Hi & Hms).
  apply (Hess 0%Z st "metrics"%string ms Hi Hms); [by left | by left].
Defined.
