(* ===== verification/KernelFactory.v ===== *)
(** * pkg/kernel: building the kernel

    From the blueprint's factories to the stages of a kernel: what a module says
    about itself, the options that overwrite it, the stage it is added to, and the
    errors of a build.  The factories of an application are given by what they
    return; the middlewares are built in the order of their positions; health
    check results and what the kernel makes of them are at the end. *)
From S2P Require Import Prelude.
From S2P Require Import Kernel.
From S2P Require Import KernelSafety.

(** ** Modules *)

(** A module: what it implements of TypedModule, StagedModule and
    HealthCheckedModule. *)
Record module := {
  typed : option (bool * bool);
  staged : option Z;
}.

Definition StageEssential : Z := 0.
Definition StageProducerDaemon : Z := 0x200.
Definition StageService : Z := 0x400.
Definition StageApplication : Z := 0x800.

(** [pkg/kernel/module.go:33-39] isModuleEssential *)
Definition isModuleEssential (m : module) : bool :=
  match typed m with Some (IsEssential, _) => IsEssential | None => false end.

(** [pkg/kernel/module.go:41-47] isModuleBackground *)
Definition isModuleBackground (m : module) : bool :=
  match typed m with Some (_, IsBackground) => IsBackground | None => false end.

(** [pkg/kernel/module.go:49-55] getModuleStage *)
Definition getModuleStage (m : module) : Z := default StageApplication (staged m).

(** [pkg/kernel/module.go:57-63] getModuleConfig *)
Definition getModuleConfig (m : module) : moduleConfig :=
  {| essential := isModuleEssential m; background := isModuleBackground m; mc_stage := getModuleStage m |}.

(** [pkg/kernel/module.go:87-101] moduleConfig.GetType *)
Definition GetType (mc : moduleConfig) : string :=
  if essential mc then if background mc then "essential-background" else "essential"
  else if background mc then "background" else "foreground".

(** ** Options *)

(** [pkg/kernel/module_options.go:3-3] the type ModuleOption *)
Definition ModuleOption : Type := moduleConfig → moduleConfig.

(** [pkg/kernel/module_options.go:13-19] ModuleType *)
Definition ModuleType (moduleType : bool * bool) : ModuleOption := λ ms,
  {| essential := moduleType.1; background := moduleType.2; mc_stage := mc_stage ms |}.

(** [pkg/kernel/module_options.go:26-30] ModuleStage *)
Definition ModuleStage (moduleStage : Z) : ModuleOption := λ ms,
  {| essential := essential ms; background := background ms; mc_stage := moduleStage |}.

(** [pkg/kernel/module_options.go:33-39] MergeOptions *)
Definition MergeOptions (options : list ModuleOption) : ModuleOption := λ ms,
  fold_left (λ ms opt, opt ms) options ms.

(** ** Blueprints *)

(** What a module factory returns: an error, no module (nil), or a module. *)
Definition ModuleFactory : Type := result go_error (option module).

(** [pkg/kernel/blueprint.go:10-14] blueprintModule *)
Record blueprintModule := { bm_name : string; bm_factory : ModuleFactory; bm_options : list ModuleOption }.

Inductive Position := PositionBeginning | PositionEnd.

Section Factory.
Context {M S : Type}.

(** [pkg/kernel/blueprint.go:16-22] blueprint, and blueprintMiddleware *)
Record blueprint := {
  middlewareFactories : list (result go_error M * Position);
  moduleFactories : list blueprintModule;
  multiModuleFactories : list (result go_error (gmap string ModuleFactory));
  shutdownHandlerFactories : list (result go_error S);
}.

(** [pkg/kernel/factory.go:16-26] factory *)
Record factory := {
  f_middlewares : list M;
  f_shutdownHandlers : list S;
  f_stages : gmap Z stage;
}.
Implicit Types (f : factory) (ss : gmap Z stage).

Definition ErrNoModulesToRun : go_error := EMsg "no modules to run".
Definition ErrNoForeground : go_error := EMsg "no foreground modules to run".

(** [pkg/kernel/stages.go:7-16] stages.hasModules *)
Definition hasModules ss : bool :=
  bool_decide (map_Exists (λ _ st, modules st ≠ ∅) ss).

(** [pkg/kernel/stage.go:43-67] newStage: the settings were read before *)
Definition newStage : stage := fresh_stage ∅.

Definition insert_module (name : string) (ms : moduleState) (st : stage) : stage :=
  {| poisoned := poisoned st; st_spawner := st_spawner st; st_running := st_running st; cfn := cfn st;
     st_err := st_err st; terminated := terminated st; modules := <[name := ms]> (modules st) |}.

(** [pkg/kernel/factory.go:175-205] factory.addModuleToStage *)
Definition addModuleToStage (name : string) (m : module) (opts : list ModuleOption) ss :
    gmap Z stage * option go_error :=
  let ms := {| config := MergeOptions opts (getModuleConfig m); ms_phase := Idle; ms_err := None |} in
  let i := mc_stage (config ms) in
  let '(ss, st) := match ss !! i with
                   | Some st => (ss, st)
                   | None => (<[i := newStage]> ss, newStage)
                   end in
  if map_has (modules st) name then (ss, Some (EMsg "failed to add new module: module exists"))
  else (<[i := insert_module name ms st]> ss, None).

(** [pkg/kernel/factory.go:109-126] factory.buildModuleFactory *)
Definition buildModuleFactory (name : string) (mf : ModuleFactory) (opts : list ModuleOption) ss :
    gmap Z stage * option go_error :=
  match mf with
  | Err err => (ss, Some (EWrap "can not build module" err))
  | Ok None => (ss, None)
  | Ok (Some m) =>
      match addModuleToStage name m opts ss with
      | (ss, Some err) => (ss, Some (EWrap "can not add module to stage" err))
      | (ss, None) => (ss, None)
      end
  end.

(** A loop over module factories that ends with the first error. *)
Fixpoint buildModules (mfs : list blueprintModule) ss : gmap Z stage * option go_error :=
  match mfs with
  | [] => (ss, None)
  | mf :: mfs =>
      match buildModuleFactory (bm_name mf) (bm_factory mf) (bm_options mf) ss with
      | (ss, Some err) => (ss, Some err)
      | (ss, None) => buildModules mfs ss
      end
  end.

Definition without_options (kv : string * ModuleFactory) : blueprintModule :=
  {| bm_name := kv.1; bm_factory := kv.2; bm_options := [] |}.

(** [pkg/kernel/factory.go:128-143] factory.buildMultiModuleFactory *)
Definition buildMultiModuleFactory (o : map_order string ModuleFactory)
    (mmf : result go_error (gmap string ModuleFactory)) ss : gmap Z stage * option go_error :=
  match mmf with
  | Err err => (ss, Some err)
  | Ok mfs => buildModules (without_options <$> enum o mfs) ss
  end.

(** [pkg/kernel/factory.go:87-91] the loop over the multi module factories *)
Fixpoint buildMultiModules (o : map_order string ModuleFactory)
    (mmfs : list (result go_error (gmap string ModuleFactory))) ss : gmap Z stage * option go_error :=
  match mmfs with
  | [] => (ss, None)
  | mmf :: mmfs =>
      match buildMultiModuleFactory o mmf ss with
      | (ss, Some err) => (ss, Some err)
      | (ss, None) => buildMultiModules o mmfs ss
      end
  end.

(** [pkg/kernel/factory.go:145-160] factory.buildMiddleware, for each of the list *)
Fixpoint buildMiddlewares (mws : list (result go_error M * Position)) (acc : list M) : result go_error (list M) :=
  match mws with
  | [] => Ok acc
  | (Err err, _) :: _ => Err (EWrap "can not create middleware" err)
  | (Ok m, PositionBeginning) :: mws => buildMiddlewares mws (m :: acc)
  | (Ok m, PositionEnd) :: mws => buildMiddlewares mws (acc ++ [m])
  end.

(** [pkg/kernel/factory.go:162-173] factory.buildShutdownHandler, for each of the list *)
Fixpoint buildShutdownHandlers (sfs : list (result go_error S)) (acc : list S) : result go_error (list S) :=
  match sfs with
  | [] => Ok acc
  | Err err :: _ => Err (EWrap "can not create shutdown handler" err)
  | Ok h :: sfs => buildShutdownHandlers sfs (acc ++ [h])
  end.

(** [pkg/kernel/factory.go:65-107] factory.build *)
Definition build (o : map_order string ModuleFactory) (bp : blueprint) : result go_error factory :=
  let! mws := buildMiddlewares (middlewareFactories bp) [] in
  match buildModules (moduleFactories bp) ∅ with
  | (_, Some err) => Err err
  | (ss, None) =>
      match buildMultiModules o (multiModuleFactories bp) ss with
      | (_, Some err) => Err err
      | (ss, None) =>
          let! hs := buildShutdownHandlers (shutdownHandlerFactories bp) [] in
          if negb (hasModules ss) then Err ErrNoModulesToRun
          else if (countForegroundModules ss =? 0)%Z then Err ErrNoForeground
          else Ok {| f_middlewares := mws; f_shutdownHandlers := hs; f_stages := ss |}
      end
  end.

(** [pkg/kernel/factory.go:52-63] factory.GetKernel, and Run up to the first stage *)
Definition GetKernel f : kernel :=
  {| stages := f_stages f; main := Boot (getIndices (f_stages f)); stopping := false; stop_todo := None;
     foregroundModules := countForegroundModules (f_stages f); killer_armed := false; forcing := false;
     exitCode := ExitCodeErr; exit_calls := [] |}.

(** [pkg/kernel/kernel.go:178-180] the middlewares around the run handler: the
    first one is the outermost *)
Definition wrap_handler {H : Type} (apply : M → H → H) (middlewares : list M) (runHandler : H) : H :=
  fold_left (λ h m, apply m h) (reverse middlewares) runHandler.
End Factory.
Arguments blueprint : clear implicits.
Arguments factory : clear implicits.

(** ** What a build gives *)

(** The modules of a blueprint with their configuration, in the order they are
    built; a factory that returns nil gives none. *)
Definition entry (bm : blueprintModule) : option (string * moduleConfig) :=
  match bm_factory bm with
  | Ok (Some m) => Some (bm_name bm, MergeOptions (bm_options bm) (getModuleConfig m))
  | Ok None | Err _ => None
  end.

Definition key_of (e : string * moduleConfig) : Z * string := (mc_stage e.2, e.1).

(** The configurations by stage and name. *)
Definition configs : Type := gmap Z (gmap string moduleConfig).
Implicit Types (cfgs : configs) (e : string * moduleConfig).

Definition config_at cfgs (k : Z * string) : option moduleConfig := cfgs !! k.1 ≫= λ cs, cs !! k.2.

Definition add_entry cfgs e : configs :=
  <[mc_stage e.2 := <[e.1 := e.2]> (default ∅ (cfgs !! mc_stage e.2))]> cfgs.

Lemma config_at_add cfgs e k :
  config_at (add_entry cfgs e) k = if decide (k = key_of e) then Some e.2 else config_at cfgs k.
Proof.
  destruct e as [n c], k as [i m]. unfold config_at, add_entry, key_of. simpl.
  destruct (decide (i = mc_stage c)) as [->|Hi].
  - rewrite lookup_insert_eq. simpl. destruct (decide (m = n)) as [->|Hm].
    + rewrite lookup_insert_eq. by case_decide.
    + rewrite lookup_insert_ne //. case_decide; [congruence|].
      by destruct (cfgs !! mc_stage c).
  - rewrite lookup_insert_ne //. case_decide; [congruence | done].
Qed.

(** No module is in the stages yet, and none is named twice in a stage. *)
Definition fits cfgs (es : list (string * moduleConfig)) : Prop :=
  NoDup (key_of <$> es) ∧ Forall (λ e, config_at cfgs (key_of e) = None) es.

Lemma fits_cons cfgs e es :
  fits cfgs (e :: es) ↔ config_at cfgs (key_of e) = None ∧ fits (add_entry cfgs e) es.
Proof.
  unfold fits. rewrite fmap_cons NoDup_cons Forall_cons !Forall_forall.
  split; intros H; destruct_and!; split_and!; try done.
  - intros e' He'. rewrite config_at_add. case_decide as Hk; [|by auto].
    destruct H. rewrite -Hk. by apply list_elem_of_fmap_2.
  - intros (e' & Hk & He')%list_elem_of_fmap.
    specialize (H2 e' He'). rewrite config_at_add -Hk in H2. by case_decide.
  - intros e' He'. specialize (H2 e' He'). rewrite config_at_add in H2. by case_decide.
Qed.

Lemma config_at_fold es cfgs k c :
  fits cfgs es →
  config_at (fold_left add_entry es cfgs) k = Some c ↔
  config_at cfgs k = Some c ∨ ∃ n, (n, c) ∈ es ∧ key_of (n, c) = k.
Proof.
  revert cfgs. induction es as [|e es IH]; intros cfgs Hfit; simpl.
  { split; [by left | intros [?|(n & Hin & _)]; [done | by apply elem_of_nil in Hin]]. }
  apply fits_cons in Hfit as [Hnone Hfit]. rewrite (IH _ Hfit) config_at_add.
  case_decide as Hk; [subst k|].
  - rewrite Hnone. split.
    + intros [[= <-]|(n & Hin & Hk)]; right; [exists e.1 | exists n].
      * split; [destruct e; by left | by destruct e].
      * split; [by right | done].
    + intros [?|(n & [Heq|Hin]%elem_of_cons & Hk)]; [done | left; by rewrite -Heq | right; by exists n].
  - split; (intros [?|(n & Hin & Hkn)]; [by left | right; exists n]).
    + split; [by right | done].
    + apply elem_of_cons in Hin as [Heq|Hin]; [destruct Hk; by rewrite -Heq Hkn | done].
Qed.

Lemma addModuleToStage_fresh name m opts cfgs :
  let e := (name, MergeOptions opts (getModuleConfig m)) in
  match addModuleToStage name m opts (fresh_stage <$> cfgs) with
  | (ss, None) => config_at cfgs (key_of e) = None ∧ ss = fresh_stage <$> add_entry cfgs e
  | (_, Some _) => config_at cfgs (key_of e) ≠ None
  end.
Proof.
  unfold addModuleToStage, config_at, key_of, add_entry. simpl. set (c := MergeOptions opts _).
  assert ((fresh_stage <$> cfgs) !! mc_stage c = fresh_stage <$> cfgs !! mc_stage c) as -> by apply lookup_fmap.
  destruct (cfgs !! mc_stage c) as [cs|] eqn:Hi; csimpl.
  - unfold map_has. simpl. rewrite lookup_fmap. destruct (cs !! name) as [c'|] eqn:Hn; csimpl; [done|].
    split; [done|]. rewrite fmap_insert. f_equal. unfold insert_module, fresh_stage. simpl.
    by rewrite fmap_insert.
  - unfold map_has. rewrite fmap_empty lookup_empty. split; [done|].
    rewrite insert_insert_eq fmap_insert. f_equal. unfold insert_module, fresh_stage. simpl.
    by rewrite fmap_insert fmap_empty.
Qed.

Definition entries (mfs : list blueprintModule) : list (string * moduleConfig) := omap entry mfs.

Definition factory_ok (bm : blueprintModule) : Prop := ∃ om, bm_factory bm = Ok om.

Lemma entries_cons bm mfs :
  entries (bm :: mfs) = match entry bm with Some e => e :: entries mfs | None => entries mfs end.
Proof. done. Qed.

Lemma buildModules_fresh mfs cfgs :
  match buildModules mfs (fresh_stage <$> cfgs) with
  | (ss, None) => Forall factory_ok mfs ∧ fits cfgs (entries mfs) ∧
      ss = fresh_stage <$> fold_left add_entry (entries mfs) cfgs
  | (_, Some _) => ¬ (Forall factory_ok mfs ∧ fits cfgs (entries mfs))
  end.
Proof.
  revert cfgs. induction mfs as [|bm mfs IH]; intros cfgs.
  { split_and!; [constructor | by split; [constructor | constructor] | done]. }
  cbn [buildModules]. unfold buildModuleFactory. destruct (bm_factory bm) as [[m|]|err] eqn:Hbm.
  - pose proof (addModuleToStage_fresh (bm_name bm) m (bm_options bm) cfgs) as Hadd. simpl in Hadd.
    set (e := (bm_name bm, MergeOptions (bm_options bm) (getModuleConfig m))) in *.
    assert (entries (bm :: mfs) = e :: entries mfs) as He by (rewrite entries_cons /entry Hbm //).
    assert (factory_ok bm) as Hok by by eexists.
    destruct (addModuleToStage _ _ _ _) as [ss [err|]]; rewrite He.
    + rewrite Forall_cons fits_cons. tauto.
    + destruct Hadd as [Hnone ->]. specialize (IH (add_entry cfgs e)).
      destruct (buildModules mfs _) as [ss [err|]]; rewrite Forall_cons fits_cons; [tauto|].
      destruct IH as (?&?&->). by auto.
  - assert (entries (bm :: mfs) = entries mfs) as He by (rewrite entries_cons /entry Hbm //).
    assert (factory_ok bm) as Hok by by eexists.
    specialize (IH cfgs). destruct (buildModules mfs _) as [ss [err|]]; rewrite He Forall_cons; tauto.
  - rewrite Forall_cons. intros [[[om Hom] _] _]. congruence.
Qed.

Lemma buildModules_app l1 l2 ss :
  buildModules (l1 ++ l2) ss =
  match buildModules l1 ss with
  | (ss, Some err) => (ss, Some err)
  | (ss, None) => buildModules l2 ss
  end.
Proof.
  revert ss. induction l1 as [|bm l1 IH]; intros ss; [done|]. simpl.
  destruct (buildModuleFactory _ _ _ _) as [ss' [err|]]; [done | apply IH].
Qed.

(** The factories of the multi module factories, in the order they are built. *)
Definition multi_modules (o : map_order string ModuleFactory)
    (mmfs : list (result go_error (gmap string ModuleFactory))) : list blueprintModule :=
  flat_map (λ mmf, match mmf with Ok mfs => without_options <$> enum o mfs | Err _ => [] end) mmfs.

Definition is_Ok {E A} (r : result E A) : Prop := ∃ a, r = Ok a.

Lemma buildMultiModules_flat o mmfs ss :
  Forall is_Ok mmfs → buildMultiModules o mmfs ss = buildModules (multi_modules o mmfs) ss.
Proof.
  intros Hok. revert ss. induction Hok as [|mmf mmfs [mfs ->] _ IH]; intros ss; [done|].
  unfold multi_modules. simpl. rewrite buildModules_app.
  destruct (buildModules _ ss) as [ss' [err|]]; [done | apply IH].
Qed.

Lemma buildMultiModules_ok o mmfs ss ss' : buildMultiModules o mmfs ss = (ss', None) → Forall is_Ok mmfs.
Proof.
  revert ss. induction mmfs as [|mmf mmfs IH]; intros ss; [constructor|]. simpl.
  destruct mmf as [mfs|err]; simpl; [|done]. destruct (buildModules _ ss) as [ss1 [err|]]; [done|].
  intros H. constructor; [by eexists | by eapply IH].
Qed.

(** The middlewares of a position, in the order of the blueprint. *)
Definition middlewares_at {M} (beginning : bool) (mws : list (result go_error M * Position)) : list M :=
  omap (λ mw, match mw.1, mw.2 with
              | Ok m, PositionBeginning => if beginning then Some m else None
              | Ok m, PositionEnd => if beginning then None else Some m
              | Err _, _ => None
              end) mws.

Lemma buildMiddlewares_spec {M} (mws : list (result go_error M * Position)) acc :
  match buildMiddlewares mws acc with
  | Ok ms => Forall is_Ok mws.*1 ∧ ms = reverse (middlewares_at true mws) ++ acc ++ middlewares_at false mws
  | Err _ => ¬ Forall is_Ok mws.*1
  end.
Proof.
  revert acc. induction mws as [|[[m|err] pos] mws IH]; intros acc; simpl.
  - split; [constructor | by rewrite app_nil_r].
  - destruct pos; simpl; [specialize (IH (m :: acc)) | specialize (IH (acc ++ [m]))];
      destruct (buildMiddlewares mws _) as [ms|e]; rewrite Forall_cons.
    + destruct IH as [Hok ->]. split; [split; [by eexists | done]|].
      unfold middlewares_at. simpl. by rewrite reverse_cons -!app_assoc.
    + tauto.
    + destruct IH as [Hok ->]. split; [split; [by eexists | done]|].
      unfold middlewares_at. simpl. by rewrite -!app_assoc.
    + tauto.
  - rewrite Forall_cons. by intros [[m ?] _].
Qed.

Lemma buildShutdownHandlers_spec {S} (sfs : list (result go_error S)) acc :
  match buildShutdownHandlers sfs acc with
  | Ok hs => Forall is_Ok sfs ∧ Ok <$> hs = (Ok <$> acc) ++ sfs
  | Err _ => ¬ Forall is_Ok sfs
  end.
Proof.
  revert acc. induction sfs as [|[h|err] sfs IH]; intros acc; simpl.
  - split; [constructor | by rewrite app_nil_r].
  - specialize (IH (acc ++ [h])). destruct (buildShutdownHandlers sfs _) as [hs|e]; rewrite Forall_cons; [|tauto].
    destruct IH as [Hok ->]. split; [split; [by eexists | done]|]. by rewrite fmap_app -app_assoc.
  - rewrite Forall_cons. by intros [[m ?] _].
Qed.

(** Foreground modules keep a kernel from being built without any. *)
Lemma countForeground_fresh cfgs :
  (countForegroundModules (fresh_stage <$> cfgs) =? 0)%Z = false ↔
  ∃ k c, config_at cfgs k = Some c ∧ background c = false.
Proof.
  rewrite countForegroundModules_msum Z.eqb_neq.
  set (f := λ ms, if foreground ms then 1%Z else 0%Z).
  assert (∀ ms, 0 ≤ f ms)%Z as Hf by (intros ms; unfold f; case_match; lia).
  assert (∀ st, 0 ≤ msum f (modules st))%Z as Hf' by (intros st; by apply msum_nonneg).
  pose proof (msum_nonneg (λ st, msum f (modules st)) (fresh_stage <$> cfgs) Hf') as Hnn. split.
  - intros Hne. destruct (msum_pos (λ st, msum f (modules st)) (fresh_stage <$> cfgs)) as (i & st & Hi & Hst);
      [done | lia |].
    apply msum_pos in Hst as (n & ms & Hms & Hw); [|done].
    rewrite lookup_fmap fmap_Some in Hi. destruct Hi as (cs & Hcs & ->). simpl in Hms.
    rewrite lookup_fmap fmap_Some in Hms. destruct Hms as (c & Hc & ->).
    exists (i, n), c. split; [by rewrite /config_at /= Hcs|].
    unfold f, foreground in Hw. simpl in Hw. by destruct (background c).
  - intros ([i n] & c & Hat & Hb). unfold config_at in Hat. simpl in Hat.
    destruct (cfgs !! i) as [cs|] eqn:Hi; [|done]. simpl in Hat.
    assert ((fresh_stage <$> cfgs) !! i = Some (fresh_stage cs)) as Hl1 by by rewrite lookup_fmap Hi.
    assert (modules (fresh_stage cs) !! n = Some {| config := c; ms_phase := Idle; ms_err := None |}) as Hl2
      by by rewrite /= lookup_fmap Hat.
    pose proof (msum_elem (λ st, msum f (modules st)) _ _ _ Hf' Hl1) as H1.
    pose proof (msum_elem f _ _ _ Hf Hl2) as H2.
    unfold f at 1, foreground in H2. simpl in H2. rewrite Hb in H2. simpl in *. lia.
Qed.

Lemma hasModules_fresh cfgs k c : config_at cfgs k = Some c → hasModules (fresh_stage <$> cfgs) = true.
Proof.
  unfold config_at, hasModules. destruct k as [i n]. simpl. destruct (cfgs !! i) as [cs|] eqn:Hi; [|done].
  simpl. intros Hn. apply bool_decide_eq_true. exists i, (fresh_stage cs). split; [by rewrite lookup_fmap Hi|].
  simpl. intros He. apply (f_equal (lookup n)) in He. by rewrite lookup_fmap Hn lookup_empty in He.
Qed.

(** All modules of a blueprint, in the order they are built. *)
Definition modules_of {M S} (o : map_order string ModuleFactory) (bp : blueprint M S) : list blueprintModule :=
  moduleFactories bp ++ multi_modules o (multiModuleFactories bp).

(** Every factory of a blueprint succeeds. *)
Definition all_succeed {M S} (o : map_order string ModuleFactory) (bp : blueprint M S) : Prop :=
  Forall is_Ok (middlewareFactories bp).*1 ∧ Forall factory_ok (modules_of o bp) ∧
  Forall is_Ok (multiModuleFactories bp) ∧ Forall is_Ok (shutdownHandlerFactories bp).

(** The build of the modules in one loop. *)
Lemma build_modules_of {M S} (o : map_order string ModuleFactory) (bp : blueprint M S) :
  Forall is_Ok (multiModuleFactories bp) →
  buildModules (modules_of o bp) ∅ =
  match buildModules (moduleFactories bp) ∅ with
  | (ss, Some err) => (ss, Some err)
  | (ss, None) => buildMultiModules o (multiModuleFactories bp) ss
  end.
Proof.
  intros Hok. unfold modules_of. rewrite buildModules_app.
  destruct (buildModules _ ∅) as [ss [err|]]; [done|]. by rewrite buildMultiModules_flat.
Qed.

Lemma build_inv {M S} (o : map_order string ModuleFactory) (bp : blueprint M S) f :
  build o bp = Ok f →
  Forall is_Ok (multiModuleFactories bp) ∧ buildModules (modules_of o bp) ∅ = (f_stages f, None) ∧
  buildMiddlewares (middlewareFactories bp) [] = Ok (f_middlewares f) ∧
  buildShutdownHandlers (shutdownHandlerFactories bp) [] = Ok (f_shutdownHandlers f) ∧
  (countForegroundModules (f_stages f) =? 0)%Z = false.
Proof.
  unfold build. destruct (buildMiddlewares _ _) as [mws|e]; [|done]. simpl.
  destruct (buildModules (moduleFactories bp) ∅) as [ss [err|]] eqn:Hb; [done|].
  destruct (buildMultiModules _ _ ss) as [ss' [err|]] eqn:Hmb; [done|].
  destruct (buildShutdownHandlers _ _) as [hs|e] eqn:Hsb; [|done]. simpl.
  destruct (hasModules ss'); [|done]. simpl. destruct (countForegroundModules ss' =? 0)%Z eqn:Hc; [done|].
  intros [= <-]. pose proof (buildMultiModules_ok _ _ _ _ Hmb) as Hok.
  split_and!; try done. by rewrite build_modules_of // Hb.
Qed.

(** The conditions under which a build succeeds. *)
Definition buildable {M S} (o : map_order string ModuleFactory) (bp : blueprint M S) : Prop :=
  let es := entries (modules_of o bp) in
  all_succeed o bp ∧ NoDup (key_of <$> es) ∧ Exists (λ e, background e.2 = false) es.

Lemma fits_empty (es : list (string * moduleConfig)) : fits ∅ es ↔ NoDup (key_of <$> es).
Proof.
  unfold fits. split; [by intros []|]. intros Hnd. split; [done|]. apply Forall_forall. intros e _.
  unfold config_at. by rewrite lookup_empty.
Qed.

Lemma config_at_entries (es : list (string * moduleConfig)) k c :
  NoDup (key_of <$> es) →
  config_at (fold_left add_entry es ∅) k = Some c ↔ ∃ n, (n, c) ∈ es ∧ key_of (n, c) = k.
Proof.
  intros Hnd. rewrite (config_at_fold es ∅ k c (proj2 (fits_empty es) Hnd)).
  unfold config_at. rewrite lookup_empty /=. split; [by intros [?|?] | by right].
Qed.

Lemma has_foreground (es : list (string * moduleConfig)) :
  NoDup (key_of <$> es) →
  (countForegroundModules (fresh_stage <$> fold_left add_entry es ∅) =? 0)%Z = false ↔
  Exists (λ e, background e.2 = false) es.
Proof.
  intros Hnd. rewrite countForeground_fresh Exists_exists. split.
  - intros (k & c & Hat & Hb). apply (config_at_entries es k c Hnd) in Hat as (n & Hin & _). by exists (n, c).
  - intros ([n c] & Hin & Hb). exists (key_of (n, c)), c. split; [|done].
    apply (config_at_entries es _ c Hnd). by exists n.
Qed.

(** C9: a build succeeds exactly when every factory does, no two modules share a
    name in a stage and there is a foreground module; then the kernel starts with
    every module of the blueprint in the stage that its configuration, after its
    options, names, and with nothing else, and with the middlewares for the
    beginning in reverse before those for the end. *)
Theorem build_correct {M S} (o : map_order string ModuleFactory) (bp : blueprint M S) :
  let es := entries (modules_of o bp) in
  ((∃ f, build o bp = Ok f) ↔ buildable o bp) ∧
  (∀ f, build o bp = Ok f →
     (∃ cfgs, GetKernel f = start cfgs ∧
        (∃ i ms n c, cfgs !! i = Some ms ∧ ms !! n = Some c ∧ background c = false) ∧
        ∀ i n c, (cfgs : configs) !! i ≫= (λ cs, cs !! n) = Some c ↔ (n, c) ∈ es ∧ mc_stage c = i) ∧
     f_middlewares f = reverse (middlewares_at true (middlewareFactories bp)) ++
                       middlewares_at false (middlewareFactories bp) ∧
     Ok <$> f_shutdownHandlers f = shutdownHandlerFactories bp).
Proof.
  intros es. pose proof (buildModules_fresh (modules_of o bp) ∅) as Hmods. rewrite fmap_empty in Hmods.
  pose proof (buildMiddlewares_spec (middlewareFactories bp) []) as Hmw.
  pose proof (buildShutdownHandlers_spec (shutdownHandlerFactories bp) []) as Hsh. split; [split|].
  - intros [f Hf]. apply build_inv in Hf as (Hmulti & Hb & Hmwb & Hshb & Hc).
    rewrite Hb in Hmods. rewrite Hmwb in Hmw. rewrite Hshb in Hsh.
    destruct Hmods as (Hok & Hfit & Hss). rewrite fits_empty in Hfit. rewrite Hss has_foreground // in Hc.
    unfold buildable, all_succeed. tauto.
  - intros ((Hmwok & Hok & Hmulti & Hshok) & Hnd & Hfg).
    destruct (buildModules (modules_of o bp) ∅) as [ss [err|]] eqn:Hb.
    { destruct Hmods. split; [done | by apply fits_empty]. }
    destruct Hmods as (_ & _ & Hss). rewrite build_modules_of // in Hb.
    destruct (buildMiddlewares _ _) as [mws|e] eqn:Hmwb; [|done].
    destruct (buildShutdownHandlers _ _) as [hs|e] eqn:Hshb; [|done].
    unfold build. rewrite Hmwb /=. destruct (buildModules (moduleFactories bp) ∅) as [ss1 [err|]]; [done|].
    rewrite Hb Hshb /=. pose proof (proj2 (has_foreground es Hnd) Hfg) as Hc. rewrite -/es -Hss in Hc.
    rewrite Hss in Hc |- *. pose proof (proj1 (countForeground_fresh _) Hc) as (k & c & Hat & _).
    rewrite (hasModules_fresh _ k c Hat) /= Hc. by eexists.
  - intros f Hf. apply build_inv in Hf as (Hmulti & Hb & Hmwb & Hshb & Hc).
    rewrite Hb in Hmods. rewrite Hmwb in Hmw. rewrite Hshb in Hsh.
    destruct Hmods as (Hok & Hfit & Hss). rewrite fits_empty in Hfit. split_and!; [|apply Hmw|apply Hsh].
    exists (fold_left add_entry es ∅). split_and!.
    + unfold GetKernel, start. by rewrite Hss.
    + rewrite Hss in Hc. apply countForeground_fresh in Hc as ([i n] & c & Hat & Hbg).
      unfold config_at in Hat. apply bind_Some in Hat as (ms & Hi & Hn). by exists i, ms, n, c.
    + intros i n c. pose proof (config_at_entries es (i, n) c Hfit) as Hat. unfold config_at in Hat. simpl in Hat.
      rewrite Hat. unfold key_of. simpl. split.
      * intros (n' & Hin & [= <- <-]). done.
      * intros [Hin <-]. by exists n.
Qed.

(** A blueprint with a module that says nothing about itself and one that an
    option moves to another stage. *)
Definition sample_blueprint : blueprint nat nat := {|
  middlewareFactories := [(Ok 1, PositionEnd); (Ok 2, PositionBeginning)];
  moduleFactories :=
    [{| bm_name := "app"; bm_factory := Ok (Some {| typed := None; staged := None |}); bm_options := [] |};
     {| bm_name := "metrics"; bm_factory := Ok (Some {| typed := Some (true, true); staged := None |});
        bm_options := [ModuleStage StageEssential] |};
     {| bm_name := "nothing"; bm_factory := Ok None; bm_options := [] |}];
  multiModuleFactories := [Ok ∅];
  shutdownHandlerFactories := [];
|}.

Lemma build_correct_witness :
  (∃ f, build canonical_order sample_blueprint = Ok f) ∧
  ∀ f, build canonical_order sample_blueprint = Ok f → f_middlewares f = [2; 1].
Proof.
  destruct (build_correct canonical_order sample_blueprint) as [Hok Hres]. split.
  - apply Hok. unfold buildable, all_succeed. split; [split_and!|split].
    + constructor; [by eexists|]. constructor; [by eexists | constructor].
    + constructor; [by eexists|]. constructor; [by eexists|]. constructor; [by eexists | constructor].
    + constructor; [by eexists | constructor].
    + constructor.
    + apply (bool_decide_unpack _). vm_compute. exact I.
    + left. reflexivity.
  - intros f Hf. destruct (Hres f Hf) as (_ & Hm & _). exact Hm.
Defined.

Example build_duplicate :
  build canonical_order
    {| middlewareFactories := @nil (result go_error nat * Position); moduleFactories :=
         [{| bm_name := "app"; bm_factory := Ok (Some {| typed := None; staged := None |}); bm_options := [] |};
          {| bm_name := "app"; bm_factory := Ok (Some {| typed := None; staged := None |}); bm_options := [] |}];
       multiModuleFactories := []; shutdownHandlerFactories := @nil (result go_error nat) |} =
  Err (EWrap "can not add module to stage" (EMsg "failed to add new module: module exists")).
Proof. by vm_compute. Qed.

(** ** Health checks *)

(** [pkg/kernel/health_check.go:18-23] ModuleHealthCheckResult *)
Record ModuleHealthCheckResult := {
  StageIndex : Z;
  Name : string;
  Healthy : bool;
  HealthErr : option go_error;
}.

(** [pkg/kernel/health_check.go:27-31] HealthCheckResult.GetUnhealthy *)
Definition GetUnhealthy (r : list ModuleHealthCheckResult) : list ModuleHealthCheckResult :=
  List.filter (λ result, negb (Healthy result)) r.

(** [pkg/kernel/health_check.go:33-37] HealthCheckResult.GetUnhealthyNames *)
Definition GetUnhealthyNames (r : list ModuleHealthCheckResult) : list string := Name <$> GetUnhealthy r.

(** [pkg/kernel/health_check.go:39-47] HealthCheckResult.IsHealthy *)
Fixpoint IsHealthy (r : list ModuleHealthCheckResult) : bool :=
  match r with
  | [] => true
  | m :: r => if negb (Healthy m) then false else IsHealthy r
  end.

(** [pkg/kernel/stage.go:97-129] stage.healthcheck: [check] is what the module's
    IsHealthy gives, nothing for a module without one *)
Definition healthcheck (o : map_order string moduleState) (index : Z)
    (check : string → option (bool * option go_error)) (st : stage) : list ModuleHealthCheckResult :=
  omap (λ kv, match check kv.1 with
              | Some (ok, err) => Some {| StageIndex := index; Name := kv.1; Healthy := ok; HealthErr := err |}
              | None => None
              end) (enum o (modules st)).

(** [pkg/kernel/kernel.go:213-230] kernel.HealthCheck: the results of the stages in
    their order; the report of a failure is only logged *)
Definition HealthCheck (o : map_order string moduleState)
    (check : string → option (bool * option go_error)) (k : kernel) : list ModuleHealthCheckResult :=
  flat_map (λ i, match stages k !! i with
                 | Some st => healthcheck o i check st
                 | None => []
                 end) (getIndices (stages k)).

Lemma IsHealthy_unhealthy r : IsHealthy r = true ↔ GetUnhealthyNames r = [].
Proof.
  unfold GetUnhealthyNames, GetUnhealthy. induction r as [|m r IH]; [done|]. simpl.
  destruct (Healthy m); simpl; [apply IH | done].
Qed.

(** A kernel is healthy exactly when no module that has a check fails it, and the
    names a failure reports are those of the failing modules. *)
Lemma HealthCheck_correct o check k :
  (IsHealthy (HealthCheck o check k) = true ↔
   ∀ i st n ms err, stages k !! i = Some st → modules st !! n = Some ms → check n ≠ Some (false, err)) ∧
  ∀ n, n ∈ GetUnhealthyNames (HealthCheck o check k) ↔
       ∃ i st ms err, stages k !! i = Some st ∧ modules st !! n = Some ms ∧ check n = Some (false, err).
Proof.
  assert (∀ n, n ∈ GetUnhealthyNames (HealthCheck o check k) ↔
    ∃ i st ms err, stages k !! i = Some st ∧ modules st !! n = Some ms ∧ check n = Some (false, err)) as Hnames.
  { intros n. unfold GetUnhealthyNames, GetUnhealthy, HealthCheck. rewrite list_elem_of_fmap. split.
    - intros (r & -> & Hr). apply list_elem_of_In, filter_In in Hr as [Hr Hh].
      apply in_flat_map in Hr as (i & _ & Hr). destruct (stages k !! i) as [st|] eqn:Hi; [|done].
      apply list_elem_of_In, list_elem_of_omap in Hr as ([n ms] & Hin & Hc). simpl in Hc.
      apply elem_of_enum in Hin. destruct (check n) as [[ok err]|] eqn:Hn; [|done]. simplify_eq/=.
      destruct ok; [done|]. by exists i, st, ms, err.
    - intros (i & st & ms & err & Hi & Hms & Hc).
      exists {| StageIndex := i; Name := n; Healthy := false; HealthErr := err |}. split; [done|].
      apply list_elem_of_In, filter_In. split; [|done]. apply in_flat_map. exists i.
      split; [apply list_elem_of_In, elem_of_getIndices; by eexists|]. rewrite Hi.
      apply list_elem_of_In, list_elem_of_omap. exists (n, ms). split; [by apply elem_of_enum|]. by rewrite /= Hc. }
  split; [|done]. rewrite IsHealthy_unhealthy. split.
  - intros Hnil i st n ms err Hi Hms Hc.
    assert (n ∈ GetUnhealthyNames (HealthCheck o check k)) as Hin; [apply Hnames; by eauto 10|].
    rewrite Hnil in Hin. by apply elem_of_nil in Hin.
  - intros Hall. destruct (GetUnhealthyNames _) as [|n l] eqn:Hl; [done|]. exfalso.
    destruct (proj1 (Hnames n)) as (i & st & ms & err & Hi & Hms & Hc); [by left|]. by eapply Hall.
Qed.
