(* ===== verification/Dynamo.v ===== *)
(** * pkg/ddb/repository.go: conditional writes to a DynamoDB table

    DynamoDB is not part of the repository: a table is a parameter, the class
    [DynamoTable] with the documented behaviour of single item requests, which
    are atomic and check their condition on the stored item.  A request can get
    lost before or after it was executed.  Definitions: GetItem, PutItem,
    UpdateItem and DeleteItem of the repository on such a table, with the filter
    for expired items; building the requests from the builders, (un)marshalling
    and tracing are left out.  Times are nanoseconds. *)
From S2P Require Import Prelude Exec.

(** ** Tables *)

(** [db_write k f] replaces the item under [k] by [f] of it, [None] for no item. *)
Class DynamoTable (I Tb : Type) := {
  db_get : string → Tb → option I;
  db_write : string → (option I → option I) → Tb → Tb;
}.

Class DynamoLaws (I Tb : Type) `{!DynamoTable I Tb} := {
  db_get_write k f tb : db_get k (db_write k f tb) = f (db_get k tb);
  db_get_write_ne k k' f tb : k ≠ k' → db_get k' (db_write k f tb) = db_get k' tb;
}.

#[export] Instance gmap_table {I} : DynamoTable I (gmap string I) := {|
  db_get k tb := tb !! k;
  db_write k f tb := partial_alter f k tb;
|}.

#[export] Instance gmap_table_laws {I} : DynamoLaws I (gmap string I).
Proof.
  split; simpl; intros.
  - apply lookup_partial_alter_eq.
  - by apply lookup_partial_alter_ne.
Qed.

(** ** Requests *)

(** What happens to a request: it is answered, or it gets lost with an error for
    the caller, after it was executed or not. *)
Inductive network :=
| Delivered
| Lost (err : error) (executed : bool).

Definition ConditionalCheckFailedException : nat := 30.
Definition TableNotFoundException : nat := 31.

Definition Unix (t : Z) : Z := (t / 1000000000)%Z.

Definition request_canceled (err : error) : bool := IsRequestCanceled requestCancelChecks err.

Section Repository.
Context {I Tb : Type} `{!DynamoTable I Tb}.
Implicit Types (tb : Tb) (cond : option I → bool) (net : network).

(** What the client returns for a conditional write. *)
Definition client_write net (k : string) cond (f : option I → option I) tb : Tb * option error :=
  let holds := cond (db_get k tb) in
  match net with
  | Delivered =>
      if holds then (db_write k f tb, None) else (tb, Some (EValue ConditionalCheckFailedException))
  | Lost err executed => (if executed && holds then db_write k f tb else tb, Some err)
  end.

(** [pkg/ddb/repository.go:477-494] the result of a write, whether its condition
    failed, from the error of the client; UpdateItem (590-605) and DeleteItem
    (362-377) have the same *)
Definition checked (what : string) (err : option error) : result error bool :=
  match err with
  | None => Ok false
  | Some err =>
      if request_canceled err then Err (EValue RequestCanceledError)
      else if errors_Is TableNotFoundException err then Err (EWrapped "table not found" err)
      else if errors_Is ConditionalCheckFailedException err then Ok true
      else Err (EWrapped what err)
  end.

(** [pkg/ddb/repository.go:454-511] repository.PutItem *)
Definition PutItem net (k : string) cond (item : I) tb : Tb * result error bool :=
  let '(tb, err) := client_write net k cond (λ _, Some item) tb in
  (tb, checked "could not execute PutItem operation" err).

(** [pkg/ddb/repository.go:578-624] repository.UpdateItem, with the item after the
    update for a builder that returns it *)
Definition UpdateItem net (k : string) cond (f : option I → I) tb : Tb * result error bool * option I :=
  let '(tb', err) := client_write net k cond (λ item, Some (f item)) tb in
  (tb', checked "could not execute UpdateItem operation" err,
   match err with None => db_get k tb' | Some _ => None end).

(** [pkg/ddb/repository.go:343-394] repository.DeleteItem *)
Definition DeleteItem net (k : string) cond tb : Tb * result error bool :=
  let '(tb, err) := client_write net k cond (λ _, None) tb in
  (tb, checked "could not execute DeleteItem operation" err).

(** [pkg/ddb/expr_filter.go:50-68] filterBuilder.PerformFilterCondition for a
    table with a time to live *)
Definition PerformFilterCondition (ttl_of : I → Z) (now : Z) (item : I) : bool := (Unix now <? ttl_of item)%Z.

(** [pkg/ddb/repository.go:396-452] repository.GetItem: the item, if it was found *)
Definition GetItem net (ttl_of : I → Z) (now : Z) (k : string) tb : result error (option I) :=
  match net with
  | Delivered =>
      match db_get k tb with
      | None => Ok None
      | Some item => if PerformFilterCondition ttl_of now item then Ok (Some item) else Ok None
      end
  | Lost err _ =>
      if request_canceled err then Err (EValue RequestCanceledError)
      else if errors_Is TableNotFoundException err then Err (EWrapped "table not found" err)
      else Err err
  end.
End Repository.

(** ** Lemmas *)
Section Lemmas.
Context {I Tb : Type} `{!DynamoTable I Tb, !DynamoLaws I Tb}.
Implicit Types (tb : Tb) (cond : option I → bool) (net : network).

(** A write changes the item only where its condition holds, and no other item. *)
Lemma client_write_get net k cond f tb tb' err :
  client_write net k cond f tb = (tb', err) →
  (∀ k', k' ≠ k → db_get k' tb' = db_get k' tb) ∧
  (db_get k tb' = db_get k tb ∨ (cond (db_get k tb) = true ∧ db_get k tb' = f (db_get k tb))) ∧
  (err = None → cond (db_get k tb) = true ∧ db_get k tb' = f (db_get k tb)).
Proof.
  unfold client_write. intros Hw.
  destruct net as [|e [|]], (cond (db_get k tb)) eqn:Hc; simplify_eq/=; split_and!; try done;
    rewrite ?db_get_write; auto; intros k' Hk; by rewrite db_get_write_ne.
Qed.

Lemma client_write_delivered k cond f tb :
  client_write Delivered k cond f tb =
  if cond (db_get k tb) then (db_write k f tb, None)
  else (tb, Some (EValue ConditionalCheckFailedException)).
Proof. done. Qed.

Lemma checked_false what err : checked what err = Ok false → err = None.
Proof. unfold checked. destruct err; [|done]. by split_match. Qed.

Lemma PutItem_get net k cond item tb tb' r :
  PutItem net k cond item tb = (tb', r) →
  (∀ k', k' ≠ k → db_get k' tb' = db_get k' tb) ∧
  (db_get k tb' = db_get k tb ∨ (cond (db_get k tb) = true ∧ db_get k tb' = Some item)) ∧
  (r = Ok false → cond (db_get k tb) = true ∧ db_get k tb' = Some item).
Proof.
  unfold PutItem. destruct (client_write _ _ _ _ _) as [tb1 err] eqn:Hw. intros [= <- <-].
  apply client_write_get in Hw as (Hother & Hget & Hok). split_and!; [done..|].
  intros He%checked_false. auto.
Qed.

Lemma UpdateItem_get net k cond f tb tb' r new :
  UpdateItem net k cond f tb = (tb', r, new) →
  (∀ k', k' ≠ k → db_get k' tb' = db_get k' tb) ∧
  (db_get k tb' = db_get k tb ∨ (cond (db_get k tb) = true ∧ db_get k tb' = Some (f (db_get k tb)))) ∧
  (r = Ok false → cond (db_get k tb) = true ∧ db_get k tb' = Some (f (db_get k tb)) ∧
     new = Some (f (db_get k tb))).
Proof.
  unfold UpdateItem. destruct (client_write _ _ _ _ _) as [tb1 err] eqn:Hw. intros [= <- <- <-].
  apply client_write_get in Hw as (Hother & Hget & Hok). split_and!; [done..|].
  intros He%checked_false. subst err. destruct (Hok eq_refl) as [Hc Hg]. auto.
Qed.

Lemma DeleteItem_get net k cond tb tb' r :
  DeleteItem net k cond tb = (tb', r) →
  (∀ k', k' ≠ k → db_get k' tb' = db_get k' tb) ∧
  (db_get k tb' = db_get k tb ∨ (cond (db_get k tb) = true ∧ db_get k tb' = None)) ∧
  (r = Ok false → cond (db_get k tb) = true ∧ db_get k tb' = None).
Proof.
  unfold DeleteItem. destruct (client_write _ _ _ _ _) as [tb1 err] eqn:Hw. intros [= <- <-].
  apply client_write_get in Hw as (Hother & Hget & Hok). split_and!; [done..|].
  intros He%checked_false. auto.
Qed.
End Lemmas.

Lemma Unix_le a b : (a ≤ b)%Z → (Unix a ≤ Unix b)%Z.
Proof. intros H. unfold Unix. apply Z.div_le_mono; lia. Qed.

Lemma Unix_add a s : Unix (a + s * 1000000000) = (Unix a + s)%Z.
Proof. unfold Unix. by rewrite Z.div_add. Qed.

Lemma Unix_lt a b : (Unix a < Unix b → a < b)%Z.
Proof. intros H. destruct (Z.lt_ge_cases a b) as [|Hge]; [done|]. apply Unix_le in Hge. lia. Qed.
