(* ===== verification/DdbLock.v ===== *)
(** * pkg/conc/ddb: distributed locks and leader election on DynamoDB

    A lock is an item with the token of its owner and the second until which it
    is owned; a leader is an item with the member and the second until which it
    leads.  Definitions: the lock provider and its locks, the leader election, and
    the system of all processes that use them on one table, each with a clock of
    its own for the locks.  The table is the class of Dynamo.v; the executor that
    repeats an attempt, the watcher that only logs, the settings and logging are
    left out. *)
From S2P Require Import Prelude Exec Dynamo.

(** ** Locks *)

(** [pkg/conc/distributed_lock.go:12-19] ErrLockOwned and ErrLockNotOwned *)
Definition ErrLockOwned : nat := 40.
Definition ErrLockNotOwned : nat := 41.

(** [pkg/conc/ddb/ddb_lock_provider.go:20-27] DdbLockItem *)
Record DdbLockItem := { Token : string; Ttl : Z }.

(** [pkg/conc/ddb/ddb_lock.go:20-29] ddbLock; [expires] is in microseconds *)
Record ddbLock := { l_resource : string; l_token : string; expires : Z }.

Definition UnixMicro (t : Z) : Z := (t / 1000)%Z.

Definition has_token (token : string) (item : option DdbLockItem) : bool :=
  match item with Some it => bool_decide (Token it = token) | None => false end.

Section Locks.
Context {Tb : Type} `{!DynamoTable DdbLockItem Tb}.
Context (domain : string) (defaultLockTime : Z).
Implicit Types (tb : Tb) (now : Z) (net : network) (l : ddbLock).

(** [pkg/conc/ddb/ddb_lock_provider.go:111-114] the condition of acquire: no item
    or one that has been expired for five seconds *)
Definition acquirable now (item : option DdbLockItem) : bool :=
  match item with None => true | Some it => (Ttl it <? Unix now - 5)%Z end.

(** [pkg/conc/ddb/ddb_lock_provider.go:107-140] an attempt of acquire, with the
    name of the resource that acquire builds (106) *)
Definition acquireAttempt now net (resource token : string) tb : Tb * (option ddbLock * option error) :=
  let expires := (now + defaultLockTime)%Z in
  let '(tb, res) := PutItem net resource (acquirable now) {| Token := token; Ttl := Unix expires |} tb in
  match res with
  | Err err => (tb, (None, Some err))
  | Ok true => (tb, (None, Some (EValue ErrLockOwned)))
  | Ok false => (tb, (Some {| l_resource := resource; l_token := token; expires := UnixMicro expires |}, None))
  end.

(** [pkg/conc/ddb/ddb_lock_provider.go:103-103] the name of the item *)
Definition item_name (resource : string) : string := String.append domain (String.append "-" resource).

(** [pkg/conc/ddb/ddb_lock_provider.go:145-156] TryAcquireIn on the result of acquire *)
Definition tryResult (r : option ddbLock * option error) : option ddbLock * option error :=
  match r with
  | (lock, Some err) =>
      if errors_Is context_DeadlineExceeded err || errors_Is ErrLockOwned err then (None, None)
      else (lock, Some err)
  | (lock, None) => (lock, None)
  end.

(** [pkg/conc/ddb/ddb_lock_provider.go:158-184] an attempt of RenewLock *)
Definition RenewLock now net (lockTime : Z) (resource token : string) tb : Tb * (Z * option error) :=
  let expiry := (now + lockTime)%Z in
  let '(tb, res, _) := UpdateItem net resource (has_token token)
    (λ item, {| Token := match item with Some it => Token it | None => ""%string end;
                Ttl := Unix expiry |}) tb in
  match res with
  | Err err => (tb, (expiry, Some (EWrapped "failed to renew lock" err)))
  | Ok true => (tb, (expiry, Some (EValue ErrLockNotOwned)))
  | Ok false => (tb, (expiry, None))
  end.

(** [pkg/conc/ddb/ddb_lock_provider.go:186-209] ddbLockProvider.ReleaseLock *)
Definition ReleaseLock net (resource token : string) tb : Tb * option error :=
  let '(tb, res) := DeleteItem net resource (has_token token) tb in
  match res with
  | Err err => (tb, Some err)
  | Ok true => (tb, Some (EValue ErrLockNotOwned))
  | Ok false => (tb, None)
  end.

(** [pkg/conc/ddb/ddb_lock_provider.go:211-217] CheckDdbLockError *)
Definition CheckDdbLockError (err : error) : ErrorType :=
  if request_canceled err || errors_Is ErrLockNotOwned err then ErrorTypePermanent else ErrorTypeRetryable.

(** [pkg/conc/ddb/ddb_lock.go:128-133] ddbLock.expiresIn *)
Definition expiresIn now l : Z := (1000 * expires l - now)%Z.

(** [pkg/conc/ddb/ddb_lock.go:52-64] ddbLock.Renew; no lock is [None] *)
Definition Renew now net (lockTime : Z) (lock : option ddbLock) tb : Tb * option ddbLock * option error :=
  match lock with
  | None => (tb, None, Some (EValue ErrLockNotOwned))
  | Some l =>
      let '(tb, (expiry, err)) := RenewLock now net lockTime (l_resource l) (l_token l) tb in
      (tb, Some match err with
                | None => {| l_resource := l_resource l; l_token := l_token l; expires := UnixMicro expiry |}
                | Some _ => l
                end, err)
  end.

(** [pkg/conc/ddb/ddb_lock.go:66-99] ddbLock.Release; [later] is the time when
    the request has returned *)
Definition Release now later net (lock : option ddbLock) tb : Tb * option error :=
  match lock with
  | None => (tb, Some (EValue ErrLockNotOwned))
  | Some l =>
      if (expiresIn now l <=? 0)%Z then (tb, Some (EValue ErrLockNotOwned))
      else
        let '(tb, err) := ReleaseLock net (l_resource l) (l_token l) tb in
        match err with
        | Some e =>
            if request_canceled e && (expiresIn later l <=? 0)%Z then (tb, None) else (tb, Some e)
        | None => (tb, None)
        end
  end.
End Locks.

(** ** The processes that use a table

    Every process and DynamoDB have a clock that is at most [skew] away from the
    time; what a process has read may be older when its request is executed.
    DynamoDB removes expired items in the background, in the model no sooner than
    [delay] after their expiry by its clock.  What it documents is only that it does
    so some time after the expiry, so with exact clocks [delay] is 0. *)
Section LockSystem.
Context {Tb : Type} `{!DynamoTable DdbLockItem Tb} (skew delay : Z).

Record lock_system := { table : Tb; time : Z; holders : gmap string ddbLock }.
Implicit Types (s : lock_system).

Definition reads s (now : Z) : Prop := (now ≤ time s + skew)%Z.

Inductive lock_step : lock_system → lock_system → Prop :=
| lock_tick s t :
    (time s ≤ t)%Z → lock_step s {| table := table s; time := t; holders := holders s |}
| lock_acquire s now net lockTime resource token tb r :
    reads s now → holders s !! token = None →
    acquireAttempt lockTime now net resource token (table s) = (tb, r) →
    lock_step s {| table := tb; time := time s;
      holders := match r.1 with Some l => <[token := l]> (holders s) | None => holders s end |}
| lock_renew s now net lockTime token l tb l' err :
    reads s now → holders s !! token = Some l →
    Renew now net lockTime (Some l) (table s) = (tb, Some l', err) →
    (err ≠ None → (1000 * expires l ≤ now + lockTime)%Z) →
    lock_step s {| table := tb; time := time s; holders := <[token := l']> (holders s) |}
| lock_release s now later net token l tb err :
    reads s now → holders s !! token = Some l →
    Release now later net (Some l) (table s) = (tb, err) →
    lock_step s {| table := tb; time := time s; holders := delete token (holders s) |}
| lock_expire s now resource it :
    reads s now → db_get resource (table s) = Some it → (Ttl it < Unix (now - delay))%Z →
    lock_step s {| table := db_write resource (λ _, None) (table s); time := time s; holders := holders s |}.

(** The process with [token] may believe that it holds the lock. *)
Definition holds s (token : string) (l : ddbLock) : Prop :=
  holders s !! token = Some l ∧ (time s - skew < 1000 * expires l)%Z.

Definition lock_inv s : Prop :=
  ∀ token l, holders s !! token = Some l →
    l_token l = token ∧
    ((time s - skew < 1000 * expires l)%Z → ∃ it, db_get (l_resource l) (table s) = Some it ∧
       Token it = token ∧ (Unix (1000 * expires l) ≤ Ttl it)%Z).
End LockSystem.

Section LockLemmas.
Context {Tb : Type} `{!DynamoTable DdbLockItem Tb, !DynamoLaws DdbLockItem Tb} (skew delay : Z).
Context (Hskew : (0 ≤ 2 * skew ≤ 5 * 1000000000)%Z) (Hdelay : (2 * skew ≤ delay)%Z).
Implicit Types (s : lock_system (Tb := Tb)).

(** An item a holder relies on is not expired for anyone. *)
Lemma relied_not_expired (t now margin expiry ttl : Z) :
  (t - skew < expiry)%Z → (now ≤ t + skew)%Z → (2 * skew ≤ margin)%Z → (Unix expiry ≤ ttl)%Z →
  (Unix (now - margin) ≤ ttl)%Z.
Proof. intros H1 H2 Hm H3. transitivity (Unix expiry); [|done]. apply Unix_le. lia. Qed.

Lemma Unix_minus_5 now : (Unix now - 5)%Z = Unix (now - 5 * 1000000000).
Proof. replace (now - 5 * 1000000000)%Z with (now + (-5) * 1000000000)%Z by lia. rewrite Unix_add. lia. Qed.

Lemma UnixMicro_le t : (1000 * UnixMicro t ≤ t)%Z.
Proof. unfold UnixMicro. pose proof (Z.mod_pos_bound t 1000). pose proof (Z.div_mod t 1000). lia. Qed.

(** A write by someone else that needs the item to be acquirable, of another token
    or late leaves what a holder relies on. *)
Lemma relied_kept l it tb tb' resource (cond : option DdbLockItem → bool) :
  (∀ k', k' ≠ resource → db_get k' tb' = db_get k' tb) →
  (db_get resource tb' = db_get resource tb ∨ cond (db_get resource tb) = true) →
  (resource = l_resource l → cond (Some it) = false) →
  db_get (l_resource l) tb = Some it → db_get (l_resource l) tb' = Some it.
Proof.
  intros Hother Hget Hcond Hit. destruct (decide (l_resource l = resource)) as [<-|Hne].
  - destruct Hget as [->|Hc]; [done|]. rewrite Hit in Hc. by rewrite Hcond in Hc.
  - by rewrite Hother.
Qed.
Lemma lock_acquire_inv s now net lockTime resource token tb r :
  lock_inv skew s → reads skew s now → holders s !! token = None →
  acquireAttempt lockTime now net resource token (table s) = (tb, r) →
  lock_inv skew {| table := tb; time := time s;
    holders := match r.1 with Some l => <[token := l]> (holders s) | None => holders s end |}.
Proof.
  intros Hinv Hreads Hfree. unfold acquireAttempt.
  destruct (PutItem _ _ _ _ _) as [tb1 res] eqn:Hput. intros Hr.
  apply PutItem_get in Hput as (Hother & Hget & Hok).
  assert (∀ token' l, holders s !! token' = Some l → l_token l = token' ∧
    ((time s - skew < 1000 * expires l)%Z → ∃ it, db_get (l_resource l) tb1 = Some it ∧
       Token it = token' ∧ (Unix (1000 * expires l) ≤ Ttl it)%Z)) as Hkept.
  { intros token' l Hl. destruct (Hinv token' l Hl) as [Ht Hrel]. split; [done|]. intros Hlt.
    destruct (Hrel Hlt) as (it & Hit & Htok & Httl). exists it. split_and!; [|done..].
    eapply relied_kept; [exact Hother | destruct Hget as [?|[? _]]; by [left | right] | | exact Hit].
    intros _. simpl. apply Z.ltb_ge. rewrite Unix_minus_5. eapply relied_not_expired; [done..| |done]. lia. }
  destruct res as [[|]|err]; simplify_eq/=; [done| |done].
  intros token' l. simpl. intros [[<- <-]|[_ Hl]]%lookup_insert_Some; simpl; [|by apply Hkept]. split; [done|].
  intros _. destruct (Hok eq_refl) as [_ ->]. eexists. split_and!; [done..|]. simpl.
  apply Unix_le, UnixMicro_le.
Qed.

Lemma lock_renew_inv s now net lockTime token l tb l' err :
  lock_inv skew s → holders s !! token = Some l →
  Renew now net lockTime (Some l) (table s) = (tb, Some l', err) →
  (err ≠ None → (1000 * expires l ≤ now + lockTime)%Z) →
  lock_inv skew {| table := tb; time := time s; holders := <[token := l']> (holders s) |}.
Proof.
  intros Hinv Hl Hrenew Hext. destruct (Hinv token l Hl) as [<- Hrel].
  unfold Renew, RenewLock in Hrenew.
  destruct (UpdateItem _ _ _ _ _) as [[tb1 res] new] eqn:Hup.
  apply UpdateItem_get in Hup as (Hother & Hget & Hok).
  assert (tb1 = tb) as -> by by (destruct res as [[|]|]; simplify_eq/=).
  intros token' l0. simpl. intros [[<- <-]|[Hne Hl0]]%lookup_insert_Some; simpl.
  - destruct res as [[|]|e]; simplify_eq/=; (split; [done|]).
    + intros (it & Hit & Htok & Httl)%Hrel. destruct Hget as [->|[_ ->]]; [by eauto|].
      rewrite Hit. eexists. split_and!; [done..|]. apply Unix_le. by apply Hext.
    + intros _. destruct (Hok eq_refl) as (Hc & -> & _).
      destruct (db_get _ (table s)) as [it|]; [|done]. simpl in Hc. apply bool_decide_eq_true in Hc.
      eexists. split_and!; [done..|]. simpl. apply Unix_le, UnixMicro_le.
    + intros (it & Hit & Htok & Httl)%Hrel. destruct Hget as [->|[_ ->]]; [by eauto|].
      rewrite Hit. eexists. split_and!; [done..|]. apply Unix_le. by apply Hext.
  - destruct (Hinv token' l0 Hl0) as [Ht Hrel0]. split; [done|]. intros Hlt.
    destruct (Hrel0 Hlt) as (it & Hit & Htok & Httl). exists it. split_and!; [|done..].
    eapply relied_kept; [exact Hother | destruct Hget as [?|[? _]]; by [left | right] | | exact Hit].
    intros _. simpl. apply bool_decide_eq_false. congruence.
Qed.

Lemma lock_release_inv s now later net token l tb err :
  lock_inv skew s → holders s !! token = Some l →
  Release now later net (Some l) (table s) = (tb, err) →
  lock_inv skew {| table := tb; time := time s; holders := delete token (holders s) |}.
Proof.
  intros Hinv Hl Hrel token' l0. simpl. intros [Hne Hl0]%lookup_delete_Some.
  destruct (Hinv token l Hl) as [<- _]. destruct (Hinv token' l0 Hl0) as [Ht Hrel0]. split; [done|].
  intros Hlt. destruct (Hrel0 Hlt) as (it & Hit & Htok & Httl). exists it. split_and!; [|done..].
  unfold Release, ReleaseLock in Hrel. destruct (expiresIn now l <=? 0)%Z; [by simplify_eq|].
  destruct (DeleteItem _ _ _ _) as [tb1 res] eqn:Hdel.
  apply DeleteItem_get in Hdel as (Hother & Hget & _).
  assert (tb1 = tb) as -> by (destruct res as [[|]|]; simplify_eq/=; split_match; done).
  eapply relied_kept; [exact Hother | destruct Hget as [?|[? _]]; by [left | right] | | exact Hit].
  intros _. simpl. apply bool_decide_eq_false. congruence.
Qed.

Lemma lock_step_inv s s' : lock_inv skew s → lock_step skew delay s s' → lock_inv skew s'.
Proof.
  intros Hinv. destruct 1 as [s t Ht|s now net lt res token tb r Hr Hf Ha|
    s now net lt token l tb l' err Hr Hl Hn He|s now later net token l tb err Hr Hl Hn|s now res it Hr Hit Hx].
  - intros token l Hl. destruct (Hinv token l Hl) as [? Hrel]. split; [done|]. simpl. intros.
    apply Hrel. lia.
  - by eapply lock_acquire_inv.
  - by eapply lock_renew_inv.
  - by eapply lock_release_inv.
  - intros token l Hl. destruct (Hinv token l Hl) as [? Hrel]. split; [done|]. simpl. intros Hlt.
    destruct (Hrel Hlt) as (it' & Hit' & Htok & Httl). exists it'. split_and!; [|done..].
    rewrite db_get_write_ne //. intros ->. simplify_eq.
    pose proof (relied_not_expired (time s) now _ _ _ Hlt Hr Hdelay Httl). lia.
Qed.
End LockLemmas.

(** ** Leader election *)

(** [pkg/conc/ddb/leader_election_ddb.go:15-19] DdbLeaderElectionItem *)
Record DdbLeaderElectionItem := { MemberId : string; LeadingUntil : Z }.

(** [pkg/conc/leader_election_error.go:12-14] a fatal or, [pkg/conc/leader_election_error.go:32-50],
    a transient error *)
Inductive LeaderElectionError := LeaderElectionFatalError (err : error) | LeaderElectionTransientError (err : error).

Definition is_member (member : string) (item : option DdbLeaderElectionItem) : bool :=
  match item with Some it => bool_decide (MemberId it = member) | None => false end.

Section Election.
Context {Tb : Type} `{!DynamoTable DdbLeaderElectionItem Tb} (skew : Z) (GroupId : string) (LeaseDuration : Z).
Implicit Types (tb : Tb) (now : Z) (net : network) (member : string).

(** [pkg/conc/ddb/leader_election_ddb.go:81-84] the condition of IsLeader *)
Definition electable now member (item : option DdbLeaderElectionItem) : bool :=
  match item with
  | None => true
  | Some it =>
      bool_decide (MemberId it = member)
      || (bool_decide (MemberId it ≠ member) && (LeadingUntil it <? Unix now)%Z)
  end.

(** [pkg/conc/ddb/leader_election_ddb.go:70-102] DdbLeaderElection.IsLeader *)
Definition IsLeader now net member tb : Tb * result LeaderElectionError bool :=
  let leadingUntil := Unix (now + LeaseDuration) in
  let '(tb, res) := PutItem net GroupId (electable now member)
                      {| MemberId := member; LeadingUntil := leadingUntil |} tb in
  (tb, match res with
       | Ok failed => Ok (negb failed)
       | Err err =>
           if errors_Is TableNotFoundException err then Err (LeaderElectionFatalError err)
           else Err (LeaderElectionTransientError err)
       end).

(** [pkg/conc/ddb/leader_election_ddb.go:104-120] DdbLeaderElection.Resign *)
Definition Resign net member tb : Tb * option error :=
  let '(tb, res) := DeleteItem net GroupId (is_member member) tb in
  (tb, match res with
       | Err err => Some (EWrapped "can not resign as current leader" err)
       | Ok _ => None
       end).

(** The members of a group: [claims] holds the end of the lease of a member that
    IsLeader has told that it is the leader, by the clock of this member.  The clocks
    of the members and of DynamoDB are at most [skew] away from the time and the one
    of a member does not run backwards; what it has read may be older when its request
    is executed. *)
Record election := { group : Tb; election_time : Z; claims : gmap string Z }.
Implicit Types (s : election).

Definition election_reads s (now : Z) : Prop := (now ≤ election_time s + skew)%Z.

Inductive election_step : election → election → Prop :=
| election_tick s t :
    (election_time s ≤ t)%Z →
    election_step s {| group := group s; election_time := t; claims := claims s |}
| election_campaign s now net member tb r :
    election_reads s now →
    (∀ until, claims s !! member = Some until → (until ≤ now + LeaseDuration)%Z) →
    IsLeader now net member (group s) = (tb, r) →
    election_step s {| group := tb; election_time := election_time s;
      claims := match r with
                | Ok true => <[member := (now + LeaseDuration)%Z]> (claims s)
                | Ok false => delete member (claims s)
                | Err _ => claims s
                end |}
| election_resign s net member tb err :
    Resign net member (group s) = (tb, err) →
    election_step s {| group := tb; election_time := election_time s; claims := delete member (claims s) |}
| election_expire s now it :
    election_reads s now → db_get GroupId (group s) = Some it → (LeadingUntil it < Unix now)%Z →
    election_step s {| group := db_write GroupId (λ _, None) (group s);
      election_time := election_time s; claims := claims s |}.

(** A member that stops leading when its clock is twice the skew before the end of
    its lease may lead: its clock reads no less than [election_time s - skew]. *)
Definition leads s member : Prop :=
  ∃ until now, claims s !! member = Some until ∧ (election_time s - skew ≤ now)%Z ∧ (now + 2 * skew ≤ until)%Z.

Definition election_inv s : Prop :=
  ∀ member until, claims s !! member = Some until → (election_time s + skew ≤ until)%Z →
    ∃ it, db_get GroupId (group s) = Some it ∧ MemberId it = member ∧ (Unix until ≤ LeadingUntil it)%Z.

Context `{!DynamoLaws DdbLeaderElectionItem Tb}.

Lemma election_campaign_inv s now net member tb r :
  election_inv s → election_reads s now →
  (∀ until, claims s !! member = Some until → (until ≤ now + LeaseDuration)%Z) →
  IsLeader now net member (group s) = (tb, r) →
  ∀ m until, claims s !! m = Some until → (election_time s + skew ≤ until)%Z →
    ∃ it, db_get GroupId tb = Some it ∧ MemberId it = m ∧ (Unix until ≤ LeadingUntil it)%Z.
Proof.
  intros Hinv Hreads Hmono. unfold IsLeader. destruct (PutItem _ _ _ _ _) as [tb1 res] eqn:Hput. intros [= <- <-].
  apply PutItem_get in Hput as (_ & Hget & _). intros m until Hm Hle.
  destruct (Hinv m until Hm Hle) as (it & Hit & Hmem & Hlead).
  assert (Unix now ≤ Unix until)%Z as Hu by (unfold election_reads in Hreads; apply Unix_le; lia).
  rewrite Hit /= in Hget.
  destruct (decide (m = member)) as [->|Hne].
  - destruct Hget as [->|[_ ->]]; [by eauto|]. eexists. split_and!; [done..|]. by apply Unix_le, Hmono.
  - assert ((bool_decide (MemberId it = member)
      || bool_decide (MemberId it ≠ member) && (LeadingUntil it <? Unix now)%Z) = false) as Hno.
    { rewrite bool_decide_eq_false_2; [congruence|]. simpl. rewrite (proj2 (Z.ltb_ge _ _)); [lia|].
      by rewrite andb_false_r. }
    rewrite Hno in Hget. destruct Hget as [->|[]]; [by eauto | done].
Qed.

(** A member that is told that it leads has just written its item. *)
Lemma IsLeader_true now net member tb tb' :
  IsLeader now net member tb = (tb', Ok true) →
  db_get GroupId tb' = Some {| MemberId := member; LeadingUntil := Unix (now + LeaseDuration) |}.
Proof.
  unfold IsLeader. destruct (PutItem _ _ _ _ _) as [tb1 res] eqn:Hput. intros [= <- Hres].
  apply PutItem_get in Hput as (_ & _ & Hok).
  assert (res = Ok false) as -> by (destruct res as [[|]|e]; simpl in Hres; [done | done | by destruct (errors_Is _ e)]).
  by destruct (Hok eq_refl).
Qed.

Lemma election_step_inv s s' : election_inv s → election_step s s' → election_inv s'.
Proof.
  intros Hinv. destruct 1 as [s t Ht|s now net member tb r Hr Hmono Hc|s net member tb err Hr|s now it Hr Hit Hx];
    intros m until; simpl.
  - intros Hm Hle. apply (Hinv m until Hm). lia.
  - pose proof (election_campaign_inv s now net member tb r Hinv Hr Hmono Hc) as Hkept.
    destruct r as [[|]|e]; [|by intros [_ ?]%lookup_delete_Some; auto | by auto].
    intros [[<- <-]|[_ Hm]]%lookup_insert_Some; [|by auto]. intros _.
    apply IsLeader_true in Hc as ->. by eexists.
  - intros [Hne Hm]%lookup_delete_Some Hle. destruct (Hinv m until Hm Hle) as (it & Hit & Hmem & Hlead).
    exists it. split_and!; [|done..].
    unfold Resign in Hr. destruct (DeleteItem _ _ _ _) as [tb1 res] eqn:Hdel. injection Hr as -> _.
    apply DeleteItem_get in Hdel as (_ & [->|[Hc _]] & _); [done|].
    rewrite Hit /= in Hc. apply bool_decide_eq_true in Hc. congruence.
  - intros Hm Hle. destruct (Hinv m until Hm Hle) as (it' & Hit' & Hmem & Hlead). simplify_eq.
    assert (Unix now ≤ Unix until)%Z by (unfold election_reads in Hr; apply Unix_le; lia). lia.
Qed.
End Election.
Arguments election : clear implicits.

(** ** Properties *)

(** C7: Mutual exclusion of the distributed locks: whatever the processes do, with
    clocks that are at most [skew] off, no more than two and a half seconds, and
    requests that get lost, no two of them hold the lock of a resource at the same
    time by their own clocks, as long as a renewal that fails did not ask for less
    time than was left and DynamoDB deletes expired items no sooner than twice the
    skew after their expiry.  DynamoDB documents no such delay for its deletions, only
    that they happen after the expiry: this is all that is needed with exact clocks
    ([skew] and [delay] 0). *)
Theorem lock_mutual_exclusion {Tb} `{!DynamoTable DdbLockItem Tb, !DynamoLaws DdbLockItem Tb}
    (skew delay : Z) (tb : Tb) (t : Z) s token1 l1 token2 l2 :
  (0 ≤ 2 * skew ≤ 5 * 1000000000)%Z → (2 * skew ≤ delay)%Z →
  rtc (lock_step skew delay) {| table := tb; time := t; holders := ∅ |} s →
  holds skew s token1 l1 → holds skew s token2 l2 → l_resource l1 = l_resource l2 →
  token1 = token2.
Proof.
  intros Hskew Hdelay Hrun [Hl1 Hlt1] [Hl2 Hlt2] Hres.
  assert (lock_inv skew s) as Hinv.
  { eapply rtc_invariant; [intros; by eapply lock_step_inv| |exact Hrun].
    intros token l Hl. by rewrite /= lookup_empty in Hl. }
  destruct (Hinv _ _ Hl1) as [_ Hr1]. destruct (Hinv _ _ Hl2) as [_ Hr2].
  destruct (Hr1 Hlt1) as (it1 & Hit1 & <- & _). destruct (Hr2 Hlt2) as (it2 & Hit2 & <- & _).
  rewrite Hres in Hit1. congruence.
Qed.

(** An answered request does what the lock interface promises: acquire takes the
    lock when nobody has it or the last owner's time has been over for more than five
    seconds, and fails with ErrLockOwned otherwise; Renew and Release succeed for the
    owner and fail with ErrLockNotOwned for anyone else, without changing the item. *)
Theorem lock_operations_correct {Tb} `{!DynamoTable DdbLockItem Tb, !DynamoLaws DdbLockItem Tb}
    (tb : Tb) (now lockTime : Z) (resource token : string) :
  let '(tb1, (lock, err)) := acquireAttempt lockTime now Delivered resource token tb in
  let '(tb2, (expiry, err2)) := RenewLock now Delivered lockTime resource token tb in
  let '(tb3, err3) := ReleaseLock Delivered resource token tb in
  match db_get resource tb with
  | Some it =>
      ((Ttl it < Unix now - 5)%Z ∧ db_get resource tb1 = Some {| Token := token; Ttl := Unix (now + lockTime) |} ∧
         err = None ∧ is_Some lock ∨
       (Unix now - 5 ≤ Ttl it)%Z ∧ tb1 = tb ∧ err = Some (EValue ErrLockOwned) ∧ lock = None) ∧
      (Token it = token ∧ db_get resource tb2 = Some {| Token := token; Ttl := Unix expiry |} ∧ err2 = None ∧
         db_get resource tb3 = None ∧ err3 = None ∨
       Token it ≠ token ∧ tb2 = tb ∧ err2 = Some (EValue ErrLockNotOwned) ∧
         tb3 = tb ∧ err3 = Some (EValue ErrLockNotOwned))
  | None =>
      db_get resource tb1 = Some {| Token := token; Ttl := Unix (now + lockTime) |} ∧ err = None ∧ is_Some lock ∧
      tb2 = tb ∧ err2 = Some (EValue ErrLockNotOwned) ∧ tb3 = tb ∧ err3 = Some (EValue ErrLockNotOwned)
  end.
Proof.
  unfold acquireAttempt, RenewLock, ReleaseLock, PutItem, UpdateItem, DeleteItem.
  rewrite !client_write_delivered. destruct (db_get resource tb) as [it|] eqn:Hit; simpl.
  - destruct (Z.ltb_spec (Ttl it) (Unix now - 5)) as [Hlt|Hge];
      destruct (decide (Token it = token)) as [<-|Hne];
      rewrite ?(bool_decide_eq_true_2 (Token it = Token it)) ?(bool_decide_eq_false_2 (Token it = token)) //=;
      rewrite ?db_get_write ?Hit; split; auto 10 using mk_is_Some.
    all: first [left; by auto using mk_is_Some | right; by auto 10 using mk_is_Some].
  - rewrite db_get_write. by eauto 10 using mk_is_Some.
Qed.


(** What the exception in [lock_mutual_exclusion] is for: a renewal for a shorter
    time whose response gets lost leaves the owner with its old expiry, and someone
    else can acquire the lock before. *)
Example lost_renewal_breaks_exclusion :
  let s := 1000000000%Z in
  let '(tb, (lockA, _)) := acquireAttempt (60 * s) 0 Delivered "r" "A" (∅ : gmap string DdbLockItem) in
  let '(tb, lockA, _) := Renew s (Lost (EValue 99) true) s lockA tb in
  let '(tb, (lockB, _)) := acquireAttempt (60 * s) (8 * s) Delivered "r" "B" tb in
  match lockA, lockB with
  | Some a, Some b => (0 < expiresIn (8 * s) a ∧ 0 < expiresIn (8 * s) b)%Z
  | _, _ => False
  end.
Proof. by vm_compute. Qed.

(** What the delay of the deletion is for: with clocks that are two seconds off,
    deleting an item when its ttl is over lets someone else acquire the lock while
    its owner still holds it. *)
Example early_deletion_breaks_exclusion :
  let s := 1000000000%Z in
  let '(tb, (lockA, _)) := acquireAttempt (60 * s) 0 Delivered "r" "A" (∅ : gmap string DdbLockItem) in
  let tb := db_write "r" (λ _, None) tb in
  let '(tb, (lockB, _)) := acquireAttempt (60 * s) (61 * s) Delivered "r" "B" tb in
  match lockA, lockB with
  | Some a, Some b => (60 < Unix (61 * s) ∧ 0 < expiresIn (59 * s) a ∧ 0 < expiresIn (61 * s) b)%Z
  | _, _ => False
  end.
Proof. by vm_compute. Qed.

(** With clocks that are two seconds off, a member that uses its lease to the end may
    lead together with the next one. *)
Example lease_margin_needed :
  let s := 1000000000%Z in
  let '(tb, r1) := IsLeader "g" (60 * s) 0 Delivered "a" (∅ : gmap string DdbLeaderElectionItem) in
  let '(tb, r2) := IsLeader "g" (60 * s) (61 * s) Delivered "b" tb in
  r1 = Ok true ∧ r2 = Ok true ∧ (61 * s - 2 * s < 0 + 60 * s)%Z.
Proof. by vm_compute. Qed.

(** A retry after a lost response finds the item of its own first attempt. *)
Example acquire_after_lost_response :
  let s := 1000000000%Z in
  let '(tb, _) := acquireAttempt (60 * s) 0 (Lost (EValue 99) true) "r" "A" (∅ : gmap string DdbLockItem) in
  (acquireAttempt (60 * s) s Delivered "r" "A" tb).2 = (None, Some (EValue ErrLockOwned)).
Proof. by vm_compute. Qed.

(** ** Witnesses *)

Definition sample_lock : ddbLock := {| l_resource := "r"; l_token := "A"; expires := 60000000 |}.

Definition sample_locked : lock_system (Tb := gmap string DdbLockItem) :=
  {| table := {["r" := {| Token := "A"; Ttl := 60 |}]}; time := 0; holders := {["A" := sample_lock]} |}.

Lemma lock_mutual_exclusion_witness :
  holds 1000000000 sample_locked "A" sample_lock ∧
  (∀ token l, holds 1000000000 sample_locked token l → l_resource l = "r" → token = "A").
Proof.
  split; [split; vm_compute; reflexivity|]. intros token l Hl Hr.
  apply (lock_mutual_exclusion 1000000000 2000000000 (∅ : gmap string DdbLockItem) 0 sample_locked token l "A" sample_lock);
    [lia | lia | | exact Hl | split; vm_compute; reflexivity | exact Hr].
  apply rtc_once.
  pose proof (lock_acquire 1000000000 2000000000 {| table := ∅ : gmap string DdbLockItem; time := 0; holders := ∅ |}
    0 Delivered 60000000000 "r" "A" {["r" := {| Token := "A"; Ttl := 60 |}]} (Some sample_lock, None)) as Hstep.
  apply Hstep; [unfold reads; simpl; lia | reflexivity | vm_compute; reflexivity].
Defined.

Definition sample_led : election (gmap string DdbLeaderElectionItem) :=
  {| group := {["g" := {| MemberId := "m"; LeadingUntil := 60 |}]} : gmap string DdbLeaderElectionItem;
     election_time := 0; claims := {["m" := 60000000000%Z]} |}.

