(* ===== verification/Limit.v ===== *)
(** * pkg/limit: rate limiters

    The fixed window limiter over a backend that counts the requests of a window,
    with its backends on DynamoDB and Redis, and the chains of limiters and
    middlewares.  Redis is a parameter with the documented behaviour of the three
    commands; DynamoDB is the class of Dynamo.v.  The leaky bucket is third-party
    code; the middlewares that log and write metrics are left out.  Times are
    nanoseconds. *)
From S2P Require Import Prelude Num Exec Dynamo.
Local Open Scope Z_scope.

Definition Sec : Z := 1000000000.

(** [pkg/limit/fixed_window.go:13-17] FixedWindowConfig *)
Record FixedWindowConfig := { Cap : Z; Window : Z }.

(** ** The limiter *)

(** [pkg/limit/middleware.go:5-10] Middleware: the calls it gets *)
Inductive middleware_call := OnTake | OnRelease | OnError | OnThrottle.

(** [pkg/limit/fixed_window.go:61-68] what Wait adds to the time until the window
    ends; [None] is the panic of a division by zero *)
Definition queueTime (config : FixedWindowConfig) (increment ttl : Z) : option Z :=
  if decide (Cap config = 0) then None
  else Some (int64 (ttl + int64 (Z.quot (int64 (increment - Cap config)) (Cap config) * Window config))).

(** [pkg/limit/fixed_window.go:37-82] fixedWindow.Wait: the calls of the
    middleware and the error; [timer] waits for a time and gives the error of the
    context if that ends first *)
Definition Wait {W : Type} (config : FixedWindowConfig) (Increment : W → W * result error (Z * Z))
    (timer : Z → W → W * option error) (w : W) : W * list middleware_call * result panic (option error) :=
  match Increment w with
  | (w, Err err) => (w, [OnTake; OnError], Ok (Some err))
  | (w, Ok (incr, ttl)) =>
      let increment := int64 (incr - 1) in
      if Cap config <=? increment then
        match queueTime config increment ttl with
        | None => (w, [OnTake; OnThrottle; OnRelease], Err DivisionByZero)
        | Some queue =>
            match timer queue w with
            | (w, Some err) => (w, [OnTake; OnThrottle; OnError], Ok (Some err))
            | (w, None) => (w, [OnTake; OnThrottle; OnRelease], Ok None)
            end
        end
      else (w, [OnTake; OnRelease], Ok None)
  end.

(** [pkg/limit/chained.go:27-35] chained.Wait *)
Fixpoint chained_Wait {W} (limiters : list (W → W * option error)) (w : W) : W * option error :=
  match limiters with
  | [] => (w, None)
  | l :: limiters =>
      match l w with
      | (w, Some err) => (w, Some err)
      | (w, None) => chained_Wait limiters w
      end
  end.

(** [pkg/limit/chained.go:9-21] ChainFactories *)
Fixpoint ChainFactories {L} (fs : list (result error L)) : result error (list L) :=
  match fs with
  | [] => Ok []
  | Err err :: _ => Err err
  | Ok lim :: fs =>
      match ChainFactories fs with
      | Err err => Err err
      | Ok limiters => Ok (lim :: limiters)
      end
  end.

(** [pkg/limit/middleware.go:14-40] chainedMiddleware: each call goes to every middleware *)
Definition chainedMiddleware {M S} (call : middleware_call → M → S → S) (c : middleware_call)
    (m : list M) (s : S) : S :=
  fold_left (λ s m, call c m s) m s.

(** ** The backend on DynamoDB *)

(** [pkg/limit/fixed_window_ddb.go:19-23] window; an item can lack the ttl *)
Record window := { Val : Z; Ttl : option Z }.

Section FixedWindowDdb.
Context {Tb : Type} `{!DynamoTable window Tb} (Window : Z).

(** [pkg/limit/fixed_window_ddb.go:80-83] the condition of the reset *)
Definition expired (now : Z) (item : option window) : bool :=
  match item with
  | None => true
  | Some it => match Ttl it with None => true | Some ttl => ttl <? Unix now end
  end.

(** [pkg/limit/fixed_window_ddb.go:84-85] the update of the reset *)
Definition reset_item (now : Z) (item : option window) : window :=
  {| Val := 1;
     Ttl := Some match item with
                 | Some {| Ttl := Some ttl |} => ttl
                 | _ => Unix (now + Window)
                 end |}.

(** [pkg/limit/fixed_window_ddb.go:94-96] the update of the increment *)
Definition add_one (item : option window) : window :=
  match item with
  | Some it => {| Val := Val it + 1; Ttl := Ttl it |}
  | None => {| Val := 1; Ttl := None |}
  end.

(** What an update that returns the new attributes leaves in the item. *)
Definition returned (new : option window) : Z * Z :=
  match new with
  | Some it => (Val it, default 0 (Ttl it))
  | None => (0, 0)
  end.

(** [pkg/limit/fixed_window_ddb.go:64-107] fixedWindowDdb.Increment: the times
    are the three readings of the clock *)
Definition ddb_Increment (now1 now2 now3 : Z) (net1 net2 : network) (key : string) (tb : Tb) :
    Tb * result error (Z * Z) :=
  let '(tb, resp, new) := UpdateItem net1 key (expired now1) (reset_item now2) tb in
  match resp with
  | Err err => (tb, Err err)
  | Ok false => (tb, Ok ((returned new).1, int64 (((returned new).2 - Unix now3) * Sec)))
  | Ok true =>
      let '(tb, resp, new) := UpdateItem net2 key (λ _, true) add_one tb in
      match resp with
      | Err err => (tb, Err err)
      | Ok _ => (tb, Ok ((returned new).1, int64 (((returned new).2 - Unix now3) * Sec)))
      end
  end.
End FixedWindowDdb.

(** ** The backend on Redis *)

(** The commands of a transaction on a key: INCR, EXPIRE with NX, TTL; the state
    of a key is its value and when it expires. *)
Class RedisCounter (R : Type) := {
  redis_key : Z → R → option (Z * option Z);
  redis_Incr : Z → R → R * Z;
  redis_ExpireNX : Z → Z → R → R;
  redis_TTL : Z → R → Z;
}.

(** Documented behaviour: a key is gone when it has expired; INCR counts from the
    value, 0 for no key, and leaves the expiry; EXPIRE NX sets it if there is none,
    in whole seconds; TTL is rounded to seconds. *)
Class RedisLaws (R : Type) `{!RedisCounter R} := {
  redis_gone now now' r v e : redis_key now r = Some (v, Some e) → now ≤ now' →
    redis_key now' r = if decide (now' < e) then Some (v, Some e) else None;
  redis_absent now now' r : redis_key now r = None → now ≤ now' → redis_key now' r = None;
  redis_incr_law now r r' n : redis_Incr now r = (r', n) →
    n = match redis_key now r with Some (v, _) => v + 1 | None => 1 end ∧
    redis_key now r' = Some (n, match redis_key now r with Some (_, e) => e | None => None end);
  redis_expire_law now ttl r v e : redis_key now r = Some (v, e) → (Sec | ttl) → Sec ≤ ttl →
    redis_key now (redis_ExpireNX now ttl r) = Some (v, match e with Some e => Some e | None => Some (now + ttl) end);
  redis_ttl_law now r v e : redis_key now r = Some (v, Some e) → Z.abs (redis_TTL now r - (e - now)) ≤ Sec;
}.

(** [pkg/limit/fixed_window_redis.go:56-68] fixedWindowRedis.Increment when the
    transaction is executed at [now] *)
Definition redis_Increment {R} `{!RedisCounter R} (Window now : Z) (r : R) : R * (Z * Z) :=
  let '(r, n) := redis_Incr now r in
  let r := redis_ExpireNX now Window r in
  (r, (n, redis_TTL now r)).

(** ** What a backend promises

    A window counts the requests from its first one until it ends; the next
    request starts a new one. *)
Definition spec_Increment (window now : Z) (s : option (Z * Z)) : option (Z * Z) * (Z * Z) :=
  match s with
  | Some (n, e) => if decide (now < e) then (Some (n + 1, e), (n + 1, e - now))
                   else (Some (1, now + window), (1, window))
  | None => (Some (1, now + window), (1, window))
  end.

(** ** Lemmas *)

(** A redis key that stands for a window. *)
Definition redis_rel {R} `{!RedisCounter R} (now : Z) (r : R) (s : option (Z * Z)) : Prop :=
  redis_key now r = match s with
                    | Some (n, e) => if decide (now < e) then Some (n, Some e) else None
                    | None => None
                    end.

Section RedisLemmas.
Context {R : Type} `{!RedisCounter R, !RedisLaws R}.

Lemma redis_rel_later now now' r s : redis_rel now r s → now ≤ now' → redis_rel now' r s.
Proof.
  unfold redis_rel. intros Hr Hle. destruct s as [[n e]|]; [|by eapply redis_absent].
  destruct (decide (now < e)) as [Hlt|Hge].
  - by eapply redis_gone.
  - rewrite (redis_absent now now' r Hr Hle). by rewrite decide_False; [lia|].
Qed.

Lemma redis_Increment_spec window now r s :
  redis_rel now r s → (Sec | window) → Sec ≤ window →
  let '(r', (n, ttl)) := redis_Increment window now r in
  let '(s', (n', ttl')) := spec_Increment window now s in
  redis_rel now r' s' ∧ n = n' ∧ Z.abs (ttl - ttl') ≤ Sec.
Proof.
  unfold redis_Increment, redis_rel. intros Hr Hdiv Hge.
  destruct (redis_Incr now r) as [r1 n] eqn:Hi. apply redis_incr_law in Hi as [Hn Hk].
  pose proof (redis_expire_law now window r1 _ _ Hk Hdiv Hge) as He.
  rewrite Hr in Hn, Hk, He.
  assert (0 < Sec) by done.
  destruct s as [[m e]|]; simpl in *; [destruct (decide (now < e)) as [Hlt|Hlt]|];
    pose proof (redis_ttl_law _ _ _ _ He); simplify_eq; rewrite He.
  - rewrite decide_True //.
  - rewrite decide_True; [lia|]. split_and!; [done..|lia].
  - rewrite decide_True; [lia|]. split_and!; [done..|lia].
Qed.
End RedisLemmas.

(** The windows a DynamoDB item stands for; an item that is expired can still be
    there. *)
Section DdbLemmas.
Context {Tb : Type} `{!DynamoTable window Tb, !DynamoLaws window Tb}.

Lemma ddb_Increment_run Window now1 now2 now3 key (tb : Tb) :
  let item := db_get key tb in
  let item' := if expired now1 item then reset_item Window now2 item else add_one item in
  ∃ tb', ddb_Increment Window now1 now2 now3 Delivered Delivered key tb =
    (tb', Ok (Val item', int64 ((default 0 (Ttl item') - Unix now3) * Sec))) ∧
    db_get key tb' = Some item'.
Proof.
  cbv zeta. unfold ddb_Increment, UpdateItem. rewrite client_write_delivered.
  destruct (expired now1 (db_get key tb)) eqn:He; simpl.
  - rewrite db_get_write. eexists. split; [done|]. by rewrite db_get_write.
  - rewrite db_get_write. eexists. split; [done|]. by rewrite db_get_write.
Qed.
End DdbLemmas.

(** The clock as the world of a Wait. *)
Definition clock_timer (queue : Z) (now : Z) : Z * option error := (now + Z.max 0 queue, None).

(** When a request is released that is the [n]-th, from 0, of a window that ends at [e]. *)
Definition released (config : FixedWindowConfig) (n e now : Z) : Z :=
  (Wait config (λ now, (now, Ok (n + 1, e - now))) clock_timer now).1.1.

Lemma queueTime_exact config n ttl :
  0 < Cap config → 0 ≤ Window config → Cap config ≤ n → 0 ≤ ttl →
  ttl + n * Window config + n < 2 ^ 63 → n < 2 ^ 62 → Cap config < 2 ^ 62 →
  queueTime config n ttl = Some (ttl + (n - Cap config) / Cap config * Window config).
Proof.
  intros Hc Hw Hn Ht Hmax Hn' Hc'. unfold queueTime. rewrite decide_False; [lia|].
  rewrite (int64_id (n - Cap config)); [lia|]. rewrite Z.quot_div_nonneg; [lia..|].
  pose proof (Z.div_le_upper_bound (n - Cap config) (Cap config) n Hc ltac:(nia)) as Hd.
  pose proof (Z.div_pos (n - Cap config) (Cap config) ltac:(lia) Hc) as Hp.
  rewrite (int64_id (_ * _)); [nia|]. by rewrite int64_id; [nia|].
Qed.

Lemma released_window config n i now :
  0 < Cap config → 0 < Window config → 0 ≤ n →
  i * Window config ≤ now < (i + 1) * Window config →
  (n + 1) * Window config + n < 2 ^ 63 → n < 2 ^ 62 → Cap config < 2 ^ 62 →
  released config n ((i + 1) * Window config) now / Window config = i + n / Cap config.
Proof.
  intros Hc Hw Hn Hnow Hmax Hn' Hc'. unfold released, Wait.
  replace (int64 (n + 1 - 1)) with n by (rewrite int64_id; lia).
  destruct (Z.leb_spec (Cap config) n) as [Hle|Hlt].
  - rewrite queueTime_exact; [lia..|]. simpl. set (q := (n - Cap config) / Cap config).
    assert (0 ≤ q) as Hq by (apply Z.div_pos; lia).
    rewrite Z.max_r; [nia|].
    replace (now + _) with ((i + 1 + q) * Window config) by nia. rewrite Z.div_mul; [lia|].
    unfold q. replace (n - Cap config) with (n + (-1) * Cap config) by lia. rewrite Z.div_add; lia.
  - simpl. rewrite (Z.div_small n); [lia|]. symmetry. rewrite Z.add_0_r.
    apply Z.div_unique with (now - i * Window config); lia.
Qed.

Lemma filter_div_const cap k q (l : list nat) :
  (∀ n, n ∈ l → (n / cap = k)%nat) →
  length (List.filter (λ n, bool_decide (n / cap = q)%nat) l) = if decide (q = k) then length l else 0%nat.
Proof.
  induction l as [|n l IH]; intros Hdiv; simpl; [by case_decide|].
  rewrite (Hdiv n); [by left|]. specialize (IH (λ n Hn, Hdiv n (list_elem_of_further _ _ _ Hn))).
  destruct (decide (q = k)) as [->|Hne].
  - by rewrite bool_decide_eq_true_2 //= IH.
  - by rewrite bool_decide_eq_false_2.
Qed.

Lemma count_div cap k q :
  (0 < cap)%nat →
  length (List.filter (λ n, bool_decide (n / cap = q)%nat) (seq 0 (k * cap))) = if decide (q < k)%nat then cap else 0%nat.
Proof.
  intros Hc. induction k as [|k IH]; [done|]. simpl. rewrite (Nat.add_comm cap) seq_app List.filter_app length_app IH.
  assert (∀ n, n ∈ seq (0 + k * cap) cap → (n / cap = k)%nat) as Hdiv.
  { intros n [j [-> Hj]%lookup_seq]%list_elem_of_lookup.
    rewrite Nat.add_0_l Nat.add_comm Nat.div_add; [lia|]. rewrite Nat.div_small; lia. }
  rewrite (filter_div_const cap k q _ Hdiv) length_seq.
  destruct (decide (q < k)%nat), (decide (q = k)), (decide (q < S k)%nat); lia.
Qed.

(** The requests that are released in window [j] when [k * cap] of them arrive in
    every window: the windows they arrive in and their numbers there. *)
Definition released_in (config : FixedWindowConfig) (k cap : nat) (arrive : nat → nat → Z) (j : nat) :
    list (nat * nat) :=
  List.filter (λ r, bool_decide (released config (Z.of_nat r.2) ((Z.of_nat r.1 + 1) * Window config)
                                   (arrive r.1 r.2) / Window config = Z.of_nat j))
    (list_prod (seq 0 (S j)) (seq 0 (k * cap))).

Lemma filter_prod_length {A B} (f : A → B → bool) (l : list A) (k : list B) :
  length (List.filter (λ r, f r.1 r.2) (list_prod l k)) =
  sum_list ((λ a, length (List.filter (f a) k)) <$> l).
Proof.
  induction l as [|a l IH]; [done|]. simpl. rewrite List.filter_app length_app IH. f_equal.
  clear IH. induction k as [|b k IHk]; [done|]. simpl. destruct (f a b); simpl; by rewrite IHk.
Qed.

Lemma sum_recent cap k j :
  sum_list ((λ i, if decide (j - i < k)%nat then cap else 0%nat) <$> seq 0 (S j)) = (Nat.min k (S j) * cap)%nat.
Proof.
  assert (∀ m, (m ≤ S j)%nat →
    sum_list ((λ i, if decide (j - i < k)%nat then cap else 0%nat) <$> seq 0 m) =
    ((Nat.min k (S j) - Nat.min k (S j - m)) * cap)%nat) as Hm.
  { induction m as [|m IH]; intros Hm; [simpl; nia|]. rewrite seq_S fmap_app sum_list_with_app.
    rewrite IH; [lia|]. simpl. case_decide; nia. }
  rewrite Hm; [lia|]. rewrite Nat.sub_diag Nat.min_0_r. lia.
Qed.

(** ** Properties *)

(** The [n]-th request of a window, counted from 0, is released in the window in
    which it arrived or [n / Cap] windows later: of the requests of one window no
    more than [Cap] are released in any window.  But the requests that wait are not
    counted in the window in which they are released: when [k * Cap] requests arrive
    in every window, from the [k]-th window on all [k * Cap] of them are released in
    every window. *)
Theorem fixed_window_releases config k cap arrive :
  Cap config = Z.of_nat cap → (0 < cap)%nat → 0 < Window config → Cap config < 2 ^ 62 →
  (Z.of_nat (k * cap) + 1) * Window config + Z.of_nat (k * cap) < 2 ^ 63 → Z.of_nat (k * cap) < 2 ^ 62 →
  (∀ i n, Z.of_nat i * Window config ≤ arrive i n < (Z.of_nat i + 1) * Window config) →
  (∀ i n, (n < k * cap)%nat →
     released config (Z.of_nat n) ((Z.of_nat i + 1) * Window config) (arrive i n) / Window config =
       Z.of_nat (i + n / cap)) ∧
  (∀ j, length (released_in config k cap arrive j) = Nat.min k (S j) * cap)%nat.
Proof.
  intros Hcap Hpos Hw Hc Hmax Hmax' Harr.
  assert (∀ i n, (n < k * cap)%nat →
     released config (Z.of_nat n) ((Z.of_nat i + 1) * Window config) (arrive i n) / Window config =
       Z.of_nat (i + n / cap)) as Hrel.
  { intros i n Hn. rewrite (released_window config _ (Z.of_nat i)); [lia.. | apply Harr | nia | lia | lia|].
    rewrite Hcap -Nat2Z.inj_div. lia. }
  split; [done|]. intros j. unfold released_in.
  etrans; [exact (filter_prod_length (λ i n, bool_decide (released config (Z.of_nat n)
    ((Z.of_nat i + 1) * Window config) (arrive i n) / Window config = Z.of_nat j)) _ _)|].
  rewrite -sum_recent. f_equal. apply list_fmap_ext. intros x i [-> Hi]%lookup_seq.
  rewrite -(count_div cap k (j - (0 + x))) //. f_equal. apply filter_ext_in. intros n Hn%in_seq.
  rewrite Hrel; [lia|]. apply bool_decide_ext. lia.
Qed.

(** The backend on Redis counts as documented: on any requests with clocks that do
    not go back, the numbers it returns are those of windows that begin with their
    first request and last for the configured time, and the remaining times are right
    up to the second to which Redis rounds. *)
Theorem redis_counts_windows {R} `{!RedisCounter R, !RedisLaws R} (window : Z) (times : list Z) (now0 : Z) (r : R) :
  (Sec | window) → Sec ≤ window → redis_key now0 r = None → Sorted Z.le (now0 :: times) →
  let run := fold_left (λ '(r, out) now, let '(r, o) := redis_Increment window now r in (r, out ++ [o])) times (r, []) in
  let spec := fold_left (λ '(s, out) now, let '(s, o) := spec_Increment window now s in (s, out ++ [o])) times (None, []) in
  Forall2 (λ o o', o.1 = o'.1 ∧ Z.abs (o.2 - o'.2) ≤ Sec) run.2 spec.2.
Proof.
  intros Hdiv Hge Hnone Hsorted. cbv zeta.
  assert (∀ s outs outs', redis_rel now0 r s →
    Forall2 (λ o o', o.1 = o'.1 ∧ Z.abs (o.2 - o'.2) ≤ Sec) outs outs' →
    Forall2 (λ o o', o.1 = o'.1 ∧ Z.abs (o.2 - o'.2) ≤ Sec)
      (fold_left (λ '(r, out) now, let '(r, o) := redis_Increment window now r in (r, out ++ [o])) times (r, outs)).2
      (fold_left (λ '(s, out) now, let '(s, o) := spec_Increment window now s in (s, out ++ [o])) times (s, outs')).2)
    as Hgen; [|by apply Hgen].
  clear Hnone. revert now0 r Hsorted. induction times as [|now times IH]; intros now0 r Hsorted s outs outs' Hrel Houts; [done|].
  inversion Hsorted as [|? ? Hs Hhd]; subst. inversion Hhd; subst. cbn [fold_left].
  pose proof (redis_Increment_spec window now r s (redis_rel_later now0 now r s Hrel ltac:(done)) Hdiv Hge) as Hstep.
  destruct (redis_Increment window now r) as [r' [n ttl]], (spec_Increment window now s) as [s' [n' ttl']].
  destruct Hstep as (Hrel' & Hn & Httl). eapply IH; [exact Hs | exact Hrel' |].
  apply Forall2_app; [done|]. by repeat constructor.
Qed.

(** The backend on DynamoDB counts the requests of a window that has not ended
    and starts one when there is no item; but once a window has ended and DynamoDB has
    not removed its item yet, every request is counted as the first one and the window
    is not renewed, so the limiter lets every request pass. *)
Theorem ddb_window_not_renewed {Tb} `{!DynamoTable window Tb, !DynamoLaws window Tb}
    config now1 now2 now3 key (timer : Z → Tb → Tb * option error) (tb : Tb) :
  1 ≤ Cap config →
  let Increment := ddb_Increment (Window config) now1 now2 now3 Delivered Delivered key in
  match db_get key tb with
  | None => ∃ tb', Increment tb =
      (tb', Ok (1, int64 ((Unix (now2 + Window config) - Unix now3) * Sec))) ∧
      db_get key tb' = Some {| Val := 1; Ttl := Some (Unix (now2 + Window config)) |}
  | Some {| Val := n; Ttl := Some ttl |} =>
      if decide (Unix now1 ≤ ttl)
      then ∃ tb', Increment tb = (tb', Ok (n + 1, int64 ((ttl - Unix now3) * Sec))) ∧
             db_get key tb' = Some {| Val := n + 1; Ttl := Some ttl |}
      else ∃ tb', Wait config Increment timer tb = (tb', [OnTake; OnRelease], Ok None) ∧
             db_get key tb' = Some {| Val := 1; Ttl := Some ttl |}
  | Some {| Ttl := None |} => True
  end.
Proof.
  intros Hcap. cbv zeta.
  destruct (ddb_Increment_run (Window config) now1 now2 now3 key tb) as (tb' & Hrun & Hget).
  destruct (db_get key tb) as [[n [ttl|]]|] eqn:Hit; [|done|]; simpl in Hrun, Hget.
  - destruct (decide (Unix now1 ≤ ttl)) as [Hle|Hgt].
    + rewrite (proj2 (Z.ltb_ge _ _) Hle) in Hrun, Hget. by exists tb'.
    + rewrite (proj2 (Z.ltb_lt _ _)) in Hrun, Hget; [lia..|]. exists tb'. split; [|done].
      unfold Wait. rewrite Hrun. change (int64 (Val _ - 1)) with 0.
      by rewrite (proj2 (Z.leb_gt (Cap config) _)); [lia|].
  - by exists tb'.
Qed.

(** The limiter waits when and only when the backend's number of the request
    exceeds the capacity, reports every request to the middleware in the order of its
    life, and passes the errors of the backend and of the context on; a capacity of 0
    makes it panic. *)
Theorem Wait_correct {W} config (Increment : W → W * result error (Z * Z))
    (timer : Z → W → W * option error) (w : W) :
  let '(w1, r) := Increment w in
  match r with
  | Err err => Wait config Increment timer w = (w1, [OnTake; OnError], Ok (Some err))
  | Ok (incr, ttl) =>
      - 2 ^ 63 < incr < 2 ^ 63 →
      (incr ≤ Cap config → Wait config Increment timer w = (w1, [OnTake; OnRelease], Ok None)) ∧
      (Cap config = 0 → 0 < incr →
         Wait config Increment timer w = (w1, [OnTake; OnThrottle; OnRelease], Err DivisionByZero)) ∧
      (0 < Cap config < incr → ∃ queue,
         queueTime config (incr - 1) ttl = Some queue ∧
         Wait config Increment timer w =
           let '(w2, err) := timer queue w1 in
           (w2, [OnTake; OnThrottle; match err with Some _ => OnError | None => OnRelease end], Ok err))
  end.
Proof.
  unfold Wait. destruct (Increment w) as [w1 [[incr ttl]|err]]; [|done]. intros Hi.
  rewrite int64_id; [lia|]. split_and!.
  - intros Hle. by rewrite (proj2 (Z.leb_gt (Cap config) _)); [lia|].
  - intros Hc Hp. rewrite (proj2 (Z.leb_le (Cap config) _)); [lia|]. unfold queueTime. by rewrite decide_True.
  - intros Hc. rewrite (proj2 (Z.leb_le (Cap config) _)); [lia|]. unfold queueTime. rewrite decide_False; [lia|].
    eexists. split; [done|]. by destruct (timer _ w1) as [w2 [e|]].
Qed.

(** ** Witnesses *)

Definition sample_config : FixedWindowConfig := {| Cap := 2; Window := 10 |}.

Lemma fixed_window_releases_witness :
  length (released_in sample_config 3 2 (λ i _, Z.of_nat i * 10) 7) = 6%nat.
Proof.
  refine (proj2 (fixed_window_releases sample_config 3 2 (λ i _, Z.of_nat i * 10) _ _ _ _ _ _ _) 7%nat).
  all: first [done | simpl; lia].
Defined.

(** A Redis key. *)
#[local] Instance sample_redis : RedisCounter (option (Z * option Z)) := {|
  redis_key now r := match r with
                     | Some (v, Some e) => if decide (now < e) then Some (v, Some e) else None
                     | r => r
                     end;
  redis_Incr now r := match r with
                      | Some (v, Some e) => if decide (now < e) then (Some (v + 1, Some e), v + 1) else (Some (1, None), 1)
                      | Some (v, None) => (Some (v + 1, None), v + 1)
                      | None => (Some (1, None), 1)
                      end;
  redis_ExpireNX now ttl r := match r with Some (v, None) => Some (v, Some (now + ttl)) | r => r end;
  redis_TTL now r := match r with Some (_, Some e) => e - now | _ => 0 end;
|}.

#[local] Instance sample_redis_laws : RedisLaws (option (Z * option Z)).
Proof.
  split; unfold redis_key, redis_Incr, redis_ExpireNX, redis_TTL; simpl.
  - intros now now' [[v0 [e0|]]|] v e Hk Hle; simplify_eq; repeat case_decide; simplify_eq; try done; lia.
  - intros now now' [[v0 [e0|]]|] Hk Hle; simplify_eq; repeat case_decide; simplify_eq; try done; lia.
  - intros now [[v0 [e0|]]|] r' n Hk; repeat case_decide; simplify_eq/=; split; repeat case_decide; done.
  - intros now ttl [[v0 [e0|]]|] v e Hk _ Hle; repeat case_decide; simplify_eq; try done; try lia.
    all: unfold Sec in *; repeat case_decide; simplify_eq; try done; lia.
  - intros now [[v0 [e0|]]|] v e Hk; repeat case_decide; simplify_eq; unfold Sec; lia.
Qed.

Lemma redis_counts_windows_witness :
  (fold_left (λ '(r, out) now, let '(r, o) := redis_Increment (10 * Sec) now r in (r, out ++ [o]))
     [0; Sec; 11 * Sec] (None : option (Z * option Z), [])).2 = [(1, 10 * Sec); (2, 9 * Sec); (1, 10 * Sec)] ∧
  Forall2 (λ o o' : Z * Z, o.1 = o'.1 ∧ Z.abs (o.2 - o'.2) ≤ Sec)
    [(1, 10 * Sec); (2, 9 * Sec); (1, 10 * Sec)] [(1, 10 * Sec); (2, 9 * Sec); (1, 10 * Sec)].
Proof.
  split; [vm_compute; reflexivity|].
  exact (redis_counts_windows (10 * Sec) [0; Sec; 11 * Sec] 0 (None : option (Z * option Z))
    ltac:(by exists 10) ltac:(by vm_compute) ltac:(done) ltac:(by repeat constructor)).
Defined.

Lemma ddb_window_not_renewed_witness :
  ∃ tb', Wait sample_config (ddb_Increment 10 (99 * Sec) (99 * Sec) (99 * Sec) Delivered Delivered "k")
      (λ _ tb, (tb, None)) ({["k" := {| Val := 7; Ttl := Some 60 |}]} : gmap string window) =
    (tb', [OnTake; OnRelease], Ok None) ∧ tb' !! "k" = Some {| Val := 1; Ttl := Some 60 |}.
Proof.
  exact (ddb_window_not_renewed sample_config (99 * Sec) (99 * Sec) (99 * Sec) "k" (λ _ tb, (tb, None))
    ({["k" := {| Val := 7; Ttl := Some 60 |}]} : gmap string window) ltac:(done)).
Defined.

Lemma Wait_correct_witness :
  Wait sample_config (λ w : Z, (w, Ok (5, 4))) (λ q w, (w + q, None)) 100 =
    (114, [OnTake; OnThrottle; OnRelease], Ok None).
Proof.
  destruct (Wait_correct sample_config (λ w : Z, (w, Ok (5, 4))) (λ q w, (w + q, None)) 100) as (_ & _ & Hw); [lia|].
  destruct Hw as (queue & Hq & ->); [simpl; lia|]. vm_compute in Hq. by simplify_eq.
Defined.
