(* ===== verification/KinesisShards.v ===== *)
(** * pkg/cloud/aws/kinesis/kinsumer.go: which client consumes which shard

    Every kinsumer of an application registers as a client, lists the shards of
    the stream, keeps those that may be consumed next and takes every n-th of
    them, where n is the number of clients.  Definitions: the listing with its
    pages and errors, getSortedShardIds, the refresh, the distribution and the
    steps of Run.  The Kinesis client and the metadata repository are the classes
    below; logging, metrics and the health check are left out. *)
From S2P Require Import Prelude Exec.

Definition ShardId := string.

(** ** What the kinsumer calls *)

(** A page of [ListShards]: the ids of shards and of their parents. *)
Record ListShardsOutput := {
  Shards : list (option string * option string);
  NextToken : option string;
}.

(** The Kinesis client, with the token of the next page. *)
Class ListClient (W : Type) := {
  ListShards : option string → W → W * result error ListShardsOutput;
}.

(** [pkg/cloud/aws/kinesis/metadata_repository.go:31-43] MetadataRepository without AcquireShard *)
Class MetadataRepository (W : Type) := {
  RegisterClient : W → W * result error (nat * nat);
  DeregisterClient : W → W * option error;
  IsShardFinished : ShardId → W → W * result error bool;
}.

(** The exceptions of the Kinesis client and the errors of the package. *)
Definition ResourceInUseException : nat := 20.
Definition ResourceNotFoundException : nat := 21.
Definition StreamBusyError : nat := 22.
Definition NoSuchStreamError : nat := 23.

(** ** Data *)

(** [pkg/cloud/aws/kinesis/kinsumer.go:37-40] shardInfo *)
Record shardInfo := { finished : bool; parent : ShardId }.

(** [pkg/cloud/aws/kinesis/kinsumer.go:114-118] runtimeContext *)
Record runtimeContext := {
  clientIndex : nat;
  totalClients : nat;
  shardIds : list ShardId;
}.

#[export] Instance runtimeContext_eq_dec : EqDecision runtimeContext.
Proof. solve_decision. Defined.

(** ** Operations *)

Section SortedShards.
Context (KeepShardOrder : bool) (ord : map_order ShardId shardInfo).
Implicit Types (shardMap : gmap ShardId shardInfo).

(** [pkg/cloud/aws/kinesis/kinsumer.go:376-391] whether getSortedShardIds takes a shard *)
Definition takes shardMap (info : shardInfo) : bool :=
  if finished info then false
  else
    let parent := if map_has shardMap (parent info) then parent info else ""%string in
    bool_decide (parent = ""%string)
    || match shardMap !! parent with Some p => finished p | None => false end
    || negb KeepShardOrder.

(** [pkg/cloud/aws/kinesis/kinsumer.go:374-396] kinsumer.getSortedShardIds *)
Definition getSortedShardIds shardMap : list ShardId :=
  merge_sort String.le
    (fold_left (λ shardIds kv, if takes shardMap kv.2 then shardIds ++ [kv.1] else shardIds)
       (enum ord shardMap) []).
End SortedShards.

Section Kinsumer.
Context {W : Type} `{!ListClient W, !MetadataRepository W}.
Context (KeepShardOrder : bool) (ord : map_order ShardId shardInfo).
Implicit Types (w : W) (shardMap : gmap ShardId shardInfo) (rt : runtimeContext).

(** [pkg/cloud/aws/kinesis/kinsumer.go:349-360] the shards of a page *)
Fixpoint addShards (shards : list (option string * option string)) shardMap w :
    W * result error (gmap ShardId shardInfo) :=
  match shards with
  | [] => (w, Ok shardMap)
  | (id, parentId) :: shards =>
      let shardId := default ""%string id in
      match IsShardFinished shardId w with
      | (w, Err err) => (w, Err (EWrapped "could not check if shard is already finished" err))
      | (w, Ok finished) =>
          addShards shards
            (<[shardId := {| finished := finished; parent := default ""%string parentId |}]> shardMap) w
      end
  end.

(** [pkg/cloud/aws/kinesis/kinsumer.go:335-347] the error of a page that could
    not be listed *)
Definition listError (err : error) : error :=
  if errors_Is ResourceInUseException err then EValue StreamBusyError
  else if errors_Is ResourceNotFoundException err then EValue NoSuchStreamError
  else EWrapped "failed to list shards of stream" err.

(** [pkg/cloud/aws/kinesis/kinsumer.go:324-367] the loop over the pages; [None]
    when [fuel] pages were not enough *)
Fixpoint listPages (fuel : nat) (nextToken : option string) shardMap w :
    option (W * result error (gmap ShardId shardInfo)) :=
  match fuel with
  | 0 => None
  | S fuel =>
      match ListShards nextToken w with
      | (w, Err err) => Some (w, Err (listError err))
      | (w, Ok res) =>
          match addShards (Shards res) shardMap w with
          | (w, Err err) => Some (w, Err err)
          | (w, Ok shardMap) =>
              match NextToken res with
              | None => Some (w, Ok shardMap)
              | Some token => listPages fuel (Some token) shardMap w
              end
          end
      end
  end.

(** [pkg/cloud/aws/kinesis/kinsumer.go:322-372] kinsumer.listShardIds *)
Definition listShardIds (fuel : nat) w : option (W * result error (list ShardId)) :=
  match listPages fuel None ∅ w with
  | None => None
  | Some (w, Err err) => Some (w, Err err)
  | Some (w, Ok shardMap) => Some (w, Ok (getSortedShardIds KeepShardOrder ord shardMap))
  end.

(** [pkg/cloud/aws/kinesis/kinsumer.go:301-308] the loop of refreshShards that
    compares the ids; [old] has as many as [new] *)
Fixpoint idsChanged (new old : list ShardId) : bool :=
  match new, old with
  | id :: new, id' :: old => if bool_decide (id ≠ id') then true else idsChanged new old
  | _, _ => false
  end.

(** [pkg/cloud/aws/kinesis/kinsumer.go:285-318] kinsumer.refreshShards *)
Definition refreshShards (fuel : nat) rt w : option (W * runtimeContext * result error bool) :=
  match RegisterClient w with
  | (w, Err err) => Some (w, rt, Err (EWrapped "failed to register as client" err))
  | (w, Ok (index, total)) =>
      match listShardIds fuel w with
      | None => None
      | Some (w, Err err) => Some (w, rt, Err (EWrapped "failed to load shards from kinesis" err))
      | Some (w, Ok ids) =>
          let changed := bool_decide (total ≠ totalClients rt) || bool_decide (index ≠ clientIndex rt)
                         || bool_decide (length (shardIds rt) ≠ length ids) in
          let changed := if changed then true else idsChanged ids (shardIds rt) in
          Some (w, {| clientIndex := index; totalClients := total;
                      shardIds := if changed then ids else shardIds rt |}, Ok changed)
      end
  end.
End Kinsumer.

(** [pkg/cloud/aws/kinesis/kinsumer.go:411-432] the loop of startConsumers, from
    index [i]; [None] when [fuel] rounds were not enough *)
Fixpoint stride (fuel i totalClients : nat) (ids : list ShardId) : option (list ShardId) :=
  match fuel with
  | 0 => None
  | S fuel =>
      match ids !! i with
      | None => Some []
      | Some shardId => cons shardId <$> stride fuel (i + totalClients) totalClients ids
      end
  end.

(** [pkg/cloud/aws/kinesis/kinsumer.go:398-481] kinsumer.startConsumers: the
    shards whose readers it starts, and whether it starts the task that keeps an
    idle client healthy *)
Definition startConsumers (fuel : nat) (rt : runtimeContext) : option (list ShardId * bool) :=
  (λ started, (started, length started =? 0))
    <$> stride fuel (clientIndex rt) (totalClients rt) (shardIds rt).

(** ** Discovery *)

(** What wakes the discovery of Run up. *)
Inductive signal := CtxDone | Tick.

(** The variables of Run: the runtime context and the running consumers. *)
Record discovery := {
  runtime : runtimeContext;
  consumers : list ShardId * bool;
}.

Definition request_canceled (err : error) : bool := IsRequestCanceled requestCancelChecks err.

Section Run.
Context {W : Type} `{!ListClient W, !MetadataRepository W}.
Context (KeepShardOrder : bool) (ord : map_order ShardId shardInfo) (fuel : nat).
Implicit Types (w : W) (d : discovery).

(** [pkg/cloud/aws/kinesis/kinsumer.go:260-277] a tick of the discovery: the
    consumers are stopped and started again when something changed; with the
    result of the goroutine once it leaves the loop *)
Definition discover d w : option (W * discovery * option (option error)) :=
  match refreshShards KeepShardOrder ord fuel (runtime d) w with
  | None => None
  | Some (w, rt, Err err) =>
      let left := if request_canceled err then None else Some (EWrapped "failed to refresh shards" err) in
      Some (w, {| runtime := rt; consumers := consumers d |}, Some left)
  | Some (w, rt, Ok changed) =>
      if (changed : bool) then
        match startConsumers fuel rt with
        | None => None
        | Some started => Some (w, {| runtime := rt; consumers := started |}, None)
        end
      else Some (w, {| runtime := rt; consumers := consumers d |}, None)
  end.

(** [pkg/cloud/aws/kinesis/kinsumer.go:255-279] the loop of the discovery on the
    signals it gets *)
Fixpoint discoverLoop (signals : list signal) d w : option (W * discovery * option (option error)) :=
  match signals with
  | [] => Some (w, d, None)
  | CtxDone :: _ => Some (w, d, Some None)
  | Tick :: signals =>
      match discover d w with
      | Some (w, d, None) => discoverLoop signals d w
      | stopped => stopped
      end
  end.

(** [pkg/cloud/aws/kinesis/kinsumer.go:223-244] kinsumer.Run up to the loop *)
Definition runStart w : option (W * result (option error) discovery) :=
  match refreshShards KeepShardOrder ord fuel {| clientIndex := 0; totalClients := 0; shardIds := [] |} w with
  | None => None
  | Some (w, _, Err err) =>
      Some (w, Err (if request_canceled err then None else
        Some (EWrapped "failed to load first list of shard ids and register as client" err)))
  | Some (w, rt, Ok _) =>
      match startConsumers fuel rt with
      | None => None
      | Some started => Some (w, Ok {| runtime := rt; consumers := started |})
      end
  end.

(** [pkg/cloud/aws/kinesis/kinsumer.go:216-221] the deferred end of Run *)
Definition deregister (finalErr : option error) w : W * option error :=
  match DeregisterClient w with
  | (w, None) => (w, finalErr)
  | (w, Some err) =>
      let err := EWrapped "failed to deregister client" err in
      (w, Some (EMulti match finalErr with
                       | None => [err]
                       | Some (EMulti errs) => errs ++ [err]
                       | Some err' => [err'; err]
                       end))
  end.
End Run.

(** [pkg/cloud/aws/kinesis/kinsumer.go:109-111] the fields behind stopLck: whether
    the cancel function is stored, and whether Stop was called *)
Record stopState := { stop : bool; stopped : bool }.

(** [pkg/cloud/aws/kinesis/kinsumer.go:506-519] kinsumer.Stop: whether it calls
    the cancel function *)
Definition Stop (s : stopState) : stopState * bool := ({| stop := false; stopped := true |}, stop s).

(** [pkg/cloud/aws/kinesis/kinsumer.go:521-530] kinsumer.setStop: whether it calls
    the cancel function *)
Definition setStop (s : stopState) : stopState * bool :=
  if stopped s then (s, true) else ({| stop := true; stopped := stopped s |}, false).

(** ** Lemmas on the listing *)
Section SortedLemmas.
Context (KeepShardOrder : bool).
Implicit Types (m : gmap ShardId shardInfo) (ord : map_order ShardId shardInfo).

(** What may be consumed next: an unfinished shard without an unfinished parent,
    or any unfinished shard when the order is not kept. *)
Definition ready m (id : ShardId) : Prop :=
  ∃ info, m !! id = Some info ∧ finished info = false ∧
    (KeepShardOrder = true → parent info ≠ ""%string →
     ∀ p, m !! parent info = Some p → finished p = true).

Lemma takes_spec m info :
  m !! ""%string = None →
  takes KeepShardOrder m info = true ↔
  finished info = false ∧
    (KeepShardOrder = true → parent info ≠ ""%string → ∀ p, m !! parent info = Some p → finished p = true).
Proof.
  intros Hempty. unfold takes, map_has. destruct (finished info); [naive_solver|].
  destruct (m !! parent info) as [p|] eqn:Hp.
  - rewrite Hp !orb_true_iff bool_decide_eq_true negb_true_iff.
    split; [|intros [_ Hr]].
    + intros [[->|Hf]| ->]; split; try done. naive_solver.
    + destruct KeepShardOrder; [|by right]. left.
      destruct (decide (parent info = ""%string)) as [|Hne]; [by left | right; by apply Hr].
  - rewrite bool_decide_eq_true_2 //=.
Qed.

Lemma getSorted_perm ord m :
  getSortedShardIds KeepShardOrder ord m ≡ₚ
    (List.filter (λ kv, takes KeepShardOrder m kv.2) (enum ord m)).*1.
Proof.
  unfold getSortedShardIds. by rewrite merge_sort_Permutation fold_push.
Qed.

Lemma elem_of_getSorted ord m id :
  m !! ""%string = None → id ∈ getSortedShardIds KeepShardOrder ord m ↔ ready m id.
Proof.
  intros Hempty. rewrite getSorted_perm list_elem_of_fmap. unfold ready.
  setoid_rewrite list_elem_of_In. setoid_rewrite filter_In. setoid_rewrite <- list_elem_of_In.
  split.
  - intros ([k info] & -> & Hin & Ht%takes_spec); [|done]. apply elem_of_enum in Hin. eauto.
  - intros (info & Hm & Hr). exists (id, info). split_and!; [done | by apply elem_of_enum|].
    by apply takes_spec.
Qed.

Lemma getSorted_nodup ord m : NoDup (getSortedShardIds KeepShardOrder ord m).
Proof.
  rewrite getSorted_perm. pose proof (enum_nodup_keys ord m) as Hnd. revert Hnd.
  induction (enum ord m) as [|kv l IH]; [done|]. csimpl. intros [Hni Hnd]%NoDup_cons.
  specialize (IH Hnd). destruct (takes _ _ _); [|done]. csimpl. constructor; [|done].
  intros (kv' & Heq & Hin)%list_elem_of_fmap. apply list_elem_of_In, filter_In in Hin as [Hin _].
  apply Hni, list_elem_of_fmap. exists kv'. split; [done | by apply list_elem_of_In].
Qed.

Lemma getSorted_order ord ord' m :
  getSortedShardIds KeepShardOrder ord m = getSortedShardIds KeepShardOrder ord' m.
Proof.
  apply (Sorted_unique String.le); [apply Sorted_merge_sort; apply _..|].
  rewrite !getSorted_perm. by rewrite (enum_perm ord m) (enum_perm ord' m).
Qed.
End SortedLemmas.

(** ** Lemmas on the distribution *)
Section Stride.
Implicit Types (ids : list ShardId) (i n fuel : nat).

Lemma stride_drop fuel i n ids : stride fuel (i + n) n ids = stride fuel i n (drop n ids).
Proof.
  revert i. induction fuel as [|fuel IH]; intros i; simpl; [done|].
  rewrite lookup_drop (Nat.add_comm n i). case_match; [|done]. by rewrite IH.
Qed.

Lemma stride_enough fuel i n ids : 0 < n → length ids < fuel + i → 0 < fuel → ∃ l, stride fuel i n ids = Some l.
Proof.
  intros Hn. revert i. induction fuel as [|fuel IH]; intros i Hlen Hf; simpl; [lia|].
  destruct (ids !! i) as [id|] eqn:Hi; [|by eexists].
  apply lookup_lt_Some in Hi. destruct (IH (i + n)) as [l ->]; [lia..|]. by eexists.
Qed.

Lemma stride_more fuel fuel' i n ids l :
  stride fuel i n ids = Some l → fuel ≤ fuel' → stride fuel' i n ids = Some l.
Proof.
  revert fuel' i l. induction fuel as [|fuel IH]; intros fuel' i l; [done|].
  destruct fuel' as [|fuel']; [lia|]. simpl. case_match; [|done].
  intros (l' & Hl' & ->)%fmap_Some Hle. by rewrite (IH fuel' _ l') //; lia.
Qed.

(** The shards of client [i] of [n]. *)
Definition assigned n ids i : list ShardId := default [] (stride (S (length ids)) i n ids).

Lemma assigned_stride fuel i n ids :
  0 < n → length ids < fuel → stride fuel i n ids = Some (assigned n ids i).
Proof.
  intros Hn Hf. unfold assigned.
  destruct (stride_enough (S (length ids)) i n ids) as [l Hl]; [lia..|].
  rewrite Hl. apply (stride_more (S (length ids))); [done | lia].
Qed.

Lemma assigned_step n ids i :
  0 < n →
  assigned n ids i = match ids !! i with Some id => id :: assigned n (drop n ids) i | None => [] end.
Proof.
  intros Hn. unfold assigned at 1. simpl. destruct (ids !! i) as [id|] eqn:Hi; [|done].
  apply lookup_lt_Some in Hi. rewrite stride_drop (assigned_stride _ i n (drop n ids)) //.
  rewrite length_drop. lia.
Qed.

Lemma join_app_perm {A} (f g : nat → list A) (l : list nat) :
  mjoin ((λ i, f i ++ g i) <$> l) ≡ₚ mjoin (f <$> l) ++ mjoin (g <$> l).
Proof.
  induction l as [|i l IH]; [done|]. csimpl. rewrite IH. by solve_Permutation.
Qed.

Lemma join_lookup_seq {A} n (l : list A) :
  mjoin ((λ i, option_list (l !! i)) <$> seq 0 n) = take n l.
Proof.
  induction n as [|n IH]; [done|]. rewrite seq_S fmap_app join_app IH /= app_nil_r.
  destruct (l !! n) as [x|] eqn:Hn; simpl; [by rewrite (take_S_r _ _ x)|].
  rewrite app_nil_r. apply lookup_ge_None in Hn. by rewrite !take_ge //; lia.
Qed.

Lemma assigned_all n ids : 0 < n → mjoin (assigned n ids <$> seq 0 n) ≡ₚ ids.
Proof.
  intros Hn. remember (length ids) as len eqn:Hlen. revert ids Hlen.
  induction (lt_wf len) as [len _ IH]. intros ids ->.
  assert (assigned n ids <$> seq 0 n =
    (λ i, option_list (ids !! i) ++ (match ids !! i with Some _ => assigned n (drop n ids) i | None => [] end)) <$> seq 0 n) as ->.
  { apply list_fmap_ext. intros _ i _. rewrite assigned_step //. by destruct (ids !! i). }
  rewrite join_app_perm join_lookup_seq.
  destruct (decide (length ids = 0)) as [->%nil_length_inv|Hne].
  { rewrite take_nil. clear. induction (seq 0 n); [done|]. exact IHl. }
  pose proof (IH (length (drop n ids)) ltac:(rewrite length_drop; lia) _ eq_refl) as Hrest.
  trans (take n ids ++ drop n ids); [|by rewrite take_drop]. apply Permutation_app_head.
  etrans; [|exact Hrest].
  apply reflexive_eq. f_equal. apply list_fmap_ext. intros k i [-> Hi]%lookup_seq. simpl.
  destruct (ids !! k) eqn:Hid; [done|]. rewrite assigned_step // lookup_drop.
  apply lookup_ge_None in Hid. rewrite (lookup_ge_None_2 ids (n + k)) //. lia.
Qed.

Lemma assigned_length n ids i :
  i < n → length ids / n ≤ length (assigned n ids i) ≤ S (length ids / n).
Proof.
  intros Hi. remember (length ids) as len eqn:Hlen. revert ids Hlen.
  induction (lt_wf len) as [len _ IH]. intros ids ->. rewrite assigned_step; [lia|].
  destruct (decide (length ids < n)) as [Hlt|Hge].
  - rewrite Nat.div_small //. destruct (ids !! i) eqn:Hid; simpl; [|lia].
    rewrite assigned_step; [lia|].
    rewrite lookup_drop (lookup_ge_None_2 ids (n + i)) /=; lia.
  - destruct (lookup_lt_is_Some_2 ids i) as [id ->]; [lia|]. simpl.
    specialize (IH (length (drop n ids))). rewrite length_drop in IH.
    specialize (IH ltac:(lia) (drop n ids) ltac:(by rewrite length_drop)).
    assert (length ids / n = S ((length ids - n) / n)) as ->; [|lia].
    replace (length ids) with (length ids - n + 1 * n) at 1 by lia. rewrite Nat.div_add; lia.
Qed.
End Stride.

(** ** Consuming the listed shards round by round *)
Section Rounds.
Context (KeepShardOrder : bool) (ord : map_order ShardId shardInfo).
Implicit Types (m : gmap ShardId shardInfo).

(** The readers of [ids] have finished their shards. *)
Definition finish (ids : list ShardId) m : gmap ShardId shardInfo :=
  map_imap (λ id info, Some {| finished := finished info || bool_decide (id ∈ ids); parent := parent info |}) m.

Fixpoint rounds (n : nat) m : gmap ShardId shardInfo :=
  match n with
  | 0 => m
  | S n => rounds n (finish (getSortedShardIds KeepShardOrder ord m) m)
  end.

Definition unfinished m : gmap ShardId shardInfo := filter (λ kv, finished kv.2 = false) m.

(** No cycle of parents, by a measure that grows from a parent to its children. *)
Definition parents_ranked (rank : ShardId → nat) m : Prop :=
  ∀ id info p, m !! id = Some info → m !! parent info = Some p → rank (parent info) < rank id.

Lemma lookup_finish ids m id :
  finish ids m !! id =
  (λ info, {| finished := finished info || bool_decide (id ∈ ids); parent := parent info |}) <$> m !! id.
Proof. unfold finish. rewrite map_lookup_imap. by destruct (m !! id). Qed.

Lemma finish_ranked rank ids m : parents_ranked rank m → parents_ranked rank (finish ids m).
Proof.
  intros Hr id info p. rewrite !lookup_finish.
  intros (info0 & H0 & ->)%fmap_Some (p0 & Hp0 & ->)%fmap_Some. exact (Hr id info0 p0 H0 Hp0).
Qed.

(** Some shard can be consumed as long as one is not finished. *)
Lemma ready_exists rank m id info :
  m !! ""%string = None → parents_ranked rank m → m !! id = Some info → finished info = false →
  ∃ id', ready KeepShardOrder m id'.
Proof.
  intros Hempty Hr. remember (rank id) as r eqn:Hid. revert id info Hid.
  induction (lt_wf r) as [r _ IH]. intros id info -> Hm Hf.
  destruct (takes KeepShardOrder m info) eqn:Ht.
  { apply takes_spec in Ht as [_ Ht]; [|done]. exists id, info. by split_and!. }
  destruct (m !! parent info) as [p|] eqn:Hp.
  - destruct (finished p) eqn:Hfp.
    + exfalso. eapply not_true_iff_false; [exact Ht|]. apply takes_spec; [done|].
      split; [done|]. intros _ _ p' Hp'. by simplify_eq.
    + eapply (IH (rank (parent info))); [by eapply Hr | done | exact Hp | done].
  - exfalso. eapply not_true_iff_false; [exact Ht|]. apply takes_spec; [done|].
    split; [done|]. intros _ _ p' Hp'. by simplify_eq.
Qed.

Lemma unfinished_finish ids m : unfinished (finish ids m) ⊆ unfinished m.
Proof.
  apply map_subseteq_spec. intros k i [Hk Hfk]%map_lookup_filter_Some.
  rewrite lookup_finish in Hk. apply fmap_Some in Hk as ([f q] & Hk & ->). simpl in *.
  apply orb_false_iff in Hfk as [-> Hno]. rewrite Hno /=. by apply map_lookup_filter_Some.
Qed.

Lemma unfinished_round rank m :
  m !! ""%string = None → parents_ranked rank m → unfinished m ≠ ∅ →
  unfinished (finish (getSortedShardIds KeepShardOrder ord m) m) ⊂ unfinished m.
Proof.
  intros Hempty Hr (id & info & Hin)%map_choose. apply map_lookup_filter_Some in Hin as [Hm Hf].
  destruct (ready_exists rank m id info) as [id' Hready]; [done..|].
  set (ids := getSortedShardIds _ _ _). assert (id' ∈ ids) as Hids by by apply elem_of_getSorted.
  destruct Hready as (info' & Hm' & Hf' & _). split; [apply unfinished_finish|].
  intros Hsub. rewrite map_subseteq_spec in Hsub.
  assert (unfinished m !! id' = Some info') as Hu by by apply map_lookup_filter_Some.
  apply Hsub, map_lookup_filter_Some in Hu as [Hk _]. rewrite lookup_finish Hm' /= in Hk.
  apply (f_equal (fmap finished)) in Hk. rewrite /= bool_decide_eq_true_2 // orb_true_r in Hk.
  congruence.
Qed.

Lemma rounds_finish rank n m :
  m !! ""%string = None → parents_ranked rank m → size (unfinished m) ≤ n →
  unfinished (rounds n m) = ∅.
Proof.
  revert m. induction n as [|n IH]; intros m Hempty Hr Hsz; simpl.
  { apply map_size_empty_inv. lia. }
  apply IH; [by rewrite lookup_finish Hempty | by apply finish_ranked|].
  destruct (decide (unfinished m = ∅)) as [He|Hne].
  - pose proof (map_subseteq_size _ _ (unfinished_finish
      (getSortedShardIds KeepShardOrder ord m) m)) as Hs.
    rewrite He map_size_empty in Hs. lia.
  - pose proof (map_subset_size _ _ (unfinished_round rank m Hempty Hr Hne)). lia.
Qed.
End Rounds.

(** ** Lemmas on the listing and the refresh *)

Lemma idsChanged_spec new old : length old = length new → idsChanged new old = bool_decide (new ≠ old).
Proof.
  revert old. induction new as [|id new IH]; intros [|id' old]; simpl; try done; intros Hlen.
  case_bool_decide as Hid.
  - symmetry. apply bool_decide_eq_true_2. congruence.
  - subst id'. rewrite IH; [lia|]. apply bool_decide_ext. naive_solver.
Qed.

Lemma refresh_changed index total ids (rt : runtimeContext) :
  (let changed := bool_decide (total ≠ totalClients rt) || bool_decide (index ≠ clientIndex rt)
                  || bool_decide (length (shardIds rt) ≠ length ids) in
   if changed then true else idsChanged ids (shardIds rt)) =
  bool_decide (rt ≠ {| clientIndex := index; totalClients := total; shardIds := ids |}).
Proof.
  destruct rt as [i t l]. simpl.
  destruct (decide (total = t)) as [->|?]; 
    [|rewrite (bool_decide_eq_true_2 (total ≠ t)) //; symmetry; apply bool_decide_eq_true_2; congruence].
  destruct (decide (index = i)) as [->|?];
    [|rewrite (bool_decide_eq_true_2 (index ≠ i)) // orb_true_r; symmetry; apply bool_decide_eq_true_2; congruence].
  destruct (decide (length l = length ids)) as [Hlen|?];
    [|rewrite (bool_decide_eq_true_2 (length l ≠ length ids)) // orb_true_r; symmetry;
      apply bool_decide_eq_true_2; congruence].
  rewrite (bool_decide_eq_false_2 (t ≠ t)) ?(bool_decide_eq_false_2 (i ≠ i)) ?Hlen; [tauto..|].
  rewrite bool_decide_eq_false_2; [tauto|]. simpl.
  rewrite idsChanged_spec //. apply bool_decide_ext. naive_solver.
Qed.

Lemma refreshShards_unchanged {W} `{!ListClient W, !MetadataRepository W} KeepShardOrder ord
    fuel rt rt' (w w' : W) :
  refreshShards KeepShardOrder ord fuel rt w = Some (w', rt', Ok false) → rt' = rt.
Proof.
  unfold refreshShards. destruct (RegisterClient w) as [w1 [[index total]|]]; [|done].
  destruct (listShardIds _ _ _ w1) as [[w2 [ids|]]|]; [|done..].
  cbv zeta. pose proof (refresh_changed index total ids rt) as Hc. cbv zeta in Hc. rewrite Hc.
  destruct (decide (rt = {| clientIndex := index; totalClients := total; shardIds := ids |})) as [->|Hne].
  - rewrite bool_decide_eq_false_2; [tauto|]. by intros [= _ <-].
  - by rewrite bool_decide_eq_true_2.
Qed.
Section Listing.
Context {W : Type} `{!ListClient W, !MetadataRepository W}.
Context (KeepShardOrder : bool) (ord : map_order ShardId shardInfo).
Context (pages : list (list (option string * option string))) (token : nat → string) (fin : ShardId → bool).

Definition page_token (i : nat) : option string := match i with 0 => None | S i => Some (token i) end.

(** The client serves [pages] under the tokens, and the metadata repository
    answers with [fin]; both may change the world. *)
Definition serves : Prop :=
  (∀ i p w, pages !! i = Some p → ∃ w', ListShards (page_token i) w =
     (w', Ok {| Shards := p; NextToken := if S i <? length pages then Some (token i) else None |})) ∧
  (∀ id w, ∃ w', IsShardFinished id w = (w', Ok (fin id))).

(** The shards of [l] by their id; a later one replaces an earlier one. *)
Definition shard_table (l : list (option string * option string)) (m : gmap ShardId shardInfo) :=
  fold_left (λ m s, <[default ""%string s.1 :=
    {| finished := fin (default ""%string s.1); parent := default ""%string s.2 |}]> m) l m.

Lemma addShards_table l m w :
  serves → ∃ w', addShards l m w = (w', Ok (shard_table l m)).
Proof.
  intros [_ Hfin]. revert m w. induction l as [|[id par] l IH]; intros m w; simpl; [by eexists|].
  destruct (Hfin (default ""%string id) w) as [w' ->]. apply IH.
Qed.

Lemma listPages_table fuel i m w :
  serves → i < length pages → length pages ≤ i + fuel →
  ∃ w', listPages fuel (page_token i) m w = Some (w', Ok (shard_table (mjoin (drop i pages)) m)).
Proof.
  intros Hs. revert i m w. induction fuel as [|fuel IH]; intros i m w Hi Hf; [lia|].
  destruct (lookup_lt_is_Some_2 pages i Hi) as [p Hp]. simpl.
  destruct Hs as [Hlist Hfin]. destruct (Hlist i p w Hp) as [w1 ->]. simpl.
  destruct (addShards_table p m w1 (conj Hlist Hfin)) as [w2 ->].
  assert (∀ l, shard_table (p ++ l) m = shard_table l (shard_table p m)) as Happ.
  { intros l. apply fold_left_app. }
  erewrite (drop_S _ p) by done. csimpl. rewrite Happ.
  destruct (Nat.ltb_spec (S i) (length pages)).
  - apply (IH (S i)); [done | lia].
  - rewrite drop_ge; [lia|]. by eexists.
Qed.

Lemma listShardIds_pages fuel w :
  serves → 0 < length pages → length pages ≤ fuel →
  ∃ w', listShardIds KeepShardOrder ord fuel w =
    Some (w', Ok (getSortedShardIds KeepShardOrder ord (shard_table (mjoin pages) ∅))).
Proof.
  intros Hs Hp Hf. unfold listShardIds.
  destruct (listPages_table fuel 0 ∅ w Hs Hp ltac:(lia)) as [w' Hl]. simpl in Hl. rewrite Hl. by eexists.
Qed.

End Listing.

(** ** Properties *)

(** GetSortedShardIds lists exactly the shards that are ready, those that are
    not finished and, when the shard order is kept, have no known parent that is
    not finished; each once, sorted by id, and whatever the order in which the map
    is visited. *)
Theorem getSortedShardIds_correct KeepShardOrder ord m :
  m !! ""%string = None →
  let ids := getSortedShardIds KeepShardOrder ord m in
  (∀ id, id ∈ ids ↔ ready KeepShardOrder m id) ∧ NoDup ids ∧ StronglySorted String.le ids ∧
  (∀ ord', getSortedShardIds KeepShardOrder ord' m = ids).
Proof.
  intros Hempty. split_and!.
  - intros id. by apply elem_of_getSorted.
  - apply getSorted_nodup.
  - apply StronglySorted_merge_sort; apply _.
  - intros ord'. apply getSorted_order.
Qed.

(** When [n] clients start consumers for the same list of shards, every shard is
    consumed by exactly one of them, and no client has two shards more than another. *)
Theorem startConsumers_partition n ids fuel :
  0 < n → length ids < fuel →
  ∃ parts, length parts = n ∧
    (∀ i part, parts !! i = Some part →
       startConsumers fuel {| clientIndex := i; totalClients := n; shardIds := ids |} =
         Some (part, length part =? 0) ∧
       length ids / n ≤ length part ≤ S (length ids / n)) ∧
    mjoin parts ≡ₚ ids.
Proof.
  intros Hn Hf. exists (assigned n ids <$> seq 0 n). split_and!.
  - by rewrite length_fmap length_seq.
  - intros i part. rewrite list_lookup_fmap. intros (i' & [-> Hi]%lookup_seq & ->)%fmap_Some.
    unfold startConsumers. simpl. rewrite (assigned_stride fuel) //. split; [done|].
    by apply assigned_length.
  - by apply assigned_all.
Qed.

(** C21: The shards that are listed can be consumed in any order of the parents that
    has no cycle: as long as a shard is not finished some shard is listed, and when
    the listed shards get finished all shards are after as many rounds as there are
    shards. *)
Theorem all_shards_get_consumed KeepShardOrder ord rank m :
  m !! ""%string = None → parents_ranked rank m →
  (unfinished m ≠ ∅ → getSortedShardIds KeepShardOrder ord m ≠ []) ∧
  unfinished (rounds KeepShardOrder ord (size m) m) = ∅.
Proof.
  intros Hempty Hr. split.
  - intros (id & info & [Hm Hf]%map_lookup_filter_Some)%map_choose Hnil.
    destruct (ready_exists KeepShardOrder rank m id info) as [id' Hready]; [done..|].
    apply (elem_of_getSorted _ ord) in Hready; [|done]. rewrite Hnil in Hready. by apply not_elem_of_nil in Hready.
  - eapply rounds_finish; [done.. |]. apply map_subseteq_size, map_filter_subseteq.
Qed.

(** A refresh that registers the client and lists the shards leaves exactly the
    client's index, the number of clients and the shards that are ready in the
    runtime context, and reports a change exactly when one of the three differs from
    what was there. *)
Theorem refreshShards_correct {W} `{!ListClient W, !MetadataRepository W} KeepShardOrder ord
    pages token fin fuel (rt : runtimeContext) (w w1 : W) index total :
  serves pages token fin → 0 < length pages → length pages ≤ fuel →
  RegisterClient w = (w1, Ok (index, total)) →
  let now := {| clientIndex := index; totalClients := total;
                shardIds := getSortedShardIds KeepShardOrder ord (shard_table fin (mjoin pages) ∅) |} in
  ∃ w', refreshShards KeepShardOrder ord fuel rt w = Some (w', now, Ok (bool_decide (rt ≠ now))).
Proof.
  intros Hs Hp Hf Hreg. cbv zeta. unfold refreshShards. rewrite Hreg.
  destruct (listShardIds_pages KeepShardOrder ord pages token fin fuel w1) as [w2 ->]; [done..|].
  exists w2. cbv zeta. pose proof (refresh_changed index total
    (getSortedShardIds KeepShardOrder ord (shard_table fin (mjoin pages) ∅)) rt) as Hc.
  cbv zeta in Hc. rewrite Hc. clear Hc. destruct (bool_decide _) eqn:Hrt; [done|].
  apply bool_decide_eq_false, dec_stable in Hrt as ->. done.
Qed.

(** The running consumers are always those of the runtime context: after any
    signals, on which the client refreshes, restarts its consumers or leaves, the
    consumers are the ones startConsumers starts for the client's current index,
    number of clients and shards. *)
Theorem consumers_follow_runtime {W} `{!ListClient W, !MetadataRepository W} KeepShardOrder ord
    fuel signals (w w1 w2 : W) d1 d2 left :
  runStart KeepShardOrder ord fuel w = Some (w1, Ok d1) →
  discoverLoop KeepShardOrder ord fuel signals d1 w1 = Some (w2, d2, left) →
  startConsumers fuel (runtime d2) = Some (consumers d2).
Proof.
  intros Hstart Hloop.
  assert (startConsumers fuel (runtime d1) = Some (consumers d1)) as Hd.
  { unfold runStart in Hstart. destruct (refreshShards _ _ _ _ w) as [[[w' rt] [|]]|]; [|done..].
    by destruct (startConsumers fuel rt) eqn:Hc; simplify_eq/=. }
  clear Hstart. revert d1 w1 Hd Hloop. induction signals as [|[|] signals IH]; intros d1 w1 Hd Hloop; simpl in *.
  - by simplify_eq.
  - by simplify_eq.
  - destruct (discover KeepShardOrder ord fuel d1 w1) as [[[w' d'] l]|] eqn:Hdis; [|done].
    assert (startConsumers fuel (runtime d') = Some (consumers d')) as Hd'.
    { unfold discover in Hdis.
      destruct (refreshShards _ _ _ _ w1) as [[[wr rt] [[]|]]|] eqn:Href; [| | |done].
      - by destruct (startConsumers fuel rt) eqn:Hc; simplify_eq/=.
      - apply refreshShards_unchanged in Href as ->. by simplify_eq/=.
      - unfold refreshShards in Href. destruct (RegisterClient w1) as [? [[]|]]; [|by simplify_eq/=].
        destruct (listShardIds _ _ _ _) as [[? [|]]|]; [done | by simplify_eq/= | done]. }
    destruct l; [by simplify_eq | by eapply IH].
Qed.

(** The consumers are stopped whatever comes first, the Stop of the kinsumer or
    the start of its consumers: the two together call the cancel function once. *)
Theorem stop_reaches_consumers :
  let s := {| stop := false; stopped := false |} in
  (let '(s, a) := setStop s in let '(s, b) := Stop s in (s, a, b)) =
    ({| stop := false; stopped := true |}, false, true) ∧
  (let '(s, a) := Stop s in let '(s, b) := setStop s in (s, a, b)) =
    ({| stop := false; stopped := true |}, false, true) ∧
  (∀ s s' called, stopped s = true → setStop s = (s', called) → called = true).
Proof.
  split_and!; [done..|]. intros s s' called Hs. unfold setStop. rewrite Hs. by intros [= _ <-].
Qed.

(** ** Witnesses *)

Definition sample_shards : gmap ShardId shardInfo :=
  {["a" := {| finished := true; parent := "" |};
    "b" := {| finished := false; parent := "a" |};
    "c" := {| finished := false; parent := "b" |};
    "d" := {| finished := false; parent := "gone" |}]}.

Example sample_sorted :
  getSortedShardIds true canonical_order sample_shards = ["b"; "d"] ∧
  getSortedShardIds false canonical_order sample_shards = ["b"; "c"; "d"].
Proof. by vm_compute. Qed.

Lemma getSortedShardIds_correct_witness :
  "c" ∉ getSortedShardIds true canonical_order sample_shards ∧ ready true sample_shards "b".
Proof.
  destruct (getSortedShardIds_correct true canonical_order sample_shards ltac:(done)) as (Hin & _ & _ & Hord).
  split; [|apply Hin; vm_compute; repeat constructor].
  rewrite -(Hord reverse_order). vm_compute. intros Hc. repeat (apply elem_of_cons in Hc as [|Hc]; [done|]).
  by apply not_elem_of_nil in Hc.
Defined.

Lemma startConsumers_partition_witness :
  ∃ parts, mjoin parts ≡ₚ ["a"; "b"; "c"; "d"; "e"] ∧
    parts !! 1 = Some ["b"; "d"].
Proof.
  destruct (startConsumers_partition 2 ["a"; "b"; "c"; "d"; "e"] 6) as (parts & Hlen & Hparts & Hjoin); [lia | simpl; lia |].
  exists parts. split; [done|]. destruct (lookup_lt_is_Some_2 parts 1) as [part Hp]; [lia|].
  destruct (Hparts 1 part Hp) as [Hs _]. vm_compute in Hs. by injection Hs as <-.
Defined.

Definition sample_rank (id : ShardId) : nat :=
  if bool_decide (id = "b") then 1 else if bool_decide (id = "c") then 2 else if bool_decide (id = "d") then 1 else 0.

Lemma all_shards_get_consumed_witness :
  unfinished (rounds true canonical_order 4 sample_shards) = ∅.
Proof.
  refine (proj2 (all_shards_get_consumed true canonical_order sample_rank sample_shards _ _)); [done|].
  assert (map_Forall (λ id info, is_Some (sample_shards !! parent info) →
    sample_rank (parent info) < sample_rank id) sample_shards) as Hall
    by (apply (bool_decide_unpack _); vm_compute; exact I).
  intros id info p Hm Hp. apply (Hall id info Hm). by exists p.
Defined.

(** A client with two pages and an own registration. *)
#[local] Instance sample_client : ListClient nat := {|
  ListShards token w := (S w, match token with
    | None => Ok {| Shards := [(Some "b", None); (Some "a", Some "b")]; NextToken := Some "next" |}
    | Some _ => Ok {| Shards := [(Some "c", Some "x")]; NextToken := None |}
    end);
|}.

#[local] Instance sample_repository : MetadataRepository nat := {|
  RegisterClient w := (S w, Ok (0, 2));
  DeregisterClient w := (S w, None);
  IsShardFinished _ w := (S w, Ok false);
|}.

Lemma sample_serves :
  serves (W := nat) [[(Some "b", None); (Some "a", Some "b")]; [(Some "c", Some "x")]]
    (λ _, "next") (λ _, false).
Proof.
  split; [|intros; by eexists]. intros [|[|i]] p w Hp; simplify_eq/=; by eexists.
Qed.

Lemma refreshShards_correct_witness :
  ∃ w', refreshShards (W := nat) true canonical_order 2 {| clientIndex := 0; totalClients := 0; shardIds := [] |} 0 =
    Some (w', {| clientIndex := 0; totalClients := 2; shardIds := ["b"; "c"] |}, Ok true).
Proof.
  destruct (refreshShards_correct (W := nat) true canonical_order _ _ _ 2
    {| clientIndex := 0; totalClients := 0; shardIds := [] |} 0 1 0 2 sample_serves) as [w' Hr]; [simpl; lia.. | done |].
  exists w'. exact Hr.
Defined.

Definition sample_discovery : discovery :=
  {| runtime := {| clientIndex := 0; totalClients := 2; shardIds := ["b"; "c"] |}; consumers := (["b"], false) |}.

Lemma consumers_follow_runtime_witness :
  discoverLoop (W := nat) true canonical_order 3 [Tick; CtxDone] sample_discovery 6 =
    Some (12, sample_discovery, Some None) ∧
  startConsumers 3 (runtime sample_discovery) = Some (consumers sample_discovery).
Proof.
  split; [vm_compute; reflexivity|].
  apply (consumers_follow_runtime (W := nat) true canonical_order 3 [Tick; CtxDone] 0 6 12
    sample_discovery sample_discovery (Some None)); vm_compute; reflexivity.
Defined.

Lemma stop_reaches_consumers_witness : (setStop {| stop := false; stopped := true |}).2 = true.
Proof.
  apply (proj2 (proj2 stop_reaches_consumers)) with (s := {| stop := false; stopped := true |})
    (s' := {| stop := false; stopped := true |}); reflexivity.
Defined.
