(* ===== verification/KinesisCheckpoint.v ===== *)
(** * pkg/cloud/aws/kinesis: clients and checkpoints in the metadata table

    The metadata repository registers the clients of a kinsumer and hands out the
    checkpoints of the shards, which are locks on a DynamoDB item that also hold the
    position in the shard.  Definitions: the operations of the repository and of a
    checkpoint, and the system of all clients on one table, in which the requests of
    an AcquireShard can be apart.  The hash key of the items is the same for all
    clients, so the shard id alone is the key; a missing attribute is the empty
    string, as omitempty leaves it out.  DynamoDB compares times as RFC 3339 text:
    [lte] is that comparison.  Logging and the construction from the configuration
    are left out. *)
From S2P Require Import Prelude Exec Dynamo KinesisShards.

(** ** Data *)

(** [pkg/cloud/aws/kinesis/metadata_repository.go:24-28] the errors *)
Definition ErrCheckpointNoLongerOwned : nat := 50.
Definition ErrCheckpointAlreadyReleased : nat := 51.
Definition ErrShardAlreadyFinished : nat := 52.
(** [pkg/conc/poisoned_lock.go:9-9] ErrAlreadyPoisoned *)
Definition ErrAlreadyPoisoned : nat := 53.

Definition Sec : Z := 1000000000.

(** [pkg/cloud/aws/kinesis/metadata_repository.go:22-22] ShardTimeout *)
Definition ShardTimeout : Z := 8 * 24 * 3600 * Sec.

(** [pkg/cloud/aws/kinesis/metadata_repository.go:91-97] CheckpointRecord, with
    the fields of BaseRecord (72-77) *)
Record CheckpointRecord := {
  UpdatedAt : Z;
  Ttl : Z;
  OwningClientId : string;
  SequenceNumber : string;
  LastShardIterator : string;
  FinishedAt : option Z;
}.

#[export] Instance CheckpointRecord_eq_dec : EqDecision CheckpointRecord.
Proof. solve_decision. Defined.

(** [pkg/cloud/aws/kinesis/checkpoint.go:46-57] checkpoint *)
Record checkpoint := {
  poisoned : bool;
  shardId : ShardId;
  owningClientId : string;
  sequenceNumber : string;
  shardIterator : string;
  finalSequenceNumber : string;
  finishedAt : option Z;
}.

(** [pkg/cloud/aws/kinesis/metadata_repository.go:172-180] the timeouts from the
    settings *)
Definition timeoutOf (frequency periods : Z) : Z := Z.max (60 * Sec) (frequency * periods).

(** ** Checkpoints *)
Section Checkpoint.
Context {Tb : Type} `{!DynamoTable CheckpointRecord Tb}.
Implicit Types (tb : Tb) (c : checkpoint) (net : network) (now : Z).

(** The condition that the item is owned by [client]. *)
Definition owned_by (client : string) (item : option CheckpointRecord) : bool :=
  match item with Some r => bool_decide (OwningClientId r = client) | None => false end.

(** [pkg/cloud/aws/kinesis/checkpoint.go:67-77] checkpoint.Advance *)
Definition Advance (seq iterator : string) c : checkpoint * option error :=
  if poisoned c then (c, Some (EWrapped "can not advance already released checkpoint" (EValue ErrAlreadyPoisoned)))
  else ({| poisoned := poisoned c; shardId := shardId c; owningClientId := owningClientId c;
           sequenceNumber := seq; shardIterator := iterator;
           finalSequenceNumber := finalSequenceNumber c; finishedAt := finishedAt c |}, None).

(** [pkg/cloud/aws/kinesis/checkpoint.go:79-89] checkpoint.Done *)
Definition Done now (seq : string) c : checkpoint * option error :=
  if poisoned c then (c, Some (EWrapped "can not mark already released checkpoint as done" (EValue ErrAlreadyPoisoned)))
  else ({| poisoned := poisoned c; shardId := shardId c; owningClientId := owningClientId c;
           sequenceNumber := sequenceNumber c; shardIterator := shardIterator c;
           finalSequenceNumber := seq; finishedAt := Some now |}, None).

(** [pkg/cloud/aws/kinesis/checkpoint.go:97-113] the record that Persist writes *)
Definition persisted now c : CheckpointRecord := {|
  UpdatedAt := now;
  Ttl := Unix (now + ShardTimeout);
  OwningClientId := owningClientId c;
  SequenceNumber := sequenceNumber c;
  LastShardIterator := shardIterator c;
  FinishedAt :=
    if bool_decide (sequenceNumber c ≠ finalSequenceNumber c) && bool_decide (finalSequenceNumber c ≠ ""%string)
    then None else finishedAt c;
|}.

(** [pkg/cloud/aws/kinesis/checkpoint.go:91-123] checkpoint.Persist *)
Definition Persist now net c tb : Tb * result error bool :=
  if poisoned c then
    (tb, Err (EWrapped "can not persist already released checkpoint" (EValue ErrAlreadyPoisoned)))
  else
    let record := persisted now c in
    let '(tb, res) := PutItem net (shardId c) (owned_by (owningClientId c)) record tb in
    match res with
    | Err err => (tb, Err (EWrapped "failed to persist checkpoint" err))
    | Ok true => (tb, Err (EValue ErrCheckpointNoLongerOwned))
    | Ok false => (tb, Ok match FinishedAt record with Some _ => true | None => false end)
    end.

(** [pkg/cloud/aws/kinesis/checkpoint.go:128-136] the update of Release *)
Definition released now c (item : option CheckpointRecord) : CheckpointRecord := {|
  UpdatedAt := now;
  Ttl := Unix (now + ShardTimeout);
  OwningClientId := "";
  SequenceNumber := sequenceNumber c;
  LastShardIterator := shardIterator c;
  FinishedAt := match item with Some r => FinishedAt r | None => None end;
|}.

Definition poison c : checkpoint :=
  {| poisoned := true; shardId := shardId c; owningClientId := owningClientId c;
     sequenceNumber := sequenceNumber c; shardIterator := shardIterator c;
     finalSequenceNumber := finalSequenceNumber c; finishedAt := finishedAt c |}.

(** [pkg/cloud/aws/kinesis/checkpoint.go:125-144] checkpoint.Release, with PoisonIf
    (pkg/conc/poisoned_lock.go:85-97): the lock is poisoned unless the request failed *)
Definition Release now net c tb : Tb * checkpoint * option error :=
  if poisoned c then (tb, c, Some (EValue ErrAlreadyPoisoned))
  else
    let '(tb, res, _) := UpdateItem net (shardId c) (owned_by (owningClientId c)) (released now c) tb in
    match res with
    | Err err => (tb, c, Some (EWrapped "failed to release checkpoint" err))
    | Ok true => (tb, poison c, Some (EValue ErrCheckpointAlreadyReleased))
    | Ok false => (tb, poison c, None)
    end.
End Checkpoint.

(** ** The repository *)
Section Repository.
Context {Tb : Type} `{!DynamoTable CheckpointRecord Tb}.
Context (lte : Z → Z → bool) (clientId : string) (checkpointTimeout : Z).
Implicit Types (tb : Tb) (net : network) (now : Z) (sid : ShardId).

Definition taken_by (client : string) now (seq iterator : string) (finished : option Z) : CheckpointRecord := {|
  UpdatedAt := now; Ttl := Unix (now + ShardTimeout); OwningClientId := client;
  SequenceNumber := seq; LastShardIterator := iterator; FinishedAt := finished |}.

(** [pkg/cloud/aws/kinesis/metadata_repository.go:369-398] metadataRepository.handleExistingRecord *)
Definition handleExistingRecord now (record : CheckpointRecord) (timedOutBefore : Z) :
    result error (option CheckpointRecord) :=
  if bool_decide (OwningClientId record ≠ ""%string) && (timedOutBefore <? UpdatedAt record)%Z then Ok None
  else if bool_decide (FinishedAt record ≠ None) then Err (EValue ErrShardAlreadyFinished)
  else Ok (Some (taken_by clientId now (SequenceNumber record) (LastShardIterator record) (FinishedAt record))).

(** [pkg/cloud/aws/kinesis/metadata_repository.go:273-310] AcquireShard up to its
    write: the record to write, or nothing when the shard is in use *)
Definition acquireRead now net sid tb : result error (option CheckpointRecord) :=
  match GetItem net Ttl now sid tb with
  | Err err => Err (EWrapped "failed to read checkpoint record" err)
  | Ok None => Ok (Some (taken_by clientId now "" "" None))
  | Ok (Some record) => handleExistingRecord now record (now - checkpointTimeout)
  end.

(** [pkg/cloud/aws/kinesis/metadata_repository.go:317-318] the condition of the
    write of AcquireShard *)
Definition acquirable (timedOutBefore : Z) (item : option CheckpointRecord) : bool :=
  match item with
  | None => true
  | Some r => bool_decide (OwningClientId r = ""%string) || lte (UpdatedAt r) timedOutBefore
  end.

(** [pkg/cloud/aws/kinesis/metadata_repository.go:320-326] the write of
    AcquireShard, whether the shard was acquired *)
Definition acquireWrite net sid (timedOutBefore : Z) (record : CheckpointRecord) tb : Tb * result error bool :=
  let '(tb, res) := PutItem net sid (acquirable timedOutBefore) record tb in
  match res with
  | Err err => (tb, Err (EWrapped "failed to write checkpoint record" err))
  | Ok failed => (tb, Ok (negb failed))
  end.

(** [pkg/cloud/aws/kinesis/metadata_repository.go:329-345] AcquireShard when its
    context has ended with [err] after the shard was acquired *)
Definition acquireCanceled now net sid (record : CheckpointRecord) (err : error) tb :
    Tb * result error (option checkpoint) :=
  let record := taken_by "" now (SequenceNumber record) (LastShardIterator record) (FinishedAt record) in
  let '(tb, res) := PutItem net sid (owned_by clientId) record tb in
  match res with
  | Err err => (tb, Err (EWrapped "failed to release checkpoint record" err))
  | Ok true => (tb, Ok None)
  | Ok false => (tb, Err err)
  end.

(** [pkg/cloud/aws/kinesis/metadata_repository.go:350-366] the checkpoint that
    AcquireShard returns *)
Definition acquired sid (record : CheckpointRecord) : checkpoint := {|
  poisoned := false; shardId := sid; owningClientId := clientId;
  sequenceNumber := SequenceNumber record; shardIterator := LastShardIterator record;
  finalSequenceNumber := match FinishedAt record with None => ""%string | Some _ => SequenceNumber record end;
  finishedAt := FinishedAt record |}.

(** [pkg/cloud/aws/kinesis/metadata_repository.go:272-367] metadataRepository.AcquireShard
    when no one else uses the table in between; [ctxErr] is the error of the context
    after the write *)
Definition AcquireShard now netRead netWrite netRelease sid (ctxErr : option error) tb :
    Tb * result error (option checkpoint) :=
  match acquireRead now netRead sid tb with
  | Err err => (tb, Err err)
  | Ok None => (tb, Ok None)
  | Ok (Some record) =>
      match acquireWrite netWrite sid (now - checkpointTimeout) record tb with
      | (tb, Err err) => (tb, Err err)
      | (tb, Ok false) => (tb, Ok None)
      | (tb, Ok true) =>
          match ctxErr with
          | Some err => acquireCanceled now netRelease sid record err tb
          | None => (tb, Ok (Some (acquired sid record)))
          end
      end
  end.

(** [pkg/cloud/aws/kinesis/metadata_repository.go:241-270] metadataRepository.IsShardFinished
    with its map of finished shards *)
Definition IsShardFinished now net sid (finishedMap : gmap ShardId bool) tb :
    gmap ShardId bool * result error bool :=
  if default false (finishedMap !! sid) then (finishedMap, Ok true)
  else
    match GetItem net Ttl now sid tb with
    | Err err => (finishedMap, Err (EWrapped "failed to check if shard is finished" err))
    | Ok (Some record) =>
        if bool_decide (FinishedAt record ≠ None) then (<[sid := true]> finishedMap, Ok true)
        else (finishedMap, Ok false)
    | Ok None => (finishedMap, Ok false)
    end.
End Repository.

(** ** Clients *)

(** [pkg/cloud/aws/kinesis/metadata_repository.go:87-89] ClientRecord *)
Record ClientRecord := { c_UpdatedAt : Z; c_Ttl : Z }.

(** The query for all items with the hash key, sorted by the range key. *)
Class DynamoQuery (I Tb : Type) := { db_query : Tb → list (string * I) }.

Class DynamoQueryLaws (I Tb : Type) `{!DynamoTable I Tb, !DynamoQuery I Tb} := {
  db_query_sorted tb : StronglySorted String.le (db_query tb).*1;
  db_query_nodup tb : NoDup (db_query tb).*1;
  db_query_elem tb k i : (k, i) ∈ db_query tb ↔ db_get k tb = Some i;
}.

Section Clients.
Context {Tb : Type} `{!DynamoTable ClientRecord Tb, !DynamoQuery ClientRecord Tb}.
Context (clientId : string) (clientTimeout : Z).
Implicit Types (tb : Tb) (net : network) (now : Z).

(** [pkg/cloud/aws/kinesis/metadata_repository.go:218-223] the loop of RegisterClient *)
Fixpoint clientIndexIn (i : nat) (clients : list string) : option nat :=
  match clients with
  | [] => None
  | client :: clients => if bool_decide (client = clientId) then Some i else clientIndexIn (S i) clients
  end.

(** The registered clients whose time to live is not over, in the order of their ids. *)
Definition live_clients now tb : list string :=
  (List.filter (λ kv, PerformFilterCondition c_Ttl now kv.2) (db_query tb)).*1.

(** [pkg/cloud/aws/kinesis/metadata_repository.go:197-226] metadataRepository.RegisterClient *)
Definition RegisterClient now later netPut (queryErr : option error) tb : Tb * result error (nat * nat) :=
  let record := {| c_UpdatedAt := now; c_Ttl := Unix (now + clientTimeout) |} in
  let '(tb, res) := PutItem netPut clientId (λ _, true) record tb in
  match res with
  | Err err => (tb, Err (EWrapped "failed to register client" err))
  | Ok _ =>
      match queryErr with
      | Some err => (tb, Err (EWrapped "failed to list clients" err))
      | None =>
          let clients := live_clients later tb in
          match clientIndexIn 0 clients with
          | Some i => (tb, Ok (i, length clients))
          | None => (tb, Err (EWrapped "failed to find client just written to ddb" (EValue 0)))
          end
      end
  end.

(** [pkg/cloud/aws/kinesis/metadata_repository.go:228-239] metadataRepository.DeregisterClient *)
Definition DeregisterClient net tb : Tb * option error :=
  let '(tb, res) := DeleteItem net clientId (λ _, true) tb in
  match res with
  | Err err => (tb, Some (EWrapped "failed to deregister client" err))
  | Ok _ => (tb, None)
  end.
End Clients.

(** ** All clients on one table

    What a client is doing with a shard: about to write the record of an
    AcquireShard, about to look at its context after the write, or holding the
    checkpoint.  [written] is the UpdatedAt of its last write that it knows to have
    succeeded.  Between reading the clock and the execution of a request time can
    pass. *)
Section System.
Context {Tb : Type} `{!DynamoTable CheckpointRecord Tb}.
Context (lte : Z → Z → bool) (checkpointTimeout : Z).

Inductive activity :=
| Acquiring (timedOutBefore : Z) (record : CheckpointRecord)
| Acquired (record : CheckpointRecord)
| Holding (written : Z) (c : checkpoint).

Record system := { rows : Tb; now : Z; activities : gmap (string * ShardId) activity }.
Implicit Types (s : system) (client : string) (sid : ShardId).

Definition becomes client sid (a : option activity) s : gmap (string * ShardId) activity :=
  partial_alter (λ _, a) (client, sid) (activities s).

(** The steps, with the client and the shard of those that a client takes. *)
Inductive kstep : option (string * ShardId) → system → system → Prop :=
| k_tick s t :
    (now s ≤ t)%Z → kstep None s {| rows := rows s; now := t; activities := activities s |}
| k_read s client sid at_ net record :
    activities s !! (client, sid) = None → (at_ ≤ now s)%Z → client ≠ ""%string →
    acquireRead client checkpointTimeout at_ net sid (rows s) = Ok (Some record) →
    kstep (Some (client, sid)) s {| rows := rows s; now := now s;
      activities := becomes client sid (Some (Acquiring (at_ - checkpointTimeout) record)) s |}
| k_write s client sid t record net tb r :
    activities s !! (client, sid) = Some (Acquiring t record) →
    acquireWrite lte net sid t record (rows s) = (tb, r) →
    kstep (Some (client, sid)) s {| rows := tb; now := now s;
      activities := becomes client sid (match r with Ok true => Some (Acquired record) | _ => None end) s |}
| k_acquired s client sid record :
    activities s !! (client, sid) = Some (Acquired record) →
    kstep (Some (client, sid)) s {| rows := rows s; now := now s;
      activities := becomes client sid (Some (Holding (UpdatedAt record) (acquired client sid record))) s |}
| k_canceled s client sid record at_ net err tb r :
    activities s !! (client, sid) = Some (Acquired record) → (at_ ≤ now s)%Z →
    acquireCanceled client at_ net sid record err (rows s) = (tb, r) →
    kstep (Some (client, sid)) s {| rows := tb; now := now s; activities := becomes client sid None s |}
| k_advance s client sid w c seq iterator :
    activities s !! (client, sid) = Some (Holding w c) →
    kstep (Some (client, sid)) s {| rows := rows s; now := now s;
      activities := becomes client sid (Some (Holding w (Advance seq iterator c).1)) s |}
| k_done s client sid w c at_ seq :
    activities s !! (client, sid) = Some (Holding w c) → (at_ ≤ now s)%Z →
    kstep (Some (client, sid)) s {| rows := rows s; now := now s;
      activities := becomes client sid (Some (Holding w (Done at_ seq c).1)) s |}
| k_persist s client sid w c at_ net tb r :
    activities s !! (client, sid) = Some (Holding w c) → (w ≤ at_ ≤ now s)%Z →
    Persist at_ net c (rows s) = (tb, r) →
    kstep (Some (client, sid)) s {| rows := tb; now := now s;
      activities := becomes client sid (Some (Holding (match r with Ok _ => at_ | Err _ => w end) c)) s |}
| k_release s client sid w c at_ net tb c' err :
    activities s !! (client, sid) = Some (Holding w c) → (at_ ≤ now s)%Z →
    Release at_ net c (rows s) = (tb, c', err) →
    kstep (Some (client, sid)) s {| rows := tb; now := now s; activities := becomes client sid None s |}
| k_expire s sid r :
    db_get sid (rows s) = Some r → (Ttl r < Unix (now s))%Z →
    kstep None s {| rows := db_write sid (λ _, None) (rows s); now := now s; activities := activities s |}.

Definition any_step s s' : Prop := ∃ l, kstep l s s'.

(** ** Invariants *)

(** What is written and acquired belongs to its client and is not younger than the
    clock says; a client only takes over what has been timed out. *)
Definition activity_inv s : Prop :=
  ∀ client sid a, activities s !! (client, sid) = Some a → client ≠ ""%string ∧
    match a with
    | Acquiring t record =>
        (t ≤ now s - checkpointTimeout)%Z ∧ OwningClientId record = client ∧ (UpdatedAt record ≤ now s)%Z ∧
        (Unix (UpdatedAt record + ShardTimeout) ≤ Ttl record)%Z
    | Acquired record => OwningClientId record = client ∧ (UpdatedAt record ≤ now s)%Z
    | Holding w c => owningClientId c = client ∧ shardId c = sid ∧ (w ≤ now s)%Z
    end.

(** Someone has owned the item of [sid] since [w] or written it later. *)
Definition owns client sid (w : Z) (tb : Tb) : Prop :=
  ∃ r, db_get sid tb = Some r ∧ OwningClientId r = client ∧ (w ≤ UpdatedAt r)%Z ∧
    (Unix (UpdatedAt r + ShardTimeout) ≤ Ttl r)%Z.

(** The item can not be taken over before this time. *)
Definition leased s (w : Z) : Prop := (now s + Sec ≤ w + checkpointTimeout)%Z.

Definition lease_of (a : activity) : option Z :=
  match a with
  | Acquiring _ _ => None
  | Acquired record => Some (UpdatedAt record)
  | Holding w _ => Some w
  end.

Definition lease_inv s : Prop :=
  ∀ client sid a w, activities s !! (client, sid) = Some a → lease_of a = Some w → leased s w →
    owns client sid w (rows s).
End System.

Section SystemLemmas.
Context {Tb : Type} `{!DynamoTable CheckpointRecord Tb, !DynamoLaws CheckpointRecord Tb}.
Context (lte : Z → Z → bool) (Hlte : ∀ a b, lte a b = true → (Unix a ≤ Unix b)%Z).
Context (checkpointTimeout : Z) (Htimeout : (checkpointTimeout ≤ ShardTimeout)%Z).
Implicit Types (s : system (Tb := Tb)) (client : string) (sid : ShardId).

Lemma lookup_becomes client sid a s client' sid' :
  becomes client sid a s !! (client', sid') =
  if decide (client = client' ∧ sid = sid') then a else activities s !! (client', sid').
Proof.
  unfold becomes. case_decide as Heq.
  - destruct Heq as [-> ->]. apply lookup_partial_alter_eq.
  - apply lookup_partial_alter_ne. intros [=]. tauto.
Qed.

Lemma owned_by_other client client' r :
  OwningClientId r = client → client ≠ client' → owned_by client' (Some r) = false.
Proof. intros <- Hne. simpl. by apply bool_decide_eq_false. Qed.

Lemma leased_not_acquirable s client w t r :
  client ≠ ""%string → OwningClientId r = client → (w ≤ UpdatedAt r)%Z →
  leased checkpointTimeout s w → (t ≤ now s - checkpointTimeout)%Z → acquirable lte t (Some r) = false.
Proof.
  intros Hne Hown Hw Hl Ht. simpl. rewrite bool_decide_eq_false_2; [congruence|]. simpl.
  apply not_true_is_false. intros Hle%Hlte. unfold leased, Unix, Sec in *.
  pose proof (Z.mod_pos_bound (UpdatedAt r) 1000000000). pose proof (Z.div_mod (UpdatedAt r) 1000000000).
  pose proof (Z.mod_pos_bound t 1000000000). pose proof (Z.div_mod t 1000000000). lia.
Qed.

Lemma acquireRead_record client at_ net sid (tb : Tb) record :
  acquireRead client checkpointTimeout at_ net sid tb = Ok (Some record) →
  OwningClientId record = client ∧ UpdatedAt record = at_ ∧ Ttl record = Unix (at_ + ShardTimeout).
Proof.
  unfold acquireRead, handleExistingRecord. intros H.
  destruct (GetItem _ _ _ _ _) as [[r|]|]; [|by simplify_eq|done].
  repeat case_match; by simplify_eq.
Qed.

Lemma acquireWrite_get net sid t record (tb tb' : Tb) r :
  acquireWrite lte net sid t record tb = (tb', r) →
  (∀ k', k' ≠ sid → db_get k' tb' = db_get k' tb) ∧
  (db_get sid tb' = db_get sid tb ∨ acquirable lte t (db_get sid tb) = true) ∧
  (r = Ok true → db_get sid tb' = Some record).
Proof.
  unfold acquireWrite. destruct (PutItem _ _ _ _ _) as [tb1 res] eqn:Hp. intros H.
  apply PutItem_get in Hp as (Ho & Hg & Hok).
  assert (tb1 = tb') as -> by (by destruct res; simplify_eq).
  split_and!; [done | tauto|]. intros ->. destruct res as [[|]|]; simplify_eq. by apply Hok.
Qed.

Lemma Persist_get at_ net c (tb tb' : Tb) r :
  Persist at_ net c tb = (tb', r) →
  (∀ k', k' ≠ shardId c → db_get k' tb' = db_get k' tb) ∧
  (db_get (shardId c) tb' = db_get (shardId c) tb ∨
     owned_by (owningClientId c) (db_get (shardId c) tb) = true ∧
     db_get (shardId c) tb' = Some (persisted at_ c)) ∧
  (∀ b, r = Ok b → db_get (shardId c) tb' = Some (persisted at_ c)).
Proof.
  unfold Persist. destruct (poisoned c); [intros [= <- <-]; naive_solver|].
  destruct (PutItem _ _ _ _ _) as [tb1 res] eqn:Hp. intros H.
  apply PutItem_get in Hp as (Ho & Hg & Hok).
  assert (tb1 = tb') as -> by (destruct res as [[|]|]; by simplify_eq).
  split_and!; [done..|]. intros b ->. destruct res as [[|]|]; simplify_eq. by apply Hok.
Qed.

Lemma Release_get at_ net c (tb tb' : Tb) c' err :
  Release at_ net c tb = (tb', c', err) →
  (∀ k', k' ≠ shardId c → db_get k' tb' = db_get k' tb) ∧
  (db_get (shardId c) tb' = db_get (shardId c) tb ∨ owned_by (owningClientId c) (db_get (shardId c) tb) = true).
Proof.
  unfold Release. destruct (poisoned c); [intros [= <- <- <-]; naive_solver|].
  destruct (UpdateItem _ _ _ _ _) as [[tb1 res] new] eqn:Hp. intros H.
  apply UpdateItem_get in Hp as (Ho & Hg & _).
  assert (tb1 = tb') as -> by (destruct res as [[|]|]; by simplify_eq). split; [done | tauto].
Qed.

Lemma acquireCanceled_get client at_ net sid record err (tb tb' : Tb) r :
  acquireCanceled client at_ net sid record err tb = (tb', r) →
  (∀ k', k' ≠ sid → db_get k' tb' = db_get k' tb) ∧
  (db_get sid tb' = db_get sid tb ∨ owned_by client (db_get sid tb) = true).
Proof.
  unfold acquireCanceled. destruct (PutItem _ _ _ _ _) as [tb1 res] eqn:Hp. intros H.
  apply PutItem_get in Hp as (Ho & Hg & _).
  assert (tb1 = tb') as -> by (destruct res as [[|]|]; by simplify_eq). split; [done | tauto].
Qed.

(** A step of a client changes no other item, and the item of its shard only if it
    may be acquired or is its own. *)
Lemma kstep_rows l s s' sid :
  activity_inv checkpointTimeout s → kstep lte checkpointTimeout l s s' →
  db_get sid (rows s') = db_get sid (rows s) ∨
  (∃ client, l = Some (client, sid) ∧
     (owned_by client (db_get sid (rows s)) = true ∨
      ∃ t, (t ≤ now s - checkpointTimeout)%Z ∧ acquirable lte t (db_get sid (rows s)) = true)) ∨
  (l = None ∧ ∃ r, db_get sid (rows s) = Some r ∧ (Ttl r < Unix (now s))%Z).
Proof.
  intros Hinv Hstep.
  assert (∀ client sh (tb : Tb) (P : Prop), (∀ k', k' ≠ sh → db_get k' tb = db_get k' (rows s)) →
    (db_get sh tb = db_get sh (rows s) ∨ P) →
    db_get sid tb = db_get sid (rows s) ∨ (client, sh) = (client, sid) ∧ P) as Hcase.
  { intros client sh tb P Ho Hg. destruct (decide (sid = sh)) as [->|Hne]; [tauto | left; by apply Ho]. }
  destruct Hstep as [s t Ht|s client sh at_ net record Ha Hle Hc Hr|s client sh t record net tb r Ha Hw|
    s client sh record Ha|s client sh record at_ net err tb r Ha Hle Hw|s client sh w c seq it Ha|
    s client sh w c at_ seq Ha Hle|s client sh w c at_ net tb r Ha Hle Hw|
    s client sh w c at_ net tb c' err Ha Hle Hw|s sh r Hr Hx]; simpl; try (by left).
  - apply acquireWrite_get in Hw as (Ho & Hg & _). destruct (Hinv _ _ _ Ha) as (_ & Ht & _).
    destruct (Hcase client sh tb _ Ho Hg) as [?|[[= ->] ?]]; [by left|]. right; left. eauto 10.
  - apply acquireCanceled_get in Hw as (Ho & Hg).
    destruct (Hcase client sh tb _ Ho Hg) as [?|[[= ->] ?]]; [by left|]. right; left. eauto 10.
  - apply Persist_get in Hw as (Ho & Hg & _). destruct (Hinv _ _ _ Ha) as (_ & <- & <- & _).
    destruct (Hcase (owningClientId c) (shardId c) tb (owned_by (owningClientId c) (db_get (shardId c) (rows s)) = true)
      Ho ltac:(tauto)) as [?|[[= ->] ?]]; [by left|]. right; left. eauto 10.
  - apply Release_get in Hw as (Ho & Hg). destruct (Hinv _ _ _ Ha) as (_ & <- & <- & _).
    destruct (Hcase (owningClientId c) (shardId c) tb _ Ho Hg) as [?|[[= ->] ?]]; [by left|].
    right; left. eauto 10.
  - destruct (decide (sid = sh)) as [->|Hne]; [right; right; eauto|]. left. by apply db_get_write_ne.
Qed.
Lemma kstep_now l s s' : kstep lte checkpointTimeout l s s' → (now s ≤ now s')%Z.
Proof. destruct 1; simpl; lia. Qed.

(** A step changes no other activity. *)
Lemma kstep_others l s s' client sid :
  kstep lte checkpointTimeout l s s' → l ≠ Some (client, sid) →
  activities s' !! (client, sid) = activities s !! (client, sid).
Proof.
  destruct 1; intros Hl; simpl; try done; rewrite lookup_becomes; case_decide as Heq; try done;
    by destruct Heq as [-> ->].
Qed.

Lemma Advance_fields seq iterator c :
  owningClientId (Advance seq iterator c).1 = owningClientId c ∧ shardId (Advance seq iterator c).1 = shardId c.
Proof. unfold Advance. by destruct (poisoned c). Qed.

Lemma Done_fields at_ seq c :
  owningClientId (Done at_ seq c).1 = owningClientId c ∧ shardId (Done at_ seq c).1 = shardId c.
Proof. unfold Done. by destruct (poisoned c). Qed.

(** What the client of a step is doing after it. *)
Definition activity_ok s client sid (a : activity) : Prop :=
  client ≠ ""%string ∧
  match a with
  | Acquiring t record =>
      (t ≤ now s - checkpointTimeout)%Z ∧ OwningClientId record = client ∧ (UpdatedAt record ≤ now s)%Z ∧
      (Unix (UpdatedAt record + ShardTimeout) ≤ Ttl record)%Z
  | Acquired record => OwningClientId record = client ∧ (UpdatedAt record ≤ now s)%Z
  | Holding w c => owningClientId c = client ∧ shardId c = sid ∧ (w ≤ now s)%Z
  end.

Lemma activity_ok_mono s s' client sid a :
  activity_ok s client sid a → (now s ≤ now s')%Z → activity_ok s' client sid a.
Proof. intros [? Ha] Hle. split; [done|]. destruct a; destruct_and?; split_and!; try done; lia. Qed.

Lemma kstep_own client sid s s' a :
  activity_inv checkpointTimeout s → kstep lte checkpointTimeout (Some (client, sid)) s s' →
  activities s' !! (client, sid) = Some a → activity_ok s' client sid a.
Proof.
  intros Hinv Hstep. inversion Hstep as [|? ? ? at_ net record Hn Hle Hc Hr|? ? ? t record net tb r Ha Hw|
    ? ? ? record Ha|? ? ? record at_ net err tb r Ha Hle Hw|? ? ? w c seq it Ha|
    ? ? ? w c at_ seq Ha Hle|? ? ? w c at_ net tb r Ha Hle Hw|? ? ? w c at_ net tb c' err Ha Hle Hw|]; subst; simpl;
    rewrite lookup_becomes decide_True //; intros [= <-] || intros Ha'; try done.
  - apply acquireRead_record in Hr as (Ho & Hu & Ht). split; [done|]. rewrite Hu Ht. simpl. split_and!; [lia | done | lia | done].
  - destruct (Hinv _ _ _ Ha) as (? & _ & ? & ? & _). destruct r as [[|]|]; by simplify_eq.
  - by destruct (Hinv _ _ _ Ha) as (? & ? & ?).
  - destruct (Hinv _ _ _ Ha) as (? & ? & ? & ?), (Advance_fields seq it c). by split_and!; congruence || done.
  - destruct (Hinv _ _ _ Ha) as (? & ? & ? & ?), (Done_fields at_ seq c). by split_and!; congruence || done.
  - destruct (Hinv _ _ _ Ha) as (? & ? & ? & ?). split_and!; try done. destruct r; simpl; lia.
Qed.

Lemma activity_step l s s' :
  activity_inv checkpointTimeout s → kstep lte checkpointTimeout l s s' → activity_inv checkpointTimeout s'.
Proof.
  intros Hinv Hstep client sid a Ha. destruct (decide (l = Some (client, sid))) as [->|Hne].
  - by eapply kstep_own.
  - rewrite (kstep_others l s) // in Ha. eapply (activity_ok_mono s); [by apply Hinv|]. by eapply kstep_now.
Qed.

Lemma leased_earlier s s' w : (now s ≤ now s')%Z → leased checkpointTimeout s' w → leased checkpointTimeout s w.
Proof. unfold leased. lia. Qed.

(** Steps of others leave the item of a client with a lease. *)
Lemma leased_rows l s s' client sid w :
  activity_inv checkpointTimeout s → kstep lte checkpointTimeout l s s' → client ≠ ""%string →
  l ≠ Some (client, sid) → leased checkpointTimeout s w → owns client sid w (rows s) →
  db_get sid (rows s') = db_get sid (rows s).
Proof.
  intros Hinv Hstep Hc Hl Hlease (r & Hr & Hown & Hw & Httl).
  destruct (kstep_rows l s s' sid Hinv Hstep) as [Hsame|[(client' & -> & Hcond)|(-> & r' & Hr' & Hx)]]; [done|..].
  - exfalso. rewrite Hr in Hcond. destruct Hcond as [Hcond|(t & Ht & Hcond)].
    + rewrite (owned_by_other client) in Hcond; [done | congruence | done].
    + by rewrite (leased_not_acquirable s client w) in Hcond.
  - exfalso. simplify_eq. unfold leased in Hlease.
    pose proof (Unix_le (now s) (UpdatedAt r + ShardTimeout)). unfold Sec in *. lia.
Qed.

Lemma owns_step l s s' client sid w :
  activity_inv checkpointTimeout s → kstep lte checkpointTimeout l s s' → client ≠ ""%string →
  l ≠ Some (client, sid) → leased checkpointTimeout s w → owns client sid w (rows s) →
  owns client sid w (rows s').
Proof.
  intros Hinv Hstep Hc Hl Hlease Howns. pose proof (leased_rows _ _ _ _ _ _ Hinv Hstep Hc Hl Hlease Howns) as Hsame.
  destruct Howns as (r & Hr & Hrest). exists r. by rewrite Hsame.
Qed.

Lemma lease_own client sid s s' a w :
  activity_inv checkpointTimeout s → lease_inv checkpointTimeout s →
  kstep lte checkpointTimeout (Some (client, sid)) s s' →
  activities s' !! (client, sid) = Some a → lease_of a = Some w → leased checkpointTimeout s' w →
  owns client sid w (rows s').
Proof.
  intros Hinv Hlinv Hstep. inversion Hstep as [|? ? ? at_ net record Hn Hle Hc Hr|? ? ? t record net tb r Ha Hw|
    ? ? ? record Ha|? ? ? record at_ net err tb r Ha Hle Hw|? ? ? w' c seq it Ha|
    ? ? ? w' c at_ seq Ha Hle|? ? ? w' c at_ net tb r Ha Hle Hw|? ? ? w' c at_ net tb c' err Ha Hle Hw|]; subst; simpl;
    rewrite lookup_becomes decide_True //; intros Ha' Hlease Hl; simplify_eq/=; try (by eapply Hlinv; [exact Ha | done | exact Hl]).
  - apply acquireWrite_get in Hw as (_ & _ & Hok). destruct (Hinv _ _ _ Ha) as (? & _ & ? & ? & ?).
    destruct r as [[|]|]; simplify_eq/=. exists record. split_and!; [by apply Hok | done..].
  - destruct (Hinv _ _ _ Ha) as (? & Hown & Hsid & ?). subst client sid.
    apply Persist_get in Hw as (_ & Hg & Hok).
    assert (owns (owningClientId c) (shardId c) at_ tb ∨
      db_get (shardId c) tb = db_get (shardId c) (rows s) ∧ ∃ e, r = Err e) as [Hnew|[Hsame [e ->]]].
    { destruct r as [b|e].
      - left. exists (persisted at_ c). split_and!; [by eapply Hok | done | simpl; lia | simpl; lia].
      - destruct Hg as [->|[_ Hp]]; [right; eauto | left].
        exists (persisted at_ c). split_and!; [done | done | simpl; lia | simpl; lia]. }
    + destruct Hnew as (r0 & ? & ? & ? & ?). exists r0. split_and!; try done. destruct r; simplify_eq/=; lia.
    + simpl in *. destruct (Hlinv _ _ _ _ Ha eq_refl Hl) as (r0 & ? & ? & ? & ?). exists r0. by rewrite Hsame.
Qed.

Lemma lease_step l s s' :
  activity_inv checkpointTimeout s → lease_inv checkpointTimeout s → kstep lte checkpointTimeout l s s' →
  lease_inv checkpointTimeout s'.
Proof.
  intros Hinv Hlinv Hstep client sid a w Ha Hw Hl.
  destruct (decide (l = Some (client, sid))) as [->|Hne]; [by eapply lease_own|].
  rewrite (kstep_others l s) // in Ha. pose proof (kstep_now _ _ _ Hstep) as Hnow.
  pose proof (leased_earlier s s' w Hnow Hl) as Hl'.
  eapply owns_step; [done | exact Hstep | by destruct (Hinv _ _ _ Ha) | done | done | by eapply Hlinv].
Qed.

Lemma start_inv (tb : Tb) t :
  let s := {| rows := tb; now := t; activities := ∅ |} in
  activity_inv checkpointTimeout s ∧ lease_inv checkpointTimeout s.
Proof. split; intros client sid a; simpl; by rewrite lookup_empty. Qed.

Lemma run_inv (tb : Tb) t s :
  rtc (any_step lte checkpointTimeout) {| rows := tb; now := t; activities := ∅ |} s →
  activity_inv checkpointTimeout s ∧ lease_inv checkpointTimeout s.
Proof.
  apply (rtc_invariant _ (λ s, activity_inv checkpointTimeout s ∧ lease_inv checkpointTimeout s)); [|apply start_inv].
  intros s1 s2 [Ha Hl] [l Hstep]. split; [by eapply activity_step | by eapply lease_step].
Qed.
End SystemLemmas.

(** ** Lemmas on the clients *)
Section ClientLemmas.
Context {Tb : Type} `{!DynamoTable ClientRecord Tb, !DynamoQuery ClientRecord Tb}.
Context `{!DynamoLaws ClientRecord Tb, !DynamoQueryLaws ClientRecord Tb}.
Implicit Types (tb : Tb) (client : string) (now : Z).

Lemma clientIndexIn_spec client i clients j :
  clientIndexIn client i clients = Some j → i ≤ j ∧ clients !! (j - i) = Some client.
Proof.
  revert i. induction clients as [|c clients IH]; intros i; simpl; [done|].
  case_bool_decide as Hc; [intros [= <-]; by rewrite Nat.sub_diag Hc|].
  intros [Hle Hj]%IH. split; [lia|]. by replace (j - i) with (S (j - S i)) by lia.
Qed.

Lemma clientIndexIn_found client i clients :
  client ∈ clients → ∃ j, clientIndexIn client i clients = Some j.
Proof.
  revert i. induction clients as [|c clients IH]; intros i Hin; [by apply not_elem_of_nil in Hin|]. simpl.
  case_bool_decide as Hc; [by eexists|]. apply IH. by apply elem_of_cons in Hin as [|].
Qed.

Lemma elem_of_live tb now client :
  client ∈ live_clients now tb ↔ ∃ r, db_get client tb = Some r ∧ (Unix now < c_Ttl r)%Z.
Proof.
  unfold live_clients. rewrite list_elem_of_fmap. split.
  - intros ([k r] & -> & [Hin Hf]%list_elem_of_In%filter_In). apply list_elem_of_In, db_query_elem in Hin.
    exists r. split; [done|]. by apply Z.ltb_lt.
  - intros (r & Hr & Hlt). exists (client, r). split; [done|]. apply list_elem_of_In, filter_In. split.
    + by apply list_elem_of_In, db_query_elem.
    + by apply Z.ltb_lt.
Qed.

Lemma filter_fst_sublist {A} (p : string * A → bool) (l : list (string * A)) :
  sublist (List.filter p l).*1 l.*1.
Proof. induction l as [|x l IH]; simpl; [done|]. destruct (p x); csimpl; by constructor. Qed.

Lemma live_nodup tb now : NoDup (live_clients now tb).
Proof. eapply sublist_NoDup; [apply (db_query_nodup tb) | apply filter_fst_sublist]. Qed.

Lemma RegisterClient_run client timeout now later tb :
  (Unix later < Unix (now + timeout))%Z →
  ∃ i, RegisterClient client timeout now later Delivered None tb =
    (db_write client (λ _, Some {| c_UpdatedAt := now; c_Ttl := Unix (now + timeout) |}) tb,
     Ok (i, length (live_clients later
       (db_write client (λ _, Some {| c_UpdatedAt := now; c_Ttl := Unix (now + timeout) |}) tb)))) ∧
    live_clients later
       (db_write client (λ _, Some {| c_UpdatedAt := now; c_Ttl := Unix (now + timeout) |}) tb) !! i = Some client.
Proof.
  intros Hlt. unfold RegisterClient, PutItem. rewrite client_write_delivered. cbn [checked].
  set (tb' := db_write _ _ tb).
  destruct (clientIndexIn_found client 0 (live_clients later tb')) as [i Hi].
  { apply elem_of_live. eexists. split; [by rewrite /tb' db_get_write | done]. }
  exists i. rewrite Hi. split; [done|]. apply clientIndexIn_spec in Hi as [_ Hi]. by rewrite Nat.sub_0_r in Hi.
Qed.
End ClientLemmas.

(** ** Properties *)

(** C4: A shard has one owner at a time: whatever the clients do on the table, in any
    order of their requests and whichever of them get lost, a client that has acquired
    a shard and written its record less than the checkpoint timeout ago, less one
    second for the comparison of times as text, is the only such client; and until
    then no step of anyone else changes the record of the shard. *)
Theorem shard_has_one_owner {Tb} `{!DynamoTable CheckpointRecord Tb, !DynamoLaws CheckpointRecord Tb}
    lte checkpointTimeout (tb : Tb) t s client a w sid :
  (∀ a b, lte a b = true → (Unix a ≤ Unix b)%Z) → (checkpointTimeout ≤ ShardTimeout)%Z →
  rtc (any_step lte checkpointTimeout) {| rows := tb; now := t; activities := ∅ |} s →
  activities s !! (client, sid) = Some a → lease_of a = Some w → leased checkpointTimeout s w →
  (∀ client' a' w', activities s !! (client', sid) = Some a' → lease_of a' = Some w' →
     leased checkpointTimeout s w' → client' = client) ∧
  (∀ l s', kstep lte checkpointTimeout l s s' → l ≠ Some (client, sid) →
     db_get sid (rows s') = db_get sid (rows s)).
Proof.
  intros Hlte Htimeout Hrun Ha Hw Hl.
  destruct (run_inv lte Hlte checkpointTimeout Htimeout tb t s Hrun) as [Hinv Hlinv].
  pose proof (Hlinv _ _ _ _ Ha Hw Hl) as Howns. split.
  - intros client' a' w' Ha' Hw' Hl'. destruct (Hlinv _ _ _ _ Ha' Hw' Hl') as (r' & Hr' & <- & _).
    destruct Howns as (r & Hr & <- & _). congruence.
  - intros l s' Hstep Hne. destruct (Hinv _ _ _ Ha) as [Hc _].
    by eapply (leased_rows lte Hlte checkpointTimeout Htimeout).
Qed.

(** AcquireShard with answered requests: a shard without a record is taken from
    the beginning, one that is in use is left alone, a finished one is refused, and one
    that was released or whose owner has timed out is taken over at the position of
    the record; when the context has ended meanwhile the shard is given back with the
    position unchanged. *)
Theorem AcquireShard_correct {Tb} `{!DynamoTable CheckpointRecord Tb, !DynamoLaws CheckpointRecord Tb}
    lte client checkpointTimeout now sid ctxErr (tb : Tb) :
  client ≠ ""%string →
  (∀ r, db_get sid tb = Some r → (Unix now < Ttl r)%Z) →
  let '(tb', res) := AcquireShard lte client checkpointTimeout now Delivered Delivered Delivered sid ctxErr tb in
  let takes seq iterator :=
    match ctxErr with
    | None => res = Ok (Some (acquired client sid (taken_by client now seq iterator None))) ∧
        db_get sid tb' = Some (taken_by client now seq iterator None)
    | Some err => res = Err err ∧ db_get sid tb' = Some (taken_by "" now seq iterator None)
    end in
  match db_get sid tb with
  | None => takes ""%string ""%string
  | Some r =>
      if decide (OwningClientId r ≠ ""%string ∧ (now - checkpointTimeout < UpdatedAt r)%Z)
      then res = Ok None ∧ tb' = tb
      else if decide (FinishedAt r ≠ None) then res = Err (EValue ErrShardAlreadyFinished) ∧ tb' = tb
      else if decide (OwningClientId r = ""%string ∨ lte (UpdatedAt r) (now - checkpointTimeout)%Z = true)
      then takes (SequenceNumber r) (LastShardIterator r)
      else res = Ok None ∧ tb' = tb
  end.
Proof.
  intros Hclient Hlive. unfold AcquireShard, acquireRead, GetItem.
  assert (∀ seq it,
    let '(tb', res) :=
      match acquireWrite lte Delivered sid (now - checkpointTimeout) (taken_by client now seq it None) tb with
      | (tb0, Err err) => (tb0, Err err)
      | (tb0, Ok false) => (tb0, Ok None)
      | (tb0, Ok true) =>
          match ctxErr with
          | Some err => acquireCanceled client now Delivered sid (taken_by client now seq it None) err tb0
          | None => (tb0, Ok (Some (acquired client sid (taken_by client now seq it None))))
          end
      end in
    if acquirable lte (now - checkpointTimeout) (db_get sid tb)
    then match ctxErr with
         | None => res = Ok (Some (acquired client sid (taken_by client now seq it None))) ∧
             db_get sid tb' = Some (taken_by client now seq it None)
         | Some err => res = Err err ∧ db_get sid tb' = Some (taken_by "" now seq it None)
         end
    else res = Ok None ∧ tb' = tb) as Htake.
  { intros seq it. unfold acquireWrite, PutItem. rewrite client_write_delivered.
    destruct (acquirable _ _ _); simpl; [|done]. destruct ctxErr as [err|]; [|by rewrite db_get_write].
    unfold acquireCanceled, PutItem. rewrite client_write_delivered db_get_write /=.
    rewrite bool_decide_eq_true_2 //=. by rewrite db_get_write. }
  destruct (db_get sid tb) as [r|] eqn:Hr; [|exact (Htake ""%string ""%string)].
  unfold PerformFilterCondition. rewrite (proj2 (Z.ltb_lt _ _) (Hlive r eq_refl)).
  unfold handleExistingRecord. specialize (Htake (SequenceNumber r) (LastShardIterator r)).
  destruct (decide (OwningClientId r ≠ ""%string ∧ (now - checkpointTimeout < UpdatedAt r)%Z)) as [[H1 H2]|Hno].
  { by rewrite bool_decide_eq_true_2 //= (proj2 (Z.ltb_lt _ _) H2). }
  assert (bool_decide (OwningClientId r ≠ ""%string) && (now - checkpointTimeout <? UpdatedAt r)%Z = false) as ->.
  { apply andb_false_iff. rewrite bool_decide_eq_false Z.ltb_ge.
    destruct (decide (OwningClientId r = ""%string)); [left; tauto | right].
    assert (¬ (now - checkpointTimeout < UpdatedAt r)%Z) by tauto. lia. }
  destruct (decide (FinishedAt r ≠ None)) as [Hf|Hf]; [by rewrite bool_decide_eq_true_2|].
  rewrite bool_decide_eq_false_2 //. apply dec_stable in Hf. rewrite Hf. simpl in Htake.
  destruct (decide _) as [Hfree|Hbusy].
  - rewrite (proj2 (orb_true_iff _ _)) in Htake; [|exact Htake].
    destruct Hfree as [?|?]; [left; by apply bool_decide_eq_true | by right].
  - rewrite (proj2 (orb_false_iff _ _)) in Htake; [|exact Htake].
    split; [apply bool_decide_eq_false; tauto | apply not_true_is_false; tauto].
Qed.

(** C16: A shard is handed over without losing its position: what Release writes for the
    owner of the record is what the next client, whose AcquireShard comes before the
    record's ttl (so within ShardTimeout after the release, to the second: the filter on
    the ttl hides the record afterwards), gets as its checkpoint, unless the shard was
    persisted as finished; the released checkpoint refuses every further operation.  This
    is for calls that reach DynamoDB, a checkpoint that is not poisoned and whose client
    owns the record, and a next client with a name; nobody else writes in between. *)
Theorem shard_handover {Tb} `{!DynamoTable CheckpointRecord Tb, !DynamoLaws CheckpointRecord Tb}
    lte client checkpointTimeout now1 now2 c (tb : Tb) :
  client ≠ ""%string → poisoned c = false → owned_by (owningClientId c) (db_get (shardId c) tb) = true →
  (now1 ≤ now2)%Z → (Unix now2 < Unix (now1 + ShardTimeout))%Z →
  ∃ tb1, Release now1 Delivered c tb = (tb1, poison c, None) ∧
    (∀ seq iterator now net, is_Some (Advance seq iterator (poison c)).2 ∧ is_Some (Done now seq (poison c)).2 ∧
       Persist now net (poison c) tb1 =
         (tb1, Err (EWrapped "can not persist already released checkpoint" (EValue ErrAlreadyPoisoned))) ∧
       Release now net (poison c) tb1 = (tb1, poison c, Some (EValue ErrAlreadyPoisoned))) ∧
    ((∃ r, db_get (shardId c) tb = Some r ∧ FinishedAt r ≠ None) →
       AcquireShard lte client checkpointTimeout now2 Delivered Delivered Delivered (shardId c) None tb1 =
         (tb1, Err (EValue ErrShardAlreadyFinished))) ∧
    ((∃ r, db_get (shardId c) tb = Some r ∧ FinishedAt r = None) → ∃ tb2 c2,
       AcquireShard lte client checkpointTimeout now2 Delivered Delivered Delivered (shardId c) None tb1 =
         (tb2, Ok (Some c2)) ∧
       sequenceNumber c2 = sequenceNumber c ∧ shardIterator c2 = shardIterator c ∧
       owningClientId c2 = client ∧ poisoned c2 = false).
Proof.
  intros Hclient Hp Hown Hle Hlive. unfold Release at 1. rewrite Hp. unfold UpdateItem.
  rewrite client_write_delivered Hown. cbn [checked]. eexists. split; [done|]. split; [done|].
  unfold AcquireShard, acquireRead, GetItem. rewrite db_get_write. unfold PerformFilterCondition. simpl.
  rewrite (proj2 (Z.ltb_lt _ _) Hlive). unfold handleExistingRecord. simpl.
  split; intros (r & Hr & Hf); rewrite Hr.
  - by rewrite bool_decide_eq_true_2.
  - rewrite bool_decide_eq_false_2; [tauto|]. unfold acquireWrite, PutItem.
    rewrite client_write_delivered db_get_write /=. eexists _, _. by split.
Qed.

(** Persist writes the checkpoint's position as long as the client owns the shard,
    and tells it to release exactly when the shard is done and its last sequence number
    was reached; without ownership the record stays as it is. *)
Theorem Persist_correct {Tb} `{!DynamoTable CheckpointRecord Tb, !DynamoLaws CheckpointRecord Tb}
    now c (tb : Tb) :
  poisoned c = false →
  let '(tb', res) := Persist now Delivered c tb in
  if owned_by (owningClientId c) (db_get (shardId c) tb) then
    (∃ r, db_get (shardId c) tb' = Some r ∧ SequenceNumber r = sequenceNumber c ∧
       LastShardIterator r = shardIterator c ∧ OwningClientId r = owningClientId c ∧ UpdatedAt r = now ∧
       (FinishedAt r = finishedAt c ∨ FinishedAt r = None)) ∧
    ∃ release, res = Ok release ∧
      (release = true ↔ finishedAt c ≠ None ∧
         (sequenceNumber c = finalSequenceNumber c ∨ finalSequenceNumber c = ""%string))
  else tb' = tb ∧ res = Err (EValue ErrCheckpointNoLongerOwned).
Proof.
  intros Hp. unfold Persist. rewrite Hp. unfold PutItem. rewrite client_write_delivered.
  destruct (owned_by _ _); simpl; [|done]. rewrite db_get_write. split.
  - eexists. split_and!; try done. simpl. destruct (_ && _); auto.
  - eexists. split; [done|].
    destruct (decide (sequenceNumber c = finalSequenceNumber c)) as [Heq|Hne].
    { rewrite (bool_decide_eq_false_2 (sequenceNumber c ≠ _)); [tauto|]. simpl. destruct (finishedAt c); naive_solver. }
    rewrite (bool_decide_eq_true_2 (sequenceNumber c ≠ _)) //=.
    destruct (decide (finalSequenceNumber c = ""%string)) as [He|He].
    { rewrite bool_decide_eq_false_2; [tauto|]. destruct (finishedAt c); naive_solver. }
    rewrite bool_decide_eq_true_2 //. naive_solver.
Qed.

(** The requests of an AcquireShard are not one step, and its write only looks at
    the owner: a client that read the table before the shard had a record can, after
    another client has consumed and finished the whole shard and released it, still
    write its own record, which has no position and is not finished. *)
Theorem stale_acquire_loses_progress :
  ∃ (s s' : system (Tb := gmap string CheckpointRecord)) r r',
    rtc (any_step Z.leb (60 * Sec)) {| rows := ∅; now := 0; activities := ∅ |} s ∧
    any_step Z.leb (60 * Sec) s s' ∧
    rows s !! "shard" = Some r ∧ SequenceNumber r = "5" ∧ FinishedAt r = Some 0%Z ∧
    rows s' !! "shard" = Some r' ∧ SequenceNumber r' = "" ∧ FinishedAt r' = None ∧ OwningClientId r' = "B".
Proof.
  set (recB := taken_by "B" 0 "" "" None). set (recA := taken_by "A" 0 "" "" None).
  set (c0 := acquired "A" "shard" recA). set (c1 := (Advance "5" "" c0).1). set (c2 := (Done 0 "5" c1).1).
  set (tb1 := {["shard" := recA]} : gmap string CheckpointRecord).
  set (tb2 := {["shard" := persisted 0 c2]} : gmap string CheckpointRecord).
  set (tb3 := {["shard" := released 0 c2 (Some (persisted 0 c2))]} : gmap string CheckpointRecord).
  set (tb4 := {["shard" := recB]} : gmap string CheckpointRecord).
  do 4 eexists. split_and!.
  - eapply rtc_l.
    { eexists. apply (k_read _ _ _ "B" "shard" 0 Delivered recB); [done | simpl; lia | done | done]. }
    eapply rtc_l.
    { eexists. apply (k_read _ _ _ "A" "shard" 0 Delivered recA); [done | simpl; lia | done | done]. }
    eapply rtc_l.
    { eexists. apply (k_write _ _ _ "A" "shard" (0 - 60 * Sec) recA Delivered tb1 (Ok true)); vm_compute; reflexivity. }
    eapply rtc_l.
    { eexists. apply (k_acquired _ _ _ "A" "shard" recA); vm_compute; reflexivity. }
    eapply rtc_l.
    { eexists. apply (k_advance _ _ _ "A" "shard" 0 c0 "5" ""); vm_compute; reflexivity. }
    eapply rtc_l.
    { eexists. apply (k_done _ _ _ "A" "shard" 0 c1 0 "5"); [vm_compute; reflexivity | simpl; lia]. }
    eapply rtc_l.
    { eexists. apply (k_persist _ _ _ "A" "shard" 0 c2 0 Delivered tb2 (Ok true));
        [vm_compute; reflexivity | simpl; lia | vm_compute; reflexivity]. }
    eapply rtc_l.
    { eexists. apply (k_release _ _ _ "A" "shard" 0 c2 0 Delivered tb3 (poison c2) None);
        [vm_compute; reflexivity | simpl; lia | vm_compute; reflexivity]. }
    apply rtc_refl.
  - eexists. apply (k_write _ _ _ "B" "shard" (0 - 60 * Sec) recB Delivered tb4 (Ok true)); vm_compute; reflexivity.
  - reflexivity.
  - done.
  - done.
  - reflexivity.
  - done.
  - done.
  - done.
Qed.

(** C15: Clients that see the same registrations and shards share the shards out: every
    registered client is told its place among the live clients, and when each of them
    starts the consumers of its place, every shard is consumed by exactly one. *)
Theorem registered_clients_share_shards {Tb} `{!DynamoTable ClientRecord Tb, !DynamoQuery ClientRecord Tb}
    `{!DynamoLaws ClientRecord Tb, !DynamoQueryLaws ClientRecord Tb} client timeout now later (tb : Tb) ids fuel :
  (Unix later < Unix (now + timeout))%Z → length ids < fuel →
  let '(tb', res) := RegisterClient client timeout now later Delivered None tb in
  let clients := live_clients later tb' in
  client ∈ clients ∧ NoDup clients ∧
  (∃ i, res = Ok (i, length clients) ∧ clients !! i = Some client) ∧
  ∃ parts, length parts = length clients ∧ mjoin parts ≡ₚ ids ∧
    ∀ i part, parts !! i = Some part →
      startConsumers fuel {| clientIndex := i; totalClients := length clients; shardIds := ids |} =
        Some (part, length part =? 0).
Proof.
  intros Hlive Hf. destruct (RegisterClient_run client timeout now later tb Hlive) as (i & -> & Hi).
  set (tb' := db_write _ _ tb) in *. pose proof (lookup_lt_Some _ _ _ Hi) as Hlt.
  assert (0 < length (live_clients later tb')) as Hpos by lia. split_and!.
  - by eapply list_elem_of_lookup_2.
  - apply live_nodup.
  - eauto.
  - exists (assigned (length (live_clients later tb')) ids <$> seq 0 (length (live_clients later tb'))). split_and!.
    + by rewrite length_fmap length_seq.
    + by apply assigned_all.
    + intros j part. rewrite list_lookup_fmap. intros (j' & [-> Hj]%lookup_seq & ->)%fmap_Some.
      unfold startConsumers. simpl. by rewrite (assigned_stride fuel).
Qed.

(** ** Witnesses *)

#[local] Definition key_le (a b : string * ClientRecord) : Prop := String.le a.1 b.1.
#[local] Instance key_le_dec : RelDecision key_le := λ a b, _ : Decision (String.le a.1 b.1).
#[local] Instance key_le_total : Total key_le.
Proof. intros a b. apply (total String.le). Qed.
#[local] Instance key_le_trans : Transitive key_le.
Proof. intros a b c. apply (transitivity (R := String.le)). Qed.

#[local] Instance sample_query : DynamoQuery ClientRecord (gmap string ClientRecord) := {|
  db_query tb := merge_sort key_le (map_to_list tb);
|}.

#[local] Instance sample_query_laws : DynamoQueryLaws ClientRecord (gmap string ClientRecord).
Proof.
  split; unfold db_query; simpl.
  - intros tb. pose proof (StronglySorted_merge_sort key_le (map_to_list tb)) as Hs.
    induction Hs as [|x l Hs IH Hall]; csimpl; constructor; [done|]. by apply Forall_fmap.
  - intros tb. rewrite merge_sort_Permutation. apply NoDup_fst_map_to_list.
  - intros tb k i. rewrite merge_sort_Permutation. apply elem_of_map_to_list.
Qed.

Definition sample_record : CheckpointRecord := taken_by "A" 0 "" "" None.

Definition sample_system : system (Tb := gmap string CheckpointRecord) :=
  {| rows := {["s" := sample_record]}; now := 0; activities := {[("A", "s") := Acquired sample_record]} |}.

Lemma shard_has_one_owner_witness :
  leased (60 * Sec) sample_system 0 ∧
  (∀ l s', kstep Z.leb (60 * Sec) l sample_system s' → l ≠ Some ("A", "s") →
     db_get "s" (rows s') = Some sample_record).
Proof.
  split; [by vm_compute|].
  refine (proj2 (shard_has_one_owner Z.leb (60 * Sec) (∅ : gmap string CheckpointRecord) 0 sample_system "A"
    (Acquired sample_record) 0 "s" _ _ _ _ _ _)).
  - intros a b ?%Z.leb_le. by apply Unix_le.
  - by vm_compute.
  - eapply rtc_l.
    { eexists. apply (k_read _ _ _ "A" "s" 0 Delivered sample_record); [done | simpl; lia | done | reflexivity]. }
    apply rtc_once. exists (Some ("A", "s")).
    pose proof (k_write Z.leb (60 * Sec)
      {| rows := ∅ : gmap string CheckpointRecord; now := 0;
         activities := {[("A", "s") := Acquiring (0 - 60 * Sec) sample_record]} |}
      "A" "s" (0 - 60 * Sec) sample_record Delivered {["s" := sample_record]} (Ok true)) as Hstep.
    apply Hstep; vm_compute; reflexivity.
  - reflexivity.
  - reflexivity.
  - vm_compute. discriminate.
Defined.

Lemma AcquireShard_correct_witness :
  (AcquireShard Z.leb "B" (60 * Sec) (100 * Sec) Delivered Delivered Delivered "s" None
     ({["s" := taken_by "A" 0 "7" "" None]} : gmap string CheckpointRecord)).2 =
  Ok (Some (acquired "B" "s" (taken_by "B" (100 * Sec) "7" "" None))).
Proof.
  pose proof (AcquireShard_correct Z.leb "B" (60 * Sec) (100 * Sec) "s" None
    ({["s" := taken_by "A" 0 "7" "" None]} : gmap string CheckpointRecord) ltac:(done)
    ltac:(simpl; intros r Hr; rewrite lookup_singleton_eq in Hr; injection Hr as <-; vm_compute; reflexivity)) as Hw.
  vm_compute in Hw. vm_compute. exact (proj1 Hw).
Defined.

Lemma shard_handover_witness :
  ∃ tb2 c2, AcquireShard Z.leb "B" (60 * Sec) Sec Delivered Delivered Delivered "s" None
     ({["s" := released 0 (Advance "7" "" (acquired "A" "s" sample_record)).1 (Some sample_record)]} : gmap string CheckpointRecord) =
     (tb2, Ok (Some c2)) ∧ sequenceNumber c2 = "7".
Proof.
  destruct (shard_handover Z.leb "B" (60 * Sec) 0 Sec (Advance "7" "" (acquired "A" "s" sample_record)).1
    ({["s" := sample_record]} : gmap string CheckpointRecord)) as (tb1 & Hrel & _ & _ & Hacq);
    [done | done | reflexivity | by vm_compute | by vm_compute|].
  destruct Hacq as (tb2 & c2 & Hacq & Hseq & _); [exists sample_record; split; reflexivity|].
  exists tb2, c2. split; [|exact Hseq]. rewrite <- Hacq. f_equal. vm_compute in Hrel. injection Hrel as <-. vm_compute. reflexivity.
Defined.

Lemma Persist_correct_witness :
  (Persist Sec Delivered (Advance "7" "" (acquired "A" "s" sample_record)).1
     ({["s" := sample_record]} : gmap string CheckpointRecord)).2 = Ok false.
Proof.
  pose proof (Persist_correct Sec (Advance "7" "" (acquired "A" "s" sample_record)).1
    ({["s" := sample_record]} : gmap string CheckpointRecord) ltac:(done)) as Hw.
  destruct (Persist Sec Delivered (Advance "7" "" (acquired "A" "s" sample_record)).1
    ({["s" := sample_record]} : gmap string CheckpointRecord)) as [tb' res].
  change (owned_by _ _) with true in Hw. destruct Hw as (_ & release & -> & Hiff). simpl.
  destruct release; [|done]. by destruct (proj1 Hiff eq_refl).
Defined.

Lemma registered_clients_share_shards_witness :
  "b" ∈ live_clients 0 (db_write "b" (λ _, Some {| c_UpdatedAt := 0; c_Ttl := 60 |})
    ({["a" := {| c_UpdatedAt := 0; c_Ttl := 60 |}]} : gmap string ClientRecord)).
Proof.
  exact (proj1 (registered_clients_share_shards "b" (60 * Sec) 0 0
    ({["a" := {| c_UpdatedAt := 0; c_Ttl := 60 |}]} : gmap string ClientRecord) ["x"; "y"] 3
    ltac:(by vm_compute) ltac:(simpl; lia))).
Defined.
