(* ===== verification/KinesisReader.v ===== *)
(** * pkg/cloud/aws/kinesis/shard_reader.go: reading a shard

    The loop that gets the records of a shard, passes them to the handler and
    advances the checkpoint, with its shard iterators, expired iterators and the
    cancellation of its context; and the release of the checkpoint, which the reader
    and the persister share.  The Kinesis client, the handler, the checkpoint, the
    context, the timers and the delay of a record are parameters; metrics, logging and
    health checks are left out. *)
From S2P Require Import Prelude Num Exec Dynamo KinesisShards KinesisCheckpoint.

(** ** The rest of the program *)

(** A record of the shard: its sequence number and its data. *)
Record record := { r_seq : option string; r_data : string }.

(** The output of GetRecords. *)
Record GetRecordsOutput := {
  Records : list record;
  NextShardIterator : option string;
  MillisBehindLatest : Z;
}.

(** Where a new iterator starts: after a sequence number or at the configured position. *)
Inductive iterator_start := AfterSequenceNumber (seq : string) | InitialPosition.

Definition ExpiredIteratorException : nat := 24.

(** What the reader did, in order. *)
Inductive event :=
| Handled (r : record)
| Advanced (seq iterator : string)
| MarkedDone (seq : string).

(** The program around the reader, with its world. *)
Record environment (W : Type) := {
  ctx_done : W → bool;
  GetRecords : string → Z → W → W * result error GetRecordsOutput;
  GetShardIterator : iterator_start → W → W * result error (option string);
  handler : string → W → W * option error;
  (* the sleep of delayConsume (513-548) *)
  delayConsume : record → W → W;
  (* the checkpoint *)
  GetSequenceNumber : W → string;
  GetCheckpointIterator : W → string;
  Advance : string → string → W → W * option error;
  Done : string → W → W * option error;
  (* which of ctx.Done and the timer the select of iterateRecords takes *)
  timer_fired : Z → W → W * bool;
  Now : W → Z;
}.
Arguments ctx_done {W}. Arguments GetRecords {W}. Arguments GetShardIterator {W}.
Arguments handler {W}. Arguments delayConsume {W}. Arguments GetSequenceNumber {W}.
Arguments GetCheckpointIterator {W}. Arguments Advance {W}. Arguments Done {W}.
Arguments timer_fired {W}. Arguments Now {W}.

(** [pkg/cloud/aws/kinesis/kinsumer.go:57-63] the settings the reader uses *)
Record reader_settings := { MaxBatchSize : Z; WaitTime : Z; ConsumeDelay : Z }.

Section Reader.
Context {W : Type} (env : environment W) (settings : reader_settings).
Implicit Types (w : W) (tr : list event).

(** [pkg/cloud/aws/kinesis/shard_reader.go:250-279] shardReader.getLastShardIterator *)
Definition getLastShardIterator (lastShardIterator : string) w : W * result error (option string) :=
  if bool_decide (lastShardIterator = ""%string) then (w, Ok None)
  else
    match GetRecords env lastShardIterator 1 w with
    | (w, Err err) =>
        if errors_Is ExpiredIteratorException err then (w, Ok None)
        else (w, Err (EWrapped "failed to validate shard iterator" err))
    | (w, Ok resp) =>
        if length (Records resp) =? 0 then (w, Ok (Some (default ""%string (NextShardIterator resp))))
        else (w, Ok (Some lastShardIterator))
    end.

(** [pkg/cloud/aws/kinesis/shard_reader.go:215-248] shardReader.getShardIterator *)
Definition getShardIterator (sequenceNumber lastShardIterator : string) w : W * result error string :=
  match getLastShardIterator lastShardIterator w with
  | (w, Err err) => (w, Err err)
  | (w, Ok (Some iterator)) => (w, Ok iterator)
  | (w, Ok None) =>
      let start := if bool_decide (sequenceNumber = ""%string) then InitialPosition
                   else AfterSequenceNumber sequenceNumber in
      match GetShardIterator env start w with
      | (w, Err err) => (w, Err (EWrapped "failed to get shard iterator" err))
      | (w, Ok iterator) => (w, Ok (default ""%string iterator))
      end
  end.

(** [pkg/cloud/aws/kinesis/shard_reader.go:427-449] shardReader.getRecords *)
Definition getRecords (iterator : string) w : W * result error (list record * string * Z) :=
  match GetRecords env iterator (MaxBatchSize settings) w with
  | (w, Err err) => (w, Err (EWrapped "failed to get records from shard" err))
  | (w, Ok output) =>
      (w, Ok (Records output, default ""%string (NextShardIterator output), MillisBehindLatest output))
  end.

(** [pkg/cloud/aws/kinesis/shard_reader.go:468-508] the loop of processRecords: the
    world, the events, the last sequence number, the number of records that were
    processed and an error *)
Fixpoint processLoop (records : list record) (lastSequenceNumber : string) (processedSize : nat) w :
    W * list event * string * nat * option error :=
  match records with
  | [] => (w, [], lastSequenceNumber, processedSize, None)
  | r :: records =>
      let w := delayConsume env r w in
      if ctx_done env w then (w, [], lastSequenceNumber, processedSize, None)
      else
        let '(w, _) := handler env (r_data r) w in
        let lastSequenceNumber := default ""%string (r_seq r) in
        match Advance env lastSequenceNumber "" w with
        | (w, Some err) =>
            (w, [Handled r], lastSequenceNumber, processedSize, Some (EWrapped "failed to advance checkpoint" err))
        | (w, None) =>
            let tr := [Handled r; Advanced lastSequenceNumber ""] in
            if ctx_done env w then (w, tr, lastSequenceNumber, S processedSize, None)
            else
              let '(w, tr', last, n, err) := processLoop records lastSequenceNumber (S processedSize) w in
              (w, tr ++ tr', last, n, err)
        end
  end.

(** [pkg/cloud/aws/kinesis/shard_reader.go:451-511] shardReader.processRecords *)
Definition processRecords (records : list record) (lastSequenceNumber nextIterator : string) w :
    W * list event * string * nat * option error :=
  if length records =? 0 then
    match Advance env lastSequenceNumber nextIterator w with
    | (w, Some err) => (w, [], lastSequenceNumber, 0, Some (EWrapped "failed to advance checkpoint" err))
    | (w, None) => (w, [Advanced lastSequenceNumber nextIterator], lastSequenceNumber, 0, None)
    end
  else processLoop records lastSequenceNumber 0 w.

(** What the loop of iterateRecords keeps between its rounds. *)
Record position := { iterator : string; lastSequenceNumber : string }.

(** [pkg/cloud/aws/kinesis/shard_reader.go:412-424] how long to wait for the next
    round; [millisecondsBehind] counts as nanoseconds in the comparison *)
Definition nextWait (millisecondsBehind start now : Z) : Z :=
  if (int64 (WaitTime settings + ConsumeDelay settings) <? millisecondsBehind)%Z then 0%Z
  else Z.max 0 (WaitTime settings - (now - start)).

(** [pkg/cloud/aws/kinesis/shard_reader.go:357-425] shardReader.getAndProcessRecords *)
Definition getAndProcessRecords (p : position) w : W * list event * position * result error Z :=
  let start := Now env w in
  match getRecords (iterator p) w with
  | (w, Err err) =>
      if errors_Is ExpiredIteratorException err then
        match getShardIterator (GetSequenceNumber env w) (GetCheckpointIterator env w) w with
        | (w, Err err) =>
            (w, [], {| iterator := ""; lastSequenceNumber := lastSequenceNumber p |},
             Err (EWrapped "failed to get new shard iterator" err))
        | (w, Ok it) => (w, [], {| iterator := it; lastSequenceNumber := lastSequenceNumber p |}, Ok 0%Z)
        end
      else (w, [], p, Err (EWrapped "failed reading records from shard" err))
  | (w, Ok (records, nextIterator, millisecondsBehind)) =>
      match processRecords records (lastSequenceNumber p) (iterator p) w with
      | (w, tr, last, _, Some err) =>
          (w, tr, {| iterator := iterator p; lastSequenceNumber := last |}, Err err)
      | (w, tr, last, processedSize, None) =>
          let it := if processedSize =? length records then nextIterator else iterator p in
          (w, tr, {| iterator := it; lastSequenceNumber := last |}, Ok (nextWait millisecondsBehind start (Now env w)))
      end
  end.

(** [pkg/cloud/aws/kinesis/shard_reader.go:330-354] the loop of iterateRecords; the
    last part is [None] while it is running *)
Fixpoint iterate (fuel : nat) (p : position) (wait : Z) w : W * list event * position * option (option error) :=
  match fuel with
  | 0 => (w, [], p, None)
  | S fuel =>
      if bool_decide (iterator p = ""%string) then
        match Done env (lastSequenceNumber p) w with
        | (w, Some err) => (w, [], p, Some (Some (EWrapped "failed to mark checkpoint as done" err)))
        | (w, None) => (w, [MarkedDone (lastSequenceNumber p)], p, Some None)
        end
      else
        let '(w, fired) := timer_fired env wait w in
        if fired then
          let '(w, tr, p, res) := getAndProcessRecords p w in
          match res with
          | Err err => (w, tr, p, Some (if request_canceled err then None else Some err))
          | Ok resetValue =>
              let '(w, tr', p, result) := iterate fuel p resetValue w in (w, tr ++ tr', p, result)
          end
        else (w, [], p, Some None)
  end.

(** [pkg/cloud/aws/kinesis/shard_reader.go:313-355] shardReader.iterateRecords *)
Definition iterateRecords (fuel : nat) (iterator startingSequenceNumber : string) w :
    W * list event * option (option error) :=
  let '(w, tr, _, result) :=
    iterate fuel {| iterator := iterator; lastSequenceNumber := startingSequenceNumber |} 0 w in
  (w, tr, result).
End Reader.

(** ** Acquiring and releasing the checkpoint *)

(** [pkg/cloud/aws/kinesis/checkpoint.go:15-17] the checkpoint in the wrapper: none, the
    one of the repository or, [pkg/cloud/aws/kinesis/checkpoint.go:19-44], the nopCheckpoint *)
Inductive wrapped := NoCheckpoint | Real (c : checkpoint) | Nop.

Section Release.
Context {Tb : Type} `{!DynamoTable CheckpointRecord Tb}.
Implicit Types (tb : Tb) (net : network) (now : Z) (cp : wrapped).

(** [pkg/cloud/aws/kinesis/shard_reader.go:165-177] shardReader.releaseCheckpoint; no
    checkpoint at all is a nil dereference *)
Definition releaseCheckpoint now netPersist netRelease cp tb : option (Tb * wrapped * option error) :=
  match cp with
  | NoCheckpoint => None
  | Nop => Some (tb, Nop, None)
  | Real c =>
      match Persist now netPersist c tb with
      | (tb, Err err) => Some (tb, Nop, Some err)
      | (tb, Ok _) => let '(tb, _, err) := Release now netRelease c tb in Some (tb, Nop, err)
      end
  end.

(** [pkg/cloud/aws/kinesis/shard_reader.go:289-309] a tick of runPersister: the result of
    the goroutine once it leaves its loop *)
Definition persisterTick now netPersist netPersist2 netRelease cp tb :
    option (Tb * wrapped * option (option error)) :=
  match cp with
  | NoCheckpoint => None
  | Nop => Some (tb, Nop, None)
  | Real c =>
      let '(tb, res) := Persist now netPersist c tb in
      let shouldRelease := match res with
        | Ok release => Ok release
        | Err err => if request_canceled err then Ok true else Err err
        end in
      match shouldRelease with
      | Err err => Some (tb, Real c, Some (Some (EWrapped "failed to persist checkpoint" err)))
      | Ok false => Some (tb, Real c, None)
      | Ok true =>
          match releaseCheckpoint now netPersist2 netRelease (Real c) tb with
          | None => None
          | Some (tb, cp, err) =>
              Some (tb, cp, Some (EWrapped "failed to release checkpoint for shard" <$> err))
          end
      end
  end.

(** [pkg/cloud/aws/kinesis/shard_reader.go:179-213] shardReader.acquireShard on the results of
    the repository: a result without a checkpoint is tried again after the wait time,
    unless the context ends meanwhile ([None] in the list) *)
Fixpoint acquireShard (results : list (option (result error (option checkpoint)))) : option (wrapped * result error bool) :=
  match results with
  | [] => None
  | None :: _ => Some (NoCheckpoint, Ok false)
  | Some (Err err) :: _ => Some (NoCheckpoint, Err (EWrapped "failed to acquire shard" err))
  | Some (Ok (Some c)) :: _ => Some (Real c, Ok true)
  | Some (Ok None) :: results => acquireShard results
  end.
End Release.

(** ** Lemmas *)

Definition seq_of (r : record) : string := default ""%string (r_seq r).

(** The records that were passed to the handler. *)
Fixpoint handled (tr : list event) : list record :=
  match tr with
  | [] => []
  | Handled r :: tr => r :: handled tr
  | _ :: tr => handled tr
  end.

Definition last_handled (s0 : string) (tr : list event) : string :=
  match last (handled tr) with Some r => seq_of r | None => s0 end.

(** Every write to the checkpoint names the record handled last, [s0] before the
    first. *)
Fixpoint follows (s0 : string) (tr : list event) : Prop :=
  match tr with
  | [] => True
  | Handled r :: tr => follows (seq_of r) tr
  | Advanced s _ :: tr | MarkedDone s :: tr => s = s0 ∧ follows s0 tr
  end.

Lemma follows_app s0 tr1 tr2 :
  follows s0 (tr1 ++ tr2) ↔ follows s0 tr1 ∧ follows (last_handled s0 tr1) tr2.
Proof.
  revert s0. induction tr1 as [|[r|s it|s] tr1 IH]; intros s0; simpl; [unfold last_handled; simpl; tauto|..].
  - rewrite IH. unfold last_handled. simpl. rewrite last_cons. by destruct (last (handled tr1)).
  - rewrite IH. unfold last_handled. simpl. tauto.
  - rewrite IH. unfold last_handled. simpl. tauto.
Qed.

Lemma handled_app tr1 tr2 : handled (tr1 ++ tr2) = handled tr1 ++ handled tr2.
Proof. induction tr1 as [|[] tr1 IH]; simpl; [done| |done..]. by rewrite IH. Qed.

(** What the reader relies on: the records of the shard have sequence numbers of their
    own; GetRecords returns records from the position of its iterator on and an iterator
    for the rest, none at the end of a closed shard, and fails once the context has
    ended; a new iterator is at the position it was asked for; and the checkpoint is
    only changed by Advance. [initial] is where the shard is read without a position, if that
    is one place: the oldest record for TRIM_HORIZON.  For LATEST it is [None]: every new
    iterator without a position is at the end the shard has by then. *)
Record reader_laws {W} (env : environment W) (shard : list record) (initial : option nat) (it_pos : string → nat → Prop) := {
  law_seq_nodup : NoDup (seq_of <$> shard);
  law_seq_nonempty : ""%string ∉ seq_of <$> shard;
  law_get it limit w w' out p :
    GetRecords env it limit w = (w', Ok out) → it_pos it p →
    ctx_done env w = false ∧
    Records out = take (length (Records out)) (drop p shard) ∧
    match NextShardIterator out with
    | Some it' => it' ≠ ""%string ∧ it_pos it' (p + length (Records out))
    | None => p + length (Records out) = length shard
    end;
  law_get_canceled it limit w w' r :
    GetRecords env it limit w = (w', r) → ctx_done env w = true →
    ∃ err, r = Err err ∧ errors_Is ExpiredIteratorException err = false;
  law_new_after seq w w' it i r :
    GetShardIterator env (AfterSequenceNumber seq) w = (w', Ok it) → shard !! i = Some r → seq_of r = seq →
    ∃ it', it = Some it' ∧ it' ≠ ""%string ∧ it_pos it' (S i);
  law_new_initial w w' it n :
    initial = Some n → GetShardIterator env InitialPosition w = (w', Ok it) →
    ∃ it', it = Some it' ∧ it' ≠ ""%string ∧ it_pos it' n;
  law_advance seq it w w' :
    Advance env seq it w = (w', None) → GetSequenceNumber env w' = seq ∧ GetCheckpointIterator env w' = it;
  law_get_checkpoint it limit w w' r :
    GetRecords env it limit w = (w', r) →
    GetSequenceNumber env w' = GetSequenceNumber env w ∧ GetCheckpointIterator env w' = GetCheckpointIterator env w;
  law_new_checkpoint start w w' r :
    GetShardIterator env start w = (w', r) →
    GetSequenceNumber env w' = GetSequenceNumber env w ∧ GetCheckpointIterator env w' = GetCheckpointIterator env w;
  law_delay_checkpoint r w :
    GetSequenceNumber env (delayConsume env r w) = GetSequenceNumber env w ∧
    GetCheckpointIterator env (delayConsume env r w) = GetCheckpointIterator env w;
  law_timer wait w w' b :
    timer_fired env wait w = (w', b) →
    GetSequenceNumber env w' = GetSequenceNumber env w ∧ GetCheckpointIterator env w' = GetCheckpointIterator env w ∧
    (ctx_done env w = true → ctx_done env w' = true);
}.

Section ReaderLemmas.
Context {W : Type} (env : environment W) (settings : reader_settings) (shard : list record) (initial : option nat).
Context (it_pos : string → nat → Prop) (laws : reader_laws env shard initial it_pos).
Implicit Types (w : W) (tr : list event) (p : position).

(** The sequence number at a position: that of the record before it, none at the
    initial position. *)
Definition seq_at (n : nat) (s : string) : Prop :=
  (s = ""%string ∧ initial = Some n) ∨ ∃ i r, n = S i ∧ shard !! i = Some r ∧ seq_of r = s.

(** The state of the reader between two rounds, at position [n]. *)
Definition reader_at (n : nat) p w : Prop :=
  n ≤ length shard ∧ seq_at n (lastSequenceNumber p) ∧ GetSequenceNumber env w = lastSequenceNumber p ∧
  (GetCheckpointIterator env w = ""%string ∨ it_pos (GetCheckpointIterator env w) n) ∧
  (iterator p = ""%string → n = length shard) ∧
  (iterator p ≠ ""%string → it_pos (iterator p) n ∨ ctx_done env w = true).

Lemma getLastShardIterator_spec n it w w' res :
  getLastShardIterator env it w = (w', Ok res) → n ≤ length shard → (it = ""%string ∨ it_pos it n) →
  GetSequenceNumber env w' = GetSequenceNumber env w ∧ GetCheckpointIterator env w' = GetCheckpointIterator env w ∧
  match res with
  | Some it' => (it' = ""%string → n = length shard) ∧ (it' ≠ ""%string → it_pos it' n)
  | None => True
  end.
Proof.
  unfold getLastShardIterator. intros H Hn Hit. case_bool_decide as He; [by simplify_eq|].
  destruct Hit as [?|Hit]; [done|].
  destruct (GetRecords env it 1 w) as [w1 [out|err]] eqn:Hget.
  - destruct (law_get_checkpoint _ _ _ _ laws _ _ _ _ _ Hget) as [Hs Hi].
    destruct (law_get _ _ _ _ laws _ _ _ _ _ _ Hget Hit) as (_ & Hrec & Hnext).
    destruct (Nat.eqb_spec (length (Records out)) 0) as [Hz|Hz]; simplify_eq; split_and!; try done.
    + rewrite Hz Nat.add_0_r in Hnext. destruct (NextShardIterator out) as [it'|]; simpl; naive_solver.
    + rewrite Hz Nat.add_0_r in Hnext. destruct (NextShardIterator out) as [it'|]; simpl; naive_solver.
  - destruct (errors_Is _ err); simplify_eq.
    by destruct (law_get_checkpoint _ _ _ _ laws _ _ _ _ _ Hget) as [Hs Hi].
Qed.

Lemma getShardIterator_spec n seq it w w' it' :
  getShardIterator env seq it w = (w', Ok it') → n ≤ length shard → seq_at n seq →
  (it = ""%string ∨ it_pos it n) →
  GetSequenceNumber env w' = GetSequenceNumber env w ∧ GetCheckpointIterator env w' = GetCheckpointIterator env w ∧
  (it' = ""%string → n = length shard) ∧ (it' ≠ ""%string → it_pos it' n).
Proof.
  unfold getShardIterator. intros H Hn Hseq Hit.
  destruct (getLastShardIterator env it w) as [w1 [[it1|]|err]] eqn:Hlast; [| |by simplify_eq].
  - destruct (getLastShardIterator_spec n _ _ _ _ Hlast Hn Hit) as (? & ? & ? & ?). by simplify_eq.
  - destruct (getLastShardIterator_spec n _ _ _ _ Hlast Hn Hit) as (Hs & Hi & _).
    destruct (GetShardIterator env _ w1) as [w2 [it2|err]] eqn:Hnew; [|by simplify_eq]. simplify_eq.
    destruct (law_new_checkpoint _ _ _ _ laws _ _ _ _ Hnew) as [Hs' Hi'].
    split_and!; [congruence | congruence |..].
    all: destruct Hseq as [[-> Hinit]|(i & r & -> & Hr & <-)].
    all: first [rewrite bool_decide_eq_true_2 // in Hnew;
                  destruct (law_new_initial _ _ _ _ laws _ _ _ _ Hinit Hnew) as (it3 & -> & ? & ?); simpl; by intros
               | idtac].
    all: rewrite bool_decide_eq_false_2 in Hnew;
      [|destruct (law_new_after _ _ _ _ laws _ _ _ _ _ _ Hnew Hr eq_refl) as (it3 & -> & ? & ?); simpl; by intros].
    all: intros He; apply (law_seq_nonempty _ _ _ _ laws); rewrite -He; apply list_elem_of_fmap; exists r;
      split; [done|]; by eapply list_elem_of_lookup_2.
Qed.

Lemma segment_cons n r records :
  r :: records = take (S (length records)) (drop n shard) →
  shard !! n = Some r ∧ records = take (length records) (drop (S n) shard) ∧ S n ≤ length shard.
Proof.
  intros Hseg. destruct (drop n shard) as [|r' rest] eqn:Hd; [done|]. simpl in Hseg. injection Hseg as <- Hrest.
  assert (shard !! n = Some r) as Hr by by rewrite -(Nat.add_0_r n) -lookup_drop Hd.
  split_and!; [done| |by apply lookup_lt_Some in Hr].
  rewrite {1}Hrest. f_equal. pose proof (drop_S shard _ n Hr) as Hd'. congruence.
Qed.

(** Closes the easy parts of what a round leads to. *)
Ltac solve_round :=
  repeat match goal with
         | |- _ ∧ _ => split
         | |- ∀ _, _ => intro
         end; try done; try (simpl in *; lia); try congruence; try set_solver.

Lemma processLoop_spec records n lastSeq size w w' tr lastSeq' size' err :
  processLoop env records lastSeq size w = (w', tr, lastSeq', size', err) →
  records = take (length records) (drop n shard) → n ≤ length shard →
  GetSequenceNumber env w = lastSeq → seq_at n lastSeq →
  ∃ m, m ≤ length records ∧ handled tr = take m records ∧ follows lastSeq tr ∧
    (err = None → size' = size + m ∧ seq_at (n + m) lastSeq' ∧ n + m ≤ length shard ∧
       GetSequenceNumber env w' = lastSeq' ∧ last_handled lastSeq tr = lastSeq' ∧
       GetCheckpointIterator env w' = (if m =? 0 then GetCheckpointIterator env w else ""%string) ∧
       (m < length records → ctx_done env w' = true)) ∧
    (∀ s, MarkedDone s ∉ tr).
Proof.
  revert n lastSeq size w w' tr lastSeq' size' err.
  induction records as [|r records IH]; intros n lastSeq size w w' tr lastSeq' size' err Hrun Hseg Hn Hs Hat; simpl in Hrun.
  { simplify_eq. exists 0. rewrite !Nat.add_0_r. solve_round. }
  destruct (segment_cons n r records Hseg) as (Hr & Hseg' & Hn').
  destruct (law_delay_checkpoint _ _ _ _ laws r w) as [Hds Hdi].
  destruct (ctx_done env (delayConsume env r w)) eqn:Hctx.
  { simplify_eq. exists 0. rewrite !Nat.add_0_r. solve_round. }
  destruct (handler env (r_data r) (delayConsume env r w)) as [w2 herr].
  change (default ""%string (r_seq r)) with (seq_of r) in Hrun.
  assert (seq_at (S n) (seq_of r)) as Hat' by (right; exists n, r; done).
  destruct (Advance env (seq_of r) "" w2) as [w3 [aerr|]] eqn:Hadv.
  { simplify_eq. exists 1. rewrite /= take_0. solve_round. }
  destruct (law_advance _ _ _ _ laws _ _ _ _ Hadv) as [Hs3 Hi3].
  destruct (ctx_done env w3) eqn:Hctx3.
  { simplify_eq. exists 1. rewrite /= take_0 Nat.add_1_r (Nat.add_1_r n). solve_round. }
  destruct (processLoop env records (seq_of r) (S size) w3) as [[[[w4 tr4] last4] size4] err4] eqn:Hrest.
  simplify_eq.
  destruct (IH _ _ _ _ _ _ _ _ _ Hrest Hseg' Hn' Hs3 Hat') as (m & Hm & Hhandled & Hfollows & Hok & Hnd).
  exists (S m). split_and!; simpl; [lia | by rewrite Hhandled | done | | set_solver].
  intros He. destruct (Hok He) as (-> & Hatm & Hle & Hsm & Hlast & Him & Hctxm).
  replace (n + S m) with (S n + m) by lia. split_and!; try done; [lia| |..].
  - rewrite -Hlast. unfold last_handled. simpl. rewrite last_cons. by destruct (last (handled tr4)).
  - rewrite Him Hi3. by destruct (m =? 0).
  - intros Hlt. apply Hctxm. lia.
Qed.

Lemma processRecords_spec records n lastSeq it w w' tr lastSeq' size' err :
  processRecords env records lastSeq it w = (w', tr, lastSeq', size', err) →
  records = take (length records) (drop n shard) → n ≤ length shard →
  GetSequenceNumber env w = lastSeq → seq_at n lastSeq → it_pos it n →
  (GetCheckpointIterator env w = ""%string ∨ it_pos (GetCheckpointIterator env w) n) →
  ∃ m, m ≤ length records ∧ handled tr = take m records ∧ follows lastSeq tr ∧ (∀ s, MarkedDone s ∉ tr) ∧
    (err = None → size' = m ∧ seq_at (n + m) lastSeq' ∧ n + m ≤ length shard ∧
       GetSequenceNumber env w' = lastSeq' ∧ last_handled lastSeq tr = lastSeq' ∧
       (GetCheckpointIterator env w' = ""%string ∨ it_pos (GetCheckpointIterator env w') (n + m)) ∧
       (m < length records → ctx_done env w' = true)).
Proof.
  unfold processRecords. intros Hrun Hseg Hn Hs Hat Hit Hci.
  destruct (Nat.eqb_spec (length records) 0) as [Hz|Hz].
  - apply nil_length_inv in Hz as ->. exists 0. rewrite Nat.add_0_r.
    destruct (Advance env lastSeq it w) as [w1 [aerr|]] eqn:Hadv; simplify_eq; [solve_round|].
    destruct (law_advance _ _ _ _ laws _ _ _ _ Hadv) as [Hs1 Hi1]. rewrite Hi1. solve_round.
  - destruct (processLoop_spec _ _ _ _ _ _ _ _ _ _ Hrun Hseg Hn Hs Hat) as (m & Hm & Hh & Hf & Hok & Hnd).
    exists m. split_and!; try done. intros He. destruct (Hok He) as (-> & ? & ? & ? & ? & Hi & ?).
    split_and!; try done. rewrite Hi. destruct (Nat.eqb_spec m 0) as [->|]; [by rewrite Nat.add_0_r | by left].
Qed.

Lemma getAndProcessRecords_spec n p w w' tr p' res :
  getAndProcessRecords env settings p w = (w', tr, p', res) → reader_at n p w → iterator p ≠ ""%string →
  ∃ m, handled tr = take m (drop n shard) ∧ follows (lastSequenceNumber p) tr ∧ (∀ s, MarkedDone s ∉ tr) ∧
    (∀ v, res = Ok v → length (handled tr) = m ∧ reader_at (n + m) p' w' ∧
       lastSequenceNumber p' = last_handled (lastSequenceNumber p) tr).
Proof.
  intros Hrun (Hn & Hat & Hs & Hci & _ & Hpos) Hne. specialize (Hpos Hne).
  unfold getAndProcessRecords, getRecords in Hrun.
  destruct (GetRecords env (iterator p) (MaxBatchSize settings) w) as [w1 [out|err]] eqn:Hget.
  - assert (it_pos (iterator p) n) as Hit.
    { destruct Hpos as [?|Hctx]; [done|]. by destruct (law_get_canceled _ _ _ _ laws _ _ _ _ _ Hget Hctx) as (? & ? & ?). }
    destruct (law_get _ _ _ _ laws _ _ _ _ _ _ Hget Hit) as (_ & Hrec & Hnext).
    destruct (law_get_checkpoint _ _ _ _ laws _ _ _ _ _ Hget) as [Hs1 Hi1].
    destruct (processRecords env (Records out) (lastSequenceNumber p) (iterator p) w1)
      as [[[[w2 tr2] last2] size2] err2] eqn:Hproc.
    destruct (processRecords_spec _ n _ _ _ _ _ _ _ _ Hproc Hrec Hn) as (m & Hm & Hh & Hf & Hnd & Hok);
      [congruence | done | done | by rewrite Hi1|].
    exists m. rewrite Hrec take_take Nat.min_l // in Hh.
    destruct err2 as [e|]; simplify_eq; [solve_round|]. destruct (Hok eq_refl) as (-> & Hat2 & Hle2 & Hs2 & Hl2 & Hci2 & Hctx2).
    split_and!; try done. intros v _. split_and!; [|repeat split; simpl; try done|done].
    + rewrite Hh length_take length_drop. lia.
    + destruct (Nat.eqb_spec m (length (Records out))) as [->|Hlt]; [|done].
      destruct (NextShardIterator out); simpl; [|done]. by destruct Hnext.
    + destruct (Nat.eqb_spec m (length (Records out))) as [->|Hlt].
      * destruct (NextShardIterator out); simpl; [|done]. intros _. left. by destruct Hnext.
      * intros _. right. apply Hctx2. lia.
  - exists 0. rewrite Nat.add_0_r. destruct (law_get_checkpoint _ _ _ _ laws _ _ _ _ _ Hget) as [Hs1 Hi1].
    change (errors_Is ExpiredIteratorException (EWrapped _ err)) with (errors_Is ExpiredIteratorException err) in Hrun.
    destruct (errors_Is ExpiredIteratorException err); [|simplify_eq; solve_round].
    destruct (getShardIterator env _ _ w1) as [w2 [it|err2]] eqn:Hnew; simplify_eq; [|solve_round].
    rewrite Hs1 Hi1 Hs in Hnew.
    destruct (getShardIterator_spec n _ _ _ _ _ Hnew Hn Hat Hci) as (Hs2 & Hi2 & Hend & Hit).
    split_and!; try done; [solve_round|]. intros v _. split_and!; [done | | done].
    rewrite /reader_at Hs2 Hi2 Hs1 Hi1 /=. split_and!; try done. intros He. left. by apply Hit.
Qed.

Lemma take_drop_app {A} (l : list A) n m k :
  take m (drop n l) ++ take k (drop (n + m) l) = take (m + k) (drop n l).
Proof.
  replace (drop (n + m) l) with (drop m (drop n l)) by (rewrite drop_drop; f_equal; lia).
  apply take_take_drop.
Qed.

Lemma iterate_spec fuel n p wait w w' tr p' res :
  iterate env settings fuel p wait w = (w', tr, p', res) → reader_at n p w →
  ∃ k, handled tr = take k (drop n shard) ∧ follows (lastSequenceNumber p) tr ∧
    (∀ s, MarkedDone s ∈ tr → n + k = length shard).
Proof.
  revert n p wait w w' tr p' res. induction fuel as [|fuel IH]; intros n p wait w w' tr p' res Hrun Hreader; simpl in Hrun.
  { simplify_eq. exists 0. solve_round. }
  pose proof Hreader as (Hn & Hat & Hs & Hci & Hend & Hpos).
  case_bool_decide as He.
  { exists 0. rewrite Nat.add_0_r. destruct (Done env (lastSequenceNumber p) w) as [w1 [err|]]; simplify_eq; [solve_round|].
    split_and!; [done | by simpl | intros; by apply Hend]. }
  destruct (timer_fired env wait w) as [w1 fired] eqn:Htimer.
  destruct (law_timer _ _ _ _ laws _ _ _ _ Htimer) as (Hs1 & Hi1 & Hctx1).
  destruct fired; [|simplify_eq; exists 0; solve_round].
  assert (reader_at n p w1) as Hreader1.
  { rewrite /reader_at Hs1 Hi1. split_and!; try done. intros _. destruct (Hpos He); auto. }
  destruct (getAndProcessRecords env settings p w1) as [[[w2 tr2] p2] [v|err]] eqn:Hround.
  - destruct (getAndProcessRecords_spec _ _ _ _ _ _ _ Hround Hreader1 He) as (m & Hh & Hf & Hnd & Hok).
    destruct (Hok v eq_refl) as (Hlen & Hreader2 & Hlast).
    destruct (iterate env settings fuel p2 v w2) as [[[w3 tr3] p3] res3] eqn:Hrest. simplify_eq.
    destruct (IH _ _ _ _ _ _ _ _ Hrest Hreader2) as (k & Hh3 & Hf3 & Hd3).
    exists (length (handled tr2) + k). rewrite handled_app Hh3. split_and!.
    + rewrite {1}Hh. apply take_drop_app.
    + rewrite follows_app -Hlast. done.
    + intros s [Hin|Hin]%elem_of_app; [by apply Hnd in Hin|]. rewrite Nat.add_assoc. by eapply Hd3.
  - destruct (getAndProcessRecords_spec _ _ _ _ _ _ _ Hround Hreader1 He) as (m & Hh & Hf & Hnd & _).
    simplify_eq. exists m. split_and!; try done. by intros s Hin%Hnd.
Qed.
End ReaderLemmas.

(** ** Properties *)

(** C6: A reader that starts at the position of its checkpoint, which names a record or, where
    the shard is read without a position, is a fixed initial position such as TRIM_HORIZON
    (not LATEST, which has no fixed place until the first record was handled), passes the
    records of the shard from there on to the handler, in their order, each once and without a gap,
    through all batches, new iterators and errors; the checkpoint always names the
    record handled last, and the shard is only marked as done after its last record. *)
Theorem reader_skips_nothing {W} (env : environment W) settings shard initial it_pos
    fuel iterator s0 n (w w' : W) tr res :
  reader_laws env shard initial it_pos →
  iterateRecords env settings fuel iterator s0 w = (w', tr, res) →
  n ≤ length shard → seq_at shard initial n s0 → GetSequenceNumber env w = s0 →
  iterator ≠ ""%string → it_pos iterator n →
  (GetCheckpointIterator env w = ""%string ∨ it_pos (GetCheckpointIterator env w) n) →
  ∃ k, handled tr = take k (drop n shard) ∧
    (∀ before s it after, tr = before ++ Advanced s it :: after → s = last_handled s0 before) ∧
    (∀ s, MarkedDone s ∈ tr → handled tr = drop n shard).
Proof.
  intros laws Hrun Hn Hat Hs Hne Hit Hci. unfold iterateRecords in Hrun.
  destruct (iterate _ _ _ _ _ _) as [[[w1 tr1] p1] res1] eqn:Hiter. simplify_eq.
  destruct (iterate_spec env settings shard initial it_pos laws fuel n _ _ _ _ _ _ _ Hiter) as (k & Hh & Hf & Hd).
  { split_and!; simpl; try done. intros _. by left. }
  exists k. split_and!; [done| |].
  - intros before s it after ->. apply follows_app in Hf as [_ Hf]. simpl in Hf. by destruct Hf.
  - intros s Hin. rewrite Hh take_ge // length_drop. specialize (Hd s Hin). lia.
Qed.

(** The release of a checkpoint the client owns leaves the shard without an owner
    at the position of the checkpoint, finished exactly when the checkpoint was done
    with its last sequence number, and replaces it by one that does nothing when it is
    released again. *)
Theorem releaseCheckpoint_correct {Tb} `{!DynamoTable CheckpointRecord Tb, !DynamoLaws CheckpointRecord Tb}
    now later c (tb : Tb) :
  poisoned c = false → owningClientId c ≠ ""%string →
  owned_by (owningClientId c) (db_get (shardId c) tb) = true →
  ∃ tb' r, releaseCheckpoint now Delivered Delivered (Real c) tb = Some (tb', Nop, None) ∧
    db_get (shardId c) tb' = Some r ∧ OwningClientId r = ""%string ∧
    SequenceNumber r = sequenceNumber c ∧ LastShardIterator r = shardIterator c ∧
    (FinishedAt r ≠ None ↔ finishedAt c ≠ None ∧
       (sequenceNumber c = finalSequenceNumber c ∨ finalSequenceNumber c = ""%string)) ∧
    (∀ net1 net2, releaseCheckpoint later net1 net2 Nop tb' = Some (tb', Nop, None)) ∧
    (∀ net1 net2 net3, persisterTick later net1 net2 net3 Nop tb' = Some (tb', Nop, None)).
Proof.
  intros Hp Hne Hown. unfold releaseCheckpoint, Persist. rewrite Hp. unfold PutItem.
  rewrite client_write_delivered Hown. cbn [checked]. unfold Release. rewrite Hp. unfold UpdateItem.
  rewrite client_write_delivered db_get_write. simpl. rewrite bool_decide_eq_true_2 //.
  eexists _, _. split_and!; [done | by rewrite db_get_write db_get_write | done..| | done | done]. simpl.
  destruct (decide (sequenceNumber c = finalSequenceNumber c)) as [Heq|Hneq].
  { rewrite (bool_decide_eq_false_2 (sequenceNumber c ≠ _)); [tauto|]. simpl. tauto. }
  rewrite (bool_decide_eq_true_2 (sequenceNumber c ≠ _)) //=.
  destruct (decide (finalSequenceNumber c = ""%string)) as [He|He].
  - rewrite bool_decide_eq_false_2; tauto.
  - rewrite bool_decide_eq_true_2 //. tauto.
Qed.

(** How far the shard is behind hardly ever makes the reader continue at once: the
    milliseconds of Kinesis are compared with nanoseconds, so a reader that is
    behind by up to a million times its wait time and delay still waits after every
    batch. *)
Theorem reader_waits_although_behind settings millisecondsBehind start now :
  (0 ≤ WaitTime settings)%Z → (0 ≤ ConsumeDelay settings)%Z →
  (WaitTime settings + ConsumeDelay settings < 2 ^ 63)%Z →
  (millisecondsBehind ≤ WaitTime settings + ConsumeDelay settings)%Z →
  nextWait settings millisecondsBehind start now = Z.max 0 (WaitTime settings - (now - start)).
Proof.
  intros Hw Hc Hmax Hle. unfold nextWait. rewrite int64_id; [lia|].
  by rewrite (proj2 (Z.ltb_ge _ _)); [lia|].
Qed.

(** ** Witnesses *)

Definition sample_records : list record :=
  [{| r_seq := Some "1"; r_data := "a" |}; {| r_seq := Some "2"; r_data := "b" |}; {| r_seq := Some "3"; r_data := "c" |}].

Definition sample_iterator (p : nat) : string := nth p ["i0"; "i1"; "i2"; "i3"] "".

Definition sample_position (it : string) : option nat :=
  if bool_decide (it = "i0") then Some 0 else if bool_decide (it = "i1") then Some 1
  else if bool_decide (it = "i2") then Some 2 else if bool_decide (it = "i3") then Some 3 else None.

(** The checkpoint as the world of a reader that is never canceled. *)
Definition sample_env : environment (string * string) := {|
  ctx_done _ := false;
  GetRecords it _ w := (w, match sample_position it with
    | None => Err (EValue ExpiredIteratorException)
    | Some p =>
        let out := take 2 (drop p sample_records) in
        Ok {| Records := out;
              NextShardIterator := if p + length out =? 3 then None else Some (sample_iterator (p + length out));
              MillisBehindLatest := 0 |}
    end);
  GetShardIterator start w := (w, Ok match start with
    | InitialPosition => Some "i0"
    | AfterSequenceNumber s => if bool_decide (s = "1") then Some "i1" else if bool_decide (s = "2") then Some "i2" else Some "i3"
    end);
  handler _ w := (w, None);
  delayConsume _ w := w;
  GetSequenceNumber w := w.1;
  GetCheckpointIterator w := w.2;
  Advance s it _ := ((s, it), None);
  Done _ w := (w, None);
  timer_fired _ w := (w, true);
  Now _ := 0%Z;
|}.

Lemma sample_env_laws : reader_laws sample_env sample_records (Some 0) (λ it p, sample_position it = Some p).
Proof.
  split; simpl; try done.
  - repeat (constructor; [by vm_compute; set_solver|]). constructor.
  - set_solver.
  - intros it limit w w' out p Hget Hp. rewrite Hp in Hget. injection Hget as _ <-.
    unfold sample_position in Hp. repeat case_bool_decide; simplify_eq; by vm_compute.
  - intros seq w w' it i r [= _ <-] Hi Hr. destruct i as [|[|[|i]]]; simplify_eq/=; by eexists.
  - intros w w' it n [= <-] [= _ <-]. by eexists.
  - intros seq it w w' [= <-]. done.
  - by intros it limit w w' r [= <- _].
  - by intros start w w' r [= <- _].
  - by intros wait w w' b [= <- _].
Qed.

Lemma reader_skips_nothing_witness :
  ∃ tr, iterateRecords sample_env {| MaxBatchSize := 2; WaitTime := 1; ConsumeDelay := 0 |} 5 "i1" "1" ("1", "") =
    (("3", ""), tr, Some None) ∧ handled tr = drop 1 sample_records.
Proof.
  eexists. split; [vm_compute; reflexivity|].
  destruct (reader_skips_nothing sample_env {| MaxBatchSize := 2; WaitTime := 1; ConsumeDelay := 0 |} sample_records (Some 0) _
    5 "i1" "1" 1 ("1", "") ("3", "")
    [Handled {| r_seq := Some "2"; r_data := "b" |}; Advanced "2" "";
     Handled {| r_seq := Some "3"; r_data := "c" |}; Advanced "3" ""; MarkedDone "3"]
    (Some None) sample_env_laws) as (k & _ & _ & Hdone).
  - vm_compute; reflexivity.
  - simpl; lia.
  - right. by exists 0, {| r_seq := Some "1"; r_data := "a" |}.
  - done.
  - done.
  - done.
  - by left.
  - apply (Hdone "3"). set_solver.
Defined.

Lemma releaseCheckpoint_correct_witness :
  ∃ tb r, releaseCheckpoint 0 Delivered Delivered (Real (KinesisCheckpoint.Advance "7" "" (acquired "A" "s" sample_record)).1)
      ({["s" := sample_record]} : gmap string CheckpointRecord) = Some (tb, Nop, None) ∧
    db_get "s" tb = Some r ∧ SequenceNumber r = "7".
Proof.
  destruct (releaseCheckpoint_correct 0 0 (KinesisCheckpoint.Advance "7" "" (acquired "A" "s" sample_record)).1
    ({["s" := sample_record]} : gmap string CheckpointRecord)) as (tb & r & Hrel & Hget & _ & Hseq & _);
    [done | done | reflexivity |].
  exists tb, r. split_and!; [exact Hrel | exact Hget | exact Hseq].
Defined.

(** Ten days behind, with the default wait time of a second. *)
Lemma reader_waits_although_behind_witness :
  nextWait {| MaxBatchSize := 10000; WaitTime := 1000000000; ConsumeDelay := 0 |} 864000000 0 0 = 1000000000%Z.
Proof.
  rewrite (reader_waits_although_behind {| MaxBatchSize := 10000; WaitTime := 1000000000; ConsumeDelay := 0 |}); simpl; lia.
Defined.
