(* ===== verification/KinesisWriter.v ===== *)
(** * pkg/cloud/aws/kinesis/record_writer.go: writing records to a stream

    PutRecords cuts the records into batches the service accepts, fills in missing
    partition keys and repeats what the service refused until everything of a batch
    is stored.  The records are pointers that the writer changes, so they live in a
    heap.  The client, the source of ids, the back-off and the clock are parameters;
    metrics and logging, and with them the reason of a failure, are left out. *)
From S2P Require Import Prelude Exec FunkSlice.

(** [pkg/cloud/aws/kinesis/record_writer.go:30-34] Record *)
Record record := {
  Data : string;
  PartitionKey : option string;
  ExplicitHashKey : option string;
}.

(** What a [*Record] points to. *)
Definition loc := nat.
Definition heap := gmap loc record.

(** A PutRecordsRequestEntry of the AWS SDK. *)
Record entry := { e_Data : string; e_PartitionKey : option string; e_ExplicitHashKey : option string }.

(** [pkg/cloud/aws/kinesis/record_writer.go:152-156] the entry for a record *)
Definition entry_of (rec : record) : entry := {|
  e_Data := Data rec;
  e_PartitionKey := PartitionKey rec;
  e_ExplicitHashKey := ExplicitHashKey rec;
|}.

(** [pkg/cloud/aws/kinesis/record_writer.go:23-23] kinesisBatchSizeMax *)
Definition kinesisBatchSizeMax : Z := 500.

(** ** What the writer calls

    The answer of the client has an error code, or none, for every entry. *)
Class WriterWorld (W : Type) := {
  client_PutRecords : list entry → W → W * result error (list (option string));
  NewV4 : W → W * string;
  Sleep : Z → W → W;
}.

Section Writer.
Context {W B : Type} `{!WriterWorld W} (NewExponentialBackOff : W → B) (NextBackOff : B → W → B * Z).
Implicit Types (w : W) (h : heap) (b : B).

(** [pkg/cloud/aws/kinesis/record_writer.go:228-240] the entries that were refused *)
Fixpoint failedOf (records : list entry) (i : nat) (outs : list (option string)) (failed : list entry) :
    result panic (list entry) :=
  match outs with
  | [] => Ok failed
  | None :: outs => failedOf records (S i) outs failed
  | Some _ :: outs =>
      match slice_get records (Z.of_nat i) with
      | Err p => Err p
      | Ok r => failedOf records (S i) outs (failed ++ [r])
      end
  end.

(** [pkg/cloud/aws/kinesis/record_writer.go:213-253] recordWriter.putRecordsAndCollectFailed *)
Definition putRecordsAndCollectFailed (records : list entry) w : W * result panic (result error (list entry)) :=
  match client_PutRecords records w with
  | (w, Err err) => (w, Ok (Err (EWrapped "can not execute PutRecordsRequest" err)))
  | (w, Ok outs) =>
      (w, match failedOf records 0 outs [] with Err p => Err p | Ok failed => Ok (Ok failed) end)
  end.

(** [pkg/cloud/aws/kinesis/record_writer.go:147-159] the entries of a batch, with
    new partition keys for records without a key *)
Fixpoint buildEntries (batch : list loc) (records : list entry) h w : W * heap * result panic (list entry) :=
  match batch with
  | [] => (w, h, Ok records)
  | l :: batch =>
      match h !! l with
      | None => (w, h, Err NilDereference)
      | Some rec =>
          let '(w, rec) :=
            match PartitionKey rec, ExplicitHashKey rec with
            | None, None =>
                let '(w, key) := NewV4 w in
                (w, {| Data := Data rec; PartitionKey := Some key; ExplicitHashKey := None |})
            | _, _ => (w, rec)
            end in
          buildEntries batch (records ++ [entry_of rec]) (<[l := rec]> h) w
      end
  end.

(** [pkg/cloud/aws/kinesis/record_writer.go:171-208] the loop of putRecordsBatch;
    with the requests that were sent, [None] when [fuel] requests were not enough *)
Fixpoint retryLoop (fuel : nat) (records : list entry) b w :
    option (W * list (list entry) * result panic (option error)) :=
  match fuel with
  | 0 => None
  | S fuel =>
      match putRecordsAndCollectFailed records w with
      | (w, Err p) => Some (w, [records], Err p)
      | (w, Ok (Err err)) => Some (w, [records], Ok (Some (EWrapped "can not write batch to stream" err)))
      | (w, Ok (Ok failed)) =>
          if length failed =? 0 then Some (w, [records], Ok None)
          else
            let '(b, sleep) := NextBackOff b w in
            match retryLoop fuel failed b (Sleep sleep w) with
            | None => None
            | Some (w, sent, res) => Some (w, records :: sent, res)
            end
      end
  end.

(** [pkg/cloud/aws/kinesis/record_writer.go:144-211] recordWriter.putRecordsBatch *)
Definition putRecordsBatch (fuel : nat) (batch : list loc) h w :
    option (W * heap * list (list entry) * result panic (option error)) :=
  match buildEntries batch [] h w with
  | (w, h, Err p) => Some (w, h, [], Err p)
  | (w, h, Ok records) =>
      let '(w, batchId) := NewV4 w in
      '(w, sent, res) ← retryLoop fuel records (NewExponentialBackOff w) w;
      Some (w, h, sent, res)
  end.

(** [pkg/cloud/aws/kinesis/record_writer.go:131-135] the loop of PutRecords *)
Fixpoint putChunks (fuel : nat) (cs : list (list loc)) (errs : list error) h w :
    option (W * heap * list (list entry) * result panic (list error)) :=
  match cs with
  | [] => Some (w, h, [], Ok errs)
  | chunk :: cs =>
      match putRecordsBatch fuel chunk h w with
      | None => None
      | Some (w, h, sent, Err p) => Some (w, h, sent, Err p)
      | Some (w, h, sent, Ok err) =>
          '(w, h, sent', res) ← putChunks fuel cs (errs ++ option_list err) h w;
          Some (w, h, sent ++ sent', res)
      end
  end.

(** [pkg/cloud/aws/kinesis/record_writer.go:118-142] recordWriter.PutRecords *)
Definition PutRecords (fuel : nat) (records : list loc) h w :
    option (W * heap * list (list entry) * result panic (option error)) :=
  if length records =? 0 then Some (w, h, [], Ok None)
  else
    let '(w, requestId) := NewV4 w in
    match Chunk records kinesisBatchSizeMax with
    | Err p => Some (w, h, [], Err p)
    | Ok cs =>
        '(w, h, sent, res) ← putChunks fuel (default [] cs) [] h w;
        Some (w, h, sent,
          match res with
          | Err p => Err p
          | Ok [] => Ok None
          | Ok errs => Ok (Some (EWrapped "can not put records to stream" (EMulti errs)))
          end)
    end.

(** [pkg/cloud/aws/kinesis/record_writer.go:114-116] recordWriter.PutRecord *)
Definition PutRecord (fuel : nat) (record : loc) h w := PutRecords fuel [record] h w.
End Writer.

(** ** What the stream stores *)

Definition accepted (records : list entry) (outs : list (option string)) : list entry :=
  (List.filter (λ p, match p.2 with None => true | Some _ => false end) (zip records outs)).*1.
Definition refused (records : list entry) (outs : list (option string)) : list entry :=
  (List.filter (λ p, match p.2 with None => false | Some _ => true end) (zip records outs)).*1.

(** The documented behaviour of PutRecords: an answer has one result for every
    record, in their order, and the records without an error code are stored; of a
    request that fails any part may have been stored. *)
Class WriterLaws (W : Type) `{!WriterWorld W} := {
  stored : W → list entry;
  put_answered records w w' outs :
    client_PutRecords records w = (w', Ok outs) →
    length outs = length records ∧ stored w' = stored w ++ accepted records outs;
  put_failed records w w' err :
    client_PutRecords records w = (w', Err err) →
    ∃ sub, sub `sublist_of` records ∧ stored w' = stored w ++ sub;
  NewV4_stored w : stored (NewV4 w).1 = stored w;
  Sleep_stored d w : stored (Sleep d w) = stored w;
}.

(** The service takes at least one record of every request it answers. *)
Definition makes_progress (W : Type) `{!WriterWorld W} : Prop :=
  ∀ records w w' outs, client_PutRecords records w = (w', Ok outs) →
    records ≠ [] → accepted records outs ≠ [].

Definition has_key (rec : record) : Prop := PartitionKey rec ≠ None ∨ ExplicitHashKey rec ≠ None.

(** What the writer does to the records: missing keys are filled in. *)
Definition fills (rec rec' : record) : Prop :=
  Data rec' = Data rec ∧ ExplicitHashKey rec' = ExplicitHashKey rec ∧ (has_key rec → rec' = rec).

Definition keeps (h h' : heap) : Prop :=
  ∀ l rec, h !! l = Some rec → ∃ rec', h' !! l = Some rec' ∧ fills rec rec'.

#[export] Instance fills_preorder : PreOrder fills.
Proof.
  split; [by intros rec|]. intros a b c (Hd & He & Hk) (Hd' & He' & Hk').
  repeat split; [congruence..|]. intros Ha. rewrite (Hk Ha) in Hk'. auto.
Qed.

#[export] Instance keeps_preorder : PreOrder keeps.
Proof.
  split; [by intros h l rec ->; exists rec|].
  intros h1 h2 h3 H12 H23 l rec [rec2 [[rec3 [H3 Hf]]%H23 Hf2]]%H12. exists rec3. split; [done | by etrans].
Qed.

(** The entries for the records that the pointers lead to. *)
Definition entries (h : heap) (ls : list loc) : list entry := omap (λ l, entry_of <$> h !! l) ls.

Definition keyed (h : heap) (l : loc) : Prop := ∃ rec, h !! l = Some rec ∧ has_key rec.

Lemma keyed_keeps h h' l : keeps h h' → keyed h l → keyed h' l ∧ h' !! l = h !! l.
Proof.
  intros Hk (rec & Hl & Hkey). destruct (Hk _ _ Hl) as (rec' & Hl' & _ & _ & Heq).
  rewrite (Heq Hkey) in Hl'. split; [by exists rec | congruence].
Qed.

Lemma entries_keeps h h' ls : keeps h h' → Forall (keyed h) ls → entries h' ls = entries h ls.
Proof.
  intros Hk. induction 1 as [|l ls Hl _ IH]; [done|].
  destruct (keyed_keeps _ _ _ Hk Hl) as [_ Heq]. unfold entries in *. csimpl. by rewrite Heq IH.
Qed.

Lemma accepted_refused records outs :
  length outs = length records → accepted records outs ++ refused records outs ≡ₚ records.
Proof.
  unfold accepted, refused. revert outs. induction records as [|r records IH]; intros [|o outs] Hlen; simplify_eq/=; [done|].
  destruct o; simpl; [|by rewrite IH]. by rewrite -Permutation_middle IH.
Qed.

Lemma failedOf_refused pre records outs failed :
  length outs = length records →
  failedOf (pre ++ records) (length pre) outs failed = Ok (failed ++ refused records outs).
Proof.
  revert pre outs failed. induction records as [|r records IH]; intros pre [|o outs] failed Hlen; simplify_eq/=;
    [by rewrite /refused /= app_nil_r|].
  specialize (IH (pre ++ [r]) outs). rewrite -app_assoc length_app Nat.add_1_r /= in IH.
  destruct o; [|by rewrite IH].
  rewrite (slice_get_Some _ _ r); [lia | by rewrite Nat2Z.id lookup_app_r // Nat.sub_diag|].
  by rewrite IH // -app_assoc.
Qed.

Section WriterLemmas.
Context {W : Type} `{!WriterWorld W, !WriterLaws W}.
Implicit Types (w : W) (h : heap).

Lemma putRecordsAndCollectFailed_spec records w w' res :
  putRecordsAndCollectFailed records w = (w', res) →
  ∃ sub, stored w' = stored w ++ sub ∧
    ((∃ err, res = Ok (Err err) ∧ sub ⊆+ records) ∨
     ∃ failed, res = Ok (Ok failed) ∧ sub ++ failed ≡ₚ records ∧
       (makes_progress W → records ≠ [] → length failed < length records)).
Proof.
  unfold putRecordsAndCollectFailed. destruct (client_PutRecords records w) as [w1 [outs|err]] eqn:Hput.
  - destruct (put_answered _ _ _ _ Hput) as [Hlen Hst]. rewrite (failedOf_refused [] records) // app_nil_l.
    intros [= <- <-]. exists (accepted records outs). split; [done|]. right. eexists. split; [done|].
    pose proof (accepted_refused _ _ Hlen) as Hp. split; [done|]. intros Hprog Hne.
    specialize (Hprog _ _ _ _ Hput Hne). apply Permutation_length in Hp. rewrite length_app in Hp.
    destruct (accepted records outs); simpl in *; [done | lia].
  - destruct (put_failed _ _ _ _ Hput) as (sub & Hsub & Hst). intros [= <- <-].
    exists sub. split; [done|]. left. eexists. split; [done | by apply sublist_submseteq].
Qed.

(** What became of a batch: part of it is stored, all of it when there is no error. *)
Definition delivered (records : list entry) w w' (err : option error) : Prop :=
  ∃ sub, stored w' ≡ₚ stored w ++ sub ∧ sub ⊆+ records ∧ (err = None → sub ≡ₚ records).

Lemma buildEntries_spec batch acc h w :
  Forall (λ l, is_Some (h !! l)) batch →
  ∃ w' h', buildEntries batch acc h w = (w', h', Ok (acc ++ entries h' batch)) ∧
    stored w' = stored w ∧ keeps h h' ∧ Forall (keyed h') batch.
Proof.
  revert acc h w. induction batch as [|l batch IH]; intros acc h w Hall; simpl.
  { exists w, h. rewrite app_nil_r. by repeat split. }
  apply Forall_cons in Hall as [[rec Hl] Hall]. rewrite Hl.
  set (rec' := match PartitionKey rec, ExplicitHashKey rec with
    | None, None => {| Data := Data rec; PartitionKey := Some (NewV4 w).2; ExplicitHashKey := None |}
    | _, _ => rec end).
  assert (∃ w1, match PartitionKey rec, ExplicitHashKey rec with
    | None, None => let '(w, key) := NewV4 w in
        (w, {| Data := Data rec; PartitionKey := Some key; ExplicitHashKey := None |})
    | _, _ => (w, rec) end = (w1, rec') ∧ stored w1 = stored w) as (w1 & -> & Hw1).
  { subst rec'. pose proof (NewV4_stored w). destruct (PartitionKey rec), (ExplicitHashKey rec); [by exists w..|].
    destruct (NewV4 w) as [w1 key]. by exists w1. }
  assert (fills rec rec' ∧ has_key rec') as [Hfill Hkey].
  { subst rec'. unfold fills, has_key.
    destruct (PartitionKey rec) eqn:Hpk, (ExplicitHashKey rec) eqn:Hek; rewrite /= ?Hpk ?Hek; naive_solver. }
  assert (keeps h (<[l := rec']> h)) as Hk.
  { intros k r Hkr. destruct (decide (k = l)) as [->|Hne].
    - exists rec'. rewrite lookup_insert_eq. split; [done|]. congruence.
    - exists r. by rewrite lookup_insert_ne. }
  destruct (IH (acc ++ [entry_of rec']) (<[l := rec']> h) w1) as (w' & h' & -> & Hst & Hk' & Hkeyed).
  { eapply Forall_impl; [done|]. intros k [r Hr]. destruct (Hk _ _ Hr) as (r' & -> & _). done. }
  exists w', h'. assert (keyed (<[l := rec']> h) l) as Hl'.
  { exists rec'. by rewrite lookup_insert_eq. }
  destruct (keyed_keeps _ _ _ Hk' Hl') as [Hlk Heq]. rewrite lookup_insert_eq in Heq.
  split; [by rewrite /entries /= Heq /= -app_assoc|]. split; [congruence|]. split; [by etrans | by constructor].
Qed.
End WriterLemmas.

Section RetryLoop.
Context {W B : Type} `{!WriterWorld W, !WriterLaws W} (NextBackOff : B → W → B * Z).
Implicit Types (w : W) (b : B).

Lemma retryLoop_spec fuel records b w w' sent res :
  retryLoop NextBackOff fuel records b w = Some (w', sent, res) →
  ∃ err, res = Ok err ∧ delivered records w w' err ∧ Forall (λ r, r ⊆+ records) sent.
Proof.
  revert records b w w' sent res. induction fuel as [|fuel IH]; intros records b w w' sent res; simpl; [done|].
  destruct (putRecordsAndCollectFailed records w) as [w1 r] eqn:Hput.
  destruct (putRecordsAndCollectFailed_spec _ _ _ _ Hput) as (sub & Hst & [(err & -> & Hsub)|(failed & -> & Hp & _)]).
  - intros [= <- <- <-]. eexists. split; [done|]. split; [|by constructor]. exists sub. by rewrite Hst.
  - case_match eqn:Hlen.
    + intros [= <- <- <-]. apply Nat.eqb_eq, nil_length_inv in Hlen as ->. rewrite app_nil_r in Hp.
      exists None. split; [done|]. split; [|by constructor]. exists sub. rewrite Hst. split; [done|].
      split; [by rewrite Hp | done].
    + destruct (NextBackOff b w1) as [b' d]. destruct (retryLoop _ _ _ _ _) as [[[w2 sent'] res']|] eqn:Hr; [|done].
      intros [= <- <- <-]. destruct (IH _ _ _ _ _ _ Hr) as (err & -> & (sub' & Hst' & Hsub' & Hall) & Hsent).
      exists err. split; [done|]. rewrite Sleep_stored Hst in Hst'. split.
      * exists (sub ++ sub'). split; [by rewrite Hst' -app_assoc|].
        rewrite -Hp. split; [by apply submseteq_app|]. intros Hn. by rewrite (Hall Hn).
      * constructor; [done|]. eapply Forall_impl; [done|]. intros r Hr'. etrans; [done|].
        rewrite -Hp. apply submseteq_inserts_l. done.
Qed.

Lemma retryLoop_terminates fuel records b w :
  makes_progress W → length records ≤ fuel → 0 < fuel → is_Some (retryLoop NextBackOff fuel records b w).
Proof.
  intros Hprog. revert records b w. induction fuel as [|fuel IH]; intros records b w Hlen Hpos; [lia|]. simpl.
  destruct (putRecordsAndCollectFailed records w) as [w1 r] eqn:Hput.
  destruct (putRecordsAndCollectFailed_spec _ _ _ _ Hput) as (sub & _ & [(err & -> & _)|(failed & -> & Hp & Hless)]); [done|].
  case_match eqn:Hz; [done|]. destruct (NextBackOff b w1) as [b' d].
  apply Nat.eqb_neq in Hz. assert (length failed ≤ fuel) as Hf.
  { destruct records as [|r records].
    - apply Permutation_length in Hp. rewrite length_app /= in Hp. lia.
    - specialize (Hless Hprog). simpl in *. assert (length failed < S (length records)) by (apply Hless; done). lia. }
  destruct (IH failed b' (Sleep d w1) Hf ltac:(lia)) as [[[w2 sent] res] ->]. done.
Qed.

End RetryLoop.

Definition allocated (h : heap) (l : loc) : Prop := is_Some (h !! l).

Lemma allocated_keeps h h' ls : keeps h h' → Forall (allocated h) ls → Forall (allocated h') ls.
Proof.
  intros Hk Hall. eapply Forall_impl; [done|]. intros l [rec Hl].
  destruct (Hk _ _ Hl) as (rec' & Hl' & _). by exists rec'.
Qed.

Lemma allocated_chunks_keeps h h' cs :
  keeps h h' → Forall (Forall (allocated h)) cs → Forall (Forall (allocated h')) cs.
Proof. intros Hk Hall. eapply Forall_impl; [done|]. intros ls. by apply allocated_keeps. Qed.

Lemma keyed_all_keeps h h' ls : keeps h h' → Forall (keyed h) ls → Forall (keyed h') ls.
Proof. intros Hk Hall. eapply Forall_impl; [done|]. intros l Hl. by apply (keyed_keeps h). Qed.

Lemma length_entries h ls : length (entries h ls) ≤ length ls.
Proof. unfold entries. induction ls as [|l ls IH]; csimpl; [done|]. destruct (h !! l); csimpl; lia. Qed.

Lemma entries_app h ls ks : entries h (ls ++ ks) = entries h ls ++ entries h ks.
Proof. apply omap_app. Qed.

Lemma Forall_mjoin_inv {A} (P : A → Prop) ls : Forall P (mjoin ls) → Forall (Forall P) ls.
Proof.
  induction ls as [|l ls IH]; simpl; [done|]. intros [Hl Hls]%Forall_app. constructor; auto.
Qed.

Lemma chunks_of_500 (ls : list loc) :
  ∃ cs, Chunk ls kinesisBatchSizeMax = Ok (Some cs) ∧ mjoin cs = ls ∧ Forall (λ c, length c ≤ 500) cs.
Proof.
  exists (chunks 500 ls). split; [by rewrite Chunk_chunks|].
  split; [apply concat_chunks; lia|]. apply Forall_lookup. intros j c Hc. eapply (chunks_bounds 500) in Hc as [_ Hc]; [done | lia].
Qed.

Section WriterBatches.
Context {W B : Type} `{!WriterWorld W, !WriterLaws W} (New : W → B) (NextBackOff : B → W → B * Z).
Implicit Types (w : W) (h : heap) (b : B).

Lemma putRecordsBatch_spec fuel batch h w w' h' sent res :
  Forall (allocated h) batch →
  putRecordsBatch New NextBackOff fuel batch h w = Some (w', h', sent, res) →
  ∃ err, res = Ok err ∧ keeps h h' ∧ Forall (keyed h') batch ∧ delivered (entries h' batch) w w' err ∧
    Forall (λ r, length r ≤ length batch) sent.
Proof.
  intros Hall. unfold putRecordsBatch.
  destruct (buildEntries_spec batch [] h w Hall) as (w1 & h1 & -> & Hst & Hk & Hkeyed). rewrite app_nil_l.
  pose proof (NewV4_stored w1) as Hid. destruct (NewV4 w1) as [w2 id]. simpl in Hid.
  destruct (retryLoop _ _ _ _ _) as [[[w3 sent'] res']|] eqn:Hr; [|done]. intros [= <- <- <- <-].
  destruct (retryLoop_spec _ _ _ _ _ _ _ _ Hr) as (err & -> & (sub & Hsub) & Hsent).
  exists err. split; [done|]. split; [done|]. split; [done|]. split.
  - exists sub. by rewrite -Hst -Hid.
  - eapply Forall_impl; [done|]. intros r Hle%submseteq_length. pose proof (length_entries h1 batch). lia.
Qed.

Lemma putRecordsBatch_terminates fuel batch h w :
  makes_progress W → Forall (allocated h) batch → length batch ≤ fuel → 0 < fuel →
  is_Some (putRecordsBatch New NextBackOff fuel batch h w).
Proof.
  intros Hprog Hall Hlen Hpos. unfold putRecordsBatch.
  destruct (buildEntries_spec batch [] h w Hall) as (w1 & h1 & -> & _). rewrite app_nil_l.
  destruct (NewV4 w1) as [w2 id]. pose proof (length_entries h1 batch).
  destruct (retryLoop_terminates NextBackOff fuel (entries h1 batch) (New w2) w2 Hprog) as [[[w3 sent] res] ->];
    [lia | done | done].
Qed.

Lemma putChunks_spec fuel cs errs h w w' h' sent res :
  Forall (Forall (allocated h)) cs →
  putChunks New NextBackOff fuel cs errs h w = Some (w', h', sent, res) →
  ∃ errs' sub, res = Ok (errs ++ errs') ∧ keeps h h' ∧ Forall (keyed h') (mjoin cs) ∧
    stored w' ≡ₚ stored w ++ sub ∧ sub ⊆+ entries h' (mjoin cs) ∧
    (errs' = [] → sub ≡ₚ entries h' (mjoin cs)) ∧
    Forall (λ r, Exists (λ c, length r ≤ length c) cs) sent.
Proof.
  revert errs h w w' h' sent res. induction cs as [|c cs IH]; intros errs h w w' h' sent res Hall; simpl.
  { intros [= <- <- <- <-]. exists [], []. rewrite !app_nil_r. split_and!; done. }
  apply Forall_cons in Hall as [Hc Hall].
  destruct (putRecordsBatch _ _ _ _ _ _) as [[[[w1 h1] sent1] res1]|] eqn:Hb; [|done].
  destruct (putRecordsBatch_spec _ _ _ _ _ _ _ _ Hc Hb) as (err & -> & Hk1 & Hkeyed1 & (sub1 & Hst1 & Hsub1 & Hdone1) & Hsent1).
  destruct (putChunks _ _ _ _ _ _ _) as [[[[w2 h2] sent2] res2]|] eqn:Hr; [|done]. intros [= <- <- <- <-].
  apply IH in Hr as (errs' & sub2 & -> & Hk2 & Hkeyed2 & Hst2 & Hsub2 & Hdone2 & Hsent2);
    [|by eapply allocated_chunks_keeps].
  exists (option_list err ++ errs'), (sub1 ++ sub2).
  rewrite app_assoc entries_app (entries_keeps h1 h2) //. split; [done|]. split; [by etrans|].
  split; [apply Forall_app; split; [by eapply keyed_all_keeps | done]|].
  split; [by rewrite Hst2 Hst1 app_assoc|]. split; [by apply submseteq_app|]. split.
  - intros [Hn ->]%app_eq_nil. destruct err; [done|]. by rewrite Hdone1 // Hdone2.
  - apply Forall_app. split; eapply Forall_impl; [done| |done|]; intros r Hr; by [left | right].
Qed.

Lemma putChunks_terminates fuel cs errs h w :
  makes_progress W → Forall (Forall (allocated h)) cs → Forall (λ c, length c ≤ fuel) cs → 0 < fuel →
  is_Some (putChunks New NextBackOff fuel cs errs h w).
Proof.
  intros Hprog. revert errs h w. induction cs as [|c cs IH]; intros errs h w Hall Hlen Hpos; simpl; [done|].
  apply Forall_cons in Hall as [Hc Hall]. apply Forall_cons in Hlen as [Hlc Hlen].
  destruct (putRecordsBatch_terminates fuel c h w Hprog Hc Hlc Hpos) as [[[[w1 h1] sent1] res1] Hb]. rewrite Hb.
  destruct (putRecordsBatch_spec _ _ _ _ _ _ _ _ Hc Hb) as (err & -> & Hk & _).
  destruct (IH (errs ++ option_list err) h1 w1) as [[[[w2 h2] sent2] res2] ->]; [by eapply allocated_chunks_keeps | done..].
Qed.

End WriterBatches.

(** C20: PutRecords stores every record exactly once when it returns no error, and
    none more than once in any case, whatever the service refuses or in which order
    records get through; missing partition keys are filled in and nothing else of the
    records changes; no request has more than 500 records; and it returns after at
    most 500 requests for every batch when the service takes at least one record of
    each request that it answers.  A stream stores the records of an answer that have
    no error code, and may store any part of a request that fails. *)
Theorem PutRecords_correct {W B} `{!WriterWorld W, !WriterLaws W} (New : W → B)
    (NextBackOff : B → W → B * Z) ls h (w : W) :
  Forall (allocated h) ls →
  (∀ fuel w' h' sent res, PutRecords New NextBackOff fuel ls h w = Some (w', h', sent, res) →
     ∃ err, res = Ok err ∧ keeps h h' ∧ Forall (keyed h') ls ∧
       delivered (entries h' ls) w w' err ∧ Forall (λ r, length r ≤ 500) sent) ∧
  (makes_progress W → ∀ fuel, 500 ≤ fuel → is_Some (PutRecords New NextBackOff fuel ls h w)).
Proof.
  intros Hall. unfold PutRecords. case_match eqn:Hz.
  { apply Nat.eqb_eq, nil_length_inv in Hz as ->. split; [|done].
    intros fuel w' h' sent res [= <- <- <- <-]. exists None. split; [done|]. split; [done|].
    split; [done|]. split; [|done]. exists []. by rewrite app_nil_r. }
  pose proof (NewV4_stored w) as Hid. destruct (NewV4 w) as [w1 id]. simpl in Hid.
  destruct (chunks_of_500 ls) as (cs & -> & Hcs & Hlen). simpl.
  assert (Forall (Forall (allocated h)) cs) as Hcall by (apply Forall_mjoin_inv; by rewrite Hcs). split.
  - intros fuel w' h' sent res.
    destruct (putChunks _ _ _ _ _ _ _) as [[[[w2 h2] sent2] res2]|] eqn:Hr; [|done]. intros [= <- <- <- <-].
    apply putChunks_spec in Hr as (errs & sub & -> & Hk & Hkeyed & Hst & Hsub & Hdone & Hsent); [|done].
    rewrite Hcs in Hkeyed Hsub Hdone. rewrite Hid in Hst.
    assert (Forall (λ r, length r ≤ 500) sent2) as Hs.
    { eapply Forall_impl; [done|]. intros r (c & Hc & Hr)%Exists_exists.
      rewrite Forall_forall in Hlen. specialize (Hlen c Hc). simpl in *. lia. }
    destruct errs; simpl; (eexists; split; [done|]; split_and!; [done..| |done]); exists sub; naive_solver.
  - intros Hprog fuel Hf.
    destruct (putChunks_terminates New NextBackOff fuel cs [] h w1 Hprog Hcall) as [[[[w2 h2] sent2] res2] ->]; [|lia|done].
    eapply Forall_impl; [exact Hlen|]. intros c Hc. cbv beta in *. lia.
Qed.

(** A service that answers but never takes a record: PutRecords does not return,
    whatever the back-off says, also when it says that no more time is left. *)
Lemma retryLoop_never_stops {W B} `{!WriterWorld W} (NextBackOff : B → W → B * Z) fuel records b (w : W) :
  records ≠ [] →
  (∀ records w, ∃ w', client_PutRecords records w = (w', Ok (replicate (length records) (Some "throttled")))) →
  retryLoop NextBackOff fuel records b w = None.
Proof.
  intros Hne Hthrottled. revert b w. induction fuel as [|fuel IH]; intros b w; simpl; [done|].
  unfold putRecordsAndCollectFailed. destruct (Hthrottled records w) as [w' ->].
  rewrite (failedOf_refused [] records) ?length_replicate // app_nil_l.
  assert (refused records (replicate (length records) (Some "throttled")) = records) as ->.
  { clear. unfold refused. induction records as [|r records IH]; simpl; [done|]. by f_equal. }
  case_match eqn:Hz; [by apply Nat.eqb_eq, nil_length_inv in Hz|].
  destruct (NextBackOff b w') as [b' d]. by rewrite IH.
Qed.

(** The writer never gives a batch up: as long as the service throttles all of it,
    PutRecords keeps sending requests, even when the back-off is configured with a
    maximum elapsed time and tells it to stop. *)
Theorem PutRecords_never_gives_up {W B} `{!WriterWorld W, !WriterLaws W} (New : W → B)
    (NextBackOff : B → W → B * Z) fuel ls h (w : W) :
  ls ≠ [] → Forall (allocated h) ls →
  (∀ records w, ∃ w', client_PutRecords records w = (w', Ok (replicate (length records) (Some "throttled")))) →
  PutRecords New NextBackOff fuel ls h w = None.
Proof.
  intros Hne Hall Hthrottled. unfold PutRecords. case_match eqn:Hz; [by apply Nat.eqb_eq, nil_length_inv in Hz|].
  destruct (NewV4 w) as [w1 id]. destruct (chunks_of_500 ls) as (cs & -> & Hcs & _). simpl.
  assert (Forall (Forall (allocated h)) cs) as Hcall by (apply Forall_mjoin_inv; by rewrite Hcs).
  assert (mjoin cs ≠ []) as Hcne by (by rewrite Hcs). clear Hcs. generalize ([] : list error) as errs. intros errs.
  assert (putChunks New NextBackOff fuel cs errs h w1 = None) as ->; [|done].
  revert errs h w1 Hcall Hall. induction cs as [|c cs IH]; intros errs h w1 Hcall Hall; [done|]. simpl.
  apply Forall_cons in Hcall as [Hc Hcall].
  destruct (putRecordsBatch New NextBackOff fuel c h w1) as [[[[w2 h2] sent] res]|] eqn:Hb; [|done].
  pose proof Hb as (err & -> & Hk & Hkeyed & _)%putRecordsBatch_spec; [|done].
  destruct c as [|l c].
  - rewrite IH //; [by eapply allocated_chunks_keeps | by eapply allocated_keeps].
  - exfalso. revert Hb. unfold putRecordsBatch.
    destruct (buildEntries_spec (l :: c) [] h w1 Hc) as (w3 & h3 & -> & _ & _ & Hk3). rewrite app_nil_l.
    destruct (NewV4 w3) as [w4 id']. rewrite retryLoop_never_stops //.
    apply Forall_cons in Hk3 as [(rec & Hrec & _) _]. by rewrite /entries /= Hrec.
Qed.

(** ** Witnesses

    A stream that takes the first record of a request and throttles the others. *)
#[local] Instance sample_world : WriterWorld (list entry) := {|
  client_PutRecords records w :=
    match records with
    | [] => (w, Ok [])
    | r :: rs => (w ++ [r], Ok (None :: replicate (length rs) (Some "throttled")))
    end;
  NewV4 w := (w, "id");
  Sleep d w := w;
|}.

Lemma accepted_throttled (rs : list entry) : accepted rs (replicate (length rs) (Some "throttled")) = [].
Proof. unfold accepted. induction rs; simpl; auto. Qed.

#[local] Instance sample_laws : WriterLaws (list entry).
Proof.
  refine {| stored w := w |}; [| |done|done].
  - intros [|r rs] w w' outs [= <- <-]; [by rewrite app_nil_r|]. simpl. rewrite length_replicate.
    split; [done|]. unfold accepted. simpl. f_equal. f_equal. exact (eq_sym (accepted_throttled rs)).
  - intros [|r rs] w w' err [=].
Defined.

Lemma sample_progress : makes_progress (list entry).
Proof. intros [|r rs] w w' outs [= <- <-] Hne; [done|]. unfold accepted. done. Qed.

Definition sample_heap : heap :=
  {[0 := {| Data := "a"; PartitionKey := None; ExplicitHashKey := None |};
    1 := {| Data := "b"; PartitionKey := Some "k"; ExplicitHashKey := None |}]}.

Lemma PutRecords_correct_witness :
  (∃ w h sent, PutRecords (λ _ : list entry, 0) (λ b _, (b, 0%Z)) 500 [0; 1; 0] sample_heap [] =
     Some (w, h, sent, Ok None) ∧ delivered (entries h [0; 1; 0]) [] w None ∧ length sent = 3) ∧
  is_Some (PutRecords (λ _ : list entry, 0) (λ b _, (b, 0%Z)) 500 [0; 1; 0] sample_heap []).
Proof.
  destruct (PutRecords_correct (λ _ : list entry, 0) (λ b _, (b, 0%Z)) [0; 1; 0] sample_heap []) as [Hspec Hterm].
  { repeat constructor; vm_compute; eauto. }
  split; [|apply Hterm; [exact sample_progress | lia]].
  set (r := PutRecords (λ _ : list entry, 0) (λ b _, (b, 0%Z)) 500 [0; 1; 0] sample_heap []).
  assert (∃ w h sent, r = Some (w, h, sent, Ok None) ∧ length sent = 3) as (w & h & sent & Hr & Hlen).
  { vm_compute. do 3 eexists. split; reflexivity. }
  destruct (Hspec _ _ _ _ _ Hr) as (err & Heq & _ & _ & Hd & _). injection Heq as <-.
  exists w, h, sent. exact (conj Hr (conj Hd Hlen)).
Defined.

(** A stream that throttles everything, with a back-off that says stop. *)
Definition throttling_world : WriterWorld unit := {|
  client_PutRecords records w := (w, Ok (replicate (length records) (Some "throttled")));
  NewV4 w := (w, "id");
  Sleep d w := w;
|}.

Definition throttling_laws : @WriterLaws unit throttling_world.
Proof.
  refine {| stored w := [] |}; [| |done|done].
  - intros rs w w' outs [= <- <-]. rewrite length_replicate. split; [done|]. by rewrite accepted_throttled.
  - intros rs w w' err [=].
Defined.

Lemma PutRecords_never_gives_up_witness :
  @PutRecords unit unit throttling_world (λ _, tt) (λ b _, (b, (-1)%Z)) 1000 [1] sample_heap tt = None.
Proof.
  apply (@PutRecords_never_gives_up unit unit throttling_world throttling_laws).
  - discriminate.
  - repeat constructor. vm_compute. eauto.
  - intros records []. exists tt. reflexivity.
Defined.
