(* ===== verification/Conc.v ===== *)
(** * pkg/conc: locks by key and values made on demand

    [KeyLock]: key_lock.go as a transition system, one statement of one goroutine
    per step; the entries are shared pointers, so that a goroutine may keep one that
    is no longer in the map.  [Lazy]: lazy.go with its check under the read lock and
    its second check under the write lock.  The mutexes are those of the standard
    library: a goroutine that locks one waits until it is free. *)
From S2P Require Import Prelude.

Module KeyLock.
Section KeyLock.
Context {K : Type} `{Countable K}.

(** A goroutine; a mutex is free or locked by one. *)
Definition goroutine := nat.
Definition mutex := option goroutine.

(** [pkg/conc/key_lock.go:20-23] entry *)
Record entry := { e_lock : mutex; refCount : Z }.

(** [pkg/conc/key_lock.go:15-18] keyLock, with the entries that were allocated *)
Record keyLock := { lck : mutex; entries : gmap K nat; heap : gmap nat entry }.

(** Where a goroutine is in Lock or in the function that Lock returns. *)
Inductive pc :=
| Looking (key : K)                 (* 34: lookup of the entry *)
| Counting (key : K) (e : nat)      (* 39: refCount++ *)
| Leaving (key : K) (e : nat)       (* 40: l.lck.Unlock() *)
| Waiting (key : K) (e : nat)       (* 42: lockEntry.Lock() *)
| Locked (key : K) (e : nat)        (* Lock has returned *)
| Uncounting (key : K) (e : nat)    (* 47: refCount-- *)
| Unlocking (key : K) (e : nat)     (* 48: lockEntry.Unlock() *)
| Cleaning (key : K) (e : nat)      (* 49: delete without users *)
| UnlockLeaving (key : K).          (* 53: l.lck.Unlock() *)

Record system := { lock : keyLock; pcs : gmap goroutine pc }.

Definition with_lck (m : mutex) (l : keyLock) : keyLock :=
  {| lck := m; entries := entries l; heap := heap l |}.

Definition with_entry (e : nat) (f : entry → entry) (l : keyLock) : keyLock :=
  {| lck := lck l; entries := entries l; heap := alter f e (heap l) |}.

Definition count_by (d : Z) (en : entry) : entry := {| e_lock := e_lock en; refCount := (refCount en + d)%Z |}.
Definition own (m : mutex) (en : entry) : entry := {| e_lock := m; refCount := refCount en |}.

(** [pkg/conc/key_lock.go:34-38] the entry of a key, a new one when there is none *)
Definition lookupEntry (key : K) (l : keyLock) : nat * keyLock :=
  match entries l !! key with
  | Some e => (e, l)
  | None =>
      let e := fresh (dom (heap l)) in
      (e, {| lck := lck l; entries := <[key := e]> (entries l);
             heap := <[e := {| e_lock := None; refCount := 0 |}]> (heap l) |})
  end.

(** [pkg/conc/key_lock.go:49-51] the entry is removed when nobody uses it *)
Definition cleanup (key : K) (e : nat) (l : keyLock) : keyLock :=
  match heap l !! e with
  | Some en =>
      if decide (refCount en = 0%Z)
      then {| lck := lck l; entries := delete key (entries l); heap := heap l |}
      else l
  | None => l
  end.

(** [pkg/conc/key_lock.go:32-55] keyLock.Lock and the function that it returns: the
    next statement of goroutine [t], which calls Lock for [key] when it is not in it;
    [None] when the goroutine has to wait *)
Definition next (t : goroutine) (key : K) (s : system) : option system :=
  let l := lock s in
  let goto l p := Some {| lock := l; pcs := <[t := p]> (pcs s) |} in
  match pcs s !! t with
  | None =>
      if decide (lck l = None) then goto (with_lck (Some t) l) (Looking key) else None
  | Some (Looking key) => let '(e, l) := lookupEntry key l in goto l (Counting key e)
  | Some (Counting key e) => goto (with_entry e (count_by 1) l) (Leaving key e)
  | Some (Leaving key e) => goto (with_lck None l) (Waiting key e)
  | Some (Waiting key e) =>
      if decide (e_lock <$> heap l !! e = Some None)
      then goto (with_entry e (own (Some t)) l) (Locked key e) else None
  | Some (Locked key e) =>
      if decide (lck l = None) then goto (with_lck (Some t) l) (Uncounting key e) else None
  | Some (Uncounting key e) => goto (with_entry e (count_by (-1)) l) (Unlocking key e)
  | Some (Unlocking key e) => goto (with_entry e (own None) l) (Cleaning key e)
  | Some (Cleaning key e) => goto (cleanup key e l) (UnlockLeaving key)
  | Some (UnlockLeaving key) => Some {| lock := with_lck None l; pcs := delete t (pcs s) |}
  end.

(** [pkg/conc/key_lock.go:25-30] NewKeyLock, which nobody uses yet *)
Definition NewKeyLock : system := {| lock := {| lck := None; entries := ∅; heap := ∅ |}; pcs := ∅ |}.

Definition step (s s' : system) : Prop := ∃ t key, next t key s = Some s'.

(** A goroutine holds the lock of a key: Lock has returned and the returned function
    has not yet let it go. *)
Definition holds (s : system) (t : goroutine) (key : K) : Prop :=
  ∃ e, pcs s !! t = Some (Locked key e) ∨ pcs s !! t = Some (Uncounting key e) ∨ pcs s !! t = Some (Unlocking key e).

(** A goroutine uses a key: it has called Lock and not yet finished unlocking. *)
Definition key_of (p : pc) : K :=
  match p with
  | Looking k | UnlockLeaving k => k
  | Counting k _ | Leaving k _ | Waiting k _ | Locked k _ | Uncounting k _ | Unlocking k _ | Cleaning k _ => k
  end.

(** ** The invariant *)

(** The goroutine has locked [lck]. *)
Definition inside (p : pc) : bool :=
  match p with Waiting _ _ | Locked _ _ => false | _ => true end.

(** The key and the entry that the goroutine works with. *)
Definition refers (p : pc) : option (K * nat) :=
  match p with
  | Looking _ | UnlockLeaving _ => None
  | Counting k e | Leaving k e | Waiting k e | Locked k e | Uncounting k e | Unlocking k e | Cleaning k e => Some (k, e)
  end.

(** The key for which the goroutine is counted. *)
Definition counted (p : pc) : option K :=
  match p with Leaving k _ | Waiting k _ | Locked k _ | Uncounting k _ => Some k | _ => None end.

(** The entry whose mutex the goroutine has locked. *)
Definition owns (p : pc) : option nat :=
  match p with Locked _ e | Uncounting _ e | Unlocking _ e => Some e | _ => None end.

Definition users (key : K) (ps : gmap goroutine pc) : nat :=
  size (filter (λ p : goroutine * pc, counted p.2 = Some key) ps).

Record inv (s : system) : Prop := {
  inv_inside t p : pcs s !! t = Some p → inside p = true ↔ lck (lock s) = Some t;
  inv_lck t : lck (lock s) = Some t → is_Some (pcs s !! t);
  inv_refers t p k e : pcs s !! t = Some p → refers p = Some (k, e) → entries (lock s) !! k = Some e;
  inv_entry k e : entries (lock s) !! k = Some e →
    (∃ en, heap (lock s) !! e = Some en ∧ refCount en = Z.of_nat (users k (pcs s))) ∧
    (0 < users k (pcs s) ∨ ∃ t p, pcs s !! t = Some p ∧ inside p = true ∧ refers p = Some (k, e));
  inv_owner t e : (e_lock <$> heap (lock s) !! e = Some (Some t)) ↔ ∃ p, pcs s !! t = Some p ∧ owns p = Some e;
  inv_inj k k' e : entries (lock s) !! k = Some e → entries (lock s) !! k' = Some e → k = k';
}.

(** ** Preservation *)
Implicit Types (ps : gmap goroutine pc) (s : system).

Definition contributes (key : K) (o : option pc) : nat :=
  match o with Some p => if decide (counted p = Some key) then 1 else 0 | None => 0 end.

Lemma users_delete key t ps : users key ps = users key (delete t ps) + contributes key (ps !! t).
Proof.
  unfold users. destruct (ps !! t) as [p|] eqn:Hp; simpl; [|by rewrite delete_id // Nat.add_0_r].
  rewrite -{1}(insert_delete_id ps t p Hp). case_decide as Hc.
  - rewrite map_filter_insert_True // map_size_insert_None; [|lia].
    by rewrite map_lookup_filter_None lookup_delete_eq; left.
  - rewrite map_filter_insert_False // delete_delete_eq. lia.
Qed.

(** The users of a key after one goroutine has moved on. *)
Lemma users_insert key t p ps :
  users key (<[t := p]> ps) + contributes key (ps !! t) = users key ps + contributes key (Some p).
Proof.
  rewrite (users_delete key t (<[t := p]> ps)) (users_delete key t ps) delete_insert_eq lookup_insert_eq. lia.
Qed.

Lemma users_pos key ps : 0 < users key ps ↔ ∃ t p, ps !! t = Some p ∧ counted p = Some key.
Proof.
  unfold users. split.
  - intros Hlt. destruct (map_choose (filter (λ p : goroutine * pc, counted p.2 = Some key) ps)) as (t & p & Hp).
    { intros He. rewrite He map_size_empty in Hlt. lia. }
    apply map_lookup_filter_Some in Hp as [Hp Hc]. by exists t, p.
  - intros (t & p & Hp & Hc). destruct (size _) eqn:Hz; [|lia]. apply map_size_empty_inv in Hz.
    assert (filter (λ p : goroutine * pc, counted p.2 = Some key) ps !! t = Some p) as Hf
      by by apply map_lookup_filter_Some.
    by rewrite Hz lookup_empty in Hf.
Qed.

(** What a step keeps when the goroutine [t] moves from [o] to [p] and only [lck] of
    the lock changes. *)
Lemma inv_moves s t o p m :
  inv s → pcs s !! t = o → refers p = (o ≫= refers) → counted p = (o ≫= counted) → owns p = (o ≫= owns) →
  (inside p = true ↔ m = Some t) → (∀ t', t' ≠ t → lck (lock s) = Some t' ↔ m = Some t') →
  (m = None → ∀ key e, refers p = Some (key, e) → is_Some (counted p)) →
  inv {| lock := with_lck m (lock s); pcs := <[t := p]> (pcs s) |}.
Proof.
  intros [Hin Hlck Href Hent Hown Hinj] Ho Hr Hc Hw Hi Hm Hcnt.
  assert (∀ key, users key (<[t := p]> (pcs s)) = users key (pcs s)) as Hus.
  { intros key. pose proof (users_insert key t p (pcs s)) as Hu. rewrite Ho in Hu. unfold contributes in Hu. rewrite Hc in Hu.
    destruct o as [p0|]; simpl in *; lia. }
  split; simpl.
  - intros t' p' [[<- <-]|[Hne Ht']]%lookup_insert_Some; [done|]. by rewrite -Hm // (Hin _ _ Ht').
  - intros t' Ht'. destruct (decide (t' = t)) as [->|Hne]; [by rewrite lookup_insert_eq|].
    rewrite lookup_insert_ne //. by apply Hlck, Hm.
  - intros t' p' k e [[<- <-]|[Hne Ht']]%lookup_insert_Some Hk; [|by eapply Href].
    rewrite Hr in Hk. destruct o as [p0|]; [|done]. by eapply Href.
  - intros k e He. rewrite Hus. destruct (Hent _ _ He) as [Hen [Hpos|(t' & p' & Ht' & Hi' & Hr')]];
      (split; [done|]); [by left|]. destruct (decide (t' = t)) as [->|Hne].
    + rewrite Ht' in Ho. subst o. simpl in *. destruct m as [u|].
      * right. exists t, p. rewrite lookup_insert_eq Hr. split; [done|]. split; [|done]. apply Hi.
        apply (Hin _ _ Ht') in Hi'. destruct (decide (u = t)) as [->|Hu]; [done|].
        pose proof (proj2 (Hm u Hu) eq_refl). congruence.
      * left. rewrite -Hus. apply users_pos. exists t, p. rewrite lookup_insert_eq. split; [done|].
        destruct (Hcnt eq_refl k e) as [k' Hk']; [by rewrite Hr|]. rewrite Hk'. f_equal.
        destruct p; simpl in *; congruence.
    + right. exists t', p'. by rewrite lookup_insert_ne.
  - intros t' e. rewrite Hown. split; intros (p' & Ht' & Hp'); (destruct (decide (t' = t)) as [->|Hne];
      [rewrite ?lookup_insert_eq | rewrite ?lookup_insert_ne //; eauto]).
    + exists p. split; [done|]. rewrite Hw. rewrite Ht' in Ho. by subst o.
    + rewrite lookup_insert_eq in Ht'. injection Ht' as <-. rewrite Hw in Hp'. destruct o as [p0|]; [|done]. eauto.
    + rewrite lookup_insert_ne // in Ht'. eauto.
  - done.
Qed.

Lemma with_entry_lookup e f (l : keyLock) e' :
  heap (with_entry e f l) !! e' = if decide (e' = e) then f <$> heap l !! e else heap l !! e'.
Proof.
  simpl. case_decide as He; [subst; by rewrite lookup_alter_eq | by rewrite lookup_alter_ne].
Qed.

(** What a step keeps when the goroutine [t] moves from [p0] to [p] and changes the
    entry it works with by [f]. *)
Lemma inv_entry_moves s t p0 p k e f :
  inv s → pcs s !! t = Some p0 → refers p0 = Some (k, e) → refers p = Some (k, e) → inside p = inside p0 →
  (∀ k', k' ≠ k → contributes k' (Some p) = contributes k' (Some p0)) →
  (∀ en, refCount (f en) + Z.of_nat (contributes k (Some p0)) = refCount en + Z.of_nat (contributes k (Some p)))%Z →
  (∀ en t', heap (lock s) !! e = Some en →
     e_lock (f en) = Some t' ↔ if decide (t' = t) then owns p = Some e else e_lock en = Some t') →
  (∀ e', e' ≠ e → owns p = Some e' ↔ owns p0 = Some e') →
  (inside p = true ∨ counted p = Some k) →
  inv {| lock := with_entry e f (lock s); pcs := <[t := p]> (pcs s) |}.
Proof.
  intros [Hin Hlck Href Hent Hown Hinj] Ht Hr0 Hr Hi Hother Hcount Howner Howns Huse.
  assert (∀ k', (users k' (<[t := p]> (pcs s)) + contributes k' (Some p0) =
                 users k' (pcs s) + contributes k' (Some p))) as Hus.
  { intros k'. rewrite -Ht. apply users_insert. }
  pose proof (Href _ _ _ _ Ht Hr0) as He.
  split; cbn [lock pcs].
  - intros t' p' [[<- <-]|[Hne Ht']]%lookup_insert_Some; [rewrite Hi; by apply Hin | by apply Hin].
  - intros t' Ht'. destruct (decide (t' = t)) as [->|Hne]; [by rewrite lookup_insert_eq|].
    rewrite lookup_insert_ne //. by apply Hlck.
  - intros t' p' k' e' [[<- <-]|[Hne Ht']]%lookup_insert_Some Hk; [|by eapply Href].
    rewrite Hr in Hk. by simplify_eq.
  - intros k' e' He'. rewrite with_entry_lookup. specialize (Hus k').
    destruct (Hent _ _ He') as [(en & Hen & Hcn) Hor]. destruct (decide (k' = k)) as [->|Hk].
    + replace e' with e in * by (simpl in He'; congruence). rewrite decide_True // Hen /=. split.
      * exists (f en). split; [done|]. specialize (Hcount en). lia.
      * destruct Huse as [Huse|Huse]; [right | left; apply users_pos]; exists t, p; by rewrite lookup_insert_eq.
    + assert (e' ≠ e) as Hne by (intros ->; by eapply Hk, Hinj).
      rewrite decide_False //. specialize (Hother _ Hk). split; [exists en; split; [done | lia]|].
      destruct Hor as [Hpos|(t' & p' & Ht' & Hi' & Hr')]; [left; lia|]. right. exists t', p'.
      rewrite lookup_insert_ne //. intros <-. congruence.
  - intros t' e'. destruct (Hent _ _ He) as [(en & Hen & _) _]. rewrite with_entry_lookup.
    assert ((∃ p', <[t := p]> (pcs s) !! t' = Some p' ∧ owns p' = Some e') ↔
      if decide (t' = t) then owns p = Some e' else ∃ p', pcs s !! t' = Some p' ∧ owns p' = Some e') as ->.
    { case_decide as Htt; [subst t'; rewrite lookup_insert_eq | by rewrite lookup_insert_ne].
      split; [by intros (p' & [= <-] & ?) | eauto]. }
    destruct (decide (e' = e)) as [->|Hne].
    + rewrite Hen /=. specialize (Howner en t' Hen). specialize (Hown t' e). rewrite Hen /= in Hown.
      rewrite (inj_iff Some) Howner. case_decide; [done|]. by rewrite -Hown (inj_iff Some).
    + rewrite Hown. case_decide as Htt; [subst t'; rewrite Howns //|done].
      split; [by intros (p' & Hp' & ?); simplify_eq | eauto].
  - done.
Qed.

(** [UnlockLeaving]: the goroutine leaves and unlocks [lck]. *)
Lemma inv_leaves s t key :
  inv s → pcs s !! t = Some (UnlockLeaving key) →
  inv {| lock := with_lck None (lock s); pcs := delete t (pcs s) |}.
Proof.
  intros [Hin Hlck Href Hent Hown Hinj] Ht.
  assert (∀ k, users k (delete t (pcs s)) = users k (pcs s)) as Hus.
  { intros k. rewrite (users_delete k t (pcs s)) Ht /=. lia. }
  assert (lck (lock s) = Some t) as Hl by by apply (Hin _ _ Ht).
  assert (∀ t' p', pcs s !! t' = Some p' → inside p' = true → t' = t) as Honly.
  { intros t' p' Ht' Hi. apply (Hin _ _ Ht') in Hi. congruence. }
  split; simpl.
  - intros t' p' [Hne Ht']%lookup_delete_Some. split; [|done]. intros Hi. by rewrite (Honly _ _ Ht' Hi) in Hne.
  - done.
  - intros t' p' k e [Hne Ht']%lookup_delete_Some. by eapply Href.
  - intros k e He. rewrite Hus. destruct (Hent _ _ He) as [Hen [Hpos|(t' & p' & Ht' & Hi' & Hr')]];
      (split; [done|]); [by left|]. pose proof (Honly _ _ Ht' Hi') as ->. by simplify_eq.
  - intros t' e. rewrite Hown. split; intros (p' & Ht' & Hp'); exists p'.
    + rewrite lookup_delete_ne //. intros <-. by simplify_eq.
    + by apply lookup_delete_Some in Ht' as [_ ?].
  - done.
Qed.

(** Nobody but the goroutine that has locked [lck] is inside. *)
Lemma inv_only_inside s t p t' p' :
  inv s → pcs s !! t = Some p → inside p = true → pcs s !! t' = Some p' → inside p' = true → t' = t.
Proof.
  intros Hinv Ht Hi Ht' Hi'. apply (inv_inside _ Hinv _ _ Ht) in Hi. apply (inv_inside _ Hinv _ _ Ht') in Hi'. congruence.
Qed.

Lemma users_other ps t p0 p k :
  ps !! t = Some p0 → contributes k (Some p) = contributes k (Some p0) → users k (<[t := p]> ps) = users k ps.
Proof. intros Ht Hc. pose proof (users_insert k t p ps) as Hu. rewrite Ht in Hu. lia. Qed.

Lemma uncounted_refers_inside p key e : refers p = Some (key, e) → counted p = Some key ∨ inside p = true.
Proof. destruct p; intros [=]; subst; auto. Qed.

Lemma owns_refers p e : owns p = Some e → ∃ k, refers p = Some (k, e).
Proof. destruct p; intros [=]; subst; eauto. Qed.

Lemma inv_looks s t key e l :
  inv s → pcs s !! t = Some (Looking key) → lookupEntry key (lock s) = (e, l) →
  inv {| lock := l; pcs := <[t := Counting key e]> (pcs s) |}.
Proof.
  intros Hinv Ht Hl.
  assert (lck l = lck (lock s) ∧ entries l !! key = Some e ∧
    (∀ k e', entries l !! k = Some e' → entries (lock s) !! k = Some e' ∨ k = key ∧ entries (lock s) !! key = None ∧
       e' = e ∧ heap (lock s) !! e = None ∧ heap l !! e = Some {| e_lock := None; refCount := 0 |}) ∧
    (∀ k e', entries (lock s) !! k = Some e' → entries l !! k = Some e' ∧ heap l !! e' = heap (lock s) !! e') ∧
    (∀ e', heap l !! e' = heap (lock s) !! e' ∨
       heap (lock s) !! e' = None ∧ heap l !! e' = Some {| e_lock := None; refCount := 0 |})) as
    (Hlck & He & Hnew & Hold & Hheap).
  { unfold lookupEntry in Hl. destruct (entries (lock s) !! key) as [e0|] eqn:Hk; injection Hl as <- <-; [naive_solver|].
    assert (heap (lock s) !! fresh (dom (heap (lock s))) = None) as Hf by apply not_elem_of_dom, is_fresh.
    simpl. rewrite !lookup_insert_eq. split_and!; [done|done|..].
    - intros k e' [[<- <-]|[Hne Hk']]%lookup_insert_Some; naive_solver.
    - intros k e' Hk'. destruct (inv_entry _ Hinv _ _ Hk') as [(en & Hen & _) _].
      rewrite !lookup_insert_ne; [intros <-; congruence | intros <-; congruence | done].
    - intros e'. destruct (decide (e' = fresh (dom (heap (lock s))))) as [->|Hd].
      + rewrite lookup_insert_eq. by right.
      + rewrite lookup_insert_ne //. by left. }
  assert (∀ k, users k (<[t := Counting key e]> (pcs s)) = users k (pcs s)) as Hus
    by (intros k; by eapply users_other).
  split; cbn [lock pcs].
  - rewrite Hlck. intros t' p' [[<- <-]|[Hne Ht']]%lookup_insert_Some; [by rewrite -(inv_inside _ Hinv _ _ Ht) | by apply Hinv].
  - rewrite Hlck. intros t' Ht'%(inv_lck _ Hinv). destruct (decide (t' = t)) as [->|Hne];
      [by rewrite lookup_insert_eq | by rewrite lookup_insert_ne].
  - intros t' p' k e' [[<- <-]|[Hne Ht']]%lookup_insert_Some Hk; [by simplify_eq/=|].
    by apply Hold, (inv_refers _ Hinv _ _ _ _ Ht').
  - intros k e' Hk. rewrite Hus. destruct (Hnew _ _ Hk) as [Hk'|(-> & Hno & -> & _ & Hen)].
    + destruct (Hold _ _ Hk') as [_ ->]. destruct (inv_entry _ Hinv _ _ Hk') as [Hen [Hpos|(t' & p' & Ht' & Hi & Hr)]];
        (split; [done|]); [by left|]. right. exists t', p'. rewrite lookup_insert_ne //. intros <-. by simplify_eq.
    + split.
      * eexists. split; [done|]. simpl. destruct (users key (pcs s)) eqn:Hz; [done|].
        destruct (proj1 (users_pos key (pcs s))) as (t' & p' & Ht' & Hc); [lia|].
        destruct (refers p') as [[k' e']|] eqn:Hr; [|by destruct p'].
        assert (k' = key) as -> by (destruct p'; simpl in *; congruence).
        by rewrite (inv_refers _ Hinv _ _ _ _ Ht' Hr) in Hno.
      * right. exists t, (Counting key e). by rewrite lookup_insert_eq.
  - intros t' e'. assert ((∃ p', <[t := Counting key e]> (pcs s) !! t' = Some p' ∧ owns p' = Some e') ↔
      ∃ p', pcs s !! t' = Some p' ∧ owns p' = Some e') as ->.
    { destruct (decide (t' = t)) as [->|Hne]; [rewrite lookup_insert_eq Ht | by rewrite lookup_insert_ne].
      split; intros (p' & Heq & Hp'); by simplify_eq. }
    rewrite -(inv_owner _ Hinv). by destruct (Hheap e') as [->|[-> ->]].
  - intros k k' e' Hk Hk'.
    destruct (Hnew _ _ Hk) as [Hk1|(Heq1 & _ & He1 & Hf & _)], (Hnew _ _ Hk') as [Hk2|(Heq2 & _ & He2 & Hf2 & _)];
      [by eapply (inv_inj _ Hinv) | | |congruence].
    + destruct (inv_entry _ Hinv _ _ Hk1) as [(en & Hen & _) _]. subst e'. congruence.
    + destruct (inv_entry _ Hinv _ _ Hk2) as [(en & Hen & _) _]. subst e'. congruence.
Qed.

Lemma inv_cleans s t key e :
  inv s → pcs s !! t = Some (Cleaning key e) →
  inv {| lock := cleanup key e (lock s); pcs := <[t := UnlockLeaving key]> (pcs s) |}.
Proof.
  intros Hinv Ht. pose proof (inv_refers _ Hinv _ _ _ _ Ht eq_refl) as He.
  destruct (inv_entry _ Hinv _ _ He) as [(en & Hen & Hcount) _].
  assert (lck (cleanup key e (lock s)) = lck (lock s) ∧ heap (cleanup key e (lock s)) = heap (lock s) ∧
    ∀ k e', entries (cleanup key e (lock s)) !! k = Some e' ↔
      entries (lock s) !! k = Some e' ∧ (k = key → 0 < users key (pcs s))) as (Hlck & Hheap & Hents).
  { unfold cleanup. rewrite Hen. case_decide as Hz; simpl; (split; [done|]; split; [done|]); intros k e'.
    - rewrite lookup_delete_Some. split; [intros [Hne ?]; split; [done|]; congruence|].
      intros [Hk Hpos]. split; [|done]. intros <-. specialize (Hpos eq_refl). lia.
    - split; [|tauto]. intros Hk. split; [done|]. intros _. lia. }
  assert (∀ k, users k (<[t := UnlockLeaving key]> (pcs s)) = users k (pcs s)) as Hus
    by (intros k; by eapply users_other).
  split; cbn [lock pcs].
  - rewrite Hlck. intros t' p' [[<- <-]|[Hne Ht']]%lookup_insert_Some; [by rewrite -(inv_inside _ Hinv _ _ Ht) | by apply Hinv].
  - rewrite Hlck. intros t' Ht'%(inv_lck _ Hinv). destruct (decide (t' = t)) as [->|Hne];
      [by rewrite lookup_insert_eq | by rewrite lookup_insert_ne].
  - intros t' p' k e' [[<- <-]|[Hne Ht']]%lookup_insert_Some Hk; [done|]. apply Hents.
    split; [by apply (inv_refers _ Hinv _ _ _ _ Ht')|]. intros ->. apply users_pos. exists t', p'. split; [done|].
    destruct (uncounted_refers_inside _ _ _ Hk) as [?|Hi]; [done|].
    by destruct Hne; eapply inv_only_inside.
  - intros k e' [Hk Hpos]%Hents. rewrite Hus Hheap. destruct (inv_entry _ Hinv _ _ Hk) as [Hen' [?|(t' & p' & Ht' & Hi & Hr)]];
      (split; [done|]); [by left|]. left.
    assert (t' = t) as -> by by eapply (inv_only_inside s t). simplify_eq/=. by apply Hpos.
  - intros t' e'. rewrite Hheap (inv_owner _ Hinv).
    destruct (decide (t' = t)) as [->|Hne]; [rewrite lookup_insert_eq Ht | by rewrite lookup_insert_ne].
    split; intros (p' & Heq & Hp'); by simplify_eq.
  - intros k k' e' [Hk _]%Hents [Hk' _]%Hents. by eapply (inv_inj _ Hinv).
Qed.

Lemma keyLock_inv_step s s' : inv s → step s s' → inv s'.
Proof.
  intros Hinv (t & key & Hn). unfold next in Hn. destruct (pcs s !! t) as [p|] eqn:Ht.
  2:{ case_decide as Hl; [|done]. injection Hn as <-. apply (inv_moves s t None); try done; simpl.
      - intros t' Hne. rewrite Hl. split; congruence. }
  destruct p as [k|k e|k e|k e|k e|k e|k e|k e|k].
  - destruct (lookupEntry k (lock s)) as [e l] eqn:Hl. injection Hn as <-. by apply (inv_looks s t k e l).
  - injection Hn as <-. apply (inv_entry_moves s t (Counting k e) (Leaving k e) k); try done; simpl.
    + intros k' Hne. by repeat case_decide; simplify_eq.
    + intros en. repeat case_decide; simplify_eq; lia.
    + intros en t' Hen. pose proof (inv_owner _ Hinv t e) as Ho. rewrite Hen Ht /= in Ho.
      case_decide as Htt; [|done]. subst t'. split; [|done]. intros Hlock. rewrite Hlock in Ho.
      by destruct (proj1 Ho eq_refl) as (p' & [= <-] & ?).
    + by left.
  - injection Hn as <-. apply (inv_moves s t (Some (Leaving k e))); try done; simpl.
    + intros t' Hne. rewrite (proj1 (inv_inside _ Hinv _ _ Ht) eq_refl). split; congruence.
  - case_decide as Hfree; [|done]. injection Hn as <-.
    apply (inv_entry_moves s t (Waiting k e) (Locked k e) k); try done; simpl.
    + intros en t' Hen. rewrite Hen /= in Hfree. injection Hfree as Hfree. rewrite Hfree.
      case_decide as Htt; [subst; done | split; congruence].
    + intros e' Hne. split; congruence.
    + by right.
  - case_decide as Hl; [|done]. injection Hn as <-. apply (inv_moves s t (Some (Locked k e))); try done; simpl.
    + intros t' Hne. rewrite Hl. split; congruence.
  - injection Hn as <-. apply (inv_entry_moves s t (Uncounting k e) (Unlocking k e) k); try done; simpl.
    + intros k' Hne. by repeat case_decide; simplify_eq.
    + intros en. repeat case_decide; simplify_eq; lia.
    + intros en t' Hen. pose proof (inv_owner _ Hinv t e) as Ho. rewrite Hen Ht /= in Ho.
      case_decide as Htt; [|done]. subst t'. split; [done|]. intros _.
      assert (Some (e_lock en) = Some (Some t)) as [=]; [|done]. apply Ho. by eexists.
    + by left.
  - injection Hn as <-. apply (inv_entry_moves s t (Unlocking k e) (Cleaning k e) k); try done; simpl.
    + intros en t' Hen. case_decide as Htt; [done|]. split; [done|]. intros Hlock.
      pose proof (inv_owner _ Hinv t e) as Ho. rewrite Hen Ht /= in Ho.
      destruct Htt. assert (Some (e_lock en) = Some (Some t)) as [=]; [|congruence]. apply Ho. by eexists.
    + intros e' Hne. split; congruence.
    + by left.
  - injection Hn as <-. by apply inv_cleans.
  - injection Hn as <-. by eapply inv_leaves.
Qed.

Lemma keyLock_inv_new : inv NewKeyLock.
Proof. split; simpl; try done; intros *; rewrite ?lookup_empty //=. split; [done|]. by intros (? & ? & ?). Qed.

Lemma keyLock_inv_reachable s : rtc step NewKeyLock s → inv s.
Proof. apply rtc_invariant; [apply keyLock_inv_step | apply keyLock_inv_new]. Qed.

Lemma holds_owns s t key : holds s t key → ∃ p e, pcs s !! t = Some p ∧ owns p = Some e ∧ refers p = Some (key, e).
Proof. intros (e & [H'|[H'|H']]); eauto. Qed.
End KeyLock.
Arguments pc : clear implicits.
Arguments system _ {_ _}.
Arguments keyLock _ {_ _}.

(** C11: At most one goroutine holds the lock of a key: however the goroutines
    interleave, Lock has returned for a key to no two of them that have not let it go
    again, also when entries are removed from the map and made anew in between. *)
Theorem keyLock_mutual_exclusion `{Countable K} (s : system K) t1 t2 key :
  rtc step NewKeyLock s → holds s t1 key → holds s t2 key → t1 = t2.
Proof.
  intros Hs%keyLock_inv_reachable (p1 & e1 & Ht1 & Ho1 & Hr1)%holds_owns (p2 & e2 & Ht2 & Ho2 & Hr2)%holds_owns.
  pose proof (inv_refers _ Hs _ _ _ _ Ht1 Hr1). pose proof (inv_refers _ Hs _ _ _ _ Ht2 Hr2).
  assert (e2 = e1) as -> by congruence.
  pose proof (proj2 (inv_owner _ Hs t1 e1) (ex_intro _ p1 (conj Ht1 Ho1))).
  pose proof (proj2 (inv_owner _ Hs t2 e1) (ex_intro _ p2 (conj Ht2 Ho2))). congruence.
Qed.

(** C39: The map of the lock is well formed in every state: it has an entry for
    exactly the keys some goroutine is working with, no two keys share an entry, the
    reference count of an entry is the number of goroutines that wait for it or hold
    it, and when no goroutine is in Lock nothing is left in the map. *)
Theorem keyLock_wellformed `{Countable K} (s : system K) :
  rtc step NewKeyLock s →
  (∀ key, is_Some (entries (lock s) !! key) ↔ ∃ t p e, pcs s !! t = Some p ∧ refers p = Some (key, e)) ∧
  (∀ key e, entries (lock s) !! key = Some e →
     ∃ en, heap (lock s) !! e = Some en ∧ refCount en = Z.of_nat (users key (pcs s))) ∧
  (∀ key key' e, entries (lock s) !! key = Some e → entries (lock s) !! key' = Some e → key = key') ∧
  (pcs s = ∅ → entries (lock s) = ∅ ∧ lck (lock s) = None).
Proof.
  intros Hs%keyLock_inv_reachable.
  assert (∀ key, is_Some (entries (lock s) !! key) ↔ ∃ t p e, pcs s !! t = Some p ∧ refers p = Some (key, e)) as Huse.
  { intros key. split.
    - intros [e He]. destruct (inv_entry _ Hs _ _ He) as [_ [(t & p & Ht & Hc)%users_pos|(t & p & Ht & _ & Hr)]].
      + exists t, p. destruct p; naive_solver.
      + by exists t, p, e.
    - intros (t & p & e & Ht & Hr). exists e. by eapply (inv_refers _ Hs). }
  split; [done|]. split; [intros key e He; by apply (inv_entry _ Hs)|]. split; [apply (inv_inj _ Hs)|].
  intros Hnone. split.
  - apply map_empty. intros key. destruct (entries (lock s) !! key) as [e|] eqn:He; [|done].
    destruct (proj1 (Huse key)) as (t & p & e' & Ht & _); [by exists e|]. by rewrite Hnone lookup_empty in Ht.
  - destruct (lck (lock s)) as [t|] eqn:Hl; [|done]. destruct (inv_lck _ Hs _ Hl) as [p Hp].
    by rewrite Hnone lookup_empty in Hp.
Qed.

(** A goroutine only has to wait for a goroutine that is inside one of the two
    short critical sections, and which then can go on, or for one that holds the
    lock of the same key: locks of different keys never block each other, and there is
    no deadlock as long as the holders of the locks unlock them. *)
Theorem keyLock_progress `{Countable K} (s : system K) t key :
  rtc step NewKeyLock s → next t key s = None →
  (∃ t', t' ≠ t ∧ lck (lock s) = Some t' ∧ ∀ key', is_Some (next t' key' s)) ∨
  (∃ t' key' e, t' ≠ t ∧ pcs s !! t = Some (Waiting key' e) ∧ holds s t' key').
Proof.
  intros Hs%keyLock_inv_reachable Hblocked.
  assert (∀ t', lck (lock s) = Some t' → ∀ key', is_Some (next t' key' s)) as Hgo.
  { intros t' Hl key'. destruct (inv_lck _ Hs _ Hl) as [p Hp].
    pose proof (proj2 (inv_inside _ Hs _ _ Hp) Hl) as Hi.
    unfold next. rewrite Hp. destruct p; try done. by destruct (lookupEntry _ _). }
  assert (lck (lock s) ≠ None → ∃ t', t' ≠ t ∧ lck (lock s) = Some t' ∧ ∀ key', is_Some (next t' key' s)) as Hlck.
  { intros Hl. destruct (lck (lock s)) as [t'|] eqn:Ht'; [|done]. exists t'. split; [|eauto].
    intros ->. destruct (Hgo _ eq_refl key) as [s' Hs']. congruence. }
  unfold next in Hblocked. destruct (pcs s !! t) as [p|] eqn:Ht; [|case_decide; [done | by left; apply Hlck]].
  destruct p as [k|k e|k e|k e|k e|k e|k e|k e|k]; try done.
  - by destruct (lookupEntry k (lock s)).
  - case_decide as Hfree; [done|]. right. pose proof (inv_refers _ Hs _ _ _ _ Ht eq_refl) as He.
    destruct (inv_entry _ Hs _ _ He) as [(en & Hen & _) _]. rewrite Hen /= in Hfree.
    destruct (e_lock en) as [t'|] eqn:Ho; [|done].
    destruct (proj1 (inv_owner _ Hs t' e)) as (p & Hp & Howns); [by rewrite Hen /= Ho|].
    destruct (owns_refers _ _ Howns) as [k' Hr]. pose proof (inv_refers _ Hs _ _ _ _ Hp Hr) as He'.
    pose proof (inv_inj _ Hs _ _ _ He He') as <-. exists t', k, e. split; [intros ->; rewrite Ht in Hp; by simplify_eq|].
    split; [done|]. exists e. destruct p; simplify_eq/=; auto.
  - case_decide; [done | by left; apply Hlck].
Qed.

(** Two goroutines and a key: the first has the lock, the second waits. *)
Definition sample_schedule : list (goroutine * string) :=
  [(1, "k"); (1, "k"); (1, "k"); (1, "k"); (1, "k"); (2, "k"); (2, "k"); (2, "k"); (2, "k")].

Definition sample_system : system string := 
  default NewKeyLock (run_all (λ '(t, key), next t key) sample_schedule NewKeyLock).

Lemma keyLock_sample_reachable : rtc step NewKeyLock sample_system.
Proof.
  apply (run_all_steps (λ '(t, key), next t key) step sample_schedule); [|by vm_compute].
  intros [t key] s s' Hn. by exists t, key.
Qed.

Lemma keyLock_mutual_exclusion_witness : holds sample_system 1 "k" ∧ ¬ holds sample_system 2 "k".
Proof.
  assert (holds sample_system 1 "k") as H1 by (exists 0; vm_compute; auto). split; [exact H1|]. intros H2.
  pose proof (keyLock_mutual_exclusion sample_system 1 2 "k" keyLock_sample_reachable H1 H2). discriminate.
Defined.

Lemma keyLock_wellformed_witness :
  ∃ en, heap (lock sample_system) !! 0 = Some en ∧ refCount en = 2%Z ∧ e_lock en = Some 1.
Proof.
  destruct (keyLock_wellformed sample_system keyLock_sample_reachable) as (_ & Hc & _).
  destruct (Hc "k" 0 eq_refl) as (en & Hen & Hcount). exists en. split; [exact Hen|]. split; [exact Hcount|].
  vm_compute in Hen. by injection Hen as <-.
Defined.

Lemma keyLock_progress_witness : next 2 "k" sample_system = None ∧ holds sample_system 1 "k".
Proof.
  assert (next 2 "k" sample_system = None) as Hn by (vm_compute; reflexivity). split; [exact Hn|].
  destruct (keyLock_progress sample_system 2 "k" keyLock_sample_reachable Hn)
    as [(t' & _ & Hl & _)|(t' & key' & e & Hne & Hw & Hh)]; [discriminate|].
  vm_compute in Hw. injection Hw as <- <-.
  exists 0. vm_compute. auto.
Defined.
End KeyLock.

Module Lazy.
Section Lazy.
Context {T ARG E W : Type} `{Zero T} (init : ARG → W → W * (T * option E)).

(** [pkg/conc/lazy.go:12-17] lazy *)
Record lazy := { val : T; set : bool }.

(** [pkg/conc/lazy.go:20-24] NewLazy *)
Definition NewLazy : lazy := {| val := zero; set := false |}.

(** [pkg/conc/lazy.go:27-34] what Get returns under the read lock, if anything *)
Definition peek (l : lazy) : option T := if set l then Some (val l) else None.

(** [pkg/conc/lazy.go:35-57] the rest of Get, under the write lock; with whether
    [init] was called *)
Definition fill (arg : ARG) (l : lazy) (w : W) : lazy * W * result E T * bool :=
  if set l then (l, w, Ok (val l), false)
  else
    let '(w, (v, err)) := init arg w in
    match err with
    | Some e => ({| val := v; set := false |}, w, Err e, true)
    | None => ({| val := v; set := true |}, w, Ok v, true)
    end.

(** A goroutine that has called Get: between its two locks, or returned. *)
Inductive pc := Between (arg : ARG) | Returned (r : result E T).

(** The lazy value, the results of the calls of [init] so far, the goroutines. *)
Record system := { value : lazy; world : W; inits : list (result E T); pcs : gmap nat pc }.
Implicit Types (s : system).

(** [pkg/conc/lazy.go:26-57] lazy.Get of goroutine [t], up to the next change of a lock *)
Definition get (t : nat) (arg : ARG) s : option system :=
  match pcs s !! t with
  | None =>
      let p := match peek (value s) with Some v => Returned (Ok v) | None => Between arg end in
      Some {| value := value s; world := world s; inits := inits s; pcs := <[t := p]> (pcs s) |}
  | Some (Between arg) =>
      let '(l, w, r, called) := fill arg (value s) (world s) in
      Some {| value := l; world := w; inits := if called then inits s ++ [r] else inits s;
              pcs := <[t := Returned r]> (pcs s) |}
  | Some (Returned _) => None
  end.

Definition step s s' : Prop := ∃ t arg, get t arg s = Some s'.
Definition start (w : W) : system := {| value := NewLazy; world := w; inits := []; pcs := ∅ |}.

Definition failed (r : result E T) : Prop := ∃ e, r = Err e.

Record inv s : Prop := {
  inv_set : set (value s) = true → ∃ errs, inits s = errs ++ [Ok (val (value s))] ∧ Forall failed errs;
  inv_unset : set (value s) = false → Forall failed (inits s);
  inv_returned t r : pcs s !! t = Some (Returned r) → r ∈ inits s;
}.

Lemma lazy_inv_step s s' : inv s → step s s' → inv s'.
Proof.
  intros [Hset Hunset Hret] (t & arg & Hg). unfold get in Hg.
  destruct (pcs s !! t) as [[arg'|]|] eqn:Ht; [|done|].
  - unfold fill in Hg. destruct (set (value s)) eqn:Hs.
    + injection Hg as <-. split; simpl; [by intros _; apply Hset | congruence |]. intros t' r [[<- [= <-]]|[Hne Hr]]%lookup_insert_Some; [|by eapply Hret].
      destruct (Hset eq_refl) as (errs & -> & _). apply elem_of_app. right. by apply list_elem_of_singleton.
    + destruct (init arg' (world s)) as [w [v [e|]]]; injection Hg as <-; split; simpl; try done.
      * intros _. apply Forall_app. split; [by apply Hunset|]. constructor; [by exists e | done].
      * intros t' r [[<- [= <-]]|[Hne Hr]]%lookup_insert_Some; apply elem_of_app; [right; by apply list_elem_of_singleton|].
        left. by eapply Hret.
      * intros _. exists (inits s). split; [done | by apply Hunset].
      * intros t' r [[<- [= <-]]|[Hne Hr]]%lookup_insert_Some; apply elem_of_app; [right; by apply list_elem_of_singleton|].
        left. by eapply Hret.
  - injection Hg as <-. split; simpl; [done..|]. intros t' r [[<- Hp]|[Hne Hr]]%lookup_insert_Some; [|by eapply Hret].
    unfold peek in Hp. destruct (set (value s)) eqn:Hs; [|done]. injection Hp as <-.
    destruct (Hset eq_refl) as (errs & -> & _). apply elem_of_app. right. by apply list_elem_of_singleton.
Qed.
End Lazy.
Arguments system : clear implicits.
Arguments lazy : clear implicits.

(** The value is made once and shared: whatever calls of Get are interleaved,
    [init] is not called again after it has succeeded, every Get that returns a value
    returns the one of that call, and a Get that returns an error returns one of a
    failed call. *)
Theorem lazy_init_once {T ARG E W} `{Zero T} (init : ARG → W → W * (T * option E)) (w : W) s :
  rtc (step init) (start w) s →
  (∃ errs, Forall failed errs ∧
     (inits s = errs ∨ ∃ v, inits s = errs ++ [Ok v] ∧ ∀ arg, peek (value s) = Some v ∧ fill init arg (value s) (world s) = (value s, world s, Ok v, false))) ∧
  (∀ t1 t2 v1 v2, pcs s !! t1 = Some (Returned (Ok v1)) → pcs s !! t2 = Some (Returned (Ok v2)) → v1 = v2) ∧
  (∀ t e, pcs s !! t = Some (Returned (Err e)) → Err e ∈ inits s).
Proof.
  intros Hr. assert (inv s) as [Hset Hunset Hret].
  { eapply rtc_invariant; [apply (lazy_inv_step init)| |exact Hr].
    split; simpl; [done | by constructor | intros t r; by rewrite lookup_empty]. }
  assert (∀ errs v v', Forall (λ r : result E T, failed r) errs → Ok v ∈ errs ++ [Ok v'] → v = v') as Hok.
  { intros errs v v' Hall [Hin|Hin%list_elem_of_singleton]%elem_of_app; [|by simplify_eq].
    rewrite Forall_forall in Hall. by destruct (Hall _ Hin). }
  split; [|split; [|intros t e; apply Hret]].
  - destruct (set (value s)) eqn:Hs.
    + destruct (Hset eq_refl) as (errs & Heq & Hall). exists errs. split; [done|]. right. exists (val (value s)).
      split; [done|]. intros arg. unfold peek, fill. by rewrite Hs.
    + exists (inits s). split; [by apply Hunset | by left].
  - intros t1 t2 v1 v2 H1%Hret H2%Hret. destruct (set (value s)) eqn:Hs.
    + destruct (Hset eq_refl) as (errs & Heq & Hall). rewrite Heq in H1 H2.
      by rewrite (Hok _ _ _ Hall H1) (Hok _ _ _ Hall H2).
    + specialize (Hunset eq_refl). rewrite Forall_forall in Hunset. by destruct (Hunset _ H1).
Qed.

(** An [init] that fails the first time, and three goroutines. *)
Definition sample_init (arg w : nat) : nat * (nat * option string) :=
  (S w, (arg + w, if decide (w = 0) then Some "down" else None)).
Definition sample_system : system nat nat string nat :=
  default (start 0) (run_all (λ '(t, arg), get sample_init t arg) [(1, 10); (2, 20); (3, 30); (1, 0); (2, 0); (3, 0)] (start 0)).

Lemma lazy_sample_reachable : rtc (step sample_init) (start 0) sample_system.
Proof.
  apply (run_all_steps (λ '(t, arg), get sample_init t arg) _ [(1, 10); (2, 20); (3, 30); (1, 0); (2, 0); (3, 0)]);
    [|by vm_compute].
  intros [t arg] s s' Hg. by exists t, arg.
Qed.

Lemma lazy_init_once_witness :
  pcs sample_system !! 2 = Some (Returned (Ok 21)) ∧ pcs sample_system !! 3 = Some (Returned (Ok 21)) ∧
  Err "down" ∈ inits sample_system.
Proof.
  destruct (lazy_init_once sample_init 0 _ lazy_sample_reachable) as (_ & Hsame & Hfailed).
  split; [vm_compute; reflexivity|]. split; [vm_compute; reflexivity|].
  apply (Hfailed 1 "down"). vm_compute. reflexivity.
Defined.
End Lazy.
