(* ===== verification/CircuitBreaker.v ===== *)
(** * pkg/http/circuit_breaker.go: the circuit breaker of the HTTP client

    After too many failures in a row requests are rejected, and only one per retry
    delay is tried.  The two counters are updated with atomics and without a lock, so
    the model is a transition system: a step is one atomic operation, one reading of
    the clock or the request itself, of one goroutine.  Logging is left out; the
    embedded client is a parameter of the steps, its answer. *)
From S2P Require Import Prelude Exec FunkSlice.

(** [pkg/http/circuit_breaker.go:14-19] CircuitBreakerSettings *)
Record CircuitBreakerSettings := {
  MaxFailures : Z;
  RetryDelay : Z;
  ExpectedStatuses : list Z;
}.

(** [pkg/http/circuit_breaker.go:27-37] circuitBreakerClient: its counters *)
Record circuitBreakerClient := { recentFailures : Z; nextRetryAt : Z }.

(** The answer of the embedded client: the status code, or an error. *)
Definition answer : Type := result error Z.

(** [pkg/http/circuit_breaker.go:21-21] CircuitIsOpenError *)
Definition CircuitIsOpenError : error := EValue 40.

Definition Millisecond : Z := 1000000.
(** [Time.UnixMilli] of a time and [Duration.Milliseconds], in nanoseconds. *)
Definition UnixMilli (t : Z) : Z := (t / Millisecond)%Z.
Definition Milliseconds (d : Z) : Z := Z.quot d Millisecond.

Definition request_canceled (err : error) : bool := IsRequestCanceled requestCancelChecks err.

Section Breaker.
Context (settings : CircuitBreakerSettings).

(** [pkg/http/circuit_breaker.go:126-136] circuitBreakerClient.isRemoteFailure *)
Definition isRemoteFailure (a : answer) : bool :=
  match a with
  | Err err => negb (request_canceled err)
  | Ok code =>
      if length (ExpectedStatuses settings) =? 0 then false
      else negb (Contains (λ x y, bool_decide (x = y)) (ExpectedStatuses settings) code)
  end.

(** Where a goroutine is in doRequest; [trial] is a request that was let through
    although the circuit is open. *)
Inductive pc :=
| LoadRetry                         (* 110: load of nextRetryAt *)
| ReadClock (retryAt : Z)           (* 111: now *)
| CompareAndSwap (retryAt now : Z)  (* 118 *)
| Perform (trial : bool)            (* 77: the request *)
| Succeeded (a : answer)            (* 81: reset of the counter *)
| Failed (a : answer)               (* 91: now *)
| StoreRetry (a : answer) (now : Z) (* 92: store of nextRetryAt *)
| CountFailure (a : answer)         (* 95: recentFailures + 1 *)
| Returned (a : answer).

(** The breaker, the time, the goroutines, and the clock readings of the trials that
    were let through, the last one first. *)
Record system := {
  breaker : circuitBreakerClient;
  time : Z;
  pcs : gmap nat pc;
  trials : list Z;
}.
Implicit Types (s : system).

Definition with_failures (n : Z) (b : circuitBreakerClient) := {| recentFailures := n; nextRetryAt := nextRetryAt b |}.
Definition with_retry (n : Z) (b : circuitBreakerClient) := {| recentFailures := recentFailures b; nextRetryAt := n |}.

(** [pkg/http/circuit_breaker.go:103-124] isCircuitOpen, until the request is rejected or performed *)
Definition isCircuitOpen (p : option pc) (b : circuitBreakerClient) (now : Z) : option (circuitBreakerClient * pc) :=
  match p with
  | None => Some (b, if (recentFailures b <? MaxFailures settings)%Z then Perform false else LoadRetry)
  | Some LoadRetry => Some (b, ReadClock (nextRetryAt b))
  | Some (ReadClock retryAt) =>
      Some (b, if (UnixMilli now <? retryAt)%Z then Returned (Err CircuitIsOpenError)
               else CompareAndSwap retryAt (UnixMilli now))
  | Some (CompareAndSwap retryAt now) =>
      Some (if decide (nextRetryAt b = retryAt)
            then (with_retry (now + Milliseconds (RetryDelay settings)) b, Perform true)
            else (b, Returned (Err CircuitIsOpenError)))
  | _ => None
  end.

(** [pkg/http/circuit_breaker.go:71-101] doRequest after isCircuitOpen *)
Definition doRequest (a : answer) (p : pc) (b : circuitBreakerClient) (now : Z) : option (circuitBreakerClient * pc) :=
  match p with
  | Perform _ =>
      Some (b, if isRemoteFailure a then Failed a
               else match a with
                    | Err err => if request_canceled err then Returned a else Succeeded a
                    | Ok _ => Succeeded a
                    end)
  | Succeeded a => Some (with_failures 0 b, Returned a)
  | Failed a => Some (b, StoreRetry a now)
  | StoreRetry a now => Some (with_retry (UnixMilli (now + RetryDelay settings)) b, CountFailure a)
  | CountFailure a => Some (with_failures (recentFailures b + 1) b, Returned a)
  | _ => None
  end.

(** The next step of goroutine [t], with the answer of the client for its request. *)
Definition next (t : nat) (a : answer) s : option system :=
  let p := pcs s !! t in
  '(b, p') ← match isCircuitOpen p (breaker s) (time s) with
             | Some r => Some r
             | None => p ≫= λ p, doRequest a p (breaker s) (time s)
             end;
  Some {| breaker := b; time := time s; pcs := <[t := p']> (pcs s);
          trials := match p, p' with
                    | Some (CompareAndSwap _ now), Perform true => now :: trials s
                    | _, _ => trials s
                    end |}.

(** A clock reading that a goroutine has not used yet, in nanoseconds. *)
Definition reading (p : pc) : option Z :=
  match p with StoreRetry _ now => Some now | _ => None end.

(** Time passes; a goroutine uses a clock reading within [lag]. *)
Inductive step (lag : Z) : system → system → Prop :=
| step_goroutine s s' t a : next t a s = Some s' → step lag s s'
| step_time s t :
    (time s ≤ t)%Z → (∀ g p r, pcs s !! g = Some p → reading p = Some r → t - r ≤ lag)%Z →
    step lag s {| breaker := breaker s; time := t; pcs := pcs s; trials := trials s |}.

(** [pkg/http/circuit_breaker.go:39-49] NewCircuitBreakerClientWithInterfaces *)
Definition NewCircuitBreakerClient (now : Z) : system :=
  {| breaker := {| recentFailures := 0; nextRetryAt := 0 |}; time := now; pcs := ∅; trials := [] |}.

(** A goroutine that runs alone, to the end of its request. *)
Fixpoint alone (fuel : nat) (t : nat) (a : answer) s : option system :=
  match fuel with
  | 0 => None
  | S fuel =>
      match pcs s !! t with
      | Some (Returned _) => Some s
      | _ => s ← next t a s; alone fuel t a s
      end
  end.

(** ** Lemmas *)

Definition spaced (lag later earlier : Z) : Prop :=
  (earlier + UnixMilli (RetryDelay settings - lag) ≤ later)%Z.

Record inv (lag : Z) s : Prop := {
  inv_reading t p r : pcs s !! t = Some p → reading p = Some r → (time s - lag ≤ r ≤ time s)%Z;
  inv_swap t retryAt now : pcs s !! t = Some (CompareAndSwap retryAt now) → (retryAt ≤ now ≤ UnixMilli (time s))%Z;
  inv_trials : match trials s with
    | [] => True
    | n :: _ => (n ≤ UnixMilli (time s))%Z ∧ spaced lag (nextRetryAt (breaker s)) n
    end;
  inv_sorted : Sorted (spaced lag) (trials s);
}.

Lemma UnixMilli_mono a b : (a ≤ b)%Z → (UnixMilli a ≤ UnixMilli b)%Z.
Proof. intros Hab. by apply Z.div_le_mono. Qed.

Lemma store_spaced lag n now t :
  (n ≤ UnixMilli t)%Z → (t - lag ≤ now)%Z → spaced lag (UnixMilli (now + RetryDelay settings)) n.
Proof.
  unfold spaced, UnixMilli, Millisecond. intros Hn Hnow.
  rewrite -Z.div_add_l //. apply Z.div_le_mono; [done|].
  pose proof (Z.mul_div_le t 1000000). lia.
Qed.

Lemma swap_spaced lag now :
  (0 ≤ lag)%Z → (0 ≤ RetryDelay settings)%Z → spaced lag (now + Milliseconds (RetryDelay settings)) now.
Proof.
  intros Hl Hd. unfold spaced, UnixMilli, Milliseconds. rewrite Z.quot_div_nonneg //.
  assert ((RetryDelay settings - lag) / Millisecond ≤ RetryDelay settings / Millisecond)%Z by (apply Z.div_le_mono; [done | lia]).
  lia.
Qed.

Lemma breaker_inv_start lag now : inv lag (NewCircuitBreakerClient now).
Proof. split; simpl; [| |done|constructor]; intros *; by rewrite lookup_empty. Qed.

(** A goroutine that moves from one place to another without a trial. *)
Lemma breaker_inv_goes lag s t p b :
  (0 ≤ lag)%Z → inv lag s →
  (∀ r, reading p = Some r → r = time s) →
  (∀ retryAt now, p = CompareAndSwap retryAt now → retryAt ≤ now ≤ UnixMilli (time s))%Z →
  (∀ n, (n ≤ UnixMilli (time s))%Z → spaced lag (nextRetryAt (breaker s)) n → spaced lag (nextRetryAt b) n) →
  inv lag {| breaker := b; time := time s; pcs := <[t := p]> (pcs s); trials := trials s |}.
Proof.
  intros Hlag [Hread Hswap Htr Hsort] Hr Hcas Hb. split; simpl.
  - intros g q r [[<- <-]|[_ Hg]]%lookup_insert_Some Hq; [rewrite (Hr _ Hq); lia | by eapply Hread].
  - intros g x y [[<- ->]|[_ Hg]]%lookup_insert_Some; [by apply Hcas | by eapply Hswap].
  - destruct (trials s); [done|]. destruct Htr. auto.
  - done.
Qed.

Lemma breaker_inv_step lag s s' :
  (0 ≤ lag)%Z → (0 ≤ RetryDelay settings)%Z → inv lag s → step lag s s' → inv lag s'.
Proof.
  intros Hlag Hd Hinv Hstep. revert Hinv. destruct Hstep as [s0 s' t a Hn|s0 u Htime Hfresh]; intros Hinv.
  - unfold next in Hn. destruct (pcs s0 !! t) as [p|] eqn:Ht; simpl in Hn.
    2:{ injection Hn as <-. apply breaker_inv_goes; try done; repeat case_match; naive_solver. }
    destruct p as [| r |r n|tr|b|b|b n|b|b]; simpl in Hn; try done.
    + injection Hn as <-. by apply breaker_inv_goes.
    + injection Hn as <-. apply breaker_inv_goes; try done; case_match eqn:Hlt; try done.
      intros x y [= <- <-]. apply Z.ltb_ge in Hlt. lia.
    + destruct (inv_swap _ _ Hinv _ _ _ Ht) as [Hle Hpast]. case_decide as Heq; injection Hn as <-; [|by apply breaker_inv_goes].
      destruct Hinv as [Hread Hswap Htr Hsort]. split; simpl.
      * intros g q x [[<- <-]|[_ Hg]]%lookup_insert_Some Hq; [done | by eapply Hread].
      * intros g x y [[<- [=]]|[_ Hg]]%lookup_insert_Some. by eapply Hswap.
      * split; [done | by apply swap_spaced].
      * constructor; [done|]. destruct (trials s0) as [|m ms]; constructor.
        destruct Htr as [_ Hsp]. unfold spaced in *. lia.
    + injection Hn as <-. apply breaker_inv_goes; try done; repeat case_match; naive_solver.
    + injection Hn as <-. by apply breaker_inv_goes.
    + injection Hn as <-. apply breaker_inv_goes; try done. by intros r [= <-].
    + injection Hn as <-. apply breaker_inv_goes; try done. intros m Hm _. simpl.
      eapply store_spaced; [done|]. by apply (inv_reading _ _ Hinv _ _ _ Ht).
    + injection Hn as <-. by apply breaker_inv_goes.
  - destruct Hinv as [Hread Hswap Htr Hsort]. split; simpl; [| | |done].
    + intros g p r Hg Hp. destruct (Hread _ _ _ Hg Hp). specialize (Hfresh _ _ _ Hg Hp). lia.
    + intros g x y Hg. pose proof (Hswap _ _ _ Hg). pose proof (UnixMilli_mono _ _ Htime). lia.
    + destruct (trials s0); [done|]. pose proof (UnixMilli_mono _ _ Htime). destruct Htr. split; [lia | done].
Qed.

(** The system when goroutine [t] is at [p] and the others are as in [s]. *)
Definition at_pc s t b p tr : system :=
  {| breaker := b; time := time s; pcs := <[t := p]> (pcs s); trials := tr |}.

Lemma alone_at fuel t a s b p tr b' p' :
  match isCircuitOpen (Some p) b (time s) with Some r => Some r | None => doRequest a p b (time s) end = Some (b', p') →
  (∀ r, p ≠ Returned r) →
  alone (S fuel) t a (at_pc s t b p tr) =
  alone fuel t a (at_pc s t b' p' match p, p' with CompareAndSwap _ now, Perform true => now :: tr | _, _ => tr end).
Proof.
  intros Hp Hne. assert (next t a (at_pc s t b p tr) = Some (at_pc s t b' p'
    match p, p' with CompareAndSwap _ now, Perform true => now :: tr | _, _ => tr end)) as Hn.
  { unfold next. cbn [at_pc pcs breaker time trials]. rewrite lookup_insert_eq. cbn [mbind option_bind].
    rewrite Hp. cbn [mbind option_bind]. unfold at_pc. by rewrite insert_insert_eq. }
  cbn [alone]. cbn [at_pc pcs]. rewrite lookup_insert_eq.
  destruct p; try (by edestruct Hne); unfold at_pc in Hn; by rewrite Hn.
Qed.

Lemma alone_returned fuel t a s b r tr : alone (S fuel) t a (at_pc s t b (Returned r) tr) = Some (at_pc s t b (Returned r) tr).
Proof. cbn. by rewrite lookup_insert_eq. Qed.

Lemma alone_first fuel t a s :
  pcs s !! t = None →
  alone (S fuel) t a s = alone fuel t a (at_pc s t (breaker s)
    (if (recentFailures (breaker s) <? MaxFailures settings)%Z then Perform false else LoadRetry) (trials s)).
Proof. intros Ht. cbn [alone]. rewrite Ht. unfold next. by rewrite Ht. Qed.

(** The checks of an open circuit, and the swap when nobody else was faster. *)
Lemma alone_open fuel t a s b tr :
  alone (S (S fuel)) t a (at_pc s t b LoadRetry tr) = alone fuel t a (at_pc s t b
    (if (UnixMilli (time s) <? nextRetryAt b)%Z then Returned (Err CircuitIsOpenError)
     else CompareAndSwap (nextRetryAt b) (UnixMilli (time s))) tr).
Proof. do 2 (erewrite alone_at; [|reflexivity|done]). by case_match. Qed.

Lemma alone_swaps fuel t a s b now tr :
  alone (S fuel) t a (at_pc s t b (CompareAndSwap (nextRetryAt b) now) tr) =
  alone fuel t a (at_pc s t (with_retry (now + Milliseconds (RetryDelay settings)) b) (Perform true) (now :: tr)).
Proof. erewrite alone_at; [|simpl; by rewrite decide_True|done]. done. Qed.

(** The request itself and what follows it. *)
Lemma alone_performs fuel t a s b tr l :
  alone (S (S (S (S (S fuel))))) t a (at_pc s t b (Perform tr) l) = Some (at_pc s t
    (if isRemoteFailure a
     then {| recentFailures := recentFailures b + 1; nextRetryAt := UnixMilli (time s + RetryDelay settings) |}
     else match a with Ok _ => {| recentFailures := 0; nextRetryAt := nextRetryAt b |} | Err _ => b end)
    (Returned a) l).
Proof.
  erewrite alone_at; [|reflexivity|done]. destruct (isRemoteFailure a) eqn:Hf.
  - do 3 (erewrite alone_at; [|reflexivity|done]). apply alone_returned.
  - destruct a as [code|err].
    + erewrite alone_at; [|reflexivity|done]. apply alone_returned.
    + simpl in Hf. apply negb_false_iff in Hf. rewrite Hf. apply alone_returned.
Qed.
End Breaker.

(** C30: While the circuit is open the remote side is tried at most once in every
    retry delay: however the goroutines interleave, the clock readings of two requests
    that were let through although there were too many failures are at least the retry
    delay apart, less the time for which a goroutine can be suspended between reading
    the clock and storing the next retry. *)
Theorem circuit_trials_spaced settings lag now s :
  (0 ≤ lag)%Z → (0 ≤ RetryDelay settings)%Z →
  rtc (step settings lag) (NewCircuitBreakerClient now) s →
  Sorted (spaced settings lag) (trials s).
Proof.
  intros Hlag Hd Hr. apply (inv_sorted settings lag).
  eapply rtc_invariant; [|apply breaker_inv_start|exact Hr]. intros x y Hx Hxy. by eapply breaker_inv_step.
Qed.

(** A request on its own: with too many failures and before the next retry it is
    rejected without reaching the remote side and nothing changes; otherwise it is
    performed, a success resets the failures, a failure is counted and moves the next
    retry one delay into the future, a canceled request does neither, and a request
    that is let through while the circuit is open moves the next retry first. *)
Theorem doRequest_correct settings t a s :
  pcs s !! t = None →
  let b := breaker s in
  let ends b' r tr := alone settings 9 t a s =
    Some {| breaker := b'; time := time s; pcs := <[t := Returned r]> (pcs s); trials := tr |} in
  let performed b' tr :=
    if isRemoteFailure settings a
    then ends {| recentFailures := recentFailures b' + 1; nextRetryAt := UnixMilli (time s + RetryDelay settings) |} a tr
    else match a with
         | Ok _ => ends {| recentFailures := 0; nextRetryAt := nextRetryAt b' |} a tr
         | Err _ => ends b' a tr
         end in
  if decide (recentFailures b < MaxFailures settings)%Z then performed b (trials s)
  else if decide (UnixMilli (time s) < nextRetryAt b)%Z then ends b (Err CircuitIsOpenError) (trials s)
  else performed {| recentFailures := recentFailures b;
                    nextRetryAt := UnixMilli (time s) + Milliseconds (RetryDelay settings) |}
                 (UnixMilli (time s) :: trials s).
Proof.
  intros Ht b ends performed. subst b.
  pose proof (alone_first settings 8 t a s Ht) as Hfirst.
  assert (∀ b' tr l, alone settings 9 t a s = alone settings 5 t a (at_pc s t b' (Perform tr) l) → performed b' l) as Hperf.
  { intros b' tr l Heq. rewrite (alone_performs settings 0) in Heq. subst performed ends. cbv beta. rewrite Heq.
    unfold at_pc. by destruct (isRemoteFailure settings a), a. }
  case_decide as Hmax.
  - rewrite (proj2 (Z.ltb_lt _ _) Hmax) in Hfirst. apply (Hperf (breaker s) false).
    rewrite Hfirst. etrans; [apply (alone_performs settings 3) | symmetry; apply (alone_performs settings 0)].
  - rewrite (proj2 (Z.ltb_ge (recentFailures (breaker s)) (MaxFailures settings)) ltac:(lia)) in Hfirst.
    rewrite alone_open in Hfirst. case_decide as Hnow.
    + rewrite (proj2 (Z.ltb_lt _ _) Hnow) in Hfirst. subst ends. cbv beta. rewrite Hfirst. apply alone_returned.
    + rewrite (proj2 (Z.ltb_ge (UnixMilli (time s)) (nextRetryAt (breaker s))) ltac:(lia)) alone_swaps in Hfirst.
      exact (Hperf _ _ _ Hfirst).
Qed.

(** ** Witnesses *)

Definition sample_settings : CircuitBreakerSettings :=
  {| MaxFailures := 1; RetryDelay := 60000 * Millisecond; ExpectedStatuses := [] |}.

(** A request fails at once, two more are tried a minute later and of those one is let
    through. *)
Definition sample_steps : list (nat * answer + Z) :=
  let fails (t : nat) := inl (t, Err (EValue 99)) in
  replicate 5 (fails 1) ++ [inr (60000 * Millisecond)%Z] ++
  [fails 2; fails 3; fails 2; fails 3; fails 2; fails 3; fails 2; fails 3].

Definition sample_next (l : nat * answer + Z) (s : system) : option system :=
  match l with
  | inl (t, a) => next sample_settings t a s
  | inr u =>
      if decide ((time s ≤ u)%Z ∧ map_Forall (λ _ p, reading p = None) (pcs s))
      then Some {| breaker := breaker s; time := u; pcs := pcs s; trials := trials s |} else None
  end.

Definition sample_system : system :=
  default (NewCircuitBreakerClient 0) (run_all sample_next sample_steps (NewCircuitBreakerClient 0)).

Lemma breaker_sample_reachable : rtc (step sample_settings 0) (NewCircuitBreakerClient 0) sample_system.
Proof.
  apply (run_all_steps sample_next _ sample_steps); [|by vm_compute].
  intros [[t a]|u] s s' Hn; simpl in Hn; [by eapply step_goroutine|].
  case_decide as Hd; [|done]. injection Hn as <-. destruct Hd as [Hu Hall].
  apply step_time; [done|]. intros g p r Hg Hr. specialize (Hall _ _ Hg). simpl in Hall. congruence.
Qed.

Lemma circuit_trials_spaced_witness :
  trials sample_system = [60000%Z] ∧ pcs sample_system !! 3 = Some (Returned (Err CircuitIsOpenError)) ∧
  Sorted (spaced sample_settings 0) (trials sample_system).
Proof.
  split; [vm_compute; reflexivity|]. split; [vm_compute; reflexivity|].
  apply (circuit_trials_spaced sample_settings 0 0); [lia | vm_compute; discriminate | exact breaker_sample_reachable].
Defined.

Lemma doRequest_correct_witness :
  alone sample_settings 9 7 (Ok 200%Z)
    {| breaker := {| recentFailures := 3; nextRetryAt := 5 |}; time := 4 * Millisecond; pcs := ∅; trials := [] |} =
  Some {| breaker := {| recentFailures := 3; nextRetryAt := 5 |}; time := 4 * Millisecond;
          pcs := {[7 := Returned (Err CircuitIsOpenError)]}; trials := [] |}.
Proof.
  exact (doRequest_correct sample_settings 7 (Ok 200%Z)
    {| breaker := {| recentFailures := 3; nextRetryAt := 5 |}; time := 4 * Millisecond; pcs := ∅; trials := [] |} eq_refl).
Defined.
