(* ===== verification/Scheduler.v ===== *)
(** * pkg/conc/scheduler/scheduler.go: jobs that run in batches

    Callers put jobs into a queue and wait for their results, one goroutine makes
    batches of the jobs, others run the batches and send the results.  The model is a
    transition system: a step is one operation on a channel, one signal, one call of
    the batch runner, which is a parameter, or the end of a period of the ticker.
    Channels are lists; a send waits while the channel is full.  The batch timeout is
    positive: the ticker panics on any other.  Metrics are left out, and providers are
    passed on unseen. *)
From S2P Require Import Prelude.

Section Scheduler.
Context {T P E : Type} `{Zero T} (maxBatchSize runnerCount : nat).

(** [pkg/conc/scheduler/scheduler.go:33-37] job; the caller stands for its result channel *)
Record job := { key : string; provider : P; caller : nat }.

(** [pkg/conc/scheduler/scheduler.go:28-31] result *)
Definition job_result : Type := result E T.

(** What the batch runner returns for a batch. *)
Definition answer : Type := result E (gmap string T).

(** createBatches: in its select, sending a batch, sending the last batch, or done. *)
Inductive batcher := Selecting | Sending | SendingLast | Closed.

(** executeBatches of one goroutine: waiting for a batch, running one, sending the
    results of one, or done. *)
Inductive runner :=
| Idle
| Running (batch : list job)
| Delivering (results : list (job * job_result))
| Ended.

(** The ticker of createBatches: whether it runs and whether a tick is in its
    channel.  Reset starts it and Stop ends it, and both drop a tick that was not read. *)
Record ticker_state := { active : bool; ticked : bool }.

Definition ticker_Reset : ticker_state := {| active := true; ticked := false |}.
Definition ticker_Stop : ticker_state := {| active := false; ticked := false |}.

(** [pkg/conc/scheduler/scheduler.go:45-54] scheduler, with the batch that is being
    formed, the channels and the goroutines; what was scheduled, the results that were
    received and the batches that were run *)
Record system := {
  workQueue : list job;
  currentBatch : list job;
  create : batcher;
  ticker : ticker_state;
  batchQueue : list (list job);
  runners : list runner;
  scheduled : list job;
  received : list (job * job_result);
  answers : list (list job * answer);
}.

(** [pkg/conc/scheduler/scheduler.go:105-135] scheduler.Run: the goroutines that it
    starts, on the empty queue of NewSchedulerWithSettings (73-84), with the stopped
    ticker of createBatches *)
Definition Run : system := {|
  workQueue := []; currentBatch := []; create := Selecting; ticker := ticker_Stop; batchQueue := [];
  runners := replicate runnerCount Idle; scheduled := []; received := []; answers := [];
|}.

Implicit Types (s : system) (j : job).

Definition with_create (wq cur : list job) (c : batcher) (tk : ticker_state) (bq : list (list job)) s : system := {|
  workQueue := wq; currentBatch := cur; create := c; ticker := tk; batchQueue := bq; runners := runners s;
  scheduled := scheduled s; received := received s; answers := answers s;
|}.

Definition with_runner (r : nat) (x : runner) (bq : list (list job)) (rec : list (job * job_result))
    (ans : list (list job * answer)) s : system := {|
  workQueue := workQueue s; currentBatch := currentBatch s; create := create s; ticker := ticker s; batchQueue := bq;
  runners := <[r := x]> (runners s); scheduled := scheduled s; received := rec; answers := ans;
|}.

(** [pkg/conc/scheduler/scheduler.go:89-93] ScheduleJob puts its job into the queue *)
Definition ScheduleJob j s : option system :=
  if decide (length (workQueue s) < runnerCount ∧ caller j ∉ (caller <$> scheduled s))
  then Some {| workQueue := workQueue s ++ [j]; currentBatch := currentBatch s; create := create s; ticker := ticker s;
               batchQueue := batchQueue s; runners := runners s; scheduled := scheduled s ++ [j];
               received := received s; answers := answers s |}
  else None.

(** What wakes the select of createBatches up. *)
Inductive signal := CtxDone | Tick | Job.

(** [pkg/conc/scheduler/scheduler.go:138-171] the select of createBatches; a tick can
    only be received when there is one *)
Definition createBatches (sig : signal) s : option system :=
  match create s, sig with
  | Selecting, CtxDone =>
      Some (if 0 <? length (currentBatch s)
            then with_create (workQueue s) (currentBatch s) SendingLast (ticker s) (batchQueue s) s
            else with_create (workQueue s) (currentBatch s) Closed ticker_Stop (batchQueue s) s)
  | Selecting, Tick =>
      if ticked (ticker s) then
        Some (if 0 <? length (currentBatch s)
              then with_create (workQueue s) (currentBatch s) Sending
                     {| active := active (ticker s); ticked := false |} (batchQueue s) s
              else with_create (workQueue s) (currentBatch s) Selecting ticker_Stop (batchQueue s) s)
      else None
  | Selecting, Job =>
      match workQueue s with
      | [] => None
      | j :: rest =>
          let cur := currentBatch s ++ [j] in
          let tk := if length cur =? 1 then ticker_Reset else ticker s in
          Some (with_create rest cur (if length cur =? maxBatchSize then Sending else Selecting) tk (batchQueue s) s)
      end
  | _, _ => None
  end.

(** A period of the running ticker is over; its channel holds one tick. *)
Definition period s : option system :=
  if active (ticker s) && negb (ticked (ticker s))
  then Some (with_create (workQueue s) (currentBatch s) (create s) {| active := true; ticked := true |} (batchQueue s) s)
  else None.

(** [pkg/conc/scheduler/scheduler.go:127-173] the sends of createBatches, after which
    the ticker is stopped and a new batch begins or the channel is closed *)
Definition flush s : option system :=
  if decide (length (batchQueue s) < runnerCount) then
    match create s with
    | Sending => Some (with_create (workQueue s) [] Selecting ticker_Stop (batchQueue s ++ [currentBatch s]) s)
    | SendingLast => Some (with_create (workQueue s) [] Closed ticker_Stop (batchQueue s ++ [currentBatch s]) s)
    | _ => None
    end
  else None.

(** [pkg/conc/scheduler/scheduler.go:180-192] the results for the jobs of a batch *)
Definition results_of (batch : list job) (a : answer) : list (job * job_result) :=
  match a with
  | Err e => (λ j, (j, Err e)) <$> batch
  | Ok m => (λ j, (j, Ok (default zero (m !! key j)))) <$> batch
  end.

(** [pkg/conc/scheduler/scheduler.go:175-196] executeBatches of goroutine [r]: the next
    step, with the answer of the batch runner *)
Definition executeBatches (r : nat) (a : answer) s : option system :=
  match runners s !! r with
  | Some Idle =>
      match batchQueue s, create s with
      | batch :: rest, _ => Some (with_runner r (Running batch) rest (received s) (answers s) s)
      | [], Closed => Some (with_runner r Ended [] (received s) (answers s) s)
      | [], _ => None
      end
  | Some (Running batch) =>
      Some (with_runner r (Delivering (results_of batch a)) (batchQueue s) (received s) (answers s ++ [(batch, a)]) s)
  | Some (Delivering []) => Some (with_runner r Idle (batchQueue s) (received s) (answers s) s)
  | Some (Delivering (res :: rest)) =>
      Some (with_runner r (Delivering rest) (batchQueue s) (received s ++ [res]) (answers s) s)
  | _ => None
  end.

(** The steps of the scheduler itself, and those of its callers. *)
Inductive label := LSignal (sig : signal) | LPeriod | LFlush | LRunner (r : nat) (a : answer).

Definition next (l : label) s : option system :=
  match l with
  | LSignal sig => createBatches sig s
  | LPeriod => period s
  | LFlush => flush s
  | LRunner r a => executeBatches r a s
  end.

Inductive step s s' : Prop :=
| step_call j : ScheduleJob j s = Some s' → step s s'
| step_next l : next l s = Some s' → step s s'.

(** ** Where the jobs are *)

Definition jobs_of (x : runner) : list job :=
  match x with Running batch => batch | Delivering results => results.*1 | _ => [] end.

Definition jobs_in s : list job :=
  workQueue s ++ currentBatch s ++ mjoin (batchQueue s) ++ mjoin (jobs_of <$> runners s) ++ (received s).*1.

(** A result is the one of a batch with the job that was run. *)
Definition justified (ans : list (list job * answer)) (jr : job * job_result) : Prop :=
  ∃ batch a, (batch, a) ∈ ans ∧ jr ∈ results_of batch a.

Definition results_in (x : runner) : list (job * job_result) :=
  match x with Delivering results => results | _ => [] end.

Definition fits (batch : list job) : Prop := 0 < length batch ≤ maxBatchSize.

Definition running_fits (x : runner) : Prop :=
  match x with Running batch => fits batch | _ => True end.

Record inv s : Prop := {
  inv_jobs : jobs_in s ≡ₚ scheduled s;
  inv_callers : NoDup (caller <$> scheduled s);
  inv_queue : Forall fits (batchQueue s);
  inv_running : Forall running_fits (runners s);
  inv_answers : Forall (λ ba, fits ba.1) (answers s);
  inv_results : Forall (justified (answers s)) (mjoin (results_in <$> runners s) ++ received s);
  inv_current : match create s with
    | Selecting => length (currentBatch s) < maxBatchSize
    | Sending | SendingLast => fits (currentBatch s)
    | Closed => currentBatch s = []
    end;
  inv_ticker : create s = Selecting → currentBatch s ≠ [] → active (ticker s) = true;
  inv_runners : length (runners s) = runnerCount;
  inv_ended : create s ≠ Closed → Forall (λ x, x ≠ Ended) (runners s);
}.

(** ** Preservation *)

Lemma mjoin_insert {A B} (f : A → list B) (l : list A) r x y :
  l !! r = Some x → f x ++ mjoin (f <$> <[r := y]> l) ≡ₚ f y ++ mjoin (f <$> l).
Proof.
  intros Hr. rewrite -{2}(take_drop_middle l r x Hr) insert_take_drop; [by eapply lookup_lt_Some|].
  rewrite !fmap_app !fmap_cons !join_app /=. solve_Permutation.
Qed.

Lemma justified_app ans ba jr : justified ans jr → justified (ans ++ [ba]) jr.
Proof. intros (b & a & Hin & Hjr). exists b, a. split; [apply elem_of_app; by left | done]. Qed.

Lemma results_of_jobs batch a : (results_of batch a).*1 = batch.
Proof. destruct a; simpl; rewrite -list_fmap_compose; apply list_fmap_id. Qed.


Lemma Forall_runner (Q : runner → Prop) l r x : Forall Q l → Q x → Forall Q (<[r := x]> l).
Proof. intros Hl Hx. by apply Forall_insert. Qed.

Lemma inv_Run : 0 < maxBatchSize → inv Run.
Proof.
  intros Hmax. split; simpl; try done; try by constructor.
  - unfold jobs_in. simpl. by induction runnerCount.
  - by apply Forall_replicate.
  - rewrite app_nil_r. by induction runnerCount.
  - apply length_replicate.
  - intros _. by apply Forall_replicate.
Qed.

(** The goroutine of createBatches moves. *)
Lemma inv_with_create s wq cur c tk bq :
  inv s → wq ++ cur ++ mjoin bq ≡ₚ workQueue s ++ currentBatch s ++ mjoin (batchQueue s) → Forall fits bq →
  match c with
  | Selecting => length cur < maxBatchSize
  | Sending | SendingLast => fits cur
  | Closed => cur = []
  end → (c = Selecting → cur ≠ [] → active tk = true) → (c ≠ Closed → create s ≠ Closed) → inv (with_create wq cur c tk bq s).
Proof.
  intros [Hjobs Hcall Hq Hrun Hans Hres Hcur Htk Hlen Hend] Hp Hbq Hc Htk' Hopen. split; simpl; try done; [|auto].
  rewrite -Hjobs. unfold jobs_in. simpl. rewrite !app_assoc -(app_assoc wq) Hp. by rewrite !app_assoc.
Qed.

Lemma inv_createBatches sig s s' : 0 < maxBatchSize → inv s → createBatches sig s = Some s' → inv s'.
Proof.
  intros Hmax Hinv. pose proof (inv_current _ Hinv) as Hcur. pose proof (inv_queue _ Hinv) as Hq.
  unfold createBatches. destruct (create s) eqn:Hc; try done.
  assert (create s ≠ Closed) as Hopen by congruence. destruct sig.
  - destruct (Nat.ltb_spec 0 (length (currentBatch s))); intros [= <-]; apply inv_with_create; try done.
    + unfold fits. lia.
    + apply nil_length_inv. lia.
  - destruct (ticked (ticker s)); [|done].
    destruct (Nat.ltb_spec 0 (length (currentBatch s))) as [Hl|Hl]; intros [= <-]; apply inv_with_create; try done.
    + unfold fits. lia.
    + intros _ []. apply nil_length_inv. lia.
  - destruct (workQueue s) as [|j rest] eqn:Hwq; [done|]. intros [= <-]. apply inv_with_create; [done| |done| | |done].
    + rewrite Hwq. solve_Permutation.
    + rewrite length_app /=. destruct (Nat.eqb_spec (length (currentBatch s) + 1) maxBatchSize); simpl; unfold fits;
        rewrite ?length_app /=; lia.
    + intros _ _. rewrite length_app /=. destruct (Nat.eqb_spec (length (currentBatch s) + 1) 1) as [_|Hne]; [done|].
      apply (inv_ticker _ Hinv Hc). intros Hnil. rewrite Hnil /= in Hne. lia.
Qed.

Lemma inv_period s s' : inv s → period s = Some s' → inv s'.
Proof.
  intros Hinv. unfold period. case_match; [|done]. intros [= <-].
  apply inv_with_create; [done..|apply (inv_queue _ Hinv)|apply (inv_current _ Hinv)|done|done].
Qed.

Lemma inv_flush s s' : 0 < maxBatchSize → inv s → flush s = Some s' → inv s'.
Proof.
  intros Hmax Hinv. pose proof (inv_current _ Hinv) as Hcur. pose proof (inv_queue _ Hinv) as Hq.
  unfold flush. case_decide; [|done]. destruct (create s) eqn:Hc; try done; intros [= <-]; apply inv_with_create; try done; try congruence.
  - rewrite join_app /= app_nil_r. solve_Permutation.
  - apply Forall_app. split; [done | by apply Forall_singleton].
  - rewrite join_app /= app_nil_r. solve_Permutation.
  - apply Forall_app. split; [done | by apply Forall_singleton].
Qed.

(** A runner goes from [x] to [y]. *)
Lemma inv_with_runner s r x y bq rec ans :
  inv s → runners s !! r = Some x →
  jobs_of y ++ mjoin bq ++ rec.*1 ≡ₚ jobs_of x ++ mjoin (batchQueue s) ++ (received s).*1 →
  Forall fits bq → running_fits y → Forall (λ ba, fits ba.1) ans →
  (∀ jr, justified (answers s) jr → justified ans jr) →
  Forall (justified ans) (results_in y) → Forall (justified ans) rec → (y = Ended → create s = Closed) →
  inv (with_runner r y bq rec ans s).
Proof.
  intros [Hjobs Hcall Hq Hrun Hans Hres Hcur Htk Hlen Hend] Hr Hp Hbq Hy Hans' Hmono Hres' Hrec Hye. split; simpl; try done.
  - rewrite -Hjobs. unfold jobs_in. simpl. pose proof (mjoin_insert jobs_of (runners s) r x y Hr) as Hm.
    apply (Permutation_app_inv_l (jobs_of x)). 
    transitivity (workQueue s ++ currentBatch s ++ (mjoin bq ++ rec.*1) ++ (jobs_of x ++ mjoin (jobs_of <$> <[r:=y]> (runners s))));
      [solve_Permutation|].
    rewrite Hm. transitivity (workQueue s ++ currentBatch s ++ (jobs_of y ++ mjoin bq ++ rec.*1) ++ mjoin (jobs_of <$> runners s));
      [solve_Permutation|].
    rewrite Hp. solve_Permutation.
  - by apply Forall_runner.
  - apply Forall_app in Hres as [Hres _]. apply Forall_app. split; [|done].
    apply Forall_join. apply Forall_fmap, Forall_runner; [|done].
    apply Forall_forall. intros z Hz. simpl. apply Forall_forall. intros jr Hjr. apply Hmono.
    rewrite Forall_forall in Hres. apply Hres. apply list_elem_of_join. exists (results_in z). split; [done|].
    apply list_elem_of_fmap. by exists z.
  - by rewrite length_insert.
  - intros Hopen. apply Forall_runner; auto.
Qed.

Lemma inv_executeBatches r a s s' : inv s → executeBatches r a s = Some s' → inv s'.
Proof.
  intros Hinv. pose proof (inv_queue _ Hinv) as Hq. pose proof (inv_running _ Hinv) as Hrun.
  pose proof (inv_answers _ Hinv) as Hans. pose proof (inv_results _ Hinv) as [Hpend Hrec]%Forall_app.
  unfold executeBatches. destruct (runners s !! r) as [x|] eqn:Hr; [|done].
  assert (running_fits x) as Hx by (by eapply Forall_lookup_1 in Hrun).
  assert (Forall (justified (answers s)) (results_in x)) as Hxr.
  { apply Forall_forall. intros jr Hjr. rewrite Forall_forall in Hpend. apply Hpend.
    apply list_elem_of_join. exists (results_in x). split; [done|]. apply list_elem_of_fmap. exists x.
    split; [done | by eapply list_elem_of_lookup_2]. }
  destruct x as [|batch|[|res rest]|]; try done.
  - destruct (batchQueue s) as [|batch rest] eqn:Hbq.
    + destruct (create s) eqn:Hc; try done. intros [= <-]. eapply inv_with_runner; try done. by rewrite Hbq.
    + intros [= <-]. apply Forall_cons in Hq as [Hb Hq]. eapply inv_with_runner; try done. rewrite Hbq /=. solve_Permutation.
  - intros [= <-]. eapply inv_with_runner; try done; simpl.
    + by rewrite results_of_jobs.
    + apply Forall_app. split; [done | by apply Forall_singleton].
    + intros jr. apply justified_app.
    + apply Forall_forall. intros jr Hjr. exists batch, a. split; [|done].
      apply elem_of_app. right. by apply list_elem_of_singleton.
    + eapply Forall_impl; [done|]. intros jr. apply justified_app.
  - intros [= <-]. by eapply inv_with_runner.
  - intros [= <-]. apply Forall_cons in Hxr as [Hres Hrest]. eapply inv_with_runner; try done; simpl.
    + rewrite fmap_app /=. solve_Permutation.
    + apply Forall_app. split; [done | by apply Forall_singleton].
Qed.

Lemma scheduler_inv_step s s' : 0 < maxBatchSize → inv s → step s s' → inv s'.
Proof.
  intros Hmax Hinv [j Hj|[sig| | |r a] Hl].
  - unfold ScheduleJob in Hj. case_decide as Hd; [|done]. injection Hj as <-. destruct Hd as [_ Hnew].
    destruct Hinv as [Hjobs Hcall Hq Hrun Hans Hres Hcur Htk Hlen Hend]. split; simpl; try done.
    + unfold jobs_in in *. simpl. rewrite -Hjobs. solve_Permutation.
    + rewrite fmap_app. apply NoDup_app. split; [done|]. split; [|apply NoDup_singleton].
      intros c Hc Hin%list_elem_of_singleton. simpl in *. congruence.
  - by eapply inv_createBatches.
  - by eapply inv_period.
  - by eapply inv_flush.
  - by eapply inv_executeBatches.
Qed.

Lemma scheduler_inv s : 0 < maxBatchSize → rtc step Run s → inv s.
Proof.
  intros Hmax. apply rtc_invariant; [|by apply inv_Run]. intros x y Hx. by apply scheduler_inv_step.
Qed.

(** ** Progress *)

(** The scheduler moves on its own, without its context being canceled. *)
Definition works s s' : Prop := ∃ l, l ≠ LSignal CtxDone ∧ next l s = Some s'.

Definition runner_work (x : runner) : nat :=
  match x with
  | Idle => 1
  | Running batch => 3 * length batch + 2
  | Delivering results => length results + 2
  | Ended => 0
  end.

Definition create_work (c : batcher) : nat :=
  match c with Selecting => 4 | Sending | SendingLast => 2 | Closed => 0 end.

Definition ticker_work (tk : ticker_state) : nat :=
  if ticked tk then 1 else if active tk then 2 else 0.

(** How much there is left to do. *)
Definition work s : nat :=
  12 * length (workQueue s) + 8 * length (currentBatch s) + 5 * length (mjoin (batchQueue s)) +
  sum_list_with runner_work (runners s) + create_work (create s) + ticker_work (ticker s).

Lemma sum_list_insert (f : runner → nat) (l : list runner) r x y :
  l !! r = Some x → f x + sum_list_with f (<[r := y]> l) = f y + sum_list_with f l.
Proof.
  intros Hr. rewrite -{2}(take_drop_middle l r x Hr) insert_take_drop; [by eapply lookup_lt_Some|].
  rewrite !sum_list_with_app /=. lia.
Qed.

Lemma work_with_runner s r x y bq rec ans :
  runners s !! r = Some x →
  work (with_runner r y bq rec ans s) + runner_work x + 5 * length (mjoin (batchQueue s)) =
  work s + runner_work y + 5 * length (mjoin bq).
Proof. intros Hr. pose proof (sum_list_insert runner_work _ _ x y Hr). unfold work. simpl. lia. Qed.

Lemma createBatches_works sig s s' : inv s → createBatches sig s = Some s' → work s' < work s.
Proof.
  intros Hinv Hn. unfold createBatches in Hn. destruct (create s) eqn:Hc; try done.
  assert (ticker_work (ticker s) ≤ 2) as Htk by (unfold ticker_work; repeat case_match; lia). destruct sig.
  - case_match; injection Hn as <-; unfold work; rewrite /= Hc /=; cbn; lia.
  - destruct (ticked (ticker s)) eqn:Ht; [|done].
    case_match; injection Hn as <-; unfold work, ticker_work; rewrite /= Hc Ht /=; repeat case_match; simpl; lia.
  - destruct (workQueue s) as [|j rest] eqn:Hwq; [done|]. injection Hn as <-. unfold work. simpl.
    rewrite Hc Hwq length_app /=. repeat case_match; unfold ticker_Reset, ticker_work in *; simpl in *; lia.
Qed.

Lemma next_works l s s' : inv s → next l s = Some s' → work s' < work s.
Proof.
  intros Hinv Hn. pose proof (inv_current _ Hinv) as Hcur. destruct l as [sig| | |r a]; simpl in Hn.
  - by eapply createBatches_works.
  - unfold period in Hn. destruct (active (ticker s)) eqn:Ha, (ticked (ticker s)) eqn:Ht; try done.
    injection Hn as <-. unfold work, ticker_work. rewrite /= Ha Ht. lia.
  - unfold flush in Hn. case_decide; [|done].
    destruct (create s) eqn:Hc; try done; injection Hn as <-; unfold work; simpl;
      rewrite Hc join_app length_app /= app_nil_r; unfold fits in Hcur; cbn; lia.
  - unfold executeBatches in Hn. destruct (runners s !! r) as [x|] eqn:Hr; [|done].
    pose proof (inv_running _ Hinv) as Hrun. pose proof (inv_queue _ Hinv) as Hq.
    assert (running_fits x) as Hx by (by eapply Forall_lookup_1 in Hrun).
    destruct x as [|batch|[|res rest]|]; try done.
    + destruct (batchQueue s) as [|batch rest] eqn:Hbq.
      * destruct (create s); try done. injection Hn as <-.
        pose proof (work_with_runner s r Idle Ended [] (received s) (answers s) Hr) as Hw. rewrite Hbq /= in Hw. lia.
      * injection Hn as <-. apply Forall_cons in Hq as [Hb _]. unfold fits in Hb.
        pose proof (work_with_runner s r Idle (Running batch) rest (received s) (answers s) Hr) as Hw.
        rewrite Hbq /= length_app in Hw. lia.
    + injection Hn as <-. unfold running_fits, fits in Hx.
      pose proof (work_with_runner s r (Running batch) (Delivering (results_of batch a)) (batchQueue s) (received s)
        (answers s ++ [(batch, a)]) Hr) as Hw.
      simpl in Hw. rewrite -(length_fmap fst (results_of batch a)) results_of_jobs in Hw. lia.
    + injection Hn as <-.
      pose proof (work_with_runner s r (Delivering []) Idle (batchQueue s) (received s) (answers s) Hr) as Hw. simpl in Hw. lia.
    + injection Hn as <-.
      pose proof (work_with_runner s r (Delivering (res :: rest)) (Delivering rest) (batchQueue s)
        (received s ++ [res]) (answers s) Hr) as Hw. simpl in Hw. lia.
Qed.

(** A goroutine that has something to do can do it. *)
Lemma runner_can_work s r x :
  runners s !! r = Some x → jobs_of x ≠ [] → ∃ s', works s s'.
Proof.
  intros Hr Hx. assert (∃ s', executeBatches r (Ok ∅) s = Some s') as (s' & Hs').
  { unfold executeBatches. rewrite Hr. destruct x as [|batch|[|res rest]|]; try done; by eexists. }
  by exists s', (LRunner r (Ok ∅)).
Qed.

Lemma batch_can_be_taken s :
  inv s → create s ≠ Closed → 0 < runnerCount → batchQueue s ≠ [] → ∃ s', works s s'.
Proof.
  intros Hinv Hopen Hcount Hbq. destruct (runners s !! 0) as [x|] eqn:Hr.
  2:{ apply lookup_ge_None in Hr. rewrite (inv_runners _ Hinv) in Hr. lia. }
  pose proof (inv_ended _ Hinv Hopen) as Hend. eapply Forall_lookup_1 in Hend; [|done].
  assert (∃ s', executeBatches 0 (Ok ∅) s = Some s') as (s' & Hs').
  { unfold executeBatches. rewrite Hr. destruct x as [|batch|[|res rest]|]; try done; try by eexists.
    destruct (batchQueue s) as [|batch rest]; [done|]. by eexists. }
  by exists s', (LRunner 0 (Ok ∅)).
Qed.

(** A batch that is being formed is flushed by the ticker, which runs. *)
Lemma current_batch_can_work s :
  inv s → create s = Selecting → currentBatch s ≠ [] → ∃ s', works s s'.
Proof.
  intros Hinv Hc Hcur. pose proof (inv_ticker _ Hinv Hc Hcur) as Ha. destruct (ticked (ticker s)) eqn:Ht.
  - eexists. exists (LSignal Tick). split; [done|]. simpl. unfold createBatches. by rewrite Hc Ht.
  - eexists. exists LPeriod. split; [done|]. simpl. unfold period. by rewrite Ha Ht.
Qed.

Lemma scheduler_progress s :
  inv s → 0 < runnerCount → create s = Selecting ∨ create s = Sending →
  length (received s) < length (scheduled s) → ∃ s', works s s'.
Proof.
  intros Hinv Hcount Hopen Hless. assert (create s ≠ Closed) as Hnc by (destruct Hopen; congruence).
  destruct (decide (batchQueue s = [])) as [Hbq|Hbq]; [|by apply batch_can_be_taken].
  pose proof (Permutation_length (inv_jobs _ Hinv)) as Hlen. unfold jobs_in in Hlen.
  rewrite Hbq !length_app length_fmap /= in Hlen.
  destruct (mjoin (jobs_of <$> runners s)) as [|j js] eqn:Hjs.
  - simpl in Hlen. destruct Hopen as [Hc|Hc].
    + destruct (workQueue s) as [|j rest] eqn:Hwq.
      * apply current_batch_can_work; [done..|]. intros Hnil. rewrite Hnil /= in Hlen. lia.
      * eexists. exists (LSignal Job). split; [done|]. simpl. unfold createBatches. by rewrite Hc Hwq.
    + eexists. exists LFlush. split; [done|]. simpl. unfold flush. by rewrite Hc Hbq decide_True.
  - assert (j ∈ mjoin (jobs_of <$> runners s)) as Hin by (rewrite Hjs; by left).
    apply list_elem_of_join in Hin as (l & Hj & (x & -> & Hx)%list_elem_of_fmap).
    apply list_elem_of_lookup in Hx as [r Hr]. eapply runner_can_work; [done|].
    intros Hnil. rewrite Hnil in Hj. by apply not_elem_of_nil in Hj.
Qed.

Lemma works_step s s' : works s s' → step s s' ∧ (create s = Selecting ∨ create s = Sending → create s' = Selecting ∨ create s' = Sending)
  ∧ scheduled s' = scheduled s.
Proof.
  intros (l & Hl & Hn). split; [by eapply step_next|]. destruct l as [sig| | |r a]; simpl in Hn.
  - unfold createBatches in Hn. destruct (create s), sig; try done; repeat (case_match; simplify_eq/=; auto).
  - unfold period in Hn. case_match; [|done]. by injection Hn as <-.
  - unfold flush in Hn. case_decide; [|done]. destruct (create s); try done; injection Hn as <-; simpl; split; auto.
    intros [?|?]; done.
  - unfold executeBatches in Hn. destruct (runners s !! r) as [[|b|[|??]|]|]; try done; try (injection Hn as <-; by split).
    destruct (batchQueue s); [destruct (create s) eqn:Hc; try done|]; injection Hn as <-; (split; [simpl|done]); rewrite ?Hc; tauto.
Qed.
End Scheduler.
Arguments system : clear implicits.
Arguments job : clear implicits.
Arguments label : clear implicits.

(** No job is lost or answered twice: at any time every scheduled job is at one
    place, the queue, the batch that is being formed, a batch that waits, is run or is
    answered, or its caller; every result that was sent belongs to the job's key in
    the answer for its batch; and every batch that was run had between one job and the
    maximum. *)
Theorem scheduler_conserves_jobs {T P E} `{Zero T} maxBatchSize runnerCount (s : system T P E) :
  0 < maxBatchSize → rtc (step maxBatchSize runnerCount) (Run runnerCount) s →
  jobs_in s ≡ₚ scheduled s ∧ NoDup (caller <$> scheduled s) ∧
  Forall (justified (answers s)) (received s) ∧
  Forall (λ ba, 0 < length ba.1 ≤ maxBatchSize) (answers s).
Proof.
  intros Hmax Hs%scheduler_inv; [|done]. split; [apply (inv_jobs _ _ _ Hs)|].
  split; [apply (inv_callers _ _ _ Hs)|]. split; [|apply (inv_answers _ _ _ Hs)].
  by pose proof (inv_results _ _ _ Hs) as [_ ?]%Forall_app.
Qed.

(** C12: Every job gets its result while the context of the scheduler is not canceled,
    with at least one runner, a maximal batch size of at least one and a batch runner
    that returns: whatever the scheduler and the running ticker of its batch do on their
    own, they are done after finitely many steps, and then every job that was scheduled
    has a result; also the jobs of a batch that never gets full. *)
Theorem scheduler_answers_all {T P E} `{Zero T} maxBatchSize runnerCount (s : system T P E) :
  0 < maxBatchSize → 0 < runnerCount → rtc (step maxBatchSize runnerCount) (Run runnerCount) s →
  create s = Selecting ∨ create s = Sending →
  sn (works maxBatchSize runnerCount) s ∧
  (∀ s', rtc (works maxBatchSize runnerCount) s s' → nf (works maxBatchSize runnerCount) s' →
     (received s').*1 ≡ₚ scheduled s).
Proof.
  intros Hmax Hcount Hs%scheduler_inv Hopen; [|done]. split.
  - clear Hopen. remember (work s) as n eqn:Hn. revert s Hs Hn. induction n as [n IH] using lt_wf_ind. intros s Hs ->.
    constructor. intros s' Hw. pose proof Hw as (Hstep & _ & _)%works_step.
    pose proof (scheduler_inv_step _ _ _ _ Hmax Hs Hstep) as Hs'.
    destruct Hw as (l & _ & Hl). eapply IH; [by eapply next_works|done|done].
  - intros s' Hrun. induction Hrun as [s|s s1 s2 Hw Hrun IH]; intros Hnf.
    + pose proof (inv_jobs _ _ _ Hs) as Hjobs. unfold jobs_in in Hjobs.
      destruct (decide (length (received s) < length (scheduled s))) as [Hless|Hall].
      * destruct Hnf. destruct (scheduler_progress _ _ _ Hs Hcount Hopen Hless) as [s' Hs']. by exists s'.
      * rewrite !(assoc_L (++)) in Hjobs. pose proof (Permutation_length Hjobs) as Hlen.
        rewrite length_app length_fmap in Hlen. rewrite -Hjobs.
        destruct (((workQueue s ++ currentBatch s) ++ _) ++ _) as [|j js]; [done | simpl in Hlen; lia].
    + destruct (works_step _ _ _ _ Hw) as (Hstep & Hopen' & Heq). rewrite -Heq. apply IH; [|by apply Hopen'|done].
      by eapply scheduler_inv_step.
Qed.

(** A job that is in the queue when createBatches has left stays there, and its
    caller waits for ever. *)
Theorem canceled_scheduler_leaves_jobs {T P E} `{Zero T} maxBatchSize runnerCount (s s' : system T P E) j :
  0 < maxBatchSize → rtc (step maxBatchSize runnerCount) (Run runnerCount) s →
  create s = Closed → j ∈ workQueue s → rtc (step maxBatchSize runnerCount) s s' →
  j ∈ workQueue s' ∧ caller j ∉ (caller <$> (received s').*1).
Proof.
  intros Hmax Hs Hc Hj Hrun.
  assert (create s' = Closed ∧ j ∈ workQueue s') as [Hc' Hj'].
  { revert Hrun. apply (rtc_invariant _ (λ s, create s = Closed ∧ j ∈ workQueue s)); [|done].
    clear. intros x y [Hc Hj] [j' Hj'|[sig| | |r a] Hl].
    - unfold ScheduleJob in Hj'. case_decide; [|done]. injection Hj' as <-. split; [done|]. apply elem_of_app. by left.
    - simpl in Hl. unfold createBatches in Hl. by rewrite Hc in Hl.
    - simpl in Hl. unfold period in Hl. case_match; [|done]. by injection Hl as <-.
    - simpl in Hl. unfold flush in Hl. case_decide; [|done]. by rewrite Hc in Hl.
    - simpl in Hl. unfold executeBatches in Hl. repeat (case_match; simplify_eq/=; try done). }
  split; [done|]. assert (inv maxBatchSize runnerCount s') as Hs' by (apply scheduler_inv; [done | by etrans]).
  pose proof (inv_callers _ _ _ Hs') as Hnd. rewrite -(inv_jobs _ _ _ Hs') in Hnd.
  unfold jobs_in in Hnd. rewrite fmap_app in Hnd. apply NoDup_app in Hnd as (_ & Hdis & _).
  intros Hin. apply (Hdis (caller j)); [by apply list_elem_of_fmap_2|].
  rewrite !fmap_app !elem_of_app. auto.
Qed.

(** ** Witnesses

    Batches of up to two jobs and one goroutine that runs them; the first two jobs are
    run and the first of them is answered, a third one is in the queue. *)
Definition sample_job (k : string) (c : nat) : job unit := {| key := k; provider := tt; caller := c |}.

Definition sample_next (l : job unit + label nat string) (s : system nat unit string) : option (system nat unit string) :=
  match l with inl j => ScheduleJob 1 j s | inr l => next 2 1 l s end.

Definition sample_steps : list (job unit + label nat string) :=
  [inl (sample_job "a" 1); inr (LSignal Job); inl (sample_job "b" 2); inr (LSignal Job); inr LFlush;
   inr (LRunner 0 (Ok ∅)); inr (LRunner 0 (Ok {["a" := 7]})); inr (LRunner 0 (Ok ∅)); inl (sample_job "c" 3)].

Definition sample_system : system nat unit string := default (Run 1) (run_all sample_next sample_steps (Run 1)).

Lemma sample_next_step l s s' : sample_next l s = Some s' → step 2 1 s s'.
Proof. destruct l as [j|l]; intros Hl; [by eapply step_call | by eapply step_next]. Qed.

Lemma scheduler_sample_reachable : rtc (step 2 1) (Run 1) sample_system.
Proof. apply (run_all_steps sample_next _ sample_steps); [apply sample_next_step | by vm_compute]. Qed.

Lemma scheduler_conserves_jobs_witness :
  received sample_system = [(sample_job "a" 1, Ok 7)] ∧
  jobs_in sample_system ≡ₚ [sample_job "a" 1; sample_job "b" 2; sample_job "c" 3].
Proof.
  split; [vm_compute; reflexivity|].
  exact (proj1 (scheduler_conserves_jobs 2 1 sample_system ltac:(lia) scheduler_sample_reachable)).
Defined.

Lemma scheduler_answers_all_witness :
  sn (works 2 1) sample_system ∧
  (∀ s', rtc (works 2 1) sample_system s' → nf (works 2 1) s' →
     (received s').*1 ≡ₚ [sample_job "a" 1; sample_job "b" 2; sample_job "c" 3]).
Proof.
  apply (scheduler_answers_all 2 1 sample_system); [lia | lia | exact scheduler_sample_reachable | left; reflexivity].
Defined.

Definition canceled_system : system nat unit string :=
  default (Run 1) (run_all sample_next [inr (LSignal CtxDone)] sample_system).

Lemma canceled_scheduler_leaves_jobs_witness :
  create canceled_system = Closed ∧ sample_job "c" 3 ∈ workQueue canceled_system.
Proof.
  assert (create canceled_system = Closed) as Hc by (vm_compute; reflexivity). split; [exact Hc|].
  apply (canceled_scheduler_leaves_jobs 2 1 canceled_system canceled_system); [lia| |exact Hc| |apply rtc_refl].
  - apply (run_all_steps sample_next _ (sample_steps ++ [inr (LSignal CtxDone)])); [apply sample_next_step | by vm_compute].
  - vm_compute. left.
Defined.
