(* ===== verification/HttpConnections.v ===== *)
(** * pkg/httpserver: limits on connections and requests

    [Pressure]: connection_pressure_manager.go, the idle connections in the order in
    which they became idle.  [Listener]: connection_limit_listener.go with the manager
    as a transition system of the goroutine that accepts connections, the server that
    closes them and reports their states.  [Requests]: middleware_concurrency.go and
    the policy of connection_lifecycle_advisor.go.  A connection is a number; the
    inner listener, the clock and the metrics recorder are the environment. *)
From S2P Require Import Prelude Cache.

Definition conn := nat.

Module Pressure.
(** The states of net/http. *)
Inductive ConnectionState := StateNew | StateActive | StateIdle | StateHijacked | StateClosed.

(** [pkg/httpserver/connection_pressure_manager.go:32-35] connectionState; an entry of
    the list by its identity *)
Record connectionState := { idleSince : Z; idleEntry : option nat }.

(** [pkg/httpserver/connection_pressure_manager.go:21-30] connectionPressureManager:
    the connections, the list of the idle ones, and what the metrics recorder has
    counted *)
Record manager := {
  connections : gmap conn connectionState;
  idle : list (nat * conn);
  entries : nat;
  opened : nat;
  closed : nat;
}.

Definition NewConnectionPressureManager : manager :=
  {| connections := ∅; idle := []; entries := 0; opened := 0; closed := 0 |}.

Definition without_entry (e : nat) (l : list (nat * conn)) : list (nat * conn) :=
  List.filter (λ x, negb (bool_decide (x.1 = e))) l.

(** [pkg/httpserver/connection_pressure_manager.go:125-134] removeIdle *)
Definition removeIdle (c : conn) (m : manager) : manager :=
  match connections m !! c with
  | Some {| idleSince := t; idleEntry := Some e |} =>
      {| connections := <[c := {| idleSince := t; idleEntry := None |}]> (connections m);
         idle := without_entry e (idle m); entries := entries m; opened := opened m; closed := closed m |}
  | _ => m
  end.

(** [pkg/httpserver/connection_pressure_manager.go:92-99] markActive *)
Definition markActive (c : conn) (m : manager) : manager :=
  let m := removeIdle c m in
  {| connections := <[c := {| idleSince := 0; idleEntry := None |}]> (connections m); idle := idle m;
     entries := entries m; opened := if map_has (connections m) c then opened m else S (opened m); closed := closed m |}.

(** [pkg/httpserver/connection_pressure_manager.go:101-108] markIdle, without the notification *)
Definition markIdle (now : Z) (c : conn) (m : manager) : manager :=
  let m := removeIdle c m in
  {| connections := <[c := {| idleSince := now; idleEntry := Some (entries m) |}]> (connections m);
     idle := idle m ++ [(entries m, c)]; entries := S (entries m); opened := opened m; closed := closed m |}.

(** [pkg/httpserver/connection_pressure_manager.go:117-123] remove *)
Definition remove (c : conn) (m : manager) : manager :=
  let m := removeIdle c m in
  if map_has (connections m) c
  then {| connections := delete c (connections m); idle := idle m; entries := entries m;
          opened := opened m; closed := S (closed m) |}
  else m.

(** [pkg/httpserver/connection_pressure_manager.go:136-148] popOldestIdleConnection *)
Definition popOldestIdleConnection (m : manager) : option conn * manager :=
  match idle m with
  | [] => (None, m)
  | (e, c) :: rest =>
      (Some c, {| connections := delete c (connections m); idle := rest; entries := entries m;
                  opened := opened m; closed := S (closed m) |})
  end.

(** [pkg/httpserver/connection_pressure_manager.go:56-70] ConnState *)
Definition ConnState (now : Z) (c : conn) (st : ConnectionState) (m : manager) : manager :=
  match st with
  | StateNew | StateActive => markActive c m
  | StateIdle => markIdle now c m
  | StateHijacked | StateClosed => remove c m
  end.

(** ** Well-formed managers *)

Definition since (m : manager) (c : conn) : Z := from_option idleSince 0%Z (connections m !! c).

Record wf (now : Z) (m : manager) : Prop := {
  wf_entries : NoDup (idle m).*1;
  wf_idle e c : (e, c) ∈ idle m ↔ idleEntry <$> connections m !! c = Some (Some e);
  wf_fresh e c : (e, c) ∈ idle m → e < entries m;
  wf_past c st : connections m !! c = Some st → idleEntry st ≠ None → (idleSince st ≤ now)%Z;
  wf_order : StronglySorted (λ x y, (since m x.2 ≤ since m y.2)%Z) (idle m);
}.

(** Markings of the recorder: what it has counted open is what the manager knows. *)
Definition counted (m : manager) : Prop := opened m = closed m + size (connections m).

Lemma without_entry_sublist e l : without_entry e l `sublist_of` l.
Proof. induction l as [|x l IH]; simpl; [done|]. case_match; by constructor. Qed.

Lemma elem_of_without_entry e l x : x ∈ without_entry e l ↔ x ∈ l ∧ x.1 ≠ e.
Proof.
  unfold without_entry. rewrite !list_elem_of_In filter_In. case_bool_decide; naive_solver.
Qed.

Lemma StronglySorted_sublist {A} (R : relation A) l k : l `sublist_of` k → StronglySorted R k → StronglySorted R l.
Proof.
  induction 1 as [|x l k Hl IH|x l k Hl IH]; intros Hs; [done|..]; apply StronglySorted_inv in Hs as [Hs Hall].
  - constructor; [by apply IH|]. rewrite !Forall_forall in Hall |- *. eauto using elem_of_sublist.
  - by apply IH.
Qed.

Lemma StronglySorted_weaken {A} (R R' : relation A) l :
  (∀ x y, x ∈ l → y ∈ l → R x y → R' x y) → StronglySorted R l → StronglySorted R' l.
Proof.
  intros HR. induction 1 as [|x l Hs IH Hall]; constructor.
  - apply IH. intros y z Hy Hz. apply HR; by right.
  - rewrite !Forall_forall in Hall |- *. intros y Hy. apply HR; [left | by right | by apply Hall].
Qed.

(** A change of a connection that has no entry in the list. *)
Lemma wf_change now m m' c :
  wf now m → (∀ e, (e, c) ∉ idle m) → idle m' = idle m → entries m' = entries m →
  (∀ c', c' ≠ c → connections m' !! c' = connections m !! c') →
  (idleEntry <$> connections m' !! c = Some None ∨ connections m' !! c = None) → wf now m'.
Proof.
  intros [Hnd Hidle Hfresh Hpast Hord] Hc Hi He Hother Hnew.
  split; rewrite ?Hi ?He; [done| |done| |].
  - intros e c'. destruct (decide (c' = c)) as [->|Hne]; [|by rewrite Hother].
    split; [by intros Hin%Hc|]. intros Heq. destruct Hnew as [Hn|Hn]; rewrite Hn in Heq; by simplify_eq/=.
  - intros c' st Hst Hne. destruct (decide (c' = c)) as [->|Hcc]; [|rewrite Hother // in Hst; by eapply Hpast].
    destruct Hnew as [Hn|Hn]; rewrite Hst in Hn; by simplify_eq/=.
  - eapply StronglySorted_weaken; [|exact Hord]. intros [e1 c1] [e2 c2] H1 H2. unfold since. simpl.
    assert (c1 ≠ c) by (intros ->; by apply Hc in H1). assert (c2 ≠ c) by (intros ->; by apply Hc in H2).
    by rewrite !Hother.
Qed.

Lemma removeIdle_wf now c m :
  wf now m →
  wf now (removeIdle c m) ∧ (∀ e, (e, c) ∉ idle (removeIdle c m)) ∧ entries (removeIdle c m) = entries m ∧
  opened (removeIdle c m) = opened m ∧ closed (removeIdle c m) = closed m ∧
  dom (connections (removeIdle c m)) = dom (connections m) ∧ idle (removeIdle c m) `sublist_of` idle m.
Proof.
  intros Hwf. unfold removeIdle. destruct (connections m !! c) as [[t [e|]]|] eqn:Hc.
  - assert ((e, c) ∈ idle m) as Hin by (apply (wf_idle _ _ Hwf); by rewrite Hc).
    assert (∀ e', (e', c) ∈ idle m → e' = e) as Honly.
    { intros e' He'%(wf_idle _ _ Hwf). rewrite Hc in He'. by simplify_eq/=. }
    split; [|split; [|split_and!; [done|done|done| |apply without_entry_sublist]]].
    + destruct Hwf as [Hnd Hidle Hfresh Hpast Hord]. split; simpl.
      * eapply sublist_NoDup; [exact Hnd|]. apply fmap_sublist, without_entry_sublist.
      * intros e' c'. rewrite elem_of_without_entry Hidle. simpl. destruct (decide (c' = c)) as [->|Hne].
        -- rewrite lookup_insert_eq Hc /=. split; [intros [[= ->] ?]; done | done].
        -- rewrite lookup_insert_ne //. split; [tauto|]. intros He'. split; [done|]. intros ->.
           apply Hne. apply Hidle in He'. apply list_elem_of_lookup in He' as [i Hi]. apply list_elem_of_lookup in Hin as [k Hk].
           assert (i = k) as ->; [|congruence]. eapply NoDup_lookup; [exact Hnd|..];
             rewrite list_lookup_fmap; [by rewrite Hi | by rewrite Hk].
      * intros e' c' [Hin' _]%elem_of_without_entry. by eapply Hfresh.
      * intros c' st [[<- <-]|[Hne Hst]]%lookup_insert_Some; [done | by eapply Hpast].
      * eapply StronglySorted_sublist; [apply without_entry_sublist|].
        eapply StronglySorted_weaken; [|exact Hord]. intros x y _ _. unfold since. simpl.
        assert (∀ k, from_option idleSince 0%Z (<[c:={| idleSince := t; idleEntry := None |}]> (connections m) !! k) =
          from_option idleSince 0%Z (connections m !! k)) as Hs; [|by rewrite !Hs].
        intros k. destruct (decide (k = c)) as [->|Hne]; [by rewrite lookup_insert_eq Hc | by rewrite lookup_insert_ne].
    + intros e'. simpl. rewrite elem_of_without_entry. intros [Hin' Hne]. by apply Hne, Honly.
    + simpl. rewrite dom_insert_lookup_L; [by rewrite Hc | done].
  - split_and!; try done. intros e Hin%(wf_idle _ _ Hwf). by rewrite Hc in Hin.
  - split_and!; try done. intros e Hin%(wf_idle _ _ Hwf). by rewrite Hc in Hin.
Qed.

Lemma map_has_dom {A} (m : gmap conn A) c : map_has m c = bool_decide (c ∈ dom m).
Proof. rewrite map_has_spec. apply bool_decide_ext. by rewrite elem_of_dom. Qed.

Lemma ConnState_wf now c st m : wf now m → wf now (ConnState now c st m).
Proof.
  intros Hwf. destruct (removeIdle_wf now c m Hwf) as (Hwf' & Hno & He & _).
  assert (wf now (markActive c m)) as Hactive.
  { eapply (wf_change now (removeIdle c m)); try done; simpl.
    - intros c' Hne. by rewrite lookup_insert_ne.
    - rewrite lookup_insert_eq. by left. }
  assert (wf now (remove c m)) as Hremove.
  { unfold remove. case_match; [|done]. eapply (wf_change now (removeIdle c m)); try done; simpl.
    - intros c' Hne. by rewrite lookup_delete_ne.
    - rewrite lookup_delete_eq. by right. }
  destruct st; try done. simpl. unfold markIdle. destruct Hwf' as [Hnd Hidle Hfresh Hpast Hord].
  assert (∀ e c', (e, c') ∈ idle (removeIdle c m) → c' ≠ c ∧ e ≠ entries (removeIdle c m)) as Hold.
  { intros e c' Hin. split; [intros ->; by eapply Hno|]. apply Hfresh in Hin. lia. }
  split; simpl.
  - rewrite fmap_app. apply NoDup_app. split; [done|]. split; [|apply NoDup_singleton].
    intros e (x & -> & Hx)%list_elem_of_fmap Heq%list_elem_of_singleton. destruct x as [e' c']. simpl in Heq.
    destruct (Hold _ _ Hx) as [_ Hne]. by apply Hne.
  - intros e c'. rewrite elem_of_app list_elem_of_singleton Hidle. destruct (decide (c' = c)) as [->|Hne].
    + rewrite lookup_insert_eq /=. split; [|intros [= ->]; by right].
      intros [Hin%Hidle|[= ->]]; [by destruct (Hno e) | done].
    + rewrite lookup_insert_ne //. split; [by intros [?|[= -> ->]] | by left].
  - intros e c' [Hin%Hfresh|[= -> ->]%list_elem_of_singleton]%elem_of_app; lia.
  - intros c' s [[<- <-]|[Hne Hs]]%lookup_insert_Some Hx; simpl; [lia | by eapply Hpast].
  - assert (∀ x, x ∈ idle (removeIdle c m) → from_option idleSince 0%Z
      (<[c:={| idleSince := now; idleEntry := Some (entries (removeIdle c m)) |}]> (connections (removeIdle c m)) !! x.2) =
      since (removeIdle c m) x.2) as Hsame.
    { intros [e c'] Hx. destruct (Hold _ _ Hx). by rewrite lookup_insert_ne. }
    apply StronglySorted_app; split_and!.
    + intros x y Hx ->%list_elem_of_singleton. unfold since at 2. simpl. rewrite lookup_insert_eq /=.
      unfold since. simpl. rewrite Hsame //. destruct x as [e c']. apply Hidle in Hx as Heq. unfold since. simpl.
      destruct (connections (removeIdle c m) !! c') as [st|] eqn:Hst; [|done]. simpl.
      eapply Hpast; [exact Hst|]. by simplify_eq/=; rewrite Heq.
    + eapply StronglySorted_weaken; [|exact Hord]. intros x y Hx Hy. unfold since at 3 4. simpl. by rewrite !Hsame.
    + repeat constructor.
Qed.

Lemma pop_wf now m : wf now m → wf now (popOldestIdleConnection m).2.
Proof.
  intros [Hnd Hidle Hfresh Hpast Hord]. unfold popOldestIdleConnection. destruct (idle m) as [|[e c] rest] eqn:Hi; [by split; rewrite ?Hi|].
  simpl. csimpl in Hnd. apply NoDup_cons in Hnd as [Hni Hnd]. apply StronglySorted_inv in Hord as [Hord _].
  assert (∀ e' c', (e', c') ∈ rest → c' ≠ c) as Hother.
  { intros e' c' Hin ->. assert (idleEntry <$> connections m !! c = Some (Some e')) as H1 by (apply Hidle; by right).
    assert (idleEntry <$> connections m !! c = Some (Some e)) as H2 by (apply Hidle; by left).
    rewrite H1 in H2. simplify_eq. apply Hni, list_elem_of_fmap. by exists (e, c). }
  split; simpl; [done| | | |].
  - intros e' c'. destruct (decide (c' = c)) as [->|Hne].
    + rewrite lookup_delete_eq /=. split; [by intros ?%Hother | done].
    + rewrite lookup_delete_ne // -Hidle elem_of_cons. naive_solver.
  - intros e' c' Hin. apply (Hfresh e' c'). by right.
  - intros c' st [_ Hst]%lookup_delete_Some. by eapply Hpast.
  - eapply StronglySorted_weaken; [|exact Hord]. intros [e1 c1] [e2 c2] H1%Hother H2%Hother. unfold since. simpl.
    by rewrite !lookup_delete_ne.
Qed.

Lemma wf_later now now' m : (now ≤ now')%Z → wf now m → wf now' m.
Proof.
  intros Hle [Hnd Hidle Hfresh Hpast Hord]. split; try done. intros c st Hst Hne. specialize (Hpast _ _ Hst Hne). lia.
Qed.

Lemma size_set {A} (m : gmap conn A) c x : size (<[c := x]> m) = if map_has m c then size m else S (size m).
Proof.
  rewrite map_has_spec. case_bool_decide as Hc; [by apply map_size_insert_Some|].
  apply map_size_insert_None. by apply eq_None_not_Some.
Qed.

Lemma removeIdle_counted c m :
  opened (removeIdle c m) = opened m ∧ closed (removeIdle c m) = closed m ∧
  size (connections (removeIdle c m)) = size (connections m) ∧
  ∀ c', map_has (connections (removeIdle c m)) c' = map_has (connections m) c'.
Proof.
  unfold removeIdle. destruct (connections m !! c) as [[t [e|]]|] eqn:Hc; try done. simpl.
  rewrite size_set /map_has Hc. split_and!; [done..|]. intros c'. destruct (decide (c' = c)) as [->|Hne].
  - by rewrite lookup_insert_eq Hc.
  - by rewrite lookup_insert_ne.
Qed.

Lemma ConnState_counted now c st m :
  (st = StateIdle → is_Some (connections m !! c)) → counted m → counted (ConnState now c st m).
Proof.
  unfold counted. intros Hknown Hm. destruct (removeIdle_counted c m) as (Ho & Hc & Hs & Hh).
  assert (opened (markActive c m) = closed (markActive c m) + size (connections (markActive c m))) as Hactive.
  { unfold markActive. simpl. rewrite size_set. case_match; lia. }
  assert (opened (remove c m) = closed (remove c m) + size (connections (remove c m))) as Hremove.
  { unfold remove, map_has. destruct (connections (removeIdle c m) !! c) as [x|] eqn:Hx; simpl; [|lia].
    rewrite map_size_delete_Some; [by exists x|].
    assert (size (connections (removeIdle c m)) ≠ 0) as Hpos; [|lia].
    intros Hz%map_size_empty_inv. by rewrite Hz lookup_empty in Hx. }
  destruct st; try done. simpl. rewrite size_set Hs Hh Ho Hc map_has_spec bool_decide_true; [by apply Hknown | lia].
Qed.

Lemma pop_counted now m : wf now m → counted m → counted (popOldestIdleConnection m).2.
Proof.
  unfold counted, popOldestIdleConnection. intros Hwf Hm. destruct (idle m) as [|[e c] rest] eqn:Hi; [done|]. simpl.
  assert (idleEntry <$> connections m !! c = Some (Some e)) as Hc by (apply (wf_idle _ _ Hwf); rewrite Hi; by left).
  destruct (connections m !! c) as [st|] eqn:Hst; [|done]. rewrite map_size_delete_Some; [by exists st|].
  assert (size (connections m) ≠ 0) as Hpos; [|lia]. intros Hz%map_size_empty_inv. by rewrite Hz lookup_empty in Hst.
Qed.

(** The connection that is popped has been idle for at least as long as any other. *)
Lemma pop_oldest now m :
  wf now m →
  match (popOldestIdleConnection m).1 with
  | None => ∀ c st, connections m !! c = Some st → idleEntry st = None
  | Some c => (∃ st, connections m !! c = Some st ∧ idleEntry st ≠ None) ∧
      ∀ c' st, connections m !! c' = Some st → idleEntry st ≠ None → (since m c ≤ since m c')%Z
  end.
Proof.
  intros [Hnd Hidle Hfresh Hpast Hord]. unfold popOldestIdleConnection. destruct (idle m) as [|[e c] rest] eqn:Hi; simpl.
  - intros c st Hst. destruct (idleEntry st) as [e|] eqn:He; [|done].
    exfalso. apply (not_elem_of_nil (e, c)). apply Hidle. by rewrite Hst /= He.
  - assert (idleEntry <$> connections m !! c = Some (Some e)) as Hc by (apply Hidle; by left).
    destruct (connections m !! c) as [st|] eqn:Hst; simplify_eq/=. split.
    + exists st. split; [done|]. by destruct (idleEntry st).
    + intros c' st' Hst' Hne. destruct (idleEntry st') as [e'|] eqn:He'; [|done].
      assert ((e', c') ∈ (e, c) :: rest) as [[= -> ->]|Hin]%elem_of_cons; [|done|].
      { apply Hidle. by rewrite Hst' /= He'. }
      apply StronglySorted_inv in Hord as [_ Hall]. rewrite Forall_forall in Hall. by apply (Hall (e', c')).
Qed.

(** What happens to the manager: a connection changes its state, or the listener takes
    the oldest idle connection. *)
Inductive event := Reported (c : conn) (st : ConnectionState) | Popped.

Definition happens (now : Z) (ev : event) (m : manager) : manager :=
  match ev with
  | Reported c st => ConnState now c st m
  | Popped => (popOldestIdleConnection m).2
  end.

(** A run of events with the times at which they happen; the server reports a
    connection as idle only after it was active. *)
Inductive reached : Z → manager → Prop :=
| reached_new now : reached now NewConnectionPressureManager
| reached_event now now' ev m :
    reached now m → (now ≤ now')%Z →
    (∀ c, ev = Reported c StateIdle → is_Some (connections m !! c)) →
    reached now' (happens now' ev m).

Lemma reached_wf now m : reached now m → wf now m ∧ counted m.
Proof.
  induction 1 as [now|now now' ev m _ [Hwf Hcount] Hle Hidle].
  - split; [|done]. split; simpl; [apply NoDup_nil_2 | | by intros e c ?%not_elem_of_nil | done | constructor].
    intros e c. rewrite lookup_empty /= elem_of_nil. done.
  - apply (wf_later now now') in Hwf; [|done]. destruct ev as [c st|]; simpl.
    + split; [by apply ConnState_wf|]. apply ConnState_counted; [|done]. intros ->. by apply Hidle.
    + split; [by apply pop_wf | by eapply pop_counted].
Qed.
End Pressure.

Module Listener.
Import Pressure.

(** Where the goroutine that accepts connections is. *)
Inductive acceptor :=
| Ready             (* outside of Accept *)
| Called            (* 68: the first select of acquire *)
| Full              (* 78: CloseOldestIdleConnection *)
| Closing (c : conn) (* pressure manager 81: the popped connection is closed *)
| Releasing (c : conn) (failed : bool) (* 113: it is closed, its slot is to be given back *)
| Checked           (* 89: no idle connection was found, or one was closed *)
| Waiting           (* 90: in the second select *)
| Holding.          (* 54: with a slot, in the Accept of the inner listener *)

(** [pkg/httpserver/connection_limit_listener.go:11-26] connectionLimitListener: its
    slots, the connections that were accepted and are open, those that have not given
    their slot back, the calls of Close that have closed their connection and are to
    give the slot back, and the manager *)
Record system := {
  slots : nat;
  open : gset conn;
  unreleased : gset conn;
  closes : list conn;
  accepted : nat;
  shut : bool;
  at_ : acceptor;
  mgr : manager;
  time : Z;
}.

(** [pkg/httpserver/connection_limit_listener.go:28-47] NewConnectionLimitListener;
    [None] is the inner listener, without a limit *)
Definition NewConnectionLimitListener (MaxConnections : Z) : option system :=
  if (MaxConnections <=? 0)%Z then None
  else Some {| slots := 0; open := ∅; unreleased := ∅; closes := []; accepted := 0; shut := false; at_ := Ready;
               mgr := NewConnectionPressureManager; time := 0 |}.

Section Listener.
Context (MaxConnections : Z).
Implicit Types (s : system).

Definition goes (a : acceptor) s : system :=
  {| slots := slots s; open := open s; unreleased := unreleased s; closes := closes s; accepted := accepted s;
     shut := shut s; at_ := a; mgr := mgr s; time := time s |}.
Definition with_slots (n : nat) (o u : gset conn) s : system :=
  {| slots := n; open := o; unreleased := u; closes := closes s; accepted := accepted s; shut := shut s; at_ := at_ s;
     mgr := mgr s; time := time s |}.
Definition with_closes (l : list conn) s : system :=
  {| slots := slots s; open := open s; unreleased := unreleased s; closes := l; accepted := accepted s; shut := shut s;
     at_ := at_ s; mgr := mgr s; time := time s |}.
Definition with_mgr (m : manager) s : system :=
  {| slots := slots s; open := open s; unreleased := unreleased s; closes := closes s; accepted := accepted s;
     shut := shut s; at_ := at_ s; mgr := m; time := time s |}.

(** The two steps of limitedConn.Close: the connection is closed, and then the slot is
    given back. *)
Inductive close_part := CloseInner | ReleaseOnce.

(** [pkg/httpserver/connection_limit_listener.go:108-116] limitedConn.Close; a slot is
    given back once *)
Definition conn_Close (part : close_part) (c : conn) s : system :=
  match part with
  | CloseInner => with_slots (slots s) (open s ∖ {[c]}) (unreleased s) s
  | ReleaseOnce =>
      if decide (c ∈ unreleased s) then with_slots (slots s - 1) (open s) (unreleased s ∖ {[c]}) s else s
  end.

(** The steps of acquire: a select that takes a slot or finds the listener closed, or
    that goes on otherwise; the pop and the close of a connection, which may fail. *)
Inductive action := TakeSlot | SeeClosed | GoOn | Pop | CloseConn (failed : bool) | ReleaseConn.

(** [pkg/httpserver/connection_limit_listener.go:67-98] connectionLimitListener.acquire *)
Definition acquire (a : action) s : option system :=
  let room := decide (Z.of_nat (slots s) < MaxConnections)%Z in
  match at_ s, a with
  | Called, TakeSlot | Waiting, TakeSlot =>
      if room then Some (goes Holding (with_slots (S (slots s)) (open s) (unreleased s) s)) else None
  | Called, SeeClosed | Waiting, SeeClosed => if shut s then Some (goes Ready s) else None
  | Called, GoOn => if room then None else if shut s then None else Some (goes Full s)
  | Full, Pop =>
      match popOldestIdleConnection (mgr s) with
      | (None, m) => Some (goes Checked (with_mgr m s))
      | (Some c, m) => Some (goes (Closing c) (with_mgr m s))
      end
  | Closing c, CloseConn failed => Some (goes (Releasing c failed) (conn_Close CloseInner c s))
  | Releasing c failed, ReleaseConn => Some (goes (if failed then Full else Checked) (conn_Close ReleaseOnce c s))
  | Checked, GoOn => Some (goes Waiting s)
  | _, _ => None
  end.

(** [pkg/httpserver/connection_limit_listener.go:49-65] connectionLimitListener.Accept
    around acquire: the call, and what the inner listener returns *)
Definition Accept (res : option bool) s : option system :=
  match at_ s, res with
  | Ready, None => Some (goes Called s)
  | Holding, Some true =>
      Some {| slots := slots s; open := {[accepted s]} ∪ open s; unreleased := {[accepted s]} ∪ unreleased s;
              closes := closes s; accepted := S (accepted s); shut := shut s; at_ := Ready; mgr := mgr s; time := time s |}
  | Holding, Some false => Some (goes Ready (with_slots (slots s - 1) (open s) (unreleased s) s))
  | _, _ => None
  end.

(** [pkg/httpserver/connection_pressure_manager.go:110-115] a connection that becomes
    idle wakes the acceptor up if it waits, and is not remembered otherwise *)
Definition notifyIdleConnectionAvailable s : system :=
  match at_ s with Waiting => goes Full s | _ => s end.

Definition report (c : conn) (st : ConnectionState) s : system :=
  let s := with_mgr (ConnState (time s) c st (mgr s)) s in
  match st with StateIdle => notifyIdleConnectionAvailable s | _ => s end.

(** The steps; any goroutine of the server can close a connection, also more than once. *)
Inductive step s : system → Prop :=
| step_acquire a s' : acquire a s = Some s' → step s s'
| step_accept res s' : Accept res s = Some s' → step s s'
| step_close c : c < accepted s → step s (with_closes (c :: closes s) (conn_Close CloseInner c s))
| step_release c l1 l2 :
    closes s = l1 ++ c :: l2 → step s (with_closes (l1 ++ l2) (conn_Close ReleaseOnce c s))
| step_report c st : c < accepted s → step s (report c st s)
| step_shut :
    step s {| slots := slots s; open := open s; unreleased := unreleased s; closes := closes s; accepted := accepted s;
              shut := true; at_ := at_ s; mgr := mgr s; time := time s |}
| step_time t :
    (time s ≤ t)%Z →
    step s {| slots := slots s; open := open s; unreleased := unreleased s; closes := closes s; accepted := accepted s;
              shut := shut s; at_ := at_ s; mgr := mgr s; time := t |}.

Definition holding s : nat := match at_ s with Holding => 1 | _ => 0 end.

(** The connections that are closed and whose slot is being given back. *)
Definition releasing s : gset conn :=
  list_to_set (closes s) ∪ match at_ s with Releasing c _ => {[c]} | _ => ∅ end.

(** Every slot belongs to a connection that has not given it back, which is open or about
    to give it back, or to the acceptor. *)
Record inv s : Prop := {
  inv_slots : slots s = size (unreleased s) + holding s;
  inv_limit : (Z.of_nat (slots s) ≤ MaxConnections)%Z;
  inv_open : open s ⊆ unreleased s;
  inv_accepted c : c ∈ unreleased s → c < accepted s;
  inv_closed : releasing s ## open s;
  inv_releasing : unreleased s ⊆ open s ∪ releasing s;
  inv_known c : c ∈ releasing s → c < accepted s;
  inv_popped c : at_ s = Closing c → c < accepted s;
  inv_idle c : c ∈ dom (connections (mgr s)) → c < accepted s;
  inv_wf : wf (time s) (mgr s);
}.

Lemma inv_goes a s :
  (match a with Holding => 1 | _ => 0 end) = holding s →
  match a with Releasing _ _ => False | Closing c => c < accepted s | _ => True end →
  match at_ s with Releasing _ _ => False | _ => True end → inv s → inv (goes a s).
Proof.
  intros Ha Hr Hs [Hsl Hl Ho Hacc Hcl Hrel Hk Hp Hi Hw]. split; unfold holding, releasing in *; simpl in *; try done.
  - by rewrite Ha.
  - destruct a, (at_ s); try done; set_solver.
  - destruct a, (at_ s); try done; set_solver.
  - destruct a, (at_ s); try done; set_solver.
  - intros c ->. done.
Qed.

(** The slots, the connections that hold one, and what is given back change alike. *)
Lemma inv_release c s l a :
  inv s → (∀ x, x ∈ releasing s ↔ x = c ∨ x ∈ (list_to_set l ∪ match a with Releasing c _ => {[c]} | _ => ∅ end : gset conn)) →
  (match a with Holding => 1 | _ => 0 end) = holding s → (∀ c', a = Closing c' → at_ s = Closing c') →
  inv (goes a (with_closes l (conn_Close ReleaseOnce c s))).
Proof.
  intros [Hsl Hl Ho Hacc Hcl Hrel Hk Hp Hi Hw] Hc Ha Hcl'.
  assert (c ∉ open s) as Hno by (assert (c ∈ releasing s) by (apply Hc; by left); set_solver).
  unfold conn_Close. case_decide as Hd.
  - assert (size (unreleased s ∖ {[c]}) = size (unreleased s) - 1) as Hsize.
    { rewrite size_difference ?size_singleton //. set_solver. }
    assert (0 < size (unreleased s)).
    { assert (size (unreleased s) ≠ 0); [|lia]. intros Hz%size_empty_inv. set_solver. }
    split; unfold holding, releasing in *; simpl in *; try done.
    + rewrite Ha Hsize. lia.
    + lia.
    + set_solver.
    + set_solver.
    + intros x Hx. apply Hcl, Hc. by right.
    + intros x Hx%elem_of_difference. destruct Hx as [Hx Hxc]. apply Hrel in Hx as [Hx|Hx]%elem_of_union; [set_solver|].
      apply Hc in Hx as [->|Hx]; [set_solver | set_solver].
    + intros x Hx. apply Hk, Hc. by right.
    + intros c' ->. by apply Hp, Hcl'.
  - split; unfold holding, releasing in *; simpl in *; try done.
    + by rewrite Ha.
    + intros x Hx. apply Hcl, Hc. by right.
    + intros x Hx. pose proof Hx as [?|Hx']%Hrel%elem_of_union; [set_solver|]. apply Hc in Hx' as [->|?]; set_solver.
    + intros x Hx. apply Hk, Hc. by right.
    + intros c' ->. by apply Hp, Hcl'.
Qed.

Lemma inv_close c s l a :
  inv s → c < accepted s → (∀ x, x ∈ (list_to_set l ∪ match a with Releasing c _ => {[c]} | _ => ∅ end : gset conn) ↔ x = c ∨ x ∈ releasing s) →
  (match a with Holding => 1 | _ => 0 end) = holding s → (∀ c', a = Closing c' → at_ s = Closing c') →
  inv (goes a (with_closes l (conn_Close CloseInner c s))).
Proof.
  intros [Hsl Hl Ho Hacc Hcl Hrel Hk Hp Hi Hw] Hlt Hc Ha Hcl'.
  split; unfold holding in *; simpl in *; try done.
  - by rewrite Ha.
  - set_solver.
  - unfold releasing. simpl. intros x [->|Hx]%Hc; [set_solver|]. specialize (Hcl x Hx). set_solver.
  - unfold releasing. simpl. intros x Hx. destruct (decide (x = c)) as [->|Hne]; [apply elem_of_union_r, Hc; by left|].
    apply Hrel in Hx as [Hx|Hx]%elem_of_union; [set_solver|]. apply elem_of_union_r, Hc. by right.
  - unfold releasing. simpl. intros x [->|Hx]%Hc; [done | by apply Hk].
  - intros c' ->. by apply Hp, Hcl'.
Qed.

Lemma inv_mgr m s :
  wf (time s) m → (∀ c, c ∈ dom (connections m) → c < accepted s) → inv s → inv (with_mgr m s).
Proof. intros Hm Hd [Hsl Hl Ho Hacc Hcl Hrel Hk Hp Hi Hw]. by split. Qed.

Lemma ConnState_dom now c st m : wf now m → dom (connections (ConnState now c st m)) ⊆ {[c]} ∪ dom (connections m).
Proof.
  intros Hwf. destruct (removeIdle_wf now c m Hwf) as (_ & _ & _ & _ & _ & Hd & _).
  destruct st; simpl; unfold markActive, markIdle, remove; simpl; rewrite ?dom_insert_L ?Hd; try set_solver;
    case_match; simpl; rewrite ?dom_delete_L ?Hd; set_solver.
Qed.

Lemma pop_dom now m c :
  wf now m → (popOldestIdleConnection m).1 = Some c → c ∈ dom (connections m).
Proof.
  intros Hwf. unfold popOldestIdleConnection. destruct (idle m) as [|[e c'] rest] eqn:Hi; [done|]. intros [= ->].
  assert (idleEntry <$> connections m !! c = Some (Some e)) as Hc by (apply (wf_idle _ _ Hwf); rewrite Hi; by left).
  apply elem_of_dom. by destruct (connections m !! c).
Qed.

Lemma pop_dom_rest m c : c ∈ dom (connections (popOldestIdleConnection m).2) → c ∈ dom (connections m).
Proof. unfold popOldestIdleConnection. destruct (idle m) as [|[]]; simpl; [done|]. rewrite dom_delete_L. set_solver. Qed.

Lemma acquire_inv a s s' : inv s → acquire a s = Some s' → inv s'.
Proof.
  intros Hinv Ha. unfold acquire in Ha. destruct (at_ s) eqn:Hat, a; try done.
  - case_decide; [|done]. injection Ha as <-. destruct Hinv as [Hsl Hl Ho Hacc Hcl Hrel Hk Hp Hi Hw].
    split; unfold holding, releasing in *; rewrite ?Hat /= in Hsl Hcl Hrel Hk |- *; try done; lia.
  - destruct (shut s); [|done]. injection Ha as <-. apply inv_goes; unfold holding; rewrite ?Hat //.
  - case_decide; [done|]. destruct (shut s); [done|]. injection Ha as <-. apply inv_goes; unfold holding; rewrite ?Hat //.
  - pose proof (pop_wf _ _ (inv_wf _ Hinv)) as Hw. pose proof (pop_dom (time s) (mgr s)) as Hpd. pose proof (pop_dom_rest (mgr s)) as Hpr.
    destruct (popOldestIdleConnection (mgr s)) as [[c|] m]; injection Ha as <-; simpl in *;
      (apply inv_goes; [unfold holding; by rewrite /= Hat | | by rewrite /= Hat |
        apply inv_mgr; [done | intros x Hx; by apply (inv_idle _ Hinv), Hpr | done]]); [|done].
    apply (inv_idle _ Hinv). by eapply Hpd; [apply (inv_wf _ Hinv)|].
  - injection Ha as <-. apply (inv_close c s (closes s) (Releasing c failed)); [done|by apply (inv_popped _ Hinv)| |unfold holding; by rewrite Hat|done].
    intros x. unfold releasing. rewrite Hat. set_solver.
  - injection Ha as <-.
    assert (conn_Close ReleaseOnce c s = with_closes (closes s) (conn_Close ReleaseOnce c s)) as Hsame
      by (unfold conn_Close; case_decide; by destruct s).
    cbn [conn_Close] in Hsame |- *. rewrite Hsame. apply (inv_release c s (closes s)); [done| |unfold holding; rewrite Hat; by destruct failed|by destruct failed].
    intros x. unfold releasing. rewrite Hat. destruct failed; set_solver.
  - injection Ha as <-. apply inv_goes; unfold holding; rewrite ?Hat //.
  - case_decide; [|done]. injection Ha as <-. destruct Hinv as [Hsl Hl Ho Hacc Hcl Hrel Hk Hp Hi Hw].
    split; unfold holding, releasing in *; rewrite ?Hat /= in Hsl Hcl Hrel Hk |- *; try done; lia.
  - destruct (shut s); [|done]. injection Ha as <-. apply inv_goes; unfold holding; rewrite ?Hat //.
Qed.

Lemma Accept_inv res s s' : inv s → Accept res s = Some s' → inv s'.
Proof.
  intros Hinv Hr. unfold Accept in Hr. destruct (at_ s) eqn:Hat, res as [[]|]; try done; injection Hr as <-.
  - apply inv_goes; unfold holding; rewrite ?Hat //.
  - destruct Hinv as [Hsl Hl Ho Hacc Hcl Hrel Hk Hp Hi Hw]. unfold holding, releasing in *. rewrite Hat in Hsl Hcl Hrel Hk.
    assert (accepted s ∉ unreleased s) as Hnew by (intros ?%Hacc; lia).
    split; unfold holding, releasing; simpl; try done.
    + rewrite size_union ?size_singleton; [set_solver | lia].
    + set_solver.
    + intros c [->%elem_of_singleton|Hc%Hacc]%elem_of_union; lia.
    + intros x Hx [->%elem_of_singleton|Hx']%elem_of_union; [apply Hk in Hx; lia | by eapply Hcl].
    + set_solver.
    + intros c Hc%Hk. lia.
    + intros c Hc%Hi. lia.
  - destruct Hinv as [Hsl Hl Ho Hacc Hcl Hrel Hk Hp Hi Hw]. unfold holding, releasing in *. rewrite Hat in Hsl Hcl Hrel Hk.
    split; unfold holding, releasing; simpl; try done; lia.
Qed.

Lemma report_inv c st s : c < accepted s → inv s → inv (report c st s).
Proof.
  intros Hc Hinv. assert (inv (with_mgr (ConnState (time s) c st (mgr s)) s)) as Hm.
  { apply inv_mgr; [by apply ConnState_wf, inv_wf| |done]. intros x Hx%ConnState_dom; [|by apply inv_wf].
    apply elem_of_union in Hx as [->%elem_of_singleton|Hx]; [done | by apply (inv_idle _ Hinv)]. }
  unfold report. destruct st; try done. unfold notifyIdleConnectionAvailable. simpl.
  destruct (at_ s) eqn:Hat; try done. apply inv_goes; [unfold holding; by rewrite /= Hat | done | by rewrite /= Hat | done].
Qed.

Lemma goes_same s : goes (at_ s) s = s.
Proof. by destruct s. Qed.

Lemma listener_inv_step s s' : inv s → step s s' → inv s'.
Proof.
  intros Hinv Hstep. destruct Hstep as [a s' Ha|res s' Hr|c Hc|c l1 l2 Hc|c st Hc| |t Ht].
  - by eapply acquire_inv.
  - by eapply Accept_inv.
  - apply (inv_close c s (c :: closes s) (at_ s)); [done..| |done|done]. intros x. unfold releasing. simpl. set_solver.
  - assert (at_ (with_closes (l1 ++ l2) (conn_Close ReleaseOnce c s)) = at_ s) as Hat by (unfold conn_Close; by case_decide).
    rewrite -(goes_same (with_closes (l1 ++ l2) (conn_Close ReleaseOnce c s))) Hat. apply inv_release; [done| |done|done]. intros x. unfold releasing. rewrite Hc. set_solver.
  - by apply report_inv.
  - destruct Hinv as [Hsl Hl Ho Hacc Hcl Hrel Hk Hp Hi Hw]. by split.
  - destruct Hinv as [Hsl Hl Ho Hacc Hcl Hrel Hk Hp Hi Hw]. split; try done. by eapply wf_later.
Qed.

Lemma listener_inv s0 s : NewConnectionLimitListener MaxConnections = Some s0 → rtc step s0 s → inv s.
Proof.
  unfold NewConnectionLimitListener. destruct (Z.leb_spec MaxConnections 0); [done|]. intros [= <-].
  apply rtc_invariant; [intros x y; apply listener_inv_step|]. split; simpl; try set_solver; try done; [lia|].
  split; simpl; try set_solver; try constructor. 
Qed.
End Listener.
End Listener.

Import Pressure Listener.

(** The manager stays well formed whatever the server reports and whenever idle
    connections are taken from it: the list holds exactly the connections that are
    idle, each once, in the order in which they became idle; the next connection to
    be closed has been idle for the longest time; and the recorder has counted as
    many connections open and not closed as the manager knows. *)
Theorem manager_wellformed now m :
  reached now m →
  wf now m ∧ opened m = closed m + size (connections m) ∧
  match (popOldestIdleConnection m).1 with
  | None => ∀ c st, connections m !! c = Some st → idleEntry st = None
  | Some c => (∃ st, connections m !! c = Some st ∧ idleEntry st ≠ None) ∧
      ∀ c' st, connections m !! c' = Some st → idleEntry st ≠ None → (since m c ≤ since m c')%Z
  end.
Proof. intros [Hwf Hc]%reached_wf. split; [done|]. split; [done|]. by eapply pop_oldest. Qed.

(** C31: No more connections are open than a positive MaxConnections, however the
    connections, the calls of Close, the reports of the server and the acceptor interleave;
    the slots that are taken are those of the connections that are open or being closed and
    the one of an acceptor that waits for a connection, so none is lost.  A limit that is
    not positive is none: the inner listener is returned. *)
Theorem connections_limited MaxConnections :
  match NewConnectionLimitListener MaxConnections with
  | None => (MaxConnections ≤ 0)%Z
  | Some s0 => ∀ s, rtc (step MaxConnections) s0 s →
      (Z.of_nat (size (open s)) ≤ MaxConnections)%Z ∧ (Z.of_nat (slots s) ≤ MaxConnections)%Z ∧
      slots s = size (unreleased s) + holding s ∧ open s ⊆ unreleased s ⊆ open s ∪ releasing s
  end.
Proof.
  destruct (NewConnectionLimitListener MaxConnections) as [s0|] eqn:Hnew.
  - intros s Hs. pose proof (listener_inv _ _ _ Hnew Hs) as [Hsl Hl Ho _ _ Hrel _ _ _ _].
    pose proof (subseteq_size _ _ Ho). split_and!; [lia|done..].
  - unfold NewConnectionLimitListener in Hnew. destruct (Z.leb_spec MaxConnections 0); [done|discriminate].
Qed.

(** An acceptor that waits for a slot goes on when a connection has been closed, and
    closes the oldest idle connection when one becomes idle; but a connection that
    became idle after the acceptor has looked for one and before it waits does not
    wake it up: it waits although there is an idle connection. *)
Theorem acceptor_wakeups MaxConnections :
  (∀ s0 s c, NewConnectionLimitListener MaxConnections = Some s0 → rtc (step MaxConnections) s0 s →
     at_ s = Waiting → c ∈ open s →
     is_Some (acquire MaxConnections TakeSlot (conn_Close ReleaseOnce c (conn_Close CloseInner c s)))) ∧
  (∀ s c, at_ s = Waiting → at_ (report c StateIdle s) = Full ∧
     is_Some (popOldestIdleConnection (mgr (report c StateIdle s))).1) ∧
  (∃ s0 s, NewConnectionLimitListener 1 = Some s0 ∧ rtc (step 1) s0 s ∧ at_ s = Waiting ∧ idle (mgr s) ≠ [] ∧
     ∀ a, acquire 1 a s = None).
Proof.
  split_and!.
  - intros s0 s c Hnew Hs Hat Hc. destruct (listener_inv _ _ _ Hnew Hs) as [Hsl Hl Ho _ _ _ _ _ _ _].
    assert (c ∈ unreleased s) as Hu by set_solver. unfold conn_Close. simpl. rewrite decide_True //.
    unfold acquire. simpl. rewrite Hat decide_True; [|done]. unfold holding in Hsl. rewrite Hat in Hsl.
    assert (size (unreleased s) ≠ 0); [|lia]. intros Hz%size_empty_inv. set_solver.
  - intros s c Hat. unfold report, notifyIdleConnectionAvailable. simpl. rewrite Hat. split; [done|].
    unfold popOldestIdleConnection, markIdle. simpl. by destruct (idle (removeIdle c (mgr s))) as [|[]].
  - do 2 eexists. split; [reflexivity|]. split; [|split; [|split]].
    + eapply rtc_l; [eapply (step_accept _ _ None); reflexivity|].
      eapply rtc_l; [eapply (step_acquire _ _ TakeSlot); reflexivity|].
      eapply rtc_l; [eapply (step_accept _ _ (Some true)); reflexivity|].
      eapply rtc_l; [apply (step_report _ _ 0 StateActive); simpl; lia|].
      eapply rtc_l; [eapply (step_accept _ _ None); reflexivity|].
      eapply rtc_l; [eapply (step_acquire _ _ GoOn); reflexivity|].
      eapply rtc_l; [eapply (step_acquire _ _ Pop); reflexivity|].
      eapply rtc_l; [apply (step_report _ _ 0 StateIdle); simpl; lia|].
      eapply rtc_l; [eapply (step_acquire _ _ GoOn); reflexivity|]. apply rtc_refl.
    + reflexivity.
    + discriminate.
    + by intros [].
Qed.

Module Requests.
(** [pkg/httpserver/settings.go:70-82] ConcurrencySettings for requests *)
Record ConcurrencySettings := { MaxRequests : Z; OverloadStatusCode : Z; RetryAfter : Z }.

Definition Second : Z := 1000000000.

(** [pkg/httpserver/middleware_concurrency.go:41-55] writeRetryAfterHeader: the header *)
Definition writeRetryAfterHeader (retryAfter : Z) : option Z :=
  if (retryAfter <=? 0)%Z then None
  else
    let seconds := Z.quot retryAfter Second in
    let seconds := if negb (Z.rem retryAfter Second =? 0)%Z then (seconds + 1)%Z else seconds in
    Some (if (seconds <=? 0)%Z then 1%Z else seconds).

(** What a request gets: the next handler, or the answer of the middleware. *)
Inductive outcome := Handled | Rejected (status : Z) (retryAfter : option Z).

(** [pkg/httpserver/middleware_concurrency.go:14-39] ConcurrentRequestLimitMiddleware:
    a request that arrives while [inFlight] requests hold the semaphore *)
Definition ConcurrentRequestLimitMiddleware (settings : ConcurrencySettings) (inFlight : nat) : nat * outcome :=
  if (MaxRequests settings <=? 0)%Z then (inFlight, Handled)
  else if decide (Z.of_nat inFlight < MaxRequests settings)%Z then (S inFlight, Handled)
  else (inFlight, Rejected (OverloadStatusCode settings) (writeRetryAfterHeader (RetryAfter settings))).

(** A request arrives, or one that is handled returns. *)
Inductive event := Arrives | Returns.

(** The requests that are handled, and the outcomes so far, the last one first. *)
Fixpoint serve (settings : ConcurrencySettings) (evs : list event) (sem handling : nat) (outs : list outcome) :
    nat * nat * list outcome :=
  match evs with
  | [] => (sem, handling, outs)
  | Arrives :: evs =>
      let '(sem, out) := ConcurrentRequestLimitMiddleware settings sem in
      serve settings evs sem (match out with Handled => S handling | Rejected _ _ => handling end) (out :: outs)
  | Returns :: evs =>
      (* the deferred receive, in a middleware with a semaphore *)
      match handling with
      | 0 => serve settings evs sem handling outs
      | S h => serve settings evs (if (MaxRequests settings <=? 0)%Z then sem else sem - 1) h outs
      end
  end.

Lemma serve_limit settings evs sem handling outs :
  (0 < MaxRequests settings)%Z → sem = handling → (Z.of_nat sem ≤ MaxRequests settings)%Z →
  let '(sem', handling', _) := serve settings evs sem handling outs in
  sem' = handling' ∧ (Z.of_nat sem' ≤ MaxRequests settings)%Z.
Proof.
  intros Hmax. revert sem handling outs. induction evs as [|[] evs IH]; intros sem handling outs Heq Hle; simpl; [done|..].
  - unfold ConcurrentRequestLimitMiddleware. rewrite (proj2 (Z.leb_gt (MaxRequests settings) 0)) //.
    case_decide; apply IH; lia.
  - rewrite (proj2 (Z.leb_gt (MaxRequests settings) 0)) //. destruct handling; apply IH; lia.
Qed.

(** No more requests are handled at a time than MaxRequests; a request is rejected
    only when there are as many, with the configured status and a Retry-After of the
    configured time, rounded up to full seconds; a limit of 0 lets every request pass. *)
Theorem requests_limited settings evs :
  let '(sem, handling, _) := serve settings evs 0 0 [] in
  ((0 < MaxRequests settings)%Z → (Z.of_nat handling ≤ MaxRequests settings)%Z ∧
     (ConcurrentRequestLimitMiddleware settings sem).2 =
       if decide (Z.of_nat handling = MaxRequests settings)
       then Rejected (OverloadStatusCode settings) (writeRetryAfterHeader (RetryAfter settings)) else Handled) ∧
  ((MaxRequests settings ≤ 0)%Z → ∀ n, ConcurrentRequestLimitMiddleware settings n = (n, Handled)) ∧
  (match writeRetryAfterHeader (RetryAfter settings) with
   | None => RetryAfter settings ≤ 0
   | Some seconds => (seconds - 1) * Second < RetryAfter settings ≤ seconds * Second
   end)%Z.
Proof.
  destruct (serve settings evs 0 0 []) as [[sem handling] outs] eqn:Hs. split_and!.
  - intros Hmax. pose proof (serve_limit settings evs 0 0 [] Hmax eq_refl ltac:(simpl; lia)) as Hl.
    rewrite Hs in Hl. destruct Hl as [-> Hle]. split; [done|]. unfold ConcurrentRequestLimitMiddleware.
    rewrite (proj2 (Z.leb_gt (MaxRequests settings) 0)) //. repeat case_decide; try done; lia.
  - intros Hmax n. unfold ConcurrentRequestLimitMiddleware. by rewrite (proj2 (Z.leb_le (MaxRequests settings) 0)).
  - unfold writeRetryAfterHeader. destruct (Z.leb_spec (RetryAfter settings) 0) as [Hr|Hr]; [done|].
    pose proof (Z.quot_rem' (RetryAfter settings) Second) as Heq.
    pose proof (Z.rem_bound_pos (RetryAfter settings) Second ltac:(lia) ltac:(done)) as Hb. unfold Second in *.
    destruct (Z.eqb_spec (Z.rem (RetryAfter settings) 1000000000) 0); simpl; case_match eqn:Hle;
      rewrite ?Z.leb_le ?Z.leb_gt in Hle; lia.
Qed.

(** [pkg/httpserver/connection_lifecycle_advisor.go:37-40] trafficEntry *)
Record trafficEntry := { requestCount : Z; activeSince : Z }.

#[export] Instance zero_trafficEntry : Zero trafficEntry := {| requestCount := 0; activeSince := 0 |}.

(** [pkg/httpserver/connection_lifecycle_advisor.go:112-118] trafficEntry.ShouldClose *)
Definition ShouldClose (entry : trafficEntry) (maxAge maxRequestCount instant : Z) : bool :=
  if (0 <? maxRequestCount)%Z && (maxRequestCount <=? requestCount entry)%Z then true
  else (0 <? maxAge)%Z && (activeSince entry + maxAge <? instant)%Z.

(** [pkg/httpserver/connection_lifecycle_advisor.go:85-110]
    connectionLifeCycleAdvisor.ShouldCloseConnection; the clock does not move *)
Definition ShouldCloseConnection {I B} `{!CCache trafficEntry I B} (isZero : trafficEntry → bool)
    (maxAge maxRequestCount now : Z) (remoteAddr : string) (c : cache B) : cache B * bool :=
  if bool_decide (remoteAddr = ""%string) then (c, false)
  else
    let '(c, entry) := Mutate isZero now remoteAddr
      (λ entry, let e := default {| requestCount := 0; activeSince := now |} entry in
                {| requestCount := requestCount e + 1; activeSince := activeSince e |}) c in
    if ShouldClose entry maxAge maxRequestCount now then ((Delete remoteAddr c).1, true) else (c, false).
End Requests.

(** ** Witnesses *)

Definition sample_manager : manager := happens 5 (Reported 0 StateIdle) (happens 3 (Reported 0 StateActive) NewConnectionPressureManager).

Lemma sample_reached : reached 5 sample_manager.
Proof.
  apply (reached_event 3); [apply (reached_event 0); [apply reached_new | lia | by intros c [=]] | lia |].
  intros c [= <-]. vm_compute. by eexists.
Qed.

Lemma manager_wellformed_witness :
  (popOldestIdleConnection sample_manager).1 = Some 0 ∧ opened sample_manager = closed sample_manager + 1.
Proof.
  destruct (manager_wellformed 5 sample_manager sample_reached) as (_ & Hc & _).
  split; [vm_compute; reflexivity | exact Hc].
Defined.

Definition sample_listener : system :=
  {| slots := 1; open := ∅; unreleased := {[0]}; closes := [0]; accepted := 1; shut := false; at_ := Ready;
     mgr := NewConnectionPressureManager; time := 0 |}.

(** The only connection is closed, its slot is still taken. *)
Lemma connections_limited_witness :
  ∃ s0, NewConnectionLimitListener 1 = Some s0 ∧ rtc (step 1) s0 sample_listener ∧ slots sample_listener = 1 ∧
    (Z.of_nat (size (open sample_listener)) ≤ 1)%Z.
Proof.
  eexists. split; [reflexivity|].
  match goal with |- rtc _ ?s0 _ ∧ _ => assert (rtc (step 1) s0 sample_listener) as Hs end.
  { eapply rtc_l; [eapply (step_accept _ _ None); reflexivity|].
    eapply rtc_l; [eapply (step_acquire _ _ TakeSlot); reflexivity|].
    eapply rtc_l; [eapply (step_accept _ _ (Some true)); reflexivity|].
    eapply rtc_l; [apply (step_close _ _ 0); simpl; lia|].
    assert (({[0]} ∪ ∅) ∖ {[0]} = (∅ : gset conn)) as Ho by set_solver.
    assert ({[0]} ∪ ∅ = ({[0]} : gset conn)) as Hu by set_solver. unfold with_closes, conn_Close, with_slots. simpl.
    rewrite Ho Hu. apply rtc_refl. }
  split; [exact Hs|]. split; [reflexivity|]. exact (proj1 (connections_limited 1 sample_listener Hs)).
Defined.

Lemma acceptor_wakeups_witness :
  ∃ s0 s, NewConnectionLimitListener 1 = Some s0 ∧ rtc (step 1) s0 s ∧ at_ s = Waiting ∧ idle (mgr s) ≠ [] ∧
    ∀ a, acquire 1 a s = None.
Proof. exact (proj2 (proj2 (acceptor_wakeups 1))). Defined.
