(* ===== verification/SqlQuery.v ===== *)
(** The filters, orders and pages of a list request and the SQL query that is built
    from them: pkg/httpserver/sql/query_builder.go, with the metadata of
    pkg/db-repo/metadata.go, the builder of pkg/db-repo/query_builder.go and the one of
    pkg/db/query_builder.go.  The theorems relate the text and the arguments that the
    code builds to conditions with SQL's three truth values. *)
From Stdlib Require Import Ascii.
From S2P Require Import Prelude Num FunkSlice.

Open Scope string_scope.
Open Scope list_scope.
Open Scope nat_scope.

(** ** Strings *)

(** A character without its case, for ASCII. *)
Definition fold_case (a : ascii) : ascii :=
  let n := nat_of_ascii a in if (65 <=? n) && (n <=? 90) then ascii_of_nat (n + 32) else a.

(** The characters U+017F and U+212A in UTF-8, which fold to "s" and to "k". *)
Definition long_s (a b : ascii) : bool := (nat_of_ascii a =? 197) && (nat_of_ascii b =? 191).
Definition kelvin (a b c : ascii) : bool :=
  (nat_of_ascii a =? 226) && (nat_of_ascii b =? 132) && (nat_of_ascii c =? 170).

(** strings.EqualFold for a second argument of ASCII characters *)
Fixpoint EqualFold (s t : string) : bool :=
  match t with
  | EmptyString => match s with EmptyString => true | _ => false end
  | String b t =>
      match s with
      | EmptyString => false
      | String a s1 =>
          if decide (fold_case a = fold_case b) then EqualFold s1 t
          else match s1 with
               | EmptyString => false
               | String a1 s2 =>
                   if long_s a a1 && bool_decide (fold_case b = "s"%char) then EqualFold s2 t
                   else match s2 with
                        | EmptyString => false
                        | String a2 s3 =>
                            if kelvin a a1 a2 && bool_decide (fold_case b = "k"%char)
                            then EqualFold s3 t else false
                        end
               end
      end
  end.

(** The words that [Bool] may hold when more than one operand is joined with it. *)
Definition is_and (b : string) : bool := EqualFold b "AND".
Definition is_or (b : string) : bool := EqualFold b "OR".

(** ** Metadata *)
Module Metadata.
(** [pkg/db-repo/metadata.go:15-15] NullMode *)
Inductive NullMode := NullModeDefault | NullModeDistinct.

#[export] Instance NullMode_eq_dec : EqDecision NullMode.
Proof. solve_decision. Defined.

(** [pkg/db-repo/metadata.go:26-29] FieldMappingColumn *)
Record FieldMappingColumn := { Name : string; nullMode : NullMode }.

(** [pkg/db-repo/metadata.go:39-43] FieldMapping *)
Record FieldMapping := { Columns : list FieldMappingColumn; Joins : list string; mBool : string }.

(** [pkg/db-repo/metadata.go:17-22] Metadata, without the model id *)
Record Metadata := { TableName : string; PrimaryKey : string; Mappings : gmap string FieldMapping }.

(** [pkg/db-repo/metadata.go:57-65] FieldMapping.ColumnNames *)
Definition ColumnNames (f : FieldMapping) : list string :=
  fold_left (λ names c, names ++ [Name c]) (Columns f) [].

(** [pkg/db-repo/metadata.go:71-81] NewFieldMappingWithMode *)
Definition NewFieldMappingWithMode (column : string) (mode : NullMode) : FieldMapping :=
  {| Columns := [{| Name := column; nullMode := mode |}]; Joins := []; mBool := "OR" |}.

(** [pkg/db-repo/metadata.go:67-69] NewFieldMapping *)
Definition NewFieldMapping (column : string) : FieldMapping := NewFieldMappingWithMode column NullModeDefault.

(** [pkg/db-repo/metadata.go:87-94] FieldMapping.WithColumnWithMode *)
Definition WithColumnWithMode (column : string) (mode : NullMode) (f : FieldMapping) : FieldMapping :=
  {| Columns := Columns f ++ [{| Name := column; nullMode := mode |}]; Joins := Joins f; mBool := mBool f |}.

(** [pkg/db-repo/metadata.go:83-85] FieldMapping.WithColumn *)
Definition WithColumn (column : string) (f : FieldMapping) : FieldMapping :=
  WithColumnWithMode column NullModeDefault f.

(** [pkg/db-repo/metadata.go:96-100] FieldMapping.WithJoin *)
Definition WithJoin (join : string) (f : FieldMapping) : FieldMapping :=
  {| Columns := Columns f; Joins := Joins f ++ [join]; mBool := mBool f |}.

(** [pkg/db-repo/metadata.go:102-106] FieldMapping.WithBool *)
Definition WithBool (boolOp : string) (f : FieldMapping) : FieldMapping :=
  {| Columns := Columns f; Joins := Joins f; mBool := boolOp |}.
End Metadata.
Export Metadata.

(** ** The request *)
Section Request.
(** A value of the request: nil, a string or something else, for which [Sprint] is
    what fmt prints for the verb v. *)
Context {O : Type} (Sprint : O → string).

Inductive any := Nil | Str (s : string) | Other (o : O).

(** [pkg/httpserver/sql/query_builder.go:32-35] Order *)
Record Order := { Direction : string; Field : string }.

(** [pkg/httpserver/sql/query_builder.go:37-40] Page *)
Record Page := { Limit : Z; Offset : Z }.

(** [pkg/httpserver/sql/query_builder.go:48-52] FilterMatch *)
Record FilterMatch := { Values : list any; Dimension : string; Operator : string }.

(** [pkg/httpserver/sql/query_builder.go:42-46] Filter *)
Inductive Filter := mkFilter { Groups : list Filter; Matches : list FilterMatch; fBool : string }.

(** [pkg/httpserver/sql/query_builder.go:54-59] Input *)
Record Input := { iFilter : Filter; GroupBy : list string; iOrder : list Order; iPage : option Page }.

(** The errors of the package, with the texts that are formatted into them. *)
Inductive query_error :=
| NoMappingForDimension (dimension : string)
| NoMappingForGroupBy (field : string)
| NoMappingForOrder (field : string)
| NoTableName
| NoPrimaryKey
| InvalidDirection (direction : string)
| InvalidBoolean (b : string)
| OnlyNull (operator : string) (v : any)
| InvalidOperator (operator : string)
| ErrorForColumn (column : string) (err : query_error)
| CanNotBuildFilter (err : query_error).

(** ** The filter *)

Definition sprintf_v (v : any) : string :=
  match v with Nil => "<nil>" | Str s => s | Other o => Sprint o end.

Definition is_nil (v : any) : bool := match v with Nil => true | _ => false end.

(** [pkg/httpserver/sql/query_builder.go:315-323] isNullValue *)
Definition isNullValue (v : any) : bool :=
  match v with Nil => true | Str s => EqualFold s "null" | Other _ => false end.

Definition distinctNull (column : FieldMappingColumn) : bool := bool_decide (nullMode column = NullModeDistinct).

(** The six operators that are written as they are. *)
Definition comparisons : list string := ["="; "!="; "<"; ">"; "<="; ">="].

(** [pkg/httpserver/sql/query_builder.go:337-403] buildFilterColumn, the body of its loop: the statement
    for one value and its arguments.  EqualFold is symmetric; its constant is written
    as the second argument here. *)
Definition buildStatement (op : string) (column : FieldMappingColumn) (v : any) :
    result query_error (string * list any) :=
  let name := Name column in
  if EqualFold op "IS" then
    if negb (isNullValue v) then Err (OnlyNull "IS" v) else Ok (name +:+ " IS NULL", [])
  else if EqualFold op "IS NOT" then
    if negb (isNullValue v) then Err (OnlyNull "IS NOT" v) else Ok (name +:+ " IS NOT NULL", [])
  else if decide (op = "~") then Ok (name +:+ " LIKE ?", [Str ("%" +:+ sprintf_v v +:+ "%")])
  else if decide (op = "!~") then Ok (name +:+ " NOT LIKE ?", [Str ("%" +:+ sprintf_v v +:+ "%")])
  else if EqualFold op "LIKE" then Ok (name +:+ " LIKE ?", [v])
  else if EqualFold op "NOT LIKE" then Ok (name +:+ " NOT LIKE ?", [v])
  else if bool_decide (op = "=") && distinctNull column && is_nil v then Ok (name +:+ " IS NULL", [])
  else if bool_decide (op = "!=") && distinctNull column && is_nil v then Ok (name +:+ " IS NOT NULL", [])
  else if bool_decide (op = "!=") && distinctNull column && negb (is_nil v) then
    Ok (name +:+ " != ? OR " +:+ name +:+ " IS NULL", [v])
  else if bool_decide (op = "MEMBER OF") && negb (is_nil v) then Ok ("? MEMBER OF (" +:+ name +:+ ")", [v])
  else if bool_decide (op = "NOT MEMBER OF") && negb (is_nil v) then
    Ok ("NOT ? MEMBER OF (" +:+ name +:+ ")", [v])
  else if bool_decide (op = "MEMBER OF") && is_nil v then Ok ("(1 = 0)", [])
  else if bool_decide (op = "NOT MEMBER OF") && is_nil v then Ok ("(1 = 1)", [])
  else if bool_decide (op ∈ comparisons) then Ok (name +:+ " " +:+ op +:+ " ?", [v])
  else Err (InvalidOperator op).

(** [pkg/httpserver/sql/query_builder.go:436-455] buildSetPlaceholders *)
Definition buildSetPlaceholders (match_ : FilterMatch) (distinct : bool) : string * list any * bool :=
  let '(placeholders, filteredValues, hasNull) :=
    fold_left (λ '(placeholders, filteredValues, hasNull) value,
      if is_nil value && (bool_decide (Operator match_ = "!=") && distinct)
      then (placeholders, filteredValues, true)
      else (placeholders ++ ["?"], filteredValues ++ [value], hasNull || is_nil value))
      (Values match_) ([], [], false) in
  (String.concat "," placeholders, filteredValues, hasNull).

(** [pkg/httpserver/sql/query_builder.go:412-434] buildSetFilterColumn *)
Definition buildSetFilterColumn (match_ : FilterMatch) (column : FieldMappingColumn) : string * list any :=
  let distinct := distinctNull column in
  let eq := bool_decide (Operator match_ = "=") in
  let name := Name column in
  let '(placeholders, filteredValues, hasNull) := buildSetPlaceholders match_ distinct in
  let filter :=
    if distinct && hasNull && eq then "(" +:+ name +:+ " IN (" +:+ placeholders +:+ ") OR " +:+ name +:+ " IS NULL)"
    else if distinct && hasNull && negb eq then
      "(" +:+ name +:+ " NOT IN (" +:+ placeholders +:+ ") AND " +:+ name +:+ " IS NOT NULL)"
    else if distinct && negb hasNull && eq then "(" +:+ name +:+ " IN (" +:+ placeholders +:+ "))"
    else if distinct && negb hasNull && negb eq then
      "(" +:+ name +:+ " NOT IN (" +:+ placeholders +:+ ") OR " +:+ name +:+ " IS NULL)"
    else if eq then "(" +:+ name +:+ " IN (" +:+ placeholders +:+ "))"
    else "(" +:+ name +:+ " NOT IN (" +:+ placeholders +:+ "))" in
  (filter, filteredValues).

(** The loop of buildFilterColumn. *)
Fixpoint buildStatements (op : string) (column : FieldMappingColumn) (values : list any)
    (stmts : list string) (args : list any) : result query_error (list string * list any) :=
  match values with
  | [] => Ok (stmts, args)
  | v :: values =>
      let! (stmt, a) := buildStatement op column v in
      buildStatements op column values (stmts ++ [stmt]) (args ++ a)
  end.

(** [pkg/httpserver/sql/query_builder.go:325-410] buildFilterColumn *)
Definition buildFilterColumn (match_ : FilterMatch) (column : FieldMappingColumn) :
    result query_error (string * list any) :=
  let op := Operator match_ in
  if (bool_decide (op = "=") || bool_decide (op = "!=")) && (1 <? length (Values match_))
  then Ok (buildSetFilterColumn match_ column)
  else
    let! (stmts, args) := buildStatements op column (Values match_) [] [] in
    Ok ("(" +:+ String.concat " OR " stmts +:+ ")", args).

(** A word that may not join operands, when there are operands to join. *)
Definition invalid_boolean (b : string) (operands : list string) : bool :=
  negb (is_and b) && negb (is_or b) && (1 <? length operands).

Context (metadata : Metadata).

(** The loop of buildFilterValues over the columns of a mapping. *)
Fixpoint buildColumns (match_ : FilterMatch) (columns : list FieldMappingColumn)
    (stmts : list string) (args : list any) : result query_error (list string * list any) :=
  match columns with
  | [] => Ok (stmts, args)
  | column :: columns =>
      match buildFilterColumn match_ column with
      | Err err => Err (ErrorForColumn (Name column) err)
      | Ok (w, a) => buildColumns match_ columns (stmts ++ [w]) (args ++ a)
      end
  end.

(** [pkg/httpserver/sql/query_builder.go:280-311] buildFilterValues *)
Definition buildFilterValues (match_ : FilterMatch) : result query_error (string * list any) :=
  match Mappings metadata !! Dimension match_ with
  | None => Err (NoMappingForDimension (Dimension match_))
  | Some mapping =>
      if length (Values match_) =? 0 then Ok ("(1 = 2)", [])
      else
        let! (stmts, args) := buildColumns match_ (Columns mapping) [] [] in
        if invalid_boolean (mBool mapping) stmts then Err (InvalidBoolean (mBool mapping))
        else Ok ("(" +:+ String.concat (" " +:+ mBool mapping +:+ " ") stmts +:+ ")", args)
  end.

(** [pkg/httpserver/sql/query_builder.go:259-278] buildFilterMatches *)
Fixpoint buildFilterMatches (filterMatches : list FilterMatch) (where_ : list string) (args : list any) :
    result query_error (list string * list any) :=
  match filterMatches with
  | [] => Ok (where_, args)
  | m :: rest =>
      if decide (Dimension m = "") then buildFilterMatches rest where_ args
      else
        let! (values, valuesArgs) := buildFilterValues m in
        buildFilterMatches rest (where_ ++ [values]) (args ++ valuesArgs)
  end.

(** [pkg/httpserver/sql/query_builder.go:224-257] buildFilter *)
Fixpoint buildFilter (filter : Filter) : result query_error (string * list any) :=
  match filter with
  | mkFilter groups matches b =>
      if (length matches =? 0) && (length groups =? 0) then Ok ("", [])
      else
        let! (matchesWhere, args) := buildFilterMatches matches [] [] in
        let! (matchesWhere, args) :=
          (fix go groups matchesWhere args :=
            match groups with
            | [] => Ok (matchesWhere, args)
            | g :: groups =>
                let! (groupWhere, groupArgs) := buildFilter g in
                go groups (matchesWhere ++ [groupWhere]) (args ++ groupArgs)
            end) groups matchesWhere args in
        if invalid_boolean b matchesWhere then Err (InvalidBoolean b)
        else Ok ("(" +:+ String.concat (" " +:+ b +:+ " ") matchesWhere +:+ ")", args)
  end.

(** ** The joins *)

(** [pkg/httpserver/sql/query_builder.go:185-199] getJoinsFromOrder *)
Fixpoint getJoinsFromOrder (joins : list string) (order : list Order) : list string * option query_error :=
  match order with
  | [] => (joins, None)
  | o :: order =>
      match Mappings metadata !! Field o with
      | None => (joins, Some (NoMappingForDimension (Field o)))
      | Some mapping =>
          if length (Joins mapping) =? 0 then getJoinsFromOrder joins order
          else getJoinsFromOrder (joins ++ Joins mapping) order
      end
  end.

(** The first loop of getJoinsFromFilter. *)
Fixpoint getJoinsFromMatches (joins : list string) (matches : list FilterMatch) : list string * option query_error :=
  match matches with
  | [] => (joins, None)
  | m :: matches =>
      match Mappings metadata !! Dimension m with
      | None => (joins, Some (NoMappingForDimension (Dimension m)))
      | Some mapping =>
          if length (Joins mapping) =? 0 then getJoinsFromMatches joins matches
          else getJoinsFromMatches (joins ++ Joins mapping) matches
      end
  end.

(** [pkg/httpserver/sql/query_builder.go:201-222] getJoinsFromFilter *)
Fixpoint getJoinsFromFilter (joins : list string) (filter : Filter) : list string * option query_error :=
  match filter with
  | mkFilter groups matches _ =>
      match getJoinsFromMatches joins matches with
      | (joins, Some err) => (joins, Some err)
      | (joins, None) =>
          (fix go joins groups :=
            match groups with
            | [] => (joins, None)
            | g :: groups =>
                match getJoinsFromFilter joins g with
                | (joins, Some err) => (joins, Some err)
                | (joins, None) => go joins groups
                end
            end) joins groups
      end
  end.

(** [pkg/httpserver/sql/query_builder.go:169-183] getJoins *)
Definition getJoins (inp : Input) : list string * option query_error :=
  match getJoinsFromOrder [] (iOrder inp) with
  | (joins, Some err) => (joins, Some err)
  | (joins, None) => getJoinsFromFilter joins (iFilter inp)
  end.

(** ** The query *)

(** [pkg/db/query_builder.go:11-18] QueryBuilder, with the builder as a state *)
Class QueryBuilder (B : Type) := {
  Table : string → B → B;
  add_Joins : list string → B → B;
  Where : string → list any → B → B;
  add_GroupBy : list string → B → B;
  OrderBy : string → string → B → B;
  set_Page : Z → Z → B → B
}.

(** The loop of build over the fields to group by. *)
Fixpoint buildGroupBy (fields : list string) (groupBy joins : list string) :
    result query_error (list string * list string) :=
  match fields with
  | [] => Ok (groupBy, joins)
  | g :: fields =>
      match Mappings metadata !! g with
      | None => Err (NoMappingForGroupBy g)
      | Some field => buildGroupBy fields (groupBy ++ ColumnNames field) (joins ++ Metadata.Joins field)
      end
  end.

(** The loop of build over the orders. *)
Fixpoint buildOrder `{QueryBuilder B} (order : list Order) (dbQb : B) : B * option query_error :=
  match order with
  | [] => (dbQb, None)
  | o :: order =>
      match Mappings metadata !! Field o with
      | None => (dbQb, Some (NoMappingForOrder (Field o)))
      | Some mapping =>
          let columns := String.concat ", " (ColumnNames mapping) in
          let d := Direction o in
          if negb (bool_decide (d = "")) && negb (EqualFold d "ASC") && negb (EqualFold d "DESC")
          then (dbQb, Some (InvalidDirection d))
          else buildOrder order (OrderBy columns d dbQb)
      end
  end.

(** [pkg/httpserver/sql/query_builder.go:113-167] baseQueryBuilder.build *)
Definition build `{QueryBuilder B} (inp : Input) (dbQb : B) : B * option query_error :=
  match getJoins inp with
  | (_, Some err) => (dbQb, Some err)
  | (joins, None) =>
      match buildFilter (iFilter inp) with
      | Err err => (dbQb, Some (CanNotBuildFilter err))
      | Ok (query, args) =>
          if decide (TableName metadata = "") then (dbQb, Some NoTableName)
          else if decide (PrimaryKey metadata = "") then (dbQb, Some NoPrimaryKey)
          else
            match buildGroupBy (GroupBy inp) [PrimaryKey metadata] joins with
            | Err err => (dbQb, Some err)
            | Ok (groupBy, joins) =>
                let dbQb := add_GroupBy groupBy (Where query args (add_Joins joins (Table (TableName metadata) dbQb))) in
                match buildOrder (iOrder inp) dbQb with
                | (dbQb, Some err) => (dbQb, Some err)
                | (dbQb, None) =>
                    match iPage inp with
                    | None => (dbQb, None)
                    | Some page => (set_Page (Offset page) (Limit page) dbQb, None)
                    end
                end
            end
      end
  end.
End Request.
Arguments any : clear implicits.
Arguments FilterMatch : clear implicits.
Arguments Filter : clear implicits.
Arguments Input : clear implicits.
Arguments query_error : clear implicits.
Arguments QueryBuilder : clear implicits.

(** ** The two builders *)
Module Orm.
Section Orm.
Context {O : Type} (Sprint : O → string).

(** [pkg/db-repo/query_builder.go:18-26] QueryBuilder with page and order: an order is a field and a
    direction, a page an offset and a limit *)
Record builder := {
  table : string;
  joins : list string;
  where_ : list string;
  args : list (list (any O));
  groupBy : list string;
  orderBy : list (string * string);
  page : option (Z * Z)
}.

(** [pkg/db-repo/query_builder.go:28-34] NewQueryBuilder *)
Definition NewQueryBuilder : builder :=
  {| table := ""; joins := []; where_ := []; args := []; groupBy := []; orderBy := []; page := None |}.

(** [pkg/db-repo/query_builder.go:36-79] Table, Joins, Where, GroupBy, OrderBy and Page *)
#[global] Instance orm_builder : QueryBuilder O builder := {
  Table t b := {| table := t; joins := joins b; where_ := where_ b; args := args b; groupBy := groupBy b;
                  orderBy := orderBy b; page := page b |};
  add_Joins js b := {| table := table b; joins := Uniq js; where_ := where_ b; args := args b;
                       groupBy := groupBy b; orderBy := orderBy b; page := page b |};
  Where q a b := {| table := table b; joins := joins b; where_ := where_ b ++ [q]; args := args b ++ [a];
                    groupBy := groupBy b; orderBy := orderBy b; page := page b |};
  add_GroupBy fs b := {| table := table b; joins := joins b; where_ := where_ b; args := args b;
                         groupBy := groupBy b ++ fs; orderBy := orderBy b; page := page b |};
  OrderBy f d b := {| table := table b; joins := joins b; where_ := where_ b; args := args b;
                      groupBy := groupBy b; orderBy := orderBy b ++ [(f, d)]; page := page b |};
  set_Page o l b := {| table := table b; joins := joins b; where_ := where_ b; args := args b;
                       groupBy := groupBy b; orderBy := orderBy b; page := Some (o, l) |}
}.

(** [pkg/httpserver/sql/query_builder.go:77-82] OrmQueryBuilder.Build *)
Definition Build (metadata : Metadata) (inp : Input O) : builder * option (query_error O) :=
  build Sprint metadata inp NewQueryBuilder.
End Orm.
End Orm.

Module Raw.
Section Raw.
Context {O S : Type} (Sprint : O → string).
(** The builder of squirrel: the empty one and the methods that the code calls. *)
Context (SelectBuilder : S) (From JoinClause OrderBy : string → S → S) (SWhere : string → list (any O) → S → S).
Context (GroupBy : list string → S → S) (Offset Limit : Z → S → S).

(** The conversion of an int to an uint64. *)
Definition uint64 (z : Z) : Z := (z mod 2 ^ 64)%Z.

(** [pkg/db/query_builder.go:30-67] Table, Joins, Where, GroupBy, OrderBy and Page *)
#[export] Instance raw_builder : QueryBuilder O S := {
  Table t b := From t b;
  add_Joins js b := fold_left (λ b join, JoinClause join b) (Uniq js) b;
  Where q a b := SWhere q a b;
  add_GroupBy fs b := GroupBy fs b;
  OrderBy f d b := OrderBy (f +:+ " " +:+ d) b;
  set_Page o l b := Limit (uint64 l) (Offset (uint64 o) b)
}.

(** [pkg/httpserver/sql/query_builder.go:94-99] RawQueryBuilder.Build *)
Definition Build (metadata : Metadata) (inp : Input O) : S * option (query_error O) :=
  build Sprint metadata inp SelectBuilder.
End Raw.
End Raw.

(** ** Conditions

    What the text of a filter stands for: a condition with SQL's three truth values,
    where [None] is unknown. *)
Inductive cond {O : Type} :=
| Fixed (b : bool) (text : string)
| IsNull (negated : bool) (column : string)
| Compare (op column : string) (v : any O)
| Like (negated : bool) (column : string) (v : any O)
| Member (negated : bool) (column : string) (v : any O)
| In (negated : bool) (column : string) (vs : list (any O))
| Junction (op : string) (cs : list cond)
| Blank.
Arguments cond : clear implicits.

Section Cond.
Context {O : Type}.

Definition not_word (negated : bool) (s : string) : string := if negated then "NOT " +:+ s else s.

Fixpoint print (c : cond O) : string :=
  match c with
  | Fixed _ text => text
  | IsNull negated column => column +:+ " IS " +:+ not_word negated "NULL"
  | Compare op column _ => column +:+ " " +:+ op +:+ " ?"
  | Like negated column _ => column +:+ " " +:+ not_word negated "LIKE ?"
  | Member negated column _ => not_word negated "? MEMBER OF (" +:+ column +:+ ")"
  | In negated column vs =>
      column +:+ " " +:+ not_word negated "IN (" +:+ String.concat "," ((λ _, "?") <$> vs) +:+ ")"
  | Junction op cs => "(" +:+ String.concat (" " +:+ op +:+ " ") (print <$> cs) +:+ ")"
  | Blank => ""
  end.

(** The arguments for the placeholders of the text, from left to right. *)
Fixpoint args_of (c : cond O) : list (any O) :=
  match c with
  | Compare _ _ v | Like _ _ v | Member _ _ v => [v]
  | In _ _ vs => vs
  | Junction _ cs => mjoin (args_of <$> cs)
  | Fixed _ _ | IsNull _ _ | Blank => []
  end.
End Cond.

Section Grammar.
Context {O : Type}.

Fixpoint all_of {A} (P : A → Prop) (l : list A) : Prop :=
  match l with [] => True | x :: l => P x ∧ all_of P l end.

(** Only the six comparison operators, the fixed conditions of the code, and AND or OR
    between operands. *)
Fixpoint grammatical (c : cond O) : Prop :=
  match c with
  | Fixed _ text => text ∈ ["(1 = 2)"; "(1 = 0)"; "(1 = 1)"]
  | Compare op _ _ => op ∈ comparisons
  | Junction op cs => (is_and op = true ∨ is_or op = true ∨ length cs ≤ 1) ∧ all_of grammatical cs
  | IsNull _ _ | Like _ _ _ | Member _ _ _ | In _ _ _ | Blank => True
  end.

(** No operand is missing and no list is empty, as SQL demands. *)
Fixpoint complete (c : cond O) : Prop :=
  match c with
  | In _ _ vs => vs ≠ []
  | Junction _ cs => cs ≠ [] ∧ all_of complete cs
  | Blank => False
  | Fixed _ _ | IsNull _ _ | Compare _ _ _ | Like _ _ _ | Member _ _ _ => True
  end.

(** The columns that the text names. *)
Fixpoint columns_of (c : cond O) : list string :=
  match c with
  | IsNull _ column | Compare _ column _ | Like _ column _ | Member _ column _ | In _ column _ => [column]
  | Junction _ cs => mjoin (columns_of <$> cs)
  | Fixed _ _ | Blank => []
  end.

(** What a request has to do for a complete condition: a group is not empty, and a set
    of values for the operator != holds something besides nil. *)
Definition sound_match (m : FilterMatch O) : Prop :=
  Operator m = "!=" → 1 < length (Values m) → ∃ v, v ∈ Values m ∧ is_nil v = false.

Definition empty_filter (f : Filter O) : Prop := ∃ b, f = mkFilter [] [] b.

Fixpoint sound (f : Filter O) : Prop :=
  match f with
  | mkFilter groups matches _ =>
      (List.filter (λ m, bool_decide (Dimension m ≠ "")) matches ≠ [] ∨ groups ≠ []) ∧
      Forall sound_match matches ∧ all_of sound groups
  end.
End Grammar.

(** ** The meaning of conditions and filters *)

(** What a database knows of values: the value that an argument is sent as, equality,
    LIKE, membership in a document, and the order relations by their operator. *)
Record database (O V : Type) := {
  to_db : any O → option V;
  eq_db : V → V → bool;
  like_db : V → V → bool;
  member_db : V → V → bool;
  rel_db : string → V → V → bool
}.
Arguments to_db {O V} _ _.
Arguments eq_db {O V} _ _ _.
Arguments like_db {O V} _ _ _.
Arguments member_db {O V} _ _ _.
Arguments rel_db {O V} _ _ _ _.

(** Exactly nil is sent as NULL. *)
Class DatabaseLaws {O V} (d : database O V) : Prop :=
  to_db_null : ∀ v, to_db d v = None ↔ v = Nil.

Definition and3 (a b : option bool) : option bool :=
  match a, b with
  | Some false, _ | _, Some false => Some false
  | Some true, Some true => Some true
  | _, _ => None
  end.

Definition or3 (a b : option bool) : option bool :=
  match a, b with
  | Some true, _ | _, Some true => Some true
  | Some false, Some false => Some false
  | _, _ => None
  end.

(** A predicate that is unknown when one of its operands is NULL. *)
Definition strict {A B} (f : A → B → bool) (a : option A) (b : option B) : option bool :=
  match a, b with Some a, Some b => Some (f a b) | _, _ => None end.

Section Meaning.
Context {O V : Type} (Sprint : O → string) (d : database O V).
(** The row a condition is evaluated for. *)
Context (row : string → option V).

Definition negate (negated : bool) (r : option bool) : option bool := if negated then negb <$> r else r.

Definition compare_db (op : string) : V → V → bool :=
  if decide (op = "=") then eq_db d
  else if decide (op = "!=") then λ a b, negb (eq_db d a b)
  else rel_db d op.

(** The truth value of a condition without missing operands and empty lists; the others
    are not SQL and have none. *)
Fixpoint truth (c : cond O) : option bool :=
  match c with
  | Fixed b _ => Some b
  | IsNull negated column => Some (xorb negated (match row column with None => true | _ => false end))
  | Compare op column v => strict (compare_db op) (row column) (to_db d v)
  | Like negated column v => negate negated (strict (like_db d) (row column) (to_db d v))
  | Member negated column v => negate negated (strict (member_db d) (to_db d v) (row column))
  | In negated column vs =>
      negate negated (foldr (λ v r, or3 (strict (eq_db d) (row column) (to_db d v)) r) (Some false) vs)
  | Junction op cs =>
      if is_and op then foldr and3 (Some true) (truth <$> cs) else foldr or3 (Some false) (truth <$> cs)
  | Blank => None
  end.

Definition is_true_of (c : cond O) : Prop := truth c = Some true.

(** A row is in the result when the condition is true, neither false nor unknown; a
    statement that is not SQL has no result.  Without a condition every row is in it. *)
Definition accepts (c : cond O) : Prop :=
  match c with
  | Blank => True
  | _ => complete c ∧ is_true_of c
  end.

(** The value [v] of a request and a cell hold the same; nil is like no cell in the
    default mode and like NULL in the distinct mode. *)
Definition same (distinct : bool) (v : any O) (cell : option V) : bool :=
  match to_db d v, cell with
  | Some a, Some b => eq_db d b a
  | None, None => distinct
  | _, _ => false
  end.

Definition differs (distinct : bool) (v : any O) (cell : option V) : bool :=
  match to_db d v, cell with
  | Some a, Some b => negb (eq_db d b a)
  | None, None => false
  | _, _ => distinct
  end.

Definition both (f : V → V → bool) (v : any O) (cell : option V) : bool :=
  match to_db d v, cell with Some a, Some b => f b a | _, _ => false end.

(** Whether a cell passes an operator other than equality for one value. *)
Definition passes (op : string) (v : any O) (cell : option V) : bool :=
  let pattern := Str ("%" +:+ sprintf_v Sprint v +:+ "%") in
  if EqualFold op "IS" then negb (bool_decide (is_Some cell))
  else if EqualFold op "IS NOT" then bool_decide (is_Some cell)
  else if decide (op = "~") then both (like_db d) pattern cell
  else if decide (op = "!~") then both (λ a b, negb (like_db d a b)) pattern cell
  else if EqualFold op "LIKE" then both (like_db d) v cell
  else if EqualFold op "NOT LIKE" then both (λ a b, negb (like_db d a b)) v cell
  else if decide (op = "MEMBER OF") then both (λ a b, member_db d b a) v cell
  else if decide (op = "NOT MEMBER OF") then is_nil v || both (λ a b, negb (member_db d b a)) v cell
  else both (rel_db d op) v cell.

(** Equality asks for one of the values, inequality for none of them, and the other
    operators for one value that passes. *)
Definition column_holds (op : string) (values : list (any O)) (column : FieldMappingColumn) : bool :=
  let cell := row (Name column) in
  if decide (op = "=") then existsb (λ v, same (distinctNull column) v cell) values
  else if decide (op = "!=") then forallb (λ v, differs (distinctNull column) v cell) values
  else existsb (λ v, passes op v cell) values.

Definition combine (b : string) (l : list bool) : bool :=
  if is_and b then forallb id l else existsb id l.

Context (metadata : Metadata).

Definition match_holds (m : FilterMatch O) : bool :=
  match Mappings metadata !! Dimension m with
  | None => false
  | Some mapping =>
      if decide (Values m = []) then false
      else combine (mBool mapping) (column_holds (Operator m) (Values m) <$> Columns mapping)
  end.

(** The matches that count: those with a dimension. *)
Definition named (matches : list (FilterMatch O)) : list (FilterMatch O) :=
  List.filter (λ m, bool_decide (Dimension m ≠ "")) matches.

Fixpoint filter_holds (f : Filter O) : bool :=
  match f with
  | mkFilter groups matches b =>
      if (length matches =? 0) && (length groups =? 0) then true
      else combine b ((match_holds <$> named matches) ++ (filter_holds <$> groups))
  end.
End Meaning.

(** ** The conditions behind the text *)
Section Compile.
Context {O : Type} (Sprint : O → string) (metadata : Metadata).
Implicit Types (column : FieldMappingColumn) (m : FilterMatch O) (v : any O).

(** The conditions that the statement for one value joins with OR. *)
Definition value_conds (op : string) column v : list (cond O) :=
  let name := Name column in
  let pattern := Str ("%" +:+ sprintf_v Sprint v +:+ "%") in
  if EqualFold op "IS" then [IsNull false name]
  else if EqualFold op "IS NOT" then [IsNull true name]
  else if decide (op = "~") then [Like false name pattern]
  else if decide (op = "!~") then [Like true name pattern]
  else if EqualFold op "LIKE" then [Like false name v]
  else if EqualFold op "NOT LIKE" then [Like true name v]
  else if bool_decide (op = "=") && distinctNull column && is_nil v then [IsNull false name]
  else if bool_decide (op = "!=") && distinctNull column && is_nil v then [IsNull true name]
  else if bool_decide (op = "!=") && distinctNull column && negb (is_nil v) then
    [Compare "!=" name v; IsNull false name]
  else if bool_decide (op = "MEMBER OF") then
    [if is_nil v then Fixed false "(1 = 0)" else Member false name v]
  else if bool_decide (op = "NOT MEMBER OF") then
    [if is_nil v then Fixed true "(1 = 1)" else Member true name v]
  else [Compare op name v].

(** The condition for a set of values. *)
Definition set_cond (eq distinct : bool) (name : string) (values : list (any O)) : cond O :=
  let hasNull := existsb is_nil values in
  let some := List.filter (λ v, negb (is_nil v)) values in
  if distinct && hasNull then
    if eq then Junction "OR" [In false name values; IsNull false name]
    else Junction "AND" [In true name some; IsNull true name]
  else if distinct && negb eq then Junction "OR" [In true name values; IsNull false name]
  else Junction "OR" [In (negb eq) name values].

Definition column_cond m column : cond O :=
  let op := Operator m in
  if (bool_decide (op = "=") || bool_decide (op = "!=")) && (1 <? length (Values m))
  then set_cond (bool_decide (op = "=")) (distinctNull column) (Name column) (Values m)
  else Junction "OR" (mjoin (value_conds op column <$> Values m)).

Definition match_cond m : cond O :=
  if decide (Values m = []) then Fixed false "(1 = 2)"
  else
    let mapping := default {| Columns := []; Joins := []; mBool := "" |} (Mappings metadata !! Dimension m) in
    Junction (mBool mapping) (column_cond m <$> Columns mapping).

Fixpoint filter_cond (f : Filter O) : cond O :=
  match f with
  | mkFilter groups matches b =>
      if (length matches =? 0) && (length groups =? 0) then Blank
      else Junction b ((match_cond <$> named matches) ++ (filter_cond <$> groups))
  end.
End Compile.

(** ** Lemmas *)

(** Induction over filters, with the property for all groups of a filter. *)
Lemma Filter_rect' {O} (P : Filter O → Prop) :
  (∀ groups matches b, Forall P groups → P (mkFilter groups matches b)) → ∀ f, P f.
Proof.
  intros IH. fix rec 1. intros [groups matches b]. apply IH.
  induction groups as [|g groups IHg]; constructor; [apply rec | done].
Qed.

Section JoinedText.
Implicit Types (sep : string) (l : list string).

Lemma concat_cons sep s l :
  l ≠ [] → String.concat sep (s :: l) = s +:+ sep +:+ String.concat sep l.
Proof. by destruct l. Qed.

Lemma concat_app sep l k :
  l ≠ [] → k ≠ [] → String.concat sep (l ++ k) = String.concat sep l +:+ sep +:+ String.concat sep k.
Proof.
  induction l as [|s l IH]; intros Hl Hk; [done|]. destruct l as [|t l].
  - by apply concat_cons.
  - rewrite -app_comm_cons (concat_cons _ s (_ ++ _)) // (concat_cons _ s (t :: l)) // IH //.
    by rewrite -!string_app_assoc.
Qed.

Lemma fmap_mjoin {A B} (f : A → B) (ls : list (list A)) : 
  f <$> (mjoin ls : list A) = mjoin (fmap (M := list) f <$> ls).
Proof. induction ls as [|l ls IH]; [done|]. simpl. by rewrite fmap_app IH. Qed.

Lemma concat_concat sep (ls : list (list string)) :
  Forall (λ l, l ≠ []) ls → String.concat sep (String.concat sep <$> ls) = String.concat sep (mjoin ls).
Proof.
  induction 1 as [|l ls Hl Hls IH]; [done|].
  destruct ls as [|k ls]; [by rewrite /= app_nil_r|].
  assert (mjoin (k :: ls) ≠ []) as Hne by (apply Forall_inv in Hls; by destruct k).
  rewrite fmap_cons concat_cons // IH.
  change (mjoin (l :: k :: ls)) with (l ++ mjoin (k :: ls)). by rewrite concat_app.
Qed.
End JoinedText.

Section CompileLemmas.
Context {O : Type} (Sprint : O → string) (metadata : Metadata).
Implicit Types (column : FieldMappingColumn) (m : FilterMatch O) (v : any O) (vs : list (any O)).

Lemma value_conds_nonempty op column v : value_conds Sprint op column v ≠ [].
Proof. unfold value_conds. by repeat case_match. Qed.

Lemma buildStatement_conds op column v stmt a :
  buildStatement Sprint op column v = Ok (stmt, a) →
  let cs := value_conds Sprint op column v in
  stmt = String.concat " OR " (print <$> cs) ∧ a = mjoin (args_of <$> cs).
Proof.
  unfold buildStatement, value_conds. intros Hb.
  destruct (is_nil v), (distinctNull column); rewrite /= ?andb_true_r ?andb_false_r in Hb |- *;
  repeat match type of Hb with
  | (if ?c then _ else _) = _ =>
      destruct c; [repeat case_match; simplify_eq/=; split; rewrite -?string_app_assoc //; fail|]
  end; simplify_eq/=.
Qed.

Lemma buildStatements_conds op column vs stmts a stmts0 args0 :
  buildStatements Sprint op column vs stmts0 args0 = Ok (stmts, a) →
  stmts = stmts0 ++ ((λ v, String.concat " OR " (print <$> value_conds Sprint op column v)) <$> vs) ∧
  a = args0 ++ mjoin (args_of <$> mjoin (value_conds Sprint op column <$> vs)).
Proof.
  revert stmts0 args0. induction vs as [|v vs IH]; intros stmts0 args0; simpl.
  - intros [= <- <-]. by rewrite !app_nil_r.
  - destruct (buildStatement Sprint op column v) as [[stmt a1]|] eqn:Hv; simpl; [|done].
    intros [-> ->]%IH. apply buildStatement_conds in Hv as [-> ->].
    by rewrite fmap_app join_app -!app_assoc.
Qed.

Definition kept (op : string) (distinct : bool) vs : list (any O) :=
  List.filter (λ v, negb (is_nil v && (bool_decide (op = "!=") && distinct))) vs.

Lemma buildSetPlaceholders_spec m distinct :
  buildSetPlaceholders m distinct =
  (String.concat "," ((λ _, "?") <$> kept (Operator m) distinct (Values m)),
   kept (Operator m) distinct (Values m), existsb is_nil (Values m)).
Proof.
  unfold buildSetPlaceholders.
  match goal with |- context [fold_left ?f _ _] => set (F := f) end.
  assert (∀ vs ps fs h, fold_left F vs (ps, fs, h) =
    (ps ++ ((λ _, "?") <$> kept (Operator m) distinct vs), fs ++ kept (Operator m) distinct vs,
     h || existsb is_nil vs)) as ->; [|done].
  induction vs as [|v vs IH]; intros ps fs h; [by rewrite /= !app_nil_r orb_false_r|].
  cbn [fold_left kept List.filter existsb]. unfold F at 2.
  destruct (is_nil v && _) eqn:Hv; cbn [negb]; rewrite IH; unfold kept.
  - apply andb_true_iff in Hv as [-> _]. by rewrite orb_true_r.
  - by rewrite fmap_cons -!app_assoc orb_assoc.
Qed.

Lemma filter_all {A} (p : A → bool) (l : list A) : (∀ x, x ∈ l → p x = true) → List.filter p l = l.
Proof.
  induction l as [|x l IH]; intros Hp; [done|]; simpl.
  rewrite Hp; [by left|]. f_equal. apply IH. intros y Hy. apply Hp. by right.
Qed.

Lemma no_nil vs v : existsb is_nil vs = false → v ∈ vs → is_nil v = false.
Proof.
  intros Hn Hv. destruct (is_nil v) eqn:He; [|done].
  rewrite -Hn. symmetry. apply existsb_exists. exists v. by split; [apply list_elem_of_In|].
Qed.

Definition non_nil vs : list (any O) := List.filter (λ v, negb (is_nil v)) vs.

Lemma kept_all op distinct vs : bool_decide (op = "!=") && distinct = false → kept op distinct vs = vs.
Proof. intros H. apply filter_all. intros v _. by rewrite H andb_false_r. Qed.

Lemma kept_non_nil vs : kept "!=" true vs = non_nil vs.
Proof. apply List.filter_ext. intros v. rewrite bool_decide_eq_true_2 //. by rewrite !andb_true_r. Qed.

Lemma non_nil_all vs : existsb is_nil vs = false → non_nil vs = vs.
Proof. intros H. apply filter_all. intros v Hv. by rewrite (no_nil vs). Qed.

Lemma buildSetFilterColumn_cond m column :
  Operator m = "=" ∨ Operator m = "!=" →
  let c := set_cond (bool_decide (Operator m = "=")) (distinctNull column) (Name column) (Values m) in
  buildSetFilterColumn m column = (print c, args_of c).
Proof.
  intros Hop. unfold buildSetFilterColumn, set_cond. rewrite buildSetPlaceholders_spec.
  change (List.filter (λ v, negb (is_nil v)) (Values m)) with (non_nil (Values m)).
  destruct Hop as [-> | ->]; destruct (distinctNull column), (existsb is_nil (Values m)) eqn:Hnull; simpl;
    rewrite ?kept_non_nil ?kept_all // ?(non_nil_all _ Hnull); f_equal; rewrite ?app_nil_r -?string_app_assoc //.
Qed.

Lemma buildFilterColumn_cond m column w a :
  buildFilterColumn Sprint m column = Ok (w, a) →
  w = print (column_cond Sprint m column) ∧ a = args_of (column_cond Sprint m column).
Proof.
  unfold buildFilterColumn, column_cond. destruct ((_ || _) && _) eqn:Hset.
  - apply andb_true_iff in Hset as [Hop%orb_true_iff _]. intros [= Hw].
    rewrite buildSetFilterColumn_cond in Hw; [by destruct Hop as [?%bool_decide_eq_true|?%bool_decide_eq_true]; auto|].
    by simplify_eq.
  - destruct (buildStatements _ _ _ _ _ _) as [[stmts a']|] eqn:Hs; [|done].
    apply buildStatements_conds in Hs as [-> ->]. intros [= <- <-]. simpl. split; [|done].
    rewrite fmap_mjoin -concat_concat -?list_fmap_compose //.
    rewrite !Forall_fmap. apply Forall_true. intros v. simpl.
    pose proof (value_conds_nonempty (Operator m) column v). by destruct (value_conds _ _ _ _).
Qed.

Lemma buildColumns_cond m columns stmts a stmts0 args0 :
  buildColumns Sprint m columns stmts0 args0 = Ok (stmts, a) →
  stmts = stmts0 ++ (print <$> (column_cond Sprint m <$> columns)) ∧
  a = args0 ++ mjoin (args_of <$> (column_cond Sprint m <$> columns)).
Proof.
  revert stmts0 args0. induction columns as [|c columns IH]; intros stmts0 args0; simpl.
  - intros [= <- <-]. by rewrite !app_nil_r.
  - destruct (buildFilterColumn Sprint m c) as [[w a1]|] eqn:Hc; [|done].
    intros [-> ->]%IH. apply buildFilterColumn_cond in Hc as [-> ->]. by rewrite -!app_assoc.
Qed.

Lemma buildFilterValues_cond m w a :
  buildFilterValues Sprint metadata m = Ok (w, a) →
  w = print (match_cond Sprint metadata m) ∧ a = args_of (match_cond Sprint metadata m).
Proof.
  unfold buildFilterValues, match_cond. destruct (Mappings metadata !! Dimension m) as [mapping|]; [|done].
  destruct (Values m) as [|v vs] eqn:Hv; [by intros [= <- <-]|].
  simpl. destruct (buildColumns _ _ _ _ _) as [[stmts a']|] eqn:Hs; [|done].
  apply buildColumns_cond in Hs as [-> ->]. simpl. case_match; [done|]. by intros [= <- <-].
Qed.

Lemma buildFilterMatches_cond matches w a w0 a0 :
  buildFilterMatches Sprint metadata matches w0 a0 = Ok (w, a) →
  let cs := match_cond Sprint metadata <$> named matches in
  w = w0 ++ (print <$> cs) ∧ a = a0 ++ mjoin (args_of <$> cs).
Proof.
  revert w0 a0. induction matches as [|m matches IH]; intros w0 a0; simpl.
  - intros [= <- <-]. by rewrite !app_nil_r.
  - unfold named. simpl. case_decide as Hd.
    + intros H%IH. by rewrite bool_decide_eq_false_2; [intros []|].
    + rewrite bool_decide_eq_true_2 //.
      destruct (buildFilterValues Sprint metadata m) as [[v va]|] eqn:Hm; [|done].
      intros [-> ->]%IH. apply buildFilterValues_cond in Hm as [-> ->]. by rewrite -!app_assoc.
Qed.

(** The loop of buildFilter over the groups of a filter. *)
Fixpoint buildGroups (groups : list (Filter O)) (matchesWhere : list string) (args : list (any O)) :
    result (query_error O) (list string * list (any O)) :=
  match groups with
  | [] => Ok (matchesWhere, args)
  | g :: groups =>
      let! (groupWhere, groupArgs) := buildFilter Sprint metadata g in
      buildGroups groups (matchesWhere ++ [groupWhere]) (args ++ groupArgs)
  end.

Lemma buildFilter_unfold groups matches b :
  buildFilter Sprint metadata (mkFilter groups matches b) =
  if (length matches =? 0) && (length groups =? 0) then Ok ("", [])
  else
    let! (matchesWhere, args) := buildFilterMatches Sprint metadata matches [] [] in
    let! (matchesWhere, args) := buildGroups groups matchesWhere args in
    if invalid_boolean b matchesWhere then Err (InvalidBoolean b)
    else Ok ("(" +:+ String.concat (" " +:+ b +:+ " ") matchesWhere +:+ ")", args).
Proof.
  simpl. case_match; [done|]. destruct (buildFilterMatches _ _ _ _ _) as [[w a]|]; [|done]. simpl.
  match goal with |- res_bind (?f groups w a) _ = _ => assert (f groups w a = buildGroups groups w a) as -> end; [|done].
  clear. revert w a. induction groups as [|g groups IH]; intros w a; simpl; [done|].
  destruct (buildFilter Sprint metadata g) as [[gw ga]|]; [|done]. simpl. apply IH.
Qed.

Lemma buildFilter_cond f w a :
  buildFilter Sprint metadata f = Ok (w, a) →
  w = print (filter_cond Sprint metadata f) ∧ a = args_of (filter_cond Sprint metadata f).
Proof.
  revert w a. induction f as [groups matches b IH] using Filter_rect'; intros w a.
  rewrite buildFilter_unfold /=. case_match; [by intros [= <- <-]|].
  destruct (buildFilterMatches _ _ _ _ _) as [[w1 a1]|] eqn:Hm; [|done].
  apply buildFilterMatches_cond in Hm as [-> ->]. simpl.
  assert (∀ w0 a0 w a, buildGroups groups w0 a0 = Ok (w, a) →
    w = w0 ++ (print <$> (filter_cond Sprint metadata <$> groups)) ∧
    a = a0 ++ mjoin (args_of <$> (filter_cond Sprint metadata <$> groups))) as Hgroups.
  { clear w a H. induction IH as [|g groups Hg IHs IH]; intros w0 a0 w a; simpl.
    - intros [= <- <-]. by rewrite !app_nil_r.
    - destruct (buildFilter Sprint metadata g) as [[gw ga]|]; [|done]. destruct (Hg gw ga eq_refl) as [-> ->].
      simpl. intros [-> ->]%IH. by rewrite -!app_assoc. }
  destruct (buildGroups _ _ _) as [[w2 a2]|] eqn:Hg; [|done].
  apply Hgroups in Hg as [-> ->]. simpl. case_match; [done|]. intros [= <- <-].
  by rewrite !fmap_app join_app.
Qed.
End CompileLemmas.

Section MeaningLemmas.
Context {O V : Type} (Sprint : O → string) (d : database O V) `{!DatabaseLaws d}.
Context (row : string → option V).
Implicit Types (column : FieldMappingColumn) (m : FilterMatch O) (v : any O) (vs : list (any O)) (cs : list (cond O)).

Lemma to_db_Nil : to_db d Nil = None.
Proof. by apply to_db_null. Qed.

Lemma to_db_Some v : is_nil v = false → ∃ a, to_db d v = Some a.
Proof.
  intros Hv. destruct (to_db d v) as [a|] eqn:He; [by exists a|].
  apply to_db_null in He as ->. done.
Qed.

Lemma true_all cs : foldr and3 (Some true) (truth d row <$> cs) = Some true ↔ Forall (is_true_of d row) cs.
Proof.
  induction cs as [|c cs IH]; simpl; [by split|].
  rewrite Forall_cons -IH /is_true_of. clear IH.
  destruct (truth d row c) as [[]|], (foldr and3 _ _) as [[]|]; simpl; naive_solver.
Qed.

Lemma true_one cs : foldr or3 (Some false) (truth d row <$> cs) = Some true ↔ Exists (is_true_of d row) cs.
Proof.
  induction cs as [|c cs IH]; simpl; [split; [done|by intros ?%Exists_nil]|].
  rewrite Exists_cons -IH /is_true_of. clear IH.
  destruct (truth d row c) as [[]|], (foldr or3 _ _) as [[]|]; simpl; naive_solver.
Qed.

Lemma true_Junction op cs :
  is_true_of d row (Junction op cs) ↔ (if is_and op then Forall (is_true_of d row) cs else Exists (is_true_of d row) cs).
Proof. unfold is_true_of at 1. simpl. destruct (is_and op); [apply true_all | apply true_one]. Qed.

Lemma true_OR cs : is_true_of d row (Junction "OR" cs) ↔ Exists (is_true_of d row) cs.
Proof. apply true_Junction. Qed.

Lemma true_AND cs : is_true_of d row (Junction "AND" cs) ↔ Forall (is_true_of d row) cs.
Proof. apply true_Junction. Qed.

Lemma true_IsNull negated name :
  is_true_of d row (IsNull negated name) ↔ (if negated then is_Some (row name) else row name = None).
Proof.
  unfold is_true_of. simpl. destruct negated, (row name) as [x|]; simpl; try done.
  all: by rewrite is_Some_alt.
Qed.

(** SQL's IN is true for a cell that is the same as one of the values, NOT IN for one
    that differs from all of them, in the default mode. *)
Lemma true_In name vs : is_true_of d row (In false name vs) ↔ existsb (λ v, same d false v (row name)) vs = true.
Proof.
  unfold is_true_of. simpl. induction vs as [|v vs IH]; simpl; [done|].
  rewrite orb_true_iff -IH /same /strict. clear IH.
  destruct (row name), (to_db d v), (foldr _ _ _) as [[]|]; try destruct (eq_db d _ _); simpl; naive_solver.
Qed.

Lemma true_NotIn name vs : is_true_of d row (In true name vs) ↔ forallb (λ v, differs d false v (row name)) vs = true.
Proof.
  unfold is_true_of. simpl. induction vs as [|v vs IH]; simpl; [done|].
  rewrite andb_true_iff -IH /differs /strict. clear IH.
  destruct (row name), (to_db d v), (foldr _ _ _) as [[]|]; try destruct (eq_db d _ _); simpl; naive_solver.
Qed.

(** The two modes differ for NULL only. *)
Lemma same_mode vs cell :
  existsb (λ v, same d true v cell) vs =
  existsb (λ v, same d false v cell) vs || existsb is_nil vs && negb (bool_decide (is_Some cell)).
Proof.
  induction vs as [|v vs IH]; [done|]; simpl. rewrite IH.
  destruct (is_nil v) eqn:Hv; unfold same at 1 3.
  - destruct v; simplify_eq/=. rewrite to_db_Nil.
    destruct cell as [b|]; simpl; [by rewrite andb_false_r|]. by rewrite !orb_true_r.
  - apply to_db_Some in Hv as [a ->]. by destruct cell; rewrite ?orb_assoc.
Qed.

Lemma differs_mode vs cell :
  forallb (λ v, differs d true v cell) vs =
  match cell with
  | Some _ => forallb (λ v, differs d false v cell) (non_nil vs)
  | None => negb (existsb is_nil vs)
  end.
Proof.
  induction vs as [|v vs IH]; [by destruct cell|]; simpl. rewrite IH.
  destruct (is_nil v) eqn:Hv; unfold differs at 1.
  - destruct v; simplify_eq/=. rewrite to_db_Nil. by destruct cell.
  - apply to_db_Some in Hv as [a Ha]. rewrite Ha. destruct cell; [|done]. simpl. by rewrite /differs Ha.
Qed.

Lemma set_cond_meaning (eq distinct : bool) name vs :
  is_true_of d row (set_cond eq distinct name vs) ↔
  (if eq then existsb (λ v, same d distinct v (row name)) vs
   else forallb (λ v, differs d distinct v (row name)) vs) = true.
Proof.
  unfold set_cond. change (List.filter _ vs) with (non_nil vs).
  destruct eq, distinct, (existsb is_nil vs) eqn:Hn; simpl;
    rewrite ?true_AND ?true_OR ?Forall_cons ?Forall_nil ?Exists_cons ?Exists_nil
      ?true_In ?true_NotIn ?true_IsNull ?same_mode ?differs_mode ?Hn ?(non_nil_all _ Hn);
    destruct (row name) as [b|]; simpl; rewrite ?orb_true_iff ?is_Some_alt; naive_solver.
Qed.

(** Whether a cell passes an operator for one value. *)
Definition value_holds (op : string) column v : bool :=
  let cell := row (Name column) in
  if decide (op = "=") then same d (distinctNull column) v cell
  else if decide (op = "!=") then differs d (distinctNull column) v cell
  else passes Sprint d op v cell.

Lemma Exists_mjoin_fmap {A B} (P : B → Prop) (f : A → list B) (h : A → bool) (l : list A) :
  (∀ x, Exists P (f x) ↔ h x = true) → Exists P (mjoin (f <$> l)) ↔ existsb h l = true.
Proof.
  intros Hf. induction l as [|x l IH]; simpl; [by rewrite Exists_nil|].
  by rewrite Exists_app IH Hf orb_true_iff.
Qed.

Definition junction {A} (b : string) (P : A → Prop) (l : list A) : Prop :=
  if is_and b then Forall P l else Exists P l.

Lemma combine_meaning {A B} (b : string) (P : B → Prop) (f : A → B) (h : A → bool) (l : list A) :
  (∀ x, x ∈ l → P (f x) ↔ h x = true) → junction b P (f <$> l) ↔ combine b (h <$> l) = true.
Proof.
  intros Hf. unfold junction, combine. induction l as [|x l IH]; simpl; [destruct (is_and b); [done | by rewrite Exists_nil]|].
  assert (P (f x) ↔ h x = true) as Hx by (apply Hf; by left).
  specialize (IH (λ y Hy, Hf y (list_elem_of_further y x l Hy))). destruct (is_and b).
  - by rewrite Forall_cons IH Hx andb_true_iff.
  - by rewrite Exists_cons IH Hx orb_true_iff.
Qed.

Lemma combine_app {A B C} (b : string) (P : B → Prop) (f : A → B) (g : C → B) (h : A → bool) (k : C → bool) l l' :
  (∀ x, x ∈ l → P (f x) ↔ h x = true) → (∀ x, x ∈ l' → P (g x) ↔ k x = true) →
  junction b P ((f <$> l) ++ (g <$> l')) ↔ combine b ((h <$> l) ++ (k <$> l')) = true.
Proof.
  intros Hl Hl'. apply (combine_meaning b P f h) in Hl. apply (combine_meaning b P g k) in Hl'.
  unfold junction, combine in *. destruct (is_and b).
  - by rewrite Forall_app forallb_app andb_true_iff Hl Hl'.
  - by rewrite Exists_app existsb_app orb_true_iff Hl Hl'.
Qed.

Lemma value_conds_eq column v :
  value_conds Sprint "=" column v =
  if distinctNull column && is_nil v then [IsNull false (Name column)] else [Compare "=" (Name column) v].
Proof. done. Qed.

Lemma value_conds_neq column v :
  value_conds Sprint "!=" column v =
  if distinctNull column then
    if is_nil v then [IsNull true (Name column)] else [Compare "!=" (Name column) v; IsNull false (Name column)]
  else [Compare "!=" (Name column) v].
Proof. unfold value_conds. simpl. by destruct (distinctNull column), (is_nil v). Qed.

Lemma true_single c : Exists (is_true_of d row) [c] ↔ is_true_of d row c.
Proof. rewrite Exists_cons Exists_nil. tauto. Qed.

Lemma true_atom c (b : bool) : truth d row c = Some b → is_true_of d row c ↔ b = true.
Proof. unfold is_true_of. intros ->. naive_solver. Qed.

Lemma true_unknown c : truth d row c = None → is_true_of d row c ↔ false = true.
Proof. unfold is_true_of. intros ->. naive_solver. Qed.

Lemma strict_both f v cell : strict f cell (to_db d v) = Some true ↔ both d f v cell = true.
Proof. unfold both, strict. destruct (to_db d v), cell; split; congruence. Qed.

Lemma true_Compare op name v : is_true_of d row (Compare op name v) ↔ both d (compare_db d op) v (row name) = true.
Proof. apply strict_both. Qed.

Lemma true_Like negated name v :
  is_true_of d row (Like negated name v) ↔
  both d (λ a b, if negated then negb (like_db d a b) else like_db d a b) v (row name) = true.
Proof.
  unfold is_true_of, both, strict. simpl.
  destruct negated, (to_db d v), (row name); simpl; split; congruence.
Qed.

Lemma true_Member negated name v :
  is_true_of d row (Member negated name v) ↔
  both d (λ a b, if negated then negb (member_db d b a) else member_db d b a) v (row name) = true.
Proof.
  unfold is_true_of, both, strict. simpl.
  destruct negated, (to_db d v), (row name); simpl; split; congruence.
Qed.

Lemma eq_meaning column v :
  Exists (is_true_of d row) (value_conds Sprint "=" column v) ↔ same d (distinctNull column) v (row (Name column)) = true.
Proof.
  rewrite value_conds_eq. destruct (distinctNull column); [destruct (is_nil v) eqn:Hv|]; simpl;
    rewrite true_single ?true_Compare; [| |by rewrite /both /same; destruct (to_db d v), (row _)].
  - destruct v; simplify_eq/=. rewrite true_IsNull /same to_db_Nil. destruct (row _); naive_solver.
  - apply to_db_Some in Hv as [a Ha]. by rewrite /both /same Ha.
Qed.

Lemma neq_meaning column v :
  Exists (is_true_of d row) (value_conds Sprint "!=" column v) ↔ differs d (distinctNull column) v (row (Name column)) = true.
Proof.
  rewrite value_conds_neq. destruct (distinctNull column); [destruct (is_nil v) eqn:Hv|]; simpl;
    rewrite ?Exists_cons Exists_nil ?true_Compare ?true_IsNull.
  - destruct v; simplify_eq/=. rewrite /differs to_db_Nil is_Some_alt. destruct (row _); naive_solver.
  - apply to_db_Some in Hv as [a Ha]. rewrite /both /differs Ha. destruct (row _); simpl; naive_solver.
  - rewrite /both /differs. destruct (row _), (to_db d v); simpl; naive_solver.
Qed.

Lemma passes_meaning op column v :
  op ≠ "=" → op ≠ "!=" →
  Exists (is_true_of d row) (value_conds Sprint op column v) ↔ passes Sprint d op v (row (Name column)) = true.
Proof.
  intros He Hne. unfold value_conds, passes.
  rewrite (bool_decide_eq_false_2 (op = "=")) // (bool_decide_eq_false_2 (op = "!=")) // !andb_false_l.
  destruct (EqualFold op "IS").
  { rewrite true_single true_IsNull. destruct (row _); naive_solver. }
  destruct (EqualFold op "IS NOT").
  { rewrite true_single true_IsNull. destruct (row _); cbn; rewrite ?is_Some_alt; naive_solver. }
  do 2 (case_decide; [by rewrite true_single true_Like|]).
  do 2 (destruct (EqualFold op _); [by rewrite true_single true_Like|]).
  rewrite !bool_decide_decide. case_decide; [|case_decide]; rewrite true_single.
  - destruct (is_nil v) eqn:Hv; [|by rewrite true_Member].
    destruct v; simplify_eq/=. by rewrite /both to_db_Nil.
  - by destruct (is_nil v); [|rewrite true_Member].
  - by rewrite true_Compare /compare_db decide_False // decide_False.
Qed.

Lemma column_cond_meaning m column :
  Values m ≠ [] →
  is_true_of d row (column_cond Sprint m column) ↔ column_holds Sprint d row (Operator m) (Values m) column = true.
Proof.
  intros Hvs. unfold column_cond, column_holds.
  destruct (_ && (1 <? _)) eqn:Hset.
  - apply andb_true_iff in Hset as [Hop%orb_true_iff _]. rewrite set_cond_meaning.
    by destruct Hop as [->%bool_decide_eq_true | ->%bool_decide_eq_true].
  - rewrite true_OR. destruct (decide (Operator m = "=")) as [->|He]; [|destruct (decide (Operator m = "!=")) as [Hne|Hne]].
    + apply Exists_mjoin_fmap. intros v. apply eq_meaning.
    + rewrite Hne in Hset |- *. destruct (Values m) as [|v [|]]; [done| |done].
      rewrite /= app_nil_r andb_true_r. apply neq_meaning.
    + apply Exists_mjoin_fmap. intros v. by apply passes_meaning.
Qed.

Context (metadata : Metadata).

Lemma match_cond_meaning m :
  is_Some (Mappings metadata !! Dimension m) →
  is_true_of d row (match_cond Sprint metadata m) ↔ match_holds Sprint d row metadata m = true.
Proof.
  intros [mapping Hm]. unfold match_cond, match_holds. rewrite Hm /=. case_decide as Hv; [done|].
  rewrite true_Junction. apply combine_meaning. intros column _. by apply column_cond_meaning.
Qed.

(** Every dimension that counts is mapped. *)
Fixpoint mapped (f : Filter O) : Prop :=
  match f with
  | mkFilter groups matches _ =>
      Forall (λ m, is_Some (Mappings metadata !! Dimension m)) (named matches) ∧ all_of mapped groups
  end.

Lemma filter_cond_meaning f :
  mapped f → sound f → is_true_of d row (filter_cond Sprint metadata f) ↔ filter_holds Sprint d row metadata f = true.
Proof.
  induction f as [groups matches b IH] using Filter_rect'. simpl. intros [Hms Hgs] (Hne & _ & Hss).
  assert ((length matches =? 0) && (length groups =? 0) = false) as ->.
  { destruct matches, groups; simpl in *; naive_solver. }
  rewrite true_Junction. apply combine_app.
  - intros m Hm. apply match_cond_meaning. by eapply Forall_forall in Hms.
  - clear -IH Hgs Hss. induction IH as [|g groups Hg _ IH]; [by intros ? ?%not_elem_of_nil|].
    intros g' [->|Hg']%elem_of_cons; [apply Hg; [apply Hgs | apply Hss] | apply IH; [apply Hgs | apply Hss | done]].
Qed.

(** A filter that is built has mappings for all of its dimensions. *)
Lemma buildFilterMatches_mapped matches w a r :
  buildFilterMatches Sprint metadata matches w a = Ok r →
  Forall (λ m, is_Some (Mappings metadata !! Dimension m)) (named matches).
Proof.
  revert w a. induction matches as [|m matches IH]; intros w a; simpl; [by constructor|].
  unfold named. simpl. case_decide as Hd.
  - rewrite bool_decide_eq_false_2; [by intros []|]. apply IH.
  - rewrite bool_decide_eq_true_2 //. destruct (buildFilterValues _ _ _) as [[v va]|] eqn:Hm; [|done].
    intros H. constructor; [|by eapply IH]. unfold buildFilterValues in Hm. by destruct (Mappings _ !! _).
Qed.

Lemma buildFilter_mapped f w a : buildFilter Sprint metadata f = Ok (w, a) → mapped f.
Proof.
  revert w a. induction f as [groups matches b IH] using Filter_rect'; intros w a. rewrite buildFilter_unfold.
  destruct (_ && _) eqn:He.
  { intros _. apply andb_true_iff in He as [Hm%Nat.eqb_eq Hg%Nat.eqb_eq].
    apply nil_length_inv in Hm, Hg. subst. split; [constructor | done]. }
  destruct (buildFilterMatches _ _ _ _ _) as [[w1 a1]|] eqn:Hm; [|done]. simpl.
  apply buildFilterMatches_mapped in Hm.
  destruct (buildGroups _ _ _ _ _) as [[w2 a2]|] eqn:Hg; [|done]. intros _. split; [done|].
  clear -IH Hg. revert w1 a1 Hg. induction IH as [|g groups Hg _ IH]; intros w1 a1; simpl; [done|].
  destruct (buildFilter Sprint metadata g) as [[gw ga]|] eqn:Hb; [|done]. intros H. split; [by eapply Hg | by eapply IH].
Qed.
End MeaningLemmas.

(** ** The grammar of the text *)
Lemma all_of_Forall {A} (P : A → Prop) l : all_of P l ↔ Forall P l.
Proof. induction l as [|x l IH]; simpl; [by rewrite Forall_nil | by rewrite Forall_cons IH]. Qed.

Section GrammarLemmas.
Context {O : Type} (Sprint : O → string) (metadata : Metadata).
Implicit Types (column : FieldMappingColumn) (m : FilterMatch O) (v : any O) (vs : list (any O)).

Lemma buildStatement_grammatical op column v r :
  buildStatement Sprint op column v = Ok r → Forall grammatical (value_conds Sprint op column v).
Proof.
  unfold buildStatement, value_conds. intros Hb.
  destruct (is_nil v), (distinctNull column); rewrite /= ?andb_true_r ?andb_false_r in Hb |- *;
  repeat match type of Hb with
  | (if bool_decide (op ∈ comparisons) then _ else _) = _ =>
      case_bool_decide; [by apply Forall_singleton | done]
  | (if bool_decide (?o = ?w) then _ else _) = _ =>
      let H := fresh in case_bool_decide as H; [subst; repeat constructor; set_solver|]
  | (if ?c then _ else _) = _ => destruct c; [repeat constructor|]
  end.
Qed.

Lemma buildFilterColumn_grammatical m column r :
  buildFilterColumn Sprint m column = Ok r → grammatical (column_cond Sprint m column).
Proof.
  unfold buildFilterColumn, column_cond. destruct (_ && (1 <? _)).
  - intros _. unfold set_cond. repeat case_match; simpl; naive_solver.
  - destruct (buildStatements _ _ _ _ _ _) as [[stmts a]|] eqn:Hs; [|done]. intros _. split; [by right; left|].
    rewrite all_of_Forall. apply Forall_join, Forall_fmap. revert Hs. generalize (@nil string) (@nil (any O)).
    induction (Values m) as [|v vs IH]; intros w0 a0; simpl; [by constructor|].
    destruct (buildStatement _ _ _ v) as [[st sa]|] eqn:Hv; [|done]. intros Hr. constructor; [|by eapply IH].
    by eapply buildStatement_grammatical.
Qed.

Lemma invalid_boolean_false {A} b (l : list string) (cs : list A) :
  length l = length cs → invalid_boolean b l = false → is_and b = true ∨ is_or b = true ∨ length cs ≤ 1.
Proof.
  intros <-. unfold invalid_boolean. destruct (is_and b), (is_or b); simpl; [by left|by left|by right;left|].
  intros H%Nat.ltb_ge. by right; right.
Qed.

Lemma buildFilterValues_grammatical m r :
  buildFilterValues Sprint metadata m = Ok r → grammatical (match_cond Sprint metadata m).
Proof.
  unfold buildFilterValues, match_cond. destruct (Mappings metadata !! Dimension m) as [mapping|]; [|done].
  destruct (Values m) as [|v vs] eqn:Hv; [simpl; set_solver|]. simpl.
  destruct (buildColumns _ _ _ _ _) as [[stmts a]|] eqn:Hs; [|done]. simpl.
  destruct (invalid_boolean _ _) eqn:Hb; [done|]. intros _. split.
  - apply (invalid_boolean_false _ stmts); [|done]. apply buildColumns_cond in Hs as [-> _]. by rewrite !length_fmap.
  - rewrite all_of_Forall Forall_fmap. clear Hb. revert Hs. generalize (@nil string) (@nil (any O)).
    induction (Columns mapping) as [|c columns IH]; intros w0 a0; simpl; [by constructor|].
    destruct (buildFilterColumn _ _ c) as [[st sa]|] eqn:Hc; [|done]. intros Hr. constructor; [|by eapply IH].
    by eapply buildFilterColumn_grammatical.
Qed.

Lemma buildFilterMatches_grammatical matches w a r :
  buildFilterMatches Sprint metadata matches w a = Ok r →
  Forall grammatical (match_cond Sprint metadata <$> named matches).
Proof.
  revert w a. induction matches as [|m matches IH]; intros w a; simpl; [by constructor|].
  unfold named. simpl. case_decide as Hd.
  - rewrite bool_decide_eq_false_2; [by intros []|]. apply IH.
  - rewrite bool_decide_eq_true_2 //. destruct (buildFilterValues _ _ _) as [[v va]|] eqn:Hm; [|done].
    intros H. constructor; [by eapply buildFilterValues_grammatical | by eapply IH].
Qed.

Lemma buildFilter_grammatical f w a :
  buildFilter Sprint metadata f = Ok (w, a) → grammatical (filter_cond Sprint metadata f).
Proof.
  revert w a. induction f as [groups matches b IH] using Filter_rect'; intros w a. rewrite buildFilter_unfold /=.
  destruct (_ && _); [done|].
  destruct (buildFilterMatches _ _ _ _ _) as [[w1 a1]|] eqn:Hm; [|done]. simpl.
  destruct (buildGroups _ _ _ _ _) as [[w2 a2]|] eqn:Hg; [|done]. simpl.
  destruct (invalid_boolean _ _) eqn:Hb; [done|]. intros _.
  assert (length w2 = length w1 + length groups ∧ Forall grammatical (filter_cond Sprint metadata <$> groups)) as [Hlen Hgs].
  { clear -IH Hg. revert w1 a1 Hg. induction IH as [|g groups Hg _ IH]; intros w1 a1; simpl.
    - intros [= <- <-]. by rewrite Nat.add_0_r.
    - destruct (buildFilter Sprint metadata g) as [[gw ga]|] eqn:Hf; [|done].
      intros [-> Hgs]%IH. split; [rewrite length_app /=; lia | constructor; [by eapply Hg | done]]. }
  split.
  - apply (invalid_boolean_false _ w2); [|done]. apply buildFilterMatches_cond in Hm as [-> _].
    by rewrite Hlen app_nil_l length_app !length_fmap.
  - rewrite all_of_Forall Forall_app. split; [by eapply buildFilterMatches_grammatical | done].
Qed.

Lemma value_conds_columns op column v name :
  name ∈ mjoin (columns_of <$> value_conds Sprint op column v) → name = Name column.
Proof. unfold value_conds. repeat case_match; simpl; set_solver. Qed.

Lemma column_cond_columns m column name : name ∈ columns_of (column_cond Sprint m column) → name = Name column.
Proof.
  unfold column_cond. case_match.
  - unfold set_cond. repeat case_match; simpl; set_solver.
  - simpl. rewrite fmap_mjoin. intros (ns & Hn & Hns)%list_elem_of_join.
    apply list_elem_of_join in Hns as (l & Hl & (cs & -> & (v & -> & _)%list_elem_of_fmap)%list_elem_of_fmap).
    apply (value_conds_columns (Operator m) column v). apply list_elem_of_join. by eexists.
Qed.

(** A column that the metadata maps a dimension to. *)
Definition known_column (name : string) : Prop :=
  ∃ dimension mapping column,
    Mappings metadata !! dimension = Some mapping ∧ column ∈ Columns mapping ∧ name = Name column.

Lemma match_cond_columns m name : name ∈ columns_of (match_cond Sprint metadata m) → known_column name.
Proof.
  unfold match_cond. case_decide; simpl; [by intros ?%not_elem_of_nil|].
  intros (ns & Hn & (c & -> & (column & -> & Hc)%list_elem_of_fmap)%list_elem_of_fmap)%list_elem_of_join.
  apply column_cond_columns in Hn as ->. destruct (Mappings metadata !! Dimension m) as [mapping|] eqn:Hm.
  - by exists (Dimension m), mapping, column.
  - by apply not_elem_of_nil in Hc.
Qed.

Lemma filter_cond_columns f name : name ∈ columns_of (filter_cond Sprint metadata f) → known_column name.
Proof.
  induction f as [groups matches b IH] using Filter_rect'. simpl.
  destruct (_ && _); simpl; [by intros ?%not_elem_of_nil|].
  rewrite fmap_app join_app elem_of_app. intros [Hn|Hn]; apply list_elem_of_join in Hn as (ns & Hn & Hns).
  - apply list_elem_of_fmap in Hns as (c & -> & (m & -> & _)%list_elem_of_fmap). by eapply match_cond_columns.
  - apply list_elem_of_fmap in Hns as (c & -> & (g & -> & Hg)%list_elem_of_fmap).
    rewrite Forall_forall in IH. by eapply IH.
Qed.

(** *** Completeness *)

Lemma value_conds_complete op column v : Forall complete (value_conds Sprint op column v).
Proof. unfold value_conds. repeat case_match; repeat constructor. Qed.

Lemma column_cond_complete m column :
  Values m ≠ [] → sound_match m → complete (column_cond Sprint m column).
Proof.
  intros Hvs Hm. unfold column_cond. destruct (_ && (1 <? _)) eqn:Hset.
  - apply andb_true_iff in Hset as [Hop Hlen%Nat.ltb_lt]. unfold set_cond.
    destruct (distinctNull column), (existsb is_nil (Values m)), (bool_decide (Operator m = "=")) eqn:He; simpl;
      split_and?; try done.
    apply Hm in Hlen as (v & Hv & Hnn); [|by apply orb_true_iff in Hop as [|?%bool_decide_eq_true]].
    intros Hnil. apply (not_elem_of_nil v). rewrite -Hnil. apply list_elem_of_In, filter_In.
    by rewrite -list_elem_of_In Hnn.
  - simpl. rewrite all_of_Forall. split.
    + destruct (Values m) as [|v vs]; [done|]. simpl.
      pose proof (value_conds_nonempty Sprint (Operator m) column v). by destruct (value_conds _ _ _ v).
    + apply Forall_join, Forall_fmap, Forall_true. intros v. apply value_conds_complete.
Qed.

Lemma match_cond_complete m :
  (∀ k mapping, Mappings metadata !! k = Some mapping → Columns mapping ≠ []) →
  is_Some (Mappings metadata !! Dimension m) → sound_match m → complete (match_cond Sprint metadata m).
Proof.
  intros Hcols [mapping Hm] Hs. unfold match_cond. case_decide as Hv; simpl; [done|]. rewrite Hm /= all_of_Forall.
  split; [by intros ?%fmap_nil_inv%(Hcols (Dimension m))|].
  apply Forall_fmap, Forall_true. intros column. by apply column_cond_complete.
Qed.

Lemma filter_cond_complete f :
  (∀ k mapping, Mappings metadata !! k = Some mapping → Columns mapping ≠ []) →
  mapped metadata f → sound f → complete (filter_cond Sprint metadata f).
Proof.
  intros Hcols. induction f as [groups matches b IH] using Filter_rect'. simpl. intros [Hms Hgs] (Hne & Hs & Hsg).
  assert ((length matches =? 0) && (length groups =? 0) = false) as ->.
  { destruct matches, groups; simpl in *; naive_solver. }
  simpl. rewrite all_of_Forall Forall_app !Forall_fmap. split_and!.
  - intros [Hn Hg]%app_nil. apply fmap_nil_inv in Hn, Hg. naive_solver.
  - rewrite Forall_forall in Hms. apply Forall_forall. intros m Hm. apply match_cond_complete; [done | by apply Hms|].
    rewrite Forall_forall in Hs. apply Hs. unfold named in Hm. by apply list_elem_of_In, filter_In in Hm as [?%list_elem_of_In _].
  - clear Hne Hms Hs. induction IH as [|g groups Hg _ IH]; constructor; simpl in *; naive_solver.
Qed.
End GrammarLemmas.

(** ** Placeholders *)
Fixpoint count (a : ascii) (s : string) : nat :=
  match s with
  | EmptyString => 0
  | String b s => (if decide (b = a) then 1 else 0) + count a s
  end.

Lemma count_app a s t : count a (s +:+ t) = count a s + count a t.
Proof.
  induction s as [|b s IH]; [done|].
  change (String b s +:+ t) with (String b (s +:+ t)). simpl. rewrite IH. lia.
Qed.

Lemma count_concat a sep (l : list string) :
  count a sep = 0 ∨ length l ≤ 1 → count a (String.concat sep l) = sum_list_with (count a) l.
Proof.
  intros Hsep. induction l as [|s l IH]; [done|]. destruct l as [|t l]; [simpl; lia|].
  destruct Hsep as [Hsep|]; [|simpl in *; lia].
  rewrite concat_cons // !count_app Hsep IH; [by left | done].
Qed.

Lemma fold_case_question a : fold_case a = "?"%char → a = "?"%char.
Proof. by destruct a as [[] [] [] [] [] [] [] []]. Qed.

Lemma EqualFold_plain s t : EqualFold s t = true → count "?" t = 0 → count "?" s = 0.
Proof.
  revert s. induction t as [|b t IH]; intros s; simpl; [by destruct s|].
  destruct s as [|a s1]; [done|]. simpl. intros He Hb.
  destruct (decide (b = "?"%char)) as [|Hbq]; [done|].
  case_decide as Hf.
  - rewrite IH //. case_decide; [|done]. subst a.
    symmetry in Hf. apply fold_case_question in Hf. done.
  - destruct s1 as [|a1 s2]; [done|]. destruct (long_s a a1 && _) eqn:Hl.
    + apply andb_true_iff in Hl as [[Ha%Nat.eqb_eq Ha1%Nat.eqb_eq]%andb_true_iff _]. simpl. rewrite (IH s2) //.
      repeat case_decide; subst; done.
    + destruct s2 as [|a2 s3]; [done|]. destruct (kelvin a a1 a2 && _) eqn:Hk; [|done].
      apply andb_true_iff in Hk as [[[Ha%Nat.eqb_eq Ha1%Nat.eqb_eq]%andb_true_iff Ha2%Nat.eqb_eq]%andb_true_iff _].
      simpl. rewrite (IH s3) //. repeat case_decide; subst; done.
Qed.

Section Placeholders.
Context {O : Type}.

Lemma cond_rect' (P : cond O → Prop) :
  (∀ b t, P (Fixed b t)) → (∀ n c, P (IsNull n c)) → (∀ op c v, P (Compare op c v)) →
  (∀ n c v, P (Like n c v)) → (∀ n c v, P (Member n c v)) → (∀ n c vs, P (In n c vs)) →
  (∀ op cs, Forall P cs → P (Junction op cs)) → P Blank → ∀ c, P c.
Proof.
  intros H1 H2 H3 H4 H5 H6 H7 H8. fix rec 1.
  intros [| | | | | |op cs|]; [apply H1|apply H2|apply H3|apply H4|apply H5|apply H6|apply H7|apply H8].
  induction cs as [|c cs IH]; constructor; [apply rec | done].
Qed.

Lemma question_marks {A} (l : list A) : count "?" (String.concat "," ((λ _, "?") <$> l)) = length l.
Proof.
  rewrite count_concat; [by left|]. induction l as [|x l IH]; [done|].
  change (1 + sum_list_with (count "?") ((λ _, "?") <$> l) = S (length l)). by rewrite IH.
Qed.

Lemma print_placeholders (c : cond O) :
  grammatical c → (∀ name, name ∈ columns_of c → count "?" name = 0) →
  count "?" (print c) = length (args_of c).
Proof.
  induction c as [b t|n c|op c v|n c v|n c v|n c vs|op cs IH|] using cond_rect';
    cbn [print args_of columns_of grammatical]; unfold not_word; intros Hg Hn;
    try (assert (count "?" c = 0) as Hc by (apply Hn; by left)); try destruct n; rewrite ?count_app ?Hc; try done.
  - unfold comparisons in *. set_solver.
  - unfold comparisons in Hg. set_solver.
  - rewrite question_marks. change (0 + (0 + (0 + (0 + (length vs + 0)))) = length vs). lia.
  - rewrite question_marks. change (0 + (0 + (0 + (length vs + 0))) = length vs). lia.
  - destruct Hg as [Hop Hg]. rewrite count_concat.
    { rewrite length_fmap !count_app. destruct Hop as [Hop|[Hop|Hop]]; [left|left|by right];
        by rewrite (EqualFold_plain _ _ Hop). }
    change (sum_list_with (count "?") (print <$> cs) + 0 = length (mjoin (args_of <$> cs))).
    rewrite Nat.add_0_r. clear Hop. induction IH as [|c cs Hc _ IH]; [done|]. simpl in *.
    rewrite length_app Hc ?IH //; naive_solver set_solver.
Qed.
End Placeholders.

(** ** The whole query *)
Section Query.
Context {O : Type} (Sprint : O → string) (metadata : Metadata).

Definition joins_of (dimension : string) : list string :=
  default [] (Metadata.Joins <$> Mappings metadata !! dimension).

Definition columns_for (dimension : string) : list string :=
  default [] ((λ mapping, Name <$> Columns mapping) <$> Mappings metadata !! dimension).

(** The joins of a filter: those of its matches before those of its groups. *)
Fixpoint filter_joins (f : Filter O) : list string :=
  match f with
  | mkFilter groups matches _ => mjoin ((λ m, joins_of (Dimension m)) <$> matches) ++ mjoin (filter_joins <$> groups)
  end.

Definition valid_direction (d : string) : bool :=
  bool_decide (d = "") || EqualFold d "ASC" || EqualFold d "DESC".

Lemma ColumnNames_names mapping : ColumnNames mapping = Name <$> Columns mapping.
Proof. unfold ColumnNames. by rewrite fold_push_all. Qed.

Lemma getJoinsFromOrder_spec order js js' :
  getJoinsFromOrder (O := O) metadata js order = (js', None) →
  js' = js ++ mjoin ((λ o, joins_of (Field o)) <$> order) ∧ Forall (λ o, is_Some (Mappings metadata !! Field o)) order.
Proof.
  revert js. induction order as [|o order IH]; intros js; simpl.
  - intros [= <-]. split; [by rewrite app_nil_r | constructor].
  - unfold joins_of at 1. destruct (Mappings metadata !! Field o) as [mapping|] eqn:Hm; [|done]. simpl.
    destruct (Metadata.Joins mapping) as [|j l] eqn:Hj; simpl; intros [-> Hall]%IH;
      (split; [by rewrite -?app_assoc | by constructor]).
Qed.

Lemma getJoinsFromMatches_spec (matches : list (FilterMatch O)) js js' :
  getJoinsFromMatches metadata js matches = (js', None) →
  js' = js ++ mjoin ((λ m, joins_of (Dimension m)) <$> matches).
Proof.
  revert js. induction matches as [|m matches IH]; intros js; simpl.
  - intros [= <-]. by rewrite app_nil_r.
  - unfold joins_of at 1. destruct (Mappings metadata !! Dimension m) as [mapping|] eqn:Hm; [|done]. simpl.
    by destruct (Metadata.Joins mapping) as [|j l] eqn:Hj; simpl; intros ->%IH; rewrite -?app_assoc.
Qed.

Lemma getJoinsFromFilter_spec f js js' :
  getJoinsFromFilter metadata js f = (js', None) → js' = js ++ filter_joins f.
Proof.
  revert js js'. induction f as [groups matches b IH] using Filter_rect'; intros js js'. simpl.
  destruct (getJoinsFromMatches metadata js matches) as [js1 [e|]] eqn:Hm; [done|].
  apply getJoinsFromMatches_spec in Hm as ->. rewrite app_assoc. generalize (js ++ mjoin ((λ m, joins_of (Dimension m)) <$> matches)).
  clear js. revert js'. induction IH as [|g groups Hg _ IH]; intros js' js; simpl.
  - intros [= <-]. by rewrite app_nil_r.
  - destruct (getJoinsFromFilter metadata js g) as [js1 [e|]] eqn:Hf; [done|].
    apply Hg in Hf as ->. intros ->%IH. by rewrite -app_assoc.
Qed.

Lemma getJoins_spec (inp : Input O) js :
  getJoins metadata inp = (js, None) →
  js = mjoin ((λ o, joins_of (Field o)) <$> iOrder inp) ++ filter_joins (iFilter inp) ∧
  Forall (λ o, is_Some (Mappings metadata !! Field o)) (iOrder inp).
Proof.
  unfold getJoins. destruct (getJoinsFromOrder metadata [] (iOrder inp)) as [js1 [e|]] eqn:Ho; [done|].
  apply getJoinsFromOrder_spec in Ho as [-> Hall]. by intros ->%getJoinsFromFilter_spec.
Qed.

Lemma buildGroupBy_spec fields groupBy js groupBy' js' :
  buildGroupBy (O := O) metadata fields groupBy js = Ok (groupBy', js') →
  groupBy' = groupBy ++ mjoin (columns_for <$> fields) ∧ js' = js ++ mjoin (joins_of <$> fields).
Proof.
  revert groupBy js. induction fields as [|g fields IH]; intros groupBy js; simpl.
  - intros [= <- <-]. by rewrite !app_nil_r.
  - unfold columns_for at 1, joins_of at 1. destruct (Mappings metadata !! g) as [mapping|] eqn:Hm; [|done].
    simpl. rewrite ColumnNames_names. intros [-> ->]%IH. by rewrite -!app_assoc.
Qed.

(** The entry of an order. *)
Definition order_of (o : Order) : string * string := (String.concat ", " (columns_for (Field o)), Direction o).

Lemma buildOrder_spec `{QueryBuilder O B} order (b b' : B) r :
  Forall (λ o, is_Some (Mappings metadata !! Field o)) order →
  buildOrder metadata order b = (b', r) →
  match r with
  | None => b' = fold_left (λ b o, OrderBy (order_of o).1 (order_of o).2 b) order b ∧
            Forall (λ o, valid_direction (Direction o) = true) order
  | Some e => ∃ o, o ∈ order ∧ e = InvalidDirection (Direction o) ∧ valid_direction (Direction o) = false
  end.
Proof.
  revert b. induction order as [|o order IH]; intros b Hall; simpl.
  - intros [= <- <-]. by split.
  - inversion Hall as [|?? [mapping Hm] Hall']; subst. rewrite Hm ColumnNames_names.
    destruct (_ && _) eqn:Hd.
    + intros [= <- <-]. exists o. split; [by left|]. split; [done|]. unfold valid_direction.
      by destruct (bool_decide _), (EqualFold _ "ASC"), (EqualFold _ "DESC").
    + assert (valid_direction (Direction o) = true) as Hv.
      { unfold valid_direction. by destruct (bool_decide _), (EqualFold _ "ASC"), (EqualFold _ "DESC"). }
      intros Hb. apply IH in Hb; [|done]. destruct r as [e|].
      * destruct Hb as (o' & Ho' & He). exists o'. split; [by right | done].
      * destruct Hb as [-> Hf]. split; [|by constructor]. by rewrite /order_of /columns_for Hm.
Qed.

Lemma fold_OrderBy order (b : Orm.builder (O := O)) :
  fold_left (λ b o, OrderBy (O := O) (order_of o).1 (order_of o).2 b) order b =
  {| Orm.table := Orm.table b; Orm.joins := Orm.joins b; Orm.where_ := Orm.where_ b; Orm.args := Orm.args b;
     Orm.groupBy := Orm.groupBy b; Orm.orderBy := Orm.orderBy b ++ (order_of <$> order); Orm.page := Orm.page b |}.
Proof.
  revert b. induction order as [|o order IH]; intros b; simpl.
  - rewrite app_nil_r. by destruct b.
  - rewrite IH. simpl. by rewrite -app_assoc.
Qed.
End Query.

(** ** Which filters are built *)
Section Admissible.
Context {O : Type} (Sprint : O → string) (metadata : Metadata).
Implicit Types (m : FilterMatch O) (v : any O).

Definition is_Ok {E A} (r : result E A) : Prop := ∃ a, r = Ok a.

(** An operator besides IS and IS NOT that the code knows. *)
Definition known_operator (op : string) : bool :=
  bool_decide (op ∈ ["~"; "!~"; "MEMBER OF"; "NOT MEMBER OF"] ++ comparisons) ||
  EqualFold op "LIKE" || EqualFold op "NOT LIKE".

Definition statement_ok (op : string) v : bool :=
  if EqualFold op "IS" || EqualFold op "IS NOT" then isNullValue v else known_operator op.

Definition boolean_ok (b : string) (operands : nat) : Prop := is_and b = true ∨ is_or b = true ∨ operands ≤ 1.

Definition match_ok m : Prop :=
  ∃ mapping, Mappings metadata !! Dimension m = Some mapping ∧
    (Values m = [] ∨
     (Columns mapping = [] ∨ Forall (λ v, statement_ok (Operator m) v = true) (Values m)) ∧
     boolean_ok (mBool mapping) (length (Columns mapping))).

Fixpoint filter_ok (f : Filter O) : Prop :=
  match f with
  | mkFilter groups matches b =>
      matches = [] ∧ groups = [] ∨
      Forall match_ok (named matches) ∧ all_of filter_ok groups ∧
      boolean_ok b (length (named matches) + length groups)
  end.

Lemma is_Ok_bind {E A B} (r : result E A) (k : A → result E B) : is_Ok (res_bind r k) ↔ ∃ a, r = Ok a ∧ is_Ok (k a).
Proof. unfold is_Ok. destruct r; naive_solver. Qed.

Lemma is_Ok_Ok {E A} (a : A) : is_Ok (Ok (E := E) a) ↔ True.
Proof. split; [done | by exists a]. Qed.

Lemma is_Ok_Err {E A} (e : E) : is_Ok (A := A) (Err e) ↔ False.
Proof. split; [by intros [a [=]] | done]. Qed.

Lemma buildStatement_known op column v :
  EqualFold op "IS" = false → EqualFold op "IS NOT" = false →
  is_Ok (buildStatement Sprint op column v) ↔ known_operator op = true.
Proof.
  intros H1 H2. unfold known_operator, comparisons.
  destruct (decide (op ∈ ["~"; "!~"; "MEMBER OF"; "NOT MEMBER OF"] ++ ["="; "!="; "<"; ">"; "<="; ">="])) as [Hin|Hout].
  - rewrite bool_decide_eq_true_2 //. split; [done|]. intros _. clear H1 H2. unfold is_Ok.
    repeat (apply elem_of_cons in Hin as [->|Hin]; [destruct (is_nil v) eqn:Hv, (distinctNull column) eqn:Hc;
      unfold buildStatement; rewrite ?Hv ?Hc; by eexists|]).
    by apply not_elem_of_nil in Hin.
  - rewrite bool_decide_eq_false_2 //. unfold buildStatement, comparisons. rewrite H1 H2.
    rewrite not_elem_of_app in Hout. destruct Hout as [Hout Hcmp].
    rewrite (bool_decide_eq_false_2 (op ∈ _) Hcmp). rewrite !not_elem_of_cons in Hout Hcmp. destruct_and! Hout. destruct_and! Hcmp.
    repeat first [rewrite decide_False // | rewrite bool_decide_eq_false_2 //].
    by destruct (EqualFold op "LIKE"), (EqualFold op "NOT LIKE"); simpl; rewrite ?is_Ok_Ok ?is_Ok_Err.
Qed.

Lemma buildStatement_Ok op column v : is_Ok (buildStatement Sprint op column v) ↔ statement_ok op v = true.
Proof.
  unfold statement_ok. destruct (EqualFold op "IS") eqn:H1; simpl; [|destruct (EqualFold op "IS NOT") eqn:H2; simpl].
  - unfold buildStatement. rewrite H1. destruct (isNullValue v); simpl; rewrite ?is_Ok_Ok ?is_Ok_Err //.
  - unfold buildStatement. rewrite H1 H2. destruct (isNullValue v); simpl; rewrite ?is_Ok_Ok ?is_Ok_Err //.
  - by apply buildStatement_known.
Qed.

Lemma buildStatements_Ok op column vs w a :
  is_Ok (buildStatements Sprint op column vs w a) ↔ Forall (λ v, statement_ok op v = true) vs.
Proof.
  revert w a. induction vs as [|v vs IH]; intros w a; simpl; [by rewrite is_Ok_Ok Forall_nil|].
  rewrite is_Ok_bind Forall_cons -(buildStatement_Ok op column v).
  split; [intros ([st sa] & Hv & Hr) | intros [[[st sa] Hv] Hr]].
  - apply IH in Hr. split; [by eexists | done].
  - exists (st, sa). split; [done | by apply IH].
Qed.

Lemma buildFilterColumn_Ok m column :
  is_Ok (buildFilterColumn Sprint m column) ↔ Forall (λ v, statement_ok (Operator m) v = true) (Values m).
Proof.
  unfold buildFilterColumn. destruct (_ && (1 <? _)) eqn:Hset.
  - rewrite is_Ok_Ok. split; [|done]. intros _. apply Forall_true. intros v.
    apply andb_true_iff in Hset as [Hop _]. unfold statement_ok.
    by apply orb_true_iff in Hop as [->%bool_decide_eq_true | ->%bool_decide_eq_true].
  - rewrite is_Ok_bind -(buildStatements_Ok _ column _ [] []). unfold is_Ok.
    split; [naive_solver|]. intros [[st sa] Hr]. exists (st, sa). split; [done | by eexists].
Qed.

Lemma buildColumns_Ok m columns w a :
  is_Ok (buildColumns Sprint m columns w a) ↔
  columns = [] ∨ Forall (λ v, statement_ok (Operator m) v = true) (Values m).
Proof.
  revert w a. induction columns as [|c columns IH]; intros w a; simpl; [rewrite is_Ok_Ok; naive_solver|].
  rewrite -(buildFilterColumn_Ok m c). split.
  - destruct (buildFilterColumn Sprint m c) as [x|e]; [by right; exists x | by intros [? [=]]].
  - intros [|[[st sa] Hc]]; [done|]. rewrite Hc. apply IH. right. apply (buildFilterColumn_Ok m c). by exists (st, sa).
Qed.

Lemma invalid_boolean_ok b (l : list string) n :
  length l = n → invalid_boolean b l = false ↔ boolean_ok b n.
Proof.
  intros <-. unfold invalid_boolean, boolean_ok. destruct (is_and b), (is_or b); simpl; try naive_solver.
  rewrite Nat.ltb_ge. naive_solver.
Qed.

Lemma is_Ok_checked {E A} (c : bool) (e : E) (x : A) : is_Ok (if c then Err e else Ok x) ↔ c = false.
Proof. destruct c; rewrite ?is_Ok_Ok ?is_Ok_Err; naive_solver. Qed.

Lemma buildFilterValues_Ok m : is_Ok (buildFilterValues Sprint metadata m) ↔ match_ok m.
Proof.
  unfold buildFilterValues, match_ok. destruct (Mappings metadata !! Dimension m) as [mapping|].
  2: { rewrite is_Ok_Err. naive_solver. }
  destruct (Values m) as [|v vs] eqn:Hv; simpl; [rewrite is_Ok_Ok; naive_solver|].
  rewrite is_Ok_bind. split.
  - intros ([stmts a] & Hs & Hb%is_Ok_checked). exists mapping. split; [done|]. right. split.
    + rewrite -Hv. by apply (buildColumns_Ok m _ [] []); eexists.
    + apply buildColumns_cond in Hs as [-> _]. eapply invalid_boolean_ok; [|done]. by rewrite !length_fmap.
  - intros (mapping' & [= <-] & [|[Hs Hb]]); [done|]. rewrite -Hv in Hs.
    apply (buildColumns_Ok m _ [] []) in Hs as [[stmts a] Hs]. exists (stmts, a). split; [done|].
    apply is_Ok_checked. apply buildColumns_cond in Hs as [-> _]. eapply invalid_boolean_ok; [|done]. by rewrite !length_fmap.
Qed.

Lemma buildFilterMatches_Ok matches w a :
  is_Ok (buildFilterMatches Sprint metadata matches w a) ↔ Forall match_ok (named matches).
Proof.
  revert w a. induction matches as [|m matches IH]; intros w a; simpl; [by rewrite is_Ok_Ok Forall_nil|].
  unfold named. simpl. case_decide as Hd.
  - rewrite bool_decide_eq_false_2; [by intros []|]. apply IH.
  - rewrite bool_decide_eq_true_2 // is_Ok_bind Forall_cons -buildFilterValues_Ok.
    split; [intros ([st sa] & Hv & Hr) | intros [[[st sa] Hv] Hr]].
    + apply IH in Hr. split; [by eexists | done].
    + exists (st, sa). split; [done | by apply IH].
Qed.

Lemma buildGroups_Ok groups w a :
  is_Ok (buildGroups Sprint metadata groups w a) ↔ Forall (λ g, is_Ok (buildFilter Sprint metadata g)) groups.
Proof.
  revert w a. induction groups as [|g groups IH]; intros w a; simpl; [by rewrite is_Ok_Ok Forall_nil|].
  rewrite is_Ok_bind Forall_cons. split; [intros ([st sa] & Hv & Hr) | intros [[[st sa] Hv] Hr]].
  - apply IH in Hr. split; [by eexists | done].
  - exists (st, sa). split; [done | by apply IH].
Qed.

Lemma buildGroups_length groups w a w' a' :
  buildGroups Sprint metadata groups w a = Ok (w', a') → length w' = length w + length groups.
Proof.
  revert w a. induction groups as [|g groups IH]; intros w a; simpl; [intros [= <- <-]; lia|].
  destruct (buildFilter Sprint metadata g) as [[gw ga]|]; [|done]. simpl. intros ->%IH. rewrite length_app /=. lia.
Qed.
End Admissible.

(** ** Theorems *)

(** C28: A row is in the result of a filter that is built exactly when the filter holds for
    it in two-valued logic: the text and the arguments are those of a condition that is
    valid SQL and true for the rows the filter holds for, with the sets for equality, the
    treatment of NULL in both modes and the operators that the filter names.  The filter
    is the empty one, which has the empty text and all rows, or it has no empty groups and
    no set of nothing but nil for the operator !=; the dimensions are mapped to at least
    one column. *)
Theorem buildFilter_meaning {O V} (Sprint : O → string) (d : database O V) `{!DatabaseLaws d} metadata f where_ args :
  (∀ k mapping, Mappings metadata !! k = Some mapping → Columns mapping ≠ []) →
  sound f ∨ empty_filter f →
  buildFilter Sprint metadata f = Ok (where_, args) →
  ∃ c, where_ = print c ∧ args = args_of c ∧ (empty_filter f ∨ complete c) ∧
       ∀ row, accepts d row c ↔ filter_holds Sprint d row metadata f = true.
Proof.
  intros Hcols Hf Hb. exists (filter_cond Sprint metadata f).
  destruct (buildFilter_cond Sprint metadata f where_ args Hb) as [-> ->]. split; [done|]. split; [done|].
  destruct Hf as [Hs|[b ->]]; [|by split; [left; exists b|]].
  assert (mapped metadata f) as Hm by by eapply buildFilter_mapped.
  assert (complete (filter_cond Sprint metadata f)) as Hc by by apply filter_cond_complete.
  split; [by right|]. intros row. rewrite -filter_cond_meaning // /accepts. by destruct (filter_cond Sprint metadata f); naive_solver.
Qed.

(** No text of a request reaches the query: what is built is the text of a condition
    whose columns come from the metadata, whose operators are known and whose operands
    are joined with AND or OR; the values are arguments.  When the filter is sound, no
    operand is missing from the text. *)
Theorem buildFilter_injection_free {O} (Sprint : O → string) metadata f where_ args :
  buildFilter Sprint metadata f = Ok (where_, args) →
  ∃ c, where_ = print c ∧ args = args_of c ∧ grammatical c ∧
       (∀ name, name ∈ columns_of c → known_column metadata name) ∧
       ((∀ k mapping, Mappings metadata !! k = Some mapping → Columns mapping ≠ []) → sound f → complete c).
Proof.
  intros Hb. exists (filter_cond Sprint metadata f).
  destruct (buildFilter_cond Sprint metadata f where_ args Hb) as [-> ->].
  split_and!; [done..|by eapply buildFilter_grammatical|apply filter_cond_columns|].
  intros Hcols Hs. eapply filter_cond_complete; [done | by eapply buildFilter_mapped | done].
Qed.

(** The text has one placeholder for each argument, unless a column's name has a
    question mark. *)
Theorem buildFilter_placeholders {O} (Sprint : O → string) metadata f where_ args :
  (∀ name, known_column metadata name → count "?" name = 0) →
  buildFilter Sprint metadata f = Ok (where_, args) → count "?" where_ = length args.
Proof.
  intros Hplain Hb. destruct (buildFilter_cond Sprint metadata f where_ args Hb) as [-> ->].
  apply print_placeholders; [by eapply buildFilter_grammatical|].
  intros name Hn. eapply Hplain, filter_cond_columns, Hn.
Qed.

(** C33: A filter is refused exactly when a dimension is not mapped, an operator is not known,
    IS or IS NOT is used with something else than NULL, or several operands are joined
    with something else than AND or OR.  What is skipped is not looked at: of a match
    with an empty dimension nothing, of a match without values only the dimension and of
    one that is mapped to no columns neither its operator nor its values. *)
Theorem buildFilter_error {O} (Sprint : O → string) metadata f :
  (∃ w, buildFilter Sprint metadata f = Ok w) ↔ filter_ok metadata f.
Proof.
  change (is_Ok (buildFilter Sprint metadata f) ↔ filter_ok metadata f).
  induction f as [groups matches b IH] using Filter_rect'. rewrite buildFilter_unfold. simpl.
  destruct (_ && _) eqn:He.
  { apply andb_true_iff in He as [Hm%Nat.eqb_eq Hg%Nat.eqb_eq]. apply nil_length_inv in Hm, Hg.
    rewrite is_Ok_Ok. naive_solver. }
  assert (¬ (matches = [] ∧ groups = [])) as Hne by (intros [-> ->]; done).
  rewrite is_Ok_bind. rewrite all_of_Forall.
  assert (Forall (λ g, is_Ok (buildFilter Sprint metadata g)) groups ↔ Forall (filter_ok metadata) groups) as Hgs.
  { clear -IH. induction IH as [|g groups Hg _ IH]; [by rewrite !Forall_nil|]. by rewrite !Forall_cons Hg IH. }
  split.
  - intros ([w1 a1] & Hm & ([w2 a2] & Hg & Hb%is_Ok_checked)%is_Ok_bind). right. split_and!.
    + apply (buildFilterMatches_Ok Sprint metadata matches [] []). by eexists.
    + apply Hgs, (buildGroups_Ok Sprint metadata groups w1 a1). by eexists.
    + eapply invalid_boolean_ok; [|done]. apply buildGroups_length in Hg as ->.
      apply buildFilterMatches_cond in Hm as [-> _]. by rewrite app_nil_l !length_fmap.
  - intros [|(Hm & Hg & Hb)]; [done|]. apply (buildFilterMatches_Ok Sprint metadata matches [] []) in Hm as [[w1 a1] Hm].
    exists (w1, a1). split; [done|]. apply is_Ok_bind. apply Hgs, (buildGroups_Ok Sprint metadata groups w1 a1) in Hg as [[w2 a2] Hg].
    exists (w2, a2). split; [done|]. apply is_Ok_checked. eapply invalid_boolean_ok; [|done].
    apply buildGroups_length in Hg as ->. apply buildFilterMatches_cond in Hm as [-> _]. by rewrite app_nil_l !length_fmap.
Qed.

(** What OrmQueryBuilder.Build builds: without an error, the table, every join once, the
    filter, the groups that begin with the primary key, the orders and the page; with an
    error, nothing at all unless a direction is invalid, although the orders are then
    checked after the query has been filled. *)
Theorem orm_Build_correct {O} (Sprint : O → string) metadata (inp : Input O) qb err :
  Orm.Build Sprint metadata inp = (qb, err) →
  match err with
  | None =>
      ∃ where_ args, buildFilter Sprint metadata (iFilter inp) = Ok (where_, args) ∧
        TableName metadata ≠ "" ∧ PrimaryKey metadata ≠ "" ∧
        Forall (λ o, valid_direction (Direction o) = true) (iOrder inp) ∧
        qb = {| Orm.table := TableName metadata;
                Orm.joins := Uniq (mjoin ((λ o, joins_of metadata (Field o)) <$> iOrder inp) ++
                                   filter_joins metadata (iFilter inp) ++
                                   mjoin (joins_of metadata <$> GroupBy inp));
                Orm.where_ := [where_]; Orm.args := [args];
                Orm.groupBy := PrimaryKey metadata :: mjoin (columns_for metadata <$> GroupBy inp);
                Orm.orderBy := order_of metadata <$> iOrder inp;
                Orm.page := (λ p, (Offset p, Limit p)) <$> iPage inp |}
  | Some e =>
      qb = Orm.NewQueryBuilder ∨
      ∃ o, o ∈ iOrder inp ∧ e = InvalidDirection (Direction o) ∧ valid_direction (Direction o) = false
  end.
Proof.
  unfold Orm.Build, build.
  destruct (getJoins metadata inp) as [js [e|]] eqn:Hj; [intros [= <- <-]; by left|].
  destruct (buildFilter Sprint metadata (iFilter inp)) as [[w a]|e] eqn:Hf; [|intros [= <- <-]; by left].
  case_decide as Ht; [intros [= <- <-]; by left|]. case_decide as Hp; [intros [= <- <-]; by left|].
  destruct (buildGroupBy _ _ _ _) as [[gb js']|e] eqn:Hg; [|intros [= <- <-]; by left].
  apply getJoins_spec in Hj as [-> Hall]. apply buildGroupBy_spec in Hg as [-> ->].
  destruct (buildOrder _ _ _) as [qb' r] eqn:Ho. apply buildOrder_spec in Ho; [|done].
  destruct r as [e|]; [intros [= <- <-]; by right|]. destruct Ho as [-> Hd].
  rewrite fold_OrderBy -app_assoc. destruct (iPage inp) as [p|]; intros [= <- <-]; by exists w, a.
Qed.

(** ** Samples

    The metadata and the expected texts are those of query_builder_test.go. *)
Definition sample_metadata : Metadata := {|
  TableName := "tablename"; PrimaryKey := "id";
  Mappings := list_to_map [
    ("bla", NewFieldMapping "foo"); ("void", NewFieldMapping "void"); ("fieldA", NewFieldMapping "fieldA");
    ("fieldB", WithJoin "JOIN fieldBTable" (NewFieldMapping "fieldB"));
    ("go", NewFieldMappingWithMode "go" NullModeDistinct);
    ("both", WithBool "AND" (WithColumn "right" (NewFieldMapping "left")))]
|}.

Definition eq_match (dimension op : string) (values : list (any Z)) : FilterMatch Z :=
  {| Values := values; Dimension := dimension; Operator := op |}.

Definition no_sprint (z : Z) : string := "".

Definition sample_filter : Filter Z :=
  mkFilter
    [mkFilter [] [eq_match "fieldB" "~" [Str "foo"]; eq_match "fieldB" "=" [Str "bar"]] "OR"]
    [eq_match "bla" "=" [Str "blub"; Str "blubber"]; eq_match "fieldA" "!=" [Other 1%Z]; eq_match "void" "is" [Str "null"]]
    "AND".

Example sample_filter_text :
  buildFilter no_sprint sample_metadata sample_filter =
  Ok ("(((foo IN (?,?))) AND ((fieldA != ?)) AND ((void IS NULL)) AND (((fieldB LIKE ?)) OR ((fieldB = ?))))",
      [Str "blub"; Str "blubber"; Other 1%Z; Str "%foo%"; Str "bar"]).
Proof. vm_compute. reflexivity. Qed.

Example null_filter_text :
  buildFilter no_sprint sample_metadata
    (mkFilter [] [eq_match "go" "=" [Str "a"; Nil]; eq_match "go" "!=" [Str "a"; Nil]; eq_match "go" "!=" [Str "a"; Str "b"];
                  eq_match "go" "=" [Nil]; eq_match "bla" "!=" [Str "a"; Nil]] "and") =
  Ok ("(((go IN (?,?) OR go IS NULL)) and ((go NOT IN (?) AND go IS NOT NULL)) and " +:+
      "((go NOT IN (?,?) OR go IS NULL)) and ((go IS NULL)) and ((foo NOT IN (?,?))))",
      [Str "a"; Nil; Str "a"; Str "a"; Str "b"; Str "a"; Nil]).
Proof. vm_compute. reflexivity. Qed.

(** An empty group becomes an operand without a text. *)
Lemma empty_group_text :
  buildFilter no_sprint sample_metadata (mkFilter [mkFilter [] [] "AND"] [eq_match "bla" "=" [Str "a"]] "AND") =
  Ok ("(((foo = ?)) AND )", [Str "a"]).
Proof. vm_compute. reflexivity. Qed.

(** Several nils for the operator != leave the list empty. *)
Lemma nil_set_text :
  buildFilter no_sprint sample_metadata (mkFilter [] [eq_match "go" "!=" [Nil; Nil]] "AND") =
  Ok ("(((go NOT IN () AND go IS NOT NULL)))", []).
Proof. vm_compute. reflexivity. Qed.

#[export] Instance any_eq_dec : EqDecision (any Z).
Proof. solve_decision. Defined.

(** A database that stores the values as they are and knows no more than equality. *)
Definition sample_db : database Z (any Z) := {|
  to_db v := match v with Nil => None | _ => Some v end;
  eq_db a b := bool_decide (a = b);
  like_db a b := bool_decide (b = Str "%foo%");
  member_db a b := false;
  rel_db op a b := false
|}.

#[export] Instance sample_db_laws : DatabaseLaws sample_db.
Proof. by intros []. Qed.

Lemma sample_mapped k mapping : Mappings sample_metadata !! k = Some mapping → Columns mapping ≠ [].
Proof.
  intros Hm. apply elem_of_list_to_map_2 in Hm.
  repeat (apply elem_of_cons in Hm as [[= -> ->]|Hm]; [discriminate|]). by apply not_elem_of_nil in Hm.
Qed.

Lemma buildFilter_meaning_witness :
  ∃ c, "(((foo IN (?,?))) AND ((fieldA != ?)) AND ((void IS NULL)) AND (((fieldB LIKE ?)) OR ((fieldB = ?))))" = print c ∧
       [Str "blub"; Str "blubber"; Other 1%Z; Str "%foo%"; Str "bar"] = args_of c ∧ (empty_filter sample_filter ∨ complete c) ∧
       ∀ row, accepts sample_db row c ↔ filter_holds no_sprint sample_db row sample_metadata sample_filter = true.
Proof.
  apply (buildFilter_meaning no_sprint sample_db sample_metadata); [exact sample_mapped| |vm_compute; reflexivity].
  left. repeat split; try (left; discriminate); repeat constructor; intros Ho Hl; simpl in Hl; try discriminate; lia.
Defined.

Lemma buildFilter_error_witness :
  filter_ok sample_metadata sample_filter ∧
  ¬ filter_ok sample_metadata (mkFilter [] [eq_match "bla" "<>" [Str "a"]] "AND").
Proof.
  split.
  - apply (proj1 (buildFilter_error no_sprint sample_metadata sample_filter)). eexists. vm_compute. reflexivity.
  - intros Hok. destruct (proj2 (buildFilter_error no_sprint sample_metadata _) Hok) as [w Hw]. vm_compute in Hw. discriminate Hw.
Defined.

Lemma buildFilter_injection_free_witness :
  ∃ c, "(((foo IN (?,?))) AND ((fieldA != ?)) AND ((void IS NULL)) AND (((fieldB LIKE ?)) OR ((fieldB = ?))))" = print c ∧
       [Str "blub"; Str "blubber"; Other 1%Z; Str "%foo%"; Str "bar"] = args_of c ∧ grammatical c ∧
       (∀ name, name ∈ columns_of c → known_column sample_metadata name) ∧
       ((∀ k mapping, Mappings sample_metadata !! k = Some mapping → Columns mapping ≠ []) → sound sample_filter → complete c).
Proof. apply (buildFilter_injection_free no_sprint sample_metadata). vm_compute. reflexivity. Defined.

Lemma sample_columns : ∀ name, known_column sample_metadata name → count "?" name = 0.
Proof.
  intros name (k & mapping & column & Hm & Hc & ->). apply elem_of_list_to_map_2 in Hm.
  repeat (apply elem_of_cons in Hm as [[= -> ->]|Hm];
    [simpl in Hc; repeat (apply elem_of_cons in Hc as [->|Hc]; [done|]); by apply not_elem_of_nil in Hc|]).
  by apply not_elem_of_nil in Hm.
Qed.

Lemma buildFilter_placeholders_witness :
  count "?" "(((foo = ?)) AND )" = length [Str (O := Z) "a"].
Proof. apply (buildFilter_placeholders no_sprint sample_metadata) with (f := mkFilter [mkFilter [] [] "AND"] [eq_match "bla" "=" [Str "a"]] "AND"); [exact sample_columns | vm_compute; reflexivity]. Defined.

Definition sample_input : Input Z := {|
  iFilter := sample_filter; GroupBy := ["fieldB"]; iOrder := [{| Direction := "desc"; Field := "both" |}];
  iPage := Some {| Limit := 3; Offset := 0 |}
|}.

Lemma orm_Build_correct_witness :
  ∃ where_ args, buildFilter no_sprint sample_metadata (iFilter sample_input) = Ok (where_, args) ∧
    TableName sample_metadata ≠ "" ∧ PrimaryKey sample_metadata ≠ "" ∧
    Forall (λ o, valid_direction (Direction o) = true) (iOrder sample_input) ∧
    (Orm.Build no_sprint sample_metadata sample_input).1 =
      {| Orm.table := "tablename"; Orm.joins := ["JOIN fieldBTable"]; Orm.where_ := [where_]; Orm.args := [args];
         Orm.groupBy := ["id"; "fieldB"]; Orm.orderBy := [("left, right", "desc")]; Orm.page := Some (0%Z, 3%Z) |}.
Proof. apply (orm_Build_correct no_sprint sample_metadata sample_input _ None). vm_compute. reflexivity. Defined.
