(* ===== verification/ClockFake.v ===== *)
(** * pkg/clock: the fake clock, its timers and tickers, the health check timer

    A clock for tests: time passes when Advance is called.  Every method is one function
    for each stretch it runs under the clock's lock (a Reset has two), on a record with
    the fields of the Go structs; a channel with a buffer of one is an [option].  The
    differences of durations do not overflow as long as no time passes backwards. *)
From S2P Require Import Prelude.

Open Scope Z_scope.

(** [pkg/clock/fake_clock.go:39-39] blockerMap: the channels of the blocked calls, by what they wait for *)
Definition blockerMap := gmap Z (list nat).

(** [pkg/clock/fake_clock.go:41-44] fakeSleeper; the channel by its number *)
Record fakeSleeper := { sl_c : nat; sl_remaining : Z }.

(** [pkg/clock/fake_timer.go:8-13] fakeTimer *)
Record fakeTimer := { tm_c : option Z; tm_remaining : Z }.

(** [pkg/clock/fake_ticker.go:9-15] fakeTicker *)
Record fakeTicker := { tk_c : option Z; tk_remaining : Z; tk_duration : Z }.

(** [pkg/clock/fake_clock.go:27-37] fakeClock.  [chans]: the channels After has made; [closed]: the
    channels of blocked calls that were closed; [fresh]: the number of the next such channel. *)
Record fakeClock := {
  now : Z;
  sleepers : list fakeSleeper;
  timers : list fakeTimer;
  tickers : list fakeTicker;
  blockOnSleepers : blockerMap;
  blockOnTimers : blockerMap;
  blockOnTickers : blockerMap;
  chans : list (option Z);
  closed : gset nat;
  fresh : nat
}.

(** [pkg/clock/fake_clock.go:52-65] NewFakeClockAt *)
Definition NewFakeClockAt (t : Z) : fakeClock := {|
  now := t; sleepers := []; timers := []; tickers := [];
  blockOnSleepers := ∅; blockOnTimers := ∅; blockOnTickers := ∅;
  chans := []; closed := ∅; fresh := 0
|}.

Definition with_timers (ts : list fakeTimer) (f : fakeClock) : fakeClock := {|
  now := now f; sleepers := sleepers f; timers := ts; tickers := tickers f;
  blockOnSleepers := blockOnSleepers f; blockOnTimers := blockOnTimers f; blockOnTickers := blockOnTickers f;
  chans := chans f; closed := closed f; fresh := fresh f
|}.

Definition with_tickers (ks : list fakeTicker) (f : fakeClock) : fakeClock := {|
  now := now f; sleepers := sleepers f; timers := timers f; tickers := ks;
  blockOnSleepers := blockOnSleepers f; blockOnTimers := blockOnTimers f; blockOnTickers := blockOnTickers f;
  chans := chans f; closed := closed f; fresh := fresh f
|}.

Definition with_sleepers (ss : list fakeSleeper) (cs : list (option Z)) (f : fakeClock) : fakeClock := {|
  now := now f; sleepers := ss; timers := timers f; tickers := tickers f;
  blockOnSleepers := blockOnSleepers f; blockOnTimers := blockOnTimers f; blockOnTickers := blockOnTickers f;
  chans := cs; closed := closed f; fresh := fresh f
|}.

(** ** Blocked calls *)

(** [pkg/clock/fake_clock.go:200-214] fakeClock.notifyBlockers: the blockers that stay, and the channels it closes *)
Definition notifyBlockers (blockers : blockerMap) (waiting : Z) : blockerMap * gset nat :=
  (filter (λ b, ¬ b.1 ≤ waiting) blockers,
   list_to_set (concat (map_to_list (filter (λ b, b.1 ≤ waiting) blockers)).*2)).

Definition count {A} (p : A → bool) (l : list A) : Z := Z.of_nat (length (List.filter p l)).

(** [pkg/clock/fake_clock.go:216-226] fakeClock.waitingSleepers *)
Definition waitingSleepers (f : fakeClock) : Z := count (λ s, bool_decide (0 < sl_remaining s)) (sleepers f).

(** [pkg/clock/fake_clock.go:228-240] fakeClock.waitingTimers *)
Definition waitingTimers (f : fakeClock) : Z := count (λ t, bool_decide (0 < tm_remaining t)) (timers f).

(** [pkg/clock/fake_clock.go:242-254] fakeClock.waitingTickers *)
Definition waitingTickers (f : fakeClock) : Z := count (λ k, bool_decide (0 < tk_duration k)) (tickers f).

Definition notifySleepers (f : fakeClock) : fakeClock :=
  let '(blockers, done) := notifyBlockers (blockOnSleepers f) (waitingSleepers f) in
  {| now := now f; sleepers := sleepers f; timers := timers f; tickers := tickers f;
     blockOnSleepers := blockers; blockOnTimers := blockOnTimers f; blockOnTickers := blockOnTickers f;
     chans := chans f; closed := done ∪ closed f; fresh := fresh f |}.

Definition notifyTimers (f : fakeClock) : fakeClock :=
  let '(blockers, done) := notifyBlockers (blockOnTimers f) (waitingTimers f) in
  {| now := now f; sleepers := sleepers f; timers := timers f; tickers := tickers f;
     blockOnSleepers := blockOnSleepers f; blockOnTimers := blockers; blockOnTickers := blockOnTickers f;
     chans := chans f; closed := done ∪ closed f; fresh := fresh f |}.

Definition notifyTickers (f : fakeClock) : fakeClock :=
  let '(blockers, done) := notifyBlockers (blockOnTickers f) (waitingTickers f) in
  {| now := now f; sleepers := sleepers f; timers := timers f; tickers := tickers f;
     blockOnSleepers := blockOnSleepers f; blockOnTimers := blockOnTimers f; blockOnTickers := blockers;
     chans := chans f; closed := done ∪ closed f; fresh := fresh f |}.

Definition add_blocker (n : Z) (ch : nat) (blockers : blockerMap) : blockerMap :=
  <[n := default [] (blockers !! n) ++ [ch]]> blockers.

(** [pkg/clock/fake_clock.go:149-164] fakeClock.BlockUntil; the channel it waits for, if it has to wait *)
Definition BlockUntil (n : Z) (f : fakeClock) : fakeClock * option nat :=
  if bool_decide (n ≤ waitingSleepers f) then (f, None)
  else ({| now := now f; sleepers := sleepers f; timers := timers f; tickers := tickers f;
           blockOnSleepers := add_blocker n (fresh f) (blockOnSleepers f);
           blockOnTimers := blockOnTimers f; blockOnTickers := blockOnTickers f;
           chans := chans f; closed := closed f; fresh := S (fresh f) |}, Some (fresh f)).

(** [pkg/clock/fake_clock.go:166-181] fakeClock.BlockUntilTimers *)
Definition BlockUntilTimers (n : Z) (f : fakeClock) : fakeClock * option nat :=
  if bool_decide (n ≤ waitingTimers f) then (f, None)
  else ({| now := now f; sleepers := sleepers f; timers := timers f; tickers := tickers f;
           blockOnSleepers := blockOnSleepers f;
           blockOnTimers := add_blocker n (fresh f) (blockOnTimers f); blockOnTickers := blockOnTickers f;
           chans := chans f; closed := closed f; fresh := S (fresh f) |}, Some (fresh f)).

(** [pkg/clock/fake_clock.go:183-198] fakeClock.BlockUntilTickers *)
Definition BlockUntilTickers (n : Z) (f : fakeClock) : fakeClock * option nat :=
  if bool_decide (n ≤ waitingTickers f) then (f, None)
  else ({| now := now f; sleepers := sleepers f; timers := timers f; tickers := tickers f;
           blockOnSleepers := blockOnSleepers f; blockOnTimers := blockOnTimers f;
           blockOnTickers := add_blocker n (fresh f) (blockOnTickers f);
           chans := chans f; closed := closed f; fresh := S (fresh f) |}, Some (fresh f)).

(** ** Sleepers *)

(** [pkg/clock/fake_clock.go:90-105] fakeSleeper.advance: the sleeper that stays; [Err]: the send waits for
    a read from the channel, while Advance holds the clock's lock *)
Definition sleeper_advance (t d : Z) (cs : list (option Z)) (s : fakeSleeper) : result nat (list (option Z) * option fakeSleeper) :=
  if bool_decide (d < sl_remaining s) then Ok (cs, Some {| sl_c := sl_c s; sl_remaining := sl_remaining s - d |})
  else if bool_decide (sl_remaining s = 0) then Ok (cs, None)
  else match cs !! sl_c s with
       | Some None => Ok (<[sl_c s := Some t]> cs, None)
       | _ => Err (sl_c s)
       end.

(** [pkg/clock/fake_clock.go:73-79] the sleepers of Advance *)
Fixpoint sleepers_advance (t d : Z) (cs : list (option Z)) (ss : list fakeSleeper) : result nat (list (option Z) * list fakeSleeper) :=
  match ss with
  | [] => Ok (cs, [])
  | s :: ss =>
      match sleeper_advance t d cs s with
      | Err c => Err c
      | Ok (cs, keep) =>
          match sleepers_advance t d cs ss with
          | Err c => Err c
          | Ok (cs, ss) => Ok (cs, match keep with Some s => s :: ss | None => ss end)
          end
      end
  end.

(** [pkg/clock/fake_clock.go:118-137] fakeClock.After: the number of the channel *)
Definition After (d : Z) (f : fakeClock) : fakeClock * nat :=
  let c := length (chans f) in
  let f := notifySleepers (with_sleepers (sleepers f ++ [{| sl_c := c; sl_remaining := d |}]) (chans f ++ [None]) f) in
  (with_sleepers (sleepers f) (if bool_decide (d ≤ 0) then <[c := Some (now f)]> (chans f) else chans f) f, c).

(** Reading from the channel of an After; [None]: the reader waits. *)
Definition read_After (c : nat) (f : fakeClock) : fakeClock * option Z :=
  (with_sleepers (sleepers f) (<[c := None]> (chans f)) f, mjoin (chans f !! c)).

(** ** Timers *)

(** [pkg/clock/fake_timer.go:85-94] fakeTimer.sendTick: what is in the channel is dropped *)
Definition sendTick (t : Z) (tm : fakeTimer) : fakeTimer := {| tm_c := Some t; tm_remaining := tm_remaining tm |}.

(** [pkg/clock/fake_timer.go:67-83] fakeTimer.advance *)
Definition timer_advance (t d : Z) (tm : fakeTimer) : fakeTimer :=
  if bool_decide (d < tm_remaining tm) then {| tm_c := tm_c tm; tm_remaining := tm_remaining tm - d |}
  else if bool_decide (tm_remaining tm = 0) then tm
  else sendTick t {| tm_c := tm_c tm; tm_remaining := 0 |}.

(** [pkg/clock/fake_timer.go:15-35] fakeClock.NewTimer: the number of the timer *)
Definition NewTimer (d : Z) (f : fakeClock) : fakeClock * nat :=
  let i := length (timers f) in
  let f := notifyTimers (with_timers (timers f ++ [{| tm_c := None; tm_remaining := d |}]) f) in
  (if bool_decide (d ≤ 0) then with_timers (alter (sendTick (now f)) i (timers f)) f else f, i).

(** [pkg/clock/fake_timer.go:41-49] fakeTimer.Stop *)
Definition timer_Stop (i : nat) (f : fakeClock) : fakeClock * option bool :=
  (with_timers (alter (λ tm, {| tm_c := tm_c tm; tm_remaining := 0 |}) i (timers f)) f,
   (λ tm, bool_decide (tm_remaining tm ≠ 0)) <$> timers f !! i).

(** [pkg/clock/fake_timer.go:51-65] fakeTimer.Reset, under the timer's lock *)
Definition timer_Reset_set (i : nat) (d : Z) (f : fakeClock) : fakeClock :=
  with_timers (alter (λ tm, {| tm_c := tm_c tm; tm_remaining := d |}) i (timers f)) f.

(** [pkg/clock/fake_timer.go:51-65] fakeTimer.Reset, under the clock's lock *)
Definition timer_Reset_notify (i : nat) (d : Z) (f : fakeClock) : fakeClock :=
  notifyTimers (if bool_decide (d ≤ 0) then with_timers (alter (sendTick (now f)) i (timers f)) f else f).

Definition read_timer (i : nat) (f : fakeClock) : fakeClock * option Z :=
  (with_timers (alter (λ tm, {| tm_c := None; tm_remaining := tm_remaining tm |}) i (timers f)) f, timers f !! i ≫= tm_c).

(** ** Tickers *)

(** [pkg/clock/fake_ticker.go:69-94] fakeTicker.advance *)
Definition ticker_advance (t d : Z) (tk : fakeTicker) : fakeTicker :=
  if bool_decide (tk_duration tk = 0) then tk
  else if bool_decide (d < tk_remaining tk)
       then {| tk_c := tk_c tk; tk_remaining := tk_remaining tk - d; tk_duration := tk_duration tk |}
       else {| tk_c := Some t; tk_remaining := tk_duration tk; tk_duration := tk_duration tk |}.

(** [pkg/clock/fake_ticker.go:17-38] fakeClock.NewTicker; [None]: it panics *)
Definition NewTicker (d : Z) (f : fakeClock) : option (fakeClock * nat) :=
  if bool_decide (d ≤ 0) then None
  else Some (notifyTickers (with_tickers (tickers f ++ [{| tk_c := None; tk_remaining := d; tk_duration := d |}]) f), length (tickers f)).

(** [pkg/clock/fake_ticker.go:40-47] fakeTicker.Stop *)
Definition ticker_Stop (i : nat) (f : fakeClock) : fakeClock :=
  with_tickers (alter (λ tk, {| tk_c := tk_c tk; tk_remaining := 0; tk_duration := 0 |}) i (tickers f)) f.

(** [pkg/clock/fake_ticker.go:53-67] fakeTicker.Reset, under the ticker's lock; [None]: it panics *)
Definition ticker_Reset_set (i : nat) (d : Z) (f : fakeClock) : option fakeClock :=
  if bool_decide (d ≤ 0) then None
  else Some (with_tickers (alter (λ tk, {| tk_c := tk_c tk; tk_remaining := d; tk_duration := d |}) i (tickers f)) f).

(** [pkg/clock/fake_ticker.go:53-67] fakeTicker.Reset, under the clock's lock *)
Definition ticker_Reset_notify (f : fakeClock) : fakeClock := notifyTickers f.

Definition read_ticker (i : nat) (f : fakeClock) : fakeClock * option Z :=
  (with_tickers (alter (λ tk, {| tk_c := None; tk_remaining := tk_remaining tk; tk_duration := tk_duration tk |}) i (tickers f)) f,
   tickers f !! i ≫= tk_c).

(** ** The clock *)

(** [pkg/clock/fake_clock.go:67-88] fakeClock.Advance; [Err]: it waits for a read from the channel of a sleeper *)
Definition Advance (d : Z) (f : fakeClock) : result nat fakeClock :=
  let t := now f + d in
  match sleepers_advance t d (chans f) (sleepers f) with
  | Err c => Err c
  | Ok (cs, ss) => Ok {|
      now := t; sleepers := ss; timers := timer_advance t d <$> timers f; tickers := ticker_advance t d <$> tickers f;
      blockOnSleepers := blockOnSleepers f; blockOnTimers := blockOnTimers f; blockOnTickers := blockOnTickers f;
      chans := cs; closed := closed f; fresh := fresh f |}
  end.

(** [pkg/clock/fake_clock.go:107-112] fakeClock.Now *)
Definition Now (f : fakeClock) : Z := now f.

(** [pkg/clock/fake_clock.go:114-116] fakeClock.Since *)
Definition Since (t : Z) (f : fakeClock) : Z := Now f - t.

(** ** The health check timer *)

(** [pkg/clock/health_check_timer.go:14-18] healthCheckTimer *)
Record healthCheckTimer := { hc_timeout : Z; lastMarkMilli : Z }.

(** [pkg/clock/health_check_timer.go:48-50] healthCheckTimer.MarkHealthy, at the time [t]; UnixMilli rounds down *)
Definition MarkHealthy (t : Z) (h : healthCheckTimer) : healthCheckTimer :=
  {| hc_timeout := hc_timeout h; lastMarkMilli := t / 1000000 |}.

(** [pkg/clock/health_check_timer.go:29-39] NewHealthCheckTimerWithInterfaces *)
Definition NewHealthCheckTimerWithInterfaces (t timeout : Z) : healthCheckTimer :=
  MarkHealthy t {| hc_timeout := timeout; lastMarkMilli := 0 |}.

(** [pkg/clock/health_check_timer.go:21-27] NewHealthCheckTimer *)
Definition NewHealthCheckTimer (t timeout : Z) : result go_error healthCheckTimer :=
  if bool_decide (timeout ≤ 0) then Err (EMsg "health check timeout must be a positive value")
  else Ok (NewHealthCheckTimerWithInterfaces t timeout).

(** [pkg/clock/health_check_timer.go:41-46] healthCheckTimer.IsHealthy *)
Definition IsHealthy (t : Z) (h : healthCheckTimer) : bool :=
  let lastMark := lastMarkMilli h * 1000000 in
  let lastMarkAge := t - lastMark in
  bool_decide (lastMarkAge ≤ hc_timeout h).

(** ** Sequences of calls *)

(** The calls on a clock, its timers, tickers and channels.  A Reset is two calls, since others can come between. *)
Inductive call :=
| CAdvance (d : Z)
| CAfter (d : Z)
| CReadAfter (c : nat)
| CNewTimer (d : Z)
| CStop (i : nat)
| CResetSet (i : nat) (d : Z)
| CResetNotify (i : nat) (d : Z)
| CRead (i : nat)
| CNewTicker (d : Z)
| CTickerStop (i : nat)
| CTickerResetSet (i : nat) (d : Z)
| CTickerResetNotify (i : nat)
| CTickerRead (i : nat)
| CBlockUntil (n : Z)
| CBlockUntilTimers (n : Z)
| CBlockUntilTickers (n : Z).

Inductive answer :=
| ANothing
| ANumber (i : nat)
| ATick (t : option Z)
| AStopped (b : option bool)
| AReturned (b : bool)
| APanic.

Definition returned (w : option nat) : answer := AReturned (bool_decide (w = None)).

(** What a call does; [None]: it never returns. *)
Definition exec (c : call) (f : fakeClock) : option (fakeClock * answer) :=
  match c with
  | CAdvance d => match Advance d f with Ok f => Some (f, ANothing) | Err _ => None end
  | CAfter d => let '(f, i) := After d f in Some (f, ANumber i)
  | CReadAfter i => let '(f, t) := read_After i f in Some (f, ATick t)
  | CNewTimer d => let '(f, i) := NewTimer d f in Some (f, ANumber i)
  | CStop i => let '(f, b) := timer_Stop i f in Some (f, AStopped b)
  | CResetSet i d => Some (timer_Reset_set i d f, ANothing)
  | CResetNotify i d => Some (timer_Reset_notify i d f, ANothing)
  | CRead i => let '(f, t) := read_timer i f in Some (f, ATick t)
  | CNewTicker d => match NewTicker d f with Some (f, i) => Some (f, ANumber i) | None => Some (f, APanic) end
  | CTickerStop i => Some (ticker_Stop i f, ANothing)
  | CTickerResetSet i d => match ticker_Reset_set i d f with Some f => Some (f, ANothing) | None => Some (f, APanic) end
  | CTickerResetNotify i => Some (ticker_Reset_notify f, ANothing)
  | CTickerRead i => let '(f, t) := read_ticker i f in Some (f, ATick t)
  | CBlockUntil n => let '(f, w) := BlockUntil n f in Some (f, returned w)
  | CBlockUntilTimers n => let '(f, w) := BlockUntilTimers n f in Some (f, returned w)
  | CBlockUntilTickers n => let '(f, w) := BlockUntilTickers n f in Some (f, returned w)
  end.

Fixpoint exec_all (cs : list call) (f : fakeClock) : option (fakeClock * list answer) :=
  match cs with
  | [] => Some (f, [])
  | c :: cs =>
      match exec c f with
      | None => None
      | Some (f, a) => match exec_all cs f with None => None | Some (f, answers) => Some (f, a :: answers) end
      end
  end.

(** Time does not run backwards, and no alarm is set in the past. *)
Definition no_past (c : call) : Prop :=
  match c with
  | CAdvance d | CAfter d | CNewTimer d | CResetSet _ d => 0 ≤ d
  | _ => True
  end.

(** ** The specification: alarms with deadlines *)
Record alarm := { al_c : option Z; al_deadline : option Z }.
Record rhythm := { rh_c : option Z; rh_next : option Z; rh_period : Z }.

Record spec_clock := {
  s_now : Z;
  s_channels : list alarm;
  s_timers : list alarm;
  s_tickers : list rhythm
}.

(** An alarm whose deadline has come sends the time and is over; what it sent before is dropped. *)
Definition fire (t : Z) (a : alarm) : alarm :=
  match al_deadline a with
  | Some D => if bool_decide (D ≤ t) then {| al_c := Some t; al_deadline := None |} else a
  | None => a
  end.

Definition beat (t : Z) (r : rhythm) : rhythm :=
  match rh_next r with
  | Some D => if bool_decide (D ≤ t) then {| rh_c := Some t; rh_next := Some (t + rh_period r); rh_period := rh_period r |} else r
  | None => r
  end.

(** A new alarm; one that is due sends at once. *)
Definition new_alarm (now d : Z) : alarm :=
  if bool_decide (d ≤ 0) then {| al_c := Some now; al_deadline := None |} else {| al_c := None; al_deadline := Some (now + d) |}.

Definition deadline (now d : Z) : option Z := if bool_decide (d = 0) then None else Some (now + d).

Definition running (as_ : list alarm) : Z := count (λ a, bool_decide (is_Some (al_deadline a))) as_.

Definition spec_exec (c : call) (s : spec_clock) : spec_clock * answer :=
  let with_channels cs := {| s_now := s_now s; s_channels := cs; s_timers := s_timers s; s_tickers := s_tickers s |} in
  let with_timers ts := {| s_now := s_now s; s_channels := s_channels s; s_timers := ts; s_tickers := s_tickers s |} in
  let with_tickers ks := {| s_now := s_now s; s_channels := s_channels s; s_timers := s_timers s; s_tickers := ks |} in
  match c with
  | CAdvance d =>
      let t := s_now s + d in
      ({| s_now := t; s_channels := fire t <$> s_channels s; s_timers := fire t <$> s_timers s; s_tickers := beat t <$> s_tickers s |}, ANothing)
  | CAfter d => (with_channels (s_channels s ++ [new_alarm (s_now s) d]), ANumber (length (s_channels s)))
  | CReadAfter i =>
      (with_channels (alter (λ a, {| al_c := None; al_deadline := al_deadline a |}) i (s_channels s)), ATick (s_channels s !! i ≫= al_c))
  | CNewTimer d => (with_timers (s_timers s ++ [new_alarm (s_now s) d]), ANumber (length (s_timers s)))
  | CStop i =>
      (with_timers (alter (λ a, {| al_c := al_c a; al_deadline := None |}) i (s_timers s)),
       AStopped ((λ a, bool_decide (is_Some (al_deadline a))) <$> s_timers s !! i))
  | CResetSet i d => (with_timers (alter (λ a, {| al_c := al_c a; al_deadline := deadline (s_now s) d |}) i (s_timers s)), ANothing)
  | CResetNotify i d =>
      (with_timers (if bool_decide (d ≤ 0) then alter (λ a, {| al_c := Some (s_now s); al_deadline := al_deadline a |}) i (s_timers s) else s_timers s), ANothing)
  | CRead i =>
      (with_timers (alter (λ a, {| al_c := None; al_deadline := al_deadline a |}) i (s_timers s)), ATick (s_timers s !! i ≫= al_c))
  | CNewTicker d =>
      if bool_decide (d ≤ 0) then (s, APanic)
      else (with_tickers (s_tickers s ++ [{| rh_c := None; rh_next := Some (s_now s + d); rh_period := d |}]), ANumber (length (s_tickers s)))
  | CTickerStop i => (with_tickers (alter (λ r, {| rh_c := rh_c r; rh_next := None; rh_period := 0 |}) i (s_tickers s)), ANothing)
  | CTickerResetSet i d =>
      if bool_decide (d ≤ 0) then (s, APanic)
      else (with_tickers (alter (λ r, {| rh_c := rh_c r; rh_next := Some (s_now s + d); rh_period := d |}) i (s_tickers s)), ANothing)
  | CTickerResetNotify _ => (s, ANothing)
  | CTickerRead i =>
      (with_tickers (alter (λ r, {| rh_c := None; rh_next := rh_next r; rh_period := rh_period r |}) i (s_tickers s)), ATick (s_tickers s !! i ≫= rh_c))
  | CBlockUntil n => (s, AReturned (bool_decide (n ≤ running (s_channels s))))
  | CBlockUntilTimers n => (s, AReturned (bool_decide (n ≤ running (s_timers s))))
  | CBlockUntilTickers n => (s, AReturned (bool_decide (n ≤ count (λ r, bool_decide (is_Some (rh_next r))) (s_tickers s))))
  end.

Fixpoint spec_exec_all (cs : list call) (s : spec_clock) : spec_clock * list answer :=
  match cs with
  | [] => (s, [])
  | c :: cs =>
      let '(s, a) := spec_exec c s in
      let '(s, answers) := spec_exec_all cs s in (s, a :: answers)
  end.

Definition spec_clock_at (t : Z) : spec_clock := {| s_now := t; s_channels := []; s_timers := []; s_tickers := [] |}.

(** ** The fake clock implements the specification *)
Implicit Types (f : fakeClock) (s : fakeSleeper) (ss : list fakeSleeper) (tm : fakeTimer) (tk : fakeTicker).

Fixpoint remaining_of (c : nat) (ss : list fakeSleeper) : Z :=
  match ss with
  | [] => 0
  | s :: ss => if bool_decide (sl_c s = c) then sl_remaining s else remaining_of c ss
  end.

Definition abs_channel (now : Z) (ss : list fakeSleeper) (c : nat) (o : option Z) : alarm :=
  {| al_c := o; al_deadline := deadline now (remaining_of c ss) |}.

Definition abs_timer (now : Z) (tm : fakeTimer) : alarm := {| al_c := tm_c tm; al_deadline := deadline now (tm_remaining tm) |}.

Definition abs_ticker (now : Z) (tk : fakeTicker) : rhythm :=
  {| rh_c := tk_c tk; rh_next := if bool_decide (tk_duration tk = 0) then None else Some (now + tk_remaining tk); rh_period := tk_duration tk |}.

Definition abs (f : fakeClock) : spec_clock := {|
  s_now := now f;
  s_channels := imap (abs_channel (now f) (sleepers f)) (chans f);
  s_timers := abs_timer (now f) <$> timers f;
  s_tickers := abs_ticker (now f) <$> tickers f
|}.

(** A sleeper that waits has an empty channel of its own, so sending to it cannot block. *)
Definition sleepers_ok (cs : list (option Z)) (ss : list fakeSleeper) : Prop :=
  NoDup (sl_c <$> ss) ∧
  Forall (λ s, 0 ≤ sl_remaining s ∧ (sl_c s < length cs)%nat ∧ (0 < sl_remaining s → cs !! sl_c s = Some None)) ss.

Definition ticker_ok (tk : fakeTicker) : Prop := 0 ≤ tk_duration tk ∧ (0 < tk_duration tk → 0 < tk_remaining tk).

Definition clock_ok (f : fakeClock) : Prop :=
  sleepers_ok (chans f) (sleepers f) ∧ Forall (λ tm, 0 ≤ tm_remaining tm) (timers f) ∧ Forall ticker_ok (tickers f).

(** *** Alarms *)
Lemma fire_deadline t n c r d :
  0 ≤ r → 0 ≤ d → t = n + d →
  fire t {| al_c := c; al_deadline := deadline n r |} =
  if bool_decide (d < r) then {| al_c := c; al_deadline := deadline t (r - d) |}
  else if bool_decide (r = 0) then {| al_c := c; al_deadline := deadline t r |}
  else {| al_c := Some t; al_deadline := deadline t 0 |}.
Proof.
  intros Hr Hd ->. unfold fire, deadline; simpl.
  destruct (bool_decide_reflect (r = 0)) as [->|Hr0]; [by rewrite bool_decide_false; [lia|]|].
  destruct (bool_decide_reflect (d < r)) as [Hlt|Hge].
  - rewrite !bool_decide_false; [lia|lia|]. f_equal. f_equal. lia.
  - rewrite bool_decide_true //. lia.
Qed.

Lemma timer_advance_abs n d tm :
  0 ≤ tm_remaining tm → 0 ≤ d → abs_timer (n + d) (timer_advance (n + d) d tm) = fire (n + d) (abs_timer n tm).
Proof.
  intros Hr Hd. unfold abs_timer. rewrite (fire_deadline _ n _ _ d) //. unfold timer_advance.
  by repeat case_bool_decide.
Qed.

Lemma ticker_advance_abs n d tk :
  ticker_ok tk → 0 ≤ d →
  ticker_ok (ticker_advance (n + d) d tk) ∧ abs_ticker (n + d) (ticker_advance (n + d) d tk) = beat (n + d) (abs_ticker n tk).
Proof.
  intros [Hp Hr] Hd. unfold ticker_advance, abs_ticker, beat, ticker_ok. destruct tk as [c r p]; simpl in *.
  destruct (bool_decide_reflect (p = 0)) as [->|Hp0]; simpl; [done|].
  destruct (bool_decide_reflect (d < r)); simpl; (split; [lia|]); rewrite !(bool_decide_false (p = 0)) //.
  - rewrite bool_decide_false; [lia|]. f_equal. f_equal. lia.
  - by rewrite bool_decide_true; [lia|].
Qed.

Lemma deadline_running n r : 0 ≤ r → bool_decide (is_Some (deadline n r)) = bool_decide (0 < r).
Proof.
  intros Hr. apply bool_decide_ext. unfold deadline. case_bool_decide as H0.
  - split; [by intros []|lia].
  - split; [lia|by eexists].
Qed.

Lemma count_fmap {A B} (g : A → B) (p : B → bool) (q : A → bool) l :
  Forall (λ x, p (g x) = q x) l → count p (g <$> l) = count q l.
Proof. unfold count. induction 1 as [|x l Hx _ IH]; [done|]. csimpl. rewrite Hx. destruct (q x); simpl; lia. Qed.

(** *** Sleepers *)
Lemma remaining_of_notin c ss : c ∉ sl_c <$> ss → remaining_of c ss = 0.
Proof.
  induction ss as [|s ss IH]; csimpl; [done|]. intros [Hne Hc]%not_elem_of_cons. rewrite bool_decide_false //. auto.
Qed.

Lemma remaining_of_app c ss s :
  c ∉ sl_c <$> ss → sl_c s = c → remaining_of c (ss ++ [s]) = sl_remaining s.
Proof.
  intros Hc Hs. induction ss as [|s' ss IH]; simpl; [by rewrite bool_decide_true|].
  apply not_elem_of_cons in Hc as [Hne Hc]. rewrite bool_decide_false //. auto.
Qed.

Lemma remaining_of_app_ne c ss s : sl_c s ≠ c → remaining_of c (ss ++ [s]) = remaining_of c ss.
Proof. intros Hs. induction ss as [|s' ss IH]; simpl; [by rewrite bool_decide_false|]. by case_bool_decide. Qed.

Lemma remaining_of_range c cs ss : sleepers_ok cs ss → 0 ≤ remaining_of c ss.
Proof. intros [_ Hall]. induction Hall as [|s ss [Hr _] _ IH]; simpl; [done|]. by case_bool_decide. Qed.

Lemma sleepers_ok_cons cs s ss :
  sleepers_ok cs (s :: ss) ↔
  (sl_c s ∉ sl_c <$> ss) ∧ 0 ≤ sl_remaining s ∧ (sl_c s < length cs)%nat ∧ (0 < sl_remaining s → cs !! sl_c s = Some None) ∧ sleepers_ok cs ss.
Proof. unfold sleepers_ok. csimpl. rewrite NoDup_cons Forall_cons. naive_solver. Qed.

(** Another channel that changes. *)
Lemma sleepers_ok_insert cs ss c o : c ∉ sl_c <$> ss → sleepers_ok cs ss → sleepers_ok (<[c := o]> cs) ss.
Proof.
  intros Hc [Hnd Hall]. split; [done|]. rewrite Forall_forall in Hall. apply Forall_forall. intros s Hs. rewrite length_insert.
  destruct (Hall s Hs) as (? & ? & He). split_and!; [done..|]. intros Hr. rewrite list_lookup_insert_ne; [|by auto].
  intros ->. apply Hc. by apply list_elem_of_fmap_2.
Qed.

Lemma sleepers_advance_spec t d cs ss :
  sleepers_ok cs ss → 0 ≤ d →
  ∃ cs' ss', sleepers_advance t d cs ss = Ok (cs', ss') ∧ sleepers_ok cs' ss' ∧ length cs' = length cs ∧
    (∀ c, c ∈ sl_c <$> ss' → c ∈ sl_c <$> ss) ∧
    (∀ c, remaining_of c ss' = if bool_decide (d < remaining_of c ss) then remaining_of c ss - d else 0) ∧
    (∀ c, (c < length cs)%nat → cs' !! c = if bool_decide (0 < remaining_of c ss ≤ d) then Some (Some t) else cs !! c).
Proof.
  intros Hok Hd. revert cs Hok. induction ss as [|s ss IH]; intros cs Hok.
  - exists cs, []. split_and!; [done..| |]; simpl; intros c; [rewrite bool_decide_false //; lia|].
    done.
  - apply sleepers_ok_cons in Hok as (Hn & Hr & Hc & He & Hok). cbn [sleepers_advance]. unfold sleeper_advance at 1.
    destruct (bool_decide_reflect (d < sl_remaining s)) as [Hlt|Hge]; [|destruct (bool_decide_reflect (sl_remaining s = 0)) as [H0|Hpos]].
    + destruct (IH cs Hok) as (cs' & ss' & -> & Hok' & Hl & Hsub & Hrem & Hcs). eexists cs', _. split; [done|].
      assert (Hn' : sl_c s ∉ sl_c <$> ss') by by intros ?%Hsub.
      assert (Hrs : remaining_of (sl_c s) ss = 0) by by apply remaining_of_notin.
      split_and!; [|done| | |].
      * apply sleepers_ok_cons. simpl. split_and!; [done|lia|lia| |done].
        intros _. rewrite Hcs // Hrs bool_decide_false; [lia|]. apply He. lia.
      * intros c. csimpl. rewrite !elem_of_cons. naive_solver.
      * intros c. simpl. case_bool_decide as Heq; [subst c; by rewrite bool_decide_true|done].
      * intros c Hcl. simpl. rewrite Hcs //. destruct (bool_decide_reflect (sl_c s = c)) as [<-|]; [|done].
        rewrite Hrs !bool_decide_false //; lia.
    + destruct (IH cs Hok) as (cs' & ss' & -> & Hok' & Hl & Hsub & Hrem & Hcs). eexists cs', _. split; [done|].
      assert (Hrs : remaining_of (sl_c s) ss = 0) by by apply remaining_of_notin.
      split_and!; [done|done|by intros c Hin; csimpl; right; apply Hsub| |].
      * intros c. simpl. rewrite Hrem. destruct (bool_decide_reflect (sl_c s = c)) as [<-|]; [|done]. by rewrite Hrs H0.
      * intros c Hcl. simpl. rewrite Hcs //. destruct (bool_decide_reflect (sl_c s = c)) as [<-|]; [|done]. by rewrite Hrs H0.
    + rewrite He; [lia|]. destruct (IH (<[sl_c s := Some t]> cs)) as (cs' & ss' & -> & Hok' & Hl & Hsub & Hrem & Hcs).
      { by apply sleepers_ok_insert. }
      eexists cs', _. split; [done|]. rewrite length_insert in Hl, Hcs.
      assert (Hrs : remaining_of (sl_c s) ss = 0) by by apply remaining_of_notin.
      split_and!; [done|done|by intros c Hin; csimpl; right; apply Hsub| |].
      * intros c. simpl. rewrite Hrem. destruct (bool_decide_reflect (sl_c s = c)) as [<-|]; [|done].
        rewrite Hrs !bool_decide_false //; lia.
      * intros c Hcl. simpl. rewrite Hcs //. destruct (bool_decide_reflect (sl_c s = c)) as [<-|Hne].
        -- rewrite Hrs bool_decide_false; [lia|]. rewrite bool_decide_true; [lia|]. by rewrite list_lookup_insert_eq.
        -- by rewrite list_lookup_insert_ne.
Qed.

(** *** Counting the sleepers by their channels *)
Lemma count_cons {A} (p : A → bool) x l : count p (x :: l) = (if p x then 1 else 0) + count p l.
Proof. unfold count. simpl. destruct (p x); simpl; lia. Qed.

Lemma count_imap {A B} (g : nat → A → B) (p : B → bool) (q : nat → bool) l k :
  (∀ i x, p (g i x) = q (k + i)%nat) → count p (imap g l) = count q (seq k (length l)).
Proof.
  revert g k. induction l as [|x l IH]; intros g k Hp; [done|]. rewrite imap_cons. cbn [length seq]. rewrite !count_cons Hp Nat.add_0_r.
  f_equal. apply IH. intros i y. simpl. rewrite Hp. f_equal. lia.
Qed.

Lemma fake_count_ext {A} (p q : A → bool) l : (∀ x, x ∈ l → p x = q x) → count p l = count q l.
Proof.
  induction l as [|x l IH]; intros Hp; [done|]. rewrite !count_cons Hp; [left|]. rewrite IH //. intros y Hy. apply Hp. by right.
Qed.

Lemma count_update {A} `{EqDecision A} (q : A → bool) k b l :
  NoDup l → k ∈ l → q k = false →
  count (λ x, if bool_decide (k = x) then b else q x) l = (if b then 1 else 0) + count q l.
Proof.
  intros Hnd Hk Hq. induction Hnd as [|x l Hx Hnd IH]; [by apply elem_of_nil in Hk|]. rewrite !count_cons.
  destruct (bool_decide_reflect (k = x)) as [<-|Hne].
  - rewrite Hq. f_equal. rewrite Z.add_0_l. apply fake_count_ext. intros y Hy. rewrite bool_decide_false //. by intros <-.
  - apply elem_of_cons in Hk as [?|Hk]; [done|]. rewrite IH //. lia.
Qed.

Lemma running_channels n cs ss :
  sleepers_ok cs ss → running (imap (abs_channel n ss) cs) = count (λ s, bool_decide (0 < sl_remaining s)) ss.
Proof.
  intros Hok. unfold running. rewrite (count_imap _ _ (λ c, bool_decide (0 < remaining_of c ss)) _ 0).
  { intros i o. by apply deadline_running, (remaining_of_range _ cs). }
  induction ss as [|s ss IH].
  - simpl. generalize (seq 0 (length cs)) as l. induction l as [|x l IH]; [done|]. by rewrite count_cons IH.
  - pose proof Hok as (Hn & Hr & Hc & He & Hok')%sleepers_ok_cons. rewrite count_cons -(IH Hok').
    rewrite -(count_update _ (sl_c s)); [apply NoDup_seq|apply elem_of_seq; lia| |].
    + by rewrite remaining_of_notin.
    + apply fake_count_ext. intros c _. simpl. by destruct (bool_decide (sl_c s = c)).
Qed.

(** *** Every call *)
Lemma abs_channels_ext n ss n' ss' cs cs' :
  length cs = length cs' →
  (∀ c o, cs !! c = Some o → ∃ o', cs' !! c = Some o' ∧ abs_channel n ss c o = abs_channel n' ss' c o') →
  imap (abs_channel n ss) cs = imap (abs_channel n' ss') cs'.
Proof.
  intros Hl He. apply list_eq. intros c. rewrite !list_lookup_imap. destruct (cs !! c) as [o|] eqn:Ho.
  - destruct (He c o Ho) as (o' & -> & Heq). simpl. by rewrite Heq.
  - apply lookup_ge_None in Ho. rewrite (proj2 (lookup_ge_None cs' c)) //. lia.
Qed.

Lemma Advance_refines d f :
  clock_ok f → 0 ≤ d →
  ∃ f', Advance d f = Ok f' ∧ clock_ok f' ∧ (abs f', ANothing) = spec_exec (CAdvance d) (abs f).
Proof.
  intros (Hs & Ht & Hk) Hd. unfold Advance. destruct (sleepers_advance_spec (now f + d) d _ _ Hs Hd) as (cs & ss & -> & Hok & Hl & _ & Hrem & Hcs).
  eexists. split; [done|]. split; [split_and!; cbn; [done| |]|].
  - apply Forall_fmap. eapply Forall_impl; [done|]. intros tm Htm. simpl. unfold timer_advance.
    repeat case_bool_decide; simpl; lia.
  - apply Forall_fmap. eapply Forall_impl; [done|]. intros tk Htk. by apply ticker_advance_abs.
  - unfold abs, spec_exec; cbn. f_equal. f_equal.
    + apply list_eq. intros c. rewrite list_lookup_fmap !list_lookup_imap. destruct (chans f !! c) as [o|] eqn:Ho.
      * pose proof (lookup_lt_Some _ _ _ Ho) as Hlt. rewrite Hcs // Ho. pose proof (remaining_of_range c _ _ Hs) as Hr.
        unfold abs_channel. rewrite Hrem. simpl. rewrite (fire_deadline _ (now f) _ _ d) //.
        destruct (bool_decide_reflect (d < remaining_of c (sleepers f))); [rewrite bool_decide_false; [lia|done]|].
        destruct (bool_decide_reflect (remaining_of c (sleepers f) = 0)) as [->|]; [by rewrite bool_decide_false; [lia|]|].
        by rewrite bool_decide_true; [lia|].
      * apply lookup_ge_None in Ho. rewrite (proj2 (lookup_ge_None cs c)) //. lia.
    + rewrite -!list_fmap_compose. apply list_fmap_ext. intros i tm Htm. simpl. apply timer_advance_abs; [|done].
      by apply (Forall_lookup_1 _ _ _ _ Ht Htm).
    + rewrite -!list_fmap_compose. apply list_fmap_ext. intros i tk Htk. simpl. apply ticker_advance_abs; [|done].
      by apply (Forall_lookup_1 _ _ _ _ Hk Htk).
Qed.

Lemma After_refines d f :
  clock_ok f → 0 ≤ d →
  let '(f', c) := After d f in clock_ok f' ∧ (abs f', ANumber c) = spec_exec (CAfter d) (abs f).
Proof.
  intros (Hs & Ht & Hk) Hd. unfold After. cbn. pose proof Hs as [Hnd Hall].
  assert (Hnew : length (chans f) ∉ sl_c <$> sleepers f).
  { intros (s & Heq & Hin)%list_elem_of_fmap. rewrite Forall_forall in Hall. destruct (Hall s Hin) as (_ & Hlt & _). lia. }
  set (cs := if bool_decide (d ≤ 0) then _ else _).
  assert (Hl : length cs = S (length (chans f))) by (unfold cs; case_bool_decide; rewrite ?length_insert length_app /=; lia).
  assert (Hold : ∀ c, (c < length (chans f))%nat → cs !! c = chans f !! c).
  { intros c Hc. unfold cs. case_bool_decide; [rewrite list_lookup_insert_ne; [lia|]|]; by rewrite lookup_app_l. }
  assert (Hlast : cs !! length (chans f) = Some (if bool_decide (d ≤ 0) then Some (now f) else None)).
  { unfold cs. case_bool_decide; [|by rewrite lookup_app_r // Nat.sub_diag].
    rewrite list_lookup_insert_eq //. rewrite length_app /=. lia. }
  split; [split_and!; cbn; [|done..]|].
  - split.
    + rewrite fmap_app. apply NoDup_app. split_and!; [done| |apply NoDup_singleton]. intros c Hc ->%list_elem_of_singleton. done.
    + apply Forall_app. split.
      * apply Forall_forall. intros s Hin. rewrite Forall_forall in Hall. destruct (Hall s Hin) as (? & ? & ?).
        split_and!; [done|lia|]. by rewrite Hold.
      * apply Forall_singleton. simpl. split_and!; [done|lia|]. intros Hpos. by rewrite Hlast bool_decide_false; [lia|].
  - unfold abs; cbn. f_equal; [|by rewrite length_imap]. f_equal. apply list_eq. intros c. rewrite list_lookup_imap.
    destruct (decide (c < length (chans f))%nat) as [Hc|Hc].
    + rewrite lookup_app_l ?length_imap // list_lookup_imap Hold //. destruct (chans f !! c); [|done]. simpl. unfold abs_channel.
      rewrite remaining_of_app_ne //. simpl. lia.
    + rewrite lookup_app_r ?length_imap; [lia|]. destruct (decide (c = length (chans f))) as [->|Hne].
      * rewrite Hlast Nat.sub_diag. simpl. unfold abs_channel, new_alarm. rewrite remaining_of_app //. simpl. unfold deadline.
        case_bool_decide as H0; [by rewrite (bool_decide_true (d = 0)); [lia|]|by rewrite (bool_decide_false (d = 0)); [lia|]].
      * rewrite (proj2 (lookup_ge_None cs c)); [lia|]. simpl. by rewrite (proj2 (lookup_ge_None _ _)); [simpl; lia|].
Qed.

Lemma clock_ok_timers f ts : clock_ok f → Forall (λ tm, 0 ≤ tm_remaining tm) ts → clock_ok (with_timers ts f).
Proof. by intros (? & _ & ?) ?. Qed.

Lemma clock_ok_tickers f ks : clock_ok f → Forall ticker_ok ks → clock_ok (with_tickers ks f).
Proof. by intros (? & ? & _) ?. Qed.

Lemma abs_timers_alter f i g h :
  (∀ tm, abs_timer (now f) (g tm) = h (abs_timer (now f) tm)) →
  abs (with_timers (alter g i (timers f)) f) =
  {| s_now := now f; s_channels := s_channels (abs f); s_timers := alter h i (s_timers (abs f)); s_tickers := s_tickers (abs f) |}.
Proof. intros Hg. unfold abs; cbn. f_equal. apply list_fmap_alter. by apply Forall_true. Qed.

Lemma abs_tickers_alter f i g h :
  (∀ tk, abs_ticker (now f) (g tk) = h (abs_ticker (now f) tk)) →
  abs (with_tickers (alter g i (tickers f)) f) =
  {| s_now := now f; s_channels := s_channels (abs f); s_timers := s_timers (abs f); s_tickers := alter h i (s_tickers (abs f)) |}.
Proof. intros Hg. unfold abs; cbn. f_equal. apply list_fmap_alter. by apply Forall_true. Qed.

Lemma timers_alter_ok f i g :
  clock_ok f → (∀ tm, 0 ≤ tm_remaining tm → 0 ≤ tm_remaining (g tm)) → clock_ok (with_timers (alter g i (timers f)) f).
Proof. intros Hok Hg. apply clock_ok_timers; [done|]. apply Forall_alter; [apply Hok|]. auto. Qed.

Lemma tickers_alter_ok f i g :
  clock_ok f → (∀ tk, ticker_ok tk → ticker_ok (g tk)) → clock_ok (with_tickers (alter g i (tickers f)) f).
Proof. intros Hok Hg. apply clock_ok_tickers; [done|]. apply Forall_alter; [apply Hok|]. auto. Qed.

Lemma NewTimer_refines d f :
  clock_ok f → 0 ≤ d →
  let '(f', i) := NewTimer d f in clock_ok f' ∧ (abs f', ANumber i) = spec_exec (CNewTimer d) (abs f).
Proof.
  intros Hok Hd. unfold NewTimer. cbn [fst snd].
  set (f1 := notifyTimers _). assert (H1 : clock_ok f1).
  { change (clock_ok (with_timers (timers f ++ [{| tm_c := None; tm_remaining := d |}]) f)). apply clock_ok_timers; [done|].
    apply Forall_app. split; [apply Hok|by apply Forall_singleton]. }
  assert (Htm : timers f1 = timers f ++ [{| tm_c := None; tm_remaining := d |}]) by done.
  case_bool_decide as H0; (split; [by try apply timers_alter_ok|]); cbn [spec_exec]; unfold new_alarm.
  - rewrite (abs_timers_alter _ _ _ (λ a, {| al_c := Some (now f); al_deadline := al_deadline a |})) //.
    rewrite bool_decide_true //. unfold abs; cbn [s_now s_timers s_channels s_tickers]. rewrite Htm length_fmap. f_equal. f_equal.
    rewrite fmap_app alter_app_r_alt length_fmap // Nat.sub_diag. simpl. f_equal. f_equal. unfold deadline.
    by rewrite bool_decide_true; [lia|].
  - rewrite bool_decide_false //. unfold abs; cbn [s_now s_timers s_channels s_tickers]. rewrite Htm length_fmap fmap_app. f_equal. f_equal.
    simpl. f_equal. unfold abs_timer, deadline. simpl. by rewrite bool_decide_false; [lia|].
Qed.

Lemma read_After_refines c f :
  clock_ok f →
  let '(f', t) := read_After c f in clock_ok f' ∧ (abs f', ATick t) = spec_exec (CReadAfter c) (abs f).
Proof.
  intros ([Hnd Hall] & Ht & Hk). unfold read_After. cbn. split; [split_and!; cbn; [split; [done|]|done..]|].
  - eapply Forall_impl; [done|]. intros s (? & ? & He). rewrite length_insert. split_and!; [done..|]. intros Hr.
    destruct (decide (c = sl_c s)) as [->|]; [by rewrite list_lookup_insert_eq|]. by rewrite list_lookup_insert_ne; [|apply He].
  - unfold abs; cbn. f_equal; [f_equal|].
    + apply list_eq. intros c'. rewrite list_lookup_imap. destruct (decide (c = c')) as [<-|Hne].
      * rewrite list_lookup_alter_eq list_lookup_imap. destruct (chans f !! c) as [o|] eqn:Ho.
        -- by rewrite list_lookup_insert_eq; [eapply lookup_lt_Some|].
        -- rewrite (list_insert_ge (chans f)); [by apply lookup_ge_None|]. by rewrite Ho.
      * by rewrite list_lookup_insert_ne // list_lookup_alter_ne // list_lookup_imap.
    + f_equal. rewrite list_lookup_imap. by destruct (chans f !! c).
Qed.

Lemma exec_refines c f :
  clock_ok f → no_past c → ∃ f' a, exec c f = Some (f', a) ∧ clock_ok f' ∧ (abs f', a) = spec_exec c (abs f).
Proof.
  intros Hok Hc. destruct c as [d|d|c|d|i|i d|i d|i|d|i|i d|i|i|n|n|n]; cbn [exec no_past] in *.
  - destruct (Advance_refines d f Hok Hc) as (f' & -> & ? & ?). by do 2 eexists.
  - pose proof (After_refines d f Hok Hc) as Hr. destruct (After d f). by do 2 eexists.
  - pose proof (read_After_refines c f Hok) as Hr. destruct (read_After c f). by do 2 eexists.
  - pose proof (NewTimer_refines d f Hok Hc) as Hr. destruct (NewTimer d f). by do 2 eexists.
  - do 2 eexists. split; [done|]. split; [by apply timers_alter_ok|]. rewrite (abs_timers_alter _ _ _ (λ a, {| al_c := al_c a; al_deadline := None |})); [by intros []|].
    cbn. f_equal. f_equal. rewrite list_lookup_fmap. destruct (timers f !! i) as [tm|] eqn:Htm; [|done]. simpl. f_equal. f_equal.
    apply bool_decide_ext. unfold deadline. case_bool_decide; [by split; [|intros []]|]. by split; [eexists|].
  - do 2 eexists. split; [done|]. split; [by apply timers_alter_ok|]. by rewrite (abs_timers_alter _ _ _ (λ a, {| al_c := al_c a; al_deadline := deadline (now f) d |})); [intros []|].
  - do 2 eexists. split; [done|]. unfold timer_Reset_notify. cbn [spec_exec].
    change (clock_ok (notifyTimers ?g)) with (clock_ok g). change (abs (notifyTimers ?g)) with (abs g).
    case_bool_decide; [|done]. split; [by apply timers_alter_ok|]. by rewrite (abs_timers_alter _ _ _ (λ a, {| al_c := Some (now f); al_deadline := al_deadline a |})); [intros []|].
  - do 2 eexists. split; [done|]. split; [by apply timers_alter_ok|]. rewrite (abs_timers_alter _ _ _ (λ a, {| al_c := None; al_deadline := al_deadline a |})); [by intros []|].
    cbn. f_equal. f_equal. rewrite list_lookup_fmap. by destruct (timers f !! i).
  - unfold NewTicker. cbn [spec_exec]. case_bool_decide as H0; [by do 2 eexists|]. do 2 eexists. split; [done|]. split.
    + change (clock_ok (with_tickers (tickers f ++ [{| tk_c := None; tk_remaining := d; tk_duration := d |}]) f)).
      apply clock_ok_tickers; [done|]. apply Forall_app. split; [apply Hok|]. apply Forall_singleton. split; simpl; lia.
    + unfold abs; cbn. rewrite length_fmap fmap_app. f_equal. f_equal. simpl. f_equal. unfold abs_ticker. simpl.
      by rewrite bool_decide_false; [lia|].
  - do 2 eexists. split; [done|]. split; [by apply tickers_alter_ok|]. by rewrite (abs_tickers_alter _ _ _ (λ r, {| rh_c := rh_c r; rh_next := None; rh_period := 0 |})); [intros []|].
  - unfold ticker_Reset_set. cbn [spec_exec]. case_bool_decide as H0; [by do 2 eexists|]. do 2 eexists. split; [done|]. split.
    + apply tickers_alter_ok; [done|]. intros tk _. split; simpl; lia.
    + rewrite (abs_tickers_alter _ _ _ (λ r, {| rh_c := rh_c r; rh_next := Some (now f + d); rh_period := d |})); [|done]. intros []. unfold abs_ticker. simpl. by rewrite bool_decide_false; [lia|].
  - by do 2 eexists.
  - do 2 eexists. split; [done|]. split; [by apply tickers_alter_ok|]. rewrite (abs_tickers_alter _ _ _ (λ r, {| rh_c := None; rh_next := rh_next r; rh_period := rh_period r |})); [by intros []|].
    cbn. f_equal. f_equal. rewrite list_lookup_fmap. by destruct (tickers f !! i).
  - unfold BlockUntil. cbn [spec_exec]. rewrite (running_channels (now f) _ _ (proj1 Hok)). fold (waitingSleepers f).
    case_bool_decide; by do 2 eexists.
  - unfold BlockUntilTimers. cbn [spec_exec]. assert (running (s_timers (abs f)) = waitingTimers f) as ->; [|case_bool_decide; by do 2 eexists].
    apply count_fmap. eapply Forall_impl; [apply Hok|]. intros tm Htm. by apply deadline_running.
  - unfold BlockUntilTickers. cbn [spec_exec].
    assert (count (λ r, bool_decide (is_Some (rh_next r))) (s_tickers (abs f)) = waitingTickers f) as ->; [|case_bool_decide; by do 2 eexists].
    apply count_fmap. eapply Forall_impl; [apply Hok|]. intros tk [Htk _]. simpl. apply bool_decide_ext. case_bool_decide.
    + split; [by intros []|lia].
    + split; [lia|by eexists].
Qed.

Lemma exec_all_refines cs f :
  clock_ok f → Forall no_past cs →
  ∃ f' answers, exec_all cs f = Some (f', answers) ∧ clock_ok f' ∧ spec_exec_all cs (abs f) = (abs f', answers).
Proof.
  intros Hok Hcs. revert f Hok. induction Hcs as [|c cs Hc Hcs IH]; intros f Hok; [by exists f, []|].
  destruct (exec_refines c f Hok Hc) as (f1 & a & Hx & Hok1 & Ha). destruct (IH f1 Hok1) as (f2 & answers & Hx2 & Hok2 & Ha2).
  exists f2, (a :: answers). cbn [exec_all spec_exec_all]. by rewrite Hx Hx2 -Ha Ha2.
Qed.

Lemma new_clock_ok t : clock_ok (NewFakeClockAt t).
Proof. split_and!; [split; constructor|constructor..]. Qed.

(** ** Calls that block until there is enough to wait for *)
Lemma notifyBlockers_stay (b : blockerMap) w n chs : (notifyBlockers b w).1 !! n = Some chs ↔ b !! n = Some chs ∧ w < n.
Proof. unfold notifyBlockers. simpl. rewrite map_lookup_filter_Some. simpl. rewrite Z.nle_gt. done. Qed.

Lemma notifyBlockers_closed (b : blockerMap) w ch :
  ch ∈ (notifyBlockers b w).2 ↔ ∃ n chs, b !! n = Some chs ∧ n ≤ w ∧ ch ∈ chs.
Proof.
  unfold notifyBlockers. simpl. rewrite elem_of_list_to_set list_elem_of_In in_concat. setoid_rewrite <-list_elem_of_In.
  setoid_rewrite list_elem_of_fmap. split.
  - intros (chs & ([n chs'] & -> & Hin%elem_of_map_to_list) & Hch). apply map_lookup_filter_Some in Hin as [? ?]. by exists n, chs'.
  - intros (n & chs & Hb & Hn & Hch). exists chs. split; [|done]. exists (n, chs). split; [done|]. apply elem_of_map_to_list.
    by apply map_lookup_filter_Some.
Qed.

Lemma add_blocker_lookup n ch (b : blockerMap) m : is_Some (add_blocker n ch b !! m) ↔ m = n ∨ is_Some (b !! m).
Proof. unfold add_blocker. rewrite lookup_insert_is_Some. destruct (decide (n = m)); naive_solver. Qed.

Definition waits_on (ch : nat) (b : blockerMap) : Prop := ∃ n chs, b !! n = Some chs ∧ ch ∈ chs.

Lemma notifyBlockers_waits (b : blockerMap) w ch : waits_on ch b → ch ∈ (notifyBlockers b w).2 ∨ waits_on ch (notifyBlockers b w).1.
Proof.
  intros (n & chs & Hb & Hch). destruct (decide (n ≤ w)) as [Hn|Hn].
  - left. apply notifyBlockers_closed. by exists n, chs.
  - right. exists n, chs. split; [|done]. apply notifyBlockers_stay. split; [done|lia].
Qed.

Lemma notify_registered ch (b : blockerMap) w (C : gset nat) :
  waits_on ch b → ch ∈ (notifyBlockers b w).2 ∪ C ∨ waits_on ch (notifyBlockers b w).1.
Proof. intros Hw. destruct (notifyBlockers_waits b w ch Hw) as [?|?]; [left; by apply elem_of_union_l|by right]. Qed.

Lemma add_blocker_waits n ch (b : blockerMap) : waits_on ch (add_blocker n ch b).
Proof. unfold waits_on, add_blocker. eexists n, _. rewrite lookup_insert_eq. split; [done|]. apply elem_of_app. right. left. Qed.

Lemma add_blocker_waits_old n ch ch' (b : blockerMap) : waits_on ch' b → waits_on ch' (add_blocker n ch b).
Proof.
  intros (m & chs & Hb & Hch). unfold waits_on, add_blocker. destruct (decide (n = m)) as [->|Hne].
  - eexists m, _. rewrite lookup_insert_eq Hb. split; [done|]. simpl. apply elem_of_app. by left.
  - exists m, chs. by rewrite lookup_insert_ne.
Qed.

(** Is a Reset between its two parts, without a notification since? *)
Definition resetting (c : call) (pending : bool * bool) : bool * bool :=
  match c with
  | CResetSet _ _ => (true, pending.2)
  | CResetNotify _ _ | CNewTimer _ => (false, pending.2)
  | CTickerResetSet _ d => (pending.1, if bool_decide (d ≤ 0) then pending.2 else true)
  | CTickerResetNotify _ => (pending.1, false)
  | CNewTicker d => (pending.1, if bool_decide (d ≤ 0) then pending.2 else false)
  | _ => pending
  end.

Definition beyond (b : blockerMap) (waiting : Z) : Prop := ∀ n, is_Some (b !! n) → waiting < n.

Definition blocked_ok (pending : bool * bool) (f : fakeClock) : Prop :=
  beyond (blockOnSleepers f) (waitingSleepers f) ∧
  (pending.1 = false → beyond (blockOnTimers f) (waitingTimers f)) ∧
  (pending.2 = false → beyond (blockOnTickers f) (waitingTickers f)) ∧
  ∀ ch, (ch < fresh f)%nat →
    ch ∈ closed f ∨ waits_on ch (blockOnSleepers f) ∨ waits_on ch (blockOnTimers f) ∨ waits_on ch (blockOnTickers f).

Lemma beyond_notify b w : beyond (notifyBlockers b w).1 w.
Proof. intros n [chs Hn]. by apply notifyBlockers_stay in Hn as [_ ?]. Qed.

Lemma beyond_add n ch b w : w < n → beyond b w → beyond (add_blocker n ch b) w.
Proof. intros Hn Hb m [->|Hm]%add_blocker_lookup; auto. Qed.

Lemma beyond_le b w w' : w' ≤ w → beyond b w → beyond b w'.
Proof. intros Hw Hb n Hn. specialize (Hb n Hn). lia. Qed.

Lemma count_alter_le {A} (p : A → bool) (g : A → A) i l :
  (∀ x, p (g x) = true → p x = true) → count p (alter g i l) ≤ count p l.
Proof.
  intros Hg. revert i. induction l as [|x l IH]; intros [|i]; [done|done| |]; cbn [alter list_alter]; rewrite !count_cons.
  - specialize (Hg x). destruct (p (g x)), (p x); lia.
  - apply Z.add_le_mono_l, IH.
Qed.

Lemma count_fmap_le {A} (p : A → bool) (g : A → A) l : (∀ x, p (g x) = true → p x = true) → count p (g <$> l) ≤ count p l.
Proof.
  intros Hg. induction l as [|x l IH]; [done|]. csimpl. rewrite !count_cons. specialize (Hg x).
  destruct (p (g x)), (p x); lia.
Qed.

Lemma fire_running t a : bool_decide (is_Some (al_deadline (fire t a))) = true → bool_decide (is_Some (al_deadline a)) = true.
Proof. unfold fire. destruct a as [c [D|]]; simpl; [by repeat case_bool_decide|done]. Qed.

Lemma Advance_waiting d f f' :
  clock_ok f → 0 ≤ d → Advance d f = Ok f' →
  waitingSleepers f' ≤ waitingSleepers f ∧ waitingTimers f' ≤ waitingTimers f ∧ waitingTickers f' ≤ waitingTickers f ∧
  blockOnSleepers f' = blockOnSleepers f ∧ blockOnTimers f' = blockOnTimers f ∧ blockOnTickers f' = blockOnTickers f ∧
  closed f' = closed f ∧ fresh f' = fresh f.
Proof.
  intros Hok Hd Ha. destruct (Advance_refines d f Hok Hd) as (f1 & Ha1 & Hok1 & Habs). rewrite Ha in Ha1. injection Ha1 as <-.
  injection Habs as _ Hch _ _. split.
  { unfold waitingSleepers. rewrite -(running_channels (now f') _ _ (proj1 Hok1)) -(running_channels (now f) _ _ (proj1 Hok)) Hch.
    apply count_fmap_le. apply fire_running. }
  unfold Advance in Ha. destruct (sleepers_advance _ _ _ _) as [[cs ss]|]; [|done]. injection Ha as <-. cbn. split_and!; try done.
  - apply count_fmap_le. intros tm. unfold timer_advance. repeat case_bool_decide; simpl; try done. lia.
  - apply count_fmap_le. intros tk. unfold ticker_advance. by repeat case_bool_decide.
Qed.

Lemma exec_blocked c f f' a pending :
  clock_ok f → no_past c → exec c f = Some (f', a) → blocked_ok pending f → blocked_ok (resetting c pending) f'.
Proof.
  intros Hok Hc Hx (Hs & Ht & Hk & Hreg). destruct pending as [rt rk]. cbn [fst snd] in Ht, Hk.
  destruct c as [d|d|c|d|i|i d|i d|i|d|i|i d|i|i|n|n|n]; cbn [exec no_past resetting fst snd] in *.
  - destruct (Advance d f) as [f1|] eqn:Ha; [|done]. injection Hx as <- _.
    destruct (Advance_waiting d f f1 Hok Hc Ha) as (H1 & H2 & H3 & E1 & E2 & E3 & E4 & E5).
    unfold blocked_ok. rewrite E1 E2 E3 E4 E5. split_and!; cbn [fst snd]; try done.
    + by eapply beyond_le.
    + intros ?. eapply beyond_le; [done|auto].
    + intros ?. eapply beyond_le; [done|auto].
  - injection Hx as <- _. split_and!; cbn [fst snd]; try done; [apply beyond_notify|].
    intros ch Hch. destruct (Hreg ch Hch) as [?|[Hw|?]]; [left; by apply elem_of_union_r| |by auto].
    destruct (notify_registered ch _ (waitingSleepers (After d f).1) (closed f) Hw) as [Hn|Hn]; [by left|by right; left].
  - by injection Hx as <- _.
  - unfold NewTimer in Hx. injection Hx as <- _. set (f1 := notifyTimers _).
    assert (H1 : blocked_ok (false, rk) f1).
    { split_and!; cbn [fst snd]; try done; [intros _; apply beyond_notify|].
      intros ch Hch. destruct (Hreg ch Hch) as [?|[?|[Hw|?]]]; [left; by apply elem_of_union_r|by auto| |by auto].
      destruct (notify_registered ch _ (waitingTimers f1) (closed f) Hw) as [Hn|Hn]; [by left|by right; right; left]. }
    case_bool_decide; [|done]. destruct H1 as (? & Ht1 & ? & ?). split_and!; try done. intros Hp. eapply beyond_le; [|by apply Ht1].
    by apply count_alter_le.
  - injection Hx as <- _. split_and!; cbn [fst snd]; try done. intros Hp. eapply beyond_le; [|by apply Ht].
    apply count_alter_le. intros tm. cbn. case_bool_decide; [lia|done].
  - by injection Hx as <- _.
  - injection Hx as <- _. unfold timer_Reset_notify. set (g := if bool_decide (d ≤ 0) then _ else f).
    assert (Hg : blockOnSleepers g = blockOnSleepers f ∧ blockOnTimers g = blockOnTimers f ∧ blockOnTickers g = blockOnTickers f ∧
      closed g = closed f ∧ fresh g = fresh f ∧ waitingSleepers g = waitingSleepers f ∧ waitingTickers g = waitingTickers f)
      by (unfold g; by case_bool_decide). clearbody g. destruct Hg as (E1 & E2 & E3 & E4 & E5 & E6 & E7).
    split_and!; cbn [fst snd]; [|intros _; apply beyond_notify| |].
    + change (beyond (blockOnSleepers g) (waitingSleepers g)). by rewrite E1 E6.
    + change (rk = false → beyond (blockOnTickers g) (waitingTickers g)). by rewrite E3 E7.
    + intros ch Hch. change (ch < fresh g)%nat in Hch. rewrite E5 in Hch. rewrite -E1 -E2 -E3 -E4 in Hreg.
      destruct (Hreg ch Hch) as [?|[?|[Hw|?]]]; [left; by apply elem_of_union_r|by auto| |by auto].
      destruct (notify_registered ch _ (waitingTimers g) (closed g) Hw) as [Hn|Hn]; [by left|by right; right; left].
  - injection Hx as <- _. split_and!; cbn [fst snd]; try done. intros Hp. eapply beyond_le; [|by apply Ht]. by apply count_alter_le.
  - unfold NewTicker in Hx. case_bool_decide; injection Hx as <- _; [done|].
    split_and!; cbn [fst snd]; try done; [intros _; apply beyond_notify|].
    intros ch Hch. destruct (Hreg ch Hch) as [?|[?|[?|Hw]]]; [left; by apply elem_of_union_r|by auto|by auto|].
    set (f1 := notifyTickers _). destruct (notify_registered ch _ (waitingTickers f1) (closed f) Hw) as [Hn|Hn]; [by left|by right; right; right].
  - injection Hx as <- _. split_and!; cbn [fst snd]; try done. intros Hp. eapply beyond_le; [|by apply Hk].
    by apply count_alter_le.
  - unfold ticker_Reset_set in Hx. by case_bool_decide; injection Hx as <- _.
  - injection Hx as <- _. split_and!; cbn [fst snd]; try done; [intros _; apply beyond_notify|].
    intros ch Hch. destruct (Hreg ch Hch) as [?|[?|[?|Hw]]]; [left; by apply elem_of_union_r|by auto|by auto|].
    destruct (notify_registered ch _ (waitingTickers f) (closed f) Hw) as [Hn|Hn]; [by left|by right; right; right].
  - injection Hx as <- _. split_and!; cbn [fst snd]; try done. intros Hp. eapply beyond_le; [|by apply Hk]. by apply count_alter_le.
  - unfold BlockUntil in Hx. case_bool_decide; injection Hx as <- _; [done|]. split_and!; cbn [fst snd]; try done.
    + apply beyond_add; [by apply Z.nle_gt|done].
    + intros ch Hch. cbn in Hch. destruct (decide (ch = fresh f)) as [->|]; [right; left; apply add_blocker_waits|].
      destruct (Hreg ch) as [?|[?|?]]; cbn; [lia|by auto| |by auto]. right. left. by apply add_blocker_waits_old.
  - unfold BlockUntilTimers in Hx. case_bool_decide; injection Hx as <- _; [done|]. split_and!; cbn [fst snd]; try done.
    + intros Hp. apply beyond_add; [by apply Z.nle_gt|auto].
    + intros ch Hch. cbn in Hch. destruct (decide (ch = fresh f)) as [->|]; [right; right; left; apply add_blocker_waits|].
      destruct (Hreg ch) as [?|[?|[?|?]]]; cbn; [lia|by auto|by auto| |by auto]. right. right. left. by apply add_blocker_waits_old.
  - unfold BlockUntilTickers in Hx. case_bool_decide; injection Hx as <- _; [done|]. split_and!; cbn [fst snd]; try done.
    + intros Hp. apply beyond_add; [by apply Z.nle_gt|auto].
    + intros ch Hch. cbn in Hch. destruct (decide (ch = fresh f)) as [->|]; [right; right; right; apply add_blocker_waits|].
      destruct (Hreg ch) as [?|[?|[?|?]]]; cbn; [lia|by auto|by auto|by auto|]. right. right. right. by apply add_blocker_waits_old.
Qed.

Lemma exec_all_blocked cs f f' answers pending :
  clock_ok f → Forall no_past cs → blocked_ok pending f → exec_all cs f = Some (f', answers) →
  blocked_ok (fold_left (λ p c, resetting c p) cs pending) f'.
Proof.
  intros Hok Hcs. revert f pending answers Hok. induction Hcs as [|c cs Hc Hcs IH]; intros f pending answers Hok Hb; cbn [exec_all fold_left].
  - by intros [= <- _].
  - destruct (exec_refines c f Hok Hc) as (f1 & a & Hx & Hok1 & _). rewrite Hx.
    destruct (exec_all cs f1) as [[f2 answers2]|] eqn:Hx2; [|done]. intros [= <- _].
    exact (IH _ _ _ Hok1 (exec_blocked _ _ _ _ _ Hok Hc Hx Hb) Hx2).
Qed.

(** ** Theorems *)


(** A call of BlockUntil, BlockUntilTimers or BlockUntilTickers does not stay blocked: its channel is closed, or
    it is registered for more sleepers, timers or tickers than there are (unless a Reset has set a
    timer or ticker and not yet come to notify). *)
Theorem blocked_calls_wait t cs f answers :
  Forall no_past cs → exec_all cs (NewFakeClockAt t) = Some (f, answers) →
  fold_left (λ p c, resetting c p) cs (false, false) = (false, false) →
  ∀ ch, (ch < fresh f)%nat → ch ∉ closed f →
    (∃ n, waits_on ch (filter (λ b, b.1 = n) (blockOnSleepers f)) ∧ waitingSleepers f < n) ∨
    (∃ n, waits_on ch (filter (λ b, b.1 = n) (blockOnTimers f)) ∧ waitingTimers f < n) ∨
    (∃ n, waits_on ch (filter (λ b, b.1 = n) (blockOnTickers f)) ∧ waitingTickers f < n).
Proof.
  intros Hcs Hx Hp ch Hch Hn. destruct (exec_all_blocked cs (NewFakeClockAt t) f answers (false, false)) as (Hs & Ht & Hk & Hreg);
    [apply new_clock_ok|done| |done|].
  { split_and!; try (intros; intros n [? Hn2]; by rewrite lookup_empty in Hn2). intros ch' Hch'. cbn in Hch'. lia. }
  rewrite Hp in Ht, Hk. specialize (Ht eq_refl). specialize (Hk eq_refl).
  assert (Hone : ∀ b w, beyond b w → waits_on ch b → ∃ n, waits_on ch (filter (λ b, b.1 = n) b) ∧ w < n).
  { intros b w Hb (n & chs & Hl & Hin). exists n. split; [|apply Hb; by eexists]. exists n, chs. split; [|done].
    by apply map_lookup_filter_Some. }
  destruct (Hreg ch Hch) as [?|[?|[?|?]]]; [done|left; by apply Hone|right; left; by apply Hone|right; right; by apply Hone].
Qed.

(** What the specification means for an alarm that nothing else touches: it sends once, the first of
    the times that reaches its deadline. *)
Lemma alarm_fires_once D ts :
  fold_left (λ a t, fire t a) ts {| al_c := None; al_deadline := Some D |} =
  match List.find (λ t, bool_decide (D ≤ t)) ts with
  | Some t => {| al_c := Some t; al_deadline := None |}
  | None => {| al_c := None; al_deadline := Some D |}
  end.
Proof.
  induction ts as [|t ts IH]; [done|]. simpl. unfold fire at 2. simpl. case_bool_decide; [|done].
  clear. induction ts as [|t' ts IH]; [done|]. by simpl.
Qed.

(** The health check timer is healthy after a mark, up to the timeout less a millisecond, and unhealthy once the
    timeout has passed. *)
Theorem IsHealthy_correct t0 t h :
  t0 ≤ t →
  (t - t0 ≤ hc_timeout h - 999999 → IsHealthy t (MarkHealthy t0 h) = true) ∧
  (hc_timeout h < t - t0 → IsHealthy t (MarkHealthy t0 h) = false).
Proof.
  intros Ht. unfold IsHealthy, MarkHealthy. cbn [lastMarkMilli hc_timeout].
  pose proof (Z.div_mod t0 1000000 ltac:(lia)) as Hdm. pose proof (Z.mod_pos_bound t0 1000000 ltac:(lia)) as Hmb.
  split; intros Hle; [apply bool_decide_true|apply bool_decide_false]; lia.
Qed.

(** A timeout below a millisecond: the timer can be unhealthy in the moment it is created. *)
Lemma short_timeout_unhealthy :
  ∃ h, NewHealthCheckTimer 999999 500000 = Ok h ∧ IsHealthy 999999 h = false.
Proof. eexists. split; reflexivity. Qed.

(** A timer with a negative duration sends at once and again with the next Advance. *)
Lemma negative_timer_fires_twice :
  ∃ f, exec_all [CNewTimer (-1); CRead 0; CAdvance 5; CRead 0] (NewFakeClockAt 100) =
    Some (f, [ANumber 0; ATick (Some 100); ANothing; ATick (Some 105)]).
Proof. eexists. vm_compute. reflexivity. Qed.

(** After with a negative duration, not yet read: the next Advance never returns. *)
Lemma negative_After_blocks_Advance : exec_all [CAfter (-1); CAdvance 5] (NewFakeClockAt 100) = None.
Proof. vm_compute. reflexivity. Qed.

(** A tick that was not read is still there after Stop. *)
Lemma stopped_ticker_keeps_tick :
  ∃ f, exec_all [CNewTicker 5; CAdvance 5; CTickerStop 0; CTickerRead 0] (NewFakeClockAt 100) =
    Some (f, [ANumber 0; ANothing; ANothing; ATick (Some 105)]).
Proof. eexists. vm_compute. reflexivity. Qed.

Definition sample_calls : list call :=
  [CBlockUntilTimers 2; CNewTimer 10; CAfter 20; CNewTicker 7; CAdvance 10; CRead 0; CNewTimer 3; CResetSet 0 5; CResetNotify 0 5;
   CBlockUntilTimers 3; CAdvance 10; CRead 0; CReadAfter 0; CTickerRead 0; CStop 1].


Lemma blocked_calls_wait_witness :
  ∃ f answers, exec_all sample_calls (NewFakeClockAt 100) = Some (f, answers) ∧
    ∃ n, waits_on 1 (filter (λ b, b.1 = n) (blockOnTimers f)) ∧ waitingTimers f < n.
Proof.
  destruct (exec_all sample_calls (NewFakeClockAt 100)) as [[f answers]|] eqn:Hx; [|by vm_compute in Hx].
  exists f, answers. split; [done|].
  assert (Hf : fresh f = 2%nat ∧ closed f = {[0%nat]} ∧ blockOnSleepers f = ∅ ∧ blockOnTickers f = ∅)
    by (vm_compute in Hx; injection Hx as <- _; by repeat split).
  destruct Hf as (Hfr & Hc & Hs & Hk).
  destruct (blocked_calls_wait 100 sample_calls f answers ltac:(by repeat constructor) Hx eq_refl 1%nat) as [(n & Hw & _)|[Hw|(n & Hw & _)]].
  - lia.
  - rewrite Hc. by intros ?%elem_of_singleton.
  - destruct Hw as (m & chs & [Hl _]%map_lookup_filter_Some & _). by rewrite Hs lookup_empty in Hl.
  - exact Hw.
  - destruct Hw as (m & chs & [Hl _]%map_lookup_filter_Some & _). by rewrite Hk lookup_empty in Hl.
Defined.

Lemma IsHealthy_correct_witness :
  IsHealthy 3000000 (MarkHealthy 2500000 {| hc_timeout := 2000000; lastMarkMilli := 0 |}) = true.
Proof. apply IsHealthy_correct; simpl; lia. Defined.
