(* ===== verification/Texts.v ===== *)
(** Texts: what the code uses of Go's strings package, and templates with placeholders in
    braces, which the configuration and the model ids share. *)
From Stdlib Require Import Ascii.
From S2P Require Import Prelude.

Definition text := list ascii.
Definition str (s : string) : text := String.list_ascii_of_string s.

Open Scope char_scope.
Open Scope nat_scope.

(** ** Strings *)

(** The longest prefix of characters of a class, and the rest. *)
Fixpoint span (p : ascii → bool) (s : text) : text * text :=
  match s with
  | a :: s' => if p a then let '(x, rest) := span p s' in (a :: x, rest) else ([], s)
  | [] => ([], [])
  end.

Fixpoint strip (prefix s : text) : option text :=
  match prefix, s with
  | [], _ => Some s
  | a :: prefix, b :: s => if decide (a = b) then strip prefix s else None
  | _ :: _, [] => None
  end.

(** strings.ReplaceAll of a text that is not empty. *)
Fixpoint replace_from (fuel : nat) (s old new : text) : text :=
  match fuel, s with
  | S fuel, a :: s' =>
      match strip old s with
      | Some rest => new ++ replace_from fuel rest old new
      | None => a :: replace_from fuel s' old new
      end
  | _, _ => s
  end.
Definition ReplaceAll (s old new : text) : text := replace_from (length s) s old new.

(** strings.Split at a character. *)
Fixpoint Split (s : text) (sep : ascii) : list text :=
  match s with
  | [] => [[]]
  | a :: s =>
      if decide (a = sep) then [] :: Split s sep
      else match Split s sep with part :: parts => (a :: part) :: parts | [] => [[a]] end
  end.

Definition in_range (lo hi : nat) (a : ascii) : bool := let n := nat_of_ascii a in (lo <=? n) && (n <=? hi).
Definition upper (a : ascii) : ascii := if in_range 97 122 a then ascii_of_nat (nat_of_ascii a - 32) else a.
Definition lower (a : ascii) : ascii := if in_range 65 90 a then ascii_of_nat (nat_of_ascii a + 32) else a.

(** strings.ToUpper and strings.ToLower for ASCII; a space for TrimSpace and for the class
    of regular expressions, which has no vertical tab. *)
Definition ToUpper (s : text) : text := upper <$> s.
Definition ToLower (s : text) : text := lower <$> s.
Definition is_space (a : ascii) : bool := bool_decide (a = " ") || in_range 9 13 a.
Definition is_regexp_space (a : ascii) : bool := is_space a && negb (bool_decide (a = "011")).

Fixpoint drop_spaces (s : text) : text :=
  match s with a :: s' => if is_space a then drop_spaces s' else s | [] => [] end.
Definition TrimSpace (s : text) : text := reverse (drop_spaces (reverse (drop_spaces s))).

Fixpoint HasPrefix_text (s prefix : text) : bool :=
  match prefix, s with
  | [], _ => true
  | a :: prefix, b :: s => bool_decide (a = b) && HasPrefix_text s prefix
  | _ :: _, [] => false
  end.

(** FindAllStringSubmatch: a matcher gives the match, its group and the rest; a match is
    not empty. *)
Fixpoint find_all (fuel : nat) (matcher : text → option (text * text * text)) (s : text) : list (text * text) :=
  match fuel with
  | 0 => []
  | S fuel =>
      match matcher s with
      | Some (m, group, rest) => (m, group) :: find_all fuel matcher rest
      | None => match s with _ :: s => find_all fuel matcher s | [] => [] end
      end
  end.

(** ** Templates *)

(** A text with placeholders. *)
Inductive piece := Lit (t : text) | Hole (name : text).

Definition hole_text (n : text) : text := "{" :: n ++ ["}"].
Definition piece_text (p : piece) : text := match p with Lit t => t | Hole n => hole_text n end.
Definition source_text (ps : list piece) : text := mjoin (piece_text <$> ps).

(** The text with values for the placeholders. *)
Definition render (f : text → text) (ps : list piece) : text :=
  mjoin ((λ p, match p with Lit t => t | Hole n => f n end) <$> ps).

(** A name without braces. *)
Definition name_ok (n : text) : Prop := n ≠ [] ∧ "{" ∉ n ∧ "}" ∉ n.
Definition piece_ok (p : piece) : Prop := match p with Lit t => "{" ∉ t | Hole n => name_ok n end.

Definition subst (n v : text) (ps : list piece) : list piece :=
  (λ p, match p with Hole k => if decide (k = n) then Lit v else p | _ => p end) <$> ps.

Definition holes (ps : list piece) : list text := omap (λ p, match p with Hole n => Some n | Lit _ => None end) ps.

Section Templates.
Implicit Types (s t n v : text) (ps : list piece).

Lemma source_text_cons p ps : source_text (p :: ps) = piece_text p ++ source_text ps.
Proof. done. Qed.

Lemma span_all p s t b : Forall (λ a, p a = true) s → p b = false → span p (s ++ b :: t) = (s, b :: t).
Proof. intros Hs Hb. induction Hs as [|a s Ha _ IH]; [by rewrite /= Hb|]. cbn [app span]. by rewrite Ha IH. Qed.

Lemma span_app p s : (span p s).1 ++ (span p s).2 = s ∧ Forall (λ a, p a = true) (span p s).1.
Proof.
  induction s as [|a s [Hs Hall]]; [done|]. simpl. destruct (p a) eqn:Ha; [|done].
  destruct (span p s) as [x rest]. simpl in *. split; [by rewrite Hs | by constructor].
Qed.

(** *** Finding placeholders *)
Section Finding.
Context (matcher : text → option (text * text * text)) (good : text → Prop).
Context (Hmatch : ∀ n s, good n → matcher (hole_text n ++ s) = Some (hole_text n, n, s)).
Context (Hother : ∀ a s, a ≠ "{" → matcher (a :: s) = None).

Lemma find_all_lit fuel t s : "{" ∉ t → find_all (length t + fuel) matcher (t ++ s) = find_all fuel matcher s.
Proof using Hother.
  intros Ht. induction t as [|a t IH]; [done|]. apply not_elem_of_cons in Ht as [Ha Ht].
  rewrite -app_comm_cons. cbn [length Nat.add find_all]. rewrite Hother //. by apply IH.
Qed.

Lemma find_all_template fuel ps :
  Forall piece_ok ps → (∀ n, n ∈ holes ps → good n) → length (source_text ps) ≤ fuel → matcher [] = None →
  find_all fuel matcher (source_text ps) = (λ n, (hole_text n, n)) <$> holes ps.
Proof using Hmatch Hother.
  intros Hps Hgood Hf Hnil. revert fuel Hgood Hf.
  induction Hps as [|p ps Hp _ IH]; intros fuel Hgood Hf; [by destruct fuel; simpl; rewrite ?Hnil|].
  rewrite source_text_cons in Hf |- *. rewrite length_app in Hf. destruct p as [t|n]; simpl in Hf.
  - replace fuel with (length t + (fuel - length t)) by lia. rewrite find_all_lit //. apply IH; [done|lia].
  - change (holes (Hole n :: ps)) with (n :: holes ps) in Hgood |- *.
    destruct fuel as [|fuel]; [unfold hole_text in Hf; simpl in Hf; lia|]. cbn [find_all piece_text].
    rewrite Hmatch; [apply Hgood; left|]. cbn [fmap list_fmap]. f_equal. apply IH; [intros; apply Hgood; by right|].
    unfold hole_text in Hf. simpl in Hf. rewrite length_app in Hf. lia.
Qed.
End Finding.

(** *** Replacing them *)
Lemma strip_app s t : strip s (s ++ t) = Some t.
Proof. induction s as [|a s IH]; [done|]. simpl. by rewrite decide_True. Qed.

Lemma strip_hole_other n k s : name_ok n → name_ok k → n ≠ k → strip (hole_text n) (hole_text k ++ s) = None.
Proof.
  intros (_ & _ & Hn) (_ & _ & Hk) Hne. unfold hole_text. rewrite -app_comm_cons -app_assoc. cbn [strip].
  destruct (decide ("{" = "{")); [|done]. clear e.
  revert k Hk Hne. induction n as [|a n IH]; intros [|b k] Hk Hne; simpl; [done|..]; try apply not_elem_of_cons in Hn as [Ha Hn];
    try apply not_elem_of_cons in Hk as [Hb Hk].
  - by rewrite decide_False.
  - by rewrite decide_False.
  - case_decide; [|done]. subst. apply IH; [done..|]. by intros ->.
Qed.

Lemma replace_lit fuel t s old new :
  "{" ∉ t → head old = Some "{" →
  replace_from (length t + fuel) (t ++ s) old new = t ++ replace_from fuel s old new.
Proof.
  intros Ht Ho. induction t as [|a t IH]; [done|]. apply not_elem_of_cons in Ht as [Ha Ht].
  rewrite -!app_comm_cons. cbn [length Nat.add replace_from]. destruct old as [|b old]; [done|]. injection Ho as ->.
  cbn [strip]. rewrite decide_False //. f_equal. by apply IH.
Qed.

Lemma replace_template fuel ps n v :
  Forall piece_ok ps → name_ok n → length (source_text ps) ≤ fuel →
  replace_from fuel (source_text ps) (hole_text n) v = source_text (subst n v ps).
Proof.
  intros Hps Hn. revert fuel. induction Hps as [|p ps Hp _ IH]; intros fuel Hf; [by destruct fuel|].
  rewrite source_text_cons in Hf |- *. rewrite length_app in Hf. unfold subst. rewrite fmap_cons source_text_cons. fold (subst n v ps).
  destruct p as [t|k]; simpl piece_text in *.
  - replace fuel with (length t + (fuel - length t)) by lia. rewrite replace_lit //. f_equal. apply IH. lia.
  - destruct fuel as [|fuel]; [unfold hole_text in Hf; simpl in Hf; lia|].
    assert (Hlen : length (hole_text k) = S (S (length k))) by (unfold hole_text; rewrite /= length_app /=; lia).
    case_decide as Hk.
    + subst k. assert (Hs : ∃ s', hole_text n ++ source_text ps = "{" :: s') by (by eexists). destruct Hs as [s' Hs].
      pose proof (strip_app (hole_text n) (source_text ps)) as Hst. rewrite Hs in Hst |- *. cbn [replace_from]. rewrite Hst.
      f_equal. apply IH. lia.
    + pose proof (strip_hole_other n k (source_text ps) Hn Hp) as Hst. specialize (Hst ltac:(congruence)).
      unfold hole_text at 1 in Hst. rewrite {1}/hole_text -!app_comm_cons in Hst |- *. cbn [replace_from]. rewrite Hst.
      f_equal.
      replace fuel with (length (k ++ ["}"]) + (fuel - length (k ++ ["}"]))) by (rewrite length_app /=; lia).
      rewrite replace_lit //.
      * apply not_elem_of_app. split; [apply Hp | set_solver].
      * f_equal. apply IH. rewrite length_app /=. lia.
Qed.

Lemma subst_ok n v ps : "{" ∉ v → Forall piece_ok ps → Forall piece_ok (subst n v ps).
Proof.
  intros Hv Hps. unfold subst. apply Forall_fmap. eapply Forall_impl; [exact Hps|].
  intros [t|k] Hp; simpl; [done|]. by case_decide.
Qed.

Lemma render_subst f n ps : render f (subst n (f n) ps) = render f ps.
Proof.
  unfold render, subst. induction ps as [|[t|k] ps IH]; [done| |]; rewrite !fmap_cons /= IH //.
  case_decide; [by subst | done].
Qed.

Lemma render_literal f ps : holes ps = [] → render f ps = source_text ps.
Proof.
  induction ps as [|[t|k] ps IH]; [done| |done]. intros Hh.
  change (t ++ render f ps = t ++ source_text ps). by rewrite IH.
Qed.

Lemma holes_subst n v ps k : k ∈ holes (subst n v ps) → k ∈ holes ps ∧ k ≠ n.
Proof.
  induction ps as [|[t|j] ps IH]; [by intros ?%elem_of_nil | exact IH |].
  change (k ∈ holes ((if decide (j = n) then Lit v else Hole j) :: subst n v ps) → k ∈ j :: holes ps ∧ k ≠ n).
  case_decide as Hj; simpl; intros Hk.
  - apply IH in Hk. set_solver.
  - apply elem_of_cons in Hk as [->|Hk]; [set_solver|]. apply IH in Hk. set_solver.
Qed.
End Templates.
