(* ===== verification/MapX.v ===== *)
(** Nested maps that are read and written by paths: pkg/mapx/key_split.go, mapnode.go and
    map.go.  Strings are lists of bytes: every character that the code looks for is
    ASCII, and no byte of a longer character of UTF-8 is.  The theorems show that
    splitting loses nothing, that maps survive the conversion to nodes and back, and what
    Get, Set and Append do to each other. *)
From Stdlib Require Import Ascii.
From S2P Require Import Prelude Texts.

Open Scope char_scope.
Open Scope nat_scope.

(** ** Splitting keys *)

(** The backslash that the loop has not written yet. *)
Definition pending (escaped : bool) : text := if escaped then ["\"] else [].

(** The loop of SplitUnescapedDotN and what follows it. *)
Fixpoint split_loop (s : text) (n : Z) (parts : list text) (current : text) (escaped : bool) : list text :=
  match s with
  | [] => parts ++ [current]
  | r :: s =>
      if decide (r = "\") then
        if escaped then split_loop s n parts (current ++ ["\"; r]) false else split_loop s n parts current true
      else if bool_decide (r = ".") && negb escaped && ((n <? 0)%Z || (Z.of_nat (length parts) <? n - 1)%Z)
      then split_loop s n (parts ++ [current]) [] escaped
      else split_loop s n parts (current ++ pending escaped ++ [r]) false
  end.

(** [pkg/mapx/key_split.go:3-36] SplitUnescapedDotN *)
Definition SplitUnescapedDotN (s : text) (n : Z) : list text :=
  if (n =? 0)%Z then [] else split_loop s n [] [] false.

(** [pkg/mapx/key_split.go:40-51] EscapeDots *)
Definition EscapeDots (s : text) : text :=
  fold_left (λ result r, (if decide (r = ".") then result ++ ["\"] else result) ++ [r]) s [].

(** strings.Join *)
Fixpoint join (sep : text) (l : list text) : text :=
  match l with
  | [] => []
  | [x] => x
  | x :: l => x ++ sep ++ join sep l
  end.

(** ** Indices *)
Definition is_digit (a : ascii) : bool := let n := nat_of_ascii a in (48 <=? n) && (n <=? 57).

(** The longest prefix of digits, and the rest. *)
Fixpoint span_digits (s : text) : text * text :=
  match s with
  | a :: s => if is_digit a then let '(ds, rest) := span_digits s in (a :: ds, rest) else ([], a :: s)
  | [] => ([], [])
  end.

Definition max_int : Z := (2 ^ 63 - 1)%Z.

(** strconv.Atoi without its error: a number that is out of range gives the largest int. *)
Definition Atoi (ds : text) : Z :=
  Z.min max_int (fold_left (λ n a, (n * 10 + (Z.of_nat (nat_of_ascii a) - 48))%Z) ds 0%Z).

(** [pkg/mapx/map.go:424-438] getIndex: the regular expression asks for a name without line breaks that
    is not empty and for digits in brackets at the end *)
Definition getIndex (s : text) : Z * text :=
  match reverse s with
  | a :: s' =>
      if decide (a = "]") then
        match span_digits s' with
        | ((_ :: _) as ds, b :: ((_ :: _) as name)) =>
            if bool_decide (b = "[") && bool_decide ("010" ∉ name) then (Atoi (reverse ds), reverse name)
            else (-1, s)%Z
        | _ => (-1, s)%Z
        end
      else (-1, s)%Z
  | [] => (-1, s)%Z
  end.

(** strings.Trim for the cutset ".". *)
Fixpoint trim_left (s : text) : text :=
  match s with
  | a :: s' => if decide (a = ".") then trim_left s' else s
  | [] => []
  end.
Definition Trim (s : text) : text := reverse (trim_left (reverse (trim_left s))).

Section MapX.
(** The values that are no maps and no slices: reflect's zero value of the type of one,
    and the length of one that is a string. *)
Context {scalar : Type} (zero_of : scalar → scalar) (string_len : scalar → option nat).

(** A value of a node: nil, a scalar, []any, map[string]any, a map of nodes (where the
    pointers to the nodes are left out), the nil map of that type, or a value with a
    method Msi, which returns the map. *)
Inductive value :=
| VNil
| VScalar (s : scalar)
| VSlice (l : list value)
| VMsi (m : gmap text value)
| VMsn (m : gmap text value)
| VNilMsn
| VMsier (m : gmap text value).

(** The panics of reflect and of a write to a nil map. *)
Inductive map_panic := ReflectPanic | NilMap.

(** [pkg/mapx/mapnode.go:23-51] interfaceToMapNode, with msiToMsn of mapnode.go:13-21 *)
Fixpoint interfaceToMapNode (val : value) : value :=
  match val with
  | VMsi m => VMsn (interfaceToMapNode <$> m)
  | VSlice l => VSlice (interfaceToMapNode <$> l)
  | _ => val
  end.

(** [pkg/mapx/mapnode.go:13-21] msiToMsn *)
Definition msiToMsn (src : gmap text value) : gmap text value := interfaceToMapNode <$> src.

(** [pkg/mapx/mapnode.go:53-100] nodeMsnToMsi and nodeSliceToSlice, for the value of a node *)
Fixpoint nodeToInterface (val : value) : value :=
  match val with
  | VMsn m => VMsi (nodeToInterface <$> m)
  | VNilMsn => VMsi ∅
  | VSlice l => VSlice (nodeToInterface <$> l)
  | _ => val
  end.

(** [pkg/mapx/map.go:403-419] copyVal *)
Fixpoint copyVal (val : value) : value :=
  match val with
  | VMsn m => VMsn (copyVal <$> m)
  | VNilMsn => VMsn ∅
  | VSlice l => VSlice (copyVal <$> l)
  | _ => val
  end.

(** [pkg/mapx/map.go:143-163] prepareInput *)
Definition prepareInput (val : value) : value :=
  match val with
  | VMsier m | VMsi m => VMsn (msiToMsn m)
  | VSlice l => VSlice (interfaceToMapNode <$> l)
  | _ => val
  end.

(** [pkg/mapx/mapoptions.go:3-6] OpMode *)
Record OpMode := { IsSet : bool; SkipExisting : bool }.

(** reflect.Zero of the type of a value, which nil does not have. *)
Definition reflect_Zero (val : value) : result map_panic value :=
  match val with
  | VNil => Err ReflectPanic
  | VScalar s => Ok (VScalar (zero_of s))
  | VSlice _ => Ok (VSlice [])
  | VMsi _ => Ok (VMsi ∅)
  | VMsn _ | VNilMsn => Ok VNilMsn
  | VMsier _ => Ok VNil
  end.

(** What reflect's Len gives for the value of a node. *)
Definition reflect_Len (val : value) : result map_panic nat :=
  match val with
  | VSlice l => Ok (length l)
  | VMsi m | VMsn m => Ok (size m)
  | VNilMsn => Ok 0
  | VScalar s => match string_len s with Some n => Ok n | None => Err ReflectPanic end
  | VNil | VMsier _ => Err ReflectPanic
  end.

(** [pkg/mapx/map.go:255-306] apply, with applySlice of map.go:308-316; [None] is the nil map *)
Definition apply (current : option (gmap text value)) (key : text) (index : Z) (val : value) (mode : OpMode) :
    result map_panic (gmap text value) :=
  let m := default ∅ current in
  let write v := match current with Some m => Ok (<[key := v]> m) | None => Err NilMap end in
  if (index <? 0)%Z then
    if map_has m key && SkipExisting mode then Ok m
    else
      match val with
      | VSlice l => write (VSlice l)
      | _ => write (interfaceToMapNode val)
      end
  else
    let i := Z.to_nat index in
    match m !! key with
    | None => write (VSlice (replicate i VNil ++ [val]))
    | Some array =>
        let! len := reflect_Len array in
        if i <? len then
          if SkipExisting mode then Ok m
          else
            match array, val with
            | VSlice l, VNil => Err ReflectPanic
            | VSlice l, _ => write (VSlice (<[i := val]> l))
            | _, _ => Err ReflectPanic
            end
        else
          let! z := reflect_Zero val in
          match array with
          | VSlice l => write (VSlice (l ++ replicate (i - len) z ++ [val]))
          | _ => Err ReflectPanic
          end
    end.

(** [pkg/mapx/map.go:318-339] fillSlice *)
Definition fillSlice (array : list value) (index : Z) (segmentCount : nat) (val : value) : result map_panic (list value) :=
  let missing := S (Z.to_nat index) - length array in
  if 1 <? segmentCount then Ok (array ++ replicate missing (VMsn ∅))
  else let! z := reflect_Zero val in Ok (array ++ replicate missing z).

(** [pkg/mapx/map.go:210-253] accessMap: the map afterwards and the value that is found *)
Definition accessMap (current : option (gmap text value)) (segments : nat) (thisSel : text) (index : Z) (val : value)
    (mode : OpMode) : result map_panic (gmap text value * value) :=
  let m := default ∅ current in
  if (segments <=? 1) && IsSet mode then
    let! m := apply current thisSel index val mode in Ok (m, VNil)
  else
    match m !! thisSel, current with
    | None, None => if IsSet mode then Err NilMap else Ok (m, VNil)
    | None, Some _ =>
        if negb (IsSet mode) then Ok (m, VNil)
        else
          let! v :=
            if (index =? -1)%Z then Ok (VMsn ∅)
            else let! l := fillSlice [] index segments val in Ok (VSlice l) in
          Ok (<[thisSel := v]> m, v)
    | Some v, _ =>
        let! v :=
          match v with
          | VSlice l =>
              if IsSet mode && (-1 <? index)%Z && (Z.of_nat (length l) <=? index)%Z
              then let! l := fillSlice l index segments val in Ok (VSlice l) else Ok v
          | VNil => if 1 <? segments then Ok (VMsn ∅) else Ok VNil
          | _ => Ok v
          end in
        Ok (<[thisSel := v]> m, v)
    end.

(** The map of nodes that a value is, [Some None] for the nil map. *)
Definition as_msn (current : value) : option (option (gmap text value)) :=
  match current with VMsn m => Some (Some m) | VNilMsn => Some None | _ => None end.

(** The element of a slice that an index selects, and how to put a changed one back; the
    element that is missing is nil. *)
Definition pick (index : Z) (v : value) : value :=
  match v with
  | VSlice l => if (-1 <? index)%Z then default VNil (l !! Z.to_nat index) else v
  | _ => v
  end.

Definition put_back (index : Z) (v new : value) : value :=
  match v with
  | VSlice l => if (-1 <? index)%Z then VSlice (<[Z.to_nat index := new]> l) else new
  | _ => new
  end.

Definition is_nil (v : value) : bool := match v with VNil => true | _ => false end.

(** The name and the index of a segment of a selector. *)
Definition parse_segment (s : text) : Z * text :=
  if bool_decide ("[" ∈ s) then getIndex s else ((-1)%Z, s).

(** [pkg/mapx/map.go:169-208] access: the value afterwards and the value that is found; [None] when the
    fuel does not last *)
Fixpoint access (fuel : nat) (current : value) (selector : text) (val : value) (mode : OpMode) :
    option (result map_panic (value * value)) :=
  match fuel with
  | 0 => None
  | S fuel =>
      let selSegs := SplitUnescapedDotN (Trim selector) 2 in
      let '(index, thisSel) := parse_segment (default [] (head selSegs)) in
      match as_msn current with
      | None =>
          if 1 <? length selSegs then
            match access fuel VNil (join ["."] (tail selSegs)) val mode with
            | Some (Ok (_, found)) => Some (Ok (current, found))
            | r => r
            end
          else Some (Ok (current, VNil))
      | Some msn =>
          match accessMap msn (length selSegs) thisSel index val mode with
          | Err p => Some (Err p)
          | Ok (m, v) =>
              let back m := if msn is Some _ then VMsn m else VNilMsn in
              if is_nil v then Some (Ok (back m, VNil))
              else
                let element := pick index v in
                if 1 <? length selSegs then
                  match access fuel element (join ["."] (tail selSegs)) val mode with
                  | Some (Ok (element, found)) => Some (Ok (back (<[thisSel := put_back index v element]> m), found))
                  | r => r
                  end
                else Some (Ok (back m, element))
          end
      end
  end.

(** Enough fuel for a selector. *)
Definition enough (selector : text) : nat := S (length selector).

(** The state of a MapX: the map of nodes of its root. *)
Definition mapx := gmap text value.

(** [pkg/mapx/map.go:31-41] NewMapX *)
Definition NewMapX (msis : list (gmap text value)) : mapx :=
  match msis with [] => ∅ | msi :: _ => msiToMsn msi end.

(** [pkg/mapx/map.go:43-50] Msi *)
Definition Msi (m : mapx) : gmap text value := nodeToInterface <$> (copyVal <$> m).

(** The root after an access. *)
Definition root_of (v : value) : mapx := match v with VMsn m => m | _ => ∅ end.

(** [pkg/mapx/map.go:75-83] doGet: a read can change the map *)
Definition doGet (key : text) (m : mapx) : option (result map_panic (mapx * value)) :=
  if decide (key = ["."]) then Some (Ok (m, VMsn m))
  else
    match access (enough key) (VMsn m) key VNil {| IsSet := false; SkipExisting := false |} with
    | Some (Ok (v, found)) => Some (Ok (root_of v, found))
    | Some (Err p) => Some (Err p)
    | None => None
    end.

(** [pkg/mapx/map.go:64-73] Get *)
Definition Get (key : text) (m : mapx) : option (result map_panic (mapx * value)) :=
  match doGet key m with
  | Some (Ok (m, found)) => Some (Ok (m, copyVal found))
  | r => r
  end.

(** [pkg/mapx/map.go:85-98] Has, with doesHave *)
Definition Has (key : text) (m : mapx) : option (result map_panic (mapx * bool)) :=
  if decide (m = ∅) then Some (Ok (m, false))
  else
    match doGet key m with
    | Some (Ok (m, found)) => Some (Ok (m, negb (is_nil found)))
    | Some (Err p) => Some (Err p)
    | None => None
    end.

(** [pkg/mapx/map.go:130-141] doSet, with the mode that the options give, which Set calls *)
Definition doSet (key : text) (val : value) (skip : bool) (m : mapx) : option (result map_panic mapx) :=
  match access (enough key) (VMsn m) key (prepareInput val) {| IsSet := true; SkipExisting := skip |} with
  | Some (Ok (v, _)) => Some (Ok (root_of v))
  | Some (Err p) => Some (Err p)
  | None => None
  end.

(** [pkg/mapx/mapnode.go:142-155] MapXNode.Slice: [None] when the value is no slice *)
Definition Slice (v : value) : option (list value) :=
  match v with
  | VNil => Some []
  | VSlice l => Some (nodeToInterface <$> l)
  | _ => None
  end.

(** [pkg/mapx/mapnode.go:102-111] MapXNode.Data *)
Definition Data (v : value) : value := nodeToInterface v.

(** [pkg/mapx/map.go:100-121] Append: [false] is the error for a value that is no slice *)
Definition Append (key : text) (values : list value) (m : mapx) : option (result map_panic (mapx * bool)) :=
  let set v m :=
    match doSet key (VSlice v) false m with
    | Some (Ok m) => Some (Ok (m, true))
    | Some (Err p) => Some (Err p)
    | None => None
    end in
  match Has key m with
  | Some (Ok (m, has)) =>
      if negb has then set values m
      else
        match doGet key m with
        | Some (Ok (m, v)) =>
            match Slice v with
            | None => Some (Ok (m, false))
            | Some slice => set (slice ++ values) m
            end
        | Some (Err p) => Some (Err p)
        | None => None
        end
  | Some (Err p) => Some (Err p)
  | None => None
  end.
End MapX.
Arguments value : clear implicits.
Arguments mapx : clear implicits.

(** ** Lemmas on splitting *)

(** Whether a backslash waits for its character after a text. *)
Fixpoint escape_after (escaped : bool) (s : text) : bool :=
  match s with
  | [] => escaped
  | r :: s => escape_after (bool_decide (r = "\") && negb escaped) s
  end.

(** A text without a dot that separates; what [escape_after] says at its end. *)
Fixpoint scan (escaped : bool) (s : text) : option bool :=
  match s with
  | [] => Some escaped
  | r :: s =>
      if bool_decide (r = ".") && negb escaped then None
      else scan (bool_decide (r = "\") && negb escaped) s
  end.

Section SplitLemmas.
Implicit Types (s t x y : text) (l parts : list text).

Lemma join_extend sep l x y : join sep (l ++ [x ++ y]) = join sep (l ++ [x]) ++ y.
Proof.
  induction l as [|z l IH]; [done|]. rewrite -!app_comm_cons. cbn [join].
  destruct l as [|z' l]; simpl in *; [by rewrite -!app_assoc | by rewrite IH -!app_assoc].
Qed.

Lemma join_snoc sep l x y : join sep ((l ++ [x]) ++ [y]) = join sep (l ++ [x]) ++ sep ++ y.
Proof.
  induction l as [|z l IH]; [done|]. rewrite -!app_comm_cons. cbn [join].
  destruct l as [|z' l]; simpl in *; [by rewrite -!app_assoc | by rewrite IH -!app_assoc].
Qed.

(** Splitting keeps every character but a backslash that nothing follows. *)
Lemma split_loop_join s n parts current escaped :
  join ["."] (split_loop s n parts current escaped) ++ pending (escape_after escaped s) =
  join ["."] (parts ++ [current ++ pending escaped ++ s]).
Proof.
  revert parts current escaped. induction s as [|r s IH]; intros parts current escaped; simpl.
  { by rewrite app_nil_r join_extend. }
  destruct (decide (r = "\")) as [->|Hr].
  - rewrite (bool_decide_eq_true_2 ("\" = "\")) //=. destruct escaped; rewrite IH /=; [by rewrite -app_assoc | done].
  - rewrite (bool_decide_eq_false_2 (r = "\")) //=.
    destruct (bool_decide (r = ".") && negb escaped && _) eqn:Hd.
    + apply andb_true_iff in Hd as [[->%bool_decide_eq_true He]%andb_true_iff _].
      destruct escaped; [done|]. simpl. rewrite (IH _ [] false) /= join_snoc. by rewrite join_extend.
    + rewrite IH. by rewrite -!app_assoc.
Qed.

Lemma split_loop_length s n parts current escaped :
  length parts < length (split_loop s n parts current escaped) ∧
  ((0 < n)%Z → (Z.of_nat (length parts) < n)%Z → (Z.of_nat (length (split_loop s n parts current escaped)) ≤ n)%Z).
Proof.
  revert parts current escaped. induction s as [|r s IH]; intros parts current escaped; simpl.
  { rewrite length_app /=. lia. }
  destruct (decide (r = "\")); [destruct escaped; apply IH|].
  destruct (bool_decide (r = ".") && negb escaped && _) eqn:Hd; [|apply IH].
  apply andb_true_iff in Hd as [_ Hn]. destruct (IH (parts ++ [current]) [] escaped) as [Hlt Hle].
  rewrite length_app /= in Hlt Hle. split; [lia|]. intros Hpos Hlen. apply Hle; [done|].
  apply orb_true_iff in Hn as [?%Z.ltb_lt|?%Z.ltb_lt]; lia.
Qed.

Lemma split_loop_scan t s n parts current escaped escaped' :
  scan escaped t = Some escaped' →
  ∃ current', split_loop (t ++ s) n parts current escaped = split_loop s n parts current' escaped' ∧
              current' ++ pending escaped' = current ++ pending escaped ++ t.
Proof.
  revert current escaped. induction t as [|r t IH]; intros current escaped; simpl.
  { intros [= <-]. exists current. by rewrite app_nil_r. }
  destruct (bool_decide (r = ".") && negb escaped) eqn:Hdot; [done|].
  destruct (decide (r = "\")) as [->|Hr].
  - rewrite (bool_decide_eq_true_2 ("\" = "\")) //=. destruct escaped; simpl; intros Hs.
    + destruct (IH (current ++ ["\"; "\"]) _ Hs) as (c & -> & Hc). exists c. by rewrite Hc -app_assoc.
    + destruct (IH current _ Hs) as (c & -> & Hc). by exists c.
  - rewrite (bool_decide_eq_false_2 (r = "\")) //=. intros Hs.
    destruct (IH (current ++ pending escaped ++ [r]) _ Hs) as (c & -> & Hc). exists c. rewrite Hc.
    by rewrite -!app_assoc.
Qed.

(** The last part takes the rest of the text. *)
Lemma split_loop_rest s n parts current escaped :
  (0 ≤ n)%Z → (n - 1 ≤ Z.of_nat (length parts))%Z →
  ∃ current', split_loop s n parts current escaped = parts ++ [current'] ∧
              current' ++ pending (escape_after escaped s) = current ++ pending escaped ++ s.
Proof.
  intros Hn Hlen. revert current escaped. induction s as [|r s IH]; intros current escaped; simpl.
  { exists current. by rewrite app_nil_r. }
  destruct (decide (r = "\")) as [->|Hr].
  - rewrite (bool_decide_eq_true_2 ("\" = "\")) //=. destruct escaped; simpl.
    + destruct (IH (current ++ ["\"; "\"]) false) as (c & -> & Hc). exists c. by rewrite Hc -app_assoc.
    + destruct (IH current true) as (c & -> & Hc). by exists c.
  - rewrite (bool_decide_eq_false_2 (r = "\")) //=.
    assert ((n <? 0)%Z || (Z.of_nat (length parts) <? n - 1)%Z = false) as ->.
    { apply orb_false_iff. rewrite Z.ltb_ge Z.ltb_ge. lia. }
    rewrite andb_false_r. destruct (IH (current ++ pending escaped ++ [r]) false) as (c & -> & Hc).
    exists c. by rewrite Hc -!app_assoc.
Qed.

Lemma fold_append {A B} (f : A → list B) (l : list A) acc : fold_left (λ r a, r ++ f a) l acc = acc ++ mjoin (f <$> l).
Proof.
  revert acc. induction l as [|a l IH]; intros acc; simpl; [by rewrite app_nil_r | by rewrite IH -app_assoc].
Qed.

Lemma EscapeDots_join s : EscapeDots s = mjoin ((λ r, if decide (r = ".") then ["\"; r] else [r]) <$> s).
Proof.
  set (f := λ r, if decide (r = ".") then ["\"; r] else [r]). change (mjoin (f <$> s)) with ([] ++ mjoin (f <$> s)).
  rewrite -fold_append. unfold EscapeDots.
  assert (∀ acc, fold_left (λ result r, (if decide (r = ".") then result ++ ["\"] else result) ++ [r]) s acc =
                 fold_left (λ r a, r ++ f a) s acc) as H; [|by apply H].
  induction s as [|r s IH]; intros acc; [done|]. cbn [fold_left]. rewrite IH. f_equal. unfold f.
  case_decide; [by rewrite -app_assoc | done].
Qed.

Lemma EscapeDots_scan s : "\" ∉ s → scan false (EscapeDots s) = Some false.
Proof.
  rewrite EscapeDots_join. induction s as [|r s IH]; intros Hs; [done|].
  apply not_elem_of_cons in Hs as [Hr Hs]. simpl. case_decide as Hd; simpl.
  - subst. by apply IH.
  - rewrite (bool_decide_eq_false_2 (r = ".")) // (bool_decide_eq_false_2 (r = "\")) //. by apply IH.
Qed.
End SplitLemmas.

(** ** Paths *)

(** A segment of a path: not empty, without a dot that separates, without a backslash
    that waits, and without an escaped dot at its end, which Trim would take away. *)
Definition segment (t : text) : Prop := t ≠ [] ∧ scan false t = Some false ∧ last t ≠ Some ".".

(** The key of a path. *)
Definition key_of (ts : list text) : text := join ["."] ts.

Section PathLemmas.
Implicit Types (t : text) (ts : list text).

Lemma scan_escape_after t b b' : scan b t = Some b' → escape_after b t = b'.
Proof.
  revert b. induction t as [|r t IH]; intros b; simpl; [by intros [= ->]|]. case_match; [done|]. apply IH.
Qed.

Lemma escape_after_app b s t : escape_after b (s ++ t) = escape_after (escape_after b s) t.
Proof. revert b. induction s as [|r s IH]; intros b; simpl; [done | apply IH]. Qed.

Lemma key_of_cons t ts : ts ≠ [] → key_of (t :: ts) = t ++ "." :: key_of ts.
Proof. by destruct ts. Qed.

Lemma key_of_escape ts : Forall segment ts → escape_after false (key_of ts) = false.
Proof.
  induction 1 as [|t ts Ht Hts IH]; [done|]. destruct Ht as (_ & Hs & _).
  destruct ts as [|t' ts]; [by apply scan_escape_after|].
  rewrite key_of_cons // escape_after_app (scan_escape_after _ _ _ Hs). apply IH.
Qed.

Lemma key_of_nonempty ts : ts ≠ [] → Forall segment ts → key_of ts ≠ [].
Proof.
  intros Hne Hts. destruct Hts as [|t ts Ht _]; [done|]. destruct Ht as [Ht _].
  destruct ts; [done|]. rewrite key_of_cons //. by destruct t.
Qed.

Lemma key_of_head ts : Forall segment ts → head (key_of ts) ≠ Some ".".
Proof.
  destruct 1 as [|t ts Ht Hts]; [done|]. destruct Ht as (Hne & Hs & _).
  assert (head t ≠ Some ".") as Hh. { destruct t as [|r t]; [done|]. simpl. intros [= ->]. done. }
  destruct ts; [done|]. rewrite key_of_cons //. by destruct t.
Qed.

Lemma key_of_last ts : Forall segment ts → last (key_of ts) ≠ Some ".".
Proof.
  induction 1 as [|t ts Ht Hts IH]; [done|]. destruct Ht as (_ & _ & Hl).
  destruct (decide (ts = [])) as [->|Hne]; [done|].
  rewrite key_of_cons // last_app last_cons.
  destruct (last (key_of ts)) as [r|] eqn:He; [done|]. by apply last_None, key_of_nonempty in He.
Qed.

Lemma trim_left_id t : head t ≠ Some "." → trim_left t = t.
Proof. destruct t as [|r t]; [done|]; simpl. intros H. case_decide; [by subst | done]. Qed.

Lemma Trim_key_of ts : Forall segment ts → Trim (key_of ts) = key_of ts.
Proof.
  intros Hts. unfold Trim. rewrite (trim_left_id (key_of ts)); [by apply key_of_head|].
  rewrite trim_left_id; [rewrite head_reverse; by apply key_of_last | apply reverse_involutive].
Qed.

Lemma split_key_of t ts :
  Forall segment (t :: ts) →
  SplitUnescapedDotN (key_of (t :: ts)) 2 = t :: (if decide (ts = []) then [] else [key_of ts]).
Proof.
  intros [Ht Hts]%Forall_cons. destruct Ht as (_ & Hs & _). unfold SplitUnescapedDotN. simpl.
  case_decide as Hne.
  - subst. destruct (split_loop_scan t [] 2 [] [] false false Hs) as (c & Hc & He).
    rewrite app_nil_r in Hc. simpl in *. rewrite /key_of /= Hc. by rewrite app_nil_r in He; subst.
  - rewrite key_of_cons //. destruct (split_loop_scan t ("." :: key_of ts) 2 [] [] false false Hs) as (c & -> & He).
    rewrite app_nil_r in He. simpl in *. subst c.
    destruct (split_loop_rest (key_of ts) 2 [t] [] false) as (c & -> & Hc); [done..|].
    rewrite key_of_escape //= app_nil_r in Hc. by rewrite Hc.
Qed.
End PathLemmas.

(** ** Walking along a path *)
Section Walk.
Context {scalar : Type} (zero_of : scalar → scalar) (string_len : scalar → option nat).
Abbreviation value := (value scalar).
Implicit Types (v : value) (m : gmap text value).

(** access for a path that is parsed. *)
Fixpoint walk (current : value) (segs : list (Z * text)) (val : value) (mode : OpMode) : result map_panic (value * value) :=
  match segs with
  | [] => Ok (current, VNil)
  | (index, thisSel) :: rest =>
      match as_msn current with
      | None => Ok (current, VNil)
      | Some msn =>
          match accessMap zero_of string_len msn (if decide (rest = []) then 1 else 2) thisSel index val mode with
          | Err p => Err p
          | Ok (m, v) =>
              let back m := if msn is Some _ then VMsn m else VNilMsn in
              if is_nil v then Ok (back m, VNil)
              else if decide (rest = []) then Ok (back m, pick index v)
              else
                match walk (pick index v) rest val mode with
                | Ok (element, found) => Ok (back (<[thisSel := put_back index v element]> m), found)
                | Err p => Err p
                end
          end
      end
  end.

Lemma walk_nil segs val mode : walk VNil segs val mode = Ok (VNil, VNil).
Proof. by destruct segs as [|[i n] segs]. Qed.

Lemma access_walk fuel ts v val mode :
  ts ≠ [] → Forall segment ts → length (key_of ts) < fuel →
  access zero_of string_len fuel v (key_of ts) val mode = Some (walk v (parse_segment <$> ts) val mode).
Proof.
  revert fuel v. induction ts as [|t ts IH]; intros fuel v Hne Hts Hf; [done|].
  destruct fuel as [|fuel]; [lia|]. cbn [access]. rewrite Trim_key_of // split_key_of //.
  cbn [head default from_option fmap list_fmap walk]. unfold id. destruct (parse_segment t) as [i n] eqn:Hp.
  assert (parse_segment <$> ts = [] ↔ ts = []) as Hnil by (split; [apply fmap_nil_inv | by intros ->]).
  apply Forall_cons in Hts as [Ht Hts].
  destruct (decide (ts = [])) as [->|Hne'].
  - simpl. destruct (as_msn v) as [msn|]; [|done].
    destruct (accessMap _ _ _ _ _ _ _ _) as [[m w]|p]; [|done]. by destruct (is_nil w).
  - rewrite decide_False; [by rewrite Hnil|]. rewrite key_of_cons // in Hf. rewrite length_app /= in Hf.
    assert (∀ x, access zero_of string_len fuel x (key_of ts) val mode = Some (walk x (parse_segment <$> ts) val mode)) as IH'.
    { intros x. apply IH; [done..|]. destruct Ht as [Ht _]. destruct t; simpl in *; [done|lia]. }
    cbn [length Nat.ltb Nat.leb tail join]. rewrite !IH' walk_nil.
    destruct (as_msn v) as [msn|]; [|done].
    destruct (accessMap _ _ _ _ _ _ _ _) as [[m w]|p]; [|done]. destruct (is_nil w); [done|].
    rewrite IH' decide_False; [by rewrite Hnil|]. by destruct (walk (pick i w) _ _ _) as [[e f]|p].
Qed.
Lemma default_Some {A} (x y : A) : default x (Some y) = y.
Proof. done. Qed.

(** *** What a path leads to *)
Fixpoint path_get (v : value) (segs : list (Z * text)) : value :=
  match segs with
  | [] => v
  | (i, n) :: rest =>
      match v with
      | VMsn m => path_get (pick i (default VNil (m !! n))) rest
      | _ => VNil
      end
  end.

Definition reading : OpMode := {| IsSet := false; SkipExisting := false |}.
Definition writing (skip : bool) : OpMode := {| IsSet := true; SkipExisting := skip |}.

Lemma path_get_nil segs : path_get VNil segs = VNil.
Proof. by destruct segs as [|[i n] segs]. Qed.

Lemma path_get_empty segs : segs ≠ [] → path_get (VMsn ∅) segs = VNil.
Proof. destruct segs as [|[i n] segs]; [done|]. intros _. simpl. rewrite lookup_empty. apply path_get_nil. Qed.

Lemma pick_nil i : pick i (VNil : value) = VNil.
Proof. done. Qed.

Definition is_slice (v : value) : Prop := ∃ l, v = VSlice l.

Lemma pick_other i v : ¬ is_slice v → pick i v = v.
Proof. destruct v; try done. intros []. by eexists. Qed.

Lemma put_back_other i v x : ¬ is_slice v → put_back i v x = x.
Proof. destruct v; try done. intros []. by eexists. Qed.

Lemma walk_slice v segs val mode v' f : walk v segs val mode = Ok (v', f) → is_slice v' ↔ is_slice v ∧ v' = v.
Proof.
  destruct segs as [|[i n] segs]; simpl; [intros [= <- <-]; naive_solver|].
  destruct (as_msn v) as [msn|] eqn:Hv; [|intros [= <- <-]; naive_solver].
  assert (¬ is_slice v) as Hns by (intros [l ->]; done).
  destruct (accessMap _ _ _ _ _ _ _ _) as [[m w]|]; [|done].
  assert (∀ m, ¬ is_slice (if msn is Some _ then VMsn m else VNilMsn)) as Hb by (intros m' [l Hl]; by destruct msn).
  destruct (is_nil w); [intros [= <- <-]; naive_solver|].
  case_decide; [intros [= <- <-]; naive_solver|].
  destruct (walk _ _ _ _) as [[e g]|]; [|done]. intros [= <- <-]; naive_solver.
Qed.

(** *** Reading *)

(** A value after a read: at most one nil, on the way, has become an empty map. *)
Inductive filled : value → value → Prop :=
| filled_same v : filled v v
| filled_nil : filled VNil (VMsn ∅)
| filled_key n m v w : m !! n = Some v → filled v w → filled (VMsn m) (VMsn (<[n := w]> m))
| filled_element i l v w : l !! i = Some v → filled v w → filled (VSlice l) (VSlice (<[i := w]> l)).

Lemma accessMap_reading msn segs n i val :
  accessMap zero_of string_len msn segs n i val reading =
  Ok (match default ∅ msn !! n with
      | None => (default ∅ msn, VNil)
      | Some v => let w := match v with VNil => if 1 <? segs then VMsn ∅ else VNil | _ => v end in
                  (<[n := w]> (default ∅ msn), w)
      end).
Proof.
  unfold accessMap. rewrite andb_false_r. destruct msn as [m|]; simpl; [|done].
  destruct (m !! n) as [[]|]; try done. by destruct (1 <? segs).
Qed.

Lemma filled_put_back i v e : filled (pick i v) e → filled v (put_back i v e).
Proof.
  intros Hf. destruct v as [| |l| | | |]; try done. simpl in *.
  destruct (-1 <? i)%Z; [|done].
  destruct (l !! Z.to_nat i) as [x|] eqn:Hx; simpl in *; [by eapply filled_element|].
  rewrite list_insert_ge; [by apply lookup_ge_None | apply filled_same].
Qed.

Lemma put_back_pick i v : put_back i v (pick i v) = v.
Proof.
  destruct v as [| |l| | | |]; try done. simpl. destruct (-1 <? i)%Z; [|done].
  destruct (l !! Z.to_nat i) as [x|] eqn:Hx; simpl; [by rewrite list_insert_id|].
  rewrite list_insert_ge //. by apply lookup_ge_None.
Qed.

Lemma walk_empty_reading segs val : segs ≠ [] → walk (VMsn ∅) segs val reading = Ok (VMsn ∅, VNil).
Proof. destruct segs as [|[i n] segs]; [done|]. intros _. cbn [walk as_msn]. by rewrite accessMap_reading /= lookup_empty. Qed.

Lemma walk_reading segs v val :
  segs ≠ [] →
  ∃ v', walk v segs val reading = Ok (v', path_get v segs) ∧ filled v v' ∧ (path_get v segs ≠ VNil → v' = v).
Proof.
  revert v. induction segs as [|[i n] rest IH]; intros v Hne; [done|]. cbn [walk path_get].
  destruct v as [| | | |m| |]; try (eexists; split_and!; [done | constructor | done]); cbn [as_msn].
  2: { rewrite accessMap_reading /= lookup_empty. eexists; split_and!; [done | constructor | done]. }
  rewrite accessMap_reading. cbn [default from_option]. unfold id.
  destruct (m !! n) as [w|] eqn:Hw.
  2: { simpl. rewrite path_get_nil. eexists; split_and!; [done | constructor | done]. }
  destruct (is_nil w) eqn:Hnil.
  - destruct w; try done. destruct (decide (rest = [])) as [->|Hr]; simpl.
    + eexists; split_and!; [done | rewrite insert_id //; constructor | done].
    + rewrite walk_empty_reading // path_get_nil. eexists; split_and!; [done | | done].
      rewrite insert_insert_eq. eapply filled_key; [done | apply filled_nil].
  - assert (∀ segs, match w with VNil => if 1 <? segs then VMsn ∅ else VNil | _ => w end = w) as Hid by (intros; by destruct w).
    rewrite Hid Hnil. cbn [default from_option]. unfold id.
    destruct (decide (rest = [])) as [->|Hr].
    + eexists; split_and!; [done | rewrite insert_id //; constructor | intros _; by rewrite insert_id].
    + destruct (IH (pick i w) Hr) as (e & -> & Hf & Hsame). eexists; split_and!; [done | |].
      * rewrite insert_insert_eq. eapply filled_key; [done|]. by apply filled_put_back.
      * intros Hx. apply Hsame in Hx as ->. by rewrite insert_insert_eq put_back_pick insert_id.
Qed.

(** *** Writing *)

(** What a write makes of the value under a name that is not the last one of its path. *)
Definition grown (i : Z) (o : option value) : value :=
  match o with
  | None => if (i =? -1)%Z then VMsn ∅ else VSlice (replicate (S (Z.to_nat i)) (VMsn ∅))
  | Some VNil => VMsn ∅
  | Some (VSlice l) =>
      if (-1 <? i)%Z && (Z.of_nat (length l) <=? i)%Z
      then VSlice (l ++ replicate (S (Z.to_nat i) - length l) (VMsn ∅)) else VSlice l
  | Some w => w
  end.

Lemma accessMap_writing m n i val skip :
  accessMap zero_of string_len (Some m) 2 n i val (writing skip) =
  Ok (<[n := grown i (m !! n)]> m, grown i (m !! n)).
Proof.
  unfold accessMap. simpl. destruct (m !! n) as [[]|]; simpl; try done; [by case_match|].
  by destruct (i =? -1)%Z.
Qed.

Lemma grown_not_nil i o : is_nil (grown i o) = false.
Proof. destruct o as [[]|]; simpl; try done; by case_match. Qed.

Lemma pick_in_range i l : (0 ≤ i)%Z → pick i (VSlice l : value) = default VNil (l !! Z.to_nat i).
Proof. intros Hi. simpl. rewrite (proj2 (Z.ltb_lt (-1) i)); [lia | done]. Qed.

(** Growing shows at no longer path. *)
Lemma pick_grown i o :
  (-1 ≤ i)%Z → pick i (grown i o) = pick i (default VNil o) ∨ pick i (grown i o) = VMsn ∅ ∧ pick i (default VNil o) = VNil.
Proof.
  intros Hi. destruct o as [[| |l| | | |]|]; try (by left); [by right| |].
  - unfold grown. destruct (_ && _) eqn:Hg; [|by left]. right.
    apply andb_true_iff in Hg as [Hi'%Z.ltb_lt Hl%Z.leb_le]. cbn [default from_option]. unfold id. rewrite !pick_in_range; [lia..|].
    rewrite lookup_app_r; [lia|]. rewrite lookup_replicate_2; [lia|]. rewrite (lookup_ge_None_2 l); [lia | done].
  - right. split; [|done]. unfold grown. destruct (Z.eqb_spec i (-1)); [done|]. rewrite pick_in_range; [lia|].
    rewrite lookup_replicate_2; [lia | done].
Qed.

Lemma pick_put_back i w e :
  (is_slice w → (0 ≤ i)%Z → Z.to_nat i < (match w with VSlice l => length l | _ => 0 end)) →
  (is_slice e → ¬ is_slice w ∨ (i < 0)%Z → pick i e = e) →
  pick i (put_back i w e) = e.
Proof.
  intros Hr Hs. destruct w as [| |l| | | |]; simpl; try (destruct e; try done; apply Hs; [by eexists | by left; intros []]).
  destruct (Z.ltb_spec (-1) i).
  - rewrite pick_in_range; [lia|]. rewrite list_lookup_insert_eq; [apply Hr; [by eexists | lia] | done].
  - destruct e; try done. apply Hs; [by eexists | right; lia].
Qed.

Lemma grown_in_range i o :
  is_slice (grown i o) → (0 ≤ i)%Z → Z.to_nat i < (match grown i o with VSlice l => length l | _ => 0 end).
Proof.
  destruct o as [[| |l| | | |]|]; simpl; try (by intros []).
  - intros _ Hi. destruct (_ && _) eqn:Hg; simpl; [rewrite length_app length_replicate; lia|].
    apply andb_false_iff in Hg as [Hg%Z.ltb_ge|Hg%Z.leb_gt]; lia.
  - destruct (Z.eqb_spec i (-1)); [by intros []|]. simpl. rewrite length_replicate. lia.
Qed.

Lemma pick_negative i l : (i < 0)%Z → pick i (VSlice l : value) = VSlice l.
Proof. intros Hi. simpl. by rewrite (proj2 (Z.ltb_ge (-1) i)); [lia|]. Qed.

(** The element that was written is picked up again. *)
Lemma pick_written i o e segs val mode f :
  walk (pick i (grown i o)) segs val mode = Ok (e, f) → pick i (put_back i (grown i o) e) = e.
Proof.
  intros Hw. apply pick_put_back; [apply grown_in_range|]. intros He Hn.
  apply (walk_slice _ _ _ _ _ _ Hw) in He as [[l Hl] ->]. destruct Hn as [Hn|Hi].
  - rewrite pick_other // in Hl. destruct Hn. by exists l.
  - rewrite Hl. by apply pick_negative.
Qed.
(** Two paths that part at a name. *)
Fixpoint diverge (p q : list (Z * text)) : Prop :=
  match p, q with
  | (i, n) :: p, (j, k) :: q => n ≠ k ∨ n = k ∧ i = j ∧ diverge p q
  | _, _ => False
  end.

Lemma apply_frame msn n i val mode m' k :
  apply zero_of string_len msn n i val mode = Ok m' → n ≠ k → m' !! k = default ∅ msn !! k.
Proof.
  intros Ha Hne. unfold apply in Ha. set (m := default ∅ msn) in *. destruct (i <? 0)%Z.
  - destruct (map_has m n && SkipExisting mode); [by simplify_eq|].
    destruct val, msn; simplify_eq/=; by rewrite lookup_insert_ne.
  - destruct (m !! n) as [w|]; [|destruct msn; simplify_eq/=; by rewrite lookup_insert_ne].
    destruct (reflect_Len string_len w) as [len|]; simpl in Ha; [|done]. destruct (_ <? len).
    + destruct (SkipExisting mode); [by simplify_eq|].
      destruct w, val, msn; simplify_eq/=; by rewrite lookup_insert_ne.
    + destruct (reflect_Zero zero_of val); simpl in Ha; [|done].
      destruct w, msn; simplify_eq/=; by rewrite lookup_insert_ne.
Qed.

Lemma walk_frame p q v val skip v' f :
  Forall (λ s, -1 ≤ s.1)%Z p → walk v p val (writing skip) = Ok (v', f) → diverge p q →
  path_get v' q = path_get v q.
Proof.
  revert q v v' f. induction p as [|[i n] p IH]; intros q v v' f Hp; [done|].
  apply Forall_cons in Hp as [Hi Hp]. destruct q as [|[j k] q]; [done|]. cbn [walk].
  destruct v as [| | | |m| |]; try (by intros [= <- <-]); cbn [as_msn].
  2: { unfold accessMap. intros Hw _. destruct (decide (p = [])); simpl in Hw; [|done].
       destruct (apply _ _ _ _ _ _ _) as [m|] eqn:Ha; simpl in Hw; by simplify_eq/=. }
  destruct (decide (p = [])) as [->|Hne].
  - unfold accessMap. simpl. destruct (apply _ _ _ _ _ _ _) as [m'|] eqn:Ha; [|done]. simpl.
    intros [= <- <-] [Hnk|(_ & _ & [])]. simpl. by rewrite (apply_frame _ _ _ _ _ _ _ Ha Hnk).
  - rewrite accessMap_writing grown_not_nil.
    destruct (walk _ p _ _) as [[e g]|] eqn:He; [|done]. intros [= <- <-] Hd. cbn [path_get].
    destruct (decide (n = k)) as [<-|Hnk]; [|by rewrite !lookup_insert_ne].
    rewrite lookup_insert_eq default_Some.
    destruct Hd as [|(_ & <- & Hd)]; [done|]. rewrite (pick_written _ _ _ _ _ _ _ He).
    rewrite (IH q _ _ _ Hp He Hd). destruct (pick_grown i (m !! n) Hi) as [->|[-> ->]]; [done|].
    rewrite path_get_nil path_get_empty //. intros ->. by destruct p as [|[]].
Qed.

(** A path that a value can be written to: what is on the way can hold the next name,
    and an index meets a slice. *)
Fixpoint settable (v : value) (segs : list (Z * text)) (val : value) : Prop :=
  match segs with
  | [] => False
  | (i, n) :: rest =>
      match v with
      | VMsn m =>
          match decide (rest = []), m !! n with
          | left _, None => True
          | left _, Some (VSlice _) => (i < 0)%Z ∨ is_nil val = false
          | left _, Some _ => (i < 0)%Z
          | right _, None | right _, Some VNil => True
          | right _, Some (VSlice l) =>
              (0 ≤ i)%Z ∧ match l !! Z.to_nat i with None => True | Some x => settable x rest val end
          | right _, Some w => settable w rest val
          end
      | _ => False
      end
  end.

Lemma settable_empty segs val : segs ≠ [] → settable (VMsn ∅) segs val.
Proof. destruct segs as [|[i n] segs]; [done|]. intros _. simpl. rewrite lookup_empty. by case_decide. Qed.

Lemma settable_grown m i n rest val :
  (-1 ≤ i)%Z → rest ≠ [] → settable (VMsn m) ((i, n) :: rest) val → settable (pick i (grown i (m !! n))) rest val.
Proof.
  intros Hi Hne Hs. cbn [settable] in Hs. rewrite decide_False // in Hs.
  destruct (m !! n) as [w|] eqn:Hm.
  - destruct w as [| |l| | | |]; try done; [by apply settable_empty|]. destruct Hs as [Hi' Hs].
    unfold grown. destruct (_ && _) eqn:Hg.
    + apply andb_true_iff in Hg as [_ Hl%Z.leb_le]. rewrite pick_in_range //. rewrite lookup_app_r; [lia|].
      rewrite lookup_replicate_2; [lia|]. by apply settable_empty.
    + rewrite pick_in_range //. destruct (l !! Z.to_nat i) eqn:Hl; [done|].
      apply lookup_ge_None in Hl. apply andb_false_iff in Hg as [Hg%Z.ltb_ge|Hg%Z.leb_gt]; lia.
  - unfold grown. destruct (Z.eqb_spec i (-1)); [by apply settable_empty|].
    rewrite pick_in_range; [lia|]. rewrite lookup_replicate_2; [lia|]. by apply settable_empty.
Qed.

(** A value that [prepareInput] has gone over. *)
Definition prepared (val : value) : Prop := match val with VMsi _ | VMsier _ => False | _ => True end.

Lemma apply_settable m n i val :
  (-1 ≤ i)%Z → prepared val → settable (VMsn m) [(i, n)] val →
  ∃ w, apply zero_of string_len (Some m) n i val (writing false) = Ok (<[n := w]> m) ∧ pick i w = val.
Proof.
  intros Hi Hp Hs. simpl in Hs. unfold apply. simpl. rewrite andb_false_r.
  destruct (Z.ltb_spec i 0).
  - assert (i = -1)%Z as -> by lia. exists val. split; [by destruct val | by destruct val].
  - destruct (m !! n) as [w|] eqn:Hm.
    + destruct w as [| |l| | | |]; try lia. destruct Hs as [?|Hv]; [lia|]. simpl.
      destruct (Nat.ltb_spec (Z.to_nat i) (length l)) as [Hl|Hl].
      * exists (VSlice (<[Z.to_nat i := val]> l)). split; [by destruct val|].
        rewrite pick_in_range //. by rewrite list_lookup_insert_eq.
      * destruct (reflect_Zero zero_of val) as [z|] eqn:Hz; [|by destruct val]. simpl. eexists; split; [done|].
        rewrite pick_in_range // app_assoc lookup_app_r; rewrite length_app length_replicate; [lia|].
        replace (Z.to_nat i - _) with 0 by lia. done.
    + eexists; split; [done|]. rewrite pick_in_range // lookup_app_r length_replicate // Nat.sub_diag. done.
Qed.

Lemma walk_settable segs v val :
  Forall (λ s, -1 ≤ s.1)%Z segs → prepared val → settable v segs val →
  ∃ v' f, walk v segs val (writing false) = Ok (v', f) ∧ path_get v' segs = val.
Proof.
  intros Hsegs Hp. revert v. induction segs as [|[i n] rest IH]; intros v Hs; [done|].
  apply Forall_cons in Hsegs as [Hi Hrest]. cbn [walk].
  destruct v as [| | | |m| |]; try done. cbn [as_msn]. destruct (decide (rest = [])) as [->|Hne].
  - unfold accessMap. simpl. destruct (apply_settable m n i val Hi Hp Hs) as (w & -> & Hw). simpl.
    do 2 eexists. split; [done|]. simpl. by rewrite lookup_insert_eq.
  - rewrite accessMap_writing grown_not_nil.
    destruct (IH Hrest (pick i (grown i (m !! n)))) as (e & f & He & Hg); [by apply settable_grown|].
    rewrite He. do 2 eexists. split; [done|]. cbn [path_get]. rewrite lookup_insert_eq default_Some.
    by rewrite (pick_written _ _ _ _ _ _ _ He).
Qed.
Lemma settable_filled segs v w val : filled v w → settable v segs val → settable w segs val.
Proof.
  revert v w. induction segs as [|[i n] rest IH]; intros v w Hf; [done|].
  destruct Hf as [v| |k m x y Hx Hf|j l x y Hx Hf]; try done. cbn [settable].
  destruct (decide (n = k)) as [<-|Hnk]; [|by rewrite lookup_insert_ne]. rewrite lookup_insert_eq Hx.
  destruct (decide (rest = [])) as [->|Hne].
  - by destruct Hf.
  - destruct Hf as [v| |k m' x' y' Hx' Hf|j l x' y' Hx' Hf]; [done| | |].
    + intros _. by apply settable_empty.
    + apply IH. by econstructor.
    + intros [Hi Hs]. split; [done|]. destruct (decide (j = Z.to_nat i)) as [->|Hij].
      * rewrite list_lookup_insert_eq; [by eapply lookup_lt_Some|]. rewrite Hx' in Hs. by eapply IH.
      * by rewrite list_lookup_insert_ne.
Qed.
End Walk.

(** ** Conversions *)
Section Conversions.
Context {scalar : Type}.
Implicit Types (v : value scalar) (m : gmap text (value scalar)).

(** A value without nodes, as a caller passes it. *)
Inductive pure : value scalar → Prop :=
| pure_nil : pure VNil
| pure_scalar s : pure (VScalar s)
| pure_slice l : (∀ i v, l !! i = Some v → pure v) → pure (VSlice l)
| pure_msi m : (∀ k v, m !! k = Some v → pure v) → pure (VMsi m)
| pure_msier m : (∀ k v, m !! k = Some v → pure v) → pure (VMsier m).

Lemma copyVal_node v : pure v → copyVal (interfaceToMapNode v) = interfaceToMapNode v.
Proof.
  induction 1 as [| |l _ IH|m _ IH|]; simpl; try done; f_equal.
  - apply list_eq. intros i. rewrite !list_lookup_fmap. destruct (l !! i) eqn:Hl; simpl; [|done]. f_equal. by eapply IH.
  - apply map_eq. intros k. rewrite !lookup_fmap. destruct (m !! k) eqn:Hm; simpl; [|done]. f_equal. by eapply IH.
Qed.

Lemma nodeToInterface_node v : pure v → nodeToInterface (interfaceToMapNode v) = v.
Proof.
  induction 1 as [| |l _ IH|m _ IH|]; simpl; try done; f_equal.
  - apply list_eq. intros i. rewrite !list_lookup_fmap. destruct (l !! i) eqn:Hl; simpl; [|done]. f_equal. by eapply IH.
  - apply map_eq. intros k. rewrite !lookup_fmap. destruct (m !! k) eqn:Hm; simpl; [|done]. f_equal. by eapply IH.
Qed.

(** What a value stands for: that of a value with a method Msi is the map. *)
Definition contents v : value scalar := match v with VMsier m => VMsi m | _ => v end.

Lemma prepareInput_contents v : prepareInput v = interfaceToMapNode (contents v).
Proof. by destruct v. Qed.

Lemma pure_contents v : pure v → pure (contents v).
Proof. by destruct 1; constructor. Qed.

Lemma prepared_input v : prepared (prepareInput v).
Proof. by destruct v. Qed.
End Conversions.

(** ** Indices of segments *)
Section Indices.
Implicit Types (t ds : text).

Lemma span_digits_spec t ds rest : span_digits t = (ds, rest) → Forall (λ a, is_digit a = true) ds.
Proof.
  revert ds. induction t as [|a t IH]; intros ds; simpl; [by intros [= <- <-]|].
  destruct (is_digit a) eqn:Ha; [|by intros [= <- <-]].
  destruct (span_digits t) as [ds' rest']. intros [= <- <-]. constructor; [done | by apply IH].
Qed.

Lemma Atoi_nonneg ds : Forall (λ a, is_digit a = true) ds → (0 ≤ Atoi ds)%Z.
Proof.
  intros Hds. unfold Atoi. apply Z.min_glb; [done|].
  assert (∀ n, (0 ≤ n)%Z → (0 ≤ fold_left (λ n a, n * 10 + (Z.of_nat (nat_of_ascii a) - 48)) ds n)%Z) as H; [|by apply H].
  induction Hds as [|a ds Ha _ IH]; intros n Hn; simpl; [done|]. apply IH.
  unfold is_digit in Ha. apply andb_true_iff in Ha as [Ha%Nat.leb_le _]. lia.
Qed.

Lemma getIndex_range t : (-1 ≤ (getIndex t).1)%Z.
Proof.
  unfold getIndex. destruct (reverse t) as [|a t']; [done|]. case_decide; [|done].
  destruct (span_digits t') as [ds rest] eqn:Hd. apply span_digits_spec in Hd.
  destruct ds as [|d ds]; [done|]. destruct rest as [|b [|c name]]; [done..|].
  case_match; [|done]. apply (Z.le_trans _ 0); [done|]. apply Atoi_nonneg. by rewrite reverse_Permutation.
Qed.

Lemma parse_segment_range (ts : list text) : Forall (λ s, -1 ≤ s.1)%Z (parse_segment <$> ts).
Proof.
  rewrite Forall_fmap. apply Forall_true. intros t. unfold parse_segment. simpl.
  case_match; [apply getIndex_range | done].
Qed.
End Indices.

(** ** Theorems *)
Section Access.
Context {scalar : Type} (zero_of : scalar → scalar) (string_len : scalar → option nat).
Implicit Types (m : mapx scalar) (val : value scalar) (ts us : list text).

(** The path of the segments of a key. *)
Definition path (ts : list text) : list (Z * text) := parse_segment <$> ts.

Lemma path_nonempty ts : ts ≠ [] → path ts ≠ [].
Proof. by destruct ts. Qed.

Lemma key_not_root ts : Forall segment ts → key_of ts ≠ ["."].
Proof. intros Hts Hk. apply (key_of_head ts Hts). by rewrite Hk. Qed.

Lemma doGet_spec ts m :
  ts ≠ [] → Forall segment ts →
  ∃ m', doGet zero_of string_len (key_of ts) m = Some (Ok (m', path_get (VMsn m) (path ts))) ∧
        filled (VMsn m) (VMsn m') ∧ (path_get (VMsn m) (path ts) ≠ VNil → m' = m).
Proof.
  intros Hne Hts. unfold doGet. rewrite decide_False; [by apply key_not_root|].
  rewrite access_walk //; [unfold enough; lia|].
  destruct (walk_reading zero_of string_len (path ts) (VMsn m) VNil) as (v' & Hw & Hf & Hs); [by apply path_nonempty|].
  change {| IsSet := false; SkipExisting := false |} with reading. fold (path ts). rewrite Hw.
  assert (∃ m', v' = VMsn m') as [m' ->] by (inversion Hf; subst; by eexists).
  exists m'. split_and!; [done..|]. intros Hx. by injection (Hs Hx).
Qed.

Lemma doSet_spec ts val skip m :
  ts ≠ [] → Forall segment ts →
  doSet zero_of string_len (key_of ts) val skip m =
  match walk zero_of string_len (VMsn m) (path ts) (prepareInput val) (writing skip) with
  | Ok (v, _) => Some (Ok (root_of v))
  | Err p => Some (Err p)
  end.
Proof.
  intros Hne Hts. unfold doSet. rewrite access_walk; [done..|unfold enough; lia|].
  change {| IsSet := true; SkipExisting := skip |} with (writing skip). fold (path ts).
  by destruct (walk _ _ _ _ _ _) as [[v f]|].
Qed.

Lemma walk_root segs m val mode v f :
  walk zero_of string_len (VMsn m) segs val mode = Ok (v, f) → v = VMsn (root_of v).
Proof.
  destruct segs as [|[i n] segs]; simpl; [by intros [= <- <-]|].
  destruct (accessMap _ _ _ _ _ _ _ _) as [[m' w]|]; [|done].
  destruct (is_nil w); [by intros [= <- <-]|]. case_decide; [by intros [= <- <-]|].
  destruct (walk _ _ _ _ _ _) as [[e g]|]; [|done]. by intros [= <- <-].
Qed.

Lemma doSet_settable ts val m :
  ts ≠ [] → Forall segment ts → settable (VMsn m) (path ts) (prepareInput val) →
  ∃ m', doSet zero_of string_len (key_of ts) val false m = Some (Ok m') ∧
        path_get (VMsn m') (path ts) = prepareInput val.
Proof.
  intros Hne Hts Hs. rewrite doSet_spec //.
  destruct (walk_settable zero_of string_len (path ts) (VMsn m) (prepareInput val)) as (v' & f & Hw & Hg);
    [apply parse_segment_range | apply prepared_input | done|].
  exists (root_of v'). rewrite Hw. split; [done|]. by rewrite -(walk_root _ _ _ _ _ _ Hw).
Qed.

Lemma Data_of_input val : pure val → Data (copyVal (prepareInput val)) = contents val.
Proof.
  intros Hp. unfold Data. rewrite prepareInput_contents copyVal_node; [by apply pure_contents|].
  apply nodeToInterface_node. by apply pure_contents.
Qed.

Lemma settable_nil (segs : list (Z * text)) (v val val' : value scalar) :
  is_nil val = is_nil val' → settable v segs val → settable v segs val'.
Proof.
  intros Hn. revert v. induction segs as [|[i n] rest IH]; intros v; [done|]. cbn [settable].
  destruct v as [| | | |m'| |]; try done.
  destruct (decide (rest = [])), (m' !! n) as [[]|]; rewrite ?Hn //; try apply IH.
  intros [Hi Hs]. split; [done|]. case_match; [by apply IH | done].
Qed.

Lemma Has_spec ts m :
  ts ≠ [] → Forall segment ts →
  let found := path_get (VMsn m) (path ts) in
  ∃ m', Has zero_of string_len (key_of ts) m = Some (Ok (m', negb (is_nil found))) ∧
        filled (VMsn m) (VMsn m') ∧ (found ≠ VNil → m' = m).
Proof.
  intros Hne Hts. simpl. unfold Has. case_decide as He.
  - subst. rewrite path_get_empty; [by apply path_nonempty|]. exists ∅. split_and!; [done | constructor | done].
  - destruct (doGet_spec ts m Hne Hts) as (m' & -> & Hf & Hs). by exists m'.
Qed.

(** The values of a slice that is set are read again. *)
Lemma set_slice_data ts l m :
  ts ≠ [] → Forall segment ts → settable (VMsn m) (path ts) (VSlice []) → (∀ i v, l !! i = Some v → pure v) →
  ∃ m' m'' node, doSet zero_of string_len (key_of ts) (VSlice l) false m = Some (Ok m') ∧
    Get zero_of string_len (key_of ts) m' = Some (Ok (m'', node)) ∧ Data node = VSlice l.
Proof.
  intros Hne Hts Hs Hl. destruct (doSet_settable ts (VSlice l) m Hne Hts) as (m' & Hset & Hg);
    [by eapply settable_nil; [|done]|].
  destruct (doGet_spec ts m' Hne Hts) as (m'' & Hget & _). do 3 eexists. split_and!; [done| |].
  - unfold Get. by rewrite Hget Hg.
  - apply (Data_of_input (VSlice l)). by constructor.
Qed.

End Access.

(** Splitting a key and joining its parts gives the key back, but for a backslash at its
    end that nothing follows. *)
Theorem SplitUnescapedDotN_join s n :
  n ≠ 0%Z → join ["."] (SplitUnescapedDotN s n) ++ pending (escape_after false s) = s.
Proof.
  intros Hn. unfold SplitUnescapedDotN. rewrite (proj2 (Z.eqb_neq n 0) Hn). by rewrite split_loop_join.
Qed.

(** Msi returns the map that NewMapX was given, whatever it nests. *)
Theorem NewMapX_Msi {scalar} (m : gmap text (value scalar)) :
  (∀ k v, m !! k = Some v → pure v) → Msi (NewMapX [m]) = m.
Proof.
  intros Hm. unfold Msi, NewMapX, msiToMsn. apply map_eq. intros k. rewrite !lookup_fmap.
  destruct (m !! k) as [v|] eqn:Hk; simpl; [|done]. by rewrite copyVal_node ?nodeToInterface_node; eauto.
Qed.

(** What was set is read again: for every path whose way can hold it, Set does not fail
    and Get of the same key returns data equal to the value. *)
Theorem Set_Get {scalar} (zero_of : scalar → scalar) string_len ts (val : value scalar) m :
  ts ≠ [] → Forall segment ts → settable (VMsn m) (path ts) (prepareInput val) → pure val →
  ∃ m' m'' node, doSet zero_of string_len (key_of ts) val false m = Some (Ok m') ∧
    Get zero_of string_len (key_of ts) m' = Some (Ok (m'', node)) ∧ Data node = contents val.
Proof.
  intros Hne Hts Hs Hp. destruct (doSet_settable zero_of string_len ts val m Hne Hts Hs) as (m' & Hset & Hg).
  destruct (doGet_spec zero_of string_len ts m' Hne Hts) as (m'' & Hget & _).
  exists m', m'', (copyVal (prepareInput val)). split_and!; [done| |by apply Data_of_input].
  unfold Get. by rewrite Hget Hg.
Qed.

(** Set leaves everything alone that a path leads to which parts from its own at a name,
    also when it overwrites, extends slices or creates maps on its way. *)
Theorem Set_frame {scalar} (zero_of : scalar → scalar) string_len ts us (val : value scalar) skip m m' :
  ts ≠ [] → us ≠ [] → Forall segment ts → Forall segment us → diverge (path ts) (path us) →
  doSet zero_of string_len (key_of ts) val skip m = Some (Ok m') →
  ∃ m1 m2 node, Get zero_of string_len (key_of us) m = Some (Ok (m1, node)) ∧
                Get zero_of string_len (key_of us) m' = Some (Ok (m2, node)).
Proof.
  intros Hne Hnu Hts Hus Hd. rewrite doSet_spec //.
  destruct (walk _ _ _ _ _ _) as [[v f]|] eqn:Hw; [|done]. intros [= <-].
  destruct (doGet_spec zero_of string_len us m Hnu Hus) as (m1 & Hm & _).
  destruct (doGet_spec zero_of string_len us (root_of v) Hnu Hus) as (m2 & Hm' & _).
  rewrite -(walk_root _ _ _ _ _ _ _ _ Hw) in Hm'.
  rewrite (walk_frame _ _ _ _ _ _ _ _ _ (parse_segment_range ts) Hw Hd) in Hm'.
  exists m1, m2. eexists. unfold Get. by rewrite Hm Hm'.
Qed.

(** A read finds what its path leads to, or nil, and never panics; it changes at most one
    nil, on its way, into an empty map, and only when it finds nothing. *)
Theorem Get_correct {scalar} (zero_of : scalar → scalar) string_len ts (m : mapx scalar) :
  ts ≠ [] → Forall segment ts →
  ∃ m', Get zero_of string_len (key_of ts) m = Some (Ok (m', copyVal (path_get (VMsn m) (path ts)))) ∧
        filled (VMsn m) (VMsn m') ∧ (path_get (VMsn m) (path ts) ≠ VNil → m' = m).
Proof.
  intros Hne Hts. destruct (doGet_spec zero_of string_len ts m Hne Hts) as (m' & Hget & Hf & Hs).
  exists m'. split_and!; [|done..]. unfold Get. by rewrite Hget.
Qed.

(** Append sets the values where there is nothing, puts them behind the elements of a
    slice and refuses, without a change, every other value. *)
Theorem Append_correct {scalar} (zero_of : scalar → scalar) string_len ts (values : list (value scalar)) m :
  ts ≠ [] → Forall segment ts → (∀ i v, values !! i = Some v → pure v) →
  let found := path_get (VMsn m) (path ts) in
  match found with
  | VNil | VSlice _ =>
      settable (VMsn m) (path ts) (VSlice []) →
      (∀ i v, default [] (Slice found) !! i = Some v → pure v) →
      ∃ m' m'' node, Append zero_of string_len (key_of ts) values m = Some (Ok (m', true)) ∧
        Get zero_of string_len (key_of ts) m' = Some (Ok (m'', node)) ∧
        Data node = VSlice (default [] (Slice found) ++ values)
  | _ => Append zero_of string_len (key_of ts) values m = Some (Ok (m, false))
  end.
Proof.
  intros Hne Hts Hv. simpl. set (found := path_get (VMsn m) (path ts)).
  destruct (Has_spec zero_of string_len ts m Hne Hts) as (m1 & Hhas & Hf & Hsame). fold found in Hhas, Hsame.
  destruct (doGet_spec zero_of string_len ts m Hne Hts) as (m2 & Hget & _ & Hsame'). fold found in Hget, Hsame'.
  unfold Append. rewrite Hhas. destruct found as [|s|l|m0|m0| |m0]; simpl.
  2,4-7: rewrite (Hsame ltac:(done)) Hget (Hsame' ltac:(done)) //.
  - intros Hs _. destruct (set_slice_data zero_of string_len ts values m1 Hne Hts) as (m' & m'' & node & -> & Hg & Hd);
      [by eapply settable_filled | done|]. by exists m', m'', node.
  - intros Hs Hl. rewrite (Hsame ltac:(done)) Hget (Hsame' ltac:(done)). cbn [Slice].
    destruct (set_slice_data zero_of string_len ts ((nodeToInterface <$> l) ++ values) m Hne Hts Hs)
      as (m' & m'' & node & -> & Hg & Hd); [|by exists m', m'', node].
    intros i v [Hi|[_ Hi]]%lookup_app_Some; [by eapply Hl | by eapply Hv].
Qed.

(** A read that finds nothing changes the map: nil under "a" becomes an empty map. *)
Lemma Get_changes_nil {scalar} (zero_of : scalar → scalar) string_len :
  Get zero_of string_len (str "a.b") {[str "a" := VNil]} = Some (Ok ({[str "a" := VMsn ∅]}, VNil)).
Proof. vm_compute. reflexivity. Qed.

(** Set of a path through a scalar does nothing and reports nothing. *)
Lemma Set_through_scalar {scalar} (zero_of : scalar → scalar) string_len s v :
  doSet zero_of string_len (str "a.b") (VScalar v) false {[str "a" := VScalar s]} = Some (Ok {[str "a" := VScalar s]}).
Proof. vm_compute. reflexivity. Qed.

(** Set of nil at an index panics when there is a slice already. *)
Lemma Set_nil_in_slice {scalar} (zero_of : scalar → scalar) string_len v :
  doSet zero_of string_len (str "a[0]") VNil false {[str "a" := VSlice [VScalar v]]} = Some (Err ReflectPanic).
Proof. vm_compute. reflexivity. Qed.

(** A map that is set behind the end of a slice leaves nil maps in between, and a Set into
    one of them panics. *)
Lemma Set_in_gap {scalar} (zero_of : scalar → scalar) string_len v :
  ∃ m, doSet zero_of string_len (str "a[2]") (VMsi ∅) false {[str "a" := VSlice [VScalar v]]} = Some (Ok m) ∧
       doSet zero_of string_len (str "a[1].b") (VScalar v) false m = Some (Err NilMap).
Proof. eexists. split; vm_compute; reflexivity. Qed.

(** EscapeDots does not escape backslashes, so a text with one before a dot is still
    split there. *)
Lemma EscapeDots_backslash :
  SplitUnescapedDotN (EscapeDots (str "a\.b")) (-1) = [str "a\\"; str "b"].
Proof. vm_compute. reflexivity. Qed.

(** Without a backslash, a text that is escaped is one part. *)
Theorem EscapeDots_one_part s n :
  n ≠ 0%Z → "\" ∉ s → SplitUnescapedDotN (EscapeDots s) n = [EscapeDots s].
Proof.
  intros Hn Hs. unfold SplitUnescapedDotN. rewrite (proj2 (Z.eqb_neq n 0) Hn).
  destruct (split_loop_scan (EscapeDots s) [] n [] [] false false (EscapeDots_scan s Hs)) as (c & Hc & He).
  rewrite app_nil_r in Hc. rewrite Hc /=. by rewrite app_nil_r in He; subst.
Qed.

(** A key is split into at most [n] parts and into one at least. *)
Theorem SplitUnescapedDotN_length s n :
  (0 < n)%Z → (1 ≤ Z.of_nat (length (SplitUnescapedDotN s n)) ≤ n)%Z.
Proof.
  intros Hn. unfold SplitUnescapedDotN. rewrite (proj2 (Z.eqb_neq n 0)); [lia|].
  destruct (split_loop_length s n [] [] false) as [Hlt Hle]. simpl in *. specialize (Hle Hn Hn). lia.
Qed.

(** ** Samples *)
Definition sample_map : mapx Z :=
  NewMapX [{[str "a" := VMsi {[str "b" := VScalar 1%Z]}; str "l" := VSlice [VScalar 2%Z; VNil]; str "n" := VNil]}].
Definition no_len (z : Z) : option nat := None.
Definition zero_Z_of (z : Z) : Z := 0%Z.
Definition sample_path : list text := [str "l[3]"; str "c\.d"; str "e"].

(** As in map_test.go: slices grow with zero values and with maps. *)
Example set_grows :
  (doSet zero_Z_of no_len (str "l[4]") (VScalar 9%Z) false sample_map,
   doSet zero_Z_of no_len (str "x[1].b") (VScalar 1%Z) false ∅) =
  (Some (Ok (<[str "l" := VSlice [VScalar 2%Z; VNil; VScalar 0%Z; VScalar 0%Z; VScalar 9%Z]]> sample_map)),
   Some (Ok {[str "x" := VSlice [VMsn ∅; VMsn {[str "b" := VScalar 1%Z]}]]})).
Proof. vm_compute. reflexivity. Qed.

Lemma sample_segments : Forall segment sample_path.
Proof. by repeat constructor. Qed.

Lemma SplitUnescapedDotN_join_witness :
  join ["."] (SplitUnescapedDotN (str "a\.b.c\") (-1)) ++ ["\"] = str "a\.b.c\".
Proof. apply (SplitUnescapedDotN_join (str "a\.b.c\") (-1)). done. Defined.

Lemma SplitUnescapedDotN_length_witness :
  (1 ≤ Z.of_nat (length (SplitUnescapedDotN (str "a.b.c") 2)) ≤ 2)%Z.
Proof. apply (SplitUnescapedDotN_length (str "a.b.c") 2). done. Defined.

Lemma EscapeDots_one_part_witness : SplitUnescapedDotN (EscapeDots (str "a.b.c")) (-1) = [str "a\.b\.c"].
Proof. apply (EscapeDots_one_part (str "a.b.c") (-1)); [done | set_solver]. Defined.

Lemma Set_Get_witness :
  ∃ m' m'' node, doSet zero_Z_of no_len (str "l[3].c\.d.e") (VSlice [VScalar 5%Z]) false sample_map = Some (Ok m') ∧
    Get zero_Z_of no_len (str "l[3].c\.d.e") m' = Some (Ok (m'', node)) ∧ Data node = VSlice [VScalar 5%Z].
Proof.
  apply (Set_Get zero_Z_of no_len sample_path); [done | apply sample_segments | by vm_compute |].
  constructor. intros [|i] v; [intros [= <-]; constructor | done].
Defined.

Lemma Set_frame_witness :
  ∃ m1 m2 node, Get zero_Z_of no_len (str "a.b") sample_map = Some (Ok (m1, node)) ∧
    Get zero_Z_of no_len (str "a.b") (<[str "l" := VSlice [VScalar 7%Z; VNil]]> sample_map) = Some (Ok (m2, node)).
Proof.
  apply (Set_frame zero_Z_of no_len [str "l[0]"] [str "a"; str "b"] (VScalar 7%Z) false sample_map);
    [done | done | by repeat constructor | by repeat constructor | left; vm_compute; done | vm_compute; reflexivity].
Defined.

Lemma Get_correct_witness :
  ∃ m', Get zero_Z_of no_len (str "l[0]") sample_map = Some (Ok (m', VScalar 2%Z)) ∧
        filled (VMsn sample_map) (VMsn m') ∧ (VScalar 2%Z ≠ VNil → m' = sample_map).
Proof. apply (Get_correct zero_Z_of no_len [str "l[0]"] sample_map); [done | by repeat constructor]. Defined.

Lemma Append_correct_witness :
  ∃ m' m'' node, Append zero_Z_of no_len (str "l") [VScalar 3%Z] sample_map = Some (Ok (m', true)) ∧
    Get zero_Z_of no_len (str "l") m' = Some (Ok (m'', node)) ∧ Data node = VSlice [VScalar 2%Z; VNil; VScalar 3%Z].
Proof.
  refine (Append_correct zero_Z_of no_len [str "l"] [VScalar 3%Z] sample_map _ _ _ _ _); [done | by repeat constructor | | by left |].
  - intros [|i] v; [intros [= <-]; constructor | done].
  - intros [|[|i]] v; [intros [= <-]; constructor.. | done].
Defined.

Lemma NewMapX_Msi_witness :
  Msi (NewMapX [{[str "a" := VMsi {[str "b" := VScalar 1%Z]}]}]) = {[str "a" := VMsi {[str "b" := VScalar 1%Z]}]}.
Proof.
  apply (NewMapX_Msi {[str "a" := VMsi {[str "b" := VScalar 1%Z]}]}).
  intros k v [_ <-]%lookup_singleton_Some. constructor. intros k' v' [_ <-]%lookup_singleton_Some. constructor.
Defined.
