(* ===== verification/DdbBatch.v ===== *)
(** Reads and writes of many items in DynamoDB: queries and scans page by page with
    pkg/ddb/page_iterator.go, and the batch operations of pkg/ddb/repository.go.  The
    client is a parameter; its laws are the documented ones: a page starts where the last
    one ended, holds the items that pass the filter, and names the key to go on from; a
    batch leaves some of its keys or requests unprocessed. *)
From S2P Require Import Prelude Exec Dynamo.

(** ** Pages *)
Module Pages.

(** The conversion of an int to an int32, and int32 arithmetic. *)
Definition int32 (z : Z) : Z := ((z + 2 ^ 31) mod 2 ^ 32 - 2 ^ 31)%Z.

(** [pkg/ddb/page_iterator.go:5-9] pageIterator *)
Record pageIterator := { limit : option Z; size : option Z; count : Z }.

(** [pkg/ddb/page_iterator.go:40-56] buildPageIterator: [None] for the panic of a nil size, which does
    not happen *)
Definition buildPageIterator (limit size : option Z) : pageIterator :=
  let size := match limit, size with Some l, None => Some l | _, _ => size end in
  let size := match limit, size with Some l, Some s => if (l <? s)%Z then limit else size | _, _ => size end in
  {| limit := limit; size := size; count := 0 |}.

(** [pkg/ddb/page_iterator.go:11-17] isDone *)
Definition isDone (p : pageIterator) : bool :=
  match limit p with None => false | Some l => (l =? count p)%Z end.

(** [pkg/ddb/page_iterator.go:19-38] advance: the size of the next page *)
Definition advance (n : Z) (p : pageIterator) : pageIterator * option Z :=
  let p := {| limit := limit p; size := size p; count := int32 (count p + n) |} in
  match limit p, size p with
  | None, s => (p, s)
  | Some l, s =>
      let remaining := int32 (l - count p) in
      let next := default 0%Z s in
      (p, Some (if (remaining <? next)%Z then remaining else next))
  end.

Section Pages.
Context {W I K A : Type}.

(** What the client answers: the items may be nil. *)
Record page := { Items : option (list I); Count : Z; ScannedCount : Z; LastEvaluatedKey : option K }.

Context (client_Query : option Z → option K → W → W * result error page).
Context (unmarshal : I → result error A).

(** [pkg/ddb/unmarshal.go:49-80] Unmarshaller.Append and Unmarshal: every item or an error *)
Fixpoint unmarshal_all (items : list I) : result error (list A) :=
  match items with
  | [] => Ok []
  | x :: items => let! a := unmarshal x in let! l := unmarshal_all items in Ok (a :: l)
  end.

(** The counters of the result, the input that changes from page to page, and the
    iterator of an operation. *)
Record operation := {
  iterator : pageIterator;
  input_Limit : option Z;
  ExclusiveStartKey : option K;
  RequestCount : Z;
  ItemCount : Z;
  op_ScannedCount : Z
}.

(** The part of the input of an operation that changes, for its first page. *)
Definition first_page (p : pageIterator) (input_Limit : option Z) : operation :=
  {| iterator := p; input_Limit := input_Limit; ExclusiveStartKey := None;
     RequestCount := 0; ItemCount := 0; op_ScannedCount := 0 |}.

(** [pkg/ddb/builder_query.go:189-248] queryBuilder.Build: the limit is the size of the iterator *)
Definition query_Build (limit size : option Z) : operation :=
  let progress := buildPageIterator limit size in first_page progress (Pages.size progress).

(** [pkg/ddb/builder_scan.go:112-145] scanBuilder.Build: the limit is the one of the builder *)
Definition scan_Build (limit size : option Z) : operation :=
  let progress := buildPageIterator limit size in first_page progress limit.

(** [pkg/ddb/repository.go:540-576] doQuery, and doScan (657-693), which does not wrap other errors *)
Definition doQuery (wrap : error → error) (op : operation) (w : W) :
    W * operation * result error (option (list I) * option K) :=
  if isDone (iterator op) then (w, op, Ok (None, None))
  else
    match client_Query (input_Limit op) (ExclusiveStartKey op) w with
    | (w, Err err) =>
        (w, op, Err (if request_canceled err then EValue RequestCanceledError
                     else if errors_Is TableNotFoundException err then EWrapped "table not found" err
                     else wrap err))
    | (w, Ok out) =>
        let '(p, next) := advance (Count out) (iterator op) in
        (w, {| iterator := p; input_Limit := next; ExclusiveStartKey := LastEvaluatedKey out;
               RequestCount := int32 (RequestCount op + 1); ItemCount := int32 (ItemCount op + Count out);
               op_ScannedCount := int32 (op_ScannedCount op + ScannedCount out) |},
         Ok (Items out, LastEvaluatedKey out))
    end.

(** [pkg/ddb/repository.go:719-748] readAll: the items read so far stay in the caller's slice; [None] when
    the fuel does not last *)
Fixpoint readAll (fuel : nat) (wrap : error → error) (op : operation) (w : W) (acc : list A) :
    option (W * operation * list A * option error) :=
  match fuel with
  | 0 => None
  | S fuel =>
      match doQuery wrap op w with
      | (w, op, Err err) => Some (w, op, acc, Some (EWrapped "could not execute read operation" err))
      | (w, op, Ok (None, _)) => Some (w, op, acc, None)
      | (w, op, Ok (Some items, last)) =>
          match unmarshal_all items with
          | Err err => Some (w, op, acc, Some (EWrapped "could not unmarshal items after Query operation" err))
          | Ok l =>
              match last with
              | None => Some (w, op, acc ++ l, None)
              | Some _ => readAll fuel wrap op w (acc ++ l)
              end
          end
      end
  end.

(** The errors of the callback, as multierror.Append collects them. *)
Definition collected (errs : list error) : option error := if decide (errs = []) then None else Some (EMulti errs).

(** [pkg/ddb/repository.go:750-789] readCallback, for a callback with a state *)
Fixpoint readCallback {C} (fuel : nat) (wrap : error → error)
    (callback : list A → operation → C → C * (bool * option error)) (op : operation) (w : W) (c : C) (errs : list error) :
    option (W * operation * C * option error) :=
  match fuel with
  | 0 => None
  | S fuel =>
      match doQuery wrap op w with
      | (w, op, Err err) => Some (w, op, c, Some (EWrapped "could not execute read operation" err))
      | (w, op, Ok (items, last)) =>
          if length (default [] items) =? 0 then Some (w, op, c, collected errs)
          else
            match unmarshal_all (default [] items) with
            | Err err => Some (w, op, c, Some (EWrapped "could not unmarshal items after read operation" err))
            | Ok l =>
                match callback l op c with
                | (c, (false, None)) => Some (w, op, c, None)
                | (c, (_, err)) =>
                    let errs := errs ++ option_list err in
                    match last with
                    | None => Some (w, op, c, collected errs)
                    | Some _ => readCallback fuel wrap callback op w c errs
                    end
                end
            end
      end
  end.
End Pages.
Arguments page : clear implicits.
Arguments operation : clear implicits.

(** ** The documented behaviour of queries *)

(** A client that answers for [rows], the items under the key condition in their order,
    with the filter [keep]; [pos k] is the number of rows up to the key [k].  A page is a
    part of the rows not longer than the limit, without the rows that do not pass; its key
    is nil only behind the last row. *)
Record QueryLaws {W I K} (client : option Z → option K → W → W * result error (page I K)) (rows : list I)
    (keep : I → bool) (pos : K → nat) : Prop := {
  query_page limit start w w' p :
    client limit start w = (w', Ok p) →
    let from := from_option pos 0 start in
    ∃ n, Items p = Some (List.filter keep (take n (drop from rows))) ∧
         Count p = Z.of_nat (length (List.filter keep (take n (drop from rows)))) ∧
         (∀ l, limit = Some l → (Z.of_nat n ≤ l)%Z) ∧
         match LastEvaluatedKey p with
         | None => length rows ≤ from + n
         | Some k => pos k = from + n ∧ 0 < n ∧ from + n ≤ length rows
         end
}.

Section Lemmas.
Context {W I K A : Type} (client : option Z → option K → W → W * result error (page I K)).
Context (unmarshal : I → result error A) (rows : list I) (keep : I → bool) (pos : K → nat).
Context (laws : QueryLaws client rows keep pos).
Implicit Types (op : operation K) (w : W).

(** What a query without errors returns: the rows that pass, up to the limit. *)
Definition expected (limit : option Z) : list I :=
  match limit with
  | None => List.filter keep rows
  | Some l => take (Z.to_nat l) (List.filter keep rows)
  end.

Definition passed (from : nat) : list I := List.filter keep (take from rows).

(** The invariant of the pages: the iterator counts what was read, and the next page
    asks for no more than what is left. *)
Definition paging (limit : option Z) (op : operation K) : Prop :=
  let from := from_option pos 0 (ExclusiveStartKey op) in
  Pages.limit (iterator op) = limit ∧ from ≤ length rows ∧
  match limit with
  | None => True
  | Some l =>
      (∃ s, size (iterator op) = Some s ∧ (s ≤ l)%Z) ∧ count (iterator op) = Z.of_nat (length (passed from)) ∧
      (count (iterator op) ≤ l)%Z ∧
      (∃ s, input_Limit op = Some s ∧ (s ≤ l - count (iterator op))%Z)
  end.

Lemma int32_id z : (- 2 ^ 31 ≤ z < 2 ^ 31)%Z → int32 z = z.
Proof. intros Hz. unfold int32. rewrite Z.mod_small; lia. Qed.

Lemma passed_step from n :
  from ≤ length rows → passed (from + n) = passed from ++ List.filter keep (take n (drop from rows)).
Proof.
  intros Hf. unfold passed. rewrite -List.filter_app. f_equal. by rewrite take_take_drop.
Qed.

Lemma passed_all from : length rows ≤ from → passed from = List.filter keep rows.
Proof. intros H. unfold passed. by rewrite take_ge. Qed.

Lemma passed_prefix from : passed from `prefix_of` List.filter keep rows.
Proof. exists (List.filter keep (drop from rows)). unfold passed. by rewrite -List.filter_app take_drop. Qed.

Lemma query_paging limit size :
  (∀ l, limit = Some l → (0 ≤ l)%Z) → paging limit (query_Build limit size).
Proof.
  intros Hl. unfold paging, query_Build, first_page, buildPageIterator. simpl. split_and!; [done | lia |].
  destruct limit as [l|]; [|done]. specialize (Hl l eq_refl).
  destruct size as [s|]; simpl; [destruct (Z.ltb_spec l s) | rewrite Z.ltb_irrefl];
    (split_and!; [eexists; split; [done|lia] | done | done | eexists; split; [done | lia]]).
Qed.

Lemma scan_paging limit size :
  (∀ l, limit = Some l → (0 ≤ l)%Z) → paging limit (scan_Build limit size).
Proof.
  intros Hl. destruct (query_paging limit size Hl) as (_ & _ & H). split_and!; [done | simpl; lia |].
  destruct limit as [l|]; [|done]. destruct H as (Hsize & Hcount & Hle & _). split_and!; [exact Hsize | exact Hcount | exact Hle |].
  exists l. split; [done | simpl; lia].
Qed.

Lemma length_filter_le (l : list I) : length (List.filter keep l) ≤ length l.
Proof. induction l as [|x l IH]; simpl; [done|]. destruct (keep x); simpl; lia. Qed.

(** A page of a query that is not done. *)
Lemma doQuery_page limit wrap op w w' op' items last :
  paging limit op → (∀ l, limit = Some l → (0 ≤ l < 2 ^ 31)%Z) →
  doQuery client wrap op w = (w', op', Ok (items, last)) →
  let from := from_option pos 0 (ExclusiveStartKey op) in
  (∃ l, limit = Some l ∧ l = count (iterator op) ∧ items = None ∧ op' = op) ∨
  ∃ n, items = Some (List.filter keep (take n (drop from rows))) ∧
       match last with
       | None => length rows ≤ from + n ∧ (∀ l, limit = Some l → (Z.of_nat (length (passed (from + n))) ≤ l)%Z)
       | Some k => pos k = from + n ∧ 0 < n ∧ paging limit op' ∧ ExclusiveStartKey op' = Some k
       end.
Proof.
  intros (Hlim & Hfrom & Hpag) Hl. unfold doQuery.
  destruct (isDone (iterator op)) eqn:Hd.
  { intros [= <- <- <- <-]. left. unfold isDone in Hd. rewrite Hlim in Hd. destruct limit as [l|]; [|done].
    apply Z.eqb_eq in Hd. by exists l. }
  destruct (client _ _ w) as [w1 [p|e]] eqn:Hc; [|done].
  destruct (query_page _ _ _ _ laws _ _ _ _ _ Hc) as (n & Hi & Hn & Hlen & Hlast).
  destruct (advance (Count p) (iterator op)) as [it next] eqn:Ha. intros [= <- <- <- <-]. right. exists n. split; [done|].
  set (from := from_option pos 0 (ExclusiveStartKey op)) in *.
  pose proof (passed_step from n Hfrom) as Hpass.
  pose proof (length_filter_le (take n (drop from rows))) as Hle. rewrite length_take in Hle.
  assert (Hlimit : ∀ l, limit = Some l →
    (Z.of_nat (length (passed (from + n))) ≤ l)%Z ∧ count it = Z.of_nat (length (passed (from + n))) ∧
    (∃ s, next = Some s ∧ (s ≤ l - count it)%Z)).
  { intros l ->. specialize (Hl l eq_refl). destruct Hpag as ((s & Hs & Hsl) & Hcount & Hcl & (s' & Hs' & Hsl')).
    specialize (Hlen s' Hs'). unfold advance in Ha. rewrite Hlim Hs in Ha. simpl in Ha.
    rewrite Hpass length_app. rewrite Hn in Ha.
    rewrite (int32_id (count (iterator op) + _)) in Ha; [lia|]. simplify_eq/=.
    split_and!; [lia | lia|]. rewrite int32_id; [lia|].
    destruct (Z.ltb_spec (l - (count (iterator op) + Z.of_nat (length (List.filter keep (take n (drop from rows)))))) s);
      (eexists; split; [done|]); lia. }
  assert (Hit : Pages.limit it = limit ∧ size it = size (iterator op)).
  { unfold advance in Ha. destruct (Pages.limit (iterator op)) eqn:Hx; simplify_eq/=; by rewrite ?Hx ?Hlim. }
  destruct Hit as [Hit1 Hit2].
  destruct (LastEvaluatedKey p) as [k|].
  - destruct Hlast as (Hk & Hn0 & Hbound). split_and!; [done..| |done].
    split_and!; simpl; [done | by rewrite Hk|]. destruct limit as [l|]; [|done].
    destruct (Hlimit l eq_refl) as (H1 & H2 & H3). destruct Hpag as (Hsize & _). rewrite Hk.
    split_and!; [by rewrite Hit2 | done | lia | done].
  - split; [done|]. intros l Hl'. by apply Hlimit.
Qed.

Lemma passed_expected limit from :
  (∀ l, limit = Some l → (Z.of_nat (length (passed from)) ≤ l)%Z) → passed from `prefix_of` expected limit.
Proof.
  intros Hl. destruct (passed_prefix from) as [r Hr]. unfold expected. destruct limit as [l|]; [|by exists r].
  specialize (Hl l eq_refl). exists (take (Z.to_nat l - length (passed from)) r).
  by rewrite Hr take_app take_ge; [lia|].
Qed.

(** The end of the pages: all of the rows, or as many as asked for. *)
Lemma passed_expected_eq limit from :
  (∀ l, limit = Some l → (Z.of_nat (length (passed from)) ≤ l)%Z) →
  length rows ≤ from ∨ limit = Some (Z.of_nat (length (passed from))) → passed from = expected limit.
Proof.
  intros Hl [Hf | ->]; unfold expected.
  - rewrite passed_all in Hl |- *; [done..|]. destruct limit as [l|]; [|done].
    specialize (Hl l eq_refl). by rewrite take_ge; [lia|].
  - destruct (passed_prefix from) as [r ->]. by rewrite Nat2Z.id take_app_length.
Qed.

Lemma paging_limit limit op :
  paging limit op → ∀ l, limit = Some l → (Z.of_nat (length (passed (from_option pos 0%nat (ExclusiveStartKey op)))) ≤ l)%Z.
Proof. intros (_ & _ & H) l ->. destruct H as (_ & Hc & Hl & _). lia. Qed.

Lemma unmarshal_all_app l1 l2 :
  unmarshal_all unmarshal (l1 ++ l2) =
  let! a := unmarshal_all unmarshal l1 in let! b := unmarshal_all unmarshal l2 in Ok (a ++ b).
Proof.
  induction l1 as [|x l1 IH]; simpl; [by destruct (unmarshal_all _ l2)|].
  destruct (unmarshal x); simpl; [|done]. rewrite IH. by destruct (unmarshal_all _ l1), (unmarshal_all _ l2).
Qed.

(** What readAll has done when it ends. *)
Definition read_result (limit : option Z) (r : W * operation K * list A * option error) : Prop :=
  let '(_, _, items, err) := r in
  (∃ l, l `prefix_of` expected limit ∧ unmarshal_all unmarshal l = Ok items) ∧
  (err = None → unmarshal_all unmarshal (expected limit) = Ok items).

Definition next_row (op : operation K) : nat := from_option pos 0 (ExclusiveStartKey op).

(** What a page without error adds to the items [acc] read so far. *)
Lemma page_cases limit wrap op w w' op' items last acc :
  paging limit op → (∀ l, limit = Some l → (0 ≤ l < 2 ^ 31)%Z) →
  unmarshal_all unmarshal (passed (next_row op)) = Ok acc → doQuery client wrap op w = (w', op', Ok (items, last)) →
  (items = None ∧ unmarshal_all unmarshal (expected limit) = Ok acc) ∨
  ∃ part, items = Some (List.filter keep part) ∧
    (part = [] → unmarshal_all unmarshal (expected limit) = Ok acc) ∧
    ∀ l, unmarshal_all unmarshal (List.filter keep part) = Ok l →
      match last with
      | None => unmarshal_all unmarshal (expected limit) = Ok (acc ++ l)
      | Some _ => paging limit op' ∧ unmarshal_all unmarshal (passed (next_row op')) = Ok (acc ++ l) ∧
                  next_row op < next_row op' ≤ length rows
      end.
Proof.
  intros Hp Hl Hacc Hq. pose proof (paging_limit _ _ Hp) as Hpl. fold (next_row op) in Hpl.
  destruct (doQuery_page _ _ _ _ _ _ _ _ Hp Hl Hq) as [(l & -> & Hlc & -> & ->) | (n & -> & Hlast)];
    fold (next_row op) in *; [left | right].
  { split; [done|]. rewrite <- (passed_expected_eq _ (next_row op)); [done..|].
    right. destruct Hp as (_ & _ & _ & Hc & _). by rewrite Hlc Hc. }
  pose proof (passed_step (next_row op) n (proj1 (proj2 Hp))) as Hstep.
  eexists. split; [done|]. split.
  { intros H0. rewrite <- (passed_expected_eq _ (next_row op)); [done..|]. left.
    apply (f_equal length) in H0. rewrite length_take length_drop /= in H0. destruct last; [|lia].
    destruct Hlast as (_ & Hn & _). lia. }
  intros l Hu.
  assert (Hacc' : unmarshal_all unmarshal (passed (next_row op + n)) = Ok (acc ++ l)).
  { by rewrite Hstep unmarshal_all_app Hacc /= Hu. }
  destruct last as [k|].
  - destruct Hlast as (Hk & Hn & Hp' & Hstart). pose proof (proj1 (proj2 Hp')) as Hb.
    assert (Hr : next_row op' = next_row op + n) by (unfold next_row at 1; by rewrite Hstart).
    fold (next_row op') in Hb. rewrite Hr in Hb |- *. split_and!; [done..|lia|lia].
  - destruct Hlast as (Hend & Hend'). rewrite <- (passed_expected_eq _ (next_row op + n)); [done..|by left].
Qed.

Lemma read_prefix limit op acc w op' e :
  paging limit op → unmarshal_all unmarshal (passed (next_row op)) = Ok acc →
  read_result limit (w, op', acc, Some e).
Proof.
  intros Hp Hacc. split; [|done]. exists (passed (next_row op)).
  split; [by apply passed_expected, paging_limit | done].
Qed.

Lemma readAll_pages limit wrap fuel op w acc :
  paging limit op → (∀ l, limit = Some l → (0 ≤ l < 2 ^ 31)%Z) →
  unmarshal_all unmarshal (passed (next_row op)) = Ok acc → length rows - next_row op < fuel →
  ∃ r, readAll client unmarshal fuel wrap op w acc = Some r ∧ read_result limit r.
Proof.
  revert op w acc. induction fuel as [|fuel IH]; intros op w acc Hp Hl Hacc Hfuel; [lia|]. simpl.
  destruct (doQuery client wrap op w) as [[w' op'] [[items last]|e]] eqn:Hq;
    [|eexists; split; [done | by apply (read_prefix _ op)]].
  destruct (page_cases _ _ _ _ _ _ _ _ _ Hp Hl Hacc Hq) as [(-> & Hend) | (part & -> & _ & Hnext)].
  { eexists. split; [done|]. split; [by eexists | done]. }
  case Hu: (unmarshal_all unmarshal _) => [l|e]; [|eexists; split; [done | by apply (read_prefix _ op)]].
  specialize (Hnext l Hu). destruct last as [k|]; [apply IH; [naive_solver.. | lia]|].
  eexists. split; [done|]. split; [by eexists | done].
Qed.

(** C18: A query and a scan without a callback end after at most one request per row and one
    more, for every size of the pages and no limit or one from 0 to the maximum of an int32.
    When they report no error the caller's slice holds the items under the key condition (of
    a scan, all of them) that pass the filter, in their order, or as many of them as the
    limit asks for; every item is there once, wherever the pages end and however many of the
    rows of a page the filter drops. When they report an error the slice holds the first of
    these items. *)
Theorem readAll_correct (limit size : option Z) wrap fuel w
    (Hlimit : ∀ l, limit = Some l → (0 ≤ l < 2 ^ 31)%Z) (Hfuel : length rows < fuel) :
  (∃ r, readAll client unmarshal fuel wrap (query_Build limit size) w [] = Some r ∧ read_result limit r) ∧
  (∃ r, readAll client unmarshal fuel wrap (scan_Build limit size) w [] = Some r ∧ read_result limit r).
Proof.
  split; (apply readAll_pages; [|done|done|simpl; lia]);
    [apply query_paging; naive_solver lia | apply scan_paging; naive_solver lia].
Qed.

(** A callback that records the items and goes on. *)
Definition record (items : list A) (_ : operation K) (c : list A) : list A * (bool * option error) :=
  (c ++ items, (true, None)).

Lemma filter_full (l : list I) : (∀ x, keep x = true) → List.filter keep l = l.
Proof. intros Hk. induction l as [|x l IH]; simpl; [done|]. by rewrite Hk IH. Qed.

Lemma readCallback_pages limit wrap fuel op w acc :
  (∀ x, keep x = true) → paging limit op → (∀ l, limit = Some l → (0 ≤ l < 2 ^ 31)%Z) →
  unmarshal_all unmarshal (passed (next_row op)) = Ok acc → length rows - next_row op < fuel →
  ∃ r, readCallback client unmarshal fuel wrap record op w acc [] = Some r ∧ read_result limit r.
Proof.
  intros Hkeep. revert op w acc. induction fuel as [|fuel IH]; intros op w acc Hp Hl Hacc Hfuel; [lia|]. simpl.
  destruct (doQuery client wrap op w) as [[w' op'] [[items last]|e]] eqn:Hq;
    [|eexists; split; [done | by apply (read_prefix _ op)]].
  destruct (page_cases _ _ _ _ _ _ _ _ _ Hp Hl Hacc Hq) as [(-> & Hend) | (part & -> & Hempty & Hnext)].
  { eexists. split; [done|]. split; [by eexists | done]. }
  rewrite filter_full // in Hnext |- *. simpl.
  destruct (Nat.eqb_spec (length part) 0) as [H0|H0].
  { eexists. split; [done|]. apply nil_length_inv in H0. split; [by eexists; eauto | auto]. }
  case Hu: (unmarshal_all unmarshal _) => [l|e]; [|eexists; split; [done | by apply (read_prefix _ op)]].
  specialize (Hnext l Hu). destruct last as [k|]; [apply IH; [naive_solver.. | lia]|].
  eexists. split; [done|]. split; [by eexists | done].
Qed.

(** Without a filter a query with a callback hands it the same items: all under the key
    condition or as many as the limit asks for, each once and in their order. *)
Theorem readCallback_correct (limit size : option Z) wrap fuel w
    (Hkeep : ∀ x, keep x = true) (Hlimit : ∀ l, limit = Some l → (0 ≤ l < 2 ^ 31)%Z) (Hfuel : length rows < fuel) :
  ∃ r, readCallback client unmarshal fuel wrap record (query_Build limit size) w [] [] = Some r ∧ read_result limit r.
Proof. apply readCallback_pages; [done | apply query_paging; naive_solver lia | done | done | simpl; lia]. Qed.
End Lemmas.

(** *** Samples *)
Module Samples.

Definition rows : list nat := [1; 2; 3; 4; 5; 6; 7].

(** A client that evaluates at most two rows for a page, and counts the requests. *)
Definition client (keep : nat → bool) (limit : option Z) (start : option nat) (w : nat) : nat * result error (page nat nat) :=
  let from := from_option id 0 start in
  if decide (default 1%Z limit < 1)%Z then (S w, Err (EValue 7))
  else
    let n := Nat.min 2 (Z.to_nat (default 2%Z limit)) in
    let items := List.filter keep (take n (drop from rows)) in
    (S w, Ok {| Items := Some items; Count := Z.of_nat (length items); ScannedCount := Z.of_nat n;
                LastEvaluatedKey := if decide (from + n ≤ length rows) then Some (from + n) else None |}).

Lemma client_laws keep : QueryLaws (client keep) rows keep id.
Proof.
  split. intros limit start w w' p. unfold client. set (from := from_option id 0 start).
  destruct (decide (default 1%Z limit < 1)%Z) as [|Hl]; [done|].
  set (n := Nat.min 2 (Z.to_nat (default 2%Z limit))). intros [= <- <-]. exists n. simpl.
  assert (Hn : 0 < n ∧ ∀ l, limit = Some l → (Z.of_nat n ≤ l)%Z).
  { unfold n. destruct limit as [l|]; cbn [default from_option id] in *; [|split; [lia|done]].
    split; [lia|]. intros ? [= <-]. lia. }
  split_and!; [done | done | apply Hn |]. case_decide; [|lia]. split_and!; [done | apply Hn | done].
Qed.

Definition unmarshal (x : nat) : result error nat := Ok (x * 10).
Definition late (x : nat) : bool := 4 <? x.

Definition all_fit (limit : option Z) (l : Z) : limit = Some 5%Z → limit = Some l → (0 ≤ l < 2 ^ 31)%Z.
Proof. intros -> [= <-]. lia. Qed.

(** Two pages are empty after the filter; the limit is reached in the middle of a page. *)
Example readAll_sample :
  (λ r, (snd (fst r), snd r)) <$>
    readAll (client late) unmarshal 8 (EWrapped "query") (query_Build (Some 2%Z) None) 0 [] = Some ([50; 60], None).
Proof. by vm_compute. Qed.

Lemma readAll_correct_witness :
  (∃ r, readAll (client late) unmarshal 8 (EWrapped "query") (query_Build (Some 5%Z) (Some 3%Z)) 0 [] = Some r ∧
        read_result unmarshal rows late (Some 5%Z) r) ∧
  (∃ r, readAll (client late) unmarshal 8 (EWrapped "query") (scan_Build (Some 5%Z) (Some 3%Z)) 0 [] = Some r ∧
        read_result unmarshal rows late (Some 5%Z) r).
Proof.
  apply (readAll_correct (client late) unmarshal rows late id (client_laws late) (Some 5%Z) (Some 3%Z));
    [intros l Hl; by apply (all_fit (Some 5%Z)) | vm_compute; lia].
Defined.

Lemma readCallback_correct_witness :
  ∃ r, readCallback (client (λ _, true)) unmarshal 8 (EWrapped "query") record (query_Build (Some 5%Z) (Some 3%Z)) 0 [] [] = Some r ∧
       read_result unmarshal rows (λ _, true) (Some 5%Z) r.
Proof.
  apply (readCallback_correct (client (λ _, true)) unmarshal rows (λ _, true) id (client_laws _) (Some 5%Z) (Some 3%Z));
    [done | intros l Hl; by apply (all_fit (Some 5%Z)) | vm_compute; lia].
Defined.

(** With a filter a query with a callback ends at the first page whose rows the filter
    drops, without an error, although the client named a key to go on from: the items
    behind it never reach the callback. *)
Lemma readCallback_stops_early :
  (λ r, (snd (fst r), snd r)) <$>
    readCallback (client late) unmarshal 8 (EWrapped "query") record (query_Build None None) 0 [] [] = Some ([], None) ∧
  unmarshal_all unmarshal (expected rows late None) = Ok [50; 60; 70].
Proof. by vm_compute. Qed.

(** A callback that fails on its first page and asks to stop on its second, without an
    error: the error of the first is dropped. *)
Definition stopping (items : list nat) (_ : operation nat) (c : nat) : nat * (bool * option error) :=
  (S c, if c =? 0 then (true, Some (EValue 9)) else (false, None)).

Lemma readCallback_drops_errors :
  (λ r, (snd (fst r), snd r)) <$>
    readCallback (client (λ _, true)) unmarshal 8 (EWrapped "query") stopping (query_Build None None) 0 0 [] = Some (2, None).
Proof. by vm_compute. Qed.

End Samples.
End Pages.

(** ** Batches *)
Module Batch.
Import Pages.

(** [pkg/ddb/reflect.go:48-62] chunk: its loop from an index *)
Fixpoint chunk_from {X} (fuel : nat) (batch : list X) (size i : nat) : list (list X) :=
  match fuel with
  | 0 => []
  | S fuel =>
      if i <? length batch
      then let e := if length batch <? i + size then length batch else i + size in
           take (e - i) (drop i batch) :: chunk_from fuel batch size (i + size)
      else []
  end.

(** [pkg/ddb/reflect.go:48-62] chunk; a round per item is enough for a positive size *)
Definition chunk {X} (batch : list X) (size : nat) : list (list X) := chunk_from (length batch) batch size 0.

Section Get.
Context {W I K A : Type}.

(** The client for one table: the items it found and its unprocessed keys, if it has
    some. *)
Context (client_BatchGetItem : list K → W → W * result error (list I * option (list K))).
Context (unmarshal : I → result error A) (Now : W → Z).

(** The time to live of an item, where the table has one and its filter is not disabled;
    an item without the attribute has the time to live 0. *)
Context (ttl : option (I → result error Z)).

(** [pkg/ddb/expr_filter.go:50-68] filterBuilder.PerformFilterCondition *)
Definition PerformFilterCondition (now : Z) (item : I) : result error bool :=
  match ttl with
  | None => Ok true
  | Some ttl_of => let! t := ttl_of item in Ok (Unix now <? t)%Z
  end.

(** [pkg/ddb/repository.go:200-222] filterResponses *)
Fixpoint filterResponses (now : Z) (responses : list I) : result error (list I) :=
  match responses with
  | [] => Ok []
  | response :: responses =>
      match PerformFilterCondition now response with
      | Err err => Err (EWrapped "could not perform filter condition" err)
      | Ok keep => let! l := filterResponses now responses in Ok (if keep then response :: l else l)
      end
  end.

(** [pkg/ddb/repository.go:180-198] processBatchReadItemsResponse: the items for the caller's slice and
    the keys of the next request *)
Definition processBatchReadItemsResponse (now : Z) (out : list I * option (list K)) :
    result error (list A * option (list K)) :=
  let! responses := filterResponses now out.1 in
  match unmarshal_all unmarshal responses with
  | Err err => Err (EWrapped "could not unmarshal items after BatchGetItems operation" err)
  | Ok items => Ok (items, out.2)
  end.

(** [pkg/ddb/repository.go:155-175] the loop of BatchGetItems *)
Fixpoint get_loop (fuel : nat) (RequestItems : option (list K)) (w : W) (items : list A) :
    option (W * list A * option error) :=
  match RequestItems, fuel with
  | None, _ => Some (w, items, None)
  | Some _, 0 => None
  | Some keys, S fuel =>
      match client_BatchGetItem keys w with
      | (w, Err err) =>
          Some (w, items, Some (if request_canceled err then EValue RequestCanceledError
                                else if errors_Is TableNotFoundException err then EWrapped "table not found" err
                                else EWrapped "could not execute BatchGetItems operation" err))
      | (w, Ok out) =>
          match processBatchReadItemsResponse (Now w) out with
          | Err err => Some (w, items, Some err)
          | Ok (more, unprocessed) => get_loop fuel unprocessed w (items ++ more)
          end
      end
  end.

(** The error "no key pairs provided to select items". *)
Definition NoKeyPairs : nat := 40.

(** [pkg/ddb/builder_batchgetitems.go:78-88] the check of the keys in Build *)
Definition build_keys (keyPairs : list K) : result error (list K) :=
  if length keyPairs =? 0 then Err (EValue NoKeyPairs) else Ok keyPairs.

(** [pkg/ddb/repository.go:137-178] BatchGetItems: the items in the caller's slice and the error *)
Definition BatchGetItems (fuel : nat) (keyPairs : list K) (w : W) : option (W * list A * option error) :=
  match build_keys keyPairs with
  | Err err => Some (w, [], Some (EWrapped "can not build input for BatchGetItems operation" err))
  | Ok keys => get_loop fuel (Some keys) w []
  end.

(** The documented client, on a table that does not change meanwhile: some of the keys,
    at least one, are processed; their items, where there are any, come in any order. *)
Record GetLaws (store : K → option I) : Prop := {
  get_page keys w w' found unprocessed :
    client_BatchGetItem keys w = (w', Ok (found, unprocessed)) →
    ∃ processed, keys ≡ₚ processed ++ default [] unprocessed ∧ found ≡ₚ omap store processed ∧ processed ≠ []
}.

Definition kept (now : Z) (item : I) : bool :=
  match PerformFilterCondition now item with Ok keep => keep | Err _ => false end.

Lemma filterResponses_filter now l l' : filterResponses now l = Ok l' → l' = List.filter (kept now) l.
Proof.
  revert l'. induction l as [|x l IH]; intros l'; simpl; [by intros [= <-]|]. unfold kept at 1.
  destruct (PerformFilterCondition now x) as [keep|]; [|done].
  destruct (filterResponses now l) as [r|]; simpl; [|done]. intros [= <-]. by destruct keep; rewrite (IH r).
Qed.

Lemma List_filter_Permutation (f : I → bool) l1 l2 : l1 ≡ₚ l2 → List.filter f l1 ≡ₚ List.filter f l2.
Proof.
  induction 1 as [| x l1 l2 _ IH | x y l | l1 l2 l3 _ IH1 _ IH2]; simpl; [done | | | by etrans].
  - by destruct (f x); rewrite IH.
  - destruct (f x), (f y); [apply perm_swap | done..].
Qed.

(** A response gives the caller the items of the processed keys that are kept. *)
Lemma response_items (store : K → option I) now found unprocessed processed more rest :
  found ≡ₚ omap store processed →
  processBatchReadItemsResponse now (found, unprocessed) = Ok (more, rest) →
  rest = unprocessed ∧ ∃ l, l ≡ₚ List.filter (kept now) (omap store processed) ∧ unmarshal_all unmarshal l = Ok more.
Proof.
  intros Hf. unfold processBatchReadItemsResponse. simpl.
  case Hr: (filterResponses now found) => [l|]; simpl; [|done].
  case Hu: (unmarshal_all unmarshal l) => [items|]; simpl; [|done]. intros [= <- <-]. split; [done|].
  exists l. split; [|done]. rewrite (filterResponses_filter _ _ _ Hr). by apply List_filter_Permutation.
Qed.

Context (store : K → option I) (now : Z).
Context (laws : GetLaws store) (Hnow : ∀ w, Now w = now).

(** What the caller of BatchGetItems has at the end. *)
Definition get_result (keys : list K) (r : W * list A * option error) : Prop :=
  let '(_, items, err) := r in
  ∃ got rest found, keys ≡ₚ got ++ rest ∧ (err = None → rest = []) ∧
    found ≡ₚ List.filter (kept now) (omap store got) ∧ unmarshal_all unmarshal found = Ok items.

Lemma get_loop_result keys fuel remaining got found items w :
  keys ≡ₚ got ++ default [] remaining → found ≡ₚ List.filter (kept now) (omap store got) →
  unmarshal_all unmarshal found = Ok items →
  (if remaining is Some r then length r < fuel else True) →
  ∃ r, get_loop fuel remaining w items = Some r ∧ get_result keys r.
Proof.
  revert remaining got found items w. induction fuel as [|fuel IH]; intros remaining got found items w Hk Hf Hu Hfuel.
  { destruct remaining; [lia|]. eexists. split; [done|]. by exists got, [], found. }
  assert (Hfail : ∀ w e, get_result keys (w, items, Some e)) by (intros; by exists got, (default [] remaining), found).
  destruct remaining as [ks|]; simpl; [|eexists; split; [done|]; by exists got, [], found].
  destruct (client_BatchGetItem ks w) as [w' [[fs unp]|e]] eqn:Hc; [|eexists; by split].
  destruct (get_page _ laws _ _ _ _ _ Hc) as (processed & Hks & Hfs & Hne).
  rewrite Hnow. destruct (processBatchReadItemsResponse _ _) as [[more rest]|e] eqn:Hp; [|eexists; by split].
  destruct (response_items _ _ _ _ _ _ _ Hfs Hp) as (-> & l & Hl & Hmore).
  apply (IH unp (got ++ processed) (found ++ l)).
  - by rewrite -assoc -Hks.
  - by rewrite omap_app List.filter_app Hf Hl.
  - by rewrite unmarshal_all_app Hu /= Hmore.
  - destruct unp as [u|]; [|done]. apply Permutation_length in Hks. rewrite length_app in Hks.
    destruct processed; [done|]. simpl in *. lia.
Qed.

(** A read of many keys ends after at most one request per key. When it reports no error
    the caller has the items of all of the keys that exist and whose time to live has not
    passed, each once, however the service divides the keys into answers; when it reports
    an error the caller has those of a part of the keys. *)
Theorem BatchGetItems_correct fuel keys w (Hfuel : length keys < fuel) :
  ∃ r, BatchGetItems fuel keys w = Some r ∧ get_result keys r ∧
       (keys = [] → ∃ e, r.2 = Some e).
Proof.
  unfold BatchGetItems, build_keys. destruct (Nat.eqb_spec (length keys) 0) as [H0|H0].
  { eexists. split_and!; [done| |by eexists]. exists [], keys, []. by split_and!. }
  destruct (get_loop_result keys fuel (Some keys) [] [] [] w) as (r & Hr & Hres); [done..|].
  exists r. split_and!; [done..|]. by intros ->.
Qed.
End Get.

Section Write.
Context {W R B X : Type}.

(** The client for one table: the unprocessed requests, if there are some; the backoff of
    the library under a context, and its wait. *)
Context (client_BatchWriteItem : list R → W → W * result error (option (list R))).
Context (reqBuilder : X → result error R).
Context (RetryNotify : RetryNotify_type).
Context (NewExponentialBackOff : Z → Z → B) (NextBackOff : W → B → B * option Z) (Reset : B → B).
Context (wait : Z → W → W * bool).

Definition UnwrittenItems : nat := 41.

(** [pkg/ddb/repository.go:299-303] the variables of chunkWriteItem, and the error the retry loop returns *)
Record chunk_state := { cs_world : W; RequestItems : list R; backoffConfig : B; cs_err : option error }.

(** [pkg/ddb/repository.go:333-341] totalItemCount for the one table *)
Definition totalItemCount (requests : list R) : Z := Z.of_nat (length requests).

(** [pkg/ddb/repository.go:305-330] the operation of the retry loop *)
Definition write_round (s : chunk_state) : chunk_state * op_result error :=
  match client_BatchWriteItem (RequestItems s) (cs_world s) with
  | (w, Err err) =>
      let err := EWrapped "could not execute item for batchWriteItemWithContext operation" err in
      ({| cs_world := w; RequestItems := RequestItems s; backoffConfig := backoffConfig s; cs_err := Some err |},
       OpPermanent err)
  | (w, Ok None) =>
      ({| cs_world := w; RequestItems := RequestItems s; backoffConfig := backoffConfig s; cs_err := None |}, OpDone)
  | (w, Ok (Some unprocessed)) =>
      let processedItems := (totalItemCount (RequestItems s) - totalItemCount unprocessed)%Z in
      let finalErr := EValue UnwrittenItems in
      ({| cs_world := w; RequestItems := unprocessed;
          backoffConfig := if (0 <? processedItems)%Z then Reset (backoffConfig s) else backoffConfig s;
          cs_err := Some finalErr |}, OpError finalErr)
  end.

Definition reset_backoff (s : chunk_state) : chunk_state :=
  {| cs_world := cs_world s; RequestItems := RequestItems s; backoffConfig := Reset (backoffConfig s); cs_err := cs_err s |}.

Definition next_backoff (s : chunk_state) : chunk_state * option Z :=
  let '(b, d) := NextBackOff (cs_world s) (backoffConfig s) in
  ({| cs_world := cs_world s; RequestItems := RequestItems s; backoffConfig := b; cs_err := cs_err s |}, d).

Definition wait_backoff (d : Z) (s : chunk_state) : chunk_state * bool :=
  let '(w, cancelled) := wait d (cs_world s) in
  ({| cs_world := w; RequestItems := RequestItems s; backoffConfig := backoffConfig s; cs_err := cs_err s |}, cancelled).

(** [pkg/ddb/repository.go:298-331] chunkWriteItem: an interval of 100 milliseconds and a minute at most *)
Definition chunkWriteItem (fuel : nat) (requests : list R) (w : W) : option (W * option error) :=
  let s := {| cs_world := w; RequestItems := requests;
              backoffConfig := NewExponentialBackOff 100000000 60000000000; cs_err := None |} in
  (λ s, (cs_world s, cs_err s)) <$>
    RetryNotify chunk_state error fuel reset_backoff write_round next_backoff (λ _ _ s, s) wait_backoff s.

Fixpoint build_requests (items : list X) : result error (list R) :=
  match items with
  | [] => Ok []
  | item :: items => let! r := reqBuilder item in let! l := build_requests items in Ok (r :: l)
  end.

(** [pkg/ddb/repository.go:272-293] the loop of batchWriteItem over its chunks *)
Fixpoint write_chunks (fuel : nat) (chunks : list (list X)) (w : W) : option (W * option error) :=
  match chunks with
  | [] => Some (w, None)
  | c :: chunks =>
      match build_requests c with
      | Err err => Some (w, Some (EWrapped "could not create partial request for batchWriteItem operation" err))
      | Ok requests =>
          match chunkWriteItem fuel requests w with
          | None => None
          | Some (w, Some err) => Some (w, Some (EWrapped "could not write chunk for batchWriteItem operation" err))
          | Some (w, None) => write_chunks fuel chunks w
          end
      end
  end.

(** [pkg/ddb/repository.go:260-296] batchWriteItem of a slice *)
Definition batchWriteItem (fuel : nat) (items : list X) (w : W) : option (W * option error) :=
  write_chunks fuel (chunk items 25) w.

(** The documented client, with the log of the requests it executed: it executes some of
    the requests, or none, and returns the rest; when it fails, some of them may have
    been executed too. *)
Record WriteLaws (written : W → list R) : Prop := {
  write_ok requests w w' unprocessed :
    client_BatchWriteItem requests w = (w', Ok unprocessed) →
    ∃ executed, requests ≡ₚ executed ++ default [] unprocessed ∧ written w' = written w ++ executed;
  write_err requests w w' err :
    client_BatchWriteItem requests w = (w', Err err) →
    ∃ executed, executed ⊆+ requests ∧ written w' = written w ++ executed;
  write_wait d w : written (wait d w).1 = written w
}.

(** The documented backoff stops once its maximal time is over: [left] bounds how often
    it still answers with an interval, at most [rounds] times after it was made or reset. *)
Record BackoffLaws (left : B → nat) (rounds : nat) : Prop := {
  backoff_new initial elapsed : left (NewExponentialBackOff initial elapsed) ≤ rounds;
  backoff_reset b : left (Reset b) ≤ rounds;
  backoff_next w b b' d : NextBackOff w b = (b', Some d) → left b' < left b
}.

Lemma chunk_from_parts {Y} fuel (batch : list Y) size i :
  0 < size → length batch - i ≤ fuel →
  concat (chunk_from fuel batch size i) = drop i batch ∧
  Forall (λ c, 0 < length c ≤ size) (chunk_from fuel batch size i).
Proof.
  intros Hs. revert i. induction fuel as [|fuel IH]; intros i Hf; simpl; [by rewrite drop_ge; [lia|]|].
  destruct (Nat.ltb_spec i (length batch)) as [Hi|Hi]; simpl; [|by rewrite drop_ge].
  destruct (IH (i + size)) as [Hc Hl]; [lia|]. rewrite Hc. split.
  - destruct (Nat.ltb_spec (length batch) (i + size)) as [He|He].
    + rewrite (drop_ge _ (i + size)); [lia|]. by rewrite app_nil_r take_ge; [rewrite length_drop|].
    + replace (i + size - i) with size by lia. by rewrite -drop_drop take_drop.
  - constructor; [|done]. rewrite length_take length_drop. destruct (Nat.ltb_spec (length batch) (i + size)); lia.
Qed.

Lemma chunk_parts {Y} (batch : list Y) size :
  0 < size → concat (chunk batch size) = batch ∧ Forall (λ c, 0 < length c ≤ size) (chunk batch size).
Proof. intros Hs. apply (chunk_from_parts (length batch) batch size 0); [done | lia]. Qed.

Lemma build_requests_Ok items l : build_requests items = Ok l ↔ Forall2 (λ x r, reqBuilder x = Ok r) items l.
Proof.
  revert l. induction items as [|x items IH]; intros l; simpl.
  { split; [by intros [= <-] | by intros H; inversion H]. }
  split.
  - destruct (reqBuilder x) as [r|] eqn:Hr; simpl; [|done]. destruct (build_requests items) as [l'|] eqn:Hb; simpl; [|done].
    intros [= <-]. constructor; [done|]. by apply IH.
  - intros H. inversion H as [|? r ? l' Hr Hl]; subst. rewrite Hr /=. apply IH in Hl. by rewrite Hl.
Qed.

Context (retry_laws : RetryNotify_laws RetryNotify).
Context (written : W → list R) (laws : WriteLaws written) (left : B → nat) (rounds : nat) (backoff : BackoffLaws left rounds).

(** The rounds for [n] requests: each of them can be the only progress before the backoff stops. *)
Definition rounds_for (n : nat) : nat := n * S rounds + rounds.

(** Fewer requests are left, or the backoff goes on without a reset. *)
Lemma progress_measure (requests ex unp : list R) b b' :
  requests ≡ₚ ex ++ unp → left b ≤ rounds →
  left b' < left (if (0 <? totalItemCount requests - totalItemCount unp)%Z then Reset b else b) →
  left b' ≤ rounds ∧ length unp * S rounds + left b' < length requests * S rounds + left b.
Proof.
  intros Hp%Permutation_length Hb. rewrite length_app in Hp. unfold totalItemCount.
  pose proof (backoff_reset _ _ backoff b). destruct (Z.ltb_spec 0 (Z.of_nat (length requests) - Z.of_nat (length unp))); intros Hb'; nia.
Qed.

(** The requests of a chunk are executed once, or some are left. *)
Lemma chunkWriteItem_result fuel requests w :
  rounds_for (length requests) < fuel →
  ∃ w' err executed, chunkWriteItem fuel requests w = Some (w', err) ∧ written w' = written w ++ executed ∧
    executed ⊆+ requests ∧ (err = None → executed ≡ₚ requests).
Proof.
  intros Hfuel. unfold chunkWriteItem. set (s0 := {| cs_world := w |}).
  set (I := λ s, left (backoffConfig s) ≤ rounds ∧
    ∃ executed, requests ≡ₚ executed ++ RequestItems s ∧ written (cs_world s) = written w ++ executed).
  set (P := λ s, ∃ executed, written (cs_world s) = written w ++ executed ∧ executed ⊆+ requests ∧
                             (cs_err s = None → executed ≡ₚ requests)).
  destruct (RetryNotify_total RetryNotify retry_laws reset_backoff write_round next_backoff (λ _ _ s, s) wait_backoff
    P I (λ s, length (RequestItems s) * S rounds + left (backoffConfig s)) fuel s0) as (s & Hs & (executed & Hw & Hsub & Hall)).
  - intros s (Hleft & executed & Hreq & Hw). unfold round_ends, write_round.
    destruct (client_BatchWriteItem _ _) as [w1 [unp|err]] eqn:Hc.
    + destruct (write_ok _ laws _ _ _ _ Hc) as (ex & Hex & Hw1).
      assert (Hreq' : requests ≡ₚ (executed ++ ex) ++ default [] unp) by (by rewrite -assoc -Hex).
      assert (Hw' : written w1 = written w ++ executed ++ ex) by (by rewrite Hw1 Hw assoc).
      destruct unp as [unp|]; simpl.
      * assert (Hsub : executed ++ ex ⊆+ requests) by (rewrite Hreq'; apply submseteq_inserts_r; done).
        unfold next_backoff. simpl. destruct (NextBackOff _ _) as [b [d|]] eqn:Hb; [|by exists (executed ++ ex)].
        apply (backoff_next _ _ backoff) in Hb.
        unfold wait_backoff. simpl. pose proof (write_wait _ laws d w1) as Hwait.
        destruct (wait d w1) as [w2 []]; simpl in *; [exists (executed ++ ex); by rewrite Hwait|].
        pose proof (progress_measure _ _ _ _ _ Hex Hleft Hb) as [Hb1 Hb2].
        split; [|exact Hb2]. split; [exact Hb1|]. exists (executed ++ ex). by rewrite Hwait.
      * exists (executed ++ ex). rewrite /= app_nil_r in Hreq'.
        split_and!; [done | by rewrite Hreq' | by rewrite Hreq'].
    + destruct (write_err _ laws _ _ _ _ Hc) as (ex & Hex & Hw1). exists (executed ++ ex).
      rewrite Hw1 Hw assoc. split_and!; [done| |done]. rewrite Hreq. by apply submseteq_skips_l.
  - split; [apply (backoff_reset _ _ backoff)|]. exists []. by rewrite app_nil_r.
  - simpl. pose proof (backoff_reset _ _ backoff (NewExponentialBackOff 100000000 60000000000)). unfold rounds_for in Hfuel. lia.
  - rewrite Hs. eexists _, _, _. split_and!; eauto.
Qed.

(** What a batch write does: its requests are executed at most once, chunk by chunk, and
    all of them when it reports no error. *)
Definition write_result (chunks : list (list X)) (w w' : W) (err : option error) : Prop :=
  ∃ executed, written w' = written w ++ concat executed ∧
    (∃ requests, Forall2 (Forall2 (λ x r, reqBuilder x = Ok r)) (take (length requests) chunks) requests ∧
                 Forall2 submseteq executed requests ∧
                 (err = None → length requests = length chunks ∧ Forall2 (≡ₚ) executed requests)).

Lemma write_chunks_result fuel chunks w :
  Forall (λ c, rounds_for (length c) < fuel) chunks →
  ∃ w' err, write_chunks fuel chunks w = Some (w', err) ∧ write_result chunks w w' err.
Proof.
  revert w. induction chunks as [|c chunks IH]; intros w Hf; simpl.
  { eexists _, _. split; [done|]. exists []. rewrite app_nil_r. split; [done|]. exists []. by split_and!. }
  inversion_clear Hf as [|? ? Hc Hf'].
  destruct (build_requests c) as [reqs|e] eqn:Hb.
  2:{ eexists _, _. split; [done|]. exists []. rewrite app_nil_r. split; [done|]. exists []. by split_and!. }
  apply build_requests_Ok in Hb.
  destruct (chunkWriteItem_result fuel reqs w) as (w1 & err & ex & -> & Hw1 & Hsub & Hall).
  { by rewrite -(Forall2_length _ _ _ Hb). }
  destruct err as [err|].
  { eexists _, _. split; [done|]. exists [ex]. rewrite /= app_nil_r. split; [done|]. exists [reqs].
    rewrite /= take_0. split_and!; [by repeat constructor | by repeat constructor | done]. }
  destruct (IH w1 Hf') as (w2 & err & -> & executed & Hw2 & requests & Hr & Hs & Hn).
  eexists _, _. split; [done|]. exists (ex :: executed). rewrite Hw2 Hw1 /= assoc. split; [done|].
  exists (reqs :: requests). simpl. split_and!; [by constructor | by constructor|].
  intros He. destruct (Hn He) as [-> ?]. split; [done|]. constructor; [by apply Hall | done].
Qed.

(** C17: A batch write executes the requests of the items at most once each, in chunks of at
    most 25 that follow the order of the items, whatever the service leaves unprocessed, also
    all of it, and however the backoff goes; when it reports no error it has executed the
    request of every item.  It ends, because only progress resets the backoff: with a backoff
    that stops after at most [rounds] intervals without a reset, after at most
    25 * (rounds + 1) + rounds + 1 requests per chunk. *)
Theorem batchWriteItem_correct fuel items w (Hfuel : rounds_for 25 < fuel) :
  ∃ w' err, batchWriteItem fuel items w = Some (w', err) ∧ write_result (chunk items 25) w w' err ∧
    concat (chunk items 25) = items ∧ Forall (λ c, 0 < length c ≤ 25) (chunk items 25).
Proof.
  destruct (chunk_parts items 25) as [Hc Hl]; [lia|].
  destruct (write_chunks_result fuel (chunk items 25) w) as (w' & err & Hw & Hr).
  { eapply Forall_impl; [exact Hl|]. unfold rounds_for in *. cbn beta. intros c [_ Hle]. nia. }
  by exists w', err.
Qed.
End Write.

(** *** Samples *)
Module BatchSamples.

(** A table of items with a time to live, without the keys that three divides, behind a
    client that processes two keys per request. *)
Definition store (k : nat) : option (nat * Z) := if k mod 3 =? 0 then None else Some (k, Z.of_nat k).

Definition read_client {I} (store : nat → option I) (keys : list nat) (w : nat) : nat * result error (list I * option (list nat)) :=
  match keys with
  | [] => (S w, Err (EValue 7))
  | _ => (S w, Ok (omap store (take 2 keys), if length keys <=? 2 then None else Some (drop 2 keys)))
  end.

Lemma read_client_laws {I} (store : nat → option I) : GetLaws (read_client store) store.
Proof.
  split. intros keys w w' found unprocessed H. exists (take 2 keys).
  assert (Hp : take 2 keys ++ drop 2 keys = keys) by apply take_drop.
  destruct keys as [|k keys]; [done|]. unfold read_client in H. injection H as <- <- <-.
  split_and!; [|done|done]. destruct (Nat.leb_spec (length keys) 1); [|exact (Permutation_refl' (eq_sym Hp))].
  rewrite (take_ge (k :: keys)); [simpl; lia|]. by rewrite /= app_nil_r.
Qed.

Definition identity (x : nat * Z) : result error (nat * Z) := Ok x.
Definition ttl_of (x : nat * Z) : result error Z := Ok x.2.
Definition now (w : nat) : Z := 4000000000%Z.

Example BatchGetItems_sample :
  (λ r, (snd (fst r), snd r)) <$>
    BatchGetItems (read_client store) identity now (Some ttl_of) 8 [2; 3; 5; 6; 7; 4; 8] 0 =
  Some ([(5, 5%Z); (7, 7%Z); (8, 8%Z)], None).
Proof. by vm_compute. Qed.

Lemma BatchGetItems_correct_witness :
  ∃ r, BatchGetItems (read_client store) identity now (Some ttl_of) 8 [2; 3; 5; 6; 7; 4; 8] 0 = Some r ∧
       get_result identity (Some ttl_of) store 4000000000 [2; 3; 5; 6; 7; 4; 8] r ∧ ([2; 3; 5; 6; 7; 4; 8] = [] → ∃ e, r.2 = Some e).
Proof.
  apply (BatchGetItems_correct (read_client store) identity now (Some ttl_of) store 4000000000 (read_client_laws store));
    [done | simpl; lia].
Defined.

(** A projection without the attribute of the time to live: every item of the answer has
    the time to live 0 and is dropped, although the items are there and have not
    expired. *)
Definition projected (k : nat) : option (nat * Z) := (λ x, (x.1, 0%Z)) <$> store k.

Lemma projection_hides_items :
  (λ r, (snd (fst r), snd r)) <$>
    BatchGetItems (read_client projected) identity now (Some ttl_of) 8 [5; 7; 8] 0 = Some ([], None).
Proof. by vm_compute. Qed.

(** A client that executes ten requests of a batch, in every other call, and nothing in
    the calls between; its world is the log and the number of calls. *)
Definition write_client (requests : list nat) (w : list nat * nat) : (list nat * nat) * result error (option (list nat)) :=
  if Nat.even w.2 then ((w.1, S w.2), Ok (Some requests))
  else ((w.1 ++ take 10 requests, S w.2), Ok (if length requests <=? 10 then None else Some (drop 10 requests))).

Definition no_wait (d : Z) (w : list nat * nat) : (list nat * nat) * bool := (w, false).

Lemma write_client_laws : WriteLaws write_client no_wait fst.
Proof.
  split; [| |done].
  - intros requests w w' unprocessed. unfold write_client. destruct (Nat.even w.2).
    { intros [= <- <-]. exists []. by rewrite app_nil_r. }
    intros [= <- <-]. exists (take 10 requests). split; [|done].
    destruct (Nat.leb_spec (length requests) 10); simpl; [by rewrite take_ge ?app_nil_r | by rewrite take_drop].
  - intros requests w w' err. unfold write_client. by destruct (Nat.even w.2).
Qed.

(** A backoff that stops after three intervals. *)
Definition NextBackOff (_ : list nat * nat) (b : nat) : nat * option Z :=
  match b with 0 => (0, None) | S b => (b, Some 5%Z) end.

Lemma backoff_laws : BackoffLaws (W := list nat * nat) (λ _ _, 3) NextBackOff (λ _, 3) id 3.
Proof. split; [done..|]. intros w [|b] b' d; simpl; [done|]. intros [= <- _]. simpl. lia. Qed.

Definition request (x : nat) : result error nat := Ok (x + 100).

Definition write_sample (items : list nat) : option ((list nat * nat) * option error) :=
  batchWriteItem write_client request sample_RetryNotify (λ _ _, 3) NextBackOff (λ _, 3) no_wait 104 items ([], 0).

Example batchWriteItem_sample : write_sample (seq 0 60) = Some ((seq 100 60, 14), None).
Proof. by vm_compute. Qed.

Lemma batchWriteItem_correct_witness :
  ∃ w' err, write_sample (seq 0 60) = Some (w', err) ∧
    write_result request fst (chunk (seq 0 60) 25) ([], 0) w' err ∧
    concat (chunk (seq 0 60) 25) = seq 0 60 ∧ Forall (λ c, 0 < length c ≤ 25) (chunk (seq 0 60) 25).
Proof.
  apply (batchWriteItem_correct write_client request sample_RetryNotify (λ _ _, 3) NextBackOff (λ _, 3) no_wait
    sample_RetryNotify_laws fst write_client_laws id 3 backoff_laws); unfold rounds_for; lia.
Defined.

End BatchSamples.
End Batch.
