(* ===== verification/MapMerge.v ===== *)
(** Merging values into nested maps: Merge of pkg/mapx/map.go, on the operations of MapX.
    Where the target and the source have the same shape, the sequence of Has and Set calls
    along formatted keys is a deep merge; samples show what it does elsewhere. *)
From Stdlib Require Import Ascii.
From S2P Require Import Prelude Texts MapX.

Open Scope char_scope.
Open Scope nat_scope.

(** ** Effects *)

(** A computation that needs fuel and can panic. *)
Definition eff (A : Type) : Type := option (result map_panic A).

Definition eff_ret {A} (a : A) : eff A := Some (Ok a).
Definition eff_bind {A B} (c : eff A) (k : A → eff B) : eff B :=
  match c with
  | Some (Ok a) => k a
  | Some (Err p) => Some (Err p)
  | None => None
  end.

Declare Scope eff_scope.
Delimit Scope eff_scope with eff.
Notation "'let*' x ':=' c 'in' k" := (eff_bind c (λ x, k))
  (at level 10, x pattern, c at level 100, k at level 200) : eff_scope.
Open Scope eff_scope.

(** A loop that passes a state on. *)
Fixpoint eff_fold {S X} (f : S → X → eff S) (s : S) (l : list X) : eff S :=
  match l with
  | [] => eff_ret s
  | x :: l => let* s := f s x in eff_fold f s l
  end.

(** ** The keys of elements *)

(** A number in decimal digits. *)
Definition digit (n : nat) : ascii := ascii_of_nat (48 + n).

Fixpoint itoa_go (fuel n : nat) : text :=
  match fuel with
  | 0 => []
  | S fuel => if n <? 10 then [digit n] else itoa_go fuel (n / 10) ++ [digit (n mod 10)]
  end.

Definition itoa (n : nat) : text := itoa_go (S n) n.

(** fmt.Sprintf with "%s.%v" and with "%s[%d]". *)
Definition map_key (key k : text) : text := key ++ "." :: k.
Definition slice_key (key : text) (i : nat) : text := key ++ "[" :: itoa i ++ ["]"].

Section Merge.
Context {scalar : Type} (zero_of : scalar → scalar) (string_len : scalar → option nat).
Abbreviation value := (value scalar).
Abbreviation mapx := (mapx scalar).

Fixpoint depth (v : value) : nat :=
  match v with
  | VSlice l => S (max_list (depth <$> l))
  | VMsi m | VMsier m | VMsn m => S (max_list (map_to_list (depth <$> m)).*2)
  | _ => 0
  end.

(** [pkg/mapx/map.go:348-397] doMerge; a source has no nodes in it *)
Fixpoint doMerge (fuel : nat) (o : map_order text value) (key : text) (source : value) (skip : bool) (m : mapx) : eff mapx :=
  match fuel with
  | 0 => None
  | S fuel =>
      match match source with VMsier src => VMsi src | _ => source end with
      | VMsi src =>
          if bool_decide (key = ["."]) && (size src =? 0) then eff_ret m
          else
            let* (m, has) := Has zero_of string_len key m in
            if negb has && (size src =? 0) then doSet zero_of string_len key (VMsi ∅) skip m
            else eff_fold (λ m kv, doMerge fuel o (map_key key kv.1) kv.2 skip m) m (enum o src)
      | VSlice l =>
          let* (m, has) := Has zero_of string_len key m in
          let* m := if has : bool then eff_ret m else doSet zero_of string_len key (VSlice []) skip m in
          eff_fold (λ m ix, doMerge fuel o (slice_key key ix.1) ix.2 skip m) m (imap pair l)
      | source => doSet zero_of string_len key source skip m
      end
  end.

(** [pkg/mapx/map.go:341-346] Merge *)
Definition Merge (o : map_order text value) (key : text) (source : value) (skip : bool) (m : mapx) : eff mapx :=
  doMerge (S (depth source)) o key source skip m.
End Merge.

(** ** The reference *)
Section Reference.
Context {scalar : Type}.
Abbreviation value := (value scalar).

(** The map of nodes that a value is, where nothing counts as an empty one. *)
Definition node_map (v : value) : option (gmap text value) :=
  match v with VNil => Some ∅ | VMsn m => Some m | _ => None end.

Definition node_slice (v : value) : option (list value) :=
  match v with VNil => Some [] | VSlice l => Some l | _ => None end.

Fixpoint update_all (fs : list (value → value)) (l : list value) : list value :=
  match fs, l with
  | [], _ => l
  | f :: fs, [] => f VNil :: update_all fs []
  | f :: fs, v :: l => f v :: update_all fs l
  end.

(** A source over an old value, which is nil where there is none: maps unite, slices are
    merged element by element and keep their end, everything else is replaced. *)
Fixpoint deep_merge (source : value) : value → value :=
  match source with
  | VMsi s => λ old,
      match node_map old with
      | Some m => VMsn (merge (λ o f, match f with Some f => Some (f (default VNil o)) | None => o end) m (deep_merge <$> s))
      | None => old
      end
  | VSlice l => λ old,
      match node_slice old with Some lv => VSlice (update_all (deep_merge <$> l) lv) | None => old end
  | _ => λ _, source
  end.

(** Maps of the source meet maps or nothing, and slices meet slices or nothing. *)
Fixpoint compat (source : value) : value → Prop :=
  match source with
  | VMsi s => λ old, ∃ m, node_map old = Some m ∧ ∀ k P, (compat <$> s) !! k = Some P → P (default VNil (m !! k))
  | VSlice l => λ old, ∃ lv, node_slice old = Some lv ∧ ∀ i P, (compat <$> l) !! i = Some P → P (default VNil (lv !! i))
  | _ => λ _, True
  end.

(** A name without separators, escapes and indices. *)
Definition plain (t : text) : Prop := segment t ∧ "[" ∉ t ∧ "010" ∉ t.

(** A source without nil and without slices in slices, under plain names. *)
Inductive source_ok : value → Prop :=
| source_scalar s : source_ok (VScalar s)
| source_map s : (∀ k v, s !! k = Some v → plain k) → (∀ k v, s !! k = Some v → source_ok v) → source_ok (VMsi s)
| source_slice l : (Z.of_nat (length l) ≤ max_int)%Z → (∀ i v, l !! i = Some v → ¬ is_slice v) →
    (∀ i v, l !! i = Some v → source_ok v) → source_ok (VSlice l).

(** Nodes without nil. *)
Inductive full : value → Prop :=
| full_scalar s : full (VScalar s)
| full_slice l : (∀ i v, l !! i = Some v → full v) → full (VSlice l)
| full_map m : (∀ k v, m !! k = Some v → full v) → full (VMsn m).
End Reference.

(** ** Updates along paths *)
Section Update.
Context {scalar : Type} (zero_of : scalar → scalar) (string_len : scalar → option nat).
Abbreviation value := (value scalar).
Implicit Types (v w old new : value) (m : gmap text value) (p q segs : list (Z * text)) (f g : value → value).

(** The value of a node after the element that an index selects is replaced. *)
Definition place (i : Z) old new : value :=
  if (i <? 0)%Z then new
  else match old with
       | VSlice l => if Z.to_nat i <? length l then VSlice (<[Z.to_nat i := new]> l) else VSlice (l ++ [new])
       | _ => old
       end.

Fixpoint upd v segs f : value :=
  match segs with
  | [] => f v
  | (i, n) :: rest =>
      match node_map v with
      | Some m => let old := default VNil (m !! n) in VMsn (<[n := place i old (upd (pick i old) rest f)]> m)
      | None => v
      end
  end.

(** A node that an index can be written to: the name itself, an element, or the place
    behind the last one. *)
Definition slot (i : Z) old : Prop := i = (-1)%Z ∨ ∃ l, old = VSlice l ∧ (0 ≤ i ≤ Z.of_nat (length l))%Z.

Fixpoint ready v segs : Prop :=
  match segs with
  | [] => True
  | (i, n) :: rest =>
      ∃ m, node_map v = Some m ∧ slot i (default VNil (m !! n)) ∧ ready (pick i (default VNil (m !! n))) rest
  end.

(** Full, or nothing at all. *)
Definition fulln v : Prop := v = VNil ∨ full v.

Lemma node_map_inv v m : node_map v = Some m → v = VMsn m ∨ v = VNil ∧ m = ∅.
Proof. destruct v; try done; simpl; intros [= <-]; auto. Qed.

Lemma node_map_full v m : fulln v → node_map v = Some m → ∀ k x, m !! k = Some x → full x.
Proof.
  intros Hv Hm k x Hx. destruct (node_map_inv _ _ Hm) as [-> | [-> ->]]; [|done].
  destruct Hv as [?|Hv]; [done|]. inversion Hv; subst. eauto.
Qed.

Lemma pick_fulln i v : fulln v → fulln (pick i v).
Proof.
  intros [->|Hv]; [by left|]. destruct Hv as [s|l Hl|m Hm]; [by right; constructor| |by right; constructor].
  unfold pick. destruct (-1 <? i)%Z; [|by right; constructor].
  destruct (l !! Z.to_nat i) as [x|] eqn:Hx; [right; by eapply Hl | by left].
Qed.

Lemma default_fulln v m n : fulln v → node_map v = Some m → fulln (default VNil (m !! n)).
Proof. intros Hv Hm. destruct (m !! n) eqn:Hn; [right; by eapply node_map_full | by left]. Qed.

Lemma pick_place i old new : slot i old → pick i (place i old new) = new.
Proof.
  intros [->|(l & -> & Hi)]; [by destruct new|]. unfold place, pick.
  rewrite (proj2 (Z.ltb_ge i 0)); [lia|]. destruct (Nat.ltb_spec (Z.to_nat i) (length l)).
  - rewrite (proj2 (Z.ltb_lt (-1) i)); [lia|]. by rewrite list_lookup_insert_eq.
  - rewrite (proj2 (Z.ltb_lt (-1) i)); [lia|]. by rewrite lookup_app_r // (_ : Z.to_nat i - length l = 0); [lia|].
Qed.

Lemma place_place i old a b : slot i old → place i (place i old a) b = place i old b.
Proof.
  intros [->|(l & -> & Hi)]; [done|]. unfold place. rewrite (proj2 (Z.ltb_ge i 0)); [lia|].
  destruct (Nat.ltb_spec (Z.to_nat i) (length l)) as [Hl|Hl].
  - by rewrite length_insert (proj2 (Nat.ltb_lt _ _) Hl) list_insert_insert_eq.
  - rewrite length_app /= (proj2 (Nat.ltb_lt _ _)); [lia|]. rewrite insert_app_r_alt //.
    by rewrite (_ : Z.to_nat i - length l = 0); [lia|].
Qed.

Lemma slot_place i old new : slot i old → slot i (place i old new).
Proof.
  intros [->|(l & -> & Hi)]; [by left|]. right. unfold place. rewrite (proj2 (Z.ltb_ge i 0)); [lia|].
  destruct (Nat.ltb_spec (Z.to_nat i) (length l)); eexists; (split; [done|]); rewrite ?length_insert ?length_app; lia.
Qed.

Lemma path_get_step v m i n rest :
  node_map v = Some m → path_get v ((i, n) :: rest) = path_get (pick i (default VNil (m !! n))) rest.
Proof. intros Hm. destruct (node_map_inv _ _ Hm) as [-> | [-> ->]]; [done|]. simpl. by rewrite lookup_empty path_get_nil. Qed.

Lemma path_get_app v p q : path_get v (p ++ q) = path_get (path_get v p) q.
Proof.
  revert v. induction p as [|[i n] p IH]; intros v; [done|]. simpl.
  destruct v; rewrite ?path_get_nil //.
Qed.

Lemma path_get_fulln v p : fulln v → fulln (path_get v p).
Proof.
  revert v. induction p as [|[i n] p IH]; intros v Hv; [done|]. simpl. destruct v as [| | | |m| |]; try by left.
  by apply IH, pick_fulln, (default_fulln (VMsn m)).
Qed.

Lemma ready_app v p q : ready v (p ++ q) ↔ ready v p ∧ ready (path_get v p) q.
Proof.
  revert v. induction p as [|[i n] p IH]; intros v; simpl app; [naive_solver|]. cbn [ready]. split.
  - intros (m & Hm & Hs & Hr). apply IH in Hr as [Hr Hq]. rewrite (path_get_step _ _ _ _ _ Hm). split; [|done].
    by exists m.
  - intros [(m & Hm & Hs & Hr) Hq]. rewrite (path_get_step _ _ _ _ _ Hm) in Hq. exists m.
    split_and!; [done..|]. by apply IH.
Qed.

Lemma upd_app v p q f : ready v p → upd v (p ++ q) f = upd v p (λ w, upd w q f).
Proof.
  revert v. induction p as [|[i n] p IH]; intros v; simpl; [done|]. intros (m & -> & _ & Hr). by rewrite IH.
Qed.

Lemma upd_ext v p f g : ready v p → f (path_get v p) = g (path_get v p) → upd v p f = upd v p g.
Proof.
  revert v. induction p as [|[i n] p IH]; intros v; [done|]. cbn [ready upd]. intros (m & Hm & Hs & Hr).
  rewrite (path_get_step _ _ _ _ _ Hm) Hm. intros He. by rewrite (IH _ Hr He).
Qed.

Lemma path_get_upd v p f : ready v p → path_get (upd v p f) p = f (path_get v p).
Proof.
  revert v. induction p as [|[i n] p IH]; intros v; [done|]. cbn [ready upd]. intros (m & Hm & Hs & Hr).
  rewrite (path_get_step v m) // Hm. cbn [path_get]. rewrite lookup_insert_eq /= pick_place //. by apply IH.
Qed.

Lemma ready_upd v p f : ready v p → ready (upd v p f) p.
Proof.
  revert v. induction p as [|[i n] p IH]; intros v; [done|]. cbn [ready upd]. intros (m & Hm & Hs & Hr).
  rewrite Hm. eexists. split; [done|]. rewrite lookup_insert_eq /=. split; [by apply slot_place|].
  rewrite pick_place //. by apply IH.
Qed.

Lemma upd_upd v p f g : ready v p → upd (upd v p f) p g = upd v p (λ w, g (f w)).
Proof.
  revert v. induction p as [|[i n] p IH]; intros v; [done|]. cbn [ready upd]. intros (m & Hm & Hs & Hr).
  rewrite Hm. cbn [node_map]. rewrite lookup_insert_eq /= pick_place // place_place // insert_insert_eq. by rewrite IH.
Qed.

Lemma place_full i old new : fulln old → slot i old → full new → full (place i old new).
Proof.
  intros Ho Hs Hn. unfold place. destruct (Z.ltb_spec i 0); [done|]. destruct Hs as [->|(l & -> & _)]; [done|].
  destruct Ho as [?|Ho]; [done|]. inversion Ho as [|? Hl|]; subst. destruct (_ <? _); constructor; intros j v Hj.
  - apply list_lookup_insert_Some in Hj as [(_ & <- & _)|[_ Hj]]; [done | by eapply Hl].
  - apply lookup_app_Some in Hj as [Hj|[_ Hj]]; [by eapply Hl|]. by apply list_lookup_singleton_Some in Hj as [_ <-].
Qed.

Lemma upd_full v p f : fulln v → ready v p → full (f (path_get v p)) → full (upd v p f).
Proof.
  revert v. induction p as [|[i n] p IH]; intros v Hv; [done|]. cbn [ready upd]. intros (m & Hm & Hs & Hr) Hf.
  rewrite (path_get_step v m) // in Hf. rewrite Hm. constructor. intros k x Hx.
  pose proof (default_fulln v m n Hv Hm) as Hd.
  apply lookup_insert_Some in Hx as [[_ <-]|[_ Hx]]; [|by eapply (node_map_full v)].
  apply place_full; [done..|]. apply IH; [by apply pick_fulln | done..].
Qed.

Lemma upd_VMsn m p f : p ≠ [] → ready (VMsn m) p → ∃ m', upd (VMsn m) p f = VMsn m'.
Proof. destruct p as [|[i n] p]; [done|]. intros _ (m' & [= <-] & _). simpl. by eexists. Qed.

Lemma upd_node_map v w p f : p ≠ [] → node_map v = node_map w → upd v p f = upd w p f ∨ node_map w = None.
Proof. destruct p as [|[i n] p]; [done|]. intros _ Hm. simpl. rewrite Hm. destruct (node_map w); auto. Qed.
End Update.

(** ** Has and Set on full nodes *)
Section FullMaps.
Context {scalar : Type} (zero_of : scalar → scalar) (string_len : scalar → option nat).
Abbreviation value := (value scalar).
Implicit Types (v w val : value) (m : gmap text value) (p : list (Z * text)) (ts : list text) (pre : text).

Lemma full_filled v w : full v → filled v w → w = v.
Proof.
  intros Hv Hf. revert Hv. induction Hf as [v| |n m v w Hn Hf IH|i l v w Hi Hf IH]; intros Hv; [done | by inversion Hv | |];
    inversion Hv as [|? Hl|? Hm]; subst.
  - rewrite IH; [by eapply Hm | by rewrite insert_id].
  - rewrite IH; [by eapply Hl | by rewrite list_insert_id].
Qed.

Lemma apply_upd m i n val :
  full (VMsn m) → full val → slot i (default VNil (m !! n)) →
  apply zero_of string_len (Some m) n i val (writing false) = Ok (<[n := place i (default VNil (m !! n)) val]> m).
Proof.
  intros Hm Hv [->|(l & Hl & Hi)].
  - unfold apply. simpl. rewrite andb_false_r. by destruct Hv.
  - unfold apply, place. rewrite Hl (proj2 (Z.ltb_ge i 0)); [lia|]. cbn [default from_option]. unfold id.
    destruct (m !! n) as [w|] eqn:Hn; [|done]. cbn [default from_option] in Hl. unfold id in Hl. subst w.
    cbn [reflect_Len res_bind]. destruct (Nat.ltb_spec (Z.to_nat i) (length l)); [by destruct Hv|].
    rewrite (_ : Z.to_nat i - length l = 0); [lia|]. by destruct Hv.
Qed.

Lemma grown_slot m i n p :
  full (VMsn m) → p ≠ [] → slot i (default VNil (m !! n)) → ready (pick i (default VNil (m !! n))) p →
  ∃ x, pick i (grown i (m !! n)) = VMsn x ∧ node_map (pick i (default VNil (m !! n))) = Some x ∧ full (VMsn x) ∧
       ∀ e, put_back i (grown i (m !! n)) e = place i (default VNil (m !! n)) e.
Proof.
  intros Hm Hp Hs Hr. destruct p as [|[j k] p]; [done|]. destruct Hr as (x & Hx & _).
  assert (Hfull : ∀ w, fulln w → node_map w = Some x → full (VMsn x)).
  { intros w Hw Hwx. constructor. by apply (node_map_full w). }
  assert (Hd : fulln (default VNil (m !! n))) by (apply (default_fulln (VMsn m) m); [by right | done]).
  exists x. destruct Hs as [->|(l & Hl & Hi)].
  - destruct (m !! n) as [w|] eqn:Hn; simpl in *.
    + assert (w = VMsn x) as ->.
      { destruct (node_map_inv _ _ Hx) as [Hw|[Hw _]]; [by destruct w | destruct w; try done].
        inversion Hm as [| |? Hm']; subst. specialize (Hm' _ _ Hn). inversion Hm'. }
      split_and!; [done..| | done]. by apply (Hfull (VMsn x)).
    + injection Hx as <-. split_and!; [done..| | done]. by constructor.
  - rewrite Hl in Hd, Hx |- *. assert (m !! n = Some (VSlice l)) as -> by (destruct (m !! n); [by f_equal | done]).
    rewrite !pick_in_range in Hx |- *; [lia..|]. unfold place, grown.
    rewrite (proj2 (Z.ltb_ge i 0)); [lia|]. rewrite (proj2 (Z.ltb_lt (-1) i)) /=; [lia|].
    destruct (Z.leb_spec (Z.of_nat (length l)) i); destruct (Nat.ltb_spec (Z.to_nat i) (length l)); try lia.
    + rewrite (_ : S (Z.to_nat i) - length l = 1); [lia|]. rewrite pick_in_range; [lia|].
      rewrite lookup_ge_None_2 in Hx |- *; [lia..|]. injection Hx as <-. split_and!; [|done|by constructor|].
      * rewrite lookup_app_r; [lia|]. by rewrite (_ : Z.to_nat i - length l = 0); [lia|].
      * intros e. unfold put_back. rewrite (proj2 (Z.ltb_lt (-1) i)); [lia|]. rewrite insert_app_r_alt; [lia|].
        by rewrite (_ : Z.to_nat i - length l = 0); [lia|].
    + rewrite pick_in_range; [lia|]. destruct (l !! Z.to_nat i) as [w|] eqn:Hw; [|by apply lookup_ge_None in Hw; lia].
      cbn [default from_option] in *. unfold id in *. destruct Hd as [?|Hd]; [done|]. inversion Hd as [|? Hfl|]; subst.
      specialize (Hfl _ _ Hw). destruct (node_map_inv _ _ Hx) as [->|[-> _]]; [|by inversion Hfl].
      split_and!; [done..|]. intros e. unfold put_back. by rewrite (proj2 (Z.ltb_lt (-1) i)); [lia|].
Qed.

Lemma walk_upd m p val :
  p ≠ [] → full (VMsn m) → full val → ready (VMsn m) p →
  ∃ f, walk zero_of string_len (VMsn m) p val (writing false) = Ok (upd (VMsn m) p (λ _, val), f).
Proof.
  intros Hp Hm Hv. revert m Hp Hm. induction p as [|[i n] p IH]; intros m Hp Hm Hr; [done|].
  destruct Hr as (m' & [= <-] & Hs & Hr). cbn [walk as_msn upd node_map]. destruct (decide (p = [])) as [->|Hne].
  - unfold accessMap. simpl. rewrite apply_upd //. simpl. by eexists.
  - rewrite accessMap_writing grown_not_nil. destruct (grown_slot m i n p Hm Hne Hs Hr) as (x & Hx & Hnx & Hfx & Hput).
    assert (Hrx : ready (VMsn x) p).
    { destruct p as [|[j k] p]; [done|]. destruct Hr as (y & Hy & Hr). rewrite Hnx in Hy. injection Hy as <-.
      by exists x. }
    destruct (IH x Hne Hfx Hrx) as [f Hw]. rewrite Hx Hw insert_insert_eq Hput.
    destruct (upd_node_map (VMsn x) (pick i (default VNil (m !! n))) p (λ _, val) Hne) as [->|Hc]; [done | by eexists | by rewrite Hc in Hnx].
Qed.

(** A key may start with dots, which do not count. *)
Definition dots pre : Prop := Forall (λ a, a = ".") pre.

Lemma Trim_dots pre ts : dots pre → Forall segment ts → Trim (pre ++ key_of ts) = key_of ts.
Proof.
  intros Hpre Hts. rewrite -{2}(Trim_key_of ts Hts). unfold Trim. do 2 f_equal.
  induction Hpre as [|a pre -> _ IH]; [done|]. simpl. by rewrite IH.
Qed.

Lemma access_dots pre ts v val mode :
  dots pre → ts ≠ [] → Forall segment ts →
  access zero_of string_len (enough (pre ++ key_of ts)) v (pre ++ key_of ts) val mode =
  Some (walk zero_of string_len v (path ts) val mode).
Proof.
  intros Hpre Hne Hts. rewrite -(access_walk zero_of string_len (enough (pre ++ key_of ts)) ts v val mode) //.
  - unfold enough. rewrite length_app. lia.
  - unfold enough. cbn [access]. by rewrite Trim_dots // Trim_key_of.
Qed.

Lemma dots_not_root pre ts : ts ≠ [] → Forall segment ts → pre ++ key_of ts ≠ ["."].
Proof.
  intros Hne Hts Hk. pose proof (key_of_head ts Hts) as Hh. pose proof (key_of_nonempty ts Hne Hts) as Hn.
  destruct pre as [|a [|b pre]]; simpl in Hk.
  - by rewrite Hk in Hh.
  - injection Hk as -> Hk. done.
  - injection Hk. by destruct pre.
Qed.

Lemma Has_full pre ts m :
  dots pre → ts ≠ [] → Forall segment ts → full (VMsn m) →
  Has zero_of string_len (pre ++ key_of ts) m = Some (Ok (m, negb (is_nil (path_get (VMsn m) (path ts))))).
Proof.
  intros Hpre Hne Hts Hm. unfold Has. case_decide as He.
  - subst. by rewrite path_get_empty; [apply path_nonempty|].
  - unfold doGet. rewrite decide_False; [by apply dots_not_root|]. rewrite access_dots //.
    destruct (walk_reading zero_of string_len (path ts) (VMsn m) VNil) as (v' & Hw & Hf & _); [by apply path_nonempty|].
    change {| IsSet := false; SkipExisting := false |} with reading. rewrite Hw (full_filled _ _ Hm Hf). done.
Qed.

Lemma doSet_full pre ts m val :
  dots pre → ts ≠ [] → Forall segment ts → full (VMsn m) → full (prepareInput val) → ready (VMsn m) (path ts) →
  ∃ m', doSet zero_of string_len (pre ++ key_of ts) val false m = Some (Ok m') ∧
        VMsn m' = upd (VMsn m) (path ts) (λ _, prepareInput val).
Proof.
  intros Hpre Hne Hts Hm Hv Hr. unfold doSet. rewrite access_dots //.
  destruct (walk_upd m (path ts) (prepareInput val)) as [f Hw]; [by apply path_nonempty | done..|].
  change {| IsSet := true; SkipExisting := false |} with (writing false). rewrite Hw.
  destruct (upd_VMsn m (path ts) (λ _, prepareInput val)) as [m' Hm']; [by apply path_nonempty | done|].
  exists m'. by rewrite Hm'.
Qed.
End FullMaps.

(** ** Keys of elements as paths *)
Section Keys.
Implicit Types (t k pre : text) (ts : list text).

Lemma key_of_snoc ts k : ts ≠ [] → key_of (ts ++ [k]) = key_of ts ++ "." :: k.
Proof.
  induction ts as [|t ts IH]; [done|]. intros _. destruct (decide (ts = [])) as [->|Hne]; [done|].
  rewrite (key_of_cons t ts Hne) -app_comm_cons (key_of_cons t (ts ++ [k])); [by destruct ts|]. by rewrite IH // -app_assoc.
Qed.

Lemma map_key_path pre ts k : ts ≠ [] → map_key (pre ++ key_of ts) k = pre ++ key_of (ts ++ [k]).
Proof. intros Hne. unfold map_key. by rewrite key_of_snoc // app_assoc. Qed.

Lemma slice_key_path pre ts t i :
  slice_key (pre ++ key_of (ts ++ [t])) i = pre ++ key_of (ts ++ [t ++ "[" :: itoa i ++ ["]"]]).
Proof.
  unfold slice_key. destruct (decide (ts = [])) as [->|Hne]; simpl; [by rewrite -app_assoc|].
  rewrite !key_of_snoc //. by rewrite -!app_assoc.
Qed.

Lemma digit_is_digit n : n < 10 → is_digit (digit n) = true.
Proof. intros Hn. do 10 (destruct n as [|n]; [done|]). lia. Qed.

Lemma itoa_go_digits fuel n : Forall (λ a, is_digit a = true) (itoa_go fuel n).
Proof.
  revert n. induction fuel as [|fuel IH]; intros n; cbn [itoa_go]; [constructor|].
  destruct (Nat.ltb_spec n 10); [constructor; [by apply digit_is_digit | constructor]|].
  apply Forall_app. split; [done|]. constructor; [|constructor]. apply digit_is_digit, Nat.mod_upper_bound. lia.
Qed.

Lemma itoa_nonempty n : itoa n ≠ [].
Proof. unfold itoa. simpl. destruct (n <? 10); [done|]. by destruct (itoa_go _ _). Qed.

Lemma digit_value n : n < 10 → nat_of_ascii (digit n) = 48 + n.
Proof. intros Hn. do 10 (destruct n as [|n]; [done|]). lia. Qed.

Lemma itoa_go_value fuel n :
  n < fuel → fold_left (λ z a, (z * 10 + (Z.of_nat (nat_of_ascii a) - 48))%Z) (itoa_go fuel n) 0%Z = Z.of_nat n.
Proof.
  revert n. induction fuel as [|fuel IH]; intros n Hn; [lia|]. cbn [itoa_go].
  destruct (Nat.ltb_spec n 10); [simpl; rewrite digit_value //; lia|].
  rewrite fold_left_app IH;  [apply (Nat.le_lt_trans _ (n / 2)); [apply Nat.div_le_compat_l; lia|]; pose proof (Nat.div_lt n 2); lia|].
  cbn [fold_left]. rewrite digit_value; [apply Nat.mod_upper_bound; lia|]. pose proof (Nat.div_mod_eq n 10). lia.
Qed.

Lemma Atoi_itoa n : (Z.of_nat n ≤ max_int)%Z → Atoi (itoa n) = Z.of_nat n.
Proof. intros Hn. unfold Atoi, itoa. rewrite itoa_go_value; [lia|]. by apply Z.min_r. Qed.

Lemma span_digits_app ds b rest :
  Forall (λ a, is_digit a = true) ds → is_digit b = false → span_digits (ds ++ b :: rest) = (ds, b :: rest).
Proof. intros Hds Hb. induction Hds as [|a ds Ha _ IH]; simpl; [by rewrite Hb|]. by rewrite Ha IH. Qed.

Lemma parse_plain t : plain t → parse_segment t = ((-1)%Z, t).
Proof. intros (_ & Hb & _). unfold parse_segment. by rewrite bool_decide_false. Qed.

Lemma parse_element t i :
  plain t → (Z.of_nat i ≤ max_int)%Z → parse_segment (t ++ "[" :: itoa i ++ ["]"]) = (Z.of_nat i, t).
Proof.
  intros (Ht & Hb & Hn) Hi. unfold parse_segment. rewrite bool_decide_true; [set_solver|]. unfold getIndex.
  rewrite reverse_app reverse_cons reverse_app -!app_assoc. simpl. rewrite span_digits_app //.
  { rewrite reverse_Permutation. apply itoa_go_digits. }
  destruct (reverse (itoa i)) as [|d ds] eqn:Hd.
  { apply (f_equal reverse) in Hd. rewrite reverse_involutive in Hd. by apply itoa_nonempty in Hd. }
  destruct (reverse t) as [|c name] eqn:Hc.
  { apply (f_equal reverse) in Hc. rewrite reverse_involutive in Hc. by destruct Ht as [Ht _]. }
  rewrite -Hc -Hd !reverse_involutive bool_decide_true // bool_decide_true; [by rewrite elem_of_reverse|].
  by rewrite Atoi_itoa.
Qed.

Lemma scan_app b t s b' : scan b t = Some b' → scan b (t ++ s) = scan b' s.
Proof. revert b. induction t as [|r t IH]; intros b; simpl; [by intros [= ->]|]. case_match; [done|]. apply IH. Qed.

Lemma scan_digits ds s : Forall (λ a, is_digit a = true) ds → scan false (ds ++ s) = scan false s.
Proof.
  induction 1 as [|a ds Ha _ IH]; [done|]. cbn [app scan]. rewrite andb_true_r.
  rewrite !bool_decide_false; [by intros ->..|]. apply IH.
Qed.

Lemma segment_element t i : plain t → segment (t ++ "[" :: itoa i ++ ["]"]).
Proof.
  intros ((Hne & Hs & Hl) & _). split_and!; [by destruct t| |by rewrite app_comm_cons app_assoc last_snoc].
  rewrite (scan_app _ _ _ _ Hs). cbn [scan]. rewrite andb_true_r !bool_decide_false //=.
  rewrite scan_digits; [apply itoa_go_digits | done].
Qed.

Lemma path_snoc ts t : path (ts ++ [t]) = path ts ++ [parse_segment t].
Proof. unfold path. by rewrite fmap_app. Qed.
End Keys.

(** ** A merge is an update *)
Section MergeLemmas.
Context {scalar : Type} (zero_of : scalar → scalar) (string_len : scalar → option nat).
Abbreviation value := (value scalar).
Implicit Types (v w source : value) (m s : gmap text value) (p : list (Z * text)) (ts : list text) (key pre k t : text).

Lemma upd_id v p : ready v p → path_get v p ≠ VNil → upd v p (λ w, w) = v.
Proof.
  revert v. induction p as [|[i n] p IH]; intros v; [done|]. cbn [ready upd]. intros (m & Hm & Hs & Hr).
  rewrite (path_get_step _ _ _ _ _ Hm). intros Hne. rewrite Hm IH //.
  assert (Hp : pick i (default VNil (m !! n)) ≠ VNil) by (intros He; rewrite He path_get_nil in Hne; done).
  destruct (m !! n) as [old|] eqn:Hn; [|done]. cbn [default from_option] in *. unfold id in *.
  assert (v = VMsn m) as ->. { destruct (node_map_inv _ _ Hm) as [->|[_ ->]]; [done|]. by rewrite lookup_empty in Hn. }
  f_equal. apply insert_id. rewrite Hn. f_equal. destruct Hs as [->|(l & -> & Hi)]; [by destruct old|].
  unfold place. rewrite (proj2 (Z.ltb_ge i 0)); [lia|]. rewrite pick_in_range in Hp |- *; [lia..|].
  destruct (l !! Z.to_nat i) as [x|] eqn:Hx; [|done]. pose proof (lookup_lt_Some _ _ _ Hx).
  rewrite (proj2 (Nat.ltb_lt _ _)) //=. by rewrite list_insert_id.
Qed.

Lemma upd_const v p f : ready v p → upd v p f = upd v p (λ _, f (path_get v p)).
Proof. intros Hr. by apply upd_ext. Qed.

Lemma upd_same v p : ready v p → path_get v p ≠ VNil → upd v p (λ _, path_get v p) = v.
Proof. intros Hr Hne. rewrite -(upd_const v p (λ w, w)) //. by apply upd_id. Qed.

(** What a state is after an update of the value at a path. *)
Lemma update_state m m' p f :
  full (VMsn m) → ready (VMsn m) p → full (f (path_get (VMsn m) p)) → VMsn m' = upd (VMsn m) p f →
  full (VMsn m') ∧ ready (VMsn m') p ∧ path_get (VMsn m') p = f (path_get (VMsn m) p) ∧
  ∀ c, upd (VMsn m') p (λ _, c) = upd (VMsn m) p (λ _, c).
Proof.
  intros Hm Hr Hf ->. split_and!; [apply upd_full; [by right|done..] | by apply ready_upd | by apply path_get_upd |].
  intros c. by rewrite upd_upd.
Qed.

(** *** The result of a deep merge *)
Lemma merge_lookup (fs : gmap text (value → value)) m k :
  merge (λ o f, match f with Some f => Some (f (default VNil o)) | None => o end) m fs !! k =
  match fs !! k with Some f => Some (f (default VNil (m !! k))) | None => m !! k end.
Proof. rewrite lookup_merge. by destruct (m !! k), (fs !! k). Qed.

Lemma update_all_lookup (fs : list (value → value)) l i :
  update_all fs l !! i = match fs !! i with Some f => Some (f (default VNil (l !! i))) | None => l !! i end.
Proof.
  revert l i. induction fs as [|f fs IH]; intros l i; [by destruct l|].
  destruct l as [|v l]; destruct i as [|i]; simpl; [done| |done|]; rewrite IH //.
Qed.

Lemma deep_merge_full source old : source_ok source → fulln old → compat source old → full (deep_merge source old).
Proof.
  intros Hs. revert old. induction Hs as [s|s _ _ IH|l _ _ _ IH]; intros old Ho; [by constructor| |].
  - intros (m & Hm & Hc). simpl. rewrite Hm. constructor. intros k x. rewrite merge_lookup lookup_fmap.
    destruct (s !! k) as [v|] eqn:Hk; simpl; [|by apply (node_map_full old)]. intros [= <-].
    eapply IH; [done | by apply (default_fulln old) | apply Hc; by rewrite lookup_fmap Hk].
  - intros (lv & Hlv & Hc). simpl. rewrite Hlv. constructor. intros i x. rewrite update_all_lookup list_lookup_fmap.
    assert (Hel : fulln (default VNil (lv !! i)) ∧ ∀ x, lv !! i = Some x → full x).
    { destruct old; try done; injection Hlv as <-; [by split; [left|]|].
      destruct Ho as [?|Ho]; [done|]. inversion Ho as [|? Hl|]; subst. split; [|by apply Hl].
      destruct (_ !! i) eqn:Hi; [right; by eapply Hl | by left]. }
    destruct (l !! i) as [v|] eqn:Hi; simpl; [|by apply Hel]. intros [= <-].
    eapply IH; [done | by apply Hel | apply Hc; by rewrite list_lookup_fmap Hi].
Qed.

(** The entries of a map one after the other. *)
Definition put_entries (L : list (text * value)) m : gmap text value :=
  fold_left (λ m kv, <[kv.1 := deep_merge kv.2 (default VNil (m !! kv.1))]> m) L m.

Lemma put_entries_lookup L m k :
  NoDup L.*1 →
  put_entries L m !! k =
  match list_to_map (M := gmap text value) L !! k with Some v => Some (deep_merge v (default VNil (m !! k))) | None => m !! k end.
Proof.
  revert m. induction L as [|[k' v] L IH]; intros m; simpl; [by rewrite lookup_empty|].
  intros [Hk' Hnd]%NoDup_cons. unfold put_entries in IH. rewrite IH //. destruct (decide (k = k')) as [->|Hne].
  - rewrite !lookup_insert_eq. by rewrite not_elem_of_list_to_map_1.
  - by rewrite !lookup_insert_ne.
Qed.

Lemma put_entries_deep_merge o s old m :
  node_map old = Some m → VMsn (put_entries (enum o s) m) = deep_merge (VMsi s) old.
Proof.
  intros Hm. simpl. rewrite Hm. f_equal. apply map_eq. intros k.
  rewrite merge_lookup lookup_fmap put_entries_lookup; [apply enum_nodup_keys|].
  rewrite -(list_to_map_proper (map_to_list s) (enum o s)).
  - apply NoDup_fst_map_to_list.
  - by rewrite (enum_perm o s).
  - rewrite list_to_map_to_list. by destruct (s !! k).
Qed.

Lemma upd_entry v k f m : node_map v = Some m → upd v [((-1)%Z, k)] f = VMsn (<[k := f (default VNil (m !! k))]> m).
Proof. intros Hm. simpl. rewrite Hm. unfold place, pick. simpl. by destruct (m !! k) as [[]|]. Qed.

Lemma depth_entry s k v : s !! k = Some v → depth v < depth (VMsi s).
Proof.
  intros Hk. simpl. apply Nat.lt_succ_r. apply max_list_elem_of_le. apply list_elem_of_fmap. exists (k, depth v).
  split; [done|]. apply elem_of_map_to_list. by rewrite lookup_fmap Hk.
Qed.

Lemma depth_element (l : list value) i v : l !! i = Some v → depth v < depth (VSlice l).
Proof.
  intros Hi. simpl. apply Nat.lt_succ_r. apply max_list_elem_of_le. apply list_elem_of_fmap. exists v.
  split; [done|]. by eapply list_elem_of_lookup_2.
Qed.
End MergeLemmas.

Section MergeUpdate.
Context {scalar : Type} (zero_of : scalar → scalar) (string_len : scalar → option nat).
Context (o : map_order text (value scalar)).
Abbreviation value := (value scalar).
Abbreviation mapx := (mapx scalar).
Implicit Types (v source : value) (m s w : gmap text value) (p : list (Z * text)) (ts : list text) (key pre k t : text).

(** The outcome of a merge: the value at a path is replaced. *)
Definition updated m p new (c : eff mapx) : Prop :=
  ∃ m', c = Some (Ok m') ∧ VMsn m' = upd (VMsn m) p (λ _, new).

(** What a merge into a path needs. *)
Record mergeable m ts source : Prop := {
  mergeable_segments : Forall segment ts;
  mergeable_full : full (VMsn m);
  mergeable_ready : ready (VMsn m) (path ts);
  mergeable_compat : compat source (path_get (VMsn m) (path ts));
  mergeable_source : source_ok source;
  mergeable_slice : is_slice source → ∃ ts0 t, ts = ts0 ++ [t] ∧ plain t
}.

(** The claim, for sources up to a depth. *)
Definition merges (fuel : nat) : Prop := ∀ pre ts source m,
  depth source < fuel → dots pre → ts ≠ [] → mergeable m ts source →
  updated m (path ts) (deep_merge source (path_get (VMsn m) (path ts)))
    (doMerge zero_of string_len fuel o (pre ++ key_of ts) source false m).

Lemma mergeable_result m ts source :
  mergeable m ts source → full (deep_merge source (path_get (VMsn m) (path ts))).
Proof. intros [Hts Hm Hr Hc Hs _]. apply deep_merge_full; [done | by apply path_get_fulln; right | done]. Qed.

(** One entry of a map at a path. *)
Lemma merge_entry fuel key pre ts k v m w :
  merges fuel → depth v < fuel → dots pre → Forall segment ts → map_key key k = pre ++ key_of (ts ++ [k]) →
  full (VMsn m) → ready (VMsn m) (path ts) → node_map (path_get (VMsn m) (path ts)) = Some w →
  plain k → source_ok v → compat v (default VNil (w !! k)) →
  let w' := <[k := deep_merge v (default VNil (w !! k))]> w in
  ∃ m', doMerge zero_of string_len fuel o (map_key key k) v false m = Some (Ok m') ∧
    full (VMsn m') ∧ ready (VMsn m') (path ts) ∧ path_get (VMsn m') (path ts) = VMsn w' ∧
    ∀ c, upd (VMsn m') (path ts) (λ _, c) = upd (VMsn m) (path ts) (λ _, c).
Proof.
  intros IH Hd Hpre Hts Hkey Hm Hr Hw Hk Hv Hc. simpl.
  assert (Hpk : path (ts ++ [k]) = path ts ++ [((-1)%Z, k)]) by (by rewrite path_snoc parse_plain).
  assert (Hget : path_get (VMsn m) (path (ts ++ [k])) = default VNil (w !! k)).
  { rewrite Hpk path_get_app (path_get_step _ _ _ _ _ Hw). simpl. by destruct (default VNil (w !! k)). }
  assert (Hmerge : mergeable m (ts ++ [k]) v).
  { split; [| done | | by rewrite Hget | done |].
    - apply Forall_app. split; [done|]. constructor; [apply Hk | constructor].
    - rewrite Hpk ready_app. split; [done|]. exists w. split_and!; [done | by left | done].
    - intros _. by exists ts, k. }
  rewrite Hkey. destruct (IH pre (ts ++ [k]) v m Hd Hpre) as (m' & -> & Hm'); [by destruct ts | done|].
  pose proof (mergeable_result _ _ _ Hmerge) as Hfull. rewrite Hget in Hm', Hfull.
  rewrite Hpk upd_app // in Hm'.
  assert (Hval : ∀ x, upd (path_get (VMsn m) (path ts)) [((-1)%Z, k)] (λ _, x) = VMsn (<[k := x]> w)) by (intros; by apply upd_entry).
  exists m'. split; [done|].
  destruct (update_state m m' (path ts) (λ x, upd x [((-1)%Z, k)] (λ _, deep_merge v (default VNil (w !! k)))))
    as (Hf' & Hr' & Hg' & Hu'); [done..| |done|].
  - rewrite Hval. constructor. intros k' x [[_ <-]|[_ Hx]]%lookup_insert_Some; [done|].
    eapply (node_map_full (path_get (VMsn m) (path ts)) w); [by apply path_get_fulln; right | done | done].
  - rewrite Hval in Hg'. by split_and!.
Qed.

(** The loop over the entries of a map. *)
Lemma merge_entries fuel key pre ts L m w :
  merges fuel → dots pre → Forall segment ts → (∀ k, map_key key k = pre ++ key_of (ts ++ [k])) →
  full (VMsn m) → ready (VMsn m) (path ts) → path_get (VMsn m) (path ts) = VMsn w →
  NoDup L.*1 → Forall (λ kv, plain kv.1 ∧ source_ok kv.2 ∧ compat kv.2 (default VNil (w !! kv.1)) ∧ depth kv.2 < fuel) L →
  updated m (path ts) (VMsn (put_entries L w))
    (eff_fold (λ m kv, doMerge zero_of string_len fuel o (map_key key kv.1) kv.2 false m) m L).
Proof.
  intros IH Hpre Hts Hkey. revert m w. induction L as [|[k v] L IHL]; intros m w Hm Hr Hw Hnd HL.
  - exists m. split; [done|]. rewrite /= -Hw upd_same //. by rewrite Hw.
  - apply NoDup_cons in Hnd as [Hk' Hnd]. apply Forall_cons in HL as [(Hk & Hv & Hc & Hd) HL].
    destruct (merge_entry fuel key pre ts k v m w) as (m1 & He & Hm1 & Hr1 & Hw1 & Hu1); try done; [by rewrite Hw|].
    cbn [eff_fold fst snd]. rewrite He. cbn [eff_bind].
    destruct (IHL m1 _ Hm1 Hr1 Hw1 Hnd) as (m' & Hm' & Hu).
    { apply Forall_forall. intros [k1 v1] Hin. rewrite Forall_forall in HL. specialize (HL _ Hin). simpl in *.
      rewrite lookup_insert_ne //. intros ->. apply Hk'. apply list_elem_of_fmap. by exists (k1, v1). }
    exists m'. split; [done|]. by rewrite Hu Hu1.
Qed.

Lemma place_slice i (l : list value) x : i ≤ length l → place (Z.of_nat i) (VSlice l) x = VSlice (take i l ++ x :: drop (S i) l).
Proof.
  intros Hi. unfold place. rewrite (proj2 (Z.ltb_ge (Z.of_nat i) 0)); [lia|]. rewrite Nat2Z.id.
  destruct (Nat.ltb_spec i (length l)) as [Hl|Hl].
  - by rewrite insert_take_drop.
  - rewrite take_ge // drop_ge //; lia.
Qed.

(** One element of a slice at a path. *)
Lemma merge_element fuel pre ts t i x m (l : list value) :
  merges fuel → depth x < fuel → dots pre → Forall segment ts → plain t → (Z.of_nat i ≤ max_int)%Z →
  let p := path (ts ++ [t]) in
  full (VMsn m) → ready (VMsn m) p → path_get (VMsn m) p = VSlice l → i ≤ length l →
  source_ok x → ¬ is_slice x → compat x (default VNil (l !! i)) →
  ∃ m', doMerge zero_of string_len fuel o (slice_key (pre ++ key_of (ts ++ [t])) i) x false m = Some (Ok m') ∧
    full (VMsn m') ∧ ready (VMsn m') p ∧
    path_get (VMsn m') p = VSlice (take i l ++ deep_merge x (default VNil (l !! i)) :: drop (S i) l) ∧
    ∀ c, upd (VMsn m') p (λ _, c) = upd (VMsn m) p (λ _, c).
Proof.
  intros IH Hd Hpre Hts Ht Hi p Hm Hr Hl Hil Hx Hns Hc. subst p.
  rewrite slice_key_path. set (te := t ++ "[" :: itoa i ++ ["]"]).
  assert (Hpt : path (ts ++ [t]) = path ts ++ [((-1)%Z, t)]) by (by rewrite path_snoc parse_plain).
  assert (Hpe : path (ts ++ [te]) = path ts ++ [(Z.of_nat i, t)]) by (by rewrite path_snoc parse_element).
  rewrite Hpt in Hr, Hl |- *. apply ready_app in Hr as Hr0. destruct Hr0 as [Hr0 (w & Hw & _)].
  rewrite path_get_app (path_get_step _ _ _ _ _ Hw) in Hl. simpl in Hl.
  assert (Hold : default VNil (w !! t) = VSlice l) by (by destruct (default VNil (w !! t))).
  assert (Hget : path_get (VMsn m) (path (ts ++ [te])) = default VNil (l !! i)).
  { rewrite Hpe path_get_app (path_get_step _ _ _ _ _ Hw) Hold. cbn [path_get]. rewrite pick_in_range; [lia|]. by rewrite Nat2Z.id. }
  assert (Hmerge : mergeable m (ts ++ [te]) x).
  { split; [|done| |by rewrite Hget|done|done].
    - apply Forall_app. split; [done|]. constructor; [by apply segment_element | constructor].
    - rewrite Hpe ready_app. split; [done|]. exists w. rewrite Hold. split_and!; [done | | done]. right. exists l. split; [done|lia]. }
  destruct (IH pre (ts ++ [te]) x m Hd Hpre) as (m' & -> & Hm'); [by destruct ts | done|].
  pose proof (mergeable_result _ _ _ Hmerge) as Hfull. rewrite Hget in Hm', Hfull.
  set (y := deep_merge x (default VNil (l !! i))) in *. rewrite Hpe upd_app // in Hm'.
  assert (Hm2 : VMsn m' = upd (VMsn m) (path ts ++ [((-1)%Z, t)]) (λ _, VSlice (take i l ++ y :: drop (S i) l))).
  { rewrite Hm' upd_app //. apply upd_ext; [done|]. cbn [upd]. by rewrite Hw Hold place_slice. }
  exists m'. split; [done|].
  assert (Hgt : path_get (VMsn m) (path ts ++ [((-1)%Z, t)]) = VSlice l) by (by rewrite path_get_app (path_get_step _ _ _ _ _ Hw) Hold).
  apply (update_state m m' _ (λ _, VSlice (take i l ++ y :: drop (S i) l))); [done..| |done].
  assert (Hfl : fulln (VSlice l)) by (rewrite -Hgt; apply path_get_fulln; by right).
  destruct Hfl as [?|Hfl]; [done|]. inversion Hfl as [|? Hel|]; subst. constructor. intros j z Hj.
  apply lookup_app_Some in Hj as [Hj|[_ Hj]]; [apply lookup_take_Some in Hj as [Hj _]; by eapply Hel|].
  apply lookup_cons_Some in Hj as [[_ <-]|[_ Hj]]; [done|]. rewrite lookup_drop in Hj. by eapply Hel.
Qed.

Lemma update_all_step (l : list value) i y :
  i ≤ length l →
  let l' := take i l ++ y :: drop (S i) l in
  S i ≤ length l' ∧ take (S i) l' = take i l ++ [y] ∧ drop (S i) l' = drop (S i) l.
Proof.
  intros Hi. simpl. split_and!.
  - rewrite length_app /= length_take length_drop. lia.
  - rewrite cons_middle app_assoc take_app_length' //. rewrite length_app length_take /=. lia.
  - rewrite cons_middle app_assoc drop_app_length' //. rewrite length_app length_take /=. lia.
Qed.

Lemma imap_shift (l : list value) i (x : value) :
  imap (λ j, pair (i + j)) (x :: l) = (i, x) :: imap (λ j, pair (S i + j)) l.
Proof. simpl. f_equal; [by rewrite Nat.add_0_r|]. apply imap_ext. intros j y _. simpl. by rewrite Nat.add_succ_r. Qed.

(** The loop over the elements of a slice. *)
Lemma merge_elements fuel pre ts t xs i m (l : list value) :
  merges fuel → dots pre → Forall segment ts → plain t → (Z.of_nat (i + length xs) ≤ max_int)%Z →
  let p := path (ts ++ [t]) in
  full (VMsn m) → ready (VMsn m) p → path_get (VMsn m) p = VSlice l → i ≤ length l →
  (∀ j x, xs !! j = Some x → source_ok x ∧ ¬ is_slice x ∧ compat x (default VNil (l !! (i + j))) ∧ depth x < fuel) →
  updated m p (VSlice (take i l ++ update_all (deep_merge <$> xs) (drop i l)))
    (eff_fold (λ m ix, doMerge zero_of string_len fuel o (slice_key (pre ++ key_of (ts ++ [t])) ix.1) ix.2 false m) m
       (imap (λ j, pair (i + j)) xs)).
Proof.
  intros IH Hpre Hts Ht Hmax p. revert i m l Hmax. induction xs as [|x xs IHx]; intros i m l Hmax Hm Hr Hl Hil Hxs.
  - exists m. split; [done|]. simpl. by rewrite take_drop -Hl upd_same // Hl.
  - destruct (Hxs 0 x eq_refl) as (Hx & Hns & Hc & Hd). rewrite Nat.add_0_r in Hc. rewrite imap_shift. simpl in Hmax.
    destruct (merge_element fuel pre ts t i x m l) as (m1 & He & Hm1 & Hr1 & Hl1 & Hu1); try done; [lia|].
    cbn [eff_fold fst snd]. rewrite He. cbn [eff_bind].
    destruct (update_all_step l i (deep_merge x (default VNil (l !! i))) Hil) as (Hlen & Htake & Hdrop).
    destruct (IHx (S i) m1 _ ltac:(lia) Hm1 Hr1 Hl1 Hlen) as (m' & Hm' & Hu).
    { intros j y Hj. destruct (Hxs (S j) y Hj) as (Hy & Hys & Hyc & Hyd). split_and!; [done..| |done].
      enough ((take i l ++ deep_merge x (default VNil (l !! i)) :: drop (S i) l) !! (S i + j) = l !! (i + S j)) as -> by done.
      rewrite -lookup_drop Hdrop lookup_drop. f_equal. lia. }
    assert (Hd0 : ∀ f fs, update_all (f :: fs) (drop i l) = f (default VNil (l !! i)) :: update_all fs (drop (S i) l)).
    { intros f fs. destruct (l !! i) as [z|] eqn:Hz; [by rewrite (drop_S _ _ _ Hz)|].
      apply lookup_ge_None in Hz. rewrite !drop_ge; [lia|lia|done]. }
    exists m'. split; [done|]. rewrite Hu Hu1 Htake Hdrop -app_assoc fmap_cons Hd0. done.
Qed.

(** *** Merges at a path *)
Lemma merge_map fuel pre ts s m :
  merges fuel → depth (VMsi s) < S fuel → dots pre → ts ≠ [] → mergeable m ts (VMsi s) →
  updated m (path ts) (deep_merge (VMsi s) (path_get (VMsn m) (path ts)))
    (doMerge zero_of string_len (S fuel) o (pre ++ key_of ts) (VMsi s) false m).
Proof.
  intros IH Hd Hpre Hne [Hts Hm Hr (w & Hw & Hc) Hs _]. set (old := path_get (VMsn m) (path ts)) in *.
  cbn [doMerge]. rewrite bool_decide_false; [by apply dots_not_root|]. simpl andb.
  rewrite Has_full //. fold old. cbn [eff_bind]. rewrite negb_involutive. inversion Hs as [|? Hk Hv|]; subst.
  destruct (decide (s = ∅)) as [->|Hse].
  - rewrite map_size_empty Nat.eqb_refl andb_true_r. destruct (is_nil old) eqn:Hold.
    + destruct (doSet_full zero_of string_len pre ts m (VMsi ∅)) as (m' & Hset & Hm'); [done..|by constructor|done|].
      exists m'. split; [done|]. rewrite Hm'. by destruct old.
    + exists m. rewrite (enum_empty o). split; [done|].
      assert (deep_merge (VMsi ∅) old = old) as ->; [|by rewrite upd_same // -/old; intros He; rewrite He in Hold].
      simpl. rewrite Hw. destruct (node_map_inv _ _ Hw) as [->|[-> _]]; [|done]. f_equal. apply map_eq. intros k.
      by rewrite merge_lookup fmap_empty lookup_empty.
  - rewrite (proj2 (Nat.eqb_neq _ _)); [by apply map_size_non_empty_iff|]. rewrite andb_false_r.
    destruct (enum o s) as [|[k v] L] eqn:Henum.
    { destruct Hse. apply map_size_empty_iff. by rewrite -(length_enum o) Henum. }
    assert (Hin : ∀ k' v', (k', v') ∈ (k, v) :: L → s !! k' = Some v') by (intros ??; rewrite -Henum; apply elem_of_enum).
    assert (Hentry : ∀ k' v', (k', v') ∈ (k, v) :: L →
      plain k' ∧ source_ok v' ∧ compat v' (default VNil (w !! k')) ∧ depth v' < fuel).
    { intros k' v' H%Hin. split_and!; [by eapply Hk | by eapply Hv | apply Hc; by rewrite lookup_fmap H |].
      pose proof (depth_entry _ _ _ H). lia. }
    pose proof (enum_nodup_keys o s) as Hnd. rewrite Henum in Hnd. apply NoDup_cons in Hnd as [Hk' Hnd].
    destruct (Hentry k v) as (Hpk & Hsv & Hcv & Hdv); [left|].
    destruct (merge_entry fuel (pre ++ key_of ts) pre ts k v m w) as (m1 & He & Hm1 & Hr1 & Hw1 & Hu1); try done;
      [by apply map_key_path|].
    cbn [eff_fold fst snd]. rewrite He. cbn [eff_bind].
    destruct (merge_entries fuel (pre ++ key_of ts) pre ts L m1 (<[k:=deep_merge v (default VNil (w !! k))]> w) IH Hpre Hts) as (m' & Hm' & Hu);
      [intros; by apply map_key_path | done..| |].
    { apply Forall_forall. intros [k1 v1] Hin1. simpl. rewrite lookup_insert_ne; [|apply Hentry; by right].
      intros ->. apply Hk'. apply list_elem_of_fmap. by exists (k1, v1). }
    exists m'. split; [done|]. rewrite Hu Hu1 -(put_entries_deep_merge o s old w Hw) Henum. done.
Qed.

Lemma merge_slice fuel pre ts xs m :
  merges fuel → depth (VSlice xs) < S fuel → dots pre → ts ≠ [] → mergeable m ts (VSlice xs) →
  updated m (path ts) (deep_merge (VSlice xs) (path_get (VMsn m) (path ts)))
    (doMerge zero_of string_len (S fuel) o (pre ++ key_of ts) (VSlice xs) false m).
Proof.
  intros IH Hd Hpre Hne [Hts Hm Hr (l & Hl & Hc) Hs Hsl]. destruct Hsl as (ts0 & t & -> & Ht); [by eexists|].
  inversion Hs as [| |? Hmax Hns Hxs]; subst. set (old := path_get (VMsn m) (path (ts0 ++ [t]))) in *.
  cbn [doMerge]. rewrite Has_full //. fold old. cbn [eff_bind].
  assert (Hprep : ∃ m1, (if negb (is_nil old) then eff_ret m else doSet zero_of string_len (pre ++ key_of (ts0 ++ [t])) (VSlice []) false m) =
      Some (Ok m1) ∧ full (VMsn m1) ∧ ready (VMsn m1) (path (ts0 ++ [t])) ∧ path_get (VMsn m1) (path (ts0 ++ [t])) = VSlice l ∧
      ∀ c, upd (VMsn m1) (path (ts0 ++ [t])) (λ _, c) = upd (VMsn m) (path (ts0 ++ [t])) (λ _, c)).
  { destruct (is_nil old) eqn:Hold.
    - destruct (doSet_full zero_of string_len pre (ts0 ++ [t]) m (VSlice [])) as (m1 & Hset & Hm1); [done..|by constructor|done|].
      exists m1. split; [done|]. destruct old; try done. injection Hl as <-.
      by apply (update_state m m1 _ (λ _, VSlice [])); [done..|constructor|].
    - exists m. split; [done|]. destruct old eqn:Ho; try done. injection Hl as <-. by split_and!. }
  destruct Hprep as (m1 & Hif & Hm1 & Hr1 & Hl1 & Hu1).
  match goal with |- updated _ _ _ (eff_bind ?c _) => replace c with (Some (Ok (E := map_panic) m1)) by exact (eq_sym Hif) end.
  cbn [eff_bind].
  destruct (merge_elements fuel pre ts0 t xs 0 m1 l) as (m' & Hm' & Hu); try done; [by apply Forall_app in Hts as [? _] | lia | |].
  { intros i x Hi. split_and!; [by eapply Hxs | by eapply Hns | apply Hc; by rewrite list_lookup_fmap Hi|].
    pose proof (depth_element _ _ _ Hi). lia. }
  exists m'. split; [done|]. rewrite Hu Hu1. cbn [deep_merge]. by rewrite Hl.
Qed.

Lemma merges_all fuel : merges fuel.
Proof.
  induction fuel as [|fuel IH]; intros pre ts source m Hd Hpre Hne Hmerge; [lia|].
  destruct (mergeable_source _ _ _ Hmerge) as [x|s Hk Hv|l Hmax Hns Hl]; [|by apply merge_map | by apply merge_slice].
  destruct Hmerge as [Hts Hm Hr _ _ _].
  by destruct (doSet_full zero_of string_len pre ts m (VScalar x)) as (m' & Hset & Hm'); [done..|constructor|done|exists m'].
Qed.
End MergeUpdate.

(** ** Theorems *)
Section Theorems.
Context {scalar : Type}.
Abbreviation value := (value scalar).
Implicit Types (m s : gmap text value).

Lemma deep_merge_empty (v : value) m : node_map v = Some m → deep_merge (VMsi ∅) v = VMsn m.
Proof. intros Hv. simpl. rewrite Hv. f_equal. apply map_eq. intros k. by rewrite merge_lookup fmap_empty lookup_empty. Qed.

Lemma Merge_root (zero_of : scalar → scalar) string_len o s m :
  full (VMsn m) → source_ok (VMsi s) → compat (VMsi s) (VMsn m) →
  ∃ m', Merge zero_of string_len o ["."] (VMsi s) false m = Some (Ok m') ∧ VMsn m' = deep_merge (VMsi s) (VMsn m).
Proof.
  intros Hm Hs (w & Hw & Hc). injection Hw as <-. unfold Merge. cbn [doMerge]. rewrite bool_decide_true //. cbn [andb].
  destruct (decide (s = ∅)) as [->|Hse].
  { rewrite map_size_empty. exists m. by rewrite (deep_merge_empty _ m). }
  rewrite (proj2 (Nat.eqb_neq _ _)); [by apply map_size_non_empty_iff|].
  assert (∃ has, Has zero_of string_len ["."] m = Some (Ok (m, has))) as [has ->].
  { unfold Has. case_decide; [by eexists|]. unfold doGet. by eexists. }
  cbn [eff_bind]. rewrite andb_false_r. inversion Hs as [|? Hk Hv|]; subst.
  destruct (merge_entries zero_of string_len o (depth (VMsi s)) ["."] [".";"."] [] (enum o s) m m) as (m' & Hm' & Hu);
    try done; [apply merges_all | by repeat constructor | apply enum_nodup_keys | | ].
  { apply Forall_forall. intros [k v] Hin%elem_of_enum. split_and!; [by eapply Hk | by eapply Hv | apply Hc; by rewrite lookup_fmap Hin |].
    by eapply depth_entry. }
  exists m'. split; [done|]. rewrite Hu. by apply (put_entries_deep_merge o s (VMsn m) m).
Qed.

(** C25: Merging a map into a map does not panic and gives the deep merge of the two: entries
    of the source replace scalars, unite with maps and merge with slices element by
    element, everything else stays; in whatever order the maps are visited. Each has no
    nil in it, maps of the source meet maps or nothing, its slices meet slices or nothing
    and hold no slices, and its names are free of separators and brackets. *)
Theorem Merge_correct (zero_of : scalar → scalar) string_len o s m :
  full (VMsn m) → source_ok (VMsi s) → compat (VMsi s) (VMsn m) →
  ∃ m', Merge zero_of string_len o ["."] (VMsi s) false m = Some (Ok m') ∧ VMsn m' = deep_merge (VMsi s) (VMsn m).
Proof. apply Merge_root. Qed.

Lemma deep_merge_idempotent (source old : value) :
  source_ok source → compat source old → deep_merge source (deep_merge source old) = deep_merge source old.
Proof.
  intros Hs. revert old. induction Hs as [x|s Hk _ IH|l _ _ _ IH]; intros old Hc; [done| |].
  - destruct Hc as (m & Hm & Hc). simpl. rewrite Hm. cbn [node_map]. f_equal. apply map_eq. intros k.
    rewrite !merge_lookup lookup_fmap. destruct (s !! k) as [v|] eqn:Hv; simpl; [|done]. f_equal.
    eapply IH; [done|]. apply Hc. by rewrite lookup_fmap Hv.
  - destruct Hc as (lv & Hlv & Hc). simpl. rewrite Hlv. cbn [node_slice]. f_equal. apply list_eq. intros i.
    rewrite !update_all_lookup list_lookup_fmap. destruct (l !! i) as [v|] eqn:Hv; simpl; [|done]. f_equal.
    eapply IH; [done|]. apply Hc. by rewrite list_lookup_fmap Hv.
Qed.
End Theorems.

(** ** Samples *)
Definition merge_target : mapx Z :=
  {[str "a" := VMsn {[str "b" := VScalar 1%Z; str "c" := VScalar 2%Z]}; str "l" := VSlice [VScalar 2%Z; VMsn {[str "x" := VScalar 3%Z]}]]}.
Definition merge_source : gmap text (value Z) :=
  {[str "a" := VMsi {[str "b" := VScalar 7%Z; str "d" := VMsi ∅]};
    str "l" := VSlice [VScalar 8%Z; VMsi {[str "y" := VScalar 4%Z]}; VScalar 9%Z]; str "n" := VScalar 5%Z]}.
Definition merge_result : mapx Z :=
  {[str "a" := VMsn {[str "b" := VScalar 7%Z; str "c" := VScalar 2%Z; str "d" := VMsn ∅]};
    str "l" := VSlice [VScalar 8%Z; VMsn {[str "x" := VScalar 3%Z; str "y" := VScalar 4%Z]}; VScalar 9%Z];
    str "n" := VScalar 5%Z]}.

Abbreviation merge o key source m := (Merge zero_Z_of no_len o key source false m).

Example merge_sample :
  merge canonical_order ["."] (VMsi merge_source) merge_target = Some (Ok merge_result) ∧
  merge reverse_order ["."] (VMsi merge_source) merge_target = Some (Ok merge_result).
Proof. split; vm_compute; reflexivity. Qed.

(** Slices in slices: the key "k[0][0]" of an inner element is read as the element 0 of the
    name "k[0]", so the inner elements end under a name of their own. *)
Lemma Merge_nested_slices :
  merge canonical_order ["."] (VMsi {[str "k" := VSlice [VSlice [VScalar 1%Z; VScalar 2%Z]]]}) ∅ =
  Some (Ok {[str "k" := VSlice [VSlice []]; str "k[0]" := VSlice [VScalar 1%Z; VScalar 2%Z]]}).
Proof. vm_compute. reflexivity. Qed.

(** A nil in a slice of the source panics. *)
Lemma Merge_nil_element :
  merge canonical_order ["."] (VMsi {[str "k" := VSlice [VNil]]}) ∅ = Some (Err ReflectPanic).
Proof. vm_compute. reflexivity. Qed.

(** A map over a scalar is dropped without a word. *)
Lemma Merge_map_over_scalar :
  merge canonical_order ["."] (VMsi {[str "k" := VMsi {[str "x" := VScalar 1%Z]}]}) {[str "k" := VScalar 0%Z]} =
  Some (Ok {[str "k" := VScalar 0%Z]}).
Proof. vm_compute. reflexivity. Qed.

Lemma map_entries {A} (P : text → A → Prop) (m : gmap text A) :
  Forall (λ kv, P kv.1 kv.2) (map_to_list m) → ∀ k v, m !! k = Some v → P k v.
Proof. intros HF k v Hk. rewrite Forall_forall in HF. apply (HF (k, v)). by apply elem_of_map_to_list. Qed.

Lemma slice_elements {A} (P : A → Prop) (l : list A) : Forall P l → ∀ i v, l !! i = Some v → P v.
Proof. intros HF i v Hi. by eapply Forall_lookup_1. Qed.

Instance segment_dec t : Decision (segment t).
Proof. unfold segment. apply _. Defined.

Instance plain_dec t : Decision (plain t).
Proof. unfold plain. apply _. Defined.

(** A property of the entries of a concrete map, or of the elements of a slice. *)
Ltac each_entry :=
  match goal with
  | |- ∀ k v, ?m !! k = Some v → @?P k v =>
      apply (map_entries P m); let l := eval vm_compute in (map_to_list m) in
      let H := fresh in assert (H : map_to_list m = l) by (vm_compute; reflexivity); rewrite H; clear H;
      repeat (apply Forall_cons; split; cbn [fst snd]); try (apply Forall_nil; exact I)
  | |- ∀ i v, ?m !! i = Some v → @?P v =>
      apply (slice_elements P m); repeat (apply Forall_cons; split); try (apply Forall_nil; exact I)
  end.

Ltac concrete_value :=
  repeat (match goal with
  | |- plain _ => apply (bool_decide_unpack _); vm_compute; exact I
  | |- ¬ is_slice _ => by intros [? ?]
  | |- full _ => constructor
  | |- source_ok _ => constructor; [..]
  | |- ∀ _, _ => each_entry
  | |- (_ ≤ _)%Z => by vm_compute
  end).

Lemma merge_target_full : full (VMsn merge_target).
Proof.
unfold merge_target. concrete_value.
Qed.

Lemma merge_source_ok : source_ok (VMsi merge_source).
Proof. unfold merge_source. concrete_value. Qed.

Lemma compat_map {scalar} (s : gmap text (value scalar)) old m :
  node_map old = Some m → (∀ k v, s !! k = Some v → compat v (default VNil (m !! k))) → compat (VMsi s) old.
Proof.
  intros Hm Hs. exists m. split; [done|]. intros k P. rewrite lookup_fmap.
  destruct (s !! k) eqn:Hk; simpl; [|done]. intros [= <-]. by apply Hs.
Qed.

Lemma compat_slice {scalar} (l : list (value scalar)) old lv :
  node_slice old = Some lv → Forall2 compat l (take (length l) (lv ++ replicate (length l) VNil)) → compat (VSlice l) old.
Proof.
  intros Hl HF. exists lv. split; [done|]. intros i P. rewrite list_lookup_fmap.
  destruct (l !! i) as [v|] eqn:Hi; simpl; [|done]. intros [= <-].
  destruct (Forall2_lookup_l _ _ _ _ _ HF Hi) as (x & Hx & Hc). apply lookup_take_Some in Hx as [Hx _].
  apply lookup_app_Some in Hx as [Hx|[Hx Hr]]; [by rewrite Hx|].
  apply lookup_replicate in Hr as [-> _]. by rewrite (proj2 (lookup_ge_None _ _)).
Qed.

Ltac concrete_compat :=
  repeat (match goal with
  | |- compat _ (default VNil ?o) => let x := eval vm_compute in (default VNil o) in
      let H := fresh in assert (H : default VNil o = x) by (vm_compute; reflexivity); rewrite H; clear H
  | |- compat (VMsi _) _ => eapply compat_map; [reflexivity | each_entry]
  | |- compat (VSlice _) _ => eapply compat_slice; [reflexivity | repeat (apply Forall2_cons; split); try by apply Forall2_nil]
  | |- compat (VScalar _) _ => exact I
  end).

Lemma merge_compat : compat (VMsi merge_source) (VMsn merge_target).
Proof. unfold merge_source. concrete_compat. Qed.

Lemma Merge_correct_witness :
  ∃ m', merge canonical_order ["."] (VMsi merge_source) merge_target = Some (Ok m') ∧
        VMsn m' = deep_merge (VMsi merge_source) (VMsn merge_target).
Proof.
  apply (Merge_correct zero_Z_of no_len canonical_order merge_source merge_target);
    [apply merge_target_full | apply merge_source_ok | apply merge_compat].
Defined.
