(* ===== verification/Cfg.v ===== *)
(** The configuration: pkg/cfg/config.go, sanitizer.go, postprocessor.go, environment.go.
    Settings are the nested maps of MapX; a value is read with the environment over it, is
    written back, and texts are augmented with the values of other keys.  Structs, which
    need Go's reflection, are left out. *)
From Stdlib Require Import Ascii.
From S2P Require Import Prelude Texts FunkMaps MapX MapMerge.

Open Scope char_scope.
Open Scope nat_scope.

(** ** Regular expressions *)

Definition is_name (a : ascii) : bool :=
  in_range 48 57 a || in_range 65 90 a || in_range 97 122 a || bool_decide (a ∈ ["_"; "."; "-"]).

(** [pkg/cfg/config.go:65-65] templateRegexp *)
Definition template_match (s : text) : option (text * text * text) :=
  match s with
  | "{" :: s =>
      match span is_name s with
      | ((_ :: _) as name, "}" :: rest) => Some ("{" :: name ++ ["}"], name, rest)
      | _ => None
      end
  | _ => None
  end.

(** [pkg/cfg/config.go:66-66] keyToEnvRegexp *)
Definition index_match (s : text) : option (text * text * text) :=
  match s with
  | "[" :: s =>
      match span is_digit s with
      | ((_ :: _) as ds, "]" :: rest) => Some ("[" :: ds ++ ["]"], ds, rest)
      | _ => None
      end
  | _ => None
  end.

(** [pkg/cfg/config.go:64-64] valFlagsRegexp: its second and third group; the third one ends at the first
    line break *)
Definition val_flags (s : text) : text * text :=
  let line s := (span (λ a, negb (bool_decide (a = "010"))) s).1 in
  match s with
  | "!" :: s' =>
      match span (λ a, negb (is_regexp_space a)) s' with
      | (flags, _ :: rest) => (flags, line rest)
      | _ => ([], line s)
      end
  | _ => ([], line s)
  end.

(** [pkg/cfg/config.go:63-63] DefaultEnvKeyReplacer *)
Definition env_char (a : ascii) : ascii := if bool_decide (a = ".") || bool_decide (a = "-") then "_" else a.
Definition DefaultEnvKeyReplacer (s : text) : text := env_char <$> s.

(** [pkg/cfg/config.go:646-662] resolveEnvKey *)
Definition resolveEnvKey (replacer : option (text → text)) (prefix key : text) : text :=
  let key := match prefix with [] => key | _ => prefix ++ "." :: key end in
  let key := fold_left (λ key m, ReplaceAll key m.1 ("." :: m.2)) (find_all (length key) index_match key) key in
  let key := match replacer with Some r => r key | None => key end in
  ToUpper key.

(** ** The environment *)
Class EnvProvider (P : Type) := { LookupEnv : P → text → option text; PrefixExists : P → text → bool }.

(** What a configuration relies on: a prefix exists when a variable starts with it. *)
Class EnvLaws (P : Type) `{!EnvProvider P} : Prop :=
  prefix_exists (e : P) prefix : PrefixExists e prefix = true ↔ ∃ key, is_Some (LookupEnv e key) ∧ HasPrefix_text key prefix = true.

(** [pkg/cfg/environment.go:44-46] memoryEnvProvider: its values are a map *)
Definition memoryEnvProvider : Type := gmap text text.

(** [pkg/cfg/environment.go:54-68] LookupEnv and PrefixExists of the memory provider *)
#[export] Instance memory_provider : EnvProvider memoryEnvProvider := {|
  LookupEnv m key := m !! key;
  PrefixExists m prefix := existsb (λ key, HasPrefix_text key prefix) (map_to_list m).*1
|}.

(** [pkg/cfg/environment.go:70-74] SetEnv *)
Definition SetEnv (m : memoryEnvProvider) (key v : text) : memoryEnvProvider := <[key := v]> m.

#[export] Instance memory_laws : EnvLaws memoryEnvProvider.
Proof.
  intros m prefix. cbn [PrefixExists LookupEnv memory_provider]. rewrite existsb_exists. split.
  - intros (key & Hin & Hp). exists key. split; [|done]. apply list_elem_of_In, list_elem_of_fmap in Hin as [[k v] [-> Hin]].
    apply elem_of_map_to_list in Hin. by exists v.
  - intros (key & [v Hv] & Hp). exists key. split; [|done]. apply list_elem_of_In, list_elem_of_fmap. exists (key, v).
    split; [done|]. by apply elem_of_map_to_list.
Qed.

(** ** Sorted keys *)
Fixpoint text_leb (s t : text) : bool :=
  match s, t with
  | [], _ => true
  | _ :: _, [] => false
  | a :: s, b :: t =>
      (nat_of_ascii a <? nat_of_ascii b) || (nat_of_ascii a =? nat_of_ascii b) && text_leb s t
  end.
Definition text_le (s t : text) : Prop := text_leb s t = true.
Instance text_le_dec s t : Decision (text_le s t).
Proof. unfold text_le. apply _. Defined.

(** [pkg/mapx/map.go:52-62] Keys *)
Definition Keys {scalar} (m : mapx scalar) : list text := merge_sort text_le (map_to_list m).*1.

(** ** Configurations *)

(** What goes wrong. *)
Inductive cfg_error :=
| ErrNoSetting (key : text)
| ErrCast (key : text)
| ErrSanitizer
| ErrNotASlice (key : text)
| ErrNotAMap (key : text).

Section Config.
Context {scalar : Type} (zero_of : scalar → scalar) (string_len : scalar → option nat).

(** Texts as scalars, and the casts of spf13/cast. *)
Context (of_text : text → scalar) (ToStringE : value scalar → option text) (ToStringSliceE : value scalar → option (list text)).

(** The environment, the replacer and the prefix of its keys, which the options of the
    configuration set once; the visits of maps. *)
Context {P : Type} `{!EnvProvider P} (env : P).
Context (envKeyReplacer : option (text → text)) (envKeyPrefix : text).
Context (o : map_order text (value scalar)).

Abbreviation value := (value scalar).
Abbreviation mapx := (mapx scalar).
Abbreviation Has := (Has zero_of string_len).
Abbreviation Get := (Get zero_of string_len).
Abbreviation doSet := (doSet zero_of string_len).
Abbreviation Merge := (Merge zero_of string_len o).

(** A computation on the settings, which can fail. *)
Definition M (A : Type) : Type := mapx → eff (mapx * result cfg_error A).
Definition ret {A} (a : A) : M A := λ m, eff_ret (m, Ok a).
Definition fail {A} (e : cfg_error) : M A := λ m, eff_ret (m, Err e).
Definition bind {A B} (c : M A) (k : A → M B) : M B := λ m,
  let* (m, r) := c m in
  match r with Ok a => k a m | Err e => eff_ret (m, Err e) end.

(** An operation on a map of its own, and one on the settings. *)
Definition local {A} (c : eff A) : M A := λ m, let* a := c in eff_ret (m, Ok a).
Definition on_settings {A} (c : mapx → eff (mapx * A)) : M A := λ m, let* (m, a) := c m in eff_ret (m, Ok a).
Notation "'do!' x ':=' c 'in' k" := (bind c (λ x, k)) (at level 10, x pattern, c at level 100, k at level 200).

(** [pkg/cfg/config.go:481-488] isSet, and IsSet (282-284) *)
Definition isSet (key : text) : M bool :=
  match LookupEnv env (resolveEnvKey envKeyReplacer envKeyPrefix key) with
  | Some _ => ret true
  | None => on_settings (Has key)
  end.

(** [pkg/cfg/config.go:286-294] HasPrefix *)
Definition HasPrefix (prefix : text) : M bool :=
  if PrefixExists env (resolveEnvKey envKeyReplacer envKeyPrefix prefix) then ret true else isSet prefix.

Section Recursive.
(** The call of getString without a default that augmentString makes. *)
Context (getString : text → M text).

Fixpoint replace_matches (args : gmap text text) (matches : list (text * text)) (s : text) : M text :=
  match matches with
  | [] => ret s
  | (m, name) :: matches =>
      do! replace := match args !! name with Some r => ret r | None => getString name end in
      replace_matches args matches (ReplaceAll s m replace)
  end.

Definition flagNoDecode : text := str "nodecode".

(** [pkg/cfg/config.go:366-402] augmentString *)
Definition augmentString (s : text) (args : list (gmap text text)) : M text :=
  let '(group, line) := val_flags s in
  let '(flags, s) := match group with [] => ([], s) | _ => (ToLower <$> Split group ",", line) end in
  if bool_decide (flagNoDecode ∈ flags) then ret s
  else replace_matches (MergeMaps canonical_order args) (find_all (length s) template_match s) s.

Section Nested.
Context (readNested : text → mapx → M mapx).

(** [pkg/cfg/config.go:620-641] the loop of readEnvironmentFromValues *)
Fixpoint read_values (prefix : text) (keys : list text) (input environment : mapx) : M mapx :=
  match keys with
  | [] => ret environment
  | k :: keys =>
      let key := resolveEnvKey envKeyReplacer prefix k in
      do! (input, val) := local (Get k input) in
      match val with
      | VMsn nestedMap =>
          do! nestedValues := readNested key nestedMap in
          do! environment := local (doSet k (VMsier (Msi nestedValues)) false environment) in
          read_values prefix keys input environment
      | _ =>
          match LookupEnv env key with
          | Some envValue =>
              do! augmentedString := augmentString envValue [] in
              do! environment := local (doSet k (VScalar (of_text augmentedString)) false environment) in
              read_values prefix keys input environment
          | None => read_values prefix keys input environment
          end
      end
  end.
End Nested.

Fixpoint read_environment (fuel : nat) (prefix : text) (input : mapx) : M mapx :=
  match fuel with
  | 0 => λ _, None
  | S fuel => read_values (read_environment fuel) prefix (Keys input) input ∅
  end.

(** [pkg/cfg/config.go:617-644] readEnvironmentFromValues; one round for each level of the nested map *)
Definition readEnvironmentFromValues (prefix : text) (input : mapx) : M mapx :=
  read_environment (S (depth (VMsn input))) prefix input.

(** [pkg/cfg/config.go:434-466] get *)
Definition get (key : text) (optionalDefault : option value) : M value :=
  do! set := isSet key in
  if negb set && bool_decide (optionalDefault = None) then fail (ErrNoSetting key)
  else
    do! set := isSet key in
    match set, optionalDefault with
    | false, Some d => ret d
    | _, _ =>
        do! data := on_settings (Get key) in
        do! dataMap := local (doSet key (Data data) false ∅) in
        do! environment := readEnvironmentFromValues envKeyPrefix dataMap in
        do! dataMap := local (Merge ["."] (VMsier (Msi environment)) false dataMap) in
        do! _ := on_settings (λ m, let* m := Merge ["."] (VMsier (Msi dataMap)) false m in eff_ret (m, ())) in
        do! (_, data) := local (Get key dataMap) in
        ret (Data data)
    end.
End Recursive.

(** [pkg/cfg/config.go:468-479] getString: [None] when the fuel does not last for the placeholders in values of
    placeholders *)
Fixpoint getString (fuel : nat) (key : text) (optionalDefault : option text) : M text :=
  match fuel with
  | 0 => λ _, None
  | S fuel =>
      let recur k := getString fuel k None in
      do! data := get recur key ((λ d, VScalar (of_text d)) <$> optionalDefault) in
      match ToStringE data with
      | None => fail (ErrCast key)
      | Some s => augmentString recur s []
      end
  end.

(** [pkg/cfg/config.go:189-191] GetString *)
Definition GetString (fuel : nat) (key : text) (optionalDefault : option text) : M text := getString fuel key optionalDefault.

(** [pkg/cfg/config.go:278-280] FormatString *)
Definition FormatString (fuel : nat) (pattern : text) (args : list (gmap text text)) : M text :=
  augmentString (λ k, getString fuel k None) pattern args.

(** What the getters share: they differ in the cast. *)
Definition get_cast {A} (cast : value → option A) (fuel : nat) (key : text) (optionalDefault : option value) : M A :=
  do! data := get (λ k, getString fuel k None) key optionalDefault in
  match cast data with None => fail (ErrCast key) | Some a => ret a end.

(** [pkg/cfg/config.go:95-106] GetBool *)
Definition GetBool (ToBoolE : value → option bool) := get_cast ToBoolE.

(** [pkg/cfg/config.go:108-119] GetDuration *)
Definition GetDuration (ToDurationE : value → option Z) := get_cast ToDurationE.

(** [pkg/cfg/config.go:121-132] GetInt *)
Definition GetInt (ToIntE : value → option Z) := get_cast ToIntE.

(** [pkg/cfg/config.go:134-145] GetIntSlice *)
Definition GetIntSlice (ToIntSliceE : value → option (list Z)) := get_cast ToIntSliceE.

(** [pkg/cfg/config.go:147-158] GetFloat64 *)
Definition GetFloat64 {float64} (ToFloat64E : value → option float64) := get_cast ToFloat64E.

(** [pkg/cfg/config.go:265-276] GetTime *)
Definition GetTime {Time} (ToTimeE : value → option Time) := get_cast ToTimeE.

Fixpoint all_msi (l : list value) : option (list (gmap text value)) :=
  match l with
  | [] => Some []
  | VMsi msi :: l => (cons msi) <$> all_msi l
  | _ :: _ => None
  end.

(** [pkg/cfg/config.go:160-187] GetMsiSlice *)
Definition GetMsiSlice (fuel : nat) (key : text) (optionalDefault : option value) : M (list (gmap text value)) :=
  do! data := get (λ k, getString fuel k None) key optionalDefault in
  match data with
  | VSlice l => match all_msi l with Some msiSlice => ret msiSlice | None => fail (ErrNotAMap key) end
  | _ => fail (ErrNotASlice key)
  end.

Fixpoint augment_entries {A} (text_of : A → option text) (back : text → A) (recur : text → M text) (l : list (text * A)) (strMap : gmap text A) :
    M (gmap text A) :=
  match l with
  | [] => ret strMap
  | (k, v) :: l =>
      match text_of v with
      | Some s =>
          do! augmented := augmentString recur s [] in
          augment_entries text_of back recur l (<[k := back augmented]> strMap)
      | None => augment_entries text_of back recur l strMap
      end
  end.

(** [pkg/cfg/config.go:193-214] GetStringMap *)
Definition GetStringMap (is_text : value → option text) (ToStringMapE : value → option (gmap text value)) (fuel : nat) (key : text)
    (optionalDefault : option value) : M (gmap text value) :=
  let recur k := getString fuel k None in
  do! strMap := get_cast ToStringMapE fuel key optionalDefault in
  augment_entries is_text (λ s, VScalar (of_text s)) recur (enum o strMap) strMap.

(** [pkg/cfg/config.go:216-235] GetStringMapString *)
Definition GetStringMapString (texts : map_order text text) (ToStringMapStringE : value → option (gmap text text)) (fuel : nat) (key : text)
    (optionalDefault : option value) : M (gmap text text) :=
  let recur k := getString fuel k None in
  do! strMap := get_cast ToStringMapStringE fuel key optionalDefault in
  augment_entries Some id recur (enum texts strMap) strMap.

Fixpoint augment_all (recur : text → M text) (l : list text) : M (list text) :=
  match l with
  | [] => ret []
  | s :: l =>
      do! augmented := augmentString recur s [] in
      do! l := augment_all recur l in
      ret (TrimSpace augmented :: l)
  end.

(** [pkg/cfg/config.go:237-263] GetStringSlice; the text of a scalar that is one is split at commas *)
Definition GetStringSlice (is_text : value → option text) (fuel : nat) (key : text) (optionalDefault : option value) :
    M (list text) :=
  let recur k := getString fuel k None in
  do! data := get recur key optionalDefault in
  match match is_text data with Some d => Some (Split d ",") | None => ToStringSliceE data end with
  | None => fail (ErrCast key)
  | Some strSlice => augment_all recur strSlice
  end.

(** *** Settings *)

(** A sanitizer, and the error or value of a value with its parts. *)
Context (sanitizers : list (value → result cfg_error value)).

(** [pkg/cfg/sanitizer.go:24-35] sanitizeValue *)
Definition sanitizeValue (val : value) : result cfg_error value :=
  fold_left (λ san sanitizer, let! san := san in sanitizer san) sanitizers (Ok val).

Fixpoint all_ok {K A} (l : list (K * result cfg_error A)) : result cfg_error (list (K * A)) :=
  match l with
  | [] => Ok []
  | (k, r) :: l => let! a := r in let! l := all_ok l in Ok ((k, a) :: l)
  end.

Context (order : map_order text (result cfg_error value)).

(** [pkg/cfg/sanitizer.go:37-52] sanitizeSlice of sanitized elements *)
Definition sanitizeSlice (values : list (result cfg_error value)) : result cfg_error value :=
  let! l := all_ok (imap pair values) in Ok (VSlice l.*2).

(** [pkg/cfg/sanitizer.go:54-69] sanitizeMap of sanitized elements *)
Definition sanitizeMap (values : gmap text (result cfg_error value)) : result cfg_error value :=
  let! l := all_ok (enum order values) in Ok (VMsi (list_to_map l)).

(** [pkg/cfg/sanitizer.go:11-22] Sanitize, whose result the code writes over the elements of the value as well *)
Fixpoint Sanitize (val : value) : result cfg_error value :=
  match val with
  | VSlice l => sanitizeSlice (Sanitize <$> l)
  | VMsi m => sanitizeMap (Sanitize <$> m)
  | _ => sanitizeValue val
  end.

(** [pkg/cfg/config.go:514-524] mergeMsi *)
Definition mergeMsi (prefix : text) (settings : gmap text value) (skip : bool) : M () := λ m,
  match Sanitize (VMsi settings) with
  | Err e => eff_ret (m, Err e)
  | Ok sanitized => let* m := Merge prefix sanitized skip m in eff_ret (m, Ok ())
  end.

(** [pkg/cfg/config.go:502-512] mergeValue *)
Definition mergeValue (prefix : text) (val : value) (skip : bool) : M () := λ m,
  match Sanitize val with
  | Err e => eff_ret (m, Err e)
  | Ok sanitized => let* m := doSet prefix sanitized skip m in eff_ret (m, Ok ())
  end.

(** [pkg/cfg/config.go:490-500] merge, but for structs *)
Definition merge_setting (prefix : text) (setting : value) (skip : bool) : M () :=
  match setting with
  | VMsi msi => mergeMsi prefix msi skip
  | _ => mergeValue prefix setting skip
  end.

(** [pkg/cfg/options.go:57-61] WithConfigMap *)
Definition WithConfigMap (settings : gmap text value) (skip : bool) : M () := merge_setting ["."] (VMsi settings) skip.

(** [pkg/cfg/options.go:63-67] WithConfigSetting *)
Definition WithConfigSetting (key : text) (settings : value) (skip : bool) : M () := merge_setting key settings skip.

(** [pkg/cfg/config.go:296-304] Option *)
Fixpoint Option (options : list (M ())) : M () :=
  match options with
  | [] => ret ()
  | opt :: options => do! _ := opt in Option options
  end.

(** *** Environment variables for the keys of a struct *)

(** [pkg/mapx/struct.go:18-23] StructKey without its parent, which is not read here: a slice has the keys of its
    elements, if they are structs *)
Inductive StructKey := Key_of (key : text) (slice : bool) (SubKeys : list StructKey).

Definition indexed (key : text) (i : nat) : text := key ++ "[" :: itoa i ++ ["]"].

(** [pkg/cfg/config.go:598-615] readEnvironmentFromStructKeysSliceIndexed, from an index on *)
Fixpoint indexed_values (recur : text → M text) (rounds : nat) (prefix key : text) (i : nat) (environment : mapx) : M mapx :=
  match rounds with
  | 0 => λ _, None
  | S rounds =>
      match LookupEnv env (resolveEnvKey envKeyReplacer prefix (indexed key i)) with
      | None => ret environment
      | Some envValue =>
          do! augmentedString := augmentString recur envValue [] in
          do! environment := local (doSet (indexed key i) (VScalar (of_text augmentedString)) false environment) in
          indexed_values recur rounds prefix key (S i) environment
      end
  end.

(** [pkg/cfg/config.go:579-596] readEnvironmentFromStructKeysSlicePrefixed, from an index on *)
Fixpoint prefixed_values (read : text → M mapx) (rounds : nat) (prefix key : text) (i : nat) (environment : mapx) : M mapx :=
  match rounds with
  | 0 => λ _, None
  | S rounds =>
      do! sliceValues := read (prefix ++ "." :: indexed key i) in
      if size (Msi sliceValues) =? 0 then ret environment
      else
        do! environment := local (doSet (indexed key i) (VMsier (Msi sliceValues)) false environment) in
        prefixed_values read rounds prefix key (S i) environment
  end.

(** [pkg/cfg/config.go:547-566] a round of the loop of readEnvironmentFromStructKeys, with
    readEnvironmentFromStructKeysSlice (571-577) *)
Fixpoint readEnvironmentFromStructKey (recur : text → M text) (rounds : nat) (k : StructKey) (prefix : text) (environment : mapx) : M mapx :=
  match k with
  | Key_of key false _ =>
      match LookupEnv env (resolveEnvKey envKeyReplacer prefix key) with
      | None => ret environment
      | Some envValue =>
          do! augmentedString := augmentString recur envValue [] in
          local (doSet key (VScalar (of_text augmentedString)) false environment)
      end
  | Key_of key true [] => indexed_values recur rounds prefix key 0 environment
  | Key_of key true SubKeys =>
      let read prefix :=
        fold_left (λ (c : M mapx) k', do! environment := c in readEnvironmentFromStructKey recur rounds k' prefix environment) SubKeys (ret ∅) in
      prefixed_values read rounds prefix key 0 environment
  end.

(** [pkg/cfg/config.go:544-569] readEnvironmentFromStructKeys *)
Definition readEnvironmentFromStructKeys (recur : text → M text) (rounds : nat) (structKeys : list StructKey) (prefix : text) : M mapx :=
  fold_left (λ (c : M mapx) k, do! environment := c in readEnvironmentFromStructKey recur rounds k prefix environment)
    structKeys (ret ∅).
End Config.

(** ** Post processors *)
Section PostProcessors.
Context {C E : Type}.

(** [pkg/cfg/postprocessor.go:10-13] postProcessorEntity *)
Record postProcessorEntity := { name : text; processor : C → C * result E bool }.

(** [pkg/cfg/postprocessor.go:15-18] the registry: priorities in the order they were first used *)
Record registry := { postProcessorPriorities : list Z; postProcessorEntities : gmap Z (list postProcessorEntity) }.

Definition empty_registry : registry := {| postProcessorPriorities := []; postProcessorEntities := ∅ |}.

(** [pkg/cfg/postprocessor.go:20-32] AddPostProcessor *)
Definition AddPostProcessor (priority : Z) (n : text) (p : C → C * result E bool) (r : registry) : registry :=
  let r := if map_has (postProcessorEntities r) priority then r
           else {| postProcessorPriorities := postProcessorPriorities r ++ [priority];
                   postProcessorEntities := <[priority := []]> (postProcessorEntities r) |} in
  let entity := {| name := n; processor := p |} in
  {| postProcessorPriorities := postProcessorPriorities r;
     postProcessorEntities :=
       <[priority := default [] (postProcessorEntities r !! priority) ++ [entity]]> (postProcessorEntities r) |}.

(** The processors of a priority one after the other. *)
Fixpoint apply_entities (priority : Z) (l : list postProcessorEntity) (config : C) (applied : gmap text Z) :
    C * result E (gmap text Z) :=
  match l with
  | [] => (config, Ok applied)
  | entity :: l =>
      match processor entity config with
      | (config, Err err) => (config, Err err)
      | (config, Ok b) => apply_entities priority l config (if b then <[name entity := priority]> applied else applied)
      end
  end.

Fixpoint apply_priorities (r : registry) (priorities : list Z) (config : C) (applied : gmap text Z) :
    C * result E (gmap text Z) :=
  match priorities with
  | [] => (config, Ok applied)
  | priority :: priorities =>
      match apply_entities priority (default [] (postProcessorEntities r !! priority)) config applied with
      | (config, Ok applied) => apply_priorities r priorities config applied
      | (config, Err err) => (config, Err err)
      end
  end.

(** [pkg/cfg/postprocessor.go:34-60] ApplyPostProcessors: the sorted priorities from the end *)
Definition ApplyPostProcessors (r : registry) (config : C) : registry * (C * result E (gmap text Z)) :=
  let sorted := merge_sort Z.le (postProcessorPriorities r) in
  ({| postProcessorPriorities := sorted; postProcessorEntities := postProcessorEntities r |},
   apply_priorities r (reverse sorted) config ∅).
End PostProcessors.

(** ** Names of environment variables *)
Section EnvKeys.
Implicit Types (s k : text).

Definition replacer_ok (r : option (text → text)) : Prop := r = None ∨ r = Some DefaultEnvKeyReplacer.

(** What resolveEnvKey does to each character. *)
Definition env_norm (r : option (text → text)) (a : ascii) : ascii :=
  upper (match r with None => a | Some _ => env_char a end).

Lemma env_norm_idem r a : env_norm r (env_norm r a) = env_norm r a.
Proof. destruct r; destruct a as [[] [] [] [] [] [] [] []]; reflexivity. Qed.

Lemma env_norm_bracket r a : env_norm r a = "[" → a = "[".
Proof. destruct r; destruct a as [[] [] [] [] [] [] [] []]; vm_compute; congruence. Qed.

Lemma no_index_match fuel s : "[" ∉ s → find_all fuel index_match s = [].
Proof.
  revert s. induction fuel as [|fuel IH]; intros s Hs; [done|]. simpl.
  destruct s as [|a s]; [done|]. apply not_elem_of_cons in Hs as [Ha Hs]. specialize (IH s Hs).
  destruct (index_match (a :: s)) as [[[m g] rest]|] eqn:Hm; [|done].
  exfalso. destruct a as [[] [] [] [] [] [] [] []]; try done.
Qed.

(** The prefix of a key, with a dot between them. *)
Definition prefixed (prefix k : text) : text := match prefix with [] => k | _ => prefix ++ "." :: k end.

Lemma resolve_norm r prefix k :
  replacer_ok r → "[" ∉ prefix → "[" ∉ k → resolveEnvKey r prefix k = env_norm r <$> prefixed prefix k.
Proof.
  intros Hr Hp Hk. unfold resolveEnvKey. fold (prefixed prefix k).
  rewrite no_index_match; [unfold prefixed; destruct prefix; set_solver|]. simpl.
  destruct Hr as [-> | ->]; [done|]. unfold ToUpper, DefaultEnvKeyReplacer. by rewrite -list_fmap_compose.
Qed.

Lemma resolve_no_bracket r prefix k :
  replacer_ok r → "[" ∉ prefix → "[" ∉ k → "[" ∉ resolveEnvKey r prefix k.
Proof.
  intros Hr Hp Hk. rewrite resolve_norm //. intros (a & Ha & Hin)%list_elem_of_fmap.
  symmetry in Ha. apply env_norm_bracket in Ha as ->. unfold prefixed in Hin. destruct prefix; set_solver.
Qed.

(** The name of a nested key is the same whether it is built level by level or at once. *)
Lemma resolve_nested r prefix k1 k2 :
  replacer_ok r → "[" ∉ prefix → "[" ∉ k1 → "[" ∉ k2 → k1 ≠ [] →
  resolveEnvKey r (resolveEnvKey r prefix k1) k2 = resolveEnvKey r prefix (k1 ++ "." :: k2).
Proof.
  intros Hr Hp H1 H2 Hne. rewrite (resolve_norm r (resolveEnvKey _ _ _)) //; [by apply resolve_no_bracket|].
  rewrite !resolve_norm //; [set_solver|]. assert (Hpk : prefixed prefix k1 ≠ []) by (by destruct prefix, k1).
  assert (Hf : prefixed (env_norm r <$> prefixed prefix k1) k2 = (env_norm r <$> prefixed prefix k1) ++ "." :: k2).
  { by destruct (prefixed prefix k1). }
  rewrite Hf fmap_app fmap_cons -list_fmap_compose.
  rewrite (list_fmap_ext _ (env_norm r) (prefixed prefix k1)); [intros; apply env_norm_idem|].
  rewrite -fmap_cons -fmap_app. f_equal. unfold prefixed. destruct prefix; [done|]. by rewrite -app_assoc.
Qed.
End EnvKeys.

(** ** Samples *)
Module Samples.

Inductive scalar := SInt (n : Z) | SText (t : text).
Definition zero_of (s : scalar) : scalar := match s with SInt _ => SInt 0 | SText _ => SText [] end.
Definition string_len (s : scalar) : option nat := match s with SInt _ => None | SText t => Some (length t) end.
Definition txt (s : string) : value scalar := VScalar (SText (str s)).
Definition ToStringE (v : value scalar) : option text := match v with VScalar (SText t) => Some t | _ => None end.

Abbreviation getS settings env key := (getString zero_of string_len SText ToStringE (env : memoryEnvProvider) (Some DefaultEnvKeyReplacer) []
  canonical_order 9 (str key) None (NewMapX [settings])).

(** As in config_test.go. *)
Definition settings : gmap text (value scalar) :=
  {[str "s" := txt "foobar"; str "a" := txt "this {is} augmented"; str "is" := txt "is also {nested}";
    str "nested" := txt "nested stuff"; str "nodecode" := txt "!nodecode {this}-should-{be}-plain";
    str "map" := VMsi {[str "c" := txt "d"]}; str "foo" := txt "{map.c}-{s}"]}.

(** The value or error of a computation, and its settings. *)
Definition value_of {A} (c : eff (mapx scalar * result cfg_error A)) : option (result map_panic (result cfg_error A)) :=
  match c with Some (Ok (_, r)) => Some (Ok r) | Some (Err p) => Some (Err p) | None => None end.
Definition settings_of {A} (c : eff (mapx scalar * result cfg_error A)) : option (gmap text (value scalar)) :=
  match c with Some (Ok (m, _)) => Some (Msi m) | _ => None end.
Definition is_text (c : eff (mapx scalar * result cfg_error text)) (s : string) : Prop := value_of c = Some (Ok (Ok (str s))).

Example getString_samples :
  is_text (getS settings ∅ "s") "foobar" ∧ is_text (getS settings ∅ "a") "this is also nested stuff augmented" ∧
  is_text (getS settings ∅ "nodecode") "{this}-should-{be}-plain" ∧ is_text (getS settings ∅ "foo") "d-foobar" ∧
  settings_of (getS settings ∅ "a") = Some settings.
Proof. unfold is_text. split_and!; vm_compute; reflexivity. Qed.

End Samples.
