(* ===== verification/CfgLaws.v ===== *)
(** What Cfg promises: a value is read with the environment over it, leaf by leaf, and
    written back; texts are augmented with the values of other keys; post processors run
    by their priority. *)
From Stdlib Require Import Ascii.
From S2P Require Import Prelude Texts FunkMaps MapX MapMerge Cfg.

Open Scope char_scope.
Open Scope nat_scope.

(** ** Chains of maps *)
Section Chains.
Context {scalar : Type} (zero_of : scalar → scalar) (string_len : scalar → option nat).
Abbreviation value := (value scalar).
Implicit Types (v w val : value) (m : gmap text value) (ts : list text) (k t : text).

(** The path of plain names. *)
Definition names ts : list (Z * text) := pair (-1)%Z <$> ts.

(** A value under a path of names, and nothing else. *)
Fixpoint chain ts v : value :=
  match ts with
  | [] => v
  | t :: ts => VMsn {[t := chain ts v]}
  end.

Lemma path_names ts : Forall plain ts → path ts = names ts.
Proof. intros Hts. unfold path, names. apply list_fmap_ext. intros i t Ht. rewrite Forall_lookup in Hts. by eapply parse_plain, Hts. Qed.

Lemma plain_segments ts : Forall plain ts → Forall segment ts.
Proof. intros Hts. eapply Forall_impl; [exact Hts|]. by intros t [Ht _]. Qed.

Lemma names_nonempty ts : ts ≠ [] → names ts ≠ [].
Proof. by destruct ts. Qed.

Lemma names_range ts : Forall (λ s, -1 ≤ s.1)%Z (names ts).
Proof. apply Forall_fmap, Forall_true. by intros. Qed.

Lemma pick_name v : pick (-1) v = v.
Proof. by destruct v. Qed.

Lemma put_back_name v w : put_back (-1) v w = w.
Proof. by destruct v. Qed.

Lemma path_get_chain ts v : path_get (chain ts v) (names ts) = v.
Proof. induction ts as [|t ts IH]; [done|]. simpl. by rewrite lookup_singleton_eq /= pick_name. Qed.

Lemma chain_VMsn ts v : ts ≠ [] → ∃ m, chain ts v = VMsn m.
Proof. destruct ts; [done|]. by eexists. Qed.

Lemma chain_app ts us v : chain (ts ++ us) v = chain ts (chain us v).
Proof. induction ts as [|t ts IH]; [done|]. simpl. by rewrite IH. Qed.

Lemma plain_key ts : Forall plain ts → "[" ∉ key_of ts.
Proof.
  induction 1 as [|t ts (_ & Ht & _) _ IH]; [set_solver|]. destruct (decide (ts = [])) as [->|Hne]; [done|].
  rewrite key_of_cons //. set_solver.
Qed.

(** A write along a chain of maps, or into an empty map. *)
Lemma walk_chain ts v val :
  ts ≠ [] → prepared val → interfaceToMapNode val = val ∨ is_slice val →
  (∃ f, walk zero_of string_len (chain ts v) (names ts) val (writing false) = Ok (chain ts val, f)) ∧
  (∃ f, walk zero_of string_len (VMsn ∅) (names ts) val (writing false) = Ok (chain ts val, f)).
Proof.
  intros Hne Hp Hv. induction ts as [|t ts IH]; [done|]. destruct (decide (ts = [])) as [->|Hts].
  - assert (Ha : ∀ m, apply zero_of string_len (Some m) t (-1) val (writing false) = Ok (<[t := val]> m)).
    { intros m. unfold apply. simpl. rewrite andb_false_r. destruct Hv as [Hv|[l ->]]; [|done]. by destruct val; rewrite ?Hv. }
    cbn [walk names fmap list_fmap chain as_msn]. unfold accessMap. simpl. rewrite !Ha /=.
    rewrite insert_singleton_eq. by split; eexists.
  - destruct (IH Hts) as [[f1 H1] [f2 H2]]. cbn [walk names fmap list_fmap as_msn chain]. fold (names ts).
    destruct (decide (names ts = [])) as [He|_]; [by apply names_nonempty in Hts|].
    rewrite !accessMap_writing !grown_not_nil.
    rewrite lookup_singleton_eq lookup_empty.
    assert (Hn : grown (-1) None = VMsn ∅ :> value) by done.
    assert (Hg : grown (-1) (Some (chain ts v)) = chain ts v) by (by destruct ts).
    rewrite Hg Hn !pick_name H1 H2.
    rewrite !put_back_name !insert_insert_eq ?insert_singleton_eq. by split; eexists.
Qed.

Lemma doSet_chain pre ts v val m :
  dots pre → ts ≠ [] → Forall plain ts → (VMsn m = chain ts v ∨ m = ∅) →
  ∃ m', doSet zero_of string_len (pre ++ key_of ts) val false m = Some (Ok m') ∧ VMsn m' = chain ts (prepareInput val).
Proof.
  intros Hpre Hne Hts Hm. unfold doSet. rewrite access_dots //; [by apply plain_segments|]. rewrite path_names //.
  change {| IsSet := true; SkipExisting := false |} with (writing false).
  destruct (walk_chain ts v (prepareInput val) Hne) as [[f1 H1] [f2 H2]];
    [by destruct val | destruct val; (by left) || (right; by eexists) |].
  destruct (chain_VMsn ts (prepareInput val) Hne) as [m' Hm']. exists m'.
  destruct Hm as [-> | ->]; rewrite ?H1 ?H2 Hm'; done.
Qed.

(** *** Conversions of full nodes *)
Lemma copyVal_full v : full v → copyVal v = v.
Proof.
  induction 1 as [|l _ IH|m _ IH]; simpl; [done| |]; f_equal.
  - apply list_eq. intros i. rewrite list_lookup_fmap. destruct (l !! i) eqn:Hl; simpl; [|done]. f_equal. by eapply IH.
  - apply map_eq. intros k. rewrite lookup_fmap. destruct (m !! k) eqn:Hm; simpl; [|done]. f_equal. by eapply IH.
Qed.

Lemma node_full v : full v → interfaceToMapNode (nodeToInterface v) = v.
Proof.
  induction 1 as [|l _ IH|m _ IH]; simpl; [done| |]; f_equal.
  - apply list_eq. intros i. rewrite !list_lookup_fmap. destruct (l !! i) eqn:Hl; simpl; [|done]. f_equal. by eapply IH.
  - apply map_eq. intros k. rewrite !lookup_fmap. destruct (m !! k) eqn:Hm; simpl; [|done]. f_equal. by eapply IH.
Qed.

Lemma input_full v : full v → prepareInput (nodeToInterface v) = v.
Proof. intros Hv. rewrite -{2}(node_full v Hv). by destruct Hv. Qed.

Lemma Msi_full m : full (VMsn m) → VMsi (Msi m) = nodeToInterface (VMsn m).
Proof. intros Hm. unfold Msi. simpl. f_equal. f_equal. pose proof (copyVal_full _ Hm) as H. simpl in H. by injection H. Qed.

Lemma chain_full ts v : full v → full (chain ts v).
Proof.
  intros Hv. induction ts as [|t ts IH]; [done|]. constructor. intros k x [_ <-]%lookup_singleton_Some. done.
Qed.

Lemma nodeToInterface_chain t ts v : nodeToInterface (chain (t :: ts) v) = VMsi {[t := nodeToInterface (chain ts v)]}.
Proof. simpl. by rewrite map_fmap_singleton. Qed.

(** *** Deep merges *)
Lemma deep_merge_self v : full v → deep_merge (nodeToInterface v) v = v.
Proof.
  induction 1 as [|l _ IH|m _ IH]; simpl; [done| |]; f_equal.
  - apply list_eq. intros i. rewrite update_all_lookup !list_lookup_fmap.
    destruct (l !! i) eqn:Hl; simpl; [|done]. f_equal. by eapply IH.
  - apply map_eq. intros k. rewrite merge_lookup !lookup_fmap. destruct (m !! k) eqn:Hm; simpl; [|done]. f_equal. by eapply IH.
Qed.

Lemma compat_entries (s : gmap text value) v m :
  node_map v = Some m → (∀ k x, s !! k = Some x → compat x (default VNil (m !! k))) → compat (VMsi s) v.
Proof. apply compat_map. Qed.

Lemma compat_self v : full v → compat (nodeToInterface v) v.
Proof.
  induction 1 as [|l _ IH|m _ IH]; simpl; [done| |].
  - exists l. split; [done|]. intros i P. rewrite !list_lookup_fmap. destruct (l !! i) eqn:Hl; simpl; [|done].
    intros [= <-]. by eapply IH.
  - exists m. split; [done|]. intros k P. rewrite !lookup_fmap. destruct (m !! k) eqn:Hm; simpl; [|done].
    intros [= <-]. by eapply IH.
Qed.

Lemma deep_merge_chain ts y v :
  ready v (names ts) → deep_merge (nodeToInterface (chain ts y)) v = upd v (names ts) (deep_merge (nodeToInterface y)).
Proof.
  revert v. induction ts as [|t ts IH]; intros v; [done|]. intros (m & Hm & _ & Hr). cbn [fst] in Hr.
  rewrite nodeToInterface_chain. cbn [deep_merge upd names fmap list_fmap]. rewrite Hm. f_equal. apply map_eq. intros k.
  rewrite pick_name in Hr |- *. rewrite merge_lookup lookup_fmap. fold (names ts). destruct (decide (k = t)) as [->|Hk].
  - rewrite lookup_singleton_eq lookup_insert_eq /=. unfold place. simpl. by rewrite IH.
  - by rewrite lookup_singleton_ne // lookup_insert_ne.
Qed.

Lemma compat_chain ts y v :
  ready v (names ts) → compat (nodeToInterface y) (path_get v (names ts)) → compat (nodeToInterface (chain ts y)) v.
Proof.
  revert v. induction ts as [|t ts IH]; intros v; [done|]. intros (m & Hm & _ & Hr).
  cbn [names fmap list_fmap]. rewrite (path_get_step _ _ _ _ _ Hm). rewrite pick_name in Hr |- *. intros Hc.
  rewrite nodeToInterface_chain. apply (compat_entries _ _ m Hm). intros k x [<- <-]%lookup_singleton_Some. by apply IH.
Qed.

Lemma source_chain ts y : Forall plain ts → source_ok (nodeToInterface y) → source_ok (nodeToInterface (chain ts y)).
Proof.
  intros Hts Hy. induction Hts as [|t ts Ht _ IH]; [done|]. rewrite nodeToInterface_chain.
  constructor; intros k x [<- <-]%lookup_singleton_Some; done.
Qed.
End Chains.

(** ** The environment over nodes *)
Section Overlay.
Context {scalar : Type} (zero_of : scalar → scalar) (string_len : scalar → option nat) (of_text : text → scalar).
Context {P : Type} `{!EnvProvider P} (env : P) (r : option (text → text)).
Context (Hr : replacer_ok r).
Abbreviation value := (value scalar).
Implicit Types (v w : value) (m : gmap text value) (ts : list text) (k t key prefix : text).

(** A value under a key of the environment, with the variables of the environment over
    its parts; what the environment itself has for it. *)
Fixpoint overlay v : text → value :=
  match v with
  | VMsn m => λ key, VMsn (map_imap (λ k f, Some (f (resolveEnvKey r key k))) (overlay <$> m))
  | _ => λ key, match LookupEnv env key with Some e => VScalar (of_text e) | None => v end
  end.

Fixpoint env_tree v : text → option value :=
  match v with
  | VMsn m => λ key, Some (VMsn (map_imap (λ k f, f (resolveEnvKey r key k)) (env_tree <$> m)))
  | _ => λ key, (λ e, VScalar (of_text e)) <$> LookupEnv env key
  end.

Definition env_map m prefix : gmap text value := map_imap (λ k f, f (resolveEnvKey r prefix k)) (env_tree <$> m).
Definition overlay_map m prefix : gmap text value := map_imap (λ k f, Some (f (resolveEnvKey r prefix k))) (overlay <$> m).

Lemma env_map_lookup m prefix k : env_map m prefix !! k = m !! k ≫= λ x, env_tree x (resolveEnvKey r prefix k).
Proof. unfold env_map. rewrite map_lookup_imap lookup_fmap. by destruct (m !! k). Qed.

Lemma overlay_map_lookup m prefix k : overlay_map m prefix !! k = (λ x, overlay x (resolveEnvKey r prefix k)) <$> m !! k.
Proof. unfold overlay_map. rewrite map_lookup_imap lookup_fmap. by destruct (m !! k). Qed.

(** Nodes whose maps have plain names; a leaf is anything. *)
Inductive tree : value → Prop :=
| tree_map m : (∀ k v, m !! k = Some v → plain k) → (∀ k v, m !! k = Some v → tree v) → tree (VMsn m)
| tree_leaf v : (∀ m, v ≠ VMsn m) → tree v.

Lemma env_tree_full v key x : tree v → env_tree v key = Some x → full x.
Proof.
  intros Hv. revert key x. induction Hv as [m _ _ IH|v Hv]; intros key x.
  - intros [= <-]. constructor. intros k y. fold (env_map m key). rewrite env_map_lookup.
    destruct (m !! k) eqn:Hk; simpl; [|done]. by eapply IH.
  - destruct v; try (by destruct (Hv m)); simpl; destruct (LookupEnv env key); intros [= <-]; constructor.
Qed.

Lemma env_map_full m prefix : tree (VMsn m) → full (VMsn (env_map m prefix)).
Proof. intros Hm. by apply (env_tree_full (VMsn m) prefix). Qed.

Lemma env_tree_source v key x : tree v → env_tree v key = Some x → source_ok (nodeToInterface x).
Proof.
  intros Hv. revert key x. induction Hv as [m Hp _ IH|v Hv]; intros key x.
  - intros [= <-]. simpl. constructor; intros k y; rewrite lookup_fmap; fold (env_map m key); rewrite env_map_lookup.
    + destruct (m !! k) as [z|] eqn:Hk; simpl; [|done]. intros _. by eapply Hp.
    + destruct (m !! k) as [z|] eqn:Hk; simpl; [|done]. destruct (env_tree z _) eqn:Hz; simpl; [|done].
      intros [= <-]. by eapply IH.
  - destruct v; try (by destruct (Hv m)); simpl; destruct (LookupEnv env key); intros [= <-]; constructor.
Qed.

(** The environment over nodes is the deep merge of what it has for them. *)
Lemma env_tree_merge v key x :
  tree v → env_tree v key = Some x → compat (nodeToInterface x) v ∧ deep_merge (nodeToInterface x) v = overlay v key.
Proof.
  intros Hv. revert key x. induction Hv as [m _ _ IH|v Hv]; intros key x.
  - intros [= <-]. fold (env_map m key). simpl. split.
    + exists m. split; [done|]. intros k Q. rewrite !lookup_fmap env_map_lookup.
      destruct (m !! k) as [z|] eqn:Hk; simpl; [|done]. destruct (env_tree z _) eqn:Hz; simpl; [|done].
      intros [= <-]. by eapply IH.
    + f_equal. fold (overlay_map m key). apply map_eq. intros k.
      rewrite merge_lookup !lookup_fmap env_map_lookup overlay_map_lookup.
      destruct (m !! k) as [z|] eqn:Hk; simpl; [|done]. destruct (env_tree z _) as [y|] eqn:Hz; simpl.
      * f_equal. by eapply IH.
      * f_equal. destruct z; simpl in *; try done; by destruct (LookupEnv env _).
  - destruct v; try (by destruct (Hv m)); simpl; destruct (LookupEnv env key); intros [= <-]; done.
Qed.

Lemma overlay_full v key : full v → full (overlay v key).
Proof.
  intros Hv. revert key. induction Hv as [s|l Hl _|m _ IH]; intros key; simpl.
  - destruct (LookupEnv env key); constructor.
  - destruct (LookupEnv env key); by constructor.
  - constructor. intros k x. fold (overlay_map m key). rewrite overlay_map_lookup.
    destruct (m !! k) eqn:Hk; simpl; [|done]. intros [= <-]. by eapply IH.
Qed.

(** The environment over data of the settings: it can be merged back over the data. *)
Lemma overlay_source v key :
  full v → source_ok (nodeToInterface v) → source_ok (nodeToInterface (overlay v key)).
Proof.
  intros Hv. revert key. induction Hv as [s|l Hl _|m _ IH]; intros key Hs; simpl.
  - by destruct (LookupEnv env key); constructor.
  - by destruct (LookupEnv env key); [constructor|].
  - simpl in Hs. inversion Hs as [|? Hk Hsv|]; subst.
    constructor; intros k x; rewrite lookup_fmap; fold (overlay_map m key); rewrite overlay_map_lookup.
    + destruct (m !! k) as [z|] eqn:Hz; simpl; [|done]. intros _. apply (Hk k (nodeToInterface z)). by rewrite lookup_fmap Hz.
    + destruct (m !! k) as [z|] eqn:Hz; simpl; [|done]. intros [= <-]. eapply IH; [done|]. apply (Hsv k). by rewrite lookup_fmap Hz.
Qed.

Lemma overlay_merge v key :
  full v → compat (nodeToInterface (overlay v key)) v ∧ deep_merge (nodeToInterface (overlay v key)) v = overlay v key.
Proof.
  intros Hv. revert key. induction Hv as [s|l Hl IHl|m Hm IH]; intros key; simpl.
  - by destruct (LookupEnv env key).
  - destruct (LookupEnv env key); [done|]. split; [by apply (compat_self (VSlice l)); constructor|].
    by apply (deep_merge_self (VSlice l)); constructor.
  - split.
    + exists m. split; [done|]. intros k Q. rewrite !lookup_fmap. fold (overlay_map m key). rewrite overlay_map_lookup.
      destruct (m !! k) as [z|] eqn:Hz; simpl; [|done]. intros [= <-]. by eapply IH.
    + f_equal. fold (overlay_map m key). apply map_eq. intros k. rewrite merge_lookup !lookup_fmap overlay_map_lookup.
      destruct (m !! k) as [z|] eqn:Hz; simpl; [|done]. f_equal. by eapply IH.
Qed.

(** Under a chain of names the key of the environment is that of the whole path. *)
Lemma overlay_chain t ts v prefix :
  "[" ∉ prefix → Forall plain (t :: ts) →
  overlay_map {[t := chain ts v]} prefix = {[t := chain ts (overlay v (resolveEnvKey r prefix (key_of (t :: ts))))]}.
Proof.
  revert t prefix. induction ts as [|t' ts IH]; intros t prefix Hp Hts; apply map_eq; intros k; rewrite overlay_map_lookup.
  - destruct (decide (k = t)) as [->|Hk]; [by rewrite !lookup_singleton_eq | by rewrite !lookup_singleton_ne].
  - destruct (decide (k = t)) as [->|Hk]; [|by rewrite !lookup_singleton_ne]. rewrite !lookup_singleton_eq /=. f_equal.
    apply Forall_cons in Hts as [(Ht & Hb & _) Hts]. fold (overlay_map {[t' := chain ts v]} (resolveEnvKey r prefix t)).
    rewrite IH //; [by apply resolve_no_bracket|]. rewrite resolve_nested //; [|by destruct Ht].
    by apply plain_key.
Qed.
End Overlay.

(** ** Reading the environment *)
Section Reading.
Context {scalar : Type} (zero_of : scalar → scalar) (string_len : scalar → option nat) (of_text : text → scalar).
Context {P : Type} `{!EnvProvider P} (env : P) (r : option (text → text)).
Abbreviation value := (value scalar).
Abbreviation mapx := (mapx scalar).
Implicit Types (v w : value) (m st input environment : gmap text value) (ts keys : list text) (k t key prefix : text).

(** A text without flags and placeholders is taken as it is. *)
Definition inert (e : text) : Prop := (val_flags e).1 = [] ∧ find_all (length e) template_match e = [].

Definition inert_env : Prop := ∀ key e, LookupEnv env key = Some e → inert e.

Context (rec : text → M text (scalar := scalar)).

Lemma augment_inert e st : inert e → augmentString rec e [] st = Some (Ok (st, Ok e)).
Proof.
  intros [Hf Hm]. unfold augmentString. destruct (val_flags e) as [g line]. simpl in Hf. subst g.
  rewrite bool_decide_false; [set_solver|]. by rewrite Hm.
Qed.

Lemma key_of_one k : key_of [k] = k.
Proof. done. Qed.

Lemma Get_name k m x : plain k → m !! k = Some x → Get zero_of string_len k m = Some (Ok (m, copyVal x)).
Proof.
  intros Hk Hx. unfold Get, doGet. rewrite decide_False; [intros ->; by destruct Hk as [[_ [? _]] _]|].
  rewrite (access_walk zero_of string_len (enough k) [k]) //; [by constructor; [apply Hk|] | exact (Nat.lt_succ_diag_r (length k)) |].
  cbn [fmap list_fmap walk as_msn]. rewrite parse_plain //.
  change {| IsSet := false; SkipExisting := false |} with reading. rewrite accessMap_reading /= Hx.
  assert (match x with VNil => VNil | _ => x end = x) as -> by (by destruct x). rewrite insert_id //.
  destruct x; done.
Qed.

Lemma doSet_name k m val w :
  plain k → full (VMsn m) → prepareInput val = w → full w →
  doSet zero_of string_len k val false m = Some (Ok (<[k := w]> m)).
Proof.
  intros Hk Hm <- Hv.
  destruct (doSet_full zero_of string_len [] [k] m val) as (m' & Hs & Hm'); try done.
  - constructor.
  - by constructor; [apply Hk|].
  - rewrite path_names; [by constructor|]. exists m. split_and!; [done | by left | done].
  - rewrite path_names in Hm'; [by constructor|]. rewrite /= in Hs. rewrite Hs.
    unfold names in Hm'. simpl in Hm'. unfold place in Hm'. simpl in Hm'. by injection Hm' as ->.
Qed.

Lemma Msier_full m : full (VMsn m) → prepareInput (VMsier (Msi m)) = VMsn m.
Proof.
  intros Hm. change (interfaceToMapNode (VMsi (Msi m)) = VMsn m). rewrite Msi_full //. by apply node_full.
Qed.

(** The entries of a part of the keys. *)
Definition put_env (input : gmap text value) prefix keys environment : gmap text value :=
  fold_left (λ e k, match env_map of_text env r input prefix !! k with Some x => <[k := x]> e | None => e end) keys environment.

Context (Hinert : inert_env).

Lemma read_values_env readNested prefix keys input environment st :
  (∀ key k m, input !! k = Some (VMsn m) → readNested key m st = Some (Ok (st, Ok (env_map of_text env r m key)))) →
  Forall (λ k, is_Some (input !! k)) keys → tree (VMsn input) → copyVal (VMsn input) = VMsn input → full (VMsn environment) →
  read_values zero_of string_len of_text env r rec readNested prefix keys input environment st =
  Some (Ok (st, Ok (put_env input prefix keys environment))).
Proof.
  intros Hnested Hkeys Htree Hcopy. revert environment. induction Hkeys as [|k keys [x Hx] _ IH]; intros environment Henv; [done|].
  inversion Htree as [? Hplain Hsub|? Hno]; subst; [|by destruct (Hno input)].
  pose proof (Hplain _ _ Hx) as Hk. cbn [read_values]. unfold bind at 1, local at 1. rewrite (Get_name _ _ _ Hk Hx). cbn [eff_bind eff_ret].
  assert (copyVal x = x) as ->.
  { injection Hcopy as Hc. apply (f_equal (lookup k)) in Hc. rewrite lookup_fmap Hx in Hc. by injection Hc. }
  assert (Hput : put_env input prefix (k :: keys) environment =
    put_env input prefix keys (match env_tree of_text env r x (resolveEnvKey r prefix k) with Some y => <[k := y]> environment | None => environment end)).
  { unfold put_env. simpl. by rewrite env_map_lookup Hx. }
  rewrite Hput. pose proof (env_tree_full of_text env r x (resolveEnvKey r prefix k)) as Hfull. specialize (Hsub _ _ Hx).
  assert (Hins : ∀ y, env_tree of_text env r x (resolveEnvKey r prefix k) = Some y → full (VMsn (<[k := y]> environment))).
  { intros y Hy. constructor. intros k' z [[_ <-]|[_ Hz]]%lookup_insert_Some; [by eapply Hfull|].
    inversion Henv as [| |? Hm]; subst. by eapply Hm. }
  assert (Hx2 : (∃ m, x = VMsn m) ∨ ∀ m, x ≠ VMsn m) by (destruct x; eauto).
  destruct Hx2 as [[m ->]|Hnomap].
  - unfold bind at 1. rewrite (Hnested _ _ _ Hx). cbn [eff_bind].
    unfold bind at 1, local at 1. specialize (Hfull _ Hsub eq_refl) as Hfm.
    rewrite (doSet_name _ _ _ _ Hk Henv (Msier_full _ Hfm) Hfm). cbn [eff_bind eff_ret]. apply IH. by apply (Hins _ eq_refl).
  - assert (Hcase : ∀ (A : Type) (f : gmap text value → A) (a : A), match x with VMsn m => f m | _ => a end = a).
    { intros A f a. destruct x; try done. by destruct (Hnomap m). }
    rewrite Hcase. assert (He : env_tree of_text env r x (resolveEnvKey r prefix k) =
      (λ e, VScalar (of_text e)) <$> LookupEnv env (resolveEnvKey r prefix k)) by (by destruct x; try by destruct (Hnomap m)).
    rewrite He in Hins |- *. destruct (LookupEnv env (resolveEnvKey r prefix k)) as [e|] eqn:Hl; simpl; [|by apply IH].
    unfold bind at 1. rewrite augment_inert; [by eapply Hinert|]. cbn [eff_bind]. unfold bind at 1, local at 1.
    rewrite (doSet_name k environment (VScalar (of_text e)) (VScalar (of_text e))) //; [constructor|]. cbn [eff_bind eff_ret].
    apply IH. by apply (Hins _ eq_refl).
Qed.

Lemma depth_node m k v : m !! k = Some v → depth v < depth (VMsn m).
Proof.
  intros Hk. simpl. apply Nat.lt_succ_r. apply max_list_elem_of_le. apply list_elem_of_fmap. exists (k, depth v).
  split; [done|]. apply elem_of_map_to_list. by rewrite lookup_fmap Hk.
Qed.

Lemma Keys_elem m k : k ∈ Keys m ↔ is_Some (m !! k).
Proof.
  unfold Keys. rewrite merge_sort_Permutation list_elem_of_fmap. split.
  - intros ([k' v] & -> & Hin). exists v. by rewrite elem_of_map_to_list in Hin.
  - intros [v Hv]. exists (k, v). split; [done|]. by rewrite elem_of_map_to_list.
Qed.

Lemma put_env_lookup input prefix keys environment k :
  put_env input prefix keys environment !! k =
  if decide (k ∈ keys)
  then match env_map of_text env r input prefix !! k with Some x => Some x | None => environment !! k end
  else environment !! k.
Proof.
  revert environment. induction keys as [|k' keys IH]; intros environment; [done|].
  unfold put_env in *. cbn [fold_left]. rewrite IH. destruct (decide (k = k')) as [->|Hne].
  - rewrite (decide_True (P := k' ∈ k' :: keys)); [left|].
    destruct (env_map _ _ _ input prefix !! k') eqn:He; [rewrite lookup_insert_eq|]; by destruct (decide (k' ∈ keys)).
  - assert (Hs : (match env_map of_text env r input prefix !! k' with Some x => <[k' := x]> environment | None => environment end) !! k = environment !! k).
    { destruct (env_map _ _ _ input prefix !! k'); [by rewrite lookup_insert_ne | done]. }
    rewrite Hs. destruct (decide (k ∈ keys)).
    + by rewrite decide_True; [right|].
    + rewrite decide_False; [|done]. by intros [?|?]%elem_of_cons.
Qed.

Lemma put_env_all input prefix : put_env input prefix (Keys input) ∅ = env_map of_text env r input prefix.
Proof.
  apply map_eq. intros k. rewrite put_env_lookup lookup_empty. case_decide as Hk; [by case_match|].
  rewrite env_map_lookup. destruct (input !! k) eqn:Hi; [|done]. destruct Hk. apply Keys_elem. by eexists.
Qed.

(** What is read from the environment for nested maps. *)
Lemma readEnvironment_env prefix input st :
  tree (VMsn input) → copyVal (VMsn input) = VMsn input →
  readEnvironmentFromValues zero_of string_len of_text env r rec prefix input st =
  Some (Ok (st, Ok (env_map of_text env r input prefix))).
Proof.
  unfold readEnvironmentFromValues. assert (Hd : depth (VMsn input) < S (depth (VMsn input))) by lia. revert Hd.
  generalize (S (depth (VMsn input))) as fuel. intros fuel. revert prefix input st.
  induction fuel as [|fuel IH]; intros prefix input st Hd Htree Hcopy; [lia|]. cbn [read_environment].
  rewrite -put_env_all. apply read_values_env; [| |done..|by constructor].
  - intros key k m Hk. inversion Htree as [? Hplain Hsub|? Hno]; subst; [|by destruct (Hno input)].
    apply IH; [pose proof (depth_node _ _ _ Hk); lia | by eapply Hsub|].
    injection Hcopy as Hc. apply (f_equal (lookup k)) in Hc. rewrite lookup_fmap Hk in Hc. by injection Hc as Hc; simpl; rewrite Hc.
  - apply Forall_forall. intros k. by rewrite Keys_elem.
Qed.
End Reading.

(** ** Reading a value *)
Section Get.
Context {scalar : Type} (zero_of : scalar → scalar) (string_len : scalar → option nat) (of_text : text → scalar).
Context {P : Type} `{!EnvProvider P} (env : P) (r : option (text → text)) (prefix : text).
Context (o : map_order text (value scalar)).
Abbreviation value := (value scalar).
Implicit Types (v w d : value) (m st : gmap text value) (ts : list text) (k t key : text).

(** The name of the variable of a path. *)
Definition env_key ts : text := resolveEnvKey r prefix (key_of ts).

(** A single value of the settings: its path can be followed, and its maps have plain names. *)
Record readable m ts : Prop := {
  readable_path : ts ≠ [] ∧ Forall plain ts;
  readable_full : full (VMsn m);
  readable_way : ready (VMsn m) (names ts);
  readable_data : path_get (VMsn m) (names ts) ≠ VNil → source_ok (nodeToInterface (path_get (VMsn m) (names ts)))
}.

Context (Hr : replacer_ok r) (Hprefix : "[" ∉ prefix) (Hinert : inert_env env).

Lemma source_tree v : full v → source_ok (nodeToInterface v) → tree v.
Proof.
  induction 1 as [s|l _ _|m _ IH]; intros Hs; [by constructor..|]. simpl in Hs. inversion Hs as [|? Hk Hv|]; subst.
  constructor; intros k x Hx.
  - apply (Hk k (nodeToInterface x)). by rewrite lookup_fmap Hx.
  - eapply IH; [done|]. apply (Hv k). by rewrite lookup_fmap Hx.
Qed.

Lemma chain_tree ts v : Forall plain ts → tree v → tree (chain ts v).
Proof.
  intros Hts Hv. induction Hts as [|t ts Ht _ IH]; [done|]. constructor; intros k x [<- <-]%lookup_singleton_Some; done.
Qed.

Lemma chain_copy ts v : copyVal v = v → copyVal (chain ts v) = chain ts v.
Proof. intros Hv. induction ts as [|t ts IH]; [done|]. simpl. by rewrite map_fmap_singleton IH. Qed.

Lemma isSet_spec m ts :
  ts ≠ [] → Forall plain ts → full (VMsn m) →
  isSet zero_of string_len env r prefix (key_of ts) m =
  Some (Ok (m, Ok (negb (is_nil (path_get (VMsn m) (names ts))) || bool_decide (is_Some (LookupEnv env (env_key ts)))))).
Proof.
  intros Hne Hts Hm. unfold isSet. fold (env_key ts). destruct (LookupEnv env (env_key ts)) as [e|].
  - rewrite bool_decide_true; [by eexists|]. by rewrite orb_true_r.
  - rewrite bool_decide_false; [by intros [? ?]|]. rewrite orb_false_r. unfold on_settings.
    pose proof (Has_full zero_of string_len [] ts m) as Hh. rewrite /= path_names // in Hh.
    rewrite Hh //; [constructor | by apply plain_segments].
Qed.

(** What is merged over the settings: the value with the environment over it. *)
Definition read_value (d : value) ts : value := overlay of_text env r d (env_key ts).

(** *** The environment over the value *)
Lemma Merge_msier key s m :
  Merge zero_of string_len o key (VMsier s) false m = Merge zero_of string_len o key (VMsi s) false m.
Proof. done. Qed.

Lemma merge_environment_full ts d m :
  ts ≠ [] → Forall plain ts → full d → tree d → VMsn m = chain ts d →
  ∃ m', Merge zero_of string_len o ["."] (VMsier (Msi (env_map of_text env r m prefix))) false m = Some (Ok m') ∧
        VMsn m' = chain ts (read_value d ts).
Proof.
  intros Hne Hts Hd Ht Hm. assert (Htree : tree (VMsn m)) by (rewrite Hm; by apply chain_tree).
  assert (Hfull : full (VMsn m)) by (rewrite Hm; by apply chain_full).
  assert (He : env_tree of_text env r (VMsn m) prefix = Some (VMsn (env_map of_text env r m prefix))) by done.
  destruct (env_tree_merge of_text env r _ _ _ Htree He) as [Hc Hmerge].
  pose proof (env_map_full of_text env r m prefix Htree) as Hef. pose proof (Msi_full _ Hef) as Hmsi.
  rewrite -Hmsi in Hc, Hmerge. rewrite Merge_msier.
  destruct (Merge_root zero_of string_len o (Msi (env_map of_text env r m prefix)) m Hfull) as (m' & -> & Hm'); [|done|].
  { rewrite Hmsi. by eapply env_tree_source. }
  exists m'. split; [done|]. rewrite Hm' Hmerge. destruct ts as [|t ts]; [done|]. injection Hm as ->.
  change (VMsn (overlay_map of_text env r {[t := chain ts d]} prefix) = chain (t :: ts) (read_value d (t :: ts))).
  by rewrite overlay_chain.
Qed.

Lemma env_tree_chain t ts e p :
  "[" ∉ p → Forall plain (t :: ts) → LookupEnv env (resolveEnvKey r p (key_of (t :: ts))) = Some e →
  env_map of_text env r {[t := chain ts VNil]} p = {[t := chain ts (VScalar (of_text e))]}.
Proof.
  revert t p. induction ts as [|t' ts IH]; intros t p Hp Hts He; apply map_eq; intros k; rewrite env_map_lookup.
  - destruct (decide (k = t)) as [->|Hk]; [|by rewrite !lookup_singleton_ne]. rewrite !lookup_singleton_eq /=.
    rewrite /key_of /= in He. by rewrite He.
  - destruct (decide (k = t)) as [->|Hk]; [|by rewrite !lookup_singleton_ne]. rewrite !lookup_singleton_eq /=. do 2 f_equal.
    fold (env_map of_text env r {[t' := chain ts VNil]} (resolveEnvKey r p t)).
    rewrite key_of_cons // in He. apply Forall_cons in Hts as [(Ht & Hb & _) Hts]. apply IH; [by apply resolve_no_bracket | done|].
    rewrite resolve_nested //; [by apply plain_key|]. by destruct Ht.
Qed.

Lemma Has_found pre ts m :
  dots pre → ts ≠ [] → Forall segment ts → path_get (VMsn m) (path ts) ≠ VNil →
  Has zero_of string_len (pre ++ key_of ts) m = Some (Ok (m, true)).
Proof.
  intros Hpre Hne Hts Hf. unfold Has. case_decide as He.
  - subst. rewrite path_get_empty in Hf; [by apply path_nonempty | done].
  - unfold doGet. rewrite decide_False; [by apply dots_not_root|]. rewrite access_dots //.
    destruct (walk_reading zero_of string_len (path ts) (VMsn m) VNil) as (v' & Hw & _ & Hs); [by apply path_nonempty|].
    change {| IsSet := false; SkipExisting := false |} with reading. rewrite Hw (Hs Hf). by destruct (path_get _ _).
Qed.

Lemma enum_singleton t (x : value) : enum o {[t := x]} = [(t, x)].
Proof. apply Permutation_singleton_r. by rewrite (enum_perm o) map_to_list_singleton. Qed.

Lemma doMerge_chain fuel pre us vs x m :
  dots pre → us ≠ [] → Forall plain (us ++ vs) → VMsn m = chain (us ++ vs) VNil → length vs < fuel →
  ∃ m', doMerge zero_of string_len fuel o (pre ++ key_of us) (nodeToInterface (chain vs (VScalar x))) false m = Some (Ok m') ∧
        VMsn m' = chain (us ++ vs) (VScalar x).
Proof.
  intros Hpre. revert us fuel. induction vs as [|t vs IH]; intros us fuel Hne Hpl Hm Hf; (destruct fuel as [|fuel]; [simpl in Hf; lia|]).
  - rewrite app_nil_r in Hpl, Hm |- *. simpl.
    apply (doSet_chain zero_of string_len pre us VNil (VScalar x) m Hpre Hne Hpl). by left.
  - rewrite nodeToInterface_chain. cbn [doMerge]. apply Forall_app in Hpl as [Hus Hvs].
    rewrite bool_decide_false; [by apply dots_not_root, plain_segments|]. cbn [andb].
    rewrite Has_found //; [by apply plain_segments| |].
    { rewrite path_names // Hm chain_app path_get_chain. by simpl. }
    cbn [eff_bind negb andb]. rewrite enum_singleton. cbn [eff_fold fst snd]. rewrite map_key_path //.
    destruct (IH (us ++ [t]) fuel) as (m' & -> & Hm'); [by destruct us | by rewrite -assoc Forall_app | by rewrite -assoc | simpl in Hf; lia |].
    exists m'. by rewrite Hm' -assoc.
Qed.

Lemma depth_chain ts (x : scalar) : depth (nodeToInterface (chain ts (VScalar x))) = length ts.
Proof.
  induction ts as [|t ts IH]; [done|]. rewrite nodeToInterface_chain. cbn [depth length].
  rewrite map_fmap_singleton map_to_list_singleton /= IH. lia.
Qed.

Lemma merge_environment_nil ts e m :
  ts ≠ [] → Forall plain ts → VMsn m = chain ts VNil → LookupEnv env (env_key ts) = Some e →
  ∃ m', Merge zero_of string_len o ["."] (VMsier (Msi (env_map of_text env r m prefix))) false m = Some (Ok m') ∧
        VMsn m' = chain ts (VScalar (of_text e)).
Proof.
  intros Hne Hts Hm He. destruct ts as [|t ts]; [done|]. injection Hm as ->. rewrite (env_tree_chain _ _ e) // Merge_msier.
  assert (Hfull : full (VMsn {[t := chain ts (VScalar (of_text e))]})) by (apply (chain_full (t :: ts)); constructor).
  rewrite Msi_full //. change (VMsn {[t := chain ts (VScalar (of_text e))]}) with (chain (t :: ts) (VScalar (of_text e))).
  unfold Merge. rewrite depth_chain nodeToInterface_chain. set (fuel := length (t :: ts)). cbn [doMerge]. rewrite bool_decide_true //. cbn [andb].
  rewrite (proj2 (Nat.eqb_neq _ _)); [by rewrite map_size_singleton|].
  assert (Hhas : Has zero_of string_len ["."] {[t := chain ts VNil]} = Some (Ok ({[t := chain ts VNil]}, true))).
  { unfold Has. case_decide as Hc; [|done].
    apply (f_equal (lookup t)) in Hc. by rewrite lookup_singleton_eq lookup_empty in Hc. }
  rewrite Hhas. cbn [eff_bind negb andb]. rewrite enum_singleton. cbn [eff_fold fst snd].
  apply Forall_cons in Hts as [Ht Hts].
  destruct (doMerge_chain fuel [".";"."] [t] ts (of_text e) {[t := chain ts VNil]}) as (m' & Hm' & Hc);
    [by repeat constructor | done | by constructor | done | unfold fuel; simpl; lia |].
  exists m'. change (map_key ["."] t) with ([".";"."] ++ key_of [t]). by rewrite Hm'.
Qed.

(** *** get *)

(** A value over what the settings have: it can be merged back and it stays. *)
Definition over (d y : value) : Prop :=
  full y ∧ source_ok (nodeToInterface y) ∧ compat (nodeToInterface y) d ∧ deep_merge (nodeToInterface y) d = y.

Lemma read_value_over d ts :
  full d → source_ok (nodeToInterface d) → over d (read_value d ts).
Proof. intros Hd Hs. split_and!; [by apply overlay_full | by apply overlay_source | by apply overlay_merge..]. Qed.

Lemma write_back ts y m m2 :
  ts ≠ [] → Forall plain ts → full (VMsn m) → ready (VMsn m) (names ts) → over (path_get (VMsn m) (names ts)) y →
  VMsn m2 = chain ts y →
  ∃ m', Merge zero_of string_len o ["."] (VMsier (Msi m2)) false m = Some (Ok m') ∧ VMsn m' = upd (VMsn m) (names ts) (λ _, y).
Proof.
  intros Hne Hts Hm Hway (Hy & Hsy & Hcy & Hmy) Hm2.
  assert (Hf2 : full (VMsn m2)) by (rewrite Hm2; by apply chain_full).
  assert (Hsrc : VMsi (Msi m2) = nodeToInterface (chain ts y)) by (by rewrite Msi_full // Hm2).
  rewrite Merge_msier. destruct (Merge_root zero_of string_len o (Msi m2) m Hm) as (m' & -> & Hm').
  - rewrite Hsrc. by apply source_chain.
  - rewrite Hsrc. by apply compat_chain.
  - exists m'. split; [done|]. rewrite Hm' Hsrc deep_merge_chain //. by apply upd_ext.
Qed.

Lemma Get_full ts m :
  ts ≠ [] → Forall plain ts → full (VMsn m) →
  Get zero_of string_len (key_of ts) m = Some (Ok (m, path_get (VMsn m) (names ts))).
Proof.
  intros Hne Hts Hm. destruct (doGet_spec zero_of string_len ts m Hne (plain_segments _ Hts)) as (m' & Hg & Hf & _).
  unfold Get. rewrite Hg path_names //. apply full_filled in Hf; [|done]. injection Hf as ->.
  destruct (path_get_fulln (VMsn m) (names ts)) as [-> | Hfull]; [by right | done | by rewrite copyVal_full].
Qed.

(** What get does once the settings and the environment over them are known. *)
Lemma get_reads rec ts default m y :
  let d := path_get (VMsn m) (names ts) in
  ts ≠ [] → Forall plain ts → full (VMsn m) → ready (VMsn m) (names ts) →
  (d ≠ VNil ∨ is_Some (LookupEnv env (env_key ts))) → (d = VNil ∨ tree d) → over d y →
  (∀ m1, VMsn m1 = chain ts d → ∃ m2,
     Merge zero_of string_len o ["."] (VMsier (Msi (env_map of_text env r m1 prefix))) false m1 = Some (Ok m2) ∧ VMsn m2 = chain ts y) →
  ∃ m', get zero_of string_len of_text env r prefix o rec (key_of ts) default m = Some (Ok (m', Ok (nodeToInterface y))) ∧
        VMsn m' = upd (VMsn m) (names ts) (λ _, y).
Proof.
  intros d Hne Hts Hm Hway Hset Htree Hover Hmerge. unfold get. unfold bind at 1.
  rewrite isSet_spec //. cbn [eff_bind]. fold d.
  assert (Hs : negb (is_nil d) || bool_decide (is_Some (LookupEnv env (env_key ts))) = true).
  { destruct Hset as [Hd|He]; [by destruct d|]. by rewrite bool_decide_true // orb_true_r. }
  rewrite Hs. cbn [negb andb]. unfold bind at 1. rewrite isSet_spec //. cbn [eff_bind]. fold d. rewrite Hs.
  unfold bind at 1, on_settings at 1. rewrite Get_full //. fold d. cbn [eff_bind eff_ret]. unfold bind at 1, local at 1.
  assert (Hin : prepareInput (Data d) = d).
  { destruct (path_get_fulln (VMsn m) (names ts)) as [Hd|Hd]; [by right|fold d in Hd; by rewrite Hd|fold d in Hd; by apply input_full]. }
  destruct (doSet_chain zero_of string_len [] ts VNil (Data d) ∅) as (m1 & Hset1 & Hm1); [constructor | done | done | by right |].
  simpl in Hset1. rewrite Hset1 Hin in Hm1 |- *. cbn [eff_bind eff_ret]. unfold bind at 1.
  destruct (Hmerge m1 Hm1) as (m2 & Hmg & Hm2).
  rewrite (readEnvironment_env zero_of string_len of_text env r rec Hinert prefix m1 m).
  { rewrite Hm1. apply chain_tree; [done|]. destruct Htree as [->|?]; [by constructor | done]. }
  { rewrite Hm1. apply chain_copy. destruct (path_get_fulln (VMsn m) (names ts)) as [Hd|Hd];
      [by right|fold d in Hd; by rewrite Hd|fold d in Hd; by apply copyVal_full]. }
  cbn [eff_bind]. unfold bind at 1, local at 1. rewrite Hmg. cbn [eff_bind eff_ret].
  destruct (write_back ts y m m2 Hne Hts Hm Hway Hover Hm2) as (m' & Hwb & Hm').
  unfold bind at 1, on_settings at 1. rewrite Hwb. cbn [eff_bind eff_ret]. unfold bind, local.
  assert (Hy : full y) by apply Hover.
  rewrite Get_full //; [rewrite Hm2; by apply chain_full|]. cbn [eff_bind eff_ret].
  exists m'. split; [|done]. by rewrite Hm2 path_get_chain.
Qed.

Lemma get_found rec ts default m (Hread : readable m ts) :
  let d := path_get (VMsn m) (names ts) in
  d ≠ VNil ∨ is_Some (LookupEnv env (env_key ts)) →
  ∃ m', get zero_of string_len of_text env r prefix o rec (key_of ts) default m =
        Some (Ok (m', Ok (nodeToInterface (read_value d ts)))) ∧
        VMsn m' = upd (VMsn m) (names ts) (λ _, read_value d ts).
Proof.
  destruct Hread as [[Hne Hts] Hm Hway Hdata]. intros d Hset.
  destruct (path_get_fulln (VMsn m) (names ts)) as [Hd|Hd]; [by right| |]; fold d in Hd.
  - destruct Hset as [?|[e He]]; [done|]. assert (Hy : read_value d ts = VScalar (of_text e)) by (by rewrite Hd /read_value /= He).
    apply get_reads; try done; [right; by eexists | by left | |].
    + fold d. rewrite Hy Hd. by repeat constructor.
    + intros m1. fold d. rewrite Hy Hd. intros Hm1. by apply merge_environment_nil.
  - assert (Hdn : d ≠ VNil) by (intros ->; inversion Hd). specialize (Hdata Hdn).
    apply get_reads; try done; [right; by apply source_tree | by apply read_value_over |].
    intros m1 Hm1. apply merge_environment_full; [done..|by apply source_tree | done].
Qed.

(** A read of a key gives the value of the settings with the variables of the environment
    over each of its leaves, and writes that back to the settings, where nothing else
    changes. Where the settings have nothing it gives the variable of the environment,
    or the default and no change, or the error for a key that is not set. *)
Theorem get_correct rec ts default m (Hread : readable m ts) :
  let d := path_get (VMsn m) (names ts) in
  match d, LookupEnv env (env_key ts) with
  | VNil, None =>
      get zero_of string_len of_text env r prefix o rec (key_of ts) default m =
      Some (Ok (m, match default with Some x => Ok x | None => Err (ErrNoSetting (key_of ts)) end))
  | _, _ =>
      ∃ m', get zero_of string_len of_text env r prefix o rec (key_of ts) default m =
            Some (Ok (m', Ok (nodeToInterface (read_value d ts)))) ∧
            VMsn m' = upd (VMsn m) (names ts) (λ _, read_value d ts)
  end.
Proof.
  pose proof (get_found rec ts default m Hread) as Hgoal. destruct Hread as [[Hne Hts] Hm _ _].
  set (d := path_get (VMsn m) (names ts)) in *. intros d'. subst d'. cbv zeta in Hgoal.
  destruct d eqn:Hd; try (apply Hgoal; by left). destruct (LookupEnv env (env_key ts)) eqn:He; [apply Hgoal; right; by eexists|].
  unfold get. unfold bind at 1. rewrite isSet_spec //. cbn [eff_bind]. fold d. rewrite Hd He. cbn [is_nil negb orb].
  rewrite (bool_decide_false (is_Some None)); [by intros [? ?]|]. cbn [orb negb andb].
  destruct default as [x|]; [|done]. rewrite bool_decide_false //. unfold bind at 1.
  rewrite isSet_spec //. cbn [eff_bind]. fold d. rewrite Hd He. by rewrite (bool_decide_false (is_Some None)); [intros [? ?]|].
Qed.
End Get.

(** ** Reading templates *)
Section Placeholders.
Implicit Types (n s : text).

(** The names that the regular expression of placeholders knows. *)
Definition word n : Prop := n ≠ [] ∧ Forall (λ a, is_name a = true) n.

Lemma match_hole n s : word n → template_match (hole_text n ++ s) = Some (hole_text n, n, s).
Proof.
  intros [Hne Hn]. unfold hole_text. rewrite -app_comm_cons -app_assoc. simpl. rewrite span_all //. by destruct n.
Qed.

Lemma match_other a s : a ≠ "{" → template_match (a :: s) = None.
Proof. intros Ha. destruct a as [[] [] [] [] [] [] [] []]; try done. Qed.
End Placeholders.

Section ReadTemplates.
Context {scalar : Type} (zero_of : scalar → scalar) (string_len : scalar → option nat) (of_text : text → scalar).
Context (ToStringE : value scalar → option text) (Hcast : ∀ t, ToStringE (VScalar (of_text t)) = Some t).
Context {P : Type} `{!EnvProvider P} (env : P) (r : option (text → text)) (prefix : text).
Context (o : map_order text (value scalar)).
Context (Hr : replacer_ok r) (Hprefix : "[" ∉ prefix) (Hinert : inert_env env).
Abbreviation value := (value scalar).
Abbreviation getString := (getString zero_of string_len of_text ToStringE env r prefix o).
Implicit Types (v : value) (m st : gmap text value) (ts us : list text) (k n t key : text) (ps : list piece).

(** Another path is not changed by an update. *)
Lemma upd_frame v ts us x :
  ¬ ts `prefix_of` us → ¬ us `prefix_of` ts → ready v (names ts) → ready v (names us) →
  path_get (upd v (names ts) (λ _, x)) (names us) = path_get v (names us) ∧ ready (upd v (names ts) (λ _, x)) (names us).
Proof.
  revert v us. induction ts as [|t ts IH]; intros v us Hp1 Hp2 Ht Hu; [destruct Hp1; apply prefix_nil|].
  destruct us as [|u us]; [destruct Hp2; apply prefix_nil|].
  destruct Ht as (m & Hm & Hs & Ht). destruct Hu as (m' & Hm' & Hs' & Hu). rewrite Hm in Hm'. injection Hm' as <-.
  cbn [fst] in Hs, Hs', Ht, Hu. rewrite pick_name in Ht, Hu. cbn [names fmap list_fmap upd]. rewrite Hm.
  rewrite (path_get_step v m) // (path_get_step (VMsn _) _ _ _ _ eq_refl) !pick_name. cbn [ready node_map].
  destruct (decide (t = u)) as [<-|Hne].
  - unfold place. simpl. rewrite lookup_insert_eq /=. fold (names ts) (names us).
    destruct (IH (default VNil (m !! t)) us) as [Hg Hrd];
      [by intros ?; apply Hp1, prefix_cons | by intros ?; apply Hp2, prefix_cons | done | by rewrite pick_name in Hu |].
    split; [done|]. eexists. split; [done|]. rewrite lookup_insert_eq /= pick_name. by split; [left|].
  - rewrite lookup_insert_ne //. split; [done|]. eexists. split; [done|]. rewrite lookup_insert_ne //.
Qed.

(** Settings of templates: each key of [K] reads as the text of its template, whose
    placeholders are keys of a lower rank, and no key starts with another one. *)
Context (K : list text → Prop) (T : list text → list piece) (rank : list text → nat).

Record template_key ts : Prop := {
  template_ok : Forall piece_ok (T ts);
  template_words n : n ∈ holes (T ts) → word n;
  template_flags : (val_flags (source_text (T ts))).1 = [];
  template_holes n : n ∈ holes (T ts) → ∃ us, n = key_of us ∧ K us ∧ rank us < rank ts;
  template_prefix us : K us → ts `prefix_of` us → us = ts
}.

Definition templates m : Prop := ∀ ts, K ts →
  template_key ts ∧ readable m ts ∧ read_value of_text env r prefix (path_get (VMsn m) (names ts)) ts = VScalar (of_text (source_text (T ts))).

Lemma templates_upd m m' ts :
  templates m → K ts → VMsn m' = upd (VMsn m) (names ts) (λ _, VScalar (of_text (source_text (T ts)))) → templates m'.
Proof.
  intros Hm Hts Hm' us Hus. destruct (Hm us Hus) as (Hk & Hread & Hv). split; [done|].
  destruct (Hm ts Hts) as (Hkt & [Hpt Hf Hrt _] & Hvt). destruct Hread as [Hpu _ Hru Hsu].
  assert (Hf' : full (VMsn m')) by (rewrite Hm'; apply upd_full; [by right | done | constructor]).
  destruct (decide (us = ts)) as [->|Hne].
  - assert (Hd : path_get (VMsn m') (names ts) = VScalar (of_text (source_text (T ts)))) by (by rewrite Hm' path_get_upd).
    split; [split; [done | done | rewrite Hm'; by apply ready_upd | rewrite Hd; constructor]|].
    rewrite Hd. unfold read_value in Hvt |- *. cbn [overlay].
    destruct (LookupEnv env (env_key r prefix ts)) as [e|] eqn:He; [|done].
    destruct (path_get (VMsn m) (names ts)); simpl in Hvt; rewrite ?He in Hvt; done.
  - destruct (upd_frame (VMsn m) ts us (VScalar (of_text (source_text (T ts))))) as [Hg Hrd];
      [by intros ?%(template_prefix _ Hkt us Hus) | by intros ?%(template_prefix _ Hk ts Hts) | done | done |].
    rewrite -Hm' in Hg, Hrd. split; [split; [done..|by rewrite Hg] | by rewrite Hg].
Qed.

(** The values of the keys, by the equations of the templates. *)
Context (V : text → text) (HV : ∀ ts, K ts → V (key_of ts) = render V (T ts)).

Lemma render_no_brace ps : Forall piece_ok ps → (∀ n, n ∈ holes ps → "{" ∉ V n) → "{" ∉ render V ps.
Proof.
  induction 1 as [|[t|n] ps Hp _ IH]; intros Hh; [by intros ?%elem_of_nil|..].
  - change ("{" ∉ t ++ render V ps). apply not_elem_of_app. split; [done|]. by apply IH.
  - change ("{" ∉ V n ++ render V ps). apply not_elem_of_app. split; [apply Hh; left|]. apply IH. intros k Hk. apply Hh. by right.
Qed.

Lemma value_no_brace ts m : templates m → K ts → "{" ∉ V (key_of ts).
Proof.
  intros Hm. induction ts as [ts IH] using (induction_ltof1 _ rank). intros Hts. destruct (Hm ts Hts) as ([Hok _ _ Hh _] & _).
  rewrite HV //. apply render_no_brace; [done|]. intros n (us & -> & Hus & Hlt)%Hh. by apply IH.
Qed.

Lemma holes_name_ok ps n : Forall piece_ok ps → n ∈ holes ps → name_ok n.
Proof. induction 1 as [|[t|k] ps Hp _ IH]; [by intros ?%elem_of_nil | exact IH | intros [->|?]%elem_of_cons; auto]. Qed.

(** One placeholder after the other is replaced, everywhere. *)
Lemma replace_matches_render rec ns ps m :
  (∀ n m, n ∈ ns → templates m → ∃ m', rec n m = Some (Ok (m', Ok (V n))) ∧ templates m') →
  Forall (λ n, name_ok n ∧ "{" ∉ V n) ns → templates m → Forall piece_ok ps → (∀ n, n ∈ holes ps → n ∈ ns) →
  ∃ m', replace_matches rec (∅ : gmap text text) ((λ n, (hole_text n, n)) <$> ns) (source_text ps) m =
        Some (Ok (m', Ok (render V ps))) ∧ templates m'.
Proof.
  intros Hrec Hns. revert ps m. induction Hns as [|n ns [Hn Hb] _ IH]; intros ps m Hm Hps Hh.
  - exists m. split; [|done]. rewrite render_literal //. destruct (holes ps) as [|n l]; [done|].
    specialize (Hh n). set_solver.
  - cbn [fmap list_fmap replace_matches]. rewrite lookup_empty. unfold bind.
    destruct (Hrec n m) as (m1 & -> & Hm1); [left|done|]. cbn [eff_bind].
    unfold ReplaceAll. rewrite replace_template //. rewrite -(render_subst V n ps). apply IH; [|done|by apply subst_ok|].
    + intros k m2 Hk. apply Hrec. by right.
    + intros k [Hk Hne]%holes_subst. apply Hh in Hk. set_solver.
Qed.

Lemma augment_template rec ts m :
  (∀ us m, K us → rank us < rank ts → templates m → ∃ m', rec (key_of us) m = Some (Ok (m', Ok (V (key_of us)))) ∧ templates m') →
  templates m → K ts →
  ∃ m', augmentString rec (source_text (T ts)) [] m = Some (Ok (m', Ok (V (key_of ts)))) ∧ templates m'.
Proof.
  intros Hrec Hm Hts. destruct (Hm ts Hts) as ([Hok Hwords Hflags Hh _] & _). unfold augmentString.
  destruct (val_flags (source_text (T ts))) as [g line]. simpl in Hflags. subst g.
  rewrite bool_decide_false; [set_solver|]. rewrite (find_all_template _ word match_hole match_other) // HV //.
  apply replace_matches_render; [..|done|done|done].
  - intros n m1 (us & -> & Hus & Hlt)%Hh Hm1. by apply Hrec.
  - apply Forall_forall. intros n Hn. split; [by eapply holes_name_ok|]. apply Hh in Hn as (us & -> & Hus & _).
    by eapply value_no_brace.
Qed.

(** C23: The text of a key is its template with the texts of the placeholders, whatever the
    reads wrote back: it is there with a round of fuel for each rank, and the settings
    read the same afterwards.  This is for a set of keys K, none of them the prefix of
    another, that are paths of plain names and hold templates without flags, whose
    placeholders are keys of K of a lower rank, so without cycles (a cyclic template is
    read for ever); for values of the environment without flags and placeholders; with
    the default key replacer or none and a prefix without a bracket. *)
Theorem GetString_templates ts fuel m (Hm : templates m) (Hts : K ts) (Hfuel : rank ts < fuel) :
  ∃ m', GetString zero_of string_len of_text ToStringE env r prefix o fuel (key_of ts) None m =
        Some (Ok (m', Ok (V (key_of ts)))) ∧ templates m'.
Proof.
  unfold GetString. revert ts m Hm Hts Hfuel. induction fuel as [|fuel IH]; intros ts m Hm Hts Hfuel; [lia|].
  destruct (Hm ts Hts) as (_ & Hread & Hv). cbn [Cfg.getString fmap option_fmap option_map]. unfold bind at 1.
  assert (Hset : path_get (VMsn m) (names ts) ≠ VNil ∨ is_Some (LookupEnv env (env_key r prefix ts))).
  { destruct (LookupEnv env (env_key r prefix ts)) eqn:He; [right; by eexists|]. left. intros Hn.
    rewrite Hn /read_value /= He in Hv. done. }
  destruct (get_found zero_of string_len of_text env r prefix o Hr Hprefix Hinert (λ k, getString fuel k None) ts None m Hread Hset)
    as (m1 & -> & Hm1). cbn [eff_bind]. rewrite Hv in Hm1 |- *. cbn [nodeToInterface]. rewrite Hcast.
  apply augment_template; [|by eapply templates_upd | done].
  intros us m2 Hus Hlt Hm2. apply IH; [done..|lia].
Qed.
End ReadTemplates.

(** ** Samples *)
Module Reads.
Import Samples.

(** Settings of which the environment changes one. *)
Definition config : gmap text (value scalar) :=
  {[str "a" := txt "this {is} augmented"; str "is" := txt "is also {db.name}";
    str "db" := VMsn {[str "name" := txt "test"; str "port" := VScalar (SInt 3306)]}]}.
Definition environment : memoryEnvProvider := {[str "DB_NAME" := str "prod"; str "OTHER" := str "x"]}.

Abbreviation get_of := (get zero_of string_len SText environment (Some DefaultEnvKeyReplacer) [] canonical_order).
Abbreviation GetString_of := (GetString zero_of string_len SText ToStringE environment (Some DefaultEnvKeyReplacer) [] canonical_order).

Definition path_a : list text := [str "a"].
Definition path_is : list text := [str "is"].
Definition path_db : list text := [str "db"].
Definition path_name : list text := [str "db"; str "name"].

Lemma config_full : full (VMsn config).
Proof. unfold config, txt. concrete_value. Qed.

Lemma environment_inert : inert_env environment.
Proof.
  change (∀ key e, environment !! key = Some e → inert e). apply (map_entries (λ _ e, inert e)).
  let l := eval vm_compute in (map_to_list environment) in change (map_to_list environment) with l.
  repeat (apply Forall_cons; split); [split; vm_compute; reflexivity..|apply Forall_nil; exact I].
Qed.

Lemma path_readable ts : ts ∈ [path_a; path_is; path_db; path_name] → readable config ts.
Proof.
  intros Hts. repeat (apply elem_of_cons in Hts as [->|Hts]; [split; [|apply config_full|..]|]); [..|by apply elem_of_nil in Hts].
  all: try (split; [done|]; repeat (apply Forall_cons; split); try (apply Forall_nil; exact I); concrete_value).
  all: try (repeat (eexists; split; [reflexivity|]; split; [by left|]); exact I).
  all: intros _; match goal with |- source_ok (nodeToInterface ?x) => let y := eval vm_compute in (nodeToInterface x) in change (nodeToInterface x) with y end.
  all: concrete_value.
Qed.

Lemma get_correct_witness :
  ∃ m', get_of (λ _, fail (ErrNoSetting [])) (str "db") None config =
        Some (Ok (m', Ok (VMsi {[str "name" := txt "prod"; str "port" := VScalar (SInt 3306)]}))) ∧
        VMsn m' = upd (VMsn config) (names path_db) (λ _, VMsn {[str "name" := txt "prod"; str "port" := VScalar (SInt 3306)]}).
Proof.
  exact (get_correct zero_of string_len SText environment (Some DefaultEnvKeyReplacer) [] canonical_order
    (or_intror eq_refl) (not_elem_of_nil _) environment_inert (λ _, fail (ErrNoSetting [])) path_db None config
    (path_readable path_db ltac:(set_solver))).
Defined.

(** The templates of the settings, their ranks and their values. *)
Definition keys (ts : list text) : Prop := ts ∈ [path_a; path_is; path_name].
Definition template (ts : list text) : list piece :=
  if decide (ts = path_a) then [Lit (str "this "); Hole (str "is"); Lit (str " augmented")]
  else if decide (ts = path_is) then [Lit (str "is also "); Hole (str "db.name")]
  else [Lit (str "prod")].
Definition rank (ts : list text) : nat := if decide (ts = path_a) then 2 else if decide (ts = path_is) then 1 else 0.
Definition text_of (key : text) : text :=
  if decide (key = str "a") then str "this is also prod augmented"
  else if decide (key = str "is") then str "is also prod" else str "prod".

Instance name_ok_dec n : Decision (name_ok n).
Proof. unfold name_ok. apply _. Defined.

Lemma piece_literal s : bool_decide ("{" ∉ str s) = true → piece_ok (Lit (str s)).
Proof. by intros ?%bool_decide_eq_true. Qed.

Lemma piece_hole s : bool_decide (name_ok (str s)) = true → piece_ok (Hole (str s)).
Proof. by intros ?%bool_decide_eq_true. Qed.

Lemma config_templates :
  templates SText environment (Some DefaultEnvKeyReplacer) [] keys template rank config.
Proof.
  intros ts Hts. assert (Hk : ts = path_a ∨ ts = path_is ∨ ts = path_name) by (unfold keys in Hts; set_solver).
  split; [|split; [apply path_readable; unfold keys in Hts; set_solver | by destruct Hk as [->|[->| ->]]; vm_compute]].
  split.
  - destruct Hk as [->|[->| ->]]; cbn; repeat (apply Forall_cons; split); try (apply Forall_nil; exact I);
      (apply piece_literal || apply piece_hole); vm_compute; reflexivity.
  - intros n. destruct Hk as [->|[->| ->]].
    + change (n ∈ [str "is"] → word n). intros ->%list_elem_of_singleton. by split; [|apply (bool_decide_unpack _); vm_compute].
    + change (n ∈ [str "db.name"] → word n). intros ->%list_elem_of_singleton. by split; [|apply (bool_decide_unpack _); vm_compute].
    + by intros ?%elem_of_nil.
  - by destruct Hk as [->|[->| ->]]; vm_compute.
  - intros n. destruct Hk as [->|[->| ->]].
    + change (n ∈ [str "is"] → ∃ us, n = key_of us ∧ keys us ∧ rank us < 2). intros ->%list_elem_of_singleton.
      exists path_is. split_and!; [done | unfold keys; set_solver | vm_compute; lia].
    + change (n ∈ [str "db.name"] → ∃ us, n = key_of us ∧ keys us ∧ rank us < 1). intros ->%list_elem_of_singleton.
      exists path_name. split_and!; [done | unfold keys; set_solver | vm_compute; lia].
    + by intros ?%elem_of_nil.
  - intros us Hus Hp. assert (Hk2 : us = path_a ∨ us = path_is ∨ us = path_name) by (unfold keys in Hus; set_solver).
    destruct Hp as [l Hl]. destruct Hk as [->|[->| ->]], Hk2 as [->|[->| ->]]; done.
Qed.

Lemma GetString_templates_witness :
  rank path_a < 3 ∧
  ∃ m', GetString_of 3 (str "a") None config = Some (Ok (m', Ok (str "this is also prod augmented"))) ∧
        templates SText environment (Some DefaultEnvKeyReplacer) [] keys template rank m'.
Proof.
  split; [vm_compute; lia|].
  refine (GetString_templates zero_of string_len SText ToStringE (λ _, eq_refl) environment (Some DefaultEnvKeyReplacer) [] canonical_order
    (or_intror eq_refl) (not_elem_of_nil _) environment_inert keys template rank text_of _ path_a 3 config config_templates _ _).
  - intros ts Hts. assert (Hk : ts = path_a ∨ ts = path_is ∨ ts = path_name) by (unfold keys in Hts; set_solver).
    by destruct Hk as [->|[->| ->]]; vm_compute.
  - unfold keys. set_solver.
  - vm_compute. lia.
Defined.

(** A value with its own key for a placeholder is never read. *)
Lemma cyclic_placeholder fuel :
  getString zero_of string_len SText ToStringE environment (Some DefaultEnvKeyReplacer) [] canonical_order fuel (str "a") None
    {[str "a" := txt "{a}"]} = None.
Proof.
  induction fuel as [|fuel IH]; [done|]. cbn [getString fmap option_fmap option_map].
  set (rec := λ k, getString _ _ _ _ _ _ _ _ fuel k None).
  assert (Hget : get_of rec (str "a") None {[str "a" := txt "{a}"]} = Some (Ok ({[str "a" := txt "{a}"]}, Ok (txt "{a}")))) by done.
  assert (Haug : ∀ m, augmentString rec (str "{a}") [] m = bind (rec (str "a")) (λ x, ret (ReplaceAll (str "{a}") (str "{a}") x)) m) by done.
  unfold bind at 1. rewrite Hget. cbn [eff_bind ToStringE txt]. rewrite Haug. unfold bind, rec. by rewrite IH.
Qed.

(** The text of the environment is augmented where it is read and again with the result: a
    flag for its text to stay as it is holds only for the first of them. *)
Lemma environment_nodecode :
  let env : memoryEnvProvider := {[str "P" := str "!nodecode {s}"]} in
  is_text (getS {[str "p" := txt "x"; str "s" := txt "secret"]} env "p") "secret" ∧
  is_text (getS {[str "p" := txt "!nodecode {s}"; str "s" := txt "secret"]} ∅ "p") "{s}".
Proof. unfold is_text. split; vm_compute; reflexivity. Qed.

(** A single element of a slice with more before it cannot be read. *)
Lemma slice_element_panics :
  value_of (get_of (λ _, fail (ErrNoSetting [])) (str "l[1]") None {[str "l" := VSlice [txt "x"; txt "y"]]}) = Some (Err ReflectPanic).
Proof. vm_compute. reflexivity. Qed.

(** Reading slices in slices leaves a key of a wrong name in the settings. *)
Lemma nested_slice_read :
  settings_of (get_of (λ _, fail (ErrNoSetting [])) (str "k") None {[str "k" := VSlice [VSlice [txt "x"]]]}) =
  Some {[str "k" := VSlice [VSlice [txt "x"]]; str "k[0]" := VSlice [txt "x"]]}.
Proof. vm_compute. reflexivity. Qed.
End Reads.
