(* ===== verification/CfgSettings.v ===== *)
(** Settings over settings: options that merge maps into the configuration, and what is
    read afterwards. The environment goes over the later settings, and those over the
    earlier ones, leaf by leaf. *)
From Stdlib Require Import Ascii.
From S2P Require Import Prelude Texts FunkMaps MapX MapMerge Cfg CfgLaws.

Open Scope nat_scope.

(** ** Nodes of sources *)
Section Nodes.
Context {scalar : Type}.
Abbreviation value := (value scalar).
Implicit Types (v w old source : value) (m : gmap text value) (ts : list text) (k t : text).

(** Nodes that hold nothing, or only what a source holds. *)
Definition sourced v : Prop := v = VNil ∨ source_ok (nodeToInterface v).

Lemma map_sourced m :
  source_ok (nodeToInterface (VMsn m)) ↔ ∀ k x, m !! k = Some x → plain k ∧ source_ok (nodeToInterface x).
Proof.
  simpl. split.
  - intros Hm k x Hk. inversion Hm as [|? Hp Hv|]; subst. assert (Hx : (nodeToInterface <$> m) !! k = Some (nodeToInterface x)) by (by rewrite lookup_fmap Hk).
    split; [by eapply Hp | by eapply Hv].
  - intros Hm. constructor; intros k y; rewrite lookup_fmap; destruct (m !! k) eqn:Hk; simpl; try done; [|intros [= <-]]; by apply Hm in Hk as [? ?].
Qed.

Lemma slice_sourced (l : list value) :
  source_ok (nodeToInterface (VSlice l)) ↔
  (Z.of_nat (length l) ≤ max_int)%Z ∧ ∀ i x, l !! i = Some x → ¬ is_slice x ∧ source_ok (nodeToInterface x).
Proof.
  simpl. split.
  - intros Hl. inversion Hl as [| |? Hlen Hs Hv]; subst. rewrite length_fmap in Hlen. split; [done|]. intros i x Hi.
    assert (Hx : (nodeToInterface <$> l) !! i = Some (nodeToInterface x)) by (by rewrite list_lookup_fmap Hi).
    split; [|by eapply Hv]. intros [y ->]. apply (Hs i _ Hx). by eexists.
  - intros [Hlen Hl]. constructor; [by rewrite length_fmap|..]; intros i y; rewrite list_lookup_fmap; destruct (l !! i) as [x|] eqn:Hi; simpl; try done;
      intros [= <-]; apply Hl in Hi as [Hs ?]; [|done]. intros Hy. apply Hs. destruct x, Hy as [? ?]; try done. by eexists.
Qed.

Lemma update_all_length (fs : list (value → value)) l : length (update_all fs l) = length fs `max` length l.
Proof. revert l. induction fs as [|f fs IH]; intros [|v l]; simpl; rewrite ?IH /=; lia. Qed.

Lemma sourced_entry m k : sourced (VMsn m) → sourced (default VNil (m !! k)).
Proof.
  intros [?|Hm]; [done|]. destruct (m !! k) as [x|] eqn:Hk; [right|by left]. by apply (proj1 (map_sourced m) Hm) in Hk as [_ ?].
Qed.

Lemma sourced_path ts v : sourced v → sourced (path_get v (names ts)).
Proof.
  revert v. induction ts as [|t ts IH]; intros v Hv; [done|]. simpl. destruct v; try (by left).
  rewrite pick_name. by apply IH, sourced_entry.
Qed.

Lemma path_ready ts v : path_get v (names ts) ≠ VNil → ready v (names ts).
Proof.
  revert v. induction ts as [|t ts IH]; intros v Hv; [done|]. simpl in Hv. destruct v as [| | | |m| |]; try done.
  exists m. rewrite pick_name in Hv |- *. split_and!; [done | by left | by apply IH].
Qed.

Lemma deep_merge_slice source old : ¬ is_slice source → is_slice (deep_merge source old) → is_slice old.
Proof.
  intros Hs [l Hl]. destruct source; simpl in Hl; try done; [by destruct Hs; eexists|].
  destruct old; simpl in Hl; try done. by eexists.
Qed.

(** What is merged into nodes of sources are nodes of sources. *)
Lemma deep_merge_sourced source old :
  source_ok source → sourced old → compat source old → source_ok (nodeToInterface (deep_merge source old)).
Proof.
  intros Hs. revert old. induction Hs as [s|s Hp Hs IH|l Hlen Hsl Hs IH]; intros old Ho; [by constructor| |].
  - intros (m & Hm & Hc). cbn [deep_merge]. rewrite Hm. apply map_sourced. intros k x. rewrite merge_lookup lookup_fmap.
    assert (Hmo : sourced (VMsn m)).
    { destruct (node_map_inv _ _ Hm) as [<-|[_ ->]]; [done|]. right. by apply map_sourced. }
    destruct (s !! k) as [y|] eqn:Hk; simpl; [intros [= <-]|].
    + split; [by eapply Hp|]. eapply IH; [done | by apply sourced_entry|]. apply Hc. by rewrite lookup_fmap Hk.
    + destruct Hmo as [?|Hmo]; [done|]. by apply map_sourced.
  - intros (lv & Hlv & Hc). cbn [deep_merge]. rewrite Hlv. apply slice_sourced.
    assert (Hlo : (Z.of_nat (length lv) ≤ max_int)%Z ∧ ∀ i x, lv !! i = Some x → ¬ is_slice x ∧ source_ok (nodeToInterface x)).
    { destruct old; try done; injection Hlv as <-; [done|]. destruct Ho as [?|Ho]; [done|]. by apply slice_sourced. }
    destruct Hlo as [Hlenv Hlv2]. split; [rewrite update_all_length length_fmap; lia|]. intros i x. rewrite update_all_lookup list_lookup_fmap.
    destruct (l !! i) as [y|] eqn:Hi; simpl; [intros [= <-]|by apply Hlv2].
    assert (He : ¬ is_slice (default VNil (lv !! i)) ∧ sourced (default VNil (lv !! i))).
    { destruct (lv !! i) as [x|] eqn:Hx; simpl; [apply Hlv2 in Hx as [? ?]; split; [done|by right] | split; [by intros [? ?] | by left]]. }
    split; [intros Hsl2; by apply He, (deep_merge_slice y); [eapply Hsl|] | eapply IH; [done | apply He|]].
    apply (Hc i). by rewrite list_lookup_fmap Hi.
Qed.
End Nodes.

(** ** Options that merge maps *)
Section Settings.
Context {scalar : Type} (zero_of : scalar → scalar) (string_len : scalar → option nat) (of_text : text → scalar).
Context {P : Type} `{!EnvProvider P} (env : P) (r : option (text → text)) (prefix : text).
Context (o : map_order text (value scalar)) (order : map_order text (result cfg_error (value scalar))).
Abbreviation value := (value scalar).
Context (sanitizers : list (value → result cfg_error value)).
Implicit Types (v old : value) (m s : gmap text value) (ts : list text) (k t : text) (sources : list (gmap text value)).

(** The sanitizers keep the scalars. *)
Context (Hsan : ∀ x, sanitizeValue sanitizers (VScalar x) = Ok (VScalar x)).
Context (Hr : replacer_ok r) (Hprefix : ("["%char : ascii) ∉ prefix) (Hinert : inert_env env).

Lemma all_ok_values {K A} (l : list (K * result cfg_error A)) (values : list (K * A)) :
  l = prod_map id Ok <$> values → all_ok l = Ok values.
Proof. intros ->. induction values as [|[k a] values IH]; [done|]. simpl. by rewrite IH. Qed.

Lemma enum_values s : ∃ l, enum order (Ok <$> s) = prod_map id Ok <$> l ∧ list_to_map l = s.
Proof.
  assert (Hp : enum order (Ok <$> s) ≡ₚ prod_map id Ok <$> map_to_list s) by (by rewrite enum_perm map_to_list_fmap).
  apply Permutation_map_inv in Hp as (l & Hl & Hp). exists l. split; [done|].
  rewrite -(list_to_map_to_list s). apply list_to_map_proper; [|done].
  rewrite -Hp. apply NoDup_fst_map_to_list.
Qed.

Lemma Sanitize_keeps v : source_ok v → Sanitize sanitizers order v = Ok v.
Proof.
  induction 1 as [x|s _ _ IH|l _ _ _ IH]; simpl; [apply Hsan|..].
  - assert (Hs : Sanitize sanitizers order <$> s = Ok <$> s).
    { apply map_eq. intros k. rewrite !lookup_fmap. destruct (s !! k) eqn:Hk; simpl; [|done]. f_equal. by eapply IH. }
    rewrite Hs. unfold sanitizeMap. destruct (enum_values s) as (l & -> & Hl). by rewrite (all_ok_values _ l) //= Hl.
  - assert (Hs : Sanitize sanitizers order <$> l = Ok <$> l).
    { apply list_eq. intros i. rewrite !list_lookup_fmap. destruct (l !! i) eqn:Hi; simpl; [|done]. f_equal. by eapply IH. }
    rewrite Hs. unfold sanitizeSlice. rewrite (all_ok_values _ (imap pair l)).
    + apply list_eq. intros i. rewrite list_lookup_fmap !list_lookup_imap list_lookup_fmap. by destruct (l !! i).
    + simpl. do 2 f_equal. apply list_eq. intros i. rewrite list_lookup_fmap list_lookup_imap. by destruct (l !! i).
Qed.

(** Maps that can be merged one after the other over a value, and the value after them. *)
Fixpoint fits sources old : Prop :=
  match sources with
  | [] => True
  | s :: sources => source_ok (VMsi s) ∧ compat (VMsi s) old ∧ fits sources (deep_merge (VMsi s) old)
  end.

Definition merged sources old : value := fold_left (λ old s, deep_merge (VMsi s) old) sources old.

Abbreviation WithConfigMap s := (WithConfigMap zero_of string_len o sanitizers order s false).

Lemma WithConfigMap_merges s m :
  source_ok (VMsi s) → full (VMsn m) → compat (VMsi s) (VMsn m) →
  ∃ m', WithConfigMap s m = Some (Ok (m', Ok ())) ∧ VMsn m' = deep_merge (VMsi s) (VMsn m).
Proof.
  intros Hs Hm Hc. destruct (Merge_root zero_of string_len o s m Hm Hs Hc) as (m' & Hmg & Hm'). exists m'. split; [|done].
  unfold Cfg.WithConfigMap, merge_setting, mergeMsi. by rewrite Sanitize_keeps // Hmg.
Qed.

Lemma options_merge sources m :
  fits sources (VMsn m) → full (VMsn m) → sourced (VMsn m) →
  ∃ m', Option ((λ s, WithConfigMap s) <$> sources) m = Some (Ok (m', Ok ())) ∧
        VMsn m' = merged sources (VMsn m) ∧ full (VMsn m') ∧ sourced (VMsn m').
Proof.
  revert m. induction sources as [|s sources IH]; intros m Hf Hm Hsrc; [by exists m|]. destruct Hf as (Hs & Hc & Hf).
  destruct (WithConfigMap_merges s m Hs Hm Hc) as (m1 & H1 & Hm1). rewrite -Hm1 in Hf.
  destruct (IH m1 Hf) as (m' & H2 & Hm'); [rewrite Hm1; apply deep_merge_full; [done | by right | done] | right; rewrite Hm1; by apply deep_merge_sourced |].
  exists m'. cbn [fmap list_fmap Option]. unfold bind. rewrite H1. cbn [eff_bind]. rewrite H2. split; [done|].
  unfold merged. cbn [fold_left]. by rewrite -Hm1.
Qed.

(** C22: The maps of the options are merged leaf by leaf, later ones over earlier ones, and a
    key that has a value afterwards is read as that value with the environment over its
    leaves.  This is for keys that are paths of names without separators, escapes and
    indices (elements of slices are not read, their keys panic); for maps of options whose
    own keys are such names, that hold neither nil nor slices in slices, and that fit each
    other (no map or slice over something else in an earlier one); for sanitizers that keep
    scalars; for an environment whose values have neither flags nor placeholders, with the
    default key replacer or none and a prefix without a bracket. *)
Theorem settings_precedence sources rec ts default
    (Hfit : fits sources (VMsn ∅)) (Hts : ts ≠ [] ∧ Forall plain ts)
    (Hset : path_get (merged sources (VMsn ∅)) (names ts) ≠ VNil) :
  ∃ m m', Option ((λ s, WithConfigMap s) <$> sources) ∅ = Some (Ok (m, Ok ())) ∧ VMsn m = merged sources (VMsn ∅) ∧
          get zero_of string_len of_text env r prefix o rec (key_of ts) default m =
          Some (Ok (m', Ok (nodeToInterface (read_value of_text env r prefix (path_get (merged sources (VMsn ∅)) (names ts)) ts)))).
Proof.
  destruct (options_merge sources ∅) as (m & Hopt & Hm & Hfull & Hsrc); [done | constructor; intros k x; by rewrite lookup_empty | |].
  { right. apply map_sourced. intros k x. by rewrite lookup_empty. }
  rewrite -Hm in Hset |- *. destruct (get_found zero_of string_len of_text env r prefix o Hr Hprefix Hinert rec ts default m) as (m' & Hget & _).
  - split; [done..|by apply path_ready|]. intros _. by destruct (sourced_path ts _ Hsrc).
  - by left.
  - by exists m, m'.
Qed.
End Settings.

(** ** A sample *)
Module Precedence.
Import Samples Reads.

(** Defaults, and settings over them. *)
Definition defaults : gmap text (value scalar) :=
  {[str "db" := VMsi {[str "name" := txt "test"; str "port" := VScalar (SInt 3306); str "host" := txt "localhost"]}]}.
Definition overrides : gmap text (value scalar) := {[str "db" := VMsi {[str "host" := txt "mysql"; str "name" := txt "stage"]}]}.

Definition db : gmap text (value scalar) :=
  {[str "name" := txt "prod"; str "port" := VScalar (SInt 3306); str "host" := txt "mysql"]}.

Lemma defaults_merged :
  deep_merge (VMsi defaults) (VMsn ∅) =
  VMsn {[str "db" := VMsn {[str "name" := txt "test"; str "port" := VScalar (SInt 3306); str "host" := txt "localhost"]}]}.
Proof. vm_compute. reflexivity. Qed.

Lemma settings_precedence_witness :
  ∃ m m', Option ((λ s, WithConfigMap zero_of string_len canonical_order [] canonical_order s false) <$> [defaults; overrides]) ∅ = Some (Ok (m, Ok ())) ∧
          VMsn m = merged [defaults; overrides] (VMsn ∅) ∧
          get_of (λ _, fail (ErrNoSetting [])) (str "db") None m = Some (Ok (m', Ok (VMsi db))).
Proof.
  refine (settings_precedence zero_of string_len SText environment (Some DefaultEnvKeyReplacer) [] canonical_order canonical_order []
    (λ _, eq_refl) (or_intror eq_refl) (not_elem_of_nil _) environment_inert [defaults; overrides] (λ _, fail (ErrNoSetting [])) path_db None _ _ _).
  - split; [unfold defaults, txt; concrete_value|]. split; [unfold defaults, txt; concrete_compat|].
    split; [unfold overrides, txt; concrete_value|]. split; [|exact I].
    rewrite defaults_merged. unfold overrides, txt. concrete_compat.
  - split; [done|]. repeat (apply Forall_cons; split); try (apply Forall_nil; exact I). concrete_value.
  - by vm_compute.
Defined.
End Precedence.
