(* ===== verification/CfgPost.v ===== *)
(** The post processors of the configuration: those of Cfg run in the order of their
    priorities, and in the order of their registration within one. *)
From S2P Require Import Prelude Texts Num FunkMaps MapX MapMerge Cfg.

Open Scope Z_scope.

Section Post.
Context {C E : Type}.

(** A registration. *)
Record registration := { priority : Z; named : text; process : C → C * result E bool }.

Implicit Types (regs l : list registration) (p : Z) (ps : list Z) (x : registration).

Definition entity x : postProcessorEntity (C := C) (E := E) := {| name := named x; processor := process x |}.
Definition register (r : registry) x : registry := AddPostProcessor (priority x) (named x) (process x) r.
Definition registered regs : registry := fold_left register regs empty_registry.

Definition at_priority p regs : list registration := filter (λ x, priority x = p) regs.

(** Processors one after the other, up to the first error, and the names of those that
    changed something with their priorities. *)
Fixpoint run l (config : C) (applied : gmap text Z) : C * result E (gmap text Z) :=
  match l with
  | [] => (config, Ok applied)
  | x :: l =>
      match process x config with
      | (config, Err err) => (config, Err err)
      | (config, Ok b) => run l config (if b then <[named x := priority x]> applied else applied)
      end
  end.

(** *** The registry *)
Record holds regs (r : registry (C := C) (E := E)) : Prop := {
  holds_nodup : NoDup (postProcessorPriorities r);
  holds_priorities p : p ∈ postProcessorPriorities r ↔ ∃ x, x ∈ regs ∧ priority x = p;
  holds_keys p : is_Some (postProcessorEntities r !! p) ↔ p ∈ postProcessorPriorities r;
  holds_entities p : default [] (postProcessorEntities r !! p) = entity <$> at_priority p regs
}.

Lemma at_priority_snoc p regs x :
  at_priority p (regs ++ [x]) = if decide (priority x = p) then at_priority p regs ++ [x] else at_priority p regs.
Proof. unfold at_priority. rewrite filter_app filter_cons filter_nil. case_decide; [done|]. by rewrite app_nil_r. Qed.

Lemma at_priority_twice p q regs : at_priority p (at_priority q regs) = if decide (p = q) then at_priority p regs else [].
Proof.
  unfold at_priority. induction regs as [|x regs IH]; [by case_decide|]. rewrite !filter_cons.
  destruct (decide (priority x = q)) as [<-|Hq].
  - rewrite filter_cons IH. destruct (decide (p = priority x)) as [->|Hp]; [by rewrite decide_True|]. by rewrite decide_False.
  - rewrite IH. destruct (decide (p = q)) as [->|Hp]; [by rewrite decide_False|done].
Qed.

Lemma register_holds regs r x : holds regs r → holds (regs ++ [x]) (register r x).
Proof.
  intros [Hn Hp Hk He]. unfold register, AddPostProcessor, map_has.
  assert (Hin : ∀ p, (∃ y, y ∈ regs ++ [x] ∧ priority y = p) ↔ p ∈ postProcessorPriorities r ∨ p = priority x).
  { intros p. rewrite Hp. setoid_rewrite elem_of_app. setoid_rewrite list_elem_of_singleton. naive_solver. }
  set (q := priority x) in *. destruct (postProcessorEntities r !! q) as [l|] eqn:Hq; cbn [postProcessorPriorities postProcessorEntities].
  - assert (Hqin : q ∈ postProcessorPriorities r) by (apply Hk; by rewrite Hq). split; simpl; [done|..]; intros p.
    + rewrite Hin. naive_solver.
    + destruct (decide (p = q)) as [->|Hpq]; [rewrite lookup_insert_eq|by rewrite lookup_insert_ne]. split; [done|by eexists].
    + rewrite at_priority_snoc. fold q. specialize (He p). destruct (decide (q = p)) as [<-|Hpq].
      * by rewrite lookup_insert_eq fmap_app -He.
      * by rewrite lookup_insert_ne.
  - assert (Hqin : q ∉ postProcessorPriorities r) by (intros [? Hs]%Hk; congruence). split; simpl; [|intros p..].
    + apply NoDup_app. split_and!; [done | set_solver | apply NoDup_singleton].
    + rewrite Hin elem_of_app list_elem_of_singleton. done.
    + rewrite elem_of_app list_elem_of_singleton insert_insert_eq. destruct (decide (p = q)) as [->|Hpq].
      * rewrite lookup_insert_eq. split; [by right | by eexists].
      * rewrite lookup_insert_ne // Hk. naive_solver.
    + rewrite at_priority_snoc insert_insert_eq. fold q. specialize (He p). destruct (decide (q = p)) as [<-|Hpq].
      * rewrite !lookup_insert_eq fmap_app -He Hq. done.
      * by rewrite lookup_insert_ne.
Qed.

Lemma registered_holds regs : holds regs (registered regs).
Proof.
  induction regs as [|x regs IH] using rev_ind.
  - split; simpl; [constructor | intros p..]; rewrite ?lookup_empty.
    + split; [by intros ?%elem_of_nil | by intros (? & ?%elem_of_nil & _)].
    + split; [by intros [? ?] | by intros ?%elem_of_nil].
    + done.
  - unfold registered. rewrite fold_left_app. simpl. by apply register_holds.
Qed.

(** *** The order *)
Definition by_priority ps regs : list registration := mjoin ((λ p, at_priority p regs) <$> ps).

Lemma by_priority_elem ps regs x : x ∈ by_priority ps regs ↔ x ∈ regs ∧ priority x ∈ ps.
Proof.
  unfold by_priority. rewrite list_elem_of_join. setoid_rewrite list_elem_of_fmap. split.
  - intros (l & Hx & p & -> & Hp). apply list_elem_of_filter in Hx as [<- Hx]. done.
  - intros [Hx Hp]. eexists. split; [|by eexists]. by apply list_elem_of_filter.
Qed.

Lemma by_priority_within ps regs p :
  NoDup ps → at_priority p (by_priority ps regs) = if decide (p ∈ ps) then at_priority p regs else [].
Proof.
  induction 1 as [|q ps Hq _ IH]; [by case_decide as Hd; [apply elem_of_nil in Hd|]|].
  change (by_priority (q :: ps) regs) with (at_priority q regs ++ by_priority ps regs).
  unfold at_priority at 1. rewrite filter_app. fold (at_priority p (at_priority q regs)) (at_priority p (by_priority ps regs)).
  rewrite IH at_priority_twice. destruct (decide (p = q)) as [->|Hd].
  - rewrite (decide_True (P := q ∈ q :: ps)); [left|]. by rewrite decide_False // app_nil_r.
  - simpl. destruct (decide (p ∈ ps)); [rewrite decide_True //; by right | rewrite decide_False //]. by intros [?|?]%elem_of_cons.
Qed.

Lemma by_priority_rest ps q regs : q ∉ ps → by_priority ps (filter (λ x, priority x ≠ q) regs) = by_priority ps regs.
Proof.
  intros Hq. unfold by_priority. f_equal. apply list_fmap_ext. intros i p Hp%list_elem_of_lookup_2. unfold at_priority.
  apply list_filter_filter_l. by intros x -> <-.
Qed.

Lemma by_priority_perm ps regs :
  NoDup ps → (∀ x, x ∈ regs → priority x ∈ ps) → by_priority ps regs ≡ₚ regs.
Proof.
  intros Hps. revert regs. induction Hps as [|q ps Hq _ IH]; intros regs Hin.
  - destruct regs as [|x regs]; [done|]. specialize (Hin x). set_solver.
  - change (by_priority (q :: ps) regs) with (at_priority q regs ++ by_priority ps regs).
    rewrite -(by_priority_rest ps q) // IH; [|by apply filter_app_complement].
    intros x [Hx Hr]%list_elem_of_filter. by apply Hin, elem_of_cons in Hr as [?|?].
Qed.

Lemma by_priority_sorted ps regs :
  StronglySorted (λ p q, q ≤ p) ps → StronglySorted (λ x y, priority y ≤ priority x) (by_priority ps regs).
Proof.
  induction 1 as [|q ps _ IH Hq]; [constructor|].
  change (by_priority (q :: ps) regs) with (at_priority q regs ++ by_priority ps regs). apply StronglySorted_app_2; [|clear|done].
  - intros x y [-> _]%list_elem_of_filter [_ Hy]%by_priority_elem. rewrite Forall_forall in Hq. by apply Hq.
  - assert (Hall : Forall (λ x, priority x = q) (at_priority q regs)).
    { apply Forall_forall. by intros x [? _]%list_elem_of_filter. }
    induction Hall as [|x l Hx Hl IH]; constructor; [done|]. eapply Forall_impl; [exact Hl|]. simpl. lia.
Qed.

Lemma descending ps : StronglySorted Z.le ps → StronglySorted (λ p q, q ≤ p) (reverse ps).
Proof.
  induction 1 as [|p ps _ IH Hp]; [constructor|]. rewrite reverse_cons. apply StronglySorted_app_2; [|done|by repeat constructor].
  intros q q' Hq ->%list_elem_of_singleton. rewrite elem_of_reverse in Hq. rewrite Forall_forall in Hp. by apply Hp.
Qed.

(** *** Running them *)
Lemma run_app l l' config applied :
  run (l ++ l') config applied =
  match run l config applied with
  | (config, Ok applied) => run l' config applied
  | (config, Err err) => (config, Err err)
  end.
Proof.
  revert config applied. induction l as [|x l IH]; intros config applied; [done|]. simpl.
  by destruct (process x config) as [? [b|err]].
Qed.

Lemma apply_entities_run p l config applied :
  Forall (λ x, priority x = p) l → apply_entities p (entity <$> l) config applied = run l config applied.
Proof.
  intros Hl. revert config applied. induction Hl as [|x l Hx _ IH]; intros config applied; [done|]. simpl.
  destruct (process x config) as [? [b|err]]; [|done]. by rewrite IH Hx.
Qed.

Lemma apply_priorities_run regs r ps config applied :
  holds regs r → apply_priorities r ps config applied = run (by_priority ps regs) config applied.
Proof.
  intros Hr. revert config applied. induction ps as [|p ps IH]; intros config applied; [done|].
  change (by_priority (p :: ps) regs) with (at_priority p regs ++ by_priority ps regs). cbn [apply_priorities].
  rewrite run_app (holds_entities _ _ Hr) apply_entities_run; [|destruct (run _ _ _) as [? [?|?]]; [by rewrite IH|done]].
  apply Forall_forall. by intros x [? _]%list_elem_of_filter.
Qed.

(** The post processors run from the highest priority to the lowest one, in the order of
    their registration where the priorities are equal, each of them once and up to the
    first error; the names of those that changed something are reported with their
    priorities, and the registry has the same processors afterwards. *)
Theorem ApplyPostProcessors_correct regs config :
  let '(r, res) := ApplyPostProcessors (registered regs) config in
  holds regs r ∧
  ∃ l, l ≡ₚ regs ∧ StronglySorted (λ x y, priority y ≤ priority x) l ∧
       (∀ p, at_priority p l = at_priority p regs) ∧ res = run l config ∅.
Proof.
  pose proof (registered_holds regs) as Hr. pose proof Hr as [Hn Hp Hk He]. unfold ApplyPostProcessors.
  set (ps := merge_sort Z.le (postProcessorPriorities (registered regs))).
  assert (Hperm : ps ≡ₚ postProcessorPriorities (registered regs)) by apply merge_sort_Permutation.
  assert (Hps : NoDup (reverse ps)) by (by rewrite reverse_Permutation Hperm).
  assert (Hin : ∀ p, p ∈ reverse ps ↔ ∃ x, x ∈ regs ∧ priority x = p) by (intros p; by rewrite elem_of_reverse Hperm).
  split; [split; simpl; [by rewrite Hperm|intros p; by rewrite Hperm..|done]|].
  exists (by_priority (reverse ps) regs). split_and!.
  - apply by_priority_perm; [done|]. intros x Hx. apply Hin. by exists x.
  - apply by_priority_sorted, descending, (StronglySorted_merge_sort _).
  - intros p. rewrite by_priority_within //. case_decide as Hd; [done|]. symmetry.
    destruct (at_priority p regs) as [|x l] eqn:Hx; [done|]. destruct Hd. apply Hin. exists x.
    assert (Hx2 : x ∈ at_priority p regs) by (rewrite Hx; left). by apply list_elem_of_filter in Hx2 as [? ?].
  - by apply apply_priorities_run.
Qed.
End Post.

(** Three processors on a number: 30 comes first, then 10 twice. *)
Example post_processors_sample :
  let reg priority n f : registration (C := Z) (E := unit) := {| priority := priority; named := str n; process := λ c, (f c, Ok (bool_decide (f c ≠ c))) |} in
  (ApplyPostProcessors (registered [reg 10 "a" (λ c, c + 1); reg 30 "b" (λ c, c * 2); reg 10 "c" (λ c, c - 0)]) 5).2 =
  (11, Ok {[str "a" := 10; str "b" := 30]}).
Proof. by vm_compute. Qed.
