(* ===== verification/ModelId.v ===== *)
(** The identity of a model: pkg/mdl/model_id.go and parse.go.  A model id is written by
    the domain pattern of the configuration, and parsed by a regular expression that is
    built from the same pattern. *)
From Stdlib Require Import Ascii.
From S2P Require Import Prelude Texts.

Open Scope char_scope.
Open Scope nat_scope.

(** ** The model id *)

(** [pkg/mdl/model_id.go:12-17] the names of the placeholders *)
Definition PlaceholderAppEnv : text := str "app.env".
Definition PlaceholderAppName : text := str "app.name".
Definition PlaceholderAppTags : text := str "app.tags.".

(** [pkg/mdl/model_id.go:40-52] ModelId *)
Record ModelId := { Name : text; Env : text; Application : text; Tags : gmap text text; DomainPattern : text }.

Definition TrimPrefix (s prefix : text) : text := default s (strip prefix s).

(** [pkg/mdl/model_id.go:19-19] domainRegex *)
Definition not_closing (a : ascii) : bool := negb (bool_decide (a = "}")).
Definition domain_match (s : text) : option (text * text * text) :=
  match s with
  | "{" :: s =>
      match span not_closing s with
      | ((_ :: _) as name, "}" :: rest) => Some ("{" :: name ++ ["}"], name, rest)
      | _ => None
      end
  | _ => None
  end.

Definition domain_matches (s : text) : list (text * text) := find_all (length s) domain_match s.

(** [pkg/mdl/model_id.go:54-66] ToMap *)
Definition ToMap (o : map_order text text) (i : ModelId) : gmap text text :=
  fold_left (λ mss kv, <[PlaceholderAppTags ++ kv.1 := kv.2]> mss) (enum o (Tags i))
    {[str "name" := Name i; PlaceholderAppName := Application i; PlaceholderAppEnv := Env i]}.

(** The value of a placeholder, if it is known. *)
Definition placeholder_value (m : ModelId) (placeholder : text) : option text :=
  if decide (placeholder = PlaceholderAppEnv) then Some (Env m)
  else if decide (placeholder = PlaceholderAppName) then Some (Application m)
  else if HasPrefix_text placeholder PlaceholderAppTags then Some (default [] (Tags m !! TrimPrefix placeholder PlaceholderAppTags))
  else None.

(** [pkg/mdl/model_id.go:116-143] formatDomain *)
Definition formatDomain (m : ModelId) (domainPattern : text) : text :=
  fold_left (λ result match_,
    match placeholder_value m match_.2 with
    | Some v => ReplaceAll result match_.1 v
    | None => result
    end) (domain_matches domainPattern) domainPattern.

(** [pkg/mdl/model_id.go:110-114] format *)
Definition format (m : ModelId) (domainPattern : text) : text := formatDomain m domainPattern ++ "." :: Name m.

(** [pkg/mdl/model_id.go:76-78] String *)
Definition String (m : ModelId) : text := format m (DomainPattern m).

(** [pkg/mdl/model_id.go:88-90] DomainString *)
Definition DomainString (m : ModelId) : text := formatDomain m (DomainPattern m).

(** What goes wrong. *)
Inductive mdl_error (E : Type) :=
| ErrConfig (err : E)
| ErrEmptyEnv
| ErrEmptyName
| ErrCast (key : text)
| ErrEmptyPattern
| ErrMissingTag (tagKey : text)
| ErrEmptyTagKey (ph : text)
| ErrUnknownPlaceholder (ph : text)
| ErrPlaceholderNotFound (ph : text)
| ErrNoMatch (s : text).
Arguments ErrConfig {E}. Arguments ErrEmptyEnv {E}. Arguments ErrEmptyName {E}. Arguments ErrCast {E}.
Arguments ErrEmptyPattern {E}. Arguments ErrMissingTag {E}. Arguments ErrEmptyTagKey {E}. Arguments ErrUnknownPlaceholder {E}.
Arguments ErrPlaceholderNotFound {E}. Arguments ErrNoMatch {E}.

(** [pkg/mdl/model_id.go:320-331] extractPlaceholders; a match is never empty *)
Definition extractPlaceholders (pattern : text) : list text := (domain_matches pattern).*2.

Section Validate.
Context {E : Type}.

Fixpoint check_placeholders (placeholders : list text) : option (mdl_error E) :=
  match placeholders with
  | [] => None
  | ph :: placeholders =>
      if bool_decide (ph = PlaceholderAppEnv) || bool_decide (ph = PlaceholderAppName) then check_placeholders placeholders
      else if HasPrefix_text ph PlaceholderAppTags then
        if bool_decide (TrimPrefix ph PlaceholderAppTags = []) then Some (ErrEmptyTagKey ph) else check_placeholders placeholders
      else Some (ErrUnknownPlaceholder ph)
  end.

(** [pkg/mdl/model_id.go:286-316] validateModelIdDomainPattern *)
Definition validateModelIdDomainPattern (domainPattern : text) : option (mdl_error E) :=
  match domainPattern with
  | [] => Some ErrEmptyPattern
  | _ =>
      match extractPlaceholders domainPattern with
      | [] => None
      | placeholders => check_placeholders placeholders
      end
  end.

Fixpoint check_tags (placeholders : list text) (tags : gmap text text) : option (mdl_error E) :=
  match placeholders with
  | [] => None
  | ph :: placeholders =>
      if HasPrefix_text ph PlaceholderAppTags then
        match tags !! TrimPrefix ph PlaceholderAppTags with
        | Some _ => check_tags placeholders tags
        | None => Some (ErrMissingTag (TrimPrefix ph PlaceholderAppTags))
        end
      else check_tags placeholders tags
  end.

(** [pkg/mdl/model_id.go:336-351] validatePatternTagsPresent *)
Definition validatePatternTagsPresent (domainPattern : text) (tags : gmap text text) : option (mdl_error E) :=
  check_tags (extractPlaceholders domainPattern) tags.
End Validate.

(** ** Parsing *)

(** A regular expression of texts and groups of characters but the dot, which ends with a
    dot and a group of anything but line breaks; or one group of anything. *)
Inductive regex_item := RLit (t : text) | RGroup.
Inductive parse_regex := StaticRegex | DomainRegex (items : list regex_item).

Definition not_dot (a : ascii) : bool := negb (bool_decide (a = ".")).

(** The longest group that lets the rest match, from a length down to one. *)
Fixpoint longest_group (n : nat) (s : text) (rest : text → option (list text)) : option (list text) :=
  match n with
  | 0 => None
  | S n' =>
      match rest (drop n s) with
      | Some groups => Some (take n s :: groups)
      | None => longest_group n' s rest
      end
  end.

Definition match_name (s : text) : option (list text) :=
  match s with
  | "." :: ((_ :: _) as name) => if bool_decide ("010" ∈ name) then None else Some [name]
  | _ => None
  end.

Fixpoint match_items (items : list regex_item) (s : text) : option (list text) :=
  match items with
  | [] => match_name s
  | RLit t :: items => match strip t s with Some s => match_items items s | None => None end
  | RGroup :: items => longest_group (length (span not_dot s).1) s (match_items items)
  end.

(** FindStringSubmatch: the groups. *)
Definition FindStringSubmatch (r : parse_regex) (s : text) : option (list text) :=
  match r with
  | StaticRegex => match s with [] => None | _ => if bool_decide ("010" ∈ s) then None else Some [s] end
  | DomainRegex items => match_items items s
  end.

(** strings.Index: what is before the first occurrence and what is after it. *)
Fixpoint cut (s sub : text) : option (text * text) :=
  match strip sub s with
  | Some rest => Some ([], rest)
  | None =>
      match s with
      | [] => None
      | a :: s => match cut s sub with Some (before, after) => Some (a :: before, after) | None => None end
      end
  end.

(** [pkg/mdl/parse.go:108-108] placeholderGroupModelName *)
Definition placeholderGroupModelName : text := str "__model_name__".

Section Parse.
Context {E : Type}.

(** A text of the expression, unless it is empty. *)
Definition lit (t : text) : list regex_item := match t with [] => [] | _ => [RLit t] end.

Fixpoint build_items (placeholders : list text) (remaining : text) : result (mdl_error E) (list regex_item) :=
  match placeholders with
  | [] => Ok (lit remaining)
  | ph :: placeholders =>
      match cut remaining ("{" :: ph ++ ["}"]) with
      | None => Err (ErrPlaceholderNotFound ph)
      | Some (before, after) => let! items := build_items placeholders after in Ok (lit before ++ RGroup :: items)
      end
  end.

(** [pkg/mdl/parse.go:124-177] buildParseRegex *)
Definition buildParseRegex (domainPattern : text) : result (mdl_error E) (parse_regex * list text) :=
  match extractPlaceholders domainPattern with
  | [] => Ok (StaticRegex, [placeholderGroupModelName])
  | placeholders =>
      let! items := build_items placeholders domainPattern in
      Ok (DomainRegex items, placeholders ++ [placeholderGroupModelName])
  end.

Definition with_group (modelId : ModelId) (name value : text) : ModelId :=
  if decide (name = placeholderGroupModelName) then
    {| Name := value; Env := Env modelId; Application := Application modelId; Tags := Tags modelId; DomainPattern := DomainPattern modelId |}
  else if decide (name = PlaceholderAppEnv) then
    {| Name := Name modelId; Env := value; Application := Application modelId; Tags := Tags modelId; DomainPattern := DomainPattern modelId |}
  else if decide (name = PlaceholderAppName) then
    {| Name := Name modelId; Env := Env modelId; Application := value; Tags := Tags modelId; DomainPattern := DomainPattern modelId |}
  else if HasPrefix_text name PlaceholderAppTags then
    {| Name := Name modelId; Env := Env modelId; Application := Application modelId;
       Tags := <[TrimPrefix name PlaceholderAppTags := value]> (Tags modelId); DomainPattern := DomainPattern modelId |}
  else modelId.

Fixpoint with_groups (modelId : ModelId) (names values : list text) : ModelId :=
  match names, values with
  | name :: names, value :: values => with_groups (with_group modelId name value) names values
  | _, _ => modelId
  end.

Definition empty_id : ModelId := {| Name := []; Env := []; Application := []; Tags := ∅; DomainPattern := [] |}.

(** [pkg/mdl/parse.go:62-105] modelIdFromStringWithDomainPattern *)
Definition modelIdFromStringWithDomainPattern (domainPattern s : text) : result (mdl_error E) ModelId :=
  match validateModelIdDomainPattern domainPattern with
  | Some err => Err err
  | None =>
      let! (parseRegex, groupNames) := buildParseRegex domainPattern in
      match FindStringSubmatch parseRegex s with
      | None => Err (ErrNoMatch s)
      | Some groups => Ok (with_groups empty_id groupNames groups)
      end
  end.
End Parse.

Definition with_pattern (m : ModelId) (domainPattern : text) : ModelId :=
  {| Name := Name m; Env := Env m; Application := Application m; Tags := Tags m; DomainPattern := domainPattern |}.

(** ** The configuration *)

(** [pkg/mdl/model_id.go:26-30] ConfigProvider: reads, which may change the configuration *)
Class ConfigProvider (C E value : Type) := {
  config_Get : text → C → C * result E value;
  config_GetString : text → C → C * result E text;
  config_GetStringMap : text → C → C * result E (gmap text value)
}.

(** [pkg/mdl/model_id.go:22-22] ConfigKeyModelIdDomainPattern *)
Definition ConfigKeyModelIdDomainPattern : text := str "app.model_id.domain_pattern".

Section Config.
Context {C E value : Type} `{!ConfigProvider C E value} (ToStringE : value → option text) (o : map_order text value).

(** [pkg/mdl/parse.go:17-46] ParseModelId *)
Definition ParseModelId (c : C) (s : text) : C * result (mdl_error E) ModelId :=
  match config_Get ConfigKeyModelIdDomainPattern c with
  | (c, Err err) => (c, Err (ErrConfig err))
  | (c, Ok val) =>
      (c, match ToStringE val with
          | None => Err (ErrCast ConfigKeyModelIdDomainPattern)
          | Some [] => Err ErrEmptyPattern
          | Some domainPattern =>
              match validateModelIdDomainPattern domainPattern with
              | Some err => Err err
              | None =>
                  let! id := modelIdFromStringWithDomainPattern domainPattern s in
                  Ok (with_pattern id domainPattern)
              end
          end)
  end.

(** A change of a model id that reads the configuration; an error leaves what has changed. *)
Definition pad : Type := ModelId → C → C * (ModelId * option (mdl_error E)).

Definition then_ (p q : pad) : pad := λ m c,
  match p m c with
  | (c, (m, Some err)) => (c, (m, Some err))
  | (c, (m, None)) => q m c
  end.

Definition with_env (m : ModelId) (e : text) : ModelId :=
  {| Name := Name m; Env := e; Application := Application m; Tags := Tags m; DomainPattern := DomainPattern m |}.
Definition with_application (m : ModelId) (a : text) : ModelId :=
  {| Name := Name m; Env := Env m; Application := a; Tags := Tags m; DomainPattern := DomainPattern m |}.
Definition with_tags (m : ModelId) (tags : gmap text text) : ModelId :=
  {| Name := Name m; Env := Env m; Application := Application m; Tags := tags; DomainPattern := DomainPattern m |}.

(** [pkg/mdl/model_id.go:187-205] padEnvFromConfig *)
Definition padEnvFromConfig : pad := λ m c,
  match Env m with
  | _ :: _ => (c, (m, None))
  | [] =>
      match config_GetString PlaceholderAppEnv c with
      | (c, Err err) => (c, (with_env m [], Some (ErrConfig err)))
      | (c, Ok e) => (c, (with_env m (TrimSpace e), match TrimSpace e with [] => Some ErrEmptyEnv | _ => None end))
      end
  end.

(** [pkg/mdl/model_id.go:207-225] padApplicationFromConfig *)
Definition padApplicationFromConfig : pad := λ m c,
  match Application m with
  | _ :: _ => (c, (m, None))
  | [] =>
      match config_GetString PlaceholderAppName c with
      | (c, Err err) => (c, (with_application m [], Some (ErrConfig err)))
      | (c, Ok a) => (c, (with_application m (TrimSpace a), match TrimSpace a with [] => Some ErrEmptyName | _ => None end))
      end
  end.

Fixpoint merge_tags (configTags : list (text * value)) (tags : gmap text text) : gmap text text * option (mdl_error E) :=
  match configTags with
  | [] => (tags, None)
  | (k, v) :: configTags =>
      match tags !! k with
      | Some _ => merge_tags configTags tags
      | None =>
          match ToStringE v with
          | Some t => merge_tags configTags (<[k := t]> tags)
          | None => (<[k := []]> tags, Some (ErrCast (PlaceholderAppTags ++ k)))
          end
      end
  end.

(** [pkg/mdl/model_id.go:227-250] mergeTagsFromConfig *)
Definition mergeTagsFromConfig : pad := λ m c,
  let '(c, r) := config_GetStringMap (str "app.tags") c in
  let configTags := match r with Ok tags => tags | Err _ => ∅ end in
  let '(tags, err) := merge_tags (enum o configTags) (Tags m) in
  (c, (with_tags m tags, err)).

(** [pkg/mdl/model_id.go:252-276] loadDomainPatternFromConfig *)
Definition loadDomainPatternFromConfig : pad := λ m c,
  match DomainPattern m with
  | _ :: _ => (c, (m, None))
  | [] =>
      match config_Get ConfigKeyModelIdDomainPattern c with
      | (c, Err err) => (c, (m, Some (ErrConfig err)))
      | (c, Ok val) =>
          (c, match ToStringE val with
              | None => (m, Some (ErrCast ConfigKeyModelIdDomainPattern))
              | Some [] => (m, Some ErrEmptyPattern)
              | Some domainPattern => (with_pattern m domainPattern, None)
              end)
      end
  end.

(** [pkg/mdl/model_id.go:163-185] PadFromConfig *)
Definition PadFromConfig : pad :=
  then_ padEnvFromConfig (then_ padApplicationFromConfig (then_ mergeTagsFromConfig (then_ loadDomainPatternFromConfig
    (λ m c, (c, (m, validatePatternTagsPresent (DomainPattern m) (Tags m))))))).
End Config.

(** [pkg/mdl/model_id.go:379-395] UuidWithDashes: the error is the length *)
Definition UuidWithDashes (uuid : option text) : option text * option nat :=
  match uuid with
  | None => (None, Some 0)
  | Some u =>
      if bool_decide ("-" ∈ u) then (Some u, None)
      else if negb (length u =? 32) then (Some u, Some (length u))
      else (Some (take 8 u ++ "-" :: take 4 (drop 8 u) ++ "-" :: take 4 (drop 12 u) ++ "-" :: take 4 (drop 16 u) ++ "-" :: take 12 (drop 20 u)), None)
  end.
