(* ===== verification/ModelIdLaws.v ===== *)
(** What ModelId promises: the canonical text of a model id is its domain pattern with the
    values of the placeholders; parsing it gives the id back, and what is parsed is
    written the same way again; a padded id has what its pattern needs. *)
From Stdlib Require Import Ascii.
From S2P Require Import Prelude Texts FunkMaps MapX MapMerge Cfg ModelId.

Open Scope char_scope.
Open Scope nat_scope.

(** ** Patterns *)

(** Placeholders, each behind a text, and a text behind the last one. *)
Record pattern := { segments : list (text * text); ending : text }.

Definition names_of (p : pattern) : list text := (segments p).*2.
Definition pieces_of (segs : list (text * text)) (e : text) : list piece := (segs ≫= λ tn, [Lit tn.1; Hole tn.2]) ++ [Lit e].
Definition pattern_text (p : pattern) : text := source_text (pieces_of (segments p) (ending p)).

(** A placeholder that is known. *)
Definition known (n : text) : Prop :=
  n = PlaceholderAppEnv ∨ n = PlaceholderAppName ∨ ∃ k, k ≠ [] ∧ n = PlaceholderAppTags ++ k.

Record pattern_ok (p : pattern) : Prop := {
  pattern_pieces : Forall piece_ok (pieces_of (segments p) (ending p));
  pattern_known : Forall known (names_of p);
  pattern_some : segments p ≠ []
}.

(** The value of a placeholder in an id. *)
Definition val (m : ModelId) (n : text) : text := default [] (placeholder_value m n).

Section Patterns.
Implicit Types (s t n k e v : text) (ns vals : list text) (segs : list (text * text)) (ps : list piece) (m acc : ModelId) (p : pattern).

Lemma pieces_cons t n segs e : pieces_of ((t, n) :: segs) e = Lit t :: Hole n :: pieces_of segs e.
Proof. done. Qed.

Lemma source_segments t n segs e : source_text (pieces_of ((t, n) :: segs) e) = t ++ hole_text n ++ source_text (pieces_of segs e).
Proof. rewrite pieces_cons. by rewrite !source_text_cons. Qed.

Lemma pieces_holes segs e : holes (pieces_of segs e) = segs.*2.
Proof. induction segs as [|[t n] segs IH]; [done|]. rewrite pieces_cons. change (holes _) with (n :: holes (pieces_of segs e)). by rewrite IH. Qed.

Lemma hole_match n s : name_ok n → domain_match (hole_text n ++ s) = Some (hole_text n, n, s).
Proof.
  intros (Hne & _ & Hn). unfold hole_text. rewrite -app_comm_cons -app_assoc. simpl. rewrite span_all //; [|by destruct n].
  apply Forall_forall. intros a Ha. unfold not_closing. rewrite bool_decide_false //. by intros ->.
Qed.

Lemma other_match a s : a ≠ "{" → domain_match (a :: s) = None.
Proof. intros Ha. destruct a as [[] [] [] [] [] [] [] []]; try done. Qed.

Lemma segments_names_ok segs e n : Forall piece_ok (pieces_of segs e) → n ∈ segs.*2 → name_ok n.
Proof.
  induction segs as [|[t k] segs IH]; [by intros _ ?%elem_of_nil|]. rewrite pieces_cons !Forall_cons. intros (_ & Hk & Hps).
  intros [->|Hn]%elem_of_cons; [done | by apply IH].
Qed.

Lemma pattern_matches p : Forall piece_ok (pieces_of (segments p) (ending p)) → domain_matches (pattern_text p) = (λ n, (hole_text n, n)) <$> names_of p.
Proof.
  intros Hp. unfold domain_matches, pattern_text, names_of. rewrite (find_all_template domain_match name_ok hole_match other_match) ?pieces_holes //.
  intros n. by eapply segments_names_ok.
Qed.

Lemma pattern_placeholders p : Forall piece_ok (pieces_of (segments p) (ending p)) → extractPlaceholders (pattern_text p) = names_of p.
Proof. intros Hp. unfold extractPlaceholders. rewrite pattern_matches // -list_fmap_compose. apply list_fmap_id. Qed.

(** *** Known placeholders *)
Lemma prefix_strip s t : HasPrefix_text s t = true ↔ is_Some (strip t s).
Proof.
  revert s. induction t as [|a t IH]; intros [|b s]; simpl; [by split; eauto..| |].
  - split; [done | by intros [? ?]].
  - rewrite andb_true_iff bool_decide_eq_true IH. case_decide; split; naive_solver.
Qed.

Lemma tag_prefix k : HasPrefix_text (PlaceholderAppTags ++ k) PlaceholderAppTags = true ∧ TrimPrefix (PlaceholderAppTags ++ k) PlaceholderAppTags = k.
Proof. split; [rewrite prefix_strip|unfold TrimPrefix]; by rewrite strip_app. Qed.

Lemma known_cases n : known n →
  (n = PlaceholderAppEnv ∧ ∀ m, placeholder_value m n = Some (Env m)) ∨
  (n = PlaceholderAppName ∧ ∀ m, placeholder_value m n = Some (Application m)) ∨
  ∃ k, k ≠ [] ∧ n = PlaceholderAppTags ++ k ∧ ∀ m, placeholder_value m n = Some (default [] (Tags m !! k)).
Proof.
  intros [->|[->|(k & Hk & ->)]]; [by left | by right; left |]. right; right. exists k. split_and!; [done..|]. intros m.
  unfold placeholder_value. destruct (tag_prefix k) as [H1 H2]. destruct (decide _) as [Hd|_]; [discriminate Hd|]. destruct (decide _) as [Hd|_]; [discriminate Hd|]. by rewrite H1 H2.
Qed.

Lemma known_value m n : known n → placeholder_value m n = Some (val m n).
Proof. intros [[_ H]|[[_ H]|(k & _ & _ & H)]]%known_cases; unfold val; by rewrite H. Qed.

Lemma known_valid {E} ns : Forall known ns → check_placeholders (E := E) ns = None.
Proof.
  induction 1 as [|n ns Hn _ IH]; [done|]. cbn [check_placeholders]. destruct Hn as [->|[->|(k & Hk & ->)]]; [done..|].
  destruct (tag_prefix k) as [-> ->]. rewrite (bool_decide_false (k = [])) //.
Qed.

Lemma pattern_valid {E} p : pattern_ok p → validateModelIdDomainPattern (E := E) (pattern_text p) = None.
Proof.
  intros [Hp Hk Hs]. unfold validateModelIdDomainPattern. rewrite pattern_placeholders //.
  pose proof (known_valid (E := E) (names_of p) Hk) as Hv. destruct (pattern_text p) eqn:Ht; [|by destruct (names_of p)].
  exfalso. unfold pattern_text in Ht. destruct (segments p) as [|[t n] segs]; [done|]. rewrite source_segments in Ht. by destruct t.
Qed.

(** ** Writing *)

(** The values replace the placeholders, one after the other. *)
Lemma fold_values m ns ps :
  Forall (λ n, known n ∧ name_ok n ∧ "{" ∉ val m n) ns → Forall piece_ok ps → (∀ n, n ∈ holes ps → n ∈ ns) →
  fold_left (λ result match_, match placeholder_value m match_.2 with Some v => ReplaceAll result match_.1 v | None => result end)
    ((λ n, (hole_text n, n)) <$> ns) (source_text ps) = render (val m) ps.
Proof.
  intros Hns. revert ps. induction Hns as [|n ns (Hk & Hn & Hb) _ IH]; intros ps Hps Hh.
  - rewrite render_literal //. destruct (holes ps) as [|n l]; [done|]. specialize (Hh n). set_solver.
  - cbn [fmap list_fmap fold_left fst snd]. rewrite known_value //. unfold ReplaceAll. rewrite replace_template // -(render_subst (val m) n ps).
    apply IH; [by apply subst_ok|]. intros k [Hk' Hne]%holes_subst. apply Hh in Hk'. set_solver.
Qed.

Lemma formatDomain_render m p :
  pattern_ok p → Forall (λ n, "{" ∉ val m n) (names_of p) →
  formatDomain m (pattern_text p) = render (val m) (pieces_of (segments p) (ending p)).
Proof.
  intros [Hp Hk _] Hv. unfold formatDomain. rewrite pattern_matches //. apply fold_values; [|done|by rewrite pieces_holes].
  apply Forall_forall. intros n Hn. rewrite Forall_forall in Hk. rewrite Forall_forall in Hv. split_and!; [by apply Hk | by eapply segments_names_ok | by apply Hv].
Qed.

(** *** The texts between the dots *)
Fixpoint fill segs vals e : text :=
  match segs, vals with
  | (t, _) :: segs, v :: vals => t ++ v ++ fill segs vals e
  | _, _ => e
  end.

Lemma render_fill (f : text → text) segs e : render f (pieces_of segs e) = fill segs (f <$> segs.*2) e.
Proof.
  induction segs as [|[t n] segs IH]; [by unfold render; simpl; rewrite app_nil_r|]. rewrite pieces_cons. simpl. rewrite -IH. done.
Qed.

(** ** Parsing *)

(** The regular expression of a pattern. *)
Fixpoint items_of segs e : list regex_item :=
  match segs with
  | [] => lit e
  | (t, _) :: segs => lit t ++ RGroup :: items_of segs e
  end.

Lemma cut_found t sub s : sub ≠ [] → head sub = Some "{" → "{" ∉ t → cut (t ++ sub ++ s) sub = Some (t, s).
Proof.
  intros Hne Hh Ht. induction t as [|a t IH].
  - simpl. destruct (sub ++ s) eqn:He; simpl; rewrite -He strip_app //.
  - apply not_elem_of_cons in Ht as [Ha Ht]. destruct sub as [|b sub]; [done|]. injection Hh as ->.
    cbn [app cut strip]. rewrite decide_False //. by rewrite IH.
Qed.

Lemma build_items_spec {E} segs e :
  Forall piece_ok (pieces_of segs e) → build_items (E := E) segs.*2 (source_text (pieces_of segs e)) = Ok (items_of segs e).
Proof.
  induction segs as [|[t n] segs IH]; [intros _; unfold source_text; simpl; by rewrite app_nil_r|].
  rewrite pieces_cons !Forall_cons. intros (Ht & _ & Hps). cbn [fmap list_fmap build_items snd]. rewrite source_segments.
  fold (hole_text n). rewrite cut_found //. fold ((fmap (snd (A := text)) segs)). by rewrite IH.
Qed.

Lemma pattern_regex {E} p :
  pattern_ok p →
  buildParseRegex (E := E) (pattern_text p) =
  Ok (DomainRegex (items_of (segments p) (ending p)), names_of p ++ [placeholderGroupModelName]).
Proof.
  intros [Hp _ Hs]. unfold buildParseRegex. rewrite pattern_placeholders //.
  pose proof (build_items_spec (E := E) (segments p) (ending p) Hp) as Hb. unfold pattern_text, names_of.
  destruct ((segments p).*2) as [|n ns] eqn:Hn; [by destruct (segments p)|]. by rewrite Hb.
Qed.

(** *** What a match is *)
Definition group_ok v : Prop := v ≠ [] ∧ "." ∉ v.
Definition name_part n : Prop := n ≠ [] ∧ "010" ∉ n.

Lemma match_lit t items s :
  match_items (lit t ++ items) s = match strip t s with Some s => match_items items s | None => None end.
Proof. by destruct t. Qed.

Lemma strip_some t s s' : strip t s = Some s' → s = t ++ s'.
Proof.
  revert s. induction t as [|a t IH]; intros s; simpl; [by intros [= ->]|]. destruct s as [|b s]; [done|].
  case_decide; [|done]. subst. by intros ->%IH.
Qed.

Lemma longest_group_sound (n : nat) s rest groups :
  longest_group n s rest = Some groups →
  ∃ (k : nat) g, 0 < k ≤ n ∧ rest (drop k s) = Some g ∧ groups = take k s :: g.
Proof.
  induction n as [|n IH]; [done|]. cbn [longest_group]. destruct (rest (drop (S n) s)) eqn:Hr.
  - intros [= <-]. exists (S n). eexists. by split_and!; [lia.. | |].
  - intros (k & g & ? & ? & ?)%IH. exists k, g. by split_and!; [lia.. | |].
Qed.

Lemma not_dot_spec s : Forall (λ a, not_dot a = true) s ↔ "." ∉ s.
Proof.
  rewrite Forall_forall. unfold not_dot. split.
  - intros Hs Hin. by apply Hs in Hin.
  - intros Hs a Ha. rewrite bool_decide_false //. by intros ->.
Qed.

Lemma group_taken (k : nat) s : 0 < k ≤ length (span not_dot s).1 → group_ok (take k s).
Proof.
  intros [Hk Hl]. destruct (span_app not_dot s) as [Hs Hall]. set (x := (span not_dot s).1) in *.
  rewrite -Hs take_app_le; [lia|]. split.
  - destruct x, k; simpl in *; [lia..|done].
  - apply not_dot_spec. by apply Forall_take.
Qed.

Lemma match_sound segs e s groups :
  match_items (items_of segs e) s = Some groups →
  ∃ vals name, groups = vals ++ [name] ∧ length vals = length segs ∧ Forall group_ok vals ∧ name_part name ∧
               s = fill segs vals e ++ "." :: name.
Proof.
  revert s groups. induction segs as [|[t n] segs IH]; intros s groups; cbn [items_of].
  - rewrite -(app_nil_r (lit e)) match_lit. destruct (strip e s) as [s'|] eqn:Hs; [|done]. apply strip_some in Hs as ->.
    cbn [match_items]. unfold match_name. destruct s' as [|a [|b name]]; [done|by destruct a as [[] [] [] [] [] [] [] []]|].
    intros H. assert (a = ".") as -> by (by destruct a as [[] [] [] [] [] [] [] []]).
    revert H. case_bool_decide; [done|]. intros [= <-]. exists [], (b :: name). by split_and!.
  - rewrite match_lit. destruct (strip t s) as [s'|] eqn:Hs; [|done]. apply strip_some in Hs as ->. cbn [match_items].
    intros (k & g & Hk & Hg & ->)%longest_group_sound. apply IH in Hg as (vals & name & -> & Hlen & Hv & Hn & Hd).
    exists (take k s' :: vals), name. split_and!; [done | simpl; lia | by constructor; [apply group_taken|] | done |].
    simpl. by rewrite -!assoc -Hd take_drop.
Qed.

(** *** Where the placeholders end with dots *)

(** Behind each placeholder comes a dot, from the pattern or before the name. *)
Fixpoint dotted segs e : Prop :=
  match segs with
  | [] => True
  | _ :: segs =>
      match segs with [] => e = [] ∨ head e = Some "." | (t, _) :: _ => head t = Some "." end ∧ dotted segs e
  end.

Lemma fill_dotted tn segs vals e name :
  dotted (tn :: segs) e → length vals = length segs → ∃ u, fill segs vals e ++ "." :: name = "." :: u.
Proof.
  intros [Hd _] Hl. destruct segs as [|[t n] segs], vals as [|v vals]; try done; simpl.
  - destruct Hd as [->|Hd]; [by eexists|]. destruct e; [done|]. injection Hd as ->. by eexists.
  - destruct t; [done|]. injection Hd as ->. by eexists.
Qed.

Lemma match_complete segs vals e name :
  dotted segs e → Forall group_ok vals → length vals = length segs → name_part name →
  match_items (items_of segs e) (fill segs vals e ++ "." :: name) = Some (vals ++ [name]).
Proof.
  revert vals. induction segs as [|[t n] segs IH]; intros [|v vals] Hd Hv Hl Hn; try done.
  - cbn [items_of fill]. rewrite -(app_nil_r (lit e)) match_lit strip_app. simpl. destruct Hn as [Hne Hn]. destruct name; [done|].
    by rewrite bool_decide_false.
  - cbn [items_of fill]. rewrite match_lit -assoc strip_app. cbn [match_items].
    injection Hl as Hl. apply Forall_cons in Hv as [[Hvne Hvd] Hv].
    destruct (fill_dotted _ _ _ _ name Hd Hl) as [u Hu]. rewrite -assoc Hu span_all //; [by apply not_dot_spec|]. cbn [fst].
    destruct v as [|a v]; [done|]. cbn [length longest_group]. rewrite -Hu.
    rewrite drop_app_length' // take_app_length' // IH //. by destruct Hd.
Qed.

(** *** The id of the groups *)
Lemma with_group_fields acc n v : known n →
  Name (with_group acc n v) = Name acc ∧
  Env (with_group acc n v) = (if decide (n = PlaceholderAppEnv) then v else Env acc) ∧
  Application (with_group acc n v) = (if decide (n = PlaceholderAppName) then v else Application acc) ∧
  (∀ k, k ≠ [] → Tags (with_group acc n v) !! k = if decide (n = PlaceholderAppTags ++ k) then Some v else Tags acc !! k) ∧
  (Tags acc !! [] = None → Tags (with_group acc n v) !! [] = None) ∧
  DomainPattern (with_group acc n v) = DomainPattern acc.
Proof.
  intros [->|[->|(k & Hk & ->)]]; [by split_and!..|]. unfold with_group.
  do 3 (destruct (decide _) as [Hd|_]; [discriminate Hd|]). destruct (tag_prefix k) as [-> ->]. cbn [Name Env Application Tags DomainPattern].
  split_and!; [done..| |by rewrite lookup_insert_ne|done].
  intros k' Hk'. destruct (decide (k = k')) as [->|Hne]; [by rewrite lookup_insert_eq decide_True|].
  rewrite lookup_insert_ne // decide_False //. by intros ?%app_inv_head.
Qed.

Lemma decide_cons {A} (g : text → A) (n x : text) ns (b : A) :
  (if decide (x ∈ ns) then g x else if decide (n = x) then g n else b) = if decide (x ∈ n :: ns) then g x else b.
Proof.
  destruct (decide (x ∈ n :: ns)) as [Hx|Hx]; apply elem_of_cons in Hx || apply not_elem_of_cons in Hx.
  - destruct (decide (x ∈ ns)); [done|]. destruct Hx as [->|?]; [|done]. by rewrite decide_True.
  - destruct Hx as [Hne Hx]. rewrite decide_False // decide_False //.
Qed.

Lemma with_groups_fields (f : text → text) acc ns name : Forall known ns →
  let id := with_groups acc (ns ++ [placeholderGroupModelName]) ((f <$> ns) ++ [name]) in
  Name id = name ∧
  Env id = (if decide (PlaceholderAppEnv ∈ ns) then f PlaceholderAppEnv else Env acc) ∧
  Application id = (if decide (PlaceholderAppName ∈ ns) then f PlaceholderAppName else Application acc) ∧
  (∀ k, k ≠ [] → Tags id !! k = if decide (PlaceholderAppTags ++ k ∈ ns) then Some (f (PlaceholderAppTags ++ k)) else Tags acc !! k) ∧
  (Tags acc !! [] = None → Tags id !! [] = None) ∧ DomainPattern id = DomainPattern acc.
Proof.
  intros Hns. revert acc. induction Hns as [|n ns Hn _ IH]; intros acc.
  - simpl. split_and!; try done; intros; by rewrite decide_False; [intros ?%elem_of_nil|].
  - destruct (IH (with_group acc n (f n))) as (H1 & H2 & H3 & H4 & H5 & H6).
    destruct (with_group_fields acc n (f n) Hn) as (G1 & G2 & G3 & G4 & G5 & G6). cbn [app fmap list_fmap with_groups].
    split_and!; [done | | | | by intros ?; apply H5, G5 | by rewrite H6].
    + rewrite H2 G2. apply (decide_cons f).
    + rewrite H3 G3. apply (decide_cons f).
    + intros k Hk. rewrite H4 // G4 //. apply (decide_cons (λ n, Some (f n))).
Qed.
End Patterns.

(** ** Round trips *)

(** What the text of an id keeps of it. *)
Definition restrict (p : pattern) (m : ModelId) : ModelId := {|
  Name := Name m;
  Env := if decide (PlaceholderAppEnv ∈ names_of p) then Env m else [];
  Application := if decide (PlaceholderAppName ∈ names_of p) then Application m else [];
  Tags := filter (λ kv, PlaceholderAppTags ++ kv.1 ∈ names_of p) (Tags m);
  DomainPattern := pattern_text p
|}.

Section RoundTrip.
Context {C E value : Type} `{!ConfigProvider C E value} (ToStringE : value → option text).
Implicit Types (s t n k v : text) (ns vals : list text) (m id : ModelId) (p : pattern) (c : C).

(** The configuration has a pattern. *)
Definition configured c c' p : Prop :=
  ∃ v : value, config_Get ConfigKeyModelIdDomainPattern c = (c', Ok v) ∧ ToStringE v = Some (pattern_text p).

Lemma fill_values (segs : list (text * text)) vals (e : text) :
  length vals = length segs → "{" ∉ fill segs vals e → Forall (λ v, "{" ∉ v) vals.
Proof.
  revert vals. induction segs as [|[t n] segs IH]; intros [|v vals] Hl Hf; try done. cbn [fill] in Hf. injection Hl as Hl.
  apply not_elem_of_app in Hf as [_ [Hv Hf]%not_elem_of_app]. by constructor; [|apply IH].
Qed.

Lemma values_function ns vals : NoDup ns → length vals = length ns → ∃ f : text → text, vals = f <$> ns.
Proof.
  intros Hns. revert vals. induction Hns as [|n ns Hn _ IH]; intros [|v vals] Hl; try done; [by exists id|].
  injection Hl as Hl. destruct (IH vals Hl) as [f ->]. exists (λ k, if decide (k = n) then v else f k).
  cbn [fmap list_fmap]. rewrite decide_True //. f_equal. apply list_fmap_ext. intros i k Hk%list_elem_of_lookup_2.
  rewrite decide_False //. by intros ->.
Qed.

Lemma parse_pattern c c' p s :
  pattern_ok p → configured c c' p →
  ParseModelId ToStringE c s =
  (c', match match_items (items_of (segments p) (ending p)) s with
       | None => Err (ErrNoMatch s)
       | Some groups => Ok (with_pattern (with_groups empty_id (names_of p ++ [placeholderGroupModelName]) groups) (pattern_text p))
       end).
Proof.
  intros Hp (v & Hg & Hv). unfold ParseModelId. rewrite Hg Hv. f_equal.
  destruct (pattern_text p) as [|a l] eqn:Ht; [by pose proof (pattern_valid (E := E) p Hp) as H; rewrite Ht in H|]. rewrite -Ht.
  unfold modelIdFromStringWithDomainPattern. rewrite pattern_valid // pattern_regex //. simpl. by destruct (match_items _ _).
Qed.

Lemma with_groups_value (f : text → text) p name n :
  pattern_ok p → n ∈ names_of p →
  val (with_pattern (with_groups empty_id (names_of p ++ [placeholderGroupModelName]) ((f <$> names_of p) ++ [name])) (pattern_text p)) n = f n.
Proof.
  intros [_ Hk _] Hn. destruct (with_groups_fields f empty_id (names_of p) name Hk) as (_ & H2 & H3 & H4 & _).
  unfold val. rewrite Forall_forall in Hk. destruct (known_cases n (Hk n Hn)) as [[-> Hv]|[[-> Hv]|(k & Hne & -> & Hv)]]; rewrite Hv; simpl.
  - by rewrite H2 decide_True.
  - by rewrite H3 decide_True.
  - by rewrite H4 // decide_True.
Qed.

(** C24: The text of an id is parsed to the id again, with the environment, the application
    and the tags that the pattern has.  This is for a pattern with at least one placeholder
    (the text of an id with a static pattern is not parsed to the id), all of them known,
    each followed by a dot or the end of the pattern, and for ids whose values for them are
    not empty and have neither dots nor opening braces and whose name is not empty and has
    no line break, read where the same pattern is configured. *)
Theorem ParseModelId_String c c' p m
    (Hp : pattern_ok p) (Hdots : dotted (segments p) (ending p)) (Hc : configured c c' p)
    (Hm : DomainPattern m = pattern_text p) (Hname : name_part (Name m))
    (Hvals : Forall (λ n, group_ok (val m n) ∧ "{" ∉ val m n) (names_of p)) :
  ParseModelId ToStringE c (String m) = (c', Ok (restrict p m)).
Proof.
  apply Forall_and in Hvals as [Hg Hb]. rewrite (parse_pattern c c' p) //. f_equal. unfold String, format.
  rewrite Hm formatDomain_render // render_fill. rewrite match_complete //; [by apply Forall_fmap | by rewrite !length_fmap|]. f_equal.
  pose proof Hp as [_ Hk _].
  destruct (with_groups_fields (val m) empty_id (names_of p) (Name m) Hk) as (H1 & H2 & H3 & H4 & H5 & _).
  fold (names_of p). unfold with_pattern, restrict. f_equal; [done|..].
  - rewrite H2. case_decide; [|done]. done.
  - rewrite H3. case_decide; [|done]. done.
  - apply map_eq. intros k. destruct (decide (k = [])) as [->|Hne].
    + rewrite H5 //. symmetry. apply map_lookup_filter_None. right. intros v _ Hin. rewrite Forall_forall in Hk.
      destruct (Hk _ Hin) as [?|[?|(k & Hk' & Heq)]]; try done. by apply app_inv_head in Heq as <-.
    + rewrite H4 //. clear H2 H3. destruct (decide (PlaceholderAppTags ++ k ∈ names_of p)) as [Hin|Hin].
      * rewrite Forall_forall in Hg. pose proof (Hg _ Hin) as [Hv _]. rewrite Forall_forall in Hk.
        destruct (known_cases _ (Hk _ Hin)) as [[? _]|[[? _]|(k' & _ & <-%app_inv_head & Hval)]]; try done.
        unfold val in Hv |- *. rewrite Hval in Hv |- *. simpl in *. destruct (Tags m !! k) as [v|] eqn:Ht; [|done]. simpl.
        symmetry. by apply map_lookup_filter_Some.
      * symmetry. apply map_lookup_filter_None. by right; intros v _.
Qed.

(** What is parsed has that text: for every pattern without a placeholder twice. *)
Theorem String_ParseModelId c c' p s id
    (Hp : pattern_ok p) (Hdup : NoDup (names_of p)) (Hc : configured c c' p) (Hs : "{" ∉ s)
    (Hparse : ParseModelId ToStringE c s = (c', Ok id)) :
  String id = s ∧ DomainPattern id = pattern_text p.
Proof.
  rewrite (parse_pattern c c' p) // in Hparse. destruct (match_items _ s) as [groups|] eqn:Hmatch; [|done].
  injection Hparse as <-. split; [|done]. apply match_sound in Hmatch as (vals & name & -> & Hlen & _ & _ & Hfill).
  destruct (values_function (names_of p) vals Hdup) as [f ->]; [by rewrite Hlen /names_of length_fmap|].
  pose proof Hp as [_ Hk _]. destruct (with_groups_fields f empty_id (names_of p) name Hk) as (H1 & _).
  unfold String, format. cbn [DomainPattern with_pattern Name]. rewrite H1.
  assert (Hval : ∀ n, n ∈ names_of p → val (with_pattern (with_groups empty_id (names_of p ++ [placeholderGroupModelName])
    ((f <$> names_of p) ++ [name])) (pattern_text p)) n = f n) by (intros n Hn; by apply with_groups_value).
  rewrite formatDomain_render //.
  - apply Forall_forall. intros n Hn. rewrite Hval //.
    assert (Hb : Forall (λ v, "{" ∉ v) (f <$> names_of p)).
    { apply (fill_values (segments p) _ (ending p)); [done|]. intros Hin. apply Hs. rewrite Hfill elem_of_app. by left. }
    rewrite Forall_forall in Hb. apply Hb, list_elem_of_fmap. by exists n.
  - rewrite render_fill Hfill. do 2 f_equal. apply list_fmap_ext. intros i n Hn%list_elem_of_lookup_2. by apply Hval.
Qed.
End RoundTrip.

(** ** Padding from the configuration *)
Section Padding.
Context {C E value : Type} `{!ConfigProvider C E value} (ToStringE : value → option text) (o : map_order text value).
Implicit Types (s t n k : text) (tags : gmap text text) (m : ModelId) (c : C).

Lemma then_ok (p q : pad (E := E)) m c c' m' :
  then_ p q m c = (c', (m', None)) → ∃ c1 m1, p m c = (c1, (m1, None)) ∧ q m1 c1 = (c', (m', None)).
Proof. unfold then_. destruct (p m c) as [c1 [m1 [err|]]]; [done|]. intros H. by exists c1, m1. Qed.

Lemma merge_tags_spec (l : list (text * value)) tags tags' :
  NoDup l.*1 → merge_tags (E := E) ToStringE l tags = (tags', None) →
  ∀ k, tags' !! k = match tags !! k with Some t => Some t | None => (list_to_map l : gmap text value) !! k ≫= ToStringE end.
Proof.
  revert tags. induction l as [|[k v] l IH]; intros tags Hd; [intros [= ->] j; by destruct (tags' !! j)|].
  apply NoDup_cons in Hd as [Hk Hd]. cbn [merge_tags list_to_map foldr fst snd uncurry].
  assert (Hnone : (list_to_map l : gmap text value) !! k = None) by by apply not_elem_of_list_to_map_1.
  destruct (tags !! k) as [t|] eqn:Ht.
  - intros Hm j. rewrite (IH tags) //. destruct (tags !! j) eqn:Hj; [done|]. rewrite lookup_insert_ne //. by intros ->; congruence.
  - destruct (ToStringE v) as [t|] eqn:Hv; [|done]. intros Hm j. rewrite (IH _ Hd Hm). destruct (decide (k = j)) as [<-|Hne].
    + by rewrite !lookup_insert_eq Ht /= Hv.
    + by rewrite !lookup_insert_ne.
Qed.

Lemma check_tags_spec ns tags : check_tags (E := E) ns tags = None → ∀ k, PlaceholderAppTags ++ k ∈ ns → is_Some (tags !! k).
Proof.
  induction ns as [|n ns IH]; [by intros _ k ?%elem_of_nil|]. cbn [check_tags]. intros Hc k Hk.
  assert (Hrest : HasPrefix_text n PlaceholderAppTags = true → is_Some (tags !! TrimPrefix n PlaceholderAppTags)).
  { intros Hn. rewrite Hn in Hc. by destruct (tags !! _). }
  assert (check_tags (E := E) ns tags = None) by (destruct (HasPrefix_text _ _); [by destruct (tags !! _)|done]).
  apply elem_of_cons in Hk as [<-|Hk]; [|by apply IH]. destruct (tag_prefix k) as [H1 H2]. specialize (Hrest H1). by rewrite H2 in Hrest.
Qed.

(** A padded id has an environment, an application and a pattern, and every tag that the
    pattern needs; what it had stays, and other tags come from the configuration. *)
Theorem PadFromConfig_correct m c c' m' (Hpad : PadFromConfig ToStringE o m c = (c', (m', None))) :
  (Env m' ≠ [] ∧ Application m' ≠ [] ∧ DomainPattern m' ≠ []) ∧
  (∀ k, PlaceholderAppTags ++ k ∈ extractPlaceholders (DomainPattern m') → is_Some (Tags m' !! k)) ∧
  (Name m' = Name m ∧ (Env m ≠ [] → Env m' = Env m) ∧ (Application m ≠ [] → Application m' = Application m) ∧
   (DomainPattern m ≠ [] → DomainPattern m' = DomainPattern m)) ∧
  ∃ c1 c2 r, config_GetStringMap (str "app.tags") c1 = (c2, r) ∧
    ∀ k, Tags m' !! k = match Tags m !! k with
                        | Some t => Some t
                        | None => match r with Ok tags => tags !! k ≫= ToStringE | Err _ => None end
                        end.
Proof.
  unfold PadFromConfig in Hpad.
  apply then_ok in Hpad as (c1 & m1 & H1 & Hpad). apply then_ok in Hpad as (c2 & m2 & H2 & Hpad).
  apply then_ok in Hpad as (c3 & m3 & H3 & Hpad). apply then_ok in Hpad as (c4 & m4 & H4 & Hpad). injection Hpad as <- <- Htags.
  assert (HE : m1 = with_env m (Env m1) ∧ Env m1 ≠ [] ∧ (Env m ≠ [] → Env m1 = Env m)).
  { unfold padEnvFromConfig in H1. destruct (Env m) as [|a l] eqn:He.
    - destruct (config_GetString _ _) as [c0 [e|err]]; [|done]. destruct (TrimSpace e) eqn:Ht; [done|]. by injection H1 as <- <-.
    - injection H1 as <- <-. rewrite He. by destruct m; simpl in *; subst. }
  assert (HA : m2 = with_application m1 (Application m2) ∧ Application m2 ≠ [] ∧ (Application m1 ≠ [] → Application m2 = Application m1)).
  { unfold padApplicationFromConfig in H2. destruct (Application m1) as [|a l] eqn:Ha.
    - destruct (config_GetString _ _) as [c0 [e|err]]; [|done]. destruct (TrimSpace e) eqn:Ht; [done|]. by injection H2 as <- <-.
    - injection H2 as <- <-. rewrite Ha. by destruct m1; simpl in *; subst. }
  assert (HP : m4 = with_pattern m3 (DomainPattern m4) ∧ DomainPattern m4 ≠ [] ∧ (DomainPattern m3 ≠ [] → DomainPattern m4 = DomainPattern m3)).
  { unfold loadDomainPatternFromConfig in H4. destruct (DomainPattern m3) as [|a l] eqn:Ha.
    - destruct (config_Get _ _) as [c0 [e|err]]; [|done]. destruct (ToStringE e) as [[|b q]|]; try done. by injection H4 as <- <-.
    - injection H4 as <- <-. rewrite Ha. by destruct m3; simpl in *; subst. }
  unfold mergeTagsFromConfig in H3. destruct (config_GetStringMap _ c2) as [c0 r] eqn:Hr.
  destruct (merge_tags _ _ _) as [tags err] eqn:Hm. injection H3 as -> <- ->.
  pose proof (merge_tags_spec _ _ _ (enum_nodup_keys o _) Hm) as Hspec.
  destruct HE as (HE1 & HE2 & HE3). destruct HA as (HA1 & HA2 & HA3). destruct HP as (HP1 & HP2 & HP3).
  rewrite HP1 HA1 HE1 /= in HP3 |- *. rewrite HE1 /= in HA3. rewrite HA1 HE1 /= in Hspec.
  split_and!; try done; [by rewrite HP1 in Htags; apply check_tags_spec |].
  exists c2, c3, r. split; [done|]. intros k. rewrite Hspec. destruct (Tags m !! k); [done|].
  rewrite (list_to_map_proper _ (map_to_list _) (enum_nodup_keys o _) (enum_perm o _)) list_to_map_to_list.
  destruct r; [done|]. by rewrite lookup_empty.
Qed.
End Padding.

(** ** Samples on a configuration *)
Module OnConfig.
Import Samples.

(** The configuration of Cfg provides what a model id reads; the error of a read that
    panics or does not return is [None]. *)
Definition run {A} (c : M A (scalar := scalar)) (m : mapx scalar) : mapx scalar * result (option cfg_error) A :=
  match c m with
  | Some (Ok (m, Ok a)) => (m, Ok a)
  | Some (Ok (m, Err err)) => (m, Err (Some err))
  | _ => (m, Err None)
  end.

Definition no_env : memoryEnvProvider := ∅.
Definition ToStringMapE (v : value scalar) : option (gmap text (value scalar)) := match v with VMsi m => Some m | _ => None end.

Instance cfg_provider : ConfigProvider (mapx scalar) (option cfg_error) (value scalar) := {|
  config_Get key := run (get zero_of string_len SText no_env (Some DefaultEnvKeyReplacer) [] canonical_order (λ _, fail (ErrNoSetting [])) key None);
  config_GetString key := run (GetString zero_of string_len SText ToStringE no_env (Some DefaultEnvKeyReplacer) [] canonical_order 9 key None);
  config_GetStringMap key :=
    run (GetStringMap zero_of string_len SText ToStringE no_env (Some DefaultEnvKeyReplacer) [] canonical_order ToStringE ToStringMapE 9 key None)
|}.

Definition sample_pattern : pattern := {|
  segments := [(str "ns-", str "app.tags.project"); (str ".", str "app.env")];
  ending := str ".live"
|}.

Definition config : mapx scalar :=
  NewMapX [{[str "app" := VMsi {[str "env" := txt " production "; str "name" := txt "shop-{app.env}";
    str "tags" := VMsi {[str "project" := txt "gosoline"; str "family" := txt "base"]};
    str "model_id" := VMsi {[str "domain_pattern" := VScalar (SText (pattern_text sample_pattern))]}]}]}].

Definition users : ModelId := {|
  Name := str "users"; Env := str "production"; Application := []; Tags := {[str "project" := str "gosoline"]};
  DomainPattern := pattern_text sample_pattern
|}.

Lemma sample_pattern_ok : pattern_ok sample_pattern.
Proof.
  split; [|repeat (apply Forall_cons; split); try (apply Forall_nil; exact I) | done].
  - unfold pieces_of, sample_pattern. simpl. repeat (apply Forall_cons; split); try (apply Forall_nil; exact I).
    all: cbn [piece_ok]; unfold name_ok; apply (bool_decide_unpack _); vm_compute; exact I.
  - right; right. by exists (str "project").
  - by left.
Qed.

Lemma sample_configured : configured ToStringE config (config_Get ConfigKeyModelIdDomainPattern config).1 sample_pattern.
Proof. eexists. split; [vm_compute; reflexivity|]. vm_compute. reflexivity. Qed.

Lemma ParseModelId_String_witness :
  String users = str "ns-gosoline.production.live.users" ∧
  ParseModelId ToStringE config (String users) =
  ((config_Get ConfigKeyModelIdDomainPattern config).1, Ok (restrict sample_pattern users)).
Proof.
  split; [vm_compute; reflexivity|].
  apply (ParseModelId_String ToStringE config _ sample_pattern users).
  - apply sample_pattern_ok.
  - split; [done|]. split; [by right | done].
  - apply sample_configured.
  - done.
  - split; [done|]. apply (bool_decide_unpack _); vm_compute; exact I.
  - repeat (apply Forall_cons; split); try (apply Forall_nil; exact I); unfold group_ok; apply (bool_decide_unpack _); vm_compute; exact I.
Defined.

Lemma String_ParseModelId_witness :
  String users = str "ns-gosoline.production.live.users" ∧ DomainPattern users = pattern_text sample_pattern.
Proof.
  apply (String_ParseModelId ToStringE config (config_Get ConfigKeyModelIdDomainPattern config).1 sample_pattern).
  - apply sample_pattern_ok.
  - apply (bool_decide_unpack _); vm_compute; exact I.
  - apply sample_configured.
  - apply (bool_decide_unpack _); vm_compute; exact I.
  - vm_compute. reflexivity.
Defined.

(** The padded id of a model. *)
Definition padded : ModelId := {|
  Name := str "users"; Env := str "production"; Application := str "shop- production";
  Tags := {[str "project" := str "gosoline"; str "family" := str "base"]}; DomainPattern := pattern_text sample_pattern
|}.

Definition unpadded : ModelId := {| Name := str "users"; Env := []; Application := []; Tags := ∅; DomainPattern := [] |}.

Lemma PadFromConfig_correct_witness :
  (PadFromConfig (value := value scalar) (E := option cfg_error) ToStringE canonical_order unpadded config).2 = (padded, None) ∧
  is_Some (Tags padded !! str "project").
Proof.
  split; [vm_compute; reflexivity|].
  destruct (PadFromConfig_correct (E := option cfg_error) ToStringE canonical_order unpadded config
    (PadFromConfig (value := value scalar) (E := option cfg_error) ToStringE canonical_order unpadded config).1 padded) as (_ & Htags & _).
  - vm_compute. reflexivity.
  - apply Htags. vm_compute (extractPlaceholders _). left.
Defined.

(** The padded id is written and parsed again. *)
Example padded_text : String padded = str "ns-gosoline.production.live.users".
Proof. vm_compute. reflexivity. Qed.

(** Without a pattern the text is a dot and the name, and a tag that is missing leaves
    nothing; neither is an error. *)
Lemma String_without_error :
  String unpadded = str ".users" ∧
  String (with_pattern unpadded (str "{app.tags.project}.{app.env}")) = str "..users".
Proof. split; vm_compute; reflexivity. Qed.

(** A pattern without placeholders is written before the name, but taken for a part of the
    name when the text is parsed. *)
Lemma static_pattern_no_round_trip :
  String (with_pattern unpadded (str "static")) = str "static.users" ∧
  modelIdFromStringWithDomainPattern (E := unit) (str "static") (str "static.users") =
  Ok {| Name := str "static.users"; Env := []; Application := []; Tags := ∅; DomainPattern := [] |}.
Proof. split; vm_compute; reflexivity. Qed.

(** Another character than the dot behind a placeholder can end up on the wrong side. *)
Lemma dash_pattern_no_round_trip :
  let m := {| Name := str "users"; Env := str "a"; Application := str "b-c"; Tags := ∅; DomainPattern := str "{app.env}-{app.name}" |} in
  String m = str "a-b-c.users" ∧
  modelIdFromStringWithDomainPattern (E := unit) (DomainPattern m) (String m) =
  Ok {| Name := str "users"; Env := str "a-b"; Application := str "c"; Tags := ∅; DomainPattern := [] |}.
Proof. split; vm_compute; reflexivity. Qed.
End OnConfig.
