(* ===== verification/MdlSub.v ===== *)
(** * pkg/mdlsub: subscribing to models

    A subscriber consumes the messages that other applications publish about their
    models, transforms each by the version in its attributes and persists what
    comes out of it: in a database, a DynamoDB table, a key-value store, or several of them.
    Contexts, logging and the schema registry's clients are left out; transformers and
    outputs run on a world [W] that they change. *)
From Stdlib Require Import Ascii.
From S2P Require Import Prelude Texts ModelId KvStore Exec.
Open Scope string_scope.
Open Scope list_scope.
Open Scope nat_scope.

(** ** Messages about models *)

(** [pkg/mdlsub/publisher.go:15-21] the attributes and operations *)
Definition AttributeModelId : string := "modelId".
Definition AttributeType : string := "type".
Definition AttributeVersion : string := "version".
Definition TypeCreate : string := "create".
Definition TypeUpdate : string := "update".
Definition TypeDelete : string := "delete".

(** [pkg/mdlsub/transformer.go:137-141] ModelSpecification *)
Record ModelSpecification := { CrudType : string; Version : Z; spec_ModelId : string }.

Definition id_string (m : ModelId.ModelId) : string := String.string_of_list_ascii (ModelId.String m).

Section Specification.
Context (ToIntE : string → option Z) (Itoa : Z → string).

(** [pkg/mdlsub/publisher.go:101-107] CreateMessageAttributes *)
Definition CreateMessageAttributes (modelId : ModelId.ModelId) (typ : string) (version : Z) : gmap string string :=
  <[AttributeType := typ]> (<[AttributeVersion := Itoa version]> {[AttributeModelId := id_string modelId]}).

(** [pkg/mdlsub/transformer.go:147-173] getModelSpecification *)
Definition getModelSpecification (attributes : gmap string string) : result go_error ModelSpecification :=
  match attributes !! "type" with
  | None => Err (EMsg "the message has no attribute named 'type'")
  | Some typ =>
      match attributes !! "version" with
      | None => Err (EMsg "the message has no attribute named 'version'")
      | Some version =>
          match ToIntE version with
          | None => Err (EMsg "version is not an int")
          | Some version =>
              match attributes !! "modelId" with
              | None => Err (EMsg "the message has no attribute named 'modelId'")
              | Some modelId => Ok {| CrudType := typ; Version := version; spec_ModelId := modelId |}
              end
          end
      end
  end.
End Specification.

(** ** Errors *)

(** [pkg/mdlsub/delay_op.go:8-10] DelayOpError: the errors of this type are those with this message *)
Definition DelayOpError : string := "delayed op error".
Definition NewDelayOpError (err : Exec.error) : Exec.error := EWrapped DelayOpError err.

(** [pkg/mdlsub/delay_op.go:22-24] IsDelayOpError *)
Fixpoint IsDelayOpError (err : Exec.error) : bool :=
  match err with
  | EValue _ => false
  | EWrapped msg err => bool_decide (msg = DelayOpError) || IsDelayOpError err
  | EJoined errs | EMulti errs => existsb IsDelayOpError errs
  end.

Definition is_canceled (err : Exec.error) : bool := IsRequestCanceled requestCancelChecks err.

(** [pkg/mdlsub/errors.go:11-13] what goes wrong in the core: the errors of errors.go and those of GetOutput *)
Inductive core_error :=
| UnknownModelError (modelId : string)
| UnknownModelVersionError (modelId : string) (version : Z)
| NoOutput (modelId : string)
| NoOutputVersion (modelId : string) (version : Z).

(** [pkg/mdlsub/errors.go:30-32] IsIgnorableWithSettings of UnknownModelError and UnknownModelVersionError: do the
    settings ignore unknown models, and unknown versions? *)
Definition IsIgnorableWithSettings (ignore_model ignore_version : bool) (err : core_error) : option bool :=
  match err with
  | UnknownModelError _ => Some ignore_model
  | UnknownModelVersionError _ _ => Some ignore_version
  | _ => None
  end.

Section Subscriber.
Context {W I M Schema : Type}.
Implicit Types (w : W) (model : M).

(** [pkg/mdlsub/transformer.go:27-32] ModelTransformer: getInput, transform and getSchemaSettings; [None] for a model that is skipped *)
Record ModelTransformer := {
  getInput : I;
  transform : I → W → W * result Exec.error (option M);
  getSchemaSettings : result Exec.error (option Schema)
}.

(** [pkg/mdlsub/transformer.go:38-41] TypedTransformer; the error comes with an output that is ignored *)
Definition TypedTransformer := I → W → W * (option M * option Exec.error).

(** [pkg/mdlsub/transformer.go:63-71] untypedTransformer.transform *)
Definition untyped_transform (t : TypedTransformer) (inp : I) (w : W) : W * result Exec.error (option M) :=
  let '(w, (output, err)) := t inp w in
  match err, output with
  | Some err, _ => (w, Err err)
  | None, None => (w, Ok None)
  | None, Some output => (w, Ok (Some output))
  end.

(** [pkg/mdlsub/transformer.go:131-135] EraseTransformerTypes *)
Definition EraseTransformerTypes (input : I) (schema : result Exec.error (option Schema)) (t : TypedTransformer) : ModelTransformer :=
  {| getInput := input; transform := untyped_transform t; getSchemaSettings := schema |}.

(** [pkg/mdlsub/output.go:12-14] Output: its Persist *)
Definition Output := M → string → W → W * option Exec.error.

(** [pkg/mdlsub/transformer.go:79-79] VersionedModelTransformers and ModelTransformers *)
Definition VersionedModelTransformers := gmap Z ModelTransformer.
Definition ModelTransformers := gmap string VersionedModelTransformers.

(** [pkg/mdlsub/transformer.go:77-78] the factories, with what they return *)
Definition TransformerFactories := gmap string (gmap Z (result Exec.error ModelTransformer)).

(** [pkg/mdlsub/output.go:17-17] Outputs; [None] for a nil output *)
Definition Outputs := gmap string (gmap Z (option Output)).

(** [pkg/mdlsub/subscriber_callback.go:22-25] SubscriberModel *)
Record SubscriberModel := { sm_ModelId : ModelId.ModelId; Shared : bool }.

(** [pkg/mdlsub/settings.go:19-26] SubscriberSettings, what the core reads of it *)
Record SubscriberSettings := { ss_Output : string; SourceModel : SubscriberModel; TargetModel : SubscriberModel }.

Inductive init_error :=
| PadFailed (name : string) (err : Exec.error)
| NoTransformer (name modelId : string)
| TransformerFailed (modelId : string) (version : Z) (err : Exec.error)
| NoOutputType (typ name modelId : string)
| OutputFailed (name : string) (err : init_error)
| FanoutSelf (name : string)
| ChildFailed (child : string) (err : init_error)
| ChildMissing (child : string) (version : Z)
| ConfigFailed (name : string) (err : Exec.error)
| StoreFailed (err : Exec.error)
| DuplicateSubscriber (fqn : string).

(** A loop that ends with the first error. *)
Fixpoint fold_result {A B E} (f : A → B → result E A) (l : list B) (a : A) : result E A :=
  match l with
  | [] => Ok a
  | x :: l => match f a x with Ok a => fold_result f l a | Err e => Err e end
  end.

Section Init.
Context (PadFromConfig : ModelId.ModelId → result Exec.error ModelId.ModelId).
Context (settings_order : map_order string SubscriberSettings).
Context (factories_order : map_order string (gmap Z (result Exec.error ModelTransformer))).
Context (versions_order : map_order Z (result Exec.error ModelTransformer)).
Implicit Types (settings : gmap string SubscriberSettings) (factories : TransformerFactories).

Definition pad_source (s : SubscriberSettings) (id : ModelId.ModelId) : SubscriberSettings :=
  {| ss_Output := ss_Output s; SourceModel := {| sm_ModelId := id; Shared := Shared (SourceModel s) |}; TargetModel := TargetModel s |}.

Definition source_id (s : SubscriberSettings) : string := id_string (sm_ModelId (SourceModel s)).

(** [pkg/mdlsub/transformer.go:86-95] the source models of the subscribers, padded in place *)
Definition pad_sources settings factories : result init_error (gmap string SubscriberSettings) :=
  fold_result (λ padded '(name, s),
    match PadFromConfig (sm_ModelId (SourceModel s)) with
    | Err err => Err (PadFailed name err)
    | Ok id =>
        let s := pad_source s id in
        if map_has factories (source_id s) then Ok (<[name := s]> padded) else Err (NoTransformer name (source_id s))
    end) (enum settings_order settings) ∅.

(** [pkg/mdlsub/transformer.go:100-104] the versions of a model *)
Definition init_versions (modelId : string) (versioned : gmap Z (result Exec.error ModelTransformer)) : result init_error VersionedModelTransformers :=
  fold_result (λ acc '(version, factory),
    match factory with
    | Err err => Err (TransformerFailed modelId version err)
    | Ok t => Ok (<[version := t]> acc)
    end) (enum versions_order versioned) ∅.

(** [pkg/mdlsub/transformer.go:82-108] initTransformers: the settings with padded models, and the transformers *)
Definition initTransformers settings factories : result init_error (gmap string SubscriberSettings * ModelTransformers) :=
  match pad_sources settings factories with
  | Err err => Err err
  | Ok settings =>
      match fold_result (λ acc '(modelId, versioned),
        match init_versions modelId versioned with
        | Err err => Err err
        | Ok vs => Ok (<[modelId := vs]> acc)
        end) (enum factories_order factories) ∅ with
      | Err err => Err err
      | Ok transformers => Ok (settings, transformers)
      end
  end.

(** [pkg/mdlsub/output.go:18-25] OutputFactory *)
Definition OutputFactory := SubscriberSettings → VersionedModelTransformers → string → result init_error (gmap Z (option Output)).

(** [pkg/mdlsub/output.go:28-32] outputFactories and AddOutput *)
Definition OutputFactories := gmap string OutputFactory.
Definition AddOutput (name : string) (factory : OutputFactory) (fs : OutputFactories) : OutputFactories := <[name := factory]> fs.

(** [pkg/mdlsub/output.go:34-67] initOutputs *)
Definition initOutputs (outputFactories : OutputFactories) settings (transformers : ModelTransformers) : result init_error Outputs :=
  fold_result (λ outputs '(name, s),
    match outputFactories !! ss_Output s with
    | None => Err (NoOutputType (ss_Output s) name (source_id s))
    | Some outputFactory =>
        match transformers !! source_id s with
        | None => Err (NoTransformer name (source_id s))
        | Some versioned =>
            match outputFactory s versioned name with
            | Err err => Err (OutputFailed name err)
            | Ok outs => Ok (<[source_id s := outs]> outputs)
            end
        end
    end) (enum settings_order settings) ∅.

(** [pkg/mdlsub/subscriber_core.go:48-51] subscriberCore *)
Record subscriberCore := { transformers : ModelTransformers; outputs : Outputs }.

(** [pkg/mdlsub/subscriber_core.go:25-39] NewSubscriberCore; the settings it has padded on the way *)
Definition NewSubscriberCore (outputFactories : OutputFactories) settings factories : result init_error (gmap string SubscriberSettings * subscriberCore) :=
  match initTransformers settings factories with
  | Err err => Err err
  | Ok (settings, ts) =>
      match initOutputs outputFactories settings ts with
      | Err err => Err err
      | Ok outs => Ok (settings, {| transformers := ts; outputs := outs |})
      end
  end.
End Init.

(** ** The core *)
Implicit Types (c : subscriberCore) (spec : ModelSpecification).

(** [pkg/mdlsub/subscriber_core.go:53-55] subscriberCore.GetModelIds *)
Definition GetModelIds (o : map_order string VersionedModelTransformers) c : list string := (enum o (transformers c)).*1.

(** [pkg/mdlsub/subscriber_core.go:57-76] subscriberCore.GetLatestModelIdVersion *)
Definition GetLatestModelIdVersion (o : map_order Z ModelTransformer) (modelId : ModelId.ModelId) c : result go_error Z :=
  match transformers c !! id_string modelId with
  | None => Err (EMsg "failed to find model transformer for model id")
  | Some versioned =>
      let versions := (enum o versioned).*1 in
      if length versions =? 0 then Err (EMsg "there are no versions available for transformer model id")
      else match last (merge_sort Z.le versions) with Some latest => Ok latest | None => Err (EMsg "index out of range") end
  end.

(** [pkg/mdlsub/subscriber_core.go:94-106] subscriberCore.GetTransformer *)
Definition GetTransformer spec c : result core_error ModelTransformer :=
  match transformers c !! spec_ModelId spec with
  | None => Err (UnknownModelError (spec_ModelId spec))
  | Some versioned =>
      match versioned !! Version spec with
      | None => Err (UnknownModelVersionError (spec_ModelId spec) (Version spec))
      | Some t => Ok t
      end
  end.

(** [pkg/mdlsub/subscriber_core.go:108-115] subscriberCore.GetTransformersForModel *)
Definition GetTransformersForModel (modelId : ModelId.ModelId) c : option VersionedModelTransformers := transformers c !! id_string modelId.

(** [pkg/mdlsub/subscriber_core.go:132-142] subscriberCore.GetOutput *)
Definition GetOutput spec c : result core_error (option Output) :=
  match outputs c !! spec_ModelId spec with
  | None => Err (NoOutput (spec_ModelId spec))
  | Some versioned =>
      match versioned !! Version spec with
      | None => Err (NoOutputVersion (spec_ModelId spec) (Version spec))
      | Some o => Ok o
      end
  end.

Inductive sub_error :=
| SpecError (err : go_error)
| CoreError (err : core_error)
| TransformError (err : Exec.error)
| PersistError (err : Exec.error).

(** [pkg/mdlsub/subscriber_core.go:78-92] subscriberCore.Transform *)
Definition Transform spec (input : I) c w : W * result sub_error (option M) :=
  match GetTransformer spec c with
  | Err err => (w, Err (CoreError err))
  | Ok t => match transform t input w with (w, Err err) => (w, Err (TransformError err)) | (w, Ok m) => (w, Ok m) end
  end.

(** [pkg/mdlsub/subscriber_core.go:117-130] subscriberCore.Persist; a nil output panics *)
Definition Persist spec model c w : result panic (W * option sub_error) :=
  match GetOutput spec c with
  | Err err => Ok (w, Some (CoreError err))
  | Ok None => Err NilDereference
  | Ok (Some output) =>
      match output model (CrudType spec) w with
      | (w, Some err) => Ok (w, Some (PersistError err))
      | (w, None) => Ok (w, None)
      end
  end.

(** ** The callback of the consumer *)
Section Callback.
Context (ToIntE : string → option Z).

(** [pkg/mdlsub/subscriber_callback.go:17-19] the metrics *)
Definition MetricNameSuccess : string := "ModelEventConsumeSuccess".
Definition MetricNameSkipped : string := "ModelEventConsumeSkipped".
Definition MetricNameFailure : string := "ModelEventConsumeFailure".

(** A metric that is written: its name and the model id. *)
Definition metric : Type := string * string.

(** [pkg/mdlsub/subscriber_callback.go:74-87] SubscriberCallback.GetModel *)
Definition GetModel (attributes : gmap string string) c : result sub_error I :=
  match getModelSpecification ToIntE attributes with
  | Err err => Err (SpecError err)
  | Ok spec => match GetTransformer spec c with Err err => Err (CoreError err) | Ok t => Ok (getInput t) end
  end.

(** [pkg/mdlsub/subscriber_callback.go:97-106] the loop over the transformers in GetSchemaSettings *)
Fixpoint schema_loop (many : bool) (ts : list ModelTransformer) (schema : option Schema) : result Exec.error (option Schema) :=
  match ts with
  | [] => Ok schema
  | t :: ts =>
      match getSchemaSettings t with
      | Err err => Err err
      | Ok (Some _) as r =>
          if many then Err (EWrapped "there should be only one transformer per input model when using the schema registry" (EValue 100))
          else match r with Ok s => schema_loop many ts s | Err err => Err err end
      | Ok None => schema_loop many ts None
      end
  end.

(** [pkg/mdlsub/subscriber_callback.go:89-109] SubscriberCallback.GetSchemaSettings; [None]: there is no transformer for the model *)
Definition GetSchemaSettings (o : map_order Z ModelTransformer) (sourceModel : SubscriberModel) c : option (result Exec.error (option Schema)) :=
  match GetTransformersForModel (sm_ModelId sourceModel) c with
  | None => None
  | Some ts => Some (schema_loop (bool_decide (1 < size ts)%nat) (enum o ts).*2 None)
  end.

(** What Consume does: the state, the metrics it writes, the acknowledgement and the error. *)
Definition consumed : Type := W * list metric * (bool * option sub_error).

(** [pkg/mdlsub/subscriber_callback.go:111-192] SubscriberCallback.Consume; a nil output panics *)
Definition Consume (input : I) (attributes : gmap string string) c w : result panic consumed :=
  match getModelSpecification ToIntE attributes with
  | Err err => Ok (w, [], (false, Some (SpecError err)))
  | Ok spec =>
      let failure w err := Ok (w, [(MetricNameFailure, spec_ModelId spec)], (false, Some err)) in
      match GetTransformer spec c with
      | Err err => failure w (CoreError err)
      | Ok t =>
          match transform t input w with
          | (w, Err err) =>
              if IsDelayOpError err || is_canceled err then Ok (w, [], (false, None)) else failure w (TransformError err)
          | (w, Ok None) => Ok (w, [(MetricNameSkipped, spec_ModelId spec)], (true, None))
          | (w, Ok (Some model)) =>
              match GetOutput spec c with
              | Err err => failure w (CoreError err)
              | Ok None => Err NilDereference
              | Ok (Some output) =>
                  match output model (CrudType spec) w with
                  | (w, Some err) => if is_canceled err then Ok (w, [], (false, None)) else failure w (PersistError err)
                  | (w, None) => Ok (w, [(MetricNameSuccess, spec_ModelId spec)], (true, None))
                  end
              end
          end
      end
  end.
End Callback.
End Subscriber.
Arguments ModelTransformer : clear implicits.
Arguments Output : clear implicits.

(** ** Outputs *)
Section Outputs.
Context {W I M Schema : Type}.
Abbreviation Output := (Output W M).
Abbreviation ModelTransformer := (ModelTransformer W I M Schema).
Abbreviation OutputFactory := (OutputFactory (W := W) (I := I) (M := M) (Schema := Schema)).
Abbreviation OutputFactories := (OutputFactories (W := W) (I := I) (M := M) (Schema := Schema)).
Implicit Types (w : W) (model : M) (op : string).

(** [pkg/mdlsub/output_fanout.go:83-86] fanoutOutputChild *)
Record fanoutOutputChild := { name : string; output : Output }.

(** [pkg/mdlsub/output_fanout.go:96-100] the children of outputFanout.Persist, one after the other, and their errors *)
Fixpoint fanout_errors (children : list fanoutOutputChild) model op w : W * list Exec.error :=
  match children with
  | [] => (w, [])
  | child :: children =>
      let '(w, err) := output child model op w in
      let '(w, errs) := fanout_errors children model op w in
      (w, match err with Some err => EWrapped ("output " +:+ name child) err :: errs | None => errs end)
  end.

(** [pkg/mdlsub/output_fanout.go:93-103] outputFanout.Persist *)
Definition fanout_Persist (children : list fanoutOutputChild) : Output := λ model op w,
  match fanout_errors children model op w with
  | (w, []) => (w, None)
  | (w, errs) => (w, Some (EMulti errs))
  end.

(** [pkg/mdlsub/output_fanout.go:13-13] OutputTypeFanout *)
Definition OutputTypeFanout : string := "fanout".

(** [pkg/mdlsub/output_fanout.go:57-70] the outputs of one child, added to those of the versions *)
Definition add_children (outputName : string) (childOutputs : gmap Z (option Output)) (versions : list Z)
    (outputsByVersion : gmap Z (list fanoutOutputChild)) : result init_error (gmap Z (list fanoutOutputChild)) :=
  fold_result (λ acc version,
    match childOutputs !! version with
    | None | Some None => Err (ChildMissing outputName version)
    | Some (Some childOutput) => Ok (<[version := default [] (acc !! version) ++ [{| name := outputName; output := childOutput |}]]> acc)
    end) versions outputsByVersion.

(** [pkg/mdlsub/output_fanout.go:19-81] outputFanoutFactory; [outputNames]: the outputs configured for the subscriber *)
Definition outputFanoutFactory (outputFactories : OutputFactories) (outputNames : string → result Exec.error (list string))
    (o : map_order Z ModelTransformer) : OutputFactory := λ settings transformers subscriberName,
  match outputNames subscriberName with
  | Err err => Err (ConfigFailed subscriberName err)
  | Ok outputNames =>
      let versions := (enum o transformers).*1 in
      match fold_result (λ acc outputName,
        if bool_decide (outputName = OutputTypeFanout) then Err (FanoutSelf subscriberName)
        else match outputFactories !! outputName with
             | None => Err (NoOutputType outputName subscriberName "")
             | Some factory =>
                 match factory settings transformers subscriberName with
                 | Err err => Err (ChildFailed outputName err)
                 | Ok childOutputs => add_children outputName childOutputs versions acc
                 end
             end) outputNames (list_to_map ((λ v, (v, [])) <$> versions)) with
      | Err err => Err err
      | Ok outputsByVersion => Ok ((λ children, Some (fanout_Persist children)) <$> outputsByVersion)
      end
  end.

(** An output for every version. *)
Definition output_each (create : ModelTransformer → result Exec.error Output) (o : map_order Z ModelTransformer)
    (transformers : VersionedModelTransformers) : result init_error (gmap Z (option Output)) :=
  fold_result (λ acc '(version, transformer),
    match create transformer with
    | Err err => Err (StoreFailed err)
    | Ok out => Ok (<[version := Some out]> acc)
    end) (enum o transformers) ∅.

(** [pkg/mdlsub/output_db.go:24-42] outputDbFactory *)
Definition outputDbFactory (NewOutputDb : result Exec.error Output) (o : map_order Z ModelTransformer) : OutputFactory :=
  λ _ transformers _, output_each (λ _, NewOutputDb) o transformers.

(** [pkg/mdlsub/output_kvstore.go:20-38] outputKvstoreFactory *)
Definition outputKvstoreFactory (NewOutputKvstore : SubscriberSettings → result Exec.error Output) (o : map_order Z ModelTransformer) : OutputFactory :=
  λ settings transformers _, output_each (λ _, NewOutputKvstore settings) o transformers.

(** [pkg/mdlsub/output_ddb.go:20-45] outputDdbFactory *)
Definition outputDdbFactory {Md} (GetModel : ModelTransformer → result Exec.error Md) (NewOutputDdb : Md → SubscriberSettings → result Exec.error Output)
    (o : map_order Z ModelTransformer) : OutputFactory := λ settings transformers _,
  output_each (λ transformer,
    match GetModel transformer with
    | Err err => Err err
    | Ok model => NewOutputDdb model settings
    end) o transformers.

(** [pkg/mdlsub/output_db.go:16-16] MaxPersistRetries *)
Definition MaxPersistRetries : nat := 2.

(** The mapper of the database: Save and Delete of gorm. *)
Record orm := { orm_Save : M → W → W * option Exec.error; orm_Delete : M → W → W * option Exec.error; IsDuplicateEntryError : Exec.error → bool }.

(** [pkg/mdlsub/output_db.go:85-97] OutputDb.save: [attempts] more attempts after this one *)
Fixpoint db_save (db : orm) (attempts : nat) model w : W * option Exec.error :=
  match orm_Save db model w with
  | (w, None) => (w, None)
  | (w, Some err) =>
      if negb (IsDuplicateEntryError db err) then (w, Some err)
      else match attempts with
           | 0 => (w, Some err)
           | S attempts => db_save db attempts model w
           end
  end.

(** What a value of the interface Model can be. *)
Inductive model_kind := NilModel | PointerModel | ValueModel.

Definition unknown_operation (name : string) : Exec.error := EWrapped ("unknown operation in " +:+ name) (EValue 101).

(** [pkg/mdlsub/output_db.go:99-112] ensureAddressableModel, of the kind of the model *)
Definition ensureAddressableModel (k : model_kind) : option Exec.error :=
  match k with
  | NilModel => Some (EWrapped "model must not be nil" (EValue 102))
  | PointerModel => Some (EWrapped "model must not be a pointer" (EValue 103))
  | ValueModel => None
  end.

(** [pkg/mdlsub/output_db.go:65-81] OutputDb.Persist *)
Definition db_Persist (kind : M → model_kind) (db : orm) : Output := λ model op w,
  match ensureAddressableModel (kind model) with
  | Some err => (w, Some err)
  | None =>
      if bool_decide (op = TypeCreate) || bool_decide (op = TypeUpdate) then db_save db MaxPersistRetries model w
      else if bool_decide (op = TypeDelete) then orm_Delete db model w
      else (w, Some (unknown_operation "OutputDb"))
  end.

(** [pkg/mdlsub/output_ddb.go:80-93] OutputDdb.Persist, on the repository's PutItem and DeleteItem *)
Definition ddb_Persist (PutItem DeleteItem : M → W → W * option Exec.error) : Output := λ model op w,
  if bool_decide (op = TypeCreate) || bool_decide (op = TypeUpdate) then PutItem model w
  else if bool_decide (op = TypeDelete) then DeleteItem model w
  else (w, Some (unknown_operation "OutputDdb")).
End Outputs.

Section KvOutput.
Context {O M W : Type} `{Countable O} `{!KvStore O M W}.
Context (GetId : M → any_key O) (lift : KvStore.error → Exec.error).

(** [pkg/mdlsub/output_kvstore.go:57-70] OutputKvstore.Persist *)
Definition kvstore_Persist : Output W M := λ model op w,
  if bool_decide (op = TypeCreate) || bool_decide (op = TypeUpdate)
  then let '(w, err) := kv_put (GetId model) model w in (w, lift <$> err)
  else if bool_decide (op = TypeDelete)
  then let '(w, err) := kv_delete (T := M) (GetId model) w in (w, lift <$> err)
  else (w, Some (unknown_operation "OutputKvStore")).
End KvOutput.

(** ** Publishing *)
Section Publisher.
Context {P V : Type} (Itoa : Z → string).
(** The producer: a Write of values with the attributes. *)
Context (producer_Write : list V → list (gmap string string) → P → P * option Exec.error).
Context (producer_WriteOne : V → list (gmap string string) → P → P * option Exec.error).

(** [pkg/mdlsub/publisher.go:75-86] publisher.PublishBatch *)
Definition PublishBatch (modelId : ModelId.ModelId) (typ : string) (version : Z) (values : list V) (customAttributes : list (gmap string string)) (p : P) :
    P * option Exec.error :=
  let attributes := [CreateMessageAttributes Itoa modelId typ version] ++ customAttributes in
  let '(p, err) := producer_Write values attributes p in (p, EWrapped "can not publish" <$> err).

(** [pkg/mdlsub/publisher.go:88-99] publisher.Publish *)
Definition Publish (modelId : ModelId.ModelId) (typ : string) (version : Z) (value : V) (customAttributes : list (gmap string string)) (p : P) :
    P * option Exec.error :=
  let attributes := [CreateMessageAttributes Itoa modelId typ version] ++ customAttributes in
  let '(p, err) := producer_WriteOne value attributes p in (p, EWrapped "can not publish" <$> err).
End Publisher.

(** ** The modules *)
Section Factory.
Context (PadFromConfig : ModelId.ModelId → result Exec.error ModelId.ModelId).
Context (settings_order : map_order string SubscriberSettings).

(** [pkg/mdlsub/config_postprocessor_subscriber.go:279-292] GetSubscriberFQN *)
Definition replace_dot (a : Ascii.ascii) : Ascii.ascii := if bool_decide (a = "."%char) then "-"%char else a.
Definition GetSubscriberFQN (name : string) (sourceModel : SubscriberModel) : result Exec.error string :=
  if negb (Shared sourceModel) then Ok ("subscriber-" +:+ name)
  else match PadFromConfig (sm_ModelId sourceModel) with
       | Err err => Err (EWrapped "failed to pad source model from config" err)
       | Ok id => Ok ("subscriber-" +:+ String.string_of_list_ascii (replace_dot <$> DomainString id) +:+ "-shared")
       end.

(** [pkg/mdlsub/subscriber_factory.go:33-54] the modules of SubscriberFactory: the settings of the subscriber
    whose callback a module runs, by the module's name *)
Definition subscriber_modules (settings : gmap string SubscriberSettings) : result init_error (gmap string SubscriberSettings) :=
  fold_result (λ modules '(name, s),
    match GetSubscriberFQN name (SourceModel s) with
    | Err err => Err (ConfigFailed name err)
    | Ok fqn =>
        if map_has modules fqn then
          if Shared (SourceModel s) && Shared (TargetModel s) then Ok modules else Err (DuplicateSubscriber fqn)
        else Ok (<[fqn := s]> modules)
    end) (enum settings_order settings) ∅.
End Factory.
