(* ===== verification/MdlSubLaws.v ===== *)
(** * pkg/mdlsub: what a subscriber guarantees

    What is published is understood; a core that was built has a transformer and an output
    for every message of a subscribed model; a message is acknowledged exactly when it
    was skipped or persisted; a key-value store that a subscriber writes mirrors the model. *)
From Stdlib Require Import Ascii.
From S2P Require Import Prelude Texts ModelId KvStore Exec MdlSub.
Open Scope string_scope.
Open Scope list_scope.
Open Scope nat_scope.

(** ** Attributes *)

(** What a publisher writes into the attributes of a message is what a subscriber reads from them,
    with any other attributes that the message has. *)
Theorem published_specification (ToIntE : string → option Z) (Itoa : Z → string) modelId typ version (custom : gmap string string) :
  ToIntE (Itoa version) = Some version →
  (∀ k, k ∈ [AttributeModelId; AttributeType; AttributeVersion] → custom !! k = None) →
  getModelSpecification ToIntE (custom ∪ CreateMessageAttributes Itoa modelId typ version) =
    Ok {| CrudType := typ; Version := version; spec_ModelId := id_string modelId |}.
Proof.
  intros Hint Hc. unfold getModelSpecification. set (base := CreateMessageAttributes Itoa modelId typ version).
  assert (Ht : (custom ∪ base) !! "type" = Some typ) by (rewrite lookup_union_r; [apply Hc; set_solver|]; by simplify_map_eq).
  assert (Hv : (custom ∪ base) !! "version" = Some (Itoa version)) by (rewrite lookup_union_r; [apply Hc; set_solver|]; by simplify_map_eq).
  assert (Hm : (custom ∪ base) !! "modelId" = Some (id_string modelId)) by (rewrite lookup_union_r; [apply Hc; set_solver|]; by simplify_map_eq).
  by rewrite Ht Hv Hint Hm.
Qed.

(** ** The construction of the core *)
Lemma fold_result_inv {A B E} (f : A → B → result E A) (P : list B → A → Prop) l a a' :
  fold_result f l a = Ok a' → P [] a →
  (∀ done x b b', P done b → f b x = Ok b' → P (done ++ [x]) b') → P l a'.
Proof.
  intros Hl Ha Hstep. revert Ha Hl. change l with ([] ++ l) at 2. generalize (@nil B) as done. revert a. induction l as [|x l IH]; intros a done Ha; simpl.
  - intros [= <-]. by rewrite app_nil_r.
  - destruct (f a x) as [b|] eqn:Hf; [|done]. intros Hl. rewrite (assoc_L app done [x] l). eapply IH; [|done]. by eapply Hstep.
Qed.

Lemma fold_result_ext {A B E} (f g : A → B → result E A) l a : (∀ a x, f a x = g a x) → fold_result f l a = fold_result g l a.
Proof. intros He. revert a. induction l as [|x l IH]; intros a; [done|]. simpl. rewrite He. by destruct (g a x). Qed.

(** What is there for a version of a model. *)
Definition at_version {A} (m : gmap string (gmap Z A)) (id : string) (v : Z) : option A :=
  match m !! id with Some versioned => versioned !! v | None => None end.

Lemma at_version_insert {A} (m : gmap string (gmap Z A)) id new id' v :
  at_version (<[id := new]> m) id' v = if decide (id = id') then new !! v else at_version m id' v.
Proof. unfold at_version. case_decide as He; [by rewrite He lookup_insert_eq|by rewrite lookup_insert_ne]. Qed.

Lemma at_version_singleton {A} id v (x : A) id' v' y : at_version {[id := {[v := x]}]} id' v' = Some y → x = y.
Proof.
  unfold at_version. destruct (_ !! id') as [vs|] eqn:Hvs; [|done]. apply lookup_singleton_Some in Hvs as [_ <-].
  by intros [_ <-]%lookup_singleton_Some.
Qed.

Section Core.
Context {W I M Schema : Type}.
Abbreviation ModelTransformer := (ModelTransformer W I M Schema).
Abbreviation Output := (Output W M).
Abbreviation OutputFactory := (OutputFactory (W := W) (I := I) (M := M) (Schema := Schema)).
Abbreviation subscriberCore := (subscriberCore (W := W) (I := I) (M := M) (Schema := Schema)).
Context (PadFromConfig : ModelId.ModelId → result Exec.error ModelId.ModelId).
Context (settings_order : map_order string SubscriberSettings).
Context (factories_order : map_order string (gmap Z (result Exec.error ModelTransformer))).
Context (versions_order : map_order Z (result Exec.error ModelTransformer)).
Implicit Types (settings : gmap string SubscriberSettings) (factories : TransformerFactories (W := W) (I := I) (M := M) (Schema := Schema)).

Lemma pad_sources_Ok settings factories padded :
  pad_sources PadFromConfig settings_order settings factories = Ok padded →
  ∀ name s, settings !! name = Some s →
    ∃ id, PadFromConfig (sm_ModelId (SourceModel s)) = Ok id ∧ padded !! name = Some (pad_source s id) ∧
      is_Some (factories !! source_id (pad_source s id)).
Proof.
  intros Hp. pose proof (enum_nodup_keys settings_order settings) as Hnd.
  assert (Hall : ∀ name s, (name, s) ∈ enum settings_order settings →
    ∃ id, PadFromConfig (sm_ModelId (SourceModel s)) = Ok id ∧ padded !! name = Some (pad_source s id) ∧
      is_Some (factories !! source_id (pad_source s id))); [|intros name s Hs; by apply Hall, elem_of_enum].
  refine ((λ HP, HP Hnd) (fold_result_inv _ (λ l padded, NoDup l.*1 → ∀ name s, (name, s) ∈ l →
    ∃ id, PadFromConfig (sm_ModelId (SourceModel s)) = Ok id ∧ padded !! name = Some (pad_source s id) ∧
      is_Some (factories !! source_id (pad_source s id))) _ _ _ Hp _ _)); [by intros _ ? ? ?%elem_of_nil|].
  clear. intros l [n s] b b' IH Hstep Hnd. rewrite fmap_app in Hnd. apply NoDup_app in Hnd as (Hnd & Hn & _).
  destruct (PadFromConfig (sm_ModelId (SourceModel s))) as [id|] eqn:Hid; [|done]. cbv zeta in Hstep.
  destruct (map_has factories (source_id (pad_source s id))) eqn:Hhas; [|done]. injection Hstep as <-.
  rewrite map_has_spec in Hhas. apply bool_decide_eq_true in Hhas. intros n' s' [Hin|[= -> ->]%list_elem_of_singleton]%elem_of_app.
  - destruct (IH Hnd n' s' Hin) as (id' & ? & ? & ?). exists id'. split_and!; [done| |done].
    rewrite lookup_insert_ne //. intros <-. apply (Hn n); [|left]. apply list_elem_of_fmap. by exists (n, s').
  - exists id. by rewrite lookup_insert_eq.
Qed.

(** A map that a loop over another one builds. *)
Lemma fold_build {K A B E} `{Countable K} (f : K → A → result E B) (o : map_order K A) (m : gmap K A) (m' : gmap K B) :
  fold_result (λ acc '(k, a), match f k a with Err e => Err e | Ok b => Ok (<[k := b]> acc) end) (enum o m) ∅ = Ok m' →
  ∀ k, match m !! k with Some a => ∃ b, f k a = Ok b ∧ m' !! k = Some b | None => m' !! k = None end.
Proof.
  intros Hf k. apply (fold_result_inv _ (λ l m', NoDup l.*1 →
    (∀ k a, (k, a) ∈ l → ∃ b, f k a = Ok b ∧ m' !! k = Some b) ∧ ∀ k, k ∉ l.*1 → m' !! k = None)) in Hf.
  - destruct Hf as [H1 H2]. destruct (m !! k) as [a|] eqn:Hk; [by apply H1, elem_of_enum|].
    apply H2. rewrite elem_of_enum_keys Hk. by intros [].
  - intros _. split; [by intros ? ? ?%elem_of_nil|]. by intros; rewrite lookup_empty.
  - clear. intros l [k a] b b' IH Hstep Hnd. rewrite fmap_app in Hnd |- *. apply NoDup_app in Hnd as (Hnd & Hn & _).
    destruct (IH Hnd) as [H1 H2]. destruct (f k a) as [x|] eqn:Hx; [|done]. injection Hstep as <-. split.
    + intros k' a' [Hin|[= -> ->]%list_elem_of_singleton]%elem_of_app; [|exists x; by rewrite lookup_insert_eq].
      destruct (H1 k' a' Hin) as (y & ? & ?). exists y. split; [done|]. rewrite lookup_insert_ne //. intros <-.
      apply (Hn k); [|left]. apply list_elem_of_fmap. by exists (k, a').
    + intros k' [Hn1 Hn2]%not_elem_of_app. rewrite lookup_insert_ne; [|by apply H2]. intros <-. apply Hn2. left.
  - apply enum_nodup_keys.
Qed.

Lemma init_versions_Ok modelId versioned vs :
  init_versions versions_order modelId versioned = Ok vs →
  ∀ v, match versioned !! v with Some f => ∃ t, f = Ok t ∧ vs !! v = Some t | None => vs !! v = None end.
Proof.
  intros Hv v. unfold init_versions in Hv.
  assert (Hf : fold_result (λ acc '(k, a), match (match a with Ok t => Ok t | Err err => Err (TransformerFailed modelId k err) end) with
      Err e => Err e | Ok b => Ok (<[k := b]> acc) end) (enum versions_order versioned) ∅ = Ok vs).
  { rewrite -Hv. apply fold_result_ext. by intros acc [k [t|e]]. }
  pose proof (fold_build (λ k a, match a with Ok t => Ok t | Err err => Err (TransformerFailed modelId k err) end) _ _ _ Hf v) as Hb.
  destruct (versioned !! v) as [[t|e]|]; [|by destruct Hb as (? & ? & _)|done]. destruct Hb as (t' & [= <-] & ?). by exists t.
Qed.

Lemma initTransformers_Ok settings factories settings' ts :
  initTransformers PadFromConfig settings_order factories_order versions_order settings factories = Ok (settings', ts) →
  pad_sources PadFromConfig settings_order settings factories = Ok settings' ∧
  ∀ id v, at_version ts id v = match at_version factories id v with Some (Ok t) => Some t | _ => None end.
Proof.
  unfold initTransformers. destruct (pad_sources _ _ _ _) as [padded|]; [|done].
  destruct (fold_result _ _ _) as [ts'|] eqn:Hf; [|done]. intros [= <- <-]. split; [done|]. intros id v.
  pose proof (fold_build _ _ _ _ Hf id) as Hid. unfold at_version, TransformerFactories, ModelTransformers, VersionedModelTransformers in *.
  destruct (factories !! id) as [versioned|]; [|by rewrite Hid]. destruct Hid as (vs & Hvs & ->). pose proof (init_versions_Ok id versioned vs Hvs v) as Hv.
  destruct (versioned !! v) as [f|]; [|exact Hv]. destruct Hv as (t & -> & Hx). exact Hx.
Qed.

Lemma initTransformers_no_error settings factories settings' ts id v err :
  initTransformers PadFromConfig settings_order factories_order versions_order settings factories = Ok (settings', ts) →
  at_version factories id v ≠ Some (Err err).
Proof.
  unfold initTransformers. destruct (pad_sources _ _ _ _) as [padded|]; [|done].
  destruct (fold_result _ _ _) as [ts'|] eqn:Hf; [|done]. intros _.
  pose proof (fold_build _ _ _ _ Hf id) as Hid. unfold at_version, TransformerFactories in *.
  destruct (factories !! id) as [versioned|]; [|done]. destruct Hid as (vs & Hvs & _).
  pose proof (init_versions_Ok id versioned vs Hvs v) as Hv. destruct (versioned !! v); [|done]. destruct Hv as (t & -> & _). done.
Qed.

(** A factory that makes an output for every version. *)
Definition complete (f : OutputFactory) : Prop :=
  ∀ s ts name outs, f s ts name = Ok outs → ∀ v, is_Some (ts !! v) → ∃ o, outs !! v = Some (Some o).

Lemma output_each_complete create (o : map_order Z ModelTransformer) ts outs :
  output_each create o ts = Ok outs → ∀ v, is_Some (ts !! v) → ∃ out, outs !! v = Some (Some out).
Proof.
  unfold output_each. intros Hf v [t Ht].
  assert (Hf' : fold_result (λ acc '(k, a), match (match create a with Ok out => Ok (Some out) | Err err => Err (StoreFailed err) end) with
      Err e => Err e | Ok b => Ok (<[k := b]> acc) end) (enum o ts) ∅ = Ok outs).
  { rewrite -Hf. apply fold_result_ext. intros acc [k t']. by destruct (create t'). }
  pose proof (fold_build (λ _ a, match create a with Ok out => Ok (Some out) | Err err => Err (StoreFailed err) end) _ _ _ Hf' v) as Hb.
  rewrite Ht in Hb. destruct Hb as (out & Hout & ->). destruct (create t); [|done]. injection Hout as <-. by eexists.
Qed.

Lemma outputDbFactory_complete new o : complete (outputDbFactory new o).
Proof. intros s ts name outs Hf. by eapply output_each_complete. Qed.

Lemma outputKvstoreFactory_complete new o : complete (outputKvstoreFactory new o).
Proof. intros s ts name outs Hf. by eapply output_each_complete. Qed.

Lemma outputDdbFactory_complete {Md} (get : ModelTransformer → result Exec.error Md) new o : complete (outputDdbFactory get new o).
Proof. intros s ts name outs Hf. by eapply output_each_complete. Qed.

Lemma add_children_dom outputName childOutputs versions (acc acc' : gmap Z (list (fanoutOutputChild (W := W) (M := M)))) :
  add_children outputName childOutputs versions acc = Ok acc' → ∀ v, is_Some (acc !! v) → is_Some (acc' !! v).
Proof.
  unfold add_children. revert acc. induction versions as [|version versions IH]; intros acc; cbn [fold_result]; [by intros [= <-]|].
  destruct (childOutputs !! version) as [[out|]|]; [|done..]. intros Hf v Hv. apply (IH _ Hf). apply lookup_insert_is_Some'. auto.
Qed.

Lemma outputFanoutFactory_complete fs names o : complete (outputFanoutFactory fs names o).
Proof.
  intros s ts name outs. unfold outputFanoutFactory. destruct (names name) as [children|]; [|done].
  destruct (fold_result _ children _) as [by_version|] eqn:Hf; [|done]. intros [= <-] v Hv.
  assert (Hin : is_Some (by_version !! v)).
  { refine (fold_result_inv _ (λ _ acc, is_Some (acc !! v)) _ _ _ Hf _ _).
    - apply elem_of_dom. rewrite dom_list_to_map_L. apply elem_of_list_to_set. rewrite -list_fmap_compose.
      apply list_elem_of_fmap. exists v. split; [done|]. by apply elem_of_enum_keys.
    - intros _ child acc acc' Hacc. case_bool_decide; [done|]. destruct (fs !! child) as [factory|]; [|done].
      destruct (factory s ts name) as [outs|]; [|done]. intros Hadd. by eapply add_children_dom. }
  destruct Hin as [cs Hcs]. exists (fanout_Persist cs). by rewrite lookup_fmap Hcs.
Qed.

Lemma initOutputs_Ok fs settings (ts : ModelTransformers (W := W) (I := I) (M := M) (Schema := Schema)) outs :
  (∀ typ f, fs !! typ = Some f → complete f) →
  initOutputs settings_order fs settings ts = Ok outs →
  ∀ name s, settings !! name = Some s → ∀ v, is_Some (at_version ts (source_id s) v) → ∃ o, at_version outs (source_id s) v = Some (Some o).
Proof.
  intros Hfs Hf. assert (Hall : ∀ name s, (name, s) ∈ enum settings_order settings → ∀ v, is_Some (at_version ts (source_id s) v) →
    ∃ o, at_version outs (source_id s) v = Some (Some o)); [|intros name s Hs; by eapply Hall, elem_of_enum].
  refine (fold_result_inv _ (λ l outs, ∀ name s, (name, s) ∈ l → ∀ v, is_Some (at_version ts (source_id s) v) →
    ∃ o, at_version outs (source_id s) v = Some (Some o)) _ _ _ Hf _ _); [by intros ? ? ?%elem_of_nil|].
  clear Hf outs. intros l [n s] outs outs' IH. destruct (fs !! ss_Output s) as [f|] eqn:Hfac; [|done].
  destruct (ts !! source_id s) as [versioned|] eqn:Hts; [|done]. destruct (f s versioned n) as [new|] eqn:Hnew; [|done]. intros [= <-].
  assert (Hnew' : ∀ v, is_Some (versioned !! v) → ∃ o, new !! v = Some (Some o)) by (by eapply Hfs).
  intros n' s' [Hin|[= -> ->]%list_elem_of_singleton]%elem_of_app v Hv.
  - rewrite at_version_insert. case_decide as Heq; [|by eapply IH]. apply Hnew'. rewrite -Heq /at_version Hts in Hv. exact Hv.
  - rewrite at_version_insert decide_True //. apply Hnew'. rewrite /at_version Hts in Hv. exact Hv.
Qed.

(** ** Consuming a message *)
Context (ToIntE : string → option Z).

Lemma GetTransformer_lookup spec (c : subscriberCore) t :
  GetTransformer spec c = Ok t ↔ at_version (transformers c) (spec_ModelId spec) (Version spec) = Some t.
Proof. unfold GetTransformer, at_version, ModelTransformers, VersionedModelTransformers, Outputs in *. destruct (_ !! spec_ModelId spec) as [vs|]; [destruct (vs !! Version spec)|]; split; by intros [= <-]. Qed.

Lemma GetOutput_lookup spec (c : subscriberCore) o :
  GetOutput spec c = Ok o ↔ at_version (outputs c) (spec_ModelId spec) (Version spec) = Some o.
Proof. unfold GetOutput, at_version, ModelTransformers, VersionedModelTransformers, Outputs in *. destruct (_ !! spec_ModelId spec) as [vs|]; [destruct (vs !! Version spec)|]; split; by intros [= <-]. Qed.

(** C19: A core that was built serves every subscriber: a message about its source model, in a version for which there is
    a transformer factory, finds its transformer and its output, so consuming it neither
    panics nor fails for want of them. *)
Theorem core_serves_subscribers fs settings factories settings' (c : subscriberCore) name s spec :
  (∀ typ f, fs !! typ = Some f → complete f) →
  NewSubscriberCore PadFromConfig settings_order factories_order versions_order fs settings factories = Ok (settings', c) →
  settings' !! name = Some s → spec_ModelId spec = source_id s →
  is_Some (at_version factories (source_id s) (Version spec)) →
  ∃ t o, GetTransformer spec c = Ok t ∧ GetOutput spec c = Ok (Some o) ∧
    ∀ attributes input w, getModelSpecification ToIntE attributes = Ok spec →
      ∃ w' metrics ack err, Consume ToIntE input attributes c w = Ok (w', metrics, (ack, err)) ∧
        match err with Some (CoreError _) => False | _ => True end.
Proof.
  intros Hfs Hnew Hs Hid Hv. unfold NewSubscriberCore in Hnew.
  destruct (initTransformers _ _ _ _ _ _) as [[set' ts]|] eqn:Hinit; [|done].
  destruct (initOutputs settings_order fs set' ts) as [outs|] eqn:Houts; [|done]. injection Hnew as <- <-.
  pose proof (initTransformers_Ok _ _ _ _ Hinit) as [_ Hts].
  assert (Ht : is_Some (at_version ts (source_id s) (Version spec))).
  { destruct Hv as [f Hf]. rewrite Hts Hf. destruct f; [by eexists|]. exfalso. by eapply initTransformers_no_error. }
  destruct (initOutputs_Ok fs set' ts outs Hfs Houts name s Hs (Version spec) Ht) as [o Ho]. destruct Ht as [t Ht].
  assert (Hgt : GetTransformer spec {| transformers := ts; outputs := outs |} = Ok t) by (apply GetTransformer_lookup; by rewrite /= Hid).
  assert (Hgo : GetOutput spec {| transformers := ts; outputs := outs |} = Ok (Some o)) by (apply GetOutput_lookup; by rewrite /= Hid).
  exists t, o. split_and!; [done..|]. intros attributes input w Hspec. unfold Consume. rewrite Hspec Hgt.
  destruct (transform t input w) as [w1 [[m|]|e]].
  - rewrite Hgo. destruct (o m (CrudType spec) w1) as [w2 [e|]]; [destruct (is_canceled e)|]; by do 4 eexists.
  - by do 4 eexists.
  - destruct (IsDelayOpError e || is_canceled e); by do 4 eexists.
Qed.

(** What Consume answers on each of its ways: a message is acknowledged exactly if it was skipped or persisted, and
    an error is never acknowledged; one metric is written, except for a message that is to come again later
    or whose specification cannot be read. *)
Theorem Consume_correct (c : subscriberCore) input attributes w w' metrics ack err :
  Consume ToIntE input attributes c w = Ok (w', metrics, (ack, err)) →
  (ack = true ↔ ∃ spec t w1, getModelSpecification ToIntE attributes = Ok spec ∧ GetTransformer spec c = Ok t ∧
     ((transform t input w = (w', Ok None) ∧ w1 = w' ∧ metrics = [(MetricNameSkipped, spec_ModelId spec)]) ∨
      ∃ m o, transform t input w = (w1, Ok (Some m)) ∧ GetOutput spec c = Ok (Some o) ∧ o m (CrudType spec) w1 = (w', None) ∧
        metrics = [(MetricNameSuccess, spec_ModelId spec)])) ∧
  (ack = true → err = None) ∧
  (err ≠ None → metrics = [] ∧ (∃ e, err = Some (SpecError e)) ∨ ∃ spec, getModelSpecification ToIntE attributes = Ok spec ∧ metrics = [(MetricNameFailure, spec_ModelId spec)]) ∧
  (ack = false → err = None → metrics = []).
Proof.
  unfold Consume. destruct (getModelSpecification ToIntE attributes) as [spec|e] eqn:Hspec.
  2:{ intros [= <- <- <- <-]. split_and!; [split; [done|by intros (? & ? & ? & ? & _)]|done| |done]. intros _. left. split; [done|by eexists]. }
  assert (Hno : ∀ w1 e, Ok (E := panic) (w1, [(MetricNameFailure, spec_ModelId spec)], (false, Some e)) = Ok (w', metrics, (ack, err)) →
    (∀ w2 t, GetTransformer spec c = Ok t → transform t input w ≠ (w2, Ok None)) →
    (∀ w1 w2 t m o, GetTransformer spec c = Ok t → GetOutput spec c = Ok (Some o) → transform t input w = (w1, Ok (Some m)) → o m (CrudType spec) w1 ≠ (w2, None)) →
    (ack = true ↔ ∃ spec0 t w1, Ok (E := go_error) spec = Ok spec0 ∧ GetTransformer spec0 c = Ok t ∧
     ((transform t input w = (w', Ok None) ∧ w1 = w' ∧ metrics = [(MetricNameSkipped, spec_ModelId spec0)]) ∨
      ∃ m o, transform t input w = (w1, Ok (Some m)) ∧ GetOutput spec0 c = Ok (Some o) ∧ o m (CrudType spec0) w1 = (w', None) ∧
        metrics = [(MetricNameSuccess, spec_ModelId spec0)])) ∧
    (ack = true → err = None) ∧
    (err ≠ None → metrics = [] ∧ (∃ e, err = Some (SpecError e)) ∨ ∃ spec0, Ok (E := go_error) spec = Ok spec0 ∧ metrics = [(MetricNameFailure, spec_ModelId spec0)]) ∧
    (ack = false → err = None → metrics = [])).
  { intros w1 e [= <- <- <- <-] H1 H2. split_and!; [|done|intros _; right; by eexists|done]. split; [done|].
    intros (spec0 & t & w2 & [= <-] & Ht & [(Htr & _)|(m & o & Htr & Ho & Hp & _)]); [by destruct (H1 w1 t)|by destruct (H2 w2 w1 t m o)]. }
  destruct (GetTransformer spec c) as [t|e] eqn:Ht.
  2:{ intros Hr. apply (Hno _ _ Hr); intros; congruence. }
  destruct (transform t input w) as [w1 [[m|]|e]] eqn:Htr.
  - destruct (GetOutput spec c) as [[o|]|e] eqn:Ho; [|done|].
    2:{ intros Hr. apply (Hno _ _ Hr); [intros w2 t' [= <-]; by rewrite Htr|done]. }
    destruct (o m (CrudType spec) w1) as [w2 [e|]] eqn:Hp.
    + assert (Hway : ∀ w2 w3 t' m' o', Ok (E := core_error) t = Ok t' → Ok (E := core_error) (Some o) = Ok (Some o') →
        transform t' input w = (w2, Ok (Some m')) → o' m' (CrudType spec) w2 ≠ (w3, None)).
      { intros w3 w4 t' m' o' [= <-] [= <-]. rewrite Htr. intros [= <- <-]. by rewrite Hp. }
      destruct (is_canceled e).
      * intros [= <- <- <- <-]. split_and!; try done. split; [done|]. intros (s0 & t0 & w3 & [= <-] & Ht0 & Hw). rewrite Ht in Ht0. injection Ht0 as <-.
        destruct Hw as [(Htr0 & _)|(m0 & o0 & Htr0 & Ho0 & Hp0 & _)]; [by rewrite Htr in Htr0|]. rewrite Ho in Ho0. by destruct (Hway w3 w2 t m0 o0).
      * intros Hr. apply (Hno _ _ Hr); [intros w3 t' [= <-]; by rewrite Htr|]. intros ? ? ? ? ?. apply Hway.
    + intros [= <- <- <- <-]. split_and!; try done. split; [intros _|done]. exists spec, t, w1. split_and!; [done..|]. right. by exists m, o.
  - intros [= <- <- <- <-]. split_and!; try done. split; [intros _|done]. exists spec, t, w1. split_and!; [done..|]. by left.
  - assert (Hway : ∀ w2 t' r, Ok (E := core_error) t = Ok t' → transform t' input w ≠ (w2, Ok r)) by (intros w2 t' r [= <-]; by rewrite Htr).
    destruct (IsDelayOpError e || is_canceled e).
    + intros [= <- <- <- <-]. split_and!; try done. split; [done|]. intros (s0 & t0 & w3 & [= <-] & Ht0 & Hw). rewrite Ht in Ht0.
      destruct Hw as [(Htr0 & _)|(m0 & o0 & Htr0 & _)]; destruct (Hway _ _ _ Ht0 Htr0).
    + intros Hr. apply (Hno _ _ Hr); [intros w2 t'; apply Hway|]. intros w2 w3 t' m' o' Ht' _ Htr'. by destruct (Hway w2 t' (Some m') Ht').
Qed.

(** ** Fan out *)

(** Every child gets the model, also after one that failed, and the outputs fail together exactly when one of them fails. *)
Lemma fanout_Persist_correct (children : list (fanoutOutputChild (W := W) (M := M))) model op w :
  (fanout_Persist children model op w).1 = fold_left (λ w child, (output child model op w).1) children w ∧
  ((fanout_Persist children model op w).2 = None ↔
     ∀ pre child post, children = pre ++ child :: post →
       (output child model op (fold_left (λ w child, (output child model op w).1) pre w)).2 = None).
Proof.
  unfold fanout_Persist. assert (Hf : ∀ w, (fanout_errors children model op w).1 = fold_left (λ w child, (output child model op w).1) children w ∧
    ((fanout_errors children model op w).2 = [] ↔ ∀ pre child post, children = pre ++ child :: post →
       (output child model op (fold_left (λ w child, (output child model op w).1) pre w)).2 = None)).
  { clear w. induction children as [|child children IH]; intros w; simpl; [split; [done|]; split; [|done]; intros _ [|] ? ? ?; done|].
    destruct (output child model op w) as [w1 err] eqn:Ho. destruct (IH w1) as [IH1 IH2].
    destruct (fanout_errors children model op w1) as [w2 errs]. simpl in *. split; [done|]. split.
    - intros Herr [|c pre] child' post [= -> ->]; simpl; rewrite Ho; [by destruct err|]. destruct err; [done|]. by eapply (proj1 IH2 Herr).
    - intros Hall. pose proof (Hall [] child children eq_refl) as He. simpl in He. rewrite Ho in He. simpl in He. subst err. apply (proj2 IH2).
      intros pre child' post ->. specialize (Hall (child :: pre) child' post eq_refl). simpl in Hall. by rewrite Ho in Hall. }
  destruct (Hf w) as [Hf1 Hf2]. destruct (fanout_errors children model op w) as [w1 [|e errs]]; simpl in *; (split; [done|]);
    rewrite -Hf2; split; done.
Qed.

(** A Save of the database is tried three times at most; another try follows only a duplicate entry. *)
Lemma db_save_attempts (db : orm (W := W) (M := M)) n model w :
  ∃ k ws, k ≤ n ∧ length ws = S k ∧ ws !! 0 = Some w ∧
    (∀ i wi wj, ws !! i = Some wi → ws !! S i = Some wj → ∃ err, orm_Save db model wi = (wj, Some err) ∧ IsDuplicateEntryError db err = true) ∧
    ∃ wk, ws !! k = Some wk ∧ db_save db n model w = orm_Save db model wk ∧
      (k < n → ∀ err, (orm_Save db model wk).2 = Some err → IsDuplicateEntryError db err = false).
Proof.
  revert w. induction n as [|n IH]; intros w; simpl; destruct (orm_Save db model w) as [w1 [err|]] eqn:Hs.
  - exists 0, [w]. split_and!; [done..|by intros [|]|]. exists w. split_and!; [done| |lia]. rewrite Hs. by destruct (IsDuplicateEntryError db err).
  - exists 0, [w]. split_and!; [done..|by intros [|]|]. exists w. split_and!; [done|by rewrite Hs|lia].
  - destruct (IsDuplicateEntryError db err) eqn:Hd; simpl.
    + destruct (IH w1) as (k & ws & Hk & Hl & H0 & Hstep & wk & Hwk & Heq & Hlast). exists (S k), (w :: ws).
      split_and!; [lia|simpl; lia|done| |exists wk; split_and!; [done|done|]; intros; apply Hlast; [lia|done]].
      intros [|i] wi wj Hi Hj; simpl in Hi, Hj; [|by eapply Hstep]. simplify_eq. by exists err.
    + exists 0, [w]. split_and!; [lia|done..|by intros [|]|]. exists w. split_and!; [done|done|]. intros _ e. rewrite Hs. by intros [= <-].
  - exists 0, [w]. split_and!; [lia|done..|by intros [|]|]. exists w. split_and!; [done|done|]. intros _ e. by rewrite Hs.
Qed.
End Core.

(** ** A key-value store mirrors the model *)
Section Mirror.
Context {O M W I Schema : Type} `{Countable O} `{!KvStore O M W} (cast : any_key O → result KvStore.error string) `{!KvStoreLaws cast W}.
Context (GetId : M → any_key O) (lift : KvStore.error → Exec.error) (ToIntE : string → option Z).
(** What the transformers compute, without changing the store. *)
Context (f : ModelSpecification → I → result Exec.error (option M)).
Abbreviation core := (subscriberCore (W := W) (I := I) (M := M) (Schema := Schema)).

(** A core whose outputs are key-value stores. *)
Definition mirrors (c : core) : Prop :=
  (∀ spec t, GetTransformer spec c = Ok t → ∀ i w, transform t i w = (w, f spec i)) ∧
  (∀ spec o, GetOutput spec c = Ok o → o = Some (kvstore_Persist GetId lift)).

(** A message: the input and the attributes it comes with. *)
Definition message : Type := I * gmap string string.

(** What a message means for the model. *)
Definition effect (m : message) (B : gmap string M) : gmap string M :=
  match getModelSpecification ToIntE m.2 with
  | Err _ => B
  | Ok spec =>
      match f spec m.1 with
      | Ok (Some model) =>
          if bool_decide (CrudType spec = TypeCreate) || bool_decide (CrudType spec = TypeUpdate) then insert_key cast (GetId model) model B
          else if bool_decide (CrudType spec = TypeDelete) then delete_key cast (GetId model) B
          else B
      | _ => B
      end
  end.

Lemma effect_idemp m B : effect m (effect m B) = effect m B.
Proof.
  unfold effect, insert_key, delete_key. destruct (getModelSpecification ToIntE m.2) as [spec|]; [|done].
  destruct (f spec m.1) as [[model|]|]; [|done..]. destruct (CastKeyToString cast (GetId model)); repeat case_match; try done.
  - apply insert_insert_eq.
  - apply delete_delete_eq.
Qed.

Lemma Persist_effect model op w w' err :
  kv_durable cast w → kvstore_Persist GetId lift model op w = (w', err) →
  let B := kv_view cast w in
  let B' := if bool_decide (op = TypeCreate) || bool_decide (op = TypeUpdate) then insert_key cast (GetId model) model B
            else if bool_decide (op = TypeDelete) then delete_key cast (GetId model) B else B in
  kv_durable cast w' ∧ (err = None → kv_view cast w' = B') ∧ (kv_view cast w' = B ∨ kv_view cast w' = B').
Proof.
  intros Hd. unfold kvstore_Persist. destruct (bool_decide (op = TypeCreate) || _); [|destruct (bool_decide (op = TypeDelete))].
  - destruct (kv_put (GetId model) model w) as [w1 e] eqn:Hp. intros [= <- <-].
    apply (kv_put_law cast) in Hp as (_ & _ & Hdur). destruct (Hdur Hd) as [Hd' Hv]. split; [done|].
    destruct e as [e|]; (split; [try done|]); [destruct Hv; auto|by right].
  - destruct (kv_delete (GetId model) w) as [w1 e] eqn:Hp. intros [= <- <-].
    apply (kv_delete_law cast) in Hp as (Hsub & Hdel & Hdur). destruct (Hdur Hd) as [Hd' Hv]. split; [done|]. split.
    + destruct e; [done|]. intros _. apply (anti_symm (⊆)); [by apply Hdel|done].
    + by apply (between_delete cast).
  - intros [= <- <-]. auto.
Qed.

(** Consuming a message once: an acknowledged message has had its effect; one that is not can have had it or not. *)
Lemma Consume_effect (c : core) m w w' metrics ack err :
  mirrors c → kv_durable cast w → Consume ToIntE m.1 m.2 c w = Ok (w', metrics, (ack, err)) →
  kv_durable cast w' ∧ (ack = true → kv_view cast w' = effect m (kv_view cast w)) ∧
  (kv_view cast w' = kv_view cast w ∨ kv_view cast w' = effect m (kv_view cast w)).
Proof.
  intros [Htr Hout] Hd. unfold Consume, effect. destruct (getModelSpecification ToIntE m.2) as [spec|e]; [|intros [= <- <- <- <-]; split_and!; [done|done|by left]].
  destruct (GetTransformer spec c) as [t|e] eqn:Ht; [|intros [= <- <- <- <-]; split_and!; [done|done|by left]]. rewrite (Htr spec t Ht).
  destruct (f spec m.1) as [[model|]|e]; [|intros [= <- <- <- <-]; split_and!; [done|done|by left]|].
  2:{ destruct (IsDelayOpError e || is_canceled e); intros [= <- <- <- <-]; split_and!; [done|done|by left|done|done|by left]. }
  destruct (GetOutput spec c) as [o|e] eqn:Ho; [|intros [= <- <- <- <-]; split_and!; [done|done|by left]]. rewrite (Hout spec o Ho).
  destruct (kvstore_Persist GetId lift model (CrudType spec) w) as [w1 e] eqn:Hp.
  apply (Persist_effect _ _ _ _ _ Hd) in Hp as (Hd' & Hn & Hor). destruct e as [e|].
  - destruct (is_canceled e); intros [= <- <- <- <-]; by split_and!.
  - intros [= <- <- <- <-]. split_and!; [done|by intros _; apply Hn|done].
Qed.

(** Messages come one after the other, each again and again until it is acknowledged. *)
Inductive delivered (c : core) : list message → W → W → Prop :=
| delivered_done w : delivered c [] w w
| delivered_ack m ms w w1 w' metrics err :
    Consume ToIntE m.1 m.2 c w = Ok (w1, metrics, (true, err)) → delivered c ms w1 w' → delivered c (m :: ms) w w'
| delivered_again m ms w w1 w' metrics err :
    Consume ToIntE m.1 m.2 c w = Ok (w1, metrics, (false, err)) → delivered c (m :: ms) w1 w' → delivered c (m :: ms) w w'.

(** C10: When every message about a model has been delivered, with any number of failed attempts before, the store holds
    what the messages say: the effects of the messages in their order. *)
Theorem subscriber_mirrors_model (c : core) ms w w' :
  mirrors c → kv_durable cast w → delivered c ms w w' → kv_view cast w' = fold_left (λ B m, effect m B) ms (kv_view cast w).
Proof.
  intros Hc Hd Hdel. assert (Hgen : ∀ B, match ms with [] => kv_view cast w = B | m :: _ => kv_view cast w = B ∨ kv_view cast w = effect m B end →
    kv_view cast w' = fold_left (λ B m, effect m B) ms B); [|apply Hgen; destruct ms; auto].
  induction Hdel as [w|m ms w w1 w' metrics err Hcons Hdel IH|m ms w w1 w' metrics err Hcons Hdel IH]; intros B HB; [done| |];
    destruct (Consume_effect c m w w1 metrics _ err Hc Hd Hcons) as (Hd1 & Hack & Hor).
  - simpl. apply IH; [done|]. rewrite Hack //. destruct HB as [->| ->]; [|rewrite effect_idemp]; by destruct ms; [|left].
  - apply IH; [done|]. destruct Hor as [->| ->]; [done|]. right. destruct HB as [->| ->]; [done|apply effect_idemp].
Qed.
End Mirror.

(** ** Samples: a subscriber of users, and its key-value store *)
Module Samples.

Definition user : Type := string * Z.
Abbreviation store := (mapStore user).

Definition GetId (u : user) : any_key nat := KString u.1.
Definition lift (err : KvStore.error) : Exec.error := EValue 50.

Definition ToIntE (s : string) : option Z :=
  if bool_decide (s = "1") then Some 1%Z else if bool_decide (s = "2") then Some 2%Z else None.
Definition Itoa (z : Z) : string := if bool_decide (z = 1%Z) then "1" else "2".

(** Users without a value are skipped, negative values are an error. *)
Definition f (spec : ModelSpecification) (u : user) : result Exec.error (option user) :=
  if bool_decide (u.2 < 0)%Z then Err (EValue 51) else if bool_decide (u.2 = 0%Z) then Ok None else Ok (Some u).

Definition typed : TypedTransformer (W := store) (I := user) (M := user) := λ u w,
  if bool_decide (u.2 < 0)%Z then (w, (None, Some (EValue 51))) else if bool_decide (u.2 = 0%Z) then (w, (None, None)) else (w, (Some u, None)).

Abbreviation transformer := (ModelTransformer store user user unit).

Definition users : transformer := EraseTransformerTypes ("", 0%Z) (Ok None) typed.

Definition padded (id : ModelId.ModelId) : result Exec.error ModelId.ModelId := Ok id.

Definition users_id : ModelId.ModelId := {|
  ModelId.Name := str "users"; Env := str "test"; Application := str "shop"; Tags := ∅; DomainPattern := str "{app.env}"
|}.

Definition settings : gmap string SubscriberSettings :=
  {["users" := {| ss_Output := "kvstore"; SourceModel := {| sm_ModelId := users_id; Shared := false |};
                  TargetModel := {| sm_ModelId := users_id; Shared := false |} |}]}.

Definition factories : TransformerFactories (W := store) (I := user) (M := user) (Schema := unit) := {[id_string users_id := {[1%Z := Ok users]}]}.

Definition output_factories : OutputFactories (W := store) (I := user) (M := user) (Schema := unit) :=
  AddOutput "kvstore" (outputKvstoreFactory (λ _, Ok (kvstore_Persist GetId lift)) canonical_order) ∅.

Definition built : result init_error (gmap string SubscriberSettings * subscriberCore (W := store) (I := user) (M := user) (Schema := unit)) :=
  NewSubscriberCore padded canonical_order canonical_order canonical_order output_factories settings factories.

Definition core : subscriberCore (W := store) (I := user) (M := user) (Schema := unit) :=
  match built with Ok (_, c) => c | Err _ => {| transformers := ∅; outputs := ∅ |} end.

Lemma factories_complete typ g : output_factories !! typ = Some g → complete g.
Proof. unfold output_factories, AddOutput, OutputFactories. intros [[_ <-]|[_ Hn]]%lookup_insert_Some; [apply outputKvstoreFactory_complete|done]. Qed.

Definition about_users (version : Z) : gmap string string := CreateMessageAttributes Itoa users_id "create" version.
Definition users_spec : ModelSpecification := {| CrudType := "create"; Version := 1; spec_ModelId := id_string users_id |}.

Lemma published_specification_witness :
  getModelSpecification ToIntE ({["retry" := "1"]} ∪ CreateMessageAttributes Itoa users_id "create" 1) = Ok users_spec.
Proof. apply published_specification; [reflexivity|]. intros k Hk. apply lookup_singleton_ne. intros <-. set_solver. Defined.

Lemma core_serves_subscribers_witness :
  ∃ s, settings !! "users" = Some s ∧ ∃ t o, GetTransformer users_spec core = Ok t ∧ GetOutput users_spec core = Ok (Some o).
Proof.
  eexists. split; [reflexivity|].
  destruct (core_serves_subscribers padded canonical_order canonical_order canonical_order ToIntE output_factories settings factories
    settings core "users" {| ss_Output := "kvstore"; SourceModel := {| sm_ModelId := users_id; Shared := false |};
                  TargetModel := {| sm_ModelId := users_id; Shared := false |} |} users_spec factories_complete) as (t & o & Ht & Ho & _).
  - vm_compute. reflexivity.
  - reflexivity.
  - reflexivity.
  - eexists. vm_compute. reflexivity.
  - exists t, o. split; assumption.
Defined.

Lemma core_mirrors : mirrors GetId lift f core.
Proof.
  assert (Hcore : core = {| transformers := {[id_string users_id := {[1%Z := users]}]};
    outputs := {[id_string users_id := {[1%Z := Some (kvstore_Persist GetId lift)]}]} |}) by (vm_compute; reflexivity).
  rewrite Hcore. split.
  - intros spec t Ht%GetTransformer_lookup i w. rewrite -(at_version_singleton _ _ users _ _ t Ht).
    simpl. unfold untyped_transform, typed, f. by repeat case_bool_decide.
  - intros spec o Ho%GetOutput_lookup. symmetry. exact (at_version_singleton _ _ _ _ _ o Ho).
Qed.

Definition message_of (op : string) (u : user) : message := (u, CreateMessageAttributes Itoa users_id op 1).

Definition messages : list message :=
  [message_of "create" ("ann", 1%Z); message_of "create" ("bob", 2%Z); message_of "update" ("ann", 3%Z); message_of "create" ("eve", 0%Z);
   message_of "delete" ("bob", 2%Z)].

Definition empty_store : store := MapStore ∅ false.
Definition final_store : store := MapStore {["ann" := ("ann", 3%Z)]} false.

Lemma messages_delivered : delivered ToIntE core messages empty_store final_store.
Proof. repeat (eapply delivered_ack; [vm_compute; reflexivity|]). constructor. Qed.

Lemma subscriber_mirrors_model_witness :
  ms_entries final_store = fold_left (λ B m, effect (O := nat) cast_string GetId ToIntE f m B) messages ∅.
Proof.
  exact (subscriber_mirrors_model (O := nat) cast_string GetId lift ToIntE f core messages empty_store final_store
    core_mirrors I messages_delivered).
Defined.

Lemma Consume_correct_witness :
  ∃ spec t w1, getModelSpecification ToIntE (about_users 1) = Ok spec ∧ GetTransformer spec core = Ok t ∧ w1 = empty_store.
Proof.
  destruct (Consume_correct (W := store) (I := user) (M := user) (Schema := unit) ToIntE core ("eve", 0%Z) (about_users 1) empty_store empty_store
    [(MetricNameSkipped, id_string users_id)] true None) as [Hack _]; [vm_compute; reflexivity|].
  destruct Hack as [Hack _]. destruct (Hack eq_refl) as (spec & t & w1 & Hs & Ht & Hw). exists spec, t, empty_store. split; [exact Hs|split; [exact Ht|reflexivity]].
Defined.

(** Two subscribers of the same source model: the core has room for the outputs of one of them, and the order in which
    the map of the settings is visited decides which. *)
Definition failing : OutputFactory (W := store) (I := user) (M := user) (Schema := unit) :=
  outputKvstoreFactory (λ _, Ok (λ _ _ w, (w, Some (EValue 60)))) canonical_order.

Definition two_subscribers : gmap string SubscriberSettings :=
  <["audit" := {| ss_Output := "audit"; SourceModel := {| sm_ModelId := users_id; Shared := false |};
                  TargetModel := {| sm_ModelId := users_id; Shared := false |} |}]> settings.

Definition persisted (o : map_order string SubscriberSettings) : option (option Exec.error) :=
  match NewSubscriberCore padded o canonical_order canonical_order (AddOutput "audit" failing output_factories) two_subscribers factories with
  | Ok (_, c) =>
      match GetOutput users_spec c with
      | Ok (Some out) => Some (out ("ann", 1%Z) "create" empty_store).2
      | _ => None
      end
  | Err _ => None
  end.

Lemma same_source_one_output :
  persisted canonical_order ≠ persisted reverse_order ∧ is_Some (persisted canonical_order) ∧ is_Some (persisted reverse_order).
Proof. split_and!; [vm_compute; congruence|by eexists; vm_compute|by eexists; vm_compute]. Qed.
End Samples.
