(* ===== verification/Dbx.v ===== *)
(** The query builders of pkg/dbx: expr.go, part.go, where.go, placeholder.go, select.go,
    get.go, insert.go, update.go, delete.go and client.go.  A Sqlizer is what its only
    method returns: a text with a ? for every argument, and the arguments.  The theorems
    are in DbxLaws. *)
From Stdlib Require Import Ascii.
From stdpp Require Import pretty.
From S2P Require Import Prelude FunkMaps.

Open Scope string_scope.
Open Scope list_scope.
Open Scope nat_scope.

Section Expressions.
Context {V : Type}.

(** A value of type any, as far as the code looks into it: nil, a string, another value
    that is neither a list nor a pointer, a pointer, an array or a slice (but not of
    bytes), a driver.Valuer with the answer of its Value, a Sqlizer with the answer of its
    ToSql.  A pointer or a list that is also a Valuer or a Sqlizer is the latter. *)
Inductive any :=
| Nil
| Str (s : string)
| Other (v : V)
| Ptr (p : option any)
| List (l : list any)
| Valuer (r : result go_error any)
| Sqlz (r : result go_error (string * list any)).

(** [pkg/dbx/select.go:13-15] Sqlizer *)
Definition Sqlizer := result go_error (string * list any).

(** A text and its arguments, in front of what follows. *)
Definition prepend (s : string) (args : list any) (r : Sqlizer) : Sqlizer :=
  match r with
  | Ok (s', args') => Ok (s +:+ s', args ++ args')
  | Err e => Err e
  end.

(** [pkg/dbx/expr.go:14-14] sqlTrue *)
Definition sqlTrue : string := "(1=1)".
(** [pkg/dbx/expr.go:15-15] sqlFalse *)
Definition sqlFalse : string := "(1=0)".

Definition is_sqlizer (a : any) : bool := match a with Sqlz _ => true | _ => false end.

(** [pkg/dbx/expr.go:50-84] the loop of expr.ToSql and what follows it: the text up to the next placeholder is
    copied, two question marks are stepped over, and an argument that is a Sqlizer takes the placeholder's place *)
Fixpoint expr_loop (sp : string) (ap : list any) : Sqlizer :=
  match ap with
  | [] => Ok (sp, [])
  | a :: ap' =>
      match sp with
      | "" => Ok ("", ap)
      | String c sp1 =>
          if bool_decide (c = "?"%char) then
            match sp1 with
            | "" => match a with Sqlz r => let! x := r in prepend x.1 x.2 (Ok ("", ap')) | _ => prepend "?" [a] (Ok ("", ap')) end
            | String c2 sp2 =>
                if bool_decide (c2 = "?"%char) then prepend "??" [] (expr_loop sp2 ap)
                else match a with
                     | Sqlz r => let! x := r in prepend x.1 x.2 (expr_loop sp1 ap')
                     | _ => prepend "?" [a] (expr_loop sp1 ap')
                     end
            end
          else prepend (String c "") [] (expr_loop sp1 ap)
      end
  end.

(** [pkg/dbx/expr.go:28-30] Expr, and its ToSql *)
Definition Expr (sql : string) (args : list any) : Sqlizer :=
  if existsb is_sqlizer args then expr_loop sql args else Ok (sql, args).

(** [pkg/dbx/expr.go:115-117] ConcatExpr, and its ToSql *)
Fixpoint ConcatExpr (parts : list any) : Sqlizer :=
  match parts with
  | [] => Ok ("", [])
  | Str p :: parts => prepend p [] (ConcatExpr parts)
  | Sqlz r :: parts => let! x := r in prepend x.1 x.2 (ConcatExpr parts)
  | _ :: _ => Err (EMsg "part is not a string or Sqlizer")
  end.

(** [pkg/dbx/expr.go:130-132] Alias, and its ToSql *)
Definition Alias (e : Sqlizer) (alias : string) : Sqlizer :=
  let! x := e in Ok ("(" +:+ x.1 +:+ ") AS " +:+ alias, x.2).

(** [pkg/dbx/placeholder.go:60-66] Placeholders: [strings.Repeat(",?", count)[1:]] *)
Definition Placeholders (count : nat) : string :=
  if bool_decide (count < 1) then "" else
  let repeated := String.concat "" (replicate count ",?") in
  String.substring 1 (String.length repeated) repeated.

(** [pkg/dbx/expr.go:427-435] getSortedKeys *)
Definition getSortedKeys {A} (m : gmap string A) : list string := merge_sort String.le (map_to_list m).*1.

(** [pkg/dbx/expr.go:437-444] isListType *)
Definition isListType (val : any) : bool := match val with List _ => true | _ => false end.

(** [pkg/dbx/expr.go:239-245] the value of a driver.Valuer *)
Definition valuer (val : any) : result go_error any := match val with Valuer r => r | _ => Ok val end.

(** [pkg/dbx/expr.go:177-184] a pointer is replaced by what it points to *)
Definition deref (val : any) : any :=
  match val with
  | Ptr None => Nil
  | Ptr (Some v) => v
  | _ => val
  end.

(** [pkg/dbx/expr.go:186-209] one condition of Eq.toSQL *)
Definition eq_expr (useNotOpr : bool) (key : string) (val : any) : string * list any :=
  match val with
  | Nil => (key +:+ " " +:+ (if useNotOpr then "IS NOT" else "IS") +:+ " NULL", [])
  | List [] => (if useNotOpr then sqlTrue else sqlFalse, [])
  | List l => (key +:+ " " +:+ (if useNotOpr then "NOT IN" else "IN") +:+ " (" +:+ Placeholders (length l) +:+ ")", l)
  | _ => (key +:+ " " +:+ (if useNotOpr then "<>" else "=") +:+ " ?", [val])
  end.

(** The loop over keys that collects the conditions and their arguments and stops at an error. *)
Fixpoint collect {K} (f : K → Sqlizer) (ks : list K) : result go_error (list string * list any) :=
  match ks with
  | [] => Ok ([], [])
  | k :: ks =>
      let! x := f k in
      let! rest := collect f ks in
      Ok (x.1 :: rest.1, x.2 ++ rest.2)
  end.

(** [pkg/dbx/expr.go:147-216] Eq.toSQL *)
Definition Eq_toSQL (useNotOpr : bool) (eq : gmap string any) : Sqlizer :=
  if bool_decide (size eq = 0) then Ok (sqlTrue, []) else
  let! x := collect (λ key, let! val := valuer (default Nil (eq !! key)) in Ok (eq_expr useNotOpr key (deref val))) (getSortedKeys eq) in
  Ok (String.concat " AND " x.1, x.2).

(** [pkg/dbx/expr.go:218-220] Eq.ToSql *)
Definition Eq (eq : gmap string any) : Sqlizer := Eq_toSQL false eq.

(** [pkg/dbx/expr.go:228-230] NotEq.ToSql *)
Definition NotEq (neq : gmap string any) : Sqlizer := Eq_toSQL true neq.

(** [pkg/dbx/expr.go:247-263] one condition of Like.toSql *)
Definition like_expr (opr key : string) (val : any) : Sqlizer :=
  match val with
  | Nil => Err (EMsg "cannot use null with like operators")
  | _ => if isListType val then Err (EMsg "cannot use array or slice with like operators")
         else Ok (key +:+ " " +:+ opr +:+ " ?", [val])
  end.

(** [pkg/dbx/expr.go:238-268] Like.toSql; the conditions are in the order in which the map is visited *)
Definition Like_toSql (o : map_order string any) (opr : string) (lk : gmap string any) : Sqlizer :=
  let! x := collect (λ kv, let! val := valuer kv.2 in like_expr opr kv.1 val) (enum o lk) in
  Ok (String.concat " AND " x.1, x.2).

(** [pkg/dbx/expr.go:270-272] Like.ToSql *)
Definition Like o lk := Like_toSql o "LIKE" lk.
(** [pkg/dbx/expr.go:280-282] NotLike.ToSql *)
Definition NotLike o lk := Like_toSql o "NOT LIKE" lk.
(** [pkg/dbx/expr.go:290-292] ILike.ToSql *)
Definition ILike o lk := Like_toSql o "ILIKE" lk.
(** [pkg/dbx/expr.go:300-302] NotILike.ToSql *)
Definition NotILike o lk := Like_toSql o "NOT ILIKE" lk.

(** [pkg/dbx/expr.go:335-346] one condition of Lt.toSql *)
Definition lt_expr (opr key : string) (val : any) : Sqlizer :=
  match val with
  | Nil => Err (EMsg "cannot use null with less than or greater than operators")
  | _ => if isListType val then Err (EMsg "cannot use array or slice with less than or greater than operators")
         else Ok (key +:+ " " +:+ opr +:+ " ?", [val])
  end.

(** [pkg/dbx/expr.go:310-353] Lt.toSql *)
Definition Lt_toSql (opposite orEq : bool) (lt : gmap string any) : Sqlizer :=
  let opr := (if opposite then ">" else "<") +:+ (if orEq then "=" else "") in
  let! x := collect (λ key, let! val := valuer (default Nil (lt !! key)) in lt_expr opr key val) (getSortedKeys lt) in
  Ok (String.concat " AND " x.1, x.2).

(** [pkg/dbx/expr.go:355-357] Lt.ToSql *)
Definition Lt lt := Lt_toSql false false lt.
(** [pkg/dbx/expr.go:365-367] LtOrEq.ToSql *)
Definition LtOrEq lt := Lt_toSql false true lt.
(** [pkg/dbx/expr.go:375-377] Gt.ToSql *)
Definition Gt lt := Lt_toSql true false lt.
(** [pkg/dbx/expr.go:385-387] GtOrEq.ToSql *)
Definition GtOrEq lt := Lt_toSql true true lt.

(** [pkg/dbx/part.go:33-39] nestedToSql: no type of the package is both a Sqlizer and a rawSqlizer, and no other
    can be the latter *)
Definition nestedToSql (s : Sqlizer) : Sqlizer := s.

(** [pkg/dbx/expr.go:395-405] the loop of conj.join: an empty text is left out, with its arguments *)
Fixpoint conj_parts (c : list Sqlizer) : result go_error (list string * list any) :=
  match c with
  | [] => Ok ([], [])
  | s :: c =>
      let! x := nestedToSql s in
      let! rest := conj_parts c in
      Ok (if bool_decide (x.1 = "") then rest else (x.1 :: rest.1, x.2 ++ rest.2))
  end.

(** [pkg/dbx/expr.go:391-411] conj.join *)
Definition conj_join (sep defaultExpr : string) (c : list Sqlizer) : Sqlizer :=
  match c with
  | [] => Ok (defaultExpr, [])
  | _ =>
      let! x := conj_parts c in
      Ok (if bool_decide (0 < length x.1) then "(" +:+ String.concat sep x.1 +:+ ")" else "", x.2)
  end.

(** [pkg/dbx/expr.go:416-418] And.ToSql *)
Definition And (c : list Sqlizer) : Sqlizer := conj_join " AND " sqlTrue c.
(** [pkg/dbx/expr.go:423-425] Or.ToSql *)
Definition Or (c : list Sqlizer) : Sqlizer := conj_join " OR " sqlFalse c.

(** [pkg/dbx/part.go:13-15] newPart, and its ToSql *)
Definition newPart (pred : any) (args : list any) : Sqlizer :=
  match pred with
  | Nil => Ok ("", [])
  | Sqlz r => r
  | Str s => Ok (s, args)
  | _ => Err (EMsg "expected string or Sqlizer")
  end.

(** [pkg/dbx/part.go:41-65] appendToSql: what it writes and what it appends to the arguments, from the [i]-th part
    on; writing to a buffer does not fail *)
Fixpoint appendToSql (i : nat) (parts : list Sqlizer) (sep : string) : Sqlizer :=
  match parts with
  | [] => Ok ("", [])
  | p :: parts =>
      let! x := nestedToSql p in
      if bool_decide (x.1 = "") then appendToSql (S i) parts sep
      else prepend ((if bool_decide (0 < i) then sep else "") +:+ x.1) x.2 (appendToSql (S i) parts sep)
  end.

(** The argument of Where: a value of type any, a map, or a value of the type of the rows,
    of which only what toNonZeroMap makes of it matters. *)
Inductive predicate :=
| PAny (a : any)
| PMap (m : gmap string any)
| PRow (msi : result go_error (gmap string any)).

(** [pkg/dbx/where.go:12-14] newWherePart, and its ToSql: nil is an error *)
Definition newWherePart (pred : predicate) (args : list any) : Sqlizer :=
  match pred with
  | PAny (Sqlz r) => r
  | PMap m => Eq m
  | PAny (Str s) => Ok (s, args)
  | _ => Err (EMsg "expected string-keyed map or string")
  end.

(** [pkg/dbx/where.go:39-47] whereStruct.ToSql *)
Definition whereStruct (msi : result go_error (gmap string any)) : Sqlizer :=
  match msi with
  | Err e => Err (EWrap "unable to convert struct to map" e)
  | Ok m => Eq m
  end.

(** [pkg/dbx/where.go:65-76] applyWhere: the part that is appended to WhereParts, if any *)
Definition applyWhere (pred : predicate) (args : list any) : option Sqlizer :=
  match pred with
  | PAny Nil | PAny (Str "") => None
  | PRow msi => Some (whereStruct msi)
  | _ => Some (newWherePart pred args)
  end.
End Expressions.
Arguments any : clear implicits.
Arguments Sqlizer : clear implicits.
Arguments predicate : clear implicits.

(** ** Placeholders *)

(** [pkg/dbx/placeholder.go:20-33] the placeholder formats *)
Inductive PlaceholderFormat := Question | Dollar | Colon | AtP.

#[export] Instance PlaceholderFormat_eq_dec : EqDecision PlaceholderFormat.
Proof. solve_decision. Defined.

(** [pkg/dbx/placeholder.go:68-95] replacePositionalPlaceholders, when [i] placeholders were replaced before *)
Fixpoint replacePositionalPlaceholders (prefix : string) (i : nat) (sql : string) : string :=
  match sql with
  | "" => ""
  | String c sql1 =>
      if bool_decide (c = "?"%char) then
        match sql1 with
        | "" => prefix +:+ pretty (S i)
        | String c2 sql2 =>
            if bool_decide (c2 = "?"%char) then "?" +:+ replacePositionalPlaceholders prefix i sql2
            else (prefix +:+ pretty (S i)) +:+ replacePositionalPlaceholders prefix (S i) sql1
        end
      else String c (replacePositionalPlaceholders prefix i sql1)
  end.

(** [pkg/dbx/placeholder.go:35-57] ReplacePlaceholders of the formats; none of them returns an error *)
Definition ReplacePlaceholders (f : PlaceholderFormat) (sql : string) : string :=
  match f with
  | Question => sql
  | Dollar => replacePositionalPlaceholders "$" 0 sql
  | Colon => replacePositionalPlaceholders ":" 0 sql
  | AtP => replacePositionalPlaceholders "@p" 0 sql
  end.

(** ** Statements *)
Section Statements.
Context {V : Type}.

(** [pkg/dbx/select.go:21-36] selectData, without the client *)
Record selectData := {
  s_PlaceholderFormat : PlaceholderFormat;
  s_Options : list string;
  s_Columns : list (Sqlizer V);
  s_CustomColumns : bool;
  s_From : option (Sqlizer V);
  s_Joins : list (Sqlizer V);
  s_WhereParts : list (Sqlizer V);
  s_GroupBys : list string;
  s_HavingParts : list (Sqlizer V);
  s_OrderByParts : list (Sqlizer V);
  s_Limit : string;
  s_Offset : string
}.

(** Two texts with their arguments, one after the other. *)
Definition andThen (r k : Sqlizer V) : Sqlizer V := let! x := r in prepend x.1 x.2 k.

(** A keyword with what follows it, where there is something. *)
Definition clause {A} (l : list A) (keyword : string) (r : Sqlizer V) : Sqlizer V :=
  match l with
  | [] => Ok ("", [])
  | _ => prepend keyword [] r
  end.

Definition text (s : string) : Sqlizer V := Ok (s, []).

(** [pkg/dbx/select.go:77-80] the options of a statement; insert.go, update.go and delete.go write them alike *)
Definition options (l : list string) : Sqlizer V :=
  match l with
  | [] => Ok ("", [])
  | _ => text (String.concat " " l +:+ " ")
  end.

(** [pkg/dbx/select.go:133-141] a limit or an offset *)
Definition bound (keyword limit : string) : Sqlizer V :=
  if bool_decide (limit = "") then Ok ("", []) else text (keyword +:+ limit).

(** [pkg/dbx/select.go:67-147] selectData.toSqlRaw *)
Definition toSqlRaw (d : selectData) : Sqlizer V :=
  if bool_decide (length (s_Columns d) = 0) then Err (EMsg "select statements must have at least one result column") else
  andThen (text "SELECT ") $
  andThen (options (s_Options d)) $
  andThen (appendToSql 0 (s_Columns d) ", ") $
  andThen (match s_From d with Some from => prepend " FROM " [] (appendToSql 0 [from] "") | None => Ok ("", []) end) $
  andThen (clause (s_Joins d) " " (appendToSql 0 (s_Joins d) " ")) $
  andThen (clause (s_WhereParts d) " WHERE " (appendToSql 0 (s_WhereParts d) " AND ")) $
  andThen (clause (s_GroupBys d) " GROUP BY " (text (String.concat ", " (s_GroupBys d)))) $
  andThen (clause (s_HavingParts d) " HAVING " (appendToSql 0 (s_HavingParts d) " AND ")) $
  andThen (clause (s_OrderByParts d) " ORDER BY " (appendToSql 0 (s_OrderByParts d) ", ")) $
  andThen (bound " LIMIT " (s_Limit d)) $
  bound " OFFSET " (s_Offset d).

(** The text of a statement in a format. *)
Definition with_format (f : PlaceholderFormat) (r : Sqlizer V) : Sqlizer V :=
  let! x := r in Ok (ReplacePlaceholders f x.1, x.2).

(** [pkg/dbx/select.go:55-64] selectData.toSql *)
Definition select_toSql (d : selectData) : Sqlizer V := with_format (s_PlaceholderFormat d) (toSqlRaw d).

(** [pkg/dbx/insert.go:17-26] insertData, without the client and the values *)
Record insertData := {
  i_StatementKeyword : string;
  i_Options : list string;
  i_Into : string;
  i_Columns : list string;
  i_Suffixes : list (Sqlizer V)
}.

(** [pkg/dbx/insert.go:91-105] insertData.appendValuesToSQL *)
Definition appendValuesToSQL (d : insertData) : string :=
  "VALUES (" +:+ String.concat "," ((λ c, ":" +:+ c) <$> i_Columns d) +:+ ")".

(** [pkg/dbx/insert.go:44-89] insertData.toSql: the arguments of the suffixes are not returned *)
Definition insert_toSql (d : insertData) : result go_error string :=
  if bool_decide (i_Into d = "") then Err (EMsg "insert statements must specify a table") else
  let! x :=
    andThen (text (if bool_decide (i_StatementKeyword d = "") then "INSERT " else i_StatementKeyword d +:+ " ")) $
    andThen (options (i_Options d)) $
    andThen (text ("INTO " +:+ i_Into d +:+ " ")) $
    andThen (clause (i_Columns d) "(`" (text (String.concat "`,`" (i_Columns d) +:+ "`) "))) $
    andThen (text (appendValuesToSQL d)) $
    clause (i_Suffixes d) " " (appendToSql 0 (i_Suffixes d) " ") in
  Ok x.1.

(** [pkg/dbx/update.go:28-31] setClause *)
Record setClause := { column : string; value : any V }.

(** [pkg/dbx/update.go:15-26] updateData, without the client *)
Record updateData := {
  u_Error : option go_error;
  u_PlaceholderFormat : PlaceholderFormat;
  u_Options : list string;
  u_Table : string;
  u_SetClauses : list setClause;
  u_WhereParts : list (Sqlizer V);
  u_OrderBys : list string;
  u_Limit : string
}.

(** [pkg/dbx/update.go:77-92] one set clause of updateData.toSql *)
Definition set_expr (c : setClause) : Sqlizer V :=
  match value c with
  | Sqlz r => let! x := r in Ok (column c +:+ " = " +:+ x.1, x.2)
  | v => Ok (column c +:+ " = " +:+ "?", [v])
  end.

(** [pkg/dbx/update.go:54-116] updateData.toSql *)
Definition update_toSql (d : updateData) : Sqlizer V :=
  if bool_decide (u_Table d = "") then Err (EMsg "update statements must specify a table") else
  if bool_decide (length (u_SetClauses d) = 0) then Err (EMsg "update statements must have at least one Set clause") else
  with_format (u_PlaceholderFormat d) $
  andThen (text "UPDATE ") $
  andThen (options (u_Options d)) $
  andThen (text (u_Table d)) $
  andThen (text " SET ") $
  andThen (let! x := collect set_expr (u_SetClauses d) in Ok (String.concat ", " x.1, x.2)) $
  andThen (clause (u_WhereParts d) " WHERE " (appendToSql 0 (u_WhereParts d) " AND ")) $
  andThen (clause (u_OrderBys d) " ORDER BY " (text (String.concat ", " (u_OrderBys d)))) $
  bound " LIMIT " (u_Limit d).

(** [pkg/dbx/delete.go:14-23] deleteData, without the client *)
Record deleteData := {
  d_PlaceholderFormat : PlaceholderFormat;
  d_Options : list string;
  d_From : string;
  d_WhereParts : list (Sqlizer V);
  d_OrderBys : list string;
  d_Limit : string
}.

(** [pkg/dbx/delete.go:42-80] deleteData.toSql *)
Definition delete_toSql (d : deleteData) : Sqlizer V :=
  if bool_decide (d_From d = "") then Err (EMsg "delete statements must specify a From table") else
  with_format (d_PlaceholderFormat d) $
  andThen (text "DELETE ") $
  andThen (options (d_Options d)) $
  andThen (text ("FROM " +:+ d_From d)) $
  andThen (clause (d_WhereParts d) " WHERE " (appendToSql 0 (d_WhereParts d) " AND ")) $
  andThen (clause (d_OrderBys d) " ORDER BY " (text (String.concat ", " (d_OrderBys d)))) $
  bound " LIMIT " (d_Limit d).
End Statements.
Arguments selectData : clear implicits.
Arguments insertData : clear implicits.
Arguments updateData : clear implicits.
Arguments deleteData : clear implicits.
Arguments setClause : clear implicits.

(** ** Builders

    A builder (github.com/lann/builder) is a value with named fields: setting a field,
    appending to it, extending or deleting it makes another builder, and GetStruct copies
    the fields to those of a struct.  All that the code uses of it is that. *)
Class Builder (B D : Type) := {
  EmptyBuilder : B;
  change : (D → D) → B → B;
  GetStruct : B → D
}.

Class BuilderLaws {B D} `{Builder B D} (zero_ : D) : Prop := {
  GetStruct_EmptyBuilder : GetStruct EmptyBuilder = zero_;
  GetStruct_change f b : GetStruct (change f b) = f (GetStruct b)
}.

(** The fields, one by one. *)
Section Fields.
Context {V : Type}.

Definition sets_PlaceholderFormat (v : PlaceholderFormat) (d : selectData V) : selectData V :=
  let 'Build_selectData _ x1 x2 x3 x4 x5 x6 x7 x8 x9 x10 x11 := d in Build_selectData v x1 x2 x3 x4 x5 x6 x7 x8 x9 x10 x11.
Definition sets_Options (v : list string) (d : selectData V) : selectData V :=
  let 'Build_selectData x0 _ x2 x3 x4 x5 x6 x7 x8 x9 x10 x11 := d in Build_selectData x0 v x2 x3 x4 x5 x6 x7 x8 x9 x10 x11.
Definition sets_Columns (v : list (Sqlizer V)) (d : selectData V) : selectData V :=
  let 'Build_selectData x0 x1 _ x3 x4 x5 x6 x7 x8 x9 x10 x11 := d in Build_selectData x0 x1 v x3 x4 x5 x6 x7 x8 x9 x10 x11.
Definition sets_CustomColumns (v : bool) (d : selectData V) : selectData V :=
  let 'Build_selectData x0 x1 x2 _ x4 x5 x6 x7 x8 x9 x10 x11 := d in Build_selectData x0 x1 x2 v x4 x5 x6 x7 x8 x9 x10 x11.
Definition sets_From (v : option (Sqlizer V)) (d : selectData V) : selectData V :=
  let 'Build_selectData x0 x1 x2 x3 _ x5 x6 x7 x8 x9 x10 x11 := d in Build_selectData x0 x1 x2 x3 v x5 x6 x7 x8 x9 x10 x11.
Definition sets_Joins (v : list (Sqlizer V)) (d : selectData V) : selectData V :=
  let 'Build_selectData x0 x1 x2 x3 x4 _ x6 x7 x8 x9 x10 x11 := d in Build_selectData x0 x1 x2 x3 x4 v x6 x7 x8 x9 x10 x11.
Definition sets_WhereParts (v : list (Sqlizer V)) (d : selectData V) : selectData V :=
  let 'Build_selectData x0 x1 x2 x3 x4 x5 _ x7 x8 x9 x10 x11 := d in Build_selectData x0 x1 x2 x3 x4 x5 v x7 x8 x9 x10 x11.
Definition sets_GroupBys (v : list string) (d : selectData V) : selectData V :=
  let 'Build_selectData x0 x1 x2 x3 x4 x5 x6 _ x8 x9 x10 x11 := d in Build_selectData x0 x1 x2 x3 x4 x5 x6 v x8 x9 x10 x11.
Definition sets_HavingParts (v : list (Sqlizer V)) (d : selectData V) : selectData V :=
  let 'Build_selectData x0 x1 x2 x3 x4 x5 x6 x7 _ x9 x10 x11 := d in Build_selectData x0 x1 x2 x3 x4 x5 x6 x7 v x9 x10 x11.
Definition sets_OrderByParts (v : list (Sqlizer V)) (d : selectData V) : selectData V :=
  let 'Build_selectData x0 x1 x2 x3 x4 x5 x6 x7 x8 _ x10 x11 := d in Build_selectData x0 x1 x2 x3 x4 x5 x6 x7 x8 v x10 x11.
Definition sets_Limit (v : string) (d : selectData V) : selectData V :=
  let 'Build_selectData x0 x1 x2 x3 x4 x5 x6 x7 x8 x9 _ x11 := d in Build_selectData x0 x1 x2 x3 x4 x5 x6 x7 x8 x9 v x11.
Definition sets_Offset (v : string) (d : selectData V) : selectData V :=
  let 'Build_selectData x0 x1 x2 x3 x4 x5 x6 x7 x8 x9 x10 _ := d in Build_selectData x0 x1 x2 x3 x4 x5 x6 x7 x8 x9 x10 v.
Definition seti_StatementKeyword (v : string) (d : insertData V) : insertData V :=
  let 'Build_insertData _ x1 x2 x3 x4 := d in Build_insertData v x1 x2 x3 x4.
Definition seti_Options (v : list string) (d : insertData V) : insertData V :=
  let 'Build_insertData x0 _ x2 x3 x4 := d in Build_insertData x0 v x2 x3 x4.
Definition seti_Into (v : string) (d : insertData V) : insertData V :=
  let 'Build_insertData x0 x1 _ x3 x4 := d in Build_insertData x0 x1 v x3 x4.
Definition seti_Columns (v : list string) (d : insertData V) : insertData V :=
  let 'Build_insertData x0 x1 x2 _ x4 := d in Build_insertData x0 x1 x2 v x4.
Definition seti_Suffixes (v : list (Sqlizer V)) (d : insertData V) : insertData V :=
  let 'Build_insertData x0 x1 x2 x3 _ := d in Build_insertData x0 x1 x2 x3 v.
Definition setu_Error (v : option go_error) (d : updateData V) : updateData V :=
  let 'Build_updateData _ x1 x2 x3 x4 x5 x6 x7 := d in Build_updateData v x1 x2 x3 x4 x5 x6 x7.
Definition setu_PlaceholderFormat (v : PlaceholderFormat) (d : updateData V) : updateData V :=
  let 'Build_updateData x0 _ x2 x3 x4 x5 x6 x7 := d in Build_updateData x0 v x2 x3 x4 x5 x6 x7.
Definition setu_Options (v : list string) (d : updateData V) : updateData V :=
  let 'Build_updateData x0 x1 _ x3 x4 x5 x6 x7 := d in Build_updateData x0 x1 v x3 x4 x5 x6 x7.
Definition setu_Table (v : string) (d : updateData V) : updateData V :=
  let 'Build_updateData x0 x1 x2 _ x4 x5 x6 x7 := d in Build_updateData x0 x1 x2 v x4 x5 x6 x7.
Definition setu_SetClauses (v : list (setClause V)) (d : updateData V) : updateData V :=
  let 'Build_updateData x0 x1 x2 x3 _ x5 x6 x7 := d in Build_updateData x0 x1 x2 x3 v x5 x6 x7.
Definition setu_WhereParts (v : list (Sqlizer V)) (d : updateData V) : updateData V :=
  let 'Build_updateData x0 x1 x2 x3 x4 _ x6 x7 := d in Build_updateData x0 x1 x2 x3 x4 v x6 x7.
Definition setu_OrderBys (v : list string) (d : updateData V) : updateData V :=
  let 'Build_updateData x0 x1 x2 x3 x4 x5 _ x7 := d in Build_updateData x0 x1 x2 x3 x4 x5 v x7.
Definition setu_Limit (v : string) (d : updateData V) : updateData V :=
  let 'Build_updateData x0 x1 x2 x3 x4 x5 x6 _ := d in Build_updateData x0 x1 x2 x3 x4 x5 x6 v.
Definition setd_PlaceholderFormat (v : PlaceholderFormat) (d : deleteData V) : deleteData V :=
  let 'Build_deleteData _ x1 x2 x3 x4 x5 := d in Build_deleteData v x1 x2 x3 x4 x5.
Definition setd_Options (v : list string) (d : deleteData V) : deleteData V :=
  let 'Build_deleteData x0 _ x2 x3 x4 x5 := d in Build_deleteData x0 v x2 x3 x4 x5.
Definition setd_From (v : string) (d : deleteData V) : deleteData V :=
  let 'Build_deleteData x0 x1 _ x3 x4 x5 := d in Build_deleteData x0 x1 v x3 x4 x5.
Definition setd_WhereParts (v : list (Sqlizer V)) (d : deleteData V) : deleteData V :=
  let 'Build_deleteData x0 x1 x2 _ x4 x5 := d in Build_deleteData x0 x1 x2 v x4 x5.
Definition setd_OrderBys (v : list string) (d : deleteData V) : deleteData V :=
  let 'Build_deleteData x0 x1 x2 x3 _ x5 := d in Build_deleteData x0 x1 x2 x3 v x5.
Definition setd_Limit (v : string) (d : deleteData V) : deleteData V :=
  let 'Build_deleteData x0 x1 x2 x3 x4 _ := d in Build_deleteData x0 x1 x2 x3 x4 v.

(** The structs whose fields were not set. *)
Definition zero_select : selectData V := Build_selectData Question [] [] false None [] [] [] [] [] "" "".
Definition zero_insert : insertData V := Build_insertData "" [] "" [] [].
Definition zero_update : updateData V := Build_updateData None Question [] "" [] [] [] "".
Definition zero_delete : deleteData V := Build_deleteData Question [] "" [] [] "".
End Fields.

Module SelectBuilder.
Section SelectBuilder.
Context {V B : Type} `{Builder B (selectData V)}.
Implicit Types b : B.

Definition append_part (get : selectData V → list (Sqlizer V)) (set : list (Sqlizer V) → selectData V → selectData V)
    (ps : list (Sqlizer V)) b : B := change (λ d, set (get d ++ ps) d) b.

(** [pkg/dbx/select.go:154-161] newSelectBuilder *)
Definition newSelectBuilder (table : string) (f : PlaceholderFormat) : B :=
  change (sets_PlaceholderFormat f) (change (sets_From (Some (newPart (Str table) []))) EmptyBuilder).

(** [pkg/dbx/select.go:185-187] Options *)
Definition Options (options : list string) b : B := change (λ d, sets_Options (s_Options d ++ options) d) b.

(** [pkg/dbx/select.go:180-182] Distinct *)
Definition Distinct b : B := Options ["DISTINCT"] b.

(** [pkg/dbx/select.go:190-197] columns *)
Definition columns (cs : list string) b : B := append_part s_Columns sets_Columns ((λ c, newPart (Str c) []) <$> cs) b.

(** [pkg/dbx/select.go:207-217] Column: the first one clears the default columns *)
Definition Column (column : any V) (args : list (any V)) b : B :=
  let b := if s_CustomColumns (GetStruct b) then b else change (sets_CustomColumns true) (change (sets_Columns []) b) in
  append_part s_Columns sets_Columns [newPart column args] b.

(** [pkg/dbx/select.go:225-227] JoinClause *)
Definition JoinClause (pred : any V) (args : list (any V)) b : B := append_part s_Joins sets_Joins [newPart pred args] b.
(** [pkg/dbx/select.go:230-232] Join *)
Definition Join (join : string) (rest : list (any V)) b : B := JoinClause (Str ("JOIN " +:+ join)) rest b.
(** [pkg/dbx/select.go:235-237] LeftJoin *)
Definition LeftJoin (join : string) (rest : list (any V)) b : B := JoinClause (Str ("LEFT JOIN " +:+ join)) rest b.
(** [pkg/dbx/select.go:240-242] RightJoin *)
Definition RightJoin (join : string) (rest : list (any V)) b : B := JoinClause (Str ("RIGHT JOIN " +:+ join)) rest b.
(** [pkg/dbx/select.go:245-247] InnerJoin *)
Definition InnerJoin (join : string) (rest : list (any V)) b : B := JoinClause (Str ("INNER JOIN " +:+ join)) rest b.
(** [pkg/dbx/select.go:250-252] CrossJoin *)
Definition CrossJoin (join : string) (rest : list (any V)) b : B := JoinClause (Str ("CROSS JOIN " +:+ join)) rest b.

(** [pkg/dbx/select.go:279-281] Where *)
Definition Where (pred : predicate V) (args : list (any V)) b : B :=
  match applyWhere pred args with
  | Some p => append_part s_WhereParts sets_WhereParts [p] b
  | None => b
  end.

(** [pkg/dbx/select.go:284-286] GroupBy *)
Definition GroupBy (groupBys : list string) b : B := change (λ d, sets_GroupBys (s_GroupBys d ++ groupBys) d) b.

(** [pkg/dbx/select.go:291-293] Having *)
Definition Having (pred : predicate V) (rest : list (any V)) b : B :=
  append_part s_HavingParts sets_HavingParts [newWherePart pred rest] b.

(** [pkg/dbx/select.go:296-298] OrderByClause *)
Definition OrderByClause (pred : any V) (args : list (any V)) b : B :=
  append_part s_OrderByParts sets_OrderByParts [newPart pred args] b.

(** [pkg/dbx/select.go:301-307] OrderBy *)
Definition OrderBy (orderBys : list string) b : B := fold_left (λ b orderBy, OrderByClause (Str orderBy) [] b) orderBys b.

(** [pkg/dbx/select.go:310-312] Limit *)
Definition Limit (limit : N) b : B := change (sets_Limit (pretty limit)) b.
(** [pkg/dbx/select.go:315-317] RemoveLimit *)
Definition RemoveLimit b : B := change (sets_Limit "") b.
(** [pkg/dbx/select.go:320-322] Offset *)
Definition Offset (offset : N) b : B := change (sets_Offset (pretty offset)) b.
(** [pkg/dbx/select.go:325-327] RemoveOffset *)
Definition RemoveOffset b : B := change (sets_Offset "") b.
End SelectBuilder.
End SelectBuilder.

(** The methods of GetBuilder that are not those of SelectBuilder. *)
Module GetBuilder.
Section GetBuilder.
Context {V B : Type} `{Builder B (selectData V)}.

(** [pkg/dbx/get.go:86-88] Column: the default columns stay *)
Definition Column (column : any V) (args : list (any V)) (b : B) : B :=
  SelectBuilder.append_part s_Columns sets_Columns [newPart column args] b.
End GetBuilder.
End GetBuilder.

Module InsertBuilder.
Section InsertBuilder.
Context {V B : Type} `{Builder B (insertData V)}.
Implicit Types b : B.

(** [pkg/dbx/insert.go:112-118] newInsertBuilder *)
Definition newInsertBuilder (table : string) : B := change (seti_Into table) EmptyBuilder.

(** [pkg/dbx/insert.go:129-131] Options *)
Definition Options (options : list string) b : B := change (λ d, seti_Options (i_Options d ++ options) d) b.
(** [pkg/dbx/insert.go:139-141] columns *)
Definition columns (cs : list string) b : B := change (λ d, seti_Columns (i_Columns d ++ cs) d) b.
(** [pkg/dbx/insert.go:154-156] SuffixExpr *)
Definition SuffixExpr (expr : Sqlizer V) b : B := change (λ d, seti_Suffixes (i_Suffixes d ++ [expr]) d) b.
(** [pkg/dbx/insert.go:149-151] Suffix *)
Definition Suffix (sql : string) (args : list (any V)) b : B := SuffixExpr (Expr sql args) b.
(** [pkg/dbx/insert.go:158-160] statementKeyword *)
Definition statementKeyword (keyword : string) b : B := change (seti_StatementKeyword keyword) b.
End InsertBuilder.
End InsertBuilder.

Module UpdateBuilder.
Section UpdateBuilder.
Context {V B : Type} `{Builder B (updateData V)}.
Implicit Types b : B.

(** [pkg/dbx/update.go:123-130] newUpdateBuilder *)
Definition newUpdateBuilder (table : string) (f : PlaceholderFormat) : B :=
  change (setu_PlaceholderFormat f) (change (setu_Table table) EmptyBuilder).

(** [pkg/dbx/update.go:154-156] Set *)
Definition Set_ (column : string) (value : any V) b : B :=
  change (λ d, setu_SetClauses (u_SetClauses d ++ [{| column := column; value := value |}]) d) b.
(** [pkg/dbx/update.go:159-161] Options *)
Definition Options (options : list string) b : B := change (λ d, setu_Options (u_Options d ++ options) d) b.

(** [pkg/dbx/update.go:164-178] SetMap *)
Definition SetMap (clauses : gmap string (any V)) b : B :=
  fold_left (λ b key, Set_ key (default Nil (clauses !! key)) b) (getSortedKeys clauses) b.

(** [pkg/dbx/update.go:183-185] Where *)
Definition Where (pred : predicate V) (args : list (any V)) b : B :=
  match applyWhere pred args with
  | Some p => change (λ d, setu_WhereParts (u_WhereParts d ++ [p]) d) b
  | None => b
  end.
(** [pkg/dbx/update.go:188-190] OrderBy *)
Definition OrderBy (orderBys : list string) b : B := change (λ d, setu_OrderBys (u_OrderBys d ++ orderBys) d) b.
(** [pkg/dbx/update.go:193-195] Limit *)
Definition Limit (limit : N) b : B := change (setu_Limit (pretty limit)) b.
End UpdateBuilder.
End UpdateBuilder.

Module DeleteBuilder.
Section DeleteBuilder.
Context {V B : Type} `{Builder B (deleteData V)}.
Implicit Types b : B.

(** [pkg/dbx/delete.go:87-94] newDeleteBuilder *)
Definition newDeleteBuilder (table : string) (f : PlaceholderFormat) : B :=
  change (setd_PlaceholderFormat f) (change (setd_From table) EmptyBuilder).

(** [pkg/dbx/delete.go:116-118] Options *)
Definition Options (options : list string) b : B := change (λ d, setd_Options (d_Options d ++ options) d) b.
(** [pkg/dbx/delete.go:128-130] Where *)
Definition Where (pred : predicate V) (args : list (any V)) b : B :=
  match applyWhere pred args with
  | Some p => change (λ d, setd_WhereParts (d_WhereParts d ++ [p]) d) b
  | None => b
  end.
(** [pkg/dbx/delete.go:133-135] OrderBy *)
Definition OrderBy (orderBys : list string) b : B := change (λ d, setd_OrderBys (d_OrderBys d ++ orderBys) d) b.
(** [pkg/dbx/delete.go:138-140] Limit *)
Definition Limit (limit : N) b : B := change (setd_Limit (pretty limit)) b.
End DeleteBuilder.
End DeleteBuilder.

(** ** The client *)

(** [pkg/dbx/client.go:52-57] client, without the client of the database *)
Record client := { table : string; placeholderFormat : PlaceholderFormat; client_columns : list string }.

(** [pkg/dbx/client.go:78-97] NewClientWithInterfaces, of the columns that the db tags of the type name *)
Definition NewClientWithInterfaces (tags : list string) (table : string) (f : PlaceholderFormat) : result go_error client :=
  if bool_decide (length tags = 0) then Err (EMsg "no db tags found in struct")
  else Ok {| table := table; placeholderFormat := f; client_columns := tags |}.

(** An argument of Update: a map, a row as in [predicate], or anything else. *)
Inductive update_value (V : Type) :=
| UMap (m : gmap string (any V))
| URow (msi : result go_error (gmap string (any V)))
| UOther.
Arguments UMap {V} _.
Arguments URow {V} _.
Arguments UOther {V}.

Section Client.
Context {V : Type}.
Implicit Types c : client.

(** [pkg/dbx/client.go:127-129] a column in backticks *)
Definition escape (col : string) : string := "`" +:+ col +:+ "`".

(** [pkg/dbx/client.go:102-104] client.Delete *)
Definition Delete `{Builder B (deleteData V)} c : B := DeleteBuilder.newDeleteBuilder (table c) (placeholderFormat c).

(** [pkg/dbx/client.go:109-111] client.Insert, without the values *)
Definition Insert `{Builder B (insertData V)} c : B :=
  InsertBuilder.columns (client_columns c) (InsertBuilder.newInsertBuilder (table c)).

(** [pkg/dbx/client.go:116-121] client.Replace, without the values *)
Definition Replace `{Builder B (insertData V)} c : B := InsertBuilder.statementKeyword "REPLACE" (Insert c).

(** [pkg/dbx/client.go:126-132] client.Select, and client.Get *)
Definition Select `{Builder B (selectData V)} c : B :=
  SelectBuilder.columns (escape <$> client_columns c) (SelectBuilder.newSelectBuilder (table c) (placeholderFormat c)).

(** [pkg/dbx/client.go:141-158] the loop of client.Update over its arguments: the error, if any, and the map *)
Fixpoint update_values (o : map_order string (any V)) (vals : list (update_value V)) (err : option go_error) (finalMap : gmap string (any V)) :
    option go_error * gmap string (any V) :=
  match vals with
  | [] => (err, finalMap)
  | UMap val :: vals => update_values o vals err (MergeMaps o [finalMap; val])
  | URow (Ok msi) :: vals => update_values o vals err (MergeMaps o [finalMap; msi])
  | URow (Err e) :: vals => update_values o vals (Some (EWrap "unable to convert struct to map" e)) finalMap
  | UOther :: vals => update_values o vals (Some (EMsg "unsupported type for update values")) finalMap
  end.

(** [pkg/dbx/client.go:137-161] client.Update *)
Definition Update `{Builder B (updateData V)} (o : map_order string (any V)) (vals : list (update_value V)) c : B :=
  let ub := UpdateBuilder.newUpdateBuilder (table c) (placeholderFormat c) in
  let '(err, finalMap) := update_values o vals None ∅ in
  UpdateBuilder.SetMap finalMap (match err with Some e => change (setu_Error (Some e)) ub | None => ub end).
End Client.

(** ** Execution *)
Section Exec.
Context {V W T R : Type}.
(** The client of the database: it runs a query for rows, a statement, and a statement with
    the values of rows for its named placeholders. *)
Context (db_Select : string → list (any V) → W → W * result go_error (list T)).
Context (db_Exec : string → list (any V) → W → W * result go_error R).
Context (db_NamedExec : string → list T → W → W * result go_error R).

Definition wrapping {A} (msg : string) (r : W * result go_error A) : W * result go_error A :=
  match r with
  | (w, Err e) => (w, Err (EWrap msg e))
  | (w, Ok a) => (w, Ok a)
  end.

(** [pkg/dbx/select.go:38-53] selectData.Exec *)
Definition select_Exec (d : selectData V) (w : W) : W * result go_error (list T) :=
  match select_toSql d with
  | Err e => (w, Err (EWrap "unable to build select query" e))
  | Ok (sql, args) => wrapping "unable to execute select query" (db_Select sql args w)
  end.

(** [pkg/dbx/client.go:17-17] ErrNotFound *)
Definition ErrNotFound : go_error := EMsg "dbx: not found".

(** [pkg/dbx/get.go:16-40] getData.Exec *)
Definition get_Exec (d : selectData V) (w : W) : W * result go_error T :=
  match select_toSql (sets_Limit "2" d) with
  | Err e => (w, Err (EWrap "unable to build get query" e))
  | Ok (sql, args) =>
      match wrapping "unable to execute get query" (db_Select sql args w) with
      | (w, Err e) => (w, Err e)
      | (w, Ok []) => (w, Err ErrNotFound)
      | (w, Ok [x]) => (w, Ok x)
      | (w, Ok _) => (w, Err (EMsg "dbx: expected 1 result"))
      end
  end.

(** [pkg/dbx/insert.go:28-42] insertData.Exec, on the values of the builder *)
Definition insert_Exec (d : insertData V) (values : list T) (w : W) : W * result go_error R :=
  match insert_toSql d with
  | Err e => (w, Err (EWrap "unable to build insert query" e))
  | Ok sql => wrapping "unable to execute insert query" (db_NamedExec sql values w)
  end.

(** [pkg/dbx/update.go:33-52] updateData.Exec *)
Definition update_Exec (d : updateData V) (w : W) : W * result go_error R :=
  match u_Error d with
  | Some e => (w, Err (EWrap "unable to execute update query" e))
  | None =>
      match update_toSql d with
      | Err e => (w, Err (EWrap "unable to build update query" e))
      | Ok (sql, args) => wrapping "unable to execute update query" (db_Exec sql args w)
      end
  end.

(** [pkg/dbx/delete.go:25-40] deleteData.Exec *)
Definition delete_Exec (d : deleteData V) (w : W) : W * result go_error R :=
  match delete_toSql d with
  | Err e => (w, Err (EWrap "unable to build delete query" e))
  | Ok (sql, args) => wrapping "unable to execute delete query" (db_Exec sql args w)
  end.
End Exec.
