(* ===== verification/DbxLaws.v ===== *)
(** What the builders of [Dbx] build.  A text and its arguments are read as a sequence of
    characters and arguments: each argument is at the place of its placeholder.  The
    theorems say which sequence a statement is, in every format of the placeholders. *)
From Stdlib Require Import Ascii.
From stdpp Require Import pretty.
From S2P Require Import Prelude FunkMaps Dbx.

Open Scope string_scope.
Open Scope list_scope.
Open Scope nat_scope.

(** ** Texts with their arguments *)
Section Tokens.
Context {V : Type}.

Inductive token := Chr (c : ascii) | Arg (a : any V).

(** The characters and arguments of a text, if there are as many arguments as
    placeholders.  Two question marks are one that is no placeholder. *)
Fixpoint bind (s : string) (args : list (any V)) : option (list token) :=
  match s with
  | "" => match args with [] => Some [] | _ => None end
  | String c s1 =>
      if bool_decide (c = "?"%char) then
        match s1 with
        | "" => match args with [a] => Some [Arg a] | _ => None end
        | String c2 s2 =>
            if bool_decide (c2 = "?"%char) then (Chr "?"%char ::.) <$> bind s2 args
            else match args with
                 | a :: args => (Arg a ::.) <$> bind s1 args
                 | [] => None
                 end
        end
      else (Chr c ::.) <$> bind s1 args
  end.

Definition chars (s : string) : list token := Chr <$> String.list_ascii_of_string s.

Fixpoint args_of (ts : list token) : list (any V) :=
  match ts with
  | [] => []
  | Chr _ :: ts => args_of ts
  | Arg a :: ts => a :: args_of ts
  end.

Fixpoint join_tokens (sep : list token) (tss : list (list token)) : list token :=
  match tss with
  | [] => []
  | [ts] => ts
  | ts :: tss => ts ++ sep ++ join_tokens sep tss
  end.

(** The [i]-th placeholder of a format. *)
Definition placeholder (f : PlaceholderFormat) (i : nat) : string :=
  match f with
  | Question => "?"
  | Dollar => "$" +:+ pretty i
  | Colon => ":" +:+ pretty i
  | AtP => "@p" +:+ pretty i
  end.

(** The text of a sequence in a format; the first keeps two question marks for one. *)
Fixpoint render (f : PlaceholderFormat) (i : nat) (ts : list token) : string :=
  match ts with
  | [] => ""
  | Chr c :: ts =>
      (if bool_decide (f = Question) && bool_decide (c = "?"%char) then "??" else String c "") +:+ render f i ts
  | Arg _ :: ts => placeholder f (S i) +:+ render f (S i) ts
  end.

Definition starts_q (s : string) : bool := match s with String c _ => bool_decide (c = "?"%char) | "" => false end.

Fixpoint no_q (s : string) : bool :=
  match s with
  | "" => true
  | String c s => negb (bool_decide (c = "?"%char)) && no_q s
  end.

(** What a Sqlizer says; that its text does not start with a question mark; that it is not empty. *)
Definition says (r : Sqlizer V) (ts : list token) : Prop := ∃ sql args, r = Ok (sql, args) ∧ bind sql args = Some ts.
Definition says_clean (r : Sqlizer V) (ts : list token) : Prop :=
  ∃ sql args, r = Ok (sql, args) ∧ bind sql args = Some ts ∧ starts_q sql = false.
Definition says_part (r : Sqlizer V) (ts : list token) : Prop :=
  ∃ sql args, r = Ok (sql, args) ∧ bind sql args = Some ts ∧ sql ≠ "".
End Tokens.
Arguments token : clear implicits.

#[export] Hint Extern 1 (no_q _ = true) => done : dbx.

(** Induction on a text by its placeholders, doubled question marks and other characters. *)
Lemma text_ind (P : string → Prop) :
  P "" → (∀ c s, c ≠ "?"%char → P s → P (String c s)) →
  (∀ s, P s → P (String "?" (String "?" s))) →
  (∀ s, starts_q s = false → P s → P (String "?" s)) → ∀ s, P s.
Proof.
  intros H0 Hc Hesc Harg. assert (∀ s, P s ∧ ∀ c, P (String c s)) as H; [|intros s; apply H].
  assert (P (String "?" "")) as H1 by by apply Harg.
  induction s as [|c s [IH IH1]]; split; try done.
  - intros c. destruct (decide (c = "?"%char)) as [->|]; [done | by apply Hc].
  - intros c'. destruct (decide (c' = "?"%char)) as [->|]; [|by apply Hc].
    destruct (decide (c = "?"%char)) as [->|]; [by apply Hesc|]. apply Harg; [by apply bool_decide_false | done].
Qed.

Section TokenLemmas.
Context {V : Type}.
Implicit Types (s a b : string) (xs ys : list (any V)) (ts us : list (token V)) (r k : Sqlizer V).

Lemma app_empty s : s +:+ "" = s.
Proof. induction s as [|c s IH]; [done|]. change (String c (s +:+ "") = String c s). by rewrite IH. Qed.

Lemma app_assoc_str a b s : (a +:+ b) +:+ s = a +:+ (b +:+ s).
Proof. induction a as [|c a IH]; [done|]. change (String c ((a +:+ b) +:+ s) = String c (a +:+ (b +:+ s))). by rewrite IH. Qed.

Lemma bind_char c s xs : c ≠ "?"%char → bind (String c s) xs = (Chr c ::.) <$> bind s xs.
Proof. intros Hc. cbn [bind]. by rewrite bool_decide_false. Qed.

Lemma bind_escape s xs : bind (String "?" (String "?" s)) xs = (Chr "?"%char ::.) <$> bind s xs.
Proof. done. Qed.

Lemma bind_arg s x xs : starts_q s = false → bind (String "?" s) (x :: xs) = (Arg x ::.) <$> bind s xs.
Proof.
  intros Hs. destruct s as [|c s]; [by destruct xs|]. simpl in Hs.
  apply bool_decide_eq_false in Hs. cbn [bind]. by rewrite (bool_decide_false (c = _)).
Qed.

Lemma bind_arg_nil s : starts_q s = false → bind (String "?" s) [] = (None : option (list (token V))).
Proof. intros Hs. destruct s as [|c s]; [done|]. simpl in Hs. apply bool_decide_eq_false in Hs. cbn [bind]. by rewrite (bool_decide_false (c = _)). Qed.

Lemma starts_q_app a b : starts_q a = false → starts_q b = false → starts_q (a +:+ b) = false.
Proof. by destruct a. Qed.

End TokenLemmas.

(** The induction for a text that is bound. *)
Ltac bind_induction s :=
  induction s as [|c s Hc IH|s IH|s Hq IH] using text_ind;
  [ intros [|] *; [|done]; intros; simplify_eq/=
  | intros * H; rewrite bind_char // in H; apply fmap_Some in H as (? & ? & ->)
  | intros * H; rewrite bind_escape in H; apply fmap_Some in H as (? & ? & ->)
  | intros [|] * H; [by rewrite bind_arg_nil in H|]; rewrite bind_arg // in H; apply fmap_Some in H as (? & ? & ->) ].

Section BindLemmas.
Context {V : Type}.
Implicit Types (s a b : string) (xs ys : list (any V)) (ts us : list (token V)) (r k : Sqlizer V).

Lemma bind_app a b xs ys ts us :
  bind a xs = Some ts → bind b ys = Some us → starts_q b = false → bind (a +:+ b) (xs ++ ys) = Some (ts ++ us).
Proof.
  intros Ha Hb Hqb. revert xs ts Ha. bind_induction a; [done | | |].
  - change (bind (String c (a +:+ b)) (xs ++ ys) = Some (Chr c :: (x ++ us))). rewrite bind_char //. by erewrite IH.
  - change (bind (String "?" (String "?" (a +:+ b))) (xs ++ ys) = Some (Chr "?"%char :: (x ++ us))). rewrite bind_escape. by erewrite IH.
  - change (bind (String "?" (a +:+ b)) (a0 :: l ++ ys) = Some (Arg a0 :: (x ++ us))).
    rewrite bind_arg; [by apply starts_q_app|]. by erewrite IH.
Qed.

Lemma no_q_app a b : no_q (a +:+ b) = no_q a && no_q b.
Proof.
  induction a as [|c a IH]; [done|]. change (negb (bool_decide (c = "?"%char)) && no_q (a +:+ b) = no_q (String c a) && no_q b).
  rewrite IH. simpl. by rewrite andb_assoc.
Qed.

Lemma no_q_concat sep l : no_q sep = true → Forall (λ s, no_q s = true) l → no_q (String.concat sep l) = true.
Proof.
  intros Hsep. induction 1 as [|s [|s' l] Hs Hl IH]; [done | done |].
  change (no_q (s +:+ sep +:+ String.concat sep (s' :: l)) = true). by rewrite !no_q_app Hs Hsep IH.
Qed.

Lemma bind_text_app s b ys us : no_q s = true → bind b ys = Some us → bind (s +:+ b) ys = Some (chars s ++ us).
Proof.
  intros Hs Hb. induction s as [|c s IH]; [done|]. simpl in Hs. apply andb_prop in Hs as [Hc Hs].
  change (bind (String c (s +:+ b)) ys = Some (Chr c :: (chars s ++ us))). cbn [bind].
  case_bool_decide; [done|]. by rewrite IH.
Qed.

Lemma bind_text s : no_q s = true → bind s [] = Some (chars s : list (token V)).
Proof. intros Hs. rewrite -{1}(app_empty s) (bind_text_app s "" [] []) //. by rewrite app_nil_r. Qed.

Lemma chars_app a b : chars (a +:+ b) = chars a ++ chars b :> list (token V).
Proof.
  unfold chars. rewrite -fmap_app. f_equal. induction a as [|c a IH]; [done|].
  change (c :: String.list_ascii_of_string (a +:+ b) = c :: (String.list_ascii_of_string a ++ String.list_ascii_of_string b)).
  by rewrite IH.
Qed.

(** The arguments are those of the sequence, and the formats render it. *)
Lemma bind_args s xs ts : bind s xs = Some ts → xs = args_of ts.
Proof. revert xs ts. bind_induction s; simpl; [done | by apply IH | by apply IH | f_equal; by apply IH]. Qed.

Lemma replace_char prefix i c s :
  c ≠ "?"%char → replacePositionalPlaceholders prefix i (String c s) = String c (replacePositionalPlaceholders prefix i s).
Proof. intros Hc. cbn [replacePositionalPlaceholders]. by rewrite bool_decide_false. Qed.

Lemma replace_arg prefix i s :
  starts_q s = false →
  replacePositionalPlaceholders prefix i (String "?" s) = (prefix +:+ pretty (S i)) +:+ replacePositionalPlaceholders prefix (S i) s.
Proof.
  intros Hs. destruct s as [|c s]; [by rewrite /= app_empty|]. simpl in Hs. apply bool_decide_eq_false in Hs.
  cbn [replacePositionalPlaceholders]. by rewrite (bool_decide_false (c = _)).
Qed.

Lemma positional_render prefix f i s xs ts :
  f ≠ Question → (∀ n, placeholder f n = prefix +:+ pretty n) →
  bind s xs = Some ts → replacePositionalPlaceholders prefix i s = render f i ts.
Proof.
  intros Hf Hp. assert (bool_decide (f = Question) = false) as Hf' by by apply bool_decide_false.
  revert i xs ts. intros i xs. revert xs i. bind_induction s; cbn [render]; try (rewrite Hf'; cbn [andb]); [done | | |].
  - rewrite replace_char //=. f_equal. by eapply IH.
  - simpl. f_equal. by eapply IH.
  - rewrite replace_arg // Hp. f_equal. by eapply IH.
Qed.

Lemma question_render i s xs ts : bind s xs = Some ts → s = render Question i ts.
Proof.
  revert i xs ts. intros i xs. revert xs i. bind_induction s; cbn [render]; [done | | |].
  - rewrite (bool_decide_false (c = _)) //=. f_equal. by eapply IH.
  - simpl. change ("??" +:+ render Question i x) with (String "?" (String "?" (render Question i x))). do 2 f_equal. by eapply IH.
  - simpl. change ("?" +:+ ?y) with (String "?" y). f_equal. by eapply IH.
Qed.

Lemma ReplacePlaceholders_render f s xs ts : bind s xs = Some ts → ReplacePlaceholders f s = render f 0 ts ∧ xs = args_of ts.
Proof.
  intros Hs. split; [|by eapply bind_args].
  destruct f; simpl; [by eapply question_render | | |]; by eapply positional_render.
Qed.
End BindLemmas.

(** ** Parts *)
Section Parts.
Context {V : Type}.
Implicit Types (s sep keyword : string) (r k : Sqlizer V) (ts us : list (token V)) (parts : list (Sqlizer V)) (tss : list (list (token V))).

Lemma says_clean_says r ts : says_clean r ts → says r ts.
Proof. intros (s & xs & -> & Hs & _). by exists s, xs. Qed.

Lemma says_part_says r ts : says_part r ts → says r ts.
Proof. intros (s & xs & -> & Hs & _). by exists s, xs. Qed.

Lemma says_nothing : says_clean (Ok ("", [])) ([] : list (token V)).
Proof. by exists "", []. Qed.

Lemma andThen_says r k ts us : says r ts → says_clean k us → says (andThen r k) (ts ++ us).
Proof.
  intros (a & xs & -> & Ha) (b & ys & -> & Hb & Hq). exists (a +:+ b), (xs ++ ys). split; [done|]. by apply bind_app.
Qed.

Lemma andThen_clean r k ts us : says_clean r ts → says_clean k us → says_clean (andThen r k) (ts ++ us).
Proof.
  intros (a & xs & -> & Ha & Hqa) (b & ys & -> & Hb & Hq). exists (a +:+ b), (xs ++ ys).
  split_and!; [done | by apply bind_app | by apply starts_q_app].
Qed.

Lemma andThen_text s k us : no_q s = true → says k us → says (andThen (text s) k) (chars s ++ us).
Proof. intros Hs (b & ys & -> & Hb). exists (s +:+ b), ys. split; [done | by apply bind_text_app]. Qed.

Lemma starts_no_q s b : no_q s = true → s ≠ "" → starts_q (s +:+ b) = false.
Proof.
  destruct s as [|c s]; [done|]. intros Hs _. simpl in Hs. apply andb_prop in Hs as [Hc _]. simpl. by destruct (bool_decide _).
Qed.

Lemma prepend_clean s r ts : no_q s = true → s ≠ "" → says r ts → says_clean (prepend s [] r) (chars s ++ ts).
Proof.
  intros Hs Hne (b & ys & -> & Hb). exists (s +:+ b), ys.
  split_and!; [done | by apply bind_text_app | by apply starts_no_q].
Qed.

Lemma text_clean s : no_q s = true → says_clean (text s) (chars s : list (token V)).
Proof.
  intros Hs. exists s, []. split_and!; [done | by apply bind_text |]. destruct s; [done|].
  rewrite -(app_empty (String _ _)). by apply starts_no_q.
Qed.

Lemma text_says s : no_q s = true → says (text s) (chars s : list (token V)).
Proof. intros Hs. by apply says_clean_says, text_clean. Qed.

(** The tokens of a clause, of the options and of a limit. *)
Definition clause_tokens {A} (l : list A) keyword ts : list (token V) :=
  match l with
  | [] => []
  | _ => chars keyword ++ ts
  end.

Lemma clause_says {A} (l : list A) keyword r ts :
  no_q keyword = true → keyword ≠ "" → says r ts → says_clean (clause l keyword r) (clause_tokens l keyword ts).
Proof. intros Hk Hne Hr. destruct l; [apply says_nothing | by apply prepend_clean]. Qed.

Definition options_tokens (l : list string) : list (token V) :=
  match l with
  | [] => []
  | _ => chars (String.concat " " l +:+ " ")
  end.

Lemma andThen_options l k us : Forall (λ s, no_q s = true) l → says k us → says (andThen (options l) k) (options_tokens l ++ us).
Proof.
  intros Hl Hk. destruct l as [|s l].
  - destruct Hk as (b & ys & -> & Hb). by exists b, ys.
  - apply andThen_text; [|done]. by rewrite no_q_app no_q_concat.
Qed.

Definition bound_tokens keyword (limit : string) : list (token V) :=
  if bool_decide (limit = "") then [] else chars (keyword +:+ limit).

Lemma bound_says keyword limit : no_q keyword = true → no_q limit = true → says_clean (bound keyword limit) (bound_tokens keyword limit).
Proof.
  intros Hk Hl. unfold bound, bound_tokens. case_bool_decide; [apply says_nothing|]. apply text_clean. by rewrite no_q_app Hk Hl.
Qed.

(** The tokens of parts after the first. *)
Lemma join_tokens_cons (glue : list (token V)) ts tss : join_tokens glue (ts :: tss) = ts ++ mjoin ((λ us, glue ++ us) <$> tss).
Proof. revert ts. induction tss as [|us tss IH]; intros ts; simpl; [by rewrite app_nil_r|]. by rewrite -app_assoc -IH. Qed.

Lemma appendToSql_later i parts tss sep :
  no_q sep = true → sep ≠ "" → Forall2 says_part parts tss →
  says_clean (appendToSql (S i) parts sep) (mjoin ((λ us, chars sep ++ us) <$> tss)).
Proof.
  intros Hs Hne Hparts. revert i. induction Hparts as [|p ts parts tss (a & xs & -> & Ha & Hane) _ IH]; intros i; [apply says_nothing|].
  cbn [appendToSql]. simpl. rewrite bool_decide_false //. destruct (IH (S i)) as (b & ys & Hb & Hbind & Hq). rewrite Hb.
  exists ((sep +:+ a) +:+ b), (xs ++ ys). split_and!; [done | |by rewrite app_assoc_str; apply starts_no_q].
  rewrite app_assoc_str -app_assoc. apply bind_text_app; [done|]. by apply bind_app.
Qed.

Lemma appendToSql_says parts tss sep :
  no_q sep = true → sep ≠ "" → Forall2 says_part parts tss → says (appendToSql 0 parts sep) (join_tokens (chars sep) tss).
Proof.
  intros Hs Hne Hparts. destruct Hparts as [|p ts parts tss (a & xs & -> & Ha & Hane) Hparts]; [by exists "", []|].
  rewrite join_tokens_cons. cbn [appendToSql nestedToSql res_bind fst snd]. rewrite bool_decide_false //.
  destruct (appendToSql_later 0 parts tss sep) as (b & ys & Hb & Hbind & Hq); [done..|]. rewrite Hb.
  exists (a +:+ b), (xs ++ ys). split; [done | by apply bind_app].
Qed.

Lemma from_says p ts : says_part p ts → says (appendToSql 0 [p] "") ts.
Proof.
  intros (a & xs & -> & Ha & Hane). exists a, xs. cbn [appendToSql]. simpl. rewrite bool_decide_false //=.
  by rewrite app_empty app_nil_r.
Qed.

Lemma with_format_says f r ts : says r ts → with_format f r = Ok (render f 0 ts, args_of ts).
Proof. intros (a & xs & -> & Ha). destruct (ReplacePlaceholders_render f a xs ts Ha) as [Hr ->]. unfold with_format. simpl. by rewrite Hr. Qed.

(** A part that fails makes the parts fail. *)
Lemma appendToSql_Err i parts sep e : Err e ∈ parts → ∃ e', Err e' ∈ parts ∧ appendToSql i parts sep = Err e'.
Proof.
  revert i. induction parts as [|p parts IH]; intros i Hin; [by apply not_elem_of_nil in Hin|].
  cbn [appendToSql nestedToSql]. destruct p as [[a xs]|e']; simpl.
  - apply elem_of_cons in Hin as [Hin|Hin]; [done|]. destruct (IH (S i) Hin) as (e' & He' & ->).
    exists e'. split; [by right|]. by case_bool_decide.
  - exists e'. split; [by left | done].
Qed.
End Parts.

(** ** Conditions *)
Section Conditions.
Context {V : Type}.
Implicit Types (r : Sqlizer V) (ts us : list (token V)) (val : any V) (m : gmap string (any V)).

(** Text, argument and text. *)
Definition one (a : any V) : list (token V) := [Arg a].

Lemma bind_one s val : no_q s = true → bind (s +:+ "?") [val] = Some (chars s ++ one val).
Proof. intros Hs. by apply bind_text_app. Qed.

(** One condition of Eq: the text between the key and the value, and a list of values. *)
Definition eq_tokens (useNotOpr : bool) (key : string) (val : any V) : list (token V) :=
  match val with
  | Nil => chars (key +:+ " " +:+ (if useNotOpr then "IS NOT" else "IS") +:+ " NULL")
  | List [] => chars (if useNotOpr then sqlTrue else sqlFalse)
  | List l => chars (key +:+ " " +:+ (if useNotOpr then "NOT IN" else "IN") +:+ " (") ++ join_tokens (chars ",") (one <$> l) ++ chars ")"
  | _ => chars (key +:+ " " +:+ (if useNotOpr then "<>" else "=") +:+ " ") ++ one val
  end.

Fixpoint marks (n : nat) : string := match n with 0 => "" | S n => ",?" +:+ marks n end.

Lemma concat_marks n : String.concat "" (replicate n ",?") = marks n.
Proof. induction n as [|[|n] IH]; [done | done|]. change (",?" +:+ String.concat "" (replicate (S n) ",?") = ",?" +:+ marks (S n)). by rewrite IH. Qed.

Lemma substring_all s : String.substring 0 (String.length s) s = s.
Proof. induction s as [|c s IH]; [done|]. simpl. by rewrite IH. Qed.

Lemma substring_more n s : String.length s ≤ n → String.substring 0 n s = s.
Proof. revert n. induction s as [|c s IH]; intros [|n] Hn; simpl in *; try done; [lia|]. rewrite IH //. lia. Qed.

Lemma Placeholders_marks n : Placeholders (S n) = "?" +:+ marks n.
Proof.
  unfold Placeholders. rewrite bool_decide_false; [lia|]. rewrite concat_marks.
  change (String.substring 0 (String.length (marks (S n))) ("?" +:+ marks n) = "?" +:+ marks n).
  apply substring_more. simpl. lia.
Qed.

Lemma bind_marks l : bind (marks (length l)) l = Some (mjoin ((λ us, chars "," ++ us) <$> (one <$> l)) : list (token V)).
Proof.
  induction l as [|x l IH]; [done|]. change (bind ("," +:+ ("?" +:+ marks (length l))) (x :: l) = Some (chars "," ++ (Arg x :: mjoin ((λ us, chars "," ++ us) <$> (one <$> l))))).
  apply bind_text_app; [done|]. rewrite (bind_arg (marks (length l))); [by destruct (length l)|]. by rewrite IH.
Qed.

Lemma bind_Placeholders l : l ≠ [] → bind (Placeholders (length l)) l = Some (join_tokens (chars ",") (one <$> l) : list (token V)).
Proof.
  destruct l as [|x l]; [done|]. intros _. rewrite [length (x :: l)]/= Placeholders_marks fmap_cons join_tokens_cons.
  change (bind (String "?" (marks (length l))) (x :: l) = Some (Arg x :: mjoin ((λ us, chars "," ++ us) <$> (one <$> l)))).
  rewrite bind_arg; [by destruct (length l)|]. by rewrite bind_marks.
Qed.

Lemma eq_expr_binds useNotOpr key val :
  no_q key = true →
  bind (eq_expr useNotOpr key val).1 (eq_expr useNotOpr key val).2 = Some (eq_tokens useNotOpr key val) ∧
  starts_q (eq_expr useNotOpr key val).1 = false ∧ (eq_expr useNotOpr key val).1 ≠ "".
Proof.
  intros Hk. assert (∀ s, no_q s = true → no_q (key +:+ String " " s) = true) as Hnq.
  { intros s Hs. by rewrite no_q_app Hk. }
  assert (∀ s, starts_q (key +:+ String " " s) = false ∧ key +:+ String " " s ≠ "") as Hst.
  { intros s. destruct key as [|c key]; [done|]. split; [|done]. simpl in *. by destruct (bool_decide _). }
  assert (∀ opr val, no_q opr = true → bind (key +:+ " " +:+ opr +:+ " ?") [val] = Some (chars (key +:+ " " +:+ opr +:+ " ") ++ one val)) as Hone.
  { intros opr v Ho. rewrite -bind_one; [apply (Hnq (opr +:+ " ")); by rewrite no_q_app Ho|]. f_equal.
    by rewrite !app_assoc_str. }
  destruct val as [| | | |[|x l]| |]; unfold eq_expr, eq_tokens; cbn [fst snd];
    try (split; [apply Hone; by destruct useNotOpr | apply Hst]).
  - split; [|apply Hst]. apply bind_text, Hnq. by destruct useNotOpr.
  - by destruct useNotOpr.
  - split; [|apply Hst].
    replace (key +:+ " " +:+ (if useNotOpr then "NOT IN" else "IN") +:+ " (" +:+ Placeholders (length (x :: l)) +:+ ")")
      with ((key +:+ " " +:+ (if useNotOpr then "NOT IN" else "IN") +:+ " (") +:+ (Placeholders (length (x :: l)) +:+ ")"))
      by by rewrite !app_assoc_str.
    apply bind_text_app; [apply Hnq; by destruct useNotOpr|].
    rewrite -{2}(app_nil_r (x :: l)). apply bind_app; [by apply bind_Placeholders | done | done].
Qed.

(** Conditions that are collected from a list of keys. *)
Lemma collect_says {K} (f : K → Sqlizer V) ks tss glue :
  no_q glue = true → glue ≠ "" → Forall2 (λ k ts, says (f k) ts) ks tss →
  ∃ x, collect f ks = Ok x ∧ length x.1 = length ks ∧ says (Ok (String.concat glue x.1, x.2)) (join_tokens (chars glue) tss).
Proof.
  intros Hg Hne. induction 1 as [|k ts ks tss (a & xs & Hf & Ha) Hks (x & Hx & Hlen & (b & ys & Hb & Hbind))].
  { exists ([], []). split_and!; [done..|]. by exists "", []. }
  exists (a :: x.1, xs ++ x.2). simpl. rewrite Hf Hx. split_and!; [done | by rewrite -Hlen |]. injection Hb as <- <-.
  eexists _, _. split; [done|]. destruct x as [l zs]. destruct Hks as [|k' ts' ks tss Hk' Hks]; simpl in *.
  - destruct l; [|done]. simpl in *. destruct zs; [|done]. by rewrite app_nil_r.
  - destruct l as [|s l]; [done|]. change (bind (a +:+ (glue +:+ String.concat glue (s :: l))) (xs ++ zs) = Some (ts ++ chars glue ++ join_tokens (chars glue) (ts' :: tss))).
    apply bind_app; [done | by apply bind_text_app | by apply starts_no_q].
Qed.

Lemma concat_nonempty glue s l : s ≠ "" → String.concat glue (s :: l) ≠ "".
Proof. intros Hs. destruct s as [|c s]; [done|]. by destruct l. Qed.

Lemma collect_part {K} (f : K → Sqlizer V) ks tss glue :
  no_q glue = true → glue ≠ "" → ks ≠ [] → Forall2 (λ k ts, says_part (f k) ts) ks tss →
  says_part (let! x := collect f ks in Ok (String.concat glue x.1, x.2)) (join_tokens (chars glue) tss).
Proof.
  intros Hg Hne Hks HF. destruct (collect_says f ks tss glue) as (x & Hx & Hlen & (b & ys & Hb & Hbind)); [done..| |].
  { eapply Forall2_impl; [done|]. intros. by apply says_part_says. }
  rewrite Hx. simpl. injection Hb as <- <-. exists (String.concat glue x.1), x.2. split_and!; [done..|].
  destruct HF as [|k ts ks tss (a & xs & Hf & Ha & Hane) HF]; [done|]. simpl in Hx. rewrite Hf in Hx. simpl in Hx.
  destruct (collect f ks) as [x'|]; [|done]. injection Hx as <-. by apply concat_nonempty.
Qed.

(** The value of a driver.Valuer. *)
Definition value_of val : any V := match val with Valuer (Ok v) => v | _ => val end.

Definition has_value val : bool := match val with Valuer (Err _) => false | _ => true end.

Lemma valuer_Ok val : has_value val = true → valuer val = Ok (value_of val).
Proof. by destruct val as [| | | | |[|]|]. Qed.

Definition condition_values m : list (string * any V) := (λ key, (key, value_of (default Nil (m !! key)))) <$> getSortedKeys m.

Lemma elem_of_getSortedKeys {A} (m : gmap string A) key : key ∈ getSortedKeys m ↔ is_Some (m !! key).
Proof.
  unfold getSortedKeys. rewrite merge_sort_Permutation list_elem_of_fmap. split.
  - intros [[k v] [-> H]]. apply elem_of_map_to_list in H. by exists v.
  - intros [v Hv]. exists (key, v). split; [done|]. by apply elem_of_map_to_list.
Qed.

Lemma getSortedKeys_nonempty {A} (m : gmap string A) : m ≠ ∅ → getSortedKeys m ≠ [].
Proof.
  intros Hm Hk. apply map_choose in Hm as (k & v & Hv).
  assert (k ∈ getSortedKeys m) as H by by apply elem_of_getSortedKeys. rewrite Hk in H. by apply not_elem_of_nil in H.
Qed.

(** A map whose keys are texts without placeholders and whose values can be read. *)
Definition readable m : Prop := ∀ key val, m !! key = Some val → no_q key = true ∧ has_value val = true.

Definition eq_condition (useNotOpr : bool) m : list (token V) :=
  if bool_decide (size m = 0) then chars sqlTrue
  else join_tokens (chars " AND ") ((λ kv, eq_tokens useNotOpr kv.1 (deref kv.2)) <$> condition_values m).

Lemma Eq_says useNotOpr m : readable m → says_part (Eq_toSQL useNotOpr m) (eq_condition useNotOpr m).
Proof.
  intros Hm. unfold Eq_toSQL, eq_condition. case_bool_decide as Hs; [by exists sqlTrue, []|].
  apply collect_part; [done..| |].
  { apply getSortedKeys_nonempty. intros ->. by apply Hs. }
  unfold condition_values. rewrite -list_fmap_compose. apply Forall2_fmap_r, Forall_Forall2_diag, Forall_forall.
  intros key [val Hval]%elem_of_getSortedKeys. simpl. rewrite Hval. simpl. destruct (Hm _ _ Hval) as [Hk Hv]. rewrite valuer_Ok //=.
  destruct (eq_expr_binds useNotOpr key (deref (value_of val)) Hk) as (Hb & _ & Hne).
  destruct (eq_expr useNotOpr key (deref (value_of val))) as [s xs]. by exists s, xs.
Qed.

(** A value that LIKE and the order of values accept. *)
Definition scalar val : bool := match val with Nil => false | _ => negb (isListType val) end.

Definition compare_tokens (opr key : string) val : list (token V) := chars (key +:+ " " +:+ opr +:+ " ") ++ one val.

Lemma compare_says (opr key : string) val :
  no_q key = true → no_q opr = true → says_part (Ok (key +:+ " " +:+ opr +:+ " ?", [val])) (compare_tokens opr key val).
Proof.
  intros Hk Ho. eexists _, _. split_and!; [done | |by destruct key].
  unfold compare_tokens. rewrite -bind_one; [by rewrite !no_q_app Hk Ho|]. f_equal. by rewrite !app_assoc_str.
Qed.

Lemma lt_expr_Ok (opr key : string) val : scalar val = true → lt_expr opr key val = Ok (key +:+ " " +:+ opr +:+ " ?", [val]).
Proof. by destruct val. Qed.

Lemma like_expr_Ok (opr key : string) val : scalar val = true → like_expr opr key val = Ok (key +:+ " " +:+ opr +:+ " ?", [val]).
Proof. by destruct val. Qed.

Lemma Lt_says opposite orEq m :
  m ≠ ∅ → readable m → (∀ key val, m !! key = Some val → scalar (value_of val) = true) →
  says_part (Lt_toSql opposite orEq m)
    (join_tokens (chars " AND ")
       ((λ kv, compare_tokens ((if opposite then ">" else "<") +:+ (if orEq then "=" else "")) kv.1 kv.2) <$> condition_values m)).
Proof.
  intros Hne Hm Hsc. apply collect_part; [done..|by apply getSortedKeys_nonempty|].
  unfold condition_values. rewrite -list_fmap_compose. apply Forall2_fmap_r, Forall_Forall2_diag, Forall_forall.
  intros key [val Hval]%elem_of_getSortedKeys. simpl. rewrite Hval. simpl. destruct (Hm _ _ Hval) as [Hk Hv]. rewrite valuer_Ok //=.
  rewrite lt_expr_Ok; [by eapply Hsc|]. apply compare_says; [done|]. by destruct opposite, orEq.
Qed.

Lemma Like_says o (opr : string) m :
  m ≠ ∅ → no_q opr = true → readable m → (∀ key val, m !! key = Some val → scalar (value_of val) = true) →
  says_part (Like_toSql o opr m)
    (join_tokens (chars " AND ") ((λ kv, compare_tokens opr kv.1 (value_of kv.2)) <$> enum o m)).
Proof.
  intros Hne Ho Hm Hsc. apply collect_part; [done..| |].
  { intros He. apply map_choose in Hne as (k & v & Hv). apply (elem_of_enum o) in Hv. rewrite He in Hv. by apply not_elem_of_nil in Hv. }
  apply Forall2_fmap_r, Forall_Forall2_diag, Forall_forall. intros [key val] Hval%elem_of_enum. simpl.
  destruct (Hm _ _ Hval) as [Hk Hv]. rewrite valuer_Ok //=. rewrite like_expr_Ok; [by eapply Hsc|]. by apply compare_says.
Qed.

Lemma conj_parts_collect (c : list (Sqlizer V)) tss : Forall2 says_part c tss → conj_parts c = collect id c.
Proof.
  induction 1 as [|r ts c tss (a & xs & -> & Ha & Hne) Hc IH]; [done|]. simpl. rewrite IH. unfold nestedToSql. simpl.
  destruct (collect id c) as [x|]; [|done]. simpl. by rewrite bool_decide_false.
Qed.

(** The conjunction and the disjunction of conditions that are not empty are in parentheses. *)
Lemma conj_says sep defaultExpr (c : list (Sqlizer V)) tss :
  no_q sep = true → sep ≠ "" → c ≠ [] → Forall2 says_part c tss →
  says_part (conj_join sep defaultExpr c) (chars "(" ++ join_tokens (chars sep) tss ++ chars ")").
Proof.
  intros Hs Hne Hc HF. unfold conj_join. destruct c as [|r c]; [done|]. rewrite (conj_parts_collect _ tss) //.
  destruct (collect_says id (r :: c) tss sep) as (x & Hx & Hlen & (b & ys & Hb & Hbind)); [done..| |].
  { eapply Forall2_impl; [done|]. intros. by apply says_part_says. }
  rewrite Hx. injection Hb as <- <-. cbn [res_bind]. rewrite bool_decide_true; [rewrite Hlen; simpl; lia|].
  eexists _, _. split_and!; [done| |done]. apply (bind_text_app "("); [done|].
  rewrite -(app_nil_r x.2). by apply bind_app.
Qed.

(** What an argument of an expression becomes: a Sqlizer takes the place of its placeholder. *)
Definition expand (t : token V) : list (token V) :=
  match t with
  | Arg (Sqlz (Ok (s, xs))) => default [] (bind s xs)
  | _ => [t]
  end.

Definition says_all (args : list (any V)) : Prop := ∀ r, Sqlz r ∈ args → ∃ ts, says r ts.

Lemma expand_plain ts : existsb is_sqlizer (args_of ts) = false → mjoin (expand <$> ts) = ts.
Proof.
  induction ts as [|[c|a] ts IH]; [done | |]; simpl; intros H; [by rewrite IH|].
  apply orb_false_elim in H as [Ha H]. rewrite IH //. by destruct a.
Qed.

Lemma expr_loop_nil sp : expr_loop sp [] = Ok (sp, []) :> Sqlizer V.
Proof. by destruct sp. Qed.

Lemma expr_loop_char c s ap : c ≠ "?"%char → expr_loop (String c s) ap = prepend (String c "") [] (expr_loop s ap) :> Sqlizer V.
Proof. intros Hc. destruct ap as [|a ap]; [by rewrite !expr_loop_nil|]. cbn [expr_loop]. by rewrite bool_decide_false. Qed.

Lemma expr_loop_escape s ap : expr_loop (String "?" (String "?" s)) ap = prepend "??" [] (expr_loop s ap) :> Sqlizer V.
Proof. destruct ap as [|a ap]; [by rewrite !expr_loop_nil | done]. Qed.

Lemma expr_loop_arg s a ap :
  starts_q s = false →
  expr_loop (String "?" s) (a :: ap) =
  match a with Sqlz r => let! x := r in prepend x.1 x.2 (expr_loop s ap) | _ => prepend "?" [a] (expr_loop s ap) end :> Sqlizer V.
Proof.
  intros Hs. destruct s as [|c s]; [by destruct ap|]. simpl in Hs. apply bool_decide_eq_false in Hs.
  cbn [expr_loop]. by rewrite (bool_decide_false (c = _)).
Qed.

Lemma expr_loop_says sp ap ts :
  bind sp ap = Some ts → says_all ap →
  ∃ s xs, expr_loop sp ap = Ok (s, xs) ∧ bind s xs = Some (mjoin (expand <$> ts)) ∧ (starts_q sp = false → starts_q s = false).
Proof.
  revert ap ts. bind_induction sp.
  - exists "", []. done.
  - intros Hall. edestruct IH as (b & ys & Hb & Hbind & _); [done..|]. rewrite expr_loop_char // Hb.
    exists (String c b), ys. split_and!; [done| |done]. by rewrite bind_char // Hbind.
  - intros Hall. edestruct IH as (b & ys & Hb & Hbind & _); [done..|]. rewrite expr_loop_escape Hb.
    exists ("??" +:+ b), ys. split_and!; [done| |done].
    change (bind (String "?" (String "?" b)) ys = Some (Chr "?"%char :: mjoin (expand <$> x))). by rewrite bind_escape Hbind.
  - intros Hall. edestruct IH as (b & ys & Hb & Hbind & Hqb); [done| |].
    { intros r Hr. apply Hall. by right. }
    rewrite expr_loop_arg // Hb. specialize (Hqb Hq).
    assert (∀ a, expand (Arg a) = [Arg a] → ∃ s xs, prepend "?" [a] (Ok (b, ys)) = Ok (s, xs) ∧
      bind s xs = Some (mjoin (expand <$> (Arg a :: x))) ∧ (starts_q (String "?" sp) = false → starts_q s = false)) as Hplain.
    { intros y Hy. exists (String "?" b), (y :: ys). split_and!; [done| |done].
      rewrite bind_arg // Hbind. change (mjoin (expand <$> (Arg y :: x))) with (expand (Arg y) ++ mjoin (expand <$> x)). by rewrite Hy. }
    destruct a as [| | | | | |[[a xs]|e]]; try (apply Hplain; reflexivity).
    + destruct (Hall (Ok (a, xs))) as (us & ? & ? & Heq & Hus); [by left|]. injection Heq as <- <-.
      exists (a +:+ b), (xs ++ ys). split_and!; [done| |done]. simpl. rewrite Hus /=. by apply bind_app.
    + destruct (Hall (Err e)) as (us & ? & ? & Heq & Hus); [by left | done].
Qed.

(** An expression says its text with each argument in its place, a Sqlizer by what it says. *)
Lemma Expr_says sql args ts : bind sql args = Some ts → says_all args → says (Expr sql args) (mjoin (expand <$> ts)).
Proof.
  intros Hb Hall. unfold Expr. destruct (existsb is_sqlizer args) eqn:He.
  - destruct (expr_loop_says sql args ts Hb Hall) as (s & xs & -> & Hbind & _). by exists s, xs.
  - rewrite expand_plain; [by rewrite -(bind_args _ _ _ Hb)|]. by exists sql, args.
Qed.
End Conditions.

(** ** Statements *)
Section Statements.
Context {V : Type}.
Implicit Types (d : selectData V) (ts us : list (token V)).

(** What the parts of a query say. *)
Record select_parts := {
  p_columns : list (list (token V));
  p_from : option (list (token V));
  p_joins : list (list (token V));
  p_wheres : list (list (token V));
  p_havings : list (list (token V));
  p_orders : list (list (token V))
}.

Record select_says d (p : select_parts) : Prop := {
  columns_say : Forall2 says_part (s_Columns d) (p_columns p);
  from_say : option_Forall2 says_part (s_From d) (p_from p);
  joins_say : Forall2 says_part (s_Joins d) (p_joins p);
  wheres_say : Forall2 says_part (s_WhereParts d) (p_wheres p);
  havings_say : Forall2 says_part (s_HavingParts d) (p_havings p);
  orders_say : Forall2 says_part (s_OrderByParts d) (p_orders p)
}.

(** The texts that take no arguments have no placeholders. *)
Definition select_plain d : bool :=
  forallb no_q (s_Options d) && forallb no_q (s_GroupBys d) && no_q (s_Limit d) && no_q (s_Offset d).

(** The query with its arguments: the clauses in the order of SQL. *)
Definition select_tokens d (p : select_parts) : list (token V) :=
  chars "SELECT " ++ options_tokens (s_Options d) ++ join_tokens (chars ", ") (p_columns p) ++
  match p_from p with Some ts => chars " FROM " ++ ts | None => [] end ++
  clause_tokens (s_Joins d) " " (join_tokens (chars " ") (p_joins p)) ++
  clause_tokens (s_WhereParts d) " WHERE " (join_tokens (chars " AND ") (p_wheres p)) ++
  clause_tokens (s_GroupBys d) " GROUP BY " (chars (String.concat ", " (s_GroupBys d))) ++
  clause_tokens (s_HavingParts d) " HAVING " (join_tokens (chars " AND ") (p_havings p)) ++
  clause_tokens (s_OrderByParts d) " ORDER BY " (join_tokens (chars ", ") (p_orders p)) ++
  bound_tokens " LIMIT " (s_Limit d) ++
  bound_tokens " OFFSET " (s_Offset d).

Lemma forallb_Forall (l : list string) : forallb no_q l = true → Forall (λ s, no_q s = true) l.
Proof. intros H. apply Forall_forall. intros s Hs. rewrite forallb_forall in H. apply H. by apply list_elem_of_In. Qed.

Lemma texts_clause_says (l : list string) keyword glue :
  no_q keyword = true → keyword ≠ "" → no_q glue = true → forallb no_q l = true →
  says_clean (clause l keyword (text (String.concat glue l))) (clause_tokens l keyword (chars (String.concat glue l)) : list (token V)).
Proof. intros. apply clause_says; [done..|]. by apply text_says, no_q_concat, forallb_Forall. Qed.

Lemma parts_clause_says (parts : list (Sqlizer V)) tss keyword glue :
  no_q keyword = true → keyword ≠ "" → no_q glue = true → glue ≠ "" → Forall2 says_part parts tss →
  says_clean (clause parts keyword (appendToSql 0 parts glue)) (clause_tokens parts keyword (join_tokens (chars glue) tss)).
Proof. intros. apply clause_says; [done..|]. by apply appendToSql_says. Qed.

Lemma toSqlRaw_says d p : s_Columns d ≠ [] → select_plain d = true → select_says d p → says (toSqlRaw d) (select_tokens d p).
Proof.
  intros Hc Hp [Hcol Hfrom Hj Hw Hh Ho]. unfold select_plain in Hp. rewrite !andb_true_iff in Hp. destruct Hp as [[[Hopt Hg] Hl] Hoff].
  unfold toSqlRaw. rewrite bool_decide_false; [by destruct (s_Columns d)|].
  apply andThen_text; [done|]. apply andThen_options; [by apply forallb_Forall|]. apply andThen_says; [by apply appendToSql_says|].
  apply andThen_clean. { destruct Hfrom as [from ts Hf|]; [by apply prepend_clean, from_says | apply says_nothing]. }
  repeat (apply andThen_clean; [first [by apply parts_clause_says | by apply texts_clause_says | by apply bound_says]|]).
  by apply bound_says.
Qed.

(** C29: toSql of a query gives the text of its clauses, in the order of SQL and with the placeholders numbered in the
    client's format, and the arguments of all clauses in the order of their placeholders.  This is for a query with
    columns, each part of which (columns, FROM, joins, conditions, orders) has a text that is not empty and as many
    arguments as placeholders, and whose options, groups, limit and offset have no placeholders.  The texts of the
    conditions are joined by AND as they are, without parentheses. *)
Theorem select_binds_arguments d p :
  s_Columns d ≠ [] → select_plain d = true → select_says d p →
  select_toSql d = Ok (render (s_PlaceholderFormat d) 0 (select_tokens d p), args_of (select_tokens d p)).
Proof. intros Hc Hp Hs. by apply with_format_says, toSqlRaw_says. Qed.

(** [getData] is a query for at most two rows. *)
Lemma get_binds_arguments d p :
  s_Columns d ≠ [] → select_plain d = true → select_says d p →
  select_toSql (sets_Limit "2" d) =
  Ok (render (s_PlaceholderFormat d) 0 (select_tokens (sets_Limit "2" d) p), args_of (select_tokens (sets_Limit "2" d) p)).
Proof.
  intros Hc Hp [Hcol Hfrom Hj Hw Hh Ho]. unfold select_plain in Hp. rewrite !andb_true_iff in Hp. destruct Hp as [[[Hopt Hg] Hl] Hoff].
  assert (s_PlaceholderFormat (sets_Limit "2" d) = s_PlaceholderFormat d) as <- by by destruct d.
  apply with_format_says, toSqlRaw_says; destruct d; [done| |by split].
  unfold select_plain. simpl in *. by rewrite Hopt Hg Hoff.
Qed.

(** The update's set clauses: a column and a value, or what a Sqlizer says. *)
Definition set_tokens (c : setClause V) : list (token V) :=
  chars (column c +:+ " = ") ++
  match value c with
  | Sqlz (Ok (s, xs)) => default [] (bind s xs)
  | v => one v
  end.

Definition set_says (c : setClause V) : Prop :=
  no_q (column c) = true ∧ match value c with Sqlz r => ∃ ts, says r ts | _ => True end.

Lemma set_expr_says c : set_says c → says (set_expr c) (set_tokens c).
Proof.
  destruct c as [col val]. unfold set_says, set_tokens, set_expr. simpl. intros [Hc Hv].
  assert (no_q (col +:+ " = ") = true) as Hn by by rewrite no_q_app Hc.
  assert (∀ v : any V, says (Ok (col +:+ " = " +:+ "?", [v])) (chars (col +:+ " = ") ++ one v)) as Hone.
  { intros v. eexists _, _. split; [done|]. rewrite -bind_one //. f_equal. by rewrite app_assoc_str. }
  destruct val as [| | | | | |[[s xs]|e]]; try apply Hone.
  - destruct Hv as (ts & ? & ? & Heq & Hts). injection Heq as <- <-. simpl. eexists _, _. split; [done|].
    rewrite Hts /= -app_assoc_str. by apply bind_text_app.
  - by destruct Hv as (ts & ? & ? & Heq & Hts).
Qed.

Definition update_tokens (u : updateData V) (wheres : list (list (token V))) : list (token V) :=
  chars "UPDATE " ++ options_tokens (u_Options u) ++ chars (u_Table u) ++ chars " SET " ++
  join_tokens (chars ", ") (set_tokens <$> u_SetClauses u) ++
  clause_tokens (u_WhereParts u) " WHERE " (join_tokens (chars " AND ") wheres) ++
  clause_tokens (u_OrderBys u) " ORDER BY " (chars (String.concat ", " (u_OrderBys u))) ++
  bound_tokens " LIMIT " (u_Limit u).

Definition update_plain (u : updateData V) : bool :=
  forallb no_q (u_Options u) && no_q (u_Table u) && forallb no_q (u_OrderBys u) && no_q (u_Limit u).

Lemma update_binds_arguments u wheres :
  u_Table u ≠ "" → u_SetClauses u ≠ [] → update_plain u = true →
  (∀ c, c ∈ u_SetClauses u → set_says c) → Forall2 says_part (u_WhereParts u) wheres →
  update_toSql u = Ok (render (u_PlaceholderFormat u) 0 (update_tokens u wheres), args_of (update_tokens u wheres)).
Proof.
  intros Ht Hs Hp Hset Hw. unfold update_plain in Hp. rewrite !andb_true_iff in Hp. destruct Hp as [[[Hopt Htab] Ho] Hl].
  unfold update_toSql. rewrite bool_decide_false // bool_decide_false; [by destruct (u_SetClauses u)|]. apply with_format_says.
  apply andThen_text; [done|]. apply andThen_options; [by apply forallb_Forall|]. do 2 (apply andThen_text; [done|]).
  apply andThen_says.
  { destruct (collect_says set_expr (u_SetClauses u) (set_tokens <$> u_SetClauses u) ", ") as (x & Hx & _ & Hsays); [done..| |by rewrite Hx].
    apply Forall2_fmap_r, Forall_Forall2_diag, Forall_forall. intros c Hc. by apply set_expr_says, Hset. }
  repeat (apply andThen_clean; [first [by apply parts_clause_says | by apply texts_clause_says]|]). by apply bound_says.
Qed.

Definition delete_tokens (u : deleteData V) (wheres : list (list (token V))) : list (token V) :=
  chars "DELETE " ++ options_tokens (d_Options u) ++ chars ("FROM " +:+ d_From u) ++
  clause_tokens (d_WhereParts u) " WHERE " (join_tokens (chars " AND ") wheres) ++
  clause_tokens (d_OrderBys u) " ORDER BY " (chars (String.concat ", " (d_OrderBys u))) ++
  bound_tokens " LIMIT " (d_Limit u).

Definition delete_plain (u : deleteData V) : bool :=
  forallb no_q (d_Options u) && no_q (d_From u) && forallb no_q (d_OrderBys u) && no_q (d_Limit u).

Lemma delete_binds_arguments u wheres :
  d_From u ≠ "" → delete_plain u = true → Forall2 says_part (d_WhereParts u) wheres →
  delete_toSql u = Ok (render (d_PlaceholderFormat u) 0 (delete_tokens u wheres), args_of (delete_tokens u wheres)).
Proof.
  intros Ht Hp Hw. unfold delete_plain in Hp. rewrite !andb_true_iff in Hp. destruct Hp as [[[Hopt Htab] Ho] Hl].
  unfold delete_toSql. rewrite bool_decide_false //. apply with_format_says.
  apply andThen_text; [done|]. apply andThen_options; [by apply forallb_Forall|]. apply andThen_text; [by rewrite no_q_app Htab|].
  apply says_clean_says. repeat (apply andThen_clean; [first [by apply parts_clause_says | by apply texts_clause_says]|]). by apply bound_says.
Qed.
End Statements.
Arguments select_parts : clear implicits.

(** ** The builders of the client *)

(** A builder that is the struct itself. *)
#[export] Instance plain_builder {D} (zero_ : D) : Builder D D | 100 := {
  EmptyBuilder := zero_;
  change f b := f b;
  GetStruct b := b
}.

#[export] Instance plain_builder_laws {D} (zero_ : D) : @BuilderLaws D D (plain_builder zero_) zero_.
Proof. by split. Qed.

Section Client.
Context {V B : Type}.

Section Select.
Context `{Builder B (selectData V)} {Laws : BuilderLaws (B := B) (zero_select (V := V))}.

Lemma append_part_columns ps (b : B) :
  s_Columns (GetStruct (SelectBuilder.append_part s_Columns sets_Columns ps b)) = s_Columns (GetStruct b) ++ ps ∧
  s_CustomColumns (GetStruct (SelectBuilder.append_part s_Columns sets_Columns ps b)) = s_CustomColumns (GetStruct b).
Proof. unfold SelectBuilder.append_part. rewrite GetStruct_change. by destruct (GetStruct b). Qed.

Lemma Select_columns c :
  s_Columns (GetStruct (Select c : B)) = (λ col, newPart (Str (escape col)) []) <$> client_columns c ∧
  s_CustomColumns (GetStruct (Select c : B)) = false ∧ s_From (GetStruct (Select c : B)) = Some (newPart (Str (table c)) []) ∧
  s_PlaceholderFormat (GetStruct (Select c : B)) = placeholderFormat c.
Proof.
  unfold Select, SelectBuilder.columns, SelectBuilder.append_part, SelectBuilder.newSelectBuilder.
  rewrite !GetStruct_change GetStruct_EmptyBuilder. simpl. by rewrite -list_fmap_compose.
Qed.

(** The first Column takes the place of the default columns, the next ones are appended. *)
Lemma Column_columns c col1 args1 col2 args2 :
  s_Columns (GetStruct (SelectBuilder.Column col1 args1 (Select c : B))) = [newPart col1 args1] ∧
  s_Columns (GetStruct (SelectBuilder.Column col2 args2 (SelectBuilder.Column col1 args1 (Select c : B)))) =
    [newPart col1 args1; newPart col2 args2].
Proof.
  destruct (Select_columns c) as (_ & Hcust & _).
  assert (s_Columns (GetStruct (SelectBuilder.Column col1 args1 (Select c : B))) = [newPart col1 args1] ∧
    s_CustomColumns (GetStruct (SelectBuilder.Column col1 args1 (Select c : B))) = true) as [H1 H2].
  { unfold SelectBuilder.Column at 1 2. rewrite Hcust. rewrite (proj1 (append_part_columns _ _)) (proj2 (append_part_columns _ _)) !GetStruct_change.
    by rewrite GetStruct_EmptyBuilder. }
  split; [done|]. unfold SelectBuilder.Column at 1. rewrite H2. by rewrite (proj1 (append_part_columns _ _)) H1.
Qed.

(** Column of a GetBuilder, which refers to the one of a SelectBuilder, keeps the default columns. *)
Lemma get_Column_keeps_defaults c col args :
  s_Columns (GetStruct (GetBuilder.Column col args (Select c : B))) =
  ((λ col, newPart (Str (escape col)) []) <$> client_columns c) ++ [newPart col args].
Proof. unfold GetBuilder.Column. rewrite (proj1 (append_part_columns _ _)). by rewrite (proj1 (Select_columns c)). Qed.

(** Where and Having without a condition: the former is ignored, the latter makes the query fail. *)
Lemma Where_nothing args (b : B) :
  SelectBuilder.Where (PAny Nil) args b = b ∧ SelectBuilder.Where (PAny (Str "")) args b = b.
Proof. done. Qed.
End Select.

Section UpdateClient.
Context `{Builder B (updateData V)} {Laws : BuilderLaws (B := B) (zero_update (V := V))}.

Lemma SetMap_fold (m : gmap string (any V)) ks (b : B) :
  GetStruct (fold_left (λ b key, UpdateBuilder.Set_ key (default Nil (m !! key)) b) ks b) =
  setu_SetClauses (u_SetClauses (GetStruct b) ++ ((λ key, {| column := key; value := default Nil (m !! key) |}) <$> ks)) (GetStruct b).
Proof.
  revert b. induction ks as [|k ks IH]; intros b; simpl.
  - rewrite app_nil_r. by destruct (GetStruct b).
  - rewrite IH. unfold UpdateBuilder.Set_. rewrite GetStruct_change. destruct (GetStruct b); simpl. by rewrite -app_assoc.
Qed.

(** The maps of an update, if all of its arguments can be read. *)
Fixpoint update_maps (vals : list (update_value V)) : option (list (gmap string (any V))) :=
  match vals with
  | [] => Some []
  | UMap m :: vals | URow (Ok m) :: vals => (m ::.) <$> update_maps vals
  | _ :: _ => None
  end.

Lemma update_values_maps o vals ms err m0 :
  update_maps vals = Some ms →
  (update_values o vals err m0).1 = err ∧
  ∀ key, (update_values o vals err m0).2 !! key = fold_left (λ acc m, match m !! key with Some v => Some v | None => acc end) ms (m0 !! key).
Proof.
  revert ms err m0. induction vals as [|val vals IH]; intros ms err m0 Hms; simpl in *; [by simplify_eq|].
  assert (∀ m, (cons m) <$> update_maps vals = Some ms →
    (update_values o vals err (MergeMaps o [m0; m])).1 = err ∧
    ∀ key, (update_values o vals err (MergeMaps o [m0; m])).2 !! key = fold_left (λ acc m, match m !! key with Some v => Some v | None => acc end) ms (m0 !! key)) as Hm.
  { intros m (ms' & Hms' & ->)%fmap_Some. destruct (IH ms' err (MergeMaps o [m0; m]) Hms') as [He Hl]. split; [done|].
    intros key. rewrite Hl MergeMaps_lookup. simpl. f_equal. by destruct (m !! key), (m0 !! key). }
  destruct val as [m|[m|e]|]; [by apply Hm | by apply Hm | done | done].
Qed.

(** The statement of Update sets each column of the maps once, to the last value that is given for it. *)
Lemma Update_sets o vals ms c :
  update_maps vals = Some ms →
  ∃ m, (∀ key, m !! key = fold_left (λ acc m, match m !! key with Some v => Some v | None => acc end) ms None) ∧
    let d := GetStruct (Update o vals c : B) in
    u_Error d = None ∧ u_Table d = table c ∧ u_PlaceholderFormat d = placeholderFormat c ∧ u_WhereParts d = [] ∧
    u_SetClauses d = (λ key, {| column := key; value := default Nil (m !! key) |}) <$> getSortedKeys m.
Proof.
  intros Hms. destruct (update_values_maps o vals ms None ∅ Hms) as [He Hl]. exists (update_values o vals None ∅).2.
  split; [intros key; by rewrite Hl lookup_empty|]. unfold Update. destruct (update_values o vals None ∅) as [err m]. simpl in *. subst err.
  unfold UpdateBuilder.SetMap, UpdateBuilder.newUpdateBuilder. rewrite SetMap_fold !GetStruct_change GetStruct_EmptyBuilder. done.
Qed.
End UpdateClient.
End Client.

(** ** Execution *)
Section ExecLaws.
Context {V W T R : Type}.
Context (db_Select : string → list (any V) → W → W * result go_error (list T)).
Context (db_NamedExec : string → list T → W → W * result go_error R).

(** Get answers the row there is; none, or more than one, is an error. *)
Theorem get_Exec_correct (d : selectData V) p w :
  s_Columns d ≠ [] → select_plain d = true → select_says d p →
  let ts := select_tokens (sets_Limit "2" d) p in
  let found := db_Select (render (s_PlaceholderFormat d) 0 ts) (args_of ts) w in
  (get_Exec db_Select d w).1 = found.1 ∧
  (∀ x, (get_Exec db_Select d w).2 = Ok x ↔ found.2 = Ok [x]) ∧
  ((get_Exec db_Select d w).2 = Err ErrNotFound ↔ found.2 = Ok []).
Proof.
  intros Hc Hp Hs ts found. unfold get_Exec. rewrite (get_binds_arguments d p) //. fold ts. fold found.
  destruct found as [w' [[|y [|z l]]|e]]; simpl; split_and!; try done; intros; split; intros; by simplify_eq.
Qed.

(** The values for the placeholders of an insert's suffix do not reach the database. *)
Lemma suffix_arguments_lost (d : insertData V) sql a b values w :
  insert_Exec db_NamedExec (seti_Suffixes [Expr sql [Other a]] d) values w =
  insert_Exec db_NamedExec (seti_Suffixes [Expr sql [Other b]] d) values w.
Proof.
  unfold insert_Exec, insert_toSql, Expr. destruct d as [kw opts into cols sufs]. simpl. destruct (bool_decide (into = "")); [done|].
  destruct opts, cols; simpl; by destruct (bool_decide (sql = "")), (bool_decide (kw = "")).
Qed.
End ExecLaws.

(** ** Samples *)
Module Samples.
Definition t : client := {| table := "t"; placeholderFormat := Dollar; client_columns := ["id"; "name"] |}.
#[local] Instance select_builder : Builder (selectData Z) (selectData Z) := plain_builder zero_select.
#[local] Instance insert_builder : Builder (insertData Z) (insertData Z) := plain_builder zero_insert.

Definition query : selectData Z :=
  SelectBuilder.Limit 3 $ SelectBuilder.OrderBy ["id"] $
  SelectBuilder.Where (PAny (Sqlz (Or [Eq {["id" := List [Other 1; Other 2]%Z]}; Expr "name LIKE ?" [Str "a?"]]))) [] $
  SelectBuilder.Where (PMap {["name" := Nil]}) [] (Select t).

Example query_text :
  select_toSql query =
  Ok ("SELECT `id`, `name` FROM t WHERE name IS NULL AND (id IN ($1,$2) OR name LIKE $3) ORDER BY id LIMIT 3",
      [Other 1%Z; Other 2%Z; Str "a?"]).
Proof. vm_compute. reflexivity. Qed.

Definition query_parts : select_parts Z := {|
  p_columns := [chars "`id`"; chars "`name`"];
  p_from := Some (chars "t");
  p_joins := [];
  p_wheres := [chars "name IS NULL";
    chars "(id IN (" ++ [Arg (Other 1%Z)] ++ chars "," ++ [Arg (Other 2%Z)] ++ chars ") OR name LIKE " ++ [Arg (Str "a?")] ++ chars ")"];
  p_havings := [];
  p_orders := [chars "id"]
|}.

Lemma query_says : select_says query query_parts.
Proof. split; repeat constructor; by eexists _, _. Qed.

(** Conditions that are texts are joined without parentheses. *)
Example where_not_parenthesised :
  select_toSql (SelectBuilder.Where (PAny (Str "id = 3")) [] (SelectBuilder.Where (PAny (Str "id = 1 OR id = 2")) [] (Select t))) =
  Ok ("SELECT `id`, `name` FROM t WHERE id = 1 OR id = 2 AND id = 3", []).
Proof. vm_compute. reflexivity. Qed.

(** A part without text leaves the glue of the next one, or its keyword, in the statement. *)
Example empty_part_leaves_glue :
  select_toSql (SelectBuilder.Where (PAny (Str "id = 3")) [] (SelectBuilder.Where (PAny (Sqlz (Like canonical_order ∅))) [] (Select t))) =
    Ok ("SELECT `id`, `name` FROM t WHERE  AND id = 3", []) ∧
  select_toSql (SelectBuilder.Where (PAny (Sqlz (Like canonical_order ∅))) [] (Select t)) =
    Ok ("SELECT `id`, `name` FROM t WHERE ", []).
Proof. vm_compute. done. Qed.

(** Having with nil or an empty text. *)
Example having_nil_fails :
  select_toSql (SelectBuilder.Having (PAny Nil) [] (Select t)) = Err (EMsg "expected string-keyed map or string") ∧
  select_toSql (SelectBuilder.Having (PAny (Str "")) [] (Select t)) = Ok ("SELECT `id`, `name` FROM t HAVING ", []).
Proof. vm_compute. done. Qed.

Example insert_text :
  insert_toSql (InsertBuilder.Suffix "ON DUPLICATE KEY UPDATE name = ?" [Str "x"] (Insert t)) =
  Ok "INSERT INTO t (`id`,`name`) VALUES (:id,:name) ON DUPLICATE KEY UPDATE name = ?".
Proof. vm_compute. reflexivity. Qed.
End Samples.

Lemma select_binds_arguments_witness :
  select_plain Samples.query = true ∧
  select_toSql Samples.query = Ok (render Dollar 0 (select_tokens Samples.query Samples.query_parts), args_of (select_tokens Samples.query Samples.query_parts)).
Proof.
  split; [reflexivity|]. apply (select_binds_arguments Samples.query Samples.query_parts); [discriminate | reflexivity | exact Samples.query_says].
Defined.

Definition sample_db (sql : string) (args : list (any Z)) (w : unit) : unit * result go_error (list nat) := (w, Ok [length args]).

Lemma get_Exec_correct_witness : (get_Exec sample_db Samples.query tt).2 = Ok 3.
Proof.
  apply (get_Exec_correct sample_db Samples.query Samples.query_parts tt);
    [discriminate | reflexivity | exact Samples.query_says | vm_compute; reflexivity].
Defined.
