(* ===== verification/KafkaConsumer.v ===== *)
(** The consumer of pkg/kafka/consumer: consumer.go polls records, partition_manager.go
    has a goroutine for every partition that the client assigns, and
    partition_consumer.go is that goroutine: it handles and commits one batch after the
    other.  The model is a transition system; a step is what a goroutine does between two
    points at which it can wait.  Metrics, logging and the health check are left out. *)
From S2P Require Import Prelude Exec.

Open Scope nat_scope.

(** [pkg/kafka/consumer/partition_manager.go:34-37] assignment: topic and partition *)
Definition assignment : Type := string * Z.

(** A record by its offset. *)
Definition record : Type := Z.

(** Where the goroutine of a partition is: not started, in the select of Consume, in the
    message handler, in CommitRecords, or done. *)
Inductive consume_pc :=
| Created
| Select
| Handling (records : list record)
| Committing (records : list record)
| Returned (err : option error).

(** [pkg/kafka/consumer/partition_consumer.go:23-35] PartitionConsumer; its done is closed when it has returned *)
Record partitionConsumer := { part : assignment; stop : bool; pc : consume_pc }.

(** [pkg/kafka/consumer/partition_consumer.go:37-51] NewPartitionConsumer *)
Definition NewPartitionConsumer (a : assignment) : partitionConsumer := {| part := a; stop := false; pc := Created |}.

(** [pkg/kafka/consumer/partition_consumer.go:118-120] PartitionConsumer.Stop *)
Definition stop_consumer (c : partitionConsumer) : partitionConsumer := {| part := part c; stop := true; pc := pc c |}.

Definition with_pc (p : consume_pc) (c : partitionConsumer) : partitionConsumer := {| part := part c; stop := stop c; pc := p |}.

(** Where Run is: at the top of its loop, in the executor, at the partitions that are
    left of a fetch, in Handle, which waits for the goroutine with a number to take a
    batch, in CloseAllowingRebalance, behind it, in PartitionManager.Stop (before it stops
    the goroutines, or waiting for them), or done. *)
Inductive run_pc :=
| Loop
| Polling
| Processing (rest : list (assignment * list record))
| Sending (i : nat) (records : list record) (rest : list (assignment * list record))
| Closing (err : option error)
| Closed (err : option error)
| Stopping (err : option error)
| Waiting (err : option error)
| Finished (err : option error).

(** Where the goroutine of the client is that calls OnPartitionsAssigned and
    OnPartitionsLostOrRevoked. *)
Inductive rebalance_pc :=
| NoCallback
| Assigning (rest : list assignment)
| Starting (i : nat) (rest : list assignment)
| Revoking (lost rest : list assignment) (waiting : list nat)
| CallbackPanicked.

(** What happened to records: the message handler got them, and panicked or did not; they
    were committed. *)
Inductive event :=
| Handled (a : assignment) (records : list record) (panicked : bool)
| Committed (a : assignment) (records : list record).

(** [pkg/kafka/consumer/partition_manager.go:21-32] PartitionManager and consumer (consumer.go), with the goroutines and the client:
    whether it was [closed], and whether it was polled and rebalances are not allowed again.  [owned] are the partitions that the
    group keeps for the client.  [lost] are those that it has taken away without waiting for OnPartitionsLostOrRevoked: the
    client left while it closed, or its session ended ([evicted]) and OnPartitionsLost has not returned yet *)
Record system := {
  stopping : bool;
  consumers : gmap assignment nat;
  goroutines : list partitionConsumer;
  manager_done : bool;
  ctx_done : bool;
  stopped : bool;
  run : run_pc;
  rebalance : rebalance_pc;
  polled : bool;
  owned : gset assignment;
  lost : gset assignment;
  evicted : bool;
  closed : bool;
  history : list event
}.

(** [pkg/kafka/consumer/partition_manager.go:39-59] NewPartitionManager, before Run *)
Definition initial : system := {|
  stopping := false; consumers := ∅; goroutines := []; manager_done := false; ctx_done := false; stopped := false;
  run := Loop; rebalance := NoCallback; polled := false; owned := ∅; lost := ∅; evicted := false; closed := false; history := []
|}.

(** Changes of a system. *)
Definition set_run (p : run_pc) (s : system) : system := {|
  stopping := stopping s; consumers := consumers s; goroutines := goroutines s; manager_done := manager_done s;
  ctx_done := ctx_done s; stopped := stopped s; run := p; rebalance := rebalance s; polled := polled s; owned := owned s; lost := lost s; evicted := evicted s;
  closed := closed s; history := history s |}.
Definition set_rebalance (p : rebalance_pc) (s : system) : system := {|
  stopping := stopping s; consumers := consumers s; goroutines := goroutines s; manager_done := manager_done s;
  ctx_done := ctx_done s; stopped := stopped s; run := run s; rebalance := p; polled := polled s; owned := owned s; lost := lost s; evicted := evicted s;
  closed := closed s; history := history s |}.
Definition set_polled (b : bool) (s : system) : system := {|
  stopping := stopping s; consumers := consumers s; goroutines := goroutines s; manager_done := manager_done s;
  ctx_done := ctx_done s; stopped := stopped s; run := run s; rebalance := rebalance s; polled := b; owned := owned s; lost := lost s; evicted := evicted s;
  closed := closed s; history := history s |}.
Definition set_owned (o l : gset assignment) (e : bool) (s : system) : system := {|
  stopping := stopping s; consumers := consumers s; goroutines := goroutines s; manager_done := manager_done s;
  ctx_done := ctx_done s; stopped := stopped s; run := run s; rebalance := rebalance s; polled := polled s; owned := o; lost := l; evicted := e;
  closed := closed s; history := history s |}.
Definition set_manager (st : bool) (m : gmap assignment nat) (gs : list partitionConsumer) (md : bool) (s : system) : system := {|
  stopping := st; consumers := m; goroutines := gs; manager_done := md;
  ctx_done := ctx_done s; stopped := stopped s; run := run s; rebalance := rebalance s; polled := polled s; owned := owned s; lost := lost s; evicted := evicted s;
  closed := closed s; history := history s |}.
Definition set_goroutine (i : nat) (c : partitionConsumer) (s : system) : system :=
  set_manager (stopping s) (consumers s) (<[i := c]> (goroutines s)) (manager_done s) s.
Definition log_event (e : event) (s : system) : system := {|
  stopping := stopping s; consumers := consumers s; goroutines := goroutines s; manager_done := manager_done s;
  ctx_done := ctx_done s; stopped := stopped s; run := run s; rebalance := rebalance s; polled := polled s; owned := owned s; lost := lost s; evicted := evicted s;
  closed := closed s; history := history s ++ [e] |}.
Definition set_outside (ctx st cl : bool) (s : system) : system := {|
  stopping := stopping s; consumers := consumers s; goroutines := goroutines s; manager_done := manager_done s;
  ctx_done := ctx; stopped := st; run := run s; rebalance := rebalance s; polled := polled s; owned := owned s; lost := lost s; evicted := evicted s;
  closed := cl; history := history s |}.

(** [pkg/kafka/consumer/partition_manager.go:70-81] one assignment of OnPartitionsAssigned, under the lock *)
Definition register (a : assignment) (s : system) : system :=
  set_manager (stopping s) (<[a := length (goroutines s)]> (consumers s)) (goroutines s ++ [NewPartitionConsumer a]) (manager_done s) s.

(** [pkg/kafka/consumer/partition_manager.go:106-117] one partition of OnPartitionsLostOrRevoked: the number of the goroutine that was stopped *)
Definition revoke (a : assignment) (s : system) : system * option nat :=
  match consumers s !! a with
  | None => (s, None)
  | Some i => (set_manager (stopping s) (delete a (consumers s)) (alter stop_consumer i (goroutines s)) (manager_done s) s, Some i)
  end.

(** [pkg/kafka/consumer/partition_manager.go:155-162] Stop of all goroutines that the manager has, under the lock, and close(p.done) *)
Definition stop_all (s : system) : system :=
  set_manager (stopping s) ∅
    (imap (λ i c, if bool_decide (consumers s !! part c = Some i) then stop_consumer c else c) (goroutines s)) true s.

(** The goroutine has returned, or was not started. *)
Definition not_running (c : partitionConsumer) : bool := match pc c with Created | Returned _ => true | _ => false end.
Definition returned (c : partitionConsumer) : bool := match pc c with Returned _ => true | _ => false end.

(** cfn.Wait returns, and from then on cfn.Go panics. *)
Definition coffin_dead (s : system) : bool := manager_done s && forallb not_running (goroutines s).

(** Handle has the lock for reading while it waits. *)
Definition lock_free (s : system) : bool := match run s with Sending _ _ _ => false | _ => true end.

Section Steps.
(** Whether the consumer may not commit, and whether the client calls back after it was
    closed; the documentation of franz-go says that it does not. *)
Context (isReadOnly late : bool).

(** The client calls back when rebalances are allowed. *)
Definition may_call (s : system) : Prop := rebalance s = NoCallback ∧ polled s = false ∧ (closed s = false ∨ late = true).

(** [pkg/kafka/consumer/partition_consumer.go:53-116] Consume, a step of the goroutine [c] with number [i]: in its select it takes one
    of the cases that are ready; the message handler answers or panics; the commit succeeds or fails *)
Inductive consume_step (s : system) (i : nat) (c : partitionConsumer) : system → Prop :=
| consume_canceled err :
    pc c = Select → ctx_done s = true → consume_step s i c (set_goroutine i (with_pc (Returned (Some err)) c) s)
| consume_stopped :
    pc c = Select → stop c = true → consume_step s i c (set_goroutine i (with_pc (Returned None) c) s)
| consume_handled records panicked :
    pc c = Handling records →
    consume_step s i c (set_goroutine i (with_pc (Committing records) c) (log_event (Handled (part c) records panicked) s))
| consume_committed records :
    pc c = Committing records →
    consume_step s i c (set_goroutine i (with_pc Select c) (log_event (Committed (part c) records) s))
| consume_commit_failed records err :
    pc c = Committing records → consume_step s i c (set_goroutine i (with_pc (Returned (Some err)) c) s).

(** [pkg/kafka/consumer/consumer.go:178-235] Run, with processPartitions, Handle and PartitionManager.Stop.  Closing the client leaves
    the group, at once or after callbacks, which are possible in [Closing]; from then on the group may give the partitions to others *)
Inductive run_step (s : system) : system → Prop :=
| run_canceled err : run s = Loop → ctx_done s = true → run_step s (set_run (Closing (Some err)) s)
| run_stopped : run s = Loop → stopped s = true → run_step s (set_run (Closing None) s)
| run_polls : run s = Loop → ctx_done s = false → stopped s = false → run_step s (set_run Polling s)
| run_poll_failed err : run s = Polling → run_step s (set_run (Closing err) s)
| run_fetched fetches :
    run s = Polling → rebalance s = NoCallback → isReadOnly = true ∨ Forall (λ f, f.1 ∈ owned s ∪ lost s) fetches →
    run_step s (set_polled true (set_run (Processing fetches) s))
| run_handles a records rest i :
    run s = Processing ((a, records) :: rest) → isReadOnly = false → consumers s !! a = Some i →
    run_step s (set_run (Sending i records rest) s)
| run_no_consumer a records rest :
    run s = Processing ((a, records) :: rest) → isReadOnly = false → consumers s !! a = None →
    run_step s (set_run (Processing rest) s)
| run_handles_without_commit a records rest :
    run s = Processing ((a, records) :: rest) → isReadOnly = true →
    run_step s (log_event (Handled a records false) (set_run (Processing rest) s))
| run_sends i records rest c :
    run s = Sending i records rest → goroutines s !! i = Some c → pc c = Select →
    run_step s (set_run (Processing rest) (set_goroutine i (with_pc (if bool_decide (records = []) then Select else Handling records) c) s))
| run_allows_rebalance : run s = Processing [] → run_step s (set_polled false (set_run Loop s))
| run_closes err :
    run s = Closing err → (rebalance s = NoCallback ∨ late = true) →
    run_step s (set_outside (ctx_done s) (stopped s) true (set_run (Closed err) (set_owned ∅ (owned s ∪ lost s) (evicted s) s)))
| run_stops err :
    run s = Closed err → run_step s (set_run (Stopping err) (set_manager true (consumers s) (goroutines s) (manager_done s) s))
| run_stops_all err : run s = Stopping err → run_step s (set_run (Waiting err) (stop_all s))
| run_returns err : run s = Waiting err → coffin_dead s = true → run_step s (set_run (Finished err) s).

(** [pkg/kafka/consumer/partition_manager.go:61-131] OnPartitionsAssigned and OnPartitionsLostOrRevoked (pkg/kafka/consumer/reader.go:59-61).
    The client assigns what it does not have, and takes away what it has: a revocation is of partitions that it owns until the
    callback has returned; when the session of the member ends, which it can at any time, the group has taken the partitions
    away before OnPartitionsLost is called *)
Inductive rebalance_step (s : system) : system → Prop :=
| assign_begins l :
    may_call s → NoDup l → (∀ a, a ∈ l → a ∉ owned s ∪ lost s) →
    rebalance_step s (set_owned (owned s ∪ list_to_set l) (lost s) (evicted s) (if stopping s then s else set_rebalance (Assigning l) s))
| assign_one a rest :
    rebalance s = Assigning (a :: rest) → lock_free s = true → stopping s = false →
    rebalance_step s (set_rebalance (Starting (length (goroutines s)) rest) (register a s))
| assign_ignored a rest :
    rebalance s = Assigning (a :: rest) → lock_free s = true → stopping s = true →
    rebalance_step s (set_rebalance (Assigning rest) s)
| assign_starts i c rest :
    rebalance s = Starting i rest → coffin_dead s = false → goroutines s !! i = Some c → pc c = Created →
    rebalance_step s (set_rebalance (Assigning rest) (set_goroutine i (with_pc Select c) s))
| assign_panics i rest :
    rebalance s = Starting i rest → coffin_dead s = true → rebalance_step s (set_rebalance CallbackPanicked s)
| assign_ends : rebalance s = Assigning [] → rebalance_step s (set_rebalance NoCallback s)
| session_ends l :
    closed s = false → (∀ a, a ∈ l → a ∈ owned s) →
    rebalance_step s (set_owned (owned s ∖ list_to_set l) (lost s ∪ list_to_set l) true s)
| revoke_begins l :
    may_call s → (∀ a, a ∈ l → a ∈ owned s ∪ lost s) → rebalance_step s (set_rebalance (Revoking l l []) s)
| revoke_one l a rest waiting :
    rebalance s = Revoking l (a :: rest) waiting → lock_free s = true →
    rebalance_step s (set_rebalance (Revoking l rest (match (revoke a s).2 with Some i => i :: waiting | None => waiting end)) (revoke a s).1)
| revoke_ends l waiting :
    rebalance s = Revoking l [] waiting →
    (∀ i c, i ∈ waiting → goroutines s !! i = Some c → returned c = true) →
    rebalance_step s (set_owned (owned s ∖ list_to_set l) (lost s ∖ list_to_set l) (evicted s) (set_rebalance NoCallback s)).

(** A step of the system: of a goroutine, of Run, of a callback; the context is canceled, or Stop
    (pkg/kafka/consumer/consumer.go:247-249) is called, which panics the second time. *)
Inductive step (s : system) : system → Prop :=
| step_consume i c s' : goroutines s !! i = Some c → consume_step s i c s' → step s s'
| step_run s' : run_step s s' → step s s'
| step_rebalance s' : rebalance_step s s' → step s s'
| step_cancel : step s (set_outside true (stopped s) (closed s) s)
| step_Stop : stopped s = false → step s (set_outside (ctx_done s) true (closed s) s).
End Steps.

(** A goroutine that may still handle or commit records. *)
Definition live (c : partitionConsumer) : Prop := returned c = false.

(** ** Every partition has one goroutine, and only while the client has it *)
Section Invariant.
Context (isReadOnly : bool).
Notation step := (step isReadOnly false).

(** What holds of the goroutines during a callback. *)
Definition callback_ok (s : system) : Prop :=
  match rebalance s with
  | Assigning rest =>
      NoDup rest ∧ (∀ a, a ∈ rest → a ∈ owned s ∪ lost s) ∧ ∀ i c, goroutines s !! i = Some c → live c → part c ∉ rest
  | Starting n rest =>
      (NoDup rest ∧ (∀ a, a ∈ rest → a ∈ owned s ∪ lost s) ∧ ∀ i c, goroutines s !! i = Some c → live c → part c ∉ rest) ∧
      ∃ c, goroutines s !! n = Some c ∧ pc c = Created
  | Revoking l rest waiting =>
      (∀ a, a ∈ l → a ∈ owned s ∪ lost s) ∧ ∀ i c, goroutines s !! i = Some c → live c → part c ∈ l → part c ∈ rest ∨ i ∈ waiting
  | NoCallback | CallbackPanicked => True
  end.

Definition stop_reason (s : system) (i : nat) : Prop :=
  closed s = true ∨ ∃ l rest waiting, rebalance s = Revoking l rest waiting ∧ i ∈ waiting.

Definition is_processing (p : run_pc) : bool := match p with Processing _ | Sending _ _ _ => true | _ => false end.
Definition is_stopping (p : run_pc) : bool := match p with Stopping _ | Waiting _ | Finished _ => true | _ => false end.
Definition is_closed (p : run_pc) : bool := match p with Closed _ => true | _ => is_stopping p end.

Record inv (s : system) : Prop := {
  inv_registered a i : consumers s !! a = Some i → ∃ c, goroutines s !! i = Some c ∧ part c = a ∧ stop c = false;
  inv_owned i c : goroutines s !! i = Some c → live c → part c ∈ owned s ∪ lost s;
  inv_live i c : goroutines s !! i = Some c → live c →
    consumers s !! part c = Some i ∨ (stop c = true ∧ stop_reason s i);
  inv_unique i j c d : goroutines s !! i = Some c → goroutines s !! j = Some d → live c → live d → part c = part d → i = j;
  inv_callback : callback_ok s;
  inv_created i c : goroutines s !! i = Some c → pc c = Created → ∃ rest, rebalance s = Starting i rest;
  inv_closed : closed s = is_closed (run s);
  inv_stopping : stopping s = is_stopping (run s);
  inv_lost : closed s = false → evicted s = false → lost s = ∅;
  inv_quiet : closed s = true ∨ polled s = true → rebalance s = NoCallback;
  inv_polled : polled s = is_processing (run s);
  inv_done : manager_done s = match run s with Waiting _ | Finished _ => true | _ => false end;
  inv_stopped_all : manager_done s = true → consumers s = ∅
}.

Lemma inv_initial : inv initial.
Proof. split; simpl; try done; intros; simplify_map_eq. Qed.

Lemma live_with_pc p c : p ≠ Created → live (with_pc p c) → match p with Returned _ => False | _ => True end.
Proof. by destruct p. Qed.

(** A goroutine goes on. *)
Lemma inv_goroutine s i c p :
  inv s → goroutines s !! i = Some c → live c → pc c ≠ Created → p ≠ Created → inv (set_goroutine i (with_pc p c) s).
Proof.
  intros [Hreg Hown Hlive Huniq Hcb Hcre Hcl Hst Hlost Hq Hpol Hdone Hall] Hi Hc Hpc Hp.
  assert (∀ j d, <[i := with_pc p c]> (goroutines s) !! j = Some d → ∃ d0, goroutines s !! j = Some d0 ∧ part d = part d0 ∧ stop d = stop d0 ∧
    (live d → live d0) ∧ (pc d = Created → pc d0 = Created)) as Hback.
  { intros j d [(-> & <- & _)|(Hne & Hj)]%list_lookup_insert_Some; [|by exists d]. by exists c. }
  split; simpl; try done.
  - intros a j Ha. destruct (Hreg a j Ha) as (d & Hj & Hd & Hs). destruct (decide (i = j)) as [->|Hne].
    + exists (with_pc p c). rewrite list_lookup_insert_eq; [by eapply lookup_lt_Some|]. by simplify_eq.
    + exists d. by rewrite list_lookup_insert_ne.
  - intros j d (d0 & Hj & -> & _ & Hl & _)%Hback Hd. by eapply Hown, Hl.
  - intros j d (d0 & Hj & -> & -> & Hl & _)%Hback Hd. by apply Hlive; [|apply Hl].
  - intros j k d e (d0 & Hj & -> & _ & Hl & _)%Hback (e0 & Hk & -> & _ & Hl' & _)%Hback Hd He. by eapply Huniq; [..|apply Hl|apply Hl'].
  - unfold callback_ok in *. simpl. destruct (rebalance s) as [|rest|n rest|l rest w|]; try done.
    + destruct Hcb as (Hn & Ho & Hr). split_and!; [done..|]. intros j d (d0 & Hj & -> & _ & Hl & _)%Hback Hd. by eapply Hr, Hl.
    + destruct Hcb as ((Hn & Ho & Hr) & e & He & Hpe). split.
      * split_and!; [done..|]. intros j d (d0 & Hj & -> & _ & Hl & _)%Hback Hd. by eapply Hr, Hl.
      * exists e. split; [|done]. rewrite list_lookup_insert_ne //. by intros ->; simplify_eq.
    + destruct Hcb as (Ho & Hr). split; [done|]. intros j d (d0 & Hj & -> & _ & Hl & _)%Hback Hd. by apply Hr; [|apply Hl].
  - intros j d (d0 & Hj & _ & _ & _ & Hc')%Hback Hd. by eapply Hcre, Hc'.
Qed.

(** What is not looked at. *)
Lemma inv_log e s : inv s → inv (log_event e s).
Proof. by intros []; split. Qed.

Lemma inv_consume s i c s' : inv s → goroutines s !! i = Some c → consume_step s i c s' → inv s'.
Proof.
  intros Hs Hi Hstep. assert (∀ p, live (with_pc p c) ↔ returned (with_pc p c) = false) as Hl by done.
  destruct Hstep as [err Hpc Hctx|Hpc Hstop|records pan Hpc|records Hpc|records err Hpc];
    assert (live c) by (by unfold live, returned; rewrite Hpc); assert (pc c ≠ Created) by (by rewrite Hpc).
  - by apply inv_goroutine.
  - by apply inv_goroutine.
  - by apply (inv_goroutine (log_event _ _)); [apply inv_log|..].
  - by apply (inv_goroutine (log_event _ _)); [apply inv_log|..].
  - by apply inv_goroutine.
Qed.

(** Run moves on between places where the client was not polled, or was. *)
Lemma inv_run p s : inv s → is_processing p = is_processing (run s) → is_closed (run s) = false → is_closed p = false → inv (set_run p s).
Proof.
  intros [Hreg Hown Hlive Huniq Hcb Hcre Hcl Hst Hlost Hq Hpol Hdone Hall] Hp Hc Hc'. split; simpl; try done.
  - by rewrite Hcl Hc Hc'.
  - rewrite Hst. by destruct (run s), p.
  - by rewrite Hpol Hp.
  - rewrite Hdone. by destruct (run s), p.
Qed.

Lemma live_not_created c : pc c ≠ Created → not_running c = returned c.
Proof. unfold not_running, returned. by destruct (pc c). Qed.

Lemma lookup_stop_all s i c :
  goroutines (stop_all s) !! i = Some c →
  ∃ d, goroutines s !! i = Some d ∧ part c = part d ∧ pc c = pc d ∧ (stop c = true ∨ stop c = stop d ∧ consumers s !! part d ≠ Some i).
Proof.
  unfold stop_all. simpl. rewrite list_lookup_imap. intros (d & Hd & ->)%fmap_Some. exists d.
  case_bool_decide; split_and!; try done; [by left | by right].
Qed.

Lemma inv_stop_all err s : inv s → run s = Stopping err → inv (set_run (Waiting err) (stop_all s)).
Proof.
  intros [Hreg Hown Hlive Huniq Hcb Hcre Hcl Hst Hlost Hq Hpol Hdone Hall] Hrun. rewrite Hrun /= in Hcl, Hpol, Hst.
  assert (∀ c d, pc c = pc d → live c → live d) as Hl. { intros c d Hp. unfold live, returned. by rewrite Hp. }
  assert (rebalance s = NoCallback) as Hnc by (apply Hq; by left).
  split; simpl; try done.
  - intros i c Hi Hc. apply (lookup_stop_all s) in Hi as (d & Hd & Hpart & Hpc & _). rewrite Hpart. eapply Hown, Hl; [done..|]. done.
  - intros i c Hi Hc. apply (lookup_stop_all s) in Hi as (d & Hd & Hpart & Hpc & Hst').
    right. split; [|by left]. destruct Hst' as [|[Heq Hn]]; [done|]. rewrite Heq.
    destruct (Hlive i d Hd) as [|[]]; [by eapply Hl | done..].
  - intros i j c d Hi Hj Hc Hd Hp. apply (lookup_stop_all s) in Hi as (c0 & Hc0 & Hpc & Hpcc & _), Hj as (d0 & Hd0 & Hpd & Hpcd & _).
    eapply Huniq; [done|done|by eapply Hl|by eapply Hl|congruence].
  - unfold callback_ok. simpl. by rewrite Hnc.
  - intros i c Hi Hc. apply (lookup_stop_all s) in Hi as (d & Hd & _ & Hpc & _). eapply Hcre; [done|congruence].
Qed.

(** What the group takes away when it does not wait. *)
Lemma inv_loses o l s :
  inv s → (∀ a, a ∈ o ∪ l ↔ a ∈ owned s ∪ lost s) → inv (set_owned o l true s).
Proof.
  intros [Hreg Hown Hlive Huniq Hcb Hcre Hcl Hst Hlost Hq Hpol Hdone Hall] Ho. split; simpl; try done.
  - intros i c Hi Hc. apply Ho. by eapply Hown.
  - unfold callback_ok in *. simpl. destruct (rebalance s) as [|rest|n rest|l' rest w|]; [done| | | |done].
    + destruct Hcb as (Hn & Hin & Hr). split_and!; [done|intros a Ha; by apply Ho, Hin|done].
    + destruct Hcb as ((Hn & Hin & Hr) & Hc). split; [|done]. split_and!; [done|intros a Ha; by apply Ho, Hin|done].
    + destruct Hcb as (Hin & Hc). split; [intros a Ha; by apply Ho, Hin|done].
Qed.

Lemma inv_closes err s :
  inv s → run s = Closing err → rebalance s = NoCallback →
  inv (set_outside (ctx_done s) (stopped s) true (set_run (Closed err) (set_owned ∅ (owned s ∪ lost s) (evicted s) s))).
Proof.
  intros [Hreg Hown Hlive Huniq Hcb Hcre Hcl Hst Hlost Hq Hpol Hdone Hall] Hr Hnc.
  assert (Hheld : ∅ ∪ (owned s ∪ lost s) = owned s ∪ lost s) by set_solver. split; simpl; try done.
  - rewrite Hheld. exact Hown.
  - intros i c Hi Hc. destruct (Hlive i c Hi Hc) as [|[Hs _]]; [by left|]. right. split; [done|by left].
  - unfold callback_ok. simpl. by rewrite Hnc.
  - by rewrite Hst Hr.
  - by rewrite Hpol Hr.
  - by rewrite Hdone Hr.
Qed.

Lemma inv_stops err s : inv s → run s = Closed err → inv (set_run (Stopping err) (set_manager true (consumers s) (goroutines s) (manager_done s) s)).
Proof.
  intros [Hreg Hown Hlive Huniq Hcb Hcre Hcl Hst Hlost Hq Hpol Hdone Hall] Hr. rewrite Hr /= in Hcl, Hpol, Hdone. split; simpl; done.
Qed.

Lemma inv_run_step s s' : inv s → run_step isReadOnly false s s' → inv s'.
Proof.
  intros Hs Hstep.
  destruct Hstep as [err Hr _|Hr _|Hr _ _|err Hr|fetches Hr Hnc Hf|a records rest i Hr _ Hi|a records rest Hr _ Hi|a records rest Hr _
    |i records rest c Hr Hi Hpc|Hr|err Hr Hcall|err Hr|err Hr|err Hr Hdead];
    try (apply inv_run; [done | by rewrite Hr | by rewrite Hr | done]).
  - destruct Hs as [Hreg Hown Hlive Huniq Hcb Hcre Hcl Hst Hlost Hq Hpol Hdone Hall]. split; simpl; try done.
    + by rewrite Hcl Hr.
    + by rewrite Hst Hr.
    + by rewrite Hdone Hr.
  - apply inv_log, inv_run; [done | by rewrite Hr..|done].
  - assert (live c) by (by unfold live, returned; rewrite Hpc). assert (pc c ≠ Created) by (by rewrite Hpc).
    apply inv_run; [|by rewrite /= Hr..|done]. apply inv_goroutine; [done..|]. by case_bool_decide.
  - destruct Hs as [Hreg Hown Hlive Huniq Hcb Hcre Hcl Hst Hlost Hq Hpol Hdone Hall]. split; simpl; try done.
    + by rewrite Hcl Hr.
    + by rewrite Hst Hr.
    + intros [Hc|Hc]; [|done]. apply Hq. by left.
    + by rewrite Hdone Hr.
  - destruct Hcall as [Hnc|]; [|done]. by apply inv_closes.
  - by apply inv_stops.
  - by apply inv_stop_all.
  - destruct Hs as [Hreg Hown Hlive Huniq Hcb Hcre Hcl Hst Hlost Hq Hpol Hdone Hall]. rewrite Hr /= in Hcl, Hpol, Hdone, Hst. by split.
Qed.

(** No goroutine runs for what the client does not have. *)
Lemma inv_not_owned s a i c : inv s → a ∉ owned s ∪ lost s → goroutines s !! i = Some c → live c → part c ≠ a.
Proof. intros Hs Ha Hi Hc <-. by eapply Ha, inv_owned. Qed.

(** Callbacks: what only changes the callback. *)
Lemma inv_rebalance p s :
  inv s → closed s = false → polled s = false →
  callback_ok (set_rebalance p s) →
  (∀ i c, goroutines s !! i = Some c → live c → stop_reason s i → stop_reason (set_rebalance p s) i) →
  (∀ i c, goroutines s !! i = Some c → pc c = Created → ∃ rest, p = Starting i rest) → inv (set_rebalance p s).
Proof.
  intros [Hreg Hown Hlive Huniq Hcb Hcre Hcl Hst Hlost Hq Hpol Hdone Hall] Hc Hp Hcb' Hreason Hcre'. split; simpl; try done.
  - intros i c Hi Hlc. destruct (Hlive i c Hi Hlc) as [|[]]; [by left|]. right. split; [done|]. by eapply Hreason.
  - rewrite Hc Hp. by intros [].
Qed.

(** During a callback the client was not polled and is not closed. *)
Lemma inv_in_callback s : inv s → rebalance s ≠ NoCallback → closed s = false ∧ polled s = false.
Proof. intros Hs Hne. pose proof (inv_quiet s Hs). destruct (closed s), (polled s); try done; exfalso; apply Hne; auto. Qed.

Lemma inv_not_stopping s : inv s → closed s = false → stopping s = false.
Proof. intros Hs. rewrite (inv_stopping s Hs) (inv_closed s Hs). by destruct (run s). Qed.

Lemma inv_assign_begins s l :
  inv s → may_call false s → NoDup l → (∀ a, a ∈ l → a ∉ owned s ∪ lost s) →
  inv (set_owned (owned s ∪ list_to_set l) (lost s) (evicted s) (if stopping s then s else set_rebalance (Assigning l) s)).
Proof.
  intros Hs (Hnc & Hp & [Hc|]) Hl Ho; [|done]. rewrite (inv_not_stopping s Hs Hc).
  destruct Hs as [Hreg Hown Hlive Huniq Hcb Hcre Hcl Hst Hlost Hq Hpol Hdone Hall]. split; simpl; try done.
  - intros i c Hi Hlc. specialize (Hown i c Hi Hlc). set_solver.
  - intros i c Hi Hlc. destruct (Hlive i c Hi Hlc) as [|[_ [Hc'|(l' & r & w & Hr & _)]]]; [by left|congruence|congruence].
  - unfold callback_ok. simpl. split_and!; [done| |].
    + intros a Ha. apply elem_of_union_l. by apply elem_of_union_r, elem_of_list_to_set.
    + intros i c Hi Hlc Hin. eapply Ho; [done|]. by eapply Hown.
  - intros i c Hi Hpc. destruct (Hcre i c Hi Hpc) as [rest Hr]. congruence.
  - rewrite Hc Hp. by intros [].
Qed.

Lemma inv_assign_one s a rest :
  inv s → rebalance s = Assigning (a :: rest) → inv (set_rebalance (Starting (length (goroutines s)) rest) (register a s)).
Proof.
  intros Hs Hr. destruct (inv_in_callback s Hs) as [Hc Hp]; [by rewrite Hr|].
  destruct Hs as [Hreg Hown Hlive Huniq Hcb Hcre Hcl Hst Hlost Hq Hpol Hdone Hall].
  unfold callback_ok in Hcb. rewrite Hr in Hcb. destruct Hcb as ((Ha & Hn)%NoDup_cons & Hin & Hfree).
  assert (∀ i c, (goroutines s ++ [NewPartitionConsumer a]) !! i = Some c → goroutines s !! i = Some c ∨ (i = length (goroutines s) ∧ c = NewPartitionConsumer a)) as Hnew.
  { intros i c [?|[Hlen Hi]]%lookup_app_Some; [by left|]. right. apply list_lookup_singleton_Some in Hi as [Hi <-]. split; [lia|done]. }
  assert (∀ i c, goroutines s !! i = Some c → live c → part c ≠ a) as Hother.
  { intros i c Hi Hlc Heq. eapply Hfree; [exact Hi|exact Hlc|]. rewrite Heq. by left. }
  split; simpl; try done.
  - intros b i [(<- & <-)|(Hne & Hb)]%lookup_insert_Some.
    + exists (NewPartitionConsumer a). by rewrite lookup_app_r // Nat.sub_diag.
    + destruct (Hreg b i Hb) as (c & Hi & ?). exists c. split; [|done]. by apply lookup_app_l_Some.
  - intros i c [Hi|[_ ->]]%Hnew Hlc; [by eapply Hown|]. apply Hin. by left.
  - intros i c [Hi|[-> ->]]%Hnew Hlc; [|left; simpl; by rewrite lookup_insert_eq].
    rewrite lookup_insert_ne; [by apply not_eq_sym, (Hother i)|].
    destruct (Hlive i c Hi Hlc) as [|[_ [Hc'|(l' & r & w & Hr' & _)]]]; [by left|congruence|congruence].
  - intros i j c d [Hi|[-> ->]]%Hnew [Hj|[-> ->]]%Hnew Hlc Hld Hpd; [by eapply Huniq| | |done].
    + by eapply Hother in Hpd.
    + symmetry in Hpd. by eapply Hother in Hpd.
  - unfold callback_ok. simpl. split.
    + split_and!; [done|intros b Hb; apply Hin; by right|]. intros i c [Hi|[-> ->]]%Hnew Hlc; [|done].
      intros Hb. eapply Hfree; [done|done|]. by right.
    + exists (NewPartitionConsumer a). by rewrite lookup_app_r // Nat.sub_diag.
  - intros i c [Hi|[-> ->]]%Hnew Hpc; [|by eexists]. destruct (Hcre i c Hi Hpc) as [r ?]. congruence.
  - rewrite Hc Hp. by intros [].
  - intros Hd. rewrite Hdone in Hd. exfalso. by destruct (run s); simpl in *; congruence.
Qed.

Lemma inv_assign_starts s i c rest :
  inv s → rebalance s = Starting i rest → goroutines s !! i = Some c → inv (set_rebalance (Assigning rest) (set_goroutine i (with_pc Select c) s)).
Proof.
  intros Hs Hr Hi. destruct (inv_in_callback s Hs) as [Hc Hp]; [by rewrite Hr|].
  destruct Hs as [Hreg Hown Hlive Huniq Hcb Hcre Hcl Hst Hlost Hq Hpol Hdone Hall].
  unfold callback_ok in Hcb. rewrite Hr in Hcb. destruct Hcb as ((Hn & Hin & Hfree) & c' & Hi' & Hpc). simplify_eq.
  assert (live c) as Hlc by (by unfold live, returned; rewrite Hpc).
  assert (∀ j d, <[i := with_pc Select c]> (goroutines s) !! j = Some d → ∃ d0, goroutines s !! j = Some d0 ∧ part d = part d0 ∧ stop d = stop d0 ∧
    (live d → live d0) ∧ (pc d = Created → pc d0 = Created ∧ j ≠ i)) as Hback.
  { intros j d [(-> & <- & _)|(Hne & Hj)]%list_lookup_insert_Some; [by exists c|]. exists d. by split_and!. }
  split; simpl; try done.
  - intros a j Ha. destruct (Hreg a j Ha) as (d & Hj & Hd & Hs). destruct (decide (i = j)) as [->|Hne].
    + exists (with_pc Select c). rewrite list_lookup_insert_eq; [by eapply lookup_lt_Some|]. by simplify_eq.
    + exists d. by rewrite list_lookup_insert_ne.
  - intros j d (d0 & Hj & -> & _ & Hl & _)%Hback Hd. by eapply Hown, Hl.
  - intros j d (d0 & Hj & -> & -> & Hl & _)%Hback Hd.
    destruct (Hlive j d0 Hj (Hl Hd)) as [|[_ [Hc'|(l' & r & w & Hr' & _)]]]; [by left|congruence|congruence].
  - intros j k d e (d0 & Hj & -> & _ & Hl & _)%Hback (e0 & Hk & -> & _ & Hl' & _)%Hback Hd He. by eapply Huniq; [..|apply Hl|apply Hl'].
  - unfold callback_ok. simpl. split_and!; [done..|]. intros j d (d0 & Hj & -> & _ & Hl & _)%Hback Hd. by eapply Hfree, Hl.
  - intros j d (d0 & Hj & _ & _ & _ & Hcr)%Hback Hd. destruct (Hcr Hd) as [Hd0 Hne]. destruct (Hcre j d0 Hj Hd0) as [r ?]. congruence.
  - rewrite Hc Hp. by intros [].
Qed.

Lemma inv_revoke_one s l a rest waiting :
  inv s → rebalance s = Revoking l (a :: rest) waiting →
  inv (set_rebalance (Revoking l rest (match (revoke a s).2 with Some i => i :: waiting | None => waiting end)) (revoke a s).1).
Proof.
  intros Hs Hr. destruct (inv_in_callback s Hs) as [Hc Hp]; [by rewrite Hr|].
  pose proof Hs as [Hreg Hown Hlive Huniq Hcb Hcre Hcl Hst Hlost Hq Hpol Hdone Hall].
  unfold callback_ok in Hcb. rewrite Hr in Hcb. destruct Hcb as (Hin & Hcov).
  unfold revoke. destruct (consumers s !! a) as [n|] eqn:Ha; simpl.
  - destruct (Hreg a n Ha) as (e & Hn & Hpe & Hse).
    assert (∀ j d, alter stop_consumer n (goroutines s) !! j = Some d →
      ∃ d0, goroutines s !! j = Some d0 ∧ part d = part d0 ∧ pc d = pc d0 ∧ (live d → live d0) ∧ (j = n ∧ stop d = true ∧ d0 = e ∨ j ≠ n ∧ d = d0)) as Hback.
    { intros j d Hj. destruct (decide (n = j)) as [<-|Hne].
      - rewrite list_lookup_alter_eq Hn /= in Hj. simplify_eq/=. exists e. split_and!; try done. by left.
      - rewrite list_lookup_alter_ne // in Hj. exists d. split_and!; try done. by right. }
    split; simpl; try done.
    + intros b j [Hne Hb]%lookup_delete_Some. destruct (Hreg b j Hb) as (d & Hj & Hpd & Hsd). exists d.
      rewrite list_lookup_alter_ne //. intros <-. simplify_eq.
    + intros j d (d0 & Hj & -> & _ & Hl & _)%Hback Hd. by eapply Hown, Hl.
    + intros j d (d0 & Hj & -> & _ & Hl & Hor)%Hback Hd.
      destruct Hor as [(-> & Hsd & ->)|(Hne & ->)]; [right; split; [done|]; right; eexists _, _, _; split; [done|]; by left|].
      destruct (Hlive j d0 Hj (Hl Hd)) as [Hjc|(Hsd & [Hc'|(l' & r & w & Hr' & Hw)])]; [|congruence|].
      * left. rewrite lookup_delete_ne //. intros Heq. rewrite -Heq in Hjc. congruence.
      * right. split; [done|]. right. eexists _, _, _. split; [done|]. right. congruence.
    + intros j k d f (d0 & Hj & -> & _ & Hl & _)%Hback (e0 & Hk & -> & _ & Hl' & _)%Hback Hd Hf. by eapply Huniq; [..|apply Hl|apply Hl'].
    + unfold callback_ok. simpl. split; [done|]. intros j d (d0 & Hj & -> & _ & Hl & Hor)%Hback Hd Hpd.
      destruct Hor as [(-> & Hsd & ->)|(Hne & ->)]; [right; by left|].
      destruct (Hcov j d0 Hj (Hl Hd) Hpd) as [[Heq|]%elem_of_cons|]; [|by left|right; by right].
      destruct (Hlive j d0 Hj (Hl Hd)) as [Hjc|(_ & [Hc'|(l' & r & w & Hr' & Hw)])]; [congruence|congruence|right; right; congruence].
    + intros j d (d0 & Hj & _ & Hpc & _)%Hback Hd. rewrite Hpc in Hd. destruct (Hcre j d0 Hj Hd) as [r ?]. congruence.
    + rewrite Hc Hp. by intros [].
    + intros Hd. by rewrite Hall in Ha.
  - apply inv_rebalance; [done|done|done| | |].
    + unfold callback_ok. simpl. split; [done|]. intros j d Hj Hd Hpd.
      destruct (Hcov j d Hj Hd Hpd) as [[Heq|]%elem_of_cons|]; [|by left|by right].
      destruct (Hlive j d Hj Hd) as [Hjc|(_ & [Hc'|(l' & r & w & Hr' & Hw)])]; [congruence|congruence|right; congruence].
    + intros j d Hj Hd [Hc'|(l' & r & w & Hr' & Hw)]; [congruence|]. right. eexists _, _, _. split; [done|]. congruence.
    + intros j d Hj Hd. destruct (Hcre j d Hj Hd) as [r ?]. congruence.
Qed.

Lemma inv_rebalance_step s s' : inv s → rebalance_step false s s' → inv s'.
Proof.
  intros Hs Hstep.
  destruct Hstep as [l Hcall Hl Ho|a rest Hr _ Hst|a rest Hr _ Hst|i c rest Hr Hd Hi _|i rest Hr Hd|Hr|l Hc Ho|l Hcall Ho|l a rest waiting Hr _|l waiting Hr Hw].
  - by apply inv_assign_begins.
  - by apply inv_assign_one.
  - destruct (inv_in_callback s Hs) as [Hc _]; [by rewrite Hr|]. by rewrite (inv_not_stopping s Hs Hc) in Hst.
  - by apply inv_assign_starts.
  - destruct (inv_in_callback s Hs) as [Hc _]; [by rewrite Hr|]. unfold coffin_dead in Hd.
    rewrite (inv_done s Hs) in Hd. rewrite (inv_closed s Hs) in Hc. by destruct (run s).
  - destruct (inv_in_callback s Hs) as [Hc Hp]; [by rewrite Hr|]. apply inv_rebalance; try done.
    + intros i c Hi Hlc [Hc'|(l & r & w & Hr' & _)]; congruence.
    + intros i c Hi Hpc. destruct (inv_created s Hs i c Hi Hpc) as [r ?]. congruence.
  - apply inv_loses; [done|]. intros a. rewrite !elem_of_union elem_of_difference elem_of_list_to_set. specialize (Ho a).
    destruct (decide (a ∈ l)); naive_solver.
  - destruct Hcall as (Hnc & Hp & [Hc|]); [|done]. apply inv_rebalance; try done.
    + unfold callback_ok. simpl. split; [done|]. by left.
    + intros i c Hi Hlc [Hc'|(l' & r & w & Hr' & _)]; congruence.
    + intros i c Hi Hpc. destruct (inv_created s Hs i c Hi Hpc) as [r ?]. congruence.
  - by apply inv_revoke_one.
  - destruct (inv_in_callback s Hs) as [Hc Hp]; [by rewrite Hr|].
    destruct Hs as [Hreg Hown Hlive Huniq Hcb Hcre Hcl Hst Hlost Hq Hpol Hdone Hall].
    unfold callback_ok in Hcb. rewrite Hr in Hcb. destruct Hcb as (Hin & Hcov).
    assert (∀ i c, goroutines s !! i = Some c → live c → i ∉ waiting) as Hnw.
    { intros i c Hi Hlc Hiw. specialize (Hw i c Hiw Hi). unfold live in Hlc. congruence. }
    split; simpl; try done.
    + intros i c Hi Hlc. assert (Hpl : part c ∉ l).
      { intros Hpl. destruct (Hcov i c Hi Hlc Hpl) as [Hn|Hiw]; [by apply not_elem_of_nil in Hn|]. by eapply Hnw. }
      specialize (Hown i c Hi Hlc). rewrite !elem_of_union !elem_of_difference elem_of_list_to_set. rewrite elem_of_union in Hown. naive_solver.
    + intros i c Hi Hlc. destruct (Hlive i c Hi Hlc) as [|(_ & [Hc'|(l' & r & w & Hr' & Hiw)])]; [by left|congruence|].
      exfalso. eapply Hnw; [done|done|]. congruence.
    + intros i c Hi Hpc. destruct (Hcre i c Hi Hpc) as [r ?]. congruence.
    + intros Hc1 He1. rewrite (Hlost Hc1 He1). set_solver.
Qed.

Lemma inv_step s s' : inv s → step s s' → inv s'.
Proof.
  intros Hs [i c s'' Hi Hc|s'' Hr|s'' Hr| |Hst].
  - by eapply inv_consume.
  - by eapply inv_run_step.
  - by eapply inv_rebalance_step.
  - by destruct Hs.
  - by destruct Hs.
Qed.

Lemma inv_reachable s : rtc step initial s → inv s.
Proof. apply rtc_invariant; [|apply inv_initial]. intros x y Hx. by apply inv_step. Qed.

(** C37: In every state of the consumer the records of a partition are handled and committed by at most one of its goroutines, and only
    of a partition that the client owns, or that the group has taken away without waiting.  The latter are only there when the
    session of the member has ended (then OnPartitionsLost waits for the goroutines, but the group did not) or the client has left
    because Run closed it (PartitionManager.Stop comes after that); without either, a partition that was revoked has no goroutine
    once OnPartitionsLostOrRevoked has returned.  A goroutine that is not done is the one the manager has for its partition, or was
    told to stop.  Assumed of the client: callbacks come one at a time, not between a poll and AllowRebalance and not after it was
    closed; partitions are assigned that it does not have. *)
Theorem partitions_exclusively_owned s :
  rtc step initial s →
  (∀ i c, goroutines s !! i = Some c → live c → part c ∈ owned s ∨ part c ∈ lost s) ∧
  (closed s = false → evicted s = false → lost s = ∅) ∧
  (∀ i j c d, goroutines s !! i = Some c → goroutines s !! j = Some d → live c → live d → part c = part d → i = j) ∧
  (∀ i c, goroutines s !! i = Some c → live c → consumers s !! part c = Some i ∨ stop c = true).
Proof.
  intros Hs%inv_reachable. split_and!; [intros i c Hi Hc; by eapply elem_of_union, inv_owned | by apply inv_lost | by apply inv_unique|].
  intros i c Hi Hc. destruct (inv_live s Hs i c Hi Hc) as [|[]]; auto.
Qed.
End Invariant.

(** ** What is committed was handled *)
Section History.
Context (isReadOnly late : bool).
Notation step := (step isReadOnly late).

(** Every commit has the handling of its records before it. *)
Definition commits_follow (h : list event) : Prop :=
  ∀ h1 h2 a records, h = h1 ++ Committed a records :: h2 → ∃ panicked, Handled a records panicked ∈ h1.

Record handled_inv (s : system) : Prop := {
  handled_history : commits_follow (history s);
  handled_committing i c records :
    goroutines s !! i = Some c → pc c = Committing records → ∃ panicked, Handled (part c) records panicked ∈ history s
}.

Lemma commits_follow_snoc h e :
  commits_follow h → (∀ a records, e = Committed a records → ∃ panicked, Handled a records panicked ∈ h) → commits_follow (h ++ [e]).
Proof.
  intros Hh He h1 h2 a records Heq. destruct h2 as [|e' h2 _] using rev_ind.
  - apply app_inj_tail in Heq as [-> ->]. by eapply He.
  - rewrite app_comm_cons app_assoc in Heq. apply app_inj_tail in Heq as [-> _]. by eapply Hh.
Qed.

(** Steps that leave the history and who commits alone. *)
Lemma handled_inv_same s s' :
  handled_inv s → history s' = history s →
  (∀ i c records, goroutines s' !! i = Some c → pc c = Committing records →
    ∃ j d, goroutines s !! j = Some d ∧ pc d = Committing records ∧ part d = part c) → handled_inv s'.
Proof.
  intros [Hh Hc] Heq Hg. split; [by rewrite Heq|]. intros i c records Hi Hpc.
  destruct (Hg i c records Hi Hpc) as (j & d & Hj & Hd & <-). rewrite Heq. by eapply Hc.
Qed.

Lemma handled_inv_goroutine s i c p :
  handled_inv s → goroutines s !! i = Some c → (∀ records, p ≠ Committing records) → handled_inv (set_goroutine i (with_pc p c) s).
Proof.
  intros Hs Hi Hp. eapply handled_inv_same; [done|done|]. simpl.
  intros j d records [(-> & <- & _)|(Hne & Hj)]%list_lookup_insert_Some Hpc; [by eapply Hp in Hpc|]. by exists j, d.
Qed.

Lemma handled_inv_consume s i c s' : handled_inv s → goroutines s !! i = Some c → consume_step s i c s' → handled_inv s'.
Proof.
  intros Hs Hi Hstep. destruct Hstep as [err Hpc Hctx|Hpc Hstop|records pan Hpc|records Hpc|records err Hpc]; try by apply handled_inv_goroutine.
  - destruct Hs as [Hh Hc]. split; simpl.
    + by apply commits_follow_snoc.
    + intros j d rs [(-> & <- & _)|(Hne & Hj)]%list_lookup_insert_Some Hd.
      * simplify_eq/=. exists pan. apply elem_of_app. right. by apply list_elem_of_singleton.
      * destruct (Hc j d rs Hj Hd) as [b Hb]. exists b. apply elem_of_app. by left.
  - destruct Hs as [Hh Hc]. split; simpl.
    + apply commits_follow_snoc; [done|]. intros a rs Heq. simplify_eq. by eapply Hc.
    + intros j d rs [(-> & <- & _)|(Hne & Hj)]%list_lookup_insert_Some Hd; [done|].
      destruct (Hc j d rs Hj Hd) as [b Hb]. exists b. apply elem_of_app. by left.
Qed.

Ltac same_goroutines := eapply handled_inv_same; [eassumption|done|simpl; intros j d rs ? ?; by exists j, d].

Lemma handled_inv_run s s' : handled_inv s → run_step isReadOnly late s s' → handled_inv s'.
Proof.
  intros Hs Hstep. destruct Hstep as [| | | | | | |a records rest Hr _|i records rest c Hr Hi Hpc| | | |err Hr|]; try same_goroutines.
  - destruct Hs as [Hh Hc]. split; simpl; [by apply commits_follow_snoc|].
    intros j d rs Hj Hd. destruct (Hc j d rs Hj Hd) as [b Hb]. exists b. apply elem_of_app. by left.
  - eapply (handled_inv_same (set_goroutine i _ s)); [apply (handled_inv_goroutine s i c)|done|simpl; intros j d rs ? ?; by exists j, d]; [done|done|].
    by case_bool_decide.
  - eapply handled_inv_same; [done|done|]. simpl. intros j d rs Hj Hd.
    apply (lookup_stop_all s) in Hj as (d0 & Hj & Hp & Hpc & _). exists j, d0. by rewrite -Hpc.
Qed.

Lemma handled_inv_rebalance s s' : handled_inv s → rebalance_step late s s' → handled_inv s'.
Proof.
  intros Hs Hstep. destruct Hstep as [l Hcall Hl Ho|a rest Hr _ Hst| |i c rest Hr Hd Hi Hpc| | | | |l a rest waiting Hr _|]; try same_goroutines.
  - destruct (stopping s); same_goroutines.
  - eapply handled_inv_same; [done|done|]. simpl. intros j d rs [Hj|[_ Hj]]%lookup_app_Some Hd; [by exists j, d|].
    apply list_lookup_singleton_Some in Hj as [_ <-]. done.
  - eapply (handled_inv_same (set_goroutine i _ s)); [apply (handled_inv_goroutine s i c)|done|simpl; intros j d rs ? ?; by exists j, d]; done.
  - eapply handled_inv_same; [done|unfold revoke; by destruct (consumers s !! a)|]. unfold revoke.
    destruct (consumers s !! a) as [n|]; simpl; [|intros j d rs ? ?; by exists j, d].
    intros j d rs Hj Hd. destruct (decide (n = j)) as [<-|Hne].
    + rewrite list_lookup_alter_eq in Hj. apply fmap_Some in Hj as (d0 & Hj & ->). by exists n, d0.
    + rewrite list_lookup_alter_ne // in Hj. by exists j, d.
Qed.

Lemma handled_inv_reachable s : rtc step initial s → handled_inv s.
Proof.
  apply rtc_invariant.
  - intros x y Hx [i c s' Hi Hc|s' Hr|s' Hr| |Hst]; [by eapply handled_inv_consume|by eapply handled_inv_run|by eapply handled_inv_rebalance| |]; same_goroutines.
  - split; [|done]. intros [|] h2 a records Heq; done.
Qed.

(** Records are committed only after the message handler had them. *)
Theorem committed_were_handled s a records :
  rtc step initial s → Committed a records ∈ history s → ∃ panicked, Handled a records panicked ∈ history s.
Proof.
  intros [Hh _]%handled_inv_reachable (h1 & h2 & Heq)%list_elem_of_split. destruct (Hh _ _ _ _ Heq) as [b Hb].
  exists b. rewrite Heq. apply elem_of_app. by left.
Qed.

(** Run waits for ever in Handle when the goroutine of the partition has returned: whatever happens, also when the context is canceled or
    Stop is called. *)
Lemma returned_blocks_Run s i records rest c s' :
  run s = Sending i records rest → goroutines s !! i = Some c → returned c = true →
  rtc step s s' → run s' = Sending i records rest.
Proof.
  intros Hr Hi Hc Hsteps.
  assert (run s' = Sending i records rest ∧ ∃ c', goroutines s' !! i = Some c' ∧ returned c' = true) as [? _]; [|done].
  revert Hsteps. apply (rtc_invariant step (λ s, run s = Sending i records rest ∧ ∃ c', goroutines s !! i = Some c' ∧ returned c' = true)); [|by eauto].
  clear. intros s s' (Hr & c & Hi & Hc) Hstep.
  assert (∀ j p d, goroutines s !! j = Some d → returned d = false → ∃ c', <[j := with_pc p d]> (goroutines s) !! i = Some c' ∧ returned c' = true) as Hset.
  { intros j p d Hj Hd. exists c. split; [|done]. rewrite list_lookup_insert_ne //. intros ->. simplify_eq. congruence. }
  destruct Hstep as [j d s' Hj Hstep|s' Hstep|s' Hstep| |Hst]; try by (split; [done|]; eauto).
  - destruct Hstep as [err Hpc Hctx|Hpc Hstop|rs pan Hpc|rs Hpc|rs err Hpc]; (split; [done|]); apply Hset; try done; unfold returned; by rewrite Hpc.
  - destruct Hstep as [| | | | | | | |? ? ? d Hr' Hi' Hpc| | | | |]; try congruence. rewrite Hr in Hr'. simplify_eq. unfold returned in Hc. by rewrite Hpc in Hc.
  - destruct Hstep as [l Hcall Hl Ho|a rs Hr' Hlf Hst|a rs Hr' _ _|j d rs Hr' Hd Hj Hcr|j rs Hr' Hd|Hr'|l Hc' Ho|l Hcall Ho|l a rs w Hr' Hlf|l w Hr' Hw];
      try by (split; [done|]; eauto).
    + destruct (stopping s); (split; [done|]; eauto).
    + unfold lock_free in Hlf. by rewrite Hr in Hlf.
    + split; [done|]. apply Hset; [done|]. unfold returned. by rewrite Hcr.
    + unfold lock_free in Hlf. by rewrite Hr in Hlf.
Qed.
End History.

(** ** Stop returns *)
Section Stop.
Context (isReadOnly : bool).
Notation step := (step isReadOnly false).

(** The steps of the goroutines. *)
Definition works (s s' : system) : Prop := ∃ i c, goroutines s !! i = Some c ∧ consume_step s i c s'.

(** The steps that a goroutine takes before it is done when it gets no more records. *)
Definition steps_left (c : partitionConsumer) : nat :=
  match pc c with
  | Handling _ => 3
  | Committing _ => 2
  | Select => 1
  | Created | Returned _ => 0
  end.

Definition total_left (s : system) : nat := sum_list_with steps_left (goroutines s).

Lemma sum_list_with_insert {A} (f : A → nat) l i x y :
  l !! i = Some x → sum_list_with f (<[i := y]> l) + f x = sum_list_with f l + f y.
Proof.
  revert i. induction l as [|z l IH]; intros [|i] Hi; simpl in *; try done; [simplify_eq; lia|]. specialize (IH i Hi). lia.
Qed.

Lemma works_left s s' : works s s' → total_left s' < total_left s ∧ run s' = run s.
Proof.
  intros (i & c & Hi & Hstep). assert (∀ p, steps_left (with_pc p c) < steps_left c →
    sum_list_with steps_left (<[i := with_pc p c]> (goroutines s)) < total_left s) as Hlt.
  { intros p Hp. pose proof (sum_list_with_insert steps_left (goroutines s) i c (with_pc p c) Hi). unfold total_left. lia. }
  destruct Hstep as [err Hpc Hctx|Hpc Hstop|rs pan Hpc|rs Hpc|rs err Hpc]; (split; [|done]); apply Hlt; unfold steps_left; rewrite Hpc; simpl; lia.
Qed.

Lemma total_left_length s : total_left s ≤ 3 * length (goroutines s).
Proof.
  unfold total_left. induction (goroutines s) as [|c l IH]; simpl; [lia|].
  assert (steps_left c ≤ 3) by (unfold steps_left; destruct (pc c); lia). lia.
Qed.

Lemma nsteps_left n s s' : nsteps works n s s' → n + total_left s' ≤ total_left s ∧ run s' = run s.
Proof.
  induction 1 as [|n s s1 s' Hs _ [IH Hr]]; [by split|]. apply works_left in Hs as [Hlt Hrun]. split; [lia|congruence].
Qed.

(** PartitionManager.Stop returns: the goroutines that it waits for take at most three steps each, and when they have taken them
    the wait is over. *)
Theorem manager_Stop_returns s err :
  rtc step initial s → run s = Waiting err →
  (∀ n s', nsteps works n s s' → n ≤ 3 * length (goroutines s)) ∧
  (∀ s', rtc works s s' → (∀ s'', ¬ works s' s'') → step s' (set_run (Finished err) s')).
Proof.
  intros Hs Hr. split.
  { intros n s' Hn%nsteps_left. pose proof (total_left_length s). lia. }
  intros s' Hw Hnf.
  assert (rtc step initial s' ∧ run s' = Waiting err) as [Hs' Hr'].
  { revert Hw. apply (rtc_invariant works (λ s, rtc step initial s ∧ run s = Waiting err)); [|done].
    clear. intros s s' [Hs Hr] Hw. split; [|by rewrite (proj2 (works_left _ _ Hw))].
    destruct Hw as (i & c & Hi & Hc). eapply rtc_r; [done|by eapply step_consume]. }
  clear Hs Hr Hw. apply step_run, run_returns; [done|]. apply inv_reachable in Hs'.
  assert (manager_done s' = true) as Hd by by rewrite (inv_done s' Hs') Hr'.
  unfold coffin_dead. rewrite Hd. apply forallb_forall. intros c (i & Hi)%list_elem_of_In%list_elem_of_lookup.
  destruct (pc c) eqn:Hpc; unfold not_running; rewrite Hpc; try done; exfalso.
  - destruct (inv_live s' Hs' i c Hi) as [Hc|[Hst _]]; [by unfold live, returned; rewrite Hpc| |].
    + by rewrite (inv_stopped_all s' Hs' Hd) in Hc.
    + eapply Hnf. exists i, c. split; [done|]. by apply consume_stopped.
  - eapply Hnf. exists i, c. split; [done|]. by eapply (consume_handled _ _ _ _ false).
  - eapply Hnf. exists i, c. split; [done|]. by eapply consume_committed.
Qed.
End Stop.

(** ** Errors of a fetch *)
Section Errors.
(** An error of a fetch, by what franz-go says of it: records were lost, it goes away by
    itself, the topic is not known. *)
Record FetchError := { is_data_loss : bool; is_retriable : bool; is_unknown_topic : bool }.

(** [pkg/kafka/consumer/consumer.go:271-297] the errors of a fetch that pollRecords joins *)
Definition pollRecords_errors (errs : list FetchError) : list FetchError :=
  List.filter (λ e, negb (is_data_loss e) && negb (is_retriable e && negb (is_unknown_topic e))) errs.

(** The errors of the executor, with what the two checks look at. *)
Context {A E : Type} (isUnknownTopicError IsRetryableKafkaError : E → bool).

(** [pkg/kafka/consumer/consumer.go:148-154] CheckKafkaUnknownTopicError *)
Definition CheckKafkaUnknownTopicError (_ : option A) (err : E) : ErrorType :=
  if isUnknownTopicError err then ErrorTypePermanent else ErrorTypeUnknown.

(** [pkg/kafka/consumer/consumer.go:163-176] CheckKafkaRetryableError, of an error that is not nil *)
Definition CheckKafkaRetryableError (_ : option A) (err : E) : ErrorType :=
  if IsRetryableKafkaError err then ErrorTypeRetryable else ErrorTypeUnknown.

(** An unknown topic is not retried, also when the error is one that franz-go retries. *)
Lemma unknown_topic_fails_fast (res : option A) (err : E) :
  verdict [CheckKafkaUnknownTopicError; CheckKafkaRetryableError] res err =
  if isUnknownTopicError err then ErrorTypePermanent else if IsRetryableKafkaError err then ErrorTypeRetryable else ErrorTypeUnknown.
Proof.
  rewrite !verdict_cons. unfold CheckKafkaUnknownTopicError, CheckKafkaRetryableError.
  by destruct (isUnknownTopicError err), (IsRetryableKafkaError err).
Qed.

(** The errors that stay are those of unknown topics and those that do not go away. *)
Lemma pollRecords_errors_spec errs e :
  e ∈ pollRecords_errors errs ↔ e ∈ errs ∧ is_data_loss e = false ∧ (is_retriable e = true → is_unknown_topic e = true).
Proof.
  unfold pollRecords_errors. rewrite list_elem_of_In filter_In -list_elem_of_In.
  destruct (is_data_loss e), (is_retriable e), (is_unknown_topic e); simpl; naive_solver.
Qed.
End Errors.

(** ** Samples *)
Module Samples.
Definition p0 : assignment := ("topic", 0%Z).
Definition p1 : assignment := ("topic", 1%Z).

Tactic Notation "run_by" uconstr(rule) := eapply rtc_l; [apply step_run; eapply rule; reflexivity|].
Tactic Notation "callback_by" uconstr(rule) := eapply rtc_l; [apply step_rebalance; eapply rule; try reflexivity|].
Tactic Notation "goroutine_by" constr(i) uconstr(rule) := eapply rtc_l; [eapply (step_consume _ _ _ i); [reflexivity|]; eapply rule; reflexivity|].

(** The client assigns partition 0. *)
Lemma after_assign late s' : rtc (step false late) (set_rebalance NoCallback (set_rebalance (Assigning []) (set_goroutine 0 (with_pc Select (NewPartitionConsumer p0))
    (set_rebalance (Starting 0 []) (register p0 (set_owned (∅ ∪ list_to_set [p0]) ∅ false (set_rebalance (Assigning [p0]) initial))))))) s' →
  rtc (step false late) initial s'.
Proof.
  intros Hs. callback_by (assign_begins late initial [p0]).
  { split_and!; [done..|by left]. }
  { apply NoDup_singleton. }
  { set_solver. }
  callback_by assign_one. callback_by assign_starts. callback_by assign_ends. exact Hs.
Qed.

Ltac fetch rs := eapply rtc_l; [apply step_run; eapply (run_fetched _ _ _ [(p0, rs)]); [reflexivity..|right; repeat constructor; set_solver]|].

(** The commit of the first batch fails; Run waits in Handle for ever with the second. *)
Example failed_commit_blocks_Run :
  ∃ s, rtc (step false false) initial s ∧ run s = Sending 0 [2%Z] [] ∧ history s = [Handled p0 [1%Z] false] ∧
    ∀ s', rtc (step false false) s s' → run s' = Sending 0 [2%Z] [].
Proof.
  eexists. split.
  { apply after_assign. run_by run_polls. fetch [1%Z]. run_by run_handles. run_by run_sends. run_by run_allows_rebalance.
    goroutine_by 0 (consume_handled _ _ _ [1%Z] false). goroutine_by 0 (consume_commit_failed _ _ _ [1%Z] (EValue context_Canceled)).
    run_by run_polls. fetch [2%Z]. run_by run_handles. apply rtc_refl. }
  split_and!; [reflexivity..|]. intros s' Hs'. eapply returned_blocks_Run; [..|exact Hs']; reflexivity.
Qed.

(** The context is canceled between a fetch and its Handle. *)
Example cancel_blocks_Run :
  ∃ s, rtc (step false false) initial s ∧ run s = Sending 0 [1%Z] [] ∧
    ∀ s', rtc (step false false) s s' → run s' = Sending 0 [1%Z] [].
Proof.
  eexists. split.
  { apply after_assign. run_by run_polls. fetch [1%Z]. eapply rtc_l; [apply step_cancel|].
    goroutine_by 0 (consume_canceled _ _ _ (EValue context_Canceled)). run_by run_handles. apply rtc_refl. }
  split_and!; [reflexivity..|]. intros s' Hs'. eapply returned_blocks_Run; [..|exact Hs']; reflexivity.
Qed.

(** The message handler panics, and the records are committed. *)
Example panicked_records_are_committed :
  ∃ s, rtc (step false false) initial s ∧ history s = [Handled p0 [1%Z] true; Committed p0 [1%Z]].
Proof.
  eexists. split.
  { apply after_assign. run_by run_polls. fetch [1%Z]. run_by run_handles. run_by run_sends.
    goroutine_by 0 (consume_handled _ _ _ [1%Z] true). goroutine_by 0 (consume_committed _ _ _ [1%Z]). apply rtc_refl. }
  reflexivity.
Qed.

(** With callbacks after the client was closed: an assignment panics when its goroutine is started after Stop, and a
    revocation does not wait for a goroutine that Stop waits for. *)
Example late_assignment_panics : ∃ s, rtc (step false true) initial s ∧ rebalance s = CallbackPanicked.
Proof.
  eexists. split.
  { callback_by (assign_begins true initial [p0]); [split_and!; [done..|by left]|apply NoDup_singleton|set_solver|].
    callback_by assign_one. eapply rtc_l; [apply step_Stop; reflexivity|]. run_by run_stopped.
    eapply rtc_l; [apply step_run; eapply run_closes; [reflexivity|by right]|]. run_by run_stops. run_by run_stops_all. callback_by assign_panics. apply rtc_refl. }
  reflexivity.
Qed.

Example late_revocation_does_not_wait :
  ∃ s, rtc (step false true) initial s ∧ p0 ∉ owned s ∧ goroutines s = [{| part := p0; stop := true; pc := Handling [1%Z] |}].
Proof.
  eexists. split.
  { apply after_assign. run_by run_polls. fetch [1%Z]. run_by run_handles. run_by run_sends. run_by run_allows_rebalance.
    eapply rtc_l; [apply step_Stop; reflexivity|]. run_by run_stopped.
    eapply rtc_l; [apply step_run; eapply run_closes; [reflexivity|by right]|]. run_by run_stops. run_by run_stops_all.
    callback_by (revoke_begins _ _ [p0]); [split_and!; [vm_compute; reflexivity..|by right]|intros a ->%list_elem_of_singleton; apply (bool_decide_eq_true_1 _); vm_compute; reflexivity|].
    callback_by revoke_one. callback_by revoke_ends; [intros i c Hi; by apply not_elem_of_nil in Hi|]. apply rtc_refl. }
  split; [|vm_compute; reflexivity].
  intros [_ Hn]%elem_of_difference. apply Hn, elem_of_list_to_set. by left.
Qed.

(** A goroutine in the message handler, before and during Stop. *)
Example handling_reachable :
  ∃ s, rtc (step false false) initial s ∧ goroutines s = [{| part := p0; stop := false; pc := Handling [1%Z] |}] ∧
    closed s = false ∧ evicted s = false.
Proof.
  eexists. split.
  { apply after_assign. run_by run_polls. fetch [1%Z]. run_by run_handles. run_by run_sends. apply rtc_refl. }
  done.
Qed.

(** The session of the member ends while a goroutine handles records: they are of a partition that may already be with
    somebody else. *)
Example lost_while_handling :
  ∃ s, rtc (step false false) initial s ∧ goroutines s = [{| part := p0; stop := false; pc := Handling [1%Z] |}] ∧
    p0 ∉ owned s ∧ p0 ∈ lost s.
Proof.
  eexists. split.
  { apply after_assign. run_by run_polls. fetch [1%Z]. run_by run_handles. run_by run_sends.
    callback_by (session_ends _ _ [p0]); [intros a ->%list_elem_of_singleton; apply (bool_decide_eq_true_1 _); vm_compute; reflexivity|].
    apply rtc_refl. }
  split; [reflexivity|]. split; [apply (bool_decide_eq_false_1 _)|apply (bool_decide_eq_true_1 _)]; vm_compute; reflexivity.
Qed.

Example stopping_reachable :
  ∃ s, rtc (step false false) initial s ∧ run s = Waiting None ∧ goroutines s = [{| part := p0; stop := true; pc := Handling [1%Z] |}].
Proof.
  eexists. split.
  { apply after_assign. run_by run_polls. fetch [1%Z]. run_by run_handles. run_by run_sends. run_by run_allows_rebalance.
    eapply rtc_l; [apply step_Stop; reflexivity|]. run_by run_stopped.
    eapply rtc_l; [apply step_run; eapply run_closes; [reflexivity|by left]|]. run_by run_stops. run_by run_stops_all. apply rtc_refl. }
  split; vm_compute; reflexivity.
Qed.
End Samples.

Lemma partitions_exclusively_owned_witness :
  ∃ s c, rtc (step false false) initial s ∧ goroutines s !! 0 = Some c ∧ pc c = Handling [1%Z] ∧ Samples.p0 ∈ owned s.
Proof.
  destruct Samples.handling_reachable as (s & Hs & Hg & Hc & He). exists s, {| part := Samples.p0; stop := false; pc := Handling [1%Z] |}.
  assert (goroutines s !! 0 = Some {| part := Samples.p0; stop := false; pc := Handling [1%Z] |}) as H0 by (rewrite Hg; reflexivity).
  split_and!; [exact Hs|exact H0|reflexivity|]. destruct (partitions_exclusively_owned false s Hs) as (Ho & Hl & _).
  destruct (Ho 0 _ H0 eq_refl) as [Hp|Hp]; [exact Hp|]. rewrite (Hl Hc He) in Hp. by apply not_elem_of_empty in Hp.
Defined.

Lemma committed_were_handled_witness :
  ∃ s panicked, rtc (step false false) initial s ∧ Committed Samples.p0 [1%Z] ∈ history s ∧ Handled Samples.p0 [1%Z] panicked ∈ history s.
Proof.
  destruct Samples.panicked_records_are_committed as (s & Hs & Hh). exists s.
  assert (Committed Samples.p0 [1%Z] ∈ history s) as Hc by (rewrite Hh; right; left).
  destruct (committed_were_handled false false s Samples.p0 [1%Z] Hs Hc) as [b Hb]. exists b. split_and!; [exact Hs|exact Hc|exact Hb].
Defined.

Lemma manager_Stop_returns_witness :
  ∃ s, rtc (step false false) initial s ∧ run s = Waiting None ∧ goroutines s ≠ [] ∧ ∀ n s', nsteps works n s s' → n ≤ 3.
Proof.
  destruct Samples.stopping_reachable as (s & Hs & Hr & Hg). exists s.
  split_and!; [exact Hs|exact Hr|rewrite Hg; discriminate|]. intros n s' Hn.
  pose proof (proj1 (manager_Stop_returns false s None Hs Hr) n s' Hn) as H. rewrite Hg in H. exact H.
Defined.
