(* ===== verification/Sampling.v ===== *)
(** Sampling: pkg/smpl, the decision whether a request is sampled, the strategies it is
    made by, and the attribute with which it travels with a message; pkg/smpl/smplctx
    keeps it in the context. *)
From S2P Require Import Prelude.

Open Scope string_scope.
Open Scope list_scope.
Open Scope nat_scope.

Section Decider.
Context {C : Type}.

(** A context: the sampling decision, and the rest. *)
Record context := { sampling : option bool; rest : C }.

(** [pkg/smpl/smplctx/context.go:15-17] WithSampling *)
Definition WithSampling (sampled : bool) (ctx : context) : context := {| sampling := Some sampled; rest := rest ctx |}.

(** [pkg/smpl/smplctx/context.go:19-27] HasSampling, of a context that is not nil *)
Definition HasSampling (ctx : context) : bool := match sampling ctx with Some _ => true | None => false end.

(** [pkg/smpl/smplctx/context.go:31-41] GetSampling, of a context that is not nil *)
Definition GetSampling (ctx : context) : bool := default true (sampling ctx).

(** [pkg/smpl/smplctx/context.go:44-48] IsSampled *)
Definition IsSampled (ctx : context) : bool := GetSampling ctx.

(** [pkg/smpl/strategies.go:13-13] Strategy, on a state of its own: whether it applies, the decision and the error *)
Definition Strategy (S : Type) : Type := context → S → S * result go_error (bool * bool).

(** [pkg/smpl/strategies.go:31-41] DecideByTracing, by the sampling of the trace of the context, if it has one *)
Definition DecideByTracing {S} (trace : C → option bool) : Strategy S := λ ctx s,
  (s, Ok match trace (rest ctx) with None => (false, false) | Some sampled => (true, sampled) end).

(** [pkg/smpl/strategies.go:44-48] DecideByAlways *)
Definition DecideByAlways {S} : Strategy S := λ _ s, (s, Ok (true, true)).

(** [pkg/smpl/strategies.go:51-55] DecideByNever *)
Definition DecideByNever {S} : Strategy S := λ _ s, (s, Ok (true, false)).

(** strconv.ParseBool and FormatBool. *)
Definition ParseBool (s : string) : option bool :=
  if bool_decide (s ∈ ["1"; "t"; "T"; "TRUE"; "true"; "True"]) then Some true
  else if bool_decide (s ∈ ["0"; "f"; "F"; "FALSE"; "false"; "False"]) then Some false
  else None.
Definition FormatBool (b : bool) : string := if b then "true" else "false".

(** [pkg/smpl/strategy_http_header.go:14-28] DecideByHttpHeader, by the value of the header *)
Definition DecideByHttpHeader {S} (val : string) : Strategy S := λ _ s,
  (s, if bool_decide (val = "") then Ok (false, false)
      else match ParseBool val with
           | None => Err (EWrap "could not parse sampling header value" (EMsg "invalid syntax"))
           | Some isSampled => Ok (true, isSampled)
           end).

(** [pkg/smpl/decider.go:101-114] the loop of Decide over the strategies: the first that applies decides, and without one it is true *)
Fixpoint apply_strategies {S} (strategies : list (Strategy S)) (ctx : context) (s : S) : S * result go_error bool :=
  match strategies with
  | [] => (s, Ok true)
  | strategy :: strategies =>
      match strategy ctx s with
      | (s, Err err) => (s, Err (EWrap "can not apply strategy" err))
      | (s, Ok (true, isSampled)) => (s, Ok isSampled)
      | (s, Ok (false, _)) => apply_strategies strategies ctx s
      end
  end.

(** [pkg/smpl/decider.go:86-128] Decide: the context, the decision and the error; the metric it writes is left out *)
Definition Decide {S} (enabled : bool) (strategies : list (Strategy S)) (overwriteStrategies : list (Strategy S)) (ctx : context) (s : S) :
    S * (context * bool * option go_error) :=
  if negb enabled then (s, (ctx, true, None))
  else if HasSampling ctx then (s, (ctx, GetSampling ctx, None))
  else match apply_strategies (overwriteStrategies ++ strategies) ctx s with
       | (s, Err err) => (s, (ctx, true, Some err))
       | (s, Ok finalIsSampled) => (s, (WithSampling finalIsSampled ctx, finalIsSampled, None))
       end.

(** [pkg/smpl/message_encode_handler.go:21-26] Encode *)
Definition Encode (ctx : context) (attributes : gmap string string) : context * gmap string string :=
  (ctx, <["sampled" := FormatBool (GetSampling ctx)]> attributes).

(** [pkg/smpl/message_encode_handler.go:29-46] Decode *)
Definition Decode (ctx : context) (attributes : gmap string string) : context * gmap string string * option go_error :=
  match attributes !! "sampled" with
  | None => (ctx, attributes, None)
  | Some v =>
      match ParseBool v with
      | None => (ctx, attributes, Some (EWrap "failed to parse sampled attribute" (EMsg "invalid syntax")))
      | Some sampled => (WithSampling sampled ctx, delete "sampled" attributes, None)
      end
  end.
End Decider.
Arguments context : clear implicits.

(** ** The probabilistic strategy *)

(** [pkg/smpl/strategy_probabilistic.go:14-18] ProbabilisticSettings, what decide reads of it beside the rate *)
Record ProbabilisticSettings := { Interval : Z; FixedSampleCount : Z }.

(** [pkg/smpl/strategy_probabilistic.go:23-30] probabilisticStrategy, what changes of it *)
Record probabilisticStrategy := { currentInterval : Z; fixedSamplesThisInterval : Z }.

(** A strategy that was not used yet. *)
Definition new_probabilistic : probabilisticStrategy := {| currentInterval := 0; fixedSamplesThisInterval := 0 |}.

(** [pkg/smpl/strategy_probabilistic.go:67-94] decide, at a time; [extra]: the random number is below the rate.  An interval of zero panics. *)
Definition decide (st : ProbabilisticSettings) (nowNanos : Z) (extra : bool) (s : probabilisticStrategy) : result panic (probabilisticStrategy * bool) :=
  if bool_decide (Interval st = 0%Z) then Err DivisionByZero else
  let current := Z.quot nowNanos (Interval st) in
  let s := if bool_decide (current = currentInterval s) then s else {| currentInterval := current; fixedSamplesThisInterval := 0 |} in
  if bool_decide (fixedSamplesThisInterval s < FixedSampleCount st)%Z
  then Ok ({| currentInterval := currentInterval s; fixedSamplesThisInterval := fixedSamplesThisInterval s + 1 |}, true)
  else Ok (s, extra).

(** ** Laws *)
Section Laws.
Context {C S : Type}.
Implicit Types (ctx : context C).

(** The decision is that of the first strategy that applies, those of the call before the configured ones; it stays with the
    context, and later calls repeat it without asking a strategy. *)
Theorem Decide_correct (before after : list (Strategy (C := C) S)) (strategy : Strategy (C := C) S) overwrites configured ctx s sampled :
  overwrites ++ configured = before ++ strategy :: after → sampling ctx = None →
  (∀ t, t ∈ before → ∀ c s, t c s = (s, Ok (false, false))) → strategy ctx s = (s, Ok (true, sampled)) →
  Decide true configured overwrites ctx s = (s, (WithSampling sampled ctx, sampled, None)) ∧
  ∀ (configured' overwrites' : list (Strategy (C := C) S)) s', Decide true configured' overwrites' (WithSampling sampled ctx) s' = (s', (WithSampling sampled ctx, sampled, None)).
Proof.
  intros Heq Hctx Hbefore Hst. split; [|done]. unfold Decide, HasSampling. rewrite Hctx Heq /=.
  assert (apply_strategies (before ++ strategy :: after) ctx s = (s, Ok sampled)) as ->; [|done].
  clear Heq. induction before as [|t before IH]; simpl; [by rewrite Hst|].
  rewrite (Hbefore t); [by left|]. apply IH. intros t' Ht'. apply Hbefore. by right.
Qed.

(** Without a decision of a strategy, or without sampling, everything is sampled; an error leaves the context alone. *)
Lemma Decide_default (overwrites configured : list (Strategy (C := C) S)) ctx s :
  (∀ t, t ∈ overwrites ++ configured → ∀ c s, t c s = (s, Ok (false, false))) → sampling ctx = None →
  Decide true configured overwrites ctx s = (s, (WithSampling true ctx, true, None)) ∧
  Decide false configured overwrites ctx s = (s, (ctx, true, None)).
Proof.
  intros Hall Hctx. split; [|done]. unfold Decide, HasSampling. rewrite Hctx /=.
  assert (apply_strategies (overwrites ++ configured) ctx s = (s, Ok true)) as ->; [|done].
  induction (overwrites ++ configured) as [|t l IH]; simpl; [done|]. rewrite (Hall t); [by left|]. apply IH. intros t' Ht'. apply Hall. by right.
Qed.

(** The decision that is encoded into the attributes of a message is decoded from them, and the attributes are as before. *)
Theorem sampling_travels ctx ctx' attributes :
  attributes !! "sampled" = None →
  Decode ctx' (Encode ctx attributes).2 = (WithSampling (GetSampling ctx) ctx', attributes, None).
Proof.
  intros Ha. unfold Decode, Encode. simpl. rewrite lookup_insert_eq. assert (ParseBool (FormatBool (GetSampling ctx)) = Some (GetSampling ctx)) as -> by by destruct (GetSampling ctx).
  by rewrite delete_insert_id.
Qed.
End Laws.

Section Probabilistic.
Context (st : ProbabilisticSettings).

(** The decisions for calls at times, with their random numbers. *)
Fixpoint decisions (calls : list (Z * bool)) (s : probabilisticStrategy) : result panic (list bool) :=
  match calls with
  | [] => Ok []
  | (now, extra) :: calls =>
      let! x := decide st now extra s in
      let! rest := decisions calls x.1 in
      Ok (x.2 :: rest)
  end.

Lemma decide_same s now extra :
  Interval st ≠ 0%Z → Z.quot now (Interval st) = currentInterval s →
  decide st now extra s =
  Ok (if bool_decide (fixedSamplesThisInterval s < FixedSampleCount st)%Z
      then ({| currentInterval := currentInterval s; fixedSamplesThisInterval := fixedSamplesThisInterval s + 1 |}, true) else (s, extra)).
Proof. intros Hi Hnow. unfold decide. rewrite (bool_decide_false (Interval st = 0%Z)) //. rewrite Hnow (bool_decide_true (currentInterval s = _)) //.
  simpl. by destruct (bool_decide (fixedSamplesThisInterval s < FixedSampleCount st)%Z). Qed.

(** Calls in one interval: the first ones up to the fixed number are sampled, the others by the random number. *)
Lemma decisions_in_interval calls s :
  Interval st ≠ 0%Z → (∀ c, c ∈ calls → Z.quot c.1 (Interval st) = currentInterval s) →
  decisions calls s = Ok (imap (λ i c, bool_decide (fixedSamplesThisInterval s + Z.of_nat i < FixedSampleCount st)%Z || c.2) calls).
Proof.
  intros Hi. revert s. induction calls as [|[now extra] calls IH]; intros s Hk; [done|].
  cbn [decisions]. rewrite decide_same; [done|exact (Hk (now, extra) ltac:(by left))|].
  assert (∀ c, c ∈ calls → Z.quot c.1 (Interval st) = currentInterval s) as Hk' by (intros c Hc; apply Hk; by right).
  rewrite imap_cons. simpl. rewrite Z.add_0_r. destruct (bool_decide (fixedSamplesThisInterval s < FixedSampleCount st)%Z) eqn:Hlt; simpl; rewrite IH //=; do 2 f_equal; apply imap_ext; intros i c _; simpl; f_equal.
  - apply bool_decide_ext. lia.
  - apply bool_decide_eq_false in Hlt. rewrite !bool_decide_false //; lia.
Qed.

(** In every interval as many calls are sampled as the settings guarantee, or all of them: the first ones, and no other that the random
    number does not choose. *)
Theorem probabilistic_guarantee calls s k :
  Interval st ≠ 0%Z → (∀ c, c ∈ calls → Z.quot c.1 (Interval st) = k) → currentInterval s ≠ k →
  decisions calls s = Ok (imap (λ i c, bool_decide (Z.of_nat i < FixedSampleCount st)%Z || c.2) calls).
Proof.
  intros Hi Hk Hs. destruct calls as [|[now extra] calls]; [done|].
  transitivity (decisions ((now, extra) :: calls) {| currentInterval := k; fixedSamplesThisInterval := 0 |}).
  - cbn [decisions]. unfold decide. rewrite (bool_decide_false (Interval st = 0%Z)) // (Hk (now, extra) ltac:(by left)). simpl. rewrite (bool_decide_false (k = currentInterval s)); [congruence|].
    by rewrite (bool_decide_true (k = k)).
  - by rewrite decisions_in_interval.
Qed.

(** A strategy that was not used starts in the interval 0, and has its guarantee there, too. *)
Lemma new_probabilistic_guarantee calls :
  Interval st ≠ 0%Z → (∀ c, c ∈ calls → Z.quot c.1 (Interval st) = 0%Z) →
  decisions calls new_probabilistic = Ok (imap (λ i c, bool_decide (Z.of_nat i < FixedSampleCount st)%Z || c.2) calls).
Proof. intros Hi Hk. by rewrite decisions_in_interval. Qed.
End Probabilistic.

Lemma Decide_correct_witness :
  Decide (S := unit) true [DecideByAlways] [DecideByHttpHeader ""; DecideByHttpHeader "0"] {| sampling := None; rest := tt |} tt =
  (tt, ({| sampling := Some false; rest := tt |}, false, None)).
Proof.
  apply (Decide_correct [DecideByHttpHeader ""] [DecideByAlways] (DecideByHttpHeader "0") [DecideByHttpHeader ""; DecideByHttpHeader "0"] [DecideByAlways]);
    [reflexivity | reflexivity | intros t ->%list_elem_of_singleton; reflexivity | reflexivity].
Defined.

Lemma sampling_travels_witness :
  Decode {| sampling := None; rest := tt |} (Encode {| sampling := Some false; rest := tt |} ∅).2 = ({| sampling := Some false; rest := tt |}, ∅, None).
Proof. apply (sampling_travels (C := unit) {| sampling := Some false; rest := tt |} {| sampling := None; rest := tt |} ∅). reflexivity. Defined.

Lemma probabilistic_guarantee_witness :
  decisions {| Interval := 10; FixedSampleCount := 1 |} [(20%Z, false); (21%Z, false); (29%Z, true)] new_probabilistic = Ok [true; false; true].
Proof.
  apply (probabilistic_guarantee {| Interval := 10; FixedSampleCount := 1 |} [(20%Z, false); (21%Z, false); (29%Z, true)] new_probabilistic 2);
    [discriminate | | discriminate].
  intros c Hc. repeat (apply elem_of_cons in Hc as [->|Hc]; [reflexivity|]). by apply not_elem_of_nil in Hc.
Defined.
