(* ===== verification/Log.v ===== *)
(** Logging: pkg/log/context.go (fields of a context, in maps that contexts share),
    logger.go (levels, channels and handlers), fingers_crossed.go (a scope that holds back
    what is logged until there is an error) and logger_sampling.go.  The sampling decision of a context is that of Sampling.  Handlers, which
    write, and the preparation of values by reflection are parameters. *)
From S2P Require Import Prelude FunkMaps Sampling.

Open Scope nat_scope.

(** ** The fields of a context

    The maps of fields are shared: a context has the addresses of two of them, and a map
    is changed in place.  The heap knows of each map whether it was made for local or for
    global fields. *)
Section Context_.
Context {V : Type} (o : map_order string V).

Definition heap : Type := list (bool * gmap string V).

(** [pkg/log/context.go:16-19] contextFields, by the addresses of the maps; [None] when the context has none *)
Record contextFields := { localFields : nat; globalFields : nat }.

(** The map at an address. *)
Definition data (a : nat) (h : heap) : gmap string V := default ∅ (snd <$> h !! a).

(** [pkg/log/context.go:169-171] the loop that adds fields to a map *)
Definition add_fields (newFields m : gmap string V) : gmap string V :=
  fold_left (λ m kv, <[kv.1 := kv.2]> m) (enum o newFields) m.

(** [pkg/log/context.go:137-191] appendContextFields *)
Definition appendContextFields (ctx : option contextFields) (newFields : gmap string V) (local mutate : bool) (h : heap) : heap * option contextFields :=
  match ctx with
  | None =>
      let fresh := MergeMaps o [newFields] in
      (h ++ [(true, if local then fresh else ∅); (false, if local then ∅ else fresh)],
       Some {| localFields := length h; globalFields := S (length h) |})
  | Some value =>
      let updateFields := if local then localFields value else globalFields value in
      if mutate then (alter (λ c, (c.1, add_fields newFields c.2)) updateFields h, ctx)
      else
        let updatedFields := length h in
        (h ++ [(local, MergeMaps o [data updateFields h; newFields])],
         Some (if local then {| localFields := updatedFields; globalFields := globalFields value |}
               else {| localFields := localFields value; globalFields := updatedFields |}))
  end.

(** [pkg/log/context.go:81-83] InitContext *)
Definition InitContext ctx h := appendContextFields ctx ∅ true true h.
(** [pkg/log/context.go:116-118] AppendContextFields *)
Definition AppendContextFields ctx newFields h := appendContextFields ctx newFields true false h.
(** [pkg/log/context.go:123-125] MutateContextFields *)
Definition MutateContextFields ctx newFields h := appendContextFields ctx newFields true true h.
(** [pkg/log/context.go:128-130] AppendGlobalContextFields *)
Definition AppendGlobalContextFields ctx newFields h := appendContextFields ctx newFields false false h.
(** [pkg/log/context.go:133-135] MutateGlobalContextFields *)
Definition MutateGlobalContextFields ctx newFields h := appendContextFields ctx newFields false true h.

(** [pkg/log/context.go:214-243] contextFieldsResolver *)
Definition contextFieldsResolver (ctx : option contextFields) (local global : bool) (h : heap) : gmap string V :=
  match ctx with
  | None => ∅
  | Some value =>
      MergeMaps o ((if local then [data (localFields value) h] else []) ++ (if global then [data (globalFields value) h] else []))
  end.

(** [pkg/log/context.go:198-200] LocalOnlyContextFieldsResolver *)
Definition LocalOnlyContextFieldsResolver ctx h := contextFieldsResolver ctx true false h.
(** [pkg/log/context.go:203-205] GlobalContextFieldsResolver *)
Definition GlobalContextFieldsResolver ctx h := contextFieldsResolver ctx false true h.
(** [pkg/log/context.go:210-212] ContextFieldsResolver *)
Definition ContextFieldsResolver ctx h := contextFieldsResolver ctx true true h.
End Context_.
Arguments heap : clear implicits.

(** ** Loggers *)
Section Logger.
Context {V : Type} (o : map_order string V) (prepareForLog : V → V) (of_bool : bool → V).

(** [pkg/log/logger.go:29-41] the priorities; an int has 64 bits *)
Definition PriorityTrace : Z := 0.
Definition PriorityDebug : Z := 1.
Definition PriorityInfo : Z := 2.
Definition PriorityWarn : Z := 3.
Definition PriorityError : Z := 4.
Definition PriorityNone : Z := 2 ^ 63 - 1.

(** [pkg/log/logger.go:44-51] levelNames *)
Definition levelNames : gmap Z string := {[PriorityTrace := "trace"; PriorityDebug := "debug"; PriorityInfo := "info"; PriorityWarn := "warn"; PriorityError := "error"; PriorityNone := "none"]}.
(** [pkg/log/logger.go:53-60] levelPriorities *)
Definition levelPriorities : gmap string Z := {["trace" := PriorityTrace; "debug" := PriorityDebug; "info" := PriorityInfo; "warn" := PriorityWarn; "error" := PriorityError; "none" := PriorityNone]}.
(** [pkg/log/logger.go:63-65] LevelName *)
Definition LevelName (lvl : Z) : string := default "" (levelNames !! lvl).
(** [pkg/log/logger.go:69-73] LevelPriority *)
Definition LevelPriority (name : string) : option Z := levelPriorities !! name.

(** [pkg/log/fields.go:9-29] mergeFields, with prepareForLog as a parameter *)
Definition mergeFields (receiver input : gmap string V) : gmap string V :=
  let add newMap (kv : string * V) := if bool_decide (kv.1 = "") then newMap else <[kv.1 := prepareForLog kv.2]> newMap in
  fold_left add (enum o input) (fold_left add (enum o receiver) ∅).

(** [pkg/log/logger.go:76-80] Data *)
Record Data := { Channel : string; ContextFields : gmap string V; Fields : gmap string V }.

(** [pkg/log/fingers_crossed.go:12-20] fingersCrossedEntry, without the context; the message with its arguments *)
Record entry := { timestamp : Z; level : Z; msg : string; data_ : Data }.

(** A handler: its level for a channel, if it has one, its level for the others, and
    whether writing an entry fails. *)
Record handler := { ChannelLevel : string → result go_error (option Z); Level : Z; Log : entry → option go_error }.

(** [pkg/log/logger.go:120-126] gosoLogger; the clock is an argument of log *)
Record gosoLogger := { channel : string; fields : gmap string V; handlers : list handler; samplingEnabled : bool }.

(** What can be seen of logging: a handler, by its number, got an entry; an error was
    printed to stderr. *)
Inductive event := Logged (i : nat) (e : entry) | Failed (err : go_error).

(** [pkg/log/logger.go:177-182] WithChannel *)
Definition WithChannel (c : string) (l : gosoLogger) : gosoLogger :=
  {| channel := c; fields := fields l; handlers := handlers l; samplingEnabled := samplingEnabled l |}.

(** [pkg/log/logger.go:184-189] WithFields *)
Definition WithFields (fs : gmap string V) (l : gosoLogger) : gosoLogger :=
  {| channel := channel l; fields := mergeFields (fields l) fs; handlers := handlers l; samplingEnabled := samplingEnabled l |}.

(** [pkg/log/logger.go:270-278] shouldLog *)
Definition shouldLog (current : string) (lvl : Z) (h : handler) : result go_error bool :=
  match ChannelLevel h current with
  | Err err => Err (EWrap "can not get channel level" err)
  | Ok (Some channelLevel) => Ok (bool_decide (channelLevel ≤ lvl)%Z)
  | Ok None => Ok (bool_decide (Level h ≤ lvl)%Z)
  end.

(** [pkg/log/logger.go:255-267] what executeHandlers does with one handler *)
Definition executeHandler (l : gosoLogger) (e : entry) (i : nat) (h : handler) : list event :=
  match shouldLog (channel l) (level e) h with
  | Err err => [Failed err]
  | Ok false => []
  | Ok true => Logged i e :: match Log h e with Some err => [Failed err] | None => [] end
  end.

(** [pkg/log/logger.go:254-268] executeHandlers *)
Definition executeHandlers (l : gosoLogger) (e : entry) : list event := mjoin (imap (executeHandler l e) (handlers l)).

(** [pkg/log/fingers_crossed.go:23-28] fingersCrossedScope *)
Record fingersCrossedScope := { scope_logger : option gosoLogger; buffer : list entry; flushed : bool }.

Definition empty_scope : fingersCrossedScope := {| scope_logger := None; buffer := []; flushed := false |}.

(** [pkg/log/fingers_crossed.go:45-45] an entry is marked when it is flushed *)
Definition mark (e : entry) : entry := {|
  timestamp := timestamp e; level := level e; msg := msg e;
  data_ := {| Channel := Channel (data_ e); ContextFields := <["fingers_crossed_flushed" := of_bool true]> (ContextFields (data_ e)); Fields := Fields (data_ e) |} |}.

(** [pkg/log/fingers_crossed.go:30-50] flush; without a logger it panics *)
Definition flush (s : fingersCrossedScope) : result panic (fingersCrossedScope * list event) :=
  match buffer s with
  | [] => Ok ({| scope_logger := scope_logger s; buffer := []; flushed := true |}, [])
  | _ =>
      match scope_logger s with
      | None => Err NilDereference
      | Some l => Ok ({| scope_logger := scope_logger s; buffer := []; flushed := true |},
                      mjoin ((λ e, executeHandlers l (mark e)) <$> buffer s))
      end
  end.

(** [pkg/log/fingers_crossed.go:52-57] shouldFlush *)
Definition shouldFlush (lvl : Z) (s : fingersCrossedScope) : bool := flushed s || bool_decide (PriorityError ≤ lvl)%Z.

(** [pkg/log/fingers_crossed.go:83-105] appendToFingersCrossedScope, of a scope *)
Definition appendToFingersCrossedScope (l : gosoLogger) (e : entry) (s : fingersCrossedScope) : fingersCrossedScope :=
  {| scope_logger := Some l; buffer := buffer s ++ [e]; flushed := flushed s |}.

(** [pkg/log/logger.go:234-252] executeFingersCrossed, in the scope of the context, if it has one *)
Definition executeFingersCrossed (l : gosoLogger) (e : entry) (scope : option fingersCrossedScope) :
    result panic (option fingersCrossedScope * list event) :=
  match scope with
  | None => Ok (None, if bool_decide (PriorityError ≤ level e)%Z then executeHandlers l e else [])
  | Some s =>
      let s := appendToFingersCrossedScope l e s in
      if shouldFlush (level e) s then let! x := flush s in Ok (Some x.1, x.2) else Ok (Some s, [])
  end.

(** A context: the sampling decision, if there is one, and what the resolvers of the
    logger make of it. *)
#[local] Notation context := (Sampling.context (list (gmap string V))).

(** [pkg/log/logger.go:202-214] the data of an entry *)
Definition new_data (ctx : context) (l : gosoLogger) : Data := {|
  Channel := channel l;
  ContextFields := fold_left mergeFields (rest ctx) ∅;
  Fields := fields l
|}.

Definition with_sampled (sampled : bool) (d : Data) : Data :=
  {| Channel := Channel d; ContextFields := <["sampled" := of_bool sampled]> (ContextFields d); Fields := Fields d |}.

(** [pkg/log/logger.go:201-232] log *)
Definition log (ctx : context) (now lvl : Z) (m : string) (l : gosoLogger) (scope : option fingersCrossedScope) :
    result panic (option fingersCrossedScope * list event) :=
  let d := new_data ctx l in
  if negb (samplingEnabled l) || negb (HasSampling ctx) then
    Ok (scope, executeHandlers l {| timestamp := now; level := lvl; msg := m; data_ := d |})
  else
    let e := {| timestamp := now; level := lvl; msg := m; data_ := with_sampled (IsSampled ctx) d |} in
    if IsSampled ctx then Ok (scope, executeHandlers l e) else executeFingersCrossed l e scope.

(** [pkg/log/fingers_crossed.go:63-69] WithFingersCrossedScope: a scope that is there stays *)
Definition WithFingersCrossedScope (scope : option fingersCrossedScope) : option fingersCrossedScope :=
  match scope with
  | Some s => Some s
  | None => Some empty_scope
  end.

(** [pkg/log/fingers_crossed.go:73-81] FlushFingersCrossedScope *)
Definition FlushFingersCrossedScope (scope : option fingersCrossedScope) : result panic (option fingersCrossedScope * list event) :=
  match scope with
  | None => Ok (None, [])
  | Some s => let! x := flush s in Ok (Some x.1, x.2)
  end.
End Logger.

(** ** The sampling logger *)

(** [pkg/log/logger_sampling.go:95-116] SamplingLogger.shouldLog, on when each message was logged last; [now] and [later] are the times
    that its calls of the clock answer.  Between the load and the store other goroutines can run. *)
Definition sampling_shouldLog (interval : Z) (m : string) (now later : Z) (logs : gmap string Z) : gmap string Z * bool :=
  match logs !! m with
  | None => (<[m := now]> logs, true)
  | Some lastLoggedAt =>
      if bool_decide (now ≤ lastLoggedAt + interval)%Z then (logs, false) else (<[m := later]> logs, true)
  end.

(** ** Which context sees which fields *)
Section ContextLaws.
Context {V : Type} (o : map_order string V).
Implicit Types (h : heap V) (c d : contextFields) (newFields m : gmap string V).

(** The address of the local or of the global fields. *)
Definition addr (local : bool) c : nat := if local then localFields c else globalFields c.

(** The maps of a context are there, and made for what it uses them for. *)
Definition valid h c : Prop := ∀ local, ∃ m, h !! addr local c = Some (local, m).

Definition merged newFields m (k : string) : option V := match newFields !! k with Some v => Some v | None => m !! k end.

Lemma lookup_add_fields newFields m k : add_fields o newFields m !! k = merged newFields m k.
Proof.
  unfold add_fields, merged. pose proof (insert_where_enum (λ _ _, true) (λ _ v, v) o newFields m k) as Hk.
  unfold insert_where in Hk. by rewrite Hk; destruct (newFields !! k).
Qed.

Lemma lookup_merge_two m newFields k : MergeMaps o [m; newFields] !! k = merged newFields m k.
Proof. rewrite MergeMaps_lookup. unfold merged. simpl. by destruct (m !! k), (newFields !! k). Qed.

Lemma lookup_merge_one m k : MergeMaps o [m] !! k = m !! k.
Proof. rewrite MergeMaps_lookup. simpl. by destruct (m !! k). Qed.

Lemma data_lookup a b m h : h !! a = Some (b, m) → data a h = m.
Proof. intros Ha. unfold data. by rewrite Ha. Qed.

Lemma data_old a h k : a < length h → data a (h ++ k) = data a h.
Proof. intros Ha. unfold data. by rewrite lookup_app_l. Qed.

Lemma valid_bound h c b : valid h c → addr b c < length h.
Proof. intros Hc. destruct (Hc b) as [m Hm]. by eapply lookup_lt_Some. Qed.

(** What was made for local fields is not used for global ones. *)
Lemma valid_tags h c d b b' : valid h c → valid h d → addr b c = addr b' d → b = b'.
Proof. intros Hc Hd Heq. destruct (Hc b) as [m Hm], (Hd b') as [m' Hm']. rewrite Heq in Hm. congruence. Qed.

Lemma valid_app h k c : valid h c → valid (h ++ k) c.
Proof. intros Hc b. destruct (Hc b) as [m Hm]. exists m. by apply lookup_app_l_Some. Qed.

(** The fields of a context, before an operation; none without fields. *)
Definition old (ctx : option contextFields) (b : bool) h (k : string) : option V :=
  match ctx with Some c => data (addr b c) h !! k | None => None end.

(** The context has the new fields over the old ones of the same kind, and the old ones of the other kind.  A context that was
    there before sees a change only if the operation mutates and they share the map that is changed.  The new context shares the
    maps of the one that was given, except that appending gives it a map of its own. *)
Definition appended (ctx : option contextFields) newFields (local mutate : bool) h h' c' : Prop :=
  valid h' c' ∧
  (∀ b k, data (addr b c') h' !! k =
     if bool_decide (b = local) then match newFields !! k with Some v => Some v | None => old ctx b h k end else old ctx b h k) ∧
  (∀ d, valid h d → valid h' d ∧
    (∀ b k, data (addr b d) h' !! k =
       if bool_decide (mutate = true ∧ b = local ∧ addr b <$> ctx = Some (addr b d))
       then merged newFields (data (addr b d) h) k else data (addr b d) h !! k) ∧
    ∀ b, addr b c' = addr b d ↔ addr b <$> ctx = Some (addr b d) ∧ (mutate = true ∨ b ≠ local)).

Lemma mutated c newFields local h :
  valid h c → appended (Some c) newFields local true h (alter (λ x, (x.1, add_fields o newFields x.2)) (addr local c) h) c.
Proof.
  intros Hctx. set (h' := alter _ _ h).
  assert (∀ d, valid h d → valid h' d) as Hval.
  { intros d Hd b. destruct (Hd b) as [m Hm]. unfold h'. destruct (base.decide (addr local c = addr b d)) as [Heq|Hne].
    - exists (add_fields o newFields m). by rewrite Heq list_lookup_alter_eq Hm.
    - exists m. by rewrite list_lookup_alter_ne. }
  assert (∀ d b k, valid h d → data (addr b d) h' !! k =
    if bool_decide (true = true ∧ b = local ∧ Some (addr b c) = Some (addr b d)) then merged newFields (data (addr b d) h) k else data (addr b d) h !! k) as Hdata.
  { intros d b k Hd. destruct (Hd b) as [m Hm]. unfold h'. case_bool_decide as Hcase.
    - destruct Hcase as (_ & -> & [= Heq]). rewrite Heq. erewrite data_lookup; [|by rewrite list_lookup_alter_eq Hm]. simpl.
      by rewrite lookup_add_fields (data_lookup _ _ _ _ Hm).
    - unfold data. rewrite list_lookup_alter_ne //. intros Heq. apply Hcase.
      pose proof (valid_tags h c d local b Hctx Hd Heq) as <-. by rewrite Heq. }
  split_and!; [by apply Hval| |].
  - intros b k. rewrite Hdata //. repeat case_bool_decide; unfold merged; try done; destruct_and?; simplify_eq; tauto.
  - intros d Hd. split_and!; [by apply Hval|intros; by apply Hdata|]. intros b. simpl. split; [intros ->; auto|by intros [[= ->] _]].
Qed.

Lemma copied c newFields (local : bool) h :
  valid h c →
  appended (Some c) newFields local false h (h ++ [(local, MergeMaps o [data (addr local c) h; newFields])])
    (if local then {| localFields := length h; globalFields := globalFields c |} else {| localFields := localFields c; globalFields := length h |}).
Proof.
  intros Hctx. set (k0 := [(local, _)]). set (c' := if local then _ else _).
  assert (∀ d b, valid h d → addr b d < length h) as Hlt by (intros; by apply valid_bound).
  assert (∀ b, addr b c' = if bool_decide (b = local) then length h else addr b c) as Haddr by (intros b; by destruct local, b).
  assert ((h ++ k0) !! length h = Some (local, MergeMaps o [data (addr local c) h; newFields])) as Hnew by by rewrite lookup_app_r // Nat.sub_diag.
  split_and!.
  - intros b. rewrite Haddr. case_bool_decide as Hb; [subst b; by eexists|]. by apply valid_app.
  - intros b k. rewrite Haddr. case_bool_decide as Hb; [|by rewrite data_old; [apply Hlt|]].
    subst b. by rewrite (data_lookup _ _ _ _ Hnew) lookup_merge_two.
  - intros d Hd. split_and!; [by apply valid_app| |].
    + intros b k. rewrite bool_decide_false; [by intros []|]. by rewrite data_old; [apply Hlt|].
    + intros b. rewrite Haddr. simpl. case_bool_decide as Hb; [|split; [intros ->; auto|by intros [[= ->] _]]].
      pose proof (Hlt d b Hd). split; [lia|]. intros [_ [|]]; done.
Qed.

Lemma created newFields (local mutate : bool) h :
  let fresh := MergeMaps o [newFields] in
  appended None newFields local mutate h (h ++ [(true, if local then fresh else ∅); (false, if local then ∅ else fresh)])
    {| localFields := length h; globalFields := S (length h) |}.
Proof.
  intros fresh. set (k0 := [_; _]). set (c' := {| localFields := _ |}).
  assert (∀ b, (h ++ k0) !! addr b c' = Some (b, if bool_decide (b = local) then fresh else ∅)) as Hb.
  { intros [|]; simpl.
    - rewrite lookup_app_r // Nat.sub_diag. by destruct local.
    - rewrite lookup_app_r; [lia|]. replace (S (length h) - length h) with 1 by lia. by destruct local. }
  split_and!.
  - intros b. by eexists.
  - intros b k. rewrite (data_lookup _ _ _ _ (Hb b)). case_bool_decide; [|by rewrite lookup_empty].
    unfold fresh. rewrite lookup_merge_one. by destruct (newFields !! k).
  - intros d Hd. pose proof (λ b, valid_bound h d b Hd) as Hlt. split_and!; [by apply valid_app| |].
    + intros b k. rewrite bool_decide_false; [by intros (_ & _ & ?)|]. by rewrite data_old.
    + intros b. simpl. pose proof (Hlt b). split; [destruct b; simpl in *; lia|by intros []].
Qed.

Lemma append_fields ctx newFields local mutate h :
  (∀ c, ctx = Some c → valid h c) →
  ∃ c', (appendContextFields o ctx newFields local mutate h).2 = Some c' ∧
    appended ctx newFields local mutate h (appendContextFields o ctx newFields local mutate h).1 c'.
Proof.
  intros Hctx. destruct ctx as [c|]; [specialize (Hctx c eq_refl); destruct mutate|]; eexists; (split; [done|]).
  - by apply mutated.
  - by apply copied.
  - apply created.
Qed.

(** What each operation on the fields of a context does to them, and to the contexts that share its maps. *)
Theorem appendContextFields_correct ctx newFields local mutate h :
  (∀ c, ctx = Some c → valid h c) →
  ∃ c', (appendContextFields o ctx newFields local mutate h).2 = Some c' ∧
    appended ctx newFields local mutate h (appendContextFields o ctx newFields local mutate h).1 c'.
Proof. apply append_fields. Qed.

(** Global fields go over local ones. *)
Lemma ContextFieldsResolver_lookup c h k :
  ContextFieldsResolver o (Some c) h !! k = merged (data (globalFields c) h) (data (localFields c) h) k ∧
  LocalOnlyContextFieldsResolver o (Some c) h !! k = data (localFields c) h !! k ∧
  GlobalContextFieldsResolver o (Some c) h !! k = data (globalFields c) h !! k.
Proof. split_and!; [apply lookup_merge_two | apply lookup_merge_one | apply lookup_merge_one]. Qed.
End ContextLaws.

(** ** Fields that travel with a message

    cast.ToStringE and encoding/json are parameters. *)
Section Encoder.
Context {V : Type} (o : map_order string V) (has_string : V → bool).
Context (marshal : gmap string V → option string) (unmarshal : string → option (gmap string V)).

(** [pkg/log/logger_message_encode_handler.go:12-12] MessageAttributeLoggerContext *)
Definition MessageAttributeLoggerContext : string := "logger:context".

(** [pkg/log/logger_message_encode_handler.go:45-50] the loop body of Encode: the fields that have a text, and how many have none *)
Definition add_stringable (acc : gmap string V * nat) (kv : string * V) : gmap string V * nat :=
  if has_string kv.2 then (<[kv.1 := kv.2]> acc.1, acc.2) else (acc.1, S acc.2).

(** [pkg/log/logger_message_encode_handler.go:37-63] Encode: the attributes and how many warnings are logged; the context stays *)
Definition Encode (ctx : option contextFields) (attributes : gmap string string) (h : heap V) : gmap string string * nat :=
  let fields := GlobalContextFieldsResolver o ctx h in
  if bool_decide (size fields = 0) then (attributes, 0) else
  let '(stringAble, warnings) := fold_left add_stringable (enum o fields) (∅, 0) in
  match marshal stringAble with
  | None => (attributes, S warnings)
  | Some encodedFields => (<[MessageAttributeLoggerContext := encodedFields]> attributes, warnings)
  end.

(** [pkg/log/logger_message_encode_handler.go:66-84] Decode: the context, the attributes and how many warnings are logged *)
Definition Decode (ctx : option contextFields) (attributes : gmap string string) (h : heap V) : heap V * option contextFields * gmap string string * nat :=
  match attributes !! MessageAttributeLoggerContext with
  | None => (h, ctx, attributes, 0)
  | Some text =>
      match unmarshal text with
      | None => (h, ctx, attributes, 1)
      | Some fields =>
          let x := AppendGlobalContextFields o ctx fields h in
          (x.1, x.2, delete MessageAttributeLoggerContext attributes, 0)
      end
  end.

Lemma stringable_fold (l : list (string * V)) acc :
  (fold_left add_stringable l acc).1 = fold_left (λ (m : gmap string V) kv, if has_string kv.2 then <[kv.1 := kv.2]> m else m) l acc.1.
Proof. revert acc. induction l as [|kv l IH]; intros acc; simpl; [done|]. rewrite IH. unfold add_stringable. by destruct (has_string kv.2). Qed.

Lemma stringable_lookup (fields : gmap string V) :
  fold_left (λ (m : gmap string V) kv, if has_string kv.2 then <[kv.1 := kv.2]> m else m) (enum o fields) ∅ = filter (λ kv, has_string kv.2) fields.
Proof.
  apply map_eq. intros k. pose proof (insert_where_enum (λ _ v, has_string v) (λ _ v, v) o fields ∅ k) as Hk. unfold insert_where in Hk.
  rewrite Hk lookup_empty map_lookup_filter. destruct (fields !! k) as [v|]; simpl; [|done]. by destruct (has_string v).
Qed.

(** What a value is after it was written and read: an int becomes a float64. *)
Context (norm : V → V).
Hypothesis json_roundtrip : ∀ m, ∃ text, marshal m = Some text ∧ unmarshal text = Some (norm <$> m).

(** What a service adds to the global fields of a context gets to the service that receives the message: the fields that have a
    text, over the fields that the receiver has; the attributes are the ones that were there before. *)
Theorem fields_travel ctx ctx' attributes h h' :
  attributes !! MessageAttributeLoggerContext = None → (∀ c, ctx' = Some c → valid h' c) →
  let sent := filter (λ kv, has_string kv.2) (GlobalContextFieldsResolver o ctx h) in
  let r := Decode ctx' (Encode ctx attributes h).1 h' in
  r.1.2 = attributes ∧ r.2 = 0 ∧
  ∀ k, GlobalContextFieldsResolver o r.1.1.2 r.1.1.1 !! k = merged (norm <$> sent) (GlobalContextFieldsResolver o ctx' h') k.
Proof.
  intros Ha Hctx' sent. unfold Encode. case_bool_decide as Hempty.
  - assert (sent = ∅) as Hs by (unfold sent; by rewrite (map_size_empty_inv _ Hempty) map_filter_empty).
    unfold Decode. rewrite Ha. simpl. split_and!; [done..|]. intros k. by rewrite Hs fmap_empty /merged lookup_empty.
  - pose proof (stringable_fold (enum o (GlobalContextFieldsResolver o ctx h)) (∅, 0)) as Hfold. simpl in Hfold. rewrite stringable_lookup in Hfold.
    destruct (fold_left _ _ _) as [stringAble warnings]. simpl in Hfold. subst stringAble. fold sent.
    destruct (json_roundtrip sent) as (text & -> & Htext). unfold Decode. simpl. rewrite lookup_insert_eq Htext. simpl.
    split_and!; [by rewrite delete_insert_id|done|]. intros k. unfold AppendGlobalContextFields.
    destruct (append_fields o ctx' (norm <$> sent) false false h' Hctx') as (c' & -> & _ & Hdata & _).
    unfold GlobalContextFieldsResolver, contextFieldsResolver. simpl. rewrite lookup_merge_one. specialize (Hdata false k). simpl in Hdata.
    rewrite Hdata. unfold merged, old. destruct ctx' as [c|]; [by rewrite lookup_merge_one|by rewrite lookup_empty].
Qed.
End Encoder.

(** ** The scope that holds back entries *)
Section CrossedLaws.
Context {V : Type} (o : map_order string V) (prepareForLog : V → V) (of_bool : bool → V).
Implicit Types (l : gosoLogger (V := V)) (s : fingersCrossedScope (V := V)) (e : entry (V := V)).

(** What happens in a scope: a logger logs something with a context, at a time, or the
    scope is flushed. *)
Inductive op := Log_ (ctx : context (list (gmap string V))) (l : gosoLogger (V := V)) (now lvl : Z) (m : string) | Flush.

(** The operations one after the other, in one scope. *)
Fixpoint run_ops (ops : list op) (scope : option (fingersCrossedScope (V := V))) : result panic (option (fingersCrossedScope (V := V)) * list (event (V := V))) :=
  match ops with
  | [] => Ok (scope, [])
  | p :: ops =>
      let! x := match p with
                | Log_ ctx l now lvl m => log o prepareForLog of_bool ctx now lvl m l scope
                | Flush => FlushFingersCrossedScope of_bool scope
                end in
      let! y := run_ops ops x.1 in
      Ok (y.1, x.2 ++ y.2)
  end.

(** The entries of the operations, each with its logger. *)
Definition entry_of (ctx : context (list (gmap string V))) l (now lvl : Z) (m : string) : entry (V := V) :=
  {| timestamp := now; level := lvl; msg := m; data_ := with_sampled of_bool false (new_data o prepareForLog ctx l) |}.

Definition entries_of (p : op) : list (gosoLogger (V := V) * entry (V := V)) :=
  match p with Log_ ctx l now lvl m => [(l, entry_of ctx l now lvl m)] | Flush => [] end.

Definition entries (ops : list op) : list (gosoLogger (V := V) * entry (V := V)) := mjoin (entries_of <$> ops).

(** There is an error, or a flush. *)
Definition triggers (p : op) : bool := match p with Log_ _ _ _ lvl _ => bool_decide (PriorityError ≤ lvl)%Z | Flush => true end.

(** Each entry is written by its own logger. *)
Definition written (es : list (gosoLogger (V := V) * entry (V := V))) : list (event (V := V)) :=
  mjoin ((λ le, executeHandlers le.1 (mark of_bool le.2)) <$> es).

(** The loggers of the scope may differ in their fields, and the contexts in theirs. *)
Definition of_channel (c : string) (hs : list (handler (V := V))) l : Prop := channel l = c ∧ handlers l = hs.

Definition crossed (c : string) (hs : list (handler (V := V))) (p : op) : Prop :=
  match p with
  | Log_ ctx l _ _ _ => samplingEnabled l = true ∧ sampling ctx = Some false ∧ of_channel c hs l
  | Flush => True
  end.

Section Channel.
Context (c : string) (hs : list (handler (V := V))).

Lemma executeHandlers_of l l' e : of_channel c hs l → of_channel c hs l' → executeHandlers l e = executeHandlers l' e.
Proof. intros [Hc Hh] [Hc' Hh']. unfold executeHandlers, executeHandler. by rewrite Hc Hc' Hh Hh'. Qed.

(** What the entries of a scope become, whichever logger of the channel writes them. *)
Definition flushes (es : list (entry (V := V))) : list (event (V := V)) :=
  mjoin ((λ e, executeHandlers {| channel := c; fields := ∅; handlers := hs; samplingEnabled := true |} (mark of_bool e)) <$> es).

Lemma flushes_of l es : of_channel c hs l → mjoin ((λ e, executeHandlers l (mark of_bool e)) <$> es) = flushes es.
Proof.
  intros Hl. unfold flushes. f_equal. apply list_fmap_ext. intros _ e _. by apply executeHandlers_of.
Qed.

Lemma flushes_app es es' : flushes (es ++ es') = flushes es ++ flushes es'.
Proof. unfold flushes. by rewrite fmap_app join_app. Qed.

Lemma flushes_entries ops : Forall (crossed c hs) ops → flushes (entries ops).*2 = written (entries ops).
Proof.
  induction 1 as [|p ops Hp _ IH]; [done|]. change (entries (p :: ops)) with (entries_of p ++ entries ops). rewrite fmap_app flushes_app IH.
  unfold written. rewrite fmap_app join_app. f_equal. destruct p as [ctx l now lvl m|]; [|done]. simpl. unfold flushes. simpl.
  f_equal. by apply executeHandlers_of; [|apply Hp].
Qed.

(** The scope knows a logger of the channel when it holds something back. *)
Definition scope_ok s : Prop := buffer s ≠ [] → ∃ l, scope_logger s = Some l ∧ of_channel c hs l.

Lemma flush_ok s : scope_ok s →
  flush of_bool s = Ok ({| scope_logger := scope_logger s; buffer := []; flushed := true |}, flushes (buffer s)).
Proof.
  unfold scope_ok, flush. destruct (buffer s) as [|e es] eqn:Hb; [done|]. intros (l & -> & Hl); [done|].
  by rewrite (flushes_of l).
Qed.

Lemma log_unsampled ctx now lvl m l s :
  samplingEnabled l = true → sampling ctx = Some false → of_channel c hs l → scope_ok s →
  let t := flushed s || bool_decide (PriorityError ≤ lvl)%Z in
  log o prepareForLog of_bool ctx now lvl m l (Some s) =
  Ok (Some {| scope_logger := Some l; buffer := if t then [] else buffer s ++ [entry_of ctx l now lvl m]; flushed := t |},
      if t then flushes (buffer s ++ [entry_of ctx l now lvl m]) else []).
Proof.
  intros Hl Hs Hc Hok t. unfold log. rewrite Hl. unfold HasSampling, IsSampled, GetSampling. rewrite Hs. simpl. unfold shouldFlush. simpl. fold t.
  fold (entry_of ctx l now lvl m). destruct t eqn:Ht.
  - rewrite flush_ok //. intros _. by exists l.
  - apply orb_false_elim in Ht as [Hf _]. unfold appendToFingersCrossedScope. by rewrite Hf.
Qed.

Lemma run_ops_scope ops s :
  Forall (crossed c hs) ops → scope_ok s → (flushed s = true → buffer s = []) →
  ∃ s', run_ops ops (Some s) =
    Ok (Some s', if flushed s || existsb triggers ops then flushes (buffer s ++ (entries ops).*2) else []).
Proof.
  intros Hops. revert s. induction Hops as [|p ops Hp Hops IH]; intros s Hok Hfl; simpl.
  - eexists. do 2 f_equal. rewrite orb_false_r. destruct (flushed s); [by rewrite Hfl|done].
  - destruct p as [ctx l now lvl m|]; simpl.
    + destruct Hp as (Hl & Hs & Hc). rewrite (log_unsampled ctx now lvl m l s) //=. set (t := flushed s || bool_decide (PriorityError ≤ lvl)%Z).
      destruct (IH {| scope_logger := Some l; buffer := if t then [] else buffer s ++ [entry_of ctx l now lvl m]; flushed := t |}) as [s' ->]; simpl;
        [by exists l|by intros ->|].
      change (list_fmap _ _ snd (mjoin _)) with ((entries ops).*2).
      rewrite orb_assoc. fold t. set (e := entry_of ctx l now lvl m) in *. exists s'.
      assert (buffer s ++ e :: (entries ops).*2 = (buffer s ++ [e]) ++ (entries ops).*2) as -> by by rewrite -app_assoc.
      destruct t; cbn [orb]; [|done]. by rewrite [flushes ((_ ++ _) ++ _)]flushes_app.
    + rewrite flush_ok //=. destruct (IH {| scope_logger := scope_logger s; buffer := []; flushed := true |}) as [s' ->]; [intros Hne; by destruct (Hne eq_refl)|done|].
      eexists. simpl. rewrite orb_true_r. do 2 f_equal. by rewrite flushes_app.
Qed.
End Channel.

(** C38: In a scope nothing is written while there is no error, and once there is one, or
    the scope is flushed, everything that was logged in it is written, before and after, in
    order, as its own logger writes it and without a panic: for loggers with sampling that
    log with unsampled contexts and have one channel and the same handlers, whatever their
    fields are.  (With loggers of several channels it does not hold: the entries are checked
    against the channel of the last logger.) *)
Theorem fingers_crossed_correct c hs ops :
  Forall (crossed c hs) ops →
  ∃ s, run_ops ops (WithFingersCrossedScope None) =
    Ok (Some s, if existsb triggers ops then written (entries ops) else []).
Proof.
  intros Hops. rewrite -(flushes_entries c hs) //.
  apply (run_ops_scope c hs ops empty_scope); [done| |done]. intros Hne. by destruct (Hne eq_refl).
Qed.
End CrossedLaws.

(** ** The sampling logger keeps its distance *)
Section SamplingLaws.
Context (interval : Z).

(** The times at which a message is logged, with the times that are kept for it. *)
Fixpoint logged_at (m : string) (calls : list (string * Z * Z)) (logs : gmap string Z) : list (Z * Z) :=
  match calls with
  | [] => []
  | (m', now, later) :: calls =>
      let x := sampling_shouldLog interval m' now later logs in
      (if x.2 && bool_decide (m' = m) then [(now, default 0%Z (x.1 !! m))] else []) ++ logged_at m calls x.1
  end.

(** From a time on: each is more than the interval after the one before. *)
Fixpoint spaced (last : option Z) (times : list (Z * Z)) : Prop :=
  match times with
  | [] => True
  | (now, kept) :: times => match last with Some t => (t + interval < now)%Z | None => True end ∧ spaced (Some kept) times
  end.

Lemma spaced_from m calls logs : spaced (logs !! m) (logged_at m calls logs).
Proof.
  revert logs. induction calls as [|[[m' now] later] calls IH]; intros logs; [done|]. cbn [logged_at].
  destruct (base.decide (m' = m)) as [->|Hne].
  - unfold sampling_shouldLog. destruct (logs !! m) as [t|] eqn:Hm; [case_bool_decide as Hle|]; simpl.
    + pose proof (IH logs) as IH'. by rewrite Hm in IH'.
    + rewrite bool_decide_true //= lookup_insert_eq /=. pose proof (IH (<[m:=later]> logs)) as IH'. rewrite lookup_insert_eq in IH'. split; [lia|done].
    + rewrite bool_decide_true //= lookup_insert_eq /=. pose proof (IH (<[m:=now]> logs)) as IH'. by rewrite lookup_insert_eq in IH'.
  - rewrite (bool_decide_false (m' = m)) // andb_false_r app_nil_l.
    assert ((sampling_shouldLog interval m' now later logs).1 !! m = logs !! m) as Hsame.
    { unfold sampling_shouldLog. destruct (logs !! m') as [t|]; [case_bool_decide|]; simpl; by rewrite ?lookup_insert_ne. }
    pose proof (IH (sampling_shouldLog interval m' now later logs).1) as IH'. by rewrite Hsame in IH'.
Qed.

(** Two times at which a message is logged are more than the interval apart, whatever the clock does; the first is logged at once. *)
Theorem sampling_logger_spaced m calls :
  spaced None (logged_at m calls ∅) ∧ ∀ now later, logged_at m ((m, now, later) :: calls) ∅ ≠ [].
Proof.
  split; [pose proof (spaced_from m calls ∅) as H; by rewrite lookup_empty in H|]. intros now later. cbn [logged_at]. unfold sampling_shouldLog. rewrite lookup_empty /=.
  by rewrite bool_decide_true.
Qed.
End SamplingLaws.

(** ** Samples *)
Module LogSamples.
(** The example of the documentation of AppendContextFields. *)
Definition o : map_order string string := canonical_order.
Example append_documentation :
  let '(h, ctx) := InitContext o None [] in
  let '(h, localCtx) := AppendContextFields o ctx {["field" := "value"]} h in
  let '(h, localCtx) := MutateContextFields o localCtx {["field" := "new_value"]} h in
  let '(h, localCtx) := MutateGlobalContextFields o localCtx {["other_field" := "other_value"]} h in
  LocalOnlyContextFieldsResolver o localCtx h !! "field" = Some "new_value" ∧ size (LocalOnlyContextFieldsResolver o ctx h) = 0 ∧
  GlobalContextFieldsResolver o ctx h !! "other_field" = Some "other_value".
Proof. vm_compute. done. Qed.

(** A handler for everything from info on, but from the channel quiet only for errors. *)
Definition quiet_handler : handler (V := string) :=
  {| ChannelLevel c := Ok (if bool_decide (c = "quiet") then Some PriorityError else None); Level := PriorityInfo; Log _ := None |}.
Definition main : gosoLogger (V := string) := {| channel := "main"; fields := ∅; handlers := [quiet_handler]; samplingEnabled := true |}.
Definition unsampled : context (list (gmap string string)) := {| sampling := Some false; rest := [] |}.
Definition of_bool (b : bool) : string := if b then "true" else "false".

(** The channels and messages of the entries that are written. *)
Definition seen (evs : list (event (V := string))) : list (string * string) :=
  omap (λ ev, match ev with Logged _ e => Some (Channel (data_ e), msg e) | Failed _ => None end) evs.

(** Two loggers write in one scope: what the first has logged is checked against the channel of the second, which logs the error. *)
Definition two_loggers : result panic (list (string * string)) :=
  let! x := log o id of_bool unsampled 1 PriorityInfo "before" main (WithFingersCrossedScope None) in
  let! y := log o id of_bool unsampled 2 PriorityError "failed" (WithChannel "quiet" main) x.1 in
  Ok (seen (x.2 ++ y.2)).

Example flush_uses_last_channel : two_loggers = Ok [("quiet", "failed")].
Proof. vm_compute. reflexivity. Qed.

(** A logger, one with more fields, and the first again. *)
Definition sample_ops : list op :=
  [Log_ unsampled main 1 PriorityInfo "a"; Log_ unsampled (WithFields o id {["k" := "v"]} main) 2 PriorityError "b";
   Log_ unsampled main 3 PriorityInfo "c"].
End LogSamples.

Lemma fingers_crossed_correct_witness :
  ∃ s evs, run_ops LogSamples.o id LogSamples.of_bool LogSamples.sample_ops (WithFingersCrossedScope None) = Ok (Some s, evs) ∧
    LogSamples.seen evs = [("main", "a"); ("main", "b"); ("main", "c")].
Proof.
  destruct (fingers_crossed_correct LogSamples.o id LogSamples.of_bool "main" [LogSamples.quiet_handler] LogSamples.sample_ops) as [s Hs].
  { repeat (apply Forall_cons; split; [repeat split; reflexivity|]). apply Forall_nil. exact I. }
  exists s. eexists. split; [exact Hs | vm_compute; reflexivity].
Defined.

Lemma appendContextFields_correct_witness :
  ∃ c', appended None {["a" := "b"]} true false [] (appendContextFields LogSamples.o None {["a" := "b"]} true false []).1 c'.
Proof.
  destruct (appendContextFields_correct LogSamples.o None {["a" := "b"]} true false []) as (c' & _ & Hc); [intros c Hc; discriminate Hc|].
  exists c'. exact Hc.
Defined.
