(* ===== verification/Sqs.v ===== *)
(** Queues and topics of AWS: pkg/cloud/aws/sqs/queue.go, the output and the input of
    pkg/stream on it (output_sqs.go, input_sqs.go, unmarshal.go, the retry handlers), and
    pkg/cloud/aws/sns/topic.go with output_sns.go.  The clients of the services, the source
    of ids, encoding/json and spf13/cast are parameters; logging and metrics are left out. *)
From Stdlib Require Import Ascii.
From S2P Require Import Prelude FunkSlice StreamMessage Exec Consumer.

Open Scope string_scope.
Open Scope list_scope.
Open Scope nat_scope.

(** An error: one of the service, one of marshalling or casting, one of the code, a
    wrapped one, and a multierror.Error. *)
Inductive error :=
| Service (err : Exec.error)
| Foreign (err : go_error)
| Plain (msg : string)
| Wrapped (msg : string) (err : error)
| Multi (errs : list error).

(** multierror.Append, on the errors so far: those of a multierror.Error are appended one by one. *)
Definition multi_append (errs : list error) (err : error) : list error :=
  errs ++ match err with Multi es => es | err => [err] end.

(** ErrorOrNil of a multierror.Error. *)
Definition ErrorOrNil (errs : list error) : option error := match errs with [] => None | _ => Some (Multi errs) end.

(** [pkg/cloud/aws/sqs/queue.go:40-45] Message *)
Record sqs_Message := { DelaySeconds : Z; MessageGroupId : option string; MessageDeduplicationId : option string; sqs_Body : string }.

(** A message that was received, as far as the input reads it. *)
Record received := { r_MessageId : string; r_ReceiptHandle : string; r_Body : string; r_ApproximateReceiveCount : option string }.

(** The client.  A batch request that has no error answers with the ids of the entries
    that failed all the same. *)
Class SqsClient (W : Type) := {
  client_SendMessage : sqs_Message → W → W * option Exec.error;
  client_SendMessageBatch : list (string * sqs_Message) → W → W * result Exec.error (list string);
  client_ReceiveMessage : Z → Z → W → W * result Exec.error (list received);
  client_DeleteMessage : string → W → W * option Exec.error;
  client_DeleteMessageBatch : list (string * string) → W → W * result Exec.error (list string);
  NewV4 : W → W * string;
}.

(** The chunks of funk.Chunk for a positive size; it does not panic. *)
Definition chunks_of {T} (l : list T) (size : Z) : list (list T) := match Chunk l size with Ok (Some cs) => cs | _ => [] end.

(** ** The queue *)
Section Queue.
Context {W : Type} `{!SqsClient W} (is_too_long : Exec.error → bool).
Implicit Types (w : W).

(** [pkg/cloud/aws/sqs/queue.go:23-25] sqsBatchSize *)
Definition sqsBatchSize : nat := 10.

(** [pkg/cloud/aws/sqs/queue.go:113-127] queue.Send *)
Definition Send (msg : sqs_Message) w : W * option error := let '(w, err) := client_SendMessage msg w in (w, Service <$> err).

(** [pkg/cloud/aws/sqs/queue.go:134-146] the entries of a batch, each with a new id *)
Fixpoint with_ids {A} (l : list A) w : W * list (string * A) :=
  match l with
  | [] => (w, [])
  | a :: l => let '(w, id) := NewV4 w in let '(w, entries) := with_ids l w in (w, (id, a) :: entries)
  end.

(** [pkg/cloud/aws/sqs/queue.go:165-171] the loop of SendBatch over the chunks of a batch that was too long *)
Fixpoint send_chunks (send : list sqs_Message → W → option (W * option error)) (chunks : list (list sqs_Message)) w : option (W * option error) :=
  match chunks with
  | [] => Some (w, None)
  | chunk :: chunks =>
      match send chunk w with
      | None => None
      | Some (w, Some err) => Some (w, Some err)
      | Some (w, None) => send_chunks send chunks w
      end
  end.

(** [pkg/cloud/aws/sqs/queue.go:129-175] queue.SendBatch, with a bound on the depth of the calls; half of the length is rounded up *)
Fixpoint SendBatch (fuel : nat) (messages : list sqs_Message) w : option (W * option error) :=
  match messages with
  | [] => Some (w, None)
  | _ =>
      match fuel with
      | 0 => None
      | S fuel =>
          let '(w, entries) := with_ids messages w in
          match client_SendMessageBatch entries w with
          | (w, Ok _) => Some (w, None)
          | (w, Err err) =>
              if is_too_long err && (1 <? length messages)
              then send_chunks (SendBatch fuel) (chunks_of messages (Z.of_nat ((length messages + 1) / 2))) w
              else Some (w, Some (Service err))
          end
      end
  end.

(** [pkg/cloud/aws/sqs/queue.go:177-200] queue.Receive: without messages when the request was canceled *)
Definition Receive (maxNumberOfMessages waitTime : Z) w : W * result error (list received) :=
  match client_ReceiveMessage maxNumberOfMessages waitTime w with
  | (w, Ok ms) => (w, Ok ms)
  | (w, Err err) => (w, if IsRequestCanceled requestCancelChecks err then Ok [] else Err (Service err))
  end.

(** [pkg/cloud/aws/sqs/queue.go:202-213] queue.DeleteMessage *)
Definition DeleteMessage (receiptHandle : string) w : W * option error :=
  let '(w, err) := client_DeleteMessage receiptHandle w in (w, Service <$> err).

(** [pkg/cloud/aws/sqs/queue.go:233-245] the loop of DeleteMessageBatch, from an index on *)
Fixpoint delete_from (fuel i : nat) (entries : list (string * string)) (errs : list error) w : W * list error :=
  match fuel with
  | 0 => (w, errs)
  | S fuel =>
      if length entries <=? i then (w, errs)
      else
        let j := if length entries <? i + sqsBatchSize then length entries else i + sqsBatchSize in
        let '(w, r) := client_DeleteMessageBatch (take (j - i) (drop i entries)) w in
        delete_from fuel (i + sqsBatchSize) entries (match r with Err err => multi_append errs (Service err) | Ok _ => errs end) w
  end.

(** [pkg/cloud/aws/sqs/queue.go:215-248] queue.DeleteMessageBatch; the loop makes at most one round per handle *)
Definition DeleteMessageBatch (receiptHandles : list string) w : W * option error :=
  let '(w, entries) := with_ids receiptHandles w in
  let '(w, errs) := delete_from (length entries) 0 entries [] w in
  (w, ErrorOrNil errs).
End Queue.

(** ** The output *)
Section Output.
Context {W : Type} `{!SqsClient W} (is_too_long : Exec.error → bool).
Context (json_Marshal : Message → result go_error string) (ToInt32E : string → result go_error Z) (ToStringE : string → result go_error string).
Implicit Types (w : W).

Definition AttributeSqsMessageGroupId : string := "sqsMessageGroupId".
Definition AttributeSqsMessageDeduplicationId : string := "sqsMessageDeduplicationId".

(** [pkg/stream/output.go:76-82] getAttributes *)
Definition getAttributes (msg : WritableMessage) : gmap string string :=
  match msg with WMessage m => Attributes m | WRawJson r => raw_attributes r | WOther _ => ∅ end.

(** An attribute that is cast, with a default for a message without it. *)
Definition cast_attribute {A} (cast : string → result go_error A) (key : string) (zero : A) (attributes : gmap string string) : result error A :=
  match attributes !! key with
  | None => Ok zero
  | Some d => match cast d with Ok a => Ok a | Err err => Err (Wrapped "the type of the attribute should be castable" (Foreign err)) end
  end.

(** [pkg/stream/output_sqs.go:141-192] sqsOutput.buildSqsMessage *)
Definition buildSqsMessage (msg : WritableMessage) : result error sqs_Message :=
  let attributes := getAttributes msg in
  let! delay := cast_attribute ToInt32E AttributeSqsDelaySeconds 0%Z attributes in
  let! messageGroupId := cast_attribute ToStringE AttributeSqsMessageGroupId "" attributes in
  let! messageDeduplicationId := cast_attribute ToStringE AttributeSqsMessageDeduplicationId "" attributes in
  match MarshalToBytes json_Marshal msg with
  | Err err => Err (Foreign err)
  | Ok body =>
      Ok {| DelaySeconds := delay;
            MessageGroupId := if bool_decide (messageGroupId = "") then None else Some messageGroupId;
            MessageDeduplicationId := if bool_decide (messageDeduplicationId = "") then None else Some messageDeduplicationId;
            sqs_Body := body |}
  end.

(** [pkg/stream/output_sqs.go:123-139] sqsOutput.buildSqsMessages: the messages and the errors *)
Definition buildSqsMessages (messages : list WritableMessage) : list sqs_Message * list error :=
  fold_left (λ acc msg,
    match buildSqsMessage msg with
    | Err err => (acc.1, multi_append acc.2 err)
    | Ok m => (acc.1 ++ [m], acc.2)
    end) messages ([], []).

(** [pkg/stream/output_sqs.go:81-93] sqsOutput.WriteOne *)
Definition WriteOne (record : WritableMessage) w : W * option error :=
  match buildSqsMessage record with
  | Err err => (w, Some (Wrapped "could not build sqs message" err))
  | Ok m =>
      let '(w, err) := Send m w in
      (w, Wrapped "could not send sqs message" <$> err)
  end.

(** [pkg/stream/output_sqs.go:16-16] SqsOutputBatchSize *)
Definition SqsOutputBatchSize : Z := 10.

(** [pkg/stream/output_sqs.go:100-114] the loop of Write, with the errors so far; a chunk of SendBatch is bounded by its length *)
Fixpoint write_chunks (chunks : list (list WritableMessage)) (errs : list error) w : option (W * list error) :=
  match chunks with
  | [] => Some (w, errs)
  | chunk :: chunks =>
      let '(messages, build_errs) := buildSqsMessages chunk in
      let errs := errs ++ build_errs in
      if length messages =? 0 then write_chunks chunks errs w
      else
        match SendBatch is_too_long (length messages) messages w with
        | None => None
        | Some (w, err) => write_chunks chunks (match err with Some err => multi_append errs err | None => errs end) w
        end
  end.

(** [pkg/stream/output_sqs.go:95-121] sqsOutput.Write *)
Definition Write (batch : list WritableMessage) w : option (W * option error) :=
  match write_chunks (chunks_of batch SqsOutputBatchSize) [] w with
  | None => None
  | Some (w, errs) => Some (w, match errs with [] => None | _ => Some (Wrapped "there were errors on writing to the sqs stream" (Multi errs)) end)
  end.

(** [pkg/stream/retry_sqs.go:109-113] the write of a retry; [put] says what is written *)
Definition write_retry (put : option Message) w : W * option error :=
  match put with
  | None => (w, None)
  | Some msg => let '(w, err) := WriteOne (WMessage msg) w in (w, Wrapped "can not write the message to the output" <$> err)
  end.

(** [pkg/stream/retry_sqs.go:99-114] RetryHandlerSqs.Put *)
Definition retry_sqs_Put (afterSeconds : string) (msg : Message) w : W * option error := write_retry (RetryHandlerSqs_Put afterSeconds msg) w.

(** [pkg/stream/manual_sqs_retry_handler.go:26-40] manualSqsRetryHandler.Put *)
Definition manual_Put (msg : Message) w : W * option error := write_retry (manualSqsRetryHandler_Put msg) w.
End Output.

(** ** The input *)
Section Input.
Context {W V : Type} `{!SqsClient W}.
Context (json_Unmarshal : string → result go_error (gmap string V * string)) (json_Unmarshal_sns : string → result go_error (string * string)).
Context (o : map_order string V) (cast_string : V → result go_error string).
Implicit Types (w : W).

(** [pkg/stream/message.go:53-57] the loop over the attributes of UnmarshalFromBytes *)
Fixpoint unmarshal_attributes (kvs : list (string * V)) (attributes : gmap string string) : result go_error (gmap string string) :=
  match kvs with
  | [] => Ok attributes
  | (k, v) :: kvs =>
      match cast_string v with
      | Err err => Err (EWrap "can not cast attribute to string" err)
      | Ok s => unmarshal_attributes kvs (<[k := s]> attributes)
      end
  end.

(** [pkg/stream/message.go:36-60] UnmarshalFromBytes; what it leaves in the message with an error is not read *)
Definition UnmarshalFromBytes (data : string) : result go_error Message :=
  let! legacy := json_Unmarshal data in
  let! attributes := unmarshal_attributes (enum o legacy.1) ∅ in
  Ok {| Attributes := attributes; Body := legacy.2 |}.

(** [pkg/stream/unmarshal.go:24-29] MessageUnmarshaller *)
Definition MessageUnmarshaller (data : string) : result go_error Message := UnmarshalFromBytes data.

(** [pkg/stream/unmarshal.go:31-35] RawUnmarshaller *)
Definition RawUnmarshaller (data : string) : result go_error Message := Ok {| Attributes := ∅; Body := data |}.

(** [pkg/stream/unmarshal.go:58-75] SnsUnmarshaller, with the type and the message of the sns.Message *)
Definition SnsUnmarshaller (data : string) : result go_error Message :=
  let! snsMessage := json_Unmarshal_sns data in
  if bool_decide (snsMessage.1 ≠ "Notification") then Err (EMsg "the sns message should be of the type 'Notification'")
  else UnmarshalFromBytes snsMessage.2.

(** [pkg/stream/unmarshal.go:18-22] unmarshallers *)
Definition unmarshallers : gmap string (string → result go_error Message) :=
  <["msg" := MessageUnmarshaller]> (<["raw" := RawUnmarshaller]> (<["sns" := SnsUnmarshaller]> ∅)).

Context (unmarshaler : string → result go_error Message).

Definition AttributeSqsMessageId : string := "sqsMessageId".
Definition AttributeSqsReceiptHandle : string := "sqsReceiptHandle".
Definition AttributeSqsApproximateReceiveCount : string := "sqsApproximateReceiveCount".

(** [pkg/stream/input_sqs.go:172-190] what runLoop makes of one message, if it can be unmarshalled *)
Definition receive_one (m : received) : option Message :=
  match unmarshaler (r_Body m) with
  | Err _ => None
  | Ok msg =>
      let attributes := <[AttributeSqsReceiptHandle := r_ReceiptHandle m]> (<[AttributeSqsMessageId := r_MessageId m]> (Attributes msg)) in
      let attributes := match r_ApproximateReceiveCount m with Some n => <[AttributeSqsApproximateReceiveCount := n]> attributes | None => attributes end in
      Some {| Attributes := attributes; Body := Body msg |}
  end.

(** [pkg/stream/input_sqs.go:153-197] runLoop: what it sends to the channel in at most [fuel] rounds; [stopped] says whether it finds
    the flag set in a round *)
Fixpoint runLoop (fuel : nat) (maxNumberOfMessages waitTime : Z) (stopped : nat → bool) w : W * list Message :=
  match fuel with
  | 0 => (w, [])
  | S fuel =>
      if stopped (S fuel) then (w, [])
      else
        let '(w, r) := Receive maxNumberOfMessages waitTime w in
        let sent := match r with Err _ => [] | Ok ms => omap receive_one ms end in
        let '(w, rest) := runLoop fuel maxNumberOfMessages waitTime stopped w in
        (w, sent ++ rest)
  end.

(** [pkg/stream/input_sqs.go:207-224] Ack *)
Definition Ack (msg : Message) (ack : bool) w : W * option error :=
  if negb ack then (w, None)
  else match Attributes msg !! AttributeSqsReceiptHandle with
       | None => (w, Some (Plain "the message has no attribute sqsReceiptHandle"))
       | Some "" => (w, Some (Plain "the attribute sqsReceiptHandle of the message should not be empty"))
       | Some receiptHandle => DeleteMessage receiptHandle w
       end.

(** [pkg/stream/input_sqs.go:230-253] the loop of AckBatch: the handles and the errors; it panics when there are fewer acks than messages *)
Fixpoint ack_handles (msgs : list Message) (acks : list bool) (receiptHandles : list string) (errs : list error) : result panic (list string * list error) :=
  match msgs with
  | [] => Ok (receiptHandles, errs)
  | msg :: msgs =>
      match acks with
      | [] => Err IndexOutOfRange
      | false :: acks => ack_handles msgs acks receiptHandles errs
      | true :: acks =>
          match Attributes msg !! AttributeSqsReceiptHandle with
          | None => ack_handles msgs acks receiptHandles (multi_append errs (Plain "the message has no attribute sqsReceiptHandle"))
          | Some "" => ack_handles msgs acks receiptHandles (multi_append errs (Plain "the attribute sqsReceiptHandle of the message must not be empty"))
          | Some receiptHandle => ack_handles msgs acks (receiptHandles ++ [receiptHandle]) errs
          end
      end
  end.

(** [pkg/stream/input_sqs.go:226-264] AckBatch *)
Definition AckBatch (msgs : list Message) (acks : list bool) w : result panic (W * option error) :=
  let! x := ack_handles msgs acks [] [] in
  Ok (if length x.1 =? 0 then (w, ErrorOrNil x.2)
      else
        let '(w, err) := DeleteMessageBatch x.1 w in
        (w, ErrorOrNil (match err with Some err => multi_append x.2 err | None => x.2 end))).
End Input.

(** ** Topics *)

(** The client of SNS; a batch request that has no error answers with the ids of the
    entries that failed all the same. *)
Class SnsClient (W : Type) := {
  client_Publish : string → option (gmap string string) → W → W * option Exec.error;
  client_PublishBatch : list (string * (string * option (gmap string string))) → W → W * result Exec.error (list string);
}.

(** strings.ToLower, as far as the pattern of valid names can tell: two letters that are not of ASCII become one that is, and the others stay outside of it. *)
Fixpoint ToLower (s : string) : string :=
  match s with
  | EmptyString => EmptyString
  | String "226"%char (String "132"%char (String "170"%char s)) => String "k"%char (ToLower s)
  | String "196"%char (String "176"%char s) => String "i"%char (ToLower s)
  | String c s => String (if (65 <=? nat_of_ascii c) && (nat_of_ascii c <=? 90) then ascii_of_nat (nat_of_ascii c + 32) else c) (ToLower s)
  end.

(** The characters between the dots of a name. *)
Definition name_char (c : ascii) : bool :=
  let n := nat_of_ascii c in ((97 <=? n) && (n <=? 122)) || ((48 <=? n) && (n <=? 57)) || bool_decide (c = "_"%char) || bool_decide (c = "-"%char).

(** [pkg/cloud/aws/sns/attributes.go:36-36] validAttributeRegex; [started] says whether there is a character since the last dot *)
Fixpoint validAttributeRegex (started : bool) (s : string) : bool :=
  match s with
  | EmptyString => started
  | String c s => if name_char c then validAttributeRegex true s else bool_decide (c = "."%char) && started && validAttributeRegex false s
  end.

(** [pkg/cloud/aws/sns/attributes.go:38-58] IsValidAttributeName *)
Definition IsValidAttributeName (name : string) : bool :=
  let name := ToLower name in
  if String.prefix "aws." name || String.prefix "amazon." name then false
  else if 256 <? String.length name then false
  else validAttributeRegex false name.

Section Topic.
Context {W : Type} `{!SnsClient W} (o : map_order string string) (Itoa : nat → string).
Implicit Types (w : W).

(** [pkg/cloud/aws/sns/attributes.go:13-34] buildAttributes; it never fails *)
Definition buildAttributes (attributes : list (gmap string string)) : option (gmap string string) :=
  match attributes with
  | [] => None
  | _ => Some (fold_left (λ snsAttributes attrs, fold_left (λ m kv, if negb (IsValidAttributeName kv.1) then m else <[kv.1 := kv.2]> m) (enum o attrs) snsAttributes) attributes ∅)
  end.

Definition topic_error (canceled other : string) (err : Exec.error) : error :=
  if IsRequestCanceled requestCancelChecks err then Wrapped canceled (Service err) else Wrapped other (Service err).

(** [pkg/cloud/aws/sns/topic.go:71-100] snsTopic.Publish *)
Definition Publish (msg : string) (attributes : list (gmap string string)) w : W * option error :=
  let '(w, err) := client_Publish msg (buildAttributes attributes) w in
  (w, topic_error "request was canceled while publishing to topic" "could not publish message" <$> err).

(** [pkg/cloud/aws/sns/topic.go:19-22] MaxBatchSize *)
Definition MaxBatchSize : nat := 10.

(** [pkg/cloud/aws/sns/topic.go:163-180] computeEntries, from an index on; it panics when there are fewer attributes than messages *)
Fixpoint computeEntries (i : nat) (messages : list string) (attributes : list (gmap string string)) : result panic (list (string * (string * option (gmap string string)))) :=
  match messages with
  | [] => Ok []
  | msg :: messages =>
      match attributes with
      | [] => Err IndexOutOfRange
      | attrs :: attributes => let! rest := computeEntries (S i) messages attributes in Ok ((Itoa i, (msg, buildAttributes [attrs])) :: rest)
      end
  end.

(** [pkg/cloud/aws/sns/topic.go:127-134] getSubSlice *)
Definition getSubSlice {A} (from : nat) (entries : list A) : list A :=
  let endIndex := if length entries <=? from + MaxBatchSize then length entries else from + MaxBatchSize in
  take (endIndex - from) (drop from entries).

(** [pkg/cloud/aws/sns/topic.go:136-161] publishSubSlice *)
Definition publishSubSlice (entries : list (string * (string * option (gmap string string)))) w : W * option error :=
  if MaxBatchSize <? length entries then (w, Some (Plain "batch is too large, max length is 10"))
  else
    match client_PublishBatch entries w with
    | (w, Ok _) => (w, None)
    | (w, Err err) => (w, Some (topic_error "request was canceled while publishing to topic" "could not publish batch" err))
    end.

(** [pkg/cloud/aws/sns/topic.go:115-122] the loop of PublishBatch over [n] messages, from an index on *)
Fixpoint publish_from (fuel i n : nat) (entries : list (string * (string * option (gmap string string)))) w : W * option error :=
  match fuel with
  | 0 => (w, None)
  | S fuel =>
      if n <=? i then (w, None)
      else
        match publishSubSlice (getSubSlice i entries) w with
        | (w, Some err) => (w, Some (Wrapped "could not publish sub slice" err))
        | (w, None) => publish_from fuel (i + MaxBatchSize) n entries w
        end
  end.

(** [pkg/cloud/aws/sns/topic.go:103-125] snsTopic.PublishBatch; the loop makes at most one round per message *)
Definition PublishBatch (messages : list string) (attributes : list (gmap string string)) w : result panic (W * option error) :=
  if negb (length messages =? length attributes) then Ok (w, Some (Plain "there should be as many attributes as messages"))
  else
    let! entries := computeEntries 0 messages attributes in
    Ok (publish_from (length messages) 0 (length messages) entries w).

Context (json_Marshal : Message → result go_error string).

(** [pkg/stream/output_sns.go:63-77] snsOutput.WriteOne *)
Definition sns_WriteOne (message : WritableMessage) w : W * option error :=
  match MarshalToBytes json_Marshal message with
  | Err err => (w, Some (Wrapped "can not marshal message to string" (Foreign err)))
  | Ok body =>
      let '(w, err) := Publish body [getAttributes message] w in
      (w, Wrapped "can not publish message" <$> err)
  end.

(** [pkg/stream/output_sns.go:92-107] computeMessagesAttributes *)
Fixpoint computeMessagesAttributes (batch : list WritableMessage) : result error (list string * list (gmap string string)) :=
  match batch with
  | [] => Ok ([], [])
  | msg :: batch =>
      match MarshalToBytes json_Marshal msg with
      | Err err => Err (Wrapped "failed to marshal message" (Foreign err))
      | Ok message => let! rest := computeMessagesAttributes batch in Ok (message :: rest.1, getAttributes msg :: rest.2)
      end
  end.

(** [pkg/stream/output_sns.go:79-90] snsOutput.Write *)
Definition sns_Write (batch : list WritableMessage) w : result panic (W * option error) :=
  match computeMessagesAttributes batch with
  | Err err => Ok (w, Some (Wrapped "could not compute message attributes" err))
  | Ok x => let! y := PublishBatch x.1 x.2 w in Ok (y.1, Wrapped "can not publish message batch" <$> y.2)
  end.
End Topic.
