(* ===== verification/SqsLaws.v ===== *)
(** Laws of Sqs: what reaches a queue or a topic, what an error means for it, and which
    messages an acknowledgement deletes. *)
From Stdlib Require Import Ascii.
From S2P Require Import Prelude FunkSlice StreamMessage Exec Consumer Sqs.

Open Scope nat_scope.

Lemma chunks_of_chunks {T} (l : list T) (n : nat) : 0 < n → chunks_of l (Z.of_nat n) = chunks n l.
Proof. intros Hn. unfold chunks_of. rewrite Chunk_chunks decide_False; [lia|]. by rewrite Nat2Z.id. Qed.

Lemma chunks_all_bounded {T} (l : list T) n c : 0 < n → c ∈ chunks n l → 0 < length c ≤ n.
Proof. intros Hn [j Hj]%list_elem_of_lookup. by eapply chunks_bounds. Qed.

(** ** What the service promises

    A request without an error is performed for every entry that it does not report; one
    with an error is not performed, or it is and the answer got lost. *)
Section Laws.
Context {W : Type} `{!SqsClient W} (is_too_long : Exec.error → bool).
Context (stored : W → list sqs_Message) (deleted : W → gset string).
Implicit Types (w : W) (messages k : list sqs_Message).

(** The entries without those that failed. *)
Definition accepted {A} (failed : list string) (entries : list (string * A)) : list A :=
  (List.filter (λ e, bool_decide (e.1 ∉ failed)) entries).*2.

Class SqsLaws := {
  law_NewV4 w : stored (NewV4 w).1 = stored w ∧ deleted (NewV4 w).1 = deleted w;
  law_send m w : let x := client_SendMessage m w in
    deleted x.1 = deleted w ∧ match x.2 with None => stored x.1 = stored w ++ [m] | Some _ => stored x.1 = stored w ∨ stored x.1 = stored w ++ [m] end;
  law_send_batch entries w : let x := client_SendMessageBatch entries w in
    deleted x.1 = deleted w ∧
    match x.2 with
    | Ok failed => stored x.1 = stored w ++ accepted failed entries
    | Err err => stored x.1 = stored w ∨ (is_too_long err = false ∧ stored x.1 = stored w ++ entries.*2)
    end;
  law_delete h w : let x := client_DeleteMessage h w in
    stored x.1 = stored w ∧ match x.2 with None => deleted x.1 = deleted w ∪ {[h]} | Some _ => deleted x.1 = deleted w ∨ deleted x.1 = deleted w ∪ {[h]} end;
  law_delete_batch entries w : let x := client_DeleteMessageBatch entries w in
    stored x.1 = stored w ∧
    match x.2 with
    | Ok failed => deleted x.1 = deleted w ∪ list_to_set (accepted failed entries)
    | Err _ => deleted x.1 = deleted w ∨ deleted x.1 = deleted w ∪ list_to_set (entries.*2)
    end;
}.

(** A batch request fails as a whole or for no entry. *)
Definition never_partial : Prop :=
  (∀ entries w failed, (client_SendMessageBatch entries w).2 = Ok failed → failed = []) ∧
  (∀ entries w failed, (client_DeleteMessageBatch entries w).2 = Ok failed → failed = []).

(** A service that is up: it takes a request with one to ten entries, all of them, or
    refuses it because it is too long, unless it is a single message. *)
Definition available : Prop :=
  ∀ entries w, 0 < length entries ≤ 10 →
    match (client_SendMessageBatch entries w).2 with
    | Ok failed => failed = []
    | Err err => is_too_long err = true ∧ 1 < length entries
    end.

Context `{!SqsLaws}.

Lemma accepted_all {A} (entries : list (string * A)) : accepted [] entries = entries.*2.
Proof. unfold accepted. f_equal. induction entries as [|e l IH]; simpl; [done|]. by rewrite IH. Qed.

Lemma accepted_sublist {A} failed (entries : list (string * A)) : accepted failed entries `sublist_of` entries.*2.
Proof. unfold accepted. induction entries as [|e l IH]; simpl; [done|]. destruct (bool_decide _); simpl; by constructor. Qed.

Lemma with_ids_spec {A} (l : list A) w :
  (with_ids l w).2.*2 = l ∧ stored (with_ids l w).1 = stored w ∧ deleted (with_ids l w).1 = deleted w.
Proof.
  revert w. induction l as [|a l IH]; intros w; [done|]. cbn [with_ids]. destruct (NewV4 w) as [w1 id] eqn:Hn.
  pose proof (law_NewV4 w) as [Hs Hd]. rewrite Hn /= in Hs Hd. destruct (IH w1) as (H1 & H2 & H3).
  destruct (with_ids l w1) as [w2 entries]. cbn [fst snd] in *. rewrite fmap_cons H1. split_and!; [done|congruence..].
Qed.

(** What a call that sends did: [k] reached the queue; without an error it is all. *)
Definition sent messages w w' (err : option error) : Prop :=
  deleted w' = deleted w ∧ ∃ k, stored w' = stored w ++ k ∧ k `sublist_of` messages ∧ (err = None → never_partial → k = messages).

Lemma sent_nothing w : sent [] w w None.
Proof. split; [done|]. exists []. by rewrite app_nil_r. Qed.

Lemma sent_failed messages messages' w w' err : sent messages w w' (Some err) → sent (messages ++ messages') w w' (Some err).
Proof. intros [Hd (k & Hk & Hsub & _)]. split; [done|]. exists k. split_and!; [done| |done]. by apply sublist_inserts_r. Qed.

Lemma sent_app messages messages' w w' w'' err err' err'' :
  sent messages w w' err → sent messages' w' w'' err' → (err'' = None → err = None ∧ err' = None) → sent (messages ++ messages') w w'' err''.
Proof.
  intros [Hd (k & Hk & Hsub & Hall)] [Hd' (k' & Hk' & Hsub' & Hall')] Herr. split; [by rewrite Hd'|]. exists (k ++ k').
  split_and!; [by rewrite Hk' Hk app_assoc|by apply sublist_app|]. intros [H1 H2]%Herr Hnp. by rewrite (Hall H1 Hnp) (Hall' H2 Hnp).
Qed.

Lemma send_chunks_spec send chunks w :
  (∀ c w, c ∈ chunks → ∃ w' err, send c w = Some (w', err) ∧ sent c w w' err) →
  ∃ w' err, send_chunks send chunks w = Some (w', err) ∧ sent (mjoin chunks) w w' err.
Proof.
  revert w. induction chunks as [|c chunks IH]; intros w Hsend; cbn [send_chunks].
  - do 2 eexists. split; [done|]. apply sent_nothing.
  - destruct (Hsend c w ltac:(by left)) as (w1 & err & -> & Hc). destruct err as [err|].
    + do 2 eexists. split; [done|]. by apply sent_failed.
    + destruct (IH w1) as (w2 & err & -> & Hrest); [intros; apply Hsend; by right|]. do 2 eexists. split; [done|]. by eapply sent_app.
Qed.

Lemma SendBatch_spec fuel messages w :
  length messages ≤ fuel → ∃ w' err, SendBatch is_too_long fuel messages w = Some (w', err) ∧ sent messages w w' err.
Proof.
  revert messages w. induction fuel as [|fuel IH]; intros [|m messages] w Hfuel; simpl in Hfuel; try lia; cbn [SendBatch].
  1,2: do 2 eexists; (split; [done|]); apply sent_nothing.
  set (all := m :: messages) in *. destruct (with_ids_spec all w) as (Hes & Hst & Hdel). destruct (with_ids all w) as [w1 entries]. simpl in Hes, Hst, Hdel.
  pose proof (law_send_batch entries w1) as Hlaw. destruct (client_SendMessageBatch entries w1) as [w2 r] eqn:Hc. destruct Hlaw as [Hd Hr].
  simpl in Hd, Hr. rewrite Hdel in Hd. rewrite Hst in Hr. destruct r as [failed|err].
  - do 2 eexists. split; [done|]. split; [done|]. exists (accepted failed entries). split_and!; [done| |].
    + rewrite -Hes. apply accepted_sublist.
    + intros _ [Hnp _]. rewrite (Hnp entries w1 failed) ?Hc // accepted_all. done.
  - destruct (is_too_long err) eqn:Hlong; simpl.
    + destruct Hr as [Hr|[? _]]; [|done]. destruct (1 <? S (length messages)) eqn:Hone.
      * apply Nat.ltb_lt in Hone. set (half := (S (length messages) + 1) / 2).
        assert (0 < half ∧ half ≤ fuel) as [Hpos Hle].
        { unfold half. split; [apply Nat.div_str_pos; lia|]. apply Nat.lt_succ_r. apply Nat.Div0.div_lt_upper_bound. lia. }
        replace (Z.of_nat ((length all + 1) / 2)) with (Z.of_nat half) by done. rewrite (chunks_of_chunks all half) //.
        destruct (send_chunks_spec (SendBatch is_too_long fuel) (chunks half all) w2) as (w' & err' & -> & Hsent).
        { intros c w' Hc'. apply IH. pose proof (chunks_all_bounded _ _ _ Hpos Hc'). lia. }
        do 2 eexists. split; [done|]. rewrite concat_chunks // in Hsent. destruct Hsent as [Hd' Hk]. split; [by rewrite Hd'|]. by rewrite Hr in Hk.
      * do 2 eexists. split; [done|]. split; [done|]. exists []. rewrite app_nil_r. split_and!; [done|apply sublist_nil_l|done].
    + do 2 eexists. split; [done|]. split; [done|]. destruct Hr as [Hr|[_ Hr]]; [exists []|exists all]; rewrite Hr ?Hes ?app_nil_r; split_and!; try done; apply sublist_nil_l.
Qed.

Lemma send_chunks_available send chunks w :
  (∀ c w, c ∈ chunks → ∃ w', send c w = Some (w', None) ∧ stored w' = stored w ++ c) →
  ∃ w', send_chunks send chunks w = Some (w', None) ∧ stored w' = stored w ++ mjoin chunks.
Proof.
  revert w. induction chunks as [|c chunks IH]; intros w Hsend; cbn [send_chunks].
  - eexists. split; [done|]. by rewrite app_nil_r.
  - destruct (Hsend c w ltac:(by left)) as (w1 & -> & Hc). destruct (IH w1) as (w2 & -> & Hrest); [intros; apply Hsend; by right|].
    eexists. split; [done|]. by rewrite Hrest Hc app_assoc.
Qed.

(** A batch that the service may refuse as too long is split until it is taken. *)
Lemma SendBatch_available fuel messages w :
  available → length messages ≤ fuel → length messages ≤ 10 →
  ∃ w', SendBatch is_too_long fuel messages w = Some (w', None) ∧ stored w' = stored w ++ messages.
Proof.
  intros Hup. revert messages w. induction fuel as [|fuel IH]; intros [|m messages] w Hfuel Hten; simpl in Hfuel, Hten; try lia; cbn [SendBatch].
  1,2: eexists; (split; [done|]); by rewrite app_nil_r.
  set (all := m :: messages) in *. destruct (with_ids_spec all w) as (Hes & Hst & _). destruct (with_ids all w) as [w1 entries]. simpl in Hes, Hst.
  assert (length entries = S (length messages)) as Hl by (by rewrite -(length_fmap snd entries) Hes).
  pose proof (law_send_batch entries w1) as [_ Hr]. specialize (Hup entries w1 ltac:(lia)).
  destruct (client_SendMessageBatch entries w1) as [w2 r] eqn:Hc. simpl in Hr, Hup. rewrite Hst in Hr. destruct r as [failed|err].
  - subst failed. eexists. split; [done|]. by rewrite Hr accepted_all Hes.
  - destruct Hup as [Hlong Hone]. rewrite Hlong. destruct Hr as [Hr|[? _]]; [|congruence].
    assert (1 <? length all = true) as -> by (apply Nat.ltb_lt; simpl; lia). simpl. set (half := (S (length messages) + 1) / 2).
    assert (0 < half ∧ half ≤ fuel) as [Hpos Hle].
    { unfold half. split; [apply Nat.div_str_pos; lia|]. apply Nat.lt_succ_r. apply Nat.Div0.div_lt_upper_bound. lia. }
    replace (Z.of_nat ((length all + 1) / 2)) with (Z.of_nat half) by done. rewrite (chunks_of_chunks all half) //.
    destruct (send_chunks_available (SendBatch is_too_long fuel) (chunks half all) w2) as (w' & -> & Hsent).
    { intros c w' Hc'. pose proof (chunks_all_bounded _ _ _ Hpos Hc').
      assert (half ≤ S (length messages)) by (apply Nat.Div0.div_le_upper_bound; lia). apply IH; lia. }
    eexists. split; [done|]. by rewrite Hsent concat_chunks // Hr.
Qed.

(** ** The output *)
Section OutputLaws.
Context (json_Marshal : Message → result go_error string) (ToInt32E : string → result go_error Z) (ToStringE : string → result go_error string).
Notation build := (buildSqsMessage json_Marshal ToInt32E ToStringE).

(** The messages that can be built, and whether all can be. *)
Definition built (batch : list WritableMessage) : list sqs_Message := omap (λ msg, match build msg with Ok m => Some m | Err _ => None end) batch.
Definition all_built (batch : list WritableMessage) : Prop := ∀ msg, msg ∈ batch → ∃ m, build msg = Ok m.

Lemma multi_append_nonempty errs err : (∀ es, err = Multi es → es ≠ []) → multi_append errs err ≠ [].
Proof. intros Herr [H1 H2]%app_eq_nil. destruct err; try done. by apply (Herr errs0). Qed.

Lemma cast_attribute_plain {A} (cast : string → result go_error A) key zero attributes err :
  cast_attribute cast key zero attributes = Err err → ∀ es, err ≠ Multi es.
Proof. unfold cast_attribute. destruct (attributes !! key) as [d|]; [|done]. destruct (cast d); [done|]. by intros [= <-]. Qed.

(** No error of a message is a multierror.Error. *)
Lemma build_error msg err : build msg = Err err → ∀ es, err ≠ Multi es.
Proof.
  unfold buildSqsMessage. repeat (destruct (cast_attribute _ _ _ _) as [?|?] eqn:Hc; simpl; [clear Hc|intros [= <-]; by eapply cast_attribute_plain]).
  destruct (MarshalToBytes _ _); [done|]. by intros [= <-].
Qed.

Lemma build_fold batch ms errs :
  let x := fold_left (λ acc msg, match build msg with Err err => (acc.1, multi_append acc.2 err) | Ok m => (acc.1 ++ [m], acc.2) end) batch (ms, errs) in
  x.1 = ms ++ built batch ∧ (x.2 = [] → errs = [] ∧ all_built batch).
Proof.
  revert ms errs. induction batch as [|msg batch IH]; intros ms errs; simpl; [split; [by rewrite app_nil_r|]; intros ->; split; [done|by intros msg Hm%not_elem_of_nil]|].
  destruct (build msg) as [m|err] eqn:Hb.
  - destruct (IH (ms ++ [m]) errs) as [-> H2]. split; [by rewrite -app_assoc|]. intros Hx. destruct (H2 Hx) as [Herrs Hall]. split; [done|].
    intros msg' [->|Hin]%elem_of_cons; [by eexists|by apply Hall].
  - destruct (IH ms (multi_append errs err)) as [-> H2]. split; [done|]. intros Hx. destruct (H2 Hx) as [Herrs _].
    exfalso. revert Herrs. apply multi_append_nonempty. intros es ->. by destruct (build_error msg (Multi es) Hb es).
Qed.

Lemma build_fold_errors batch ms errs :
  let x := fold_left (λ acc msg, match build msg with Err err => (acc.1, multi_append acc.2 err) | Ok m => (acc.1 ++ [m], acc.2) end) batch (ms, errs) in
  errs = [] → all_built batch → x.2 = [].
Proof.
  revert ms errs. induction batch as [|msg batch IH]; intros ms errs; simpl; [done|]. intros -> Hall.
  destruct (Hall msg ltac:(by left)) as [m Hm]. rewrite Hm. apply IH; [done|]. intros x Hx. apply Hall. by right.
Qed.

Lemma length_omap_le {A B} (f : A → option B) l : length (omap f l) ≤ length l.
Proof. induction l as [|x l IH]; csimpl; [done|]. destruct (f x); csimpl; lia. Qed.

Lemma SendBatch_error fuel messages w w' err : SendBatch is_too_long fuel messages w = Some (w', Some err) → ∀ es, err ≠ Multi es.
Proof.
  revert messages w w' err. induction fuel as [|fuel IH]; intros [|m messages] w w' err; cbn [SendBatch]; try done.
  destruct (with_ids _ w) as [w1 entries]. destruct (client_SendMessageBatch entries w1) as [w2 [failed|e]]; [done|].
  destruct (_ && _); [|by intros [= _ <-]]. generalize (chunks_of (m :: messages) (Z.of_nat ((length (m :: messages) + 1) / 2))). clear -IH.
  intros chunks. revert w2. induction chunks as [|c chunks IHc]; intros w2; cbn [send_chunks]; [done|].
  destruct (SendBatch _ fuel c w2) as [[w3 [e'|]]|] eqn:Hs; [|apply IHc|done]. intros [= <- <-]. by eapply IH.
Qed.

Lemma built_app batch batch' : built (batch ++ batch') = built batch ++ built batch'.
Proof. apply omap_app. Qed.

Lemma write_chunks_spec chunks errs w :
  ∃ w' errs' err, write_chunks is_too_long json_Marshal ToInt32E ToStringE chunks errs w = Some (w', errs') ∧
    sent (built (mjoin chunks)) w w' err ∧ (errs' = [] → errs = [] ∧ err = None ∧ all_built (mjoin chunks)).
Proof.
  revert errs w. induction chunks as [|c chunks IH]; intros errs w; cbn [write_chunks].
  - do 3 eexists. split; [done|]. split; [apply sent_nothing|]. intros ->. split_and!; [done..|]. by intros msg Hm%not_elem_of_nil.
  - unfold buildSqsMessages. destruct (build_fold c [] []) as [Hms Herrs]. destruct (fold_left _ c ([], [])) as [ms build_errs]. simpl in Hms, Herrs. subst ms.
    assert (∀ err e w1, sent (built c) w w1 e → (∀ errs', errs ++ build_errs ++ err = errs' → errs' = [] → e = None) →
      ∃ w' errs' err', write_chunks is_too_long json_Marshal ToInt32E ToStringE chunks (errs ++ build_errs ++ err) w1 = Some (w', errs') ∧
        sent (built (mjoin (c :: chunks))) w w' err' ∧ (errs' = [] → errs = [] ∧ err' = None ∧ all_built (mjoin (c :: chunks)))) as Hstep.
    { intros err e w1 Hc He. destruct (IH (errs ++ build_errs ++ err) w1) as (w2 & errs' & err' & -> & Hrest & Hok).
      exists w2, errs', (match e with Some x => Some x | None => err' end). split; [done|]. cbn [mjoin list_join]. rewrite built_app. split.
      - eapply sent_app; [exact Hc|exact Hrest|]. destruct e; [done|]. done.
      - intros Hx. destruct (Hok Hx) as (Hnil & -> & Hall). pose proof (He _ eq_refl Hnil) as ->. apply app_eq_nil in Hnil as [-> [Hb _]%app_eq_nil].
        destruct (Herrs Hb) as [_ Hc']. split_and!; [done..|]. intros msg [Hm|Hm]%elem_of_app; [by apply Hc'|by apply Hall]. }
    destruct (length (built c) =? 0) eqn:Hlen.
    + apply Nat.eqb_eq, nil_length_inv in Hlen. specialize (Hstep [] None w). rewrite app_nil_r in Hstep. apply Hstep; [|done]. rewrite Hlen. apply sent_nothing.
    + destruct (SendBatch_spec (length (built c)) (built c) w (le_n _)) as (w1 & e & Hs & Hsent). rewrite Hs. destruct e as [e|].
      * unfold multi_append. assert ((match e with Multi es => es | _ => [e] end) = [e]) as -> by (destruct e; try done; by destruct (SendBatch_error _ _ _ _ _ Hs errs0)).
        rewrite -app_assoc. by apply (Hstep [e] (Some e) w1 Hsent); intros ? <- [_ [_ ?]%app_eq_nil]%app_eq_nil.
      * specialize (Hstep [] None w1 Hsent). rewrite app_nil_r in Hstep. by apply Hstep.
Qed.

Lemma write_chunks_available chunks errs w :
  available → (∀ c, c ∈ chunks → length c ≤ 10) →
  ∃ w' errs', write_chunks is_too_long json_Marshal ToInt32E ToStringE chunks errs w = Some (w', errs') ∧
    stored w' = stored w ++ built (mjoin chunks) ∧ (errs = [] → all_built (mjoin chunks) → errs' = []).
Proof.
  intros Hup. revert errs w. induction chunks as [|c chunks IH]; intros errs w Hten; cbn [write_chunks].
  - do 2 eexists. split; [done|]. by rewrite app_nil_r.
  - unfold buildSqsMessages. pose proof (build_fold c [] []) as [Hms _]. pose proof (build_fold_errors c [] []) as Herrs.
    destruct (fold_left _ c ([], [])) as [ms build_errs]. simpl in Hms, Herrs. subst ms. cbn [mjoin list_join]. rewrite built_app.
    assert (length (built c) ≤ 10) as Hb by (etrans; [apply length_omap_le | apply Hten; by left]).
    assert (∀ c', c' ∈ chunks → length c' ≤ 10) as Hrest by (intros c' Hc'; apply Hten; by right).
    destruct (Nat.eqb_spec (length (built c)) 0) as [Hlen|_].
    + apply nil_length_inv in Hlen. rewrite Hlen. destruct (IH (errs ++ build_errs) w Hrest) as (w2 & errs' & -> & Hst & Hok).
      do 2 eexists. split; [done|]. split; [done|]. intros -> Hall. apply Hok; [apply Herrs; [done|]|]; intros m Hm; apply Hall, elem_of_app; auto.
    + destruct (SendBatch_available (length (built c)) (built c) w Hup (le_n _) Hb) as (w1 & -> & Hs).
      destruct (IH (errs ++ build_errs) w1 Hrest) as (w2 & errs' & -> & Hst & Hok).
      do 2 eexists. split; [done|]. split; [by rewrite Hst Hs app_assoc|].
      intros -> Hall. apply Hok; [apply Herrs; [done|]|]; intros m Hm; apply Hall, elem_of_app; auto.
Qed.

(** C36: Write sends the messages that can be built in order, none twice, in requests of at most ten entries.  A service that is up,
    which takes each request with up to ten entries unless it is too long and not a single message, gets all of them, because a request
    that is too long is split, and there is no error when all can be built.  Whatever else fails, nothing is sent twice or out of order,
    and without an error every message was built and, when no request fails for single entries, is in the queue. *)
Theorem sqs_Write_correct batch w :
  ∃ w' err k, Write is_too_long json_Marshal ToInt32E ToStringE batch w = Some (w', err) ∧
    stored w' = stored w ++ k ∧ deleted w' = deleted w ∧ k `sublist_of` built batch ∧
    (err = None → all_built batch ∧ (never_partial → k = built batch)) ∧
    (available → k = built batch ∧ (all_built batch → err = None)).
Proof.
  unfold Write. change SqsOutputBatchSize with (Z.of_nat 10). rewrite chunks_of_chunks; [lia|].
  destruct (write_chunks_spec (chunks 10 batch) [] w) as (w' & errs & err & Hchunks & [Hd (k & Hk & Hsub & Hall)] & Hok). rewrite Hchunks.
  rewrite concat_chunks in Hsub Hall Hok; [lia..|]. do 3 eexists. split; [done|]. split_and!; [exact Hk|done|done| |].
  - destruct errs as [|e errs]; [|done]. intros _. destruct (Hok eq_refl) as (_ & -> & Hb). split; [done|]. by apply Hall.
  - intros Hup. destruct (write_chunks_available (chunks 10 batch) [] w Hup) as (w2 & errs2 & Hw & Hst & Hnone).
    { intros c Hc. pose proof (chunks_all_bounded batch 10 c ltac:(lia) Hc). lia. }
    rewrite concat_chunks in Hst Hnone; [lia..|]. rewrite Hchunks in Hw. injection Hw as <- <-. rewrite Hk in Hst. apply app_inv_head in Hst as ->.
    split; [done|]. intros Hall'. by rewrite (Hnone eq_refl Hall').
Qed.
End OutputLaws.

(** ** Acknowledgements *)

(** The handle of a message that Ack accepts. *)
Definition handle_of (msg : Message) : option string :=
  match Attributes msg !! AttributeSqsReceiptHandle with Some h => if bool_decide (h = ""%string) then None else Some h | None => None end.

(** The handles of the messages that are acknowledged. *)
Fixpoint acked (msgs : list Message) (acks : list bool) : list string :=
  match msgs, acks with
  | msg :: msgs, ack :: acks => (if ack then match handle_of msg with Some h => [h] | None => [] end else []) ++ acked msgs acks
  | _, _ => []
  end.

Lemma ack_handles_spec msgs acks hs errs :
  length msgs ≤ length acks →
  ∃ errs', ack_handles msgs acks hs errs = Ok (hs ++ acked msgs acks, errs') ∧
    (errs' = [] → errs = [] ∧ ∀ i msg, msgs !! i = Some msg → acks !! i = Some true → is_Some (handle_of msg)).
Proof.
  revert acks hs errs. induction msgs as [|msg msgs IH]; intros acks hs errs Hlen; simpl in Hlen.
  - exists errs. split; [by destruct acks; rewrite /= app_nil_r|]. intros ->. by split.
  - destruct acks as [|ack acks]; simpl in Hlen; [lia|]. cbn [ack_handles acked].
    assert (∀ hs' errs0, (errs0 = [] → errs = [] ∧ (ack = true → is_Some (handle_of msg))) → hs' ++ acked msgs acks = hs ++ acked (msg :: msgs) (ack :: acks) →
      ∃ errs', ack_handles msgs acks hs' errs0 = Ok (hs ++ acked (msg :: msgs) (ack :: acks), errs') ∧
        (errs' = [] → errs = [] ∧ ∀ i m, (msg :: msgs) !! i = Some m → (ack :: acks) !! i = Some true → is_Some (handle_of m))) as Hstep.
    { intros hs' errs0 H0 Heq. destruct (IH acks hs' errs0 ltac:(lia)) as (errs' & -> & Hok). exists errs'. rewrite Heq. split; [done|]. intros Hx.
      destruct (Hok Hx) as [Hnil Hall]. destruct (H0 Hnil) as [-> Hm]. split; [done|]. intros [|i] m; simpl; [by intros [= ->] [= ->]; apply Hm|by apply Hall]. }
    cbn [acked] in Hstep. destruct ack; [|by apply Hstep]. unfold handle_of in *.
    destruct (Attributes msg !! AttributeSqsReceiptHandle) as [[|c h]|]; simpl in *; apply Hstep; try done; try (by rewrite -app_assoc).
    all: intros Hx; by destruct errs.
Qed.

Lemma delete_from_spec fuel i (entries : list (string * string)) errs w :
  length entries ≤ i + fuel →
  let x := delete_from fuel i entries errs w in
  stored x.1 = stored w ∧ deleted w ⊆ deleted x.1 ∧ deleted x.1 ⊆ deleted w ∪ list_to_set (drop i entries).*2 ∧
  (x.2 = [] → errs = [] ∧ (never_partial → deleted x.1 = deleted w ∪ list_to_set (drop i entries).*2)).
Proof.
  revert i errs w. induction fuel as [|fuel IH]; intros i errs w Hf; cbn [delete_from].
  - rewrite drop_ge; [lia|]. simpl. rewrite union_empty_r_L. done.
  - destruct (Nat.leb_spec (length entries) i) as [Hle|Hlt].
    + rewrite drop_ge //. simpl. rewrite union_empty_r_L. done.
    + set (j := if length entries <? i + sqsBatchSize then length entries else i + sqsBatchSize).
      assert (take (j - i) (drop i entries) = take sqsBatchSize (drop i entries)) as ->.
      { unfold j. destruct (Nat.ltb_spec (length entries) (i + sqsBatchSize)); [|by replace (i + sqsBatchSize - i) with sqsBatchSize by lia].
        rewrite !take_ge //; rewrite length_drop; lia. }
      set (now := take sqsBatchSize (drop i entries)). pose proof (law_delete_batch now w) as [Hst Hdel].
      destruct (client_DeleteMessageBatch now w) as [w1 r] eqn:Hc. simpl in Hst, Hdel.
      assert (drop i entries = now ++ drop (i + sqsBatchSize) entries) as ->. { unfold now. by rewrite -drop_drop take_drop. }
      rewrite fmap_app list_to_set_app_L.
      destruct (IH (i + sqsBatchSize) (match r with Err err => multi_append errs (Service err) | Ok _ => errs end) w1) as (H1 & H2 & H3 & H4); [unfold sqsBatchSize; lia|].
      assert (deleted w ⊆ deleted w1 ∧ deleted w1 ⊆ deleted w ∪ list_to_set now.*2 ∧
        (never_partial → (∃ failed, r = Ok failed) → deleted w1 = deleted w ∪ list_to_set now.*2)) as (Hsub & Hsup & Hall).
      { destruct r as [failed|err].
        - split_and!; [rewrite Hdel; apply union_subseteq_l| |].
          + rewrite Hdel. pose proof (accepted_sublist failed now). intros h. rewrite !elem_of_union !elem_of_list_to_set. intros [Hh|Hh]; [by left|right]. by eapply elem_of_sublist.
          + intros [_ Hnp] _. rewrite Hdel (Hnp now w failed) ?Hc // accepted_all. done.
        - split_and!; [destruct Hdel as [->| ->]; [done|apply union_subseteq_l]|destruct Hdel as [->| ->]; [apply union_subseteq_l|done]|]. by intros _ [? [=]]. }
      rewrite (assoc_L (∪)). split_and!; [congruence|by etrans|etrans; [exact H3|]; by apply union_mono_r|].
      intros Hx. destruct (H4 Hx) as [Herr Heq]. destruct r as [failed|err]; [|by destruct errs]. split; [done|]. intros Hnp. by rewrite (Heq Hnp) (Hall Hnp); [eexists|].
Qed.

(** AckBatch deletes no message but those that are acknowledged, and without an error each of them has a handle and, when no request
    fails for single entries, is deleted; the same holds for Ack. *)
Theorem AckBatch_correct msgs acks w :
  length msgs ≤ length acks →
  ∃ w' err, AckBatch msgs acks w = Ok (w', err) ∧ stored w' = stored w ∧
    deleted w ⊆ deleted w' ∧ deleted w' ⊆ deleted w ∪ list_to_set (acked msgs acks) ∧
    (err = None → (∀ i msg, msgs !! i = Some msg → acks !! i = Some true → is_Some (handle_of msg)) ∧
      (never_partial → deleted w' = deleted w ∪ list_to_set (acked msgs acks))).
Proof.
  intros Hlen. unfold AckBatch. destruct (ack_handles_spec msgs acks [] [] Hlen) as (errs & -> & Herrs). cbn [res_bind fst snd app].
  do 2 eexists. split; [apply f_equal, surjective_pairing|]. destruct (length (acked msgs acks) =? 0) eqn:Hl.
  - apply Nat.eqb_eq, nil_length_inv in Hl. rewrite Hl. simpl. rewrite union_empty_r_L. split_and!; [done..|].
    intros He. destruct errs; [|done]. destruct (Herrs eq_refl) as [_ Hh]. by split.
  - unfold DeleteMessageBatch. destruct (with_ids_spec (acked msgs acks) w) as (Hes & Hst & Hd). destruct (with_ids _ w) as [w1 entries]. simpl in Hes, Hst, Hd.
    destruct (delete_from_spec (length entries) 0 entries [] w1) as (H1 & H2 & H3 & H4); [lia|]. rewrite drop_0 Hes Hd in H2 H3 H4.
    destruct (delete_from _ 0 entries [] w1) as [w2 derrs]. simpl in *. split_and!; [congruence|done|done|].
    intros He. destruct derrs as [|e derrs]; simpl in He.
    + destruct errs; [|done]. destruct (H4 eq_refl) as [_ Hall]. destruct (Herrs eq_refl) as [_ Hh]. by split.
    + by destruct errs.
Qed.
End Laws.

(** ** From the output to the input *)
Section Roundtrip.
Context {W V : Type} `{!SqsClient W} (o : map_order string V).
Context (json_Marshal : Message → result go_error string) (json_Unmarshal : string → result go_error (gmap string V * string)).
Context (cast_string : V → result go_error string) (of_string : string → V).
Context (ToInt32E : string → result go_error Z) (ToStringE : string → result go_error string).

(** What is marshalled is read again, with the attributes as JSON strings. *)
Hypothesis json_roundtrip : ∀ m text, json_Marshal m = Ok text → json_Unmarshal text = Ok (of_string <$> Attributes m, Body m).
Hypothesis cast_of_string : ∀ s, cast_string (of_string s) = Ok s.

Lemma unmarshal_attributes_spec kvs attributes :
  (∀ k v, (k, v) ∈ kvs → ∃ s, v = of_string s) →
  ∃ m, unmarshal_attributes cast_string kvs attributes = Ok m ∧
    (∀ m0 : gmap string V, NoDup kvs.*1 → (∀ k v, (k, v) ∈ kvs ↔ m0 !! k = Some v) → ∀ k, of_string <$> m !! k = match m0 !! k with Some v => Some v | None => of_string <$> attributes !! k end).
Proof.
  revert attributes. induction kvs as [|[k v] kvs IH]; intros attributes Hs; simpl.
  - exists attributes. split; [done|]. intros m0 _ Hm0 k. destruct (m0 !! k) as [v|] eqn:Hv; [|done]. by apply Hm0, not_elem_of_nil in Hv.
  - destruct (Hs k v ltac:(by left)) as [s ->]. rewrite cast_of_string. destruct (IH (<[k:=s]> attributes)) as (m & -> & Hm); [intros k' v' Hin; apply (Hs k' v'); by right|].
    exists m. split; [done|]. intros m0 [Hk Hnd]%NoDup_cons Hm0 k'. specialize (Hm (delete k m0) Hnd).
    assert (∀ k0 v0, (k0, v0) ∈ kvs ↔ delete k m0 !! k0 = Some v0) as Hdel.
    { intros k0 v0. rewrite lookup_delete_Some -Hm0 elem_of_cons. split.
      - intros Hin. split; [|by right]. intros <-. apply Hk. apply list_elem_of_fmap. by exists (k, v0).
      - intros [Hne [[= ? ?]|?]]; [done|done]. }
    rewrite (Hm Hdel k'). destruct (base.decide (k' = k)) as [->|Hne].
    + rewrite lookup_delete_eq lookup_insert_eq. assert (m0 !! k = Some (of_string s)) as -> by (apply Hm0; by left). done.
    + rewrite lookup_delete_ne // lookup_insert_ne //.
Qed.

(** A message that was written to the queue arrives as it was, with the id and the handle it is acknowledged by. *)
Theorem sqs_message_arrives m s id h count :
  buildSqsMessage json_Marshal ToInt32E ToStringE (WMessage m) = Ok s →
  ∃ m', receive_one (MessageUnmarshaller json_Unmarshal o cast_string) {| r_MessageId := id; r_ReceiptHandle := h; r_Body := sqs_Body s; r_ApproximateReceiveCount := count |} = Some m' ∧
    Body m' = Body m ∧ Attributes m' !! AttributeSqsReceiptHandle = Some h ∧ Attributes m' !! AttributeSqsMessageId = Some id ∧
    (∀ k, k ∉ [AttributeSqsReceiptHandle; AttributeSqsMessageId; AttributeSqsApproximateReceiveCount] → Attributes m' !! k = Attributes m !! k).
Proof.
  unfold buildSqsMessage. repeat (destruct (cast_attribute _ _ _ _) as [?|?]; simpl; [|done]). destruct (json_Marshal m) as [text|] eqn:Ht; [|done]. intros [= <-].
  unfold receive_one, MessageUnmarshaller, UnmarshalFromBytes. cbn [r_Body sqs_Body]. rewrite (json_roundtrip _ _ Ht). cbn [res_bind fst snd].
  destruct (unmarshal_attributes_spec (enum o (of_string <$> Attributes m)) ∅) as (am & -> & Ha).
  { intros k v Hin%elem_of_enum. apply lookup_fmap_Some in Hin as (t & <- & _). by exists t. }
  specialize (Ha _ (enum_nodup_keys o _) (λ k v, elem_of_enum o _ k v)).
  assert (∀ k, am !! k = Attributes m !! k) as Heq.
  { intros k. specialize (Ha k). rewrite lookup_empty lookup_fmap in Ha. destruct (am !! k) as [x|], (Attributes m !! k) as [y|]; simpl in Ha; try done.
    injection Ha as Ha. apply (f_equal cast_string) in Ha. rewrite !cast_of_string in Ha. congruence. }
  cbn [res_bind Attributes Body r_ReceiptHandle r_MessageId r_ApproximateReceiveCount]. eexists. split; [done|]. cbn [Attributes Body]. split; [done|].
  split_and!.
  - destruct count as [n|]; [rewrite (lookup_insert_ne _ AttributeSqsApproximateReceiveCount) //|]; by rewrite lookup_insert_eq.
  - destruct count as [n|]; [rewrite (lookup_insert_ne _ AttributeSqsApproximateReceiveCount) //|];
      rewrite (lookup_insert_ne _ AttributeSqsReceiptHandle) //; by rewrite lookup_insert_eq.
  - intros k [H1 [H2 [H3 _]%not_elem_of_cons]%not_elem_of_cons]%not_elem_of_cons.
    destruct count as [n|]; rewrite !lookup_insert_ne //; by apply not_eq_sym.
Qed.
End Roundtrip.

(** ** Topics *)

(** The names of attributes: segments of letters, digits, underscores and hyphens between dots. *)
Definition chars (s : string) : Prop := ∀ c, c ∈ String.list_ascii_of_string s → name_char c = true.
Inductive dotted : string → Prop :=
| dotted_one s : chars s → s ≠ ""%string → dotted s
| dotted_more s t : chars s → s ≠ ""%string → dotted t → dotted (s +:+ String "."%char t).

Lemma chars_cons c s : chars (String c s) ↔ name_char c = true ∧ chars s.
Proof.
  unfold chars. simpl. split; [intros Hs; split; [apply Hs; by left|intros d Hd; apply Hs; by right]|]. by intros [Hc Hs] d [->|Hd]%elem_of_cons; [|apply Hs].
Qed.

(** The pattern, after a part of a segment. *)
Lemma regex_app (b : bool) s t : chars s → validAttributeRegex b (s +:+ t) = validAttributeRegex (b || bool_decide (s ≠ ""%string)) t.
Proof.
  revert b. induction s as [|c s IH]; intros b Hs; [by rewrite /= orb_false_r|]. apply chars_cons in Hs as [Hc Hs].
  change (validAttributeRegex b (String c (s +:+ t)) = validAttributeRegex (b || bool_decide (String c s ≠ ""%string)) t). cbn [validAttributeRegex]. rewrite Hc IH //.
  by rewrite (bool_decide_true (String c s ≠ _)) // orb_true_r.
Qed.

Lemma regex_sound s b : validAttributeRegex b s = true → ∃ p, chars p ∧ (b = false → p ≠ ""%string) ∧ (s = p ∨ ∃ t, s = p +:+ String "."%char t ∧ dotted t).
Proof.
  revert b. induction s as [|c s IH]; intros b; cbn [validAttributeRegex].
  - intros ->. exists ""%string. split_and!; [by intros c Hc%not_elem_of_nil|done|by left].
  - destruct (name_char c) eqn:Hc.
    + intros (p & Hp & _ & Hs)%IH. exists (String c p). split_and!; [by apply chars_cons|done|]. destruct Hs as [->|(t & -> & Ht)]; [by left|right]. by exists t.
    + intros [[->%bool_decide_eq_true ->]%andb_true_iff (p & Hp & Hne & Hs)%IH]%andb_true_iff. exists ""%string.
      split_and!; [by intros d Hd%not_elem_of_nil|done|]. right. exists s. split; [done|]. destruct Hs as [->|(t & -> & Ht)]; [apply dotted_one|apply dotted_more]; auto.
Qed.

(** The pattern matches the names and nothing else. *)
Theorem validAttributeRegex_correct s : validAttributeRegex false s = true ↔ dotted s.
Proof.
  split.
  - intros (p & Hp & Hne & [->|(t & -> & Ht)])%regex_sound; [apply dotted_one|apply dotted_more]; auto.
  - induction 1 as [s Hs Hne|s t Hs Hne Ht IH].
    + pose proof (regex_app false s "" Hs) as Ha. rewrite (bool_decide_true (s ≠ ""%string)) // in Ha. simpl in Ha. rewrite -Ha. f_equal. clear. induction s as [|c s IH]; [done|]. change (String c s = String c (s +:+ "")). by rewrite -IH.
    + rewrite regex_app // bool_decide_true //.
Qed.

Section TopicLaws.
Context {W : Type} `{!SnsClient W} (o : map_order string string) (Itoa : nat → string) (published : W → list (string * option (gmap string string))).
Implicit Types (w : W).

(** A batch of entries with different ids is published but for the entries that are reported, unless the request fails; the answer of a failed request can be lost. *)
Class SnsLaws := {
  law_publish m a w : let x := client_Publish m a w in
    match x.2 with None => published x.1 = published w ++ [(m, a)] | Some _ => published x.1 = published w ∨ published x.1 = published w ++ [(m, a)] end;
  law_publish_batch entries w : NoDup entries.*1 → 0 < length entries ≤ 10 → let x := client_PublishBatch entries w in
    match x.2 with Ok failed => published x.1 = published w ++ accepted failed entries | Err _ => published x.1 = published w ∨ published x.1 = published w ++ entries.*2 end;
}.

Definition never_partial_sns : Prop := ∀ entries w failed, (client_PublishBatch entries w).2 = Ok failed → failed = [].

Context `{!SnsLaws} (Itoa_inj : ∀ i j, Itoa i = Itoa j → i = j).

(** A message's attributes: those with a valid name. *)
Lemma buildAttributes_one (a : gmap string string) : buildAttributes o [a] = Some (filter (λ kv, IsValidAttributeName kv.1) a).
Proof.
  unfold buildAttributes. cbn [fold_left]. f_equal. apply map_eq. intros k. pose proof (insert_where_enum (λ k _, IsValidAttributeName k) (λ _ v, v) o a ∅ k) as Hk.
  rewrite lookup_empty in Hk. rewrite map_lookup_filter. transitivity (insert_where (λ k _, IsValidAttributeName k) (λ _ v, v) (enum o a) ∅ !! k).
  - f_equal. unfold insert_where. generalize (enum o a) (∅ : gmap string string). intros l. induction l as [|[k' v] l IH]; intros m; simpl; [done|]. rewrite IH. by destruct (IsValidAttributeName k').
  - rewrite Hk. destruct (a !! k) as [v|]; simpl; [|done]. by destruct (IsValidAttributeName k).
Qed.

(** What is published for a message. *)
Definition to_publish (messages : list string) (attributes : list (gmap string string)) : list (string * option (gmap string string)) :=
  zip_with (λ m a, (m, Some (filter (λ kv, IsValidAttributeName kv.1) a))) messages attributes.

Lemma computeEntries_spec i messages attributes :
  length messages = length attributes →
  ∃ entries, computeEntries o Itoa i messages attributes = Ok entries ∧ entries.*2 = to_publish messages attributes ∧ entries.*1 = Itoa <$> seq i (length messages).
Proof.
  revert i attributes. induction messages as [|m messages IH]; intros i [|a attributes] Hlen; simpl in Hlen; try lia; [by exists []|].
  destruct (IH (S i) attributes) as (entries & He & H2 & H1); [lia|]. cbn [computeEntries]. rewrite He buildAttributes_one. eexists. split; [done|]. cbn. by rewrite H1 H2.
Qed.

Lemma publish_from_spec fuel i entries w :
  NoDup entries.*1 → length entries ≤ i + fuel →
  let x := publish_from fuel i (length entries) entries w in
  ∃ k, published x.1 = published w ++ k ∧ k `sublist_of` (drop i entries).*2 ∧ (x.2 = None → never_partial_sns → k = (drop i entries).*2).
Proof.
  intros Hnd. revert i w. induction fuel as [|fuel IH]; intros i w Hf; cbn [publish_from].
  - exists []. rewrite drop_ge; [lia|]. by rewrite app_nil_r.
  - destruct (Nat.leb_spec (length entries) i) as [Hle|Hlt]; [exists []; by rewrite drop_ge // app_nil_r|].
    assert (getSubSlice i entries = take 10 (drop i entries)) as ->.
    { unfold getSubSlice, MaxBatchSize. destruct (Nat.leb_spec (length entries) (i + 10)); [|by replace (i + 10 - i) with 10 by lia]. rewrite !take_ge //; rewrite length_drop; lia. }
    set (now := take 10 (drop i entries)). assert (0 < length now ≤ 10) as Hnow by (unfold now; rewrite length_take length_drop; lia).
    assert (drop i entries = now ++ drop (i + 10) entries) as Heq by (unfold now; by rewrite -drop_drop take_drop).
    assert (NoDup now.*1) as Hnd'.
    { unfold now. rewrite fmap_take fmap_drop. eapply sublist_NoDup; [exact Hnd|]. etrans; [apply sublist_take|apply sublist_drop]. }
    unfold publishSubSlice. rewrite (proj2 (Nat.ltb_ge MaxBatchSize (length now))); [unfold MaxBatchSize; lia|].
    pose proof (law_publish_batch now w Hnd' Hnow) as Hlaw. destruct (client_PublishBatch now w) as [w1 r] eqn:Hc. simpl in Hlaw. rewrite Heq fmap_app.
    destruct r as [failed|err]; simpl.
    + destruct (IH (i + 10) w1) as (k & Hk & Hsub & Hall); [lia|]. exists (accepted failed now ++ k). split_and!.
      * by rewrite Hk Hlaw app_assoc.
      * apply sublist_app; [apply accepted_sublist|done].
      * intros Hx Hnp. rewrite (Hall Hx Hnp) (Hnp now w failed) ?Hc // accepted_all //.
    + destruct Hlaw as [Hlaw|Hlaw]; [exists []|exists now.*2]; rewrite Hlaw ?app_nil_r; split_and!; try done; [apply sublist_nil_l|by apply sublist_inserts_r].
Qed.

(** PublishBatch publishes the messages in order, each at most once, with the attributes that have a valid name, in requests that the
    service accepts; without an error, all of them when no request fails for single entries. *)
Theorem PublishBatch_correct messages attributes w :
  length messages = length attributes →
  ∃ w' err k, PublishBatch o Itoa messages attributes w = Ok (w', err) ∧ published w' = published w ++ k ∧
    k `sublist_of` to_publish messages attributes ∧ (err = None → never_partial_sns → k = to_publish messages attributes).
Proof.
  intros Hlen. unfold PublishBatch. rewrite (proj2 (Nat.eqb_eq _ _) Hlen). simpl.
  destruct (computeEntries_spec 0 messages attributes Hlen) as (entries & -> & H2 & H1). cbn [res_bind].
  assert (length entries = length messages) as Hl by (apply (f_equal length) in H1; by rewrite !length_fmap length_seq in H1).
  destruct (publish_from_spec (length messages) 0 entries w) as (k & Hk & Hsub & Hall).
  - rewrite H1. apply NoDup_fmap_2; [intros ??; apply Itoa_inj|apply NoDup_seq].
  - lia.
  - rewrite Hl drop_0 H2 in Hk Hsub Hall. do 3 eexists. split; [apply f_equal, surjective_pairing|]. by split_and!.
Qed.
End TopicLaws.

(** ** Samples *)
Module SqsSamples.
(** A queue that refuses batches of more than [limit] messages and fails for the messages with a certain body. *)
Record world := { msgs : list sqs_Message; gone : gset string; next : nat; limit : nat; bad : string }.
Definition too_long : Exec.error := EValue 99.
Definition is_too_long (err : Exec.error) : bool := match err with EValue 99 => true | _ => false end.
Definition failed_of (w : world) (entries : list (string * sqs_Message)) : list string :=
  (List.filter (λ e, bool_decide (sqs_Body e.2 = bad w)) entries).*1.
Definition with_msgs l (w : world) : world := {| msgs := l; gone := gone w; next := next w; limit := limit w; bad := bad w |}.
Definition with_gone g (w : world) : world := {| msgs := msgs w; gone := g; next := next w; limit := limit w; bad := bad w |}.

#[global] Instance sample_client : SqsClient world := {|
  client_SendMessage m w := (with_msgs (msgs w ++ [m]) w, None);
  client_SendMessageBatch entries w :=
    if limit w <? length entries then (w, Err too_long) else (with_msgs (msgs w ++ accepted (failed_of w entries) entries) w, Ok (failed_of w entries));
  client_ReceiveMessage _ _ w := (w, Ok []);
  client_DeleteMessage h w := (with_gone (gone w ∪ {[h]}) w, None);
  client_DeleteMessageBatch entries w := (with_gone (gone w ∪ list_to_set (accepted [] entries)) w, Ok []);
  NewV4 w := ({| msgs := msgs w; gone := gone w; next := S (next w); limit := limit w; bad := bad w |}, unary (next w));
|}.

#[global] Instance sample_laws : SqsLaws is_too_long msgs gone.
Proof.
  split; [done|done| |done|done]. intros entries w x. unfold x. cbn [client_SendMessageBatch sample_client].
  destruct (limit w <? length entries); cbn; [split; [done|by left]|done].
Qed.

Definition start (limit : nat) (bad : string) : world := {| msgs := []; gone := ∅; next := 0; limit := limit; bad := bad |}.
Definition no_json (m : Message) : result go_error string := Ok (Body m).
Definition plain (s : string) : result go_error string := Ok s.
Definition delay (s : string) : result go_error Z := Atoi s.
Definition write (bodies : list string) (w : world) := Write is_too_long no_json delay plain ((λ b, WOther (Ok b)) <$> bodies) w.
Definition outcome (r : option (world * option error)) : option (list string * option error) := (λ x, (sqs_Body <$> msgs x.1, x.2)) <$> r.

(** A queue that is up: it refuses requests with more than ten entries, and those that are too long in bytes. *)
Definition bytes (entries : list (string * sqs_Message)) : nat := sum_list_with (λ e, String.length (sqs_Body e.2)) entries.
Definition sqs_refuses (entries : list (string * sqs_Message)) : option Exec.error :=
  if 10 <? length entries then Some (EValue 98) else if (3 <? bytes entries) && (1 <? length entries) then Some too_long else None.

Definition up_client : SqsClient (list sqs_Message) := {|
  client_SendMessage m w := (w ++ [m], None);
  client_SendMessageBatch entries w :=
    match sqs_refuses entries with Some err => (w, Err err) | None => (w ++ entries.*2, Ok []) end;
  client_ReceiveMessage _ _ w := (w, Ok []);
  client_DeleteMessage h w := (w, Some (EValue 98));
  client_DeleteMessageBatch entries w := (w, Err (EValue 98));
  NewV4 w := (w, "id"%string);
|}.

Lemma up_laws : @SqsLaws _ up_client is_too_long id (λ _, ∅).
Proof.
  split; [done|done| |by split; [|left]|by split; [|left]]. intros entries w x. unfold x. cbn [client_SendMessageBatch up_client].
  destruct (sqs_refuses entries); simpl; split; try done; [by left|]. by rewrite accepted_all.
Qed.

Lemma up_available : @available _ up_client is_too_long.
Proof.
  intros entries w [_ Hten]. cbn [client_SendMessageBatch up_client]. unfold sqs_refuses.
  rewrite (proj2 (Nat.ltb_ge 10 (length entries)) Hten). destruct (3 <? bytes entries), (Nat.ltb_spec 1 (length entries)); done.
Qed.

(** A batch that is too long is split. *)
Example long_batch_split : outcome (write ["a"; "b"; "c"; "d"; "e"]%string (start 2 "x"%string)) = Some (["a"; "b"; "c"; "d"; "e"]%string, None).
Proof. vm_compute. reflexivity. Qed.

(** The answer to a batch request names the entries that failed; nobody reads it, so the message is lost and Write has no error. *)
Example partial_failure_lost : outcome (write ["a"; "b"; "c"]%string (start 10 "b"%string)) = Some (["a"; "c"]%string, None).
Proof. vm_compute. reflexivity. Qed.

(** The Kelvin sign becomes a letter of ASCII, so a name with it counts as valid. *)
Example kelvin_is_valid : IsValidAttributeName (String "226"%char (String "132"%char (String "170"%char "elvin"))) = true ∧
  IsValidAttributeName "aws.name" = false ∧ IsValidAttributeName "Some.Name" = true ∧ IsValidAttributeName "some..name" = false.
Proof. vm_compute. done. Qed.

Definition with_handle (h : string) : Message := {| Attributes := {[AttributeSqsReceiptHandle := h]}; Body := h |}.

(** A topic. *)
Definition topic : Type := list (string * option (gmap string string)).
#[global] Instance sample_topic : SnsClient topic := {|
  client_Publish m a w := (w ++ [(m, a)], None);
  client_PublishBatch entries w := (w ++ accepted [] entries, Ok []);
|}.
#[global] Instance sample_topic_laws : SnsLaws (W := topic) id.
Proof. by split. Qed.
End SqsSamples.

(** Eleven messages in two requests, of which the first is split; one message is too long for any batch. *)
Lemma sqs_Write_correct_witness :
  let bodies := ["a"; "b"; "c"; "ddddd"; "e"; "f"; "g"; "h"; "i"; "j"; "k"]%string in
  ∃ w', @Write _ SqsSamples.up_client SqsSamples.is_too_long SqsSamples.no_json SqsSamples.delay SqsSamples.plain
    ((λ b, WOther (Ok b)) <$> bodies) [] = Some (w', None) ∧ sqs_Body <$> w' = bodies.
Proof.
  intros bodies.
  destruct (@sqs_Write_correct _ SqsSamples.up_client SqsSamples.is_too_long id (λ _, ∅) SqsSamples.up_laws SqsSamples.no_json SqsSamples.delay SqsSamples.plain
    ((λ b, WOther (Ok b)) <$> bodies) []) as (w' & err & k & Hw & Hk & _ & _ & _ & Hup).
  destruct (Hup SqsSamples.up_available) as [Hall Herr]. rewrite Herr in Hw.
  - intros msg Hm. apply list_elem_of_fmap in Hm as (b & -> & _). eexists. reflexivity.
  - exists w'. split; [exact Hw|]. simpl in Hk. rewrite Hk Hall. vm_compute. reflexivity.
Defined.

Lemma AckBatch_correct_witness :
  ∃ w' err, AckBatch [SqsSamples.with_handle "1"; SqsSamples.with_handle "2"] [true; false] (SqsSamples.start 10 "x"%string) = Ok (w', err) ∧
    SqsSamples.gone w' ⊆ ∅ ∪ list_to_set ["1"%string].
Proof.
  destruct (AckBatch_correct SqsSamples.is_too_long SqsSamples.msgs SqsSamples.gone [SqsSamples.with_handle "1"; SqsSamples.with_handle "2"] [true; false] (SqsSamples.start 10 "x"%string))
    as (w' & err & Hw & _ & _ & Hsub & _); [simpl; lia|].
  exists w', err. split; [exact Hw|exact Hsub].
Defined.

Lemma sqs_message_arrives_witness :
  let m := {| Attributes := ∅; Body := "body" |} in
  ∃ m', receive_one (MessageUnmarshaller (V := string) (λ text, Ok (∅, text)) canonical_order Ok)
      {| r_MessageId := "id"; r_ReceiptHandle := "h"; r_Body := "body"; r_ApproximateReceiveCount := None |} = Some m' ∧ Body m' = "body"%string.
Proof.
  intros m. destruct (sqs_message_arrives (V := string) canonical_order (λ m, if bool_decide (Attributes m = ∅) then Ok (Body m) else Err (EMsg ""))
    (λ text, Ok (∅, text)) Ok id SqsSamples.delay SqsSamples.plain) with (m := m) (s := {| DelaySeconds := 0; MessageGroupId := None; MessageDeduplicationId := None; sqs_Body := "body" |})
    (id := "id"%string) (h := "h"%string) (count := @None string) as (m' & Hm & Hb & _).
  - intros m0 text. destruct (bool_decide (Attributes m0 = ∅)) eqn:Hd; [|discriminate]. intros Ht. injection Ht as <-. apply bool_decide_eq_true in Hd. rewrite Hd. reflexivity.
  - reflexivity.
  - vm_compute. reflexivity.
  - exists m'. split; [exact Hm|exact Hb].
Defined.

Lemma PublishBatch_correct_witness :
  ∃ w' err k, PublishBatch (W := SqsSamples.topic) canonical_order unary ["a"; "b"]%string [∅; ∅] [] = Ok (w', err) ∧ w' = k.
Proof.
  destruct (PublishBatch_correct (W := SqsSamples.topic) canonical_order unary id) with (messages := ["a"; "b"]%string) (attributes := [∅; ∅] : list (gmap string string)) (w := [] : SqsSamples.topic)
    as (w' & err & k & Hw & Hk & _); [|reflexivity|].
  - induction i as [|i IH]; intros [|j] Hij; try discriminate; [reflexivity|]. injection Hij as Hij. by rewrite (IH j Hij).
  - exists w', err, k. split; [exact Hw|exact Hk].
Defined.
