(* ===== verification/TaskRunner.v ===== *)
(** pkg/conc/task_runner/task_runner.go as a transition system, pkg/conc/poisoned_lock.go
    and pkg/conc/signal_once.go.

    A step is what a goroutine does between two points at which it can wait: RunTask waits
    for the lock and then, holding it, for room in the channel; Run waits at its select,
    for the lock, and for the channel while it empties it.  Channels have addresses,
    because Provide replaces the channel of a runner that is done. *)
From S2P Require Import Prelude.

Open Scope nat_scope.

Section Runner.
Context {T : Type} (capacity : nat).

(** Where Run is: at the select, before the lock, before the range, in the range over a channel, and at its end. *)
Inductive pc := Select | WantLock | Unlocked | Drain (ch : nat) | Returned.

(** A channel: what is in it, and whether it is closed. *)
Definition chan : Type := list T * bool.

(** [pkg/conc/task_runner/task_runner.go:33-39] taskRunner, with its channels, the task of the call of RunTask that holds the lock, and
    what happened: the tasks that RunTask accepted and refused, and those that were started *)
Record taskRunner := {
  done : bool;
  pendingTasks : nat;
  chans : list chan;
  lck : option T;
  run : pc;
  canceled : bool;
  accepted : list T;
  refused : list T;
  started : list T;
  panicked : bool;
}.

(** [pkg/conc/task_runner/task_runner.go:94-98] newTaskRunner *)
Definition newTaskRunner : taskRunner := {|
  done := false; pendingTasks := 0; chans := [([], false)]; lck := None; run := Select; canceled := false;
  accepted := []; refused := []; started := []; panicked := false |}.

Definition set_chan (i : nat) (c : chan) (s : taskRunner) : taskRunner := {|
  done := done s; pendingTasks := pendingTasks s; chans := <[i := c]> (chans s); lck := lck s; run := run s; canceled := canceled s;
  accepted := accepted s; refused := refused s; started := started s; panicked := panicked s |}.
Definition set_lck (l : option T) (s : taskRunner) : taskRunner := {|
  done := done s; pendingTasks := pendingTasks s; chans := chans s; lck := l; run := run s; canceled := canceled s;
  accepted := accepted s; refused := refused s; started := started s; panicked := panicked s |}.
Definition set_run (p : pc) (s : taskRunner) : taskRunner := {|
  done := done s; pendingTasks := pendingTasks s; chans := chans s; lck := lck s; run := p; canceled := canceled s;
  accepted := accepted s; refused := refused s; started := started s; panicked := panicked s |}.
Definition set_done (d : bool) (s : taskRunner) : taskRunner := {|
  done := d; pendingTasks := pendingTasks s; chans := chans s; lck := lck s; run := run s; canceled := canceled s;
  accepted := accepted s; refused := refused s; started := started s; panicked := panicked s |}.
Definition set_canceled (s : taskRunner) : taskRunner := {|
  done := done s; pendingTasks := pendingTasks s; chans := chans s; lck := lck s; run := run s; canceled := true;
  accepted := accepted s; refused := refused s; started := started s; panicked := panicked s |}.
Definition add_accepted (t : T) (s : taskRunner) : taskRunner := {|
  done := done s; pendingTasks := pendingTasks s; chans := chans s; lck := lck s; run := run s; canceled := canceled s;
  accepted := accepted s ++ [t]; refused := refused s; started := started s; panicked := panicked s |}.
Definition add_refused (t : T) (s : taskRunner) : taskRunner := {|
  done := done s; pendingTasks := pendingTasks s; chans := chans s; lck := lck s; run := run s; canceled := canceled s;
  accepted := accepted s; refused := refused s ++ [t]; started := started s; panicked := panicked s |}.
Definition add_started (t : T) (s : taskRunner) : taskRunner := {|
  done := done s; pendingTasks := pendingTasks s; chans := chans s; lck := lck s; run := run s; canceled := canceled s;
  accepted := accepted s; refused := refused s; started := started s ++ [t]; panicked := panicked s |}.
Definition set_panicked (s : taskRunner) : taskRunner := {|
  done := done s; pendingTasks := pendingTasks s; chans := chans s; lck := lck s; run := run s; canceled := canceled s;
  accepted := accepted s; refused := refused s; started := started s; panicked := true |}.

(** [pkg/conc/task_runner/task_runner.go:71-74] the new channel that Provide makes for a runner that is done *)
Definition reset (s : taskRunner) : taskRunner := {|
  done := false; pendingTasks := length (chans s); chans := chans s ++ [([], false)]; lck := lck s; run := run s; canceled := canceled s;
  accepted := accepted s; refused := refused s; started := started s; panicked := panicked s |}.

(** [pkg/conc/task_runner/task_runner.go:126-136] RunTask: its steps *)
Inductive runTask_step (s : taskRunner) : taskRunner → Prop :=
| runTask_done t : lck s = None → done s = true → runTask_step s (add_refused t s)
| runTask_lock t : lck s = None → done s = false → runTask_step s (set_lck (Some t) s)
| runTask_send t q : lck s = Some t → chans s !! pendingTasks s = Some (q, false) → length q < capacity →
    runTask_step s (set_lck None (add_accepted t (set_chan (pendingTasks s) (q ++ [t], false) s)))
| runTask_closed t q : lck s = Some t → chans s !! pendingTasks s = Some (q, true) → runTask_step s (set_panicked s).

(** [pkg/conc/task_runner/task_runner.go:62-77] Provide, of a runner that is there: its step *)
Inductive provide_step (s : taskRunner) : taskRunner → Prop :=
| provide_reset : lck s = None → done s = true → provide_step s (reset s).

(** [pkg/conc/task_runner/task_runner.go:100-124] Run: its steps; a closed channel without tasks delivers a nil module at the select, whose Run panics *)
Inductive run_step (s : taskRunner) : taskRunner → Prop :=
| run_task t q c : run s = Select → chans s !! pendingTasks s = Some (t :: q, c) → run_step s (add_started t (set_chan (pendingTasks s) (q, c) s))
| run_nil : run s = Select → chans s !! pendingTasks s = Some ([], true) → run_step s (set_panicked s)
| run_canceled : run s = Select → canceled s = true → run_step s (set_run WantLock s)
| run_close q : run s = WantLock → lck s = None → chans s !! pendingTasks s = Some (q, false) →
    run_step s (set_run Unlocked (set_chan (pendingTasks s) (q, true) (set_done true s)))
| run_close_twice q : run s = WantLock → lck s = None → chans s !! pendingTasks s = Some (q, true) → run_step s (set_panicked s)
| run_range : run s = Unlocked → run_step s (set_run (Drain (pendingTasks s)) s)
| run_drain i t q c : run s = Drain i → chans s !! i = Some (t :: q, c) → run_step s (add_started t (set_chan i (q, c) s))
| run_end i : run s = Drain i → chans s !! i = Some ([], true) → run_step s (set_run Returned s).

(** Steps, without and with calls of Provide; the context is canceled at some time. *)
Inductive step (provides : bool) (s : taskRunner) : taskRunner → Prop :=
| step_runTask s' : runTask_step s s' → step provides s s'
| step_run s' : run_step s s' → step provides s s'
| step_cancel : canceled s = false → step provides s (set_canceled s)
| step_provide s' : provides = true → provide_step s s' → step provides s s'.

Definition steps (provides : bool) : taskRunner → taskRunner → Prop := rtc (step provides).
Definition reachable (provides : bool) (s : taskRunner) : Prop := steps provides newTaskRunner s.

(** What waits in the only channel, while Provide made no other. *)
Definition waiting (s : taskRunner) : list T := match chans s with [(q, _)] => q | _ => [] end.

(** The invariant while Provide makes no new channel. *)
Record runner_ok (s : taskRunner) : Prop := {
  ok_chan : ∃ q, chans s = [(q, done s)] ∧ accepted s = started s ++ q ∧ length q ≤ capacity ∧ (run s = Returned → q = []);
  ok_current : pendingTasks s = 0;
  ok_lock : is_Some (lck s) → done s = false;
  ok_done : done s = match run s with Select | WantLock => false | _ => true end;
  ok_drain : ∀ i, run s = Drain i → i = 0;
  ok_canceled : run s ≠ Select → canceled s = true;
  ok_fine : panicked s = false;
}.

Lemma newTaskRunner_ok : runner_ok newTaskRunner.
Proof. split; try done; simpl. exists []. split_and!; try done. simpl. lia. Qed.

Lemma step_ok s s' : runner_ok s → step false s s' → runner_ok s'.
Proof.
  intros [(q & Hch & Hacc & Hlen & Hret) Hcur Hlock Hdone Hdrain Hcanc Hfine] Hstep.
  destruct Hstep as [? Hstep|? Hstep|Hc|? [=] _].
  - destruct Hstep as [t Hl Hd|t Hl Hd|t q' Hl Hq Hcap|t q' Hl Hq]; try (rewrite ?Hcur ?Hch in Hq; simpl in Hq); simplify_eq.
    + split; simpl; try done. by exists q.
    + split; simpl; try done. by exists q.
    + assert (done s = false) as Hd by (apply Hlock; by rewrite Hl). split; simpl; rewrite ?Hcur ?Hch //=.
      exists (q' ++ [t]). rewrite Hd Hacc length_app /= app_assoc. split_and!; [done|done|lia|]. intros Hr. rewrite Hr in Hdone. congruence.
    + assert (done s = false) by (apply Hlock; by rewrite Hl). congruence.
  - destruct Hstep as [t q' c Hr Hq|Hr Hq|Hr Hc|q' Hr Hl Hq|q' Hr Hl Hq|Hr|i t q' c Hr Hq|i Hr Hq]; try (specialize (Hdrain _ Hr) as ->); try (rewrite ?Hcur ?Hch in Hq; simpl in Hq); simplify_eq; rewrite ?Hr in Hdone.
    + split; simpl; rewrite ?Hcur ?Hch ?Hr //=. exists q'. rewrite Hacc -app_assoc. split_and!; [done..|simpl in Hlen; lia|intros Hx; discriminate Hx].
    + congruence.
    + split; simpl; try done. exists q. by split_and!.
    + split; simpl; rewrite ?Hcur ?Hch ?Hl //=; [|intros _; apply Hcanc; by rewrite Hr]. exists q'. by split_and!.
    + congruence.
    + split; simpl; rewrite ?Hcur ?Hch //=; [|by intros ? [= <-]|intros _; apply Hcanc; by rewrite Hr]. exists q. by split_and!.
    + split; simpl; rewrite ?Hcur ?Hch ?Hr //=; [|by intros ? [= <-]|intros _; apply Hcanc; by rewrite Hr]. exists q'. rewrite Hacc -app_assoc. split_and!; [done..|simpl in Hlen; lia|intros Hx; discriminate Hx].
    + split; simpl; rewrite ?Hcur ?Hch //=; [|intros _; apply Hcanc; by rewrite Hr]. exists []. by split_and!.
  - split; simpl; try done. by exists q.
Qed.

Lemma runner_reachable_ok s : reachable false s → runner_ok s.
Proof.
  unfold reachable, steps. revert s. apply rtc_ind_r; [apply newTaskRunner_ok|]. intros s s' _ Hstep Hok. by eapply step_ok.
Qed.

(** A task that RunTask accepted is started, in order and once, before Run returns; what is not accepted gets an error, and nothing
    panics.  This holds while nobody calls Provide for a runner that is done. *)
Theorem accepted_tasks_run s :
  reachable false s →
  panicked s = false ∧ accepted s = started s ++ waiting s ∧ (run s = Returned → started s = accepted s ∧ ∀ s', runTask_step s s' → accepted s' = accepted s).
Proof.
  intros [(q & Hch & Hacc & _ & Hret) Hcur Hlock Hdone _ _ Hfine]%runner_reachable_ok. unfold waiting. rewrite Hch. split_and!; [done..|].
  intros Hr. rewrite (Hret Hr) app_nil_r in Hacc. split; [done|]. rewrite Hr in Hdone. intros s' Hstep.
  destruct Hstep as [|t Hl Hd|t q' Hl Hq Hcap|]; try done. rewrite Hcur Hch Hdone in Hq. by simplify_eq.
Qed.

(** The steps that Run can make alone. *)
Definition run_steps : taskRunner → taskRunner → Prop := rtc run_step.

Lemma drain_returns s q : runner_ok s → chans s = [(q, done s)] → run s = Drain 0 → ∃ s', run_steps s s' ∧ run s' = Returned.
Proof.
  revert s. induction q as [|t q IH]; intros s Hok Hch Hr; pose proof Hok as [_ _ _ Hdone _ _ _]; rewrite Hr in Hdone.
  - eexists. split; [apply rtc_once; apply (run_end s 0); [done|by rewrite Hch Hdone]|done].
  - assert (run_step s (add_started t (set_chan 0 (q, done s) s))) as Hstep by (apply (run_drain s 0); [done|by rewrite Hch]).
    destruct (IH (add_started t (set_chan 0 (q, done s) s))) as (s' & Hs & Hr'); [eapply step_ok; [done|by apply step_run]|by rewrite /= Hch|done|].
    exists s'. split; [by eapply rtc_l|done].
Qed.

(** Once its context is canceled, Run returns, unless a call of RunTask holds the lock. *)
Theorem run_returns s : reachable false s → canceled s = true → lck s = None → ∃ s', run_steps s s' ∧ run s' = Returned.
Proof.
  intros Hok%runner_reachable_ok Hc Hl.
  assert (∀ s, runner_ok s → run s = Unlocked → ∃ s', run_steps s s' ∧ run s' = Returned) as Hunlocked.
  { intros s1 Hok1 Hr. assert (run_step s1 (set_run (Drain (pendingTasks s1)) s1)) as Hstep by by apply run_range.
    pose proof Hok1 as [(q & Hch & _) Hcur _ _ _ _ _]. destruct (drain_returns (set_run (Drain (pendingTasks s1)) s1) q) as (s' & Hs & Hr').
    - eapply step_ok; [done|by apply step_run].
    - done.
    - simpl. by rewrite Hcur.
    - exists s'. split; [by eapply rtc_l|done]. }
  assert (∀ s, runner_ok s → run s = WantLock → lck s = None → ∃ s', run_steps s s' ∧ run s' = Returned) as Hwant.
  { intros s1 Hok1 Hr Hl1. pose proof Hok1 as [(q & Hch & _) Hcur _ Hdone _ _ _]. rewrite Hr in Hdone.
    assert (run_step s1 (set_run Unlocked (set_chan (pendingTasks s1) (q, true) (set_done true s1)))) as Hstep by (apply run_close; [done|done|by rewrite Hcur Hch Hdone]).
    destruct (Hunlocked (set_run Unlocked (set_chan (pendingTasks s1) (q, true) (set_done true s1)))) as (s' & Hs & Hr'); [eapply step_ok; [done|by apply step_run]|done|].
    exists s'. split; [by eapply rtc_l|done]. }
  destruct (run s) as [| | |i|] eqn:Hr.
  - assert (run_step s (set_run WantLock s)) as Hstep by by apply run_canceled.
    destruct (Hwant (set_run WantLock s)) as (s' & Hs & Hr'); [eapply step_ok; [done|by apply step_run]|done|done|]. exists s'. split; [by eapply rtc_l|done].
  - by apply Hwant.
  - by apply Hunlocked.
  - pose proof Hok as [(q & Hch & _) _ _ _ Hdrain _ _]. pose proof (Hdrain _ Hr) as ->. by eapply drain_returns.
  - exists s. by split; [apply rtc_refl|].
Qed.
End Runner.

(** ** What can go wrong *)
Module RunnerSamples.

(** The channel is full and RunTask waits for room while it holds the lock; the context is canceled and Run leaves its select for the lock.
    The source has room for 100 tasks. *)
Definition deadlocked : taskRunner (T := nat) :=
  set_run WantLock (set_canceled (set_lck (Some 2) (set_lck None (add_accepted 1 (set_chan 0 ([1], false) (set_lck (Some 1) newTaskRunner)))))).

(** Run has closed the channel, and Provide makes a new one before Run ranges over it. *)
Definition revived : taskRunner (T := nat) :=
  set_run (Drain 1) (reset (set_run Unlocked (set_chan 0 ([1], true) (set_done true (set_run WantLock (set_canceled (set_lck None (add_accepted 1 (set_chan 0 ([1], false) (set_lck (Some 1) newTaskRunner)))))))))).
End RunnerSamples.

(** When RunTask waits for room in a full channel while the context of Run is canceled, both can wait for each other for ever: Run wants
    the lock that RunTask holds, and RunTask wants the room that Run would make. *)
Theorem shutdown_deadlock :
  reachable 1 false RunnerSamples.deadlocked ∧ ∀ s, ¬ step 1 true RunnerSamples.deadlocked s.
Proof.
  split.
  - unfold reachable, steps, RunnerSamples.deadlocked.
    eapply rtc_l; [apply step_runTask, (runTask_lock _ _ 1); reflexivity|].
    eapply rtc_l; [apply step_runTask, (runTask_send _ _ 1 []); [reflexivity|reflexivity|simpl; lia]|].
    eapply rtc_l; [apply step_runTask, (runTask_lock _ _ 2); reflexivity|].
    eapply rtc_l; [apply step_cancel; reflexivity|].
    eapply rtc_l; [apply step_run, run_canceled; reflexivity|]. apply rtc_refl.
  - intros s Hstep. inversion Hstep as [? Hr|? Hr|Hc|? _ Hr]; subst; try discriminate; inversion Hr; simplify_eq/=; try discriminate; lia.
Qed.

(** A call of Provide, as each call of the function RunTask makes one, between the end of the critical section of Run and its range: Run
    waits on the new channel, which nobody closes, and the task that was accepted is in the old one. *)
Theorem revived_runner_hangs :
  reachable 1 true RunnerSamples.revived ∧ accepted RunnerSamples.revived = [1] ∧ started RunnerSamples.revived = [] ∧
  ∀ s, ¬ run_step RunnerSamples.revived s.
Proof.
  split_and!; [|reflexivity|reflexivity|].
  - unfold reachable, steps, RunnerSamples.revived.
    eapply rtc_l; [apply step_runTask, (runTask_lock _ _ 1); reflexivity|].
    eapply rtc_l; [apply step_runTask, (runTask_send _ _ 1 []); [reflexivity|reflexivity|simpl; lia]|].
    eapply rtc_l; [apply step_cancel; reflexivity|].
    eapply rtc_l; [apply step_run, run_canceled; reflexivity|].
    eapply rtc_l; [apply step_run, (run_close _ [1]); reflexivity|].
    eapply rtc_l; [apply step_provide; [reflexivity|apply provide_reset; reflexivity]|].
    eapply rtc_l; [apply step_run, run_range; reflexivity|]. apply rtc_refl.
  - intros s Hstep. inversion Hstep; simplify_eq/=; discriminate.
Qed.

Lemma accepted_tasks_run_witness :
  let s := add_started 1 (set_chan 0 ([], false) (set_lck None (add_accepted 1 (set_chan 0 ([1], false) (set_lck (Some 1) newTaskRunner))))) in
  panicked s = false ∧ accepted s = started s ++ waiting s.
Proof.
  intros s. destruct (accepted_tasks_run 1 s) as (Hp & Ha & _); [|split; [exact Hp|exact Ha]].
  unfold reachable, steps, s.
  eapply rtc_l; [apply step_runTask, (runTask_lock _ _ 1); reflexivity|].
  eapply rtc_l; [apply step_runTask, (runTask_send _ _ 1 []); [reflexivity|reflexivity|simpl; lia]|].
  eapply rtc_l; [apply step_run, (run_task _ 1 [] false); reflexivity|]. apply rtc_refl.
Defined.

Lemma run_returns_witness : ∃ s', run_steps (set_canceled (newTaskRunner (T := nat))) s' ∧ run s' = Returned.
Proof.
  apply (run_returns 1); [|reflexivity|reflexivity]. eapply rtc_l; [apply step_cancel; reflexivity|apply rtc_refl].
Defined.

(** ** The poisoned lock

    An operation that finds the lock taken waits: it answers [None]. *)
Module PoisonedLock.
(** [pkg/conc/poisoned_lock.go:31-34] poisonedLock *)
Record poisonedLock := { locked : bool; poisoned : bool }.

(** [pkg/conc/poisoned_lock.go:8-9] ErrAlreadyPoisoned *)
Definition ErrAlreadyPoisoned : go_error := EMsg "lock was already poisoned".

(** [pkg/conc/poisoned_lock.go:37-42] NewPoisonedLock *)
Definition NewPoisonedLock : poisonedLock := {| locked := false; poisoned := false |}.

(** [pkg/conc/poisoned_lock.go:44-54] TryLock *)
Definition TryLock (p : poisonedLock) : option (poisonedLock * option go_error) :=
  if locked p then None
  else if poisoned p then Some (p, Some ErrAlreadyPoisoned)
  else Some ({| locked := true; poisoned := false |}, None).

(** [pkg/conc/poisoned_lock.go:56-61] MustLock: it panics where TryLock has an error *)
Definition MustLock (p : poisonedLock) : option (result go_error poisonedLock) :=
  match TryLock p with None => None | Some (_, Some err) => Some (Err err) | Some (p, None) => Some (Ok p) end.

(** [pkg/conc/poisoned_lock.go:63-65] Unlock: of a lock that is not taken it is fatal *)
Definition Unlock (p : poisonedLock) : option poisonedLock := if locked p then Some {| locked := false; poisoned := poisoned p |} else None.

(** [pkg/conc/poisoned_lock.go:67-83] Poison and poisonLocked, which unlocks in any case *)
Definition Poison (p : poisonedLock) : option (poisonedLock * option go_error) :=
  if locked p then None
  else if poisoned p then Some (p, Some ErrAlreadyPoisoned)
  else Some ({| locked := false; poisoned := true |}, None).

(** [pkg/conc/poisoned_lock.go:85-97] PoisonIf, by the answers of the function *)
Definition PoisonIf (f : bool * option go_error) (p : poisonedLock) : option (poisonedLock * option go_error) :=
  match TryLock p with
  | None => None
  | Some (p, Some err) => Some (p, Some err)
  | Some (p, None) => Some ({| locked := false; poisoned := f.1 || poisoned p |}, f.2)
  end.

(** The operations; the answer is the state and whether the operation got the lock, or poisoned it. *)
Inductive op := OTryLock | OUnlock | OPoison | OPoisonIf (f : bool * option go_error).

Definition run_op (o : op) (p : poisonedLock) : option (poisonedLock * bool) :=
  match o with
  | OTryLock => (λ x, (x.1, bool_decide (x.2 = None))) <$> TryLock p
  | OUnlock => (λ p, (p, false)) <$> Unlock p
  | OPoison => (λ x, (x.1, bool_decide (x.2 = None))) <$> Poison p
  | OPoisonIf f => (λ x, (x.1, negb (poisoned p))) <$> PoisonIf f p
  end.

Inductive ops : list bool → poisonedLock → poisonedLock → Prop :=
| ops_nil p : ops [] p p
| ops_cons o p p' p'' b bs : run_op o p = Some (p', b) → ops bs p' p'' → ops (b :: bs) p p''.

(** A poisoned lock stays poisoned and free, and no operation gets it again or runs its function under it. *)
Theorem poisoned_for_good p p' bs :
  poisoned p = true → locked p = false → ops bs p p' → p' = p ∧ ∀ b, b ∈ bs → b = false.
Proof.
  intros Hp Hl Hops. induction Hops as [p|o p p1 p2 b bs Ho Hops IH]; [split; [done|by intros b Hb%not_elem_of_nil]|].
  assert (p1 = p ∧ b = false) as [-> ->].
  { destruct o; unfold run_op, TryLock, Unlock, Poison, PoisonIf, TryLock in Ho; rewrite ?Hl ?Hp /= in Ho; simplify_eq/=; auto. }
  destruct (IH Hp Hl) as [-> Hbs]. split; [done|]. by intros b [->|Hb]%elem_of_cons; [|apply Hbs].
Qed.

Lemma poisoned_for_good_witness : ops [true; false; false] NewPoisonedLock {| locked := false; poisoned := true |} ∧ false = false.
Proof.
  split; [|apply (poisoned_for_good {| locked := false; poisoned := true |} {| locked := false; poisoned := true |} [false]);
    [reflexivity|reflexivity|eapply (ops_cons OTryLock); [reflexivity|apply ops_nil]|by left]].
  eapply (ops_cons OPoison); [reflexivity|]. eapply (ops_cons OTryLock); [reflexivity|]. eapply (ops_cons (OPoisonIf (true, None))); [reflexivity|]. apply ops_nil.
Defined.
End PoisonedLock.

(** ** The signal *)
Module Signal.
(** [pkg/conc/signal_once.go:19-22] signalOnce: whether the channel is closed, and whether the sync.Once was used *)
Record signalOnce := { c_closed : bool; closed : bool }.

(** [pkg/conc/signal_once.go:24-29] NewSignalOnce *)
Definition NewSignalOnce : signalOnce := {| c_closed := false; closed := false |}.

(** [pkg/conc/signal_once.go:31-35] Signal: closing a channel twice panics *)
Definition Signal (s : signalOnce) : result panic signalOnce :=
  if closed s then Ok s
  else if c_closed s then Err CloseOfClosedChannel
  else Ok {| c_closed := true; closed := true |}.

(** [pkg/conc/signal_once.go:41-48] Signaled *)
Definition Signaled (s : signalOnce) : bool := c_closed s.

(** Any number of signals. *)
Fixpoint signals (n : nat) (s : signalOnce) : result panic signalOnce := match n with 0 => Ok s | S n => let! s := Signal s in signals n s end.

(** Signal can be called more than once, and Signaled tells whether it was called. *)
Theorem signals_correct n : ∃ s, signals n NewSignalOnce = Ok s ∧ Signaled s = (0 <? n).
Proof.
  destruct n as [|n]; [by eexists|]. simpl. assert (signals n {| c_closed := true; closed := true |} = Ok {| c_closed := true; closed := true |}) as ->; [by induction n|by eexists].
Qed.
End Signal.
