(* ===== verification/Metric.v ===== *)
(** Metrics on their way to the writers: pkg/metric/channel.go, writer.go, datum.go,
    defaults.go, custom_units.go and daemon.go.

    The services write to a channel without a bound, the daemon hands what it reads to the
    raw writers and collects it in a batch for the aggregating writers.  Values are
    float64 and a parameter, and so are kinds; logging is left out.  The pieces of the
    daemon's loop are the steps of a transition system with the services. *)
From S2P Require Import Prelude.

Open Scope string_scope.
Open Scope list_scope.
Open Scope nat_scope.

Section Metric.
Context {F K : Type} (kind_name : K → string) (timeFormat : option Z → string).
Context (fzero finf fneginf : F) (fadd fdiv fmax fmin : F → F → F) (of_len : nat → F).

(** [pkg/metric/datum.go:10-18] Datum; the zero time is [None] *)
Record Datum := {
  Priority : Z;
  Timestamp : option Z;
  MetricName : string;
  Dimensions : gmap string string;
  Value : F;
  Unit : string;
  Kind : K;
}.

Context (dim_order : map_order string string).

(** [pkg/metric/datum.go:24-36] DimensionKV *)
Definition DimensionKV (d : Datum) : string :=
  String.concat "-" (merge_sort String.le ((λ kv, kv.1 +:+ ":" +:+ kv.2) <$> enum dim_order (Dimensions d))).

(** [pkg/metric/datum.go:20-22] Id *)
Definition Id (d : Datum) : string := MetricName d +:+ ":" +:+ DimensionKV d.

(** [pkg/metric/datum.go:38-52] IsValid *)
Definition IsValid (d : Datum) : option go_error :=
  if bool_decide (MetricName d = "") then Some (EMsg "missing metric name")
  else if bool_decide (Priority d = 0%Z) then Some (EMsg "metric has no priority")
  else if bool_decide (Unit d = "") then Some (EMsg "metric has no unit")
  else None.

(** [pkg/metric/defaults.go:10-18] addMetricDefaults *)
Definition addMetricDefaults (data : list Datum) (metricDefaults : gmap string Datum) : gmap string Datum :=
  fold_left (λ m d, <[Id d := d]> m) data metricDefaults.

(** [pkg/metric/defaults.go:20-41] amendFromDefault *)
Definition amendFromDefault (metricDefaults : gmap string Datum) (d : Datum) : Datum :=
  match metricDefaults !! Id d with
  | None => d
  | Some def => {|
      Priority := if bool_decide (Priority d = 0%Z) then Priority def else Priority d;
      Timestamp := Timestamp d; MetricName := MetricName d; Dimensions := Dimensions d; Value := Value d;
      Unit := if bool_decide (Unit d = "") then Unit def else Unit d;
      Kind := if bool_decide (kind_name (Kind d) = "") then Kind def else Kind d |}
  end.

(** ** Units *)

(** [pkg/metric/custom_units.go:66-74] sum *)
Definition sum (xs : list F) : F := fold_left fadd xs fzero.
(** [pkg/metric/custom_units.go:62-64] average *)
Definition average (xs : list F) : F := fdiv (sum xs) (of_len (length xs)).
(** [pkg/metric/custom_units.go:76-84] maximum *)
Definition maximum (xs : list F) : F := fold_left fmax xs fneginf.
(** [pkg/metric/custom_units.go:86-94] minimum *)
Definition minimum (xs : list F) : F := fold_left fmin xs finf.

(** [pkg/metric/custom_units.go:24-27] unitDefinition *)
Definition unitDefinition : Type := string * (list F → F).

(** [pkg/metric/custom_units.go:43-52] RegisterCustomUnit: it panics for a unit that is there *)
Definition RegisterCustomUnit (unit standardUnit : string) (reducer : list F → F) (customUnits : gmap string unitDefinition) : result go_error (gmap string unitDefinition) :=
  match customUnits !! unit with
  | Some _ => Err (EMsg "a custom unit with this name was already registered")
  | None => Ok (<[unit := (standardUnit, reducer)]> customUnits)
  end.

(** [pkg/metric/custom_units.go:54-60] resolveCustomUnit *)
Definition resolveCustomUnit (customUnits : gmap string unitDefinition) (unit : string) (values : list F) : string * F :=
  match customUnits !! unit with
  | Some (standardUnit, reducer) => (standardUnit, reducer values)
  | None => (unit, sum values)
  end.

(** ** The channel *)

(** [pkg/metric/channel.go:39-46] metricChannel; [hasData]: there is a value in its channel *)
Record metricChannel := { hasData : bool; data : list Datum; enabled : bool; closed : bool }.

(** [pkg/metric/channel.go:48-59] read *)
Definition read (c : metricChannel) : metricChannel * list Datum := ({| hasData := hasData c; data := []; enabled := enabled c; closed := closed c |}, data c).

(** [pkg/metric/channel.go:61-86] write *)
Definition write (batch : list Datum) (c : metricChannel) : metricChannel :=
  if negb (enabled c) || closed c then c
  else {| hasData := true; data := data c ++ batch; enabled := enabled c; closed := closed c |}.

(** [pkg/metric/channel.go:88-93] close *)
Definition close (c : metricChannel) : metricChannel := {| hasData := hasData c; data := data c; enabled := enabled c; closed := true |}.

(** [pkg/metric/writer.go:54-58] the time of a datum without one *)
Definition with_timestamp (now : Z) (d : Datum) : Datum :=
  match Timestamp d with
  | Some _ => d
  | None => {| Priority := Priority d; Timestamp := Some now; MetricName := MetricName d; Dimensions := Dimensions d; Value := Value d; Unit := Unit d; Kind := Kind d |}
  end.

(** [pkg/metric/writer.go:49-61] writer.Write, with the time the clock shows for each datum *)
Definition Write (now : nat → Z) (batch : list Datum) (c : metricChannel) : metricChannel :=
  if negb (enabled c) || (length batch =? 0) then c else write (imap (λ i d, with_timestamp (now i) d) batch) c.

(** ** The daemon *)

(** [pkg/metric/daemon.go:32-40] BatchedMetricDatum *)
Record BatchedMetricDatum := { b_Priority : Z; b_Timestamp : option Z; b_MetricName : string; b_Dimensions : gmap string string; b_Values : list F; b_Unit : string; b_Kind : K }.

(** [pkg/metric/daemon.go:185-188] the key of a datum *)
Definition key_of (d : Datum) : string := MetricName d +:+ "-" +:+ DimensionKV d +:+ "-" +:+ timeFormat (Timestamp d).

(** [pkg/metric/daemon.go:201-209] the first datum of a key *)
Definition batched (d : Datum) : BatchedMetricDatum := {|
  b_Priority := Priority d; b_Timestamp := Timestamp d; b_MetricName := MetricName d; b_Dimensions := Dimensions d; b_Values := [Value d]; b_Unit := Unit d; b_Kind := Kind d |}.

Definition add_value (v : F) (b : BatchedMetricDatum) : BatchedMetricDatum := {|
  b_Priority := b_Priority b; b_Timestamp := b_Timestamp b; b_MetricName := b_MetricName b; b_Dimensions := b_Dimensions b; b_Values := b_Values b ++ [v]; b_Unit := b_Unit b; b_Kind := b_Kind b |}.

(** [pkg/metric/daemon.go:52-53] the batch and the number of data points of a Daemon *)
Record batch_state := { batch : gmap string BatchedMetricDatum; dataPointCount : Z }.

(** [pkg/metric/daemon.go:182-216] append; the datum is changed in place only when it is the first of its key *)
Definition append (defs : gmap string Datum) (s : batch_state) (datum : Datum) : batch_state :=
  let key := key_of datum in
  {| dataPointCount := dataPointCount s + 1;
     batch :=
       match batch s !! key with
       | None =>
           let datum := amendFromDefault defs datum in
           match IsValid datum with Some _ => batch s | None => <[key := batched datum]> (batch s) end
       | Some existing => <[key := add_value (Value datum) existing]> (batch s)
       end |}.

(** [pkg/metric/daemon.go:176-180] appendBatch *)
Definition appendBatch (defs : gmap string Datum) (l : list Datum) (s : batch_state) : batch_state := fold_left (append defs) l s.

Context (def_order : map_order string Datum) (batch_order : map_order string BatchedMetricDatum).

(** [pkg/metric/daemon.go:223-228] the copies of the defaults, at the times of the clock *)
Definition default_copies (now : nat → Z) (defs : gmap string Datum) : list Datum :=
  imap (λ i kd, {| Priority := Priority kd.2; Timestamp := Some (now i); MetricName := MetricName kd.2; Dimensions := Dimensions kd.2; Value := Value kd.2; Unit := Unit kd.2; Kind := Kind kd.2 |}) (enum def_order defs).

Definition no_batch : batch_state := {| batch := ∅; dataPointCount := 0 |}.

(** [pkg/metric/daemon.go:218-234] resetBatch *)
Definition resetBatch (now : nat → Z) (defs : gmap string Datum) : batch_state := appendBatch defs (default_copies now defs) no_batch.

(** [pkg/metric/daemon.go:257-267] the datum of a batch *)
Definition resolved (customUnits : gmap string unitDefinition) (v : BatchedMetricDatum) : Datum :=
  let '(unit, value) := resolveCustomUnit customUnits (b_Unit v) (b_Values v) in
  {| Priority := b_Priority v; Timestamp := b_Timestamp v; MetricName := b_MetricName v; Dimensions := b_Dimensions v; Unit := unit; Value := value; Kind := b_Kind v |}.

(** [pkg/metric/daemon.go:253-273] buildMetricData *)
Definition buildMetricData (customUnits : gmap string unitDefinition) (b : gmap string BatchedMetricDatum) : list Datum :=
  (λ kv, resolved customUnits kv.2) <$> enum batch_order b.

(** Where Run is: at its select, before it reads, before it closes the channel, before it reads for the last time, before it
    publishes for the last time, and at its end. *)
Inductive pc := Selecting | Reading | Closing | LastRead | LastPublish | Finished.

(** The daemon with its channel and the defaults; what the raw writers and the aggregating writers got, call by call; and what
    happened: the data that the channel took, and those that were added to the batch since it was reset, and before. *)
Record system := {
  channel : metricChannel;
  defaults : gmap string Datum;
  state : batch_state;
  run : pc;
  raw : list (list Datum);
  published : list (list Datum);
  taken : list Datum;
  current : list Datum;
  intervals : list (list Datum);
}.

Context (customUnits : gmap string unitDefinition).

(** [pkg/metric/daemon.go:132-139] the start of Run, on a channel that services may have used *)
Definition start (now : nat → Z) (defs : gmap string Datum) (earlier : list Datum) : system := {|
  channel := {| hasData := negb (length earlier =? 0); data := earlier; enabled := true; closed := false |};
  defaults := defs; state := resetBatch now defs; run := Selecting; raw := [(enum def_order defs).*2]; published := [];
  taken := earlier; current := []; intervals := [] |}.

(** [pkg/metric/daemon.go:170-180] rawFanout and appendBatch of what was read *)
Definition consume (p : pc) (c : metricChannel) (l : list Datum) (s : system) : system := {|
  channel := c; defaults := defaults s; state := appendBatch (defaults s) l (state s); run := p; raw := raw s ++ [l]; published := published s;
  taken := taken s; current := current s ++ l; intervals := intervals s |}.

(** [pkg/metric/daemon.go:236-251] publish *)
Definition publish (now : nat → Z) (p : pc) (s : system) : system :=
  if bool_decide (batch (state s) = ∅) then {|
    channel := channel s; defaults := defaults s; state := state s; run := p; raw := raw s; published := published s;
    taken := taken s; current := current s; intervals := intervals s |}
  else {|
    channel := channel s; defaults := defaults s; state := resetBatch now (defaults s); run := p; raw := raw s;
    published := published s ++ [buildMetricData customUnits (batch (state s))];
    taken := taken s; current := []; intervals := intervals s ++ [current s] |}.

Definition moved (p : pc) (c : metricChannel) (s : system) : system := {|
  channel := c; defaults := defaults s; state := state s; run := p; raw := raw s; published := published s;
  taken := taken s; current := current s; intervals := intervals s |}.

(** A service writes. *)
Definition service_write (l : list Datum) (s : system) : system := {|
  channel := write l (channel s); defaults := defaults s; state := state s; run := run s; raw := raw s; published := published s;
  taken := if closed (channel s) then taken s else taken s ++ l; current := current s; intervals := intervals s |}.

(** [pkg/metric/writer.go:30-36] a service creates a writer with defaults *)
Definition service_defaults (l : list Datum) (s : system) : system := {|
  channel := channel s; defaults := addMetricDefaults l (defaults s); state := state s; run := run s; raw := raw s; published := published s;
  taken := taken s; current := current s; intervals := intervals s |}.

Definition unset (c : metricChannel) : metricChannel := {| hasData := false; data := data c; enabled := enabled c; closed := closed c |}.

(** [pkg/metric/daemon.go:131-168] Run and emptyChannel, and the services beside it *)
Inductive step (s : system) : system → Prop :=
| step_write l : step s (service_write l s)
| step_defaults l : step s (service_defaults l s)
| step_has_data : run s = Selecting → hasData (channel s) = true → step s (moved Reading (unset (channel s)) s)
| step_read : run s = Reading → step s (let x := read (channel s) in consume Selecting x.1 x.2 s)
| step_tick now : run s = Selecting → step s (publish now Selecting s)
| step_done : run s = Selecting → step s (moved Closing (channel s) s)
| step_close : run s = Closing → step s (moved LastRead (close (channel s)) s)
| step_last_read : run s = LastRead →
    step s (let x := read (channel s) in if length x.2 =? 0 then moved LastPublish x.1 s else consume LastPublish x.1 x.2 s)
| step_last_publish now : run s = LastPublish → step s (publish now Finished s).

Definition reachable (s : system) : Prop := ∃ now defs earlier, rtc step (start now defs earlier) s.

(** ** The batch *)

Definition values_of (k : string) (l : list Datum) : list F := Value <$> List.filter (λ d, bool_decide (key_of d = k)) l.

(** What is collected for a key that has no batch: the values from the first datum on that is valid with its default. *)
Fixpoint collected (defs : gmap string Datum) (k : string) (l : list Datum) : list F :=
  match l with
  | [] => []
  | d :: l' => if bool_decide (key_of d = k ∧ IsValid (amendFromDefault defs d) = None) then values_of k l else collected defs k l'
  end.

(** The values of a key. *)
Definition batch_values (k : string) (s : batch_state) : list F := match batch s !! k with Some b => b_Values b | None => [] end.

Lemma append_other defs s d k : key_of d ≠ k → batch (append defs s d) !! k = batch s !! k.
Proof.
  intros Hne. unfold append. simpl. destruct (batch s !! key_of d); [by rewrite lookup_insert_ne|]. destruct (IsValid _); [done|by rewrite lookup_insert_ne].
Qed.

Lemma values_of_cons k d l : values_of k (d :: l) = (if bool_decide (key_of d = k) then [Value d] else []) ++ values_of k l.
Proof. unfold values_of. simpl. by destruct (bool_decide _). Qed.

Lemma amended_value defs d : Value (amendFromDefault defs d) = Value d.
Proof. unfold amendFromDefault. by destruct (defs !! Id d). Qed.

(** Once a key has a batch, every value goes there. *)
Lemma appendBatch_present defs l s k b :
  batch s !! k = Some b → ∃ b', batch (appendBatch defs l s) !! k = Some b' ∧ b_Values b' = b_Values b ++ values_of k l.
Proof.
  unfold appendBatch. revert s b. induction l as [|d l IH]; intros s b Hb; simpl; [exists b; by rewrite app_nil_r|].
  rewrite values_of_cons. case_bool_decide as Hk.
  - destruct (IH (append defs s d) (add_value (Value d) b)) as (b' & Hb' & Hv).
    + unfold append. simpl. subst k. rewrite Hb. apply lookup_insert_eq.
    + exists b'. split; [done|]. by rewrite Hv /= -app_assoc.
  - destruct (IH (append defs s d) b) as (b' & Hb' & Hv); [by rewrite append_other|]. by exists b'.
Qed.

(** The batch of a key has the values of its data, in order, from the first valid one on; every datum counts. *)
Theorem appendBatch_correct defs l s k :
  batch_values k (appendBatch defs l s) = match batch s !! k with Some b => b_Values b ++ values_of k l | None => collected defs k l end ∧
  dataPointCount (appendBatch defs l s) = (dataPointCount s + Z.of_nat (length l))%Z.
Proof.
  split.
  - destruct (batch s !! k) as [b|] eqn:Hs.
    + destruct (appendBatch_present defs l s k b Hs) as (b' & Hb' & Hv). unfold batch_values. by rewrite Hb'.
    + revert s Hs. induction l as [|d l IH]; intros s Hs; [by rewrite /batch_values /appendBatch /= Hs|].
      change (appendBatch defs (d :: l) s) with (appendBatch defs l (append defs s d)). cbn [collected]. case_bool_decide as Hd.
      * destruct Hd as [<- Hv]. destruct (appendBatch_present defs l (append defs s d) (key_of d) (batched (amendFromDefault defs d))) as (b' & Hb' & Hvs).
        { unfold append. simpl. rewrite Hs Hv. apply lookup_insert_eq. }
        unfold batch_values. rewrite Hb' Hvs values_of_cons bool_decide_true //=. by rewrite amended_value.
      * apply IH. destruct (base.decide (key_of d = k)) as [<-|Hne]; [|by rewrite append_other].
        unfold append. simpl. rewrite Hs. destruct (IsValid (amendFromDefault defs d)) eqn:Hv; [done|]. by destruct Hd.
  - revert s. unfold appendBatch. induction l as [|d l IH]; intros s; simpl; [lia|]. rewrite IH. unfold append. simpl. lia.
Qed.

(** ** From the services to the writers *)
Record system_ok (s : system) : Prop := {
  sys_raw : ∃ first rest, raw s = first :: rest ∧ taken s = mjoin rest ++ data (channel s) ∧ mjoin (intervals s) ++ current s = mjoin rest;
  sys_published : length (published s) = length (intervals s);
  sys_enabled : enabled (channel s) = true;
  sys_wakeup : data (channel s) ≠ [] → run s = Selecting → hasData (channel s) = true;
  sys_closed : closed (channel s) = match run s with LastRead | LastPublish | Finished => true | _ => false end;
  sys_drained : run s = LastPublish ∨ run s = Finished → data (channel s) = [];
}.

Lemma start_ok now defs earlier : system_ok (start now defs earlier).
Proof.
  split; simpl; try done.
  - by exists (enum def_order defs).*2, [].
  - destruct earlier; done.
  - by intros [|].
Qed.

Lemma mjoin_snoc {A} (l : list (list A)) x : mjoin (l ++ [x]) = mjoin l ++ x.
Proof. rewrite join_app /=. by rewrite app_nil_r. Qed.

Lemma consume_ok p s l c :
  system_ok s → data (channel s) = l → data c = [] → enabled c = true → closed c = match p with LastRead | LastPublish | Finished => true | _ => false end → system_ok (consume p c l s).
Proof.
  intros [(first & rest & Hraw & Htaken & Hint) Hpub Hen _ _ _] Hl Hc Hen' Hcl. split; simpl; try done.
  exists first, (rest ++ [l]). rewrite Hraw mjoin_snoc Hc app_nil_r Htaken Hl. split_and!; [done..|]. by rewrite app_assoc Hint.
Qed.

Lemma publish_ok now p s :
  system_ok s → (p = Selecting → run s = Selecting) → (p = Selecting ∨ (p = Finished ∧ run s = LastPublish)) → system_ok (publish now p s).
Proof.
  intros [(first & rest & Hraw & Htaken & Hint) Hpub Hen Hwake Hcl Hdr] Hp Hcase. unfold publish.
  assert (closed (channel s) = match p with LastRead | LastPublish | Finished => true | _ => false end) as Hcl'.
  { rewrite Hcl. destruct Hcase as [->|[-> ->]]; [by rewrite Hp|done]. }
  assert (p = LastPublish ∨ p = Finished → data (channel s) = []) as Hdr' by (intros [->| ->]; destruct Hcase as [[=]|[_ Hr]]; apply Hdr; by left).
  assert (data (channel s) ≠ [] → p = Selecting → hasData (channel s) = true) as Hwake' by auto.
  destruct (bool_decide _); split; simpl; try done.
  - by exists first, rest.
  - exists first, rest. split_and!; [done..|]. by rewrite app_nil_r mjoin_snoc.
  - rewrite !length_app /=. lia.
Qed.

Lemma moved_ok p c s :
  system_ok s → data c = data (channel s) → enabled c = true → (p = Selecting → False) →
  closed c = match p with LastRead | LastPublish | Finished => true | _ => false end → (p = LastPublish ∨ p = Finished → data c = []) → system_ok (moved p c s).
Proof. intros [Hraw Hpub Hen _ _ _] Hd Hen' Hp Hcl Hdr. split; simpl; try done. by rewrite Hd. Qed.

Lemma system_step_ok s s' : system_ok s → step s s' → system_ok s'.
Proof.
  intros Hok Hstep. pose proof Hok as [(first & rest & Hraw & Htaken & Hint) Hpub Hen Hwake Hcl Hdr].
  destruct Hstep as [l|l|Hr Hd|Hr|now Hr|Hr|Hr|Hr|now Hr]; try (rewrite Hr in Hcl; simpl in Hcl).
  - unfold service_write, write. rewrite Hen /=. destruct (closed (channel s)) eqn:Hc; [split; simpl; try done; [by exists first, rest|congruence]|].
    split; simpl; try done; [exists first, rest; by rewrite Htaken app_assoc|]. intros Hx. destruct Hx as [Hx|Hx]; rewrite Hx in Hcl; done.
  - split; simpl; try done. by exists first, rest.
  - by apply moved_ok; try done; intros [[=]|[=]].
  - by apply consume_ok.
  - apply publish_ok; auto.
  - by apply moved_ok; try done; intros [[=]|[=]].
  - apply moved_ok; try done. by intros [[=]|[=]].
  - simpl. destruct (length (data (channel s)) =? 0) eqn:Hl.
    + apply Nat.eqb_eq, nil_length_inv in Hl. apply moved_ok; simpl; try done.
    + by apply consume_ok.
  - apply publish_ok; [done|done|right]. done.
Qed.

(** The raw writers get what the services write, after the defaults, in order and once, and so do the intervals that are published;
    while there is data the daemon is woken up, and when Run returns nothing that was written before the channel was closed is left. *)
Theorem metrics_reach_writers s :
  reachable s →
  ∃ first rest, raw s = first :: rest ∧ taken s = mjoin rest ++ data (channel s) ∧ mjoin (intervals s) ++ current s = mjoin rest ∧
    length (published s) = length (intervals s) ∧
    (data (channel s) ≠ [] → run s = Selecting → hasData (channel s) = true) ∧
    (run s = Finished → taken s = mjoin rest ∧ closed (channel s) = true).
Proof.
  intros (now & defs & earlier & Hs). assert (system_ok s) as [(first & rest & Hraw & Htaken & Hint) Hpub Hen Hwake Hcl Hdr].
  { eapply rtc_invariant; [|apply start_ok|exact Hs]. intros x y Hx Hxy. by eapply system_step_ok. }
  exists first, rest. split_and!; [done..|]. intros Hr. rewrite Htaken (Hdr (or_intror Hr)) app_nil_r. split; [done|]. by rewrite Hcl Hr.
Qed.

Definition finishes s : Prop := ∃ s', rtc step s s' ∧ run s' = Finished.

Lemma finishes_step s s' : step s s' → finishes s' → finishes s.
Proof. intros Hstep (s2 & Hs & Hf). exists s2. split; [by eapply rtc_l|done]. Qed.

(** Run returns from wherever it is, once its context is canceled. *)
Theorem daemon_returns s : finishes s.
Proof.
  assert (∀ s, run s = LastPublish → finishes s) as Hpub.
  { intros s1 Hr. eexists. split; [apply rtc_once, (step_last_publish s1 (λ _, 0%Z) Hr)|]. unfold publish. by destruct (bool_decide _). }
  assert (∀ s, run s = Closing → finishes s) as Hclose.
  { intros s1 Hr. eapply finishes_step; [exact (step_close s1 Hr)|]. eapply finishes_step; [by apply step_last_read|]. apply Hpub. simpl. by destruct (length _ =? 0). }
  assert (∀ s, run s = Selecting → finishes s) as Hsel.
  { intros s1 Hr. eapply finishes_step; [exact (step_done s1 Hr)|]. by apply Hclose. }
  destruct (run s) eqn:Hr; [by apply Hsel| |by apply Hclose| |by apply Hpub|by exists s].
  - eapply finishes_step; [exact (step_read s Hr)|]. by apply Hsel.
  - eapply finishes_step; [exact (step_last_read s Hr)|]. apply Hpub. simpl. by destruct (length _ =? 0).
Qed.
End Metric.

(** ** Samples *)
Module MetricSamples.
Definition datum (name : string) (dims : gmap string string) (v : nat) (priority : Z) : Datum (F := nat) (K := string) :=
  {| Priority := priority; Timestamp := None; MetricName := name; Dimensions := dims; Value := v; Unit := "Count"; Kind := "" |}.
Definition minute (t : option Z) : string := "00:00".
Definition collect (l : list (Datum (F := nat) (K := string))) : list (list nat) :=
  (λ kb, b_Values kb.2) <$> map_to_list (batch (appendBatch id minute canonical_order ∅ l no_batch)).

(** The dimensions in a key are not delimited: two metrics with different dimensions share a batch. *)
Example dimensions_collide :
  collect [datum "requests" {["a" := "1"; "b" := "2"]} 1 2; datum "requests" {["a" := "1-b:2"]} 2 2] = [[1; 2]].
Proof. vm_compute. reflexivity. Qed.

(** A datum without a priority starts no batch, but it is added to one. *)
Example invalid_is_added : collect [datum "m" ∅ 1 0; datum "m" ∅ 2 2; datum "m" ∅ 3 0] = [[2; 3]].
Proof. vm_compute. reflexivity. Qed.

Definition resolve_units : gmap string (unitDefinition (F := nat)) := ∅.
Definition first_state : system (F := nat) (K := string) := start id minute canonical_order canonical_order (λ _, 0%Z) ∅ [].
Definition second_state : system (F := nat) (K := string) := service_write [datum "m" ∅ 1 2] first_state.
End MetricSamples.

Lemma metrics_reach_writers_witness :
  ∃ first rest, raw MetricSamples.second_state = first :: rest ∧ taken MetricSamples.second_state = mjoin rest ++ data (channel MetricSamples.second_state).
Proof.
  destruct (metrics_reach_writers id MetricSamples.minute 0 Nat.add canonical_order canonical_order canonical_order MetricSamples.resolve_units MetricSamples.second_state)
    as (first & rest & Hr & Ht & _).
  - exists (λ _, 0%Z), ∅, []. apply rtc_once. apply (step_write _ _ _ _ _ _ _ _ MetricSamples.first_state).
  - exists first, rest. split; [exact Hr|exact Ht].
Defined.
