(* ===== verification/Reslife.v ===== *)
(** pkg/reslife: the life cycles of the resources that an application declares.

    The manager builds the declared resources and goes through the cycles create, init,
    register and purge.  What a resource does is a parameter, as is the regexp package;
    the names of the resources on which a cycle acted are kept beside the state.  Logging
    and the clock are left out. *)
From S2P Require Import Prelude FunkSet.

Open Scope string_scope.
Open Scope list_scope.
Open Scope nat_scope.

Section Reslife.
Context {W V : Type} (compile : string → option (string → bool)).
Implicit Types (w : W).

(** [pkg/reslife/lifecycle_manager.go:16-31] LifeCycleer with the interfaces it can have beside: Creator, Initializer, Registerer (the key,
    and the data unless it is nil) and Purger *)
Record LifeCycleer := {
  GetId : string;
  creator : option (W → W * option go_error);
  initializer : option (W → W * option go_error);
  registerer : option (W → W * result go_error (string * option V));
  purger : option (W → W * option go_error);
}.

(** [pkg/reslife/settings.go:16-19] SettingsCycle *)
Record SettingsCycle := { Enabled : bool; Excludes : list string }.

(** [pkg/reslife/settings.go:9-14] Settings *)
Record Settings := { set_Create : SettingsCycle; set_Init : SettingsCycle; set_Register : SettingsCycle; set_Purge : SettingsCycle }.

(** A factory, which builds a resource. *)
Definition LifeCycleerFactory : Type := W → W * result go_error LifeCycleer.

(** [pkg/reslife/lifecycle_manager.go:35-44] LifeCycleManager, with the factories of the container *)
Record LifeCycleManager := {
  settings : Settings;
  factories : list LifeCycleerFactory;
  resources : list LifeCycleer;
  created : go_set string;
  registered : go_set string;
  purged : go_set string;
}.

(** [pkg/reslife/container.go:19-32] AddLifeCycleer *)
Definition AddLifeCycleer (factory : LifeCycleerFactory) (m : LifeCycleManager) : LifeCycleManager := {|
  settings := settings m; factories := factories m ++ [factory]; resources := resources m; created := created m; registered := registered m; purged := purged m |}.

Definition with_resources (l : list LifeCycleer) (m : LifeCycleManager) : LifeCycleManager := {|
  settings := settings m; factories := factories m; resources := l; created := created m; registered := registered m; purged := purged m |}.

(** [pkg/reslife/lifecycle_manager.go:81-89] the loop of refreshResources: over the factories from the number of resources on *)
Fixpoint refresh (l : list LifeCycleerFactory) (rs : list LifeCycleer) w : W * list LifeCycleer * option go_error :=
  match l with
  | [] => (w, rs, None)
  | fac :: l =>
      match fac w with
      | (w, Err err) => (w, rs, Some (EWrap "could not build lifecycleer" err))
      | (w, Ok resource) => refresh l (rs ++ [resource]) w
      end
  end.

(** [pkg/reslife/lifecycle_manager.go:67-92] refreshResources *)
Definition refreshResources (m : LifeCycleManager) w : W * LifeCycleManager * option go_error :=
  let '(w, rs, err) := refresh (drop (length (resources m)) (factories m)) (resources m) w in
  (w, with_resources rs m, err).

(** [pkg/reslife/lifecycle_manager.go:273-278] the patterns of prepareCycle *)
Fixpoint compile_all (patterns : list string) : result go_error (list (string → bool)) :=
  match patterns with
  | [] => Ok []
  | pattern :: patterns =>
      match compile pattern with
      | None => Err (EMsg "could not compile exlude regexp")
      | Some re => let! rest := compile_all patterns in Ok (re :: rest)
      end
  end.

(** [pkg/reslife/lifecycle_manager.go:268-281] prepareCycle *)
Definition prepareCycle (s : SettingsCycle) : result go_error (bool * list (string → bool)) :=
  if negb (Enabled s) then Ok (false, [])
  else let! regexps := compile_all (Excludes s) in Ok (true, regexps).

(** [pkg/reslife/lifecycle_manager.go:283-297] shouldSkip, with the visited names *)
Definition shouldSkip (id : string) (visited : go_set string) (excludes : list (string → bool)) : go_set string * bool :=
  let '(added, visited) := Add [id] visited in
  if negb added then (visited, true) else (visited, existsb (λ exclude, exclude id) excludes).

(** The loop of a cycle over the resources: [cap] is what a resource does, if it can; [keep]: whether the visited names are kept from one
    resource to the next.  The result has the names of the resources that did it. *)
Fixpoint cycle (keep : bool) (msg : string) (cap : LifeCycleer → option (W → W * option go_error)) (excludes : list (string → bool))
    (rs : list LifeCycleer) (visited : go_set string) w : W * go_set string * list string * option go_error :=
  match rs with
  | [] => (w, visited, [], None)
  | res :: rs =>
      let '(visited', skip) := shouldSkip (GetId res) visited excludes in
      let visited := if keep then visited' else visited in
      match (if skip then None else cap res) with
      | None => cycle keep msg cap excludes rs visited w
      | Some act =>
          match act w with
          | (w, Some err) => (w, visited, [GetId res], Some (EWrap msg err))
          | (w, None) => let '(w, visited, called, err) := cycle keep msg cap excludes rs visited w in (w, visited, GetId res :: called, err)
          end
      end
  end.

(** The frame of a cycle: [visited] are the names it starts with, [store] puts those it ends with into the manager. *)
Definition run_cycle (s : SettingsCycle) (prepare keep_msg : string) (keep : bool) (cap : LifeCycleer → option (W → W * option go_error))
    (visited : go_set string) (store : go_set string → LifeCycleManager → LifeCycleManager) (m : LifeCycleManager) w : W * LifeCycleManager * list string * option go_error :=
  match prepareCycle s with
  | Err err => (w, m, [], Some (EWrap prepare err))
  | Ok (false, _) => (w, m, [], None)
  | Ok (true, regexps) =>
      match refreshResources m w with
      | (w, m, Some err) => (w, m, [], Some (EWrap "could not refresh resources" err))
      | (w, m, None) =>
          let '(w, visited, called, err) := cycle keep keep_msg cap regexps (resources m) visited w in
          (w, store visited m, called, err)
      end
  end.

Definition store_created (v : go_set string) (m : LifeCycleManager) : LifeCycleManager := {|
  settings := settings m; factories := factories m; resources := resources m; created := v; registered := registered m; purged := purged m |}.
Definition store_registered (v : go_set string) (m : LifeCycleManager) : LifeCycleManager := {|
  settings := settings m; factories := factories m; resources := resources m; created := created m; registered := v; purged := purged m |}.
Definition store_purged (v : go_set string) (m : LifeCycleManager) : LifeCycleManager := {|
  settings := settings m; factories := factories m; resources := resources m; created := created m; registered := registered m; purged := v |}.

(** [pkg/reslife/lifecycle_manager.go:94-135] Create *)
Definition Create (m : LifeCycleManager) w :=
  run_cycle (set_Create (settings m)) "can not prepare create cycle" "could not create resource" true creator (created m) store_created m w.

(** [pkg/reslife/lifecycle_manager.go:137-174] Init: each resource gets a set of its own, so no name counts as visited *)
Definition Init (m : LifeCycleManager) w :=
  run_cycle (set_Init (settings m)) "can not prepare init cycle" "could not init resource" false initializer ∅ (λ _ m, m) m w.

Context (MetadataAppend : string → V → W → W * option go_error).

(** [pkg/reslife/lifecycle_manager.go:207-217] what Register does with a resource *)
Definition register_one (res : LifeCycleer) : option (W → W * option go_error) :=
  match registerer res with
  | None => None
  | Some register => Some (λ w,
      match register w with
      | (w, Err err) => (w, Some (EWrap "could not register resource" err))
      | (w, Ok (key, None)) => (w, None)
      | (w, Ok (key, Some data)) =>
          if bool_decide (key = "") then (w, None)
          else match MetadataAppend key data w with
               | (w, Some err) => (w, Some (EWrap "can not access the appctx metadata" err))
               | (w, None) => (w, None)
               end
      end)
  end.

(** [pkg/reslife/lifecycle_manager.go:176-223] Register *)
Definition Register (m : LifeCycleManager) w :=
  run_cycle (set_Register (settings m)) "can not prepare register cycle" "" true register_one (registered m) store_registered m w.

(** [pkg/reslife/lifecycle_manager.go:225-266] Purge *)
Definition Purge (m : LifeCycleManager) w :=
  run_cycle (set_Purge (settings m)) "can not prepare purge cycle" "could not purge resource" true purger (purged m) store_purged m w.

(** [pkg/reslife/kernel_middleware.go:36-69] the handler of LifeCycleManagerMiddleware: whether it goes on to the next one; [build] and
    [load] are those of the fixtures *)
Definition middleware (build load : W → W * option go_error) (m : LifeCycleManager) w : W * LifeCycleManager * bool :=
  match build w with
  | (w, Some _) => (w, m, false)
  | (w, None) =>
      match Create m w with
      | (w, m, _, Some _) => (w, m, false)
      | (w, m, _, None) =>
          match Init m w with
          | (w, m, _, Some _) => (w, m, false)
          | (w, m, _, None) =>
              match Register m w with
              | (w, m, _, Some _) => (w, m, false)
              | (w, m, _, None) =>
                  match Purge m w with
                  | (w, m, _, Some _) => (w, m, false)
                  | (w, m, _, None) => match load w with (w, Some _) => (w, m, false) | (w, None) => (w, m, true) end
                  end
              end
          end
      end
  end.

(** ** Laws *)

(** The resources on which a cycle acts: the first of each name that was not visited, unless it is excluded or cannot do it. *)
Fixpoint selected (cap : LifeCycleer → option (W → W * option go_error)) (excludes : list (string → bool)) (visited : go_set string) (rs : list LifeCycleer) : list string :=
  match rs with
  | [] => []
  | res :: rs =>
      if map_has visited (GetId res) then selected cap excludes visited rs
      else
        (if existsb (λ exclude, exclude (GetId res)) excludes then [] else match cap res with Some _ => [GetId res] | None => [] end) ++
        selected cap excludes (<[GetId res := tt]> visited) rs
  end.

Lemma shouldSkip_spec id visited excludes :
  shouldSkip id visited excludes =
  (if map_has visited id then visited else <[id := tt]> visited, map_has visited id || existsb (λ exclude, exclude id) excludes).
Proof. unfold shouldSkip, Add, map_has. simpl. by destruct (visited !! id). Qed.

Lemma cycle_spec msg cap excludes rs visited w :
  let '(_, visited', called, err) := cycle true msg cap excludes rs visited w in
  called `prefix_of` selected cap excludes visited rs ∧ visited ⊆ visited' ∧ (∀ id, id ∈ called → map_has visited' id = true) ∧
  (err = None → called = selected cap excludes visited rs).
Proof.
  revert visited w. induction rs as [|res rs IH]; intros visited w; cbn [cycle selected]; [by split_and!; [| |intros id Hid%not_elem_of_nil|]|].
  rewrite shouldSkip_spec. destruct (map_has visited (GetId res)) eqn:Hv; simpl; [apply IH|].
  set (visited1 := <[GetId res := tt]> visited).
  assert (visited ⊆ visited1) as Hsub.
  { apply insert_subseteq. unfold map_has in Hv. by destruct (visited !! GetId res). }
  assert (map_has visited1 (GetId res) = true) as Hhas by by rewrite /map_has lookup_insert_eq.
  destruct (existsb _ excludes); simpl; [|destruct (cap res) as [act|]; simpl].
  - specialize (IH visited1 w). destruct (cycle _ _ _ _ _ _ _) as [[[w' v'] called] err]. destruct IH as (H1 & H2 & H3 & H4). split_and!; [done|by etrans|done..].
  - destruct (act w) as [w1 [err|]].
    + split_and!; [by apply prefix_cons, prefix_nil|done|by intros id ->%list_elem_of_singleton|done].
    + specialize (IH visited1 w1). destruct (cycle _ _ _ _ _ _ _) as [[[w' v'] called] err]. destruct IH as (H1 & H2 & H3 & H4).
      split_and!; [by apply prefix_cons|by etrans| |by intros ->%H4].
      intros id [->|Hid]%elem_of_cons; [|by apply H3]. unfold map_has in *. destruct (visited1 !! GetId res) eqn:Hx; [|done]. by rewrite (lookup_weaken _ _ _ _ Hx H2).
  - specialize (IH visited1 w). destruct (cycle _ _ _ _ _ _ _) as [[[w' v'] called] err]. destruct IH as (H1 & H2 & H3 & H4). split_and!; [done|by etrans|done..].
Qed.

Lemma selected_fresh cap excludes visited rs : NoDup (selected cap excludes visited rs) ∧ ∀ id, id ∈ selected cap excludes visited rs → map_has visited id = false.
Proof.
  revert visited. induction rs as [|res rs IH]; intros visited; cbn [selected]; [split; [constructor|by intros id Hid%not_elem_of_nil]|].
  destruct (map_has visited (GetId res)) eqn:Hv; [apply IH|]. destruct (IH (<[GetId res := tt]> visited)) as [Hnd Hfresh].
  assert (∀ id, id ∈ selected cap excludes (<[GetId res:=tt]> visited) rs → map_has visited id = false ∧ id ≠ GetId res) as Hout.
  { intros id Hid%Hfresh. unfold map_has in *. destruct (base.decide (id = GetId res)) as [->|Hne]; [by rewrite lookup_insert_eq in Hid|]. by rewrite lookup_insert_ne // in Hid. }
  destruct (existsb _ excludes); [|destruct (cap res)]; simpl; try (split; [done|intros id Hid; by apply Hout]).
  split; [constructor; [|done]; intros Hin; by destruct (Hout _ Hin)|]. intros id [->|Hid]%elem_of_cons; [done|by apply Hout].
Qed.

(** The resources that a cycle selects, once the manager has built them. *)
Definition selects (cap : LifeCycleer → option (W → W * option go_error)) (s : SettingsCycle) (visited : go_set string) (m : LifeCycleManager) : list string :=
  match prepareCycle s with Ok (true, excludes) => selected cap excludes visited (resources m) | _ => [] end.

(** What a cycle did between two states of the manager, whose visited names are [get]. *)
Definition cycle_done (cap : LifeCycleer → option (W → W * option go_error)) (s : SettingsCycle) (get : LifeCycleManager → go_set string)
    (m m' : LifeCycleManager) (called : list string) (err : option go_error) : Prop :=
  NoDup called ∧ (∀ id, id ∈ called → map_has (get m) id = false ∧ map_has (get m') id = true) ∧ get m ⊆ get m' ∧
  (err = None → called = selects cap s (get m) m').

Lemma nothing_done cap s get m m' err : get m' = get m → (err = None → [] = selects cap s (get m) m') → cycle_done cap s get m m' [] err.
Proof. intros Hget Herr. split_and!; [constructor|by intros id Hid%not_elem_of_nil|by rewrite Hget|done]. Qed.

Lemma run_cycle_spec s prepare msg cap get store m w :
  (∀ v m, get (store v m) = v ∧ resources (store v m) = resources m) → (∀ rs m, get (with_resources rs m) = get m) →
  let r := run_cycle s prepare msg true cap (get m) store m w in cycle_done cap s get m r.1.1.2 r.1.2 r.2.
Proof.
  intros Hstore Hrs. unfold run_cycle. destruct (prepareCycle s) as [[[|] excludes]|err] eqn:Hp; cbn -[cycle_done].
  - unfold refreshResources. destruct (refresh _ _ w) as [[w1 rs] [err|]]; cbn -[cycle_done]; [by apply nothing_done|].
    set (m1 := with_resources rs m). pose proof (cycle_spec msg cap excludes rs (get m) w1) as Hc.
    destruct (cycle _ _ _ _ _ _ _) as [[[w2 v'] called] err]. destruct Hc as (H1 & H2 & H3 & H4). cbn -[cycle_done].
    destruct (selected_fresh cap excludes (get m) rs) as [Hnd Hfresh]. destruct (Hstore v' m1) as [Hg Hr]. destruct H1 as [k Hk].
    split_and!.
    + rewrite Hk in Hnd. by apply NoDup_app in Hnd as [? _].
    + intros id Hid. rewrite Hg. split; [|by apply H3]. apply Hfresh. rewrite Hk. apply elem_of_app. by left.
    + by rewrite Hg.
    + intros He. unfold selects. rewrite Hp Hr. by apply H4.
  - apply nothing_done; [done|]. intros _. unfold selects. by rewrite Hp.
  - by apply nothing_done.
Qed.

(** What the cycles do that keep the names they visited. *)
Theorem cycles_correct m w :
  (let r := Create m w in cycle_done creator (set_Create (settings m)) created m r.1.1.2 r.1.2 r.2) ∧
  (let r := Register m w in cycle_done register_one (set_Register (settings m)) registered m r.1.1.2 r.1.2 r.2) ∧
  (let r := Purge m w in cycle_done purger (set_Purge (settings m)) purged m r.1.1.2 r.1.2 r.2).
Proof. split_and!; by apply run_cycle_spec. Qed.

(** The life of a manager: resources are declared and Create is called, any number of times. *)
Inductive life_op := Declare_ (factory : LifeCycleerFactory) | DoCreate.
Fixpoint live (ops : list life_op) (m : LifeCycleManager) w : list string :=
  match ops with
  | [] => []
  | Declare_ factory :: ops => live ops (AddLifeCycleer factory m) w
  | DoCreate :: ops => let '(w, m, called, _) := Create m w in called ++ live ops m w
  end.

(** No resource is created twice, however often the cycle runs and whatever fails. *)
Theorem created_at_most_once ops m w : NoDup (live ops m w) ∧ ∀ id, id ∈ live ops m w → map_has (created m) id = false.
Proof.
  revert m w. induction ops as [|[factory|] ops IH]; intros m w; cbn [live]; [split; [constructor|by intros id Hid%not_elem_of_nil]|apply (IH (AddLifeCycleer factory m))|].
  destruct (cycles_correct m w) as (Hc & _ & _). destruct (Create m w) as [[[w1 m1] called] err]. destruct Hc as (Hnd & Hcalled & Hsub & _). simpl in *.
  destruct (IH m1 w1) as [Hnd' Hfresh]. split.
  - apply NoDup_app. split_and!; [done| |done]. intros id Hid Hin. destruct (Hcalled _ Hid) as [_ Hhas]. rewrite (Hfresh _ Hin) in Hhas. done.
  - intros id [Hid|Hin%Hfresh]%elem_of_app; [by apply Hcalled|]. unfold map_has in *. destruct (created m !! id) eqn:Hx; [|done]. by rewrite (lookup_weaken _ _ _ _ Hx Hsub) in Hin.
Qed.

(** The first resource that fails ends the handler: no later cycle runs, and the kernel does not go on. *)
Theorem middleware_stops build load m w :
  (middleware build load m w).2 = true →
  ∃ w1 r1 r2 r3 r4 w6, build w = (w1, None) ∧ Create m w1 = (r1, None) ∧ Init r1.1.2 r1.1.1 = (r2, None) ∧
    Register r2.1.2 r2.1.1 = (r3, None) ∧ Purge r3.1.2 r3.1.1 = (r4, None) ∧ load r4.1.1 = (w6, None).
Proof.
  unfold middleware. destruct (build w) as [w1 [|]] eqn:Hb; [done|]. destruct (Create m w1) as [[[w2 m2] c2] [|]] eqn:Hc; [done|].
  destruct (Init m2 w2) as [[[w3 m3] c3] [|]] eqn:Hi; [done|]. destruct (Register m3 w3) as [[[w4 m4] c4] [|]] eqn:Hr; [done|].
  destruct (Purge m4 w4) as [[[w5 m5] c5] [|]] eqn:Hp; [done|]. destruct (load w5) as [w6 [|]] eqn:Hl; [done|]. intros _.
  exists w1, (w2, m2, c2), (w3, m3, c3), (w4, m4, c4), (w5, m5, c5), w6. by split_and!.
Qed.
End Reslife.

(** ** Samples *)
Module ReslifeSamples.
(** A resource whose creation fails as long as the world says so; the world counts the creations. *)
Definition table : LifeCycleer (W := bool * nat) (V := unit) := {|
  GetId := "table"; creator := Some (λ w : bool * nat, if w.1 then (w, Some (EMsg "throttled")) else ((w.1, S w.2), None));
  initializer := Some (λ w : bool * nat, ((w.1, S w.2), None)); registerer := None; purger := None |}.
Definition all_cycles : Settings := let c := {| Enabled := true; Excludes := [] |} in {| set_Create := c; set_Init := c; set_Register := c; set_Purge := c |}.
Definition manager (n : nat) : LifeCycleManager (W := bool * nat) (V := unit) := {|
  settings := all_cycles; factories := replicate n (λ w, (w, Ok table)); resources := []; created := ∅; registered := ∅; purged := ∅ |}.
Definition create := Create (V := unit) (λ _, None) (W := bool * nat).

(** A resource counts as created before it is: when its creation failed, the next call of Create skips it and returns no error. *)
Example failed_creation_not_repeated :
  let '(w, m, called, err) := create (manager 1) (true, 0) in
  called = ["table"] ∧ is_Some err ∧ let '(w, m, called, err) := create m (false, w.2) in called = [] ∧ err = None ∧ w.2 = 0.
Proof. vm_compute. split_and!; [reflexivity|by eexists|reflexivity..]. Qed.

(** A name that was declared twice is created once, but initialised twice. *)
Example initialised_twice :
  (create (manager 2) (false, 0)).1.2 = ["table"] ∧ (Init (V := unit) (λ _, None) (manager 2) (false, 0)).1.2 = ["table"; "table"].
Proof. vm_compute. done. Qed.
End ReslifeSamples.

Lemma middleware_stops_witness :
  let m := ReslifeSamples.manager 0 in let ok := λ w : bool * nat, (w, @None go_error) in
  ∃ w1 r1, ok (false, 0) = (w1, None) ∧ ReslifeSamples.create m w1 = (r1, None).
Proof.
  intros m ok. destruct (middleware_stops (λ _, None) (λ _ _ w, (w, None)) ok ok m (false, 0)) as (w1 & r1 & _ & _ & _ & _ & Hb & Hc & _); [vm_compute; reflexivity|].
  exists w1, r1. split; [exact Hb|exact Hc].
Defined.
