(* ===== verification/Currency.v ===== *)
(** pkg/currency: exchange rates in a key-value store, today's and those of past days.

    The store is any [KvStore]; the providers, which fetch rates from the net, answer as
    they like.  Amounts and rates are float64, a parameter with its operations.  Times are
    nanoseconds of UTC, where a day has 24 hours; the text of a day and the comparison of
    currencies without case are parameters.  Logging and the construction of the providers
    are left out. *)
From S2P Require Import Prelude FunkSet KvStore.

Open Scope string_scope.
Open Scope list_scope.
Open Scope nat_scope.

Section Currency.
Context {F : Type} (fzero : F) (of_unix : Z → F) (to_unix : F → Z) (DateOnly : Z → string).

Definition second : Z := 10 ^ 9.
(** [pkg/currency/service.go:15-18] maxClockSkew and oneDay *)
Definition maxClockSkew : Z := 60 * second.
Definition oneDay : Z := 24 * 3600 * second.

Definition Eur : string := "EUR".
Definition Usd : string := "USD".

(** An error of the service and one of the store. *)
Inductive error := Store (err : KvStore.error) | NotFound | Future | Provider (err : go_error) | Wrap (msg : string) (err : error).

(** [pkg/currency/updater.go:359-361] historicalRateKey *)
Definition historicalRateKey (date : Z) (currency : string) : string := DateOnly date +:+ "-" +:+ currency.

(** A time some days later: AddDate. *)
Definition add_days (date : Z) (n : Z) : Z := (date + n * oneDay)%Z.

(** ** The service *)
Section Service.
Context (fone : F) (fmul fdiv : F → F → F) (EqualFold : string → string → bool) (ToUpper : string → string).
Context {O St : Type} `{Countable O} `{!KvStore O F St}.
Implicit Types (s : St).

(** [pkg/currency/service.go:54-65] HasCurrency *)
Definition HasCurrency (currency : string) s : St * result error bool :=
  if EqualFold currency Eur then (s, Ok true)
  else match kv_contains (KString (ToUpper currency)) s with
       | (s, (_, Some err)) => (s, Err (Wrap "error looking up exchange rate" (Store err)))
       | (s, (exists_, None)) => (s, Ok exists_)
       end.

(** [pkg/currency/service.go:69-89] HasCurrencyAtDate; [now] is what the clock shows, read by read, from the [i]th on *)
Fixpoint HasCurrencyAtDate (fuel : nat) (now : nat → Z) (i : nat) (currency : string) (date : Z) s : option (St * result error bool) :=
  match fuel with
  | 0 => None
  | S fuel =>
      if EqualFold currency Eur then Some (s, Ok true)
      else if bool_decide (now i + maxClockSkew < date)%Z then Some (s, Err Future)
      else match kv_contains (KString (historicalRateKey date (ToUpper currency))) s with
           | (s, (_, Some err)) => Some (s, Err (Wrap "error looking up historic exchange rate" (Store err)))
           | (s, (true, None)) => Some (s, Ok true)
           | (s, (false, None)) =>
               if bool_decide (now (S i) - oneDay < date)%Z then HasCurrencyAtDate fuel now (S (S i)) currency (add_days date (-1)) s
               else Some (s, Ok false)
           end
  end.

(** [pkg/currency/service.go:171-187] getExchangeRateToEur *)
Definition getExchangeRateToEur (currency : string) s : St * result error F :=
  if EqualFold currency Eur then (s, Ok fone)
  else match kv_get (KString (ToUpper currency)) fzero s with
       | (s, (_, _, Some err)) => (s, Err (Wrap "error getting exchange rate" (Store err)))
       | (s, (exchangeRate, true, None)) => (s, Ok exchangeRate)
       | (s, (_, false, None)) => (s, Err NotFound)
       end.

(** [pkg/currency/service.go:191-213] getExchangeRateToEurAtDate *)
Fixpoint getExchangeRateToEurAtDate (fuel : nat) (now : nat → Z) (i : nat) (currency : string) (date : Z) s : option (St * result error F) :=
  match fuel with
  | 0 => None
  | S fuel =>
      if EqualFold currency Eur then Some (s, Ok fone)
      else match kv_get (KString (historicalRateKey date (ToUpper currency))) fzero s with
           | (s, (_, _, Some err)) => Some (s, Err (Wrap "error getting historic exchange rate" (Store err)))
           | (s, (exchangeRate, true, None)) => Some (s, Ok exchangeRate)
           | (s, (_, false, None)) =>
               if bool_decide (now i - oneDay < date)%Z then getExchangeRateToEurAtDate fuel now (S i) currency (add_days date (-1)) s
               else Some (s, Err NotFound)
           end
  end.

(** [pkg/currency/service.go:92-99] ToEur *)
Definition ToEur (value : F) (fromCurrency : string) s : St * result error F :=
  match getExchangeRateToEur fromCurrency s with
  | (s, Err err) => (s, Err (Wrap "error parsing exchange rate" err))
  | (s, Ok exchangeRate) => (s, Ok (fdiv value exchangeRate))
  end.

(** [pkg/currency/service.go:103-114] ToEurAtDate *)
Definition ToEurAtDate (fuel : nat) (now : nat → Z) (i : nat) (value : F) (fromCurrency : string) (date : Z) s : option (St * result error F) :=
  if bool_decide (now i + maxClockSkew < date)%Z then Some (s, Err Future)
  else match getExchangeRateToEurAtDate fuel now (S i) fromCurrency date s with
       | None => None
       | Some (s, Err err) => Some (s, Err (Wrap "error parsing historic exchange rate" err))
       | Some (s, Ok exchangeRate) => Some (s, Ok (fdiv value exchangeRate))
       end.

(** [pkg/currency/service.go:128-144] ToCurrency *)
Definition ToCurrency (toCurrency : string) (value : F) (fromCurrency : string) s : St * result error F :=
  if EqualFold fromCurrency toCurrency then (s, Ok value)
  else match getExchangeRateToEur toCurrency s with
       | (s, Err err) => (s, Err (Wrap "error parsing exchange rate" err))
       | (s, Ok exchangeRate) =>
           match ToEur value fromCurrency s with
           | (s, Err err) => (s, Err (Wrap "error converting to EUR" err))
           | (s, Ok eur) => (s, Ok (fmul eur exchangeRate))
           end
       end.

(** [pkg/currency/service.go:117-119] ToUsd *)
Definition ToUsd (value : F) (fromCurrency : string) s : St * result error F := ToCurrency Usd value fromCurrency s.

(** [pkg/currency/service.go:148-168] ToCurrencyAtDate; the second rate is read with the clock from the [j]th read on *)
Definition ToCurrencyAtDate (fuel : nat) (now : nat → Z) (i j : nat) (toCurrency : string) (value : F) (fromCurrency : string) (date : Z) s : option (St * result error F) :=
  if EqualFold fromCurrency toCurrency then Some (s, Ok value)
  else if bool_decide (now i + maxClockSkew < date)%Z then Some (s, Err Future)
  else match getExchangeRateToEurAtDate fuel now (S i) toCurrency date s with
       | None => None
       | Some (s, Err err) => Some (s, Err (Wrap "error parsing historic exchange rate" err))
       | Some (s, Ok exchangeRate) =>
           match ToEurAtDate fuel now j value fromCurrency date s with
           | None => None
           | Some (s, Err err) => Some (s, Err (Wrap "error converting historic value to EUR" err))
           | Some (s, Ok eur) => Some (s, Ok (fmul eur exchangeRate))
           end
       end.

(** [pkg/currency/service.go:123-125] ToUsdAtDate *)
Definition ToUsdAtDate (fuel : nat) (now : nat → Z) (i j : nat) (value : F) (fromCurrency : string) (date : Z) s : option (St * result error F) :=
  ToCurrencyAtDate fuel now i j Usd value fromCurrency date s.
End Service.

(** ** The updater *)

(** [pkg/currency/types.go:5-8] Rate *)
Record Rate_ := { Currency : string; Rate : F }.

(** [pkg/currency/updater.go:167-172] the rates of a currency that is not there yet *)
Fixpoint add_rates (rates : list Rate_) (allRates : list Rate_) (rateMap : go_set string) : list Rate_ * go_set string :=
  match rates with
  | [] => (allRates, rateMap)
  | rate :: rates =>
      if map_has rateMap (Currency rate) then add_rates rates allRates rateMap
      else add_rates rates (allRates ++ [rate]) (FunkSet.Add [Currency rate] rateMap).2
  end.

(** [pkg/currency/updater.go:157-176] getCurrencyRates, by the answers of the providers in their order *)
Fixpoint getCurrencyRates (answers : list (result go_error (list Rate_))) (allRates : list Rate_) (rateMap : go_set string) : result error (list Rate_) :=
  match answers with
  | [] => Ok allRates
  | Err err :: _ => Err (Wrap "error getting rates" (Provider err))
  | Ok rates :: answers => let '(allRates, rateMap) := add_rates rates allRates rateMap in getCurrencyRates answers allRates rateMap
  end.

(** [pkg/currency/updater.go:303-311] generateDateRange *)
Fixpoint generateDateRange (fuel : nat) (d stop : Z) : option (list Z) :=
  match fuel with
  | 0 => None
  | S fuel => if bool_decide (stop < d)%Z then Some [] else match generateDateRange fuel (add_days d 1) stop with None => None | Some l => Some (d :: l) end
  end.

(** The rates of a day, by their currency, and those of all days. *)
Abbreviation day_rates := (gmap string F).
Abbreviation all_rates := (gmap Z (gmap string F)).

(** [pkg/currency/updater.go:240-244] the rates of a provider for a day *)
Definition merge_day (rates : list Rate_) (m : day_rates) : day_rates :=
  fold_left (λ m rate, if map_has m (Currency rate) then m else <[Currency rate := Rate rate]> m) rates m.

(** [pkg/currency/updater.go:233-250] mergeProviderResults *)
Definition mergeProviderResults (datesToUpdate : list Z) (providerResults : list (gmap Z (list Rate_))) : all_rates :=
  fold_left (λ m date,
    <[date := fold_left (λ day providerResult, match providerResult !! date with Some dayRates => merge_day dayRates day | None => day end) providerResults ∅]> m)
    datesToUpdate ∅.

(** [pkg/currency/updater.go:215-229] fetchHistoricalProviderResults: a provider that fails has no results *)
Definition fetchHistoricalProviderResults (providers : list (list Z → result go_error (gmap Z (list Rate_)))) (datesToUpdate : list Z) : list (gmap Z (list Rate_)) :=
  map (λ FetchHistoricalRates, match FetchHistoricalRates datesToUpdate with Ok result => result | Err _ => ∅ end) providers.

Context (date_order : map_order Z day_rates) (rate_order : map_order string F).

(** [pkg/currency/updater.go:322-326] the rates of a day for the next day where that has none *)
Definition fill_day (current next : day_rates) : day_rates :=
  fold_left (λ next cr, if map_has next cr.1 then next else <[cr.1 := cr.2]> next) (enum rate_order current) next.

(** [pkg/currency/updater.go:318-327] the loop of fillHistoricalGaps over the days in their order *)
Fixpoint fill_days (dates : list Z) (m : all_rates) : all_rates :=
  match dates with
  | currentDate :: ((nextDay :: _) as dates') =>
      fill_days dates' (<[nextDay := fill_day (default ∅ (m !! currentDate)) (default ∅ (m !! nextDay))]> m)
  | _ => m
  end.

(** [pkg/currency/updater.go:313-328] fillHistoricalGaps *)
Definition fillHistoricalGaps (m : all_rates) : all_rates := fill_days (merge_sort Z.le (enum date_order m).*1) m.

(** [pkg/currency/updater.go:252-262] buildHistoricalKeyValues *)
Definition buildHistoricalKeyValues (datesToUpdate : list Z) (m : all_rates) : gmap string F :=
  fold_left (λ kvs d, fold_left (λ kvs cr, <[historicalRateKey d cr.1 := cr.2]> kvs) (enum rate_order (default ∅ (m !! d))) kvs) datesToUpdate ∅.

(** What EnsureHistoricalExchangeRates stores for the days from one time to another. *)
Definition historical_key_values (datesToUpdate : list Z) (providerResults : list (gmap Z (list Rate_))) : gmap string F :=
  buildHistoricalKeyValues datesToUpdate (fillHistoricalGaps (mergeProviderResults datesToUpdate providerResults)).

(** ** The providers *)

(** [pkg/currency/provider_ecb.go:93-101] the rates by the text of their day; the last of a day wins *)
Fixpoint ecb_by_date (GetTime : string → result go_error Z) (content : list (string * list Rate_)) (m : gmap string (list Rate_)) : result go_error (gmap string (list Rate_)) :=
  match content with
  | [] => Ok m
  | (time, rates) :: content =>
      match GetTime time with
      | Err err => Err err
      | Ok date => ecb_by_date GetTime content (<[DateOnly date := rates]> m)
      end
  end.

(** [pkg/currency/provider_ecb.go:80-111] ecbProvider.FetchHistoricalRates, with the document that the request and the XML decoder gave *)
Definition ecb_FetchHistoricalRates (GetTime : string → result go_error Z) (response : result go_error (list (string * list Rate_))) (dates : list Z) : result go_error (gmap Z (list Rate_)) :=
  match response with
  | Err err => Err err
  | Ok content =>
      match ecb_by_date GetTime content ∅ with
      | Err err => Err err
      | Ok byDate => Ok (fold_left (λ result date, match byDate !! DateOnly date with Some rates => <[date := rates]> result | None => result end) dates ∅)
      end
  end.

(** [pkg/currency/provider_openexchangerates.go:75-78] the rates of a response *)
Definition to_rates (m : gmap string F) : list Rate_ := map (λ cr, {| Currency := cr.1; Rate := cr.2 |}) (enum rate_order m).

(** [pkg/currency/provider_openexchangerates.go:83-115] openExchangeRatesApiProvider.FetchHistoricalRates; a response is a status and, where the decoder reads it, its rates *)
Fixpoint oxr_FetchHistoricalRates (get : string → result go_error (Z * result go_error (gmap string F))) (status_error : Z → go_error) (dates : list Z) (m : gmap Z (list Rate_)) : result go_error (gmap Z (list Rate_)) :=
  match dates with
  | [] => Ok m
  | d :: dates =>
      match get ("https://openexchangerates.org/api/historical/" +:+ DateOnly d +:+ ".json?base=EUR") with
      | Err err => Err err
      | Ok (status, body) =>
          if negb (status =? 200)%Z then Err (status_error status)
          else match body with
               | Err err => Err err
               | Ok rates => oxr_FetchHistoricalRates get status_error dates (<[d := to_rates rates]> m)
               end
      end
  end.

(** [pkg/currency/provider_openexchangerates.go:56-81] openExchangeRatesApiProvider.FetchLatestRates *)
Definition oxr_FetchLatestRates (get : string → result go_error (Z * result go_error (gmap string F))) (status_error : Z → go_error) : result go_error (list Rate_) :=
  match get "https://openexchangerates.org/api/latest.json?base=EUR" with
  | Err err => Err err
  | Ok (status, body) =>
      if negb (status =? 200)%Z then Err (status_error status)
      else match body with Err err => Err err | Ok rates => Ok (to_rates rates) end
  end.

(** [pkg/currency/providers.go:36-42] RegisterProvider, which panics for a name that is there *)
Definition RegisterProvider {P : Type} (name : string) (option : P) (providerRegistry : gmap string P) : result string (gmap string P) :=
  if map_has providerRegistry name then Err ("a currency provider with the name " +:+ name +:+ " already exists")
  else Ok (<[name := option]> providerRegistry).

Section Updater.
Context {O St : Type} `{Countable O} `{!KvStore O F St}.
Implicit Types (s : St).

(** [pkg/currency/updater.go:17-21] the refresh time and the keys of the refresh dates *)
Definition ExchangeRateRefresh : Z := 8 * 3600 * second.
Definition ExchangeRateDateKey : string := "currency_exchange_last_refresh".
Definition HistoricalExchangeRateDateKey : string := "currency_exchange_historical_last_refresh".

(** [pkg/currency/updater.go:129-155] needsRefresh *)
Definition needsRefresh (now : Z) s : St * bool :=
  match kv_get (KString ExchangeRateDateKey) fzero s with
  | (s, (_, _, Some _)) => (s, true)
  | (s, (_, false, None)) => (s, true)
  | (s, (dateUnix, true, None)) => (s, bool_decide (to_unix dateUnix * second < now - ExchangeRateRefresh)%Z)
  end.

(** [pkg/currency/updater.go:102-115] the loop of EnsureRecentExchangeRates *)
Fixpoint put_rates (now : Z) (rates : list Rate_) s : St * option error :=
  match rates with
  | [] => (s, None)
  | rate :: rates =>
      match kv_put (KString (Currency rate)) (Rate rate) s with
      | (s, Some err) => (s, Some (Wrap "error setting exchange rate" (Store err)))
      | (s, None) =>
          match kv_put (KString (historicalRateKey now (Currency rate))) (Rate rate) s with
          | (s, Some err) => (s, Some (Wrap "error setting historical exchange rate" (Store err)))
          | (s, None) => put_rates now rates s
          end
      end
  end.

(** [pkg/currency/updater.go:90-127] EnsureRecentExchangeRates, with three reads of the clock *)
Definition EnsureRecentExchangeRates (now0 now1 now2 : Z) (answers : list (result go_error (list Rate_))) s : St * option error :=
  match needsRefresh now0 s with
  | (s, false) => (s, None)
  | (s, true) =>
      match getCurrencyRates answers [] ∅ with
      | Err err => (s, Some (Wrap "error getting currency exchange rates" err))
      | Ok rates =>
          match put_rates now1 rates s with
          | (s, Some err) => (s, Some err)
          | (s, None) =>
              match kv_put (KString ExchangeRateDateKey) (of_unix (now2 / second)%Z) s with
              | (s, Some err) => (s, Some (Wrap "error setting refresh date" (Store err)))
              | (s, None) => (s, None)
              end
          end
      end
  end.

(** [pkg/currency/updater.go:330-357] updateFromDate *)
Definition updateFromDate (StartDate now : Z) s : St * option Z :=
  match kv_get (KString HistoricalExchangeRateDateKey) fzero s with
  | (s, (_, _, Some _)) => (s, Some StartDate)
  | (s, (_, false, None)) => (s, Some StartDate)
  | (s, (dateUnix, true, None)) =>
      let date := (to_unix dateUnix * second)%Z in
      (s, if bool_decide (date < now - oneDay)%Z then Some date else None)
  end.

(** [pkg/currency/updater.go:178-213] EnsureHistoricalExchangeRates *)
Definition EnsureHistoricalExchangeRates (fuel : nat) (StartDate now0 now1 now2 : Z) (providers : list (list Z → result go_error (gmap Z (list Rate_)))) s : option (St * option error) :=
  match updateFromDate StartDate now0 s with
  | (s, None) => Some (s, None)
  | (s, Some from) =>
      match generateDateRange fuel from now1 with
      | None => None
      | Some datesToUpdate =>
          let keyValues := historical_key_values datesToUpdate (fetchHistoricalProviderResults providers datesToUpdate) in
          match kv_putBatch (keyed keyValues) s with
          | (s, Some err) => Some (s, Some (Wrap "error setting historical exchange rates" (Store err)))
          | (s, None) =>
              match kv_put (KString HistoricalExchangeRateDateKey) (of_unix (now2 / second)%Z) s with
              | (s, Some err) => Some (s, Some (Wrap "error setting historical refresh date" (Store err)))
              | (s, None) => Some (s, None)
              end
          end
      end
  end.
End Updater.

(** ** The days of a range *)

(** The days from one time on. *)
Definition days_from (d : Z) (n : nat) : list Z := map (λ i, add_days d (Z.of_nat i)) (seq 0 n).

Lemma days_from_S d n : days_from d (S n) = d :: days_from (add_days d 1) n.
Proof.
  unfold days_from. cbn [seq map]. f_equal; [unfold add_days; lia|].
  rewrite -seq_shift map_map. apply map_ext. intros i. unfold add_days. lia.
Qed.

Lemma oneDay_pos : (0 < oneDay)%Z.
Proof. done. Qed.

Lemma generateDateRange_from n fuel d stop :
  n < fuel → n = Z.to_nat ((stop - d) / oneDay + 1) → generateDateRange fuel d stop = Some (days_from d n).
Proof.
  pose proof oneDay_pos as Hday.
  revert fuel d. induction n as [|n IH]; intros [|fuel] d Hn Heq; try lia; cbn [generateDateRange].
  - rewrite bool_decide_true //. destruct (Z.lt_ge_cases stop d) as [|Hge]; [done|].
    pose proof (Z.div_pos (stop - d) oneDay ltac:(lia) Hday). lia.
  - rewrite bool_decide_false.
    + intros Hlt. pose proof (Z.div_lt_upper_bound (stop - d) oneDay 0 Hday ltac:(lia)). lia.
    + assert (n = Z.to_nat ((stop - add_days d 1) / oneDay + 1)) as Hn'.
      { unfold add_days. replace (stop - (d + 1 * oneDay))%Z with ((stop - d) + (-1) * oneDay)%Z by lia.
        rewrite Z.div_add; lia. }
      rewrite (IH fuel _ ltac:(lia) Hn'). by rewrite days_from_S.
Qed.

Lemma days_from_sorted d n : StronglySorted Z.lt (days_from d n).
Proof.
  revert d. induction n as [|n IH]; intros d; [constructor|]. rewrite days_from_S. constructor; [done|].
  apply Forall_forall. intros x (i & -> & _)%list_elem_of_fmap. unfold add_days, oneDay, second. lia.
Qed.

(** ** Which rate a day gets *)
Definition rate_at (m : all_rates) (d : Z) (c : string) : option F := default ∅ (m !! d) !! c.

(** The first rate of a currency. *)
Fixpoint find_rate (c : string) (rates : list Rate_) : option F :=
  match rates with
  | [] => None
  | rate :: rates => if bool_decide (Currency rate = c) then Some (Rate rate) else find_rate c rates
  end.

(** The rate of the first provider that has one for a day. *)
Definition first_rate (prs : list (gmap Z (list Rate_))) (d : Z) (c : string) : option F :=
  find_rate c (prs ≫= λ pr, default [] (pr !! d)).

(** The last rate of a list of days. *)
Definition carried (rate : Z → string → option F) (days : list Z) (c : string) : option F := last (omap (λ d, rate d c) days).

Lemma find_rate_app c l1 l2 : find_rate c (l1 ++ l2) = match find_rate c l1 with Some r => Some r | None => find_rate c l2 end.
Proof. induction l1 as [|r l1 IH]; [done|]. cbn. by case_bool_decide. Qed.

Lemma merge_day_lookup rates m c : merge_day rates m !! c = match m !! c with Some r => Some r | None => find_rate c rates end.
Proof.
  unfold merge_day. revert m. induction rates as [|r rates IH]; intros m; cbn; [by destruct (m !! c)|].
  rewrite IH. unfold map_has. destruct (m !! Currency r) as [x|] eqn:Hr; cbn.
  - destruct (m !! c) eqn:Hc; [done|]. rewrite bool_decide_false //. congruence.
  - destruct (base.decide (Currency r = c)) as [<-|Hne].
    + by rewrite lookup_insert_eq Hr bool_decide_true.
    + rewrite lookup_insert_ne //. by rewrite (bool_decide_false _ Hne).
Qed.

Lemma merge_day_all prs d c day :
  fold_left (λ day providerResult, match providerResult !! d with Some dayRates => merge_day dayRates day | None => day end) prs day !! c =
  match day !! c with Some r => Some r | None => first_rate prs d c end.
Proof.
  unfold first_rate. revert day. induction prs as [|pr prs IH]; intros day; cbn; [by destruct (day !! c)|].
  rewrite IH find_rate_app. destruct (pr !! d) as [rates|]; cbn; [|by destruct (day !! c)].
  rewrite merge_day_lookup. by destruct (day !! c), (find_rate c rates).
Qed.

Lemma fold_insert_lookup {V} (f : Z → V) (l : list Z) (m : gmap Z V) d :
  fold_left (λ m d, <[d := f d]> m) l m !! d = if bool_decide (d ∈ l) then Some (f d) else m !! d.
Proof.
  revert m. induction l as [|x l IH]; intros m; cbn; [done|]. rewrite IH.
  destruct (base.decide (d ∈ l)) as [Hin|Hin]; [rewrite !bool_decide_true //; set_solver|].
  rewrite (bool_decide_false _ Hin). destruct (base.decide (x = d)) as [->|Hne].
  - rewrite lookup_insert_eq bool_decide_true //. set_solver.
  - rewrite lookup_insert_ne // bool_decide_false //. set_solver.
Qed.

Lemma mergeProviderResults_rate dates prs d c :
  d ∈ dates → is_Some (mergeProviderResults dates prs !! d) ∧ rate_at (mergeProviderResults dates prs) d c = first_rate prs d c.
Proof.
  intros Hd. unfold rate_at, mergeProviderResults.
  rewrite (fold_insert_lookup (λ date, fold_left _ prs ∅)) bool_decide_true //. split; [done|]. cbn. by rewrite merge_day_all lookup_empty.
Qed.

Lemma mergeProviderResults_dom dates prs : dom (mergeProviderResults dates prs) = list_to_set dates.
Proof.
  apply set_eq. intros d. rewrite elem_of_dom elem_of_list_to_set. unfold mergeProviderResults.
  rewrite (fold_insert_lookup (λ date, fold_left _ prs ∅)). case_bool_decide; [done|]. rewrite lookup_empty. split; [intros []; done | done].
Qed.

(** ** The gaps *)
Lemma fill_day_lookup current next c :
  fill_day current next !! c = match next !! c with Some r => Some r | None => current !! c end.
Proof.
  assert (∀ l (m : day_rates), fold_left (λ next cr, if map_has next cr.1 then next else <[cr.1 := cr.2]> next) l m !! c =
    match m !! c with Some r => Some r | None => (list_to_map l : day_rates) !! c end) as Hfold.
  { induction l as [|[c' r] l IH]; intros m; cbn; [by destruct (m !! c)|]. rewrite IH. unfold map_has.
    destruct (base.decide (c' = c)) as [->|Hne]; [|by destruct (m !! c'); rewrite ?lookup_insert_ne].
    destruct (m !! c) as [x|] eqn:Hc; [by rewrite Hc | by rewrite !lookup_insert_eq]. }
  unfold fill_day. rewrite Hfold (list_to_map_proper _ (map_to_list current)).
  - apply enum_nodup_keys.
  - apply enum_perm.
  - by rewrite list_to_map_to_list.
Qed.

Lemma fill_days_other dates m x : x ∉ tail dates → fill_days dates m !! x = m !! x.
Proof.
  revert m. induction dates as [|d [|d' dates] IH]; intros m Hx; [done..|]. cbn [fill_days tail] in *.
  rewrite IH; [cbn; set_solver|]. rewrite lookup_insert_ne //. set_solver.
Qed.

Lemma carried_cons rate d days c : carried rate (d :: days) c = match carried rate days c with Some r => Some r | None => rate d c end.
Proof. unfold carried. cbn. destruct (rate d c) as [r|]; cbn; [apply last_cons | by destruct (last _)]. Qed.

Lemma carried_ext rate rate' days c : (∀ d, d ∈ days → rate d c = rate' d c) → carried rate days c = carried rate' days c.
Proof.
  intros Hext. induction days as [|d days IH]; [done|]. rewrite !carried_cons IH; [set_solver|]. rewrite Hext //. set_solver.
Qed.

Lemma fill_days_rate dates m i d c :
  NoDup dates → dates !! i = Some d → rate_at (fill_days dates m) d c = carried (rate_at m) (take (S i) dates) c.
Proof.
  revert m i. induction dates as [|d0 [|d1 dates] IH]; intros m i Hnd Hi; [done| |].
  - destruct i as [|i]; [|done]. injection Hi as ->. by rewrite /= carried_cons.
  - apply NoDup_cons in Hnd as [Hd0 Hnd]. destruct i as [|i]; cbn in Hi.
    + injection Hi as ->. cbn [take]. rewrite carried_cons. unfold rate_at. cbn [fill_days]. rewrite (fill_days_other (d1 :: dates)); [cbn; set_solver|].
      rewrite lookup_insert_ne //. set_solver.
    + pose proof (IH (<[d1 := fill_day (default ∅ (m !! d0)) (default ∅ (m !! d1))]> m) i Hnd Hi) as Hr. cbn [fill_days] in Hr |- *. rewrite Hr.
      apply NoDup_cons in Hnd as [Hd1 Hnd]. cbn [take]. rewrite !carried_cons.
      rewrite (carried_ext _ (rate_at m) (take i dates)).
      * intros x Hx%elem_of_take. destruct Hx as (j & Hj%list_elem_of_lookup_2 & _). unfold rate_at. rewrite lookup_insert_ne //. set_solver.
      * destruct (carried (rate_at m) (take i dates) c); [done|]. unfold rate_at. rewrite lookup_insert_eq. cbn. apply fill_day_lookup.
Qed.

Lemma sorted_nodup (dates : list Z) : StronglySorted Z.lt dates → NoDup dates.
Proof. induction 1 as [|d l _ IH Hd]; constructor; [|done]. intros Hin. pose proof (proj1 (Forall_forall _ _) Hd d Hin). lia. Qed.

Lemma fillHistoricalGaps_fill dates m : StronglySorted Z.lt dates → dom m = list_to_set dates → fillHistoricalGaps m = fill_days dates m.
Proof.
  intros Hs Hdom. unfold fillHistoricalGaps. f_equal. apply (StronglySorted_unique Z.le).
  - apply (StronglySorted_merge_sort Z.le).
  - clear Hdom. induction Hs as [|d l _ IH Hd]; constructor; [done|]. eapply Forall_impl; [exact Hd|]. intros x Hx. cbn in *. lia.
  - rewrite merge_sort_Permutation. apply NoDup_Permutation; [apply enum_nodup_keys | by apply sorted_nodup|].
    intros d. rewrite elem_of_enum_keys -elem_of_dom Hdom elem_of_list_to_set //.
Qed.

(** After the gaps are filled a day has the rate of the last day up to it that has one. *)
Lemma filled_rate dates prs i d c :
  StronglySorted Z.lt dates → dates !! i = Some d →
  rate_at (fillHistoricalGaps (mergeProviderResults dates prs)) d c = carried (first_rate prs) (take (S i) dates) c.
Proof.
  intros Hs Hi. rewrite (fillHistoricalGaps_fill dates) //; [apply mergeProviderResults_dom|].
  rewrite (fill_days_rate _ _ i) //; [by apply sorted_nodup|]. apply carried_ext. intros x Hx%elem_of_take.
  destruct Hx as (j & Hj%list_elem_of_lookup_2 & _). by apply mergeProviderResults_rate.
Qed.

(** ** What is stored *)
Section Stored.
Context (valid : Z → Prop).
Context (DateOnly_length : ∀ d, valid d → String.length (DateOnly d) = 10).
Context (DateOnly_day : ∀ d d', valid d → valid d' → DateOnly d = DateOnly d' → (d / oneDay = d' / oneDay)%Z).

Lemma historicalRateKey_inj d d' c c' :
  valid d → valid d' → historicalRateKey d c = historicalRateKey d' c' → DateOnly d = DateOnly d' ∧ c = c'.
Proof using DateOnly_length.
  unfold historicalRateKey. intros Hv Hv' Heq. assert (∀ a b x y, String.length a = String.length b → a +:+ x = b +:+ y → a = b ∧ x = y) as Happ.
  { clear. induction a as [|ch a IH]; intros [|ch' b] x y Hl Ha; try done. injection Hl as Hl. injection Ha as -> Ha.
    by destruct (IH _ _ _ Hl Ha) as [-> ->]. }
  destruct (Happ (DateOnly d) (DateOnly d') _ _ ltac:(by rewrite !DateOnly_length) Heq) as [Hd Hc]. split; [done|]. by injection Hc.
Qed.

Lemma fold_pairs (l : list (string * F)) (m : gmap string F) k :
  (∀ v v', (k, v) ∈ l → (k, v') ∈ l → v = v') →
  (∀ v, (k, v) ∈ l → fold_left (λ m kv, <[kv.1 := kv.2]> m) l m !! k = Some v) ∧
  (k ∉ l.*1 → fold_left (λ m kv, <[kv.1 := kv.2]> m) l m !! k = m !! k).
Proof.
  clear -F. revert m. induction l as [|[k' v'] l IH]; intros m Hf; cbn; [split; [intros v Hv; set_solver | done]|].
  destruct (IH (<[k' := v']> m) ltac:(set_solver)) as [IH1 IH2]. split.
  - intros v Hv. destruct (base.decide (k ∈ l.*1)) as [([? v''] & -> & Hin)%list_elem_of_fmap|Hn].
    + cbn in *. rewrite (IH1 v'') //. f_equal. apply Hf; set_solver.
    + rewrite IH2 //. apply list_elem_of_In in Hv as [Heq|Hv]; [simplify_eq; by rewrite lookup_insert_eq|].
      exfalso. apply Hn, list_elem_of_fmap. exists (k, v). split; [done|]. by apply list_elem_of_In.
  - intros Hn. rewrite IH2; [set_solver|]. rewrite lookup_insert_ne //. set_solver.
Qed.

(** The keys and rates of the days, in the order they are written. *)
Definition key_rates (dates : list Z) (m : all_rates) : list (string * F) :=
  dates ≫= λ d, map (λ cr, (historicalRateKey d cr.1, cr.2)) (enum rate_order (default ∅ (m !! d))).

Lemma buildHistoricalKeyValues_pairs dates m :
  buildHistoricalKeyValues dates m = fold_left (λ m kv, <[kv.1 := kv.2]> m) (key_rates dates m) ∅.
Proof.
  assert (∀ out : gmap string F,
    fold_left (λ kvs d, fold_left (λ kvs cr, <[historicalRateKey d cr.1 := cr.2]> kvs) (enum rate_order (default ∅ (m !! d))) kvs) dates out =
    fold_left (λ m kv, <[kv.1 := kv.2]> m) (key_rates dates m) out) as Hout; [|apply Hout].
  unfold key_rates. induction dates as [|d dates IH]; intros out; [done|]. cbn. rewrite fold_left_app -IH. f_equal.
  generalize (enum rate_order (default ∅ (m !! d))) as l. intros l. revert out. induction l as [|cr l IHl]; intros out; [done|]. cbn. apply IHl.
Qed.

Lemma elem_of_key_rates dates m k v :
  (k, v) ∈ key_rates dates m ↔ ∃ d c, d ∈ dates ∧ k = historicalRateKey d c ∧ rate_at m d c = Some v.
Proof.
  unfold key_rates, rate_at. rewrite list_elem_of_bind. split.
  - intros (d & ([c r] & Heq & Hin)%list_elem_of_fmap & Hd). injection Heq as -> ->. apply elem_of_enum in Hin. by exists d, c.
  - intros (d & c & Hd & -> & Hr). exists d. split; [|done]. apply list_elem_of_fmap. exists (c, v). split; [done|]. by apply elem_of_enum.
Qed.

(** The key of a day and a currency has the rate of that day. *)
Lemma buildHistoricalKeyValues_lookup dates m d c :
  (∀ d, d ∈ dates → valid d) → (∀ d d', d ∈ dates → d' ∈ dates → DateOnly d = DateOnly d' → d = d') → d ∈ dates →
  buildHistoricalKeyValues dates m !! historicalRateKey d c = rate_at m d c.
Proof using DateOnly_length.
  intros Hval Hinj Hd. rewrite buildHistoricalKeyValues_pairs.
  assert (∀ v, (historicalRateKey d c, v) ∈ key_rates dates m → rate_at m d c = Some v) as Hrate.
  { intros v (d1 & c1 & Hd1 & Heq & Hr1)%elem_of_key_rates. apply historicalRateKey_inj in Heq as [Heq ->]; [|by apply Hval..].
    by rewrite (Hinj d d1 Hd Hd1 Heq). }
  destruct (fold_pairs (key_rates dates m) ∅ (historicalRateKey d c)) as [H1 H2].
  { intros v v' Hv%Hrate Hv'%Hrate. congruence. }
  destruct (rate_at m d c) as [r|] eqn:Hr; [apply H1, elem_of_key_rates; by exists d, c|].
  rewrite H2 ?lookup_empty //. intros ([? v] & Hk & Hin)%list_elem_of_fmap. cbn in Hk. subst. by apply Hrate in Hin.
Qed.

Lemma buildHistoricalKeyValues_other dates m k :
  (∀ d c, d ∈ dates → k ≠ historicalRateKey d c) → buildHistoricalKeyValues dates m !! k = None.
Proof.
  intros Hk. rewrite buildHistoricalKeyValues_pairs. destruct (fold_pairs (key_rates dates m) ∅ k) as [_ H2].
  - intros v v' (d & c & Hd & -> & _)%elem_of_key_rates. by destruct (Hk d c Hd).
  - rewrite H2 ?lookup_empty //. intros ([? v] & Heq & Hin)%list_elem_of_fmap. cbn in Heq. subst.
    apply elem_of_key_rates in Hin as (d & c & Hd & -> & _). by destruct (Hk d c Hd).
Qed.

Lemma days_from_inj d n : (∀ x, x ∈ days_from d n → valid x) →
  ∀ x y, x ∈ days_from d n → y ∈ days_from d n → DateOnly x = DateOnly y → x = y.
Proof using DateOnly_day.
  intros Hval x y Hx Hy Heq. apply DateOnly_day in Heq; [|by apply Hval..].
  apply list_elem_of_fmap in Hx as (i & -> & _), Hy as (j & -> & _). unfold add_days in *.
  pose proof oneDay_pos. rewrite !Z.div_add in Heq; lia.
Qed.

Lemma refresh_key d c : valid d → historicalRateKey d c ≠ HistoricalExchangeRateDateKey.
Proof using DateOnly_length.
  intros Hv. unfold historicalRateKey. pose proof (DateOnly_length d Hv) as Hl. revert Hl. generalize (DateOnly d) as t.
  do 10 (intros [|? t]; [done|]; revert t). intros [|? t]; [|done]. intros _ Heq.
  unfold HistoricalExchangeRateDateKey in Heq. by injection Heq.
Qed.

Section Store.
Context {O St : Type} `{Countable O} (ToStringE : any_key O → result KvStore.error string).
Context `{Hstore : !KvStore O F St} `{!KvStoreLaws ToStringE St}.
Context (cast_string : ∀ k, ToStringE (KString k) = Ok k) (fresh_zero : kv_fresh (St := St) ToStringE fzero).
Implicit Types (s : St).
Abbreviation view := (kv_view (T := F) ToStringE).
Abbreviation durable := (kv_durable (T := F) ToStringE).

Lemma get_durable k v s s' x found err :
  kv_fresh (St := St) ToStringE v → durable s → kv_get (KString k) v s = (s', (x, found, err)) →
  durable s' ∧ view s' = view s ∧ (found = true → err = None ∧ view s !! k = Some x) ∧ (found = false → err = None → view s !! k = None).
Proof using cast_string.
  intros Hfr Hs Hg. destruct (kv_get_law ToStringE _ _ _ _ _ _ _ Hg) as (_ & Hd & Hf & Hn). destruct (Hd Hs) as [Hs' Hv].
  rewrite Hv in Hn. unfold lookup_key, CastKeyToString in *. rewrite cast_string in Hf, Hn.
  split; [done|]. split; [done|]. split; [|by intros H1 H2; destruct (Hn H1 H2)]. intros H1. destruct (Hf H1) as [He Hx]. auto.
Qed.

Lemma put_durable k v s s' : durable s → kv_put (KString k) v s = (s', None) → durable s' ∧ view s' = <[k := v]> (view s).
Proof using cast_string.
  intros Hs Hp. destruct (kv_put_law ToStringE _ _ _ _ _ Hp) as (_ & _ & Hd). destruct (Hd Hs) as [Hs' Hv]. split; [done|].
  rewrite Hv. unfold insert_key, CastKeyToString. by rewrite cast_string.
Qed.

Lemma updateFromDate_durable StartDate now s s' from :
  durable s → updateFromDate StartDate now s = (s', from) → durable s' ∧ view s' = view s.
Proof using cast_string fresh_zero.
  intros Hs. unfold updateFromDate. destruct (kv_get _ _ s) as [s1 [[x found] err]] eqn:Hg.
  destruct (get_durable _ _ _ _ _ _ _ fresh_zero Hs Hg) as (Hs1 & Hv & _). rewrite -Hv. by destruct found, err; intros [= <- _].
Qed.

(** When the historical rates are due, what is stored for each day from the last refresh
    on and each currency is the rate of the first provider that has one for that day, or
    else for the last day before it in the range that has one; where no day of the range
    up to it has one, what was stored stays.  If the update returns no error, the date of
    the refresh is stored, too; and it always returns. *)
Theorem EnsureHistoricalExchangeRates_correct fuel StartDate now0 now1 now2 providers s s0 from :
  durable s → updateFromDate StartDate now0 s = (s0, Some from) →
  let days := days_from from (Z.to_nat ((now1 - from) / oneDay + 1)) in
  let results := fetchHistoricalProviderResults providers days in
  Z.to_nat ((now1 - from) / oneDay + 1) < fuel → (∀ d, d ∈ days → valid d) →
  ∃ s' err, EnsureHistoricalExchangeRates fuel StartDate now0 now1 now2 providers s = Some (s', err) ∧
    (err = None →
     view s' !! HistoricalExchangeRateDateKey = Some (of_unix (now2 / second)%Z) ∧
     (∀ i d c, days !! i = Some d →
        view s' !! historicalRateKey d c =
        match carried (first_rate results) (take (S i) days) c with Some r => Some r | None => view s !! historicalRateKey d c end) ∧
     (∀ k, k ≠ HistoricalExchangeRateDateKey → (∀ d c, d ∈ days → k ≠ historicalRateKey d c) → view s' !! k = view s !! k)).
Proof using cast_string fresh_zero DateOnly_length DateOnly_day.
  intros Hs Hfrom days results Hfuel Hval. destruct (updateFromDate_durable _ _ _ _ _ Hs Hfrom) as [Hs0 Hv0].
  unfold EnsureHistoricalExchangeRates. rewrite Hfrom (generateDateRange_from _ _ _ _ Hfuel eq_refl).
  fold days results. destruct (kv_putBatch _ s0) as [s1 [err|]] eqn:Hb; [by eexists _, _|].
  destruct (kv_put _ _ s1) as [s2 [err|]] eqn:Hp; [by eexists _, _|]. eexists _, _. split; [done|]. intros _.
  destruct (kv_putBatch_law ToStringE _ _ _ _ Hb) as (_ & _ & Hd). destruct (Hd Hs0 eq_refl) as [Hs1 Hv1].
  destruct (put_durable _ _ _ _ Hs1 Hp) as [_ ->]. rewrite Hv1 Hv0. split; [apply lookup_insert_eq|]. split.
  - intros i d c Hi. pose proof (list_elem_of_lookup_2 _ _ _ Hi) as Hin.
    rewrite lookup_insert_ne; [by apply not_eq_sym, refresh_key, Hval|]. rewrite lookup_union. unfold historical_key_values.
    rewrite buildHistoricalKeyValues_lookup //; [by apply days_from_inj|]. rewrite (filled_rate _ _ i) //; [apply days_from_sorted|].
    by destruct (carried _ _ _), (view s !! _).
  - intros k Hk Hother. rewrite lookup_insert_ne // lookup_union. unfold historical_key_values.
    rewrite buildHistoricalKeyValues_other //. by destruct (view s !! k).
Qed.
End Store.
End Stored.

(** ** Conversions *)
Section ServiceLaws.
Context (fone : F) (fmul fdiv : F → F → F) (EqualFold : string → string → bool) (ToUpper : string → string).
Context {O St : Type} `{Countable O} (ToStringE : any_key O → result KvStore.error string).
Context `{Hstore : !KvStore O F St} `{!KvStoreLaws ToStringE St}.
Context (cast_string : ∀ k, ToStringE (KString k) = Ok k) (fresh_zero : kv_fresh (St := St) ToStringE fzero).
Implicit Types (s : St).
Abbreviation view := (kv_view (T := F) ToStringE).
Abbreviation durable := (kv_durable (T := F) ToStringE).

(** The rate of a currency, by the key it is stored at. *)
Definition rate_in (m : gmap string F) (key currency : string) : option F :=
  if EqualFold currency Eur then Some fone else m !! key.

Lemma getExchangeRateToEur_durable currency s s' r :
  durable s → getExchangeRateToEur fone EqualFold ToUpper currency s = (s', r) →
  durable s' ∧ view s' = view s ∧
  match r with
  | Ok x => rate_in (view s) (ToUpper currency) currency = Some x
  | Err NotFound => rate_in (view s) (ToUpper currency) currency = None
  | Err _ => True
  end.
Proof using cast_string fresh_zero.
  intros Hs. unfold getExchangeRateToEur, rate_in. destruct (EqualFold currency Eur); [by intros [= <- <-]|].
  destruct (kv_get _ _ s) as [s1 [[x found] err]] eqn:Hg. destruct (get_durable _ cast_string _ _ _ _ _ _ _ fresh_zero Hs Hg) as (Hs1 & Hv & Hf & Hn).
  destruct found, err; intros [= <- <-]; (split; [done|]; split; [done|]); try done; by [apply Hf | apply Hn].
Qed.

(** A conversion divides by the rate of the currency it comes from and multiplies with
    that of the currency it goes to, where the names of the currencies are compared and
    looked up without case; the stored rates stay as they are. *)
Theorem ToCurrency_correct toCurrency value fromCurrency s s' x :
  durable s → ToCurrency fone fmul fdiv EqualFold ToUpper toCurrency value fromCurrency s = (s', Ok x) →
  view s' = view s ∧
  ((EqualFold fromCurrency toCurrency = true ∧ x = value) ∨
   ∃ rfrom rto, rate_in (view s) (ToUpper fromCurrency) fromCurrency = Some rfrom ∧
     rate_in (view s) (ToUpper toCurrency) toCurrency = Some rto ∧ x = fmul (fdiv value rfrom) rto).
Proof using cast_string fresh_zero.
  intros Hs. unfold ToCurrency, ToEur. destruct (EqualFold fromCurrency toCurrency) eqn:He; [intros [= <- <-]; eauto|].
  destruct (getExchangeRateToEur _ _ _ toCurrency s) as [s1 [rto|err]] eqn:Hto; [|done].
  destruct (getExchangeRateToEur_durable _ _ _ _ Hs Hto) as (Hs1 & Hv1 & Hrto).
  destruct (getExchangeRateToEur _ _ _ fromCurrency s1) as [s2 [rfrom|err]] eqn:Hfrom; [|done].
  destruct (getExchangeRateToEur_durable _ _ _ _ Hs1 Hfrom) as (Hs2 & Hv2 & Hrfrom). intros [= <- <-].
  rewrite Hv1 in Hv2, Hrfrom. split; [done|]. right. by exists rfrom, rto.
Qed.

(** ** Rates of past days *)
Section Past.
Context (now : nat → Z) (Hnow : ∀ i, (now i ≤ now (S i))%Z).

Lemma rate_at_date_total k fuel i currency date s :
  (date ≤ now i + Z.of_nat k * oneDay - oneDay)%Z → k < fuel →
  ∃ s' r, getExchangeRateToEurAtDate fone EqualFold ToUpper fuel now i currency date s = Some (s', r).
Proof using Hnow.
  revert fuel i date s. induction k as [|k IH]; intros [|fuel] i date s Hd Hf; try lia; cbn [getExchangeRateToEurAtDate].
  all: destruct (EqualFold currency Eur); [by eexists _, _|].
  all: destruct (kv_get _ _ s) as [s1 [[x found] err]]; destruct found, err; try by eexists _, _.
  - rewrite bool_decide_false; [lia|]. by eexists _, _.
  - case_bool_decide; [|by eexists _, _]. apply IH; [|lia]. unfold add_days. pose proof (Hnow i). lia.
Qed.

(** A rate is looked up for the day, where it is recent for the day before, and where the
    day is in the future, which it can be within the clock skew, for the one before that:
    three look-ups are enough. *)
Lemma getExchangeRateToEurAtDate_total i currency date s :
  (date ≤ now i + maxClockSkew)%Z →
  ∃ s' r, getExchangeRateToEurAtDate fone EqualFold ToUpper 3 now (S i) currency date s = Some (s', r).
Proof using Hnow.
  intros Hd. apply (rate_at_date_total 2); [|lia]. pose proof (Hnow i).
  assert (maxClockSkew ≤ oneDay)%Z by done. lia.
Qed.

Lemma rate_at_date_found fuel i currency date s s' x :
  durable s → getExchangeRateToEurAtDate fone EqualFold ToUpper fuel now i currency date s = Some (s', Ok x) →
  durable s' ∧ view s' = view s ∧
  ∃ k, k < fuel ∧ rate_in (view s) (historicalRateKey (add_days date (- Z.of_nat k)) (ToUpper currency)) currency = Some x ∧
    ∀ j, j < k → rate_in (view s) (historicalRateKey (add_days date (- Z.of_nat j)) (ToUpper currency)) currency = None.
Proof using cast_string fresh_zero.
  unfold rate_in. revert i date s. induction fuel as [|fuel IH]; intros i date s Hs; [done|]. cbn [getExchangeRateToEurAtDate].
  assert (add_days date (- Z.of_nat 0) = date) as H0 by (unfold add_days; lia).
  destruct (EqualFold currency Eur) eqn:He.
  { intros [= <- <-]. split; [done|]. split; [done|]. exists 0. split; [lia|]. split; [done | lia]. }
  destruct (kv_get _ _ s) as [s1 [[r found] err]] eqn:Hg. destruct (get_durable _ cast_string _ _ _ _ _ _ _ fresh_zero Hs Hg) as (Hs1 & Hv & Hf & Hn).
  destruct found, err; try done.
  - intros [= <- <-]. split; [done|]. split; [done|]. exists 0. rewrite H0. split; [lia|]. split; [by apply Hf | lia].
  - case_bool_decide; [|done]. intros Hr. destruct (IH _ _ _ Hs1 Hr) as (Hs' & Hv' & k & Hk & Hx & Hj).
    rewrite Hv in Hv', Hx, Hj. split; [done|]. split; [done|]. exists (S k). split; [lia|].
    assert (∀ n, add_days (add_days date (-1)) (- Z.of_nat n) = add_days date (- Z.of_nat (S n))) as Hadd by (intros; unfold add_days; lia).
    rewrite Hadd in Hx. split; [done|]. intros [|j] Hjk; [rewrite H0; by apply Hn|]. rewrite -Hadd. apply Hj. lia.
Qed.

Lemma ToEurAtDate_total i value fromCurrency date s :
  ∃ s' r, ToEurAtDate fone fdiv EqualFold ToUpper 3 now i value fromCurrency date s = Some (s', r).
Proof using Hnow.
  unfold ToEurAtDate. case_bool_decide as Hd; [by eexists _, _|].
  destruct (getExchangeRateToEurAtDate_total i fromCurrency date s ltac:(lia)) as (s1 & r & ->). by destruct r; eexists _, _.
Qed.

(** A conversion at a date returns after at most three look-ups of each rate, and what it
    returns is the value converted by rates of that day or of the two days before it, each
    of the latest day that has one. *)
Theorem ToCurrencyAtDate_correct i j toCurrency value fromCurrency date s :
  durable s →
  ∃ s' r, ToCurrencyAtDate fone fmul fdiv EqualFold ToUpper 3 now i j toCurrency value fromCurrency date s = Some (s', r) ∧
    ∀ x, r = Ok x → view s' = view s ∧
      ((EqualFold fromCurrency toCurrency = true ∧ x = value) ∨
       (date ≤ now i + maxClockSkew)%Z ∧ ∃ k l rfrom rto, k < 3 ∧ l < 3 ∧ x = fmul (fdiv value rfrom) rto ∧
         rate_in (view s) (historicalRateKey (add_days date (- Z.of_nat k)) (ToUpper fromCurrency)) fromCurrency = Some rfrom ∧
         rate_in (view s) (historicalRateKey (add_days date (- Z.of_nat l)) (ToUpper toCurrency)) toCurrency = Some rto).
Proof using cast_string fresh_zero Hnow.
  intros Hs. unfold ToCurrencyAtDate. destruct (EqualFold fromCurrency toCurrency) eqn:He.
  { eexists _, _. split; [done|]. intros x [= <-]. eauto. }
  case_bool_decide as Hd; [by eexists _, _|].
  destruct (getExchangeRateToEurAtDate_total i toCurrency date s ltac:(lia)) as (s1 & r & Hto). rewrite Hto.
  destruct r as [rto|err]; [|by eexists _, _]. destruct (rate_at_date_found _ _ _ _ _ _ _ Hs Hto) as (Hs1 & Hv1 & l & Hl & Hrto & _).
  destruct (ToEurAtDate_total j value fromCurrency date s1) as (s2 & r & Hfrom). rewrite Hfrom.
  destruct r as [eur|err]; [|by eexists _, _]. eexists _, _. split; [done|]. intros x [= <-].
  unfold ToEurAtDate in Hfrom. case_bool_decide; [done|].
  destruct (getExchangeRateToEurAtDate _ _ _ 3 now (S j) fromCurrency date s1) as [[s3 [rfrom|err]]|] eqn:Hr; try done.
  injection Hfrom as -> <-. destruct (rate_at_date_found _ _ _ _ _ _ _ Hs1 Hr) as (_ & Hv2 & k & Hk & Hrfrom & _).
  rewrite Hv1 in Hv2, Hrfrom. split; [done|]. right. split; [lia|]. by exists k, l, rfrom, rto.
Qed.
End Past.
End ServiceLaws.
End Currency.

(** ** Samples: rates as integers, ten days of January *)
Module CurrencySamples.
Definition text_of_day (d : Z) : string := "2020-01-0" +:+ String (Ascii.ascii_of_nat (48 + Z.to_nat (d / oneDay))) EmptyString.
Definition in_sample (d : Z) : Prop := (0 ≤ d / oneDay < 10)%Z.

Lemma text_of_day_length d : in_sample d → String.length (text_of_day d) = 10.
Proof. done. Qed.

Lemma text_of_day_day d d' : in_sample d → in_sample d' → text_of_day d = text_of_day d' → (d / oneDay = d' / oneDay)%Z.
Proof.
  unfold in_sample, text_of_day. intros Hd Hd' [=Heq].
  apply (f_equal Ascii.nat_of_ascii) in Heq. rewrite !Ascii.nat_ascii_embedding in Heq; lia.
Qed.

Definition day (n : Z) : Z := (n * oneDay + 12 * 3600 * second)%Z.
Definition rates (l : list (string * Z)) : list Rate_ := map (λ cr, {| Currency := cr.1; Rate := cr.2 |}) l.

(** Two providers: the first has no rates for the first and the third day. *)
Definition first_provider (dates : list Z) : result go_error (gmap Z (list Rate_)) := Ok {[ day 2 := rates [("USD", 11%Z)] ]}.
Definition second_provider (dates : list Z) : result go_error (gmap Z (list Rate_)) :=
  Ok {[ day 2 := rates [("USD", 12%Z); ("CHF", 9%Z)]; day 3 := rates [("CHF", 8%Z)] ]}.

Abbreviation store := (mapStore Z).
Definition stored (n : Z) : store :=
  MapStore {[ "2020-01-00-USD" := 10%Z; HistoricalExchangeRateDateKey := (day n / second)%Z ]} false.

Definition update (now : Z) (s : store) : option (store * option error) :=
  EnsureHistoricalExchangeRates (O := string) 0%Z id id text_of_day canonical_order canonical_order 10 (day 0) now now now
    [first_provider; second_provider] s.

Lemma store_durable (s : store) : kv_durable (O := string) (T := Z) cast_string s.
Proof. done. Qed.

Lemma zero_fresh : kv_fresh (O := string) (T := Z) (St := store) cast_string 0%Z.
Proof. exact I. Qed.

Lemma sample_days d : d ∈ days_from (day 1) 3 → in_sample d.
Proof.
  intros Hd. change (days_from (day 1) 3) with [day 1; day 2; day 3] in Hd.
  assert (d = day 1 ∨ d = day 2 ∨ d = day 3) as [->| [->| ->]] by set_solver; by vm_compute.
Qed.

Lemma EnsureHistoricalExchangeRates_correct_witness :
  ∃ s', update (day 3) (stored 1) = Some (s', None) ∧ ms_entries s' !! historicalRateKey text_of_day (day 3) "USD" = Some 11%Z.
Proof.
  destruct (EnsureHistoricalExchangeRates_correct 0%Z id id text_of_day canonical_order canonical_order in_sample
    text_of_day_length text_of_day_day (cast_string (O := string)) (λ _, eq_refl) zero_fresh 10 (day 0) (day 3) (day 3) (day 3)
    [first_provider; second_provider] (stored 1) (stored 1) (day 1) (store_durable _) eq_refl ltac:(vm_compute; lia) sample_days) as (s' & err & Hu & Hs).
  exists s'. assert (err = None) as ->.
  { assert (snd <$> update (day 3) (stored 1) = Some None) as Hn by (vm_compute; reflexivity). unfold update in Hn. rewrite Hu in Hn. by injection Hn. }
  split; [exact Hu|]. destruct (Hs eq_refl) as (_ & Hd & _). by rewrite (Hd 2 (day 3) "USD" eq_refl).
Defined.

(** The rate of the first provider wins, a missing one comes from the second, and the last
    day takes the dollar from the day before. *)
Example update_fills : match update (day 3) (stored 1) with
  | Some (s, None) => (λ k, ms_entries s !! k) <$> ["2020-01-02-USD"; "2020-01-02-CHF"; "2020-01-03-USD"; "2020-01-03-CHF"]
  | _ => []
  end = [Some 11%Z; Some 9%Z; Some 11%Z; Some 8%Z].
Proof. vm_compute. reflexivity. Qed.

(** The first day of the range has no rate, and it gets none although the store has one for
    the day before it. *)
Example gap_before_the_range : match update (day 3) (stored 1) with
  | Some (s, None) => (λ k, ms_entries s !! k) <$> ["2020-01-00-USD"; "2020-01-01-USD"]
  | _ => []
  end = [Some 10%Z; None].
Proof. vm_compute. reflexivity. Qed.

Definition convert (date : Z) : option (store * result error Z) :=
  ToCurrencyAtDate (O := string) 0%Z text_of_day 1%Z Z.mul Z.div String.eqb id 3 (λ _, day 1) 0 0 "EUR" 100%Z "USD" date (stored 1).

Lemma ToCurrency_correct_witness :
  let s := MapStore {[ "USD" := 2%Z; "CHF" := 3%Z ]} false in
  kv_view (O := string) (T := Z) cast_string s = ms_entries s ∧
  ((String.eqb "USD" "CHF" = true ∧ 150%Z = 100%Z) ∨
   ∃ rfrom rto, rate_in 1%Z String.eqb (ms_entries s) "USD" "USD" = Some rfrom ∧
     rate_in 1%Z String.eqb (ms_entries s) "CHF" "CHF" = Some rto ∧ 150%Z = (100 / rfrom * rto)%Z).
Proof.
  intros s. pose proof (ToCurrency_correct 0%Z 1%Z Z.mul Z.div String.eqb id (cast_string (O := string)) (λ _, eq_refl) zero_fresh "CHF" 100%Z "USD" s s 150%Z
    (store_durable s) eq_refl) as Hc. exact Hc.
Defined.

Lemma ToCurrencyAtDate_correct_witness :
  ∃ s' r, convert (day 1) = Some (s', r) ∧
    ∀ x, r = Ok x → ms_entries s' = ms_entries (stored 1) ∧
      ((String.eqb "USD" "EUR" = true ∧ x = 100%Z) ∨
       (day 1 ≤ day 1 + maxClockSkew)%Z ∧ ∃ k l rfrom rto, k < 3 ∧ l < 3 ∧ x = (100 / rfrom * rto)%Z ∧
         rate_in 1%Z String.eqb (ms_entries (stored 1)) (historicalRateKey text_of_day (add_days (day 1) (- Z.of_nat k)) "USD") "USD" = Some rfrom ∧
         rate_in 1%Z String.eqb (ms_entries (stored 1)) (historicalRateKey text_of_day (add_days (day 1) (- Z.of_nat l)) "EUR") "EUR" = Some rto).
Proof.
  pose proof (ToCurrencyAtDate_correct 0%Z text_of_day 1%Z Z.mul Z.div String.eqb id (cast_string (O := string)) (λ _, eq_refl) zero_fresh
    (λ _, day 1) (λ _, Z.le_refl _) 0 0 "EUR" 100%Z "USD" (day 1) (stored 1) (store_durable _)) as Hc. exact Hc.
Defined.

(** A date some seconds ahead of the clock, which the clock skew allows, may be converted with
    the rate of two days before. *)
Example two_days_back : match ToCurrencyAtDate (O := string) 0%Z text_of_day 1%Z Z.mul Z.div String.eqb id 3 (λ _, day 2) 0 0 "EUR" 100%Z "USD"
    (day 2 + 30 * second)%Z (stored 1) with Some (_, r) => Some r | None => None end = Some (Ok 10%Z).
Proof. vm_compute. reflexivity. Qed.

Example registered_twice : RegisterProvider "ecb" 1 {[ "ecb" := 0 ]} = Err "a currency provider with the name ecb already exists".
Proof. reflexivity. Qed.
End CurrencySamples.
