(* ===== verification/Autoscale.v ===== *)
(** Scaling by a leader: the module that sets the number of tasks of a kinsumer to the
    number of shards (pkg/stream), and the metrics per runner that an auto scaler reads
    (pkg/metric/calculator, and the handlers for queues and for HTTP servers).

    The services that are asked, an election, ECS, Kinesis and CloudWatch, answer as they
    like; a round asks each of them at most once, so the answers are a record, and a round
    returns the calls that it made.  Values are float64 and a parameter.  The settings and
    the construction of the clients are left out. *)
From S2P Require Import Prelude Metric.

Open Scope string_scope.
Open Scope list_scope.
Open Scope nat_scope.

(** ** Errors of an election *)

(** [pkg/conc/leader_election_error.go:12-28] LeaderElectionFatalError, LeaderElectionTransientError and what wraps them *)
Inductive election_error :=
| LeaderElectionFatalError (err : election_error)
| LeaderElectionTransientError (err : election_error)
| WrappedError (msg : string) (err : election_error)
| OtherError (err : go_error).

(** [pkg/conc/leader_election_error.go:8-10] IsLeaderElectionFatalError *)
Fixpoint IsLeaderElectionFatalError (err : election_error) : bool :=
  match err with
  | LeaderElectionFatalError _ => true
  | LeaderElectionTransientError err | WrappedError _ err => IsLeaderElectionFatalError err
  | OtherError _ => false
  end.

(** [pkg/conc/leader_election_error.go:30-32] IsLeaderElectionTransientError *)
Fixpoint IsLeaderElectionTransientError (err : election_error) : bool :=
  match err with
  | LeaderElectionTransientError _ => true
  | LeaderElectionFatalError err | WrappedError _ err => IsLeaderElectionTransientError err
  | OtherError _ => false
  end.

(** Whether an instance acts as the leader: none does after a fatal error. *)
Definition acts_as_leader (answer : result election_error bool) : option bool :=
  match answer with
  | Ok isLeader => Some isLeader
  | Err err => if IsLeaderElectionFatalError err then None else Some true
  end.

(** ** The number of tasks of a kinsumer *)
Module Kinsumer.

(** How a function ends: with or without an error, or in a panic. *)
Inductive outcome := Done | Failed (err : go_error) | FailedElection (msg : string) (err : election_error) | Panicked (p : panic).

Inductive call := AskLeader | GetTaskCount | DescribeStream | SetTaskCount (n : Z) | ResignLeader.

#[export] Instance call_eq_dec : EqDecision call.
Proof. solve_decision. Defined.

(** What the services answer in a round: ECS with the desired counts of the services it
    found, Kinesis with the number of open shards if it has one. *)
Record answers := {
  leader : result election_error bool;
  services : result go_error (list Z);
  openShards : result go_error (option Z);
  updated : option go_error;
}.

(** [pkg/stream/kinsumer_autoscale_orchestrator_ecs.go:36-50] GetCurrentTaskCount of the orchestrator on ECS *)
Definition GetCurrentTaskCount (a : answers) : result outcome Z :=
  match services a with
  | Err err => Err (Failed (EWrap "failed to describe ecs service" err))
  | Ok (count :: _) => Ok count
  | Ok [] => Err (Panicked IndexOutOfRange)
  end.

(** [pkg/stream/kinsumer_autoscale_orchestrator_ecs.go:52-65] UpdateTaskCount of the orchestrator on ECS *)
Definition UpdateTaskCount (a : answers) : option go_error :=
  match updated a with
  | Some err => Some (EWrap "failed to update ecs service" err)
  | None => None
  end.

(** [pkg/stream/kinsumer_autoscale_module.go:204-217] getShardCount *)
Definition getShardCount (a : answers) : result go_error Z :=
  match openShards a with
  | Err err => Err (EWrap "failed to describe kinesis stream" err)
  | Ok n => Ok (default 0%Z n)
  end.

Definition wrap (msg : string) (o : outcome) : outcome :=
  match o with Failed err => Failed (EWrap msg err) | o => o end.

(** [pkg/stream/kinsumer_autoscale_module.go:175-199] autoscaleKinsumer: what a leader does, with whether it succeeded *)
Definition lead (a : answers) : list call * outcome * bool :=
  match GetCurrentTaskCount a with
  | Err o => ([GetTaskCount], wrap "failed to get current task count" o, false)
  | Ok currentTaskCount =>
      match getShardCount a with
      | Err err => ([GetTaskCount; DescribeStream], Failed (EWrap "failed to get shard count" err), false)
      | Ok shardCount =>
          if bool_decide (currentTaskCount = shardCount) then ([GetTaskCount; DescribeStream], Done, true)
          else match UpdateTaskCount a with
               | Some err => ([GetTaskCount; DescribeStream; SetTaskCount shardCount], Failed (EWrap "failed to update task count" err), false)
               | None => ([GetTaskCount; DescribeStream; SetTaskCount shardCount], Done, true)
               end
      end
  end.

(** [pkg/stream/kinsumer_autoscale_module.go:148-202] autoscaleKinsumer; the deferred function resigns, on a panic, too *)
Definition autoscaleKinsumer (a : answers) : list call * outcome :=
  let continue isLeader :=
    if negb isLeader then ([AskLeader], Done)
    else let '(calls, o, success) := lead a in
         (AskLeader :: calls ++ (if success then [] else [ResignLeader]), o) in
  match leader a with
  | Err err => if IsLeaderElectionFatalError err then ([AskLeader], FailedElection "can not decide on leader" err) else continue true
  | Ok isLeader => continue isLeader
  end.

(** What the loop waits for between two rounds. *)
Inductive event := Tick | ContextDone.

(** [pkg/stream/kinsumer_autoscale_module.go:128-146] Run, round by round; [None] while it still runs *)
Fixpoint Run (IsRequestCanceled : outcome → bool) (rounds : list (answers * event)) : list call * option outcome :=
  match rounds with
  | [] => ([], None)
  | (a, e) :: rounds =>
      match autoscaleKinsumer a with
      | (calls, Panicked p) => (calls, Some (Panicked p))
      | (calls, FailedElection msg err) => if IsRequestCanceled (FailedElection msg err) then (calls, Some Done) else (calls, Some (FailedElection msg err))
      | (calls, Failed err) => if IsRequestCanceled (Failed err) then (calls, Some Done) else (calls, Some (Failed (EWrap "failed to autoscale kinsumer" err)))
      | (calls, Done) =>
          match e with
          | ContextDone => (calls, Some Done)
          | Tick => let '(calls', o) := Run IsRequestCanceled rounds in (calls ++ calls', o)
          end
      end
  end.

(** The number of tasks after some calls, all of which ECS performs. *)
Definition tasks_after (calls : list call) (n : Z) : Z := fold_left (λ n c, match c with SetTaskCount m => m | _ => n end) calls n.

Lemma tasks_after_app l1 l2 n : tasks_after (l1 ++ l2) n = tasks_after l2 (tasks_after l1 n).
Proof. apply fold_left_app. Qed.

(** A round of a leader either ends well, with as many tasks as there are open shards and
    without a call that was not needed, and it stays the leader; or it fails, the last thing
    it does is to resign, and it has set the number of tasks, if at all, to the number of
    shards.  Who does not lead only asks whether it leads. *)
Theorem autoscaleKinsumer_correct a :
  let '(calls, o) := autoscaleKinsumer a in
  match acts_as_leader (leader a) with
  | None => calls = [AskLeader] ∧ ∃ err, leader a = Err err ∧ o = FailedElection "can not decide on leader" err
  | Some false => calls = [AskLeader] ∧ o = Done
  | Some true =>
      (∀ n, SetTaskCount n ∈ calls → ∃ m rest shards, services a = Ok (m :: rest) ∧ openShards a = Ok shards ∧ n = default 0%Z shards ∧ m ≠ n) ∧
      (o = Done → ResignLeader ∉ calls ∧
         ∃ n rest shards, services a = Ok (n :: rest) ∧ openShards a = Ok shards ∧ tasks_after calls n = default 0%Z shards) ∧
      (o ≠ Done → last calls = Some ResignLeader)
  end.
Proof.
  assert (match lead a with (calls, o, success) =>
    (∀ n, SetTaskCount n ∈ calls → ∃ m rest shards, services a = Ok (m :: rest) ∧ openShards a = Ok shards ∧ n = default 0%Z shards ∧ m ≠ n) ∧
    (o = Done ↔ success = true) ∧ ResignLeader ∉ calls ∧
    (success = true → ∃ n rest shards, services a = Ok (n :: rest) ∧ openShards a = Ok shards ∧ tasks_after calls n = default 0%Z shards) end) as Hlead.
  { unfold lead, GetCurrentTaskCount, getShardCount, UpdateTaskCount.
    destruct (services a) as [[|n rest]|err] eqn:Hs; [split_and!; set_solver| |split_and!; set_solver].
    destruct (openShards a) as [shards|err] eqn:Ho; [|split_and!; set_solver].
    case_bool_decide as Heq; [|destruct (updated a)]; cbn; split_and!; try done; try set_solver.
    all: try (intros; by exists n, rest, shards).
    all: intros m Hm; assert (m = default 0%Z shards) as -> by set_solver; by exists n, rest, shards. }
  unfold autoscaleKinsumer, acts_as_leader. destruct (lead a) as [[calls o] success]. destruct Hlead as (Hset & Ho & Hres & Hn).
  assert (∀ b, b = true →
    (∀ n, SetTaskCount n ∈ AskLeader :: calls ++ (if success then [] else [ResignLeader]) →
       ∃ m rest shards, services a = Ok (m :: rest) ∧ openShards a = Ok shards ∧ n = default 0%Z shards ∧ m ≠ n) ∧
    (o = Done → ResignLeader ∉ AskLeader :: calls ++ (if success then [] else [ResignLeader]) ∧
       ∃ n rest shards, services a = Ok (n :: rest) ∧ openShards a = Ok shards ∧
         tasks_after (AskLeader :: calls ++ (if success then [] else [ResignLeader])) n = default 0%Z shards) ∧
    (o ≠ Done → last (AskLeader :: calls ++ (if success then [] else [ResignLeader])) = Some ResignLeader)) as Hgoal.
  { intros b _. split_and!.
    - intros n [Hx|[Hin|Hin]%elem_of_app]%elem_of_cons; [done|by apply Hset|]. destruct success; set_solver.
    - intros ->%Ho. rewrite app_nil_r. split; [set_solver|]. by apply Hn.
    - intros Hne. destruct success; [by destruct Hne; apply Ho|]. by rewrite app_comm_cons last_snoc. }
  destruct (leader a) as [[]|err]; [by apply (Hgoal true) | done |].
  destruct (IsLeaderElectionFatalError err); [split; [done|by exists err] | by apply (Hgoal true)].
Qed.

(** Run returns at the latest when the context is done, and with an error only for a failed
    round that was not canceled. *)
Theorem Run_returns canceled rounds :
  (∃ a, (a, ContextDone) ∈ rounds) →
  ∃ calls o, Run canceled rounds = (calls, Some o) ∧
    (o ≠ Done → ∃ a e o', (a, e) ∈ rounds ∧ (autoscaleKinsumer a).2 = o' ∧ o' ≠ Done ∧ ((∃ p, o' = Panicked p) ∨ canceled o' = false)).
Proof.
  intros [a0 Hin]. induction rounds as [|[a e] rounds IH]; [set_solver|]. cbn [Run].
  destruct (autoscaleKinsumer a) as [calls o] eqn:Ha. destruct o as [|err|msg err|p].
  - destruct e; [|by eexists _, _]. destruct IH as (calls' & o & -> & Ho); [set_solver|]. eexists _, _. split; [done|].
    intros Hne. destruct (Ho Hne) as (a' & e & o' & Hin' & Ho'). exists a', e, o'. split; [set_solver | done].
  - destruct (canceled (Failed err)) eqn:Hc; eexists _, _; (split; [done|]); [done|]. intros _. exists a, e, (Failed err). rewrite Ha. set_solver.
  - destruct (canceled (FailedElection msg err)) eqn:Hc; eexists _, _; (split; [done|]); [done|]. intros _.
    exists a, e, (FailedElection msg err). rewrite Ha. set_solver.
  - eexists _, _. split; [done|]. intros _. exists a, e, (Panicked p). rewrite Ha. split_and!; try done; [set_solver|]. left. by exists p.
Qed.
End Kinsumer.

(** ** Metrics per runner *)
Section Calculator.
Context {F K : Type} (fzero fhundred : F) (fadd fmul fdiv : F → F → F) (flt feq : F → F → bool) (kzero : K).

Definition second : Z := 10 ^ 9.

(** A query of CloudWatch and its input. *)
Record MetricDataQuery := { Id : string; Namespace : string; Metric_ : string; Dimensions : list (string * string); Period_ : Z; Stat : string }.
Record GetMetricDataInput := { StartTime : Z; EndTime : Z; Queries : list MetricDataQuery; MaxDatapoints : option Z }.

(** What it answers: the results with their ids. *)
Definition cloudwatch : Type := GetMetricDataInput → result go_error (list (string * list F)).

Record CalculatorSettings := { Cluster : string; Service : string; CloudWatchNamespace : string }.

(** [pkg/metric/calculator/handler_per_runner_metric.go:21-27] PerRunnerMetricSettings *)
Record PerRunnerMetricSettings := { MaxIncreasePercent : F; MaxIncreasePeriod : Z; Period : Z; TargetValue : F }.

(** [pkg/metric/calculator/handler_per_runner_metric.go:17-19] getPerRunnerMetricName *)
Definition getPerRunnerMetricName (name : string) : string := "PerRunner" +:+ name.

(** The seconds of a period, as a 32-bit integer. *)
Definition period_seconds (period : Z) : Z := Z.quot period second.

(** [pkg/metric/calculator/handler_per_runner_metric.go:184-198] the first value of the first result *)
Definition first_value (out : result go_error (list (string * list F))) : result go_error F :=
  match out with
  | Err err => Err (EWrap "can not get metric" err)
  | Ok [] => Err (EMsg "no metric results")
  | Ok ((_, []) :: _) => Err (EMsg "no metric values")
  | Ok ((_, value :: _) :: _) => Ok value
  end.

(** [pkg/metric/calculator/handler_per_runner_metric.go:145-199] getEcsMetric, with two reads of the clock *)
Definition getEcsMetric (cw : cloudwatch) (c : CalculatorSettings) (now1 now2 : Z) (name stat : string) (period : Z) : result go_error F :=
  first_value (cw {|
    StartTime := now1 + -1 * period * 5; EndTime := now2 + -1 * period;
    Queries := [{| Id := "m1"; Namespace := "ECS/ContainerInsights"; Metric_ := name;
                   Dimensions := [("ClusterName", Cluster c); ("ServiceName", Service c)]; Period_ := period_seconds period; Stat := stat |}];
    MaxDatapoints := Some 1%Z |}).

(** [pkg/metric/calculator/handler_per_runner_metric.go:102-143] getPreviousMetric *)
Definition getPreviousMetric (cw : cloudwatch) (c : CalculatorSettings) (now1 now2 : Z) (name stat : string) (settings : PerRunnerMetricSettings) : result go_error F :=
  first_value (cw {|
    StartTime := now1 + -1 * (MaxIncreasePeriod settings + Period settings); EndTime := now2 + -1 * Period settings;
    Queries := [{| Id := "m1"; Namespace := CloudWatchNamespace c; Metric_ := name; Dimensions := []; Period_ := period_seconds (Period settings); Stat := stat |}];
    MaxDatapoints := Some 1%Z |}).

(** A datum as the handlers create it. *)
Definition datum (priority : Z) (name unit : string) (value : F) : Datum (F := F) (K := K) := {|
  Metric.Priority := priority; Timestamp := None; MetricName := name; Metric.Dimensions := ∅; Value := value; Unit := unit; Kind := kzero |}.

(** [pkg/metric/calculator/handler_per_runner_metric.go:68-83] the value per runner, from the current value, the runners and the previous value *)
Definition per_runner (settings : PerRunnerMetricSettings) (currentValue runnerCount currentPrm : F) : F :=
  let newPrm := fdiv currentValue runnerCount in
  let currentPrm := if feq currentPrm fzero then newPrm else currentPrm in
  let percent := fdiv (MaxIncreasePercent settings) fhundred in
  let maxPrm := if flt currentPrm (TargetValue settings) then fmul (TargetValue settings) percent else fmul currentPrm percent in
  if flt maxPrm newPrm then maxPrm else newPrm.

(** [pkg/metric/calculator/handler_per_runner_metric.go:50-100] CalculatePerRunnerMetrics, with four reads of the clock *)
Definition CalculatePerRunnerMetrics (cw : cloudwatch) (c : CalculatorSettings) (now : nat → Z) (name : string) (currentValue : F) (settings : PerRunnerMetricSettings) : result go_error (Datum (F := F) (K := K)) :=
  let metricName := getPerRunnerMetricName name in
  match getEcsMetric cw c (now 0) (now 1) "DesiredTaskCount" "Maximum" (Period settings) with
  | Err err => Err (EWrap "can not get runner count" err)
  | Ok runnerCount =>
      if feq runnerCount fzero then Err (EMsg "runner count is zero")
      else
        let currentPrm := match getPreviousMetric cw c (now 2) (now 3) metricName "Average" settings with Ok v => v | Err _ => fzero end in
        Ok (datum 2 metricName "UnitCountAverage" (per_runner settings currentValue runnerCount currentPrm))
  end.

(** ** The messages of queues *)

(** [pkg/stream/mpr_queue_names.go:17-44] getQueueNames, from the inputs with their types in the order of the visit *)
Fixpoint getQueueNames (readers : gmap string (string → result go_error string)) (inputs : list (string * string)) : result go_error (list string) :=
  match inputs with
  | [] => Ok []
  | (inputName, typ) :: inputs =>
      match readers !! typ with
      | None => getQueueNames readers inputs
      | Some reader =>
          match reader inputName with
          | Err err => Err (EWrap "can not get queue name for input" err)
          | Ok queueName => let! names := getQueueNames readers inputs in Ok (queueName :: names)
          end
      end
  end.

(** [pkg/stream/mpr_handler.go:182-189] the sum of the first values; a queue without a value counts nothing *)
Definition sum_queues (results : list (string * list F)) : F :=
  fold_left (λ value r, match r.2 with [] => value | v :: _ => fadd value v end) results fzero.

(** [pkg/stream/mpr_handler.go:144-192] mprHandler.getQueueMetrics; [id_of] is the text of an index *)
Definition getQueueMetrics (id_of : nat → string) (cw : cloudwatch) (now1 now2 : Z) (queueNames : list string) (settings : PerRunnerMetricSettings) (metric stat : string) : result go_error F :=
  match cw {|
    StartTime := now1 + -1 * Period settings * 5; EndTime := now2 + -1 * Period settings;
    Queries := imap (λ i queueName, {| Id := "m_" +:+ id_of i; Namespace := "AWS/SQS"; Metric_ := metric; Dimensions := [("QueueName", queueName)];
                                      Period_ := period_seconds (Period settings); Stat := stat |}) queueNames;
    MaxDatapoints := None |} with
  | Err err => Err (EWrap "can not get metric data" err)
  | Ok results => Ok (sum_queues results)
  end.

(** [pkg/stream/mpr_handler.go:132-142] mprHandler.getMessagesMetric *)
Definition getMessagesMetric (id_of : nat → string) (cw : cloudwatch) (now : nat → Z) (queueNames : list string) (settings : PerRunnerMetricSettings) : result go_error (F * F) :=
  match getQueueMetrics id_of cw (now 0) (now 1) queueNames settings "NumberOfMessagesSent" "Sum" with
  | Err err => Err (EWrap "can not get number of messages sent" err)
  | Ok sent =>
      match getQueueMetrics id_of cw (now 2) (now 3) queueNames settings "ApproximateNumberOfMessagesVisible" "Maximum" with
      | Err err => Err (EWrap "can not get number of messages visible" err)
      | Ok visible => Ok (sent, visible)
      end
  end.

(** [pkg/stream/mpr_handler.go:102-130] mprHandler.GetMetrics *)
Definition mpr_GetMetrics (id_of : nat → string) (cw : cloudwatch) (c : CalculatorSettings) (now : nat → Z) (queueNames : list string) (settings : PerRunnerMetricSettings) : result go_error (list (Datum (F := F) (K := K))) :=
  match getMessagesMetric id_of cw now queueNames settings with
  | Err err => Err (EWrap "can not get number of messages" err)
  | Ok (messagesSent, messagesAvailable) =>
      let ma := datum 1 "StreamMessagesAvailable" "Count" messagesAvailable in
      let ms := datum 1 "StreamMessagesSent" "Count" messagesSent in
      match CalculatePerRunnerMetrics cw c (λ i, now (4 + i)) "StreamMessages" (fadd messagesSent messagesAvailable) settings with
      | Err _ => Ok [ma; ms]
      | Ok rpr => Ok [rpr; ma; ms]
      end
  end.

(** ** The requests of HTTP servers *)

(** [pkg/httpserver/rpr_handler.go:156-168] getHttpServerNames, from the names in the order of the visit *)
Definition getHttpServerNames (httpServerMap : result go_error (list string)) : result go_error (list string) :=
  match httpServerMap with
  | Err err => Err (EWrap "can not get httpserver config" err)
  | Ok names => Ok (List.filter (λ s, negb (bool_decide (s = "health-check"))) names)
  end.

(** [pkg/httpserver/rpr_handler.go:145-151] the sum of the first values; a server without a value is an error *)
Fixpoint sum_servers (results : list (string * list F)) (requests : F) : result go_error F :=
  match results with
  | [] => Ok requests
  | (id, []) :: _ => Err (EMsg ("no metric values for " +:+ id))
  | (_, v :: _) :: results => sum_servers results (fadd requests v)
  end.

(** [pkg/httpserver/rpr_handler.go:100-154] rprHandler.getRequestsMetrics *)
Definition getRequestsMetrics (cw : cloudwatch) (c : CalculatorSettings) (now1 now2 : Z) (serverNames : list string) (settings : PerRunnerMetricSettings) : result go_error F :=
  match cw {|
    StartTime := now1 + -1 * Period settings * 5; EndTime := now2 + -1 * Period settings;
    Queries := map (λ serverName, {| Id := "m_" +:+ serverName; Namespace := CloudWatchNamespace c; Metric_ := "HttpRequestCount"; Dimensions := [("ServerName", serverName)];
                                    Period_ := period_seconds (Period settings); Stat := "Sum" |}) serverNames;
    MaxDatapoints := None |} with
  | Err err => Err (EWrap "can not get metric" err)
  | Ok [] => Err (EMsg "no metric results")
  | Ok results => sum_servers results fzero
  end.

(** [pkg/httpserver/rpr_handler.go:84-98] rprHandler.GetMetrics *)
Definition rpr_GetMetrics (cw : cloudwatch) (c : CalculatorSettings) (now : nat → Z) (serverNames : list string) (settings : PerRunnerMetricSettings) : result go_error (list (Datum (F := F) (K := K))) :=
  match getRequestsMetrics cw c (now 0) (now 1) serverNames settings with
  | Err err => Err (EWrap "can not get number of requests received" err)
  | Ok requests =>
      match CalculatePerRunnerMetrics cw c (λ i, now (2 + i)) "HttpServerRequests" requests settings with
      | Err err => Err (EWrap "can not calculate httpserver per runner metrics" err)
      | Ok rpr => Ok [rpr]
      end
  end.

(** ** The module *)

(** [pkg/metric/calculator/handlers.go:15-21] RegisterHandlerFactory, which panics for a name that is there *)
Definition RegisterHandlerFactory {H : Type} (name : string) (factory : H) (factories : gmap string H) : result string (gmap string H) :=
  if map_has factories name then Err ("factory with name " +:+ name +:+ " already exists") else Ok (<[name := factory]> factories).

(** [pkg/metric/calculator/calculator_module.go:33-43] the handlers of the factories, in the order of the visit; a handler can be disabled *)
Fixpoint create_handlers {H : Type} (factories : list (string * result go_error (option H))) (handlers : list (string * H)) : result go_error (list (string * H)) :=
  match factories with
  | [] => Ok handlers
  | (name, Err err) :: _ => Err (EWrap ("failed to initialize handler " +:+ name) err)
  | (name, Ok None) :: factories => create_handlers factories handlers
  | (name, Ok (Some handler)) :: factories => create_handlers factories (handlers ++ [(name, handler)])
  end.

(** [pkg/metric/calculator/calculator_module.go:18-53] CalculatorModuleFactory: the handlers of the module, if there is one *)
Definition CalculatorModuleFactory {H : Type} (settings : result go_error bool) (factories : list (string * result go_error (option H))) : result go_error (option (list (string * H))) :=
  match settings with
  | Err err => Err (EWrap "can not read calculator settings" err)
  | Ok false => Ok None
  | Ok true =>
      let! handlers := create_handlers factories [] in
      Ok (match handlers with [] => None | _ => Some handlers end)
  end.

(** [pkg/metric/calculator/calculator_module.go:150-158] the metrics of the handlers in the order of the visit; one that fails is left out *)
Definition all_metrics {M : Type} (handlers : list (result go_error (list M))) : list M :=
  fold_left (λ allMetrics metrics, match metrics with Ok metrics => allMetrics ++ metrics | Err _ => allMetrics end) handlers [].

(** [pkg/metric/calculator/calculator_module.go:130-163] calculateMetrics: what it writes, if it does *)
Definition calculateMetrics {M : Type} (isLeader : result election_error bool) (handlers : list (result go_error (list M))) : option (list M) * option election_error :=
  let continue isLeader := if negb isLeader then (None, None) else (Some (all_metrics handlers), None) in
  match isLeader with
  | Err err => if IsLeaderElectionFatalError err then (None, Some (WrappedError "can not decide on leader" err)) else continue true
  | Ok isLeader => continue isLeader
  end.

(** [pkg/metric/calculator/calculator_module.go:115-128] Run, round by round: what is written, and how it ends; [None] while it runs *)
Fixpoint calculator_Run {M : Type} (rounds : list (result election_error bool * list (result go_error (list M)) * Kinsumer.event)) : list (list M) * option (option election_error) :=
  match rounds with
  | [] => ([], None)
  | (isLeader, handlers, e) :: rounds =>
      match calculateMetrics isLeader handlers with
      | (_, Some err) => ([], Some (Some (WrappedError "can not write message per runner metric" err)))
      | (written, None) =>
          match e with
          | Kinsumer.ContextDone => (option_list written, Some None)
          | Kinsumer.Tick => let '(l, o) := calculator_Run rounds in (option_list written ++ l, o)
          end
      end
  end.

(** ** Theorems *)

Lemma all_metrics_concat {M} (handlers : list (result go_error (list M))) :
  all_metrics handlers = concat (map (λ r, match r with Ok l => l | Err _ => [] end) handlers).
Proof.
  unfold all_metrics. assert (∀ acc, fold_left (λ allMetrics metrics, match metrics with Ok metrics => allMetrics ++ metrics | Err _ => allMetrics end) handlers acc =
    acc ++ concat (map (λ r, match r with Ok l => l | Err _ => [] end) handlers)) as Hacc; [|apply Hacc].
  induction handlers as [|[l|err] handlers IH]; intros acc; cbn; [by rewrite app_nil_r | by rewrite IH app_assoc | apply IH].
Qed.

(** The leader, or who takes itself for it, writes the metrics of all handlers that do not
    fail, in their order and once; everybody else writes nothing, and a fatal error of the
    election is the only one. *)
Theorem calculateMetrics_correct {M} isLeader (handlers : list (result go_error (list M))) :
  let '(written, err) := calculateMetrics isLeader handlers in
  written = match acts_as_leader isLeader with
            | Some true => Some (concat (map (λ r, match r with Ok l => l | Err _ => [] end) handlers))
            | _ => None
            end ∧ (is_Some err ↔ acts_as_leader isLeader = None).
Proof.
  unfold calculateMetrics, acts_as_leader. destruct isLeader as [[]|err]; cbn; [by rewrite all_metrics_concat; split; [|split; [intros []|]] | by split; [|split; [intros []|]] |].
  destruct (IsLeaderElectionFatalError err); [by split; [|split; eauto] | by rewrite all_metrics_concat; split; [|split; [intros []|]]].
Qed.

(** What is written as the value per runner is the value divided by the number of runners,
    but never more than the allowed increase of what it was before, or of the target if
    that is higher: the auto scaler never sees more. *)
Theorem CalculatePerRunnerMetrics_bounded cw c now name currentValue settings d :
  (∀ x, flt x x = false) →
  CalculatePerRunnerMetrics cw c now name currentValue settings = Ok d →
  MetricName d = getPerRunnerMetricName name ∧
  ∃ runnerCount previous,
    getEcsMetric cw c (now 0) (now 1) "DesiredTaskCount" "Maximum" (Period settings) = Ok runnerCount ∧ feq runnerCount fzero = false ∧
    let limit := fmul (if flt previous (TargetValue settings) then TargetValue settings else previous) (fdiv (MaxIncreasePercent settings) fhundred) in
    flt limit (Value d) = false ∧
    (flt limit (fdiv currentValue runnerCount) = false → Value d = fdiv currentValue runnerCount) ∧
    (∀ v, getPreviousMetric cw c (now 2) (now 3) (getPerRunnerMetricName name) "Average" settings = Ok v → feq v fzero = false → previous = v).
Proof.
  intros Hirr. unfold CalculatePerRunnerMetrics. destruct (getEcsMetric _ _ _ _ _ _ _) as [runnerCount|] eqn:Hr; [|done].
  destruct (feq runnerCount fzero) eqn:Hz; [done|]. intros [= <-]. split; [done|]. exists runnerCount.
  destruct (getPreviousMetric _ _ _ _ _ _ _) as [v|]; cbn; unfold per_runner.
  - exists (if feq v fzero then fdiv currentValue runnerCount else v). destruct (feq v fzero) eqn:Hv; split_and!; try done.
    all: cbn; try (intros ? [= <-]; congruence).
    all: destruct (flt _ (TargetValue settings)); cbn; destruct (flt _ (fdiv currentValue runnerCount)) eqn:Hl; try done; by rewrite ?Hirr.
  - exists (if feq fzero fzero then fdiv currentValue runnerCount else fzero). split_and!; try done.
    all: destruct (flt _ (TargetValue settings)); cbn; destruct (flt _ (fdiv currentValue runnerCount)) eqn:Hl; try done; by rewrite ?Hirr.
Qed.

(** The messages of the queues are their number, whatever becomes of the metric per runner. *)
Theorem mpr_GetMetrics_correct id_of cw c now queueNames settings data :
  mpr_GetMetrics id_of cw c now queueNames settings = Ok data →
  ∃ sent available, getMessagesMetric id_of cw now queueNames settings = Ok (sent, available) ∧
    ∃ rpr, data = rpr ++ [datum 1 "StreamMessagesAvailable" "Count" available; datum 1 "StreamMessagesSent" "Count" sent] ∧
      match CalculatePerRunnerMetrics cw c (λ i, now (4 + i)) "StreamMessages" (fadd sent available) settings with
      | Ok d => rpr = [d] | Err _ => rpr = []
      end.
Proof.
  unfold mpr_GetMetrics. destruct (getMessagesMetric _ _ _ _ _) as [[sent available]|] eqn:Hm; [|done].
  intros Hd. exists sent, available. split; [done|]. destruct (CalculatePerRunnerMetrics _ _ _ _ _ _) as [d|]; injection Hd as <-; [by exists [d] | by exists []].
Qed.

(** getQueueNames asks the reader of each input that has one. *)
Lemma getQueueNames_length readers inputs names :
  getQueueNames readers inputs = Ok names → length names = length (List.filter (λ i, map_has readers i.2) inputs).
Proof.
  revert names. induction inputs as [|[inputName typ] inputs IH]; intros names; cbn; [by intros [= <-]|].
  unfold map_has. destruct (readers !! typ) as [reader|]; [|apply IH]. destruct (reader inputName); [|done].
  destruct (getQueueNames readers inputs) as [l|] eqn:Hl; [|done]. intros [= <-]. cbn. f_equal. by apply IH.
Qed.
End Calculator.

(** ** Samples: values as integers *)
Module AutoscaleSamples.
Definition settings : PerRunnerMetricSettings (F := Z) := {| MaxIncreasePercent := 200%Z; MaxIncreasePeriod := 300 * second; Period := 60 * second; TargetValue := 0%Z |}.
Definition app : CalculatorSettings := {| Cluster := "c"; Service := "s"; CloudWatchNamespace := "ns" |}.

(** Four runners, and ten messages per runner before. *)
Definition cw : cloudwatch (F := Z) := λ input,
  match Queries input with
  | q :: _ => if String.eqb (Metric_ q) "DesiredTaskCount" then Ok [("m1", [4%Z])] else Ok [("m1", [10%Z])]
  | [] => Ok []
  end.
(** Percents are scaled, since the values are integers. *)
Definition calculate (v : Z) := CalculatePerRunnerMetrics (K := unit) 0%Z 100%Z Z.mul Z.div Z.ltb Z.eqb tt cw app (λ _, 0%Z) "StreamMessages" v settings.

Lemma CalculatePerRunnerMetrics_bounded_witness :
  ∃ d, calculate 400 = Ok d ∧ MetricName d = "PerRunnerStreamMessages" ∧ Value d = 20%Z ∧
    ∃ runnerCount previous,
      getEcsMetric cw app 0 0 "DesiredTaskCount" "Maximum" (Period settings) = Ok runnerCount ∧
      (Z.mul (if Z.ltb previous 0 then 0%Z else previous) (200 / 100) <? Value d)%Z = false.
Proof.
  eexists. split; [vm_compute; reflexivity|]. split; [done|]. split; [done|].
  destruct (CalculatePerRunnerMetrics_bounded (K := unit) 0%Z 100%Z Z.mul Z.div Z.ltb Z.eqb tt cw app (λ _, 0%Z) "StreamMessages" 400%Z settings
    _ Z.ltb_irrefl eq_refl) as (_ & runnerCount & previous & Hr & _ & Hl & _).
  exists runnerCount, previous. split; [exact Hr | exact Hl].
Defined.
Lemma mpr_GetMetrics_correct_witness :
  ∃ sent available, getMessagesMetric (F := Z) 0%Z Z.add (λ _, "0") cw (λ _, 0%Z) ["q"] settings = Ok (sent, available).
Proof.
  destruct (mpr_GetMetrics_correct (K := unit) 0%Z 100%Z Z.add Z.mul Z.div Z.ltb Z.eqb tt (λ _, "0") cw app (λ _, 0%Z) ["q"] settings _ eq_refl) as (sent & available & H & _).
  by exists sent, available.
Defined.

Definition round : Kinsumer.answers := {| Kinsumer.leader := Err (WrappedError "timeout" (LeaderElectionTransientError (OtherError (EMsg "throttled"))));
  Kinsumer.services := Ok [2%Z]; Kinsumer.openShards := Ok (Some 5%Z); Kinsumer.updated := None |}.
Example scales_without_election :
  Kinsumer.autoscaleKinsumer round = ([Kinsumer.AskLeader; Kinsumer.GetTaskCount; Kinsumer.DescribeStream; Kinsumer.SetTaskCount 5], Kinsumer.Done).
Proof. reflexivity. Qed.

Lemma Run_returns_witness : ∃ calls o,
  Kinsumer.Run (λ _, false) [(round, Kinsumer.Tick); (round, Kinsumer.ContextDone)] = (calls, Some o).
Proof.
  destruct (Kinsumer.Run_returns (λ _, false) [(round, Kinsumer.Tick); (round, Kinsumer.ContextDone)]) as (calls & o & H & _); [|by exists calls, o].
  exists round. right. left.
Defined.

(** A service that ECS does not know: a panic, but not before the leader has resigned. *)
Example unknown_service_panics :
  Kinsumer.autoscaleKinsumer {| Kinsumer.leader := Ok true; Kinsumer.services := Ok []; Kinsumer.openShards := Ok None; Kinsumer.updated := None |} =
  ([Kinsumer.AskLeader; Kinsumer.GetTaskCount; Kinsumer.ResignLeader], Kinsumer.Panicked IndexOutOfRange).
Proof. reflexivity. Qed.
End AutoscaleSamples.
