(* ===== verification/Cli.v ===== *)
(** pkg/cli: command lines, their arguments and flags, the command they select, and the help.

    Texts are bytes: the code reads runes, but every byte of a rune that is not ASCII is as
    little a letter, a digit or a space as the rune is.  The options of the application are a
    parameter; what is written goes to a writer that does not fail.  The routers are trees:
    the maps of groups and commands are lists in the order of registration, which is also
    the order of their visit; another order can only choose another of several errors. *)
From Stdlib Require Import Ascii.
From S2P Require Import Prelude Texts.

Open Scope char_scope.
Open Scope list_scope.
Open Scope nat_scope.

(** ** Arguments and flags *)

(** [pkg/cli/input.go:15-18] InputFlag *)
Record InputFlag := { if_Name : text; if_Value : text }.
(** [pkg/cli/input.go:9-12] Input *)
Record Input := { Arguments : list text; in_Flags : list InputFlag }.

Inductive error :=
| InvalidName (kind value : text)
| CmdNotFound (cmd helpPath : list text)
| UnsupportedKind (kind flag : text)
| UnknownCommand (args : list text).

Definition add_arguments (args : list text) (i : Input) : Input := {| Arguments := Arguments i ++ args; in_Flags := in_Flags i |}.

(** The class of a character in a name. *)
Definition name_char (r : ascii) : bool :=
  in_range 97 122 r || in_range 65 90 r || in_range 48 57 r || bool_decide (r = "_").

(** [pkg/cli/input.go:156-170] the loop of isValidInputName *)
Fixpoint valid_name_from (name : text) (hasNonHyphen : bool) : bool :=
  match name with
  | [] => hasNonHyphen
  | r :: name =>
      if name_char r then valid_name_from name true
      else if bool_decide (r = "-") then valid_name_from name hasNonHyphen
      else false
  end.

(** [pkg/cli/input.go:150-173] isValidInputName *)
Definition isValidInputName (name : text) : bool :=
  match name with [] => false | _ => valid_name_from name false end.

(** [pkg/cli/input.go:133-144] addFlag *)
Definition addFlag (name value : text) (i : Input) : result error Input :=
  if negb (isValidInputName name) then Err (InvalidName (str "flag") name)
  else Ok {| Arguments := Arguments i; in_Flags := in_Flags i ++ [{| if_Name := name; if_Value := value |}] |}.

(** [pkg/cli/input.go:146-148] isFlagValue *)
Definition isFlagValue (arg : text) : bool := negb (HasPrefix_text arg ["-"]) && negb (bool_decide (arg = ["-"; "-"])).

(** strings.Index of "=", with the texts before and after it. *)
Fixpoint cut_equals (s : text) : option (text * text) :=
  match s with
  | [] => None
  | a :: s => if bool_decide (a = "=") then Some ([], s) else match cut_equals s with Some (l, r) => Some (a :: l, r) | None => None end
  end.

(** [pkg/cli/input.go:113-125] addFlagWithOptionalValue: with whether the next argument was taken as the value *)
Definition addFlagWithOptionalValue (rest : list text) (flag : text) (i : Input) : result error (Input * bool) :=
  match rest with
  | next :: _ => if isFlagValue next then (let! i := addFlag flag next i in Ok (i, true)) else (let! i := addFlag flag (str "true") i in Ok (i, false))
  | [] => let! i := addFlag flag (str "true") i in Ok (i, false)
  end.

(** [pkg/cli/input.go:60-78] parseLongFlag of a text after its hyphens *)
Definition parseLongFlag (flag : text) (rest : list text) (i : Input) : result error (Input * bool) :=
  match cut_equals flag with
  | Some (name, value) => let! i := addFlag name value i in Ok (i, false)
  | None =>
      match rest with
      | next :: _ => if isFlagValue next then (let! i := addFlag flag next i in Ok (i, true)) else (let! i := addFlag flag (str "true") i in Ok (i, false))
      | [] => let! i := addFlag flag (str "true") i in Ok (i, false)
      end
  end.

(** [pkg/cli/input.go:104-108] the flags of a text of letters *)
Fixpoint add_short_flags (flag : text) (i : Input) : result error Input :=
  match flag with
  | [] => Ok i
  | shortFlag :: flag => let! i := addFlag [shortFlag] (str "true") i in add_short_flags flag i
  end.

(** [pkg/cli/input.go:80-111] parseShortFlags of a text after its hyphen *)
Definition parseShortFlags (flag : text) (rest : list text) (i : Input) : result error (Input * bool) :=
  match cut_equals flag with
  | Some (name, value) => let! i := addFlag name value i in Ok (i, false)
  | None =>
      let isCombinedShortFlags := forallb (in_range 97 122) flag in
      if negb isCombinedShortFlags then addFlagWithOptionalValue rest flag i
      else if bool_decide (length flag = 1) then addFlagWithOptionalValue rest flag i
      else let! i := add_short_flags flag i in Ok (i, false)
  end.

(** [pkg/cli/input.go:32-55] the loop of NewInputWithArgs *)
Fixpoint parse_args (args : list text) (input : Input) : result error Input :=
  match args with
  | [] => Ok input
  | arg :: rest =>
      if bool_decide (arg = ["-"; "-"]) then Ok (add_arguments rest input)
      else if negb (HasPrefix_text arg ["-"]) then parse_args rest (add_arguments [arg] input)
      else if bool_decide (arg = ["-"]) then Err (InvalidName (str "argument") arg)
      else
        match (if HasPrefix_text arg ["-"; "-"] then parseLongFlag (drop 2 arg) rest input else parseShortFlags (drop 1 arg) rest input) with
        | Err err => Err err
        | Ok (input, false) => parse_args rest input
        | Ok (input, true) => match rest with [] => Ok input | _ :: rest => parse_args rest input end
        end
  end.

(** [pkg/cli/input.go:26-58] NewInputWithArgs *)
Definition NewInputWithArgs (args : list text) : result error Input := parse_args args {| Arguments := []; in_Flags := [] |}.

(** [pkg/cli/help.go:426-434] hasHelpFlag *)
Definition hasHelpFlag (input : Input) : bool :=
  existsb (λ flag, bool_decide (if_Name flag = str "help") || bool_decide (if_Name flag = ["h"])) (in_Flags input).

(** ** Routers *)
Section Router.
Context {A : Type}.

(** [pkg/cli/types.go:111-119] Flag *)
Record Flag := { Short : text; Long : text; Kind : text; CfgKey : text; Default : text; f_Description : text; f_AppOptions : list A }.
(** [pkg/cli/types.go:143-146] CmdExample *)
Record CmdExample := { e_Description : text; e_Args : text }.
(** [pkg/cli/types.go:79-86] Cmd *)
Record Cmd_ := { c_Name : text; c_Description : text; c_Arguments : text; Examples : list CmdExample; c_Flags : list Flag; c_AppOptions : list A }.

(** [pkg/cli/types.go:14-22] Router; Group is lines 69-76 *)
Inductive Router := MkRouter (groups : list (text * Group_)) (cmds : list (text * Cmd_)) (defaultCmd : Cmd_)
with Group_ := MkGroup (child : Router) (Name Description : text) (Flags : list Flag) (AppOptions : list A).

Definition groups (r : Router) : list (text * Group_) := let 'MkRouter g _ _ := r in g.
Definition cmds (r : Router) : list (text * Cmd_) := let 'MkRouter _ c _ := r in c.
Definition defaultCmd (r : Router) : Cmd_ := let 'MkRouter _ _ d := r in d.
Definition child (g : Group_) : Router := let 'MkGroup c _ _ _ _ := g in c.
Definition g_Name (g : Group_) : text := let 'MkGroup _ n _ _ _ := g in n.
Definition g_Description (g : Group_) : text := let 'MkGroup _ _ d _ _ := g in d.
Definition g_Flags (g : Group_) : list Flag := let 'MkGroup _ _ _ f _ := g in f.
Definition g_AppOptions (g : Group_) : list A := let 'MkGroup _ _ _ _ o := g in o.

Definition empty_cmd : Cmd_ := {| c_Name := []; c_Description := []; c_Arguments := []; Examples := []; c_Flags := []; c_AppOptions := [] |}.

(** A map with the order of its insertions: an entry that is replaced keeps its place. *)
Fixpoint set_entry {V} (k : text) (v : V) (l : list (text * V)) : list (text * V) :=
  match l with
  | [] => [(k, v)]
  | (k', v') :: l => if bool_decide (k' = k) then (k, v) :: l else (k', v') :: set_entry k v l
  end.
Fixpoint get_entry {V} (k : text) (l : list (text * V)) : option V :=
  match l with
  | [] => None
  | (k', v) :: l => if bool_decide (k' = k) then Some v else get_entry k l
  end.

(** [pkg/cli/types.go:25-31] NewRouter *)
Definition NewRouter : Router := MkRouter [] [] empty_cmd.
(** [pkg/cli/types.go:51-59] Cmd *)
Definition Cmd (cmd : Cmd_) (r : Router) : Router := MkRouter (groups r) (set_entry (c_Name cmd) cmd (cmds r)) (defaultCmd r).
(** [pkg/cli/types.go:34-48] Group *)
Definition Group (g : Group_) (subCommands : list Cmd_) (r : Router) : Router :=
  let child := fold_left (λ c cmd, Cmd cmd c) subCommands NewRouter in
  MkRouter (set_entry (g_Name g) (MkGroup child (g_Name g) (g_Description g) (g_Flags g) (g_AppOptions g)) (groups r)) (cmds r) (defaultCmd r).
(** [pkg/cli/types.go:62-66] DefaultCmd *)
Definition DefaultCmd (cmd : Cmd_) (r : Router) : Router := MkRouter (groups r) (cmds r) cmd.

(** [pkg/cli/blueprint.go:78-100] validateRouter *)
Fixpoint validateRouter (router : Router) : option error :=
  let 'MkRouter groups cmds defaultCmd := router in
  if negb (bool_decide (c_Name defaultCmd = [])) && negb (isValidInputName (c_Name defaultCmd)) then Some (InvalidName (str "command") (c_Name defaultCmd))
  else
    match (fix go (groups : list (text * Group_)) : option error :=
      match groups with
      | [] => None
      | (_, MkGroup child name _ _ _) :: groups =>
          if negb (isValidInputName name) then Some (InvalidName (str "group") name)
          else match validateRouter child with Some err => Some err | None => go groups end
      end) groups with
    | Some err => Some err
    | None => (fix go (cmds : list (text * Cmd_)) : option error :=
        match cmds with
        | [] => None
        | (_, cmd) :: cmds => if negb (isValidInputName (c_Name cmd)) then Some (InvalidName (str "command") (c_Name cmd)) else go cmds
        end) cmds
    end.

(** ** Blueprints *)
Inductive flag_value := VString (s : text) | VList (l : list text).

(** [pkg/cli/blueprint.go:18-23] BlueprintFlag *)
Record BlueprintFlag := { Key : text; CustomKey : text; Value : flag_value; bf_AppOptions : list A }.
(** [pkg/cli/blueprint.go:10-15] Blueprint *)
Record Blueprint := { bp_Cmd : list text; bp_Args : list text; bp_Flags : list BlueprintFlag; bp_AppOptions : list A }.

(** [pkg/cli/blueprint.go:150-152] flagMatches *)
Definition flagMatches (flag : Flag) (inputFlag : InputFlag) : bool :=
  bool_decide (if_Name inputFlag = Short flag) || bool_decide (if_Name inputFlag = Long flag).

(** [pkg/cli/blueprint.go:155-172] the parser of lists *)
Definition parse_list (input : list InputFlag) (flag : Flag) : option flag_value :=
  let values := fold_left (λ values inputFlag, if flagMatches flag inputFlag then values ++ [if_Value inputFlag] else values) input [] in
  if bool_decide (0 < length values) then Some (VList values)
  else if negb (bool_decide (Default flag = [])) then Some (VList [Default flag])
  else None.

(** [pkg/cli/blueprint.go:173-192] the parser of strings *)
Definition parse_string (input : list InputFlag) (flag : Flag) : option flag_value :=
  let '(val, ok) := fold_left (λ '(val, ok) inputFlag, if flagMatches flag inputFlag then (if_Value inputFlag, true) else (val, ok)) input ([], false) in
  let val := if ok then val else Default flag in
  if bool_decide (val = []) then None else Some (VString val).

(** [pkg/cli/blueprint.go:131-148] flagParse *)
Definition flagParse (input : list InputFlag) (flag : Flag) : result error (option BlueprintFlag) :=
  let found val := match val with
    | None => None
    | Some val => Some {| Key := Long flag; CustomKey := CfgKey flag; Value := val; bf_AppOptions := f_AppOptions flag |}
    end in
  if bool_decide (Kind flag = str "list") then Ok (found (parse_list input flag))
  else if bool_decide (Kind flag = str "string") then Ok (found (parse_string input flag))
  else Err (UnsupportedKind (Kind flag) (Long flag)).

Definition with_kind (flag : Flag) : Flag := {| Short := Short flag; Long := Long flag;
  Kind := if bool_decide (Kind flag = []) then str "string" else Kind flag;
  CfgKey := CfgKey flag; Default := Default flag; f_Description := f_Description flag; f_AppOptions := f_AppOptions flag |}.

(** [pkg/cli/blueprint.go:107-121] the flags of a blueprint *)
Fixpoint blue_flags (flags : list Flag) (input : list InputFlag) : result error (list BlueprintFlag) :=
  match flags with
  | [] => Ok []
  | flag :: flags =>
      let! bf := flagParse input (with_kind flag) in
      let! rest := blue_flags flags input in
      Ok (match bf with Some bf => bf :: rest | None => rest end)
  end.

(** [pkg/cli/blueprint.go:106-129] newBlueprint *)
Definition newBlueprint (cmdArgs args : list text) (flags : list Flag) (appOptions : list A) (input : Input) : result error Blueprint :=
  let! blueFlags := blue_flags flags (in_Flags input) in
  Ok {| bp_Cmd := cmdArgs; bp_Args := args; bp_Flags := blueFlags; bp_AppOptions := appOptions |}.

(** [pkg/cli/blueprint.go:39-75] the loop of NewBlueprint and what follows it *)
Fixpoint resolve (arguments : list text) (router : Router) (cmdArgs : list text) (flags : list Flag) (appOptions : list A) (input : Input) : result error Blueprint :=
  match arguments with
  | [] => newBlueprint cmdArgs [] (flags ++ c_Flags (defaultCmd router)) (appOptions ++ c_AppOptions (defaultCmd router)) input
  | arg :: rest =>
      match get_entry arg (groups router) with
      | Some group => resolve rest (child group) (cmdArgs ++ [arg]) (flags ++ g_Flags group) (appOptions ++ g_AppOptions group) input
      | None =>
          match get_entry arg (cmds router) with
          | Some cmd => newBlueprint (cmdArgs ++ [arg]) rest (flags ++ c_Flags cmd) (appOptions ++ c_AppOptions cmd) input
          | None => Err (CmdNotFound (cmdArgs ++ [arg]) cmdArgs)
          end
      end
  end.

(** [pkg/cli/blueprint.go:26-76] NewBlueprint *)
Definition NewBlueprint (router : Router) (input : Input) (globalFlags : list Flag) : result error Blueprint :=
  match validateRouter router with
  | Some err => Err err
  | None => resolve (Arguments input) router [] globalFlags [] input
  end.

(** What an application is started with: its own options and settings. *)
Inductive app_option := AppOption (o : A) | Setting (key : text) (value : flag_value).

(** [pkg/cli/cli.go:97-110] the options of Run *)
Definition run_options (appOptions : list A) (blueprint : Blueprint) : list app_option :=
  map AppOption (appOptions ++ bp_AppOptions blueprint) ++
  [Setting (str "cli.cmd") (VList (bp_Cmd blueprint)); Setting (str "cli.args") (VList (bp_Args blueprint))] ++
  (bp_Flags blueprint ≫= λ flag,
     map AppOption (bf_AppOptions flag) ++
     [Setting (str "cli.flags." ++ ReplaceAll (Key flag) ["-"] ["_"]) (Value flag)] ++
     (if bool_decide (CustomKey flag = []) then [] else [Setting (CustomKey flag) (Value flag)])).

(** ** Help *)

(** Newline, space, and some words of the help. *)
Definition nl : text := ["010"].

(** strings.Join. *)
Definition Join (parts : list text) (sep : text) : text :=
  match parts with [] => [] | p :: parts => p ++ (parts ≫= λ p, sep ++ p) end.

(** strings.Fields. *)
Fixpoint fields_from (s word : text) : list text :=
  match s with
  | [] => match word with [] => [] | _ => [word] end
  | a :: s => if is_space a then match word with [] => fields_from s [] | _ => word :: fields_from s [] end else fields_from s (word ++ [a])
  end.
Definition Fields (s : text) : list text := fields_from s [].

(** [pkg/cli/help.go:255-270] the loop of wrapLine *)
Fixpoint wrap_words (available : nat) (words : list text) (current : text) : list text :=
  match words with
  | [] => [current]
  | word :: words =>
      if length current + 1 + length word <=? available then wrap_words available words (current ++ [" "] ++ word)
      else current :: wrap_words available words word
  end.

(** [pkg/cli/help.go:236-271] wrapLine; the length of a line can be negative *)
Definition wrapLine (line prefix : text) (lineLength : Z) : list text :=
  if bool_decide (line = []) then [[]]
  else if bool_decide (lineLength ≤ 0)%Z || bool_decide (Z.of_nat (length prefix + length line) ≤ lineLength)%Z then [line]
  else
    let available := (lineLength - Z.of_nat (length prefix))%Z in
    if bool_decide (available ≤ 0)%Z then [line]
    else match Fields line with
         | [] => [[]]
         | word :: words => wrap_words (Z.to_nat available) words word
         end.

(** [pkg/cli/help.go:200-212] writeWrappedLines *)
Definition writeWrappedLines (indent t : text) (lineLength : Z) : text :=
  Split t "010" ≫= λ line, wrapLine line indent lineLength ≫= λ wrappedLine, indent ++ wrappedLine ++ nl.

(** [pkg/cli/help.go:190-198] writeIndentedLines *)
Definition writeIndentedLines (indent t : text) : text := Split t "010" ≫= λ line, indent ++ line ++ nl.

(** [pkg/cli/help.go:113-123] writeSection *)
Definition writeSection (t : text) (lineLength : Z) : text :=
  if bool_decide (t = []) then [] else nl ++ writeWrappedLines (str "  ") t lineLength.

(** [pkg/cli/help.go:335-344] appendCommandArguments *)
Definition appendCommandArguments (usageParts : list text) (arguments : text) : list text :=
  if bool_decide (arguments = str "single") then usageParts ++ [str "<arg>"]
  else if bool_decide (arguments = str "multiple") then usageParts ++ [str "<args...>"]
  else usageParts.

(** [pkg/cli/help.go:125-140] writeUsage *)
Definition writeUsage (name : text) (path : list text) (cmd : option Cmd_) : text :=
  let usageParts := name :: path in
  let usageParts := match cmd with
    | None => usageParts ++ [str "<command>"; str "[--flags]"]
    | Some cmd => if bool_decide (0 < length (c_Flags cmd)) then usageParts ++ [str "[--flags]"] else usageParts
    end in
  let usageParts := match cmd with Some cmd => appendCommandArguments usageParts (c_Arguments cmd) | None => usageParts end in
  nl ++ str "  USAGE" ++ nl ++ nl ++ str "    " ++ Join usageParts [" "] ++ nl.

(** A number as fmt writes it. *)
Context (decimal : nat → text).

(** [pkg/cli/help.go:160-188] writeExample *)
Definition writeExample (index : nat) (example : CmdExample) (lineLength : Z) : text :=
  (if 0 <? index then nl else []) ++ str "    Example " ++ decimal (index + 1) ++ str ":" ++ nl ++ nl ++
  (if bool_decide (e_Description example = []) then [] else writeWrappedLines (str "    ") (e_Description example) lineLength ++ nl) ++
  (if bool_decide (e_Args example = []) then [] else writeIndentedLines (str "        ") (e_Args example)).

(** [pkg/cli/help.go:142-158] writeExamples *)
Definition writeExamples (cmd : option Cmd_) (lineLength : Z) : text :=
  match cmd with
  | None => []
  | Some cmd =>
      match Examples cmd with
      | [] => []
      | examples => nl ++ str "  EXAMPLES" ++ nl ++ nl ++ concat (imap (λ i example, writeExample i example lineLength) examples)
      end
  end.

(** [pkg/cli/help.go:20-23] helpEntry *)
Record helpEntry := { usage : text; description : text }.

(** [pkg/cli/help.go:415-424] maxHelpEntryWidth *)
Definition maxHelpEntryWidth (entries : list helpEntry) : nat :=
  fold_left (λ width entry, if width <? length (usage entry) then length (usage entry) else width) entries 0.

(** strings.TrimRight of spaces. *)
Fixpoint drop_blanks (s : text) : text := match s with a :: s' => if bool_decide (a = " ") then drop_blanks s' else s | [] => [] end.
Definition TrimRight (s : text) : text := reverse (drop_blanks (reverse s)).

(** [pkg/cli/help.go:214-234] writeHelpEntry *)
Definition writeHelpEntry (entry : helpEntry) (usageWidth : nat) (lineLength : Z) : text :=
  let prefix := str "    " ++ usage entry ++ replicate (usageWidth - length (usage entry)) " " ++ str "  " in
  match wrapLine (description entry) prefix lineLength with
  | [] => TrimRight prefix ++ nl
  | first :: lines => prefix ++ first ++ nl ++ (lines ≫= λ line, replicate (length prefix) " " ++ line ++ nl)
  end.

(** The order of bytes. *)
Fixpoint text_leb (s t : text) : bool :=
  match s, t with
  | [], _ => true
  | _ :: _, [] => false
  | a :: s, b :: t => let m := nat_of_ascii a in let n := nat_of_ascii b in if m <? n then true else if n <? m then false else text_leb s t
  end.
Definition text_le (s t : text) : Prop := text_leb s t = true.
Definition entry_le (e1 e2 : helpEntry) : Prop := text_le (usage e1) (usage e2).
#[local] Instance text_le_dec s t : Decision (text_le s t).
Proof. unfold text_le. apply _. Defined.
#[local] Instance entry_le_dec e1 e2 : Decision (entry_le e1 e2).
Proof. unfold entry_le. apply _. Defined.

(** [pkg/cli/help.go:323-333] commandUsage *)
Definition commandUsage (cmd : Cmd_) : text :=
  let usageParts := [c_Name cmd] in
  let usageParts := if bool_decide (0 < length (c_Flags cmd)) then usageParts ++ [str "[--flags]"] else usageParts in
  Join (appendCommandArguments usageParts (c_Arguments cmd)) [" "].

(** [pkg/cli/help.go:294-321] helpEntries; a name in the lists of names has an entry in the maps *)
Definition helpEntries (router : Router) : list helpEntry :=
  let group_entries := merge_sort text_le (groups router).*1 ≫= λ name,
    match get_entry name (groups router) with
    | Some group => [{| usage := g_Name group ++ str " <command> [--flags]"; description := g_Description group |}]
    | None => []
    end in
  let cmd_entries := merge_sort text_le (cmds router).*1 ≫= λ name,
    match get_entry name (cmds router) with
    | Some cmd => [{| usage := commandUsage cmd; description := c_Description cmd |}]
    | None => []
    end in
  merge_sort entry_le (group_entries ++ cmd_entries).

(** [pkg/cli/help.go:273-292] writeCommands *)
Definition writeCommands (router : Router) (lineLength : Z) : text :=
  match helpEntries router with
  | [] => []
  | entries => nl ++ str "  COMMANDS" ++ nl ++ nl ++ (entries ≫= λ entry, writeHelpEntry entry (maxHelpEntryWidth entries) lineLength)
  end.

(** [pkg/cli/help.go:384-394] flagDescription *)
Definition flagDescription (flag : Flag) : text :=
  if bool_decide (Default flag = []) then f_Description flag
  else if bool_decide (f_Description flag = []) then str "(default: " ++ Default flag ++ str ")"
  else f_Description flag ++ str " (default: " ++ Default flag ++ str ")".

(** [pkg/cli/help.go:396-413] flagUsage *)
Definition flagUsage (flag : Flag) : text :=
  let parts :=
    if negb (bool_decide (Short flag = [])) && negb (bool_decide (Long flag = [])) then [str "-" ++ Short flag ++ str ", --" ++ Long flag]
    else if negb (bool_decide (Short flag = [])) then [str "-" ++ Short flag]
    else if negb (bool_decide (Long flag = [])) then [str "--" ++ Long flag]
    else [] in
  let parts := if bool_decide (Kind flag = str "list") && negb (bool_decide (Long flag = [])) then parts ++ [str "[--" ++ Long flag ++ str " ...]"] else parts in
  Join parts [" "].

(** [pkg/cli/help.go:367-382] flagEntries *)
Definition flagEntries (flags : list Flag) : list helpEntry :=
  {| usage := str "-h, --help"; description := str "Show help for this command." |} ::
  map (λ flag, {| usage := flagUsage flag; description := flagDescription flag |}) flags.

(** [pkg/cli/help.go:346-365] writeFlags *)
Definition writeFlags (flags : list Flag) (lineLength : Z) : text :=
  let entries := flagEntries flags in
  nl ++ str "  FLAGS" ++ nl ++ nl ++ (entries ≫= λ entry, writeHelpEntry entry (maxHelpEntryWidth entries) lineLength).

(** [pkg/cli/help.go:25-31] helpContext *)
Record helpContext := { h_router : Router; h_path : list text; h_cmd : option Cmd_; h_description : text; h_flags : list Flag }.

(** [pkg/cli/help.go:80-110] the loop of findHelpContext *)
Fixpoint find_context (args : list text) (router : Router) (path : list text) (description : text) (flags : list Flag) : option helpContext :=
  match args with
  | [] => Some {| h_router := router; h_path := path; h_cmd := None; h_description := description; h_flags := flags |}
  | arg :: args =>
      match get_entry arg (groups router) with
      | Some group => find_context args (child group) (path ++ [arg]) (g_Description group) (flags ++ g_Flags group)
      | None =>
          match get_entry arg (cmds router) with
          | Some cmd => Some {| h_router := router; h_path := path ++ [arg]; h_cmd := Some cmd; h_description := c_Description cmd; h_flags := flags ++ c_Flags cmd |}
          | None => None
          end
      end
  end.

(** A command line program: its router, name, description, line length and flags. *)
Record Cli := { cli_Router : Router; name : text; cli_description : text; helpLineLength : Z; cli_flags : list Flag }.

(** [pkg/cli/help.go:74-111] findHelpContext *)
Definition findHelpContext (c : Cli) (args : list text) : option helpContext := find_context args (cli_Router c) [] (cli_description c) [].

(** [pkg/cli/help.go:66-72] normalizedHelpLineLength *)
Definition normalizedHelpLineLength (c : Cli) : Z := if bool_decide (helpLineLength c = 0%Z) then 120%Z else helpLineLength c.

(** [pkg/cli/help.go:33-64] writeHelp *)
Definition writeHelp (c : Cli) (args : list text) : result error text :=
  match findHelpContext c args with
  | None => Err (UnknownCommand args)
  | Some ctx =>
      let lineLength := normalizedHelpLineLength c in
      Ok (writeSection (h_description ctx) lineLength ++
          writeUsage (name c) (h_path ctx) (h_cmd ctx) ++
          (match h_cmd ctx with None => writeCommands (h_router ctx) lineLength | Some _ => [] end) ++
          writeFlags (cli_flags c ++ h_flags ctx) lineLength ++
          writeExamples (h_cmd ctx) lineLength)
  end.

(** What Run does: the texts it writes to the standard output and the standard error with
    the code it exits with, or the options of the application that it starts. *)
Inductive run_outcome :=
| Exit (stdout : list text) (err : option error) (code : Z)
| Start (options : list app_option) (helpPath : list text).

(** [pkg/cli/cli.go:62-113] Run, with the arguments of the process and the options of the program applied to it *)
Definition Run (c : Cli) (appOptions : list A) (args : list text) : run_outcome :=
  match NewInputWithArgs args with
  | Err err => Exit [] (Some err) 1
  | Ok input =>
      if hasHelpFlag input then
        match writeHelp c (Arguments input) with
        | Err err => Exit [] (Some err) 1
        | Ok help => Exit [help] None 0
        end
      else
        match NewBlueprint (cli_Router c) input (cli_flags c) with
        | Err (CmdNotFound cmd helpPath) =>
            Exit (match writeHelp c helpPath with Ok help => [help] | Err _ => [] end) (Some (CmdNotFound cmd helpPath)) 1
        | Err err => Exit [] (Some err) 1
        | Ok blueprint => Start (run_options appOptions blueprint) (bp_Cmd blueprint)
        end
  end.
End Router.

(** ** The grammar of command lines *)

(** The words of a command line: an argument, a flag with its value after "=" or in the next
    word, a flag without a value, and letters that are a flag each. *)
Inductive token :=
| TArg (a : text)
| TLongEq (n v : text)
| TLong (n v : text)
| TLongSwitch (n : text)
| TShortEq (n v : text)
| TShort (n v : text)
| TShortSwitch (n : text)
| TLetters (ls : text).

Definition words (t : token) : list text :=
  match t with
  | TArg a => [a]
  | TLongEq n v => ["-" :: "-" :: n ++ "=" :: v]
  | TLong n v => ["-" :: "-" :: n; v]
  | TLongSwitch n => ["-" :: "-" :: n]
  | TShortEq n v => ["-" :: n ++ "=" :: v]
  | TShort n v => ["-" :: n; v]
  | TShortSwitch n => ["-" :: n]
  | TLetters ls => ["-" :: ls]
  end.

Definition flag_of (n v : text) : InputFlag := {| if_Name := n; if_Value := v |}.
Definition token_arguments (t : token) : list text := match t with TArg a => [a] | _ => [] end.
Definition token_flags (t : token) : list InputFlag :=
  match t with
  | TArg _ => []
  | TLongEq n v | TLong n v | TShortEq n v | TShort n v => [flag_of n v]
  | TLongSwitch n | TShortSwitch n => [flag_of n (str "true")]
  | TLetters ls => map (λ l, flag_of [l] (str "true")) ls
  end.

Definition lower_letters (n : text) : bool := forallb (in_range 97 122) n.
Definition starts_with_hyphen (n : text) : bool := HasPrefix_text n ["-"].

(** A name after one hyphen: it is not a word of several letters, which would be a flag each. *)
Definition short_name (n : text) : Prop := isValidInputName n = true ∧ starts_with_hyphen n = false ∧ (lower_letters n = false ∨ length n = 1).

Definition token_ok (t : token) : Prop :=
  match t with
  | TArg a => starts_with_hyphen a = false
  | TLongEq n v => isValidInputName n = true
  | TLong n v => isValidInputName n = true ∧ starts_with_hyphen v = false
  | TLongSwitch n => isValidInputName n = true
  | TShortEq n v => isValidInputName n = true ∧ starts_with_hyphen n = false
  | TShort n v => short_name n ∧ starts_with_hyphen v = false
  | TShortSwitch n => short_name n
  | TLetters ls => lower_letters ls = true ∧ 2 ≤ length ls
  end.

(** A flag that has no value is not before a word that would be its value. *)
Definition takes_next (t : token) : bool := match t with TLongSwitch _ | TShortSwitch _ => true | _ => false end.
Definition no_value_follows (rest : list text) : Prop := match rest with [] => True | w :: _ => starts_with_hyphen w = true end.

(** The words after the tokens: nothing, or "--" and arguments. *)
Definition tail_words (tail : option (list text)) : list text := match tail with None => [] | Some rest => ["-"; "-"] :: rest end.

Fixpoint tokens_ok (ts : list token) (tail : option (list text)) : Prop :=
  match ts with
  | [] => True
  | t :: ts => token_ok t ∧ (takes_next t = true → no_value_follows ((ts ≫= words) ++ tail_words tail)) ∧ tokens_ok ts tail
  end.

Definition denotes (ts : list token) (tail : option (list text)) : Input :=
  {| Arguments := (ts ≫= token_arguments) ++ default [] tail; in_Flags := ts ≫= token_flags |}.

Lemma addFlag_ok n v i : isValidInputName n = true → addFlag n v i = Ok {| Arguments := Arguments i; in_Flags := in_Flags i ++ [flag_of n v] |}.
Proof. unfold addFlag. by intros ->. Qed.

Lemma addFlag_inv n v i i' : addFlag n v i = Ok i' →
  isValidInputName n = true ∧ i' = {| Arguments := Arguments i; in_Flags := in_Flags i ++ [flag_of n v] |}.
Proof. unfold addFlag. destruct (isValidInputName n); [by intros [= <-] | done]. Qed.

Lemma name_char_equals : name_char "=" = false.
Proof. done. Qed.

Lemma valid_name_no_equals n b : valid_name_from n b = true → "=" ∉ n.
Proof.
  revert b. induction n as [|a n IH]; intros b; cbn; [set_solver|].
  intros H [<-|Hin]%elem_of_cons; [done|]. destruct (name_char a); [by apply IH in H|]. destruct (bool_decide _); [by apply IH in H | done].
Qed.

Lemma isValid_no_equals n : isValidInputName n = true → "=" ∉ n.
Proof. destruct n; [done|]. apply valid_name_no_equals. Qed.

Lemma cut_equals_app n v : "=" ∉ n → cut_equals (n ++ "=" :: v) = Some (n, v).
Proof.
  induction n as [|a n IH]; intros Hn; [done|]. cbn. rewrite bool_decide_false; [set_solver|]. rewrite IH //. set_solver.
Qed.

Lemma cut_equals_none n : "=" ∉ n → cut_equals n = None.
Proof.
  induction n as [|a n IH]; intros Hn; [done|]. cbn. rewrite bool_decide_false; [set_solver|]. rewrite IH //. set_solver.
Qed.

Lemma cut_equals_inv s l r : cut_equals s = Some (l, r) → s = l ++ "=" :: r.
Proof.
  revert l. induction s as [|a s IH]; intros l; [done|]. cbn. case_bool_decide as Ha; [by intros [= <- <-]; subst|].
  destruct (cut_equals s) as [[l' r']|]; [|done]. intros [= <- <-]. cbn. f_equal. by apply IH.
Qed.

Lemma letter_name l : in_range 97 122 l = true → isValidInputName [l] = true.
Proof. intros Hl. cbn. unfold name_char. by rewrite Hl. Qed.

Lemma letters_spec ls : lower_letters ls = true ↔ Forall (λ l, in_range 97 122 l = true) ls.
Proof. unfold lower_letters. rewrite forallb_forall Forall_forall. by setoid_rewrite list_elem_of_In. Qed.

Lemma add_short_flags_ok ls i : lower_letters ls = true →
  add_short_flags ls i = Ok {| Arguments := Arguments i; in_Flags := in_Flags i ++ map (λ l, flag_of [l] (str "true")) ls |}.
Proof.
  revert i. induction ls as [|l ls IH]; intros i; cbn [add_short_flags lower_letters forallb map]; [destruct i; by rewrite app_nil_r|].
  intros [Hl Hls]%andb_true_iff. rewrite addFlag_ok; [by apply letter_name|]. cbn [res_bind]. rewrite IH //. cbn [Arguments in_Flags]. by rewrite -app_assoc.
Qed.

Lemma HasPrefix_nil w : HasPrefix_text w [] = true.
Proof. by destruct w. Qed.

Lemma starts_with_hyphen_cons a w : starts_with_hyphen (a :: w) = bool_decide (a = "-").
Proof.
  unfold starts_with_hyphen. cbn. rewrite HasPrefix_nil andb_true_r. apply bool_decide_ext. split; intros; congruence.
Qed.

Lemma isFlagValue_spec w : isFlagValue w = negb (starts_with_hyphen w).
Proof.
  unfold isFlagValue. fold (starts_with_hyphen w). destruct w as [|a w]; [done|]. rewrite starts_with_hyphen_cons.
  case_bool_decide as Ha; cbn; [done|]. rewrite bool_decide_false //. by intros [= -> _].
Qed.

Definition after (i j : Input) : Input := {| Arguments := Arguments i ++ Arguments j; in_Flags := in_Flags i ++ in_Flags j |}.

(** How the words of a flag are parsed, whatever comes after them. *)
Lemma optional_value_step rest n i :
  isValidInputName n = true →
  (∀ v, starts_with_hyphen v = false → rest = v :: tail rest → addFlagWithOptionalValue rest n i = Ok ({| Arguments := Arguments i; in_Flags := in_Flags i ++ [flag_of n v] |}, true)) ∧
  (no_value_follows rest → addFlagWithOptionalValue rest n i = Ok ({| Arguments := Arguments i; in_Flags := in_Flags i ++ [flag_of n (str "true")] |}, false)).
Proof.
  intros Hn. unfold addFlagWithOptionalValue, no_value_follows. destruct rest as [|w rest]; [by split; [intros v _ [=] | rewrite addFlag_ok]|].
  rewrite isFlagValue_spec. split; [intros v Hv [= ->]; by rewrite Hv /= addFlag_ok | intros ->; by rewrite /= addFlag_ok].
Qed.

Lemma parseLongFlag_step rest n i : isValidInputName n = true → parseLongFlag n rest i = addFlagWithOptionalValue rest n i.
Proof. intros Hn. unfold parseLongFlag. by rewrite cut_equals_none; [apply isValid_no_equals|]. Qed.

Lemma parseShortFlags_step rest n i : short_name n → parseShortFlags n rest i = addFlagWithOptionalValue rest n i.
Proof.
  intros (Hn & _ & Hs). unfold parseShortFlags. rewrite cut_equals_none; [by apply isValid_no_equals|].
  unfold lower_letters in Hs. destruct (forallb _ n); [|done]. by destruct Hs as [|Hl]; [|rewrite bool_decide_true].
Qed.

Lemma second_hyphen x : HasPrefix_text ("-" :: x) ["-"; "-"] = starts_with_hyphen x.
Proof. reflexivity. Qed.

(** What the loop does after the flags of a word. *)
Definition continue (r : result error (Input * bool)) (rest : list text) : result error Input :=
  match r with
  | Err err => Err err
  | Ok (i, false) => parse_args rest i
  | Ok (i, true) => match rest with [] => Ok i | _ :: rest => parse_args rest i end
  end.

Lemma parse_argument a rest i : starts_with_hyphen a = false → parse_args (a :: rest) i = parse_args rest (add_arguments [a] i).
Proof. intros Ha. cbn [parse_args]. fold (starts_with_hyphen a). rewrite Ha bool_decide_false //. by intros ->. Qed.

Lemma parse_long f rest i : f ≠ [] → parse_args (("-" :: "-" :: f) :: rest) i = continue (parseLongFlag f rest i) rest.
Proof.
  intros Hf. cbn [parse_args]. fold (starts_with_hyphen ("-" :: "-" :: f)). rewrite starts_with_hyphen_cons bool_decide_false; [by intros [= ->]|].
  rewrite bool_decide_true // bool_decide_false // second_hyphen starts_with_hyphen_cons bool_decide_true //.
Qed.

Lemma parse_short f rest i : f ≠ [] → starts_with_hyphen f = false → parse_args (("-" :: f) :: rest) i = continue (parseShortFlags f rest i) rest.
Proof.
  intros Hf Hh. destruct f as [|a f]; [done|]. rewrite starts_with_hyphen_cons in Hh. apply bool_decide_eq_false in Hh.
  cbn [parse_args]. fold (starts_with_hyphen ("-" :: a :: f)). rewrite starts_with_hyphen_cons bool_decide_false; [by intros [= -> ->]|].
  rewrite bool_decide_true // bool_decide_false // second_hyphen starts_with_hyphen_cons bool_decide_false //.
Qed.

Lemma valid_nonempty n : isValidInputName n = true → n ≠ [].
Proof. by destruct n. Qed.

Lemma parse_token t rest i :
  token_ok t → (takes_next t = true → no_value_follows rest) →
  parse_args (words t ++ rest) i = parse_args rest (after i {| Arguments := token_arguments t; in_Flags := token_flags t |}).
Proof.
  unfold after. destruct t; cbn [token_ok takes_next words token_arguments token_flags Arguments in_Flags app]; intros Hok Hnext.
  - rewrite parse_argument //. unfold add_arguments. by rewrite app_nil_r.
  - rewrite parse_long; [by destruct n|]. unfold parseLongFlag. rewrite cut_equals_app; [by apply isValid_no_equals|].
    rewrite addFlag_ok //. by rewrite /= app_nil_r.
  - destruct Hok as [Hn Hv]. rewrite parse_long; [by apply valid_nonempty|].
    rewrite parseLongFlag_step // (proj1 (optional_value_step (v :: rest) n i Hn) v Hv eq_refl). by rewrite app_nil_r.
  - rewrite parse_long; [by apply valid_nonempty|].
    rewrite parseLongFlag_step // (proj2 (optional_value_step rest n i Hok) (Hnext eq_refl)). by rewrite app_nil_r.
  - destruct Hok as [Hn Hh]. destruct n as [|a n]; [done|]. rewrite starts_with_hyphen_cons in Hh.
    rewrite parse_short //; [by rewrite starts_with_hyphen_cons|]. unfold parseShortFlags. change ((a :: n) ++ "=" :: v) with ((a :: n) ++ "=" :: v).
    rewrite cut_equals_app; [by apply isValid_no_equals|]. rewrite addFlag_ok //. by rewrite /= app_nil_r.
  - destruct Hok as [Hs Hv]. destruct Hs as (Hn & Hh & Hl). rewrite parse_short //; [by apply valid_nonempty|].
    rewrite parseShortFlags_step // (proj1 (optional_value_step (v :: rest) n i Hn) v Hv eq_refl). by rewrite app_nil_r.
  - destruct Hok as (Hn & Hh & Hl). rewrite parse_short //; [by apply valid_nonempty|].
    rewrite parseShortFlags_step // (proj2 (optional_value_step rest n i Hn) (Hnext eq_refl)). by rewrite app_nil_r.
  - destruct Hok as [Hl Hlen]. pose proof Hl as Hls. apply letters_spec in Hls.
    destruct ls as [|l [|l2 ls]]; [cbn in Hlen; lia..|]. inversion Hls as [|? ? Hl1 Hls']; subst.
    assert (∀ a, in_range 97 122 a = true → a ≠ "=" ∧ a ≠ "-") as Hchar by (intros a Ha; split; intros ->; done).
    rewrite parse_short //; [rewrite starts_with_hyphen_cons; apply bool_decide_eq_false, Hchar, Hl1|].
    unfold parseShortFlags. rewrite cut_equals_none.
    { intros Hin. pose proof (proj1 (Forall_forall _ _) Hls _ Hin) as Hb. done. }
    unfold lower_letters in Hl. rewrite Hl. cbn [negb]. rewrite bool_decide_false; [cbn; lia|].
    rewrite add_short_flags_ok //. cbn [res_bind continue]. by rewrite app_nil_r.
Qed.

Lemma parse_tokens ts tail i : tokens_ok ts tail →
  parse_args ((ts ≫= words) ++ tail_words tail) i = Ok (after i (denotes ts tail)).
Proof.
  revert i. induction ts as [|t ts IH]; intros i Hok.
  - unfold after, denotes. destruct tail as [rest|]; cbn; [|destruct i; by rewrite !app_nil_r].
    unfold add_arguments. by rewrite app_nil_r.
  - destruct Hok as (Ht & Hnext & Hts). cbn [mbind list_bind]. rewrite -app_assoc parse_token //. rewrite IH //.
    unfold after, denotes. cbn. by rewrite !app_assoc.
Qed.

(** ** Every command line that is accepted is of the grammar *)

Lemma optional_value_inv n rest i i' b :
  addFlagWithOptionalValue rest n i = Ok (i', b) →
  isValidInputName n = true ∧
  ((b = true ∧ ∃ v rest', rest = v :: rest' ∧ starts_with_hyphen v = false ∧ i' = after i {| Arguments := []; in_Flags := [flag_of n v] |}) ∨
   (b = false ∧ no_value_follows rest ∧ i' = after i {| Arguments := []; in_Flags := [flag_of n (str "true")] |})).
Proof.
  unfold addFlagWithOptionalValue, after. cbn. rewrite app_nil_r. destruct rest as [|w rest].
  - destruct (addFlag _ _ _) eqn:Ha; [|done]. apply addFlag_inv in Ha as [Hn ->]. intros [= <- <-]. split; [done|]. by right.
  - rewrite isFlagValue_spec. destruct (starts_with_hyphen w) eqn:Hw; cbn.
    all: destruct (addFlag _ _ _) eqn:Ha; [|done]; apply addFlag_inv in Ha as [Hn ->]; intros [= <- <-]; (split; [done|]).
    + by right.
    + left. split; [done|]. by exists w, rest.
Qed.

(** A parsed word and its value are a token. *)
Lemma parse_token_inv f rest i i' b (long : bool) :
  (if long then f ≠ [] ∧ parseLongFlag f rest i = Ok (i', b)
   else f ≠ [] ∧ starts_with_hyphen f = false ∧ parseShortFlags f rest i = Ok (i', b)) →
  ∃ t, token_ok t ∧ (takes_next t = true → no_value_follows rest) ∧
    i' = after i {| Arguments := token_arguments t; in_Flags := token_flags t |} ∧
    (if b then ∃ v rest', rest = v :: rest' ∧ words t = [(if long then "-" :: "-" :: f else "-" :: f); v]
     else words t = [if long then "-" :: "-" :: f else "-" :: f]).
Proof.
  destruct long.
  - intros [Hf Hp]. destruct (cut_equals f) as [[n v]|] eqn:Hc.
    + unfold parseLongFlag in Hp. rewrite Hc in Hp. destruct (addFlag n v i) eqn:Ha; [|done]. apply addFlag_inv in Ha as [Hn ->].
      injection Hp as <- <-. apply cut_equals_inv in Hc as ->. exists (TLongEq n v). unfold after. cbn. by rewrite app_nil_r.
    + assert (addFlagWithOptionalValue rest f i = Ok (i', b)) as Ho by (unfold parseLongFlag in Hp; by rewrite Hc in Hp).
      apply optional_value_inv in Ho as (Hn & [(-> & v & rest' & -> & Hv & ->)|(-> & Hfo & ->)]).
      * exists (TLong f v). split; [done|]. split; [done|]. split; [done|]. by exists v, rest'.
      * by exists (TLongSwitch f).
  - intros (Hf & Hh & Hp). unfold parseShortFlags in Hp. destruct (cut_equals f) as [[n v]|] eqn:Hc.
    + destruct (addFlag n v i) eqn:Ha; [|done]. apply addFlag_inv in Ha as [Hn ->]. injection Hp as <- <-. apply cut_equals_inv in Hc as ->.
      assert (starts_with_hyphen n = false) as Hhn by (destruct n as [|a n]; [done|]; rewrite starts_with_hyphen_cons; by rewrite -app_comm_cons starts_with_hyphen_cons in Hh).
      exists (TShortEq n v). unfold after. cbn. by rewrite app_nil_r.
    + assert (∀ Hs : lower_letters f = false ∨ length f = 1, addFlagWithOptionalValue rest f i = Ok (i', b) → ∃ t, token_ok t ∧ (takes_next t = true → no_value_follows rest) ∧
        i' = after i {| Arguments := token_arguments t; in_Flags := token_flags t |} ∧
        (if b then ∃ v rest', rest = v :: rest' ∧ words t = ["-" :: f; v] else words t = ["-" :: f])) as Hopt.
      { intros Hs Ho. apply optional_value_inv in Ho as (Hn & [(-> & v & rest' & -> & Hv & ->)|(-> & Hfo & ->)]).
        - exists (TShort f v). split; [by split|]. split; [done|]. split; [done|]. by exists v, rest'.
        - by exists (TShortSwitch f). }
      unfold lower_letters in Hopt. destruct (forallb (in_range 97 122) f) eqn:Hl; cbn in Hp; [|by apply Hopt; [left|]].
      case_bool_decide as H1; [by apply Hopt; [right|]|]. rewrite add_short_flags_ok // in Hp. cbn in Hp. injection Hp as <- <-.
      exists (TLetters f). unfold after. cbn. rewrite app_nil_r. split_and!; try done. destruct f as [|? [|]]; cbn in *; [done|done|lia].
Qed.

Lemma after_assoc i j k : after i (after j k) = after (after i j) k.
Proof. unfold after. cbn. by rewrite !app_assoc. Qed.

Lemma denotes_cons t ts tail : denotes (t :: ts) tail = after {| Arguments := token_arguments t; in_Flags := token_flags t |} (denotes ts tail).
Proof. unfold denotes, after. cbn. by rewrite app_assoc. Qed.

Lemma parse_args_inv k args i input :
  length args ≤ k → parse_args args i = Ok input →
  ∃ ts tail, tokens_ok ts tail ∧ args = (ts ≫= words) ++ tail_words tail ∧ input = after i (denotes ts tail).
Proof.
  revert args i. induction k as [|k IH]; intros [|arg rest] i Hk Hp; [|cbn in Hk; lia| |].
  1,2: exists [], None; injection Hp as <-; unfold after; cbn; rewrite !app_nil_r; by destruct i.
  destruct (base.decide (arg = ["-"; "-"])) as [->|Hne].
  { cbn in Hp. injection Hp as <-. exists [], (Some rest). unfold after, add_arguments. cbn. by rewrite app_nil_r. }
  cbn in Hk. destruct (starts_with_hyphen arg) eqn:Hh.
  2: { rewrite parse_argument // in Hp. destruct (IH rest _ ltac:(lia) Hp) as (ts & tail & Hok & -> & ->).
       exists (TArg arg :: ts), tail. rewrite denotes_cons after_assoc. unfold after, add_arguments. cbn. by rewrite !app_nil_r. }
  destruct arg as [|a arg]; [done|]. rewrite starts_with_hyphen_cons in Hh. apply bool_decide_eq_true in Hh as ->.
  assert (∀ w f (long : bool), w = (if long then "-" :: "-" :: f else "-" :: f) → f ≠ [] → (long = false → starts_with_hyphen f = false) →
    continue (if long then parseLongFlag f rest i else parseShortFlags f rest i) rest = Ok input →
    ∃ ts tail, tokens_ok ts tail ∧ w :: rest = (ts ≫= words) ++ tail_words tail ∧ input = after i (denotes ts tail)) as Hflag.
  { intros w f long -> Hf Hs Hc. destruct (if long then parseLongFlag f rest i else parseShortFlags f rest i) as [[i' b]|] eqn:Hr; [|done].
    destruct (parse_token_inv f rest i i' b long) as (t & Ht & Hnext & -> & Hw).
    { destruct long; [by split|]. split; [done|]. split; [by apply Hs | done]. }
    destruct b.
    - destruct Hw as (v & rest' & -> & Hw). cbn in Hc. destruct (IH rest' _ ltac:(cbn in Hk; lia) Hc) as (ts & tail & Hok & -> & ->).
      exists (t :: ts), tail. rewrite denotes_cons after_assoc. split; [|split; [|done]].
      + cbn. split; [done|]. split; [|done]. destruct t; try done; destruct long; done.
      + cbn. by rewrite -app_assoc Hw.
    - cbn in Hc. destruct (IH rest _ ltac:(lia) Hc) as (ts & tail & Hok & -> & ->).
      exists (t :: ts), tail. rewrite denotes_cons after_assoc. split; [|split; [|done]].
      + cbn. by split_and!.
      + cbn. by rewrite -app_assoc Hw. }
  destruct arg as [|b arg]; [done|]. destruct (base.decide (b = "-")) as [->|Hb].
  - destruct arg as [|c arg]; [done|]. rewrite parse_long // in Hp. by apply (Hflag _ (c :: arg) true).
  - rewrite parse_short // in Hp; [by rewrite starts_with_hyphen_cons bool_decide_false|].
    apply (Hflag _ (b :: arg) false); try done. intros _. by rewrite starts_with_hyphen_cons bool_decide_false.
Qed.

(** A command line is accepted exactly if it is a sequence of arguments and flags, each flag
    with its value after "=", in the next word, or without a value where no value follows,
    or several letters that are a flag each, and at the end, after "--", words that are
    arguments whatever they look like; and what it denotes is what is parsed.  The names are
    not empty, of letters, digits, hyphens and underscores, and not of hyphens alone. *)
Theorem NewInputWithArgs_grammar args input :
  NewInputWithArgs args = Ok input ↔
  ∃ ts tail, tokens_ok ts tail ∧ args = (ts ≫= words) ++ tail_words tail ∧ input = denotes ts tail.
Proof.
  unfold NewInputWithArgs. assert (∀ j, after {| Arguments := []; in_Flags := [] |} j = j) as Hid by (by intros []).
  split.
  - intros Hp. destruct (parse_args_inv (length args) args _ _ (Nat.le_refl _) Hp) as (ts & tail & Hok & -> & ->). exists ts, tail. by rewrite Hid.
  - intros (ts & tail & Hok & -> & ->). by rewrite parse_tokens // Hid.
Qed.

(** ** Names *)
Lemma valid_name_from_spec n b :
  valid_name_from n b = true ↔ Forall (λ a, name_char a = true ∨ a = "-") n ∧ (b = true ∨ Exists (λ a, name_char a = true) n).
Proof.
  revert b. induction n as [|a n IH]; intros b; cbn [valid_name_from].
  - rewrite Forall_nil Exists_nil. tauto.
  - rewrite Forall_cons Exists_cons. destruct (name_char a) eqn:Ha; [rewrite IH; naive_solver|].
    case_bool_decide as Hh; [rewrite IH; naive_solver|]. split; [done|]. intros [[[]] _]; done.
Qed.

Lemma isValidInputName_spec n :
  isValidInputName n = true ↔ Forall (λ a, name_char a = true ∨ a = "-") n ∧ Exists (λ a, name_char a = true) n.
Proof.
  destruct n as [|a n]; [split; [done|]; intros [_ Hex]; inversion Hex|]. unfold isValidInputName. rewrite valid_name_from_spec. naive_solver.
Qed.

(** ** Which command is selected, and the values of its flags *)
Section RouterLaws.
Context {A : Type}.
Implicit Types (r : Router (A := A)) (flag : Flag (A := A)) (input : list InputFlag).

Definition values_of flag input : list text := map if_Value (List.filter (flagMatches flag) input).

Lemma parse_list_spec flag input :
  parse_list input flag =
  match values_of flag input with
  | [] => if bool_decide (Default flag = []) then None else Some (VList [Default flag])
  | values => Some (VList values)
  end.
Proof.
  assert (∀ acc, fold_left (λ values inputFlag, if flagMatches flag inputFlag then values ++ [if_Value inputFlag] else values) input acc = acc ++ values_of flag input) as Hacc.
  { unfold values_of. induction input as [|f input IH]; intros acc; cbn; [by rewrite app_nil_r|]. rewrite IH. destruct (flagMatches flag f); cbn; [by rewrite -app_assoc | done]. }
  unfold parse_list. rewrite (Hacc []). cbn. destruct (values_of flag input) as [|v values]; cbn.
  - by destruct (bool_decide (Default flag = [])).
  - by rewrite bool_decide_true; [lia|].
Qed.

Lemma parse_string_spec flag input :
  parse_string input flag =
  let val := default (Default flag) (last (values_of flag input)) in if bool_decide (val = []) then None else Some (VString val).
Proof.
  assert (∀ v b, fold_left (λ '(val, ok) inputFlag, if flagMatches flag inputFlag then (if_Value inputFlag, true) else (val, ok)) input (v, b) =
    match last (values_of flag input) with Some x => (x, true) | None => (v, b) end) as Hacc.
  { unfold values_of. induction input as [|f input IH]; intros v b; cbn; [done|]. destruct (flagMatches flag f); cbn [map]; rewrite IH; [|done].
    rewrite last_cons. by destruct (last _). }
  unfold parse_string. rewrite Hacc. by destruct (last (values_of flag input)).
Qed.

(** How arguments lead through groups to a command, with its flags and options. *)
Inductive route : Router → list text → list text → list text → list Flag → list A → Prop :=
| route_default r : route r [] [] [] (c_Flags (defaultCmd r)) (c_AppOptions (defaultCmd r))
| route_cmd r arg rest cmd :
    get_entry arg (groups r) = None → get_entry arg (cmds r) = Some cmd →
    route r (arg :: rest) [arg] rest (c_Flags cmd) (c_AppOptions cmd)
| route_group r arg rest g cmd args flags options :
    get_entry arg (groups r) = Some g → route (child g) rest cmd args flags options →
    route r (arg :: rest) (arg :: cmd) args (g_Flags g ++ flags) (g_AppOptions g ++ options).

Lemma route_split r arguments cmd args flags options : route r arguments cmd args flags options → arguments = cmd ++ args.
Proof. induction 1; cbn; congruence. Qed.

Lemma resolve_route arguments r cmdArgs flags options inp :
  match resolve arguments r cmdArgs flags options inp with
  | Ok bp => ∃ cmd args fl op bfs, route r arguments cmd args fl op ∧ blue_flags (flags ++ fl) (in_Flags inp) = Ok bfs ∧
      bp = {| bp_Cmd := cmdArgs ++ cmd; bp_Args := args; bp_Flags := bfs; bp_AppOptions := options ++ op |}
  | Err err =>
      (∃ cmd args fl op, route r arguments cmd args fl op ∧ blue_flags (flags ++ fl) (in_Flags inp) = Err err) ∨
      (∃ path arg rest, arguments = path ++ arg :: rest ∧ err = CmdNotFound (cmdArgs ++ path ++ [arg]) (cmdArgs ++ path) ∧
        (∀ cmd args fl op, ¬ route r arguments cmd args fl op) ∧ ∀ p d fl, is_Some (find_context path r p d fl))
  end.
Proof.
  revert r cmdArgs flags options. induction arguments as [|arg rest IH]; intros r cmdArgs flags options; cbn [resolve].
  - unfold newBlueprint. destruct (blue_flags _ _) as [bfs|err] eqn:Hb; cbn.
    + eexists [], [], _, _, bfs. split; [apply route_default|]. split; [done|]. by rewrite app_nil_r.
    + left. eexists [], [], _, _. split; [apply route_default | done].
  - destruct (get_entry arg (groups r)) as [g|] eqn:Hg.
    + specialize (IH (child g) (cmdArgs ++ [arg]) (flags ++ g_Flags g) (options ++ g_AppOptions g)). destruct (resolve _ _ _ _ _ _) as [bp|err].
      * destruct IH as (cmd & args & fl & op & bfs & Hr & Hb & ->). eexists (arg :: cmd), args, _, _, bfs. split; [by eapply route_group|].
        rewrite -!app_assoc in Hb |- *. done.
      * destruct IH as [(cmd & args & fl & op & Hr & Hb)|(path & arg' & rest' & -> & -> & Hn & Hc)].
        -- left. eexists (arg :: cmd), args, _, _. split; [by eapply route_group|]. by rewrite -app_assoc in Hb.
        -- right. exists (arg :: path), arg', rest'. split; [done|]. split; [by rewrite -!app_assoc|]. split.
           ++ intros cmd args fl op Hr. inversion Hr; subst; [congruence|]. simplify_eq. by eapply Hn.
           ++ intros p d fl. cbn. rewrite Hg. apply Hc.
    + destruct (get_entry arg (cmds r)) as [cmd|] eqn:Hc.
      * unfold newBlueprint. destruct (blue_flags _ _) as [bfs|err] eqn:Hb; cbn.
        -- eexists [arg], rest, _, _, bfs. split; [by apply route_cmd|]. done.
        -- left. eexists [arg], rest, _, _. split; [by apply route_cmd | done].
      * right. exists [], arg, rest. split; [done|]. rewrite app_nil_r. split; [done|]. split; [|by intros].
        intros cmd args fl op Hr. inversion Hr; subst; congruence.
Qed.

(** The arguments select a command by a route through the groups; the command with its path
    and the arguments left for it are the arguments of the input, the flags are the global
    ones, those of the groups and those of the command, each with the value of its kind. *)
Theorem NewBlueprint_correct router inp globalFlags bp :
  NewBlueprint router inp globalFlags = Ok bp ↔
  validateRouter router = None ∧ ∃ flags bfs,
    route router (Arguments inp) (bp_Cmd bp) (bp_Args bp) flags (bp_AppOptions bp) ∧ Arguments inp = bp_Cmd bp ++ bp_Args bp ∧
    blue_flags (globalFlags ++ flags) (in_Flags inp) = Ok bfs ∧ bp_Flags bp = bfs.
Proof.
  unfold NewBlueprint. destruct (validateRouter router) as [err|]; [split; [done|]; by intros []|].
  pose proof (resolve_route (Arguments inp) router [] globalFlags [] inp) as Hr. split.
  - intros Hok. rewrite Hok in Hr. destruct Hr as (cmd & args & fl & op & bfs & Hr & Hb & ->). split; [done|]. exists fl, bfs.
    split; [done|]. split; [by eapply route_split | done].
  - intros (_ & flags & bfs & Hroute & _ & Hb & Hbfs).
    assert (∀ r arguments cmd args fl op, route r arguments cmd args fl op → ∀ cmd' args' fl' op', route r arguments cmd' args' fl' op' →
      cmd' = cmd ∧ args' = args ∧ fl' = fl ∧ op' = op) as Hdet.
    { clear. intros r arguments cmd args fl op H. induction H as [r|r arg rest cmd Hg Hc|r arg rest g cmd args fl op Hg Hr IH]; intros ? ? ? ? H'; inversion H'; subst; try congruence.
      - done.
      - by simplify_eq.
      - simplify_eq. match goal with H : route (child _) _ _ _ _ _ |- _ => destruct (IH _ _ _ _ H) as (-> & -> & -> & ->) end. done. }
    destruct (resolve _ _ _ _ _ _) as [bp'|err].
    + destruct Hr as (cmd & args & fl & op & bfs' & Hr & Hb' & ->). destruct (Hdet _ _ _ _ _ _ Hroute _ _ _ _ Hr) as (-> & -> & -> & ->).
      rewrite Hb in Hb'. injection Hb' as <-. destruct bp; cbn in *. by subst.
    + destruct Hr as [(cmd & args & fl & op & Hr & Hb')|(path & arg & rest & _ & _ & Hn & _)]; [|by destruct (Hn _ _ _ _ Hroute)].
      destruct (Hdet _ _ _ _ _ _ Hroute _ _ _ _ Hr) as (-> & -> & -> & ->). congruence.
Qed.

Lemma validateRouter_error r err : validateRouter r = Some err → ∃ kind value, err = InvalidName kind value.
Proof.
  revert r err. fix IH 1. intros [gs cs d] err. cbn. destruct (_ && _); [intros [= <-]; eauto|].
  match goal with |- context [match ?f gs with _ => _ end] => set (go := f) end.
  assert (∀ e, go gs = Some e → ∃ kind value, e = InvalidName kind value) as Hgo.
  { induction gs as [|[k [child name desc fl op]] gs IHgs]; intros e; cbn; [done|].
    destruct (negb _); [intros [= <-]; eauto|]. destruct (validateRouter child) as [e'|] eqn:Hc; [|apply IHgs].
    intros [= <-]. by apply IH in Hc. }
  destruct (go gs) as [e|]; [intros [= <-]; by apply Hgo|]. clear. induction cs as [|[k cmd] cs IHcs]; [done|].
  destruct (negb _); [intros [= <-]; eauto | apply IHcs].
Qed.

Lemma blue_flags_error flags input err : blue_flags (A := A) flags input = Err err → ∃ kind name, err = UnsupportedKind kind name.
Proof.
  induction flags as [|f flags IH]; cbn; [done|]. unfold flagParse. destruct (bool_decide _); [|destruct (bool_decide _)]; cbn.
  3: intros [= <-]; eauto.
  all: destruct (blue_flags flags input); cbn; [done|]; intros [= <-]; by apply IH.
Qed.

(** For a command that is not found there is always a help to write: that of the last group
    that was reached. *)
Theorem not_found_has_help (c : Cli (A := A)) inp cmd helpPath (decimal : nat → text) :
  NewBlueprint (cli_Router c) inp (cli_flags c) = Err (CmdNotFound cmd helpPath) →
  (∃ arg rest, cmd = helpPath ++ [arg] ∧ Arguments inp = cmd ++ rest) ∧ ∃ help, writeHelp decimal c helpPath = Ok help.
Proof.
  unfold NewBlueprint. destruct (validateRouter (cli_Router c)) as [err|] eqn:Hv.
  { intros [= ->]. apply validateRouter_error in Hv as (? & ? & [=]). }
  intros Herr. pose proof (resolve_route (Arguments inp) (cli_Router c) [] (cli_flags c) [] inp) as Hr. rewrite Herr in Hr.
  destruct Hr as [(? & ? & ? & ? & _ & Hb)|(path & arg & rest & Hargs & Heq & _ & Hc)].
  { apply blue_flags_error in Hb as (? & ? & [=]). }
  injection Heq as -> ->. split; [exists arg, rest; by rewrite Hargs -app_assoc|].
  unfold writeHelp, findHelpContext. destruct (Hc [] (cli_description c) []) as [ctx ->]. by eexists.
Qed.
End RouterLaws.

(** ** Lines of the help *)
Definition no_space (w : text) : Prop := Forall (λ a, is_space a = false) w.

Lemma fields_from_word w s acc : no_space w → fields_from (w ++ s) acc = fields_from s (acc ++ w).
Proof.
  intros Hw. revert acc. induction Hw as [|a w Ha Hw IH]; intros acc; cbn; [by rewrite app_nil_r|]. rewrite Ha IH. by rewrite -app_assoc.
Qed.

Lemma fields_from_spec s acc : no_space acc → Forall (λ w, no_space w ∧ w ≠ []) (fields_from s acc).
Proof.
  revert acc. induction s as [|a s IH]; intros acc Hacc; cbn.
  - destruct acc; [constructor|]. by constructor.
  - destruct (is_space a) eqn:Ha.
    + destruct acc; [apply IH; constructor|]. constructor; [done|]. apply IH. constructor.
    + apply IH. apply Forall_app. split; [done|]. by constructor.
Qed.

Lemma fields_word w : no_space w → w ≠ [] → Fields w = [w].
Proof. intros Hw Hne. unfold Fields. rewrite -{1}(app_nil_r w) fields_from_word //. by destruct w. Qed.

Lemma fields_from_app s t acc : fields_from (s ++ " " :: t) acc = fields_from s acc ++ Fields t.
Proof.
  revert acc. induction s as [|a s IH]; intros acc; cbn; [by destruct acc|]. destruct (is_space a); [|apply IH]. destruct acc; cbn; by rewrite IH.
Qed.

Lemma fields_app s t : Fields (s ++ " " :: t) = Fields s ++ Fields t.
Proof. apply fields_from_app. Qed.

Lemma wrap_words_spec available ws current :
  Forall (λ w, no_space w ∧ w ≠ []) ws →
  (wrap_words available ws current ≫= Fields) = Fields current ++ ws ∧
  ∀ l, l ∈ wrap_words available ws current → length l ≤ available ∨ l ∈ current :: ws.
Proof.
  intros Hws. revert current. induction Hws as [|w ws [Hw Hne] Hws IH]; intros current; cbn [wrap_words].
  - cbn. rewrite !app_nil_r. split; [done|]. set_solver.
  - destruct (Nat.leb_spec (length current + 1 + length w) available) as [Hle|Hgt].
    + destruct (IH (current ++ [" "] ++ w)) as [IH1 IH2]. split.
      * rewrite IH1. cbn. rewrite fields_app (fields_word w) //. by rewrite -app_assoc.
      * intros l Hl. destruct (IH2 l Hl) as [|[->|Hin]%elem_of_cons]; [by left| |right; set_solver].
        left. rewrite !length_app /=. lia.
    + destruct (IH w) as [IH1 IH2]. split.
      * cbn. rewrite IH1 (fields_word w) //.
      * intros l [->|Hl]%elem_of_cons; [right; set_solver|]. destruct (IH2 l Hl) as [|Hin]; [by left|]. right. set_solver.
Qed.

(** Wrapping keeps the words of a line, and no line is longer than allowed unless it is one
    word that does not fit, or there is no room for a text at all. *)
Theorem wrapLine_correct line prefix lineLength :
  (wrapLine line prefix lineLength ≫= Fields) = Fields line ∧ wrapLine line prefix lineLength ≠ [] ∧
  ((Z.of_nat (length prefix) < lineLength)%Z →
   ∀ l, l ∈ wrapLine line prefix lineLength → (Z.of_nat (length prefix + length l) ≤ lineLength)%Z ∨ l ∈ Fields line).
Proof.
  unfold wrapLine. destruct (bool_decide (line = [])) eqn:He; [apply bool_decide_eq_true in He as ->; split_and!; try done; intros Hp l ->%list_elem_of_singleton; left; cbn; lia|].
  destruct (bool_decide (lineLength ≤ 0)%Z) eqn:H0; cbn [orb].
  { apply bool_decide_eq_true in H0. cbn. rewrite app_nil_r. split_and!; try done. lia. }
  destruct (bool_decide (Z.of_nat (length prefix + length line) ≤ lineLength)%Z) eqn:Hfit.
  { apply bool_decide_eq_true in Hfit. cbn. rewrite app_nil_r. split_and!; try done. intros _ l ->%list_elem_of_singleton. by left. }
  destruct (bool_decide (lineLength - Z.of_nat (length prefix) ≤ 0)%Z) eqn:Ha.
  { apply bool_decide_eq_true in Ha. cbn. rewrite app_nil_r. split_and!; try done. lia. }
  pose proof (fields_from_spec line [] (Forall_nil_2 _)) as Hf. fold (Fields line) in Hf.
  destruct (Fields line) as [|w ws] eqn:Hfields; cbn.
  { split_and!; try done. intros Hp l ->%list_elem_of_singleton. left. cbn. lia. }
  apply Forall_cons in Hf as [[Hw Hne] Hws]. apply bool_decide_eq_false in Ha. destruct (wrap_words_spec (Z.to_nat (lineLength - Z.of_nat (length prefix))) ws w Hws) as [H1 H2].
  split_and!.
  - rewrite H1 fields_word //.
  - intros Hnil. rewrite Hnil fields_word // in H1.
  - intros Hp l Hl. destruct (H2 l Hl) as [Hlen|Hin]; [left; lia | by right].
Qed.

(** ** Samples *)
Module CliSamples.
Definition run_cmd : Cmd_ (A := unit) := {| c_Name := str "run"; c_Description := str "Runs it."; c_Arguments := str "multiple"; Examples := [];
  c_Flags := [{| Short := str "f"; Long := str "file"; Kind := str "list"; CfgKey := []; Default := []; f_Description := []; f_AppOptions := [] |};
              {| Short := str "m"; Long := str "mode"; Kind := []; CfgKey := str "app.mode"; Default := str "fast"; f_Description := []; f_AppOptions := [] |}]; c_AppOptions := [tt] |}.
Definition router : Router (A := unit) := Group (MkGroup NewRouter (str "db") (str "The database.") [] []) [run_cmd] (DefaultCmd run_cmd NewRouter).
Definition cli : Cli (A := unit) := {| cli_Router := router; name := str "tool"; cli_description := []; helpLineLength := 0; cli_flags := [] |}.
Definition decimal (n : nat) : text := [ascii_of_nat (48 + n)].
Definition run (args : list string) := Run decimal cli [] (str <$> args).

Example run_starts : run ["db"; "run"; "-f"; "a"; "--file=b"; "x"; "--"; "-y"]%string =
  Start [AppOption tt; Setting (str "cli.cmd") (VList [str "db"; str "run"]); Setting (str "cli.args") (VList [str "x"; str "-y"]);
         Setting (str "cli.flags.file") (VList [str "a"; str "b"]); Setting (str "cli.flags.mode") (VString (str "fast")); Setting (str "app.mode") (VString (str "fast"))]
        [str "db"; str "run"].
Proof. vm_compute. reflexivity. Qed.

(** A flag without a value takes the word after it as its value, which then is no command. *)
Example flag_takes_command : run ["--verbose"; "db"]%string = run [] ∧ run ["db"; "--verbose"]%string ≠ run [].
Proof. vm_compute. done. Qed.

Lemma not_found_has_help_witness : ∃ help, writeHelp decimal cli [str "db"] = Ok help.
Proof. exact (proj2 (not_found_has_help cli {| Arguments := [str "db"; str "drop"]; in_Flags := [] |} [str "db"; str "drop"] [str "db"] decimal eq_refl)). Defined.

(** An entry of the help without a description ends in blanks: the text of such an entry is
    never without lines, so the branch that cuts them off is not reached. *)
Example entry_ends_in_blanks : writeHelpEntry {| usage := str "run"; description := [] |} 3 120 = str "    run  " ++ nl.
Proof. vm_compute. reflexivity. Qed.
End CliSamples.
